(* ===== verification/_CoqProject ===== *)
-Q . S2P
Prelude.v
X86Disasm.v
A64Disasm.v
E9Signatures.v
E9Vendor.v
Binary.v
BinPatch.v
Ape.v
LiveReload.v
E9Patch.v
E9Alloc.v
E9AllocTree.v
E9AllocSpec.v
E9AllocIter.v
E9AllocApi.v
E9X86.v
E9Tactics.v
E9TacticsMem.v
E9TacticsSpec.v
E9TacticsInv.v
E9TacticsEvict.v
E9TacticsPatch.v
E9X86Sim.v
E9Optimize.v
E9OptimizeSpec.v
E9Trampoline.v
E9TrampolineOrder.v
E9TrampolineSpec.v
E9TrampolineAsm.v
E9TrampolineProps.v
E9TrampolineBounds.v
E9Mapping.v
E9MappingTree.v
E9MappingSpec.v
E9MappingFlat.v
E9Misc.v
E9Elf.v
E9Loader.v
E9ElfSpec.v
E9ElfMaps.v
E9ElfImage.v
E9ElfTraps.v
E9CFR.v
E9CFRSpec.v
E9Options.v
E9Api.v
E9ApiQueue.v
E9ApiSpec.v
E9Json.v
E9JsonTotal.v
E9Frontend.v
E9FrontendSpec.v
