(* ===== verification/Prelude.v ===== *)
(** * E9Patch and the C core of E9Studio: verification development (root file)

    The repository holds the e9patch static rewriter (C++) and, around it, E9Studio: a C
    library that analyses binaries, edits them in place and reloads code into a running
    program.  This development models the rewriter for ELF programs from the messages of the
    client to the output (options, queue, tactics, allocator, relocation, trampolines,
    optimisation of jumps, recovery of jump targets, mappings, ELF output and loader), and
    the parts of the C library that decode and change machine code, and proves what they
    promise.  Paths are those under src/src/e9patch/.

    ** Parts: the C library

    - [Prelude] (this file): C integers, byte arrays, text output, and the lemmas, tactics
      and hint databases that the other files share.
    - [X86Disasm], Module [X86]: vendor/e9disasm_x86.c, the x86-64 disassembler of the vendor
      library: tables, ModR/M decoding ([decode_modrm]), prefixes and opcodes
      ([e9_x86_disasm_one]), text ([e9_x86_insn_format]), sweep ([e9_x86_disasm]), queries.
    - [A64Disasm], Module [A64]: vendor/e9disasm_arm64.c, its AArch64 counterpart: one
      function per case of the decoder ([decode_adr] .. [decode_exception]), the chain of
      tests ([decode]), [e9_a64_disasm_one], text, sweep, tests for prologues and epilogues.
    - [E9Signatures], Module [Sig]: vendor/e9signatures.c and the table of its header: building
      the scanner ([e9_sig_scanner_create]), [e9_sig_scan] with the array of matches that it
      grows, lookups and header checks.
    - [E9Vendor], Module [Vendor]: vendor/e9vendor.c, which composes the three parts above:
      [e9_identify], [e9_disasm_one] and [e9_disasm_many] for several architectures, strings,
      compression, CRC32, digests as text, dumps.
    - [Binary], Module [Bin]: the context [E9Binary] of analysis/e9analysis.h and, from
      e9analysis.c, the length decoder ([x64_insn_length]), the two decoders
      ([disasm_x64], [disasm_aarch64]) and [e9_disasm_instruction], [e9_disasm_range].
    - [BinPatch], Module [BinPatch]: analysis/e9binpatch.c, the editing session over an
      [E9Binary]: patches are recorded ([add_patch] and its callers), validated, applied to
      an output buffer, verified and reverted; NOP, jump and call generators; code caves.
      It uses [Binary] for the size of the instruction at an address.
    - [Ape], Module [Ape]: e9ape.c, Actually Portable Executables: detection and parsing,
      RVA and file offset, patching, the ZipOS directory.
    - [LiveReload], Module [LiveReload]: e9livereload.c, which maps an APE, watches its
      sources, recompiles, and patches the mapping through [Ape].  The operations run in a
      state monad over a [World] (the global state, the trace of actions, the number of
      external calls made).  Two classes are its interfaces: [Env], the answers of the
      operating system, and [Differ], the object differ of e9binaryen.c (a stub, the instance
      [binaryen_differ]); the theorems about live reload hold for every [Env], and for every
      [Differ] whose patches have blocks of the size they state ([differ_ok]).

    ** Parts: the rewriter

    - [E9Patch], Module [E9]: e9patch.h, the types that the rewriter shares: [Instr],
      [Binary] (the arrays of original bytes, patched bytes and states, the instructions,
      the trampolines, the entry points, the state of the allocator), [Options], [Bounds].
      Instructions are numbered by their position in the array of instructions, as
      [Instr::next] and [Instr::prev] step through it; objects from [new] have fresh names.
    - [E9Alloc], Module [E9Alloc]: e9alloc.cpp, the address space as a red-black interval
      tree: nodes with parent pointers in a heap, rotations, the two rebalancing loops,
      [insertLeftChild] .. [insert], [allocate], [reserve], [deallocate], [find] and the
      iterators.  The sizes of trampolines are the class [Trampolines], the range of
      addresses the class [Window].
    - [E9AllocTree] .. [E9AllocApi]: its proof.  [AllocTree] relates the heap to an inductive
      tree with the red-black invariant; [AllocSpec] is the abstract machine, lists of
      disjoint allocations; [AllocIter] has the iterators and the depth; [AllocApi] the
      interface [VirtualSpace], what the allocator promises to the tactics, with its
      instance, and the theorems.
    - [E9X86], Module [E9X86]: e9x86_64.cpp: prefixes and opcodes, [relocateInstr],
      [getInstrPCRelativeIndex], [getCFTInfo] and its callers.
    - [E9Tactics], Module [E9Tactics]: e9tactics.cpp: the tactics B0, B1, B2, T0, T1, T2, T3
      over the bytes, the states of bytes and the allocator, [undo], [commit], [patch].
    - [E9TacticsMem] .. [E9TacticsPatch]: their proof, against the interfaces
      [VirtualSpace], [Trampolines], [Window] and the classes [Setup] (the options) and
      [Contract] (sizes and bounds of trampolines).  [TacticsMem]: the writes;
      [TacticsSpec]: allocation and the single tactics; [TacticsInv]: the invariant [wf] and
      [lands]; [TacticsEvict]: T2 and T3; [TacticsPatch]: T0 and [patch].
    - [E9Optimize], Module [E9Optimize]: e9optimize.cpp: entry points of trampolines
      ([buildEntrySet]), [findInstr], [optimizeJump], [optimizeAllJumps]; [OptimizeSpec] has
      its theorems.
    - [E9Trampoline], Module [E9Trampoline]: e9trampoline.cpp: the passes over the entries of
      a template (size, bounds, labels, bytes), breaks and epilogues, prologues,
      [flattenTrampoline]; its instance [e9_trampolines] of [Trampolines] is what the
      allocator asks for.  [TrampolineOrder]: the order on templates.  [X86Sim] relates two
      runs of [relocateInstr]; [TrampolineSpec]: what a buffer [holds]; [TrampolineAsm]: the
      reference, which expands a template to a list of items ([expand]), lays the items out
      ([layout]) and assembles each at its address ([assemble]), and the passes against it;
      [TrampolineProps] and [TrampolineBounds]: the theorems.
    - [E9Mapping], Module [E9Mapping]: e9mapping.cpp: the allocations of a range of pages as
      a mapping with its key, [buildMappings], the radix tree of groups ([insert], [remove],
      the search), [optimizeMappings], [flattenMapping], [getVirtualRanges].  [MappingTree]:
      the radix tree as a map; [MappingSpec] and [MappingFlat]: keys, bounds and bytes.
    - [E9Misc], Module [E9Misc]: e9misc.cpp: the sorted array of instructions and its
      searches, with their proof.
    - [E9Elf], Module [E9Elf]: e9elf.cpp: [parseElf], [emitRefactoredPatch], [emitElf] (the
      tables of the loader, its stub, the replaced entry points and headers).  [E9Loader],
      Module [E9Loader]: e9loader.cpp and e9loader_elf.cpp, the C part of the loader, with
      [e9load_maps], the search for a trap, [e9init] and [e9fini].  [ElfSpec], [ElfMaps] and
      [ElfImage]: the table that is emitted against the loader that reads it; [ElfTraps]: the
      table of traps against the handler that searches it.
    - [E9CFR], Module [E9CFR]: e9CFR.cpp: the map of possible jump targets, from the bytes of
      the code, the dynamic section and pointers and jump tables in the data; [CFRSpec] has
      its theorem.
    - [E9Options], Module [E9Options]: the options of e9patch.cpp, their initial values and
      [parseOptions], with the ranges that the options keep ([parse_list_ok]).
    - [E9Api], Module [E9Api]: e9api.cpp: a [Session] is the [Binary] with the options and
      statistics; one function per message, [queuePatch] and [queueFlush], and [parseMessage],
      which composes them; [parseEmit] composes all passes above.  [ApiQueue]: flushing
      against the guarantees of [TacticsPatch]; [ApiSpec]: sessions, a step relation over
      messages with its invariant [inv].
    - [E9Json], Module [Json]: e9json.cpp, the parser of messages: tokens, values, templates,
      parameters, [getMessage] and the loop of main over the messages.  [JsonTotal]: it ends.
      The messages of [E9Api] are these messages with names for the templates.
    - [E9Frontend], Module [Frontend]: of e9tool (e9frontend.cpp) the functions that write
      the messages.  [FrontendSpec]: the text of a session as tokens, and what is read back.

    ** How C and C++ are read

    - An integer of width w is a [Z]; conversions and arithmetic that may leave the width are
      written with [wrapu] ([u8] .. [u64]) and [wraps] ([s8] .. [s64]).  Signed overflow is
      read as wrap-around.  Where an operation cannot leave the width under the types of its
      operands the conversion is left out.
    - Memory is a list of bytes, in a little-endian host.  A pointer that can be NULL is an
      [option].  A read or write outside its object is undefined behaviour: the computation is
      [None], and stays so; a failed assertion and [error] are [None] as well.  The size that
      is passed next to a pointer is a separate argument.
    - The parser of messages has outcomes of its own ([Json.res]): done, failed, undefined, out
      of fuel.
    - A loop that is not structural takes fuel; running out of fuel is [None] as well, so a
      theorem that a computation returns [Some] also says that its loops end.  The fuel is the
      size of the buffer, the number of nodes of the tree ([depth_fuel]: a path is not longer)
      or of instructions ([instr_fuel], [num_instrs]: every iteration moves to another one), or
      the constant bound of the loop or the recursion ([T0_LIMIT]; [macro_fuel], the depth of
      nested macros beyond which the code stops with an error).  [parseElf] takes the fuel of
      its two loops over notes as an argument, because neither need end (the findings say
      why); the search for a trap halves at most [num + 2] times; the walks over a segment,
      a dynamic section or a hash chain take at most the length of the file.
    - [malloc] and the system calls are arguments: a boolean or a function of the number of
      the call.  Output parameters are results.  Text for stderr is left out.
    - Buffers of the caller are values: the models do not follow aliasing between them.  The
      arrays of the rewriter, which its instructions share, are one state that is passed on.

    ** What is shown

    - Rewriting: [patch_lands] ([patch] is total, and on success control that reaches the
      instruction goes on at its trampoline while all instructions patched before still do),
      [patch_failure_restores] (a failed patch undoes what it did), [patch_wf] (the invariant
      that makes the next patch possible).
    - Sessions: [session_lands]: after any number of messages that describe instructions and
      request patches, with flushes in between, the final flush returns, and every request
      has landed or was counted as failed.  Messages that change options in between are not
      part of these sessions, since the contract of the tactics is for fixed options.
    - Messages: [sent_received] (the rewriter reads what e9tool sends), [json_total] (the
      parser ends on every input).
    - Output: [trampolines_loaded] (from the address space over mappings, merged groups, the
      emitted table and the loader to the memory of the program), [traps_dispatched] (the
      signal handler sends every address with a trap to its trampoline), [radix_is_map].
    - Targets: [branches_marked] (the map contains the target of every direct branch and the
      return address of every direct call, at any offset of the code).
    - Allocation: [allocator_refines_spec] (the tree implements the abstract machine for
      every sequence of calls), [allocate_finds_room] (completeness), [find_logarithmic].
    - Trampolines: [flatten_assembles] (flattening gives the code of the assembly listing),
      [size_exact] (of the size that was asked for), [label_reached] and [break_continues]
      (its operands and breaks lead where they should), [bounds_reach] (and can be encoded at
      an address within the bounds), and the lemma [TrampolineCmp_order].
    - Jumps: [optimizeJump_redirects], [findInstr_exact].
    - Relocation: [relocate_preserves_branch], [relocate_preserves_operand].
    - Decoding: [X86.disasm_one_total], [A64.a64_sweep_exact], [Bin.disasm_instruction_sound] and the lemmas
      [X86.disasm_sweep] and [Bin.disasm_range_chain]: no access outside the code, termination, no truncated text,
      instructions that tile the input.  The lemma [Bin.x64_branch_roundtrip] and
      [Bin.a64_branch_roundtrip]: decoding inverts the encoding of direct branches.
    - Scanning: [Sig.scan_exact] (the buckets by first byte find what a search of every
      signature at every position finds).
    - Data: [Vendor.crc32_bitwise], [Vendor.strings_exact] and the lemmas [identify_safe],
      [hexdump_lines], [hash_hex_roundtrip].
    - Generation: the lemmas [BinPatch.gen_jmp_decodes], [gen_call_decodes] and
      [gen_nops_fills]: what is generated decodes to what was asked for, with the decoders of
      [Binary].
    - Editing: [session_reachable_inv] (every state a session can reach),
      [apply_in_place], [revert_restores], [caves_alloc_best_fit],
      and the lemmas [validate_disjoint] and [caves_find_sound].
    - APE: [ape_parse_sound], [ape_zipos_roundtrip], and the lemmas [ape_address_bijection]
      and [ape_patch_undo].
    - Live reload: [lr_reachable_inv] and [lr_no_leak] over all sequences of calls,
      [lr_apply_patch_exact], [lr_apply_revert_restores], [lr_poll_refines] (the loop over the
      kernel's buffer refines the list of its events).  Smaller facts, such as [apply_verify],
      [offset_vaddr_roundtrip], [ape_detect_exact] or [lr_revert_total], are lemmas of the
      files.
    - Limits of the code that came out of this, as lemmas: [reserve_overflows],
      [relocate_copies_loop], [call_r8_not_CFT], [sib_displacement_missed],
      [t3b_overwrites_rel8] (for which the theorems about [patch] leave out tactic T3 on
      single-byte instructions), [macro_failure_added], [batch_bounds_twice], [label_prefix],
      [breaks_conflated], [reserve_full_rejected], [eof_byte_rejected], [zoo_accepted], [map_size_truncated], [mmap_flag_lost], [e9addr_negative],
      [a64_cbnz_not_recognised], [direct_branches_missed], [pairs_taken_for_branches],
      [ape_detect_wraps], [validate_pe_wraps], [create_unchecked],
      [disasm_one_overruns], [hexdump_overflows], [info_print_overflows], [identify_pe_wraps],
      [ape_zipos_name_unchecked], [lr_apply_patch_reads_unchecked].

    A theorem with hypotheses is followed, in its file, by its witness: the same name with
    [_witness], the theorem at a concrete input.

    ** What is not modelled

    Of the rewriter: the writer and the loader for Windows programs (e9pe.cpp,
    e9loader_pe.cpp), a second output format; writing the output (e9emit.cpp) and the rest
    of main, which are input and output; of the loader the entry code in assembly, the restoring of a signal
    context, the scratch page and the seccomp filter; debugging output; and of e9tool, the
    front end, all but the messages it sends: it matches instructions, with a third-party
    disassembler.
    Of the C library: freeing memory; writing the patched file and the textual summaries; the
    parts of e9analysis.c outside its decoders (format detection, symbols, control flow
    graphs, decompilation, diffing); entropy, which is floating point; the polyglot detector and the function signatures, which only serve
    display and guesses; the WASM host, the user interfaces, the external tools and the IDE
    protocol, which are mostly input and output. *)

From Stdlib Require Export ZArith Lia Bool String Ascii.
From stdpp Require Export base option list strings.

#[export] Set Default Goal Selector "!".
#[export] Set Warnings "-clear-no-such-hyp".

Open Scope Z_scope.

Declare Scope e9_scope.
Delimit Scope e9_scope with e9.
Open Scope e9_scope.

(** Assignments in the order of the code: [x |> f |> g] is [g (f x)]. *)
Notation "x |> f" := (f x) (at level 49, left associativity, only parsing) : e9_scope.

(** ** C integers

    A C integer of width [w] is a [Z]; [wrapu w] and [wraps w] are the
    conversions to the unsigned and the (two's complement) signed type. *)

Definition wrapu (w z : Z) : Z := z mod 2 ^ w.

Definition wraps (w z : Z) : Z :=
  let m := z mod 2 ^ w in
  if m <? 2 ^ (w - 1) then m else m - 2 ^ w.

Abbreviation u8 := (wrapu 8).
Abbreviation u16 := (wrapu 16).
Abbreviation u32 := (wrapu 32).
Abbreviation u64 := (wrapu 64).
Abbreviation s8 := (wraps 8).
Abbreviation s16 := (wraps 16).
Abbreviation s32 := (wraps 32).
Abbreviation s64 := (wraps 64).

Definition INT32_MIN : Z := - 2 ^ 31.
Definition INT32_MAX : Z := 2 ^ 31 - 1.

(** [lo <= z <= hi] as the boolean test of a C condition. *)
Definition between (lo hi z : Z) : bool := (lo <=? z) && (z <=? hi).

(** The truth value of a C integer used as a condition. *)
Definition truthy (z : Z) : bool := negb (z =? 0).

(** [z == l0 || z == l1 || ...], and the labels of a [switch] case. *)
Definition one_of (l : list Z) (z : Z) : bool := existsb (Z.eqb z) l.

Definition bool_to_Z (b : bool) : Z := if b then 1 else 0.

(** ** Objects in memory

    A byte array is a [list Z] whose elements are bytes.  An access outside
    the array is undefined behaviour in C: the read and write functions
    return [None] there, and the whole computation is then [None]. *)

Abbreviation bytes := (list Z).

Definition byte_ok (b : Z) : Prop := 0 <= b < 256.

Definition bytes_ok (l : bytes) : Prop := Forall byte_ok l.

Definition blen (l : bytes) : Z := Z.of_nat (List.length l).

(** [p[off]] *)
Definition rd (l : bytes) (off : Z) : option Z :=
  if 0 <=? off then l !! Z.to_nat off else None.

(** [*(uint16_t * )(p + off)] and so on, on a little-endian host. *)
Definition rd16 (l : bytes) (off : Z) : option Z :=
  b0 ← rd l off; b1 ← rd l (off + 1); Some (b0 + 256 * b1).

Definition rd32 (l : bytes) (off : Z) : option Z :=
  h0 ← rd16 l off; h1 ← rd16 l (off + 2); Some (h0 + 65536 * h1).

Definition rd64 (l : bytes) (off : Z) : option Z :=
  w0 ← rd32 l off; w1 ← rd32 l (off + 4); Some (w0 + 2 ^ 32 * w1).

(** The [n] bytes at [p + off], as [memcpy] and [memcmp] read them. *)
Definition rdn (l : bytes) (off n : Z) : option bytes :=
  if (0 <=? off) && (0 <=? n) && (off + n <=? blen l)
  then Some (take (Z.to_nat n) (drop (Z.to_nat off) l))
  else None.

(** [memcpy(p + off, src, |src|)] *)
Definition wrn (l : bytes) (off : Z) (src : bytes) : option bytes :=
  if (0 <=? off) && (off + blen src <=? blen l)
  then Some (take (Z.to_nat off) l ++ src ++ drop (Z.to_nat off + List.length src) l)
  else None.

(** [memcmp(p + off, pat, |pat|) == 0] *)
Definition memeq (l : bytes) (off : Z) (pat : bytes) : option bool :=
  x ← rdn l off (blen pat); Some (bool_decide (x = pat)).

(** The bytes of an integer of [n] bytes, least significant first. *)
Fixpoint le_bytes (n : nat) (z : Z) : bytes :=
  match n with
  | O => []
  | S n' => z mod 256 :: le_bytes n' (z / 256)
  end.

(** The bytes of a C string literal, without its final NUL. *)
Fixpoint bytes_of_string (s : string) : bytes :=
  match s with
  | EmptyString => []
  | String c s' => Z.of_N (N_of_ascii c) :: bytes_of_string s'
  end.

(** The object behind the pointer [p + off]. *)
Definition at_off (l : bytes) (off : Z) : bytes := drop (Z.to_nat off) l.

(** [while (pos < lim && test(p[pos])) pos++], from [pos]; [fuel >= lim - pos]
    is enough. *)
Fixpoint skip_while (fuel : nat) (test : Z → bool) (l : bytes) (lim pos : Z) : option Z :=
  if lim <=? pos then Some pos
  else
    match fuel with
    | O => None
    | S f => b ← rd l pos; if test b then skip_while f test l lim (pos + 1) else Some pos
    end.

(** ** Text output: [p += snprintf(p, end - p, ...)]

    The idiom the formatters use.  [size] is the size of the character array
    [buf], [end = buf + size - 1], the cursor [p] is an offset into [buf],
    and [out] is the C string the array holds.  With [p > end] the difference
    [end - p] wraps to a huge [size_t] and the call writes past the array. *)

Record cursor := Cursor { cur_pos : Z; cur_out : string }.

Definition slen (s : string) : Z := Z.of_nat (String.length s).

Definition str_take (n : Z) (s : string) : string := String.substring 0 (Z.to_nat n) s.

Definition put (size : Z) (s : string) (c : cursor) : option cursor :=
  let n := size - 1 - cur_pos c in
  if n <? 0 then None
  else Some (Cursor (cur_pos c + slen s)
                    (if n =? 0 then cur_out c
                     else String.append (cur_out c) (str_take (n - 1) s))).

(** The closing [*p = '\0']. *)
Definition finish (size : Z) (c : cursor) : option string :=
  if cur_pos c <? size then Some (cur_out c) else None.

(** [snprintf(buf, size, "%s", s)] and [strncpy(buf, s, size - 1)] into a
    zeroed array: the text cut to [size - 1] characters. *)
Definition clip (size : Z) (s : string) : string := str_take (size - 1) s.

Definition hex_digit (d : Z) : ascii :=
  ascii_of_N (Z.to_N (if d <? 10 then 48 + d else 87 + d)).

Definition dec_digit (d : Z) : ascii := ascii_of_N (Z.to_N (48 + d)).

(** [%x] and [%llx] of an unsigned value below [16 ^ fuel]. *)
Fixpoint hex_fuel (fuel : nat) (z : Z) (acc : string) : string :=
  match fuel with
  | O => acc
  | S f =>
      let acc' := String (hex_digit (z mod 16)) acc in
      if z / 16 =? 0 then acc' else hex_fuel f (z / 16) acc'
  end.

Definition hex (z : Z) : string := hex_fuel 16 z EmptyString.

(** [%0nx]: exactly [n] digits (for a value below [16 ^ n]). *)
Fixpoint hex_pad (n : nat) (z : Z) (acc : string) : string :=
  match n with
  | O => acc
  | S n' => hex_pad n' (z / 16) (String (hex_digit (z mod 16)) acc)
  end.

(** [%d] and [%u] of a value with [0 <= z < 10 ^ fuel]. *)
Fixpoint dec_fuel (fuel : nat) (z : Z) (acc : string) : string :=
  match fuel with
  | O => acc
  | S f =>
      let acc' := String (dec_digit (z mod 10)) acc in
      if z / 10 =? 0 then acc' else dec_fuel f (z / 10) acc'
  end.

Definition dec (z : Z) : string := dec_fuel 20 z EmptyString.

(** ** Total correctness

    [safely m P]: the computation [m] has no undefined behaviour and its
    result satisfies [P]. *)
Definition safely {A} (m : option A) (P : A → Prop) : Prop :=
  match m with Some a => P a | None => False end.

(** * Lemmas *)

(** ** Integers *)

Lemma pow2_pos w : 0 <= w → 0 < 2 ^ w.
Proof. intros. apply Z.pow_pos_nonneg; lia. Qed.

Lemma pow2_half w : 0 < w → 2 ^ w = 2 * 2 ^ (w - 1).
Proof. intros. rewrite <- Z.pow_succ_r by lia. f_equal. lia. Qed.

Lemma wrapu_range w z : 0 <= w → 0 <= wrapu w z < 2 ^ w.
Proof. intros. apply Z.mod_pos_bound, pow2_pos. lia. Qed.

Lemma wrapu_small w z : 0 <= z < 2 ^ w → wrapu w z = z.
Proof. apply Z.mod_small. Qed.

Lemma wrapu_eqm w z k : wrapu w (z + k * 2 ^ w) = wrapu w z.
Proof. apply Z_mod_plus_full. Qed.

Lemma wraps_eqm w z : 0 <= w → ∃ k, wraps w z = z + k * 2 ^ w.
Proof.
  intros Hw. unfold wraps. pose proof (pow2_pos w Hw).
  pose proof (Z.div_mod z (2 ^ w) ltac:(lia)).
  destruct (_ <? _); [exists (- (z / 2 ^ w)) | exists (- (z / 2 ^ w) - 1)]; lia.
Qed.

Lemma wrapu_wraps w z : 0 <= w → wrapu w (wraps w z) = wrapu w z.
Proof. intros Hw. destruct (wraps_eqm w z Hw) as [k ->]. apply wrapu_eqm. Qed.

Lemma wraps_range w z : 0 < w → - 2 ^ (w - 1) <= wraps w z < 2 ^ (w - 1).
Proof.
  intros. unfold wraps. pose proof (pow2_half w ltac:(lia)).
  pose proof (Z.mod_pos_bound z (2 ^ w) ltac:(apply pow2_pos; lia)).
  destruct (Z.ltb_spec (z mod 2 ^ w) (2 ^ (w - 1))); lia.
Qed.

Lemma wraps_small w z : 0 < w → - 2 ^ (w - 1) <= z < 2 ^ (w - 1) → wraps w z = z.
Proof.
  intros. unfold wraps. pose proof (pow2_half w ltac:(lia)).
  assert (z mod 2 ^ w = z ∨ z mod 2 ^ w = z + 2 ^ w) as [-> | ->].
  { destruct (Z.ltb_spec z 0).
    - right. rewrite <- (Z.mod_small (z + 2 ^ w) (2 ^ w)) by lia.
      replace (z + 2 ^ w) with (z + 1 * 2 ^ w) by lia. by rewrite Z_mod_plus_full.
    - left. apply Z.mod_small. lia. }
  - destruct (Z.ltb_spec z (2 ^ (w - 1))); lia.
  - destruct (Z.ltb_spec (z + 2 ^ w) (2 ^ (w - 1))); lia.
Qed.

(** A conversion of a nonnegative size to a signed type never grows it. *)
Lemma wraps_le w z : 0 <= w → 0 <= z → wraps w z <= z.
Proof.
  intros. unfold wraps. pose proof (pow2_pos w ltac:(lia)).
  pose proof (Z.mod_le z (2 ^ w) ltac:(lia) ltac:(lia)).
  destruct (_ <? _); lia.
Qed.

Lemma wraps_wrapu w z : wraps w (wrapu w z) = wraps w z.
Proof.
  unfold wraps, wrapu. destruct (Z.leb_spec 0 w).
  - pose proof (pow2_pos w ltac:(lia)). by rewrite Z.mod_mod by lia.
  - rewrite (Z.pow_neg_r 2 w) by lia. by rewrite !Z.mod_0_r.
Qed.

Lemma between_spec lo hi z : between lo hi z = true ↔ lo <= z <= hi.
Proof. unfold between. rewrite andb_true_iff, !Z.leb_le. done. Qed.

Lemma land_ones_mod z n : 0 <= n → Z.land z (Z.ones n) = z mod 2 ^ n.
Proof. apply Z.land_ones. Qed.

(** A bit field: [(z >> lo) & (2^n - 1)]. *)
Lemma field_mod z lo n : 0 <= lo → 0 <= n →
  Z.land (Z.shiftr z lo) (Z.ones n) = z / 2 ^ lo mod 2 ^ n.
Proof. intros. rewrite Z.land_ones, Z.shiftr_div_pow2 by lia. done. Qed.

Lemma lor_add a b n : 0 <= n → 0 <= a < 2 ^ n → Z.lor a (Z.shiftl b n) = a + 2 ^ n * b.
Proof.
  intros Hn Ha.
  assert (Hland : Z.land a (Z.shiftl b n) = 0).
  { apply Z.bits_inj'. intros i Hi. rewrite Z.land_spec, Z.bits_0.
    destruct (Z.ltb_spec i n).
    - rewrite Z.shiftl_spec_low by lia. apply andb_false_r.
    - rewrite <- (Z.mod_small a (2 ^ n)) by lia.
      rewrite Z.mod_pow2_bits_high by lia. apply andb_false_l. }
  rewrite <- Z.lxor_lor, <- Z.add_nocarry_lxor by done.
  rewrite Z.shiftl_mul_pow2 by lia. lia.
Qed.

Lemma div_pow2_bound z n m : 0 <= n → 0 <= m → 0 <= z < 2 ^ (n + m) → 0 <= z / 2 ^ n < 2 ^ m.
Proof.
  intros. pose proof (pow2_pos n ltac:(lia)). rewrite Z.pow_add_r in * by lia.
  split; [apply Z.div_pos; lia | apply Z.div_lt_upper_bound; lia].
Qed.

(** ** The undefined-behaviour monad *)

Lemma safely_bind {A B} (m : option A) (f : A → option B) P :
  safely m (λ a, safely (f a) P) → safely (m ≫= f) P.
Proof. by destruct m. Qed.

Lemma safely_mono {A} (m : option A) (P Q : A → Prop) :
  safely m P → (∀ a, P a → Q a) → safely m Q.
Proof. destruct m; cbn; auto. Qed.

Lemma safely_Some {A} (m : option A) P : safely m P ↔ ∃ a, m = Some a ∧ P a.
Proof. destruct m; cbn; split; intros; destruct_and?; try done; naive_solver. Qed.

Lemma bind_Some_iff {A B} (m : option A) (f : A → option B) b :
  m ≫= f = Some b ↔ ∃ a, m = Some a ∧ f a = Some b.
Proof. destruct m; cbn; split; intros; destruct_and?; try done; naive_solver. Qed.

(** ** Byte arrays *)

Lemma blen_nonneg l : 0 <= blen l.
Proof. unfold blen. lia. Qed.

Lemma blen_app l k : blen (l ++ k) = blen l + blen k.
Proof. unfold blen. rewrite length_app. lia. Qed.

Lemma rd_Some l off b : rd l off = Some b → 0 <= off < blen l.
Proof.
  unfold rd, blen. destruct (Z.leb_spec 0 off); [|done].
  intros Hl%lookup_lt_Some. lia.
Qed.

Lemma rd_is_Some l off : 0 <= off < blen l → ∃ b, rd l off = Some b.
Proof.
  unfold rd, blen. intros. destruct (Z.leb_spec 0 off); [|lia].
  destruct (lookup_lt_is_Some_2 l (Z.to_nat off)) as [b Hb]; [lia | eauto].
Qed.

Lemma rd_None l off : rd l off = None ↔ off < 0 ∨ blen l <= off.
Proof.
  split.
  - intros Hn. destruct (Z.ltb_spec off 0); [lia|]. destruct (Z.leb_spec (blen l) off); [lia|].
    destruct (rd_is_Some l off) as [b Hb]; [lia | congruence].
  - intros Ho. destruct (rd l off) eqn:E; [|done]. apply rd_Some in E. lia.
Qed.

Lemma rd_byte l off b : bytes_ok l → rd l off = Some b → byte_ok b.
Proof.
  unfold rd. intros Hl. destruct (0 <=? off); [|done].
  intros Hb. by eapply Forall_lookup_1.
Qed.

Lemma safely_rd l off (P : Z → Prop) :
  0 <= off < blen l → (∀ b, rd l off = Some b → P b) → safely (rd l off) P.
Proof. intros H HP. destruct (rd_is_Some _ _ H) as [b Hb]. rewrite Hb. by apply HP. Qed.

Lemma safely_rd_byte l off (P : Z → Prop) :
  bytes_ok l → 0 <= off < blen l → (∀ b, rd l off = Some b → byte_ok b → P b) →
  safely (rd l off) P.
Proof. intros Hl H HP. apply safely_rd; [done|]. eauto using rd_byte. Qed.

(** The byte test for concrete arrays. *)
Lemma bytes_ok_check l : forallb (between 0 255) l = true → bytes_ok l.
Proof.
  rewrite forallb_forall. intros H. apply Forall_forall. intros b Hb%list_elem_of_In.
  specialize (H b Hb). apply between_spec in H. unfold byte_ok. lia.
Qed.

Lemma rd_app_l l k off : off < blen l → rd (l ++ k) off = rd l off.
Proof.
  unfold rd, blen. intros. destruct (Z.leb_spec 0 off); [|done]. apply lookup_app_l. lia.
Qed.

Lemma rd_app_r l k off : blen l <= off → rd (l ++ k) off = rd k (off - blen l).
Proof.
  unfold rd, blen. intros. destruct (Z.leb_spec 0 off); [|lia].
  destruct (Z.leb_spec 0 (off - Z.of_nat (List.length l))); [|lia].
  rewrite lookup_app_r by lia. f_equal. lia.
Qed.

Lemma rd_take n l i : i < Z.of_nat n → rd (take n l) i = rd l i.
Proof.
  unfold rd. intros. destruct (Z.leb_spec 0 i); [|done]. apply lookup_take_lt. lia.
Qed.

Lemma rd_drop n l i : 0 <= i → rd (drop n l) i = rd l (Z.of_nat n + i).
Proof.
  unfold rd. intros. destruct (Z.leb_spec 0 i); [|lia].
  destruct (Z.leb_spec 0 (Z.of_nat n + i)); [|lia]. rewrite lookup_drop. f_equal. lia.
Qed.

Lemma bytes_eq l k : blen l = blen k → (∀ i, 0 <= i < blen l → rd l i = rd k i) → l = k.
Proof.
  unfold blen. intros Hlen Hrd. apply list_eq. intros i.
  destruct (decide (i < List.length l)%nat).
  - specialize (Hrd (Z.of_nat i)). unfold rd in Hrd.
    destruct (Z.leb_spec 0 (Z.of_nat i)); [|lia]. rewrite !Nat2Z.id in Hrd. apply Hrd. lia.
  - rewrite !lookup_ge_None_2; [done| lia | lia].
Qed.

(** A block read succeeds exactly inside the array. *)
Lemma rdn_Some l off n x :
  rdn l off n = Some x ↔
  0 <= off ∧ 0 <= n ∧ off + n <= blen l ∧ x = take (Z.to_nat n) (drop (Z.to_nat off) l).
Proof.
  unfold rdn. destruct (Z.leb_spec 0 off), (Z.leb_spec 0 n), (Z.leb_spec (off + n) (blen l));
    cbn; split; intros Hx; try (destruct Hx as (?&?&?&?); lia); try done; naive_solver.
Qed.

Lemma rdn_len l off n x : rdn l off n = Some x → blen x = n.
Proof.
  intros (H1 & H2 & H3 & ->)%rdn_Some. unfold blen in *.
  rewrite length_take, length_drop. lia.
Qed.

Lemma rd_rdn l off n x i : rdn l off n = Some x → 0 <= i < n → rd x i = rd l (off + i).
Proof.
  intros (H1 & H2 & H3 & ->)%rdn_Some Hi.
  rewrite rd_take, rd_drop by lia. f_equal. lia.
Qed.

Lemma rdn_ok l off n x : bytes_ok l → rdn l off n = Some x → bytes_ok x.
Proof. intros Hl (_ & _ & _ & ->)%rdn_Some. by apply Forall_take, Forall_drop. Qed.

Lemma safely_rdn l off n (P : bytes → Prop) :
  0 <= off → 0 <= n → off + n <= blen l → (∀ x, rdn l off n = Some x → P x) →
  safely (rdn l off n) P.
Proof.
  intros H1 H2 H3 HP. destruct (rdn l off n) eqn:E; [by apply HP|].
  unfold rdn in E. destruct (Z.leb_spec 0 off), (Z.leb_spec 0 n),
    (Z.leb_spec (off + n) (blen l)); cbn in E; lia || done.
Qed.

Lemma rdn_is_Some l off n :
  0 <= off → 0 <= n → off + n <= blen l → ∃ x, rdn l off n = Some x.
Proof.
  intros H1 H2 H3. pose proof (safely_rdn l off n (λ _, True) H1 H2 H3 ltac:(done)) as H.
  destruct (rdn l off n); [eauto|done].
Qed.

(** A block write succeeds exactly inside the array; it keeps the length. *)
Lemma wrn_Some l off src l' :
  wrn l off src = Some l' ↔
  0 <= off ∧ off + blen src <= blen l ∧
  l' = take (Z.to_nat off) l ++ src ++ drop (Z.to_nat off + List.length src) l.
Proof.
  unfold wrn. destruct (Z.leb_spec 0 off), (Z.leb_spec (off + blen src) (blen l));
    cbn; split; intros Hx; try (destruct Hx as (?&?&?); lia); try done; naive_solver.
Qed.

Lemma wrn_len l off src l' : wrn l off src = Some l' → blen l' = blen l.
Proof.
  intros (H1 & H2 & ->)%wrn_Some. unfold blen in *.
  rewrite !length_app, length_take, length_drop. lia.
Qed.

Lemma wrn_is_Some l off src :
  0 <= off → off + blen src <= blen l → ∃ l', wrn l off src = Some l'.
Proof. intros H1 H2. eexists. apply wrn_Some. eauto. Qed.

Lemma rd_wrn_in l off src l' i :
  wrn l off src = Some l' → off <= i < off + blen src → rd l' i = rd src (i - off).
Proof.
  intros (H1 & H2 & ->)%wrn_Some Hi.
  assert (Ht : blen (take (Z.to_nat off) l) = off).
  { unfold blen in *. rewrite length_take. lia. }
  rewrite rd_app_r by lia. rewrite Ht. apply rd_app_l. lia.
Qed.

Lemma rd_wrn_out l off src l' i :
  wrn l off src = Some l' → i < off ∨ off + blen src <= i → rd l' i = rd l i.
Proof.
  intros (H1 & H2 & ->)%wrn_Some Hi.
  assert (Ht : blen (take (Z.to_nat off) l) = off).
  { unfold blen in *. rewrite length_take. lia. }
  destruct (Z.ltb_spec i off).
  - rewrite rd_app_l by lia. apply rd_take. lia.
  - rewrite rd_app_r, Ht, rd_app_r by (pose proof (blen_nonneg src); lia).
    rewrite rd_drop by lia. f_equal. unfold blen. lia.
Qed.

Lemma wrn_ok l off src l' : bytes_ok l → bytes_ok src → wrn l off src = Some l' → bytes_ok l'.
Proof.
  intros Hl Hs (_ & _ & ->)%wrn_Some. unfold bytes_ok in *.
  rewrite !Forall_app. auto using Forall_take, Forall_drop.
Qed.

Lemma safely_wrn l off src (P : bytes → Prop) :
  0 <= off → off + blen src <= blen l → (∀ l', wrn l off src = Some l' → P l') →
  safely (wrn l off src) P.
Proof. intros H1 H2 HP. destruct (wrn_is_Some l off src H1 H2) as [l' Hl']. rewrite Hl'. by apply HP. Qed.

(** What was written is read back; a read elsewhere does not see the write. *)
Lemma rdn_wrn_same l off src l' : wrn l off src = Some l' → rdn l' off (blen src) = Some src.
Proof.
  intros Hw. pose proof (wrn_len _ _ _ _ Hw). pose proof Hw as (H1 & H2 & _)%wrn_Some.
  pose proof (blen_nonneg src).
  destruct (rdn l' off (blen src)) as [x|] eqn:E.
  - f_equal. pose proof (rdn_len _ _ _ _ E). apply bytes_eq; [lia|]. intros i Hi.
    rewrite (rd_rdn _ _ _ _ _ E), (rd_wrn_in _ _ _ _ _ Hw) by lia. f_equal. lia.
  - unfold rdn in E. destruct (Z.leb_spec 0 off), (Z.leb_spec 0 (blen src)),
      (Z.leb_spec (off + blen src) (blen l')); cbn in E; lia || done.
Qed.

Lemma rdn_eq l k off n :
  blen l = blen k → (∀ i, off <= i < off + n → rd l i = rd k i) → rdn l off n = rdn k off n.
Proof.
  intros Hlen Heq. unfold rdn. rewrite Hlen.
  destruct (_ && _) eqn:E; [|done]. f_equal.
  rewrite !andb_true_iff, !Z.leb_le in E. destruct E as [[H1 H2] H3].
  apply bytes_eq.
  - unfold blen in *. rewrite !length_take, !length_drop. lia.
  - intros i Hi. assert (i < n).
    { unfold blen in Hi. rewrite length_take in Hi. lia. }
    rewrite !rd_take, !rd_drop by lia. apply Heq. lia.
Qed.

Lemma rdn_wrn_disjoint l off src l' off' n :
  wrn l off src = Some l' → off' + n <= off ∨ off + blen src <= off' →
  rdn l' off' n = rdn l off' n.
Proof.
  intros Hw Hd. apply rdn_eq; [by eapply wrn_len|]. intros i Hi.
  eapply rd_wrn_out; [done|lia].
Qed.

Lemma blen_at_off l off : 0 <= off <= blen l → blen (at_off l off) = blen l - off.
Proof. unfold blen, at_off. rewrite length_drop. lia. Qed.

Lemma rd_at_off l off i : 0 <= off → 0 <= i → rd (at_off l off) i = rd l (off + i).
Proof. intros. unfold at_off. rewrite rd_drop by lia. f_equal. lia. Qed.

Lemma at_off_ok l off : bytes_ok l → bytes_ok (at_off l off).
Proof. apply Forall_drop. Qed.

Lemma rdn_at_off l off i n :
  0 <= off → 0 <= i → off + i + n <= blen l → rdn (at_off l off) i n = rdn l (off + i) n.
Proof.
  intros Ho Hi Hn. destruct (Z.leb_spec 0 n).
  - assert (blen (at_off l off) = blen l - off) by (apply blen_at_off; lia).
    unfold rdn. rewrite !(proj2 (Z.leb_le _ _)) by lia. cbn [andb]. f_equal.
    unfold at_off. rewrite drop_drop. do 2 f_equal. lia.
  - unfold rdn. rewrite !(proj2 (Z.leb_gt 0 n)) by lia. by rewrite !andb_false_r.
Qed.

Lemma skip_while_safe fuel test l lim pos :
  0 <= pos <= lim → lim <= blen l → lim - pos <= Z.of_nat fuel →
  safely (skip_while fuel test l lim pos) (λ p, pos <= p <= lim).
Proof.
  revert pos. induction fuel as [|f IH]; intros pos Hp Hl Hf; cbn [skip_while];
    destruct (Z.leb_spec lim pos); try (cbn; lia).
  apply safely_bind, safely_rd; [lia|]. intros b _. destruct (test b); [|cbn; lia].
  eapply safely_mono; [apply IH; lia|]. cbn. lia.
Qed.

(** Writing back what was read restores the array. *)
Lemma wrn_restore l off src l' old :
  rdn l off (blen src) = Some old → wrn l off src = Some l' → wrn l' off old = Some l.
Proof.
  intros Hr Hw. pose proof (rdn_len _ _ _ _ Hr). pose proof (wrn_len _ _ _ _ Hw).
  pose proof Hr as (H1 & H2 & H3 & _)%rdn_Some.
  destruct (wrn_is_Some l' off old) as [l'' Hw']; [lia | lia |].
  rewrite Hw'. f_equal. pose proof (wrn_len _ _ _ _ Hw').
  apply bytes_eq; [lia|]. intros i Hi.
  destruct (decide (off <= i < off + blen old)).
  - rewrite (rd_wrn_in _ _ _ _ _ Hw'), (rd_rdn _ _ _ _ _ Hr) by lia. f_equal. lia.
  - rewrite (rd_wrn_out _ _ _ _ _ Hw'), (rd_wrn_out _ _ _ _ _ Hw) by lia. done.
Qed.

(** ** Bit operations *)

Lemma land_le a m : 0 <= m → 0 <= Z.land a m <= m.
Proof.
  intros Hm. split; [apply Z.land_nonneg; lia|].
  assert (Z.ldiff (Z.land a m) m = 0) as Hd.
  { apply Z.bits_inj'. intros i Hi. rewrite Z.ldiff_spec, Z.land_spec, Z.bits_0.
    destruct (Z.testbit a i), (Z.testbit m i); done. }
  pose proof (Z.sub_nocarry_ldiff m (Z.land a m) Hd) as Hs.
  assert (0 <= Z.ldiff m (Z.land a m)) by (apply Z.ldiff_nonneg; lia). lia.
Qed.

Lemma lor_bound a b n : 0 <= n → 0 <= a < 2 ^ n → 0 <= b < 2 ^ n → 0 <= Z.lor a b < 2 ^ n.
Proof.
  intros Hn Ha Hb. assert (0 <= Z.lor a b) by (apply Z.lor_nonneg; lia).
  split; [done|]. destruct (Z.eq_dec (Z.lor a b) 0) as [->|Hne]; [by apply pow2_pos|].
  apply Z.log2_lt_pow2; [lia|]. rewrite Z.log2_lor by lia.
  assert (∀ x, 0 <= x < 2 ^ n → Z.log2 x < n ∨ x = 0) as Hlog.
  { intros x Hx. destruct (Z.eq_dec x 0); [by right|left]. apply Z.log2_lt_pow2; lia. }
  apply Z.max_lub_lt.
  - destruct (Hlog a Ha) as [|Ha0]; [done|]. rewrite Ha0 in *. cbn.
    destruct (Z.eq_dec n 0) as [->|]; [|lia]. rewrite Z.lor_0_l in Hne. cbn in Hb. lia.
  - destruct (Hlog b Hb) as [|Hb0]; [done|]. rewrite Hb0 in *. cbn.
    destruct (Z.eq_dec n 0) as [->|]; [|lia]. rewrite Z.lor_0_r in Hne. cbn in Ha. lia.
Qed.

Lemma lxor_bound a b n : 0 <= n → 0 <= a < 2 ^ n → 0 <= b < 2 ^ n → 0 <= Z.lxor a b < 2 ^ n.
Proof.
  intros Hn Ha Hb. assert (Hx : 0 <= Z.lxor a b) by (apply Z.lxor_nonneg; lia). split; [done|].
  destruct (Z.eq_dec (Z.lxor a b) 0) as [->|]; [by apply Z.pow_pos_nonneg|].
  destruct (Z.eq_dec a 0) as [->|]; [rewrite Z.lxor_0_l; lia|]. destruct (Z.eq_dec b 0) as [->|]; [rewrite Z.lxor_0_r; lia|].
  apply Z.log2_lt_pow2; [lia|]. eapply Z.le_lt_trans; [apply Z.log2_lxor; lia|]. apply Z.max_lub_lt; apply Z.log2_lt_pow2; lia.
Qed.

Lemma shiftr_byte_bound b n : byte_ok b → 0 <= n → 0 <= Z.shiftr b n < 256.
Proof.
  unfold byte_ok. intros Hb Hn. rewrite Z.shiftr_div_pow2 by lia.
  pose proof (pow2_pos n Hn). split; [apply Z.div_pos; lia|].
  apply Z.div_lt_upper_bound; nia.
Qed.

(** ** Tables *)

Lemma lookup_Z_is_Some {A} (l : list A) z :
  0 <= z < Z.of_nat (List.length l) → ∃ x, l !! Z.to_nat z = Some x.
Proof. intros. apply lookup_lt_is_Some_2. lia. Qed.

Lemma safely_lookup {A} (l : list A) z (P : A → Prop) :
  0 <= z < Z.of_nat (List.length l) → (∀ x, l !! Z.to_nat z = Some x → P x) →
  safely (l !! Z.to_nat z) P.
Proof. intros H HP. destruct (lookup_Z_is_Some l z H) as [x Hx]. rewrite Hx. by apply HP. Qed.

(** ** Text *)

Lemma slen_nonneg s : 0 <= slen s.
Proof. unfold slen. lia. Qed.

Lemma slen_append s t : slen (String.append s t) = slen s + slen t.
Proof.
  unfold slen. induction s as [|c s IH]; [done|].
  change (String.append (String c s) t) with (String c (String.append s t)).
  cbn [String.length]. lia.
Qed.

Lemma slen_cons c s : slen (String c s) = 1 + slen s.
Proof. unfold slen. cbn [String.length]. lia. Qed.

Lemma substring_all n s : (String.length s <= n)%nat → String.substring 0 n s = s.
Proof.
  revert s. induction n as [|n IH]; intros [|c s]; cbn; intros; try done; try lia.
  f_equal. apply IH. lia.
Qed.

Lemma str_take_all n s : slen s <= n → str_take n s = s.
Proof. unfold slen, str_take. intros. apply substring_all. lia. Qed.

Lemma slen_substring n s : (String.length (String.substring 0 n s) <= n)%nat.
Proof. revert n. induction s as [|c s IH]; intros [|n]; cbn; try lia. specialize (IH n). lia. Qed.

Lemma clip_all n s : slen s < n → clip n s = s.
Proof. intros. apply str_take_all. lia. Qed.

Lemma append_assoc s t u : String.append (String.append s t) u = String.append s (String.append t u).
Proof.
  induction s as [|c s IH]; [done|].
  change (String c (String.append (String.append s t) u)
          = String c (String.append s (String.append t u))). by rewrite IH.
Qed.

Lemma append_nil_r s : String.append s EmptyString = s.
Proof.
  induction s as [|c s IH]; [done|].
  change (String c (String.append s EmptyString) = String c s). by rewrite IH.
Qed.

(** An output that fits: the cursor moves and nothing is cut. *)
Definition cat (c : cursor) (s : string) : cursor :=
  Cursor (cur_pos c + slen s) (String.append (cur_out c) s).

Lemma cat_cat c s t : cat (cat c s) t = cat c (String.append s t).
Proof. unfold cat. cbn. rewrite slen_append, append_assoc. f_equal. lia. Qed.

Lemma cat_nil c : cat c EmptyString = c.
Proof. destruct c. unfold cat. cbn. rewrite append_nil_r. f_equal. unfold slen. cbn. lia. Qed.

Lemma put_ok size s c : cur_pos c + slen s < size - 1 → put size s c = Some (cat c s).
Proof.
  intros H. unfold put, cat. pose proof (slen_nonneg s).
  destruct (Z.ltb_spec (size - 1 - cur_pos c) 0); [lia|].
  destruct (Z.eqb_spec (size - 1 - cur_pos c) 0); [lia|].
  rewrite str_take_all by lia. done.
Qed.

(** [prints size f s]: given room for it, the printing step [f] appends [s]. *)
Definition prints (size : Z) (f : cursor → option cursor) (s : string) : Prop :=
  ∀ c, cur_pos c + slen s < size - 1 → f c = Some (cat c s).

Lemma prints_put size s : prints size (put size s) s.
Proof. intros c. apply put_ok. Qed.

Lemma prints_skip size : prints size Some EmptyString.
Proof. intros c _. by rewrite cat_nil. Qed.

Lemma prints_seq size f g s t :
  prints size f s → prints size g t → prints size (λ c, f c ≫= g) (String.append s t).
Proof.
  intros Hf Hg c Hc. rewrite slen_append in Hc. pose proof (slen_nonneg t).
  rewrite Hf by lia. cbn [mbind option_bind]. rewrite Hg by (cbn [cur_pos cat]; lia).
  by rewrite cat_cat.
Qed.

Lemma prints_if size (b : bool) f g s t :
  prints size f s → prints size g t →
  prints size (λ c, if b then f c else g c) (if b then s else t).
Proof. by destruct b. Qed.

Lemma slen_hex_fuel k fuel z acc :
  0 <= z < 16 ^ Z.of_nat (S k) → slen (hex_fuel fuel z acc) <= Z.of_nat (S k) + slen acc.
Proof.
  revert k z acc. induction fuel as [|f IH]; intros k z acc Hz; cbn [hex_fuel]; [lia|].
  destruct (Z.eqb_spec (z / 16) 0) as [E|E]; [rewrite slen_cons; lia|].
  destruct k as [|k].
  - exfalso. apply E, Z.div_small. lia.
  - specialize (IH k (z / 16) (String (hex_digit (z mod 16)) acc)). rewrite slen_cons in IH.
    assert (0 <= z / 16 < 16 ^ Z.of_nat (S k)); [|lia].
    rewrite (Nat2Z.inj_succ (S k)), Z.pow_succ_r in Hz by lia.
    split; [apply Z.div_pos; lia | apply Z.div_lt_upper_bound; lia].
Qed.

Lemma slen_hex k z : 0 <= z < 16 ^ Z.of_nat (S k) → slen (hex z) <= Z.of_nat (S k).
Proof.
  intros H. pose proof (slen_hex_fuel k 16 z EmptyString H) as Hs.
  change (slen EmptyString) with 0 in Hs. unfold hex. lia.
Qed.

Lemma slen_hex_pad n z acc : slen (hex_pad n z acc) = Z.of_nat n + slen acc.
Proof.
  revert z acc. induction n as [|n IH]; intros z acc; cbn [hex_pad]; [lia|].
  rewrite IH, slen_cons. lia.
Qed.

(** ** Automation *)

Create HintDb e9.

Create Rewrite HintDb e9_text.

#[export] Hint Rewrite slen_append slen_cons slen_hex_pad : e9_text.

#[export] Hint Resolve prints_put prints_skip : e9.

(** Follows the structure of a printing step. *)
Ltac prints_auto :=
  repeat first
    [ solve [auto with e9]
    | apply prints_seq
    | match goal with |- prints _ (λ c, if _ then _ else _) _ => apply prints_if end ].

#[export] Hint Resolve blen_nonneg slen_nonneg rd_byte rdn_ok wrn_ok at_off_ok : e9.

(** Splits a conjunction of boolean tests and the like in the hypotheses. *)
Ltac bool_hyps :=
  repeat match goal with
  | H : (_ && _) = true |- _ => apply andb_true_iff in H as [? ?]
  | H : (_ || _) = false |- _ => apply orb_false_iff in H as [? ?]
  | H : between _ _ _ = true |- _ => apply between_spec in H
  end.

(** One step of a total-correctness proof: binds, tests and results. *)
Ltac ub_step :=
  match goal with
  | |- safely (Some _) _ => cbn [safely]
  | |- safely (if ?b then _ else _) _ => destruct b eqn:?
  | |- safely (match ?x with _ => _ end) _ => destruct x eqn:?
  | |- safely (mbind _ _) _ => apply safely_bind
  | |- safely (rd _ _) _ => apply safely_rd_byte; [by eauto with e9 | lia | intros ???]
  end.

(** Uses a total-correctness lemma for the call at the head of the goal. *)
Ltac ub_call L := eapply safely_mono; [eapply L; try lia; try done | cbn beta].

(** Multi-byte reads inside an array. *)
Lemma safely_rd16 l off :
  bytes_ok l → 0 <= off → off + 2 <= blen l → safely (rd16 l off) (λ h, 0 <= h < 2 ^ 16).
Proof. intros. unfold rd16, byte_ok in *. repeat ub_step. unfold byte_ok in *. cbn [safely]. lia. Qed.

Lemma safely_rd32 l off :
  bytes_ok l → 0 <= off → off + 4 <= blen l → safely (rd32 l off) (λ w, 0 <= w < 2 ^ 32).
Proof.
  intros. unfold rd32. ub_step. ub_call safely_rd16. intros h0 Hh0.
  ub_step. ub_call safely_rd16. intros h1 Hh1. cbn [safely]. lia.
Qed.

Lemma safely_rd64 l off :
  bytes_ok l → 0 <= off → off + 8 <= blen l → safely (rd64 l off) (λ w, 0 <= w < 2 ^ 64).
Proof.
  intros. unfold rd64. ub_step. ub_call safely_rd32. intros h0 Hh0.
  ub_step. ub_call safely_rd32. intros h1 Hh1. cbn [safely]. lia.
Qed.

Lemma le_bytes_32 z : 0 <= z < 2 ^ 32 →
  ∃ b0 b1 b2 b3, le_bytes 4 z = [b0; b1; b2; b3] ∧
    b0 + 256 * b1 + 65536 * (b2 + 256 * b3) = z ∧ Forall byte_ok [b0; b1; b2; b3].
Proof.
  intros Hz. cbn [le_bytes]. do 4 eexists. split; [done|].
  assert (∀ x, 0 <= x mod 256 < 256) as Hm by (intros; apply Z.mod_pos_bound; lia).
  pose proof (Z.div_mod z 256 ltac:(lia)). pose proof (Z.div_mod (z / 256) 256 ltac:(lia)).
  pose proof (Z.div_mod (z / 256 / 256) 256 ltac:(lia)).
  pose proof (Z.div_mod (z / 256 / 256 / 256) 256 ltac:(lia)).
  assert (z / 256 / 256 / 256 / 256 = 0) as Hz0.
  { rewrite !Z.div_div by lia. apply Z.div_small. lia. }
  split; [lia|]. repeat constructor; unfold byte_ok; apply Hm.
Qed.

Lemma le_bytes_len n z : List.length (le_bytes n z) = n.
Proof. revert z. induction n as [|n IH]; intros z; cbn; [done|]. by rewrite IH. Qed.

Lemma le_bytes_ok n z : bytes_ok (le_bytes n z).
Proof.
  revert z. induction n as [|n IH]; intros z; cbn; constructor; [|apply IH].
  apply Z.mod_pos_bound. lia.
Qed.

Lemma rd32_le z : 0 <= z < 2 ^ 32 → rd32 (le_bytes 4 z) 0 = Some z.
Proof.
  intros Hz. destruct (le_bytes_32 z Hz) as (b0 & b1 & b2 & b3 & -> & He & _).
  change (Some (b0 + 256 * b1 + 65536 * (b2 + 256 * b3)) = Some z). f_equal. lia.
Qed.

(** ** Bit fields *)

Lemma land_field w k n : 0 <= k → 0 <= n →
  Z.land w (Z.shiftl (Z.ones k) n) = (w / 2 ^ n mod 2 ^ k) * 2 ^ n.
Proof.
  intros Hk Hn. rewrite <- field_mod, <- Z.shiftl_mul_pow2 by lia.
  apply Z.bits_inj'. intros i Hi. rewrite Z.land_spec.
  destruct (Z.ltb_spec i n).
  - rewrite !Z.shiftl_spec_low by lia. apply andb_false_r.
  - rewrite !Z.shiftl_spec by lia. rewrite Z.land_spec, Z.shiftr_spec by lia.
    do 2 f_equal. lia.
Qed.

(** Masking twice is masking once with the smaller mask. *)
Lemma land_submask w m m' v : Z.land w m = v → Z.land m m' = m' → Z.land w m' = Z.land v m'.
Proof. intros <- Hm. by rewrite <- Z.land_assoc, Hm. Qed.

(** ** Consecutive writes *)

Lemma wrn_nil l off : 0 <= off <= blen l → wrn l off [] = Some l.
Proof.
  intros H. apply wrn_Some. cbn [app]. rewrite Nat.add_0_r, take_drop.
  change (blen []) with 0. repeat split; try done; lia.
Qed.

Lemma wrn_app l off x y l1 l2 :
  wrn l off x = Some l1 → wrn l1 (off + blen x) y = Some l2 → wrn l off (x ++ y) = Some l2.
Proof.
  intros H1 H2. pose proof (wrn_len _ _ _ _ H1). pose proof (wrn_len _ _ _ _ H2).
  pose proof H1 as (Ho & Hx & _)%wrn_Some. pose proof H2 as (_ & Hy & _)%wrn_Some.
  destruct (wrn_is_Some l off (x ++ y)) as [l3 H3]; [lia|rewrite blen_app; lia|].
  rewrite H3. f_equal. pose proof (wrn_len _ _ _ _ H3). apply bytes_eq; [lia|].
  intros i Hi. pose proof (blen_nonneg x). pose proof (blen_nonneg y).
  destruct (decide (off <= i < off + blen (x ++ y))) as [Hin|Hout].
  - rewrite (rd_wrn_in _ _ _ _ _ H3 Hin). rewrite blen_app in Hin.
    destruct (Z.ltb_spec (i - off) (blen x)).
    + rewrite rd_app_l by lia.
      rewrite (rd_wrn_out _ _ _ _ _ H2), (rd_wrn_in _ _ _ _ _ H1) by lia. done.
    + rewrite rd_app_r by lia. rewrite (rd_wrn_in _ _ _ _ _ H2) by lia. f_equal. lia.
  - rewrite (rd_wrn_out _ _ _ _ _ H3) by lia. rewrite blen_app in Hout.
    rewrite (rd_wrn_out _ _ _ _ _ H2), (rd_wrn_out _ _ _ _ _ H1) by lia. done.
Qed.

Lemma rdn_sub l off n x i m :
  rdn l off n = Some x → 0 <= i → 0 <= m → i + m <= n → rdn l (off + i) m = rdn x i m.
Proof.
  intros Hx Hi Hm Hn. pose proof (rdn_len _ _ _ _ Hx) as Hl.
  pose proof Hx as (Ho & _ & Hb & _)%rdn_Some.
  destruct (rdn x i m) as [y|] eqn:Hy.
  - pose proof (rdn_len _ _ _ _ Hy) as Hly.
    destruct (rdn l (off + i) m) as [z|] eqn:Hz.
    + f_equal. pose proof (rdn_len _ _ _ _ Hz). apply bytes_eq; [lia|]. intros k Hk.
      rewrite (rd_rdn _ _ _ _ _ Hz), (rd_rdn _ _ _ _ _ Hy), (rd_rdn _ _ _ _ _ Hx) by lia.
      f_equal. lia.
    + destruct (proj1 (safely_Some _ _) (safely_rdn l (off + i) m (λ _, True)
        ltac:(lia) ltac:(lia) ltac:(lia) ltac:(done))) as (? & ? & _). congruence.
  - destruct (proj1 (safely_Some _ _) (safely_rdn x i m (λ _, True)
      ltac:(lia) ltac:(lia) ltac:(lia) ltac:(done))) as (? & ? & _). congruence.
Qed.

Lemma rdn_ext l off x :
  0 <= off → off + blen x <= blen l → (∀ i, 0 <= i < blen x → rd l (off + i) = rd x i) →
  rdn l off (blen x) = Some x.
Proof.
  intros Ho Hl Hi. pose proof (blen_nonneg x).
  destruct (proj1 (safely_Some _ _) (safely_rdn l off (blen x) (λ _, True)
    Ho ltac:(lia) ltac:(lia) ltac:(done))) as (y & Hy & _).
  rewrite Hy. f_equal. pose proof (rdn_len _ _ _ _ Hy). apply bytes_eq; [lia|].
  intros i Hii. rewrite (rd_rdn _ _ _ _ _ Hy) by lia. apply Hi. lia.
Qed.

Lemma le_bytes_16 z : 0 <= z < 2 ^ 16 →
  ∃ b0 b1, le_bytes 2 z = [b0; b1] ∧ b0 + 256 * b1 = z.
Proof.
  intros Hz. cbn [le_bytes]. do 2 eexists. split; [done|].
  pose proof (Z.div_mod z 256 ltac:(lia)). pose proof (Z.div_mod (z / 256) 256 ltac:(lia)).
  assert (z / 256 / 256 = 0) as Hz0 by (rewrite Z.div_div by lia; apply Z.div_small; lia). lia.
Qed.

(** An integer read back from its bytes inside an array. *)
Lemma rd16_of_rdn l off z :
  rdn l off 2 = Some (le_bytes 2 z) → 0 <= z < 2 ^ 16 → rd16 l off = Some z.
Proof.
  intros Hr Hz. destruct (le_bytes_16 z Hz) as (b0 & b1 & E & He). rewrite E in Hr.
  unfold rd16. pose proof (rd_rdn _ _ _ _ 0 Hr ltac:(lia)) as H0.
  pose proof (rd_rdn _ _ _ _ 1 Hr ltac:(lia)) as H1. rewrite Z.add_0_r in H0.
  rewrite <- H0, <- H1. change (Some (b0 + 256 * b1) = Some z). by rewrite He.
Qed.

Lemma rd32_of_rdn l off z :
  rdn l off 4 = Some (le_bytes 4 z) → 0 <= z < 2 ^ 32 → rd32 l off = Some z.
Proof.
  intros Hr Hz. rewrite <- (rd32_le z Hz).
  pose proof (λ k, rd_rdn _ _ _ _ k Hr) as H.
  pose proof (H 0 ltac:(lia)) as H0. rewrite Z.add_0_r in H0.
  unfold rd32 at 1, rd16. replace (off + 2 + 1) with (off + 3) by lia.
  by rewrite <- H0, <- !H by lia.
Qed.

(** Reading one part of a concatenation. *)
Lemma rdn_app_mid a x b : rdn (a ++ x ++ b) (blen a) (blen x) = Some x.
Proof.
  pose proof (blen_nonneg a). pose proof (blen_nonneg b). pose proof (blen_nonneg x).
  apply rdn_ext; [lia|rewrite !blen_app; lia|].
  intros i Hi. rewrite rd_app_r by lia. rewrite rd_app_l by lia. f_equal. lia.
Qed.

Lemma rdn_concat pre (fs : list bytes) post k f :
  fs !! k = Some f →
  rdn (pre ++ concat fs ++ post) (blen pre + blen (concat (take k fs))) (blen f) = Some f.
Proof.
  intros Hk. rewrite <- (take_drop_middle fs k f Hk) at 1.
  rewrite concat_app. cbn [concat]. rewrite <- blen_app, <- !app_assoc, app_assoc.
  apply rdn_app_mid.
Qed.
