(* ===== verification/X86Disasm.v ===== *)
(** * X86Disasm: the lightweight x86-64 disassembler

    Models src/src/e9patch/vendor/e9disasm_x86.c (and the types of e9disasm_x86.h):
    the register tables, the ModR/M decoder, the instruction decoder, the
    text formatter, the linear sweep and the instruction queries.  A byte read
    outside the code buffer, a table access out of range and a write past a
    text buffer are undefined behaviour and give [None]. *)

From S2P Require Import Prelude.

Module X86.

(** ** Types (e9disasm_x86.h) *)

Inductive E9X86Category :=
| E9_X86_CAT_INVALID | E9_X86_CAT_DATA_XFER | E9_X86_CAT_ARITHMETIC | E9_X86_CAT_LOGICAL
| E9_X86_CAT_SHIFT | E9_X86_CAT_CONTROL | E9_X86_CAT_STRING | E9_X86_CAT_FLAG
| E9_X86_CAT_STACK | E9_X86_CAT_COMPARE | E9_X86_CAT_SIMD | E9_X86_CAT_SYSTEM
| E9_X86_CAT_NOP | E9_X86_CAT_OTHER.

Inductive E9X86OpType :=
| E9_X86_OP_NONE | E9_X86_OP_REG | E9_X86_OP_MEM | E9_X86_OP_IMM | E9_X86_OP_REL.

#[export] Instance E9X86Category_eq_dec : EqDecision E9X86Category.
Proof. solve_decision. Defined.

#[export] Instance E9X86OpType_eq_dec : EqDecision E9X86OpType.
Proof. solve_decision. Defined.

Inductive E9X86Reg :=
| E9_X86_REG_NONE | E9_X86_REG_RAX | E9_X86_REG_RCX | E9_X86_REG_RDX | E9_X86_REG_RBX
| E9_X86_REG_RSP | E9_X86_REG_RBP | E9_X86_REG_RSI | E9_X86_REG_RDI | E9_X86_REG_R8
| E9_X86_REG_R9 | E9_X86_REG_R10 | E9_X86_REG_R11 | E9_X86_REG_R12 | E9_X86_REG_R13
| E9_X86_REG_R14 | E9_X86_REG_R15 | E9_X86_REG_RIP | E9_X86_REG_EAX | E9_X86_REG_ECX
| E9_X86_REG_EDX | E9_X86_REG_EBX | E9_X86_REG_ESP | E9_X86_REG_EBP | E9_X86_REG_ESI
| E9_X86_REG_EDI | E9_X86_REG_R8D | E9_X86_REG_R9D | E9_X86_REG_R10D | E9_X86_REG_R11D
| E9_X86_REG_R12D | E9_X86_REG_R13D | E9_X86_REG_R14D | E9_X86_REG_R15D | E9_X86_REG_EIP
| E9_X86_REG_AX | E9_X86_REG_CX | E9_X86_REG_DX | E9_X86_REG_BX | E9_X86_REG_SP
| E9_X86_REG_BP | E9_X86_REG_SI | E9_X86_REG_DI | E9_X86_REG_AL | E9_X86_REG_CL
| E9_X86_REG_DL | E9_X86_REG_BL | E9_X86_REG_AH | E9_X86_REG_CH | E9_X86_REG_DH
| E9_X86_REG_BH | E9_X86_REG_SPL | E9_X86_REG_BPL | E9_X86_REG_SIL | E9_X86_REG_DIL
| E9_X86_REG_CS | E9_X86_REG_DS | E9_X86_REG_ES | E9_X86_REG_FS | E9_X86_REG_GS
| E9_X86_REG_SS | E9_X86_REG_XMM0 | E9_X86_REG_XMM1 | E9_X86_REG_XMM2 | E9_X86_REG_XMM3
| E9_X86_REG_XMM4 | E9_X86_REG_XMM5 | E9_X86_REG_XMM6 | E9_X86_REG_XMM7 | E9_X86_REG_XMM8
| E9_X86_REG_XMM9 | E9_X86_REG_XMM10 | E9_X86_REG_XMM11 | E9_X86_REG_XMM12
| E9_X86_REG_XMM13 | E9_X86_REG_XMM14 | E9_X86_REG_XMM15.

(** The value of the enumeration constant. *)
Definition reg_index (r : E9X86Reg) : Z :=
  match r with
  | E9_X86_REG_NONE => 0 | E9_X86_REG_RAX => 1 | E9_X86_REG_RCX => 2 | E9_X86_REG_RDX => 3
  | E9_X86_REG_RBX => 4 | E9_X86_REG_RSP => 5 | E9_X86_REG_RBP => 6 | E9_X86_REG_RSI => 7
  | E9_X86_REG_RDI => 8 | E9_X86_REG_R8 => 9 | E9_X86_REG_R9 => 10 | E9_X86_REG_R10 => 11
  | E9_X86_REG_R11 => 12 | E9_X86_REG_R12 => 13 | E9_X86_REG_R13 => 14
  | E9_X86_REG_R14 => 15 | E9_X86_REG_R15 => 16 | E9_X86_REG_RIP => 17
  | E9_X86_REG_EAX => 18 | E9_X86_REG_ECX => 19 | E9_X86_REG_EDX => 20
  | E9_X86_REG_EBX => 21 | E9_X86_REG_ESP => 22 | E9_X86_REG_EBP => 23
  | E9_X86_REG_ESI => 24 | E9_X86_REG_EDI => 25 | E9_X86_REG_R8D => 26
  | E9_X86_REG_R9D => 27 | E9_X86_REG_R10D => 28 | E9_X86_REG_R11D => 29
  | E9_X86_REG_R12D => 30 | E9_X86_REG_R13D => 31 | E9_X86_REG_R14D => 32
  | E9_X86_REG_R15D => 33 | E9_X86_REG_EIP => 34 | E9_X86_REG_AX => 35
  | E9_X86_REG_CX => 36 | E9_X86_REG_DX => 37 | E9_X86_REG_BX => 38 | E9_X86_REG_SP => 39
  | E9_X86_REG_BP => 40 | E9_X86_REG_SI => 41 | E9_X86_REG_DI => 42 | E9_X86_REG_AL => 43
  | E9_X86_REG_CL => 44 | E9_X86_REG_DL => 45 | E9_X86_REG_BL => 46 | E9_X86_REG_AH => 47
  | E9_X86_REG_CH => 48 | E9_X86_REG_DH => 49 | E9_X86_REG_BH => 50 | E9_X86_REG_SPL => 51
  | E9_X86_REG_BPL => 52 | E9_X86_REG_SIL => 53 | E9_X86_REG_DIL => 54
  | E9_X86_REG_CS => 55 | E9_X86_REG_DS => 56 | E9_X86_REG_ES => 57 | E9_X86_REG_FS => 58
  | E9_X86_REG_GS => 59 | E9_X86_REG_SS => 60 | E9_X86_REG_XMM0 => 61
  | E9_X86_REG_XMM1 => 62 | E9_X86_REG_XMM2 => 63 | E9_X86_REG_XMM3 => 64
  | E9_X86_REG_XMM4 => 65 | E9_X86_REG_XMM5 => 66 | E9_X86_REG_XMM6 => 67
  | E9_X86_REG_XMM7 => 68 | E9_X86_REG_XMM8 => 69 | E9_X86_REG_XMM9 => 70
  | E9_X86_REG_XMM10 => 71 | E9_X86_REG_XMM11 => 72 | E9_X86_REG_XMM12 => 73
  | E9_X86_REG_XMM13 => 74 | E9_X86_REG_XMM14 => 75 | E9_X86_REG_XMM15 => 76
  end.

(** The register names, in the order of the enumeration. *)
Definition REG_NAMES : list string :=
  [""; "rax"; "rcx"; "rdx"; "rbx"; "rsp"; "rbp"; "rsi"; "rdi"; "r8"; "r9"; "r10"; "r11";
   "r12"; "r13"; "r14"; "r15"; "rip"; "eax"; "ecx"; "edx"; "ebx"; "esp"; "ebp"; "esi";
   "edi"; "r8d"; "r9d"; "r10d"; "r11d"; "r12d"; "r13d"; "r14d"; "r15d"; "eip"; "ax"; "cx";
   "dx"; "bx"; "sp"; "bp"; "si"; "di"; "al"; "cl"; "dl"; "bl"; "ah"; "ch"; "dh"; "bh";
   "spl"; "bpl"; "sil"; "dil"; "cs"; "ds"; "es"; "fs"; "gs"; "ss"; "xmm0"; "xmm1"; "xmm2";
   "xmm3"; "xmm4"; "xmm5"; "xmm6"; "xmm7"; "xmm8"; "xmm9"; "xmm10"; "xmm11"; "xmm12";
   "xmm13"; "xmm14"; "xmm15"]%string.

(** Register tables for ModR/M decoding. *)
Definition REG64 : list E9X86Reg :=
  [E9_X86_REG_RAX; E9_X86_REG_RCX; E9_X86_REG_RDX; E9_X86_REG_RBX; E9_X86_REG_RSP;
   E9_X86_REG_RBP; E9_X86_REG_RSI; E9_X86_REG_RDI; E9_X86_REG_R8; E9_X86_REG_R9;
   E9_X86_REG_R10; E9_X86_REG_R11; E9_X86_REG_R12; E9_X86_REG_R13; E9_X86_REG_R14;
   E9_X86_REG_R15].

Definition REG32 : list E9X86Reg :=
  [E9_X86_REG_EAX; E9_X86_REG_ECX; E9_X86_REG_EDX; E9_X86_REG_EBX; E9_X86_REG_ESP;
   E9_X86_REG_EBP; E9_X86_REG_ESI; E9_X86_REG_EDI; E9_X86_REG_R8D; E9_X86_REG_R9D;
   E9_X86_REG_R10D; E9_X86_REG_R11D; E9_X86_REG_R12D; E9_X86_REG_R13D; E9_X86_REG_R14D;
   E9_X86_REG_R15D].

Definition REG8 : list E9X86Reg :=
  [E9_X86_REG_AL; E9_X86_REG_CL; E9_X86_REG_DL; E9_X86_REG_BL; E9_X86_REG_AH;
   E9_X86_REG_CH; E9_X86_REG_DH; E9_X86_REG_BH].

Definition REG8_REX : list E9X86Reg :=
  [E9_X86_REG_AL; E9_X86_REG_CL; E9_X86_REG_DL; E9_X86_REG_BL; E9_X86_REG_SPL;
   E9_X86_REG_BPL; E9_X86_REG_SIL; E9_X86_REG_DIL].

(** An operand: its type, its size and the union.  [U_zero] is the zeroed
    union; the accessors read the member the decoder wrote last (0 for the
    zeroed union), and the code reads no other member. *)
Record E9X86Mem := Mem {
  mem_base : E9X86Reg; mem_index : E9X86Reg; mem_scale : Z; mem_disp : Z;
  mem_segment : E9X86Reg }.

Inductive op_union :=
| U_zero | U_reg (r : E9X86Reg) | U_imm (z : Z) | U_rel (z : Z) | U_mem (m : E9X86Mem).

Record E9X86Operand := Operand { op_type : E9X86OpType; op_size : Z; op_val : op_union }.

Definition zero_mem : E9X86Mem := Mem E9_X86_REG_NONE E9_X86_REG_NONE 0 0 E9_X86_REG_NONE.

Definition zero_operand : E9X86Operand := Operand E9_X86_OP_NONE 0 U_zero.

Definition op_reg (o : E9X86Operand) : E9X86Reg :=
  match op_val o with U_reg r => r | _ => E9_X86_REG_NONE end.

Definition op_imm (o : E9X86Operand) : Z := match op_val o with U_imm z => z | _ => 0 end.

Definition op_rel (o : E9X86Operand) : Z := match op_val o with U_rel z => z | _ => 0 end.

Definition op_mem (o : E9X86Operand) : E9X86Mem :=
  match op_val o with U_mem m => m | _ => zero_mem end.

(** A decoded instruction. *)
Record E9X86Insn := Insn {
  address : Z; ilength : Z; ibytes : bytes; mnemonic : string; category : E9X86Category;
  operands : list E9X86Operand; num_operands : Z; has_lock : bool; has_rep : bool;
  has_repne : bool; has_rex : bool; rex : Z; is_branch : bool; is_call : bool;
  is_ret : bool; is_conditional : bool; branch_target : Z; reads_memory : bool;
  writes_memory : bool; text : string }.

(** [memset(insn, 0, sizeof( *insn))] *)
Definition zero_insn : E9X86Insn :=
  Insn 0 0 (replicate 15 0) "" E9_X86_CAT_INVALID (replicate 4 zero_operand) 0
       false false false false 0 false false false false 0 false false "".

(** Assignments to one field. *)
Definition set_address (v : Z) (i : E9X86Insn) : E9X86Insn :=
  {| address := v; ilength := ilength i; ibytes := ibytes i; mnemonic := mnemonic i; category
  := category i; operands := operands i; num_operands := num_operands i; has_lock :=
  has_lock i; has_rep := has_rep i; has_repne := has_repne i; has_rex := has_rex i; rex :=
  rex i; is_branch := is_branch i; is_call := is_call i; is_ret := is_ret i; is_conditional
  := is_conditional i; branch_target := branch_target i; reads_memory := reads_memory i;
  writes_memory := writes_memory i; text := text i |}.

Definition set_ilength (v : Z) (i : E9X86Insn) : E9X86Insn :=
  {| address := address i; ilength := v; ibytes := ibytes i; mnemonic := mnemonic i;
  category := category i; operands := operands i; num_operands := num_operands i; has_lock
  := has_lock i; has_rep := has_rep i; has_repne := has_repne i; has_rex := has_rex i; rex
  := rex i; is_branch := is_branch i; is_call := is_call i; is_ret := is_ret i;
  is_conditional := is_conditional i; branch_target := branch_target i; reads_memory :=
  reads_memory i; writes_memory := writes_memory i; text := text i |}.

Definition set_ibytes (v : bytes) (i : E9X86Insn) : E9X86Insn :=
  {| address := address i; ilength := ilength i; ibytes := v; mnemonic := mnemonic i;
  category := category i; operands := operands i; num_operands := num_operands i; has_lock
  := has_lock i; has_rep := has_rep i; has_repne := has_repne i; has_rex := has_rex i; rex
  := rex i; is_branch := is_branch i; is_call := is_call i; is_ret := is_ret i;
  is_conditional := is_conditional i; branch_target := branch_target i; reads_memory :=
  reads_memory i; writes_memory := writes_memory i; text := text i |}.

Definition set_mnemonic (v : string) (i : E9X86Insn) : E9X86Insn :=
  {| address := address i; ilength := ilength i; ibytes := ibytes i; mnemonic := v; category
  := category i; operands := operands i; num_operands := num_operands i; has_lock :=
  has_lock i; has_rep := has_rep i; has_repne := has_repne i; has_rex := has_rex i; rex :=
  rex i; is_branch := is_branch i; is_call := is_call i; is_ret := is_ret i; is_conditional
  := is_conditional i; branch_target := branch_target i; reads_memory := reads_memory i;
  writes_memory := writes_memory i; text := text i |}.

Definition set_category (v : E9X86Category) (i : E9X86Insn) : E9X86Insn :=
  {| address := address i; ilength := ilength i; ibytes := ibytes i; mnemonic := mnemonic i;
  category := v; operands := operands i; num_operands := num_operands i; has_lock :=
  has_lock i; has_rep := has_rep i; has_repne := has_repne i; has_rex := has_rex i; rex :=
  rex i; is_branch := is_branch i; is_call := is_call i; is_ret := is_ret i; is_conditional
  := is_conditional i; branch_target := branch_target i; reads_memory := reads_memory i;
  writes_memory := writes_memory i; text := text i |}.

Definition set_num_operands (v : Z) (i : E9X86Insn) : E9X86Insn :=
  {| address := address i; ilength := ilength i; ibytes := ibytes i; mnemonic := mnemonic i;
  category := category i; operands := operands i; num_operands := v; has_lock := has_lock
  i; has_rep := has_rep i; has_repne := has_repne i; has_rex := has_rex i; rex := rex i;
  is_branch := is_branch i; is_call := is_call i; is_ret := is_ret i; is_conditional :=
  is_conditional i; branch_target := branch_target i; reads_memory := reads_memory i;
  writes_memory := writes_memory i; text := text i |}.

Definition set_has_lock (v : bool) (i : E9X86Insn) : E9X86Insn :=
  {| address := address i; ilength := ilength i; ibytes := ibytes i; mnemonic := mnemonic i;
  category := category i; operands := operands i; num_operands := num_operands i; has_lock
  := v; has_rep := has_rep i; has_repne := has_repne i; has_rex := has_rex i; rex := rex i;
  is_branch := is_branch i; is_call := is_call i; is_ret := is_ret i; is_conditional :=
  is_conditional i; branch_target := branch_target i; reads_memory := reads_memory i;
  writes_memory := writes_memory i; text := text i |}.

Definition set_has_rep (v : bool) (i : E9X86Insn) : E9X86Insn :=
  {| address := address i; ilength := ilength i; ibytes := ibytes i; mnemonic := mnemonic i;
  category := category i; operands := operands i; num_operands := num_operands i; has_lock
  := has_lock i; has_rep := v; has_repne := has_repne i; has_rex := has_rex i; rex := rex
  i; is_branch := is_branch i; is_call := is_call i; is_ret := is_ret i; is_conditional :=
  is_conditional i; branch_target := branch_target i; reads_memory := reads_memory i;
  writes_memory := writes_memory i; text := text i |}.

Definition set_has_repne (v : bool) (i : E9X86Insn) : E9X86Insn :=
  {| address := address i; ilength := ilength i; ibytes := ibytes i; mnemonic := mnemonic i;
  category := category i; operands := operands i; num_operands := num_operands i; has_lock
  := has_lock i; has_rep := has_rep i; has_repne := v; has_rex := has_rex i; rex := rex i;
  is_branch := is_branch i; is_call := is_call i; is_ret := is_ret i; is_conditional :=
  is_conditional i; branch_target := branch_target i; reads_memory := reads_memory i;
  writes_memory := writes_memory i; text := text i |}.

Definition set_has_rex (v : bool) (i : E9X86Insn) : E9X86Insn :=
  {| address := address i; ilength := ilength i; ibytes := ibytes i; mnemonic := mnemonic i;
  category := category i; operands := operands i; num_operands := num_operands i; has_lock
  := has_lock i; has_rep := has_rep i; has_repne := has_repne i; has_rex := v; rex := rex
  i; is_branch := is_branch i; is_call := is_call i; is_ret := is_ret i; is_conditional :=
  is_conditional i; branch_target := branch_target i; reads_memory := reads_memory i;
  writes_memory := writes_memory i; text := text i |}.

Definition set_rex (v : Z) (i : E9X86Insn) : E9X86Insn :=
  {| address := address i; ilength := ilength i; ibytes := ibytes i; mnemonic := mnemonic i;
  category := category i; operands := operands i; num_operands := num_operands i; has_lock
  := has_lock i; has_rep := has_rep i; has_repne := has_repne i; has_rex := has_rex i; rex
  := v; is_branch := is_branch i; is_call := is_call i; is_ret := is_ret i; is_conditional
  := is_conditional i; branch_target := branch_target i; reads_memory := reads_memory i;
  writes_memory := writes_memory i; text := text i |}.

Definition set_is_branch (v : bool) (i : E9X86Insn) : E9X86Insn :=
  {| address := address i; ilength := ilength i; ibytes := ibytes i; mnemonic := mnemonic i;
  category := category i; operands := operands i; num_operands := num_operands i; has_lock
  := has_lock i; has_rep := has_rep i; has_repne := has_repne i; has_rex := has_rex i; rex
  := rex i; is_branch := v; is_call := is_call i; is_ret := is_ret i; is_conditional :=
  is_conditional i; branch_target := branch_target i; reads_memory := reads_memory i;
  writes_memory := writes_memory i; text := text i |}.

Definition set_is_call (v : bool) (i : E9X86Insn) : E9X86Insn :=
  {| address := address i; ilength := ilength i; ibytes := ibytes i; mnemonic := mnemonic i;
  category := category i; operands := operands i; num_operands := num_operands i; has_lock
  := has_lock i; has_rep := has_rep i; has_repne := has_repne i; has_rex := has_rex i; rex
  := rex i; is_branch := is_branch i; is_call := v; is_ret := is_ret i; is_conditional :=
  is_conditional i; branch_target := branch_target i; reads_memory := reads_memory i;
  writes_memory := writes_memory i; text := text i |}.

Definition set_is_ret (v : bool) (i : E9X86Insn) : E9X86Insn :=
  {| address := address i; ilength := ilength i; ibytes := ibytes i; mnemonic := mnemonic i;
  category := category i; operands := operands i; num_operands := num_operands i; has_lock
  := has_lock i; has_rep := has_rep i; has_repne := has_repne i; has_rex := has_rex i; rex
  := rex i; is_branch := is_branch i; is_call := is_call i; is_ret := v; is_conditional :=
  is_conditional i; branch_target := branch_target i; reads_memory := reads_memory i;
  writes_memory := writes_memory i; text := text i |}.

Definition set_is_conditional (v : bool) (i : E9X86Insn) : E9X86Insn :=
  {| address := address i; ilength := ilength i; ibytes := ibytes i; mnemonic := mnemonic i;
  category := category i; operands := operands i; num_operands := num_operands i; has_lock
  := has_lock i; has_rep := has_rep i; has_repne := has_repne i; has_rex := has_rex i; rex
  := rex i; is_branch := is_branch i; is_call := is_call i; is_ret := is_ret i;
  is_conditional := v; branch_target := branch_target i; reads_memory := reads_memory i;
  writes_memory := writes_memory i; text := text i |}.

Definition set_branch_target (v : Z) (i : E9X86Insn) : E9X86Insn :=
  {| address := address i; ilength := ilength i; ibytes := ibytes i; mnemonic := mnemonic i;
  category := category i; operands := operands i; num_operands := num_operands i; has_lock
  := has_lock i; has_rep := has_rep i; has_repne := has_repne i; has_rex := has_rex i; rex
  := rex i; is_branch := is_branch i; is_call := is_call i; is_ret := is_ret i;
  is_conditional := is_conditional i; branch_target := v; reads_memory := reads_memory i;
  writes_memory := writes_memory i; text := text i |}.

Definition set_reads_memory (v : bool) (i : E9X86Insn) : E9X86Insn :=
  {| address := address i; ilength := ilength i; ibytes := ibytes i; mnemonic := mnemonic i;
  category := category i; operands := operands i; num_operands := num_operands i; has_lock
  := has_lock i; has_rep := has_rep i; has_repne := has_repne i; has_rex := has_rex i; rex
  := rex i; is_branch := is_branch i; is_call := is_call i; is_ret := is_ret i;
  is_conditional := is_conditional i; branch_target := branch_target i; reads_memory := v;
  writes_memory := writes_memory i; text := text i |}.

Definition set_writes_memory (v : bool) (i : E9X86Insn) : E9X86Insn :=
  {| address := address i; ilength := ilength i; ibytes := ibytes i; mnemonic := mnemonic i;
  category := category i; operands := operands i; num_operands := num_operands i; has_lock
  := has_lock i; has_rep := has_rep i; has_repne := has_repne i; has_rex := has_rex i; rex
  := rex i; is_branch := is_branch i; is_call := is_call i; is_ret := is_ret i;
  is_conditional := is_conditional i; branch_target := branch_target i; reads_memory :=
  reads_memory i; writes_memory := v; text := text i |}.

Definition set_text (v : string) (i : E9X86Insn) : E9X86Insn :=
  {| address := address i; ilength := ilength i; ibytes := ibytes i; mnemonic := mnemonic i;
  category := category i; operands := operands i; num_operands := num_operands i; has_lock
  := has_lock i; has_rep := has_rep i; has_repne := has_repne i; has_rex := has_rex i; rex
  := rex i; is_branch := is_branch i; is_call := is_call i; is_ret := is_ret i;
  is_conditional := is_conditional i; branch_target := branch_target i; reads_memory :=
  reads_memory i; writes_memory := writes_memory i; text := v |}.

Definition set_operand (k : nat) (v : E9X86Operand) (i : E9X86Insn) : E9X86Insn :=
  {| address := address i; ilength := ilength i; ibytes := ibytes i; mnemonic := mnemonic i;
  category := category i; operands := <[k := v]> (operands i); num_operands := num_operands
  i; has_lock := has_lock i; has_rep := has_rep i; has_repne := has_repne i; has_rex :=
  has_rex i; rex := rex i; is_branch := is_branch i; is_call := is_call i; is_ret := is_ret
  i; is_conditional := is_conditional i; branch_target := branch_target i; reads_memory :=
  reads_memory i; writes_memory := writes_memory i; text := text i |}.

(** [insn->operands[k]] *)
Definition operand (i : E9X86Insn) (k : nat) : E9X86Operand :=
  default zero_operand (operands i !! k).

(** ** Context, register names and sizes *)

(** [struct E9X86Disasm] *)
Record E9X86Disasm := Ctx { mode : Z }.

(** [alloc] is the outcome of the [calloc]. *)
Definition e9_x86_disasm_create (alloc : bool) (m : Z) : option E9X86Disasm :=
  if negb (m =? 16) && negb (m =? 32) && negb (m =? 64) then None
  else if alloc then Some (Ctx m) else None.

Definition e9_x86_reg_name (reg : Z) : string :=
  if (reg <? 0) || (Z.of_nat (List.length REG_NAMES) <=? reg) then "???"
  else default "???"%string (REG_NAMES !! Z.to_nat reg).

Definition e9_x86_reg_size (reg : Z) : Z :=
  if between (reg_index E9_X86_REG_RAX) (reg_index E9_X86_REG_RIP) reg then 8
  else if between (reg_index E9_X86_REG_EAX) (reg_index E9_X86_REG_EIP) reg then 4
  else if between (reg_index E9_X86_REG_AX) (reg_index E9_X86_REG_DI) reg then 2
  else if between (reg_index E9_X86_REG_AL) (reg_index E9_X86_REG_DIL) reg then 1
  else if between (reg_index E9_X86_REG_XMM0) (reg_index E9_X86_REG_XMM15) reg then 16
  else 0.

(** ** Little-endian reads *)

Definition read_i8 (p : bytes) (o : Z) : option Z :=
  b0 ← rd p o; Some (s8 b0).

Definition read_i32 (p : bytes) (o : Z) : option Z :=
  b0 ← rd p o; b1 ← rd p (o + 1); b2 ← rd p (o + 2); b3 ← rd p (o + 3);
  Some (s32 (Z.lor (Z.lor (Z.lor b0 (Z.shiftl b1 8)) (Z.shiftl b2 16)) (Z.shiftl b3 24))).

Definition read_i64 (p : bytes) (o : Z) : option Z :=
  lo ← read_i32 p o; hi ← read_i32 p (o + 4);
  Some (s64 (Z.lor lo (Z.shiftl hi 32))).

(** ** ModR/M *)

(** [op->reg = TABLE[reg]] for the operand size: no table for size 2. *)
Definition modrm_reg (op_size rex reg : Z) (o : E9X86Operand) : option E9X86Operand :=
  if op_size =? 8 then
    r ← REG64 !! Z.to_nat reg; Some (Operand E9_X86_OP_REG op_size (U_reg r))
  else if op_size =? 4 then
    r ← REG32 !! Z.to_nat reg; Some (Operand E9_X86_OP_REG op_size (U_reg r))
  else if op_size =? 1 then
    r ← (if truthy rex then REG8_REX else REG8) !! Z.to_nat (Z.land reg 7);
    Some (Operand E9_X86_OP_REG op_size (U_reg r))
  else Some (Operand E9_X86_OP_REG op_size (op_val o)).

(** The SIB byte and its disp32; the position is -1 when the code is cut. *)
Definition decode_sib (code : bytes) (isize pos rex md : Z) (m : E9X86Mem)
  : option (Z * E9X86Mem) :=
  if isize <=? pos then Some (-1, m)
  else
    sib ← rd code pos;
    let pos := pos + 1 in
    let scale := Z.land (Z.shiftr sib 6) 3 in
    let index := Z.land (Z.shiftr sib 3) 7 in
    let base := Z.land sib 7 in
    let index := if truthy (Z.land rex 2) then Z.lor index 8 else index in
    let base := if truthy (Z.land rex 1) then Z.lor base 8 else base in
    idx ← (if negb (index =? 4) then REG64 !! Z.to_nat index else Some (mem_index m));
    if (md =? 0) && (Z.land base 7 =? 5) then
      let m := Mem E9_X86_REG_NONE idx (Z.shiftl 1 scale) (mem_disp m) (mem_segment m) in
      if isize <? pos + 4 then Some (-1, m)
      else
        d ← read_i32 code pos;
        Some (pos + 4, Mem E9_X86_REG_NONE idx (Z.shiftl 1 scale) d (mem_segment m))
    else
      b ← REG64 !! Z.to_nat base;
      Some (pos, Mem b idx (Z.shiftl 1 scale) (mem_disp m) (mem_segment m)).

(** The displacement after the ModR/M and SIB bytes. *)
Definition decode_disp (code : bytes) (isize pos md rm : Z) (rip_rel : bool) (m : E9X86Mem)
  : option (Z * E9X86Mem) :=
  let set_disp d := Mem (mem_base m) (mem_index m) (mem_scale m) d (mem_segment m) in
  if md =? 1 then
    if isize <=? pos then Some (-1, m)
    else d ← read_i8 code pos; Some (pos + 1, set_disp d)
  else if (md =? 2) || ((md =? 0) && ((Z.land rm 7 =? 5) || rip_rel)) then
    if isize <? pos + 4 then Some (-1, m)
    else d ← read_i32 code pos; Some (pos + 4, set_disp d)
  else Some (pos, m).

(** The memory operand of a ModR/M byte with [mod != 3]. *)
Definition decode_mem (ctx : E9X86Disasm) (code : bytes) (isize pos rex md rm : Z)
  : option (Z * E9X86Mem) :=
  let m := Mem E9_X86_REG_NONE E9_X86_REG_NONE 1 0 E9_X86_REG_NONE in
  let has_sib := (32 <=? mode ctx) && (Z.land rm 7 =? 4) in
  let rip_rel := (mode ctx =? 64) && (md =? 0) && (Z.land rm 7 =? 5) in
  let with_base b := Mem b (mem_index m) (mem_scale m) (mem_disp m) (mem_segment m) in
  '(pos, m) ← (if has_sib && negb (md =? 3) then decode_sib code isize pos rex md m
               else if rip_rel then Some (pos, with_base E9_X86_REG_RIP)
               else if (md =? 0) && (Z.land rm 7 =? 5) then Some (pos, with_base E9_X86_REG_NONE)
               else b ← REG64 !! Z.to_nat rm; Some (pos, with_base b));
  if pos <? 0 then Some (-1, m)
  else decode_disp code isize pos md rm rip_rel m.

(** The result is the new position (-1 on failure) and the operands written;
    [None] for an operand is a NULL pointer. *)
Definition decode_modrm (ctx : E9X86Disasm) (code : bytes) (isize pos rex op_size : Z)
    (reg_op rm_op : option E9X86Operand)
  : option (Z * option E9X86Operand * option E9X86Operand) :=
  if isize <=? pos then Some (-1, reg_op, rm_op)
  else
    modrm ← rd code pos;
    let pos := pos + 1 in
    let md := Z.land (Z.shiftr modrm 6) 3 in
    let reg := Z.land (Z.shiftr modrm 3) 7 in
    let rm := Z.land modrm 7 in
    let reg := if truthy (Z.land rex 4) then Z.lor reg 8 else reg in
    let rm := if truthy (Z.land rex 1) then Z.lor rm 8 else rm in
    reg_op ← (match reg_op with
              | Some o => o' ← modrm_reg op_size rex reg o; Some (Some o')
              | None => Some None
              end);
    match rm_op with
    | None => Some (pos, reg_op, None)
    | Some o =>
        if md =? 3 then
          o' ← modrm_reg op_size rex rm o; Some (pos, reg_op, Some o')
        else
          '(pos, m) ← decode_mem ctx code isize pos rex md rm;
          Some (pos, reg_op, Some (Operand E9_X86_OP_MEM op_size (U_mem m)))
    end.

(** ** One instruction *)

(** Where a case of the decoder goes: past the [switch], or [goto invalid]. *)
Inductive dec_out := Next (pos : Z) (i : E9X86Insn) | Invalid (i : E9X86Insn).

Record prefix_state := Prefixes {
  px_pos : Z; px_rex : Z; px_has_66 : bool; px_insn : E9X86Insn }.

(** One iteration of the prefix loop: [None] is the [break].  The address-size
    and segment prefixes are skipped; the code does not use them. *)
Definition prefix_step (md b : Z) (s : prefix_state) : option prefix_state :=
  let '(Prefixes pos rex has_66 i) := s in
  if b =? 0xF0 then Some (Prefixes (pos + 1) rex has_66 (set_has_lock true i))
  else if b =? 0xF2 then Some (Prefixes (pos + 1) rex has_66 (set_has_repne true i))
  else if b =? 0xF3 then Some (Prefixes (pos + 1) rex has_66 (set_has_rep true i))
  else if (b =? 0x2E) || (b =? 0x36) || (b =? 0x3E) || (b =? 0x26) || (b =? 0x64) || (b =? 0x65)
  then Some (Prefixes (pos + 1) rex has_66 i)
  else if b =? 0x66 then Some (Prefixes (pos + 1) rex true i)
  else if b =? 0x67 then Some (Prefixes (pos + 1) rex has_66 i)
  else if (md =? 64) && between 0x40 0x4F b
  then Some (Prefixes (pos + 1) b has_66 (set_rex b (set_has_rex true i)))
  else None.

(** The loop; [fuel = size] is enough, each iteration consumes a byte. *)
Fixpoint parse_prefixes (fuel : nat) (md : Z) (code : bytes) (isize : Z) (s : prefix_state)
  : option prefix_state :=
  if isize <=? px_pos s then Some s
  else
    match fuel with
    | O => None
    | S f =>
        b ← rd code (px_pos s);
        match prefix_step md b s with
        | Some s' => parse_prefixes f md code isize s'
        | None => Some s
        end
    end.

Definition operand_size (md rex : Z) (has_66 : bool) : Z :=
  let op_size := if md =? 64 then 4 else md / 8 in
  let op_size := if truthy (Z.land rex 8) then 8 else op_size in
  if has_66 then (if op_size =? 4 then 2 else 4) else op_size.

Definition jcc_names : list string :=
  ["jo"; "jno"; "jb"; "jnb"; "jz"; "jnz"; "jbe"; "ja";
   "js"; "jns"; "jp"; "jnp"; "jl"; "jge"; "jle"; "jg"]%string.

(** PUSH and POP of a register. *)
Definition decode_push_pop (name : string) (first op rex : Z) (ctx : E9X86Disasm)
    (pos : Z) (i : E9X86Insn) : option dec_out :=
  r ← (if mode ctx =? 64
       then REG64 !! Z.to_nat (Z.lor (op - first) (Z.shiftl (Z.land rex 1) 3))
       else REG32 !! Z.to_nat (op - first));
  Some (Next pos
    (i |> set_mnemonic name |> set_category E9_X86_CAT_STACK |> set_num_operands 1
       |> set_operand 0 (Operand E9_X86_OP_REG (if mode ctx =? 64 then 8 else 4) (U_reg r)))).

(** MOV r, imm (B8 - BF). *)
Definition decode_mov_imm (code : bytes) (isize pos rex op_size op : Z) (i : E9X86Insn)
  : option dec_out :=
  let i := i |> set_mnemonic "mov" |> set_category E9_X86_CAT_DATA_XFER |> set_num_operands 2 in
  let r := Z.to_nat (Z.lor (op - 0xB8) (Z.shiftl (Z.land rex 1) 3)) in
  if op_size =? 8 then
    r ← REG64 !! r;
    let i := set_operand 0 (Operand E9_X86_OP_REG op_size (U_reg r)) i in
    if isize <? pos + 8 then Some (Invalid i)
    else
      imm ← read_i64 code pos;
      Some (Next (pos + 8) (set_operand 1 (Operand E9_X86_OP_IMM 8 (U_imm imm)) i))
  else
    r ← REG32 !! r;
    let i := set_operand 0 (Operand E9_X86_OP_REG op_size (U_reg r)) i in
    if isize <? pos + 4 then Some (Invalid i)
    else
      imm ← read_i32 code pos;
      Some (Next (pos + 4) (set_operand 1 (Operand E9_X86_OP_IMM 4 (U_imm imm)) i)).

(** The rel32 operand of a branch and its target. *)
Definition decode_rel32 (code : bytes) (isize pos addr : Z) (i : E9X86Insn) : option dec_out :=
  if isize <? pos + 4 then Some (Invalid i)
  else
    rel ← read_i32 code pos;
    let pos := pos + 4 in
    Some (Next pos
      (i |> set_num_operands 1 |> set_operand 0 (Operand E9_X86_OP_REL 0 (U_rel rel))
         |> set_branch_target (u64 (addr + pos + rel)))).

(** The rel8 operand of a branch and its target. *)
Definition decode_rel8 (code : bytes) (isize pos addr : Z) (i : E9X86Insn) : option dec_out :=
  if isize <=? pos then Some (Invalid i)
  else
    rel ← read_i8 code pos;
    let pos := pos + 1 in
    Some (Next pos
      (i |> set_num_operands 1 |> set_operand 0 (Operand E9_X86_OP_REL 0 (U_rel rel))
         |> set_branch_target (u64 (addr + pos + rel)))).

(** RET, LEAVE, CALL, JMP and the short conditional jumps. *)
Definition decode_control (code : bytes) (isize pos op addr : Z) (i : E9X86Insn)
  : option dec_out :=
  if op =? 0xC3 then
    Some (Next pos (i |> set_mnemonic "ret" |> set_category E9_X86_CAT_CONTROL
                      |> set_is_ret true |> set_is_branch true))
  else if op =? 0xC9 then
    Some (Next pos (i |> set_mnemonic "leave" |> set_category E9_X86_CAT_STACK))
  else if op =? 0xE8 then
    decode_rel32 code isize pos addr
      (i |> set_mnemonic "call" |> set_category E9_X86_CAT_CONTROL
         |> set_is_call true |> set_is_branch true)
  else if op =? 0xE9 then
    decode_rel32 code isize pos addr
      (i |> set_mnemonic "jmp" |> set_category E9_X86_CAT_CONTROL |> set_is_branch true)
  else if op =? 0xEB then
    decode_rel8 code isize pos addr
      (i |> set_mnemonic "jmp" |> set_category E9_X86_CAT_CONTROL |> set_is_branch true)
  else (* 0x70 - 0x7F *)
    name ← jcc_names !! Z.to_nat (op - 0x70);
    decode_rel8 code isize pos addr
      (i |> set_mnemonic name |> set_category E9_X86_CAT_CONTROL
         |> set_is_branch true |> set_is_conditional true).

(** The two-byte opcodes (0F xx). *)
Definition decode_0f (ctx : E9X86Disasm) (code : bytes) (isize pos rex op_size addr : Z)
    (i : E9X86Insn) : option dec_out :=
  if isize <=? pos then Some (Invalid i)
  else
    op2 ← rd code pos;
    let pos := pos + 1 in
    if between 0x80 0x8F op2 then
      name ← jcc_names !! Z.to_nat (op2 - 0x80);
      decode_rel32 code isize pos addr
        (i |> set_mnemonic name |> set_category E9_X86_CAT_CONTROL
           |> set_is_branch true |> set_is_conditional true)
    else if op2 =? 0x05 then
      Some (Next pos (i |> set_mnemonic "syscall" |> set_category E9_X86_CAT_SYSTEM))
    else if op2 =? 0x07 then
      Some (Next pos (i |> set_mnemonic "sysret" |> set_category E9_X86_CAT_SYSTEM))
    else if op2 =? 0xA2 then
      Some (Next pos (i |> set_mnemonic "cpuid" |> set_category E9_X86_CAT_SYSTEM))
    else if op2 =? 0x1F then
      let i := i |> set_mnemonic "nop" |> set_category E9_X86_CAT_NOP in
      '(pos, _, _) ← decode_modrm ctx code isize pos rex op_size None None;
      if pos <? 0 then Some (Invalid i) else Some (Next pos i)
    else
      Some (Next pos
        (i |> set_mnemonic (clip 16 (String.append "0f " (hex_pad 2 op2 "")))
           |> set_category E9_X86_CAT_OTHER)).

(** [insn->operands[k].type == E9_X86_OP_MEM] *)
Definition is_mem (i : E9X86Insn) (k : nat) : bool :=
  bool_decide (op_type (operand i k) = E9_X86_OP_MEM).

(** [pos = decode_modrm(..., &insn->operands[reg_k], &insn->operands[rm_k])] *)
Definition modrm_operands (ctx : E9X86Disasm) (code : bytes) (isize pos rex op_size : Z)
    (reg_k rm_k : nat) (i : E9X86Insn) : option (Z * E9X86Insn) :=
  '(pos, reg_op, rm_op) ← decode_modrm ctx code isize pos rex op_size
                            (Some (operand i reg_k)) (Some (operand i rm_k));
  Some (pos, i |> set_operand reg_k (default zero_operand reg_op)
               |> set_operand rm_k (default zero_operand rm_op)).

(** The two-operand instructions with a ModR/M byte and no immediate:
    MOV (89, 8B), LEA (8D), XOR (31), TEST (85), CMP (39). *)
Definition decode_rm_op (ctx : E9X86Disasm) (code : bytes) (isize pos rex op_size op : Z)
    (i : E9X86Insn) : option dec_out :=
  let run name cat reg_k rm_k :=
    '(pos, i) ← modrm_operands ctx code isize pos rex op_size reg_k rm_k
                  (i |> set_mnemonic name |> set_category cat |> set_num_operands 2);
    if pos <? 0 then Some (Invalid i)
    else if op =? 0x89 then
      Some (Next pos (if is_mem i 0 then set_writes_memory true i else i))
    else if op =? 0x8B then
      Some (Next pos (if is_mem i 1 then set_reads_memory true i else i))
    else Some (Next pos i) in
  if op =? 0x89 then run "mov"%string E9_X86_CAT_DATA_XFER 1%nat 0%nat
  else if op =? 0x8B then run "mov"%string E9_X86_CAT_DATA_XFER 0%nat 1%nat
  else if op =? 0x8D then run "lea"%string E9_X86_CAT_DATA_XFER 0%nat 1%nat
  else if op =? 0x31 then run "xor"%string E9_X86_CAT_LOGICAL 1%nat 0%nat
  else if op =? 0x85 then run "test"%string E9_X86_CAT_COMPARE 1%nat 0%nat
  else (* 0x39 *) run "cmp"%string E9_X86_CAT_COMPARE 1%nat 0%nat.

Definition grp1 : list string :=
  ["add"; "or"; "adc"; "sbb"; "and"; "sub"; "xor"; "cmp"]%string.

(** ADD/OR/ADC/SBB/AND/SUB/XOR/CMP r/m, imm8 (83). *)
Definition decode_grp1 (ctx : E9X86Disasm) (code : bytes) (isize pos rex op_size : Z)
    (i : E9X86Insn) : option dec_out :=
  if isize <=? pos then Some (Invalid i)
  else
    modrm ← rd code pos;
    let op_ext := Z.land (Z.shiftr modrm 3) 7 in
    name ← grp1 !! Z.to_nat op_ext;
    let cat := if op_ext =? 7 then E9_X86_CAT_COMPARE
               else if (op_ext <? 2) || (op_ext =? 4) || (op_ext =? 6)
               then E9_X86_CAT_LOGICAL else E9_X86_CAT_ARITHMETIC in
    let i := i |> set_mnemonic name |> set_category cat |> set_num_operands 2 in
    '(pos, _, rm_op) ← decode_modrm ctx code isize pos rex op_size None (Some (operand i 0));
    let i := set_operand 0 (default zero_operand rm_op) i in
    if (pos <? 0) || (isize <=? pos) then Some (Invalid i)
    else
      imm ← read_i8 code pos;
      Some (Next (pos + 1) (set_operand 1 (Operand E9_X86_OP_IMM 1 (U_imm imm)) i)).

(** The [switch (op)]. *)
Definition decode_opcode (ctx : E9X86Disasm) (code : bytes) (isize pos rex op_size op addr : Z)
    (i : E9X86Insn) : option dec_out :=
  if op =? 0x90 then
    Some (Next pos (i |> set_mnemonic "nop" |> set_category E9_X86_CAT_NOP))
  else if between 0x50 0x57 op then decode_push_pop "push" 0x50 op rex ctx pos i
  else if between 0x58 0x5F op then decode_push_pop "pop" 0x58 op rex ctx pos i
  else if between 0xB8 0xBF op then decode_mov_imm code isize pos rex op_size op i
  else if (op =? 0xC3) || (op =? 0xC9) || (op =? 0xE8) || (op =? 0xE9) || (op =? 0xEB)
          || between 0x70 0x7F op
  then decode_control code isize pos op addr i
  else if op =? 0x0F then decode_0f ctx code isize pos rex op_size addr i
  else if (op =? 0x89) || (op =? 0x8B) || (op =? 0x8D) || (op =? 0x31) || (op =? 0x85)
          || (op =? 0x39)
  then decode_rm_op ctx code isize pos rex op_size op i
  else if op =? 0x83 then decode_grp1 ctx code isize pos rex op_size i
  else if op =? 0xCC then
    Some (Next pos (i |> set_mnemonic "int3" |> set_category E9_X86_CAT_CONTROL))
  else if op =? 0xF4 then
    Some (Next pos (i |> set_mnemonic "hlt" |> set_category E9_X86_CAT_SYSTEM))
  else
    Some (Next pos
      (i |> set_mnemonic (clip 16 (String.append "db 0x" (hex_pad 2 op "")))
         |> set_category E9_X86_CAT_INVALID)).

(** ** Text *)

(** One operand of the text; [put_if] is an [snprintf] under an [if]. *)
Definition put_if (b : bool) (size : Z) (s : string) (c : cursor) : option cursor :=
  if b then put size s c else Some c.

Definition not_none (r : E9X86Reg) : bool := negb (reg_index r =? 0).

(** [0x%llx] or [-0x%llx] of a signed value. *)
Definition signed_hex (z : Z) : string :=
  if z <? 0 then String.append "-0x" (hex (u64 (- z))) else String.append "0x" (hex (u64 z)).

Definition format_mem (size : Z) (m : E9X86Mem) (c : cursor) : option cursor :=
  c ← put size "[" c;
  c ← put_if (not_none (mem_base m)) size (e9_x86_reg_name (reg_index (mem_base m))) c;
  let need_plus := not_none (mem_base m) in
  c ← (if not_none (mem_index m) then
         c ← put_if need_plus size "+" c;
         c ← put size (e9_x86_reg_name (reg_index (mem_index m))) c;
         put_if (1 <? mem_scale m) size (String.append "*" (dec (mem_scale m))) c
       else Some c);
  let need_plus := need_plus || not_none (mem_index m) in
  c ← (if negb (mem_disp m =? 0) || negb need_plus then
         if 0 <=? mem_disp m then
           c ← put_if need_plus size "+" c;
           put size (String.append "0x" (hex (u64 (mem_disp m)))) c
         else put size (String.append "-0x" (hex (u64 (- mem_disp m)))) c
       else Some c);
  put size "]" c.

Definition format_operand (size target : Z) (o : E9X86Operand) (c : cursor) : option cursor :=
  match op_type o with
  | E9_X86_OP_REG => put size (e9_x86_reg_name (reg_index (op_reg o))) c
  | E9_X86_OP_IMM => put size (signed_hex (op_imm o)) c
  | E9_X86_OP_REL => put size (String.append "0x" (hex (u64 target))) c
  | E9_X86_OP_MEM => format_mem size (op_mem o) c
  | E9_X86_OP_NONE => Some c
  end.

(** The operand loop, from operand [k] with [n] operands left. *)
Fixpoint format_operands (size : Z) (i : E9X86Insn) (k n : nat) (c : cursor) : option cursor :=
  match n with
  | O => Some c
  | S n' =>
      if cur_pos c <? size - 1 then
        c ← put size (if Nat.eqb k 0 then " " else ", ")%string c;
        o ← operands i !! k;
        c ← format_operand size (branch_target i) o c;
        format_operands size i (S k) n' c
      else Some c
  end.

(** Prefixes, mnemonic, operands. *)
Definition format_body (i : E9X86Insn) (size : Z) (c : cursor) : option cursor :=
  c ← put_if (has_lock i) size "lock " c;
  c ← put_if (has_rep i) size "rep " c;
  c ← put_if (has_repne i) size "repne " c;
  c ← put size (mnemonic i) c;
  format_operands size i 0 (Z.to_nat (num_operands i)) c.

(** The text written to a buffer of [size] characters; a zero [size] writes
    nothing. *)
Definition e9_x86_insn_format (i : E9X86Insn) (size : Z) : option string :=
  if size =? 0 then Some EmptyString
  else c ← format_body i size (Cursor 0 EmptyString); finish size c.

(** ** Decoding *)

(** [size] is the [size_t] argument and [code] the object it points into; the
    [NULL] pointers are [None].  The result is the returned length and the
    instruction the [insn] pointer then holds. *)
Definition e9_x86_disasm_one (ctx : option E9X86Disasm) (code : option bytes) (size addr : Z)
    (insn : option E9X86Insn) : option (Z * option E9X86Insn) :=
  match ctx, code, insn with
  | Some ctx, Some code, Some _ =>
      if size =? 0 then Some (0, insn)
      else
        let isize := s32 size in
        let i := set_address addr zero_insn in
        s ← parse_prefixes (Z.to_nat size) (mode ctx) code isize (Prefixes 0 0 false i);
        out ← (if isize <=? px_pos s then Some (Invalid (px_insn s))
               else
                 let op_size := operand_size (mode ctx) (px_rex s) (px_has_66 s) in
                 op ← rd code (px_pos s);
                 decode_opcode ctx code isize (px_pos s + 1) (px_rex s) op_size op addr
                   (px_insn s));
        match out with
        | Next pos i =>
            raw ← rdn code 0 (if 15 <? pos then 15 else pos);
            bs ← wrn (ibytes i) 0 raw;
            let i := i |> set_ilength (u8 pos) |> set_ibytes bs in
            txt ← e9_x86_insn_format i 64;
            Some (pos, Some (set_text txt i))
        | Invalid i =>
            b0 ← rd code 0;
            bs ← wrn (ibytes i) 0 [b0];
            Some (1, Some (i |> set_ilength 1 |> set_ibytes bs |> set_mnemonic "(bad)"
                             |> set_category E9_X86_CAT_INVALID |> set_text "(bad)"))
        end
  | _, _, _ => Some (0, insn)
  end.

(** The sweep loop: the instructions decoded from [off] on.  [fuel = size] is
    enough, every instruction consumes a byte. *)
Fixpoint disasm_loop (fuel : nat) (ctx : E9X86Disasm) (code : bytes) (size addr count : Z)
    (off : Z) (done_ : list E9X86Insn) : option (list E9X86Insn) :=
  if (Z.of_nat (List.length done_) <? count) && (off <? size) then
    match fuel with
    | O => None
    | S f =>
        '(len, i) ← e9_x86_disasm_one (Some ctx) (Some (drop (Z.to_nat off) code)) (size - off)
                      (u64 (addr + off)) (Some zero_insn);
        match i with
        | Some i =>
            if len <=? 0 then Some done_
            else disasm_loop f ctx code size addr count (off + len) (done_ ++ [i])
        | None => Some done_
        end
    end
  else Some done_.

(** The number of instructions decoded and the array (NULL when it is not
    allocated); [alloc] is the outcome of the [calloc]. *)
Definition e9_x86_disasm (alloc : bool) (ctx : option E9X86Disasm) (code : option bytes)
    (size addr count : Z) : option (Z * option (list E9X86Insn)) :=
  match ctx, code with
  | Some ctx, Some code =>
      if size =? 0 then Some (0, None)
      else if negb alloc then Some (0, None)
      else
        l ← disasm_loop (Z.to_nat size) ctx code size addr count 0 [];
        Some (Z.of_nat (List.length l), Some l)
  | _, _ => Some (0, None)
  end.

(** ** Queries *)

(** [code[k] == b], evaluated after the size test of the same condition. *)
Definition byte_is (code : bytes) (k b : Z) : option bool :=
  x ← rd code k; Some (x =? b).

(** [code[0] == p0 && code[1] == p1 && ...]: the test stops at the first
    difference. *)
Fixpoint starts_with (code : bytes) (k : Z) (pat : list Z) : option bool :=
  match pat with
  | [] => Some true
  | b :: pat' =>
      e ← byte_is code k b;
      if (e : bool) then starts_with code (k + 1) pat' else Some false
  end.

Definition test_prefix (size n : Z) (code : bytes) (pat : list Z) : option bool :=
  if n <=? size then starts_with code 0 pat else Some false.

Definition e9_x86_is_prologue (code : bytes) (size : Z) : option bool :=
  if size <? 1 then Some false
  else
    a ← test_prefix size 4 code [0x55; 0x48; 0x89; 0xE5];
    if (a : bool) then Some true
    else
      b ← byte_is code 0 0x55;
      if (b : bool) then Some true
      else test_prefix size 5 code [0xF3; 0x0F; 0x1E; 0xFA; 0x55].

Definition e9_x86_is_epilogue (code : bytes) (size : Z) : option bool :=
  if size <? 1 then Some false
  else
    a ← byte_is code 0 0xC3;
    if (a : bool) then Some true
    else
      b ← test_prefix size 2 code [0xC9; 0xC3];
      if (b : bool) then Some true
      else test_prefix size 2 code [0x5D; 0xC3].

Definition e9_x86_insn_length (alloc : bool) (code : option bytes) (size m : Z) : option Z :=
  match e9_x86_disasm_create alloc m with
  | None => Some 0
  | Some ctx =>
      '(len, _) ← e9_x86_disasm_one (Some ctx) code size 0 (Some zero_insn);
      Some len
  end.

(** On a NULL [code] the decoder leaves its local [insn] uninitialised, and
    returns 0: the category is then not read. *)
Definition e9_x86_is_valid_opcode (alloc : bool) (code : option bytes) (size m : Z)
  : option bool :=
  if size <? 1 then Some false
  else
    match e9_x86_disasm_create alloc m with
    | None => Some false
    | Some ctx =>
        '(len, i) ← e9_x86_disasm_one (Some ctx) code size 0 (Some zero_insn);
        Some ((0 <? len) &&
              match i with
              | Some i => negb (bool_decide (category i = E9_X86_CAT_INVALID))
              | None => false
              end)
    end.

Definition reg_eqb (a b : E9X86Reg) : bool := reg_index a =? reg_index b.

Definition e9_x86_insn_writes_reg (insn : option E9X86Insn) (reg : E9X86Reg) : bool :=
  match insn with
  | None => false
  | Some i =>
      if num_operands i =? 0 then false
      else if bool_decide (op_type (operand i 0) = E9_X86_OP_REG)
              && reg_eqb (op_reg (operand i 0)) reg then true
      else if String.eqb (mnemonic i) "push" && reg_eqb reg E9_X86_REG_RSP then true
      else if String.eqb (mnemonic i) "pop" && reg_eqb reg E9_X86_REG_RSP then true
      else String.eqb (mnemonic i) "call" && reg_eqb reg E9_X86_REG_RSP
  end.

(** Whether operand [k] makes the instruction read [reg]. *)
Definition operand_reads (i : E9X86Insn) (reg : E9X86Reg) (k : nat) : bool :=
  let op := operand i k in
  if bool_decide (op_type op = E9_X86_OP_REG) && reg_eqb (op_reg op) reg then
    negb (Nat.eqb k 0 && negb (String.eqb (mnemonic i) "cmp")
          && negb (String.eqb (mnemonic i) "test"))
  else
    bool_decide (op_type op = E9_X86_OP_MEM)
    && (reg_eqb (mem_base (op_mem op)) reg || reg_eqb (mem_index (op_mem op)) reg).

Definition e9_x86_insn_reads_reg (insn : option E9X86Insn) (reg : E9X86Reg) : bool :=
  match insn with
  | None => false
  | Some i => existsb (operand_reads i reg) (seq 0 (Z.to_nat (num_operands i)))
  end.

(** * Properties *)

(** ** The text, without a buffer

    What [e9_x86_insn_format] prints when nothing is cut. *)

Definition str_if (b : bool) (s : string) : string := if b then s else EmptyString.

Definition render_mem (m : E9X86Mem) : string :=
  let base := not_none (mem_base m) in
  let index := not_none (mem_index m) in
  String.append "["
  (String.append (str_if base (e9_x86_reg_name (reg_index (mem_base m))))
  (String.append (str_if index
     (String.append (str_if base "+")
     (String.append (e9_x86_reg_name (reg_index (mem_index m)))
        (str_if (1 <? mem_scale m) (String.append "*" (dec (mem_scale m)))))))
  (String.append (str_if (negb (mem_disp m =? 0) || negb (base || index))
     (if 0 <=? mem_disp m
      then String.append (str_if (base || index) "+") (String.append "0x" (hex (u64 (mem_disp m))))
      else String.append "-0x" (hex (u64 (- mem_disp m)))))
  "]"))).

Definition render_operand (target : Z) (o : E9X86Operand) : string :=
  match op_type o with
  | E9_X86_OP_REG => e9_x86_reg_name (reg_index (op_reg o))
  | E9_X86_OP_IMM => signed_hex (op_imm o)
  | E9_X86_OP_REL => String.append "0x" (hex (u64 target))
  | E9_X86_OP_MEM => render_mem (op_mem o)
  | E9_X86_OP_NONE => EmptyString
  end.

Fixpoint render_operands (target : Z) (k : nat) (ops : list E9X86Operand) : string :=
  match ops with
  | [] => EmptyString
  | o :: ops' =>
      String.append (if Nat.eqb k 0 then " " else ", ")%string
        (String.append (render_operand target o) (render_operands target (S k) ops'))
  end.

Definition render_prefixes (i : E9X86Insn) : string :=
  String.append (str_if (has_lock i) "lock ")
    (String.append (str_if (has_rep i) "rep ") (str_if (has_repne i) "repne ")).

Definition render_ops (i : E9X86Insn) : string :=
  render_operands (branch_target i) 0 (take (Z.to_nat (num_operands i)) (operands i)).

Definition render (i : E9X86Insn) : string :=
  String.append (render_prefixes i) (String.append (mnemonic i) (render_ops i)).

Section format.
Context (size : Z).

(** With enough room, each printing function appends its rendering. *)
Lemma put_if_prints b s : prints size (put_if b size s) (str_if b s).
Proof. unfold put_if, str_if. prints_auto. Qed.
Hint Resolve put_if_prints : e9.

Lemma format_mem_prints m : prints size (format_mem size m) (render_mem m).
Proof. unfold format_mem, render_mem, str_if at 2 4. prints_auto. Qed.

Lemma format_operand_prints t o : prints size (format_operand size t o) (render_operand t o).
Proof.
  unfold format_operand, render_operand.
  destruct (op_type o); auto using format_mem_prints with e9.
Qed.

Lemma format_operands_ok i k n c :
  (k + n <= List.length (operands i))%nat →
  let s := render_operands (branch_target i) k (take n (drop k (operands i))) in
  cur_pos c + slen s < size - 1 →
  format_operands size i k n c = Some (cat c s).
Proof.
  revert k c. induction n as [|n IH]; intros k c Hk s Hc; cbn [format_operands].
  { subst s. cbn [take render_operands]. by rewrite cat_nil. }
  destruct (lookup_lt_is_Some_2 (operands i) k) as [o Ho]; [lia|].
  subst s. rewrite (drop_S _ o k) in * by done. cbn [take render_operands] in *.
  set (sep := if Nat.eqb k 0 then _ else _) in *.
  rewrite !slen_append in Hc. pose proof (slen_nonneg (render_operand (branch_target i) o)).
  match type of Hc with context [slen (render_operands ?t ?k ?l)] =>
    pose proof (slen_nonneg (render_operands t k l)) end.
  assert (0 < slen sep) by (subst sep; by destruct (Nat.eqb k 0)).
  destruct (Z.ltb_spec (cur_pos c) (size - 1)); [|lia].
  rewrite put_ok by lia. cbn [mbind option_bind]. rewrite Ho. cbn [mbind option_bind].
  rewrite format_operand_prints by (cbn [cur_pos cat]; lia). cbn [mbind option_bind].
  rewrite IH by (cbn [cur_pos cat]; lia). by rewrite !cat_cat, ?append_assoc.
Qed.

(** An instruction whose rendering fits prints exactly its rendering. *)
Lemma insn_format_ok i :
  0 < size → slen (render i) < size - 1 →
  (Z.to_nat (num_operands i) <= List.length (operands i))%nat →
  e9_x86_insn_format i size = Some (render i).
Proof.
  intros Hs Hr Hn. unfold e9_x86_insn_format.
  destruct (Z.eqb_spec size 0); [lia|].
  assert (Hp : prints size (format_body i size) (render i)).
  { unfold render, render_prefixes, format_body. rewrite !append_assoc.
    repeat (apply prints_seq; [auto with e9|]).
    intros c Hc. rewrite (format_operands_ok i 0) by (rewrite ?drop_0; done). by rewrite drop_0. }
  rewrite (Hp (Cursor 0 EmptyString)) by (cbn [cur_pos]; lia). cbn [mbind option_bind].
  unfold finish. cbn [cat cur_pos cur_out].
  destruct (Z.ltb_spec (0 + slen (render i)) size); [done|lia].
Qed.
End format.

(** ** Lengths of the pieces *)

Lemma reg_name_len r : slen (e9_x86_reg_name (reg_index r)) <= 5.
Proof. by destruct r; vm_compute. Qed.

Lemma hex_u64_len z : slen (hex (u64 z)) <= 16.
Proof. apply (slen_hex 15), wrapu_range. lia. Qed.

Lemma hex_u32_len z : 0 <= z <= 2 ^ 31 → slen (hex (u64 z)) <= 8.
Proof. intros. rewrite wrapu_small by lia. apply (slen_hex 7). lia. Qed.

(** A memory operand of the decoder. *)
Definition mem_fits (m : E9X86Mem) : Prop :=
  mem_scale m ∈ [1; 2; 4; 8] ∧ - 2 ^ 31 <= mem_disp m < 2 ^ 31.

Lemma render_mem_len m : mem_fits m → slen (render_mem m) <= 26.
Proof.
  intros [Hs Hd]. unfold render_mem.
  pose proof (reg_name_len (mem_base m)). pose proof (reg_name_len (mem_index m)).
  assert (slen (dec (mem_scale m)) = 1) as Hdec.
  { rewrite !elem_of_cons, elem_of_nil in Hs. by destruct Hs as [-> | [-> | [-> | [-> | []]]]]. }
  assert (0 <= mem_disp m → slen (hex (u64 (mem_disp m))) <= 8) as Hp
    by (intros; apply hex_u32_len; lia).
  assert (mem_disp m < 0 → slen (hex (u64 (- mem_disp m))) <= 8) as Hn
    by (intros; apply hex_u32_len; lia).
  autorewrite with e9_text. change (slen EmptyString) with 0.
  destruct (Z.leb_spec 0 (mem_disp m));
    destruct (not_none (mem_base m)), (not_none (mem_index m)), (1 <? mem_scale m),
      (mem_disp m =? 0); cbn [str_if negb orb]; autorewrite with e9_text;
    change (slen EmptyString) with 0; lia.
Qed.

(** Operands that print in at most [n] characters, whatever the target. *)
Definition op_fits (n : Z) (o : E9X86Operand) : Prop := ∀ t, slen (render_operand t o) <= n.

Lemma reg_op_fits o : op_type o = E9_X86_OP_REG → op_fits 5 o.
Proof. intros H t. unfold render_operand. rewrite H. apply reg_name_len. Qed.

Lemma mem_op_fits n m : mem_fits m → op_fits 26 (Operand E9_X86_OP_MEM n (U_mem m)).
Proof. intros H t. by apply render_mem_len. Qed.

Lemma rel_op_fits n r : op_fits 18 (Operand E9_X86_OP_REL n (U_rel r)).
Proof.
  intros t. unfold render_operand. cbn [op_type]. pose proof (hex_u64_len t).
  autorewrite with e9_text. change (slen EmptyString) with 0. lia.
Qed.

Lemma imm_op_fits n z : op_fits 19 (Operand E9_X86_OP_IMM n (U_imm z)).
Proof.
  intros t. unfold render_operand, op_imm, signed_hex. cbn [op_type op_val].
  pose proof (hex_u64_len z). pose proof (hex_u64_len (- z)).
  destruct (z <? 0); autorewrite with e9_text; change (slen EmptyString) with 0; lia.
Qed.

Lemma imm8_op_fits n z : - 128 <= z < 128 → op_fits 6 (Operand E9_X86_OP_IMM n (U_imm z)).
Proof.
  intros Hz t. unfold render_operand, op_imm, signed_hex. cbn [op_type op_val].
  assert (∀ y, 0 <= y < 256 → slen (hex (u64 y)) <= 2).
  { intros y Hy. rewrite wrapu_small by lia. apply (slen_hex 1). lia. }
  pose proof (H (- z)). pose proof (H z).
  destruct (Z.ltb_spec z 0); autorewrite with e9_text; change (slen EmptyString) with 0; lia.
Qed.

Lemma op_fits_mono n m o : n <= m → op_fits n o → op_fits m o.
Proof. intros Hn H t. specialize (H t). lia. Qed.

(** ** Memory safety of the decoder *)

Section safety.
Context (ctx : E9X86Disasm) (code : bytes) (isize addr0 : Z).
Hypothesis Hcode : bytes_ok code.
Hypothesis Hsize : isize <= blen code.

Lemma read_i8_safe p : 0 <= p < blen code → safely (read_i8 code p) (λ d, - 128 <= d < 128).
Proof. intros. unfold read_i8. repeat ub_step. by apply (wraps_range 8). Qed.

Lemma read_i32_safe p :
  0 <= p → p + 4 <= blen code → safely (read_i32 code p) (λ d, - 2 ^ 31 <= d < 2 ^ 31).
Proof. intros. unfold read_i32. repeat ub_step. by apply (wraps_range 32). Qed.

Lemma read_i64_safe p :
  0 <= p → p + 8 <= blen code → safely (read_i64 code p) (λ d, - 2 ^ 63 <= d < 2 ^ 63).
Proof.
  intros. unfold read_i64. ub_step.
  ub_call read_i32_safe. intros lo _. ub_step.
  ub_call read_i32_safe. intros hi _. ub_step.
  by apply (wraps_range 64).
Qed.

Lemma modrm_reg_safe n rex reg o :
  0 <= reg < 16 → safely (modrm_reg n rex reg o) (λ o', op_type o' = E9_X86_OP_REG).
Proof.
  intros. pose proof (land_le reg 7 ltac:(lia)). unfold modrm_reg.
  repeat ub_step; try done; (apply safely_lookup; [|done]); try (cbn; lia).
  destruct (truthy rex); cbn; lia.
Qed.

(** The position is -1 or has moved to the end of what was read. *)
Definition pos_ok (pos p : Z) : Prop := p = -1 ∨ pos <= p <= isize.

Lemma scale_fits s : 0 <= s < 256 → Z.shiftl 1 (Z.land (Z.shiftr s 6) 3) ∈ [1; 2; 4; 8].
Proof.
  intros. pose proof (land_le (Z.shiftr s 6) 3 ltac:(lia)) as Hl.
  assert (∀ k, 0 <= k <= 3 → Z.shiftl 1 k ∈ [1; 2; 4; 8]) as Hk; [|by apply Hk].
  intros k Hk. assert (k = 0 ∨ k = 1 ∨ k = 2 ∨ k = 3) as [->|[->|[->| ->]]] by lia;
    cbn; repeat constructor.
Qed.

Lemma ext_bound b rex k : 0 <= b → 0 <= (if truthy (Z.land rex k) then Z.lor (Z.land b 7) 8 else Z.land b 7) < 16.
Proof.
  intros. pose proof (land_le b 7 ltac:(lia)).
  destruct (truthy _); [|lia]. apply (lor_bound _ _ 4); lia.
Qed.

Lemma decode_sib_safe pos rex md m :
  0 <= pos → mem_fits m →
  safely (decode_sib code isize pos rex md m) (λ r, pos_ok pos r.1 ∧ mem_fits r.2).
Proof.
  intros Hp [Hsc Hd]. unfold decode_sib. ub_step; [cbn; split; [by left|done]|].
  ub_step. apply safely_rd_byte; [done|lia|]. intros sib _ Hb.
  pose proof (shiftr_byte_bound sib 3 Hb ltac:(lia)).
  pose proof (ext_bound (Z.shiftr sib 3) rex 2 ltac:(lia)) as Hi.
  pose proof (ext_bound sib rex 1 ltac:(unfold byte_ok in *; lia)) as Hbase.
  set (index := if truthy (Z.land rex 2) then _ else _) in *.
  set (base := if truthy (Z.land rex 1) then _ else _) in *.
  ub_step. apply (safely_mono _ (λ _, True)).
  { ub_step; [apply safely_lookup; [cbn; lia|done] | done]. }
  intros idx _. repeat ub_step.
  - cbn. split; [by left|]. split; [by apply scale_fits|done].
  - ub_call read_i32_safe. intros d Hdd. cbn.
    split; [right; cbn; lia|]. split; [by apply scale_fits|done].
  - apply safely_lookup; [cbn; lia|]. intros r _. cbn.
    split; [right; cbn; lia|]. split; [by apply scale_fits|done].
Qed.

Lemma decode_disp_safe pos md rm rip m :
  0 <= pos <= isize → mem_fits m →
  safely (decode_disp code isize pos md rm rip m) (λ r, pos_ok pos r.1 ∧ mem_fits r.2).
Proof.
  intros Hp [Hsc Hd]. unfold decode_disp.
  repeat ub_step; cbn; try (split; [(by left) || (right; lia) | done]).
  - ub_call read_i8_safe. intros d Hdd. cbn.
    split; [right; lia|]. split; [done|cbn; lia].
  - ub_call read_i32_safe. intros d Hdd. cbn.
    split; [right; lia|]. split; [done|cbn; lia].
Qed.

Lemma decode_mem_safe pos rex md rm :
  0 <= pos <= isize → 0 <= rm < 16 →
  safely (decode_mem ctx code isize pos rex md rm) (λ r, pos_ok pos r.1 ∧ mem_fits r.2).
Proof.
  intros Hp Hrm. unfold decode_mem.
  assert (∀ b, mem_fits (Mem b E9_X86_REG_NONE 1 0 E9_X86_REG_NONE)) as Hm0.
  { intros b. split; [repeat constructor|cbn; lia]. }
  ub_step. apply (safely_mono _ (λ r, pos_ok pos r.1 ∧ mem_fits r.2)).
  - repeat ub_step; cbn [fst snd]; try (split; [right; cbn; lia | apply Hm0]).
    + apply decode_sib_safe; [lia|apply Hm0].
    + apply safely_lookup; [cbn; lia|]. intros r _. cbn. split; [right; lia|apply Hm0].
  - intros [p m] [Hpos Hm]. cbn [fst snd] in *. ub_step; [cbn; split; [by left|done]|].
    destruct Hpos as [->|Hpos]; [done|].
    ub_call decode_disp_safe.
    intros [p' m'] [Hp' Hm']. cbn in *. split; [|done].
    destruct Hp' as [->|Hp']; [by left|right; lia].
Qed.

(** What [decode_modrm] leaves in an operand pointer that was not NULL. *)
Definition written (n : Z) (before after : option E9X86Operand) : Prop :=
  match before, after with
  | None, None => True
  | Some _, Some o => op_fits n o
  | _, _ => False
  end.

Lemma decode_modrm_safe pos rex op_size reg_op rm_op :
  0 <= pos →
  safely (decode_modrm ctx code isize pos rex op_size reg_op rm_op)
    (λ r, r.1.1 = -1 ∨
          (pos < r.1.1 <= isize ∧ written 5 reg_op r.1.2 ∧ written 26 rm_op r.2)).
Proof.
  intros Hp. unfold decode_modrm. ub_step; [by left|].
  ub_step. apply safely_rd_byte; [done|lia|]. intros modrm _ Hb.
  pose proof (ext_bound (Z.shiftr modrm 3) rex 4) as Hreg.
  pose proof (shiftr_byte_bound modrm 3 Hb ltac:(lia)).
  pose proof (ext_bound modrm rex 1 ltac:(unfold byte_ok in *; lia)) as Hrm.
  set (reg := if truthy (Z.land rex 4) then _ else _) in *.
  set (rm := if truthy (Z.land rex 1) then _ else _) in *.
  ub_step. apply (safely_mono _ (λ ro, written 5 reg_op ro)).
  { ub_step; [|done]. ub_step. ub_call modrm_reg_safe. intros o Ho. cbn.
    by apply reg_op_fits. }
  intros ro Hro. destruct rm_op as [o|]; [|cbn; right; repeat split; cbn; lia || done].
  ub_step; ub_step.
  - ub_call modrm_reg_safe. intros o' Ho. cbn. right. split; [lia|]. split; [done|].
    eapply op_fits_mono; [|by apply reg_op_fits]. lia.
  - ub_call decode_mem_safe. intros [p m] [Hpos Hm]. cbn in *. destruct Hpos as [->|Hpos]; [by left|right].
    split; [lia|]. split; [done|]. by apply mem_op_fits.
Qed.

(** The state the switch starts from, and what its cases establish. *)
Definition kept (i : E9X86Insn) : Prop :=
  List.length (ibytes i) = 15%nat ∧ address i = addr0.

Definition fresh (i : E9X86Insn) : Prop :=
  operands i = replicate 4 zero_operand ∧ num_operands i = 0 ∧ kept i.

Definition out_ok (pos : Z) (o : dec_out) : Prop :=
  match o with
  | Next p i =>
      pos <= p <= isize ∧ slen (mnemonic i) <= 7 ∧ slen (render_ops i) <= 36 ∧
      List.length (operands i) = 4%nat ∧ kept i ∧
      0 <= num_operands i <= 4
  | Invalid i => kept i
  end.

Lemma next_0 pos p i :
  fresh i → pos <= p <= isize → slen (mnemonic i) <= 7 → out_ok pos (Next p i).
Proof.
  intros (Ho & Hn & Hb) Hp Hm. cbn. unfold render_ops. rewrite Ho, Hn. cbn.
  change (slen EmptyString) with 0. destruct Hb. repeat split; lia || done.
Qed.

Lemma next_1 pos p i o n :
  operands i = o :: replicate 3 zero_operand → num_operands i = 1 →
  kept i → pos <= p <= isize → slen (mnemonic i) <= 7 →
  op_fits n o → n <= 35 → out_ok pos (Next p i).
Proof.
  intros Ho Hn Hb Hp Hm Hf Hle. cbn. unfold render_ops. rewrite Ho, Hn.
  change (Z.to_nat 1) with 1%nat. cbn [take replicate render_operands Nat.eqb].
  specialize (Hf (branch_target i)). autorewrite with e9_text.
  change (slen EmptyString) with 0. destruct Hb. repeat split; lia || done.
Qed.

Lemma next_2 pos p i o1 o2 n1 n2 :
  operands i = o1 :: o2 :: replicate 2 zero_operand → num_operands i = 2 →
  kept i → pos <= p <= isize → slen (mnemonic i) <= 7 →
  op_fits n1 o1 → op_fits n2 o2 → n1 + n2 <= 33 → out_ok pos (Next p i).
Proof.
  intros Ho Hn Hb Hp Hm Hf1 Hf2 Hle. cbn. unfold render_ops. rewrite Ho, Hn.
  change (Z.to_nat 2) with 2%nat. cbn [take replicate render_operands Nat.eqb].
  specialize (Hf1 (branch_target i)). specialize (Hf2 (branch_target i)).
  autorewrite with e9_text. change (slen EmptyString) with 0. destruct Hb. repeat split; lia || done.
Qed.

Lemma short_names l k x : Forall (λ s, slen s <= 7) l → l !! k = Some x → slen x <= 7.
Proof. intros Hl Hx. by eapply Forall_lookup_1 in Hl. Qed.

Lemma jcc_short : Forall (λ s, slen s <= 7) jcc_names.
Proof. by repeat constructor. Qed.

Lemma grp1_short : Forall (λ s, slen s <= 7) grp1.
Proof. by repeat constructor. Qed.

Lemma kept_eq i i' : (ibytes i', address i') = (ibytes i, address i) → kept i → kept i'.
Proof. unfold kept. intros [= -> ->]. done. Qed.

(** Closes the goals [next_k] leaves about a literal update of a fresh
    instruction. *)
Local Ltac fields :=
  cbn [operands num_operands ibytes mnemonic set_mnemonic set_category set_num_operands
       set_operand set_branch_target set_is_ret set_is_branch set_is_call set_is_conditional
       set_reads_memory set_writes_memory operand];
  repeat match goal with H : fresh _ |- _ => destruct H as (Ho & Hn & Hb) end;
  repeat match goal with H : operands ?i = _ |- context [operands ?i] => rewrite H end;
  solve [done | lia | by vm_compute | eauto].

Local Ltac next1 tac :=
  eapply next_1; [fields | fields | fields | fields | fields | solve [tac] | lia].

Local Ltac next2 tac1 tac2 :=
  eapply next_2;
    [fields | fields | fields | fields | fields | solve [tac1] | solve [tac2] | lia].

Lemma decode_push_pop_safe name first op rex pos i :
  fresh i → 0 <= pos <= isize → 0 <= op - first < 8 → slen name <= 7 →
  safely (decode_push_pop name first op rex ctx pos i) (out_ok pos).
Proof.
  intros Hi Hp Hop Hname. unfold decode_push_pop. ub_step. apply (safely_mono _ (λ _, True)).
  - pose proof (land_le rex 1 ltac:(lia)).
    ub_step; (apply safely_lookup; [|done]); cbn [List.length REG64 REG32]; [|lia].
    apply (lor_bound _ _ 4); try lia. rewrite Z.shiftl_mul_pow2 by lia. lia.
  - intros r _. next1 ltac:(by apply reg_op_fits).
Qed.

Lemma decode_mov_imm_safe pos rex n op i :
  fresh i → 0 <= pos <= isize → 0 <= op - 0xB8 < 8 →
  safely (decode_mov_imm code isize pos rex n op i) (out_ok pos).
Proof.
  intros Hi Hp Hop. unfold decode_mov_imm. pose proof (land_le rex 1 ltac:(lia)).
  assert (0 <= Z.lor (op - 184) (Z.shiftl (Z.land rex 1) 3) < 16) as Hr.
  { apply (lor_bound _ _ 4); try lia. rewrite Z.shiftl_mul_pow2 by lia. lia. }
  ub_step; ub_step; (apply safely_lookup; [cbn; lia|]); intros r _;
    (ub_step; [by destruct Hi as (?&?&?)|]); ub_step.
  - ub_call read_i64_safe. intros imm _.
    next2 ltac:(by apply reg_op_fits) ltac:(apply imm_op_fits).
  - ub_call read_i32_safe. intros imm _.
    next2 ltac:(by apply reg_op_fits) ltac:(apply imm_op_fits).
Qed.

Lemma decode_rel32_safe pos addr i :
  fresh i → 0 <= pos <= isize → slen (mnemonic i) <= 7 →
  safely (decode_rel32 code isize pos addr i) (out_ok pos).
Proof.
  intros Hi Hp Hm. unfold decode_rel32. ub_step; [by destruct Hi as (?&?&?)|]. ub_step.
  ub_call read_i32_safe. intros rel _.
  next1 ltac:(apply rel_op_fits).
Qed.

Lemma decode_rel8_safe pos addr i :
  fresh i → 0 <= pos <= isize → slen (mnemonic i) <= 7 →
  safely (decode_rel8 code isize pos addr i) (out_ok pos).
Proof.
  intros Hi Hp Hm. unfold decode_rel8. ub_step; [by destruct Hi as (?&?&?)|]. ub_step.
  ub_call read_i8_safe. intros rel _.
  next1 ltac:(apply rel_op_fits).
Qed.

Lemma out_ok_mono pos pos' o : pos' <= pos → out_ok pos o → out_ok pos' o.
Proof. destruct o; cbn; [|done]. intros ? (?&?). split; [lia|done]. Qed.

Lemma decode_control_safe pos op addr i :
  fresh i → 0 <= pos <= isize → 0 <= op < 256 →
  (op =? 0xC3) || (op =? 0xC9) || (op =? 0xE8) || (op =? 0xE9) || (op =? 0xEB)
    || between 0x70 0x7F op = true →
  safely (decode_control code isize pos op addr i) (out_ok pos).
Proof.
  intros Hi Hp Hop Hsel. unfold decode_control. repeat ub_step.
  - apply next_0; [|lia|done]. destruct Hi as (?&?&?). done.
  - apply next_0; [|lia|done]. destruct Hi as (?&?&?). done.
  - apply decode_rel32_safe; [|lia|done]. destruct Hi as (?&?&?). done.
  - apply decode_rel32_safe; [|lia|done]. destruct Hi as (?&?&?). done.
  - apply decode_rel8_safe; [|lia|done]. destruct Hi as (?&?&?). done.
  - assert (between 112 127 op = true) as Hb by (destruct (between 112 127 op); [done|lia]).
    apply between_spec in Hb.
    apply safely_lookup; [cbn; lia|]. intros name Hn.
    apply decode_rel8_safe; [|lia|eapply short_names; [apply jcc_short|done]].
    destruct Hi as (?&?&?). done.
Qed.

Lemma byte_name_len (pre : string) b :
  slen pre <= 5 → slen (clip 16 (String.append pre (hex_pad 2 b ""))) <= 7.
Proof.
  intros Hpre. assert (slen (String.append pre (hex_pad 2 b "")) <= 7).
  { autorewrite with e9_text. change (slen EmptyString) with 0. lia. }
  rewrite clip_all; lia.
Qed.

Lemma fresh_set i i' :
  operands i' = operands i → num_operands i' = num_operands i →
  (ibytes i', address i') = (ibytes i, address i) → fresh i → fresh i'.
Proof. intros E1 E2 [= E3 E4] (H1 & H2 & H3). unfold fresh, kept. by rewrite E1, E2, E3, E4. Qed.
Local Hint Extern 2 (fresh _) => (eapply fresh_set; [..|eassumption]; reflexivity) : e9.

Lemma decode_0f_safe pos rex op_size addr i :
  fresh i → 0 <= pos →
  safely (decode_0f ctx code isize pos rex op_size addr i) (out_ok pos).
Proof.
  intros Hi Hp. unfold decode_0f. ub_step; [by destruct Hi as (?&?&?)|].
  ub_step. apply safely_rd_byte; [done|lia|]. intros op2 _ Hb. unfold byte_ok in Hb.
  destruct (between 128 143 op2) eqn:Hj.
  { apply between_spec in Hj. ub_step. apply safely_lookup; [cbn; lia|]. intros name Hn.
    apply (safely_mono _ (out_ok (pos + 1))); [|intros; eapply out_ok_mono; [|done]; lia].
    apply decode_rel32_safe; [auto with e9|lia|].
    eapply short_names; [apply jcc_short|done]. }
  repeat (ub_step; [apply next_0; [auto with e9|lia|done]|]).
  ub_step.
  - ub_step. ub_call decode_modrm_safe. intros [[p ro] rmo]. cbn [fst snd]. intros Hm.
    ub_step; [by destruct Hi as (?&?&?)|]. destruct Hm as [->|(Hp' & _ & _)]; [done|].
    apply next_0; [auto with e9|lia|done].
  - apply next_0; [auto with e9|lia|]. by apply byte_name_len.
Qed.

(** The two operands of a ModR/M instruction, in either order. *)
Lemma modrm_operands_safe pos rex op_size reg_k rm_k i :
  0 <= pos → (reg_k, rm_k) ∈ [(0, 1); (1, 0)]%nat → operands i = replicate 4 zero_operand →
  safely (modrm_operands ctx code isize pos rex op_size reg_k rm_k i) (λ r,
    (ibytes r.2, address r.2) = (ibytes i, address i) ∧ mnemonic r.2 = mnemonic i ∧ num_operands r.2 = num_operands i ∧
    (r.1 = -1 ∨ (pos < r.1 <= isize ∧
      ∃ o1 o2, operands r.2 = o1 :: o2 :: replicate 2 zero_operand ∧
        ((op_fits 5 o1 ∧ op_fits 26 o2) ∨ (op_fits 26 o1 ∧ op_fits 5 o2))))).
Proof.
  intros Hp Hk Ho. unfold modrm_operands. ub_step. ub_call decode_modrm_safe.
  intros [[p ro] rmo]. cbn [fst snd]. intros Hm. cbn.
  repeat split. destruct Hm as [->|(Hp' & Hro & Hrm)]; [by left|right]. split; [done|].
  destruct ro as [o1|]; [|done]. destruct rmo as [o2|]; [|done]. cbn in Hro, Hrm.
  rewrite Ho. rewrite !elem_of_cons, elem_of_nil in Hk.
  destruct Hk as [[= -> ->] | [[= -> ->] | []]]; cbn; eauto 6.
Qed.

Lemma decode_rm_op_safe pos rex op_size op i :
  fresh i → 0 <= pos → safely (decode_rm_op ctx code isize pos rex op_size op i) (out_ok pos).
Proof.
  intros (Ho & Hn & Hb) Hp. unfold decode_rm_op. cbv zeta.
  assert (∀ name cat reg_k rm_k, slen name <= 7 → (reg_k, rm_k) ∈ [(0, 1); (1, 0)]%nat →
    safely (modrm_operands ctx code isize pos rex op_size reg_k rm_k
      (i |> set_mnemonic name |> set_category cat |> set_num_operands 2)) (λ r,
      (r.1 < 0 ∧ kept r.2) ∨
      (0 <= r.1 ∧ ∀ i', operands i' = operands r.2 → num_operands i' = num_operands r.2 →
         (ibytes i', address i') = (ibytes r.2, address r.2) → mnemonic i' = mnemonic r.2 →
         out_ok pos (Next r.1 i')))) as Hrun.
  { intros name cat reg_k rm_k Hname Hk.
    eapply safely_mono; [apply modrm_operands_safe; [lia | done | done] |].
    intros [p i'] (Hib & Hmn & Hno & Hor). cbn [fst snd] in *.
    destruct Hor as [->|(Hp' & o1 & o2 & Hops & Hfit)]; [left; split; [done|by eapply kept_eq]|right].
    split; [lia|]. intros i'' E1 E2 E3 E4. rewrite Hops in E1. rewrite Hmn in E4.
    rewrite Hno in E2. cbn in E2, E4.
    pose proof (kept_eq _ _ E3 (kept_eq _ _ Hib Hb)) as Hk'.
    destruct Hfit as [[Hf1 Hf2]|[Hf1 Hf2]];
      (eapply next_2; [exact E1|exact E2|exact Hk'|lia| |exact Hf1|exact Hf2|lia]); congruence. }
  repeat (match goal with |- safely (if ?b then mbind _ _ else _) _ => destruct b eqn:? end;
    [ub_step; eapply safely_mono; [apply Hrun; [done|repeat constructor]|];
     intros [p i'] [[? ?]|[? Hout]]; cbn [fst snd] in *; repeat ub_step;
     repeat case_match;
       first [done | lia | apply Hout; done] |]).
  ub_step. eapply safely_mono; [apply Hrun; [done|repeat constructor]|].
  intros [p i'] [[? ?]|[? Hout]]; cbn [fst snd] in *; repeat ub_step;
    repeat case_match;
       first [done | lia | apply Hout; done].
Qed.

Lemma decode_grp1_safe pos rex op_size i :
  fresh i → 0 <= pos → safely (decode_grp1 ctx code isize pos rex op_size i) (out_ok pos).
Proof.
  intros (Ho & Hn & Hb) Hp. unfold decode_grp1. ub_step; [done|].
  ub_step. apply safely_rd_byte; [done|lia|]. intros modrm _ Hbyte. ub_step.
  pose proof (land_le (Z.shiftr modrm 3) 7 ltac:(lia)).
  apply safely_lookup; [cbn; lia|]. intros name Hname.
  pose proof (short_names _ _ _ grp1_short Hname) as Hlen.
  ub_step. ub_call decode_modrm_safe. intros [[p ro] rmo]. cbn [fst snd]. intros Hm.
  ub_step; [done|]. destruct Hm as [->|(Hp' & _ & Hrm)]; [done|].
  destruct rmo as [o|]; [|done]. cbn in Hrm.
  ub_step. ub_call read_i8_safe. intros imm Himm. cbn [safely].
  next2 ltac:(exact Hrm) ltac:(by apply imm8_op_fits).
Qed.

Lemma decode_opcode_safe pos rex op_size op addr i :
  fresh i → 0 <= pos <= isize → 0 <= op < 256 →
  safely (decode_opcode ctx code isize pos rex op_size op addr i) (out_ok pos).
Proof.
  intros Hi Hp Hop. unfold decode_opcode.
  destruct (op =? 144); [apply next_0; [auto with e9|lia|done]|].
  destruct (between 80 87 op) eqn:?; bool_hyps; [apply decode_push_pop_safe; done || lia|].
  destruct (between 88 95 op) eqn:?; bool_hyps; [apply decode_push_pop_safe; done || lia|].
  destruct (between 184 191 op) eqn:?; bool_hyps; [apply decode_mov_imm_safe; done || lia|].
  ub_step; [by apply decode_control_safe|].
  ub_step; [apply decode_0f_safe; [done|lia]|].
  ub_step; [apply decode_rm_op_safe; [done|lia]|].
  ub_step; [apply decode_grp1_safe; [done|lia]|].
  repeat (ub_step; [apply next_0; [auto with e9|lia|done]|]).
  apply next_0; [auto with e9|lia|]. by apply byte_name_len.
Qed.

(** The prefix loop: it ends within [isize] iterations and only sets the
    prefix flags. *)
Lemma parse_prefixes_safe fuel s :
  0 <= px_pos s → isize - px_pos s <= Z.of_nat fuel → fresh (px_insn s) →
  safely (parse_prefixes fuel (mode ctx) code isize s) (λ s',
    px_pos s <= px_pos s' ∧ (px_pos s' <= isize ∨ px_pos s' = px_pos s) ∧ fresh (px_insn s')).
Proof.
  revert s. induction fuel as [|f IH]; intros s Hp Hf Hi; cbn [parse_prefixes].
  - ub_step; [|lia]. cbn. repeat split; try apply Hi; lia.
  - ub_step; [cbn; repeat split; try apply Hi; lia|].
    ub_step. apply safely_rd_byte; [done|lia|]. intros b _ Hb.
    destruct (prefix_step (mode ctx) b s) as [s'|] eqn:E;
      [|cbn; repeat split; try apply Hi; lia].
    assert (px_pos s' = px_pos s + 1 ∧ fresh (px_insn s')) as [Hs' Hi'].
    { destruct s as [pos rex h i]. cbn in E, Hi |- *.
      repeat case_match; simplify_eq; cbn; split; auto with e9. }
    eapply safely_mono; [apply IH; [lia|lia|done]|]. cbn beta. rewrite Hs'.
    intros s'' (H1 & H2 & H3). repeat split; try apply H3; lia.
Qed.
End safety.

(** The text of a decoded instruction fits the 64-character buffer. *)
Lemma render_prefixes_len i : slen (render_prefixes i) <= 15.
Proof.
  unfold render_prefixes, str_if. autorewrite with e9_text.
  by destruct (has_lock i), (has_rep i), (has_repne i); vm_compute.
Qed.

(** What one call of the decoder promises about its result. *)
Record decoded (addr size n : Z) (i : E9X86Insn) : Prop := {
  decoded_len : 1 <= n <= size;
  decoded_address : address i = addr;
  decoded_ilength : ilength i = u8 n;
  decoded_bytes : List.length (ibytes i) = 15%nat;
  decoded_text : text i = render i ∨
    (n = 1 ∧ category i = E9_X86_CAT_INVALID ∧ text i = "(bad)"%string) }.

Lemma finish_insn_safe isize addr code pos i :
  bytes_ok code → isize <= blen code → 0 < isize → out_ok isize addr 0 (Next pos i) →
  safely (raw ← rdn code 0 (if 15 <? pos then 15 else pos);
          bs ← wrn (ibytes i) 0 raw;
          let i := i |> set_ilength (u8 pos) |> set_ibytes bs in
          txt ← e9_x86_insn_format i 64;
          Some (pos, Some (set_text txt i)))
    (λ r, r.1 = pos ∧ ∃ i', r.2 = Some i' ∧ address i' = addr ∧ ilength i' = u8 pos ∧
          List.length (ibytes i') = 15%nat ∧ text i' = render i').
Proof.
  intros Hcode Hs Hpos (Hp & Hm & Hr & Ho & [Hb Ha] & Hn).
  set (n := if 15 <? pos then 15 else pos).
  assert (0 <= n <= 15 ∧ n <= pos) as Hcut by (subst n; destruct (Z.ltb_spec 15 pos); lia).
  ub_step. apply safely_rdn; [lia | lia | lia |].
  intros raw Hraw. pose proof (rdn_len _ _ _ _ Hraw) as Hl.
  ub_step. apply safely_wrn; [lia | |].
  { rewrite Hl. unfold blen. rewrite Hb. lia. }
  intros bs Hbs. pose proof (wrn_len _ _ _ _ Hbs) as Hlb. unfold blen in Hlb.
  cbv zeta. set (i' := set_ibytes bs (set_ilength (u8 pos) i)).
  assert (render i' = render i) as Hren by done.
  pose proof (render_prefixes_len i). ub_step.
  rewrite insn_format_ok; [|lia| |].
  - cbn [safely]. split; [done|]. eexists. split; [done|]. cbn. repeat split; try done; lia.
  - rewrite Hren. unfold render. rewrite !slen_append. lia.
  - change (operands i') with (operands i). change (num_operands i') with (num_operands i). lia.
Qed.

(** The decoder on a non-empty buffer. *)
Lemma disasm_one_safe ctx code size addr insn :
  bytes_ok code → 0 < size <= blen code →
  safely (e9_x86_disasm_one (Some ctx) (Some code) size addr (Some insn))
    (λ r, ∃ i, r.2 = Some i ∧ decoded addr size r.1 i).
Proof.
  intros Hcode Hs. unfold e9_x86_disasm_one. ub_step; [lia|]. cbv zeta.
  pose proof (wraps_le 32 size ltac:(lia) ltac:(lia)) as Hi.
  assert (∀ i, kept addr i → safely (b0 ← rd code 0; bs ← wrn (ibytes i) 0 [b0];
    Some (1, Some (i |> set_ilength 1 |> set_ibytes bs |> set_mnemonic "(bad)"
                     |> set_category E9_X86_CAT_INVALID |> set_text "(bad)")))
    (λ r, ∃ i', r.2 = Some i' ∧ decoded addr size r.1 i')) as Hbad.
  { intros i [Hb Ha]. ub_step. apply safely_rd; [lia|]. intros b0 _.
    ub_step. apply safely_wrn; [lia|unfold blen; cbn; lia|]. intros bs Hbs.
    pose proof (wrn_len _ _ _ _ Hbs) as Hlb. unfold blen in Hlb.
    cbn. eexists. split; [done|]. split; cbn; try done; try lia. by right. }
  ub_step. eapply safely_mono.
  { apply (parse_prefixes_safe ctx code (s32 size) addr Hcode); [lia|cbn; lia|cbn; lia|].
    by repeat split. }
  cbn [px_pos]. intros s (Hp1 & Hp2 & Hfr). ub_step.
  destruct (Z.leb_spec (s32 size) (px_pos s)).
  - cbn [safely]. apply Hbad, Hfr.
  - ub_step. apply safely_rd_byte; [done|lia|]. intros op _ Hop.
    eapply safely_mono.
    { apply (decode_opcode_safe ctx code (s32 size) addr Hcode); [lia|done|lia|done]. }
    intros [pos i|i] Hout; [|by apply Hbad].
    eapply safely_mono.
    { apply (finish_insn_safe (s32 size) addr); try done; try lia.
      by eapply out_ok_mono; [|exact Hout]; lia. }
    intros [n oi] (-> & i' & -> & H1 & H2 & H3 & H4). cbn. eexists. split; [done|].
    destruct Hout as (Hpos & _). split; try done; [lia|by left].
Qed.

(** ** The linear sweep *)

(** [tiled code size addr off l off']: the instructions [l] tile the code
    from [off] to [off'], each is what the decoder returns at its offset. *)
Inductive tiled (ctx : E9X86Disasm) (code : bytes) (size addr : Z)
  : Z → list E9X86Insn → Z → Prop :=
| tiled_nil off : tiled ctx code size addr off [] off
| tiled_cons off len i l off' :
    e9_x86_disasm_one (Some ctx) (Some (drop (Z.to_nat off) code)) (size - off)
      (u64 (addr + off)) (Some zero_insn) = Some (len, Some i) →
    decoded (u64 (addr + off)) (size - off) len i →
    tiled ctx code size addr (off + len) l off' →
    tiled ctx code size addr off (i :: l) off'.

Lemma tiled_snoc ctx code size addr off l mid len i :
  tiled ctx code size addr off l mid →
  e9_x86_disasm_one (Some ctx) (Some (drop (Z.to_nat mid) code)) (size - mid)
    (u64 (addr + mid)) (Some zero_insn) = Some (len, Some i) →
  decoded (u64 (addr + mid)) (size - mid) len i →
  tiled ctx code size addr off (l ++ [i]) (mid + len).
Proof.
  induction 1 as [|off0 len0 i0 l0 off1 Hd Hok Ht IH]; intros; cbn [app].
  - econstructor; [done..|]. constructor.
  - econstructor; [done..|]. by apply IH.
Qed.

Lemma blen_drop n (l : bytes) : Z.of_nat n <= blen l → blen (drop n l) = blen l - Z.of_nat n.
Proof. unfold blen. intros. rewrite length_drop. lia. Qed.

Lemma disasm_loop_tiled ctx code size addr count fuel off acc :
  bytes_ok code → size <= blen code → 0 <= off <= size → size - off <= Z.of_nat fuel →
  Z.of_nat (List.length acc) <= Z.max 0 count →
  tiled ctx code size addr 0 acc off →
  safely (disasm_loop fuel ctx code size addr count off acc) (λ l, ∃ off',
    tiled ctx code size addr 0 l off' ∧ off' <= size ∧
    Z.of_nat (List.length l) <= Z.max 0 count ∧
    (off' = size ∨ Z.of_nat (List.length l) = Z.max 0 count)).
Proof.
  intros Hcode Hs. revert off acc.
  induction fuel as [|f IH]; intros off acc Hoff Hf Hn Ht; cbn [disasm_loop].
  - ub_step; [lia|]. cbn. exists off. repeat split; try done; lia.
  - ub_step; [|cbn; exists off; repeat split; try done; lia].
    assert (blen (drop (Z.to_nat off) code) = blen code - off) as Hlen
      by (rewrite blen_drop by lia; lia).
    pose proof (disasm_one_safe ctx (drop (Z.to_nat off) code) (size - off) (u64 (addr + off))
      zero_insn ltac:(by apply Forall_drop) ltac:(lia)) as Hone.
    apply safely_Some in Hone as ([len oi] & Hone & i & Hi & Hdec). cbn [fst snd] in *. subst oi.
    rewrite Hone. cbn. pose proof (decoded_len _ _ _ _ Hdec).
    destruct (Z.leb_spec len 0); [lia|].
    apply IH; [lia|lia| |by apply tiled_snoc]. rewrite length_app. cbn. lia.
Qed.

(** ** The properties *)



(** The linear sweep terminates without undefined behaviour; the
    instructions it returns tile the code from its first byte without a gap
    or an overlap, each decoded at its own address; it stops only when
    [count] instructions are decoded or the code is used up. *)
Theorem disasm_sweep ctx code size addr count :
  bytes_ok code → 0 < size <= blen code → 0 <= count →
  ∃ l off, e9_x86_disasm true (Some ctx) (Some code) size addr count
           = Some (Z.of_nat (List.length l), Some l) ∧
    tiled ctx code size addr 0 l off ∧ off <= size ∧ Z.of_nat (List.length l) <= count ∧
    (off = size ∨ Z.of_nat (List.length l) = count).
Proof.
  intros Hc Hs Hn. unfold e9_x86_disasm. destruct (Z.eqb_spec size 0); [lia|]. cbn [negb].
  pose proof (disasm_loop_tiled ctx code size addr count (Z.to_nat size) 0 [] Hc) as H.
  destruct (proj1 (safely_Some _ _) (H ltac:(lia) ltac:(lia) ltac:(lia) ltac:(cbn; lia)
    ltac:(constructor))) as (l & Hl & off & H1 & H2 & H3 & H4).
  rewrite Hl. exists l, off. split; [done|]. repeat split; try done; lia.
Qed.

Lemma disasm_sweep_witness :
  ∃ l off, e9_x86_disasm true (Some (Ctx 64)) (Some [0x55; 0xE8; 1; 0; 0; 0; 0xC3]) 7 0x1000 16
           = Some (Z.of_nat (List.length l), Some l) ∧
    tiled (Ctx 64) [0x55; 0xE8; 1; 0; 0; 0; 0xC3] 7 0x1000 0 l off ∧ off <= 7 ∧
    Z.of_nat (List.length l) <= 16 ∧ (off = 7 ∨ Z.of_nat (List.length l) = 16).
Proof.
  apply disasm_sweep; [|unfold blen; cbn; lia|lia]. repeat constructor; unfold byte_ok; lia.
Defined.
End X86.
