(* ===== verification/A64Disasm.v ===== *)
(** * A64Disasm: the lightweight AArch64 disassembler

    Models src/src/e9patch/vendor/e9disasm_arm64.c (and the types of e9disasm_arm64.h): the
    register names, the decoder, the text formatter, the sweep and the tests for prologues
    and epilogues.  Reads outside of the code, of a table or past a text buffer are undefined
    behaviour and give [None]. *)

From S2P Require Import Prelude.

Module A64.

(** ** Types (e9disasm_arm64.h) *)

Inductive E9A64Category :=
| E9_A64_CAT_INVALID | E9_A64_CAT_DATA_PROC | E9_A64_CAT_LOAD_STORE | E9_A64_CAT_BRANCH
| E9_A64_CAT_SIMD_FP | E9_A64_CAT_SYSTEM | E9_A64_CAT_EXCEPTION | E9_A64_CAT_BITFIELD
| E9_A64_CAT_MOVE | E9_A64_CAT_COMPARE | E9_A64_CAT_OTHER.

Inductive E9A64OpType :=
| E9_A64_OP_NONE | E9_A64_OP_REG | E9_A64_OP_VREG | E9_A64_OP_IMM | E9_A64_OP_MEM
| E9_A64_OP_LABEL | E9_A64_OP_SHIFT | E9_A64_OP_EXTEND | E9_A64_OP_COND | E9_A64_OP_SYSREG.

(** [E9A64Reg]: the decoder computes with its values. *)
Definition E9_A64_REG_X0 : Z := 0.
Definition E9_A64_REG_XZR : Z := 31.
Definition E9_A64_REG_SP : Z := 32.
Definition E9_A64_REG_W0 : Z := 64.
Definition E9_A64_REG_WZR : Z := 95.
Definition E9_A64_REG_WSP : Z := 96.

(** The members of the union that the decoder writes and the formatter reads; of a memory
    operand, those that the decoder writes and the flag that the formatter tests. *)
Record E9A64Mem := Mem { mem_base : Z; mem_offset : Z; mem_post_index : bool }.

Inductive op_union :=
| U_zero | U_reg (r : Z) | U_imm (v : Z) | U_mem (m : E9A64Mem) | U_label (v : Z)
| U_shifted (reg shift amount : Z) | U_cond (c : Z).

Record E9A64Operand := Operand { op_type : E9A64OpType; op_size : Z; op_val : op_union }.

Definition zero_operand : E9A64Operand := Operand E9_A64_OP_NONE 0 U_zero.

Definition op_reg (o : E9A64Operand) : Z := match op_val o with U_reg r => r | _ => 0 end.
Definition op_imm (o : E9A64Operand) : Z := match op_val o with U_imm v => v | _ => 0 end.
Definition op_label (o : E9A64Operand) : Z := match op_val o with U_label v => v | _ => 0 end.
Definition op_mem (o : E9A64Operand) : E9A64Mem := match op_val o with U_mem m => m | _ => Mem 0 0 false end.
Definition op_shifted (o : E9A64Operand) : Z * Z * Z := match op_val o with U_shifted r s a => (r, s, a) | _ => (0, 0, 0) end.
Definition op_cond (o : E9A64Operand) : Z := match op_val o with U_cond c => c | _ => 0 end.

(** [struct E9A64Insn] *)
Record E9A64Insn := Insn {
  address : Z; encoding : Z; mnemonic : string; category : E9A64Category;
  operands : list E9A64Operand; num_operands : Z;
  is_branch : bool; is_call : bool; is_ret : bool; is_conditional : bool; branch_target : Z;
  reads_memory : bool; writes_memory : bool; text : string }.

Definition zero_insn : E9A64Insn :=
  Insn 0 0 "" E9_A64_CAT_INVALID (replicate 5 zero_operand) 0 false false false false 0 false false "".

(** ** Tables *)

Definition REG_NAMES_X : list string :=
  ["x0"; "x1"; "x2"; "x3"; "x4"; "x5"; "x6"; "x7"; "x8"; "x9"; "x10"; "x11"; "x12"; "x13"; "x14"; "x15";
   "x16"; "x17"; "x18"; "x19"; "x20"; "x21"; "x22"; "x23"; "x24"; "x25"; "x26"; "x27"; "x28"; "x29";
   "x30"; "xzr"; "sp"]%string.

Definition REG_NAMES_W : list string :=
  ["w0"; "w1"; "w2"; "w3"; "w4"; "w5"; "w6"; "w7"; "w8"; "w9"; "w10"; "w11"; "w12"; "w13"; "w14"; "w15";
   "w16"; "w17"; "w18"; "w19"; "w20"; "w21"; "w22"; "w23"; "w24"; "w25"; "w26"; "w27"; "w28"; "w29";
   "w30"; "wzr"; "wsp"]%string.

Definition COND_NAMES : list string :=
  ["eq"; "ne"; "cs"; "cc"; "mi"; "pl"; "vs"; "vc"; "hi"; "ls"; "ge"; "lt"; "gt"; "le"; "al"; "nv"]%string.

Definition SHIFT_NAMES : list string := ["lsl"; "lsr"; "asr"; "ror"]%string.

(** [table[i]] *)
Definition at_index {A} (l : list A) (i : Z) : option A := if 0 <=? i then l !! Z.to_nat i else None.

Inductive E9A64Disasm := Ctx.

Definition e9_a64_disasm_create (alloc : bool) : option E9A64Disasm := if alloc then Some Ctx else None.

Definition e9_a64_reg_name (reg : Z) : option string :=
  if between E9_A64_REG_X0 E9_A64_REG_SP reg then at_index REG_NAMES_X (reg - E9_A64_REG_X0)
  else if between E9_A64_REG_W0 E9_A64_REG_WSP reg then at_index REG_NAMES_W (reg - E9_A64_REG_W0)
  else Some "???"%string.

Definition e9_a64_cond_name (cond : Z) : option string :=
  if cond <=? 15 then at_index COND_NAMES cond else Some "??"%string.

(** ** Fields *)

Definition read_insn (p : bytes) : option Z :=
  b0 ← rd p 0; b1 ← rd p 1; b2 ← rd p 2; b3 ← rd p 3;
  Some (u32 (Z.lor (Z.lor (Z.lor b0 (Z.shiftl b1 8)) (Z.shiftl b2 16)) (Z.shiftl b3 24))).

(** [sign_extend] of an unsigned field. *)
Definition sign_extend (val bits : Z) : Z :=
  let sign_bit := Z.shiftl 1 (bits - 1) in s64 (Z.lxor val sign_bit - sign_bit).

Definition BITS (insn hi lo : Z) : Z := Z.land (Z.shiftr insn lo) (Z.shiftl 1 (hi - lo + 1) - 1).
Definition BIT (insn n : Z) : bool := negb (Z.land (Z.shiftr insn n) 1 =? 0).

Definition decode_reg (num : Z) (is_64bit is_sp : bool) : Z :=
  if num =? 31 then
    if is_sp then (if is_64bit then E9_A64_REG_SP else E9_A64_REG_WSP)
    else (if is_64bit then E9_A64_REG_XZR else E9_A64_REG_WZR)
  else if is_64bit then E9_A64_REG_X0 + num else E9_A64_REG_W0 + num.

(** ** The cases of the decoder

    Each case fills a zeroed instruction.  [size] is the size in bytes of a register that
    has one; the cases that leave it out leave it 0. *)

Definition reg_op (size r : Z) : E9A64Operand := Operand E9_A64_OP_REG size (U_reg r).
Definition imm_op (v : Z) : E9A64Operand := Operand E9_A64_OP_IMM 0 (U_imm v).
Definition label_op (v : Z) : E9A64Operand := Operand E9_A64_OP_LABEL 0 (U_label v).
Definition mem_op (size base offset : Z) : E9A64Operand := Operand E9_A64_OP_MEM size (U_mem (Mem base offset false)).
Definition shift_op (r s a : Z) : E9A64Operand := Operand E9_A64_OP_SHIFT 0 (U_shifted r s a).
Definition sysreg_op : E9A64Operand := Operand E9_A64_OP_SYSREG 0 U_zero.

Definition width (is_64bit : bool) : Z := if is_64bit then 8 else 4.

Section Decode.
Context (addr enc : Z).

(** The instruction with these operands, which are all that it has. *)
Definition plain (mn : string) (cat : E9A64Category) (ops : list E9A64Operand) : E9A64Insn :=
  Insn addr enc mn cat (ops ++ replicate (5 - List.length ops) zero_operand) (Z.of_nat (List.length ops))
    false false false false 0 false false "".

Definition branch (call ret cond : bool) (target : Z) (i : E9A64Insn) : E9A64Insn :=
  Insn (address i) (encoding i) (mnemonic i) (category i) (operands i) (num_operands i)
    true call ret cond target (reads_memory i) (writes_memory i) (text i).

Definition access (is_load : bool) (i : E9A64Insn) : E9A64Insn :=
  Insn (address i) (encoding i) (mnemonic i) (category i) (operands i) (num_operands i)
    (is_branch i) (is_call i) (is_ret i) (is_conditional i) (branch_target i) is_load (negb is_load) (text i).

Definition decode_adr : E9A64Insn :=
  let is_adrp := BIT enc 31 in
  let imm := Z.lor (Z.shiftl (sign_extend (BITS enc 23 5) 19) 2) (BITS enc 30 29) in
  let rd := BITS enc 4 0 in
  plain (if is_adrp then "adrp" else "adr") E9_A64_CAT_DATA_PROC
    [reg_op 8 (decode_reg rd true false);
     label_op (s64 (if is_adrp then Z.land addr (u64 (Z.lnot 0xFFF)) + Z.shiftl imm 12 else addr + imm))].

Definition decode_add_imm : E9A64Insn :=
  let is_64bit := BIT enc 31 in
  let is_sub := BIT enc 30 in
  let set_flags := BIT enc 29 in
  let shift := BITS enc 23 22 in
  let imm12 := BITS enc 21 10 in
  let rn := BITS enc 9 5 in
  let rd := BITS enc 4 0 in
  let imm := if negb (shift =? 0) then Z.shiftl imm12 12 else imm12 in
  if is_sub && (rd =? 31) && set_flags then
    plain "cmp" E9_A64_CAT_COMPARE [reg_op (width is_64bit) (decode_reg rn is_64bit true); imm_op imm]
  else
    plain (clip 24 (String.append (if is_sub then "sub" else "add") (if set_flags then "s" else ""))) E9_A64_CAT_DATA_PROC
      [reg_op (width is_64bit) (decode_reg rd is_64bit (negb set_flags));
       reg_op (width is_64bit) (decode_reg rn is_64bit true); imm_op imm].

Definition mov_ops : list string := ["movn"; "???"; "movz"; "movk"]%string.

Definition decode_mov_wide : option E9A64Insn :=
  let is_64bit := BIT enc 31 in
  let hw := BITS enc 22 21 in
  let imm16 := BITS enc 20 5 in
  let rd := BITS enc 4 0 in
  mn ← at_index mov_ops (BITS enc 30 29);
  Some (plain mn E9_A64_CAT_MOVE
    [reg_op (width is_64bit) (decode_reg rd is_64bit false); imm_op (s64 (Z.shiftl imm16 (hw * 16)))]).

Definition decode_b : E9A64Insn :=
  let is_bl := BIT enc 31 in
  let target := u64 (addr + Z.shiftl (sign_extend (BITS enc 25 0) 26) 2) in
  branch is_bl false false target (plain (if is_bl then "bl" else "b") E9_A64_CAT_BRANCH [label_op (s64 target)]).

Definition decode_cbz : E9A64Insn :=
  let is_64bit := BIT enc 31 in
  let target := u64 (addr + Z.shiftl (sign_extend (BITS enc 23 5) 19) 2) in
  branch false false true target (plain (if BIT enc 24 then "cbnz" else "cbz") E9_A64_CAT_BRANCH
    [reg_op (width is_64bit) (decode_reg (BITS enc 4 0) is_64bit false); label_op (s64 target)]).

Definition decode_b_cond : option E9A64Insn :=
  let target := u64 (addr + Z.shiftl (sign_extend (BITS enc 23 5) 19) 2) in
  cond ← at_index COND_NAMES (BITS enc 3 0);
  Some (branch false false true target
    (plain (clip 24 (String.append "b." cond)) E9_A64_CAT_BRANCH [label_op (s64 target)])).

Definition decode_tbz : E9A64Insn :=
  let is_64bit := BIT enc 31 in
  let b5 := BITS enc 31 31 in
  let b40 := BITS enc 23 19 in
  let target := u64 (addr + Z.shiftl (sign_extend (BITS enc 18 5) 14) 2) in
  branch false false true target (plain (if BIT enc 24 then "tbnz" else "tbz") E9_A64_CAT_BRANCH
    [reg_op 0 (decode_reg (BITS enc 4 0) is_64bit false); imm_op (Z.lor (Z.shiftl b5 5) b40); label_op (s64 target)]).

Definition decode_br : E9A64Insn :=
  let opc := BITS enc 24 21 in
  let rn := BITS enc 9 5 in
  let ops := if (opc =? 2) && (rn =? 30) then [] else [reg_op 8 (decode_reg rn true false)] in
  if opc =? 0 then branch false false false 0 (plain "br" E9_A64_CAT_BRANCH ops)
  else if opc =? 1 then branch true false false 0 (plain "blr" E9_A64_CAT_BRANCH ops)
  else if opc =? 2 then branch false true false 0 (plain "ret" E9_A64_CAT_BRANCH ops)
  else plain "br_reg" E9_A64_CAT_BRANCH ops.

Definition decode_ldst : E9A64Insn :=
  let size := BITS enc 31 30 in
  if (BITS enc 29 28 =? 3) && (BITS enc 25 24 =? 1) then
    let is_load := BIT enc 22 in
    access is_load (plain (if is_load then "ldr" else "str") E9_A64_CAT_LOAD_STORE
      [reg_op (Z.shiftl 1 size) (decode_reg (BITS enc 4 0) (size =? 3) false);
       mem_op (Z.shiftl 1 size) (decode_reg (BITS enc 9 5) true true) (Z.shiftl (BITS enc 21 10) size)])
  else if BITS enc 29 27 =? 5 then
    let is_load := BIT enc 22 in
    let is_64bit := BIT enc 31 in
    let scale := 2 + (if is_64bit then 1 else 0) in
    access is_load (plain (if is_load then "ldp" else "stp") E9_A64_CAT_LOAD_STORE
      [reg_op (width is_64bit) (decode_reg (BITS enc 4 0) is_64bit false);
       reg_op (width is_64bit) (decode_reg (BITS enc 14 10) is_64bit false);
       mem_op 0 (decode_reg (BITS enc 9 5) true true) (Z.shiftl (sign_extend (BITS enc 21 15) 7) scale)])
  else plain "ldst" E9_A64_CAT_LOAD_STORE [].

Definition log_ops : list string := ["and"; "orr"; "eor"; "ands"]%string.
Definition log_neg : list string := ["bic"; "orn"; "eon"; "bics"]%string.

Definition decode_data_reg : option E9A64Insn :=
  let is_64bit := BIT enc 31 in
  let opc := BITS enc 30 29 in
  let set_flags := BIT enc 29 in
  let shift := BITS enc 23 22 in
  let is_neg := BIT enc 21 in
  let rm := BITS enc 20 16 in
  let imm6 := BITS enc 15 10 in
  let rn := BITS enc 9 5 in
  let rd := BITS enc 4 0 in
  if Z.land (BITS enc 28 24) 0x1E =? 0x0A then
    mn ← at_index (if is_neg then log_neg else log_ops) opc;
    Some (if (opc =? 1) && negb is_neg && (rn =? 31) && (imm6 =? 0) && (shift =? 0) then
            plain "mov" E9_A64_CAT_MOVE
              [reg_op (width is_64bit) (decode_reg rd is_64bit false); reg_op (width is_64bit) (decode_reg rm is_64bit false)]
          else
            plain mn E9_A64_CAT_DATA_PROC
              [reg_op 0 (decode_reg rd is_64bit false); reg_op 0 (decode_reg rn is_64bit false);
               shift_op (decode_reg rm is_64bit false) shift imm6])
  else if Z.land (BITS enc 28 24) 0x1F =? 0x0B then
    let is_sub := BIT enc 30 in
    Some (if is_sub && (rd =? 31) && set_flags then
            plain "cmp" E9_A64_CAT_COMPARE
              [reg_op 0 (decode_reg rn is_64bit true); reg_op 0 (decode_reg rm is_64bit false)]
          else
            plain (clip 24 (String.append (if is_sub then "sub" else "add") (if set_flags then "s" else "")))
              E9_A64_CAT_DATA_PROC
              [reg_op 0 (decode_reg rd is_64bit (negb set_flags)); reg_op 0 (decode_reg rn is_64bit true);
               if negb (imm6 =? 0) then shift_op (decode_reg rm is_64bit false) shift imm6
               else reg_op 0 (decode_reg rm is_64bit false)])
  else Some (plain "data_reg" E9_A64_CAT_DATA_PROC []).

Definition hint_name (n : Z) : string :=
  if n =? 0 then "nop" else if n =? 1 then "yield" else if n =? 2 then "wfe" else if n =? 3 then "wfi"
  else if n =? 4 then "sev" else if n =? 5 then "sevl" else "hint".

Definition barrier_name (n : Z) : string :=
  if n =? 2 then "clrex" else if n =? 4 then "dsb" else if n =? 5 then "dmb" else if n =? 6 then "isb" else "barrier".

Definition decode_system : E9A64Insn :=
  let l := BIT enc 21 in
  let op0_sys := BITS enc 20 19 in
  let op1 := BITS enc 18 16 in
  let crn := BITS enc 15 12 in
  let crm := BITS enc 11 8 in
  let op2 := BITS enc 7 5 in
  let rt := BITS enc 4 0 in
  if (op0_sys =? 1) && negb l && (rt =? 31) then
    if (crn =? 2) && (op1 =? 3) then plain (hint_name (Z.lor (Z.shiftl crm 3) op2)) E9_A64_CAT_SYSTEM []
    else if crn =? 3 then plain (barrier_name op2) E9_A64_CAT_SYSTEM []
    else plain "sys" E9_A64_CAT_SYSTEM []
  else if 2 <=? op0_sys then
    let r := reg_op 0 (decode_reg rt true false) in
    plain (if l then "mrs" else "msr") E9_A64_CAT_SYSTEM (if l then [r; sysreg_op] else [sysreg_op; r])
  else plain "sys" E9_A64_CAT_SYSTEM [].

Definition decode_exception : E9A64Insn :=
  let n := Z.lor (Z.shiftl (BITS enc 23 21) 2) (BITS enc 1 0) in
  plain (if n =? 0x01 then "svc" else if n =? 0x02 then "hvc" else if n =? 0x03 then "smc"
         else if n =? 0x04 then "brk" else if n =? 0x08 then "hlt" else "exc")
    E9_A64_CAT_EXCEPTION [imm_op (BITS enc 20 5)].

(** The chain of tests. *)
Definition decode : option E9A64Insn :=
  let op0 := BITS enc 31 25 in
  if Z.land op0 0x71 =? 0x10 then Some decode_adr
  else if Z.land op0 0x71 =? 0x11 then Some decode_add_imm
  else if Z.land op0 0x3F =? 0x25 then decode_mov_wide
  else if Z.land op0 0x3F =? 0x24 then Some (plain "logic_imm" E9_A64_CAT_DATA_PROC [])
  else if Z.land op0 0x7C =? 0x14 then Some decode_b
  else if Z.land op0 0x7E =? 0x34 then Some decode_cbz
  else if Z.land op0 0x7E =? 0x54 then decode_b_cond
  else if Z.land op0 0x7E =? 0x36 then Some decode_tbz
  else if Z.land op0 0x7E =? 0x6A then Some decode_br
  else if Z.land op0 0x0A =? 0x08 then Some decode_ldst
  else if (Z.land op0 0x0F =? 0x0A) || (Z.land op0 0x0F =? 0x0B) then decode_data_reg
  else if Z.land enc 0xFFC00000 =? 0xD5000000 then Some decode_system
  else if Z.land enc 0xFF000000 =? 0xD4000000 then Some decode_exception
  else Some (plain (clip 24 (String.append ".inst 0x" (hex_pad 8 enc ""))) E9_A64_CAT_INVALID []).

End Decode.

(** ** Text *)

Definition signed_hex (v : Z) : string :=
  if v <? 0 then String.append "#-0x" (hex (u64 (- v))) else String.append "#0x" (hex (u64 v)).

Definition format_mem (size : Z) (m : E9A64Mem) (c : cursor) : option cursor :=
  name ← e9_a64_reg_name (mem_base m);
  c ← put size (String.append "[" name) c;
  c ← (if negb (mem_offset m =? 0) then
         if 0 <? mem_offset m then put size (String.append ", #0x" (hex (u64 (mem_offset m)))) c
         else put size (String.append ", #-0x" (hex (u64 (- mem_offset m)))) c
       else Some c);
  c ← put size "]" c;
  if mem_post_index m then put size "!" c else Some c.

Definition format_operand (size : Z) (o : E9A64Operand) (c : cursor) : option cursor :=
  match op_type o with
  | E9_A64_OP_REG => name ← e9_a64_reg_name (op_reg o); put size name c
  | E9_A64_OP_IMM => put size (signed_hex (op_imm o)) c
  | E9_A64_OP_LABEL => put size (String.append "0x" (hex (u64 (op_label o)))) c
  | E9_A64_OP_MEM => format_mem size (op_mem o) c
  | E9_A64_OP_SHIFT =>
      let '(r, s, a) := op_shifted o in
      name ← e9_a64_reg_name r;
      c ← put size name c;
      if 0 <? a then
        sh ← at_index SHIFT_NAMES s;
        put size (String.append ", " (String.append sh (String.append " #" (dec a)))) c
      else Some c
  | E9_A64_OP_COND => name ← at_index COND_NAMES (op_cond o); put size name c
  | E9_A64_OP_SYSREG => put size "<sysreg>" c
  | E9_A64_OP_NONE | E9_A64_OP_VREG | E9_A64_OP_EXTEND => Some c
  end.

(** The operand loop, from operand [k] with [n] operands left. *)
Fixpoint format_operands (size : Z) (ops : list E9A64Operand) (k n : nat) (c : cursor) : option cursor :=
  match n with
  | O => Some c
  | S n =>
      if cur_pos c <? size - 1 then
        c ← put size (if Nat.eqb k 0 then " " else ", ")%string c;
        o ← ops !! k;
        c ← format_operand size o c;
        format_operands size ops (S k) n c
      else Some c
  end.

(** The text in a buffer of [size] characters; a zero [size] writes nothing. *)
Definition e9_a64_insn_format (i : E9A64Insn) (size : Z) : option string :=
  if size =? 0 then Some EmptyString
  else
    c ← put size (mnemonic i) (Cursor 0 EmptyString);
    c ← format_operands size (operands i) 0 (Z.to_nat (num_operands i)) c;
    finish size c.

(** ** Operations *)

Definition set_text (t : string) (i : E9A64Insn) : E9A64Insn :=
  Insn (address i) (encoding i) (mnemonic i) (category i) (operands i) (num_operands i)
    (is_branch i) (is_call i) (is_ret i) (is_conditional i) (branch_target i) (reads_memory i) (writes_memory i) t.

(** The length and what the [insn] pointer holds; a NULL pointer is [None]. *)
Definition e9_a64_disasm_one (code : option bytes) (size addr : Z) (insn : option E9A64Insn) : option (Z * option E9A64Insn) :=
  match code, insn with
  | Some code, Some _ =>
      if size <? 4 then Some (0, insn)
      else
        enc ← read_insn code;
        i ← decode addr enc;
        txt ← e9_a64_insn_format i 80;
        Some (4, Some (set_text txt i))
  | _, _ => Some (0, insn)
  end.

(** The sweep from [off] on; the result is reversed. *)
Fixpoint disasm_loop (fuel : nat) (code : bytes) (size addr count off : Z) (done_ : list E9A64Insn) : option (list E9A64Insn) :=
  if (Z.of_nat (List.length done_) <? count) && (off + 4 <=? size) then
    match fuel with
    | O => None
    | S fuel =>
        '(len, i) ← e9_a64_disasm_one (Some (at_off code off)) (size - off) (u64 (addr + off)) (Some zero_insn);
        if negb (len =? 4) then Some done_
        else i ← i; disasm_loop fuel code size addr count (off + 4) (i :: done_)
    end
  else Some done_.

(** The number of instructions and the array, if one is allocated. *)
Definition e9_a64_disasm (alloc : bool) (ctx : option E9A64Disasm) (code : option bytes) (size addr count : Z) :
    option (Z * option (list E9A64Insn)) :=
  match ctx, code with
  | Some _, Some code =>
      if size <? 4 then Some (0, None)
      else if negb alloc then Some (0, None)
      else l ← disasm_loop (Z.to_nat size) code size addr count 0 []; Some (Z.of_nat (List.length l), Some (rev l))
  | _, _ => Some (0, None)
  end.

Definition e9_a64_is_prologue (code : bytes) (size : Z) : option bool :=
  if size <? 4 then Some false
  else
    insn ← read_insn code;
    Some (if Z.land insn 0xFFC07FFF =? 0xA9007BFD then true
          else if Z.land insn 0xFF0003FF =? 0xD10003FF then true
          else (insn =? 0xD503233F) || (insn =? 0xD503237F)).

Definition e9_a64_is_epilogue (code : bytes) (size : Z) : option bool :=
  if size <? 4 then Some false
  else
    insn ← read_insn code;
    Some (if Z.land insn 0xFFFFFC1F =? 0xD65F0000 then true
          else (insn =? 0xD65F0BFF) || (insn =? 0xD65F0FFF)).

(** * Properties *)

(** ** Ranges *)

Lemma BITS_range enc hi lo : 0 <= lo <= hi → 0 <= BITS enc hi lo < 2 ^ (hi - lo + 1).
Proof.
  intros H. unfold BITS. rewrite Z.shiftl_1_l. replace (2 ^ (hi - lo + 1) - 1) with (Z.ones (hi - lo + 1)) by (rewrite Z.ones_equiv; lia).
  rewrite Z.land_ones by lia. apply Z.mod_pos_bound, Z.pow_pos_nonneg; lia.
Qed.

Lemma sign_extend_range v n : 1 <= n <= 32 → 0 <= v < 2 ^ n → - 2 ^ (n - 1) <= sign_extend v n < 2 ^ (n - 1).
Proof.
  intros Hn Hv. unfold sign_extend. rewrite Z.shiftl_1_l.
  assert (Hp : 2 ^ n = 2 * 2 ^ (n - 1)) by (rewrite <- Z.pow_succ_r by lia; f_equal; lia).
  assert (Hb : 2 ^ (n - 1) <= 2 ^ 31) by (apply Z.pow_le_mono_r; lia).
  assert (Hx : 0 <= Z.lxor v (2 ^ (n - 1)) < 2 ^ n).
  { apply lxor_bound; [lia|done|]. split; [apply Z.pow_nonneg; lia|]. pose proof (Z.pow_pos_nonneg 2 (n - 1)). lia. }
  rewrite wraps_small; [lia|lia|]. change (2 ^ (64 - 1)) with (2 ^ 63). lia.
Qed.

Lemma at_index_ok {A} (l : list A) i : 0 <= i < Z.of_nat (List.length l) → ∃ x, at_index l i = Some x ∧ x ∈ l.
Proof.
  intros Hi. unfold at_index. rewrite (proj2 (Z.leb_le 0 i)) by lia.
  destruct (lookup_lt_is_Some_2 l (Z.to_nat i)) as [x Hx]; [lia|]. exists x. split; [done|]. by eapply list_elem_of_lookup_2.
Qed.

Lemma a64_name_len n l i s : Forall (λ s, slen s <= n) l → at_index l i = Some s → slen s <= n.
Proof. unfold at_index. intros Hl. destruct (0 <=? i); [|done]. intros Hs. by eapply Forall_lookup_1 in Hl. Qed.

Lemma reg_name_ok r : ∃ s, e9_a64_reg_name r = Some s ∧ slen s <= 3.
Proof.
  unfold e9_a64_reg_name, between, E9_A64_REG_X0, E9_A64_REG_SP, E9_A64_REG_W0, E9_A64_REG_WSP.
  destruct (Z.leb_spec 0 r), (Z.leb_spec r 32); cbn [andb].
  1: destruct (at_index_ok REG_NAMES_X (r - 0)) as (s & E & _); [cbn; lia|]; exists s; split; [done|];
    eapply a64_name_len; [|done]; by repeat constructor.
  all: destruct (Z.leb_spec 64 r), (Z.leb_spec r 96); cbn [andb]; try (exists "???"%string; by split).
  all: destruct (at_index_ok REG_NAMES_W (r - 64)) as (s & E & _); [cbn; lia|]; exists s; split; [done|];
    eapply a64_name_len; [|done]; by repeat constructor.
Qed.

(** ** The text, without a buffer *)

Definition reg_text (r : Z) : string := default EmptyString (e9_a64_reg_name r).

Definition render_mem (m : E9A64Mem) : string :=
  String.append (String.append "[" (reg_text (mem_base m)))
   (String.append
     (if negb (mem_offset m =? 0) then
        if 0 <? mem_offset m then String.append ", #0x" (hex (u64 (mem_offset m)))
        else String.append ", #-0x" (hex (u64 (- mem_offset m)))
      else EmptyString)
     (String.append "]" (if mem_post_index m then "!"%string else EmptyString))).

Definition render_operand (o : E9A64Operand) : string :=
  match op_type o with
  | E9_A64_OP_REG => reg_text (op_reg o)
  | E9_A64_OP_IMM => signed_hex (op_imm o)
  | E9_A64_OP_LABEL => String.append "0x" (hex (u64 (op_label o)))
  | E9_A64_OP_MEM => render_mem (op_mem o)
  | E9_A64_OP_SHIFT =>
      let '(r, s, a) := op_shifted o in
      String.append (reg_text r)
        (if 0 <? a then String.append ", " (String.append (default EmptyString (at_index SHIFT_NAMES s)) (String.append " #" (dec a)))
         else EmptyString)
  | E9_A64_OP_COND => default EmptyString (at_index COND_NAMES (op_cond o))
  | E9_A64_OP_SYSREG => "<sysreg>"%string
  | E9_A64_OP_NONE | E9_A64_OP_VREG | E9_A64_OP_EXTEND => EmptyString
  end.

Fixpoint render_operands (k : nat) (ops : list E9A64Operand) : string :=
  match ops with
  | [] => EmptyString
  | o :: ops =>
      String.append (if Nat.eqb k 0 then " " else ", ")%string (String.append (render_operand o) (render_operands (S k) ops))
  end.

Definition render (i : E9A64Insn) : string :=
  String.append (mnemonic i) (render_operands 0 (take (Z.to_nat (num_operands i)) (operands i))).

(** The tables have what the operand names. *)
Definition op_ok (o : E9A64Operand) : Prop :=
  0 <= (op_shifted o).1.2 < 4 ∧ 0 <= op_cond o < 16.

Section Format.
Context (size : Z).

Lemma a64_format_mem_prints m : prints size (format_mem size m) (render_mem m).
Proof.
  unfold format_mem, render_mem, reg_text. destruct (reg_name_ok (mem_base m)) as (s & -> & _). cbn [default mbind option_bind].
  apply prints_seq; [apply prints_put|]. apply prints_seq.
  - destruct (negb _); [destruct (0 <? _); apply prints_put|apply prints_skip].
  - apply prints_seq; [apply prints_put|]. destruct (mem_post_index m); [apply prints_put|apply prints_skip].
Qed.

Lemma a64_format_operand_prints o : op_ok o → prints size (format_operand size o) (render_operand o).
Proof.
  intros [Hs Hc]. unfold format_operand, render_operand, reg_text.
  destruct (op_type o); try apply prints_put; try apply prints_skip; try apply a64_format_mem_prints.
  - destruct (reg_name_ok (op_reg o)) as (s & -> & _). apply prints_put.
  - destruct (op_shifted o) as [[r s] a]. cbn [fst snd] in Hs. destruct (reg_name_ok r) as (t & -> & _). cbn [default mbind option_bind].
    apply prints_seq; [apply prints_put|]. destruct (0 <? a); [|apply prints_skip].
    destruct (at_index_ok SHIFT_NAMES s) as (u & -> & _); [cbn; lia|]. apply prints_put.
  - destruct (at_index_ok COND_NAMES (op_cond o)) as (u & -> & _); [cbn; lia|]. apply prints_put.
Qed.

Lemma a64_format_operands_ok ops : ∀ n k c, (k + n <= List.length ops)%nat → Forall op_ok ops →
  let s := render_operands k (take n (drop k ops)) in
  cur_pos c + slen s < size - 1 → format_operands size ops k n c = Some (cat c s).
Proof.
  induction n as [|n IH]; intros k c Hk Hops s Hc; cbn [format_operands].
  { subst s. cbn [take render_operands]. by rewrite cat_nil. }
  destruct (lookup_lt_is_Some_2 ops k) as [o Ho]; [lia|].
  subst s. rewrite (drop_S _ o k) in * by done. cbn [take render_operands] in *.
  set (sep := if Nat.eqb k 0 then _ else _) in *.
  rewrite !slen_append in Hc. pose proof (slen_nonneg (render_operand o)).
  match type of Hc with context [slen (render_operands ?k ?l)] => pose proof (slen_nonneg (render_operands k l)) end.
  assert (0 < slen sep) by (subst sep; by destruct (Nat.eqb k 0)).
  destruct (Z.ltb_spec (cur_pos c) (size - 1)); [|lia].
  rewrite put_ok by lia. cbn [mbind option_bind]. rewrite Ho. cbn [mbind option_bind].
  pose proof (Forall_lookup_1 _ _ _ _ Hops Ho) as Hop. rewrite (a64_format_operand_prints o Hop) by (cbn [cur_pos cat]; lia). cbn [mbind option_bind].
  rewrite IH by (done || (cbn [cur_pos cat]; lia) || lia). by rewrite !cat_cat, ?append_assoc.
Qed.

Lemma a64_insn_format_ok i : 0 < size → slen (render i) < size - 1 → (Z.to_nat (num_operands i) <= List.length (operands i))%nat →
  Forall op_ok (operands i) → e9_a64_insn_format i size = Some (render i).
Proof.
  intros Hs Hr Hn Hops. unfold e9_a64_insn_format, render in *. rewrite slen_append in Hr.
  match type of Hr with context [slen (render_operands ?k ?l)] => pose proof (slen_nonneg (render_operands k l)) end.
  destruct (Z.eqb_spec size 0); [lia|]. rewrite put_ok by (cbn; lia). cbn [mbind option_bind].
  rewrite a64_format_operands_ok by (done || (rewrite drop_0; cbn [cur_pos cat]; lia) || lia). rewrite drop_0. cbn [mbind option_bind].
  unfold finish. cbn [cat cur_pos cur_out]. destruct (Z.ltb_spec (0 + slen (mnemonic i) + slen (render_operands 0 (take (Z.to_nat (num_operands i)) (operands i)))) size); [done|lia].
Qed.

End Format.

(** ** Lengths of the pieces *)

(** The operand prints in at most [n] characters. *)
Definition op_fits (n : Z) (o : E9A64Operand) : Prop := op_ok o ∧ slen (render_operand o) <= n.

Lemma a64_hex_u64_len z : slen (hex (u64 z)) <= 16.
Proof. apply (slen_hex 15), wrapu_range. lia. Qed.

Lemma hex_small_len z : 0 <= z <= 2 ^ 31 → slen (hex (u64 z)) <= 8.
Proof. intros. rewrite wrapu_small by lia. apply (slen_hex 7). lia. Qed.

Lemma dec_len a : 0 <= a < 64 → slen (dec a) <= 2.
Proof.
  intros Ha. assert (H : Forall (λ n, slen (dec (Z.of_nat n)) <= 2) (seq 0 64)) by (repeat constructor; vm_compute; discriminate).
  rewrite Forall_forall in H. rewrite <- (Z2Nat.id a) by lia. apply H. rewrite elem_of_seq. lia.
Qed.

Lemma reg_text_len r : slen (reg_text r) <= 3.
Proof. unfold reg_text. destruct (reg_name_ok r) as (s & -> & H). exact H. Qed.

Ltac text_len := autorewrite with e9_text; change (slen EmptyString) with 0 in *; lia.

Lemma reg_fits n r : op_fits 3 (reg_op n r).
Proof. split; [by split|]. apply reg_text_len. Qed.

Lemma imm_fits v : op_fits 20 (imm_op v).
Proof.
  split; [by split|]. unfold imm_op, render_operand, signed_hex. cbn [op_type op_imm op_val].
  pose proof (a64_hex_u64_len v). pose proof (a64_hex_u64_len (- v)). destruct (v <? 0); text_len.
Qed.

Lemma imm_small_fits v : 0 <= v <= 2 ^ 31 → op_fits 11 (imm_op v).
Proof.
  intros Hv. split; [by split|]. unfold imm_op, render_operand, signed_hex. cbn [op_type op_imm op_val].
  pose proof (hex_small_len v Hv). destruct (Z.ltb_spec v 0); [lia|text_len].
Qed.

Lemma label_fits v : op_fits 18 (label_op v).
Proof. split; [by split|]. unfold label_op, render_operand. cbn [op_type op_label op_val]. pose proof (a64_hex_u64_len v). text_len. Qed.

Lemma a64_mem_fits n r v : - 2 ^ 31 <= v <= 2 ^ 31 → op_fits 19 (mem_op n r v).
Proof.
  intros Hv. split; [by split|]. unfold mem_op, render_operand, render_mem. cbn [op_type op_mem op_val mem_base mem_offset mem_post_index].
  pose proof (reg_text_len r). pose proof (hex_small_len v). pose proof (hex_small_len (- v)).
  destruct (Z.eqb_spec v 0); cbn [negb]; [text_len|]. destruct (Z.ltb_spec 0 v); text_len.
Qed.

Lemma shift_fits r s a : 0 <= s < 4 → 0 <= a < 64 → op_fits 12 (shift_op r s a).
Proof.
  intros Hs Ha. split; [by split|]. unfold shift_op, render_operand. cbn [op_type op_shifted op_val].
  pose proof (reg_text_len r). pose proof (dec_len a Ha). destruct (at_index_ok SHIFT_NAMES s) as (u & E & _); [cbn; lia|].
  assert (slen u <= 3) by (eapply a64_name_len; [|exact E]; by repeat constructor). rewrite E. cbn [default from_option id]. destruct (0 <? a); text_len.
Qed.

Lemma sysreg_fits : op_fits 8 sysreg_op.
Proof. split; [by split|]. vm_compute. discriminate. Qed.

(** ** The cases *)

(** What the decoder promises of an instruction. *)
Record good (addr enc : Z) (i : E9A64Insn) : Prop := {
  gd_address : address i = addr;
  gd_encoding : encoding i = enc;
  gd_operands : List.length (operands i) = 5%nat;
  gd_num : 0 <= num_operands i <= 3;
  gd_ok : Forall op_ok (operands i);
  gd_mnemonic : slen (mnemonic i) < 24;
  gd_text : slen (render i) < 79;
  gd_blank : text i = EmptyString }.

Lemma a64_render_operands_len ns ops : Forall2 op_fits ns ops → ∀ k, slen (render_operands k ops) <= foldr (λ n s, n + 2 + s) 0 ns.
Proof.
  induction 1 as [|n o ns ops [_ Ho] _ IH]; intros k; cbn [render_operands foldr]; [done|].
  rewrite !slen_append. specialize (IH (S k)). assert (slen (if Nat.eqb k 0 then " " else ", ")%string <= 2) by (destruct (Nat.eqb k 0); vm_compute; discriminate). lia.
Qed.

Lemma plain_good addr enc mn cat ns ops : Forall2 op_fits ns ops → (List.length ops <= 3)%nat → slen mn < 24 →
  slen mn + foldr (λ n s, n + 2 + s) 0 ns < 79 → good addr enc (plain addr enc mn cat ops).
Proof.
  intros Hf Hl Hm Hs. split; cbn [plain address encoding operands num_operands mnemonic]; try done.
  - rewrite length_app, length_replicate. lia.
  - lia.
  - apply Forall_app. split; [|apply Forall_replicate; by split]. clear - Hf. induction Hf as [|n o ns ops [Ho _] _ IH]; by constructor.
  - unfold render. cbn [plain operands num_operands mnemonic]. rewrite Nat2Z.id, take_app_length, slen_append.
    pose proof (a64_render_operands_len ns ops Hf 0). lia.
Qed.

Lemma branch_good addr enc c r k t i : good addr enc i → good addr enc (branch c r k t i).
Proof. intros []. by split. Qed.

Lemma access_good addr enc l i : good addr enc i → good addr enc (access l i).
Proof. intros []. by split. Qed.

(** Bounds the operands one by one. *)
Ltac operands_fit :=
  first [ apply Forall2_nil; done
        | apply Forall2_cons; split;
          [first [apply reg_fits | apply label_fits | apply sysreg_fits
                 | solve [apply imm_small_fits; first [assumption|lia]]
                 | solve [apply a64_mem_fits; first [assumption|lia]] | solve [apply shift_fits; first [assumption|lia]] | apply imm_fits]
          |operands_fit] ].

Ltac bits H hi lo := pose proof (BITS_range H hi lo ltac:(lia)).

Lemma pair_len a b n : slen a + slen b <= n → n < 23 → slen (clip 24 (String.append a b)) <= n.
Proof. intros H Hn. rewrite clip_all by (rewrite slen_append; lia). rewrite slen_append. lia. Qed.

Section Cases.
Context (addr enc : Z).

Lemma adr_good : good addr enc (decode_adr addr enc).
Proof. unfold decode_adr. eapply plain_good; [operands_fit| | |]; destruct (BIT enc 31); cbn; (lia || (vm_compute; reflexivity)). Qed.

Lemma imm12_range shift : 0 <= (if negb (shift =? 0) then Z.shiftl (BITS enc 21 10) 12 else BITS enc 21 10) <= 2 ^ 31.
Proof. pose proof (BITS_range enc 21 10 ltac:(lia)). destruct (negb _); rewrite ?Z.shiftl_mul_pow2 by lia; lia. Qed.

Lemma add_imm_good : good addr enc (decode_add_imm addr enc).
Proof.
  unfold decode_add_imm. set (shift := BITS enc 23 22). pose proof (imm12_range shift).
  destruct (BIT enc 30 && _ && BIT enc 29); (eapply plain_good; [operands_fit| | |]; [cbn; lia| |]; try done).
  all: try (eapply Z.le_lt_trans; [apply (pair_len _ _ 4)|]; destruct (BIT enc 30), (BIT enc 29); vm_compute; done).
  eapply Z.le_lt_trans; [apply Z.add_le_mono_r, (pair_len _ _ 4)|]; destruct (BIT enc 30), (BIT enc 29); vm_compute; done.
Qed.

Lemma mov_wide_good : ∃ i, decode_mov_wide addr enc = Some i ∧ good addr enc i.
Proof.
  unfold decode_mov_wide. destruct (at_index_ok mov_ops (BITS enc 30 29)) as (mn & E & _).
  { pose proof (BITS_range enc 30 29 ltac:(lia)). cbn. lia. }
  assert (slen mn <= 4) by (eapply a64_name_len; [|exact E]; by repeat constructor).
  rewrite E. cbn [mbind option_bind]. eexists. split; [reflexivity|].
  eapply plain_good; [operands_fit| | |]; cbn; lia.
Qed.

Lemma b_good : good addr enc (decode_b addr enc).
Proof. apply branch_good. eapply plain_good; [operands_fit| | |]; destruct (BIT enc 31); vm_compute; (reflexivity || lia). Qed.

Lemma cbz_good : good addr enc (decode_cbz addr enc).
Proof. apply branch_good. eapply plain_good; [operands_fit| | |]; destruct (BIT enc 24); vm_compute; (reflexivity || lia). Qed.

Lemma b_cond_good : ∃ i, decode_b_cond addr enc = Some i ∧ good addr enc i.
Proof.
  unfold decode_b_cond. destruct (at_index_ok COND_NAMES (BITS enc 3 0)) as (mn & E & _).
  { pose proof (BITS_range enc 3 0 ltac:(lia)). cbn. lia. }
  assert (slen mn <= 2) by (eapply a64_name_len; [|exact E]; by repeat constructor).
  rewrite E. cbn [mbind option_bind]. eexists. split; [reflexivity|]. apply branch_good.
  pose proof (pair_len "b." mn 4). change (slen "b.") with 2 in *.
  eapply plain_good; [operands_fit| | |]; cbn; lia.
Qed.

Lemma tbz_imm : 0 <= Z.lor (Z.shiftl (BITS enc 31 31) 5) (BITS enc 23 19) <= 2 ^ 31.
Proof.
  pose proof (BITS_range enc 31 31 ltac:(lia)). pose proof (BITS_range enc 23 19 ltac:(lia)).
  assert (0 <= Z.lor (Z.shiftl (BITS enc 31 31) 5) (BITS enc 23 19) < 2 ^ 6); [|lia].
  apply (lor_bound _ _ 6); [lia| |lia]. rewrite Z.shiftl_mul_pow2 by lia. lia.
Qed.

Lemma tbz_good : good addr enc (decode_tbz addr enc).
Proof.
  apply branch_good. pose proof tbz_imm. eapply plain_good; [operands_fit| | |]; try (destruct (BIT enc 24); vm_compute; (reflexivity || lia)).
Qed.

Lemma br_good : good addr enc (decode_br addr enc).
Proof.
  unfold decode_br. set (ops := if _ && _ then _ else _).
  assert (H : ∃ ns, Forall2 op_fits ns ops ∧ (List.length ops <= 3)%nat ∧ foldr (λ n s, n + 2 + s) 0 ns <= 5).
  { unfold ops. destruct ((BITS enc 24 21 =? 2) && (BITS enc 9 5 =? 30)).
    - exists []. split_and!; [apply Forall2_nil; done|cbn; lia|done].
    - exists [3]. split_and!; [apply Forall2_cons; split; [apply reg_fits|by apply Forall2_nil]|cbn; lia|done]. }
  destruct H as (ns & Hf & Hl & Hs).
  assert (Hg : ∀ mn, slen mn <= 10 → good addr enc (plain addr enc mn E9_A64_CAT_BRANCH ops)) by (intros mn Hmn; eapply plain_good; [done|done|lia|lia]).
  repeat destruct (_ =? _); try apply branch_good; apply Hg; vm_compute; discriminate.
Qed.

Lemma ldr_offset : 0 <= Z.shiftl (BITS enc 21 10) (BITS enc 31 30) <= 2 ^ 31.
Proof.
  pose proof (BITS_range enc 31 30 ltac:(lia)) as Hs. pose proof (BITS_range enc 21 10 ltac:(lia)) as Ho.
  rewrite Z.shiftl_mul_pow2 by lia. assert (0 < 2 ^ BITS enc 31 30 <= 2 ^ 3); [|nia].
  split; [apply Z.pow_pos_nonneg; lia|apply Z.pow_le_mono_r; lia].
Qed.

Lemma ldp_offset : - 2 ^ 31 <= Z.shiftl (sign_extend (BITS enc 21 15) 7) (2 + (if BIT enc 31 then 1 else 0)) <= 2 ^ 31.
Proof.
  pose proof (sign_extend_range (BITS enc 21 15) 7 ltac:(lia) (BITS_range enc 21 15 ltac:(lia))).
  rewrite Z.shiftl_mul_pow2 by (destruct (BIT enc 31); lia). destruct (BIT enc 31); cbn; lia.
Qed.

Lemma ldst_good : good addr enc (decode_ldst addr enc).
Proof.
  unfold decode_ldst. pose proof ldr_offset. pose proof ldp_offset.
  destruct (_ && _); [|destruct (_ =? 5); [|eapply (plain_good _ _ _ _ []); [done|cbn; lia|done|done]]].
  all: apply access_good; eapply plain_good; [operands_fit| | |]; destruct (BIT enc 22); vm_compute; (reflexivity || lia).
Qed.

Lemma data_reg_good : ∃ i, decode_data_reg addr enc = Some i ∧ good addr enc i.
Proof.
  unfold decode_data_reg. pose proof (BITS_range enc 30 29 ltac:(lia)) as Ho.
  pose proof (BITS_range enc 23 22 ltac:(lia)). pose proof (BITS_range enc 15 10 ltac:(lia)).
  destruct (_ =? 0x0A); [|destruct (_ =? 0x0B)].
  - destruct (at_index_ok (if BIT enc 21 then log_neg else log_ops) (BITS enc 30 29)) as (mn & E & _); [destruct (BIT enc 21); cbn; lia|].
    assert (slen mn <= 4) by (eapply a64_name_len; [|exact E]; destruct (BIT enc 21); by repeat constructor).
    rewrite E. cbn [mbind option_bind]. eexists. split; [reflexivity|].
    destruct (_ && _ && _ && _ && _); eapply plain_good; try operands_fit; cbn; (lia || (vm_compute; reflexivity)).
  - eexists. split; [reflexivity|]. destruct (BIT enc 30 && _ && BIT enc 29).
    { eapply plain_good; [operands_fit| | |]; vm_compute; (reflexivity || lia). }
    pose proof (pair_len (if BIT enc 30 then "sub" else "add") (if BIT enc 29 then "s" else "") 4) as Hl.
    assert (slen (if BIT enc 30 then "sub" else "add")%string + slen (if BIT enc 29 then "s" else "")%string <= 4)
      by (destruct (BIT enc 30), (BIT enc 29); vm_compute; discriminate).
    destruct (negb (_ =? 0)); eapply plain_good; try operands_fit; cbn [List.length foldr]; lia.
  - eexists. split; [reflexivity|]. eapply (plain_good _ _ _ _ []); [done|cbn; lia|done|done].
Qed.

Lemma system_good : good addr enc (decode_system addr enc).
Proof.
  unfold decode_system. assert (Hg : ∀ mn, slen mn <= 10 → good addr enc (plain addr enc mn E9_A64_CAT_SYSTEM [])).
  { intros mn Hmn. eapply (plain_good _ _ _ _ []); [done|cbn; lia|lia|cbn; lia]. }
  destruct (_ && _ && _); [|destruct (2 <=? _)].
  - destruct (_ && _); [|destruct (_ =? 3)]; apply Hg; [| |vm_compute; discriminate].
    + unfold hint_name. repeat destruct (_ =? _); vm_compute; discriminate.
    + unfold barrier_name. repeat destruct (_ =? _); vm_compute; discriminate.
  - destruct (BIT enc 21); (eapply plain_good; [operands_fit| | |]; vm_compute; (reflexivity || lia)).
  - apply Hg. vm_compute. discriminate.
Qed.

Lemma exception_good : good addr enc (decode_exception addr enc).
Proof.
  unfold decode_exception. set (mn := if _ =? 1 then _ else _).
  assert (slen mn <= 3) by (unfold mn; repeat destruct (_ =? _); vm_compute; discriminate).
  eapply plain_good; [operands_fit| | |]; cbn; lia.
Qed.

Lemma decode_good : ∃ i, decode addr enc = Some i ∧ good addr enc i.
Proof.
  assert (H : ∀ i, good addr enc i → ∃ i', Some i = Some i' ∧ good addr enc i') by (intros i Hi; by exists i).
  unfold decode. repeat (case_match; [try (apply H);
    first [apply adr_good|apply add_imm_good|apply mov_wide_good|apply b_good|apply cbz_good|apply b_cond_good|apply tbz_good
          |apply br_good|apply ldst_good|apply data_reg_good|apply system_good|apply exception_good|
           eapply (plain_good _ _ _ _ []); [done|cbn; lia|done|done]]|]).
  apply H. assert (slen (clip 24 (String.append ".inst 0x" (hex_pad 8 enc ""))) <= 17).
  { apply pair_len; [|lia]. rewrite slen_hex_pad. vm_compute. discriminate. }
  eapply (plain_good _ _ _ _ []); [done|cbn; lia|lia|cbn [foldr]; lia].
Qed.

End Cases.

(** ** One instruction and the sweep *)

Lemma read_insn_ok p : 4 <= blen p → ∃ enc, read_insn p = Some enc.
Proof.
  intros Hp. unfold read_insn.
  destruct (rd_is_Some p 0) as [b0 ->]; [lia|]. destruct (rd_is_Some p 1) as [b1 ->]; [lia|].
  destruct (rd_is_Some p 2) as [b2 ->]; [lia|]. destruct (rd_is_Some p 3) as [b3 ->]; [lia|]. by eexists.
Qed.

(** The instruction of the word at [off] of the code. *)
Record decoded_at (code : bytes) (addr off : Z) (i : E9A64Insn) : Prop := {
  da_address : address i = u64 (addr + off);
  da_encoding : read_insn (at_off code off) = Some (encoding i);
  da_decode : decode (address i) (encoding i) = Some (set_text EmptyString i);
  da_operands : List.length (operands i) = 5%nat ∧ 0 <= num_operands i <= 3;
  da_mnemonic : slen (mnemonic i) < 24;
  da_text : text i = render i;
  da_room : slen (text i) < 79 }.

Lemma disasm_one_at code size addr off insn : 0 <= off → 4 <= size → off + 4 <= blen code →
  ∃ i, e9_a64_disasm_one (Some (at_off code off)) size (u64 (addr + off)) (Some insn) = Some (4, Some i) ∧
       decoded_at code addr off i.
Proof.
  intros Ho Hs Hb. unfold e9_a64_disasm_one. destruct (Z.ltb_spec size 4); [lia|].
  destruct (read_insn_ok (at_off code off)) as [enc He]; [rewrite blen_at_off by lia; lia|]. rewrite He. cbn [mbind option_bind].
  destruct (decode_good (u64 (addr + off)) enc) as (i & Hd & [Ha Hen Hl Hn Hops Hm Ht Hb0]). rewrite Hd. cbn [mbind option_bind].
  rewrite a64_insn_format_ok by (done || lia). cbn [mbind option_bind]. eexists. split; [done|].
  split; cbn [set_text address encoding operands num_operands mnemonic text]; try done; [by rewrite Hen|].
  rewrite Ha, Hen, Hd. f_equal. destruct i. cbn in Hb0. subst. reflexivity.
Qed.

Lemma disasm_loop_exact code size addr count : size <= blen code → ∀ fuel off acc,
  0 <= off <= size → off = 4 * Z.of_nat (List.length acc) → size - off <= Z.of_nat fuel →
  Z.of_nat (List.length acc) <= Z.max 0 count →
  (∀ k i, rev acc !! k = Some i → decoded_at code addr (4 * Z.of_nat k) i) →
  ∃ l, disasm_loop fuel code size addr count off acc = Some l ∧
       Z.of_nat (List.length l) = Z.min (Z.max 0 count) (size / 4) ∧
       ∀ k i, rev l !! k = Some i → decoded_at code addr (4 * Z.of_nat k) i.
Proof.
  intros Hsz. induction fuel as [|f IH]; intros off acc Ho Hoff Hf Hc Hacc; cbn [disasm_loop].
  all: destruct (Z.ltb_spec (Z.of_nat (List.length acc)) count), (Z.leb_spec (off + 4) size); cbn [andb];
    try (exists acc; split_and!; [done|pose proof (Z.div_mod size 4 ltac:(lia)); pose proof (Z.mod_pos_bound size 4 ltac:(lia)); lia|done]).
  - lia.
  - destruct (disasm_one_at code (size - off) addr off zero_insn) as (i & E & Hi); [lia|lia|lia|]. rewrite E. cbn [mbind option_bind].
    change (negb (4 =? 4)) with false. cbn iota.
    apply IH; [lia|cbn [List.length]; lia|lia|cbn [List.length]; lia|].
    intros k j Hk. cbn [rev] in Hk. apply lookup_app_Some in Hk as [Hk|[Hk Hj]]; [by apply Hacc|].
    apply list_lookup_singleton_Some in Hj as [Hj <-]. rewrite length_rev in *. by replace (4 * Z.of_nat k) with off by lia.
Qed.

(** C25: the AArch64 sweep over any code of at least one word terminates without a read
    outside of the code or of a table and without a write past a text buffer, and it gives
    exactly one instruction for each of the first [count] words: the k-th has the address and
    the encoding of the k-th word, is what the decoder makes of them, and has the whole text
    of its mnemonic and its operands. *)
Theorem a64_sweep_exact code size addr count :
  4 <= size <= blen code → 0 <= count →
  ∃ l, e9_a64_disasm true (Some Ctx) (Some code) size addr count = Some (Z.min count (size / 4), Some l) ∧
       Z.of_nat (List.length l) = Z.min count (size / 4) ∧
       ∀ k i, l !! k = Some i → decoded_at code addr (4 * Z.of_nat k) i.
Proof.
  intros Hs Hc. unfold e9_a64_disasm. destruct (Z.ltb_spec size 4); [lia|]. cbn [negb].
  destruct (disasm_loop_exact code size addr count ltac:(lia) (Z.to_nat size) 0 []) as (l & E & Hl & Hd);
    [lia|done|lia|cbn; lia|by intros []|].
  rewrite E. cbn [mbind option_bind]. exists (rev l). rewrite Z.max_r in Hl by lia. rewrite length_rev. by rewrite <- Hl.
Qed.

(** [stp x29, x30, [sp, #-16]!; ldr x0, [x1, #8]] and a trailing byte. *)
Lemma a64_sweep_exact_witness :
  let code := [0xFD; 0x7B; 0xBF; 0xA9; 0x20; 0x04; 0x40; 0xF9; 0x00] in
  4 <= 9 <= blen code ∧ 0 <= 16 ∧
  ∃ l, e9_a64_disasm true (Some Ctx) (Some code) 9 0x1000 16 = Some (Z.min 16 (9 / 4), Some l) ∧
       Z.of_nat (List.length l) = Z.min 16 (9 / 4) ∧
       ∀ k i, l !! k = Some i → decoded_at code 0x1000 (4 * Z.of_nat k) i.
Proof.
  intros code. split; [vm_compute; split; discriminate|]. split; [lia|].
  apply a64_sweep_exact; [vm_compute; split; discriminate|lia].
Defined.

(** ** What the chain of tests makes of the words

    The field that the chain tests is bits 31 to 25 of the word, but its masks are those of
    other fields. *)

Ltac eval_tests :=
  cbv zeta;
  repeat match goal with |- context [Z.land ?a ?b =? ?c] =>
    let v := eval vm_compute in (Z.land a b =? c) in
    match v with true => idtac | false => idtac end; change (Z.land a b =? c) with v; cbn [orb]; cbv iota end.

Lemma adr_no_branch addr enc i : Some (decode_adr addr enc) = Some i → is_branch i = false.
Proof. intros <-%Some_inj. reflexivity. Qed.

Lemma add_imm_no_branch addr enc i : Some (decode_add_imm addr enc) = Some i → is_branch i = false.
Proof. intros <-%Some_inj. unfold decode_add_imm. cbv zeta. destruct (_ && _ && _); reflexivity. Qed.

Lemma data_reg_no_branch addr enc i : decode_data_reg addr enc = Some i → is_branch i = false.
Proof.
  unfold decode_data_reg. cbv zeta. destruct (_ =? 0x0A); [|destruct (_ =? 0x0B)].
  - destruct (at_index _ _); cbn [mbind option_bind]; [|discriminate]. intros <-%Some_inj. destruct (_ && _ && _ && _ && _); reflexivity.
  - intros <-%Some_inj. destruct (_ && _ && _); reflexivity.
  - intros <-%Some_inj. reflexivity.
Qed.

(** No word of B, BL, B.cond, CBZ, CBNZ, TBZ or TBNZ is taken for a branch. *)
Lemma direct_branches_missed addr enc i :
  BITS enc 31 25 ∈ [0x0A; 0x0B; 0x4A; 0x4B; 0x2A; 0x1A; 0x1B; 0x5A; 0x5B] →
  decode addr enc = Some i → is_branch i = false.
Proof.
  intros Hin. apply list_elem_of_In in Hin. cbn [In] in Hin. unfold decode.
  repeat (destruct Hin as [<-|Hin]); try done; eval_tests.
  all: first [by apply adr_no_branch|by apply add_imm_no_branch|apply data_reg_no_branch].
Qed.

(** Every word of a 64-bit load or store of a pair, and of a 64-bit logical instruction on
    registers (a MOV, say), is taken for a conditional branch. *)
Lemma pairs_taken_for_branches addr enc :
  BITS enc 31 25 ∈ [0x54; 0x55] →
  ∃ i, decode addr enc = Some i ∧ is_branch i = true ∧ is_conditional i = true ∧ category i = E9_A64_CAT_BRANCH.
Proof.
  intros Hin. destruct (at_index_ok COND_NAMES (BITS enc 3 0)) as (c & Hc & _).
  { pose proof (BITS_range enc 3 0 ltac:(lia)). cbn. lia. }
  apply list_elem_of_In in Hin. cbn [In] in Hin. unfold decode.
  destruct Hin as [<-|[<-|[]]]; eval_tests; unfold decode_b_cond; rewrite Hc; cbn [mbind option_bind]; by eexists.
Qed.

End A64.
