(* ===== verification/E9Signatures.v ===== *)
(** * E9Signatures: the signature scanner

    Models src/src/e9patch/vendor/e9signatures.c and the table of e9signatures.h: building the
    scanner, scanning, the lookups and the checks of ELF, PE and ZIP headers.  Reads outside
    of the data and writes past or through an array that was not allocated are undefined
    behaviour and give [None].  The alternative patterns of a signature, which no entry of
    the table has and no function reads, are left out. *)

From S2P Require Import Prelude.

Module Sig.

(** ** The table (e9signatures.h) *)

Definition E9_SIG_CONFIDENCE_LOW : Z := 0.
Definition E9_SIG_CONFIDENCE_MEDIUM : Z := 128.
Definition E9_SIG_CONFIDENCE_HIGH : Z := 250.

Inductive E9SigCategory :=
| E9_SIG_CAT_EXECUTABLE | E9_SIG_CAT_ARCHIVE | E9_SIG_CAT_COMPRESSED | E9_SIG_CAT_FILESYSTEM
| E9_SIG_CAT_FIRMWARE | E9_SIG_CAT_IMAGE | E9_SIG_CAT_DOCUMENT | E9_SIG_CAT_MEDIA
| E9_SIG_CAT_CRYPTO | E9_SIG_CAT_DATA | E9_SIG_CAT_OTHER.

Record E9Signature := Signature {
  name : string; description : string; sig_category : E9SigCategory; confidence : Z;
  short_sig : bool; magic_offset : Z; magic : bytes; magic_len : Z }.

Definition SIG_ELF : bytes := [0x7F] ++ bytes_of_string "ELF".
Definition SIG_MZ : bytes := bytes_of_string "MZ".
Definition SIG_MACHO_32 : bytes := [0xFE; 0xED; 0xFA; 0xCE].
Definition SIG_MACHO_64 : bytes := [0xFE; 0xED; 0xFA; 0xCF].
Definition SIG_MACHO_32_REV : bytes := [0xCE; 0xFA; 0xED; 0xFE].
Definition SIG_MACHO_64_REV : bytes := [0xCF; 0xFA; 0xED; 0xFE].
Definition SIG_MACHO_FAT : bytes := [0xCA; 0xFE; 0xBA; 0xBE].
Definition SIG_ZIP : bytes := bytes_of_string "PK" ++ [0x03; 0x04].
Definition SIG_GZIP : bytes := [0x1F; 0x8B; 0x08].
Definition SIG_BZIP2_9 : bytes := bytes_of_string "BZh91AY&SY".
Definition SIG_XZ : bytes := [0xFD; 0x37; 0x7A; 0x58; 0x5A; 0x00].
Definition SIG_LZMA : bytes := [0x5D; 0x00; 0x00].
Definition SIG_ZSTD : bytes := [0x28; 0xB5; 0x2F; 0xFD].
Definition SIG_LZ4 : bytes := [0x04; 0x22; 0x4D; 0x18].
Definition SIG_7ZIP : bytes := bytes_of_string "7z" ++ [0xBC; 0xAF; 0x27; 0x1C].
Definition SIG_RAR : bytes := bytes_of_string "Rar!" ++ [0x1A; 0x07].
Definition SIG_RAR5 : bytes := bytes_of_string "Rar!" ++ [0x1A; 0x07; 0x01; 0x00].
Definition SIG_USTAR : bytes := bytes_of_string "ustar" ++ [0x00].
Definition SIG_CPIO_NEWC : bytes := bytes_of_string "070701".
Definition SIG_CPIO_CRC : bytes := bytes_of_string "070702".
Definition SIG_SQUASHFS_LE : bytes := bytes_of_string "hsqs".
Definition SIG_SQUASHFS_BE : bytes := bytes_of_string "sqsh".
Definition SIG_CRAMFS : bytes := bytes_of_string "Compressed ROMFS".
Definition SIG_JFFS2_LE_1 : bytes := [0x85; 0x19; 0x01; 0xE0].
Definition SIG_JFFS2_BE_1 : bytes := [0x19; 0x85; 0xE0; 0x01].
Definition SIG_UBI : bytes := bytes_of_string "UBI#" ++ [0x01].
Definition SIG_UBIFS : bytes := [0x31; 0x18; 0x10; 0x06].
Definition SIG_EXT_MAGIC : bytes := [0x53; 0xEF].
Definition SIG_NTFS : bytes := [0xEB; 0x52; 0x90] ++ bytes_of_string "NTFS    ".
Definition SIG_BTRFS : bytes := bytes_of_string "_BHRfS_M".
Definition SIG_ISO9660 : bytes := [0x01] ++ bytes_of_string "CD001" ++ [0x01; 0x00].
Definition SIG_UEFI_FV : bytes := bytes_of_string "_FVH".
Definition SIG_UEFI_CAPSULE : bytes := [0xBD; 0x86; 0x66; 0x3B; 0x76; 0x0D; 0x30; 0x40; 0xB7; 0x0E; 0xB5; 0x51; 0x9E; 0x2F; 0xC5; 0xA0].
Definition SIG_ANDROID_BOOT : bytes := bytes_of_string "ANDROID!".
Definition SIG_ANDROID_SPARSE : bytes := [0x3A; 0xFF; 0x26; 0xED].
Definition SIG_PNG : bytes := [0x89] ++ bytes_of_string "PNG" ++ [0x0D; 0x0A; 0x1A; 0x0A].
Definition SIG_JPEG_JFIF : bytes := [0xFF; 0xD8; 0xFF; 0xE0; 0x00; 0x10] ++ bytes_of_string "JFIF" ++ [0x00].
Definition SIG_JPEG_EXIF : bytes := [0xFF; 0xD8; 0xFF; 0xE1].
Definition SIG_GIF87 : bytes := bytes_of_string "GIF87a".
Definition SIG_GIF89 : bytes := bytes_of_string "GIF89a".
Definition SIG_BMP : bytes := bytes_of_string "BM".
Definition SIG_PDF : bytes := bytes_of_string "%PDF-1.".
Definition SIG_OLE2 : bytes := [0xD0; 0xCF; 0x11; 0xE0; 0xA1; 0xB1; 0x1A; 0xE1].
Definition SIG_SQLITE : bytes := bytes_of_string "SQLite format 3" ++ [0x00].
Definition SIG_PGP_ARMOR : bytes := bytes_of_string "-----BEGIN PGP".
Definition SIG_SSH_PRIVKEY : bytes := bytes_of_string "-----BEGIN OPENSSH".
Definition SIG_X509_PEM : bytes := bytes_of_string "-----BEGIN CERT".
Definition SIG_UBOOT_IMAGE : bytes := [0x27; 0x05; 0x19; 0x56].
Definition SIG_DTB : bytes := [0xD0; 0x0D; 0xFE; 0xED].
Definition SIG_RIFF : bytes := bytes_of_string "RIFF".
Definition SIG_OGG : bytes := bytes_of_string "OggS".
Definition SIG_FLAC : bytes := bytes_of_string "fLaC".
Definition SIG_ID3 : bytes := bytes_of_string "ID3".
Definition SIG_EBML : bytes := [0x1A; 0x45; 0xDF; 0xA3].
Definition SIG_JAVA_CLASS : bytes := [0xCA; 0xFE; 0xBA; 0xBE].
Definition SIG_WASM : bytes := [0x00] ++ bytes_of_string "asm" ++ [0x01; 0x00; 0x00; 0x00].
Definition SIG_LLVM_BC : bytes := bytes_of_string "BC" ++ [0xC0; 0xDE].
Definition SIG_GIT_PACK : bytes := bytes_of_string "PACK".
Definition SIG_DEB : bytes := bytes_of_string "!<arch>".
Definition SIG_RPM : bytes := [0xED; 0xAB; 0xEE; 0xDB].
Definition SIG_AR : bytes := bytes_of_string "!<arch>" ++ [0x0A].
Definition SIG_APE : bytes := bytes_of_string "MZqFpD=".
Definition SIG_AES_SBOX : bytes := [0x63; 0x7C; 0x77; 0x7B; 0xF2; 0x6B; 0x6F; 0xC5; 0x30; 0x01; 0x67; 0x2B; 0xFE; 0xD7; 0xAB; 0x76].

Definition E9_SIG_ENTRY (name desc : string) (cat : E9SigCategory) (conf : Z) (magic_arr : bytes) : E9Signature :=
  Signature name desc cat conf false 0 magic_arr (blen magic_arr).
Definition E9_SIG_ENTRY_OFFSET (name desc : string) (cat : E9SigCategory) (conf : Z) (magic_arr : bytes) (offset : Z) : E9Signature :=
  Signature name desc cat conf false offset magic_arr (blen magic_arr).
Definition E9_SIG_ENTRY_SHORT (name desc : string) (cat : E9SigCategory) (conf : Z) (magic_arr : bytes) : E9Signature :=
  Signature name desc cat conf true 0 magic_arr (blen magic_arr).

(** The entries before the end marker, which [E9_NUM_SIGNATURES] leaves out. *)
Definition E9_SIGNATURE_DB : list E9Signature :=
  [ E9_SIG_ENTRY "elf" "ELF executable" E9_SIG_CAT_EXECUTABLE E9_SIG_CONFIDENCE_HIGH SIG_ELF;
    E9_SIG_ENTRY "pe" "Windows PE executable" E9_SIG_CAT_EXECUTABLE E9_SIG_CONFIDENCE_MEDIUM SIG_MZ;
    E9_SIG_ENTRY "macho32" "Mach-O 32-bit executable" E9_SIG_CAT_EXECUTABLE E9_SIG_CONFIDENCE_HIGH SIG_MACHO_32;
    E9_SIG_ENTRY "macho64" "Mach-O 64-bit executable" E9_SIG_CAT_EXECUTABLE E9_SIG_CONFIDENCE_HIGH SIG_MACHO_64;
    E9_SIG_ENTRY "macho32r" "Mach-O 32-bit (reversed)" E9_SIG_CAT_EXECUTABLE E9_SIG_CONFIDENCE_HIGH SIG_MACHO_32_REV;
    E9_SIG_ENTRY "macho64r" "Mach-O 64-bit (reversed)" E9_SIG_CAT_EXECUTABLE E9_SIG_CONFIDENCE_HIGH SIG_MACHO_64_REV;
    E9_SIG_ENTRY "machofat" "Mach-O Universal Binary" E9_SIG_CAT_EXECUTABLE E9_SIG_CONFIDENCE_HIGH SIG_MACHO_FAT;
    E9_SIG_ENTRY "ape" "Actually Portable Executable" E9_SIG_CAT_EXECUTABLE E9_SIG_CONFIDENCE_HIGH SIG_APE;
    E9_SIG_ENTRY "wasm" "WebAssembly module" E9_SIG_CAT_EXECUTABLE E9_SIG_CONFIDENCE_HIGH SIG_WASM;
    E9_SIG_ENTRY "javaclass" "Java class file" E9_SIG_CAT_EXECUTABLE E9_SIG_CONFIDENCE_HIGH SIG_JAVA_CLASS;
    E9_SIG_ENTRY "llvmbc" "LLVM bitcode" E9_SIG_CAT_EXECUTABLE E9_SIG_CONFIDENCE_HIGH SIG_LLVM_BC;
    E9_SIG_ENTRY "zip" "ZIP archive" E9_SIG_CAT_ARCHIVE E9_SIG_CONFIDENCE_HIGH SIG_ZIP;
    E9_SIG_ENTRY "7zip" "7-Zip archive" E9_SIG_CAT_ARCHIVE E9_SIG_CONFIDENCE_HIGH SIG_7ZIP;
    E9_SIG_ENTRY "rar" "RAR archive" E9_SIG_CAT_ARCHIVE E9_SIG_CONFIDENCE_HIGH SIG_RAR;
    E9_SIG_ENTRY "rar5" "RAR5 archive" E9_SIG_CAT_ARCHIVE E9_SIG_CONFIDENCE_HIGH SIG_RAR5;
    E9_SIG_ENTRY_OFFSET "ustar" "TAR archive (ustar)" E9_SIG_CAT_ARCHIVE E9_SIG_CONFIDENCE_HIGH SIG_USTAR 257;
    E9_SIG_ENTRY "cpio" "CPIO archive (newc)" E9_SIG_CAT_ARCHIVE E9_SIG_CONFIDENCE_HIGH SIG_CPIO_NEWC;
    E9_SIG_ENTRY "cpiocrc" "CPIO archive (crc)" E9_SIG_CAT_ARCHIVE E9_SIG_CONFIDENCE_HIGH SIG_CPIO_CRC;
    E9_SIG_ENTRY "ar" "ar archive" E9_SIG_CAT_ARCHIVE E9_SIG_CONFIDENCE_HIGH SIG_AR;
    E9_SIG_ENTRY "deb" "Debian package" E9_SIG_CAT_ARCHIVE E9_SIG_CONFIDENCE_HIGH SIG_DEB;
    E9_SIG_ENTRY "rpm" "RPM package" E9_SIG_CAT_ARCHIVE E9_SIG_CONFIDENCE_HIGH SIG_RPM;
    E9_SIG_ENTRY "gitpack" "Git pack file" E9_SIG_CAT_ARCHIVE E9_SIG_CONFIDENCE_HIGH SIG_GIT_PACK;
    E9_SIG_ENTRY "gzip" "gzip compressed data" E9_SIG_CAT_COMPRESSED E9_SIG_CONFIDENCE_HIGH SIG_GZIP;
    E9_SIG_ENTRY "bzip2" "bzip2 compressed data" E9_SIG_CAT_COMPRESSED E9_SIG_CONFIDENCE_HIGH SIG_BZIP2_9;
    E9_SIG_ENTRY "xz" "XZ compressed data" E9_SIG_CAT_COMPRESSED E9_SIG_CONFIDENCE_HIGH SIG_XZ;
    E9_SIG_ENTRY "lzma" "LZMA compressed data" E9_SIG_CAT_COMPRESSED E9_SIG_CONFIDENCE_LOW SIG_LZMA;
    E9_SIG_ENTRY "zstd" "Zstandard compressed data" E9_SIG_CAT_COMPRESSED E9_SIG_CONFIDENCE_HIGH SIG_ZSTD;
    E9_SIG_ENTRY "lz4" "LZ4 compressed data" E9_SIG_CAT_COMPRESSED E9_SIG_CONFIDENCE_HIGH SIG_LZ4;
    E9_SIG_ENTRY "squashfs" "SquashFS filesystem (LE)" E9_SIG_CAT_FILESYSTEM E9_SIG_CONFIDENCE_HIGH SIG_SQUASHFS_LE;
    E9_SIG_ENTRY "squashfsbe" "SquashFS filesystem (BE)" E9_SIG_CAT_FILESYSTEM E9_SIG_CONFIDENCE_HIGH SIG_SQUASHFS_BE;
    E9_SIG_ENTRY "cramfs" "CramFS filesystem" E9_SIG_CAT_FILESYSTEM E9_SIG_CONFIDENCE_HIGH SIG_CRAMFS;
    E9_SIG_ENTRY "jffs2le" "JFFS2 filesystem (LE)" E9_SIG_CAT_FILESYSTEM E9_SIG_CONFIDENCE_HIGH SIG_JFFS2_LE_1;
    E9_SIG_ENTRY "jffs2be" "JFFS2 filesystem (BE)" E9_SIG_CAT_FILESYSTEM E9_SIG_CONFIDENCE_HIGH SIG_JFFS2_BE_1;
    E9_SIG_ENTRY "ubi" "UBI image" E9_SIG_CAT_FILESYSTEM E9_SIG_CONFIDENCE_HIGH SIG_UBI;
    E9_SIG_ENTRY "ubifs" "UBIFS filesystem" E9_SIG_CAT_FILESYSTEM E9_SIG_CONFIDENCE_HIGH SIG_UBIFS;
    E9_SIG_ENTRY_OFFSET "ext" "ext2/3/4 filesystem" E9_SIG_CAT_FILESYSTEM E9_SIG_CONFIDENCE_HIGH SIG_EXT_MAGIC 0x438;
    E9_SIG_ENTRY "ntfs" "NTFS filesystem" E9_SIG_CAT_FILESYSTEM E9_SIG_CONFIDENCE_HIGH SIG_NTFS;
    E9_SIG_ENTRY "btrfs" "BTRFS filesystem" E9_SIG_CAT_FILESYSTEM E9_SIG_CONFIDENCE_HIGH SIG_BTRFS;
    E9_SIG_ENTRY "iso9660" "ISO 9660 CD-ROM" E9_SIG_CAT_FILESYSTEM E9_SIG_CONFIDENCE_HIGH SIG_ISO9660;
    E9_SIG_ENTRY "uefifv" "UEFI Firmware Volume" E9_SIG_CAT_FIRMWARE E9_SIG_CONFIDENCE_HIGH SIG_UEFI_FV;
    E9_SIG_ENTRY "ueficap" "UEFI Capsule" E9_SIG_CAT_FIRMWARE E9_SIG_CONFIDENCE_HIGH SIG_UEFI_CAPSULE;
    E9_SIG_ENTRY "uboot" "U-Boot image" E9_SIG_CAT_FIRMWARE E9_SIG_CONFIDENCE_HIGH SIG_UBOOT_IMAGE;
    E9_SIG_ENTRY "dtb" "Device Tree Blob" E9_SIG_CAT_FIRMWARE E9_SIG_CONFIDENCE_HIGH SIG_DTB;
    E9_SIG_ENTRY "androidboot" "Android boot image" E9_SIG_CAT_FIRMWARE E9_SIG_CONFIDENCE_HIGH SIG_ANDROID_BOOT;
    E9_SIG_ENTRY "androidsparse" "Android sparse image" E9_SIG_CAT_FIRMWARE E9_SIG_CONFIDENCE_HIGH SIG_ANDROID_SPARSE;
    E9_SIG_ENTRY "png" "PNG image" E9_SIG_CAT_IMAGE E9_SIG_CONFIDENCE_HIGH SIG_PNG;
    E9_SIG_ENTRY "jpeg" "JPEG image (JFIF)" E9_SIG_CAT_IMAGE E9_SIG_CONFIDENCE_HIGH SIG_JPEG_JFIF;
    E9_SIG_ENTRY "jpegexif" "JPEG image (EXIF)" E9_SIG_CAT_IMAGE E9_SIG_CONFIDENCE_MEDIUM SIG_JPEG_EXIF;
    E9_SIG_ENTRY "gif87" "GIF image (87a)" E9_SIG_CAT_IMAGE E9_SIG_CONFIDENCE_HIGH SIG_GIF87;
    E9_SIG_ENTRY "gif89" "GIF image (89a)" E9_SIG_CAT_IMAGE E9_SIG_CONFIDENCE_HIGH SIG_GIF89;
    E9_SIG_ENTRY_SHORT "bmp" "BMP image" E9_SIG_CAT_IMAGE E9_SIG_CONFIDENCE_MEDIUM SIG_BMP;
    E9_SIG_ENTRY "pdf" "PDF document" E9_SIG_CAT_DOCUMENT E9_SIG_CONFIDENCE_HIGH SIG_PDF;
    E9_SIG_ENTRY "ole2" "OLE2 Compound Document" E9_SIG_CAT_DOCUMENT E9_SIG_CONFIDENCE_HIGH SIG_OLE2;
    E9_SIG_ENTRY "sqlite" "SQLite database" E9_SIG_CAT_DATA E9_SIG_CONFIDENCE_HIGH SIG_SQLITE;
    E9_SIG_ENTRY "riff" "RIFF container (WAV/AVI)" E9_SIG_CAT_MEDIA E9_SIG_CONFIDENCE_MEDIUM SIG_RIFF;
    E9_SIG_ENTRY "ogg" "Ogg container" E9_SIG_CAT_MEDIA E9_SIG_CONFIDENCE_HIGH SIG_OGG;
    E9_SIG_ENTRY "flac" "FLAC audio" E9_SIG_CAT_MEDIA E9_SIG_CONFIDENCE_HIGH SIG_FLAC;
    E9_SIG_ENTRY "id3" "MP3 with ID3 tag" E9_SIG_CAT_MEDIA E9_SIG_CONFIDENCE_MEDIUM SIG_ID3;
    E9_SIG_ENTRY "ebml" "EBML container (WebM/MKV)" E9_SIG_CAT_MEDIA E9_SIG_CONFIDENCE_HIGH SIG_EBML;
    E9_SIG_ENTRY "pgparmor" "PGP armored data" E9_SIG_CAT_CRYPTO E9_SIG_CONFIDENCE_HIGH SIG_PGP_ARMOR;
    E9_SIG_ENTRY "sshkey" "OpenSSH private key" E9_SIG_CAT_CRYPTO E9_SIG_CONFIDENCE_HIGH SIG_SSH_PRIVKEY;
    E9_SIG_ENTRY "x509pem" "X.509 certificate (PEM)" E9_SIG_CAT_CRYPTO E9_SIG_CONFIDENCE_HIGH SIG_X509_PEM;
    E9_SIG_ENTRY "aessbox" "AES S-Box (potential crypto)" E9_SIG_CAT_CRYPTO E9_SIG_CONFIDENCE_LOW SIG_AES_SBOX ].

Record E9SigMatch := Match { m_sig : E9Signature; m_offset : Z; m_size : Z; m_confidence : Z; m_description : string }.

(** ** The scanner *)

(** An array that [calloc] gave: the number of its elements, and those written so far. *)
Record arr (A : Type) := Arr { arr_cap : Z; arr_items : list A }.
Arguments Arr {A} _ _.
Arguments arr_cap {A} _.
Arguments arr_items {A} _.

(** [a[n++] = x], where [n] is the number of elements written. *)
Definition arr_push {A} (x : A) (a : option (arr A)) : option (arr A) :=
  a ← a;
  if Z.of_nat (List.length (arr_items a)) <? arr_cap a then Some (Arr (arr_cap a) (arr_items a ++ [x])) else None.

(** The elements up to [n]; none are read from a NULL array, whose [n] is 0. *)
Definition items {A} (a : option (arr A)) : list A := match a with Some a => arr_items a | None => [] end.

Record E9SigScanner := Scanner {
  first_byte : list (option (arr E9Signature)); short_sigs : option (arr E9Signature);
  offset_sigs : option (arr (E9Signature * Z)) }.

Definition skipped (sig : E9Signature) : bool := magic_len sig =? 0.

(** The first pass: the signatures per first byte, the short ones, those at an offset. *)
Fixpoint count_sigs (sigs : list E9Signature) (counts : list Z) (num_short num_offset : Z) : option (list Z * Z * Z) :=
  match sigs with
  | [] => Some (counts, num_short, num_offset)
  | sig :: sigs =>
      if skipped sig then count_sigs sigs counts num_short num_offset
      else if 0 <? magic_offset sig then count_sigs sigs counts num_short (num_offset + 1)
      else if short_sig sig then count_sigs sigs counts (num_short + 1) num_offset
      else
        b ← rd (magic sig) 0;
        n ← counts !! Z.to_nat b;
        count_sigs sigs (<[Z.to_nat b := n + 1]> counts) num_short num_offset
  end.

(** Whether the k-th call of an allocator succeeds, from [k] on. *)
Definition calloc {A} (alloc : nat → bool) (k : nat) (n : Z) : option (arr A) := if alloc k then Some (Arr n []) else None.

Fixpoint alloc_buckets (alloc : nat → bool) (k : nat) (counts : list Z) : list (option (arr E9Signature)) * nat :=
  match counts with
  | [] => ([], k)
  | n :: counts =>
      let '(b, k) := if 0 <? n then (calloc alloc k (n + 1), S k) else (None, k) in
      let '(bs, k) := alloc_buckets alloc k counts in (b :: bs, k)
  end.

(** The second pass: no array is tested for NULL. *)
Fixpoint populate (sigs : list E9Signature) (s : E9SigScanner) : option E9SigScanner :=
  match sigs with
  | [] => Some s
  | sig :: sigs =>
      if skipped sig then populate sigs s
      else if 0 <? magic_offset sig then
        a ← arr_push (sig, magic_offset sig) (offset_sigs s);
        populate sigs (Scanner (first_byte s) (short_sigs s) (Some a))
      else if short_sig sig then
        a ← arr_push sig (short_sigs s);
        populate sigs (Scanner (first_byte s) (Some a) (offset_sigs s))
      else
        first ← rd (magic sig) 0;
        b ← first_byte s !! Z.to_nat first;
        a ← arr_push sig b;
        populate sigs (Scanner (<[Z.to_nat first := Some a]> (first_byte s)) (short_sigs s) (offset_sigs s))
  end.

Definition e9_sig_scanner_create (alloc : nat → bool) : option (option E9SigScanner) :=
  if negb (alloc 0%nat) then Some None
  else
    '(counts, num_short, num_offset) ← count_sigs E9_SIGNATURE_DB (replicate 256 0) 0 0;
    let '(buckets, k) := alloc_buckets alloc 1 counts in
    let '(shorts, k) := if 0 <? num_short then (calloc alloc k (num_short + 1), S k) else (None, k) in
    let offsets := if 0 <? num_offset then calloc alloc k num_offset else None in
    s ← populate E9_SIGNATURE_DB (Scanner buckets shorts offsets);
    Some (Some s).

(** ** Scanning *)

Definition check_sig_at (data : bytes) (size pos : Z) (sig : E9Signature) : option bool :=
  if size <? u64 (pos + magic_len sig) then Some false
  else
    a ← rdn data pos (magic_len sig);
    b ← rdn (magic sig) 0 (magic_len sig);
    Some (bool_decide (a = b)).

Definition estimate_size (data : bytes) (size offset : Z) (sig : E9Signature) : Z := 0.

(** The array of matches: the variable [capacity], the elements that it really has, the calls
    of [realloc] so far, and the matches, the last one first. *)
Record results := Results { capacity : Z; room : Z; reallocs : nat; found : list E9SigMatch }.

Definition num_matches (r : results) : Z := Z.of_nat (List.length (found r)).

(** Writes a match behind the others. *)
Definition store (m : E9SigMatch) (r : results) : option results :=
  if num_matches r <? room r then Some (Results (capacity r) (room r) (reallocs r) (m :: found r)) else None.

(** Grows the array if it is full and stores the match; [false] if it cannot grow.  The
    capacity is doubled before the outcome is known. *)
Definition add_match (re : nat → bool) (m : E9SigMatch) (r : results) : option (bool * results) :=
  if capacity r <=? num_matches r then
    let cap := capacity r * 2 in
    if re (reallocs r) then r ← store m (Results cap cap (S (reallocs r)) (found r)); Some (true, r)
    else Some (false, Results cap (room r) (S (reallocs r)) (found r))
  else r ← store m r; Some (true, r).

Section Scan.
Context (re : nat → bool) (data : bytes) (size : Z).

(** A match that is reported at the start of the file, and one at [pos]. *)
Definition match_start (sig : E9Signature) : E9SigMatch :=
  Match sig 0 (estimate_size data size 0 sig) (confidence sig) (clip 256 (description sig)).
Definition match_at (pos : Z) (sig : E9Signature) : E9SigMatch :=
  Match sig pos (estimate_size data size pos sig) (confidence sig)
    (clip 256 (String.append (description sig) (String.append " at offset 0x" (hex pos)))).

Fixpoint scan_short (sigs : list E9Signature) (r : results) : option results :=
  match sigs with
  | [] => Some r
  | sig :: sigs =>
      hit ← check_sig_at data size 0 sig;
      if (hit : bool) then
        '(go, r) ← add_match re (match_start sig) r;
        if (go : bool) then scan_short sigs r else Some r
      else scan_short sigs r
  end.

Fixpoint scan_offset (sigs : list (E9Signature * Z)) (r : results) : option results :=
  match sigs with
  | [] => Some r
  | (sig, offset) :: sigs =>
      hit ← (if offset <? size then check_sig_at data size offset sig else Some false);
      if (hit : bool) then
        '(go, r) ← add_match re (match_start sig) r;
        if (go : bool) then scan_offset sigs r else Some r
      else scan_offset sigs r
  end.

(** The signatures of one bucket; [false] is the jump to [done]. *)
Fixpoint scan_bucket (pos : Z) (sigs : list E9Signature) (r : results) : option (bool * results) :=
  match sigs with
  | [] => Some (true, r)
  | sig :: sigs =>
      hit ← check_sig_at data size pos sig;
      if (hit : bool) then
        '(go, r) ← add_match re (match_at pos sig) r;
        if (go : bool) then scan_bucket pos sigs r else Some (false, r)
      else scan_bucket pos sigs r
  end.

(** The positions from [pos] on; [n] are left. *)
Fixpoint scan_from (n : nat) (buckets : list (option (arr E9Signature))) (pos : Z) (r : results) : option results :=
  match n with
  | O => Some r
  | S n =>
      byte ← rd data pos;
      b ← buckets !! Z.to_nat byte;
      '(go, r) ← scan_bucket pos (items b) r;
      if (go : bool) then scan_from n buckets (pos + 1) r else Some r
  end.

End Scan.

(** The array of matches, or NULL, and the count.  [alloc] is the call of [calloc], [re] are
    those of [realloc]. *)
Definition e9_sig_scan (alloc : bool) (re : nat → bool) (scanner : option E9SigScanner) (data : option bytes) (size : Z) :
    option (option (list E9SigMatch) * Z) :=
  match scanner, data with
  | Some s, Some data =>
      if size =? 0 then Some (None, 0)
      else if negb alloc then Some (None, 0)
      else
        r ← scan_short re data size (items (short_sigs s)) (Results 64 64 0 []);
        r ← scan_offset re data size (items (offset_sigs s)) r;
        r ← scan_from re data size (Z.to_nat size) (first_byte s) 0 r;
        Some (Some (rev (found r)), u32 (num_matches r))
  | _, _ => Some (None, 0)
  end.

(** ** Lookups *)

Definition e9_sig_lookup (n : option string) : option E9Signature :=
  n ← n; List.find (λ sig, String.eqb (name sig) n) E9_SIGNATURE_DB.

Definition e9_sig_check (data : bytes) (size : Z) (sig_name : option string) : option bool :=
  match e9_sig_lookup sig_name with
  | None => Some false
  | Some sig => if 0 <? magic_offset sig then check_sig_at data size (magic_offset sig) sig else check_sig_at data size 0 sig
  end.

(** The signature and what the index points to afterwards. *)
Definition e9_sig_iter (index : option Z) : option E9Signature * option Z :=
  match index with
  | None => (None, None)
  | Some i => if Z.of_nat (List.length E9_SIGNATURE_DB) <=? i then (None, Some i) else (E9_SIGNATURE_DB !! Z.to_nat i, Some (i + 1))
  end.

(** ** Checks of headers *)

Definition e9_sig_validate_elf (data : bytes) (size : Z) : option bool :=
  if size <? 52 then Some false
  else
    m ← memeq data 0 ([0x7F] ++ bytes_of_string "ELF");
    if negb m then Some false
    else
      ei_class ← rd data 4; ei_data ← rd data 5; ei_version ← rd data 6;
      Some (if negb (ei_class =? 1) && negb (ei_class =? 2) then false
            else if negb (ei_data =? 1) && negb (ei_data =? 2) then false
            else ei_version =? 1).

(** [e_lfanew], read byte by byte. *)
Definition pe_header_offset (data : bytes) : option Z :=
  b0 ← rd data 60; b1 ← rd data 61; b2 ← rd data 62; b3 ← rd data 63;
  Some (u32 (Z.lor (Z.lor (Z.lor b0 (Z.shiftl b1 8)) (Z.shiftl b2 16)) (Z.shiftl b3 24))).

Definition e9_sig_validate_pe (data : bytes) (size : Z) : option bool :=
  if size <? 64 then Some false
  else
    m ← rd data 0; z ← rd data 1;
    if negb (m =? 0x4D) || negb (z =? 0x5A) then Some false
    else
      pe_offset ← pe_header_offset data;
      if size <? u32 (pe_offset + 4) then Some false
      else memeq data pe_offset (bytes_of_string "PE" ++ [0; 0]).

Definition e9_sig_validate_zip (data : bytes) (size : Z) : option bool :=
  if size <? 30 then Some false
  else
    m ← memeq data 0 (bytes_of_string "PK" ++ [3; 4]);
    if negb m then Some false
    else
      b4 ← rd data 4; b5 ← rd data 5; b6 ← rd data 6; b7 ← rd data 7; b8 ← rd data 8; b9 ← rd data 9;
      let compression := Z.lor b8 (Z.shiftl b9 8) in
      Some (negb (99 <? compression)).

Definition elf_type (e_type : Z) : string :=
  if e_type =? 1 then "relocatable" else if e_type =? 2 then "executable" else if e_type =? 3 then "shared object"
  else if e_type =? 4 then "core dump" else "unknown type".

Definition pe_arch (machine : Z) : string :=
  if machine =? 0x8664 then "x86-64" else if machine =? 0x014c then "i386" else if machine =? 0xaa64 then "ARM64"
  else if machine =? 0x01c4 then "ARM" else "unknown arch".

(** [e9_sig_describe]: the text in a buffer of [desc_size] characters, or nothing if a pointer
    is NULL or the buffer is empty. *)
Definition e9_sig_describe (data : option bytes) (size : Z) (sig : option E9Signature) (desc_size : Z) : option (option string) :=
  match data, sig with
  | Some data, Some sig =>
      if desc_size =? 0 then Some None
      else
        elf ← (if String.eqb (name sig) "elf" then e9_sig_validate_elf data size else Some false);
        if (elf : bool) then
          ei_class ← rd data 4; ei_data ← rd data 5; b16 ← rd data 16; b17 ← rd data 17;
          let class_str := if ei_class =? 2 then "64-bit"%string else "32-bit"%string in
          let endian_str := if ei_data =? 1 then "little-endian"%string else "big-endian"%string in
          let e_type := if ei_data =? 1 then Z.lor b16 (Z.shiftl b17 8) else Z.lor (Z.shiftl b16 8) b17 in
          Some (Some (clip desc_size (String.append "ELF " (String.append class_str (String.append " "
            (String.append endian_str (String.append " " (elf_type e_type))))))))
        else
          pe ← (if String.eqb (name sig) "pe" then e9_sig_validate_pe data size else Some false);
          if (pe : bool) then
            pe_offset ← pe_header_offset data;
            if u32 (pe_offset + 6) <=? size then
              m0 ← rd data (u32 (pe_offset + 4)); m1 ← rd data (u32 (pe_offset + 5));
              Some (Some (clip desc_size (String.append "PE " (String.append (pe_arch (Z.lor m0 (Z.shiftl m1 8))) " executable"))))
            else Some (Some (clip desc_size "PE executable"))
          else Some (Some (clip desc_size (description sig)))
  | _, _ => Some None
  end.

(** * Properties *)

(** ** The scanner that is built *)

(** The magic bytes of [sig] are at [pos]. *)
Definition sig_at (data : bytes) (size pos : Z) (sig : E9Signature) : bool :=
  (pos + blen (magic sig) <=? size) && bool_decide (rdn data pos (blen (magic sig)) = Some (magic sig)).

Definition at_offset (sig : E9Signature) : bool := 0 <? magic_offset sig.
Definition at_start (sig : E9Signature) : bool := negb (at_offset sig) && short_sig sig.
Definition anywhere (sig : E9Signature) : bool := negb (at_offset sig) && negb (short_sig sig).
Definition begins (b : Z) (sig : E9Signature) : bool := bool_decide (rd (magic sig) 0 = Some b).

Record sig_ok (sig : E9Signature) : Prop := {
  so_len : magic_len sig = blen (magic sig);
  so_magic : 0 < magic_len sig <= 32;
  so_offset : 0 <= magic_offset sig < 2 ^ 16 }.

Lemma db_ok : Forall sig_ok E9_SIGNATURE_DB.
Proof. repeat constructor; vm_compute; (reflexivity || discriminate). Qed.

Lemma alloc_buckets_ext alloc alloc' cs : (∀ k, alloc k = alloc' k) → ∀ k, alloc_buckets alloc k cs = alloc_buckets alloc' k cs.
Proof.
  intros He. induction cs as [|n cs IH]; intros k; cbn [alloc_buckets]; [done|]. unfold calloc. rewrite He.
  destruct (0 <? n); by rewrite IH.
Qed.

Lemma create_ext alloc alloc' : (∀ k, alloc k = alloc' k) → e9_sig_scanner_create alloc = e9_sig_scanner_create alloc'.
Proof.
  intros He. unfold e9_sig_scanner_create. rewrite He. destruct (negb _); [done|].
  destruct (count_sigs _ _ _ _) as [[[cs s] o]|]; cbn [mbind option_bind]; [|done].
  rewrite (alloc_buckets_ext alloc alloc' cs He). destruct (alloc_buckets alloc' 1 cs) as [bs k].
  unfold calloc. rewrite !He. destruct (0 <? s), (0 <? o); rewrite ?He; done.
Qed.

(** The scanner holds every signature, in the order of the table, where the scan looks for it. *)
Record built (s : E9SigScanner) : Prop := {
  bt_short : items (short_sigs s) = List.filter at_start E9_SIGNATURE_DB;
  bt_offset : items (offset_sigs s) = map (λ sig, (sig, magic_offset sig)) (List.filter at_offset E9_SIGNATURE_DB);
  bt_bytes : map items (first_byte s)
             = map (λ b, List.filter (λ sig, anywhere sig && begins (Z.of_nat b) sig) E9_SIGNATURE_DB) (seq 0 256) }.

Lemma create_built alloc : (∀ k, alloc k = true) → ∃ s, e9_sig_scanner_create alloc = Some (Some s) ∧ built s.
Proof.
  intros Ha. rewrite (create_ext alloc (λ _, true) Ha). eexists. split; [vm_compute; reflexivity|].
  split; vm_compute; reflexivity.
Qed.

(** No array is tested after [calloc]. *)
Lemma create_unchecked : e9_sig_scanner_create (λ k, Nat.eqb k 0) = None.
Proof. vm_compute. reflexivity. Qed.

(** ** The matches *)

#[local] Opaque E9_SIGNATURE_DB.

Lemma filter_and {A} (p q : A → bool) l : List.filter p (List.filter q l) = List.filter (λ x, q x && p x) l.
Proof. induction l as [|x l IH]; cbn; [done|]. destruct (q x); cbn; [destruct (p x); by rewrite IH|done]. Qed.

Lemma filter_same {A} (p q : A → bool) l : Forall (λ x, p x = q x) l → List.filter p l = List.filter q l.
Proof. induction 1 as [|x l E _ IH]; cbn; [done|]. by rewrite E, IH. Qed.

Lemma Forall_filter_l {A} (P : A → Prop) (p : A → bool) l : Forall P l → Forall P (List.filter p l).
Proof. induction 1 as [|x l Hx _ IH]; cbn; [constructor|]. destruct (p x); [by constructor|done]. Qed.

Section ScanProofs.
Context (re : nat → bool) (data : bytes) (size : Z) (Hsize : 0 < size <= blen data) (Hmax : size < 2 ^ 63).

Lemma check_sig_at_spec pos sig : sig_ok sig → 0 <= pos < 2 ^ 63 → check_sig_at data size pos sig = Some (sig_at data size pos sig).
Proof.
  intros [Hl Hm _] Hp. unfold check_sig_at, sig_at. rewrite Hl in *. rewrite wrapu_small by lia.
  destruct (Z.ltb_spec size (pos + blen (magic sig))) as [|Hle]; destruct (Z.leb_spec (pos + blen (magic sig)) size); try lia; [done|].
  destruct (rdn_is_Some data pos (blen (magic sig))) as [x Hx]; [lia|lia|lia|]. rewrite Hx. cbn [mbind option_bind andb].
  destruct (rdn_is_Some (magic sig) 0 (blen (magic sig))) as [y Hy]; [lia|lia|lia|]. rewrite Hy. cbn [mbind option_bind].
  apply rdn_Some in Hy as (_ & _ & _ & Hy). unfold blen in Hy. rewrite Nat2Z.id, drop_0, firstn_all in Hy. subst y.
  f_equal. apply bool_decide_ext. split; [by intros ->|by intros [= ->]].
Qed.

(** The array has the elements that the variable says, and room for the matches. *)
Record healthy (r : results) : Prop := { he_room : capacity r = room r; he_pos : 0 < capacity r; he_len : num_matches r <= capacity r }.

Lemma add_match_fits m r : healthy r → num_matches r < capacity r →
  add_match re m r = Some (true, Results (capacity r) (room r) (reallocs r) (m :: found r)).
Proof.
  intros [Hr _ _] Hn. unfold add_match, store. destruct (Z.leb_spec (capacity r) (num_matches r)); [lia|].
  destruct (Z.ltb_spec (num_matches r) (room r)); [done|lia].
Qed.

(** If the array cannot grow, nothing is written. *)
Lemma add_match_spec m r : healthy r →
  (∃ r', add_match re m r = Some (true, r') ∧ healthy r' ∧ found r' = m :: found r) ∨
  (∃ r', add_match re m r = Some (false, r') ∧ found r' = found r ∧ re (reallocs r) = false).
Proof.
  intros Hr. destruct (Z.lt_ge_cases (num_matches r) (capacity r)) as [Hn|Hn].
  - left. rewrite add_match_fits by done. eexists. split; [done|]. split; [|done]. destruct Hr as [E Hp Hl].
    split; cbn; [done|done|]. unfold num_matches in *. cbn [found List.length]. lia.
  - destruct Hr as [E Hp Hl]. unfold add_match. rewrite (proj2 (Z.leb_le _ _)) by lia.
    destruct (re (reallocs r)) eqn:Ek; [left|right; by eexists].
    unfold store, num_matches in *. cbn [found room]. destruct (Z.ltb_spec (Z.of_nat (List.length (found r))) (capacity r * 2)); [|lia].
    cbn [mbind option_bind]. eexists. split; [done|]. split; [|done]. split; cbn; [done|lia|]. unfold num_matches. cbn [found List.length]. lia.
Qed.

Lemma scan_short_ok sigs : Forall sig_ok sigs → ∀ r, healthy r → num_matches r + Z.of_nat (List.length sigs) <= capacity r →
  scan_short re data size sigs r
  = Some (Results (capacity r) (room r) (reallocs r) (rev (map (match_start data size) (List.filter (sig_at data size 0) sigs)) ++ found r)).
Proof.
  induction 1 as [|sig sigs Hs _ IH]; intros r Hr Hn; cbn [scan_short List.filter map rev app]; [by destruct r|].
  cbn [List.length] in Hn. rewrite check_sig_at_spec by (done || lia). cbn [mbind option_bind].
  destruct (sig_at data size 0 sig); [|apply IH; [done|lia]].
  rewrite add_match_fits by (done || lia). cbn [mbind option_bind]. destruct Hr as [E Hp Hl]. rewrite IH.
  - cbn [capacity room reallocs found map rev]. by rewrite <- app_assoc.
  - split; cbn; [done|done|]. unfold num_matches in *. cbn [found List.length]. lia.
  - unfold num_matches in *. cbn [found List.length capacity]. lia.
Qed.

Lemma scan_offset_ok sigs : Forall sig_ok sigs → ∀ r, healthy r → num_matches r + Z.of_nat (List.length sigs) <= capacity r →
  scan_offset re data size (map (λ sig, (sig, magic_offset sig)) sigs) r
  = Some (Results (capacity r) (room r) (reallocs r)
      (rev (map (match_start data size) (List.filter (λ sig, sig_at data size (magic_offset sig) sig) sigs)) ++ found r)).
Proof.
  induction 1 as [|sig sigs Hs _ IH]; intros r Hr Hn; cbn [scan_offset List.filter map rev app]; [by destruct r|].
  cbn [List.length] in Hn.
  assert (Hc : (if magic_offset sig <? size then check_sig_at data size (magic_offset sig) sig else Some false)
               = Some (sig_at data size (magic_offset sig) sig)).
  { destruct Hs as [Hl Hm Ho]. destruct (Z.ltb_spec (magic_offset sig) size); [apply check_sig_at_spec; [done|lia]|].
    unfold sig_at. destruct (Z.leb_spec (magic_offset sig + blen (magic sig)) size); [lia|done]. }
  rewrite Hc. cbn [mbind option_bind]. destruct (sig_at data size (magic_offset sig) sig); [|apply IH; [done|lia]].
  rewrite add_match_fits by (done || lia). cbn [mbind option_bind]. destruct Hr as [E Hp Hl]. rewrite IH.
  - cbn [capacity room reallocs found map rev]. by rewrite <- app_assoc.
  - split; cbn; [done|done|]. unfold num_matches in *. cbn [found List.length]. lia.
  - unfold num_matches in *. cbn [found List.length capacity]. lia.
Qed.

(** The outcome of a loop that finds [ms]: all of them, or the first of them before the array
    could not grow. *)
Definition outcome (ms : list E9SigMatch) (r : results) (go : bool) (r' : results) : Prop :=
  if go then healthy r' ∧ found r' = rev ms ++ found r
  else (∃ k, re k = false) ∧ ∃ n, found r' = rev (take n ms) ++ found r.

Lemma outcome_cons m ms r r1 go r' : found r1 = m :: found r → outcome ms r1 go r' → outcome (m :: ms) r go r'.
Proof.
  intros E. unfold outcome. destruct go.
  - intros [Hr ->]. split; [done|]. rewrite E. cbn [rev]. by rewrite <- app_assoc.
  - intros [Hk [n ->]]. split; [done|]. exists (S n). rewrite E. cbn [take rev]. by rewrite <- app_assoc.
Qed.

Lemma outcome_app ms ms' r r1 go r' : outcome ms r true r1 → outcome ms' r1 go r' → outcome (ms ++ ms') r go r'.
Proof.
  unfold outcome. intros [_ E1]. destruct go.
  - intros [Hr ->]. split; [done|]. by rewrite E1, rev_app_distr, app_assoc.
  - intros [Hk [n ->]]. split; [done|]. exists (List.length ms + n)%nat. by rewrite E1, firstn_app_2, rev_app_distr, app_assoc.
Qed.

Lemma outcome_stop ms ms' r r' : outcome ms r false r' → outcome (ms ++ ms') r false r'.
Proof.
  unfold outcome. intros [Hk [n ->]]. split; [done|]. exists (Nat.min n (List.length ms)). rewrite firstn_app.
  replace (Nat.min n (List.length ms) - List.length ms)%nat with 0%nat by lia. cbn [take]. by rewrite app_nil_r, <- firstn_firstn, firstn_all.
Qed.

Lemma scan_bucket_ok pos sigs : Forall sig_ok sigs → 0 <= pos < 2 ^ 63 → ∀ r, healthy r →
  ∃ go r', scan_bucket re data size pos sigs r = Some (go, r') ∧
           outcome (map (match_at data size pos) (List.filter (sig_at data size pos) sigs)) r go r'.
Proof.
  intros Hs Hp. induction Hs as [|sig sigs Hs _ IH]; intros r Hr; cbn [scan_bucket List.filter map].
  { exists true, r. split; [done|]. by split. }
  rewrite check_sig_at_spec by done. cbn [mbind option_bind]. destruct (sig_at data size pos sig); [|by apply IH].
  destruct (add_match_spec (match_at data size pos sig) r Hr) as [(r1 & -> & Hr1 & E1)|(r1 & -> & E1 & Hk)]; cbn [mbind option_bind].
  - destruct (IH r1 Hr1) as (go & r' & -> & Ho). exists go, r'. split; [done|]. cbn [map]. by eapply outcome_cons.
  - exists false, r1. split; [done|]. split; [by eexists|]. exists 0%nat. by rewrite E1.
Qed.

(** The matches at a position: the buckets do not lose any. *)
Definition found_at (pos : Z) : list E9SigMatch :=
  map (match_at data size pos) (List.filter (λ sig, anywhere sig && sig_at data size pos sig) E9_SIGNATURE_DB).

Lemma bucket_complete pos byte : rd data pos = Some byte →
  List.filter (sig_at data size pos) (List.filter (λ sig, anywhere sig && begins byte sig) E9_SIGNATURE_DB)
  = List.filter (λ sig, anywhere sig && sig_at data size pos sig) E9_SIGNATURE_DB.
Proof.
  intros Hb. rewrite filter_and. apply filter_same. eapply Forall_impl; [exact db_ok|]. intros sig [Hl Hm _].
  destruct (anywhere sig); cbn [andb]; [|done]. destruct (sig_at data size pos sig) eqn:E; [|by rewrite andb_false_r].
  rewrite andb_true_r. unfold sig_at in E. apply andb_true_iff in E as [_ E]. apply bool_decide_eq_true in E.
  apply bool_decide_eq_true. rewrite (rd_rdn _ _ _ _ 0 E) by lia. by rewrite Z.add_0_r.
Qed.

Lemma scan_from_ok s (Hd : bytes_ok data) : built s → ∀ n pos r, 0 <= pos → pos + Z.of_nat n = size → healthy r →
  ∃ go r', scan_from re data size n (first_byte s) pos r = Some r' ∧
           outcome (flat_map found_at (seqZ pos (Z.of_nat n))) r go r'.
Proof.
  intros Hs. induction n as [|n IH]; intros pos r Hp Hn Hr; cbn [scan_from].
  { exists true, r. split; [done|]. by split. }
  destruct (rd_is_Some data pos) as [byte Hb]; [lia|]. pose proof (rd_byte _ _ _ Hd Hb) as Hbyte. unfold byte_ok in Hbyte.
  rewrite Hb. cbn [mbind option_bind].
  assert (Hl : map items (first_byte s) !! Z.to_nat byte = Some (List.filter (λ sig, anywhere sig && begins byte sig) E9_SIGNATURE_DB)).
  { rewrite (bt_bytes s Hs). rewrite list_lookup_fmap, lookup_seq_lt by lia. cbn [fmap option_fmap option_map]. do 2 f_equal.
    by rewrite Nat.add_0_l, Z2Nat.id by lia. }
  apply list_lookup_fmap_Some in Hl as (b & Eb & Hl). rewrite Hl. cbn [mbind option_bind]. rewrite <- Eb.
  rewrite seqZ_cons by lia. cbn [flat_map]. replace (Z.pred (Z.of_nat (S n))) with (Z.of_nat n) by lia.
  destruct (scan_bucket_ok pos (List.filter (λ sig, anywhere sig && begins byte sig) E9_SIGNATURE_DB)
    (Forall_filter_l _ _ _ db_ok) ltac:(lia) r Hr) as (go & r1 & -> & Ho). cbn [mbind option_bind].
  rewrite (bucket_complete pos byte Hb) in Ho. fold (found_at pos) in Ho. destruct go.
  - destruct (IH (pos + 1) r1 ltac:(lia) ltac:(lia) (proj1 Ho)) as (go & r' & E & Ho'). exists go, r'. split; [exact E|].
    by eapply outcome_app.
  - exists false, r1. split; [done|]. by apply outcome_stop.
Qed.

(** The reference: the signatures for the start of the file that are there, those at their
    offset, and then at every position all that are found there. *)
Definition reference : list E9SigMatch :=
  map (match_start data size) (List.filter (λ sig, at_start sig && sig_at data size 0 sig) E9_SIGNATURE_DB) ++
  map (match_start data size) (List.filter (λ sig, at_offset sig && sig_at data size (magic_offset sig) sig) E9_SIGNATURE_DB) ++
  flat_map found_at (seqZ 0 size).

Lemma reference_eq : reference =
  map (match_start data size) (List.filter (sig_at data size 0) (List.filter at_start E9_SIGNATURE_DB)) ++
  map (match_start data size) (List.filter (λ sig, sig_at data size (magic_offset sig) sig) (List.filter at_offset E9_SIGNATURE_DB)) ++
  flat_map found_at (seqZ 0 size).
Proof. unfold reference. by rewrite !filter_and. Qed.

Lemma few_start : List.length (List.filter at_start E9_SIGNATURE_DB) = 1%nat.
Proof. vm_compute. reflexivity. Qed.

Lemma few_offset : List.length (List.filter at_offset E9_SIGNATURE_DB) = 2%nat.
Proof. vm_compute. reflexivity. Qed.

Lemma few_found (f : E9Signature → E9SigMatch) p l n : List.length l = n → (List.length (map f (List.filter p l)) <= n)%nat.
Proof. intros <-. rewrite length_map. apply List.filter_length_le. Qed.

Lemma few_healthy l : (List.length l <= 64)%nat → healthy (Results 64 64 0 l).
Proof. intros Hl. split; cbn; [done|lia|unfold num_matches; cbn; lia]. Qed.

(** The three loops over the parts of the table give the reference, or the start of it. *)
Lemma loops_exact s : bytes_ok data → built s →
  ∃ r, (r ← scan_short re data size (List.filter at_start E9_SIGNATURE_DB) (Results 64 64 0 []);
        r ← scan_offset re data size (map (λ sig, (sig, magic_offset sig)) (List.filter at_offset E9_SIGNATURE_DB)) r;
        scan_from re data size (Z.to_nat size) (first_byte s) 0 r) = Some r ∧
       rev (found r) `prefix_of` reference ∧ ((∀ k, re k = true) → rev (found r) = reference).
Proof.
  intros Hd Hb. rewrite reference_eq.
  pose proof (Forall_filter_l _ at_start _ db_ok) as F1. pose proof (Forall_filter_l _ at_offset _ db_ok) as F2.
  pose proof few_start as N1. pose proof few_offset as N2.
  revert F1 F2 N1 N2. generalize (List.filter at_start E9_SIGNATURE_DB) (List.filter at_offset E9_SIGNATURE_DB). intros d1 d2 F1 F2 N1 N2.
  rewrite (scan_short_ok d1 F1) by (apply few_healthy; cbn; lia) || (rewrite N1; vm_compute; discriminate). cbn [mbind option_bind capacity room reallocs found]. rewrite app_nil_r.
  pose proof (few_found (match_start data size) (sig_at data size 0) d1 1 N1) as L1. revert L1. generalize (map (match_start data size) (List.filter (sig_at data size 0) d1)). intros l1 L1.
  rewrite (scan_offset_ok d2 F2) by (apply few_healthy; rewrite length_rev; lia) || (rewrite N2; unfold num_matches; cbn [found capacity]; rewrite length_rev; lia).
  cbn [mbind option_bind capacity room reallocs found].
  pose proof (few_found (match_start data size) (λ sig, sig_at data size (magic_offset sig) sig) d2 2 N2) as L2. revert L2.
  generalize (map (match_start data size) (List.filter (λ sig, sig_at data size (magic_offset sig) sig) d2)). intros l2 L2.
  destruct (scan_from_ok s Hd Hb (Z.to_nat size) 0 (Results 64 64 0 (rev l2 ++ rev l1))) as (go & r & E & Ho);
    [lia|lia|apply few_healthy; rewrite length_app, !length_rev; lia|].
  exists r. split; [exact E|]. rewrite Z2Nat.id in Ho by lia. revert Ho. generalize (flat_map found_at (seqZ 0 size)). intros l3 Ho.
  unfold outcome in Ho. cbn [found] in Ho. destruct go.
  - destruct Ho as [_ ->]. rewrite !rev_app_distr, !rev_involutive, <- app_assoc. split; [apply reflexivity|intros _; reflexivity].
  - destruct Ho as [[k Hk] [j ->]]. rewrite !rev_app_distr, !rev_involutive, <- app_assoc. split.
    + do 2 apply prefix_app. eexists. symmetry. apply firstn_skipn.
    + intros Hre. by rewrite Hre in Hk.
Qed.

Lemma scan_result s r : built s →
  (r ← scan_short re data size (List.filter at_start E9_SIGNATURE_DB) (Results 64 64 0 []);
   r ← scan_offset re data size (map (λ sig, (sig, magic_offset sig)) (List.filter at_offset E9_SIGNATURE_DB)) r;
   scan_from re data size (Z.to_nat size) (first_byte s) 0 r) = Some r →
  e9_sig_scan true re (Some s) (Some data) size = Some (Some (rev (found r)), u32 (Z.of_nat (List.length (rev (found r))))).
Proof.
  intros [Hs Ho _]. rewrite <- Hs, <- Ho. unfold e9_sig_scan. destruct (Z.eqb_spec size 0); [lia|]. cbn [negb]. rewrite length_rev.
  destruct (scan_short _ _ _ _ _) as [r1|]; [|discriminate]. cbn [mbind option_bind].
  destruct (scan_offset _ _ _ _ _) as [r2|]; [|discriminate]. cbn [mbind option_bind]. intros ->. reflexivity.
Qed.

End ScanProofs.

(** C26: on any data the scan returns without an access outside of the data or of an array,
    whatever its allocations do: if the array of matches can be allocated it returns a prefix
    of the reference, the list of all occurrences of the magic bytes of all signatures in
    order of the loops, and all of it if the array can grow whenever it is full; the count is
    the length of what it returns. *)
Theorem scan_exact (alloc re : nat → bool) data size :
  (∀ k, alloc k = true) → bytes_ok data → 0 < size <= blen data → size < 2 ^ 63 →
  ∃ s, e9_sig_scanner_create alloc = Some (Some s) ∧
  ∃ l, e9_sig_scan true re (Some s) (Some data) size = Some (Some l, u32 (Z.of_nat (List.length l))) ∧
       l `prefix_of` reference data size ∧
       ((∀ k, re k = true) → l = reference data size).
Proof.
  intros Ha Hd Hs Hm. destruct (create_built alloc Ha) as (s & E & Hb). exists s. split; [done|].
  destruct (loops_exact re data size Hs Hm s Hd Hb) as (r & Er & Hp & Hr). exists (rev (found r)). split; [|by split].
  by apply scan_result.
Qed.

(** [MZ] at the start of the data and an ELF header behind it. *)
Lemma scan_exact_witness :
  let data := [0x4D; 0x5A; 0x7F; 0x45; 0x4C; 0x46] in
  bytes_ok data ∧
  ∃ s, e9_sig_scanner_create (λ _, true) = Some (Some s) ∧
  ∃ l, e9_sig_scan true (λ _, true) (Some s) (Some data) 6 = Some (Some l, u32 (Z.of_nat (List.length l))) ∧
       l `prefix_of` reference data 6 ∧ ((∀ k, (λ _ : nat, true) k = true) → l = reference data 6).
Proof.
  intros data. split; [by repeat constructor|].
  apply scan_exact; [done|by repeat constructor|vm_compute; split; [reflexivity|discriminate]|lia].
Defined.

(** ** Limits *)

(** The sum of the header's offset and 4 wraps, so the signature is read outside of the data. *)
Lemma validate_pe_wraps :
  e9_sig_validate_pe ([0x4D; 0x5A] ++ replicate 58 0 ++ [0xFC; 0xFF; 0xFF; 0xFF]) 64 = None.
Proof. vm_compute. reflexivity. Qed.

(** Without a wrap the check is safe, and finds a PE header inside the data. *)
Lemma validate_pe_spec data size : bytes_ok data → size <= blen data →
  (∀ off, pe_header_offset data = Some off → off < 2 ^ 32 - 4) →
  ∃ b, e9_sig_validate_pe data size = Some b ∧
       (b = true → ∃ off, pe_header_offset data = Some off ∧ off + 4 <= size ∧ rdn data off 4 = Some (bytes_of_string "PE" ++ [0; 0])).
Proof.
  intros Hd Hs Hoff. unfold e9_sig_validate_pe. destruct (Z.ltb_spec size 64); [by eexists|].
  destruct (rd_is_Some data 0) as [m ->]; [lia|]. destruct (rd_is_Some data 1) as [z ->]; [lia|]. cbn [mbind option_bind].
  destruct (negb (m =? 77) || negb (z =? 90)); [by eexists|].
  assert (E : ∃ off, pe_header_offset data = Some off ∧ 0 <= off).
  { unfold pe_header_offset. destruct (rd_is_Some data 60) as [b0 ->]; [lia|]. destruct (rd_is_Some data 61) as [b1 ->]; [lia|].
    destruct (rd_is_Some data 62) as [b2 ->]; [lia|]. destruct (rd_is_Some data 63) as [b3 ->]; [lia|]. eexists. split; [done|].
    apply wrapu_range. lia. }
  destruct E as (off & E & Hp). specialize (Hoff off E). rewrite E. cbn [mbind option_bind]. rewrite wrapu_small by lia.
  destruct (Z.ltb_spec size (off + 4)); [by eexists|]. unfold memeq. change (blen _) with 4.
  destruct (rdn_is_Some data off 4) as [x Hx]; [lia|lia|lia|]. rewrite Hx. cbn [mbind option_bind]. eexists. split; [done|].
  intros ->%bool_decide_eq_true. by exists off.
Qed.

End Sig.
