(* ===== verification/E9Vendor.v ===== *)
(** * E9Vendor: the unified interface of the vendor library

    Models src/src/e9patch/vendor/e9vendor.c but for the entropy analysis (floating point):
    identification, disassembly for several architectures, extraction of strings, detection
    of compression, CRC32, hexadecimal digests and the textual dumps.  It composes the two
    disassemblers and the signature scanner.  Accesses outside of an object are undefined
    behaviour and give [None]. *)

From Stdlib Require Import Sorting.Sorted.
From S2P Require Import Prelude X86Disasm A64Disasm E9Signatures.

Module Vendor.

(** ** Types (e9vendor.h) *)

Inductive E9Arch :=
| E9_ARCH_UNKNOWN | E9_ARCH_X86 | E9_ARCH_X86_64 | E9_ARCH_ARM | E9_ARCH_ARM64 | E9_ARCH_MIPS | E9_ARCH_RISCV | E9_ARCH_WASM.

Inductive E9Format :=
| E9_FMT_UNKNOWN | E9_FMT_ELF | E9_FMT_PE | E9_FMT_MACHO | E9_FMT_APE | E9_FMT_WASM | E9_FMT_RAW.

(** [E9BinaryInfo]; the numbers of sections and segments, which nothing writes, are left out. *)
Record E9BinaryInfo := BinaryInfo {
  format : E9Format; arch : E9Arch; is_64bit : bool; is_little_endian : bool; is_executable : bool;
  is_shared_lib : bool; is_relocatable : bool; is_polyglot : bool; num_signatures : Z;
  signatures : option (list Sig.E9SigMatch); entry_point : Z; description : string }.

Record E9Instruction := Instruction {
  address : Z; length : Z; ibytes : bytes; mnemonic : string; text : string; is_branch : bool; is_call : bool;
  is_ret : bool; is_conditional : bool; branch_target : Z; reads_memory : bool; writes_memory : bool }.

Definition zero_instruction : E9Instruction :=
  Instruction 0 0 (replicate 16 0) "" "" false false false false 0 false false.

(** ** Identification *)

(** The fields that the tests of the header set, and the description. *)
Definition info_of (f : E9Format) (a : E9Arch) (is64 le ex shared reloc poly : bool) (entry : Z) (desc : string) : E9BinaryInfo :=
  BinaryInfo f a is64 le ex shared reloc poly 0 None entry (clip 256 desc).

Definition zero_info : E9BinaryInfo := info_of E9_FMT_UNKNOWN E9_ARCH_UNKNOWN false false false false false false 0 "".

Definition elf_arch (e_machine : Z) : E9Arch :=
  if e_machine =? 0x03 then E9_ARCH_X86 else if e_machine =? 0x3E then E9_ARCH_X86_64
  else if e_machine =? 0x28 then E9_ARCH_ARM else if e_machine =? 0xB7 then E9_ARCH_ARM64
  else if e_machine =? 0x08 then E9_ARCH_MIPS else if e_machine =? 0xF3 then E9_ARCH_RISCV else E9_ARCH_UNKNOWN.

(** A halfword in the byte order of the file. *)
Definition elf_half (data : bytes) (le : bool) (off : Z) : option Z :=
  b0 ← rd data off; b1 ← rd data (off + 1);
  Some (if le then Z.lor b0 (Z.shiftl b1 8) else Z.lor (Z.shiftl b0 8) b1).

Definition identify_elf (data : bytes) (size : Z) : option E9BinaryInfo :=
  b4 ← rd data 4; b5 ← rd data 5;
  let is64 := b4 =? 2 in
  let le := b5 =? 1 in
  e_type ← elf_half data le 16;
  e_machine ← elf_half data le 18;
  let ex := e_type =? 2 in
  let shared := e_type =? 3 in
  entry ← (if is64 && (32 <=? size) then (if le then rd64 data 24 else Some 0)
           else if 28 <=? size then (if le then rd32 data 24 else Some 0) else Some 0);
  Some (info_of E9_FMT_ELF (elf_arch e_machine) is64 le ex shared (e_type =? 1) false entry
    (String.append "ELF " (String.append (if is64 then "64-bit" else "32-bit") (String.append " "
      (String.append (if le then "LSB" else "MSB") (String.append " "
        (if ex then "executable" else if shared then "shared object" else "relocatable"))))))).

Definition identify_pe (data : bytes) (size : Z) : option E9BinaryInfo :=
  pe_offset ← rd32 data 60;
  pe ← (if u32 (pe_offset + 6) <=? size then memeq data pe_offset (bytes_of_string "PE" ++ [0; 0]) else Some false);
  if (pe : bool) then
    machine ← rd16 data (pe_offset + 4);
    let '(a, is64) :=
      (if machine =? 0x014C then (E9_ARCH_X86, false) else if machine =? 0x8664 then (E9_ARCH_X86_64, true)
       else if machine =? 0x01C4 then (E9_ARCH_ARM, false) else if machine =? 0xAA64 then (E9_ARCH_ARM64, true)
       else (E9_ARCH_UNKNOWN, false)) in
    Some (info_of E9_FMT_PE a is64 true true false false false 0
      (String.append "PE " (String.append (if is64 then "64-bit" else "32-bit") " executable")))
  else Some (info_of E9_FMT_PE E9_ARCH_UNKNOWN false false false false false false 0 "").

Definition identify_macho (data : bytes) : option E9BinaryInfo :=
  m ← rd32 data 0;
  Some (if (m =? 0xFEEDFACE) || (m =? 0xCEFAEDFE) then
          info_of E9_FMT_MACHO E9_ARCH_UNKNOWN false (m =? 0xFEEDFACE) false false false false 0 "Mach-O 32-bit"
        else if (m =? 0xFEEDFACF) || (m =? 0xCFFAEDFE) then
          info_of E9_FMT_MACHO E9_ARCH_UNKNOWN true (m =? 0xFEEDFACF) false false false false 0 "Mach-O 64-bit"
        else if (m =? 0xCAFEBABE) || (m =? 0xBEBAFECA) then
          info_of E9_FMT_MACHO E9_ARCH_UNKNOWN false false false false false false 0 "Mach-O Universal Binary"
        else zero_info).

(** The chain of tests of the header. *)
Definition identify_header (data : bytes) (size : Z) : option E9BinaryInfo :=
  elf ← (if 52 <=? size then memeq data 0 ([0x7F] ++ bytes_of_string "ELF") else Some false);
  if (elf : bool) then identify_elf data size
  else
    mz ← (if 64 <=? size then b0 ← rd data 0; b1 ← rd data 1; Some ((b0 =? 0x4D) && (b1 =? 0x5A)) else Some false);
    if (mz : bool) then
      ape ← (if 8 <=? size then memeq data 0 (bytes_of_string "MZqFpD=") else Some false);
      if (ape : bool) then
        Some (info_of E9_FMT_APE E9_ARCH_UNKNOWN false false false false false true 0 "Actually Portable Executable (APE polyglot)")
      else identify_pe data size
    else if 4 <=? size then identify_macho data else Some zero_info.

(** The test for WebAssembly comes after the chain and overrides it. *)
Definition identify_wasm (data : bytes) (size : Z) (i : E9BinaryInfo) : option E9BinaryInfo :=
  wasm ← (if 8 <=? size then memeq data 0 ([0] ++ bytes_of_string "asm" ++ [1; 0; 0; 0]) else Some false);
  Some (if (wasm : bool) then
          BinaryInfo E9_FMT_WASM E9_ARCH_WASM (is_64bit i) (is_little_endian i) (is_executable i) (is_shared_lib i)
            (is_relocatable i) (is_polyglot i) (num_signatures i) (signatures i) (entry_point i) (clip 256 "WebAssembly module")
        else i).

Definition executable_at_start (m : Sig.E9SigMatch) : bool :=
  (Sig.m_offset m =? 0) && match Sig.sig_category (Sig.m_sig m) with Sig.E9_SIG_CAT_EXECUTABLE => true | _ => false end.

(** [alloc] is the call of [calloc] for the result, [alloc_sig] are those of the scanner,
    [alloc_matches] and [re] those of the scan. *)
Definition e9_identify (alloc : bool) (alloc_sig : nat → bool) (alloc_matches : bool) (re : nat → bool)
    (data : option bytes) (size : Z) : option (option E9BinaryInfo) :=
  match data with
  | None => Some None
  | Some data =>
      if size <? 4 then Some None
      else if negb alloc then Some None
      else
        i ← identify_header data size;
        i ← identify_wasm data size i;
        scanner ← Sig.e9_sig_scanner_create alloc_sig;
        i ← match scanner with
            | None => Some i
            | Some _ =>
                '(sigs, n) ← Sig.e9_sig_scan alloc_matches re scanner (Some data) size;
                poly ← (if 1 <? n then sigs ← sigs; Some (existsb executable_at_start (take (Z.to_nat n) sigs)) else Some false);
                Some (BinaryInfo (format i) (arch i) (is_64bit i) (is_little_endian i) (is_executable i) (is_shared_lib i)
                        (is_relocatable i) (is_polyglot i || poly) n sigs (entry_point i) (description i))
            end;
        Some (Some match format i with
                   | E9_FMT_UNKNOWN =>
                       BinaryInfo (format i) (arch i) (is_64bit i) (is_little_endian i) (is_executable i) (is_shared_lib i)
                         (is_relocatable i) (is_polyglot i) (num_signatures i) (signatures i) (entry_point i)
                         (clip 256 "Unknown binary format")
                   | _ => i
                   end)
  end.

(** ** Disassembly *)

Inductive E9Disasm :=
| D_x86 (a : E9Arch) (ctx : option X86.E9X86Disasm)
| D_a64 (ctx : option A64.E9A64Disasm).

(** [alloc] is the call of [calloc] for the context, [alloc_ctx] that of the disassembler. *)
Definition e9_disasm_create (alloc alloc_ctx : bool) (a : E9Arch) : option E9Disasm :=
  if negb alloc then None
  else match a with
       | E9_ARCH_X86 => Some (D_x86 a (X86.e9_x86_disasm_create alloc_ctx 32))
       | E9_ARCH_X86_64 => Some (D_x86 a (X86.e9_x86_disasm_create alloc_ctx 64))
       | E9_ARCH_ARM64 => Some (D_a64 (A64.e9_a64_disasm_create alloc_ctx))
       | _ => None
       end.

(** [E9_STRCPY_SAFE] *)
Definition E9_STRCPY_SAFE (dst_size : Z) (src : string) : string := clip dst_size src.

(** The copies of the fields; the bytes are copied with the length that the decoder set. *)
Definition of_x86 (i : X86.E9X86Insn) : option E9Instruction :=
  raw ← rdn (X86.ibytes i) 0 (X86.ilength i);
  bs ← wrn (replicate 16 0) 0 raw;
  Some (Instruction (X86.address i) (X86.ilength i) bs (E9_STRCPY_SAFE 24 (X86.mnemonic i)) (E9_STRCPY_SAFE 80 (X86.text i))
          (X86.is_branch i) (X86.is_call i) (X86.is_ret i) (X86.is_conditional i) (X86.branch_target i)
          (X86.reads_memory i) (X86.writes_memory i)).

Definition of_a64 (i : A64.E9A64Insn) : option E9Instruction :=
  bs ← wrn (replicate 16 0) 0 (le_bytes 4 (A64.encoding i));
  Some (Instruction (A64.address i) 4 bs (E9_STRCPY_SAFE 24 (A64.mnemonic i)) (E9_STRCPY_SAFE 80 (A64.text i))
          (A64.is_branch i) (A64.is_call i) (A64.is_ret i) (A64.is_conditional i) (A64.branch_target i)
          (A64.reads_memory i) (A64.writes_memory i)).

(** The length and what the [insn] pointer holds. *)
Definition e9_disasm_one (dis : option E9Disasm) (code : option bytes) (size addr : Z) (insn : option E9Instruction) :
    option (Z * option E9Instruction) :=
  match dis, code, insn with
  | Some (D_x86 _ ctx), Some _, Some _ =>
      '(len, i) ← X86.e9_x86_disasm_one ctx code size addr (Some X86.zero_insn);
      if len <=? 0 then Some (0, Some zero_instruction)
      else i ← i; i ← of_x86 i; Some (len, Some i)
  | Some (D_a64 ctx), Some _, Some _ =>
      '(len, i) ← A64.e9_a64_disasm_one code size addr (Some A64.zero_insn);
      if negb (len =? 4) then Some (0, Some zero_instruction)
      else i ← i; i ← of_a64 i; Some (4, Some i)
  | _, _, _ => Some (0, insn)
  end.

(** The sweep from [off] on; the result is reversed. *)
Fixpoint many_loop (fuel : nat) (dis : E9Disasm) (code : bytes) (size addr count off : Z) (acc : list E9Instruction) :
    option (list E9Instruction) :=
  if (Z.of_nat (List.length acc) <? count) && (off <? size) then
    match fuel with
    | O => None
    | S fuel =>
        '(len, i) ← e9_disasm_one (Some dis) (Some (at_off code off)) (size - off) (u64 (addr + off)) (Some zero_instruction);
        if len <=? 0 then Some acc
        else i ← i; many_loop fuel dis code size addr count (off + len) (i :: acc)
    end
  else Some acc.

Definition e9_disasm_many (alloc : bool) (dis : option E9Disasm) (code : option bytes) (size addr count : Z) :
    option (Z * option (list E9Instruction)) :=
  match dis, code with
  | Some dis, Some code =>
      if negb alloc then Some (0, None)
      else l ← many_loop (Z.to_nat size) dis code size addr count 0 []; Some (Z.of_nat (List.length l), Some (rev l))
  | _, _ => Some (0, None)
  end.

(** ** Strings *)

(** [E9String]; the only encoding that is ever set is [E9_STR_ASCII], 0. *)
Record E9String := Str {
  s_offset : Z; s_value : option bytes; s_length : Z; s_is_path : bool; s_is_url : bool; s_is_ip_addr : bool;
  s_is_email : bool; s_is_function_name : bool }.

Definition is_printable_ascii (c : Z) : bool := (0x20 <=? c) && (c <? 0x7F).

Definition isdigit (c : Z) : bool := between 0x30 0x39 c.
Definition isalnum (c : Z) : bool := isdigit c || between 0x41 0x5A c || between 0x61 0x7A c.

(** [strncmp(v, pat, n) == 0] for the [n] characters of [pat]. *)
Definition has_prefix (pat : string) (v : bytes) : bool :=
  bool_decide (take (String.length pat) v = bytes_of_string pat).

(** The characters of [v] that are a dot, if all are digits or dots. *)
Definition is_dotted_quad (v : bytes) : bool :=
  forallb (λ c, (c =? 0x2E) || isdigit c) v && (Z.of_nat (List.length (List.filter (Z.eqb 0x2E) v)) =? 3).

(** A string with its value classified; [v] has no NUL. *)
Definition classify_string (off : Z) (v : bytes) : E9String :=
  let len := blen v in
  let at_ i := default 0 (rd v i) in
  Str off (Some v) len
    ((at_ 0 =? 0x2F) || ((2 <? len) && (at_ 1 =? 0x3A) && (at_ 2 =? 0x5C)))
    (has_prefix "http://" v || has_prefix "https://" v || has_prefix "ftp://" v)
    (is_dotted_quad v)
    (existsb (Z.eqb 0x40) v && existsb (Z.eqb 0x2E) v)
    ((2 <? len) && (len <? 64) && forallb (λ c, isalnum c || (c =? 0x5F)) v).

(** The first pass over the [n] bytes from [i] on. *)
Fixpoint count_strings (data : bytes) (min_len : Z) (n : nat) (i run_len num : Z) : option Z :=
  match n with
  | O => Some (if min_len <=? run_len then num + 1 else num)
  | S n =>
      c ← rd data i;
      if is_printable_ascii c then count_strings data min_len n (i + 1) (run_len + 1) num
      else count_strings data min_len n (i + 1) 0 (if min_len <=? run_len then num + 1 else num)
  end.

(** The end of a run in the second pass, which fills the next of the [num] elements; the
    strings, the last one first. *)
Definition end_run (malloc : nat → bool) (data : bytes) (min_len num run_start run_len : Z) (strs : list E9String) : option (list E9String) :=
  if (min_len <=? run_len) && (Z.of_nat (List.length strs) <? num) then
    if malloc (List.length strs) then v ← rdn data run_start run_len; Some (classify_string run_start v :: strs)
    else Some (Str run_start None run_len false false false false false :: strs)
  else Some strs.

Fixpoint extract_strings (malloc : nat → bool) (data : bytes) (min_len num : Z) (n : nat) (i run_start run_len : Z) (strs : list E9String) :
    option (list E9String) :=
  match n with
  | O => end_run malloc data min_len num run_start run_len strs
  | S n =>
      c ← rd data i;
      if is_printable_ascii c then
        extract_strings malloc data min_len num n (i + 1) (if run_len =? 0 then i else run_start) (run_len + 1) strs
      else
        strs ← end_run malloc data min_len num run_start run_len strs;
        extract_strings malloc data min_len num n (i + 1) run_start 0 strs
  end.

(** The array and the count; [malloc] are the calls for the values. *)
Definition e9_strings_extract (alloc : bool) (malloc : nat → bool) (data : option bytes) (size min_len : Z) :
    option (option (list E9String) * Z) :=
  match data with
  | None => Some (None, 0)
  | Some data =>
      if size =? 0 then Some (None, 0)
      else
        let min_len := if min_len <? 4 then 4 else min_len in
        num ← count_strings data min_len (Z.to_nat size) 0 0 0;
        if num =? 0 then Some (None, 0)
        else if negb alloc then Some (None, 0)
        else
          l ← extract_strings malloc data min_len num (Z.to_nat size) 0 0 0 [];
          Some (Some (rev l), u32 (Z.of_nat (List.length l)))
  end.

(** ** Compression *)

Inductive E9CompressType :=
| E9_COMPRESS_NONE | E9_COMPRESS_ZLIB | E9_COMPRESS_GZIP | E9_COMPRESS_DEFLATE | E9_COMPRESS_BZIP2 | E9_COMPRESS_LZMA
| E9_COMPRESS_XZ | E9_COMPRESS_ZSTD | E9_COMPRESS_LZ4 | E9_COMPRESS_LZO | E9_COMPRESS_UNKNOWN.

Definition e9_detect_compression (data : option bytes) (size : Z) : option E9CompressType :=
  match data with
  | None => Some E9_COMPRESS_NONE
  | Some data =>
      if size <? 2 then Some E9_COMPRESS_NONE
      else
        b0 ← rd data 0; b1 ← rd data 1;
        let is3 x y z := (if 3 <=? size then b2 ← rd data 2; Some ((b0 =? x) && (b1 =? y) && (b2 =? z)) else Some false) in
        let isn n pat := if n <=? size then memeq data 0 pat else Some false in
        gzip ← is3 0x1F 0x8B 0x08;
        if (gzip : bool) then Some E9_COMPRESS_GZIP
        else if (b0 =? 0x78) && ((b1 =? 0x01) || (b1 =? 0x5E) || (b1 =? 0x9C) || (b1 =? 0xDA)) then Some E9_COMPRESS_ZLIB
        else
          bzip2 ← is3 0x42 0x5A 0x68;
          if (bzip2 : bool) then Some E9_COMPRESS_BZIP2
          else
            xz ← isn 6 ([0xFD] ++ bytes_of_string "7zXZ" ++ [0]);
            if (xz : bool) then Some E9_COMPRESS_XZ
            else
              lzma ← is3 0x5D 0 0;
              if (lzma : bool) then Some E9_COMPRESS_LZMA
              else
                zstd ← isn 4 [0x28; 0xB5; 0x2F; 0xFD];
                if (zstd : bool) then Some E9_COMPRESS_ZSTD
                else lz4 ← isn 4 [0x04; 0x22; 0x4D; 0x18]; Some (if (lz4 : bool) then E9_COMPRESS_LZ4 else E9_COMPRESS_NONE)
  end.

Definition e9_compress_name (t : E9CompressType) : string :=
  match t with
  | E9_COMPRESS_NONE => "none" | E9_COMPRESS_ZLIB => "zlib" | E9_COMPRESS_GZIP => "gzip" | E9_COMPRESS_DEFLATE => "deflate"
  | E9_COMPRESS_BZIP2 => "bzip2" | E9_COMPRESS_LZMA => "lzma" | E9_COMPRESS_XZ => "xz" | E9_COMPRESS_ZSTD => "zstd"
  | E9_COMPRESS_LZ4 => "lz4" | E9_COMPRESS_LZO => "lzo" | E9_COMPRESS_UNKNOWN => "unknown"
  end.

(** ** CRC32 *)

(** The static table and its flag. *)
Record crc_state := CrcState { crc32_table : list Z; crc32_table_init : bool }.

Definition crc_initial : crc_state := CrcState (replicate 256 0) false.

Definition crc_shift (crc : Z) : Z :=
  if truthy (Z.land crc 1) then Z.lxor (Z.shiftr crc 1) 0xEDB88320 else Z.shiftr crc 1.

Definition crc32_init_table (st : crc_state) : crc_state :=
  if crc32_table_init st then st
  else CrcState (map (λ i, Nat.iter 8 crc_shift (Z.of_nat i)) (seq 0 256)) true.

(** The loop over the [n] bytes from [i] on. *)
Fixpoint crc_loop (table : list Z) (data : bytes) (n : nat) (i crc : Z) : option Z :=
  match n with
  | O => Some crc
  | S n =>
      b ← rd data i;
      t ← table !! Z.to_nat (Z.land (Z.lxor crc b) 0xFF);
      crc_loop table data n (i + 1) (Z.lxor t (Z.shiftr crc 8))
  end.

Definition e9_crc32_update (st : crc_state) (crc : Z) (data : option bytes) (size : Z) : option (Z * crc_state) :=
  match data with
  | None => Some (crc, st)
  | Some data =>
      let st := crc32_init_table st in
      crc ← crc_loop (crc32_table st) data (Z.to_nat size) 0 (u32 (Z.lnot crc));
      Some (u32 (Z.lnot crc), st)
  end.

Definition e9_crc32 (st : crc_state) (data : option bytes) (size : Z) : option (Z * crc_state) := e9_crc32_update st 0 data size.

(** ** Digests *)

Definition hex_chars : string := "0123456789abcdef".

(** The characters written, without the closing NUL. *)
Fixpoint e9_hash_to_hex (hash : bytes) (n : nat) (i : Z) : option string :=
  match n with
  | O => Some EmptyString
  | S n =>
      b ← rd hash i;
      hi ← String.get (Z.to_nat (Z.shiftr b 4)) hex_chars;
      lo ← String.get (Z.to_nat (Z.land b 0x0F)) hex_chars;
      rest ← e9_hash_to_hex hash n (i + 1);
      Some (String hi (String lo rest))
  end.

(** Stubs: the digests are zeros. *)
Definition e9_md5 (data : bytes) (size : Z) : bytes := replicate 16 0.
Definition e9_sha256 (data : bytes) (size : Z) : bytes := replicate 32 0.

(** ** Dumps *)

(** [%08llx] *)
Definition hex8 (z : Z) : string := if z <? 16 ^ 8 then hex_pad 8 z EmptyString else hex z.

Definition ascii_of (c : Z) : ascii := ascii_of_N (Z.to_N (if is_printable_ascii c then c else 0x2E)).

Section HexDump.
Context (data : bytes) (size out_size : Z).

(** The columns [j] to 15 of the bytes of the line at [i]. *)
Fixpoint dump_bytes (n : nat) (i j : Z) (c : cursor) : option cursor :=
  match n with
  | O => Some c
  | S n =>
      c ← (if i + j <? size then b ← rd data (i + j); put out_size (hex_pad 2 b " ") c else put out_size "   " c);
      c ← (if j =? 7 then put out_size " " c else Some c);
      dump_bytes n i (j + 1) c
  end.

Fixpoint dump_ascii (n : nat) (i j : Z) (c : cursor) : option cursor :=
  match n with
  | O => Some c
  | S n =>
      if i + j <? size then
        b ← rd data (i + j);
        c ← put out_size (String (ascii_of b) EmptyString) c;
        dump_ascii n i (j + 1) c
      else Some c
  end.

Definition dump_line (base i : Z) (c : cursor) : option cursor :=
  c ← put out_size (String.append (hex8 (u64 (base + i))) "  ") c;
  c ← dump_bytes 16 i 0 c;
  c ← put out_size " |" c;
  c ← dump_ascii 16 i 0 c;
  put out_size (String "|" (String "010" EmptyString)) c.

(** The lines from [i] on; [n] bounds their number. *)
Fixpoint dump_lines (n : nat) (base i : Z) (c : cursor) : option cursor :=
  if (i <? size) && (cur_pos c <? out_size - 1 - 80) then
    match n with
    | O => None
    | S n => c ← dump_line base i c; dump_lines n base (i + 16) c
    end
  else Some c.

End HexDump.

Definition e9_hexdump (data : option bytes) (size base_addr out_size : Z) : option (option string) :=
  match data with
  | None => Some None
  | Some data =>
      if out_size =? 0 then Some None
      else
        c ← dump_lines data size out_size (Z.to_nat size) base_addr 0 (Cursor 0 EmptyString);
        t ← finish out_size c;
        Some (Some t)
  end.

(** The first 8 bytes of an instruction in hexadecimal, then blanks. *)
Fixpoint insn_bytes (code : bytes) (out_size off len : Z) (n : nat) (i : Z) (c : cursor) : option cursor :=
  match n with
  | O => Some c
  | S n =>
      c ← (if i <? len then b ← rd code (off + i); put out_size (hex_pad 2 b " ") c else put out_size "   " c);
      insn_bytes code out_size off len n (i + 1) c
  end.

Fixpoint disasm_lines (fuel : nat) (dis : E9Disasm) (code : bytes) (size addr out_size off : Z) (c : cursor) : option cursor :=
  if (off <? size) && (cur_pos c <? out_size - 1 - 100) then
    match fuel with
    | O => None
    | S fuel =>
        '(len, i) ← e9_disasm_one (Some dis) (Some (at_off code off)) (size - off) (u64 (addr + off)) (Some zero_instruction);
        if len <=? 0 then Some c
        else
          i ← i;
          c ← put out_size (String.append (hex8 (u64 (addr + off))) ":  ") c;
          c ← insn_bytes code out_size off len 8 0 c;
          c ← put out_size (String.append " " (String.append (text i) (String "010" EmptyString))) c;
          disasm_lines fuel dis code size addr out_size (off + len) c
    end
  else Some c.

Definition e9_disasm_dump (dis : option E9Disasm) (code : option bytes) (size addr out_size : Z) : option (option string) :=
  match dis, code with
  | Some dis, Some code =>
      if out_size =? 0 then Some None
      else
        c ← disasm_lines (Z.to_nat size) dis code size addr out_size 0 (Cursor 0 EmptyString);
        t ← finish out_size c;
        Some (Some t)
  | _, _ => Some None
  end.

Definition line (s : string) : string := String.append s (String "010" EmptyString).

Definition arch_name (a : E9Arch) : string :=
  match a with
  | E9_ARCH_UNKNOWN => "Unknown" | E9_ARCH_X86 => "x86" | E9_ARCH_X86_64 => "x86-64" | E9_ARCH_ARM => "ARM"
  | E9_ARCH_ARM64 => "ARM64" | E9_ARCH_MIPS => "MIPS" | E9_ARCH_RISCV => "RISC-V" | E9_ARCH_WASM => "WebAssembly"
  end.

Fixpoint print_signatures (out_size : Z) (sigs : list Sig.E9SigMatch) (c : cursor) : option cursor :=
  match sigs with
  | [] => Some c
  | m :: sigs =>
      c ← put out_size (line (String.append "  [0x" (String.append (hex (Sig.m_offset m)) (String.append "] " (Sig.m_description m))))) c;
      print_signatures out_size sigs c
  end.

Definition e9_info_print (info : option E9BinaryInfo) (out_size : Z) : option (option string) :=
  match info with
  | None => Some None
  | Some i =>
      if out_size =? 0 then Some None
      else
        let put := put out_size in
        c ← put (line "Binary Analysis Report") (Cursor 0 EmptyString);
        c ← put (line (line "======================")) c;
        c ← put (line (String.append "Format: " (description i))) c;
        c ← put (line (String.append "Architecture: " (arch_name (arch i)))) c;
        c ← put (line (String.append "Bits: " (dec (if is_64bit i then 64 else 32)))) c;
        c ← put (line (String.append "Endianness: " (if is_little_endian i then "little" else "big"))) c;
        c ← (if negb (entry_point i =? 0) then put (line (String.append "Entry point: 0x" (hex (entry_point i)))) c else Some c);
        c ← (if is_polyglot i then put (String "010" (line "*** POLYGLOT FILE DETECTED ***")) c else Some c);
        c ← (if 0 <? num_signatures i then
               c ← put (String "010" (line (String.append "Embedded signatures found: " (dec (num_signatures i))))) c;
               sigs ← signatures i;
               print_signatures out_size (take (Z.to_nat (Z.min (num_signatures i) 10)) sigs) c
             else Some c);
        t ← finish out_size c;
        Some (Some t)
  end.

(** ** Version *)

Definition e9_vendor_version : string := clip 32 "1.0.0".
Definition e9_vendor_build_info : string := "E9Studio Vendor Library - Self-contained binary analysis".

(** * Properties *)

(** ** CRC32 *)

(** The reference: the polynomial division, bit by bit. *)
Definition crc_byte (crc b : Z) : Z := Nat.iter 8 crc_shift (Z.lxor crc b).
Definition crc_of (crc : Z) (l : bytes) : Z := u32 (Z.lnot (foldl crc_byte (u32 (Z.lnot crc)) l)).

Lemma crc_shift_eq x : crc_shift x = Z.lxor (Z.shiftr x 1) (if Z.testbit x 0 then 0xEDB88320 else 0).
Proof.
  assert (E : truthy (Z.land x 1) = Z.testbit x 0).
  { change 1 with (Z.ones 1). rewrite Z.land_ones by lia. change (2 ^ 1) with 2. rewrite Z.bit0_odd, Zmod_odd. by destruct (Z.odd x). }
  unfold crc_shift. rewrite E. destruct (Z.testbit x 0); [done|by rewrite Z.lxor_0_r].
Qed.

Lemma crc_shift_lxor x y : crc_shift (Z.lxor x y) = Z.lxor (crc_shift x) (crc_shift y).
Proof.
  rewrite !crc_shift_eq, Z.lxor_spec, Z.shiftr_lxor. generalize (Z.shiftr x 1) (Z.shiftr y 1). intros a b.
  assert (∀ p q : Z, Z.lxor (Z.lxor a p) (Z.lxor b q) = Z.lxor (Z.lxor a b) (Z.lxor p q)) as H.
  { intros p q. rewrite !Z.lxor_assoc. f_equal. rewrite <- !Z.lxor_assoc. f_equal. apply Z.lxor_comm. }
  rewrite H. f_equal. by destruct (Z.testbit x 0), (Z.testbit y 0).
Qed.

Lemma crc_shifts_lxor n x y : Nat.iter n crc_shift (Z.lxor x y) = Z.lxor (Nat.iter n crc_shift x) (Nat.iter n crc_shift y).
Proof. induction n as [|n IH]; [done|]. change (crc_shift (Nat.iter n crc_shift (Z.lxor x y)) = Z.lxor (crc_shift (Nat.iter n crc_shift x)) (crc_shift (Nat.iter n crc_shift y))). by rewrite IH, crc_shift_lxor. Qed.

(** Bits above the remainder are only shifted. *)
Lemma crc_shifts_high n h k : Nat.iter n crc_shift (Z.shiftl h (Z.of_nat (n + k))) = Z.shiftl h (Z.of_nat k).
Proof.
  revert k. induction n as [|n IH]; intros k; [done|]. rewrite Nat.iter_succ.
  replace (S n + k)%nat with (n + S k)%nat by lia. rewrite IH, crc_shift_eq.
  rewrite Z.shiftl_spec_low by lia. rewrite Z.lxor_0_r, Z.shiftr_shiftl_l by lia. f_equal. lia.
Qed.

Lemma low_high c : c = Z.lxor (Z.land c 0xFF) (Z.shiftl (Z.shiftr c 8) 8).
Proof.
  apply Z.bits_inj'. intros n Hn. change 0xFF with (Z.ones 8). rewrite Z.lxor_spec, Z.land_spec, Z.testbit_ones_nonneg by lia.
  destruct (Z.ltb_spec n 8).
  - by rewrite Z.shiftl_spec_low, andb_true_r, xorb_false_r by lia.
  - rewrite Z.shiftl_spec, Z.shiftr_spec, andb_false_r, xorb_false_l by lia. f_equal. lia.
Qed.

Lemma land_byte x : 0 <= Z.land x 0xFF < 256.
Proof. change 0xFF with (Z.ones 8). rewrite Z.land_ones by lia. apply Z.mod_pos_bound. lia. Qed.

Lemma byte_high c b : byte_ok b → Z.shiftr (Z.lxor c b) 8 = Z.shiftr c 8.
Proof.
  intros Hb. rewrite Z.shiftr_lxor, (Z.shiftr_div_pow2 b) by lia. unfold byte_ok in Hb.
  rewrite Z.div_small by (cbn; lia). apply Z.lxor_0_r.
Qed.

(** One step with the table is eight shifts. *)
Lemma crc_byte_table c b : byte_ok b →
  crc_byte c b = Z.lxor (Nat.iter 8 crc_shift (Z.land (Z.lxor c b) 0xFF)) (Z.shiftr c 8).
Proof.
  intros Hb. unfold crc_byte. rewrite (low_high (Z.lxor c b)) at 1. rewrite crc_shifts_lxor. f_equal.
  rewrite byte_high by done. pose proof (crc_shifts_high 8 (Z.shiftr c 8) 0) as H. rewrite Z.shiftl_0_r in H. exact H.
Qed.

(** The states of the static table. *)
Definition crc_ready : crc_state := crc32_init_table crc_initial.
Definition crc_valid (st : crc_state) : Prop := st = crc_initial ∨ st = crc_ready.

Lemma crc_init_ready st : crc_valid st → crc32_init_table st = crc_ready.
Proof. by intros [->| ->]. Qed.

Lemma crc_table_at i : 0 <= i < 256 → crc32_table crc_ready !! Z.to_nat i = Some (Nat.iter 8 crc_shift i).
Proof.
  intros Hi. change (crc32_table crc_ready) with (map (λ i, Nat.iter 8 crc_shift (Z.of_nat i)) (seq 0 256)).
  rewrite list_lookup_fmap, lookup_seq_lt by lia. cbn [fmap option_fmap option_map]. by rewrite Nat.add_0_l, Z2Nat.id by lia.
Qed.

Lemma crc_loop_ref data : bytes_ok data → ∀ n i crc, 0 <= i → i + Z.of_nat n <= blen data →
  crc_loop (crc32_table crc_ready) data n i crc = Some (foldl crc_byte crc (take n (drop (Z.to_nat i) data))).
Proof.
  intros Hd. induction n as [|n IH]; intros i crc Hi Hn; [done|]. cbn [crc_loop].
  destruct (rd_is_Some data i) as [b Hb]; [lia|]. pose proof (rd_byte _ _ _ Hd Hb) as Hok.
  rewrite Hb. cbn [mbind option_bind]. rewrite crc_table_at by apply land_byte. cbn [mbind option_bind].
  rewrite IH by lia. unfold rd in Hb. destruct (0 <=? i); [|done]. rewrite (drop_S data b (Z.to_nat i)) by done.
  cbn [take foldl]. rewrite crc_byte_table by done. do 3 f_equal. f_equal. lia.
Qed.

Lemma crc_shift_range x : 0 <= x < 2 ^ 32 → 0 <= crc_shift x < 2 ^ 32.
Proof.
  intros Hx. rewrite crc_shift_eq. apply lxor_bound; [lia| |destruct (Z.testbit x 0); lia].
  rewrite Z.shiftr_div_pow2 by lia. split; [apply Z.div_pos; lia|apply Z.div_lt_upper_bound; lia].
Qed.

Lemma crc_byte_range c b : 0 <= c < 2 ^ 32 → byte_ok b → 0 <= crc_byte c b < 2 ^ 32.
Proof.
  intros Hc Hb. unfold crc_byte, byte_ok in *. assert (H : 0 <= Z.lxor c b < 2 ^ 32) by (apply lxor_bound; lia).
  revert H. generalize (Z.lxor c b). intros x Hx. generalize 8%nat. intros n. induction n as [|n IH]; [exact Hx|]. by apply crc_shift_range.
Qed.

Lemma crc_fold_range l c : 0 <= c < 2 ^ 32 → bytes_ok l → 0 <= foldl crc_byte c l < 2 ^ 32.
Proof. intros Hc Hl. revert c Hc. induction Hl as [|b l Hb _ IH]; intros c Hc; [exact Hc|]. apply IH. by apply crc_byte_range. Qed.

Lemma u32_lnot_lnot x : 0 <= x < 2 ^ 32 → u32 (Z.lnot (u32 (Z.lnot x))) = x.
Proof.
  assert (H : ∀ y, 0 <= y < 2 ^ 32 → u32 (Z.lnot y) = 2 ^ 32 - 1 - y).
  { intros y Hy. rewrite <- (wrapu_eqm 32 (Z.lnot y) 1), wrapu_small; unfold Z.lnot; lia. }
  intros Hx. rewrite (H x) by done. rewrite H by lia. lia.
Qed.

Lemma crc_of_app crc a b : bytes_ok a → crc_of (crc_of crc a) b = crc_of crc (a ++ b).
Proof.
  intros Ha. unfold crc_of. rewrite foldl_app. do 2 f_equal. f_equal. apply u32_lnot_lnot, crc_fold_range; [apply wrapu_range; lia|done].
Qed.

(** C27: the table-driven CRC32 is the bitwise division by the polynomial, whatever ran before
    it, and reads nothing outside of the data; a checksum can be continued: that of a first
    part, updated with the rest, is that of the whole. *)
Theorem crc32_bitwise st crc data rest :
  crc_valid st → bytes_ok data → bytes_ok rest →
  e9_crc32_update st crc (Some data) (blen data) = Some (crc_of crc data, crc_ready) ∧
  e9_crc32_update crc_ready (crc_of crc data) (Some rest) (blen rest) = Some (crc_of crc (data ++ rest), crc_ready).
Proof.
  intros Hst Hd Hr. assert (H : ∀ st c l, crc_valid st → bytes_ok l → e9_crc32_update st c (Some l) (blen l) = Some (crc_of c l, crc_ready)).
  { intros st' c l Hs Hl. pose proof (blen_nonneg l). unfold e9_crc32_update. rewrite crc_init_ready by done. rewrite crc_loop_ref by (done || lia). cbn [mbind option_bind].
    unfold blen. by rewrite Nat2Z.id, drop_0, firstn_all. }
  split; [by apply H|]. rewrite H by (done || by right). by rewrite crc_of_app.
Qed.

Lemma crc32_bitwise_witness :
  crc_valid crc_initial ∧
  e9_crc32_update crc_initial 0 (Some [0x31; 0x32]) (blen [0x31; 0x32]) = Some (crc_of 0 [0x31; 0x32], crc_ready) ∧
  e9_crc32_update crc_ready (crc_of 0 [0x31; 0x32]) (Some [0x33]) (blen [0x33]) = Some (crc_of 0 ([0x31; 0x32] ++ [0x33]), crc_ready).
Proof. split; [by left|]. apply crc32_bitwise; [by left|by repeat constructor|by repeat constructor]. Defined.

(** The check value of the standard. *)
Example crc32_check : fst <$> e9_crc32 crc_initial (Some (bytes_of_string "123456789")) 9 = Some 0xCBF43926.
Proof. vm_compute. reflexivity. Qed.

(** ** Strings *)

Section Strings.
Context (data : bytes) (size : Z) (Hsize : 0 <= size <= blen data) (min_len : Z) (Hmin : 0 < min_len).

Definition printable (i : Z) : bool := match rd data i with Some c => is_printable_ascii c | None => false end.

(** A maximal run of printable characters. *)
Record is_run (off n : Z) : Prop := {
  ir_range : 0 <= off ∧ 0 < n ∧ off + n <= size;
  ir_chars : ∀ j, off <= j < off + n → printable j = true;
  ir_left : off = 0 ∨ printable (off - 1) = false;
  ir_right : off + n = size ∨ printable (off + n) = false }.

(** The runs that end in the [n] bytes from [i] on, the current one from [start] included. *)
Fixpoint runs (n : nat) (i start len : Z) : list (Z * Z) :=
  let here := if min_len <=? len then [(start, len)] else [] in
  match n with
  | O => here
  | S n => if printable i then runs n (i + 1) (if len =? 0 then i else start) (len + 1) else here ++ runs n (i + 1) start 0
  end.

(** What the two loops know of the current run at [i]. *)
Definition current (i start len : Z) : Prop :=
  (len = 0 ∧ (i = 0 ∨ printable (i - 1) = false)) ∨
  (0 < len ∧ start + len = i ∧ 0 <= start ∧ (∀ j, start <= j < i → printable j = true) ∧ (start = 0 ∨ printable (start - 1) = false)).

Lemma current_next i start len : 0 <= i → current i start len → printable i = true → current (i + 1) (if len =? 0 then i else start) (len + 1).
Proof.
  intros Hi Hc Hp. right. destruct Hc as [[-> Hl]|(Hl & He & Hs & Hj & Hb)].
  - cbn [Z.eqb]. split_and!; [lia|lia|lia| |done]. intros j Hjr. by replace j with i by lia.
  - destruct (Z.eqb_spec len 0); [lia|]. split_and!; [lia|lia|lia| |done].
    intros j Hjr. destruct (Z.eq_dec j i) as [->|]; [done|apply Hj; lia].
Qed.

Lemma current_end i start : printable i = false → current (i + 1) start 0.
Proof. intros Hp. left. split; [done|]. right. by replace (i + 1 - 1) with i by lia. Qed.

(** The run that ends at [i] is the current one. *)
Lemma run_ends i start len off n : current i start len → is_run off n → off + n = i → off = start ∧ n = len.
Proof.
  intros Hc [Hr Hch Hl _] He. destruct Hc as [[-> [->|Hp]]|(Hn & Hs & H0 & Hj & Hb)]; [lia| |].
  { rewrite Hch in Hp by lia. done. }
  destruct (Z.lt_trichotomy off start) as [Hlt|[->|Hgt]]; [|lia|].
  - destruct Hb as [->|Hb]; [lia|]. rewrite Hch in Hb by lia. done.
  - destruct Hl as [->|Hl]; [lia|]. rewrite Hj in Hl by lia. done.
Qed.

Lemma current_run i start len : current i start len → 0 < len → i = size ∨ printable i = false → 0 <= i <= size → is_run start len.
Proof.
  intros [[-> _]|(Hn & Hs & H0 & Hj & Hb)] Hlen Hr Hi; [lia|].
  split; [lia| |done|by rewrite Hs]. intros j Hjr. apply Hj. lia.
Qed.

Lemma runs_spec n : ∀ i start len, 0 <= i → i + Z.of_nat n = size → current i start len →
  ∀ off k, (off, k) ∈ runs n i start len ↔ min_len <= k ∧ is_run off k ∧ i <= off + k.
Proof.
  induction n as [|n IH]; intros i start len Hi Hn Hc off k; cbn [runs].
  - assert (E : (off, k) ∈ (if min_len <=? len then [(start, len)] else []) ↔ min_len <= len ∧ off = start ∧ k = len).
    { destruct (Z.leb_spec min_len len); [rewrite list_elem_of_singleton; naive_solver|rewrite elem_of_nil; lia]. }
    rewrite E. split.
    + intros (H1 & -> & ->). split_and!; [done| |]; [eapply current_run; [done|lia|left; lia|lia]|]. destruct Hc as [[-> _]|(_ & Hs & _)]; lia.
    + intros (H1 & Hr & H2). pose proof (ir_range _ _ Hr). destruct (run_ends i start len off k Hc Hr) as [-> ->]; [lia|]. done.
  - destruct (printable i) eqn:Ep.
    + rewrite IH by (lia || by apply current_next). split; [intros (H1 & Hr & H2)|intros (H1 & Hr & H2)]; split_and!; try done; [lia|].
      destruct (Z.eq_dec (off + k) i) as [He|]; [|lia]. pose proof (ir_right _ _ Hr) as [Hx|Hx]; [lia|]. rewrite He in Hx. congruence.
    + assert (E : (off, k) ∈ (if min_len <=? len then [(start, len)] else []) ↔ min_len <= len ∧ off = start ∧ k = len).
      { destruct (Z.leb_spec min_len len); [rewrite list_elem_of_singleton; naive_solver|rewrite elem_of_nil; lia]. }
      rewrite elem_of_app, E, IH by (lia || by apply current_end). split.
      * intros [(H1 & -> & ->)|(H1 & Hr & H2)]; [|split_and!; [done|done|lia]].
        split_and!; [done| |]; [eapply current_run; [done|lia|by right|lia]|]. destruct Hc as [[-> _]|(_ & Hs & _)]; lia.
      * intros (H1 & Hr & H2). destruct (Z.eq_dec (off + k) i) as [He|]; [left|right; split_and!; [done|done|lia]].
        destruct (run_ends i start len off k Hc Hr He) as [-> ->]. done.
Qed.

(** The runs are in order and apart. *)
Lemma runs_sorted n : ∀ i start len, 0 <= i → i + Z.of_nat n = size → current i start len →
  StronglySorted (λ a b, a.1 + a.2 < b.1) (runs n i start len) ∧
  Forall (λ p, (if len =? 0 then i else start) <= p.1) (runs n i start len).
Proof.
  induction n as [|n IH]; intros i start len Hi Hn Hc; cbn [runs].
  - destruct (Z.leb_spec min_len len); [|split; constructor]. split; [repeat constructor|]. constructor; [|constructor].
    destruct (Z.eqb_spec len 0); cbn [fst]; lia.
  - destruct (printable i) eqn:Ep.
    + destruct (IH (i + 1) (if len =? 0 then i else start) (len + 1)) as [Hs Hf]; [lia|lia|by apply current_next|].
      split; [done|]. assert (Hl : len + 1 ≠ 0) by (destruct Hc as [[-> _]|[? _]]; lia).
      destruct (Z.eqb_spec (len + 1) 0); [lia|done].
    + destruct (IH (i + 1) start 0) as [Hs Hf]; [lia|lia|by apply current_end|]. cbn [Z.eqb] in Hf.
      assert (Hle : (if len =? 0 then i else start) <= i) by (destruct Hc as [[-> _]|(? & ? & _)]; cbn [Z.eqb]; [lia|destruct (len =? 0); lia]).
      destruct (Z.leb_spec min_len len); cbn [app].
      * destruct Hc as [[-> _]|(Hl & He & _)]; [lia|]. split.
        -- constructor; [done|]. eapply Forall_impl; [exact Hf|]. cbn. intros p Hp. lia.
        -- destruct (Z.eqb_spec len 0); [lia|]. constructor; [cbn; lia|]. eapply Forall_impl; [exact Hf|]. cbn. intros p Hp. lia.
      * split; [done|]. eapply Forall_impl; [exact Hf|]. cbn. intros p Hp. lia.
Qed.

Lemma rd_printable i : 0 <= i < size → ∃ c, rd data i = Some c ∧ printable i = is_printable_ascii c.
Proof. intros Hi. destruct (rd_is_Some data i) as [c Hc]; [lia|]. exists c. split; [done|]. unfold printable. by rewrite Hc. Qed.

Lemma count_strings_ok n : ∀ i start len num, 0 <= i → i + Z.of_nat n = size →
  count_strings data min_len n i len num = Some (num + Z.of_nat (List.length (runs n i start len))).
Proof.
  induction n as [|n IH]; intros i start len num Hi Hn; cbn [count_strings runs].
  - destruct (min_len <=? len); cbn [List.length]; f_equal; lia.
  - destruct (rd_printable i) as (c & -> & ->); [lia|]. cbn [mbind option_bind]. destruct (is_printable_ascii c).
    + by rewrite (IH _ (if len =? 0 then i else start)) by lia.
    + rewrite (IH _ start) by lia. rewrite length_app. destruct (min_len <=? len); cbn [List.length]; f_equal; lia.
Qed.

(** The string that is stored for a run, as the k-th. *)
Definition string_of (malloc : nat → bool) (k : nat) (p : Z * Z) : E9String :=
  if malloc k then classify_string p.1 (default [] (rdn data p.1 p.2)) else Str p.1 None p.2 false false false false false.

Lemma end_run_ok malloc num start len strs : (min_len <= len → 0 <= start ∧ start + len <= size ∧ Z.of_nat (List.length strs) < num) →
  end_run malloc data min_len num start len strs
  = Some (if min_len <=? len then string_of malloc (List.length strs) (start, len) :: strs else strs).
Proof.
  intros H. unfold end_run, string_of. destruct (Z.leb_spec min_len len) as [Hl|]; cbn [andb]; [|done]. destruct (H Hl) as (H0 & H1 & H2).
  destruct (Z.ltb_spec (Z.of_nat (List.length strs)) num); [|lia]. destruct (malloc (List.length strs)); [|done]. cbn [fst snd].
  destruct (rdn_is_Some data start len) as [v ->]; [lia|lia|lia|]. done.
Qed.

Lemma extract_strings_ok malloc num n : ∀ i start len strs, 0 <= i → i + Z.of_nat n = size → current i start len →
  Z.of_nat (List.length strs) + Z.of_nat (List.length (runs n i start len)) <= num →
  extract_strings malloc data min_len num n i start len strs
  = Some (rev (imap (λ k, string_of malloc (List.length strs + k)) (runs n i start len)) ++ strs).
Proof.
  induction n as [|n IH]; intros i start len strs Hi Hn Hc Hnum; cbn [extract_strings runs] in *.
  - rewrite end_run_ok; [destruct (min_len <=? len); cbn; by rewrite ?Nat.add_0_r|].
    intros Hl. destruct Hc as [[-> _]|(_ & ? & ? & _)]; [lia|]. rewrite (proj2 (Z.leb_le _ _) Hl) in Hnum. cbn [List.length] in Hnum. lia.
  - destruct (rd_printable i) as (c & Hrd & Hp); [lia|]. rewrite Hrd. cbn [mbind option_bind]. rewrite Hp in *. destruct (is_printable_ascii c).
    { apply IH; [lia|lia|by apply current_next|done]. }
    rewrite length_app in Hnum. rewrite end_run_ok.
    2:{ intros Hl. rewrite (proj2 (Z.leb_le _ _) Hl) in Hnum. cbn [List.length] in Hnum.
        destruct Hc as [[-> _]|(_ & ? & ? & _)]; lia. }
    cbn [mbind option_bind]. destruct (min_len <=? len); cbn [List.length app] in *.
    + rewrite IH by (lia || (by apply current_end) || (cbn [List.length]; lia)). cbn [List.length imap app rev]. rewrite Nat.add_0_r, <- app_assoc. cbn [app].
      do 3 f_equal. apply imap_ext. intros k x _. cbn. f_equal. lia.
    + by rewrite IH by (lia || by apply current_end).
Qed.

End Strings.

Definition span (s : E9String) : Z * Z := (s_offset s, s_length s).

Lemma string_of_span data malloc k p : 0 <= p.1 → 0 <= p.2 → p.1 + p.2 <= blen data → span (string_of data malloc k p) = p.
Proof.
  intros H1 H2 H3. unfold string_of. destruct p as [off len]. cbn [fst snd] in *. destruct (malloc k); [|done].
  destruct (rdn_is_Some data off len) as [v Hv]; [done..|]. rewrite Hv. cbn [default from_option id]. unfold span, classify_string. cbn.
  by rewrite (rdn_len _ _ _ _ Hv).
Qed.

(** C28: the extraction of strings reads nothing outside of the data, and what it returns are
    exactly the maximal runs of printable characters of at least the minimal length (which is
    never below 4), in order, each with its characters if memory for them can be allocated;
    the count is their number, and the array is NULL if there are none. *)
Theorem strings_exact malloc data size min_len :
  0 < size <= blen data →
  ∃ l, e9_strings_extract true malloc (Some data) size min_len
       = Some (if bool_decide (l = []) then (None, 0) else (Some l, u32 (Z.of_nat (List.length l)))) ∧
       (∀ off n, (off, n) ∈ map span l ↔ Z.max 4 min_len <= n ∧ is_run data size off n) ∧
       StronglySorted (λ a b, a.1 + a.2 < b.1) (map span l) ∧
       ∀ k s, l !! k = Some s → malloc k = true → ∃ v, rdn data (s_offset s) (s_length s) = Some v ∧ s = classify_string (s_offset s) v.
Proof.
  intros Hs. unfold e9_strings_extract. destruct (Z.eqb_spec size 0); [lia|]. cbn [negb].
  replace (if min_len <? 4 then 4 else min_len) with (Z.max 4 min_len) by (destruct (Z.ltb_spec min_len 4); lia).
  set (m := Z.max 4 min_len). assert (Hm : 0 < m) by lia.
  assert (Hc : current data 0 0 0) by (left; auto).
  assert (Hsz : 0 + Z.of_nat (Z.to_nat size) = size) by lia.
  pose proof (runs_spec data size ltac:(lia) m Hm _ 0 0 0 ltac:(lia) Hsz Hc) as Hspec.
  destruct (runs_sorted data size m Hm _ 0 0 0 ltac:(lia) Hsz Hc) as [Hsort _].
  rewrite (count_strings_ok data size ltac:(lia) m _ 0 0 0 0) by lia. cbn [mbind option_bind]. rewrite Z.add_0_l.
  pose proof (λ num, extract_strings_ok data size ltac:(lia) m Hm malloc num _ 0 0 0 [] ltac:(lia) Hsz Hc) as Hex.
  revert Hspec Hsort Hex. generalize (runs data m (Z.to_nat size) 0 0 0). intros rs Hspec Hsort Hex.
  assert (Hin : ∀ p, p ∈ rs → 0 <= p.1 ∧ 0 <= p.2 ∧ p.1 + p.2 <= blen data).
  { intros [off k] Hp. apply Hspec in Hp as (_ & Hr & _). pose proof (ir_range _ _ _ _ Hr). cbn [fst snd]. lia. }
  exists (imap (string_of data malloc) rs).
  assert (Hspan : map span (imap (string_of data malloc) rs) = rs).
  { apply list_eq. intros k. rewrite list_lookup_fmap, list_lookup_imap. destruct (rs !! k) as [p|] eqn:E; [|done]. cbn.
    f_equal. apply list_elem_of_lookup_2 in E. destruct (Hin p E) as (? & ? & ?). by apply string_of_span. }
  rewrite Hspan. split_and!.
  - destruct rs as [|p rs]; [done|]. destruct (Z.eqb_spec (Z.of_nat (List.length (p :: rs))) 0) as [E|]; [cbn in E; lia|].
    rewrite Hex by done. cbn [mbind option_bind List.length Nat.add]. rewrite app_nil_r, rev_involutive, length_rev. done.
  - intros off n'. rewrite Hspec. split; [intros (?&?&?); done|]. intros [? Hr]. split_and!; [done|done|]. pose proof (ir_range _ _ _ _ Hr). lia.
  - done.
  - intros k s Hk Hmal. rewrite list_lookup_imap in Hk. destruct (rs !! k) as [p|] eqn:E; [|done]. cbn in Hk. apply Some_inj in Hk. subst s.
    apply list_elem_of_lookup_2 in E. destruct (Hin p E) as (? & ? & ?). pose proof (string_of_span data malloc k p ltac:(done) ltac:(done) ltac:(done)) as Hsp.
    destruct (rdn_is_Some data p.1 p.2) as [v Hv]; [done..|]. exists v. unfold span in Hsp. destruct p as [off len]. injection Hsp as E1 E2. rewrite E1, E2.
    split; [done|]. unfold string_of. rewrite Hmal. cbn [fst snd] in *. by rewrite Hv.
Qed.

Lemma strings_exact_witness :
  let data := bytes_of_string "/bin/sh" ++ [0; 1] ++ bytes_of_string "abc" ++ [0] in
  0 < 13 <= blen data ∧
  ∃ l, e9_strings_extract true (λ _, true) (Some data) 13 0
       = Some (if bool_decide (l = []) then (None, 0) else (Some l, u32 (Z.of_nat (List.length l)))) ∧
       (∀ off n, (off, n) ∈ map span l ↔ Z.max 4 0 <= n ∧ is_run data 13 off n) ∧
       StronglySorted (λ a b, a.1 + a.2 < b.1) (map span l) ∧
       ∀ k s, l !! k = Some s → (λ _ : nat, true) k = true → ∃ v, rdn data (s_offset s) (s_length s) = Some v ∧ s = classify_string (s_offset s) v.
Proof.
  intros data. split; [vm_compute; split; [reflexivity|discriminate]|].
  apply strings_exact. vm_compute; split; [reflexivity|discriminate].
Defined.

(** ** The hexadecimal dump *)

Section DumpText.
Context (data : bytes) (size out_size : Z) (Hsize : size <= blen data).

Fixpoint bytes_text (n : nat) (i j : Z) : string :=
  match n with
  | O => EmptyString
  | S n => String.append (if i + j <? size then hex_pad 2 (default 0 (rd data (i + j))) " " else "   "%string)
             (String.append (if j =? 7 then " "%string else EmptyString) (bytes_text n i (j + 1)))
  end.

Fixpoint ascii_text (n : nat) (i j : Z) : string :=
  match n with
  | O => EmptyString
  | S n => if i + j <? size then String (ascii_of (default 0 (rd data (i + j)))) (ascii_text n i (j + 1)) else EmptyString
  end.

Definition line_text (base i : Z) : string :=
  String.append (String.append (hex8 (u64 (base + i))) "  ")
    (String.append (bytes_text 16 i 0) (String.append " |" (String.append (ascii_text 16 i 0) (String "|" (String "010" EmptyString))))).

Lemma dump_bytes_prints n : ∀ i j, 0 <= i + j → prints out_size (dump_bytes data size out_size n i j) (bytes_text n i j).
Proof.
  induction n as [|n IH]; intros i j Hij; cbn [dump_bytes bytes_text]; [apply prints_skip|].
  apply prints_seq.
  - destruct (Z.ltb_spec (i + j) size); [|apply prints_put]. destruct (rd_is_Some data (i + j)) as [b ->]; [lia|]. apply prints_put.
  - apply prints_seq; [destruct (j =? 7); [apply prints_put|apply prints_skip]|]. apply IH. lia.
Qed.

Lemma dump_ascii_prints n : ∀ i j, 0 <= i + j → prints out_size (dump_ascii data size out_size n i j) (ascii_text n i j).
Proof.
  induction n as [|n IH]; intros i j Hij; cbn [dump_ascii ascii_text]; [apply prints_skip|].
  destruct (Z.ltb_spec (i + j) size); [|apply prints_skip]. destruct (rd_is_Some data (i + j)) as [b ->]; [lia|].
  cbn [mbind option_bind default from_option id].
  change (String (ascii_of b) (ascii_text n i (j + 1))) with (String.append (String (ascii_of b) EmptyString) (ascii_text n i (j + 1))).
  apply prints_seq; [apply prints_put|]. apply IH. lia.
Qed.

Lemma dump_line_prints base i : 0 <= i → prints out_size (dump_line data size out_size base i) (line_text base i).
Proof.
  intros Hi. unfold dump_line, line_text. apply prints_seq; [apply prints_put|]. apply prints_seq; [by apply dump_bytes_prints; lia|].
  apply prints_seq; [apply prints_put|]. apply prints_seq; [by apply dump_ascii_prints; lia|]. apply prints_put.
Qed.

Lemma slen_bytes_text n i j : slen (bytes_text n i j) = 3 * Z.of_nat n + (if (j <=? 7) && (7 <? j + Z.of_nat n) then 1 else 0).
Proof.
  revert j. induction n as [|n IH]; intros j; cbn [bytes_text].
  - destruct (Z.leb_spec j 7), (Z.ltb_spec 7 (j + Z.of_nat 0)); cbn [andb]; try lia; done.
  - rewrite !slen_append, IH.
    assert (E : slen (if i + j <? size then hex_pad 2 (default 0 (rd data (i + j))) " " else "   "%string) = 3).
    { destruct (i + j <? size); [by rewrite slen_hex_pad|done]. }
    rewrite E. destruct (Z.eqb_spec j 7); [change (slen " ") with 1|change (slen EmptyString) with 0];
    destruct (Z.leb_spec j 7), (Z.leb_spec (j + 1) 7), (Z.ltb_spec 7 (j + Z.of_nat (S n))), (Z.ltb_spec 7 (j + 1 + Z.of_nat n)); cbn [andb]; lia.
Qed.

Lemma slen_ascii_text n i j : slen (ascii_text n i j) <= Z.of_nat n.
Proof.
  revert j. induction n as [|n IH]; intros j; cbn [ascii_text]; [done|]. destruct (i + j <? size); [|change (slen EmptyString) with 0; lia].
  rewrite slen_cons. specialize (IH (j + 1)). lia.
Qed.

Lemma slen_hex8 z : 0 <= z < 2 ^ 32 → slen (hex8 z) = 8.
Proof. intros Hz. unfold hex8. destruct (Z.ltb_spec z (16 ^ 8)); [by rewrite slen_hex_pad|lia]. Qed.

Lemma slen_line_text base i : 0 <= base + i < 2 ^ 32 → slen (line_text base i) <= 79.
Proof.
  intros Hb. unfold line_text. rewrite !slen_append, slen_bytes_text, wrapu_small by lia. rewrite slen_hex8 by done.
  pose proof (slen_ascii_text 16 i 0). change (slen "  ") with 2. change (slen " |") with 2. change (slen (String "|" (String "010" EmptyString))) with 2.
  change ((0 <=? 7) && (7 <? 0 + Z.of_nat 16)) with true. cbn iota. lia.
Qed.

(** The lines from [i] on, [k] of them. *)
Fixpoint lines_text (base : Z) (k : nat) (i : Z) : string :=
  match k with O => EmptyString | S k => String.append (line_text base i) (lines_text base k (i + 16)) end.

Lemma dump_lines_ok base n : ∀ i c, 0 <= i → 0 <= base → base + size <= 2 ^ 32 → size - i <= Z.of_nat n → cur_pos c <= out_size - 1 →
  ∃ k, dump_lines data size out_size n base i c = Some (cat c (lines_text base k i)) ∧
       cur_pos c + slen (lines_text base k i) <= out_size - 1 ∧
       (size <= i + 16 * Z.of_nat k ∨ out_size - 81 <= cur_pos c + slen (lines_text base k i)).
Proof.
  induction n as [|n IH]; intros i c Hi Hb Hbs Hn Hc; cbn [dump_lines].
  all: destruct (Z.ltb_spec i size), (Z.ltb_spec (cur_pos c) (out_size - 1 - 80)); cbn [andb];
    try (exists 0%nat; cbn [lines_text]; change (slen EmptyString) with 0; rewrite cat_nil; split; [done|lia]).
  - lia.
  - pose proof (slen_line_text base i ltac:(lia)). rewrite (dump_line_prints base i Hi) by lia. cbn [mbind option_bind].
    destruct (IH (i + 16) (cat c (line_text base i))) as (k & -> & Hk & Hend); [lia|done|done|lia|cbn [cat cur_pos]; lia|].
    exists (S k). cbn [lines_text cat cur_pos] in *. rewrite slen_append. split; [by rewrite cat_cat|]. lia.
Qed.

End DumpText.

(** Below 4 GiB the dump never writes past its buffer and holds whole lines: all of them,
    unless the buffer has fewer than 81 characters left. *)
Lemma hexdump_lines data size base out_size : 0 <= size <= blen data → 0 <= base → base + size <= 2 ^ 32 → 0 < out_size →
  ∃ k, e9_hexdump (Some data) size base out_size = Some (Some (lines_text data size base k 0)) ∧
       slen (lines_text data size base k 0) < out_size ∧
       (size <= 16 * Z.of_nat k ∨ out_size - 81 <= slen (lines_text data size base k 0)).
Proof.
  intros Hs Hb Hbs Ho. unfold e9_hexdump. destruct (Z.eqb_spec out_size 0); [lia|].
  destruct (dump_lines_ok data size out_size ltac:(lia) base (Z.to_nat size) 0 (Cursor 0 EmptyString)) as (k & -> & Hk & Hend);
    [lia|done|done|lia|cbn; lia|].
  cbn [cur_pos] in *. exists k. cbn [mbind option_bind]. unfold finish. cbn [cat cur_pos cur_out].
  destruct (Z.ltb_spec (0 + slen (lines_text data size base k 0)) out_size); [|lia]. split_and!; [done|lia|lia].
Qed.

(** Above, a line has up to 87 characters, more than the room that is tested for. *)
Lemma hexdump_overflows : e9_hexdump (Some (replicate 16 0)) 16 (2 ^ 60) 82 = None.
Proof. vm_compute. reflexivity. Qed.

(** The report tests for no room at all. *)
Lemma info_print_overflows : e9_info_print (Some zero_info) 64 = None.
Proof. vm_compute. reflexivity. Qed.

(** ** Digests *)

Definition hex_value (c : ascii) : Z :=
  let n := Z.of_N (N_of_ascii c) in if n <? 0x3A then n - 0x30 else n - 0x61 + 10.

Fixpoint hex_decode (s : string) : bytes :=
  match s with
  | String hi (String lo s) => (16 * hex_value hi + hex_value lo) :: hex_decode s
  | _ => []
  end.

Lemma hex_char_value d : 0 <= d < 16 → ∃ c, String.get (Z.to_nat d) hex_chars = Some c ∧ hex_value c = d.
Proof.
  intros Hd. assert (H : Forall (λ n, ∃ c, String.get n hex_chars = Some c ∧ hex_value c = Z.of_nat n) (seq 0 16)).
  { repeat constructor; eexists; (split; [reflexivity|vm_compute; reflexivity]). }
  rewrite Forall_forall in H. destruct (H (Z.to_nat d)) as (c & Hc & Hv); [apply elem_of_seq; lia|]. exists c. split; [done|]. lia.
Qed.

(** The text of a digest can be read back. *)
Lemma hash_hex_roundtrip hash : bytes_ok hash → ∀ n i, 0 <= i → i + Z.of_nat n <= blen hash →
  ∃ s, e9_hash_to_hex hash n i = Some s ∧ hex_decode s = take n (drop (Z.to_nat i) hash).
Proof.
  intros Hh. induction n as [|n IH]; intros i Hi Hn; cbn [e9_hash_to_hex]; [by eexists|].
  destruct (rd_is_Some hash i) as [b Hb]; [lia|]. pose proof (rd_byte _ _ _ Hh Hb) as Hok. unfold byte_ok in Hok.
  rewrite Hb. cbn [mbind option_bind]. rewrite Z.shiftr_div_pow2 by lia. change 0x0F with (Z.ones 4). rewrite Z.land_ones by lia. change (2 ^ 4) with 16.
  destruct (hex_char_value (b / 16)) as (hi & -> & Ehi); [split; [apply Z.div_pos; lia|apply Z.div_lt_upper_bound; lia]|].
  destruct (hex_char_value (b mod 16)) as (lo & -> & Elo); [apply Z.mod_pos_bound; lia|]. cbn [mbind option_bind].
  destruct (IH (i + 1)) as (s & -> & Es); [lia|lia|]. eexists. split; [done|]. cbn [hex_decode]. rewrite Es, Ehi, Elo.
  unfold rd in Hb. destruct (0 <=? i); [|done]. rewrite (drop_S hash b (Z.to_nat i)) by done. cbn [take].
  rewrite <- Z.div_mod by lia. do 3 f_equal. lia.
Qed.

(** ** Disassembly *)

(** An instruction of at most 15 bytes is copied whole. *)
Lemma disasm_one_x86_ok a ctx code size addr insn : bytes_ok code → 0 < size <= blen code → size <= 15 →
  ∃ n x i, X86.e9_x86_disasm_one (Some ctx) (Some code) size addr (Some X86.zero_insn) = Some (n, Some x) ∧ 1 <= n <= size ∧
           e9_disasm_one (Some (D_x86 a (Some ctx))) (Some code) size addr (Some insn) = Some (n, Some i) ∧
           address i = addr ∧ length i = n ∧ take (Z.to_nat n) (ibytes i) = take (Z.to_nat n) (X86.ibytes x) ∧
           is_branch i = X86.is_branch x ∧ branch_target i = X86.branch_target x.
Proof.
  intros Hc Hs H15. pose proof (X86.disasm_one_safe ctx code size addr X86.zero_insn Hc Hs) as H.
  apply safely_Some in H as ([n oi] & E & x & Hx & [Hn Ha Hl Hb _]). cbn [fst snd] in *. subst oi.
  exists n, x. unfold e9_disasm_one. rewrite E. cbn [mbind option_bind]. destruct (Z.leb_spec n 0); [lia|].
  rewrite wrapu_small in Hl by lia. unfold of_x86. rewrite Hl.
  destruct (rdn_is_Some (X86.ibytes x) 0 n) as [raw Hraw]; [lia|lia|unfold blen; rewrite Hb; lia|]. rewrite Hraw. cbn [mbind option_bind].
  pose proof (rdn_len _ _ _ _ Hraw) as Hlen. destruct (wrn_is_Some (replicate 16 0) 0 raw) as [bs Hbs]; [lia|unfold blen in *; rewrite length_replicate; lia|].
  rewrite Hbs. cbn [mbind option_bind]. eexists. split; [done|]. split; [done|]. split; [done|]. cbn. split_and!; try done.
  apply rdn_wrn_same in Hbs. rewrite Hlen in Hbs.
  apply rdn_Some in Hraw as (_ & _ & _ & ->). apply rdn_Some in Hbs as (_ & _ & _ & Hbs). rewrite !drop_0 in Hbs. by rewrite <- Hbs.
Qed.

(** Longer ones, which the decoder gives for a row of prefixes, are copied past both arrays. *)
Lemma disasm_one_overruns :
  e9_disasm_one (Some (D_x86 E9_ARCH_X86_64 (Some (X86.Ctx 64)))) (Some (replicate 16 0x66 ++ [0x90])) 17 0 (Some zero_instruction) = None.
Proof. vm_compute. reflexivity. Qed.

(** The AArch64 sweep through the unified interface never fails. *)
Lemma disasm_one_a64_ok code size addr insn : 4 <= size → 4 <= blen code → 0 <= addr < 2 ^ 64 →
  ∃ x i, e9_disasm_one (Some (D_a64 (Some A64.Ctx))) (Some code) size addr (Some insn) = Some (4, Some i) ∧
         A64.decoded_at code addr 0 x ∧ address i = addr ∧ text i = A64.render x ∧ is_branch i = A64.is_branch x.
Proof.
  intros Hs Hc Ha. destruct (A64.disasm_one_at code size addr 0 A64.zero_insn) as (x & E & Hx); [lia|done|lia|].
  rewrite Z.add_0_r, wrapu_small in E by done. unfold e9_disasm_one.
  assert (E0 : at_off code 0 = code) by apply drop_0. rewrite E0 in E. rewrite E. cbn [mbind option_bind]. change (negb (4 =? 4)) with false. cbn iota.
  unfold of_a64. destruct (wrn_is_Some (replicate 16 0) 0 (le_bytes 4 (A64.encoding x))) as [bs ->]; [lia|unfold blen; rewrite le_bytes_len; cbn; lia|].
  cbn [mbind option_bind]. exists x. eexists. split; [done|]. split; [done|]. destruct Hx as [Hax _ _ _ _ Ht Hr]. cbn. split_and!; [|unfold E9_STRCPY_SAFE; rewrite clip_all by lia; done|done].
  by rewrite Hax, Z.add_0_r, wrapu_small.
Qed.

(** ** Identification *)

(** A sum of a 32-bit offset that wraps makes the read of the PE signature leave the data. *)
Lemma identify_pe_wraps :
  identify_header ([0x4D; 0x5A] ++ replicate 58 0 ++ [0xFA; 0xFF; 0xFF; 0xFF]) 64 = None.
Proof. vm_compute. reflexivity. Qed.

Lemma elf_half_safe data le off : bytes_ok data → 0 <= off → off + 2 <= blen data → safely (elf_half data le off) (λ _, True).
Proof. intros Hd H0 H1. unfold elf_half. repeat ub_step. done. Qed.

Lemma memeq_total l off pat : 0 <= off → off + blen pat <= blen l → safely (memeq l off pat) (λ b, b = true → rdn l off (blen pat) = Some pat).
Proof.
  intros Ho Hl. pose proof (blen_nonneg pat). unfold memeq. destruct (rdn_is_Some l off (blen pat)) as [x Hx]; [done|done|done|].
  rewrite Hx. cbn [mbind option_bind safely]. by intros ->%bool_decide_eq_true.
Qed.

(** A test of magic bytes behind a test of the size. *)
Lemma magic_safe data size n off pat : size <= blen data → 0 <= off → off + blen pat <= n →
  safely (if n <=? size then memeq data off pat else Some false) (λ _, True).
Proof. intros Hs Ho Hn. destruct (Z.leb_spec n size); [|done]. eapply safely_mono; [apply memeq_total; lia|done]. Qed.

Lemma identify_elf_safe data size : bytes_ok data → 52 <= size <= blen data → safely (identify_elf data size) (λ _, True).
Proof.
  intros Hd Hs. unfold identify_elf. do 2 (ub_step; ub_step). ub_step. ub_call elf_half_safe. intros t _.
  ub_step. ub_call elf_half_safe. intros m _. ub_step. apply (safely_mono _ (λ _, True)); [|done].
  repeat ub_step; try done; (eapply safely_mono; [apply safely_rd64 || apply safely_rd32; (done || lia)|done]).
Qed.

Lemma identify_pe_safe data size : bytes_ok data → 64 <= size <= blen data →
  (∀ off, rd32 data 60 = Some off → off < 2 ^ 32 - 6) → safely (identify_pe data size) (λ _, True).
Proof.
  intros Hd Hs Hw. unfold identify_pe. pose proof (safely_rd32 data 60 Hd ltac:(lia) ltac:(lia)) as Hr. apply safely_Some in Hr as (off & E & Hoff).
  specialize (Hw off E). rewrite E. cbn [mbind option_bind]. rewrite !wrapu_small by lia.
  destruct (Z.leb_spec (off + 6) size); [|by cbn]. ub_step. eapply safely_mono; [apply memeq_total; [lia|change (blen (_ ++ _)) with 4; lia]|]. intros b _. ub_step; [|done].
  ub_step. ub_call safely_rd16. intros m _. by repeat ub_step.
Qed.

(** Without such a sum the identification reads only the data, whatever the file is. *)
Lemma identify_header_safe data size : bytes_ok data → 4 <= size <= blen data →
  (64 <= size → ∀ off, rd32 data 60 = Some off → off < 2 ^ 32 - 6) → safely (identify_header data size) (λ _, True).
Proof.
  intros Hd Hs Hw. unfold identify_header. ub_step. destruct (Z.leb_spec 52 size).
  - eapply safely_mono; [apply memeq_total; [lia|change (blen (_ ++ _)) with 4; lia]|]. intros elf _. ub_step; [apply identify_elf_safe; [done|lia]|].
    ub_step. destruct (Z.leb_spec 64 size); cbn [safely].
    + do 2 (ub_step; ub_step). ub_step. ub_step.
      * ub_step. ub_call magic_safe. intros ape _. ub_step; [done|]. apply identify_pe_safe; [done|lia|by apply Hw].
      * ub_step; [|done]. unfold identify_macho. ub_step. ub_call safely_rd32. done.
    + ub_step; [|done]. unfold identify_macho. ub_step. ub_call safely_rd32. done.
  - cbn [safely]. ub_step. destruct (Z.leb_spec 64 size); [lia|]. cbn [safely]. ub_step; [|done]. unfold identify_macho. ub_step. ub_call safely_rd32. done.
Qed.

Lemma identify_wasm_safe data size i : size <= blen data → safely (identify_wasm data size i) (λ _, True).
Proof. intros Hs. unfold identify_wasm. ub_step. ub_call magic_safe. intros wasm _. done. Qed.

(** Identifying any data of at least 4 bytes returns a result and reads nothing outside of
    the data, unless a PE header offset makes a 32-bit sum wrap; its signatures are those of
    the reference of the scanner, if the array of matches can grow. *)
Theorem identify_safe alloc_sig re data size :
  (∀ k, alloc_sig k = true) → (∀ k, re k = true) → bytes_ok data → 4 <= size <= blen data → size < 2 ^ 63 →
  (64 <= size → ∀ off, rd32 data 60 = Some off → off < 2 ^ 32 - 6) →
  ∃ i, e9_identify true alloc_sig true re (Some data) size = Some (Some i) ∧
       signatures i = Some (Sig.reference data size) ∧
       num_signatures i = u32 (Z.of_nat (List.length (Sig.reference data size))).
Proof.
  intros Ha Hre Hd Hs Hm Hw. unfold e9_identify. destruct (Z.ltb_spec size 4); [lia|]. cbn [negb].
  pose proof (identify_header_safe data size Hd Hs Hw) as H1. apply safely_Some in H1 as (i1 & -> & _). cbn [mbind option_bind].
  pose proof (identify_wasm_safe data size i1 ltac:(lia)) as H2. apply safely_Some in H2 as (i2 & -> & _). cbn [mbind option_bind].
  destruct (Sig.create_built alloc_sig Ha) as (s & -> & Hb). cbn [mbind option_bind].
  destruct (Sig.loops_exact re data size ltac:(lia) Hm s Hd Hb) as (r & Er & _ & Hr).
  rewrite (Sig.scan_result re data size ltac:(lia) s r Hb Er). rewrite (Hr Hre). cbn [mbind option_bind].
  generalize (Sig.reference data size). intros l. destruct (1 <? u32 (Z.of_nat (List.length l))); cbn [mbind option_bind];
    (eexists; split; [reflexivity|]); cbn [format]; by destruct (format i2).
Qed.

Lemma identify_safe_witness :
  let data := [0x4D; 0x5A; 0x7F; 0x45; 0x4C; 0x46] in
  4 <= 6 <= blen data ∧
  ∃ i, e9_identify true (λ _, true) true (λ _, true) (Some data) 6 = Some (Some i) ∧
       signatures i = Some (Sig.reference data 6) ∧
       num_signatures i = u32 (Z.of_nat (List.length (Sig.reference data 6))).
Proof.
  intros data. split; [vm_compute; split; discriminate|].
  apply identify_safe; [done|done|by repeat constructor|vm_compute; split; discriminate|lia|lia].
Defined.

End Vendor.
