(* ===== verification/Binary.v ===== *)
(** * Binary: the analysed binary and its instruction decoders

    Models the E9Binary context of src/src/e9patch/analysis/e9analysis.h and, from
    e9analysis.c, the address translation, the x86-64 length decoder, the two
    instruction decoders and the disassembly calls built on them. *)

From S2P Require Import Prelude.

Module Bin.

(** ** Types (e9analysis.h) *)

Inductive E9Arch := E9_ARCH_UNKNOWN | E9_ARCH_X86_64 | E9_ARCH_AARCH64 | E9_ARCH_RISCV64.

Inductive E9Format :=
| E9_FORMAT_UNKNOWN | E9_FORMAT_ELF | E9_FORMAT_PE | E9_FORMAT_MACHO | E9_FORMAT_APE
| E9_FORMAT_RAW.

Inductive E9InsnCategory :=
| E9_INSN_OTHER | E9_INSN_CALL | E9_INSN_JUMP | E9_INSN_COND_JUMP | E9_INSN_RET
| E9_INSN_SYSCALL | E9_INSN_NOP | E9_INSN_PUSH | E9_INSN_POP | E9_INSN_MOV | E9_INSN_LEA
| E9_INSN_ARITHMETIC | E9_INSN_COMPARE | E9_INSN_SHIFT | E9_INSN_LOGICAL | E9_INSN_LOAD
| E9_INSN_STORE | E9_INSN_SIMD.

#[export] Instance E9Arch_eq_dec : EqDecision E9Arch.
Proof. solve_decision. Defined.

#[export] Instance E9Format_eq_dec : EqDecision E9Format.
Proof. solve_decision. Defined.

#[export] Instance E9InsnCategory_eq_dec : EqDecision E9InsnCategory.
Proof. solve_decision. Defined.

(** A section of the table [bin->sections]. *)
Record E9Section := Section_ {
  sec_addr : Z; sec_size : Z; sec_flags : Z; sec_name : string }.

(** The layout of an Actually Portable Executable, [bin->ape]. *)
Record E9ApeLayout := ApeLayout {
  shell_offset : Z; shell_size : Z; elf_offset : Z; elf_size : Z; pe_offset : Z;
  pe_size : Z; macho_offset : Z; macho_size : Z; zipos_start : Z; zipos_central_dir :
  Z; zipos_end : Z; zipos_num_entries : Z }.

Definition zero_ape : E9ApeLayout := ApeLayout 0 0 0 0 0 0 0 0 0 0 0 0.

(** The analysis context.  [bin_data] is the object the [data] pointer points
    into, from the pointer on; [sections] is the table up to [num_sections]. *)
Record E9Binary := Binary {
  bin_data : bytes; bin_size : Z; base_address : Z; arch : E9Arch; format : E9Format;
  is_pie : bool; has_debug_info : bool; entry_point : Z; sections : list E9Section;
  ape : E9ApeLayout }.

(** A decoded instruction; the links [next] and [block] are not kept, a chain
    of instructions is a list. *)
Record E9Instruction := Instruction {
  insn_address : Z; insn_size : Z; insn_bytes : bytes; insn_category : E9InsnCategory;
  insn_mnemonic : string; insn_operands : string; insn_target : Z;
  insn_target_is_indirect : bool; insn_is_conditional : bool; insn_regs_read : Z;
  insn_regs_written : Z; insn_reads_memory : bool; insn_writes_memory : bool;
  insn_mem_displacement : Z }.

Definition zero_instruction : E9Instruction :=
  Instruction 0 0 (replicate 16 0) E9_INSN_OTHER "" "" 0 false false 0 0 false false 0.

(** Assignments to one field. *)
Definition set_insn_address (v : Z) (i : E9Instruction) : E9Instruction :=
  {| insn_address := v; insn_size := insn_size i; insn_bytes := insn_bytes i;
  insn_category := insn_category i; insn_mnemonic := insn_mnemonic i; insn_operands :=
  insn_operands i; insn_target := insn_target i; insn_target_is_indirect :=
  insn_target_is_indirect i; insn_is_conditional := insn_is_conditional i; insn_regs_read
  := insn_regs_read i; insn_regs_written := insn_regs_written i; insn_reads_memory :=
  insn_reads_memory i; insn_writes_memory := insn_writes_memory i; insn_mem_displacement
  := insn_mem_displacement i |}.

Definition set_insn_size (v : Z) (i : E9Instruction) : E9Instruction :=
  {| insn_address := insn_address i; insn_size := v; insn_bytes := insn_bytes i;
  insn_category := insn_category i; insn_mnemonic := insn_mnemonic i; insn_operands :=
  insn_operands i; insn_target := insn_target i; insn_target_is_indirect :=
  insn_target_is_indirect i; insn_is_conditional := insn_is_conditional i; insn_regs_read
  := insn_regs_read i; insn_regs_written := insn_regs_written i; insn_reads_memory :=
  insn_reads_memory i; insn_writes_memory := insn_writes_memory i; insn_mem_displacement
  := insn_mem_displacement i |}.

Definition set_insn_bytes (v : bytes) (i : E9Instruction) : E9Instruction :=
  {| insn_address := insn_address i; insn_size := insn_size i; insn_bytes := v;
  insn_category := insn_category i; insn_mnemonic := insn_mnemonic i; insn_operands :=
  insn_operands i; insn_target := insn_target i; insn_target_is_indirect :=
  insn_target_is_indirect i; insn_is_conditional := insn_is_conditional i; insn_regs_read
  := insn_regs_read i; insn_regs_written := insn_regs_written i; insn_reads_memory :=
  insn_reads_memory i; insn_writes_memory := insn_writes_memory i; insn_mem_displacement
  := insn_mem_displacement i |}.

Definition set_insn_category (v : E9InsnCategory) (i : E9Instruction) : E9Instruction :=
  {| insn_address := insn_address i; insn_size := insn_size i; insn_bytes := insn_bytes i;
  insn_category := v; insn_mnemonic := insn_mnemonic i; insn_operands := insn_operands i;
  insn_target := insn_target i; insn_target_is_indirect := insn_target_is_indirect i;
  insn_is_conditional := insn_is_conditional i; insn_regs_read := insn_regs_read i;
  insn_regs_written := insn_regs_written i; insn_reads_memory := insn_reads_memory i;
  insn_writes_memory := insn_writes_memory i; insn_mem_displacement :=
  insn_mem_displacement i |}.

Definition set_insn_mnemonic (v : string) (i : E9Instruction) : E9Instruction :=
  {| insn_address := insn_address i; insn_size := insn_size i; insn_bytes := insn_bytes i;
  insn_category := insn_category i; insn_mnemonic := v; insn_operands := insn_operands i;
  insn_target := insn_target i; insn_target_is_indirect := insn_target_is_indirect i;
  insn_is_conditional := insn_is_conditional i; insn_regs_read := insn_regs_read i;
  insn_regs_written := insn_regs_written i; insn_reads_memory := insn_reads_memory i;
  insn_writes_memory := insn_writes_memory i; insn_mem_displacement :=
  insn_mem_displacement i |}.

Definition set_insn_operands (v : string) (i : E9Instruction) : E9Instruction :=
  {| insn_address := insn_address i; insn_size := insn_size i; insn_bytes := insn_bytes i;
  insn_category := insn_category i; insn_mnemonic := insn_mnemonic i; insn_operands := v;
  insn_target := insn_target i; insn_target_is_indirect := insn_target_is_indirect i;
  insn_is_conditional := insn_is_conditional i; insn_regs_read := insn_regs_read i;
  insn_regs_written := insn_regs_written i; insn_reads_memory := insn_reads_memory i;
  insn_writes_memory := insn_writes_memory i; insn_mem_displacement :=
  insn_mem_displacement i |}.

Definition set_insn_target (v : Z) (i : E9Instruction) : E9Instruction :=
  {| insn_address := insn_address i; insn_size := insn_size i; insn_bytes := insn_bytes i;
  insn_category := insn_category i; insn_mnemonic := insn_mnemonic i; insn_operands :=
  insn_operands i; insn_target := v; insn_target_is_indirect := insn_target_is_indirect i;
  insn_is_conditional := insn_is_conditional i; insn_regs_read := insn_regs_read i;
  insn_regs_written := insn_regs_written i; insn_reads_memory := insn_reads_memory i;
  insn_writes_memory := insn_writes_memory i; insn_mem_displacement :=
  insn_mem_displacement i |}.

Definition set_insn_is_conditional (v : bool) (i : E9Instruction) : E9Instruction :=
  {| insn_address := insn_address i; insn_size := insn_size i; insn_bytes := insn_bytes i;
  insn_category := insn_category i; insn_mnemonic := insn_mnemonic i; insn_operands :=
  insn_operands i; insn_target := insn_target i; insn_target_is_indirect :=
  insn_target_is_indirect i; insn_is_conditional := v; insn_regs_read := insn_regs_read i;
  insn_regs_written := insn_regs_written i; insn_reads_memory := insn_reads_memory i;
  insn_writes_memory := insn_writes_memory i; insn_mem_displacement :=
  insn_mem_displacement i |}.

Definition set_insn_reads_memory (v : bool) (i : E9Instruction) : E9Instruction :=
  {| insn_address := insn_address i; insn_size := insn_size i; insn_bytes := insn_bytes i;
  insn_category := insn_category i; insn_mnemonic := insn_mnemonic i; insn_operands :=
  insn_operands i; insn_target := insn_target i; insn_target_is_indirect :=
  insn_target_is_indirect i; insn_is_conditional := insn_is_conditional i; insn_regs_read
  := insn_regs_read i; insn_regs_written := insn_regs_written i; insn_reads_memory := v;
  insn_writes_memory := insn_writes_memory i; insn_mem_displacement :=
  insn_mem_displacement i |}.

Definition set_insn_writes_memory (v : bool) (i : E9Instruction) : E9Instruction :=
  {| insn_address := insn_address i; insn_size := insn_size i; insn_bytes := insn_bytes i;
  insn_category := insn_category i; insn_mnemonic := insn_mnemonic i; insn_operands :=
  insn_operands i; insn_target := insn_target i; insn_target_is_indirect :=
  insn_target_is_indirect i; insn_is_conditional := insn_is_conditional i; insn_regs_read
  := insn_regs_read i; insn_regs_written := insn_regs_written i; insn_reads_memory :=
  insn_reads_memory i; insn_writes_memory := v; insn_mem_displacement :=
  insn_mem_displacement i |}.

Definition set_base_address (v : Z) (b : E9Binary) : E9Binary :=
  {| bin_data := bin_data b; bin_size := bin_size b; base_address := v; arch := arch b;
  format := format b; is_pie := is_pie b; has_debug_info := has_debug_info b; entry_point
  := entry_point b; sections := sections b; ape := ape b |}.

Definition set_arch (v : E9Arch) (b : E9Binary) : E9Binary :=
  {| bin_data := bin_data b; bin_size := bin_size b; base_address := base_address b; arch
  := v; format := format b; is_pie := is_pie b; has_debug_info := has_debug_info b;
  entry_point := entry_point b; sections := sections b; ape := ape b |}.

Definition set_format (v : E9Format) (b : E9Binary) : E9Binary :=
  {| bin_data := bin_data b; bin_size := bin_size b; base_address := base_address b; arch
  := arch b; format := v; is_pie := is_pie b; has_debug_info := has_debug_info b;
  entry_point := entry_point b; sections := sections b; ape := ape b |}.

Definition set_is_pie (v : bool) (b : E9Binary) : E9Binary :=
  {| bin_data := bin_data b; bin_size := bin_size b; base_address := base_address b; arch
  := arch b; format := format b; is_pie := v; has_debug_info := has_debug_info b;
  entry_point := entry_point b; sections := sections b; ape := ape b |}.

Definition set_has_debug_info (v : bool) (b : E9Binary) : E9Binary :=
  {| bin_data := bin_data b; bin_size := bin_size b; base_address := base_address b; arch
  := arch b; format := format b; is_pie := is_pie b; has_debug_info := v; entry_point :=
  entry_point b; sections := sections b; ape := ape b |}.

Definition set_entry_point (v : Z) (b : E9Binary) : E9Binary :=
  {| bin_data := bin_data b; bin_size := bin_size b; base_address := base_address b; arch
  := arch b; format := format b; is_pie := is_pie b; has_debug_info := has_debug_info b;
  entry_point := v; sections := sections b; ape := ape b |}.

Definition set_sections (v : list E9Section) (b : E9Binary) : E9Binary :=
  {| bin_data := bin_data b; bin_size := bin_size b; base_address := base_address b; arch
  := arch b; format := format b; is_pie := is_pie b; has_debug_info := has_debug_info b;
  entry_point := entry_point b; sections := v; ape := ape b |}.

Definition set_ape (v : E9ApeLayout) (b : E9Binary) : E9Binary :=
  {| bin_data := bin_data b; bin_size := bin_size b; base_address := base_address b; arch
  := arch b; format := format b; is_pie := is_pie b; has_debug_info := has_debug_info b;
  entry_point := entry_point b; sections := sections b; ape := v |}.

Definition set_shell_offset (v : Z) (a : E9ApeLayout) : E9ApeLayout :=
  {| shell_offset := v; shell_size := shell_size a; elf_offset := elf_offset a; elf_size
  := elf_size a; pe_offset := pe_offset a; pe_size := pe_size a; macho_offset :=
  macho_offset a; macho_size := macho_size a; zipos_start := zipos_start a;
  zipos_central_dir := zipos_central_dir a; zipos_end := zipos_end a; zipos_num_entries :=
  zipos_num_entries a |}.

Definition set_shell_size (v : Z) (a : E9ApeLayout) : E9ApeLayout :=
  {| shell_offset := shell_offset a; shell_size := v; elf_offset := elf_offset a; elf_size
  := elf_size a; pe_offset := pe_offset a; pe_size := pe_size a; macho_offset :=
  macho_offset a; macho_size := macho_size a; zipos_start := zipos_start a;
  zipos_central_dir := zipos_central_dir a; zipos_end := zipos_end a; zipos_num_entries :=
  zipos_num_entries a |}.

Definition set_elf_offset (v : Z) (a : E9ApeLayout) : E9ApeLayout :=
  {| shell_offset := shell_offset a; shell_size := shell_size a; elf_offset := v; elf_size
  := elf_size a; pe_offset := pe_offset a; pe_size := pe_size a; macho_offset :=
  macho_offset a; macho_size := macho_size a; zipos_start := zipos_start a;
  zipos_central_dir := zipos_central_dir a; zipos_end := zipos_end a; zipos_num_entries :=
  zipos_num_entries a |}.

Definition set_elf_size (v : Z) (a : E9ApeLayout) : E9ApeLayout :=
  {| shell_offset := shell_offset a; shell_size := shell_size a; elf_offset := elf_offset
  a; elf_size := v; pe_offset := pe_offset a; pe_size := pe_size a; macho_offset :=
  macho_offset a; macho_size := macho_size a; zipos_start := zipos_start a;
  zipos_central_dir := zipos_central_dir a; zipos_end := zipos_end a; zipos_num_entries :=
  zipos_num_entries a |}.

Definition set_pe_offset (v : Z) (a : E9ApeLayout) : E9ApeLayout :=
  {| shell_offset := shell_offset a; shell_size := shell_size a; elf_offset := elf_offset
  a; elf_size := elf_size a; pe_offset := v; pe_size := pe_size a; macho_offset :=
  macho_offset a; macho_size := macho_size a; zipos_start := zipos_start a;
  zipos_central_dir := zipos_central_dir a; zipos_end := zipos_end a; zipos_num_entries :=
  zipos_num_entries a |}.

Definition set_pe_size (v : Z) (a : E9ApeLayout) : E9ApeLayout :=
  {| shell_offset := shell_offset a; shell_size := shell_size a; elf_offset := elf_offset
  a; elf_size := elf_size a; pe_offset := pe_offset a; pe_size := v; macho_offset :=
  macho_offset a; macho_size := macho_size a; zipos_start := zipos_start a;
  zipos_central_dir := zipos_central_dir a; zipos_end := zipos_end a; zipos_num_entries :=
  zipos_num_entries a |}.

Definition set_macho_offset (v : Z) (a : E9ApeLayout) : E9ApeLayout :=
  {| shell_offset := shell_offset a; shell_size := shell_size a; elf_offset := elf_offset
  a; elf_size := elf_size a; pe_offset := pe_offset a; pe_size := pe_size a; macho_offset
  := v; macho_size := macho_size a; zipos_start := zipos_start a; zipos_central_dir :=
  zipos_central_dir a; zipos_end := zipos_end a; zipos_num_entries := zipos_num_entries a
  |}.

Definition set_macho_size (v : Z) (a : E9ApeLayout) : E9ApeLayout :=
  {| shell_offset := shell_offset a; shell_size := shell_size a; elf_offset := elf_offset
  a; elf_size := elf_size a; pe_offset := pe_offset a; pe_size := pe_size a; macho_offset
  := macho_offset a; macho_size := v; zipos_start := zipos_start a; zipos_central_dir :=
  zipos_central_dir a; zipos_end := zipos_end a; zipos_num_entries := zipos_num_entries a
  |}.

Definition set_zipos_start (v : Z) (a : E9ApeLayout) : E9ApeLayout :=
  {| shell_offset := shell_offset a; shell_size := shell_size a; elf_offset := elf_offset
  a; elf_size := elf_size a; pe_offset := pe_offset a; pe_size := pe_size a; macho_offset
  := macho_offset a; macho_size := macho_size a; zipos_start := v; zipos_central_dir :=
  zipos_central_dir a; zipos_end := zipos_end a; zipos_num_entries := zipos_num_entries a
  |}.

Definition set_zipos_central_dir (v : Z) (a : E9ApeLayout) : E9ApeLayout :=
  {| shell_offset := shell_offset a; shell_size := shell_size a; elf_offset := elf_offset
  a; elf_size := elf_size a; pe_offset := pe_offset a; pe_size := pe_size a; macho_offset
  := macho_offset a; macho_size := macho_size a; zipos_start := zipos_start a;
  zipos_central_dir := v; zipos_end := zipos_end a; zipos_num_entries := zipos_num_entries
  a |}.

Definition set_zipos_end (v : Z) (a : E9ApeLayout) : E9ApeLayout :=
  {| shell_offset := shell_offset a; shell_size := shell_size a; elf_offset := elf_offset
  a; elf_size := elf_size a; pe_offset := pe_offset a; pe_size := pe_size a; macho_offset
  := macho_offset a; macho_size := macho_size a; zipos_start := zipos_start a;
  zipos_central_dir := zipos_central_dir a; zipos_end := v; zipos_num_entries :=
  zipos_num_entries a |}.

Definition set_zipos_num_entries (v : Z) (a : E9ApeLayout) : E9ApeLayout :=
  {| shell_offset := shell_offset a; shell_size := shell_size a; elf_offset := elf_offset
  a; elf_size := elf_size a; pe_offset := pe_offset a; pe_size := pe_size a; macho_offset
  := macho_offset a; macho_size := macho_size a; zipos_start := zipos_start a;
  zipos_central_dir := zipos_central_dir a; zipos_end := zipos_end a; zipos_num_entries :=
  v |}.

(** ** Address translation and x86-64 instruction lengths *)

Definition MAX_INSN_SIZE : Z := 16.

(** The offset both decoders compute from the address. *)
Definition addr_to_offset (bin : E9Binary) (addr : Z) : Z :=
  if truthy (base_address bin) && (base_address bin <=? addr)
  then u64 (addr - base_address bin) else addr.

Definition legacy_prefixes : list Z :=
  [0x66; 0x67; 0xF0; 0xF2; 0xF3; 0x2E; 0x36; 0x3E; 0x26; 0x64; 0x65].

(** The prefix loop; the result is the position and [has_rex]. *)
Fixpoint x64_prefixes (fuel : nat) (code : bytes) (max_len pos : Z) (has_rex : bool)
  : option (Z * bool) :=
  if max_len <=? pos then Some (pos, has_rex)
  else
    match fuel with
    | O => None
    | S f =>
        b ← rd code pos;
        if one_of legacy_prefixes b then x64_prefixes f code max_len (pos + 1) has_rex
        else if Z.land b 0xF0 =? 0x40 then x64_prefixes f code max_len (pos + 1) true
        else Some (pos, has_rex)
    end.

(** The cases of the one-byte [switch]: the number of bytes that follow the
    opcode, or [None] for the opcodes with a ModR/M byte. *)
Definition x64_one_byte (has_rex : bool) (opcode : Z) : option Z :=
  if one_of [0x90; 0xC3; 0xCB; 0xCC; 0xF4; 0xF5; 0xFC; 0xFD] opcode then Some 0
  else if one_of [0x04; 0x0C; 0x14; 0x1C; 0x24; 0x2C; 0x34; 0x3C; 0x6A; 0xA8; 0xB0; 0xB1;
                  0xB2; 0xB3; 0xB4; 0xB5; 0xB6; 0xB7; 0xCD; 0xD4; 0xD5; 0xE4; 0xE5; 0xE6;
                  0xE7; 0xEB] opcode then Some 1
  else if one_of [0x05; 0x0D; 0x15; 0x1D; 0x25; 0x2D; 0x35; 0x3D; 0x68; 0xA9; 0xE8; 0xE9] opcode
  then Some 4
  else if between 0xB8 0xBF opcode then (if has_rex then Some 8 else Some 4)
  else if one_of [0xC2; 0xCA] opcode then Some 2
  else if between 0x70 0x7F opcode || between 0xE0 0xE3 opcode then Some 1
  else None.

(** The ModR/M byte, the SIB byte, the displacement and the estimated
    immediate. *)
Definition x64_modrm (code : bytes) (max_len pos opcode : Z) : option Z :=
  if pos <? max_len then
    modrm ← rd code pos;
    let pos := pos + 1 in
    let md := Z.land (Z.shiftr modrm 6) 3 in
    let rm := Z.land modrm 7 in
    let pos := if negb (md =? 3) && (rm =? 4) && (pos <? max_len) then pos + 1 else pos in
    let pos := if md =? 1 then pos + 1
               else if (md =? 2) || ((md =? 0) && (rm =? 5)) then pos + 4 else pos in
    Some (if between 0x80 0x83 opcode then pos + (if opcode =? 0x81 then 4 else 1) else pos)
  else Some pos.

Definition x64_insn_length (code : bytes) (max_len : Z) : option Z :=
  if max_len =? 0 then Some 0
  else
    '(pos, has_rex) ← x64_prefixes (Z.to_nat max_len) code max_len 0 false;
    if max_len <=? pos then Some (s32 pos)
    else
      opcode ← rd code pos;
      let pos := pos + 1 in
      if opcode =? 0x0F then
        if max_len <=? pos then Some (s32 pos)
        else
          opcode ← rd code pos;
          let pos := pos + 1 in
          if one_of [0x38; 0x3A] opcode then
            if max_len <=? pos then Some (s32 pos)
            else p ← x64_modrm code max_len (pos + 1) opcode; Some (s32 p)
          else p ← x64_modrm code max_len pos opcode; Some (s32 p)
      else
        match x64_one_byte has_rex opcode with
        | Some n => Some (s32 (pos + n))
        | None => p ← x64_modrm code max_len pos opcode; Some (s32 p)
        end.

(** ** disasm_x64 *)

(** The prefixes this function skips. *)
Definition disasm_prefix (b : Z) : bool :=
  (Z.land b 0xF0 =? 0x40) || one_of [0x66; 0x67; 0xF2; 0xF3; 0x2E; 0x36] b.

(** [insn->target = addr + len + rel], and its text. *)
Definition set_rel_target (addr len rel : Z) (i : E9Instruction) : E9Instruction :=
  let t := u64 (addr + len + rel) in
  i |> set_insn_target t |> set_insn_operands (String.append "0x" (hex t)).

(** The signed little-endian operands. *)
Definition rd_i8 (l : bytes) (off : Z) : option Z := b ← rd l off; Some (s8 b).

Definition rd_i32 (l : bytes) (off : Z) : option Z := w ← rd32 l off; Some (s32 w).

Definition jcc_names : list string :=
  ["jo"; "jno"; "jb"; "jnb"; "jz"; "jnz"; "jbe"; "ja";
   "js"; "jns"; "jp"; "jnp"; "jl"; "jge"; "jle"; "jg"]%string.

Definition regs : list string := ["rax"; "rcx"; "rdx"; "rbx"; "rsp"; "rbp"; "rsi"; "rdi"]%string.

(** Returns, calls and jumps: [mnemonic], and the target when its operand of
    [n] bytes lies inside the instruction. *)
Definition x64_ret_imm (code : bytes) (pos len : Z) (i : E9Instruction) : option E9Instruction :=
  let i := i |> set_insn_category E9_INSN_RET |> set_insn_mnemonic "ret" in
  if pos + 3 <=? len then
    imm ← rd16 code (pos + 1); Some (set_insn_operands (String.append "0x" (hex imm)) i)
  else Some i.

Definition x64_rel32 (code : bytes) (pos len addr off : Z) (i : E9Instruction)
  : option E9Instruction :=
  if pos + off + 4 <=? len then
    rel ← rd_i32 code (pos + off); Some (set_rel_target addr len rel i)
  else Some i.

Definition x64_rel8 (code : bytes) (pos len addr : Z) (i : E9Instruction)
  : option E9Instruction :=
  if pos + 2 <=? len then
    rel ← rd_i8 code (pos + 1); Some (set_rel_target addr len rel i)
  else Some i.

(** The two-byte opcodes. *)
Definition x64_two_byte (code : bytes) (pos len addr : Z) (i : E9Instruction)
  : option E9Instruction :=
  if pos + 1 <? len then
    op2 ← rd code (pos + 1);
    if between 0x80 0x8F op2 then
      name ← jcc_names !! Z.to_nat (op2 - 0x80);
      x64_rel32 code pos len addr 2
        (i |> set_insn_category E9_INSN_COND_JUMP |> set_insn_is_conditional true
           |> set_insn_mnemonic name)
    else if op2 =? 0x05 then
      Some (i |> set_insn_category E9_INSN_SYSCALL |> set_insn_mnemonic "syscall")
    else
      Some (i |> set_insn_category E9_INSN_OTHER
              |> set_insn_mnemonic (clip 16 (String.append "0f" (hex_pad 2 op2 ""))))
  else Some i.

(** The [switch] on the opcode. *)
Definition x64_decode (code : bytes) (pos len addr opcode : Z) (i : E9Instruction)
  : option E9Instruction :=
  if one_of [0xC3; 0xCB] opcode then
    Some (i |> set_insn_category E9_INSN_RET |> set_insn_mnemonic "ret")
  else if one_of [0xC2; 0xCA] opcode then x64_ret_imm code pos len i
  else if opcode =? 0xE8 then
    x64_rel32 code pos len addr 1
      (i |> set_insn_category E9_INSN_CALL |> set_insn_mnemonic "call")
  else if opcode =? 0xE9 then
    x64_rel32 code pos len addr 1
      (i |> set_insn_category E9_INSN_JUMP |> set_insn_mnemonic "jmp")
  else if opcode =? 0xEB then
    x64_rel8 code pos len addr
      (i |> set_insn_category E9_INSN_JUMP |> set_insn_mnemonic "jmp")
  else if between 0x70 0x7F opcode then
    name ← jcc_names !! Z.to_nat (opcode - 0x70);
    x64_rel8 code pos len addr
      (i |> set_insn_category E9_INSN_COND_JUMP |> set_insn_is_conditional true
         |> set_insn_mnemonic name)
  else if opcode =? 0x90 then
    Some (i |> set_insn_category E9_INSN_NOP |> set_insn_mnemonic "nop")
  else if opcode =? 0xCC then
    Some (i |> set_insn_category E9_INSN_OTHER |> set_insn_mnemonic "int3")
  else if opcode =? 0x0F then x64_two_byte code pos len addr i
  else if between 0x50 0x57 opcode then
    r ← regs !! Z.to_nat (opcode - 0x50);
    Some (i |> set_insn_category E9_INSN_PUSH |> set_insn_mnemonic "push"
            |> set_insn_operands r)
  else if between 0x58 0x5F opcode then
    r ← regs !! Z.to_nat (opcode - 0x58);
    Some (i |> set_insn_category E9_INSN_POP |> set_insn_mnemonic "pop"
            |> set_insn_operands r)
  else
    Some (i |> set_insn_category E9_INSN_OTHER
            |> set_insn_mnemonic (clip 16 (String.append "op" (hex_pad 2 opcode "")))).

(** The returned pointer is [None] for NULL; [alloc] is the outcome of the
    allocation. *)
Definition disasm_x64 (alloc : bool) (bin : E9Binary) (addr : Z)
  : option (option E9Instruction) :=
  let offset := addr_to_offset bin addr in
  if bin_size bin <=? offset then Some None
  else
    let code := at_off (bin_data bin) offset in
    let max_len := Z.min (bin_size bin - offset) MAX_INSN_SIZE in
    len ← x64_insn_length code max_len;
    if (len <=? 0) || (max_len <? len) then Some None
    else if negb alloc then Some None
    else
      raw ← rdn code 0 len;
      bs ← wrn (insn_bytes zero_instruction) 0 raw;
      let i := zero_instruction |> set_insn_address addr |> set_insn_size len
                                |> set_insn_bytes bs in
      pos ← skip_while (Z.to_nat len) disasm_prefix code len 0;
      if len <=? pos then
        Some (Some (i |> set_insn_category E9_INSN_OTHER |> set_insn_mnemonic "???"))
      else
        opcode ← rd code pos;
        i ← x64_decode code pos len addr opcode i;
        Some (Some i).

(** ** disasm_aarch64 *)

Definition A64_MASK_BL : Z := 0xFC000000.
Definition A64_OP_BL : Z := 0x94000000.
Definition A64_MASK_B : Z := 0xFC000000.
Definition A64_OP_B : Z := 0x14000000.
Definition A64_MASK_RET : Z := 0xFFFFFC1F.
Definition A64_OP_RET : Z := 0xD65F0000.
Definition A64_MASK_CBZ : Z := 0x7F000000.
Definition A64_OP_CBZ : Z := 0x34000000.
Definition A64_MASK_TBZ : Z := 0x7F000000.
Definition A64_OP_TBZ : Z := 0x36000000.
Definition A64_MASK_BCOND : Z := 0xFF000010.
Definition A64_OP_BCOND : Z := 0x54000000.

(** [if (imm & sign) imm |= ext] on an [int32_t], and [addr + (imm << 2)]. *)
Definition sign_extend (sign ext imm : Z) : Z :=
  if truthy (Z.land imm sign) then s32 (Z.lor imm ext) else imm.

Definition a64_target (addr imm : Z) : Z := u64 (addr + s32 (Z.shiftl imm 2)).

Definition set_a64_target (t : Z) (i : E9Instruction) : E9Instruction :=
  i |> set_insn_target t |> set_insn_operands (String.append "0x" (hex t)).

Definition bit (w n : Z) : bool := truthy (Z.land (Z.shiftr w n) 1).

Definition cond_names : list string :=
  ["eq"; "ne"; "cs"; "cc"; "mi"; "pl"; "vs"; "vc";
   "hi"; "ls"; "ge"; "lt"; "gt"; "le"; "al"; "nv"]%string.

(** The branches: B.cond, CBZ and CBNZ, TBZ and TBNZ. *)
Definition a64_bcond (w addr : Z) (i : E9Instruction) : option E9Instruction :=
  name ← cond_names !! Z.to_nat (Z.land w 0xF);
  let imm := sign_extend 0x40000 0xFFF80000 (Z.land (Z.shiftr w 5) 0x7FFFF) in
  Some (i |> set_insn_category E9_INSN_COND_JUMP |> set_insn_is_conditional true
          |> set_insn_mnemonic (clip 16 (String.append "b." name))
          |> set_a64_target (a64_target addr imm)).

Definition a64_cbz (w addr : Z) (i : E9Instruction) : E9Instruction :=
  let imm := sign_extend 0x40000 0xFFF80000 (Z.land (Z.shiftr w 5) 0x7FFFF) in
  let t := a64_target addr imm in
  i |> set_insn_category E9_INSN_COND_JUMP |> set_insn_is_conditional true
    |> set_insn_mnemonic (if bit w 24 then "cbnz" else "cbz")
    |> set_insn_target t
    |> set_insn_operands
         (String.append (if bit w 31 then "x" else "w")
            (String.append (dec (Z.land w 0x1F)) (String.append ", 0x" (hex t)))).

Definition a64_tbz (w addr : Z) (i : E9Instruction) : E9Instruction :=
  let imm := sign_extend 0x2000 0xFFFFC000 (Z.land (Z.shiftr w 5) 0x3FFF) in
  i |> set_insn_category E9_INSN_COND_JUMP |> set_insn_is_conditional true
    |> set_insn_mnemonic (if bit w 24 then "tbnz" else "tbz")
    |> set_a64_target (a64_target addr imm).

(** The instructions that are not branches. *)
Definition a64_other (w : Z) (i : E9Instruction) : E9Instruction :=
  let is_load := bit w 22 in
  if Z.land w 0xFC000000 =? 0xD4000000 then
    i |> set_insn_category E9_INSN_SYSCALL |> set_insn_mnemonic "svc"
      |> set_insn_operands (String.append "#0x" (hex (Z.land (Z.shiftr w 5) 0xFFFF)))
  else if Z.land w 0x1F000000 =? 0x10000000 then
    i |> set_insn_category E9_INSN_LEA
      |> set_insn_mnemonic (if bit w 31 then "adrp" else "adr")
  else if Z.land w 0x3B000000 =? 0x39000000 then
    i |> set_insn_category (if is_load then E9_INSN_LOAD else E9_INSN_STORE)
      |> set_insn_mnemonic (if is_load then "ldr" else "str")
      |> set_insn_reads_memory is_load |> set_insn_writes_memory (negb is_load)
  else if (Z.land w 0x7F800000 =? 0x29000000) || (Z.land w 0x7F800000 =? 0x28000000) then
    i |> set_insn_category (if is_load then E9_INSN_LOAD else E9_INSN_STORE)
      |> set_insn_mnemonic (if is_load then "ldp" else "stp")
  else if (Z.land w 0xFF000000 =? 0xD1000000) || (Z.land w 0xFF000000 =? 0x91000000) then
    i |> set_insn_category E9_INSN_ARITHMETIC
      |> set_insn_mnemonic (if bit w 30 then "sub" else "add")
  else if Z.land w 0xFFFFFFFF =? 0xD503201F then
    i |> set_insn_category E9_INSN_NOP |> set_insn_mnemonic "nop"
  else
    i |> set_insn_category E9_INSN_OTHER
      |> set_insn_mnemonic (clip 16 (String.append "0x" (hex_pad 8 w ""))).

(** The chain of [if]s on the instruction word. *)
Definition a64_decode (w addr : Z) (i : E9Instruction) : option E9Instruction :=
  let imm26 := sign_extend 0x02000000 0xFC000000 (Z.land w 0x03FFFFFF) in
  if Z.land w A64_MASK_BL =? A64_OP_BL then
    Some (i |> set_insn_category E9_INSN_CALL |> set_insn_mnemonic "bl"
            |> set_a64_target (a64_target addr imm26))
  else if Z.land w A64_MASK_B =? A64_OP_B then
    Some (i |> set_insn_category E9_INSN_JUMP |> set_insn_mnemonic "b"
            |> set_a64_target (a64_target addr imm26))
  else if Z.land w A64_MASK_RET =? A64_OP_RET then
    Some (i |> set_insn_category E9_INSN_RET |> set_insn_mnemonic "ret")
  else if Z.land w A64_MASK_BCOND =? A64_OP_BCOND then a64_bcond w addr i
  else if Z.land w A64_MASK_CBZ =? A64_OP_CBZ then Some (a64_cbz w addr i)
  else if Z.land w A64_MASK_TBZ =? A64_OP_TBZ then Some (a64_tbz w addr i)
  else Some (a64_other w i).

Definition disasm_aarch64 (alloc : bool) (bin : E9Binary) (addr : Z)
  : option (option E9Instruction) :=
  let offset := addr_to_offset bin addr in
  if bin_size bin <? u64 (offset + 4) then Some None
  else
    let code := at_off (bin_data bin) offset in
    w ← rd32 code 0;
    if negb alloc then Some None
    else
      raw ← rdn code 0 4;
      bs ← wrn (insn_bytes zero_instruction) 0 raw;
      i ← a64_decode w addr
            (zero_instruction |> set_insn_address addr |> set_insn_size 4 |> set_insn_bytes bs);
      Some (Some i).

(** ** The disassembly calls *)

Definition e9_disasm_instruction (alloc : bool) (bin : option E9Binary) (addr : Z)
  : option (option E9Instruction) :=
  match bin with
  | None => Some None
  | Some bin =>
      match arch bin with
      | E9_ARCH_X86_64 => disasm_x64 alloc bin addr
      | E9_ARCH_AARCH64 => disasm_aarch64 alloc bin addr
      | _ => Some None
      end
  end.

(** The loop of [e9_disasm_range]: [alloc k] is the outcome of the [k]-th
    allocation.  [fuel = end - start] is enough when the range does not reach
    the end of the address space. *)
Fixpoint range_loop (fuel : nat) (alloc : nat → bool) (bin : E9Binary) (end_ addr : Z)
    (acc : list E9Instruction) : option (list E9Instruction) :=
  if end_ <=? addr then Some acc
  else
    match fuel with
    | O => None
    | S f =>
        r ← e9_disasm_instruction (alloc (List.length acc)) (Some bin) addr;
        match r with
        | None => Some acc
        | Some i => range_loop f alloc bin end_ (u64 (addr + insn_size i)) (acc ++ [i])
        end
    end.

Definition e9_disasm_range (alloc : nat → bool) (bin : option E9Binary) (start end_ : Z)
  : option (list E9Instruction) :=
  match bin with
  | None => Some []
  | Some bin =>
      if end_ <=? start then Some []
      else range_loop (Z.to_nat (end_ - start)) alloc bin end_ start []
  end.

(** The result is the returned code and the instruction [insn] points to. *)
Definition e9_disasm (alloc : bool) (bin : option E9Binary) (addr : Z)
    (insn : option E9Instruction) : option (Z * option E9Instruction) :=
  match bin, insn with
  | Some _, Some _ =>
      tmp ← e9_disasm_instruction alloc bin addr;
      match tmp with
      | None => Some (-1, insn)
      | Some i => Some (0, Some i)
      end
  | _, _ => Some (-1, insn)
  end.

(** * Properties *)

(** The memory a context describes: [size] bytes can be read at [data]. *)
Record bin_wf (bin : E9Binary) : Prop := {
  wf_bytes : bytes_ok (bin_data bin);
  wf_size : 0 <= bin_size bin <= blen (bin_data bin);
  wf_base : 0 <= base_address bin < 2 ^ 64 }.

(** What a decoded instruction says about the bytes it was decoded from. *)
Record insn_at (bin : E9Binary) (addr : Z) (i : E9Instruction) : Prop := {
  at_address : insn_address i = addr;
  at_size : 1 <= insn_size i <= MAX_INSN_SIZE;
  at_inside : addr_to_offset bin addr + insn_size i <= bin_size bin;
  at_bytes : rdn (bin_data bin) (addr_to_offset bin addr) (insn_size i)
             = rdn (insn_bytes i) 0 (insn_size i) }.

(** The fields the category switches leave alone. *)
Definition same_head (i i' : E9Instruction) : Prop :=
  insn_address i' = insn_address i ∧ insn_size i' = insn_size i ∧ insn_bytes i' = insn_bytes i.

Lemma jcc_names_lookup k (P : string → Prop) :
  0 <= k < 16 → (∀ x, jcc_names !! Z.to_nat k = Some x → P x) →
  safely (jcc_names !! Z.to_nat k) P.
Proof. intros Hk. apply safely_lookup. exact Hk. Qed.

Section decode.
Context (code : bytes) (lim : Z).
Hypothesis Hcode : bytes_ok code.
Hypothesis Hlim : lim <= blen code.

Lemma x64_prefixes_safe fuel pos r :
  0 <= pos <= lim → lim - pos <= Z.of_nat fuel →
  safely (x64_prefixes fuel code lim pos r) (λ p, pos <= p.1 <= lim).
Proof.
  revert pos r. induction fuel as [|f IH]; intros pos r Hp Hf; cbn [x64_prefixes];
    (ub_step; [cbn; lia|]); [cbn; lia|].
  ub_step. apply safely_rd; [lia|]. intros b _.
  repeat ub_step; try (cbn; lia); (eapply safely_mono; [apply IH; lia|]; cbn; lia).
Qed.

Lemma x64_modrm_safe pos opcode :
  0 <= pos → safely (x64_modrm code lim pos opcode) (λ p, pos <= p <= pos + 10).
Proof.
  intros Hp. unfold x64_modrm. ub_step; [|cbn; lia].
  ub_step. apply safely_rd; [lia|]. intros m _. cbn [safely]. cbv zeta.
  repeat case_match; lia.
Qed.

(** The length decoder reads inside [max_len] and returns a positive length. *)
Lemma x64_insn_length_safe :
  0 < lim <= MAX_INSN_SIZE → safely (x64_insn_length code lim) (λ n, 1 <= n <= 32).
Proof.
  unfold MAX_INSN_SIZE. intros Hl. unfold x64_insn_length. ub_step; [lia|].
  assert (∀ z, 0 <= z <= 40 → s32 z = z) as Hs by (intros; apply wraps_small; lia).
  ub_step. eapply safely_mono; [apply x64_prefixes_safe; lia|]. intros [p r]. cbn [fst].
  intros Hp. ub_step; [cbn [safely]; rewrite Hs; lia|].
  ub_step. apply safely_rd; [lia|]. intros op _. ub_step.
  - ub_step; [cbn [safely]; rewrite Hs; lia|].
    ub_step. apply safely_rd; [lia|]. intros op2 _.
    repeat ub_step; try (cbn [safely]; rewrite Hs; lia);
      (ub_call x64_modrm_safe); intros q Hq; cbn [safely]; rewrite Hs; lia.
  - destruct (x64_one_byte r op) as [n|] eqn:E.
    + assert (0 <= n <= 8) by (unfold x64_one_byte in E; repeat case_match; simplify_eq; lia).
      cbn [safely]. rewrite Hs; lia.
    + ub_step. ub_call x64_modrm_safe. intros q Hq. cbn [safely]. rewrite Hs; lia.
Qed.

Lemma x64_rel32_safe pos addr off i :
  0 <= pos → 0 <= off → safely (x64_rel32 code pos lim addr off i) (same_head i).
Proof.
  intros. unfold x64_rel32, rd_i32, rd32, rd16. by repeat ub_step.
Qed.

Lemma x64_rel8_safe pos addr i :
  0 <= pos → safely (x64_rel8 code pos lim addr i) (same_head i).
Proof. intros. unfold x64_rel8, rd_i8. by repeat ub_step. Qed.

Lemma x64_decode_safe pos addr opcode i :
  0 <= pos → safely (x64_decode code pos lim addr opcode i) (same_head i).
Proof.
  intros Hp. unfold x64_decode, x64_two_byte, x64_ret_imm, rd16.
  repeat first
    [ progress cbn [safely] | ub_step; bool_hyps
    | apply jcc_names_lookup; [lia|intros ? _] | apply safely_lookup; [cbn; lia|intros ? _]
    | ub_call x64_rel32_safe; intros ? Hh; exact Hh
    | ub_call x64_rel8_safe; intros ? Hh; exact Hh ];
    by repeat split.
Qed.
End decode.

Lemma a64_decode_safe w addr i : safely (a64_decode w addr i) (same_head i).
Proof.
  unfold a64_decode, a64_bcond. pose proof (land_le w 15 ltac:(lia)).
  repeat ub_step; try done.
  - apply safely_lookup; [cbn; lia|done].
  - unfold a64_other. by repeat case_match.
Qed.

Lemma addr_to_offset_nonneg bin addr : 0 <= addr → 0 <= addr_to_offset bin addr.
Proof.
  intros. unfold addr_to_offset. case_match; [|done]. apply (wrapu_range 64). lia.
Qed.

Section disasm.
Context (bin : E9Binary).
Hypothesis Hwf : bin_wf bin.

(** Copying [n] bytes of the code into the instruction. *)
Lemma insn_bytes_safe {A} off n (k : bytes → option A) (P : A → Prop) :
  0 <= off → 0 <= n <= 16 → off + n <= bin_size bin →
  (∀ bs, rdn (bin_data bin) off n = rdn bs 0 n → safely (k bs) P) →
  safely (raw ← rdn (at_off (bin_data bin) off) 0 n;
          bs ← wrn (insn_bytes zero_instruction) 0 raw; k bs) P.
Proof.
  intros Ho Hn Hs HP. destruct Hwf as [_ Hsz _]. ub_step.
  apply safely_rdn; [lia|lia|rewrite blen_at_off by lia; lia|]. intros raw Hraw.
  pose proof (rdn_len _ _ _ _ Hraw) as Hl. ub_step.
  change (blen (insn_bytes zero_instruction)) with 16 in *.
  apply safely_wrn; [lia|rewrite Hl; change (0 + n <= 16); lia|]. intros bs Hbs. apply HP.
  pose proof (rdn_wrn_same _ _ _ _ Hbs) as Hback. rewrite Hl in Hback.
  rewrite Hback, <- Hraw, rdn_at_off by lia. f_equal. lia.
Qed.

Lemma disasm_x64_safe alloc addr :
  0 <= addr →
  safely (disasm_x64 alloc bin addr) (λ r, ∀ i, r = Some i → insn_at bin addr i).
Proof.
  intros Ha. pose proof (addr_to_offset_nonneg bin addr Ha) as Ho.
  unfold disasm_x64. set (off := addr_to_offset bin addr) in *.
  pose proof (wf_size _ Hwf). ub_step; [done|]. cbv zeta. unfold MAX_INSN_SIZE.
  assert (blen (at_off (bin_data bin) off) = blen (bin_data bin) - off) as Hlen
    by (apply blen_at_off; lia).
  assert (bytes_ok (at_off (bin_data bin) off)) as Hc by (apply at_off_ok, wf_bytes, Hwf).
  ub_step. eapply safely_mono.
  { apply x64_insn_length_safe; unfold MAX_INSN_SIZE; lia. }
  cbn beta. intros len Hl. ub_step; [done|]. ub_step; [done|].
  apply insn_bytes_safe; [lia|lia|lia|]. intros bs Hbs. cbv zeta.
  ub_step. ub_call skip_while_safe. intros pos Hpos. ub_step.
  - cbn [safely]. intros i [= <-]. split; try done; unfold MAX_INSN_SIZE; cbn; lia.
  - ub_step. apply safely_rd; [lia|]. intros op _. ub_step.
    ub_call x64_decode_safe. intros i (E1 & E2 & E3). cbn [safely].
    intros j [= <-]. cbn in E1, E2, E3.
    split; rewrite ?E1, ?E2, ?E3; try done; unfold MAX_INSN_SIZE; lia.
Qed.

(** The test [offset + 4 > size] wraps for the last four offsets; the
    lemma excludes them. *)
Lemma disasm_aarch64_safe alloc addr :
  0 <= addr → addr_to_offset bin addr + 4 < 2 ^ 64 →
  safely (disasm_aarch64 alloc bin addr) (λ r, match r with
    | Some i => insn_at bin addr i ∧ insn_size i = 4
    | None => alloc = false ∨ bin_size bin < addr_to_offset bin addr + 4
    end).
Proof.
  intros Ha Hb. pose proof (addr_to_offset_nonneg bin addr Ha) as Ho.
  unfold disasm_aarch64. set (off := addr_to_offset bin addr) in *.
  pose proof (wf_size _ Hwf). rewrite wrapu_small by lia. ub_step; [right; lia|]. cbv zeta.
  assert (blen (at_off (bin_data bin) off) = blen (bin_data bin) - off) as Hlen
    by (apply blen_at_off; lia).
  assert (bytes_ok (at_off (bin_data bin) off)) as Hc by (apply at_off_ok, wf_bytes, Hwf).
  ub_step. ub_call safely_rd32. intros w _. ub_step; [left; by destruct alloc|].
  apply insn_bytes_safe; [lia|lia|lia|]. intros bs Hbs. ub_step.
  ub_call a64_decode_safe. intros i (E1 & E2 & E3). cbn [safely]. cbn in E1, E2, E3.
  split; [|done]. split; rewrite ?E1, ?E2, ?E3; try done; unfold MAX_INSN_SIZE; lia.
Qed.

Lemma addr_to_offset_le addr : 0 <= addr < 2 ^ 64 → addr_to_offset bin addr <= addr.
Proof.
  intros. pose proof (wf_base _ Hwf). unfold addr_to_offset.
  destruct (truthy _ && _) eqn:E; [|lia]. bool_hyps.
  rewrite wrapu_small by lia. lia.
Qed.

Lemma disasm_instruction_safe alloc addr :
  0 <= addr → addr + 4 < 2 ^ 64 →
  safely (e9_disasm_instruction alloc (Some bin) addr) (λ r, ∀ i, r = Some i → insn_at bin addr i).
Proof.
  intros Ha Hb. pose proof (addr_to_offset_le addr ltac:(lia)).
  unfold e9_disasm_instruction. destruct (arch bin); try done.
  - by apply disasm_x64_safe.
  - ub_call disasm_aarch64_safe. intros r Hr i ->. apply Hr.
Qed.

(** Instructions that follow each other without a gap, from one address to
    another. *)
Inductive chain : Z → list E9Instruction → Z → Prop :=
| chain_nil a : chain a [] a
| chain_snoc a l b i : chain a l b → insn_at bin b i → chain a (l ++ [i]) (b + insn_size i).

Lemma chain_bound a l b : chain a l b → a + Z.of_nat (List.length l) <= b.
Proof.
  induction 1 as [|a l b i Hc IH [_ Hs _ _]]; cbn; [lia|]. rewrite length_app. cbn. lia.
Qed.

Lemma range_loop_safe alloc fuel end_ start addr acc :
  0 <= start → end_ + MAX_INSN_SIZE < 2 ^ 64 → chain start acc addr →
  end_ - addr <= Z.of_nat fuel → addr < end_ + MAX_INSN_SIZE →
  safely (range_loop fuel alloc bin end_ addr acc) (λ l, ∃ b, chain start l b ∧
    (end_ <= b < end_ + MAX_INSN_SIZE ∨
     e9_disasm_instruction (alloc (List.length l)) (Some bin) b = Some None)).
Proof.
  unfold MAX_INSN_SIZE. intros Hs He. revert addr acc.
  induction fuel as [|f IH]; intros addr acc Hc Hf Ha; pose proof (chain_bound _ _ _ Hc);
    cbn [range_loop]; (ub_step; [cbn [safely]; exists addr; split; [done|left; lia]|]); [cbn; lia|].
  pose proof (disasm_instruction_safe (alloc (List.length acc)) addr ltac:(lia) ltac:(lia)) as Hd.
  apply safely_Some in Hd as (r & Hr & Hi). rewrite Hr. cbn [mbind option_bind].
  destruct r as [i|]; [|cbn; eauto].
  specialize (Hi i eq_refl). pose proof (at_size _ _ _ Hi) as Hsz. unfold MAX_INSN_SIZE in Hsz.
  rewrite wrapu_small by lia. apply IH; [by constructor|lia|lia].
Qed.
End disasm.

(** ** Direct branches

    The reference encodings: x86-64 [CALL rel32] and [JMP rel32], and the
    AArch64 branches as words with a signed offset in units of four bytes. *)

Definition x64_branch (op rel : Z) : bytes := op :: le_bytes 4 (u32 rel).

Lemma x64_length_rel32 code lim op :
  op ∈ [0xE8; 0xE9] → 5 <= lim → rd code 0 = Some op → x64_insn_length code lim = Some 5.
Proof.
  intros Hop Hl Hrd. unfold x64_insn_length. destruct (Z.eqb_spec lim 0); [lia|].
  destruct (Z.to_nat lim) as [|f] eqn:Ef; [lia|]. cbn [x64_prefixes].
  rewrite !(proj2 (Z.leb_gt lim 0)) by lia. rewrite Hrd. cbn [mbind option_bind].
  rewrite !elem_of_cons, elem_of_nil in Hop. destruct Hop as [-> | [-> | []]]; cbn -[Z.add rd];
    match goal with |- context [Z.land ?a ?b] =>
      change (Z.land a b =? 64) with false end; cbn [mbind option_bind];
    by rewrite (proj2 (Z.leb_gt lim 0)), Hrd by lia.
Qed.

Lemma x64_rel32_eq code pos len addr off i rel :
  - 2 ^ 31 <= rel < 2 ^ 31 → pos + off + 4 <= len → rd32 code (pos + off) = Some (u32 rel) →
  x64_rel32 code pos len addr off i = Some (set_rel_target addr len rel i).
Proof.
  intros Hr Hl Hrd. unfold x64_rel32, rd_i32. rewrite (proj2 (Z.leb_le _ _)), Hrd by lia.
  cbn [mbind option_bind]. by rewrite wraps_wrapu, wraps_small by lia.
Qed.

Lemma disasm_x64_branch bin addr op rel :
  bin_wf bin → op ∈ [0xE8; 0xE9] → - 2 ^ 31 <= rel < 2 ^ 31 → 0 <= addr →
  addr_to_offset bin addr + 5 <= bin_size bin →
  rdn (bin_data bin) (addr_to_offset bin addr) 5 = Some (x64_branch op rel) →
  ∃ i, disasm_x64 true bin addr = Some (Some i) ∧ insn_at bin addr i ∧ insn_size i = 5 ∧
    insn_category i = (if op =? 0xE8 then E9_INSN_CALL else E9_INSN_JUMP) ∧
    insn_target i = u64 (addr + 5 + rel).
Proof.
  intros Hwf Hop Hrel Ha Hsz Hrdn.
  pose proof (disasm_x64_safe bin Hwf true addr Ha) as Hsafe.
  apply safely_Some in Hsafe as (r & Hr & Hat).
  pose proof (addr_to_offset_nonneg bin addr Ha) as Ho. pose proof (wf_size _ Hwf).
  set (off := addr_to_offset bin addr) in *.
  assert (∀ k, 0 <= k < 5 → rd (at_off (bin_data bin) off) k = rd (x64_branch op rel) k) as Hrd.
  { intros k Hk. rewrite rd_at_off, (rd_rdn _ _ _ _ _ Hrdn) by lia. done. }
  assert (rd32 (at_off (bin_data bin) off) 1 = Some (u32 rel)) as Hrel32.
  { rewrite <- (rd32_le (u32 rel)) by (apply (wrapu_range 32); lia).
    unfold rd32, rd16. rewrite !Hrd by lia. done. }
  revert Hr. unfold disasm_x64. fold off.
  rewrite (proj2 (Z.leb_gt _ _)) by lia. cbv zeta. unfold MAX_INSN_SIZE.
  rewrite (x64_length_rel32 _ _ op Hop) by (lia || apply (Hrd 0); lia).
  cbn [mbind option_bind]. change (5 <=? 0) with false. cbn [orb negb].
  rewrite (proj2 (Z.ltb_ge _ _)) by lia.
  rewrite rdn_at_off, Z.add_0_r, Hrdn by lia. cbn [mbind option_bind].
  destruct (wrn_is_Some (insn_bytes zero_instruction) 0 (x64_branch op rel)) as [bs Hbs];
    [lia|done|]. rewrite Hbs. cbn [mbind option_bind]. cbv zeta.
  change (Z.to_nat 5) with 5%nat. cbn [skip_while]. change (5 <=? 0) with false. cbv iota.
  rewrite (Hrd 0) by lia. change (rd (x64_branch op rel) 0) with (Some op).
  cbn [mbind option_bind].
  assert (wrote : ∀ i, insn_at bin addr i → r = Some i →
    insn_size i = 5 → insn_category i = (if op =? 0xE8 then E9_INSN_CALL else E9_INSN_JUMP) →
    insn_target i = u64 (addr + 5 + rel) →
    ∃ i, Some r = Some (Some i) ∧ insn_at bin addr i ∧ insn_size i = 5 ∧
      insn_category i = (if op =? 0xE8 then E9_INSN_CALL else E9_INSN_JUMP) ∧
      insn_target i = u64 (addr + 5 + rel)) by (intros i ? -> ???; eauto 6).
  rewrite !elem_of_cons, elem_of_nil in Hop. destruct Hop as [-> | [-> | []]].
  all: match goal with |- context [disasm_prefix ?b] => change (disasm_prefix b) with false end.
  all: cbv iota; cbn [mbind option_bind]; change (5 <=? 0) with false; cbv iota.
  all: rewrite (Hrd 0) by lia; match goal with |- context [x64_branch ?op ?r] =>
    change (rd (x64_branch op r) 0) with (Some op) end; cbn [mbind option_bind].
  all: unfold x64_decode; cbn [one_of existsb Z.eqb Pos.eqb orb between Z.leb Z.compare andb].
  all: erewrite x64_rel32_eq by (done || lia || apply Hrel32).
  all: cbn [mbind option_bind]; intros [= <-]; eapply wrote; [by apply Hat| done..].
Qed.

Inductive a64_branch :=
| A64_B | A64_BL | A64_Bcond (cond : Z) | A64_CB (sf nz rt : Z) | A64_TB (b5 nz b40 rt : Z).

(** The number of bits of the offset. *)
Definition a64_width (br : a64_branch) : Z :=
  match br with A64_B | A64_BL => 26 | A64_Bcond _ | A64_CB _ _ _ => 19 | A64_TB _ _ _ _ => 14 end.

Definition a64_fields_ok (br : a64_branch) : Prop :=
  match br with
  | A64_B | A64_BL => True
  | A64_Bcond c => 0 <= c < 16
  | A64_CB sf nz rt => 0 <= sf < 2 ∧ 0 <= nz < 2 ∧ 0 <= rt < 32
  | A64_TB b5 nz b40 rt => 0 <= b5 < 2 ∧ 0 <= nz < 2 ∧ 0 <= b40 < 32 ∧ 0 <= rt < 32
  end.

Definition a64_encode (br : a64_branch) (imm : Z) : Z :=
  let imm := imm mod 2 ^ a64_width br in
  match br with
  | A64_B => 0x14000000 + imm
  | A64_BL => 0x94000000 + imm
  | A64_Bcond c => 0x54000000 + imm * 2 ^ 5 + c
  | A64_CB sf nz rt => sf * 2 ^ 31 + 0x34000000 + nz * 2 ^ 24 + imm * 2 ^ 5 + rt
  | A64_TB b5 nz b40 rt => b5 * 2 ^ 31 + 0x36000000 + nz * 2 ^ 24 + b40 * 2 ^ 19 + imm * 2 ^ 5 + rt
  end.

Definition a64_category (br : a64_branch) : E9InsnCategory :=
  match br with A64_B => E9_INSN_JUMP | A64_BL => E9_INSN_CALL | _ => E9_INSN_COND_JUMP end.

Lemma sign_extend_spec k imm :
  1 <= k <= 31 → - 2 ^ (k - 1) <= imm < 2 ^ (k - 1) →
  sign_extend (Z.shiftl (Z.ones 1) (k - 1)) (Z.shiftl (Z.ones (32 - k)) k) (imm mod 2 ^ k) = imm.
Proof.
  intros Hk Hi. unfold sign_extend. rewrite land_field by lia.
  pose proof (pow2_half k ltac:(lia)) as Hh. pose proof (pow2_pos (k - 1) ltac:(lia)).
  pose proof (Z.mod_pos_bound imm (2 ^ k) ltac:(lia)) as Hm.
  assert (2 ^ 32 = 2 ^ (32 - k) * 2 ^ k) as H32 by (rewrite <- Z.pow_add_r by lia; f_equal; lia).
  destruct (Z.ltb_spec imm 0).
  - assert (imm mod 2 ^ k = imm + 2 ^ k) as ->.
    { symmetry. apply (Z.mod_unique_pos _ _ (-1)); lia. }
    assert ((imm + 2 ^ k) / 2 ^ (k - 1) = 1) as ->.
    { symmetry. apply (Z.div_unique_pos _ _ _ (imm + 2 ^ (k - 1))); lia. }
    change (1 mod 2 ^ 1) with 1. unfold truthy. destruct (Z.eqb_spec (1 * 2 ^ (k - 1)) 0); [lia|].
    cbn [negb]. rewrite lor_add by lia. rewrite Z.ones_equiv.
    replace (imm + 2 ^ k + 2 ^ k * Z.pred (2 ^ (32 - k))) with (imm + 1 * 2 ^ 32) by lia.
    rewrite <- wraps_wrapu, wrapu_eqm, wraps_wrapu. apply wraps_small; [lia|].
    assert (2 ^ (k - 1) <= 2 ^ (32 - 1)) by (apply Z.pow_le_mono_r; lia). lia.
  - assert (imm mod 2 ^ k = imm) as -> by (apply Z.mod_small; lia).
    rewrite (Z.div_small imm) by lia. change (0 mod 2 ^ 1) with 0. rewrite Z.mul_0_l. done.
Qed.

Lemma a64_target_spec addr imm : - 2 ^ 25 <= imm < 2 ^ 25 → a64_target addr imm = u64 (addr + 4 * imm).
Proof.
  intros. unfold a64_target. rewrite Z.shiftl_mul_pow2, wraps_small by lia. f_equal. lia.
Qed.

Lemma Z_eqb_scale a b c : c ≠ 0 → (a * c =? b * c) = (a =? b).
Proof. intros. destruct (Z.eqb_spec (a * c) (b * c)), (Z.eqb_spec a b); nia || done. Qed.

(** The tests of [a64_decode] on the fields of the word. *)
Lemma a64_mask_hi6 w op : (Z.land w 0xFC000000 =? op * 2 ^ 26) = (w / 2 ^ 26 mod 64 =? op).
Proof.
  change 0xFC000000 with (Z.shiftl (Z.ones 6) 26). rewrite land_field by lia.
  change (2 ^ 6) with 64. apply Z_eqb_scale. lia.
Qed.

Lemma a64_mask_hi7 w op : (Z.land w 0x7F000000 =? op * 2 ^ 24) = (w / 2 ^ 24 mod 128 =? op).
Proof.
  change 0x7F000000 with (Z.shiftl (Z.ones 7) 24). rewrite land_field by lia.
  change (2 ^ 7) with 128. apply Z_eqb_scale. lia.
Qed.

Lemma a64_mask_ret w : w / 2 ^ 26 mod 64 ≠ 53 → (Z.land w A64_MASK_RET =? A64_OP_RET) = false.
Proof.
  intros Hw. apply Z.eqb_neq. intros He.
  pose proof (land_submask _ _ 0xFC000000 _ He eq_refl) as H.
  pose proof (a64_mask_hi6 w 53) as H6. rewrite H in H6.
  change (Z.land A64_OP_RET 4227858432 =? 53 * 2 ^ 26) with true in H6.
  symmetry in H6. apply Z.eqb_eq in H6. done.
Qed.

Lemma a64_mask_bcond w :
  (Z.land w A64_MASK_BCOND =? A64_OP_BCOND) = (w / 2 ^ 24 mod 256 =? 84) && (w / 2 ^ 4 mod 2 =? 0).
Proof.
  change A64_MASK_BCOND with (Z.lor (Z.shiftl (Z.ones 1) 4) (Z.shiftl 255 24)).
  rewrite Z.land_lor_distr_r. rewrite (land_field w 1 4) by lia.
  change 255 with (Z.ones 8). rewrite (land_field w 8 24) by lia.
  rewrite <- (Z.shiftl_mul_pow2 _ 24) by lia.
  change (2 ^ 1) with 2. change (2 ^ 8) with 256.
  pose proof (Z.mod_pos_bound (w / 2 ^ 4) 2 ltac:(lia)).
  rewrite lor_add by lia. unfold A64_OP_BCOND.
  pose proof (Z.mod_pos_bound (w / 2 ^ 24) 256 ltac:(lia)).
  destruct (Z.eqb_spec (w / 2 ^ 24 mod 256) 84), (Z.eqb_spec (w / 2 ^ 4 mod 2) 0); cbn [andb];
    apply Z.eqb_eq || apply Z.eqb_neq; lia.
Qed.

(** The fields of a word whose high byte is [q]. *)
Lemma hi_byte q r : 0 <= r < 2 ^ 24 →
  (q * 2 ^ 24 + r) / 2 ^ 24 = q ∧ (q * 2 ^ 24 + r) / 2 ^ 26 = q / 4.
Proof.
  intros Hr. assert ((q * 2 ^ 24 + r) / 2 ^ 24 = q) as H24.
  { symmetry. apply (Z.div_unique_pos _ _ _ r); lia. }
  split; [done|]. change (2 ^ 26) with (2 ^ 24 * 4). by rewrite <- Z.div_div, H24 by lia.
Qed.

Lemma mid_field q m k c : 0 <= c < 32 → 0 <= m < 2 ^ k → 0 <= k <= 19 →
  Z.land (Z.shiftr (q * 2 ^ (k + 5) + m * 2 ^ 5 + c) 5) (Z.ones k) = m.
Proof.
  intros Hc Hm Hk. rewrite field_mod by lia.
  assert ((q * 2 ^ (k + 5) + m * 2 ^ 5 + c) / 2 ^ 5 = m + q * 2 ^ k) as ->.
  { symmetry. apply (Z.div_unique_pos _ _ _ c); [lia|]. rewrite Z.pow_add_r by lia. lia. }
  rewrite Z_mod_plus_full. by apply Z.mod_small.
Qed.

(** What the decoder says about a branch to [addr + 4 * imm]. *)
Definition branch_to (br : a64_branch) (addr imm : Z) (i i' : E9Instruction) : Prop :=
  insn_category i' = a64_category br ∧ insn_target i' = u64 (addr + 4 * imm) ∧
  insn_is_conditional i' = match br with A64_B | A64_BL => insn_is_conditional i | _ => true end.

Lemma a64_decode_26 br addr imm i :
  br = A64_B ∨ br = A64_BL → - 2 ^ 25 <= imm < 2 ^ 25 →
  ∃ i', a64_decode (a64_encode br imm) addr i = Some i' ∧ branch_to br addr imm i i'.
Proof.
  intros Hbr Hi. pose proof (Z.mod_pos_bound imm (2 ^ 26) ltac:(lia)) as Hm.
  assert (∀ op, (op * 2 ^ 26 + imm mod 2 ^ 26) / 2 ^ 26 = op) as Hhi.
  { intros op. symmetry. apply (Z.div_unique_pos _ _ _ (imm mod 2 ^ 26)); lia. }
  assert (∀ op, Z.land (op * 2 ^ 26 + imm mod 2 ^ 26) 0x03FFFFFF = imm mod 2 ^ 26) as Hlo.
  { intros op. change 0x03FFFFFF with (Z.ones 26). rewrite Z.land_ones by lia.
    rewrite Z.add_comm, Z_mod_plus_full. apply Z.mod_small. lia. }
  pose proof (sign_extend_spec 26 imm ltac:(lia) ltac:(lia)) as Hs.
  unfold a64_decode, A64_MASK_BL, A64_MASK_B.
  destruct Hbr as [-> | ->]; unfold a64_encode; cbn [a64_width].
  - change 0x14000000 with (5 * 2 ^ 26). rewrite Hlo.
    change A64_OP_BL with (37 * 2 ^ 26). change A64_OP_B with (5 * 2 ^ 26).
    rewrite !a64_mask_hi6, Hhi. change (5 mod 64 =? 37) with false. change (5 mod 64 =? 5) with true.
    cbv iota. eexists. split; [done|]. split; [done|]. split; [|done].
    change (insn_target _) with (a64_target addr (sign_extend 0x02000000 0xFC000000 (imm mod 2 ^ 26))).
    change 0x02000000 with (Z.shiftl (Z.ones 1) (26 - 1)).
    change 0xFC000000 with (Z.shiftl (Z.ones (32 - 26)) 26). rewrite Hs. by apply a64_target_spec.
  - change 0x94000000 with (37 * 2 ^ 26). rewrite Hlo.
    change A64_OP_BL with (37 * 2 ^ 26).
    rewrite !a64_mask_hi6, Hhi. change (37 mod 64 =? 37) with true.
    cbv iota. eexists. split; [done|]. split; [done|]. split; [|done].
    change (insn_target _) with (a64_target addr (sign_extend 0x02000000 0xFC000000 (imm mod 2 ^ 26))).
    change 0x02000000 with (Z.shiftl (Z.ones 1) (26 - 1)).
    change 0xFC000000 with (Z.shiftl (Z.ones (32 - 26)) 26). rewrite Hs. by apply a64_target_spec.
Qed.

Lemma a64_decode_high q r addr i :
  0 <= r < 2 ^ 24 → (q / 4 mod 64 ∈ [5; 37; 53] → False) →
  let w := q * 2 ^ 24 + r in
  a64_decode w addr i =
    if (q mod 256 =? 84) && (w / 2 ^ 4 mod 2 =? 0) then a64_bcond w addr i
    else if q mod 128 =? 52 then Some (a64_cbz w addr i)
    else if q mod 128 =? 54 then Some (a64_tbz w addr i)
    else Some (a64_other w i).
Proof.
  intros Hr Hq w. destruct (hi_byte q r Hr) as [H24 H26]. fold w in H24, H26.
  assert (∀ k, k ∈ [5; 37; 53] → (w / 2 ^ 26 mod 64 =? k) = false) as Hne.
  { intros k Hk. rewrite H26. apply Z.eqb_neq. intros He. apply Hq. by rewrite He. }
  unfold a64_decode, A64_MASK_BL, A64_MASK_B, A64_MASK_CBZ, A64_MASK_TBZ.
  change A64_OP_BL with (37 * 2 ^ 26). change A64_OP_B with (5 * 2 ^ 26).
  change A64_OP_CBZ with (52 * 2 ^ 24). change A64_OP_TBZ with (54 * 2 ^ 24).
  rewrite !a64_mask_hi6, !a64_mask_hi7, a64_mask_bcond, H24, !Hne by (repeat constructor).
  rewrite a64_mask_ret; [done|]. apply Z.eqb_neq, Hne. repeat constructor.
Qed.

(** The conditional branches the decoder recognises: CBZ and TBZ, not CBNZ
    and TBNZ. *)
Definition a64_recognised (br : a64_branch) : Prop :=
  match br with A64_CB _ nz _ => nz = 0 | A64_TB _ nz _ _ => nz = 0 | _ => True end.

Definition a64_in_range (br : a64_branch) (imm : Z) : Prop :=
  - 2 ^ (a64_width br - 1) <= imm < 2 ^ (a64_width br - 1).

Lemma bcond_word c m : 0 <= c < 16 → 0 <= m < 2 ^ 19 →
  let w := 84 * 2 ^ 24 + (m * 2 ^ 5 + c) in
  w / 2 ^ 4 mod 2 = 0 ∧ Z.land w 0xF = c ∧ Z.land (Z.shiftr w 5) 0x7FFFF = m.
Proof.
  intros Hc Hm w. repeat split.
  - assert (w / 2 ^ 4 = (84 * 2 ^ 19 + m) * 2) as ->.
    { symmetry. apply (Z.div_unique_pos _ _ _ c); subst w; lia. }
    apply Z_mod_mult.
  - change 0xF with (Z.ones 4). rewrite Z.land_ones by lia.
    symmetry. apply (Z.mod_unique_pos _ _ ((84 * 2 ^ 19 + m) * 2)); subst w; lia.
  - change 0x7FFFF with (Z.ones 19). subst w. rewrite Z.add_assoc. apply (mid_field 84 m 19 c); lia.
Qed.

Lemma a64_bcond_branch c addr imm i :
  0 <= c < 16 → - 2 ^ 18 <= imm < 2 ^ 18 →
  ∃ i', a64_decode (a64_encode (A64_Bcond c) imm) addr i = Some i' ∧
        branch_to (A64_Bcond c) addr imm i i'.
Proof.
  intros Hc Hi. pose proof (Z.mod_pos_bound imm (2 ^ 19) ltac:(lia)) as Hm.
  destruct (bcond_word c (imm mod 2 ^ 19) Hc Hm) as (H4 & Hcond & Hmid).
  unfold a64_encode. cbn [a64_width]. rewrite <- Z.add_assoc. change 0x54000000 with (84 * 2 ^ 24).
  rewrite a64_decode_high; [|lia|by rewrite !elem_of_cons, elem_of_nil; intros [|[|[|[]]]]].
  cbv zeta. rewrite H4. change ((84 mod 256 =? 84) && (0 =? 0)) with true. cbv iota.
  unfold a64_bcond. rewrite Hcond, Hmid.
  destruct (lookup_Z_is_Some cond_names c ltac:(cbn; lia)) as [name ->]. cbn [mbind option_bind].
  eexists. split; [done|]. split; [done|]. split; [|done].
  change 0x40000 with (Z.shiftl (Z.ones 1) (19 - 1)).
  change 0xFFF80000 with (Z.shiftl (Z.ones (32 - 19)) 19).
  rewrite (sign_extend_spec 19 imm) by lia. apply a64_target_spec. lia.
Qed.

(** CBZ and TBZ: the high byte [q] of the word. *)
Lemma a64_cb_branch sf rt addr imm i :
  0 <= sf < 2 → 0 <= rt < 32 → - 2 ^ 18 <= imm < 2 ^ 18 →
  ∃ i', a64_decode (a64_encode (A64_CB sf 0 rt) imm) addr i = Some i' ∧
        branch_to (A64_CB sf 0 rt) addr imm i i'.
Proof.
  intros Hsf Hrt Hi. pose proof (Z.mod_pos_bound imm (2 ^ 19) ltac:(lia)) as Hm.
  assert (a64_encode (A64_CB sf 0 rt) imm
          = (sf * 128 + 52) * 2 ^ 24 + (imm mod 2 ^ 19 * 2 ^ 5 + rt)) as ->
    by (unfold a64_encode; cbn [a64_width]; lia).
  pose proof (mid_field (sf * 128 + 52) (imm mod 2 ^ 19) 19 rt Hrt Hm ltac:(lia)) as Hmid.
  assert (sf = 0 ∨ sf = 1) as Hs by lia.
  rewrite a64_decode_high; [|lia|rewrite !elem_of_cons, elem_of_nil; destruct Hs as [-> | ->];
    by intros [|[|[|[]]]]].
  cbv zeta.
  replace ((sf * 128 + 52) mod 256 =? 84) with false by (destruct Hs as [-> | ->]; done).
  replace ((sf * 128 + 52) mod 128 =? 52) with true by (destruct Hs as [-> | ->]; done).
  cbn [andb]. eexists. split; [done|]. split; [done|]. split; [|done].
  unfold a64_cbz. cbv zeta. cbn [insn_target set_insn_operands set_insn_target].
  rewrite Z.add_assoc. change 0x7FFFF with (Z.ones 19). change (2 ^ 24) with (2 ^ (19 + 5)).
  rewrite Hmid. change 0x40000 with (Z.shiftl (Z.ones 1) (19 - 1)).
  change 0xFFF80000 with (Z.shiftl (Z.ones (32 - 19)) 19).
  rewrite (sign_extend_spec 19 imm) by lia. apply a64_target_spec. lia.
Qed.

Lemma a64_tb_branch b5 b40 rt addr imm i :
  0 <= b5 < 2 → 0 <= b40 < 32 → 0 <= rt < 32 → - 2 ^ 13 <= imm < 2 ^ 13 →
  ∃ i', a64_decode (a64_encode (A64_TB b5 0 b40 rt) imm) addr i = Some i' ∧
        branch_to (A64_TB b5 0 b40 rt) addr imm i i'.
Proof.
  intros Hb5 Hb40 Hrt Hi. pose proof (Z.mod_pos_bound imm (2 ^ 14) ltac:(lia)) as Hm.
  assert (a64_encode (A64_TB b5 0 b40 rt) imm
          = (b5 * 128 + 54) * 2 ^ 24 + (b40 * 2 ^ 19 + imm mod 2 ^ 14 * 2 ^ 5 + rt)) as ->
    by (unfold a64_encode; cbn [a64_width]; lia).
  pose proof (mid_field ((b5 * 128 + 54) * 2 ^ 5 + b40) (imm mod 2 ^ 14) 14 rt Hrt Hm ltac:(lia))
    as Hmid.
  assert (b5 = 0 ∨ b5 = 1) as Hs by lia.
  rewrite a64_decode_high; [|lia|rewrite !elem_of_cons, elem_of_nil; destruct Hs as [-> | ->];
    by intros [|[|[|[]]]]].
  cbv zeta.
  replace ((b5 * 128 + 54) mod 256 =? 84) with false by (destruct Hs as [-> | ->]; done).
  replace ((b5 * 128 + 54) mod 128 =? 52) with false by (destruct Hs as [-> | ->]; done).
  replace ((b5 * 128 + 54) mod 128 =? 54) with true by (destruct Hs as [-> | ->]; done).
  cbn [andb]. eexists. split; [done|]. split; [done|]. split; [|done].
  unfold a64_tbz. cbn [insn_target set_insn_operands set_insn_target set_a64_target].
  replace ((b5 * 128 + 54) * 2 ^ 24 + (b40 * 2 ^ 19 + imm mod 2 ^ 14 * 2 ^ 5 + rt))
    with (((b5 * 128 + 54) * 2 ^ 5 + b40) * 2 ^ (14 + 5) + imm mod 2 ^ 14 * 2 ^ 5 + rt)
    by (change (2 ^ (14 + 5)) with (2 ^ 19); lia).
  change 0x3FFF with (Z.ones 14). rewrite Hmid.
  change 0x2000 with (Z.shiftl (Z.ones 1) (14 - 1)).
  change 0xFFFFC000 with (Z.shiftl (Z.ones (32 - 14)) 14).
  rewrite (sign_extend_spec 14 imm) by lia. apply a64_target_spec. lia.
Qed.

Lemma a64_encode_range br imm : a64_fields_ok br → 0 <= a64_encode br imm < 2 ^ 32.
Proof.
  pose proof (Z.mod_pos_bound imm (2 ^ a64_width br) ltac:(destruct br; cbn; lia)) as Hm.
  unfold a64_encode. destruct br; cbn [a64_width a64_fields_ok] in *; lia.
Qed.

(** The decoder applied to a word in the code. *)
Lemma disasm_aarch64_word bin addr w :
  bin_wf bin → 0 <= addr → addr_to_offset bin addr + 4 <= bin_size bin → bin_size bin < 2 ^ 64 →
  0 <= w < 2 ^ 32 →
  rdn (bin_data bin) (addr_to_offset bin addr) 4 = Some (le_bytes 4 w) →
  ∃ i0, insn_target i0 = 0 ∧ insn_is_conditional i0 = false ∧
    disasm_aarch64 true bin addr = (i ← a64_decode w addr i0; Some (Some i)).
Proof.
  intros Hwf Ha Hs Hb Hw Hrdn. pose proof (addr_to_offset_nonneg bin addr Ha).
  pose proof (wf_size _ Hwf). unfold disasm_aarch64.
  set (off := addr_to_offset bin addr) in *.
  rewrite wrapu_small by lia. rewrite (proj2 (Z.ltb_ge _ _)) by lia. cbv zeta.
  assert (rd32 (at_off (bin_data bin) off) 0 = Some w) as ->.
  { rewrite <- (rd32_le w Hw). unfold rd32, rd16.
    rewrite !rd_at_off, <- !(rd_rdn _ _ _ _ _ Hrdn) by lia. done. }
  cbn [mbind option_bind negb].
  rewrite rdn_at_off, Z.add_0_r, Hrdn by lia. cbn [mbind option_bind].
  destruct (wrn_is_Some (insn_bytes zero_instruction) 0 (le_bytes 4 w)) as [bs ->]; [lia|done|].
  cbn [mbind option_bind]. eexists. split; [|split]; [..|reflexivity]; done.
Qed.

(** ** The properties *)


(** A context over some code, for the witnesses. *)
Definition raw_binary (a : E9Arch) (base : Z) (code : bytes) : E9Binary :=
  Binary code (blen code) base a E9_FORMAT_RAW false false 0 [] zero_ape.

Lemma raw_binary_wf a base code :
  Forall (λ b, (0 <=? b) && (b <? 256) = true) code → 0 <= base < 2 ^ 64 →
  bin_wf (raw_binary a base code).
Proof.
  intros Hc Hb. split; [|split; [apply blen_nonneg|done]|done].
  eapply Forall_impl; [exact Hc|]. intros b. cbn beta. unfold byte_ok. lia.
Qed.


(** Disassembling a range terminates; the instructions follow each
    other from the start of the range without a gap or an overlap, each
    decoded at its own address, and the chain stops only past the end of
    the range or where the decoder returns NULL. *)
Theorem disasm_range_chain alloc bin start end_ :
  bin_wf bin → 0 <= start < end_ → end_ + MAX_INSN_SIZE < 2 ^ 64 →
  ∃ l b, e9_disasm_range alloc (Some bin) start end_ = Some l ∧ chain bin start l b ∧
    (end_ <= b < end_ + MAX_INSN_SIZE ∨
     e9_disasm_instruction (alloc (List.length l)) (Some bin) b = Some None).
Proof.
  intros Hwf Hs He. unfold e9_disasm_range. destruct (Z.leb_spec end_ start); [lia|].
  pose proof (range_loop_safe bin Hwf alloc (Z.to_nat (end_ - start)) end_ start start []) as H'.
  unfold MAX_INSN_SIZE in *.
  apply safely_Some in H' as (l & Hl & b & Hb); [eauto|lia|lia|constructor|lia|lia].
Qed.

Lemma disasm_range_chain_witness :
  ∃ l b, e9_disasm_range (λ _, true)
      (Some (raw_binary E9_ARCH_X86_64 0 [0x55; 0x90; 0xE8; 0; 0; 0; 0; 0xC3])) 0 8 = Some l ∧
    chain (raw_binary E9_ARCH_X86_64 0 [0x55; 0x90; 0xE8; 0; 0; 0; 0; 0xC3]) 0 l b ∧
    (8 <= b < 8 + MAX_INSN_SIZE ∨
     e9_disasm_instruction true
       (Some (raw_binary E9_ARCH_X86_64 0 [0x55; 0x90; 0xE8; 0; 0; 0; 0; 0xC3])) b = Some None).
Proof.
  apply (disasm_range_chain (λ _, true)); [|lia|unfold MAX_INSN_SIZE; lia].
  apply raw_binary_wf; [|lia]. by repeat constructor.
Defined.



(** The x86-64 decoder inverts the encoding of CALL rel32 and JMP
    rel32: five bytes, and the target [addr + 5 + rel]. *)
Theorem x64_branch_roundtrip bin addr op rel :
  bin_wf bin → op ∈ [0xE8; 0xE9] → - 2 ^ 31 <= rel < 2 ^ 31 → 0 <= addr →
  addr_to_offset bin addr + 5 <= bin_size bin →
  rdn (bin_data bin) (addr_to_offset bin addr) 5 = Some (x64_branch op rel) →
  ∃ i, disasm_x64 true bin addr = Some (Some i) ∧ insn_size i = 5 ∧
    insn_category i = (if op =? 0xE8 then E9_INSN_CALL else E9_INSN_JUMP) ∧
    insn_target i = u64 (addr + 5 + rel).
Proof.
  intros Hwf Hop Hrel Ha Hs Hrdn.
  destruct (disasm_x64_branch bin addr op rel) as (i & H1 & _ & H2); eauto.
Qed.

Lemma x64_branch_roundtrip_witness :
  ∃ i, disasm_x64 true (raw_binary E9_ARCH_X86_64 0x1000 (x64_branch 0xE9 (-5))) 0x1000
       = Some (Some i) ∧ insn_size i = 5 ∧ insn_category i = E9_INSN_JUMP ∧
    insn_target i = u64 (0x1000 + 5 + -5).
Proof.
  apply (x64_branch_roundtrip _ _ 0xE9); try done; [|repeat constructor].
  apply raw_binary_wf; [by repeat constructor|lia].
Defined.

(** CBNZ and TBNZ are not recognised: the mask of the CBZ test keeps
    the bit that tells CBZ from CBNZ, so the [is_cbnz] and [is_tbnz] arms are
    dead, and the instruction is neither a conditional jump nor a branch
    with a target. *)
Theorem a64_cbnz_not_recognised addr br imm i :
  match br with A64_CB _ nz _ | A64_TB _ nz _ _ => nz = 1 | _ => False end →
  a64_fields_ok br → insn_target i = 0 →
  ∃ i', a64_decode (a64_encode br imm) addr i = Some i' ∧ insn_target i' = 0 ∧
        insn_category i' ≠ E9_INSN_COND_JUMP.
Proof.
  intros Hnz Hf Ht.
  assert (∃ q r, a64_encode br imm = q * 2 ^ 24 + r ∧ 0 <= r < 2 ^ 24 ∧ q ∈ [53; 181; 55; 183])
    as (q & r & -> & Hr & Hq).
  { pose proof (Z.mod_pos_bound imm (2 ^ a64_width br) ltac:(destruct br; cbn; lia)) as Hm.
    unfold a64_encode. destruct br as [| |?|sf nz rt|b5 nz b40 rt]; try done;
      cbn [a64_width a64_fields_ok] in *; destruct_and?; subst nz.
    - exists (sf * 128 + 53), (imm mod 2 ^ 19 * 2 ^ 5 + rt). split; [lia|]. split; [lia|].
      assert (sf = 0 ∨ sf = 1) as [-> | ->] by lia; repeat constructor.
    - exists (b5 * 128 + 55), (b40 * 2 ^ 19 + imm mod 2 ^ 14 * 2 ^ 5 + rt).
      split; [lia|]. split; [lia|].
      assert (b5 = 0 ∨ b5 = 1) as [-> | ->] by lia; repeat constructor. }
  rewrite !elem_of_cons, elem_of_nil in Hq. destruct Hq as [-> | [-> | [-> | [-> | []]]]];
    (rewrite a64_decode_high; [|lia|rewrite !elem_of_cons, elem_of_nil; by intros [|[|[|[]]]]]);
    cbv zeta; match goal with |- context [?q mod 256 =? 84] =>
      change (q mod 256 =? 84) with false; change (q mod 128 =? 52) with false;
      change (q mod 128 =? 54) with false end;
    cbn [andb]; eexists; (split; [done|]); unfold a64_other; repeat case_match; by split.
Qed.

Lemma a64_cbnz_not_recognised_witness :
  ∃ i', a64_decode (a64_encode (A64_CB 1 1 3) 8) 0x1000 zero_instruction = Some i' ∧
        insn_target i' = 0 ∧ insn_category i' ≠ E9_INSN_COND_JUMP.
Proof. apply a64_cbnz_not_recognised; done. Defined.

End Bin.
