(* ===== verification/BinPatch.v ===== *)
(** * BinPatch: the in-place binary editing pipeline

    Models src/src/e9patch/analysis/e9binpatch.c (and the types of e9binpatch.h): the
    patch session, address conversion, the NOP, jump and call generators, the
    code caves, and adding, validating, applying, verifying and reverting
    patches. *)

From S2P Require Import Prelude Binary.
Import Bin.

Module BinPatch.

(** ** Types (e9binpatch.h) *)

Inductive E9BinPatchType :=
| E9_BINPATCH_BYTES | E9_BINPATCH_INSN | E9_BINPATCH_NOP | E9_BINPATCH_CALL
| E9_BINPATCH_JMP | E9_BINPATCH_TRAMPOLINE | E9_BINPATCH_HOOK | E9_BINPATCH_DETOUR.

#[export] Instance E9BinPatchType_eq_dec : EqDecision E9BinPatchType.
Proof. solve_decision. Defined.

Definition E9_BINPATCH_FLAG_BACKUP : Z := 1.
Definition E9_BINPATCH_FLAG_VERIFY : Z := 2.
Definition E9_SECFLAG_WRITE : Z := 1.
Definition E9_SECFLAG_EXEC : Z := 4.

(** A patch.  [p_new_bytes] and [p_hook_code] are the caller's objects, which
    the session keeps by reference; the comment, never set, is not kept. *)
Record E9BinPatch := BinPatch {
  p_type : E9BinPatchType; p_flags : Z; p_address : Z; p_offset : Z; p_orig_size : Z;
  p_new_bytes : option bytes; p_new_size : Z; p_target_addr : Z; p_hook_code : option
  bytes; p_hook_code_size : Z; p_backup_bytes : option bytes; p_backup_size : Z; p_id
  : Z }.

Definition zero_patch : E9BinPatch :=
  BinPatch E9_BINPATCH_BYTES 0 0 0 0 None 0 0 None 0 None 0 0.

(** A code cave, and the finder; [num_caves] is the length of the table. *)
Record E9CodeCave := CodeCave {
  cave_address : Z; cave_offset : Z; cave_size : Z; cave_writable : bool;
  cave_executable : bool; cave_section_idx : Z }.

Record E9CaveFinder := CaveFinder {
  caves : list E9CodeCave; caves_capacity : Z; min_cave_size : Z; include_padding :
  bool; include_nop_sleds : bool }.

(** A session.  [output] is the whole buffer, of [output_capacity] bytes;
    [num_patches] is the length of [patches].  The tables of trampolines and of
    new sections stay empty: no function fills them. *)
Record E9BinPatchSession := Session {
  sbin : E9Binary; patches : list E9BinPatch; patches_capacity : Z; cave_finder :
  option E9CaveFinder; trampolines_capacity : Z; output : bytes; output_size : Z;
  output_capacity : Z; finalized : bool; error_code : Z; error_msg : string }.

(** Assignments to one field. *)
Definition set_p_type (v : E9BinPatchType) (p : E9BinPatch) : E9BinPatch :=
  {| p_type := v; p_flags := p_flags p; p_address := p_address p; p_offset := p_offset p;
  p_orig_size := p_orig_size p; p_new_bytes := p_new_bytes p; p_new_size := p_new_size p;
  p_target_addr := p_target_addr p; p_hook_code := p_hook_code p; p_hook_code_size :=
  p_hook_code_size p; p_backup_bytes := p_backup_bytes p; p_backup_size := p_backup_size
  p; p_id := p_id p |}.

Definition set_p_flags (v : Z) (p : E9BinPatch) : E9BinPatch :=
  {| p_type := p_type p; p_flags := v; p_address := p_address p; p_offset := p_offset p;
  p_orig_size := p_orig_size p; p_new_bytes := p_new_bytes p; p_new_size := p_new_size p;
  p_target_addr := p_target_addr p; p_hook_code := p_hook_code p; p_hook_code_size :=
  p_hook_code_size p; p_backup_bytes := p_backup_bytes p; p_backup_size := p_backup_size
  p; p_id := p_id p |}.

Definition set_p_address (v : Z) (p : E9BinPatch) : E9BinPatch :=
  {| p_type := p_type p; p_flags := p_flags p; p_address := v; p_offset := p_offset p;
  p_orig_size := p_orig_size p; p_new_bytes := p_new_bytes p; p_new_size := p_new_size p;
  p_target_addr := p_target_addr p; p_hook_code := p_hook_code p; p_hook_code_size :=
  p_hook_code_size p; p_backup_bytes := p_backup_bytes p; p_backup_size := p_backup_size
  p; p_id := p_id p |}.

Definition set_p_offset (v : Z) (p : E9BinPatch) : E9BinPatch :=
  {| p_type := p_type p; p_flags := p_flags p; p_address := p_address p; p_offset := v;
  p_orig_size := p_orig_size p; p_new_bytes := p_new_bytes p; p_new_size := p_new_size p;
  p_target_addr := p_target_addr p; p_hook_code := p_hook_code p; p_hook_code_size :=
  p_hook_code_size p; p_backup_bytes := p_backup_bytes p; p_backup_size := p_backup_size
  p; p_id := p_id p |}.

Definition set_p_orig_size (v : Z) (p : E9BinPatch) : E9BinPatch :=
  {| p_type := p_type p; p_flags := p_flags p; p_address := p_address p; p_offset :=
  p_offset p; p_orig_size := v; p_new_bytes := p_new_bytes p; p_new_size := p_new_size p;
  p_target_addr := p_target_addr p; p_hook_code := p_hook_code p; p_hook_code_size :=
  p_hook_code_size p; p_backup_bytes := p_backup_bytes p; p_backup_size := p_backup_size
  p; p_id := p_id p |}.

Definition set_p_new_bytes (v : option bytes) (p : E9BinPatch) : E9BinPatch :=
  {| p_type := p_type p; p_flags := p_flags p; p_address := p_address p; p_offset :=
  p_offset p; p_orig_size := p_orig_size p; p_new_bytes := v; p_new_size := p_new_size p;
  p_target_addr := p_target_addr p; p_hook_code := p_hook_code p; p_hook_code_size :=
  p_hook_code_size p; p_backup_bytes := p_backup_bytes p; p_backup_size := p_backup_size
  p; p_id := p_id p |}.

Definition set_p_new_size (v : Z) (p : E9BinPatch) : E9BinPatch :=
  {| p_type := p_type p; p_flags := p_flags p; p_address := p_address p; p_offset :=
  p_offset p; p_orig_size := p_orig_size p; p_new_bytes := p_new_bytes p; p_new_size := v;
  p_target_addr := p_target_addr p; p_hook_code := p_hook_code p; p_hook_code_size :=
  p_hook_code_size p; p_backup_bytes := p_backup_bytes p; p_backup_size := p_backup_size
  p; p_id := p_id p |}.

Definition set_p_target_addr (v : Z) (p : E9BinPatch) : E9BinPatch :=
  {| p_type := p_type p; p_flags := p_flags p; p_address := p_address p; p_offset :=
  p_offset p; p_orig_size := p_orig_size p; p_new_bytes := p_new_bytes p; p_new_size :=
  p_new_size p; p_target_addr := v; p_hook_code := p_hook_code p; p_hook_code_size :=
  p_hook_code_size p; p_backup_bytes := p_backup_bytes p; p_backup_size := p_backup_size
  p; p_id := p_id p |}.

Definition set_p_hook_code (v : option bytes) (p : E9BinPatch) : E9BinPatch :=
  {| p_type := p_type p; p_flags := p_flags p; p_address := p_address p; p_offset :=
  p_offset p; p_orig_size := p_orig_size p; p_new_bytes := p_new_bytes p; p_new_size :=
  p_new_size p; p_target_addr := p_target_addr p; p_hook_code := v; p_hook_code_size :=
  p_hook_code_size p; p_backup_bytes := p_backup_bytes p; p_backup_size := p_backup_size
  p; p_id := p_id p |}.

Definition set_p_hook_code_size (v : Z) (p : E9BinPatch) : E9BinPatch :=
  {| p_type := p_type p; p_flags := p_flags p; p_address := p_address p; p_offset :=
  p_offset p; p_orig_size := p_orig_size p; p_new_bytes := p_new_bytes p; p_new_size :=
  p_new_size p; p_target_addr := p_target_addr p; p_hook_code := p_hook_code p;
  p_hook_code_size := v; p_backup_bytes := p_backup_bytes p; p_backup_size :=
  p_backup_size p; p_id := p_id p |}.

Definition set_p_backup_bytes (v : option bytes) (p : E9BinPatch) : E9BinPatch :=
  {| p_type := p_type p; p_flags := p_flags p; p_address := p_address p; p_offset :=
  p_offset p; p_orig_size := p_orig_size p; p_new_bytes := p_new_bytes p; p_new_size :=
  p_new_size p; p_target_addr := p_target_addr p; p_hook_code := p_hook_code p;
  p_hook_code_size := p_hook_code_size p; p_backup_bytes := v; p_backup_size :=
  p_backup_size p; p_id := p_id p |}.

Definition set_p_backup_size (v : Z) (p : E9BinPatch) : E9BinPatch :=
  {| p_type := p_type p; p_flags := p_flags p; p_address := p_address p; p_offset :=
  p_offset p; p_orig_size := p_orig_size p; p_new_bytes := p_new_bytes p; p_new_size :=
  p_new_size p; p_target_addr := p_target_addr p; p_hook_code := p_hook_code p;
  p_hook_code_size := p_hook_code_size p; p_backup_bytes := p_backup_bytes p;
  p_backup_size := v; p_id := p_id p |}.

Definition set_p_id (v : Z) (p : E9BinPatch) : E9BinPatch :=
  {| p_type := p_type p; p_flags := p_flags p; p_address := p_address p; p_offset :=
  p_offset p; p_orig_size := p_orig_size p; p_new_bytes := p_new_bytes p; p_new_size :=
  p_new_size p; p_target_addr := p_target_addr p; p_hook_code := p_hook_code p;
  p_hook_code_size := p_hook_code_size p; p_backup_bytes := p_backup_bytes p;
  p_backup_size := p_backup_size p; p_id := v |}.

Definition set_cave_address (v : Z) (c : E9CodeCave) : E9CodeCave :=
  {| cave_address := v; cave_offset := cave_offset c; cave_size := cave_size c;
  cave_writable := cave_writable c; cave_executable := cave_executable c; cave_section_idx
  := cave_section_idx c |}.

Definition set_cave_offset (v : Z) (c : E9CodeCave) : E9CodeCave :=
  {| cave_address := cave_address c; cave_offset := v; cave_size := cave_size c;
  cave_writable := cave_writable c; cave_executable := cave_executable c; cave_section_idx
  := cave_section_idx c |}.

Definition set_cave_size (v : Z) (c : E9CodeCave) : E9CodeCave :=
  {| cave_address := cave_address c; cave_offset := cave_offset c; cave_size := v;
  cave_writable := cave_writable c; cave_executable := cave_executable c; cave_section_idx
  := cave_section_idx c |}.

Definition set_caves (v : list E9CodeCave) (f : E9CaveFinder) : E9CaveFinder :=
  {| caves := v; caves_capacity := caves_capacity f; min_cave_size := min_cave_size f;
  include_padding := include_padding f; include_nop_sleds := include_nop_sleds f |}.

Definition set_caves_capacity (v : Z) (f : E9CaveFinder) : E9CaveFinder :=
  {| caves := caves f; caves_capacity := v; min_cave_size := min_cave_size f;
  include_padding := include_padding f; include_nop_sleds := include_nop_sleds f |}.

Definition set_patches (v : list E9BinPatch) (s : E9BinPatchSession) : E9BinPatchSession :=
  {| sbin := sbin s; patches := v; patches_capacity := patches_capacity s; cave_finder :=
  cave_finder s; trampolines_capacity := trampolines_capacity s; output := output s;
  output_size := output_size s; output_capacity := output_capacity s; finalized :=
  finalized s; error_code := error_code s; error_msg := error_msg s |}.

Definition set_patches_capacity (v : Z) (s : E9BinPatchSession) : E9BinPatchSession :=
  {| sbin := sbin s; patches := patches s; patches_capacity := v; cave_finder :=
  cave_finder s; trampolines_capacity := trampolines_capacity s; output := output s;
  output_size := output_size s; output_capacity := output_capacity s; finalized :=
  finalized s; error_code := error_code s; error_msg := error_msg s |}.

Definition set_cave_finder (v : option E9CaveFinder) (s : E9BinPatchSession) : E9BinPatchSession :=
  {| sbin := sbin s; patches := patches s; patches_capacity := patches_capacity s;
  cave_finder := v; trampolines_capacity := trampolines_capacity s; output := output s;
  output_size := output_size s; output_capacity := output_capacity s; finalized :=
  finalized s; error_code := error_code s; error_msg := error_msg s |}.

Definition set_output (v : bytes) (s : E9BinPatchSession) : E9BinPatchSession :=
  {| sbin := sbin s; patches := patches s; patches_capacity := patches_capacity s;
  cave_finder := cave_finder s; trampolines_capacity := trampolines_capacity s; output :=
  v; output_size := output_size s; output_capacity := output_capacity s; finalized :=
  finalized s; error_code := error_code s; error_msg := error_msg s |}.

Definition set_output_size (v : Z) (s : E9BinPatchSession) : E9BinPatchSession :=
  {| sbin := sbin s; patches := patches s; patches_capacity := patches_capacity s;
  cave_finder := cave_finder s; trampolines_capacity := trampolines_capacity s; output :=
  output s; output_size := v; output_capacity := output_capacity s; finalized := finalized
  s; error_code := error_code s; error_msg := error_msg s |}.

Definition set_finalized (v : bool) (s : E9BinPatchSession) : E9BinPatchSession :=
  {| sbin := sbin s; patches := patches s; patches_capacity := patches_capacity s;
  cave_finder := cave_finder s; trampolines_capacity := trampolines_capacity s; output :=
  output s; output_size := output_size s; output_capacity := output_capacity s; finalized
  := v; error_code := error_code s; error_msg := error_msg s |}.

Definition set_error_code (v : Z) (s : E9BinPatchSession) : E9BinPatchSession :=
  {| sbin := sbin s; patches := patches s; patches_capacity := patches_capacity s;
  cave_finder := cave_finder s; trampolines_capacity := trampolines_capacity s; output :=
  output s; output_size := output_size s; output_capacity := output_capacity s; finalized
  := finalized s; error_code := v; error_msg := error_msg s |}.

Definition set_error_msg (v : string) (s : E9BinPatchSession) : E9BinPatchSession :=
  {| sbin := sbin s; patches := patches s; patches_capacity := patches_capacity s;
  cave_finder := cave_finder s; trampolines_capacity := trampolines_capacity s; output :=
  output s; output_size := output_size s; output_capacity := output_capacity s; finalized
  := finalized s; error_code := error_code s; error_msg := v |}.

(** [set_error]: the message is cut to the 256-character array. *)
Definition set_error (code : Z) (msg : string) (s : E9BinPatchSession) : E9BinPatchSession :=
  s |> set_error_code code |> set_error_msg (clip 256 msg).

(** ["%s0x%lx"] *)
Definition msg_at (text : string) (addr : Z) : string :=
  String.append text (String.append "0x" (hex addr)).

(** ** Session *)

(** The booleans are the outcomes of the four allocations. *)
Definition e9_binpatch_session_create (a1 a2 a3 a4 : bool) (bin : option E9Binary)
  : option (option E9BinPatchSession) :=
  match bin with
  | None => Some None
  | Some bin =>
      if negb (a1 && a2 && a3 && a4) then Some None
      else
        let capacity := u64 (bin_size bin + 4096) in
        raw ← rdn (bin_data bin) 0 (bin_size bin);
        out ← wrn (replicate (Z.to_nat capacity) 0) 0 raw;
        Some (Some (Session bin [] 64 None 32 out (bin_size bin) capacity false 0 ""))
  end.

(** [false] when the reallocation fails. *)
Definition ensure_patch_capacity (realloc_ok : bool) (s : E9BinPatchSession)
  : bool * E9BinPatchSession :=
  if patches_capacity s <=? Z.of_nat (List.length (patches s)) then
    if realloc_ok then (true, set_patches_capacity (patches_capacity s * 2) s)
    else (false, set_error (-1) "Failed to expand patch array" s)
  else (true, s).

(** ** Address conversion *)

Definition in_section (vaddr : Z) (sec : E9Section) : bool :=
  (sec_addr sec <=? vaddr) && (vaddr <? u64 (sec_addr sec + sec_size sec)).

Definition e9_binpatch_vaddr_to_offset (bin : option E9Binary) (vaddr : Z) : Z :=
  match bin with
  | None => 0
  | Some bin =>
      if existsb (in_section vaddr) (sections bin) then u64 (vaddr - base_address bin)
      else if (base_address bin <=? vaddr) && (vaddr <? u64 (base_address bin + bin_size bin))
      then u64 (vaddr - base_address bin)
      else 0
  end.

Definition e9_binpatch_offset_to_vaddr (bin : option E9Binary) (offset : Z) : Z :=
  match bin with
  | None => 0
  | Some bin => if bin_size bin <=? offset then 0 else u64 (base_address bin + offset)
  end.

Definition e9_binpatch_addr_executable (bin : option E9Binary) (addr : Z) : bool :=
  match bin with
  | None => false
  | Some bin =>
      match List.find (in_section addr) (sections bin) with
      | Some sec => truthy (Z.land (sec_flags sec) E9_SECFLAG_EXEC)
      | None => false
      end
  end.

(** ** NOP and jump generation *)

Definition is_aarch64 (a : E9Arch) : bool := bool_decide (a = E9_ARCH_AARCH64).

Definition nop_a64 : bytes := [0x1F; 0x20; 0x03; 0xD5].

(** [nop_seqs]; a row of the table is padded with zeroes to 9 bytes, the
    padding is never copied. *)
Definition nop_seqs : list bytes :=
  [[0x90]; [0x66; 0x90]; [0x0F; 0x1F; 0x00]; [0x0F; 0x1F; 0x40; 0x00];
   [0x0F; 0x1F; 0x44; 0x00; 0x00]; [0x66; 0x0F; 0x1F; 0x44; 0x00; 0x00];
   [0x0F; 0x1F; 0x80; 0x00; 0x00; 0x00; 0x00];
   [0x0F; 0x1F; 0x84; 0x00; 0x00; 0x00; 0x00; 0x00];
   [0x66; 0x0F; 0x1F; 0x84; 0x00; 0x00; 0x00; 0x00; 0x00]].

(** The two loops, writing at [buf + off]. *)
Fixpoint nops_a64 (n : nat) (buf : bytes) (off i : Z) : option bytes :=
  match n with
  | O => Some buf
  | S n' => buf ← wrn buf (off + i * 4) nop_a64; nops_a64 n' buf off (i + 1)
  end.

Fixpoint nops_x64 (fuel : nat) (buf : bytes) (off pos size : Z) : option bytes :=
  if pos <? size then
    match fuel with
    | O => None
    | S f =>
        let remain := size - pos in
        let nop_size := if 9 <? remain then 9 else remain in
        seq ← nop_seqs !! Z.to_nat (nop_size - 1);
        raw ← rdn seq 0 nop_size;
        buf ← wrn buf (off + pos) raw;
        nops_x64 f buf off (pos + nop_size) size
    end
  else Some buf.

(** [e9_binpatch_gen_nops(arch, buf + off, size)] *)
Definition e9_binpatch_gen_nops (a : E9Arch) (buf : option bytes) (off size : Z)
  : option (option bytes) :=
  match buf with
  | None => Some None
  | Some buf =>
      if size =? 0 then Some (Some buf)
      else if is_aarch64 a then b ← nops_a64 (Z.to_nat (size / 4)) buf off 0; Some (Some b)
      else b ← nops_x64 (Z.to_nat size) buf off 0 size; Some (Some b)
  end.

(** The returned size and the bytes put at the start of the buffer. *)
Definition jmp_code (a : E9Arch) (from to : Z) : Z * bytes :=
  if is_aarch64 a then
    let offset := s64 (to - from) in
    if (-128 * 1024 * 1024 <=? offset) && (offset <? 128 * 1024 * 1024) then
      let imm26 := Z.land (s32 (Z.quot offset 4)) 0x03FFFFFF in
      (4, le_bytes 4 (Z.lor 0x14000000 imm26))
    else (16, [0x50; 0x00; 0x00; 0x58; 0x00; 0x02; 0x1F; 0xD6] ++ le_bytes 8 to)
  else
    let offset := s64 (to - u64 (from + 5)) in
    if (INT32_MIN <=? offset) && (offset <=? INT32_MAX) then
      (5, 0xE9 :: le_bytes 4 (u32 (s32 offset)))
    else (14, [0xFF; 0x25; 0x00; 0x00; 0x00; 0x00] ++ le_bytes 8 to).

Definition call_code (a : E9Arch) (from to : Z) : Z * bytes :=
  if is_aarch64 a then
    let offset := s64 (to - from) in
    if (-128 * 1024 * 1024 <=? offset) && (offset <? 128 * 1024 * 1024) then
      let imm26 := Z.land (s32 (Z.quot offset 4)) 0x03FFFFFF in
      (4, le_bytes 4 (Z.lor 0x94000000 imm26))
    else
      (20, [0x50; 0x00; 0x00; 0x58; 0x00; 0x02; 0x3F; 0xD6; 0x03; 0x00; 0x00; 0x14]
           ++ le_bytes 8 to)
  else
    let offset := s64 (to - u64 (from + 5)) in
    if (INT32_MIN <=? offset) && (offset <=? INT32_MAX) then
      (5, 0xE8 :: le_bytes 4 (u32 (s32 offset)))
    else (12, [0x48; 0xB8] ++ le_bytes 8 to ++ [0xFF; 0xD0]).

(** The generators: a NULL buffer gives 0, another one receives the code. *)
Definition e9_binpatch_gen_jmp (a : E9Arch) (buf : option bytes) (from to : Z)
  : option (Z * option bytes) :=
  match buf with
  | None => Some (0, None)
  | Some buf => let '(n, code) := jmp_code a from to in
                buf ← wrn buf 0 code; Some (n, Some buf)
  end.

Definition e9_binpatch_gen_call (a : E9Arch) (buf : option bytes) (from to : Z)
  : option (Z * option bytes) :=
  match buf with
  | None => Some (0, None)
  | Some buf => let '(n, code) := call_code a from to in
                buf ← wrn buf 0 code; Some (n, Some buf)
  end.

(** ** Code caves *)

(** The scan of one section. *)
Record cave_scan := Scan {
  sc_i : Z; sc_run_start : Z; sc_run_len : Z; sc_in_run : bool; sc_finder : E9CaveFinder }.

(** What one byte (one word on AArch64) does to the run: [Some] when it
    extends it, with the number of bytes consumed. *)
Definition cave_byte (a : E9Arch) (data : bytes) (sec_size i : Z) : option (option Z) :=
  if is_aarch64 a then
    if (i mod 4 =? 0) && (i + 4 <=? sec_size) then
      w ← rd32 data i; Some (if w =? 0xD503201F then Some 4 else None)
    else Some None
  else
    b ← rd data i; Some (if one_of [0x00; 0x90; 0xCC] b then Some 1 else None).

(** The cave of a run. *)
Definition run_cave (sec : E9Section) (sec_offset run_start run_len idx : Z) : E9CodeCave :=
  CodeCave (u64 (sec_addr sec + run_start)) (u64 (sec_offset + run_start)) run_len
    (truthy (Z.land (sec_flags sec) E9_SECFLAG_WRITE)) true (s32 idx).

Definition num_caves (f : E9CaveFinder) : Z := Z.of_nat (List.length (caves f)).

(** Adding a cave, growing the table when it is full: [grow n] is the outcome
    of the reallocation of a table of [n] caves; [None] is the [return -1]. *)
Definition push_cave (grow : Z → bool) (c : E9CodeCave) (f : E9CaveFinder)
  : option E9CaveFinder :=
  if caves_capacity f <=? num_caves f then
    if grow (num_caves f)
    then Some (f |> set_caves_capacity (caves_capacity f * 2) |> set_caves (caves f ++ [c]))
    else None
  else Some (set_caves (caves f ++ [c]) f).

(** One iteration: [inl] is the early return. *)
Definition cave_step (grow : Z → bool) (a : E9Arch) (data : bytes) (sec : E9Section)
    (sec_offset idx : Z) (st : cave_scan) : option (E9CaveFinder + cave_scan) :=
  let '(Scan i run_start run_len in_run f) := st in
  adv ← cave_byte a data (sec_size sec) i;
  match adv with
  | Some n =>
      Some (inr (Scan (i + n) (if in_run then run_start else i)
                   (if in_run then run_len + n else n) true f))
  | None =>
      if in_run then
        if min_cave_size f <=? run_len then
          match push_cave grow (run_cave sec sec_offset run_start run_len idx) f with
          | Some f => Some (inr (Scan (i + 1) run_start 0 false f))
          | None => Some (inl f)
          end
        else Some (inr (Scan (i + 1) run_start 0 false f))
      else Some (inr (Scan (i + 1) run_start run_len false f))
  end.

(** The byte loop; [fuel = sec_size] is enough. *)
Fixpoint cave_loop (fuel : nat) (grow : Z → bool) (a : E9Arch) (data : bytes)
    (sec : E9Section) (sec_offset idx : Z) (st : cave_scan)
  : option (E9CaveFinder + cave_scan) :=
  if sc_i st <? sec_size sec then
    match fuel with
    | O => None
    | S fuel' =>
        r ← cave_step grow a data sec sec_offset idx st;
        match r with
        | inl f => Some (inl f)
        | inr st => cave_loop fuel' grow a data sec sec_offset idx st
        end
    end
  else Some (inr st).

(** One section. *)
Definition cave_section (grow : Z → bool) (bin : E9Binary) (idx : Z) (sec : E9Section)
    (f : E9CaveFinder) : option (E9CaveFinder + E9CaveFinder) :=
  if negb (truthy (Z.land (sec_flags sec) E9_SECFLAG_EXEC)) then Some (inr f)
  else
    let sec_offset := e9_binpatch_vaddr_to_offset (Some bin) (sec_addr sec) in
    if bin_size bin <? u64 (sec_offset + sec_size sec) then Some (inr f)
    else
      r ← cave_loop (Z.to_nat (sec_size sec)) grow (arch bin) (at_off (bin_data bin) sec_offset)
            sec sec_offset idx (Scan 0 0 0 false f);
      match r with
      | inl f => Some (inl f)
      | inr st =>
          let f := sc_finder st in
          if sc_in_run st && (min_cave_size f <=? sc_run_len st)
             && (num_caves f <? caves_capacity f)
          then Some (inr (set_caves (caves f ++ [run_cave sec sec_offset (sc_run_start st)
                                                  (sc_run_len st) idx]) f))
          else Some (inr f)
      end.

Fixpoint cave_sections (grow : Z → bool) (bin : E9Binary) (idx : Z) (secs : list E9Section)
    (f : E9CaveFinder) : option (E9CaveFinder + E9CaveFinder) :=
  match secs with
  | [] => Some (inr f)
  | sec :: secs =>
      r ← cave_section grow bin idx sec f;
      match r with
      | inl f => Some (inl f)
      | inr f => cave_sections grow bin (idx + 1) secs f
      end
  end.

(** [a1] and [a2] are the outcomes of the allocations of a new finder. *)
Definition e9_caves_find (a1 a2 : bool) (grow : Z → bool) (session : option E9BinPatchSession)
    (min_size : Z) : option (Z * option E9BinPatchSession) :=
  match session with
  | None => Some (-1, None)
  | Some s =>
      let finder :=
        match cave_finder s with
        | Some f => Some f
        | None => if a1 && a2
                  then Some (CaveFinder [] 64 (if 0 <? min_size then min_size else 8) true true)
                  else None
        end in
      match finder with
      | None => Some (-1, Some s)
      | Some f =>
          r ← cave_sections grow (sbin s) 0 (sections (sbin s)) (set_caves [] f);
          match r with
          | inl f => Some (-1, Some (set_cave_finder (Some f) s))
          | inr f => Some (s32 (num_caves f), Some (set_cave_finder (Some f) s))
          end
      end
  end.

(** The loop for the smallest cave that fits: the index kept so far. *)
Fixpoint best_cave (size : Z) (l : list E9CodeCave) (i : nat) (best : option (nat * E9CodeCave))
  : option (nat * E9CodeCave) :=
  match l with
  | [] => best
  | c :: l =>
      let better := (size <=? cave_size c) &&
        match best with None => true | Some (_, b) => cave_size c <? cave_size b end in
      best_cave size l (S i) (if better then Some (i, c) else best)
  end.

Definition e9_caves_alloc (session : option E9BinPatchSession) (size : Z)
  : Z * option E9BinPatchSession :=
  match session with
  | None => (0, None)
  | Some s =>
      match cave_finder s with
      | None => (0, Some s)
      | Some f =>
          match best_cave size (caves f) 0 None with
          | None => (0, Some s)
          | Some (i, c) =>
              let c' := c |> set_cave_address (u64 (cave_address c + size))
                          |> set_cave_offset (u64 (cave_offset c + size))
                          |> set_cave_size (cave_size c - size) in
              (cave_address c,
               Some (set_cave_finder (Some (set_caves (<[i := c']> (caves f)) f)) s))
          end
      end
  end.

(** The table and its length; NULL without a finder. *)
Definition e9_caves_list (session : option E9BinPatchSession) : option (list E9CodeCave) * Z :=
  match session with
  | None => (None, 0)
  | Some s =>
      match cave_finder s with
      | None => (None, 0)
      | Some f => (Some (caves f), num_caves f)
      end
  end.

(** ** Adding patches *)

(** Reading [n] bytes through a pointer that may be NULL; no byte is read
    when [n] is 0. *)
Definition read_ptr (p : option bytes) (n : Z) : option bytes :=
  match p with
  | Some b => rdn b 0 n
  | None => if n =? 0 then Some [] else None
  end.

(** [mem] gives the outcomes of the reallocation of the table and of the
    allocation of the backup. *)
Definition add_patch (mem : bool * bool) (s : E9BinPatchSession) (patch : E9BinPatch)
  : option (Z * E9BinPatchSession) :=
  let '(ok, s) := ensure_patch_capacity mem.1 s in
  if negb ok then Some (-1, s)
  else
    let patch := set_p_id (s32 (Z.of_nat (List.length (patches s)))) patch in
    let missing := (p_offset patch =? 0) && negb (p_address patch =? 0) in
    let patch := if missing
                 then set_p_offset (e9_binpatch_vaddr_to_offset (Some (sbin s)) (p_address patch)) patch
                 else patch in
    if missing && (p_offset patch =? 0) then
      Some (-1, set_error (-1) (msg_at "Cannot find offset for address " (p_address patch)) s)
    else
      patch ← (if truthy (Z.land (p_flags patch) E9_BINPATCH_FLAG_BACKUP) then
                 let backup_size := if 0 <? p_orig_size patch then p_orig_size patch
                                    else p_new_size patch in
                 if (0 <? backup_size) && (u64 (p_offset patch + backup_size) <=? bin_size (sbin s))
                    && mem.2 then
                   raw ← rdn (bin_data (sbin s)) (p_offset patch) backup_size;
                   Some (patch |> set_p_backup_bytes (Some raw) |> set_p_backup_size backup_size)
                 else Some patch
               else Some patch);
      Some (p_id patch, set_patches (patches s ++ [patch]) s).

(** The calls that add a patch: [session] and the caller's buffer may be NULL. *)
Definition add_to (mem : bool * bool) (s : E9BinPatchSession) (patch : E9BinPatch)
  : option (Z * option E9BinPatchSession) :=
  '(r, s) ← add_patch mem s patch; Some (r, Some s).

(** The test of [finalized] every such call makes. *)
Definition unless_finalized (s : E9BinPatchSession)
    (k : option (Z * option E9BinPatchSession)) : option (Z * option E9BinPatchSession) :=
  if finalized s then Some (-1, Some (set_error (-1) "Session already finalized" s)) else k.

Definition e9_binpatch_bytes (mem : bool * bool) (session : option E9BinPatchSession) (addr : Z)
    (bytes_ : option bytes) (size flags : Z) : option (Z * option E9BinPatchSession) :=
  match session, bytes_ with
  | Some s, Some _ =>
      if size =? 0 then Some (-1, session)
      else
        unless_finalized s (add_to mem s
          (zero_patch |> set_p_type E9_BINPATCH_BYTES |> set_p_flags flags |> set_p_address addr
             |> set_p_new_bytes bytes_ |> set_p_new_size size |> set_p_orig_size size))
  | _, _ => Some (-1, session)
  end.

Definition e9_binpatch_nop (mem : bool * bool) (session : option E9BinPatchSession)
    (addr size flags : Z) : option (Z * option E9BinPatchSession) :=
  match session with
  | Some s =>
      if size =? 0 then Some (-1, session)
      else
        unless_finalized s (add_to mem s
          (zero_patch |> set_p_type E9_BINPATCH_NOP |> set_p_flags flags |> set_p_address addr
             |> set_p_new_size size |> set_p_orig_size size))
  | None => Some (-1, None)
  end.

(** *** e9_binpatch_insn_size_at *)

(** The opcodes returned on at once: the number of bytes after the opcode. *)
Definition insn_fixed (opcode : Z) : option Z :=
  if Z.land opcode 0xF8 =? 0x50 then Some 0
  else if Z.land opcode 0xF8 =? 0x58 then Some 0
  else if Z.land opcode 0xF8 =? 0xB8 then Some 4
  else if Z.land opcode 0xF0 =? 0x70 then Some 1
  else if opcode =? 0xEB then Some 1
  else if opcode =? 0xE9 then Some 4
  else if opcode =? 0xE8 then Some 4
  else if (opcode =? 0xC3) || (opcode =? 0xCB) then Some 0
  else if (opcode =? 0xC2) || (opcode =? 0xCA) then Some 2
  else if opcode =? 0x90 then Some 0
  else if opcode =? 0xCC then Some 0
  else None.

Definition insn_has_modrm (opcode : Z) : bool :=
  (Z.land opcode 0xC0 =? 0x00) || (Z.land opcode 0xF8 =? 0x80) || (Z.land opcode 0xF8 =? 0x88)
  || (Z.land opcode 0xF8 =? 0xF8) || one_of [0x63; 0x69; 0x6B; 0x8D; 0xC6; 0xC7] opcode.

Definition insn_imm_size (opcode : Z) : Z :=
  if opcode =? 0x6A then 1
  else if opcode =? 0x68 then 4
  else if Z.land opcode 0xF8 =? 0xB0 then 1
  else if Z.land opcode 0xFE =? 0x04 then 1
  else 0.

(** ModR/M, SIB and displacement, then the immediate. *)
Definition insn_tail (code : bytes) (max_len pos : Z) (has_modrm : bool) (imm_size : Z)
  : option Z :=
  if has_modrm && (pos <? max_len) then
    modrm ← rd code pos;
    let pos := pos + 1 in
    let md := Z.land (Z.shiftr modrm 6) 3 in
    let rm := Z.land modrm 7 in
    let pos := if negb (md =? 3) && (rm =? 4) && (pos <? max_len) then pos + 1 else pos in
    let pos := if (md =? 0) && (rm =? 5) then pos + 4
               else if md =? 1 then pos + 1 else if md =? 2 then pos + 4 else pos in
    Some (pos + imm_size)
  else Some (pos + imm_size).

Definition e9_binpatch_insn_size_at (bin : option E9Binary) (addr : Z) : option Z :=
  match bin with
  | None => Some 0
  | Some b =>
      let offset := e9_binpatch_vaddr_to_offset bin addr in
      if (offset =? 0) || (bin_size b <=? offset) then Some 0
      else if is_aarch64 (arch b) then Some 4
      else
        let code := at_off (bin_data b) offset in
        let max_len := Z.min (bin_size b - offset) 15 in
        pos ← skip_while (Z.to_nat max_len) (one_of legacy_prefixes) code max_len 0;
        pos ← (if pos <? max_len then
                 b ← rd code pos; Some (if Z.land b 0xF0 =? 0x40 then pos + 1 else pos)
               else Some pos);
        if max_len <=? pos then Some 0
        else
          opcode ← rd code pos;
          let pos := pos + 1 in
          if opcode =? 0x0F then
            if max_len <=? pos then Some 0
            else
              opcode ← rd code pos;
              let pos := pos + 1 in
              if (opcode =? 0x38) || (opcode =? 0x3A) then
                if max_len <=? pos then Some 0
                else insn_tail code max_len (pos + 1) true (if opcode =? 0x3A then 1 else 0)
              else if between 0x80 0x8F opcode then insn_tail code max_len pos false 4
              else insn_tail code max_len pos true 0
          else
            match insn_fixed opcode with
            | Some n => Some (pos + n)
            | None => insn_tail code max_len pos (insn_has_modrm opcode) (insn_imm_size opcode)
            end
  end.

Definition e9_binpatch_insn (mem : bool * bool) (session : option E9BinPatchSession) (addr : Z)
    (new_insn : option bytes) (new_size flags : Z) : option (Z * option E9BinPatchSession) :=
  match session, new_insn with
  | Some s, Some _ =>
      if new_size =? 0 then Some (-1, session)
      else
        unless_finalized s (
          orig_size ← e9_binpatch_insn_size_at (Some (sbin s)) addr;
          if orig_size =? 0 then
            Some (-1, Some (set_error (-1) (msg_at "Cannot determine instruction size at " addr) s))
          else
            let patch :=
              zero_patch |> set_p_type E9_BINPATCH_INSN |> set_p_flags flags |> set_p_address addr
                |> set_p_new_bytes new_insn |> set_p_new_size new_size |> set_p_orig_size orig_size in
            add_to mem s (if orig_size <? new_size then set_p_type E9_BINPATCH_TRAMPOLINE patch
                          else patch))
  | _, _ => Some (-1, session)
  end.

Definition branch_size (s : E9BinPatchSession) : Z := if is_aarch64 (arch (sbin s)) then 4 else 5.

Definition e9_binpatch_call (mem : bool * bool) (session : option E9BinPatchSession)
    (call_addr new_target flags : Z) : option (Z * option E9BinPatchSession) :=
  match session with
  | Some s =>
      unless_finalized s (add_to mem s
        (zero_patch |> set_p_type E9_BINPATCH_CALL |> set_p_flags flags |> set_p_address call_addr
           |> set_p_target_addr new_target |> set_p_orig_size (branch_size s)
           |> set_p_new_size (branch_size s)))
  | None => Some (-1, None)
  end.

Definition e9_binpatch_jmp (mem : bool * bool) (session : option E9BinPatchSession)
    (jmp_addr new_target flags : Z) : option (Z * option E9BinPatchSession) :=
  match session with
  | Some s =>
      unless_finalized s (add_to mem s
        (zero_patch |> set_p_type E9_BINPATCH_JMP |> set_p_flags flags |> set_p_address jmp_addr
           |> set_p_target_addr new_target |> set_p_orig_size (branch_size s)
           |> set_p_new_size (branch_size s)))
  | None => Some (-1, None)
  end.

Definition e9_binpatch_hook (mem : bool * bool) (session : option E9BinPatchSession)
    (func_addr : Z) (hook_code : option bytes) (hook_size flags : Z)
  : option (Z * option E9BinPatchSession) :=
  match session, hook_code with
  | Some s, Some _ =>
      if hook_size =? 0 then Some (-1, session)
      else
        unless_finalized s (
          orig_size ← e9_binpatch_insn_size_at (Some (sbin s)) func_addr;
          add_to mem s
            (zero_patch |> set_p_type E9_BINPATCH_HOOK |> set_p_flags flags
               |> set_p_address func_addr |> set_p_hook_code hook_code
               |> set_p_hook_code_size hook_size |> set_p_orig_size orig_size))
  | _, _ => Some (-1, session)
  end.

(** The third component: [Some 0] when [*orig_func_ptr] is set to 0. *)
Definition e9_binpatch_detour (mem : bool * bool) (session : option E9BinPatchSession)
    (func_addr : Z) (new_func : option bytes) (new_func_size : Z) (has_ptr : bool) (flags : Z)
  : option (Z * option E9BinPatchSession * option Z) :=
  match session, new_func with
  | Some s, Some _ =>
      if new_func_size =? 0 then Some (-1, session, None)
      else
        '(id, s') ← unless_finalized s (add_to mem s
            (zero_patch |> set_p_type E9_BINPATCH_DETOUR |> set_p_flags flags
               |> set_p_address func_addr |> set_p_hook_code new_func
               |> set_p_hook_code_size new_func_size));
        Some (id, s', if (0 <=? id) && has_ptr then Some 0 else None)
  | _, _ => Some (-1, session, None)
  end.

(** ** Applying *)

Definition overlap (p1 p2 : E9BinPatch) : bool :=
  let end1 := u64 (p_offset p1 + p_orig_size p1) in
  let end2 := u64 (p_offset p2 + p_orig_size p2) in
  (p_offset p1 <? end2) && (p_offset p2 <? end1).

(** The two loops of [e9_binpatch_validate]: the first overlapping pair. *)
Fixpoint find_overlap (l : list E9BinPatch) : option (E9BinPatch * E9BinPatch) :=
  match l with
  | [] => None
  | p1 :: l =>
      match List.find (overlap p1) l with
      | Some p2 => Some (p1, p2)
      | None => find_overlap l
      end
  end.

Definition e9_binpatch_validate (session : option E9BinPatchSession)
  : Z * option E9BinPatchSession :=
  match session with
  | None => (-1, None)
  | Some s =>
      match find_overlap (patches s) with
      | Some (p1, p2) =>
          (-1, Some (set_error (-1) (String.append (msg_at "Overlapping patches at " (p_address p1))
                                       (msg_at " and " (p_address p2))) s))
      | None => (0, Some s)
      end
  end.

(** The two steps of CALL and JMP: the code, then NOPs up to [orig_size];
    [inl] is the early return. *)
Definition apply_branch (msg : string) (a : E9Arch) (code : Z * bytes) (p : E9BinPatch)
    (s : E9BinPatchSession) : option (E9BinPatchSession + E9BinPatchSession) :=
  let '(size, buf) := code in
  if p_orig_size p <? size then Some (inl (set_error (-1) (msg_at msg (p_address p)) s))
  else
    out ← wrn (output s) (p_offset p) buf;
    out ← (if size <? p_orig_size p
           then e9_binpatch_gen_nops a (Some out) (p_offset p + size) (p_orig_size p - size)
           else Some (Some out));
    out ← out;
    Some (inr (set_output out s)).

(** The jump written over the patched instruction. *)
Definition patch_jump (a : E9Arch) (p : E9BinPatch) (cave_addr : Z) (out : bytes) : option bytes :=
  let '(jmp_size, jmp) := jmp_code a (p_address p) cave_addr in
  if (jmp_size <=? p_orig_size p) || (p_orig_size p =? 0) then
    let write_size := if 0 <? p_orig_size p then p_orig_size p else jmp_size in
    out ← wrn out (p_offset p) jmp;
    if jmp_size <? write_size then
      o ← e9_binpatch_gen_nops a (Some out) (p_offset p + jmp_size) (write_size - jmp_size); o
    else Some out
  else Some out.

(** TRAMPOLINE, HOOK and DETOUR; [mem] gives the outcomes of the allocations
    of the cave search. *)
Definition apply_cave (mem : bool * bool) (grow : Z → bool) (p : E9BinPatch)
    (s : E9BinPatchSession) : option (E9BinPatchSession + E9BinPatchSession) :=
  let a := arch (sbin s) in
  s ← (match cave_finder s with
       | Some _ => Some s
       | None => '(_, s') ← e9_caves_find mem.1 mem.2 grow (Some s) 16; s'
       end);
  let '(cave_addr, s') := e9_caves_alloc (Some s) (u64 (p_hook_code_size p + 32)) in
  s ← s';
  if cave_addr =? 0 then
    Some (inl (set_error (-1) (msg_at "No code cave available for patch at " (p_address p)) s))
  else
    let cave_offset := e9_binpatch_vaddr_to_offset (Some (sbin s)) cave_addr in
    if (0 <? cave_offset) && (u64 (cave_offset + p_hook_code_size p) <=? output_size s) then
      hook ← read_ptr (p_hook_code p) (p_hook_code_size p);
      out ← wrn (output s) cave_offset hook;
      out ← (if bool_decide (p_type p = E9_BINPATCH_HOOK) then
               wrn out (cave_offset + p_hook_code_size p)
                 (jmp_code a (u64 (cave_addr + p_hook_code_size p))
                    (u64 (p_address p + p_orig_size p))).2
             else Some out);
      out ← patch_jump a p cave_addr out;
      Some (inr (set_output out s))
    else Some (inr s).

(** The body of the loop. *)
Definition apply_patch (mem : bool * bool) (grow : Z → bool) (p : E9BinPatch)
    (s : E9BinPatchSession) : option (E9BinPatchSession + E9BinPatchSession) :=
  let a := arch (sbin s) in
  if output_capacity s <? u64 (p_offset p + p_new_size p) then
    Some (inl (set_error (-1) (String.append (msg_at "Patch at " (p_address p))
                                 " exceeds binary size") s))
  else
    match p_type p with
    | E9_BINPATCH_BYTES =>
        raw ← read_ptr (p_new_bytes p) (p_new_size p);
        out ← wrn (output s) (p_offset p) raw;
        Some (inr (set_output out s))
    | E9_BINPATCH_NOP =>
        out ← e9_binpatch_gen_nops a (Some (output s)) (p_offset p) (p_new_size p);
        out ← out;
        Some (inr (set_output out s))
    | E9_BINPATCH_INSN =>
        raw ← read_ptr (p_new_bytes p) (p_new_size p);
        out ← wrn (output s) (p_offset p) raw;
        out ← (if p_new_size p <? p_orig_size p
               then e9_binpatch_gen_nops a (Some out) (p_offset p + p_new_size p)
                      (p_orig_size p - p_new_size p)
               else Some (Some out));
        out ← out;
        Some (inr (set_output out s))
    | E9_BINPATCH_CALL =>
        apply_branch "Call patch too large at " a (call_code a (p_address p) (p_target_addr p)) p s
    | E9_BINPATCH_JMP =>
        apply_branch "Jump patch too large at " a (jmp_code a (p_address p) (p_target_addr p)) p s
    | _ => apply_cave mem grow p s
    end.

Fixpoint apply_patches (mem : bool * bool) (grow : Z → bool) (l : list E9BinPatch)
    (s : E9BinPatchSession) : option (E9BinPatchSession + E9BinPatchSession) :=
  match l with
  | [] => Some (inr s)
  | p :: l =>
      r ← apply_patch mem grow p s;
      match r with
      | inl s => Some (inl s)
      | inr s => apply_patches mem grow l s
      end
  end.

Definition e9_binpatch_apply (mem : bool * bool) (grow : Z → bool)
    (session : option E9BinPatchSession) : option (Z * option E9BinPatchSession) :=
  match session with
  | None => Some (-1, None)
  | Some s =>
      if finalized s then Some (0, session)
      else
        match e9_binpatch_validate session with
        | (code, s') =>
            s ← s';
            if code <? 0 then Some (-1, Some s)
            else
              r ← apply_patches mem grow (patches s) s;
              match r with
              | inl s => Some (-1, Some s)
              | inr s => Some (0, Some (set_finalized true s))
              end
        end
  end.

(** The returned buffer (NULL is [None]), its size and the session. *)
Definition e9_binpatch_get_output (mem : bool * bool) (grow : Z → bool)
    (session : option E9BinPatchSession)
  : option (option bytes * Z * option E9BinPatchSession) :=
  match session with
  | None => Some (None, 0, None)
  | Some s =>
      '(code, s') ← (if finalized s then Some (0, session) else e9_binpatch_apply mem grow session);
      s ← s';
      if code <? 0 then Some (None, 0, Some s) else Some (Some (output s), output_size s, Some s)
  end.

(** The loop of [e9_binpatch_verify]: the first patch that fails. *)
Fixpoint verify_patches (l : list E9BinPatch) (out : bytes) : option (option E9BinPatch) :=
  match l with
  | [] => Some None
  | p :: l =>
      if truthy (Z.land (p_flags p) E9_BINPATCH_FLAG_VERIFY)
         && bool_decide (p_type p = E9_BINPATCH_BYTES) then
        match p_new_bytes p with
        | None => verify_patches l out
        | Some b =>
            raw ← rdn b 0 (p_new_size p);
            eq ← memeq out (p_offset p) raw;
            if (eq : bool) then verify_patches l out else Some (Some p)
        end
      else verify_patches l out
  end.

Definition e9_binpatch_verify (session : option E9BinPatchSession)
  : option (Z * option E9BinPatchSession) :=
  match session with
  | None => Some (-1, None)
  | Some s =>
      if negb (finalized s) then Some (-1, session)
      else
        r ← verify_patches (patches s) (output s);
        match r with
        | Some p => Some (-1, Some (set_error (-1)
                      (msg_at "Verification failed for patch at " (p_address p)) s))
        | None => Some (0, session)
        end
  end.

(** ** Undo *)

Definition e9_binpatch_revert (session : option E9BinPatchSession) (patch_id : Z)
  : option (Z * option E9BinPatchSession) :=
  match session with
  | None => Some (-1, None)
  | Some s =>
      if (patch_id <? 0) || (Z.of_nat (List.length (patches s)) <=? patch_id) then Some (-1, session)
      else
        p ← patches s !! Z.to_nat patch_id;
        match p_backup_bytes p with
        | Some raw =>
            if p_backup_size p =? 0 then
              Some (-1, Some (set_error (-1)
                (String.append "No backup available for patch " (dec patch_id)) s))
            else
              raw ← rdn raw 0 (p_backup_size p);
              out ← wrn (output s) (p_offset p) raw;
              Some (0, Some (set_output out s))
        | None =>
            Some (-1, Some (set_error (-1)
              (String.append "No backup available for patch " (dec patch_id)) s))
        end
  end.

Definition e9_binpatch_revert_all (session : option E9BinPatchSession)
  : option (Z * option E9BinPatchSession) :=
  match session with
  | None => Some (-1, None)
  | Some s =>
      raw ← rdn (bin_data (sbin s)) 0 (bin_size (sbin s));
      out ← wrn (output s) 0 raw;
      Some (0, Some (s |> set_output out |> set_output_size (bin_size (sbin s))
                       |> set_finalized false))
  end.

(** * Properties *)

(** ** NOP sleds

    What [e9_binpatch_gen_nops] puts in the buffer, without a loop over it. *)

Fixpoint sled_x64 (fuel : nat) (size : Z) : list bytes :=
  match fuel with
  | O => []
  | S f =>
      if 0 <? size then
        let n := if 9 <? size then 9 else size in
        default [] (nop_seqs !! Z.to_nat (n - 1)) :: sled_x64 f (size - n)
      else []
  end.

(** The instructions of the sled, and its bytes. *)
Definition sled (a : E9Arch) (size : Z) : list bytes :=
  if is_aarch64 a then replicate (Z.to_nat (size / 4)) nop_a64 else sled_x64 (Z.to_nat size) size.

Definition nop_sled (a : E9Arch) (size : Z) : bytes := concat (sled a size).

Lemma nop_seqs_row n :
  1 <= n <= 9 → ∃ row, nop_seqs !! Z.to_nat (n - 1) = Some row ∧ blen row = n ∧ rdn row 0 n = Some row.
Proof.
  intros Hn. destruct (lookup_Z_is_Some nop_seqs (n - 1)) as [row Hrow]; [cbn; lia|].
  exists row. split; [done|].
  assert (∀ k, k ∈ [1; 2; 3; 4; 5; 6; 7; 8; 9] →
    match nop_seqs !! Z.to_nat (k - 1) with
    | Some r => blen r = k ∧ rdn r 0 k = Some r
    | None => False
    end) as Hall.
  { intros k. rewrite !elem_of_cons, elem_of_nil.
    intros Hk. repeat destruct Hk as [->|Hk]; done. }
  specialize (Hall n). rewrite Hrow in Hall. apply Hall. rewrite !elem_of_cons. lia.
Qed.

Lemma nops_x64_write fuel buf off pos size :
  0 <= off → 0 <= pos <= size → off + size <= blen buf → size - pos <= Z.of_nat fuel →
  ∃ out, nops_x64 fuel buf off pos size = Some out ∧
    wrn buf (off + pos) (concat (sled_x64 fuel (size - pos))) = Some out ∧
    blen (concat (sled_x64 fuel (size - pos))) = size - pos.
Proof.
  revert buf pos. induction fuel as [|f IH]; intros buf pos Ho Hp Hb Hf; cbn [nops_x64 sled_x64].
  - rewrite (proj2 (Z.ltb_ge _ _)) by lia. exists buf. split; [done|].
    split; [apply wrn_nil; lia|unfold blen; cbn; lia].
  - destruct (Z.ltb_spec pos size).
    + set (n := if 9 <? size - pos then 9 else size - pos).
      assert (1 <= n <= 9 ∧ n <= size - pos) as [Hn Hn'].
      { subst n. destruct (Z.ltb_spec 9 (size - pos)); lia. }
      clearbody n.
      rewrite (proj2 (Z.ltb_lt 0 (size - pos))) by lia.
      destruct (nop_seqs_row n Hn) as (row & Hrow & Hlen & Hrd). rewrite Hrow. cbv zeta.
      cbn [mbind option_bind default]. rewrite Hrd. cbn [mbind option_bind].
      destruct (wrn_is_Some buf (off + pos) row) as [b1 H1]; [lia|lia|].
      rewrite H1. cbn [mbind option_bind]. pose proof (wrn_len _ _ _ _ H1).
      destruct (IH b1 (pos + n) Ho ltac:(lia) ltac:(lia) ltac:(lia)) as (out & Hout & Hw & Hl).
      exists out. split; [done|]. unfold id. replace (size - pos - n) with (size - (pos + n)) by lia.
      cbn [concat]. split; [|rewrite blen_app; lia].
      eapply wrn_app; [exact H1|]. by replace (off + pos + blen row) with (off + (pos + n)) by lia.
    + exists buf. rewrite (proj2 (Z.ltb_ge 0 (size - pos))) by lia. split; [done|].
      split; [apply wrn_nil; lia|unfold blen; cbn; lia].
Qed.

Lemma nops_a64_write n buf off i :
  0 <= off → 0 <= i → off + (i + Z.of_nat n) * 4 <= blen buf →
  ∃ out, nops_a64 n buf off i = Some out ∧
    wrn buf (off + i * 4) (concat (replicate n nop_a64)) = Some out ∧
    blen (concat (replicate n nop_a64)) = 4 * Z.of_nat n.
Proof.
  revert buf i. induction n as [|n IH]; intros buf i Ho Hi Hb; cbn [nops_a64 replicate concat].
  - exists buf. split; [done|]. split; [apply wrn_nil; lia|unfold blen; cbn; lia].
  - destruct (wrn_is_Some buf (off + i * 4) nop_a64) as [b1 H1]; [lia|change (blen nop_a64) with 4; lia|].
    rewrite H1. cbn [mbind option_bind]. pose proof (wrn_len _ _ _ _ H1).
    destruct (IH b1 (i + 1) Ho ltac:(lia) ltac:(lia)) as (out & Hout & Hw & Hl).
    exists out. split; [done|]. split; [|rewrite blen_app; change (blen nop_a64) with 4; lia].
    eapply wrn_app; [exact H1|]. change (blen nop_a64) with 4.
    by replace (off + i * 4 + 4) with (off + (i + 1) * 4) by lia.
Qed.

Lemma nop_sled_len a size :
  0 <= size → blen (nop_sled a size) = if is_aarch64 a then 4 * (size / 4) else size.
Proof.
  intros Hs. unfold nop_sled, sled. destruct (is_aarch64 a).
  - assert (0 <= size / 4) by (apply Z.div_pos; lia).
    destruct (nops_a64_write (Z.to_nat (size / 4))
      (replicate (Z.to_nat (4 * (size / 4))) 0) 0 0) as (? & _ & _ & H'); [lia|lia| |lia].
    unfold blen. rewrite length_replicate. lia.
  - destruct (nops_x64_write (Z.to_nat size) (replicate (Z.to_nat size) 0) 0 0 size)
      as (? & _ & _ & H'); [lia|lia| |lia|].
    + unfold blen. rewrite length_replicate. lia.
    + by rewrite Z.sub_0_r in H'.
Qed.

Lemma nop_sled_le a size : 0 <= size → blen (nop_sled a size) <= size.
Proof.
  intros. rewrite nop_sled_len by done. destruct (is_aarch64 a); [|lia].
  pose proof (Z.mul_div_le size 4). lia.
Qed.

(** The loops write the sled and nothing else. *)
Lemma gen_nops_write a buf off size :
  0 <= off → 0 <= size → off + size <= blen buf →
  ∃ out, e9_binpatch_gen_nops a (Some buf) off size = Some (Some out) ∧
    wrn buf off (nop_sled a size) = Some out.
Proof.
  intros Ho Hs Hb. unfold e9_binpatch_gen_nops, nop_sled, sled.
  destruct (Z.eqb_spec size 0) as [->|].
  { exists buf. split; [done|]. destruct (is_aarch64 a); apply wrn_nil; lia. }
  destruct (is_aarch64 a).
  - assert (0 <= size / 4) by (apply Z.div_pos; lia). pose proof (Z.mul_div_le size 4).
    destruct (nops_a64_write (Z.to_nat (size / 4)) buf off 0) as (out & -> & Hw & _); [lia..|].
    rewrite Z.add_0_r in Hw. eauto.
  - destruct (nops_x64_write (Z.to_nat size) buf off 0 size) as (out & -> & Hw & _); [lia..|].
    rewrite Z.add_0_r, Z.sub_0_r in Hw. eauto.
Qed.

(** The length decoder of e9analysis.c takes each sequence of the table for
    one instruction. *)
Lemma nop_seqs_decode c rest lim :
  c ∈ nop_seqs → blen c <= lim <= MAX_INSN_SIZE → x64_insn_length (c ++ rest) lim = Some (blen c).
Proof.
  unfold MAX_INSN_SIZE. intros Hc Hl.
  assert (lim ∈ [1; 2; 3; 4; 5; 6; 7; 8; 9; 10; 11; 12; 13; 14; 15; 16]) as Hlim.
  { rewrite !elem_of_cons. pose proof (blen_nonneg c). assert (blen c ≠ 0); [|lia].
    intros H0. unfold nop_seqs in Hc. rewrite !elem_of_cons, elem_of_nil in Hc.
    by repeat destruct Hc as [-> | Hc]. }
  unfold nop_seqs in Hc. rewrite !elem_of_cons, elem_of_nil in Hc.
  rewrite !elem_of_cons, elem_of_nil in Hlim.
  repeat destruct Hc as [-> | Hc]; try done;
    repeat destruct Hlim as [-> | Hlim]; try done; exfalso;
    match type of Hl with blen ?c <= _ <= _ =>
      let v := eval vm_compute in (blen c) in change (blen c) with v in Hl end; lia.
Qed.

Lemma sled_x64_rows fuel size : 0 <= size → Forall (λ c, c ∈ nop_seqs) (sled_x64 fuel size).
Proof.
  revert size. induction fuel as [|f IH]; intros size Hs; cbn [sled_x64]; [constructor|].
  destruct (Z.ltb_spec 0 size); [|constructor].
  set (n := if 9 <? size then 9 else size).
  assert (1 <= n <= 9 ∧ n <= size) as [Hn Hn'] by (subst n; destruct (Z.ltb_spec 9 size); lia).
  clearbody n. destruct (nop_seqs_row n Hn) as (row & Hrow & _). constructor.
  - rewrite Hrow. by eapply list_elem_of_lookup_2.
  - apply IH. lia.
Qed.

(** ** Jumps and calls *)

Lemma s64_eqm z : u64 (s64 z) = u64 z.
Proof. by apply wrapu_wraps. Qed.

Lemma u64_add_l a b : u64 (u64 a + b) = u64 (a + b).
Proof. unfold wrapu. by rewrite Zplus_mod_idemp_l. Qed.

Lemma u64_add_r a b : u64 (a + u64 b) = u64 (a + b).
Proof. unfold wrapu. by rewrite Zplus_mod_idemp_r. Qed.

(** The distance a near branch spans. *)
Definition near (a : E9Arch) (from to : Z) : Prop :=
  if is_aarch64 a then (to - from) mod 4 = 0 ∧ - 2 ^ 27 <= s64 (to - from) < 2 ^ 27
  else - 2 ^ 31 <= s64 (to - u64 (from + 5)) < 2 ^ 31.

Lemma x64_near_target from to rel :
  0 <= to < 2 ^ 64 → rel = s64 (to - u64 (from + 5)) → u64 (from + 5 + rel) = to.
Proof.
  intros Ht ->. rewrite <- u64_add_r, s64_eqm, u64_add_r.
  rewrite <- u64_add_l. unfold wrapu at 1.
  replace (u64 (from + 5) + (to - u64 (from + 5))) with to by lia. by apply Z.mod_small.
Qed.

(** A near x86-64 jump or call is the reference encoding of its distance. *)
Lemma x64_near_code a from to :
  is_aarch64 a = false → near a from to →
  jmp_code a from to = (5, x64_branch 0xE9 (s64 (to - u64 (from + 5)))) ∧
  call_code a from to = (5, x64_branch 0xE8 (s64 (to - u64 (from + 5)))).
Proof.
  unfold near, jmp_code, call_code, INT32_MIN, INT32_MAX, x64_branch. intros -> Hn.
  set (o := s64 _) in *. clearbody o.
  assert ((- 2 ^ 31 <=? o) && (o <=? 2 ^ 31 - 1) = true) as -> by lia.
  by rewrite (wraps_small 32) by lia.
Qed.

(** A near AArch64 branch is the reference encoding of the distance in words. *)
Lemma a64_near_code a from to :
  is_aarch64 a = true → near a from to →
  let imm := s64 (to - from) / 4 in
  - 2 ^ 25 <= imm < 2 ^ 25 ∧ s64 (to - from) = 4 * imm ∧
  jmp_code a from to = (4, le_bytes 4 (a64_encode A64_B imm)) ∧
  call_code a from to = (4, le_bytes 4 (a64_encode A64_BL imm)).
Proof.
  unfold near, jmp_code, call_code. intros -> [Hm Hn]. cbv zeta.
  assert (s64 (to - from) mod 4 = 0) as Hm4.
  { destruct (wraps_eqm 64 (to - from) ltac:(lia)) as [k ->].
    replace (k * 2 ^ 64) with (k * 2 ^ 62 * 4) by lia. by rewrite Z_mod_plus_full. }
  set (o := s64 (to - from)) in *. clearbody o.
  assert (o = 4 * (o / 4)) as Ho by (pose proof (Z.div_mod o 4 ltac:(lia)); lia).
  assert (Z.quot o 4 = o / 4) as Hq.
  { rewrite Ho at 1. rewrite Z.mul_comm. apply Z.quot_mul. lia. }
  set (imm := o / 4) in *. clearbody imm. assert (- 2 ^ 25 <= imm < 2 ^ 25) as Hi by lia.
  assert ((-128 * 1024 * 1024 <=? o) && (o <? 128 * 1024 * 1024) = true) as -> by lia.
  rewrite Hq, (wraps_small 32) by lia.
  change 0x03FFFFFF with (Z.ones 26). rewrite Z.land_ones by lia.
  pose proof (Z.mod_pos_bound imm (2 ^ 26) ltac:(lia)) as Hb.
  repeat split; try lia; unfold a64_encode; cbn [a64_width].
  - change 0x14000000 with (Z.shiftl 5 26) at 1. rewrite Z.lor_comm, lor_add by lia.
    do 2 f_equal. lia.
  - change 0x94000000 with (Z.shiftl 37 26) at 1. rewrite Z.lor_comm, lor_add by lia.
    do 2 f_equal. lia.
Qed.

Lemma a64_near_target from to imm :
  0 <= to < 2 ^ 64 → s64 (to - from) = 4 * imm → u64 (from + 4 * imm) = to.
Proof.
  intros Ht <-. rewrite <- u64_add_r, s64_eqm, u64_add_r.
  replace (from + (to - from)) with to by lia. by apply wrapu_small.
Qed.

(** ** Validation *)

(** Patches whose end does not wrap, and which patch at least one byte. *)
Definition patch_sized (p : E9BinPatch) : Prop :=
  0 <= p_offset p ∧ 0 < p_orig_size p ∧ p_offset p + p_orig_size p < 2 ^ 64.

Definition disjoint (p1 p2 : E9BinPatch) : Prop :=
  p_offset p1 + p_orig_size p1 <= p_offset p2 ∨ p_offset p2 + p_orig_size p2 <= p_offset p1.

Lemma overlap_disjoint p1 p2 :
  patch_sized p1 → patch_sized p2 → overlap p1 p2 = false ↔ disjoint p1 p2.
Proof.
  intros (?&?&?) (?&?&?). unfold overlap, disjoint. rewrite !wrapu_small by lia. lia.
Qed.

Lemma find_overlap_None l :
  find_overlap l = None ↔ ForallOrdPairs (λ p1 p2, overlap p1 p2 = false) l.
Proof.
  induction l as [|p l IH]; cbn [find_overlap]; [split; [constructor|done]|].
  destruct (List.find (overlap p) l) as [q|] eqn:E.
  - apply List.find_some in E as [Hin Ho]. split; [done|]. intros Hp. inversion Hp as [|? ? Hf _]; subst.
    rewrite List.Forall_forall in Hf. specialize (Hf q Hin). congruence.
  - rewrite IH. split.
    + intros Hl. constructor; [|done]. rewrite List.Forall_forall. intros q Hq.
      by apply (List.find_none _ _ E).
    + intros Hp. by inversion Hp.
Qed.

(** ** Applying in-place patches *)

(** What an in-place patch writes at its offset, without the buffer. *)
Definition patch_content (a : E9Arch) (p : E9BinPatch) : option bytes :=
  match p_type p with
  | E9_BINPATCH_BYTES => read_ptr (p_new_bytes p) (p_new_size p)
  | E9_BINPATCH_NOP => Some (nop_sled a (p_new_size p))
  | E9_BINPATCH_INSN =>
      raw ← read_ptr (p_new_bytes p) (p_new_size p);
      Some (raw ++ nop_sled a (p_orig_size p - p_new_size p))
  | E9_BINPATCH_CALL =>
      let '(n, code) := call_code a (p_address p) (p_target_addr p) in
      if p_orig_size p <? n then None else Some (code ++ nop_sled a (p_orig_size p - n))
  | E9_BINPATCH_JMP =>
      let '(n, code) := jmp_code a (p_address p) (p_target_addr p) in
      if p_orig_size p <? n then None else Some (code ++ nop_sled a (p_orig_size p - n))
  | _ => None
  end.

(** A patch that [apply] can carry out in a buffer of [cap] bytes. *)
Record patch_ready (a : E9Arch) (cap : Z) (p : E9BinPatch) : Prop := {
  ready_content : is_Some (patch_content a p);
  ready_new : 0 <= p_new_size p <= p_orig_size p;
  ready_orig : 0 < p_orig_size p;
  ready_inside : 0 <= p_offset p ∧ p_offset p + p_orig_size p <= cap }.

Lemma jmp_code_len a from to :
  blen (jmp_code a from to).2 = (jmp_code a from to).1 ∧ 0 < (jmp_code a from to).1 <= 16.
Proof. unfold jmp_code. repeat case_match; cbn; unfold blen; cbn; lia. Qed.

Lemma call_code_len a from to :
  blen (call_code a from to).2 = (call_code a from to).1 ∧ 0 < (call_code a from to).1 <= 20.
Proof. unfold call_code. repeat case_match; cbn; unfold blen; cbn; lia. Qed.

Lemma read_ptr_len q n raw : read_ptr q n = Some raw → blen raw = n.
Proof.
  unfold read_ptr. destruct q; [apply rdn_len|]. destruct (Z.eqb_spec n 0); [|done].
  by intros [= <-].
Qed.

(** Code followed by NOPs up to [total]. *)
Lemma write_padded a buf off code total :
  0 <= off → blen code <= total → off + total <= blen buf →
  ∃ out1 out, wrn buf off code = Some out1 ∧
    (if blen code <? total
     then e9_binpatch_gen_nops a (Some out1) (off + blen code) (total - blen code)
     else Some (Some out1)) = Some (Some out) ∧
    wrn buf off (code ++ nop_sled a (total - blen code)) = Some out.
Proof.
  intros Ho Hc Ht. pose proof (blen_nonneg code).
  destruct (wrn_is_Some buf off code) as [o1 H1]; [lia|lia|].
  pose proof (wrn_len _ _ _ _ H1). exists o1.
  destruct (Z.ltb_spec (blen code) total).
  - destruct (gen_nops_write a o1 (off + blen code) (total - blen code)) as (out & Hg & Hw); [lia..|].
    exists out. split; [done|]. split; [done|]. by eapply wrn_app.
  - exists o1. split; [done|]. split; [done|].
    assert (nop_sled a (total - blen code) = []) as ->; [|by rewrite app_nil_r].
    replace (total - blen code) with 0 by lia. unfold nop_sled, sled. by destruct (is_aarch64 a).
Qed.

Lemma patch_content_len a cap p c :
  patch_ready a cap p → patch_content a p = Some c → blen c <= p_orig_size p.
Proof.
  intros [_ Hn Ho _]. unfold patch_content.
  pose proof (jmp_code_len a (p_address p) (p_target_addr p)) as [Hj _].
  pose proof (call_code_len a (p_address p) (p_target_addr p)) as [Hk _].
  assert (∀ x n, blen x = n → n <= p_orig_size p → blen (x ++ nop_sled a (p_orig_size p - n)) <= p_orig_size p) as Hpad.
  { intros x n Hx Hle. rewrite blen_app.
    pose proof (nop_sled_le a (p_orig_size p - n) ltac:(lia)). lia. }
  destruct (p_type p); try done.
  - intros ->%read_ptr_len. lia.
  - destruct (read_ptr _ _) eqn:E; [|done]. intros [= <-]. apply Hpad; [by eapply read_ptr_len|lia].
  - intros [= <-]. pose proof (nop_sled_le a (p_new_size p) ltac:(lia)). lia.
  - destruct (call_code _ _ _) as [n code]. destruct (Z.ltb_spec (p_orig_size p) n); [done|].
    intros [= <-]. by apply Hpad.
  - destruct (jmp_code _ _ _) as [n code]. destruct (Z.ltb_spec (p_orig_size p) n); [done|].
    intros [= <-]. by apply Hpad.
Qed.

Lemma apply_branch_content msg a n code p s :
  blen code = n → n <= p_orig_size p → 0 <= p_offset p →
  p_offset p + p_orig_size p <= blen (output s) →
  ∃ out, apply_branch msg a (n, code) p s = Some (inr (set_output out s)) ∧
    wrn (output s) (p_offset p) (code ++ nop_sled a (p_orig_size p - n)) = Some out.
Proof.
  intros <- Hn Ho Hb. unfold apply_branch. rewrite (proj2 (Z.ltb_ge _ _)) by lia.
  destruct (write_padded a (output s) (p_offset p) code (p_orig_size p)) as (o1 & out & -> & H2 & H3);
    [lia..|].
  cbn [mbind option_bind]. rewrite H2. cbn. eauto.
Qed.

(** One patch: it writes its content at its offset. *)
Lemma apply_patch_content mem grow p s c :
  blen (output s) = output_capacity s → output_capacity s < 2 ^ 64 →
  patch_ready (arch (sbin s)) (output_capacity s) p → patch_content (arch (sbin s)) p = Some c →
  ∃ out, apply_patch mem grow p s = Some (inr (set_output out s)) ∧
    wrn (output s) (p_offset p) c = Some out.
Proof.
  intros Hlen Hcap Hr Hc. pose proof (patch_content_len _ _ _ _ Hr Hc).
  destruct Hr as [_ Hn Ho [Hoff Hin]]. unfold apply_patch.
  rewrite wrapu_small by lia. rewrite (proj2 (Z.ltb_ge _ _)) by lia.
  unfold patch_content in Hc. set (a := arch (sbin s)) in *. destruct (p_type p); try done.
  - rewrite Hc. cbn [mbind option_bind].
    destruct (wrn_is_Some (output s) (p_offset p) c) as [out Hw]; [lia|lia|]. rewrite Hw. cbn. eauto.
  - destruct (read_ptr _ _) as [raw|] eqn:E; [|done]. injection Hc as <-.
    apply read_ptr_len in E as Hl. cbn [mbind option_bind].
    destruct (write_padded a (output s) (p_offset p) raw (p_orig_size p)) as (o1 & out & -> & H2 & H3);
      [lia..|].
    cbn [mbind option_bind]. rewrite Hl in *. rewrite H2. cbn. eauto.
  - injection Hc as <-.
    destruct (gen_nops_write a (output s) (p_offset p) (p_new_size p)) as (out & -> & Hw); [lia..|].
    cbn. eauto.
  - pose proof (call_code_len a (p_address p) (p_target_addr p)) as [Hk _].
    destruct (call_code _ _ _) as [n code]. destruct (Z.ltb_spec (p_orig_size p) n); [done|].
    injection Hc as <-. apply apply_branch_content; [done|lia..].
  - pose proof (jmp_code_len a (p_address p) (p_target_addr p)) as [Hk _].
    destruct (jmp_code _ _ _) as [n code]. destruct (Z.ltb_spec (p_orig_size p) n); [done|].
    injection Hc as <-. apply apply_branch_content; [done|lia..].
Qed.

(** The offset lies in none of the patched regions. *)
Definition untouched (l : list E9BinPatch) (i : Z) : Prop :=
  Forall (λ p, i < p_offset p ∨ p_offset p + p_orig_size p <= i) l.

(** The content of a patch is in the buffer. *)
Definition in_place (a : E9Arch) (out : bytes) (p : E9BinPatch) : Prop :=
  ∃ c, patch_content a p = Some c ∧ rdn out (p_offset p) (blen c) = Some c.

Lemma apply_patches_content mem grow l s :
  blen (output s) = output_capacity s → output_capacity s < 2 ^ 64 →
  Forall (patch_ready (arch (sbin s)) (output_capacity s)) l → ForallOrdPairs disjoint l →
  ∃ out, apply_patches mem grow l s = Some (inr (set_output out s)) ∧
    blen out = blen (output s) ∧ Forall (in_place (arch (sbin s)) out) l ∧
    ∀ i, untouched l i → rd out i = rd (output s) i.
Proof.
  intros Hlen Hcap. revert s Hlen Hcap. induction l as [|p l IH]; intros s Hlen Hcap Hl Hd.
  - exists (output s). destruct s. cbn. repeat split; constructor.
  - inversion Hl as [|? ? Hp Hl']; subst. inversion Hd as [|? ? Hd1 Hd2]; subst.
    destruct (ready_content _ _ _ Hp) as [c Hc].
    pose proof (patch_content_len _ _ _ _ Hp Hc) as Hcl.
    destruct (apply_patch_content mem grow p s c Hlen Hcap Hp Hc) as (o1 & Ha & Hw).
    pose proof (wrn_len _ _ _ _ Hw) as Hl1.
    destruct (IH (set_output o1 s)) as (out & Hr & Hlo & Hin & Hfr); [cbn; lia|done|done|done|].
    exists out. cbn [apply_patches]. rewrite Ha. cbn [mbind option_bind]. rewrite Hr.
    split; [by destruct s|]. split; [cbn in Hlo; lia|]. split.
    + constructor; [|exact Hin]. exists c. split; [done|].
      rewrite <- (rdn_wrn_same _ _ _ _ Hw). apply rdn_eq; [cbn in Hlo; lia|].
      intros i Hi. apply Hfr. rewrite List.Forall_forall in Hd1. apply List.Forall_forall.
      intros q Hq. specialize (Hd1 q Hq). unfold disjoint in Hd1. lia.
    + intros i Hi. inversion Hi as [|? ? Hip Hil]; subst. rewrite (Hfr i Hil).
      cbn. eapply rd_wrn_out; [exact Hw|lia].
Qed.

(** ** Code caves: allocation *)

Lemma best_cave_spec size l i best :
  match best_cave size l i best with
  | Some (j, c) =>
      (best = Some (j, c) ∨ ∃ k, j = (i + k)%nat ∧ l !! k = Some c ∧ size <= cave_size c) ∧
      (∀ c', c' ∈ l → size <= cave_size c' → cave_size c <= cave_size c') ∧
      (∀ j0 c0, best = Some (j0, c0) → cave_size c <= cave_size c0)
  | None => best = None ∧ ∀ c', c' ∈ l → cave_size c' < size
  end.
Proof.
  revert i best. induction l as [|c l IH]; intros i best; cbn [best_cave].
  - destruct best as [[j b]|]; [|split; [done|]; intros c'; by rewrite elem_of_nil].
    split; [by left|]. split; [intros c'; by rewrite elem_of_nil|]. intros ?? [= -> ->]. lia.
  - match goal with |- context [best_cave size l (S i) (if ?b then _ else _)] =>
      set (better := b) end.
    specialize (IH (S i) (if better then Some (i, c) else best)).
    destruct (best_cave size l (S i) _) as [[j r]|].
    + destruct IH as (H1 & H2 & H3).
      assert (size <= cave_size c → cave_size r <= cave_size c) as Hc.
      { intros Hs. destruct better eqn:Hb; [by eapply H3|]. subst better.
        rewrite (proj2 (Z.leb_le _ _)) in Hb by done. cbn [andb] in Hb.
        destruct best as [[j0 b0]|]; [|done]. specialize (H3 j0 b0 eq_refl). lia. }
      split; [|split].
      * destruct H1 as [H1|(k & -> & Hk & Hs)].
        -- destruct better eqn:Hb; [|by left]. injection H1 as <- <-. right. exists 0%nat.
           split; [lia|]. split; [done|]. subst better. lia.
        -- right. exists (S k). split; [lia|]. by split.
      * intros c'. rewrite elem_of_cons. intros [->|Hin]; [done|by apply H2].
      * intros j0 c0 ->. destruct better eqn:Hb; [|by eapply H3]. subst better.
        specialize (H3 i c eq_refl). lia.
    + destruct IH as [H1 H2]. destruct better eqn:Hb; [done|]. subst best. split; [done|].
      intros c'. rewrite elem_of_cons. intros [->|Hin]; [|by apply H2]. subst better.
      rewrite andb_true_r in Hb. lia.
Qed.

(** A block of memory, as its address and size. *)
Definition block : Type := Z * Z.

Definition apart (b1 b2 : block) : Prop := b1.1 + b1.2 <= b2.1 ∨ b2.1 + b2.2 <= b1.1.

Definition cave_block (c : E9CodeCave) : block := (cave_address c, cave_size c).

(** The free caves and the blocks handed out are all apart. *)
Record caves_inv (held : list block) (cs : list E9CodeCave) : Prop := {
  inv_caves : ∀ i j ci cj, i ≠ j → cs !! i = Some ci → cs !! j = Some cj →
    apart (cave_block ci) (cave_block cj);
  inv_held : ForallOrdPairs apart held;
  inv_free : ∀ b c, b ∈ held → c ∈ cs → apart b (cave_block c);
  inv_range : ∀ c, c ∈ cs → 0 <= cave_address c ∧ 0 <= cave_size c ∧
    cave_address c + cave_size c < 2 ^ 64 }.

Lemma alloc_inv held cs i c size :
  caves_inv held cs → cs !! i = Some c → 0 <= size <= cave_size c →
  let c' := c |> set_cave_address (u64 (cave_address c + size))
              |> set_cave_offset (u64 (cave_offset c + size))
              |> set_cave_size (cave_size c - size) in
  caves_inv ((cave_address c, size) :: held) (<[i := c']> cs).
Proof.
  intros [Hc Hh Hf Hr] Hi Hs c'. pose proof (list_elem_of_lookup_2 _ _ _ Hi) as Hin.
  pose proof (Hr c Hin) as (Ha & Hz & Hb).
  assert (cave_block c' = (cave_address c + size, cave_size c - size)) as Hblk.
  { unfold cave_block, c'. cbn. by rewrite wrapu_small by lia. }
  assert (∀ j d, <[i := c']> cs !! j = Some d → (j = i ∧ d = c') ∨ (j ≠ i ∧ cs !! j = Some d)) as Hlk.
  { intros j d. destruct (decide (j = i)) as [->|Hne].
    - rewrite list_lookup_insert_eq by (by eapply lookup_lt_Some). intros [= <-]. by left.
    - rewrite list_lookup_insert_ne by done. by right. }
  assert (∀ d, d ∈ <[i := c']> cs → d = c' ∨ ∃ j, j ≠ i ∧ cs !! j = Some d) as Hel.
  { intros d [j Hj]%list_elem_of_lookup_1. destruct (Hlk _ _ Hj) as [[_ ->]|[? ?]]; eauto. }
  assert (∀ b, apart b (cave_block c) → apart b (cave_block c') ∧ apart b (cave_address c, size)) as Hsub.
  { intros b. rewrite Hblk. unfold apart, cave_block. cbn. lia. }
  assert (∀ b1 b2, apart b1 b2 → apart b2 b1) as Hsym by (unfold apart; lia).
  split.
  - intros j k cj ck Hjk Hj Hk.
    destruct (Hlk _ _ Hj) as [[-> ->]|[? Hj']], (Hlk _ _ Hk) as [[-> ->]|[? Hk']]; try done.
    + apply Hsym, Hsub. by apply (Hc k i).
    + apply Hsub. by apply (Hc j i).
    + by apply (Hc j k).
  - constructor; [|done]. apply List.Forall_forall. intros b Hb'.
    apply Hsym, Hsub. apply Hf; [by apply list_elem_of_In|done].
  - intros b d. rewrite elem_of_cons. intros [->|Hbh] Hd.
    + destruct (Hel d Hd) as [->|(j & Hji & Hj)].
      * rewrite Hblk. unfold apart. cbn. lia.
      * apply Hsym. apply Hsub. by apply (Hc j i).
    + destruct (Hel d Hd) as [->|(j & Hji & Hj)].
      * apply Hsub. by apply Hf.
      * apply Hf; [done|]. by eapply list_elem_of_lookup_2.
  - intros d Hd. destruct (Hel d Hd) as [->|(j & Hji & Hj)].
    + unfold c'. cbn. rewrite wrapu_small by lia. lia.
    + apply Hr. by eapply list_elem_of_lookup_2.
Qed.

(** ** Code caves: the scan *)

(** The bytes [lo .. hi - 1] are filler: NOP words on AArch64, and on x86-64
    zero, NOP and INT3 bytes. *)
Definition filler (a : E9Arch) (data : bytes) (lo hi : Z) : Prop :=
  if is_aarch64 a then
    (hi - lo) mod 4 = 0 ∧ ∀ k, 0 <= k → lo + 4 * k < hi → rd32 data (lo + 4 * k) = Some 0xD503201F
  else ∀ k, lo <= k < hi → ∃ b, rd data k = Some b ∧ b ∈ [0x00; 0x90; 0xCC].

Lemma filler_snoc a data sz lo i n :
  lo <= i → filler a data lo i → cave_byte a data sz i = Some (Some n) →
  filler a data lo (i + n) ∧ 1 <= n ∧ (i < sz → i + n <= sz).
Proof.
  unfold filler, cave_byte. intros Hlo. destruct (is_aarch64 a).
  - intros [Hm Hf]. destruct (_ && _) eqn:E; [|done].
    destruct (rd32 data i) as [w|] eqn:Hw; [|done]. cbn.
    destruct (Z.eqb_spec w 0xD503201F) as [->|]; [|done]. intros [= <-].
    assert (i - lo = 4 * ((i - lo) / 4)) as Hd by (pose proof (Z.div_mod (i - lo) 4 ltac:(lia)); lia).
    split; [split|split; lia].
    + replace (i + 4 - lo) with (i - lo + 1 * 4) by lia. by rewrite Z_mod_plus_full.
    + intros k Hk Hlt. destruct (Z.ltb_spec (lo + 4 * k) i) as [|Hge]; [by apply Hf|].
      replace (lo + 4 * k) with i by lia. done.
  - intros Hf. destruct (rd data i) as [b|] eqn:Hb; [|done]. cbn [mbind option_bind].
    destruct (one_of _ b) eqn:E; [|done]. intros [= <-]. split; [|lia].
    intros k Hk. destruct (Z.ltb_spec k i); [apply Hf; lia|].
    assert (k = i) as -> by lia. exists b. split; [done|].
    unfold one_of in E. apply existsb_exists in E as (x & Hx & ->%Z.eqb_eq).
    by apply list_elem_of_In.
Qed.

Lemma filler_nil a data lo : filler a data lo lo.
Proof.
  unfold filler. destruct (is_aarch64 a); [|intros k Hk; lia].
  split; [by rewrite Z.sub_diag|]. intros k Hk. lia.
Qed.

(** What the finder reports: a run of filler inside an executable section,
    at least as long as asked for. *)
Definition cave_found (bin : E9Binary) (min : Z) (c : E9CodeCave) : Prop :=
  ∃ idx sec start,
    let off := e9_binpatch_vaddr_to_offset (Some bin) (sec_addr sec) in
    sections bin !! Z.to_nat idx = Some sec ∧ truthy (Z.land (sec_flags sec) E9_SECFLAG_EXEC) = true ∧
    c = run_cave sec off start (cave_size c) idx ∧
    0 <= start ∧ min <= cave_size c ∧ 0 < cave_size c ∧ start + cave_size c <= sec_size sec ∧
    off + sec_size sec <= bin_size bin ∧
    filler (arch bin) (at_off (bin_data bin) off) start (start + cave_size c).

Section scan.
Context (bin : E9Binary) (sec : E9Section) (idx min off : Z) (grow : Z → bool).
Local Abbreviation data := (at_off (bin_data bin) off).
Hypothesis Hoff : e9_binpatch_vaddr_to_offset (Some bin) (sec_addr sec) = off.
Hypothesis Hbytes : bytes_ok (bin_data bin).
Hypothesis Hsec : sections bin !! Z.to_nat idx = Some sec.
Hypothesis Hexec : truthy (Z.land (sec_flags sec) E9_SECFLAG_EXEC) = true.
Hypothesis Hsize : bin_size bin <= blen (bin_data bin).
Hypothesis Hfit : 0 <= off ∧ 0 <= sec_size sec ∧ off + sec_size sec <= bin_size bin.

(** The state of the byte loop. *)
Record scan_ok (st : cave_scan) : Prop := {
  scan_pos : 0 <= sc_i st <= sec_size sec;
  scan_min : min_cave_size (sc_finder st) = min;
  scan_found : Forall (cave_found bin min) (caves (sc_finder st));
  scan_run : sc_in_run st = true →
    0 <= sc_run_start st ∧ sc_run_len st = sc_i st - sc_run_start st ∧ 0 < sc_run_len st ∧
    filler (arch bin) data (sc_run_start st) (sc_i st) }.

Definition finder_ok (f : E9CaveFinder) : Prop :=
  min_cave_size f = min ∧ Forall (cave_found bin min) (caves f).

Lemma data_len : blen data = blen (bin_data bin) - off.
Proof. apply blen_at_off. lia. Qed.

Lemma cave_byte_safe i :
  0 <= i < sec_size sec → safely (cave_byte (arch bin) data (sec_size sec) i) (λ _, True).
Proof.
  intros Hi. pose proof data_len. unfold cave_byte.
  assert (bytes_ok data) by (by apply at_off_ok). destruct (is_aarch64 _).
  - ub_step; [|done]. ub_step. by ub_call safely_rd32.
  - ub_step. apply safely_rd; [lia|done].
Qed.

Lemma run_found st :
  scan_ok st → sc_in_run st = true → min <= sc_run_len st →
  cave_found bin min (run_cave sec off (sc_run_start st) (sc_run_len st) idx).
Proof.
  intros [Hp _ _ Hr] Hin Hm. destruct (Hr Hin) as (H1 & H2 & H3 & H4).
  exists idx, sec, (sc_run_start st). cbn [run_cave cave_size]. rewrite Hoff.
  assert (sc_run_start st + sc_run_len st = sc_i st) as -> by lia.
  repeat split; try done; lia.
Qed.

Lemma push_cave_found c f :
  finder_ok f → cave_found bin min c →
  match push_cave grow c f with Some f' => finder_ok f' | None => True end.
Proof.
  intros [Hm Hf] Hc. unfold push_cave.
  assert (Forall (cave_found bin min) (caves f ++ [c])).
  { apply Forall_app. split; [done|by constructor]. }
  destruct (_ <=? _); [destruct (grow _)|]; done.
Qed.

Lemma cave_step_ok st :
  scan_ok st → sc_i st < sec_size sec →
  safely (cave_step grow (arch bin) data sec off idx st) (λ r,
    match r with inl f => finder_ok f | inr st' => scan_ok st' ∧ sc_i st < sc_i st' end).
Proof.
  intros Hok Hlt. pose proof (run_found st Hok) as Hrun. destruct Hok as [Hp Hm Hf Hr].
  destruct st as [i rs rl ir f]. cbn in *. unfold cave_step.
  pose proof (cave_byte_safe i ltac:(lia)) as Hs.
  apply safely_Some in Hs as (adv & Hadv & _). rewrite Hadv. cbn [mbind option_bind].
  destruct adv as [n|].
  - assert (filler (arch bin) data (if ir then rs else i) (i + n) ∧ 1 <= n ∧ i + n <= sec_size sec)
      as (Hfil & Hn & Hle).
    { destruct ir.
      - destruct (Hr eq_refl) as (H1 & H2 & H3 & H4).
        destruct (filler_snoc _ _ _ rs i _ ltac:(lia) H4 Hadv) as (? & ? & ?). eauto.
      - destruct (filler_snoc _ _ _ i i _ ltac:(lia) (filler_nil _ _ _) Hadv) as (? & ? & ?). eauto. }
    cbn. split; [|lia]. split; cbn; try done; [lia|]. intros _.
    destruct ir; [destruct (Hr eq_refl) as (H1 & H2 & H3 & H4)|]; repeat split; try done; lia.
  - assert (∀ rl' f', finder_ok f' → scan_ok (Scan (i + 1) rs rl' false f') ∧ i < i + 1) as Hnext.
    { intros rl' f' [? ?]. split; [|lia]. split; cbn; try done; lia. }
    destruct ir; [|apply Hnext; done]. rewrite Hm. destruct (Z.leb_spec min rl); [|apply Hnext; done].
    pose proof (push_cave_found (run_cave sec off rs rl idx) f ltac:(done)
      ltac:(apply Hrun; done || lia)) as Hpush.
    destruct (push_cave _ _ _) as [f'|]; cbn; [by apply Hnext|done].
Qed.

Lemma cave_loop_ok fuel st :
  scan_ok st → sec_size sec - sc_i st <= Z.of_nat fuel →
  safely (cave_loop fuel grow (arch bin) data sec off idx st) (λ r,
    match r with inl f => finder_ok f | inr st' => scan_ok st' end).
Proof.
  revert st. induction fuel as [|fuel IH]; intros st Hok Hf; cbn [cave_loop];
    destruct (Z.ltb_spec (sc_i st) (sec_size sec)); try done; [lia|].
  ub_step. ub_call cave_step_ok. intros [f|st']; [done|]. intros [Hok' Hlt].
  apply IH; [done|lia].
Qed.
End scan.

(** Sections whose end, as an offset, does not wrap around. *)
Definition section_fits (bin : E9Binary) (sec : E9Section) : Prop :=
  0 <= sec_size sec ∧
  e9_binpatch_vaddr_to_offset (Some bin) (sec_addr sec) + sec_size sec < 2 ^ 64.

Lemma vaddr_to_offset_range bin vaddr : 0 <= e9_binpatch_vaddr_to_offset bin vaddr < 2 ^ 64.
Proof.
  unfold e9_binpatch_vaddr_to_offset. destruct bin; [|lia].
  repeat case_match; try apply (wrapu_range 64); lia.
Qed.

Lemma cave_section_ok bin grow idx sec min f :
  bin_wf bin → section_fits bin sec → sections bin !! Z.to_nat idx = Some sec →
  finder_ok bin min f →
  safely (cave_section grow bin idx sec f) (λ r,
    match r with inl f' | inr f' => finder_ok bin min f' end).
Proof.
  intros Hwf [Hs Hfit] Hsec Hf. unfold cave_section.
  destruct (truthy (Z.land (sec_flags sec) E9_SECFLAG_EXEC)) eqn:Hx; [|done]. cbn [negb].
  pose proof (vaddr_to_offset_range (Some bin) (sec_addr sec)) as Ho.
  remember (e9_binpatch_vaddr_to_offset (Some bin) (sec_addr sec)) as off eqn:Hoff.
  symmetry in Hoff. rewrite wrapu_small by lia.
  destruct (Z.ltb_spec (bin_size bin) (off + sec_size sec)) as [|Hin]; [done|].
  pose proof (wf_bytes _ Hwf). pose proof (wf_size _ Hwf).
  ub_step. eapply safely_mono.
  { eapply (cave_loop_ok bin sec idx min off); try done; [lia|lia| |cbn; lia].
    destruct Hf. split; cbn; done || lia. }
  intros [f'|st] Hr; [done|]. pose proof Hr as [_ Hm Hfd _]. cbv zeta.
  destruct (sc_in_run st && _ && _) eqn:Hlast; [|done]. bool_hyps. rewrite Hm in *.
  split; [done|]. apply Forall_app. split; [done|]. constructor; [|done].
  eapply run_found; try done; lia.
Qed.

Lemma cave_sections_ok bin grow min secs : ∀ idx f,
  bin_wf bin → 0 <= idx → Forall (section_fits bin) secs →
  (∀ k sec, secs !! k = Some sec → sections bin !! (Z.to_nat idx + k)%nat = Some sec) →
  finder_ok bin min f →
  safely (cave_sections grow bin idx secs f) (λ r,
    match r with inl f' | inr f' => finder_ok bin min f' end).
Proof.
  induction secs as [|sec secs IH]; intros idx f Hwf Hidx Hfits Hlk Hf; cbn [cave_sections]; [done|].
  inversion Hfits as [|? ? Hfit Hfits']; subst.
  ub_step. eapply safely_mono.
  { eapply cave_section_ok; try done. specialize (Hlk 0%nat sec eq_refl). by rewrite Nat.add_0_r in Hlk. }
  intros [f'|f'] Hf'; [done|]. apply IH; try done; [lia|].
  intros k s Hk. specialize (Hlk (S k) s Hk).
  by replace (Z.to_nat (idx + 1) + k)%nat with (Z.to_nat idx + S k)%nat by lia.
Qed.

(** ** Sessions *)

(** What every operation keeps: the buffer has its capacity, and a patch's
    identifier is its index and its backup is the bytes of the binary. *)
Record session_inv (bin : E9Binary) (s : E9BinPatchSession) : Prop := {
  si_bin : sbin s = bin;
  si_output : blen (output s) = output_capacity s;
  si_capacity : output_capacity s = bin_size (sbin s) + 4096;
  si_size : output_size s = bin_size (sbin s);
  si_ids : ∀ k p, patches s !! k = Some p → p_id p = s32 (Z.of_nat k);
  si_backup : ∀ p raw, p ∈ patches s → p_backup_bytes p = Some raw →
    rdn (bin_data (sbin s)) (p_offset p) (p_backup_size p) = Some raw;
  si_table : Z.of_nat (List.length (patches s)) <= patches_capacity s ∧ 0 < patches_capacity s }.

(** Two sessions that differ in the error, the caves and the like only. *)
Definition same_core (s s' : E9BinPatchSession) : Prop :=
  sbin s' = sbin s ∧ patches s' = patches s ∧ patches_capacity s' = patches_capacity s ∧
  blen (output s') = blen (output s) ∧ output_size s' = output_size s ∧
  output_capacity s' = output_capacity s.

Lemma same_core_inv bin s s' : same_core s s' → session_inv bin s → session_inv bin s'.
Proof.
  intros (E1 & E2 & E3 & E4 & E5 & E6) [H0 H1 H2 H3 H4 H5 H6].
  split; rewrite ?E1, ?E2, ?E3, ?E4, ?E5, ?E6; done.
Qed.

Lemma ensure_capacity_inv bin ok s b s' :
  session_inv bin s → ensure_patch_capacity ok s = (b, s') →
  session_inv bin s' ∧ (b = true → patches s' = patches s ∧ sbin s' = sbin s ∧
    Z.of_nat (List.length (patches s)) < patches_capacity s').
Proof.
  intros Hinv. unfold ensure_patch_capacity.
  destruct (Z.leb_spec (patches_capacity s) (Z.of_nat (List.length (patches s)))).
  - destruct ok; intros [= <- <-].
    + pose proof (si_table _ _ Hinv). destruct Hinv. split; [split; cbn; try done; lia|].
      cbn. intros _. repeat split; lia.
    + split; [|done]. eapply same_core_inv; [|done]. by repeat split.
  - intros [= <- <-]. split; [done|]. intros _. repeat split; lia.
Qed.

Lemma add_patch_inv bin mem s p r s' :
  session_inv bin s → p_backup_bytes p = None → add_patch mem s p = Some (r, s') → session_inv bin s'.
Proof.
  intros Hinv Hnb. unfold add_patch.
  destruct (ensure_patch_capacity mem.1 s) as [b s1] eqn:Hcap.
  destruct (ensure_capacity_inv _ _ _ _ _ Hinv Hcap) as [Hinv1 Hok].
  destruct b; cbn [negb]; [|intros [= <- <-]; done].
  destruct (Hok eq_refl) as (Hp & Hb & Hlt).
  cbv zeta. match goal with |- context [Z.land (p_flags ?P) E9_BINPATCH_FLAG_BACKUP] =>
    set (p1 := P) end.
  destruct (_ && _ && _) eqn:Hmiss; [intros [= <- <-]; eapply same_core_inv; [|done]; by repeat split|].
  intros (p2 & Hp2 & [= <- <-])%bind_Some_iff.
  assert (p_id p1 = s32 (Z.of_nat (List.length (patches s1))) ∧ p_backup_bytes p1 = None)
    as [Hid1 Hb1] by (subst p1; match goal with |- context [if ?b then _ else _] => destruct b end; done).
  clearbody p1.
  assert (p_id p2 = p_id p1 ∧ ∀ raw, p_backup_bytes p2 = Some raw →
    rdn (bin_data (sbin s1)) (p_offset p2) (p_backup_size p2) = Some raw) as [Hid2 Hb2].
  { revert Hp2. clear Hmiss. destruct (truthy _); [|intros [= <-]; split; [done|congruence]].
    cbv zeta. destruct (_ && _ && _); [|intros [= <-]; split; [done|congruence]].
    intros (raw & Hraw & [= <-])%bind_Some_iff. cbn. split; [done|]. by intros ? [= <-]. }
  destruct Hinv1 as [H0 H1 H2 H3 H4 H5 H6]. split; cbn; try done.
  - intros k q. rewrite lookup_app_Some. intros [Hq|[Hk Hq]]; [by apply H4|].
    apply list_lookup_singleton_Some in Hq as [Hk0 <-]. rewrite Hid2, Hid1. do 2 f_equal. lia.
  - intros q raw. rewrite elem_of_app, list_elem_of_singleton.
    intros [Hq| ->]; [by apply H5|apply Hb2].
  - rewrite length_app. cbn. rewrite <- Hp in Hlt. lia.
Qed.

Lemma unless_finalized_inv bin s k r s' :
  session_inv bin s → (∀ r s', k = Some (r, Some s') → session_inv bin s') →
  unless_finalized s k = Some (r, Some s') → session_inv bin s'.
Proof.
  intros Hinv Hk. unfold unless_finalized. destruct (finalized s); [|apply Hk].
  intros [= <- <-]. eapply same_core_inv; [|done]. by repeat split.
Qed.

Lemma add_to_inv bin mem s p r s' :
  session_inv bin s → p_backup_bytes p = None → add_to mem s p = Some (r, Some s') → session_inv bin s'.
Proof.
  intros Hinv Hnb. unfold add_to. intros ([r1 s1] & Ha & [= <- <-])%bind_Some_iff.
  by eapply add_patch_inv.
Qed.

(** One call of the session interface. *)
Inductive session_op (s : E9BinPatchSession) : Z → option E9BinPatchSession → Prop :=
| op_bytes mem addr b size flags r s' :
    e9_binpatch_bytes mem (Some s) addr b size flags = Some (r, s') → session_op s r s'
| op_nop mem addr size flags r s' :
    e9_binpatch_nop mem (Some s) addr size flags = Some (r, s') → session_op s r s'
| op_insn mem addr b size flags r s' :
    e9_binpatch_insn mem (Some s) addr b size flags = Some (r, s') → session_op s r s'
| op_call mem addr target flags r s' :
    e9_binpatch_call mem (Some s) addr target flags = Some (r, s') → session_op s r s'
| op_jmp mem addr target flags r s' :
    e9_binpatch_jmp mem (Some s) addr target flags = Some (r, s') → session_op s r s'
| op_hook mem addr b size flags r s' :
    e9_binpatch_hook mem (Some s) addr b size flags = Some (r, s') → session_op s r s'
| op_detour mem addr b size ptr flags r s' q :
    e9_binpatch_detour mem (Some s) addr b size ptr flags = Some (r, s', q) → session_op s r s'
| op_find a1 a2 grow min r s' :
    e9_caves_find a1 a2 grow (Some s) min = Some (r, s') → session_op s r s'
| op_alloc size r s' : e9_caves_alloc (Some s) size = (r, s') → session_op s r s'
| op_validate r s' : e9_binpatch_validate (Some s) = (r, s') → session_op s r s'
| op_apply mem grow r s' :
    e9_binpatch_apply mem grow (Some s) = Some (r, s') → session_op s r s'
| op_verify r s' : e9_binpatch_verify (Some s) = Some (r, s') → session_op s r s'
| op_revert id r s' : e9_binpatch_revert (Some s) id = Some (r, s') → session_op s r s'
| op_revert_all r s' : e9_binpatch_revert_all (Some s) = Some (r, s') → session_op s r s'.

(** The sessions that a program can reach from a new one. *)
Inductive reachable (bin : E9Binary) : E9BinPatchSession → Prop :=
| reach_create s :
    e9_binpatch_session_create true true true true (Some bin) = Some (Some s) → reachable bin s
| reach_op s r s' : reachable bin s → session_op s r (Some s') → reachable bin s'.

(** Every write keeps the length of the buffer. *)
Lemma gen_nops_len a buf off size out :
  e9_binpatch_gen_nops a (Some buf) off size = Some (Some out) → blen out = blen buf.
Proof.
  unfold e9_binpatch_gen_nops. destruct (size =? 0); [by intros [= <-]|].
  destruct (is_aarch64 a); intros (b & Hb & [= <-])%bind_Some_iff; revert Hb.
  - generalize (Z.to_nat (size / 4)) 0. intros n. revert buf.
    induction n as [|n IH]; intros buf i; cbn [nops_a64]; [by intros [= <-]|].
    intros (b1 & H1 & H2)%bind_Some_iff. apply wrn_len in H1. apply IH in H2. lia.
  - generalize (Z.to_nat size) 0. intros n. revert buf.
    induction n as [|n IH]; intros buf i; cbn [nops_x64]; (destruct (i <? size); [|by intros [= <-]]);
      [done|].
    intros (seq & _ & H1)%bind_Some_iff. apply bind_Some_iff in H1 as (raw & _ & H1).
    apply bind_Some_iff in H1 as (b1 & H1 & H2). apply wrn_len in H1. apply IH in H2. lia.
Qed.

Definition outcome (r : E9BinPatchSession + E9BinPatchSession) : E9BinPatchSession :=
  match r with inl s | inr s => s end.

Lemma same_core_refl s : same_core s s.
Proof. by repeat split. Qed.

Lemma same_core_trans s1 s2 s3 : same_core s1 s2 → same_core s2 s3 → same_core s1 s3.
Proof.
  intros (?&?&?&?&?&?) (?&?&?&?&?&?). repeat split; congruence.
Qed.

Lemma same_core_error s code msg : same_core s (set_error code msg s).
Proof. by repeat split. Qed.

Lemma same_core_output s out : blen out = blen (output s) → same_core s (set_output out s).
Proof. by repeat split. Qed.

Lemma caves_find_core a1 a2 grow s min r s' :
  e9_caves_find a1 a2 grow (Some s) min = Some (r, s') → ∃ t, s' = Some t ∧ same_core s t.
Proof.
  unfold e9_caves_find. cbv zeta.
  destruct (match cave_finder s with Some f => Some f | None => _ end) as [f|].
  - intros (x & _ & H)%bind_Some_iff. destruct x; injection H as <- <-; eexists; by repeat split.
  - intros [= <- <-]. eexists. split; [done|]. apply same_core_refl.
Qed.

Lemma caves_alloc_core s size r s' :
  e9_caves_alloc (Some s) size = (r, s') → ∃ t, s' = Some t ∧ same_core s t.
Proof.
  unfold e9_caves_alloc. intros H. repeat case_match; injection H as <- <-; eexists; by repeat split.
Qed.

Lemma patch_jump_len a p c buf out : patch_jump a p c buf = Some out → blen out = blen buf.
Proof.
  unfold patch_jump. destruct (jmp_code _ _ _) as [n code]. destruct (_ || _); [|by intros [= <-]].
  cbv zeta. intros (o1 & H1%wrn_len & H)%bind_Some_iff. destruct (_ <? _).
  - apply bind_Some_iff in H as ([o2|] & H2 & [= <-]). apply gen_nops_len in H2. lia.
  - injection H as <-. lia.
Qed.

(** NOPs after some code, when they are needed. *)
Lemma pad_len a (b : bool) buf off size out :
  (if b then e9_binpatch_gen_nops a (Some buf) off size else Some (Some buf)) = Some (Some out) →
  blen out = blen buf.
Proof. destruct b; [apply gen_nops_len|by intros [= <-]]. Qed.

Lemma apply_cave_core mem grow p s r :
  apply_cave mem grow p s = Some r → same_core s (outcome r).
Proof.
  unfold apply_cave. intros (s1 & Hs1 & H)%bind_Some_iff.
  assert (same_core s s1) as Hc1.
  { destruct (cave_finder s); [injection Hs1 as <-; apply same_core_refl|].
    apply bind_Some_iff in Hs1 as ([q t] & Hf & ->).
    destruct (caves_find_core _ _ _ _ _ _ _ Hf) as (t & [= ->] & Ht). done. }
  destruct (e9_caves_alloc (Some s1) _) as [addr s2] eqn:Ha.
  destruct (caves_alloc_core _ _ _ _ Ha) as (t & -> & Ht).
  pose proof (same_core_trans _ _ _ Hc1 Ht) as Hc. cbn [mbind option_bind] in H.
  destruct (addr =? 0).
  { injection H as <-. eapply same_core_trans; [exact Hc|]. apply same_core_error. }
  destruct (_ && _); [|by injection H as <-].
  apply bind_Some_iff in H as (hook & _ & H). apply bind_Some_iff in H as (o1 & H1%wrn_len & H).
  apply bind_Some_iff in H as (o2 & H2 & H). apply bind_Some_iff in H as (o3 & H3%patch_jump_len & [= <-]).
  eapply same_core_trans; [exact Hc|]. apply same_core_output.
  assert (blen o2 = blen o1); [|lia]. revert H2. case_bool_decide; [apply wrn_len|by intros [= <-]].
Qed.

Lemma apply_branch_core msg a code p s r :
  apply_branch msg a code p s = Some r → same_core s (outcome r).
Proof.
  unfold apply_branch. destruct code as [n buf]. destruct (_ <? n).
  - intros [= <-]. apply same_core_error.
  - intros (o1 & H1%wrn_len & H)%bind_Some_iff. apply bind_Some_iff in H as (oo & H2 & H).
    apply bind_Some_iff in H as (o & -> & [= <-]). apply pad_len in H2.
    apply same_core_output. lia.
Qed.

Lemma apply_patch_core mem grow p s r :
  apply_patch mem grow p s = Some r → same_core s (outcome r).
Proof.
  unfold apply_patch. destruct (_ <? _); [intros [= <-]; apply same_core_error|].
  destruct (p_type p); try apply apply_branch_core; try apply apply_cave_core.
  - intros (raw & _ & H)%bind_Some_iff. apply bind_Some_iff in H as (o & H%wrn_len & [= <-]).
    by apply same_core_output.
  - intros (raw & _ & H)%bind_Some_iff. apply bind_Some_iff in H as (o1 & H1%wrn_len & H).
    apply bind_Some_iff in H as (oo & H2 & H). apply bind_Some_iff in H as (o & -> & [= <-]).
    apply pad_len in H2. apply same_core_output. lia.
  - intros (oo & H2 & H)%bind_Some_iff. apply bind_Some_iff in H as (o & -> & [= <-]).
    apply gen_nops_len in H2. by apply same_core_output.
Qed.

Lemma apply_patches_core mem grow l s r :
  apply_patches mem grow l s = Some r → same_core s (outcome r).
Proof.
  revert s. induction l as [|p l IH]; intros s; cbn [apply_patches].
  - intros [= <-]. apply same_core_refl.
  - intros (r1 & H1%apply_patch_core & H)%bind_Some_iff. destruct r1 as [t|t].
    + by injection H as <-.
    + eapply same_core_trans; [exact H1|]. by apply IH.
Qed.

Lemma validate_core s r s' :
  e9_binpatch_validate (Some s) = (r, s') → ∃ t, s' = Some t ∧ same_core s t ∧ output t = output s.
Proof.
  unfold e9_binpatch_validate. destruct (find_overlap _) as [[p q]|]; intros [= <- <-];
    eexists; by repeat split.
Qed.

Lemma apply_core mem grow s r s' :
  e9_binpatch_apply mem grow (Some s) = Some (r, s') → ∃ t, s' = Some t ∧ same_core s t.
Proof.
  unfold e9_binpatch_apply.
  destruct (finalized s); [intros [= <- <-]; eexists; split; [done|apply same_core_refl]|].
  destruct (e9_binpatch_validate (Some s)) as [code sv] eqn:Hv.
  destruct (validate_core _ _ _ Hv) as (t & -> & Ht & _). cbn [mbind option_bind].
  destruct (code <? 0); [intros [= <- <-]; eauto|].
  intros (x & Hx%apply_patches_core & H)%bind_Some_iff.
  pose proof (same_core_trans _ _ _ Ht Hx).
  destruct x; injection H as <- <-; eexists; (split; [done|]); done.
Qed.

Lemma session_op_inv bin s r s' : session_inv bin s → session_op s r (Some s') → session_inv bin s'.
Proof.
  intros Hinv Hop. inversion Hop as
    [mem addr b size flags r0 s0 H|mem addr size flags r0 s0 H|mem addr b size flags r0 s0 H
    |mem addr tg flags r0 s0 H|mem addr tg flags r0 s0 H|mem addr b size flags r0 s0 H
    |mem addr b size ptr flags r0 s0 q H|a1 a2 grow mn r0 s0 H|size r0 s0 H|r0 s0 H|mem grow r0 s0 H
    |r0 s0 H|id r0 s0 H|r0 s0 H]; subst; clear Hop.
  - unfold e9_binpatch_bytes in H. destruct b, (size =? 0); try (by simplify_eq).
    eapply unless_finalized_inv; [done| |exact H]. intros ??. by apply add_to_inv.
  - unfold e9_binpatch_nop in H. destruct (size =? 0); try (by simplify_eq).
    eapply unless_finalized_inv; [done| |exact H]. intros ??. by apply add_to_inv.
  - unfold e9_binpatch_insn in H. destruct b, (size =? 0); try (by simplify_eq).
    eapply unless_finalized_inv; [done| |exact H]. intros ?? (n & _ & Hn)%bind_Some_iff.
    destruct (n =? 0); [injection Hn as <- <-; eapply same_core_inv; [apply same_core_error|done]|].
    revert Hn. apply add_to_inv; [done|]. by destruct (n <? size).
  - eapply unless_finalized_inv; [done| |exact H]. intros ??. by apply add_to_inv.
  - eapply unless_finalized_inv; [done| |exact H]. intros ??. by apply add_to_inv.
  - unfold e9_binpatch_hook in H. destruct b, (size =? 0); try (by simplify_eq).
    eapply unless_finalized_inv; [done| |exact H]. intros ?? (n & _ & Hn)%bind_Some_iff.
    revert Hn. by apply add_to_inv.
  - unfold e9_binpatch_detour in H. destruct b, (size =? 0); try (by simplify_eq).
    apply bind_Some_iff in H as ([r1 s1] & H1 & [= <- -> _]).
    eapply unless_finalized_inv; [done| |exact H1]. intros ??. by apply add_to_inv.
  - destruct (caves_find_core _ _ _ _ _ _ _ H) as (t & [= ->] & Ht). by eapply same_core_inv.
  - destruct (caves_alloc_core _ _ _ _ H) as (t & [= ->] & Ht). by eapply same_core_inv.
  - destruct (validate_core _ _ _ H) as (t & [= ->] & Ht & _). by eapply same_core_inv.
  - destruct (apply_core _ _ _ _ _ H) as (t & [= ->] & Ht). by eapply same_core_inv.
  - unfold e9_binpatch_verify in H. destruct (negb _); [by simplify_eq|].
    apply bind_Some_iff in H as ([p|] & _ & [= <- <-]); [|done].
    eapply same_core_inv; [apply same_core_error|done].
  - unfold e9_binpatch_revert in H. destruct (_ || _); [by simplify_eq|].
    apply bind_Some_iff in H as (p & _ & H). destruct (p_backup_bytes p) as [raw|];
      [|injection H as <- <-; eapply same_core_inv; [apply same_core_error|done]].
    destruct (_ =? 0); [injection H as <- <-; eapply same_core_inv; [apply same_core_error|done]|].
    apply bind_Some_iff in H as (x & _ & H). apply bind_Some_iff in H as (o & Ho%wrn_len & [= <- <-]).
    eapply same_core_inv; [by apply same_core_output|done].
  - apply bind_Some_iff in H as (x & _ & H). apply bind_Some_iff in H as (o & Ho%wrn_len & [= <- <-]).
    destruct Hinv as [H0 H1 H2 H3 H4 H5 H6]. split; cbn; try done. lia.
Qed.

(** ** The properties *)

(** C30: every session reachable from a new one by the calls of the
    interface keeps its output buffer at its capacity, the size of the
    binary plus 4096, numbers its patches by their index, keeps in each
    backup the bytes of the original binary, and never overfills its table. *)
Theorem session_reachable_inv bin s :
  bin_wf bin → bin_size bin + 4096 < 2 ^ 64 → reachable bin s → session_inv bin s.
Proof.
  intros Hwf Hsz Hr. induction Hr as [s Hs|s r s' Hr IH Hop]; [|by eapply session_op_inv].
  unfold e9_binpatch_session_create in Hs. cbn [andb negb] in Hs.
  apply bind_Some_iff in Hs as (raw & Hraw & Hs). apply bind_Some_iff in Hs as (out & Hout & [= <-]).
  apply wrn_len in Hout. pose proof (wf_size _ Hwf). rewrite wrapu_small in * by lia.
  split; cbn; try done; try lia.
  - rewrite Hout. unfold blen. rewrite length_replicate. lia.
  - intros p raw'. by rewrite elem_of_nil.
Qed.

Definition sample_binary : E9Binary :=
  raw_binary E9_ARCH_X86_64 0x1000
    [0x7F; 0x45; 0x55; 0x48; 0x89; 0xE5; 0xE8; 0; 0; 0; 0; 0x90; 0x90; 0x90; 0x5D; 0xC3].

Lemma sample_wf : bin_wf sample_binary.
Proof. apply raw_binary_wf; [by repeat constructor|lia]. Qed.

(** The session created for the sample. *)
Definition sample_session : option E9BinPatchSession :=
  mjoin (e9_binpatch_session_create true true true true (Some sample_binary)).

Lemma session_reachable_inv_witness :
  ∃ s, e9_binpatch_session_create true true true true (Some sample_binary) = Some (Some s) ∧
       session_inv sample_binary s.
Proof.
  eexists. split; [vm_compute; reflexivity|].
  apply session_reachable_inv; [apply sample_wf|vm_compute; reflexivity|].
  apply reach_create. vm_compute. reflexivity.
Defined.

(** ** Branches, sleds and addresses *)

Lemma gen_jmp_out a buf from to n out :
  e9_binpatch_gen_jmp a (Some buf) from to = Some (n, Some out) →
  n = (jmp_code a from to).1 ∧ rdn out 0 n = Some (jmp_code a from to).2.
Proof.
  unfold e9_binpatch_gen_jmp. pose proof (jmp_code_len a from to) as [Hl _].
  destruct (jmp_code a from to) as [m code]. cbn [fst snd] in *.
  intros (o & Ho & [= <- <-])%bind_Some_iff. split; [done|]. rewrite <- Hl.
  by apply (rdn_wrn_same _ _ _ _ Ho).
Qed.

Lemma gen_call_out a buf from to n out :
  e9_binpatch_gen_call a (Some buf) from to = Some (n, Some out) →
  n = (call_code a from to).1 ∧ rdn out 0 n = Some (call_code a from to).2.
Proof.
  unfold e9_binpatch_gen_call. pose proof (call_code_len a from to) as [Hl _].
  destruct (call_code a from to) as [m code]. cbn [fst snd] in *.
  intros (o & Ho & [= <- <-])%bind_Some_iff. split; [done|]. rewrite <- Hl.
  by apply (rdn_wrn_same _ _ _ _ Ho).
Qed.

(** Either near branch, decoded where it was generated. *)
Lemma near_branch_decodes (call : bool) a bin from to :
  a = E9_ARCH_X86_64 ∨ a = E9_ARCH_AARCH64 → arch bin = a → bin_wf bin → bin_size bin < 2 ^ 64 →
  0 <= from → 0 <= to < 2 ^ 64 → near a from to →
  let code := if call then call_code a from to else jmp_code a from to in
  addr_to_offset bin from + code.1 <= bin_size bin →
  rdn (bin_data bin) (addr_to_offset bin from) code.1 = Some code.2 →
  ∃ i, e9_disasm_instruction true (Some bin) from = Some (Some i) ∧ insn_size i = code.1 ∧
    insn_category i = (if call then E9_INSN_CALL else E9_INSN_JUMP) ∧ insn_target i = to.
Proof.
  intros Ha Harch Hwf Hsz Hf Ht Hn code Hin Hrd. unfold e9_disasm_instruction. rewrite Harch.
  destruct Ha as [-> | ->].
  - destruct (x64_near_code E9_ARCH_X86_64 from to ltac:(done) Hn) as [Hj Hc].
    set (rel := s64 (to - u64 (from + 5))) in *.
    assert (code = (5, x64_branch (if call then 0xE8 else 0xE9) rel)) as Hcode.
    { subst code. by destruct call. }
    rewrite Hcode in *. cbn [fst snd] in *.
    destruct (disasm_x64_branch bin from (if call then 0xE8 else 0xE9) rel) as (i & H1 & _ & H2 & H3 & H4);
      try done; [destruct call; repeat constructor|].
    exists i. repeat split; try done; [by destruct call|].
    rewrite H4. by apply x64_near_target.
  - destruct (a64_near_code E9_ARCH_AARCH64 from to ltac:(done) Hn) as (Hr & Ho & Hj & Hc).
    set (imm := s64 (to - from) / 4) in *.
    assert (code = (4, le_bytes 4 (a64_encode (if call then A64_BL else A64_B) imm))) as Hcode.
    { subst code. by destruct call. }
    rewrite Hcode in *. cbn [fst snd] in *.
    pose proof (disasm_aarch64_safe bin Hwf true from Hf ltac:(lia)) as Hsafe.
    destruct (disasm_aarch64_word bin from _ Hwf Hf Hin Hsz
      (a64_encode_range (if call then A64_BL else A64_B) imm ltac:(by destruct call)) Hrd)
      as (i0 & _ & _ & Hd).
    destruct (a64_decode_26 (if call then A64_BL else A64_B) from imm i0) as (i & Hi & Hcat & Htgt & _);
      [destruct call; auto|lia|].
    rewrite Hd, Hi in *. cbn in Hsafe |- *. exists i. destruct Hsafe as [_ Hs4].
    repeat split; try done; [rewrite Hcat; by destruct call|].
    rewrite Htgt. by apply a64_near_target.
Qed.

(** On both architectures, the code [e9_binpatch_gen_jmp] generates for
    a near jump, placed at the address it was generated for, is disassembled
    as one instruction of the returned size, a jump to the target asked
    for. *)
Theorem gen_jmp_decodes a bin buf from to n out :
  a = E9_ARCH_X86_64 ∨ a = E9_ARCH_AARCH64 → arch bin = a → bin_wf bin → bin_size bin < 2 ^ 64 →
  0 <= from → 0 <= to < 2 ^ 64 → near a from to →
  e9_binpatch_gen_jmp a (Some buf) from to = Some (n, Some out) →
  addr_to_offset bin from + n <= bin_size bin →
  rdn (bin_data bin) (addr_to_offset bin from) n = rdn out 0 n →
  ∃ i, e9_disasm_instruction true (Some bin) from = Some (Some i) ∧ insn_size i = n ∧
    insn_category i = E9_INSN_JUMP ∧ insn_target i = to.
Proof.
  intros Ha Harch Hwf Hsz Hf Ht Hn Hgen Hin Hrd.
  destruct (gen_jmp_out _ _ _ _ _ _ Hgen) as [-> Hout]. rewrite Hout in Hrd.
  by apply (near_branch_decodes false a).
Qed.

Lemma gen_jmp_decodes_witness :
  ∃ i, e9_disasm_instruction true
         (Some (raw_binary E9_ARCH_AARCH64 0x1000 (le_bytes 4 0x17FFFFFE))) 0x1000 = Some (Some i) ∧
    insn_size i = 4 ∧ insn_category i = E9_INSN_JUMP ∧ insn_target i = 0xFF8.
Proof.
  apply (gen_jmp_decodes E9_ARCH_AARCH64 _ (replicate 20 0) 0x1000 0xFF8 4
           (le_bytes 4 0x17FFFFFE ++ replicate 16 0)); try done; [by right|].
  apply raw_binary_wf; [by repeat constructor|lia].
Defined.

(** The same for [e9_binpatch_gen_call] and calls. *)
Theorem gen_call_decodes a bin buf from to n out :
  a = E9_ARCH_X86_64 ∨ a = E9_ARCH_AARCH64 → arch bin = a → bin_wf bin → bin_size bin < 2 ^ 64 →
  0 <= from → 0 <= to < 2 ^ 64 → near a from to →
  e9_binpatch_gen_call a (Some buf) from to = Some (n, Some out) →
  addr_to_offset bin from + n <= bin_size bin →
  rdn (bin_data bin) (addr_to_offset bin from) n = rdn out 0 n →
  ∃ i, e9_disasm_instruction true (Some bin) from = Some (Some i) ∧ insn_size i = n ∧
    insn_category i = E9_INSN_CALL ∧ insn_target i = to.
Proof.
  intros Ha Harch Hwf Hsz Hf Ht Hn Hgen Hin Hrd.
  destruct (gen_call_out _ _ _ _ _ _ Hgen) as [-> Hout]. rewrite Hout in Hrd.
  by apply (near_branch_decodes true a).
Qed.

Lemma gen_call_decodes_witness :
  ∃ i, e9_disasm_instruction true
         (Some (raw_binary E9_ARCH_X86_64 0x1000 (x64_branch 0xE8 0x100))) 0x1000 = Some (Some i) ∧
    insn_size i = 5 ∧ insn_category i = E9_INSN_CALL ∧ insn_target i = 0x1105.
Proof.
  apply (gen_call_decodes E9_ARCH_X86_64 _ (replicate 20 0) 0x1000 0x1105 5
           (x64_branch 0xE8 0x100 ++ replicate 15 0)); try done; [by left|].
  apply raw_binary_wf; [by repeat constructor|lia].
Defined.

(** [e9_binpatch_gen_nops] writes inside the [size] bytes given and
    nowhere else.  On x86-64 it fills all of them, with a sequence of
    instructions each of which the length decoder of e9analysis.c takes for
    one instruction of exactly its size; on AArch64 it fills the whole words
    with the NOP word and leaves the last [size mod 4] bytes. *)
Theorem gen_nops_fills a buf off size :
  0 <= off → 0 <= size → off + size <= blen buf →
  ∃ out insns,
    e9_binpatch_gen_nops a (Some buf) off size = Some (Some out) ∧ blen out = blen buf ∧
    (∀ i, i < off ∨ off + blen (concat insns) <= i → rd out i = rd buf i) ∧
    rdn out off (blen (concat insns)) = Some (concat insns) ∧
    (if is_aarch64 a
     then insns = replicate (Z.to_nat (size / 4)) nop_a64 ∧ blen (concat insns) = 4 * (size / 4)
     else blen (concat insns) = size ∧
       ∀ c rest lim, c ∈ insns → blen c <= lim <= MAX_INSN_SIZE →
         x64_insn_length (c ++ rest) lim = Some (blen c)).
Proof.
  intros Ho Hs Hb. destruct (gen_nops_write a buf off size Ho Hs Hb) as (out & Hg & Hw).
  exists out, (sled a size). split; [done|]. split; [by eapply wrn_len|].
  fold (nop_sled a size). split; [intros i Hi; by eapply rd_wrn_out|].
  split; [by eapply rdn_wrn_same|].
  rewrite nop_sled_len by done. unfold sled. destruct (is_aarch64 a); [done|]. split; [done|].
  intros c rest lim Hc. apply nop_seqs_decode.
  pose proof (sled_x64_rows (Z.to_nat size) size Hs) as Hrows. by eapply Forall_forall in Hrows.
Qed.

Lemma gen_nops_fills_witness :
  ∃ out insns,
    e9_binpatch_gen_nops E9_ARCH_X86_64 (Some (replicate 16 0)) 2 11 = Some (Some out) ∧
    blen out = blen (replicate 16 0) ∧
    (∀ i, i < 2 ∨ 2 + blen (concat insns) <= i → rd out i = rd (replicate 16 0) i) ∧
    rdn out 2 (blen (concat insns)) = Some (concat insns) ∧
    blen (concat insns) = 11 ∧
      ∀ c rest lim, c ∈ insns → blen c <= lim <= MAX_INSN_SIZE →
        x64_insn_length (c ++ rest) lim = Some (blen c).
Proof. apply (gen_nops_fills E9_ARCH_X86_64); [lia|lia|vm_compute; discriminate]. Defined.

(** File offsets and virtual addresses translate into each other: an
    offset inside the binary comes back from its address. *)
Theorem offset_vaddr_roundtrip bin offset :
  0 <= offset < bin_size bin → 0 <= base_address bin → base_address bin + bin_size bin < 2 ^ 64 →
  e9_binpatch_vaddr_to_offset (Some bin) (e9_binpatch_offset_to_vaddr (Some bin) offset) = offset.
Proof.
  intros Ho Hb Hs. unfold e9_binpatch_offset_to_vaddr, e9_binpatch_vaddr_to_offset.
  rewrite (proj2 (Z.leb_gt _ _)) by lia. rewrite (wrapu_small 64 (base_address bin + offset)) by lia.
  assert (u64 (base_address bin + offset - base_address bin) = offset) as ->
    by (rewrite wrapu_small; lia).
  rewrite wrapu_small by lia.
  assert ((base_address bin <=? base_address bin + offset) &&
          (base_address bin + offset <? base_address bin + bin_size bin) = true) as -> by lia.
  by destruct (existsb _ _).
Qed.

Lemma offset_vaddr_roundtrip_witness :
  e9_binpatch_vaddr_to_offset (Some sample_binary)
    (e9_binpatch_offset_to_vaddr (Some sample_binary) 6) = 6.
Proof. apply offset_vaddr_roundtrip; [split; [lia|done]|done|done]. Defined.

(** [e9_binpatch_validate] accepts a session exactly when its patches
    occupy pairwise disjoint ranges of the file. *)
Lemma validate_disjoint s :
  Forall patch_sized (patches s) →
  (e9_binpatch_validate (Some s)).1 = 0 ↔ ForallOrdPairs disjoint (patches s).
Proof.
  intros Hs. assert (find_overlap (patches s) = None ↔ ForallOrdPairs disjoint (patches s)) as Hiff.
  { rewrite find_overlap_None. revert Hs. generalize (patches s). intros l.
    induction l as [|p l IH]; intros Hs; [split; constructor|].
    inversion Hs as [|? ? Hp Hl]; subst. specialize (IH Hl).
    assert (List.Forall (λ q, overlap p q = false) l ↔ List.Forall (disjoint p) l) as Hone.
    { rewrite !List.Forall_forall. split; intros H q Hq; apply (overlap_disjoint p q); auto;
        rewrite List.Forall_forall in Hl; auto. }
    split; intros H; inversion H; subst; constructor; (by apply Hone) || (by apply IH). }
  unfold e9_binpatch_validate. rewrite <- Hiff. destruct (find_overlap _) as [[p q]|]; done.
Qed.

Definition sample_patch (offset size : Z) : E9BinPatch :=
  zero_patch |> set_p_offset offset |> set_p_orig_size size.

Lemma validate_disjoint_witness :
  (e9_binpatch_validate (Some (Session sample_binary [sample_patch 2 3; sample_patch 5 4] 64 None 32
     [] 0 0 false 0 ""))).1 = 0 ↔ ForallOrdPairs disjoint [sample_patch 2 3; sample_patch 5 4].
Proof.
  apply (validate_disjoint (Session sample_binary [sample_patch 2 3; sample_patch 5 4] 64 None 32
     [] 0 0 false 0 "")).
  repeat constructor; cbn; lia.
Defined.

(** A session whose in-place patches can all be carried out. *)
Record session_ready (bin : E9Binary) (s : E9BinPatchSession) : Prop := {
  sr_inv : session_inv bin s;
  sr_open : finalized s = false;
  sr_capacity : output_capacity s < 2 ^ 64;
  sr_patches : Forall (patch_ready (arch bin) (output_capacity s)) (patches s);
  sr_disjoint : ForallOrdPairs disjoint (patches s) }.

(** The session after [apply]: its patches are in place, the rest of the
    buffer is as before. *)
Record applied (s s' : E9BinPatchSession) : Prop := {
  ap_finalized : finalized s' = true;
  ap_core : same_core s s';
  ap_in_place : Forall (in_place (arch (sbin s)) (output s')) (patches s);
  ap_frame : ∀ i, untouched (patches s) i → rd (output s') i = rd (output s) i }.

Lemma apply_ready mem grow bin s :
  session_ready bin s →
  ∃ s', e9_binpatch_apply mem grow (Some s) = Some (0, Some s') ∧ applied s s'.
Proof.
  intros [Hinv Hopen Hcap Hp Hd]. pose proof (si_bin _ _ Hinv) as Hbin.
  pose proof (si_output _ _ Hinv) as Hout. rewrite <- Hbin in Hp.
  destruct (apply_patches_content mem grow (patches s) s Hout Hcap Hp Hd)
    as (out & Ha & Hl & Hin & Hfr).
  unfold e9_binpatch_apply. rewrite Hopen. unfold e9_binpatch_validate.
  assert (find_overlap (patches s) = None) as ->.
  { apply find_overlap_None. revert Hp Hd. clear - Hcap. generalize (patches s). intros l.
    induction l as [|p l IH]; intros Hp Hd; [constructor|].
    inversion Hp as [|? ? Hp1 Hp2]; subst. inversion Hd as [|? ? Hd1 Hd2]; subst.
    constructor; [|by apply IH]. rewrite List.Forall_forall in *. intros q Hq.
    specialize (Hp2 q Hq). destruct Hp1, Hp2.
    apply overlap_disjoint; [unfold patch_sized; lia..|by apply Hd1]. }
  cbn [mbind option_bind]. change (0 <? 0) with false. cbv iota. rewrite Ha. cbn.
  eexists. split; [done|]. by split.
Qed.

(** C8: a session of raw, NOP, instruction, call and jump patches over
    disjoint ranges of the buffer is applied without undefined behaviour and
    succeeds; afterwards every patch has its content at its offset, and every
    byte outside the patched ranges is unchanged, so the result does not
    depend on the order of the patches. *)
Theorem apply_in_place mem grow bin s :
  session_ready bin s →
  ∃ s', e9_binpatch_apply mem grow (Some s) = Some (0, Some s') ∧ finalized s' = true ∧
    patches s' = patches s ∧ blen (output s') = blen (output s) ∧
    Forall (in_place (arch bin) (output s')) (patches s) ∧
    ∀ i, untouched (patches s) i → rd (output s') i = rd (output s) i.
Proof.
  intros Hr. destruct (apply_ready mem grow bin s Hr) as (s' & Ha & [H1 H2 H3 H4]).
  rewrite (si_bin _ _ (sr_inv _ _ Hr)) in H3. exists s'. destruct H2 as (_ & E2 & _ & E4 & _).
  by repeat split.
Qed.

(** A session with one patch of each kind that writes in place. *)
Definition first_patch : E9BinPatch :=
  zero_patch |> set_p_type E9_BINPATCH_BYTES |> set_p_flags 3 |> set_p_offset 2
    |> set_p_address 0x1002 |> set_p_new_bytes (Some [0xC3]) |> set_p_new_size 1
    |> set_p_orig_size 1 |> set_p_backup_bytes (Some [0x55]) |> set_p_backup_size 1.

Definition sample_patches : list E9BinPatch :=
  [first_patch;
   zero_patch |> set_p_type E9_BINPATCH_CALL |> set_p_offset 6 |> set_p_address 0x1006
     |> set_p_target_addr 0x1002 |> set_p_new_size 5 |> set_p_orig_size 5 |> set_p_id 1;
   zero_patch |> set_p_type E9_BINPATCH_NOP |> set_p_offset 11 |> set_p_address 0x100B
     |> set_p_new_size 3 |> set_p_orig_size 3 |> set_p_id 2].

Definition sample_output : bytes := bin_data sample_binary ++ replicate 4096 0.

Definition ready_session : E9BinPatchSession :=
  Session sample_binary sample_patches 64 None 32 sample_output 16 4112 false 0 "".

Lemma ready_session_ready : session_ready sample_binary ready_session.
Proof.
  split; [| done | done | |].
  - split; try done.
    + intros k p. do 3 (destruct k as [|k]; [by intros [= <-]|]). done.
    + intros p raw. cbn [patches ready_session]. unfold sample_patches.
      rewrite !elem_of_cons, elem_of_nil. by intros [-> | [-> | [-> | []]]] [= <-].
  - unfold ready_session, sample_patches. cbn [patches]. repeat constructor;
      cbn [p_offset p_orig_size p_new_size]; first [by eexists | vm_compute; intros [=] | idtac].
  - repeat constructor; unfold disjoint; cbn; lia.
Qed.

Lemma apply_in_place_witness :
  ∃ s', e9_binpatch_apply (true, true) (λ _, true) (Some ready_session) = Some (0, Some s') ∧
    finalized s' = true ∧ patches s' = patches ready_session ∧
    blen (output s') = blen (output ready_session) ∧
    Forall (in_place E9_ARCH_X86_64 (output s')) (patches ready_session) ∧
    ∀ i, untouched (patches ready_session) i → rd (output s') i = rd (output ready_session) i.
Proof. apply (apply_in_place _ _ sample_binary), ready_session_ready. Defined.

(** After such a session is applied, [e9_binpatch_verify] succeeds and
    leaves the session as it is. *)
Theorem apply_verify mem grow bin s :
  session_ready bin s →
  ∃ s', e9_binpatch_apply mem grow (Some s) = Some (0, Some s') ∧
    e9_binpatch_verify (Some s') = Some (0, Some s').
Proof.
  intros Hr. destruct (apply_ready mem grow bin s Hr) as (s' & Ha & [H1 H2 H3 _]).
  exists s'. split; [done|]. unfold e9_binpatch_verify. rewrite H1. cbn [negb].
  assert (verify_patches (patches s') (output s') = Some None) as ->; [|done].
  destruct H2 as (_ & -> & _). revert H3. generalize (patches s). intros l.
  induction l as [|p l IH]; intros Hin; cbn [verify_patches]; [done|].
  inversion Hin as [|? ? Hp Hl]; subst. specialize (IH Hl).
  destruct (_ && _) eqn:E; [|done]. bool_hyps.
  match goal with H : bool_decide _ = true |- _ => apply bool_decide_eq_true in H as Ht end.
  destruct (p_new_bytes p) as [b|] eqn:Hb; [|done].
  destruct Hp as (c & Hc & Hrd). unfold patch_content in Hc. rewrite Ht, Hb in Hc.
  cbn [read_ptr] in Hc. rewrite Hc. cbn [mbind option_bind]. unfold memeq. rewrite Hrd.
  cbn [mbind option_bind]. by rewrite bool_decide_eq_true_2.
Qed.

Lemma apply_verify_witness :
  ∃ s', e9_binpatch_apply (true, true) (λ _, true) (Some ready_session) = Some (0, Some s') ∧
    e9_binpatch_verify (Some s') = Some (0, Some s').
Proof. apply (apply_verify _ _ sample_binary), ready_session_ready. Defined.

(** C9: reverting one applied patch that has a backup of its whole range
    puts the bytes of the original binary back there, and keeps every other
    patch in place and every unpatched byte as it was. *)
Theorem revert_restores mem grow bin s k p :
  session_ready bin s → patches s !! k = Some p → is_Some (p_backup_bytes p) →
  p_backup_size p = p_orig_size p →
  ∃ s' s'', e9_binpatch_apply mem grow (Some s) = Some (0, Some s') ∧
    e9_binpatch_revert (Some s') (Z.of_nat k) = Some (0, Some s'') ∧
    rdn (output s'') (p_offset p) (p_orig_size p) = rdn (bin_data bin) (p_offset p) (p_orig_size p) ∧
    (∀ j q, j ≠ k → patches s !! j = Some q → in_place (arch bin) (output s'') q) ∧
    ∀ i, untouched (patches s) i → rd (output s'') i = rd (output s) i.
Proof.
  intros Hr Hk [raw Hraw] Hsize. pose proof (sr_inv _ _ Hr) as Hinv.
  destruct (apply_ready mem grow bin s Hr) as (s' & Ha & [H1 H2 H3 H4]).
  destruct H2 as (Eb & Ep & _ & El & _). rewrite (si_bin _ _ Hinv) in H3.
  assert (patch_ready (arch bin) (output_capacity s) p) as Hpr.
  { pose proof (sr_patches _ _ Hr) as Hall. by eapply Forall_lookup_1 in Hall. }
  pose proof (si_backup _ _ Hinv p raw ltac:(by eapply list_elem_of_lookup_2) Hraw) as Hb.
  rewrite (si_bin _ _ Hinv), Hsize in Hb. pose proof (rdn_len _ _ _ _ Hb) as Hlen.
  pose proof (si_output _ _ Hinv). destruct Hpr as [_ _ Hpos [Ho Hin]].
  destruct (wrn_is_Some (output s') (p_offset p) raw) as [out Hw]; [lia|lia|].
  exists s', (set_output out s'). split; [done|]. split; [|split; [|split]].
  - unfold e9_binpatch_revert. rewrite Ep. pose proof (lookup_lt_Some _ _ _ Hk).
    rewrite (proj2 (Z.ltb_ge _ _)), (proj2 (Z.leb_gt _ _)) by lia. cbn [orb].
    rewrite Nat2Z.id, Hk. cbn [mbind option_bind]. rewrite Hraw.
    rewrite (proj2 (Z.eqb_neq _ _)) by lia.
    assert (rdn raw 0 (p_backup_size p) = Some raw) as ->.
    { rewrite Hsize, <- Hlen. apply rdn_ext; [lia|lia|]. intros i _. f_equal. }
    cbn [mbind option_bind]. by rewrite Hw.
  - cbn [output set_output]. rewrite Hb, <- Hlen. by eapply rdn_wrn_same.
  - intros j q Hj Hq. assert (in_place (arch bin) (output s') q) as (c & Hc & Hrd).
    { by eapply Forall_lookup_1 in H3. }
    assert (patch_ready (arch bin) (output_capacity s) q) as Hqr.
    { pose proof (sr_patches _ _ Hr) as Hall. by eapply Forall_lookup_1 in Hall. }
    pose proof (patch_content_len _ _ _ _ Hqr Hc). pose proof (blen_nonneg c).
    assert (disjoint p q) as Hd.
    { pose proof (sr_disjoint _ _ Hr) as Hd. revert Hd j k Hj Hk Hq.
      clear. generalize (patches s). intros l.
      induction l as [|x l IH]; intros Hd j k Hj Hk Hq; [done|].
      inversion Hd as [|? ? Hx Hl]; subst. rewrite List.Forall_forall in Hx.
      destruct j as [|j], k as [|k]; try done; cbn in Hk, Hq.
      - injection Hq as ->. apply list_elem_of_lookup_2, list_elem_of_In in Hk.
        specialize (Hx p Hk). unfold disjoint in *. lia.
      - injection Hk as ->. apply list_elem_of_lookup_2, list_elem_of_In in Hq. by apply Hx.
      - eapply (IH Hl j k); try done. lia. }
    exists c. split; [done|]. cbn [output set_output].
    rewrite (rdn_wrn_disjoint _ _ _ _ _ _ Hw); [done|]. unfold disjoint in Hd. lia.
  - intros i Hi. rewrite <- (H4 i Hi). cbn [output set_output].
    eapply rd_wrn_out; [exact Hw|]. unfold untouched in Hi.
    eapply Forall_lookup_1 in Hi; [|exact Hk]. cbn beta in Hi. lia.
Qed.

Lemma revert_restores_witness :
  ∃ s' s'', e9_binpatch_apply (true, true) (λ _, true) (Some ready_session) = Some (0, Some s') ∧
    e9_binpatch_revert (Some s') (Z.of_nat 0) = Some (0, Some s'') ∧
    rdn (output s'') (p_offset first_patch) (p_orig_size first_patch)
      = rdn (bin_data sample_binary) (p_offset first_patch) (p_orig_size first_patch) ∧
    (∀ j q, j ≠ 0%nat → patches ready_session !! j = Some q →
       in_place (arch sample_binary) (output s'') q) ∧
    ∀ i, untouched (patches ready_session) i → rd (output s'') i = rd (output ready_session) i.
Proof.
  apply (revert_restores (true, true) (λ _, true) sample_binary ready_session 0%nat
    first_patch ready_session_ready); [done|by eexists|done].
Defined.

(** C34: [e9_caves_alloc] hands out the start of a smallest cave that is
    large enough, and fails only when no cave is; the free caves and all
    the blocks handed out so far stay pairwise disjoint, so no byte is ever
    given out twice. *)
Theorem caves_alloc_best_fit s f held size :
  cave_finder s = Some f → caves_inv held (caves f) → 0 <= size →
  (∀ c, c ∈ caves f → cave_size c < size) ∧ e9_caves_alloc (Some s) size = (0, Some s) ∨
  ∃ c f' s', c ∈ caves f ∧ size <= cave_size c ∧
    (∀ c', c' ∈ caves f → size <= cave_size c' → cave_size c <= cave_size c') ∧
    e9_caves_alloc (Some s) size = (cave_address c, Some s') ∧ cave_finder s' = Some f' ∧
    List.length (caves f') = List.length (caves f) ∧
    caves_inv ((cave_address c, size) :: held) (caves f').
Proof.
  intros Hf Hinv Hs. unfold e9_caves_alloc. rewrite Hf.
  pose proof (best_cave_spec size (caves f) 0 None) as Hbest.
  destruct (best_cave size (caves f) 0 None) as [[i c]|].
  - right. destruct Hbest as (Hor & Hmin & _).
    destruct Hor as [[=]|(k & -> & Hk & Hfit)].
    eexists c, _, _. split; [by eapply list_elem_of_lookup_2|]. split; [done|]. split; [done|].
    split; [done|]. split; [done|]. cbn [caves set_caves]. split; [by rewrite length_insert|].
    apply alloc_inv; [done|done|lia].
  - left. split; [|done]. apply Hbest.
Qed.

Definition sample_finder : E9CaveFinder :=
  CaveFinder [CodeCave 0x1000 0 64 false true 0; CodeCave 0x2000 0x1000 32 false true 0]
    64 8 true true.

Definition cave_session : E9BinPatchSession :=
  Session sample_binary [] 64 (Some sample_finder) 32 [] 0 0 false 0 "".

Lemma caves_alloc_best_fit_witness :
  (∀ c, c ∈ caves sample_finder → cave_size c < 24) ∧
    e9_caves_alloc (Some cave_session) 24 = (0, Some cave_session) ∨
  ∃ c f' s', c ∈ caves sample_finder ∧ 24 <= cave_size c ∧
    (∀ c', c' ∈ caves sample_finder → 24 <= cave_size c' → cave_size c <= cave_size c') ∧
    e9_caves_alloc (Some cave_session) 24 = (cave_address c, Some s') ∧ cave_finder s' = Some f' ∧
    List.length (caves f') = List.length (caves sample_finder) ∧
    caves_inv [(cave_address c, 24)] (caves f').
Proof.
  apply caves_alloc_best_fit; [done| |lia]. split.
  - intros i j ci cj Hne Hi Hj.
    destruct i as [|[|i]], j as [|[|j]]; try done; injection Hi as <-; injection Hj as <-;
      unfold apart; cbn; lia.
  - constructor.
  - intros b c. by rewrite elem_of_nil.
  - intros c. cbn. rewrite !elem_of_cons, elem_of_nil. intros [-> | [-> | []]]; cbn; lia.
Defined.

(** [e9_caves_find] terminates without reading outside the binary, and
    every cave it reports is a run of filler bytes (NOP words on AArch64)
    inside one executable section of the file, at least as long as the
    minimum, with the address and the offset of its first byte. *)
Theorem caves_find_sound grow bin s min :
  session_inv bin s → bin_wf bin → Forall (section_fits bin) (sections bin) →
  cave_finder s = None → 0 < min →
  ∃ r s' f, e9_caves_find true true grow (Some s) min = Some (r, Some s') ∧
    cave_finder s' = Some f ∧ output s' = output s ∧ Forall (cave_found bin min) (caves f).
Proof.
  intros Hinv Hwf Hsec Hn Hmin. unfold e9_caves_find. rewrite Hn. cbn [andb]. cbv zeta iota.
  rewrite (si_bin _ _ Hinv). rewrite (proj2 (Z.ltb_lt _ _)) by done.
  pose proof (cave_sections_ok bin grow min (sections bin) 0
    (set_caves [] (CaveFinder [] 64 min true true)) Hwf ltac:(lia) Hsec ltac:(done)
    ltac:(split; [done|constructor])) as Hsafe.
  apply safely_Some in Hsafe as ([f|f] & -> & [_ Hf]); cbn; by eexists _, _, _.
Qed.

Definition cave_binary : E9Binary :=
  Binary (bin_data sample_binary) 16 0x1000 E9_ARCH_X86_64 E9_FORMAT_ELF false false 0
    [Section_ 0x1002 14 6 ".text"] zero_ape.

Lemma caves_find_sound_witness :
  ∃ r s' f, e9_caves_find true true (λ _, true)
      (Some (Session cave_binary [] 64 None 32 sample_output 16 4112 false 0 "")) 3
      = Some (r, Some s') ∧
    cave_finder s' = Some f ∧ output s' = sample_output ∧ Forall (cave_found cave_binary 3) (caves f).
Proof.
  apply (caves_find_sound _ _ (Session cave_binary [] 64 None 32 sample_output 16 4112 false 0 ""));
    [|split| | |]; try done.
  - split; try done. intros p raw. by rewrite elem_of_nil.
  - apply sample_wf.
  - repeat constructor. done.
Defined.

End BinPatch.
