(* ===== verification/Ape.v ===== *)
(** * Ape: Actually Portable Executables

    Models src/src/e9patch/e9ape.c (and the types of e9ape.h): detection and parsing
    of the polyglot header, the translation between RVAs and file offsets,
    patching at an offset, an RVA or an address, and the listing of the ZipOS
    central directory.  [off_t] is a 64-bit signed integer. *)

From S2P Require Import Prelude.

Module Ape.

(** ** Types (e9ape.h) *)

Record E9_APEInfo := APEInfo {
  file_size : Z; is_cosmopolitan : bool; pe_offset : Z; pe_size : Z; pe_num_sections :
  Z; text_offset : Z; text_rva : Z; text_size : Z; rdata_offset : Z; rdata_rva : Z;
  rdata_size : Z; data_offset : Z; data_rva : Z; data_size : Z; has_arm64_elf : bool;
  arm64_elf_offset : Z; is_assimilated : bool; x86_elf_offset : Z; zipos_start : Z;
  zipos_central_dir : Z; zipos_end : Z; zipos_num_entries : Z; preserve_zipos : bool
  }.

(** A directory entry; the name is NULL when its allocation failed. *)
Record E9_ZipOSEntry := ZipOSEntry {
  name : option bytes; local_header_offset : Z; compressed_size : Z; uncompressed_size
  : Z; compression : Z; crc32 : Z; is_directory : bool }.

Definition zero_info : E9_APEInfo :=
  APEInfo 0 false 0 0 0 0 0 0 0 0 0 0 0 0 false 0 false 0 0 0 0 0 false.

(** Assignments to one field. *)
Definition set_is_cosmopolitan (v : bool) (i : E9_APEInfo) : E9_APEInfo :=
  {| file_size := file_size i; is_cosmopolitan := v; pe_offset := pe_offset i; pe_size :=
  pe_size i; pe_num_sections := pe_num_sections i; text_offset := text_offset i; text_rva
  := text_rva i; text_size := text_size i; rdata_offset := rdata_offset i; rdata_rva :=
  rdata_rva i; rdata_size := rdata_size i; data_offset := data_offset i; data_rva :=
  data_rva i; data_size := data_size i; has_arm64_elf := has_arm64_elf i; arm64_elf_offset
  := arm64_elf_offset i; is_assimilated := is_assimilated i; x86_elf_offset :=
  x86_elf_offset i; zipos_start := zipos_start i; zipos_central_dir := zipos_central_dir
  i; zipos_end := zipos_end i; zipos_num_entries := zipos_num_entries i; preserve_zipos :=
  preserve_zipos i |}.

Definition set_pe_offset (v : Z) (i : E9_APEInfo) : E9_APEInfo :=
  {| file_size := file_size i; is_cosmopolitan := is_cosmopolitan i; pe_offset := v;
  pe_size := pe_size i; pe_num_sections := pe_num_sections i; text_offset := text_offset
  i; text_rva := text_rva i; text_size := text_size i; rdata_offset := rdata_offset i;
  rdata_rva := rdata_rva i; rdata_size := rdata_size i; data_offset := data_offset i;
  data_rva := data_rva i; data_size := data_size i; has_arm64_elf := has_arm64_elf i;
  arm64_elf_offset := arm64_elf_offset i; is_assimilated := is_assimilated i;
  x86_elf_offset := x86_elf_offset i; zipos_start := zipos_start i; zipos_central_dir :=
  zipos_central_dir i; zipos_end := zipos_end i; zipos_num_entries := zipos_num_entries i;
  preserve_zipos := preserve_zipos i |}.

Definition set_pe_size (v : Z) (i : E9_APEInfo) : E9_APEInfo :=
  {| file_size := file_size i; is_cosmopolitan := is_cosmopolitan i; pe_offset :=
  pe_offset i; pe_size := v; pe_num_sections := pe_num_sections i; text_offset :=
  text_offset i; text_rva := text_rva i; text_size := text_size i; rdata_offset :=
  rdata_offset i; rdata_rva := rdata_rva i; rdata_size := rdata_size i; data_offset :=
  data_offset i; data_rva := data_rva i; data_size := data_size i; has_arm64_elf :=
  has_arm64_elf i; arm64_elf_offset := arm64_elf_offset i; is_assimilated :=
  is_assimilated i; x86_elf_offset := x86_elf_offset i; zipos_start := zipos_start i;
  zipos_central_dir := zipos_central_dir i; zipos_end := zipos_end i; zipos_num_entries :=
  zipos_num_entries i; preserve_zipos := preserve_zipos i |}.

Definition set_pe_num_sections (v : Z) (i : E9_APEInfo) : E9_APEInfo :=
  {| file_size := file_size i; is_cosmopolitan := is_cosmopolitan i; pe_offset :=
  pe_offset i; pe_size := pe_size i; pe_num_sections := v; text_offset := text_offset i;
  text_rva := text_rva i; text_size := text_size i; rdata_offset := rdata_offset i;
  rdata_rva := rdata_rva i; rdata_size := rdata_size i; data_offset := data_offset i;
  data_rva := data_rva i; data_size := data_size i; has_arm64_elf := has_arm64_elf i;
  arm64_elf_offset := arm64_elf_offset i; is_assimilated := is_assimilated i;
  x86_elf_offset := x86_elf_offset i; zipos_start := zipos_start i; zipos_central_dir :=
  zipos_central_dir i; zipos_end := zipos_end i; zipos_num_entries := zipos_num_entries i;
  preserve_zipos := preserve_zipos i |}.

Definition set_text_offset (v : Z) (i : E9_APEInfo) : E9_APEInfo :=
  {| file_size := file_size i; is_cosmopolitan := is_cosmopolitan i; pe_offset :=
  pe_offset i; pe_size := pe_size i; pe_num_sections := pe_num_sections i; text_offset :=
  v; text_rva := text_rva i; text_size := text_size i; rdata_offset := rdata_offset i;
  rdata_rva := rdata_rva i; rdata_size := rdata_size i; data_offset := data_offset i;
  data_rva := data_rva i; data_size := data_size i; has_arm64_elf := has_arm64_elf i;
  arm64_elf_offset := arm64_elf_offset i; is_assimilated := is_assimilated i;
  x86_elf_offset := x86_elf_offset i; zipos_start := zipos_start i; zipos_central_dir :=
  zipos_central_dir i; zipos_end := zipos_end i; zipos_num_entries := zipos_num_entries i;
  preserve_zipos := preserve_zipos i |}.

Definition set_text_rva (v : Z) (i : E9_APEInfo) : E9_APEInfo :=
  {| file_size := file_size i; is_cosmopolitan := is_cosmopolitan i; pe_offset :=
  pe_offset i; pe_size := pe_size i; pe_num_sections := pe_num_sections i; text_offset :=
  text_offset i; text_rva := v; text_size := text_size i; rdata_offset := rdata_offset i;
  rdata_rva := rdata_rva i; rdata_size := rdata_size i; data_offset := data_offset i;
  data_rva := data_rva i; data_size := data_size i; has_arm64_elf := has_arm64_elf i;
  arm64_elf_offset := arm64_elf_offset i; is_assimilated := is_assimilated i;
  x86_elf_offset := x86_elf_offset i; zipos_start := zipos_start i; zipos_central_dir :=
  zipos_central_dir i; zipos_end := zipos_end i; zipos_num_entries := zipos_num_entries i;
  preserve_zipos := preserve_zipos i |}.

Definition set_text_size (v : Z) (i : E9_APEInfo) : E9_APEInfo :=
  {| file_size := file_size i; is_cosmopolitan := is_cosmopolitan i; pe_offset :=
  pe_offset i; pe_size := pe_size i; pe_num_sections := pe_num_sections i; text_offset :=
  text_offset i; text_rva := text_rva i; text_size := v; rdata_offset := rdata_offset i;
  rdata_rva := rdata_rva i; rdata_size := rdata_size i; data_offset := data_offset i;
  data_rva := data_rva i; data_size := data_size i; has_arm64_elf := has_arm64_elf i;
  arm64_elf_offset := arm64_elf_offset i; is_assimilated := is_assimilated i;
  x86_elf_offset := x86_elf_offset i; zipos_start := zipos_start i; zipos_central_dir :=
  zipos_central_dir i; zipos_end := zipos_end i; zipos_num_entries := zipos_num_entries i;
  preserve_zipos := preserve_zipos i |}.

Definition set_rdata_offset (v : Z) (i : E9_APEInfo) : E9_APEInfo :=
  {| file_size := file_size i; is_cosmopolitan := is_cosmopolitan i; pe_offset :=
  pe_offset i; pe_size := pe_size i; pe_num_sections := pe_num_sections i; text_offset :=
  text_offset i; text_rva := text_rva i; text_size := text_size i; rdata_offset := v;
  rdata_rva := rdata_rva i; rdata_size := rdata_size i; data_offset := data_offset i;
  data_rva := data_rva i; data_size := data_size i; has_arm64_elf := has_arm64_elf i;
  arm64_elf_offset := arm64_elf_offset i; is_assimilated := is_assimilated i;
  x86_elf_offset := x86_elf_offset i; zipos_start := zipos_start i; zipos_central_dir :=
  zipos_central_dir i; zipos_end := zipos_end i; zipos_num_entries := zipos_num_entries i;
  preserve_zipos := preserve_zipos i |}.

Definition set_rdata_rva (v : Z) (i : E9_APEInfo) : E9_APEInfo :=
  {| file_size := file_size i; is_cosmopolitan := is_cosmopolitan i; pe_offset :=
  pe_offset i; pe_size := pe_size i; pe_num_sections := pe_num_sections i; text_offset :=
  text_offset i; text_rva := text_rva i; text_size := text_size i; rdata_offset :=
  rdata_offset i; rdata_rva := v; rdata_size := rdata_size i; data_offset := data_offset
  i; data_rva := data_rva i; data_size := data_size i; has_arm64_elf := has_arm64_elf i;
  arm64_elf_offset := arm64_elf_offset i; is_assimilated := is_assimilated i;
  x86_elf_offset := x86_elf_offset i; zipos_start := zipos_start i; zipos_central_dir :=
  zipos_central_dir i; zipos_end := zipos_end i; zipos_num_entries := zipos_num_entries i;
  preserve_zipos := preserve_zipos i |}.

Definition set_rdata_size (v : Z) (i : E9_APEInfo) : E9_APEInfo :=
  {| file_size := file_size i; is_cosmopolitan := is_cosmopolitan i; pe_offset :=
  pe_offset i; pe_size := pe_size i; pe_num_sections := pe_num_sections i; text_offset :=
  text_offset i; text_rva := text_rva i; text_size := text_size i; rdata_offset :=
  rdata_offset i; rdata_rva := rdata_rva i; rdata_size := v; data_offset := data_offset i;
  data_rva := data_rva i; data_size := data_size i; has_arm64_elf := has_arm64_elf i;
  arm64_elf_offset := arm64_elf_offset i; is_assimilated := is_assimilated i;
  x86_elf_offset := x86_elf_offset i; zipos_start := zipos_start i; zipos_central_dir :=
  zipos_central_dir i; zipos_end := zipos_end i; zipos_num_entries := zipos_num_entries i;
  preserve_zipos := preserve_zipos i |}.

Definition set_data_offset (v : Z) (i : E9_APEInfo) : E9_APEInfo :=
  {| file_size := file_size i; is_cosmopolitan := is_cosmopolitan i; pe_offset :=
  pe_offset i; pe_size := pe_size i; pe_num_sections := pe_num_sections i; text_offset :=
  text_offset i; text_rva := text_rva i; text_size := text_size i; rdata_offset :=
  rdata_offset i; rdata_rva := rdata_rva i; rdata_size := rdata_size i; data_offset := v;
  data_rva := data_rva i; data_size := data_size i; has_arm64_elf := has_arm64_elf i;
  arm64_elf_offset := arm64_elf_offset i; is_assimilated := is_assimilated i;
  x86_elf_offset := x86_elf_offset i; zipos_start := zipos_start i; zipos_central_dir :=
  zipos_central_dir i; zipos_end := zipos_end i; zipos_num_entries := zipos_num_entries i;
  preserve_zipos := preserve_zipos i |}.

Definition set_data_rva (v : Z) (i : E9_APEInfo) : E9_APEInfo :=
  {| file_size := file_size i; is_cosmopolitan := is_cosmopolitan i; pe_offset :=
  pe_offset i; pe_size := pe_size i; pe_num_sections := pe_num_sections i; text_offset :=
  text_offset i; text_rva := text_rva i; text_size := text_size i; rdata_offset :=
  rdata_offset i; rdata_rva := rdata_rva i; rdata_size := rdata_size i; data_offset :=
  data_offset i; data_rva := v; data_size := data_size i; has_arm64_elf := has_arm64_elf
  i; arm64_elf_offset := arm64_elf_offset i; is_assimilated := is_assimilated i;
  x86_elf_offset := x86_elf_offset i; zipos_start := zipos_start i; zipos_central_dir :=
  zipos_central_dir i; zipos_end := zipos_end i; zipos_num_entries := zipos_num_entries i;
  preserve_zipos := preserve_zipos i |}.

Definition set_data_size (v : Z) (i : E9_APEInfo) : E9_APEInfo :=
  {| file_size := file_size i; is_cosmopolitan := is_cosmopolitan i; pe_offset :=
  pe_offset i; pe_size := pe_size i; pe_num_sections := pe_num_sections i; text_offset :=
  text_offset i; text_rva := text_rva i; text_size := text_size i; rdata_offset :=
  rdata_offset i; rdata_rva := rdata_rva i; rdata_size := rdata_size i; data_offset :=
  data_offset i; data_rva := data_rva i; data_size := v; has_arm64_elf := has_arm64_elf i;
  arm64_elf_offset := arm64_elf_offset i; is_assimilated := is_assimilated i;
  x86_elf_offset := x86_elf_offset i; zipos_start := zipos_start i; zipos_central_dir :=
  zipos_central_dir i; zipos_end := zipos_end i; zipos_num_entries := zipos_num_entries i;
  preserve_zipos := preserve_zipos i |}.

Definition set_has_arm64_elf (v : bool) (i : E9_APEInfo) : E9_APEInfo :=
  {| file_size := file_size i; is_cosmopolitan := is_cosmopolitan i; pe_offset :=
  pe_offset i; pe_size := pe_size i; pe_num_sections := pe_num_sections i; text_offset :=
  text_offset i; text_rva := text_rva i; text_size := text_size i; rdata_offset :=
  rdata_offset i; rdata_rva := rdata_rva i; rdata_size := rdata_size i; data_offset :=
  data_offset i; data_rva := data_rva i; data_size := data_size i; has_arm64_elf := v;
  arm64_elf_offset := arm64_elf_offset i; is_assimilated := is_assimilated i;
  x86_elf_offset := x86_elf_offset i; zipos_start := zipos_start i; zipos_central_dir :=
  zipos_central_dir i; zipos_end := zipos_end i; zipos_num_entries := zipos_num_entries i;
  preserve_zipos := preserve_zipos i |}.

Definition set_arm64_elf_offset (v : Z) (i : E9_APEInfo) : E9_APEInfo :=
  {| file_size := file_size i; is_cosmopolitan := is_cosmopolitan i; pe_offset :=
  pe_offset i; pe_size := pe_size i; pe_num_sections := pe_num_sections i; text_offset :=
  text_offset i; text_rva := text_rva i; text_size := text_size i; rdata_offset :=
  rdata_offset i; rdata_rva := rdata_rva i; rdata_size := rdata_size i; data_offset :=
  data_offset i; data_rva := data_rva i; data_size := data_size i; has_arm64_elf :=
  has_arm64_elf i; arm64_elf_offset := v; is_assimilated := is_assimilated i;
  x86_elf_offset := x86_elf_offset i; zipos_start := zipos_start i; zipos_central_dir :=
  zipos_central_dir i; zipos_end := zipos_end i; zipos_num_entries := zipos_num_entries i;
  preserve_zipos := preserve_zipos i |}.

Definition set_is_assimilated (v : bool) (i : E9_APEInfo) : E9_APEInfo :=
  {| file_size := file_size i; is_cosmopolitan := is_cosmopolitan i; pe_offset :=
  pe_offset i; pe_size := pe_size i; pe_num_sections := pe_num_sections i; text_offset :=
  text_offset i; text_rva := text_rva i; text_size := text_size i; rdata_offset :=
  rdata_offset i; rdata_rva := rdata_rva i; rdata_size := rdata_size i; data_offset :=
  data_offset i; data_rva := data_rva i; data_size := data_size i; has_arm64_elf :=
  has_arm64_elf i; arm64_elf_offset := arm64_elf_offset i; is_assimilated := v;
  x86_elf_offset := x86_elf_offset i; zipos_start := zipos_start i; zipos_central_dir :=
  zipos_central_dir i; zipos_end := zipos_end i; zipos_num_entries := zipos_num_entries i;
  preserve_zipos := preserve_zipos i |}.

Definition set_x86_elf_offset (v : Z) (i : E9_APEInfo) : E9_APEInfo :=
  {| file_size := file_size i; is_cosmopolitan := is_cosmopolitan i; pe_offset :=
  pe_offset i; pe_size := pe_size i; pe_num_sections := pe_num_sections i; text_offset :=
  text_offset i; text_rva := text_rva i; text_size := text_size i; rdata_offset :=
  rdata_offset i; rdata_rva := rdata_rva i; rdata_size := rdata_size i; data_offset :=
  data_offset i; data_rva := data_rva i; data_size := data_size i; has_arm64_elf :=
  has_arm64_elf i; arm64_elf_offset := arm64_elf_offset i; is_assimilated :=
  is_assimilated i; x86_elf_offset := v; zipos_start := zipos_start i; zipos_central_dir
  := zipos_central_dir i; zipos_end := zipos_end i; zipos_num_entries := zipos_num_entries
  i; preserve_zipos := preserve_zipos i |}.

Definition set_zipos_start (v : Z) (i : E9_APEInfo) : E9_APEInfo :=
  {| file_size := file_size i; is_cosmopolitan := is_cosmopolitan i; pe_offset :=
  pe_offset i; pe_size := pe_size i; pe_num_sections := pe_num_sections i; text_offset :=
  text_offset i; text_rva := text_rva i; text_size := text_size i; rdata_offset :=
  rdata_offset i; rdata_rva := rdata_rva i; rdata_size := rdata_size i; data_offset :=
  data_offset i; data_rva := data_rva i; data_size := data_size i; has_arm64_elf :=
  has_arm64_elf i; arm64_elf_offset := arm64_elf_offset i; is_assimilated :=
  is_assimilated i; x86_elf_offset := x86_elf_offset i; zipos_start := v;
  zipos_central_dir := zipos_central_dir i; zipos_end := zipos_end i; zipos_num_entries :=
  zipos_num_entries i; preserve_zipos := preserve_zipos i |}.

Definition set_zipos_central_dir (v : Z) (i : E9_APEInfo) : E9_APEInfo :=
  {| file_size := file_size i; is_cosmopolitan := is_cosmopolitan i; pe_offset :=
  pe_offset i; pe_size := pe_size i; pe_num_sections := pe_num_sections i; text_offset :=
  text_offset i; text_rva := text_rva i; text_size := text_size i; rdata_offset :=
  rdata_offset i; rdata_rva := rdata_rva i; rdata_size := rdata_size i; data_offset :=
  data_offset i; data_rva := data_rva i; data_size := data_size i; has_arm64_elf :=
  has_arm64_elf i; arm64_elf_offset := arm64_elf_offset i; is_assimilated :=
  is_assimilated i; x86_elf_offset := x86_elf_offset i; zipos_start := zipos_start i;
  zipos_central_dir := v; zipos_end := zipos_end i; zipos_num_entries := zipos_num_entries
  i; preserve_zipos := preserve_zipos i |}.

Definition set_zipos_end (v : Z) (i : E9_APEInfo) : E9_APEInfo :=
  {| file_size := file_size i; is_cosmopolitan := is_cosmopolitan i; pe_offset :=
  pe_offset i; pe_size := pe_size i; pe_num_sections := pe_num_sections i; text_offset :=
  text_offset i; text_rva := text_rva i; text_size := text_size i; rdata_offset :=
  rdata_offset i; rdata_rva := rdata_rva i; rdata_size := rdata_size i; data_offset :=
  data_offset i; data_rva := data_rva i; data_size := data_size i; has_arm64_elf :=
  has_arm64_elf i; arm64_elf_offset := arm64_elf_offset i; is_assimilated :=
  is_assimilated i; x86_elf_offset := x86_elf_offset i; zipos_start := zipos_start i;
  zipos_central_dir := zipos_central_dir i; zipos_end := v; zipos_num_entries :=
  zipos_num_entries i; preserve_zipos := preserve_zipos i |}.

Definition set_zipos_num_entries (v : Z) (i : E9_APEInfo) : E9_APEInfo :=
  {| file_size := file_size i; is_cosmopolitan := is_cosmopolitan i; pe_offset :=
  pe_offset i; pe_size := pe_size i; pe_num_sections := pe_num_sections i; text_offset :=
  text_offset i; text_rva := text_rva i; text_size := text_size i; rdata_offset :=
  rdata_offset i; rdata_rva := rdata_rva i; rdata_size := rdata_size i; data_offset :=
  data_offset i; data_rva := data_rva i; data_size := data_size i; has_arm64_elf :=
  has_arm64_elf i; arm64_elf_offset := arm64_elf_offset i; is_assimilated :=
  is_assimilated i; x86_elf_offset := x86_elf_offset i; zipos_start := zipos_start i;
  zipos_central_dir := zipos_central_dir i; zipos_end := zipos_end i; zipos_num_entries :=
  v; preserve_zipos := preserve_zipos i |}.

Definition set_preserve_zipos (v : bool) (i : E9_APEInfo) : E9_APEInfo :=
  {| file_size := file_size i; is_cosmopolitan := is_cosmopolitan i; pe_offset :=
  pe_offset i; pe_size := pe_size i; pe_num_sections := pe_num_sections i; text_offset :=
  text_offset i; text_rva := text_rva i; text_size := text_size i; rdata_offset :=
  rdata_offset i; rdata_rva := rdata_rva i; rdata_size := rdata_size i; data_offset :=
  data_offset i; data_rva := data_rva i; data_size := data_size i; has_arm64_elf :=
  has_arm64_elf i; arm64_elf_offset := arm64_elf_offset i; is_assimilated :=
  is_assimilated i; x86_elf_offset := x86_elf_offset i; zipos_start := zipos_start i;
  zipos_central_dir := zipos_central_dir i; zipos_end := zipos_end i; zipos_num_entries :=
  zipos_num_entries i; preserve_zipos := v |}.

Definition APE_MAGIC_COSMO : bytes := bytes_of_string "MZqFpD".
Definition PE_SIGNATURE : bytes := [0x50; 0x45; 0; 0].
Definition ELF_MAGIC : bytes := [0x7F; 0x45; 0x4C; 0x46].
Definition ZIP_LOCAL_MAGIC : bytes := [0x50; 0x4B; 3; 4].
Definition ZIP_CENTRAL_MAGIC : bytes := [0x50; 0x4B; 1; 2].
Definition ZIP_END_MAGIC : bytes := [0x50; 0x4B; 5; 6].
Definition PE_MACHINE_AMD64 : Z := 0x8664.
Definition PE_MACHINE_ARM64 : Z := 0xAA64.
Definition ELF_MACHINE_X86_64 : Z := 0x3E.
Definition ELF_MACHINE_AARCH64 : Z := 0xB7.

(** ** Detection *)

(** The loop for a heredoc [<<], from [i]: whether one is found. *)
Fixpoint heredoc_scan (fuel : nat) (data : bytes) (size i : Z) : option bool :=
  if (i <? 64) && (i <? size - 2) then
    match fuel with
    | O => None
    | S f =>
        a ← rd data i;
        if a =? 0x3C then
          b ← rd data (i + 1);
          if b =? 0x3C then Some true else heredoc_scan f data size (i + 1)
        else heredoc_scan f data size (i + 1)
    end
  else Some false.

(** [pe_offset + 4] is computed in 32 bits. *)
Definition e9_ape_detect (data : option bytes) (size : Z) : option bool :=
  match data with
  | None => Some false
  | Some data =>
      if size <? 64 then Some false
      else
        cosmo ← memeq data 0 APE_MAGIC_COSMO;
        if (cosmo : bool) then Some true
        else
          m ← rd data 0;
          z ← (if m =? 0x4D then rd data 1 else Some 0);
          if (m =? 0x4D) && (z =? 0x5A) then
            pe_offset ← rd32 data 0x3C;
            if size <? u32 (pe_offset + 4) then Some false
            else
              sig ← memeq data pe_offset PE_SIGNATURE;
              if (sig : bool) then
                _ ← heredoc_scan 64 data size 8;
                Some true
              else Some false
          else Some false
  end.

(** ** Parsing *)

(** The scan for the heredoc marker, which only reads: the marker is not
    stored, so [j] stays 0 and the inner loop runs to a quote or the end. *)
Fixpoint marker_scan (fuel : nat) (data : bytes) (size k : Z) : option unit :=
  if k <? size then
    match fuel with
    | O => None
    | S f => b ← rd data k; if b =? 0x27 then Some tt else marker_scan f data size (k + 1)
    end
  else Some tt.

Fixpoint shell_scan (fuel : nat) (data : bytes) (size i : Z) : option unit :=
  if (i <? 128) && (i + 16 <? size) then
    match fuel with
    | O => None
    | S f =>
        a ← rd data i;
        b ← rd data (i + 1);
        c ← rd data (i + 2);
        if (a =? 0x3C) && (b =? 0x3C) && (c =? 0x27)
        then marker_scan (Z.to_nat size) data size (i + 3)
        else shell_scan f data size (i + 1)
    end
  else Some tt.

(** The section headers: [n] are left, the next is at [off]. *)
Fixpoint section_cache (n : nat) (data : bytes) (off : Z) (i : E9_APEInfo) : option E9_APEInfo :=
  match n with
  | O => Some i
  | S n' =>
      text ← memeq data off (bytes_of_string ".text");
      if (text : bool) then
        raw ← rd32 data (off + 20); rva ← rd32 data (off + 12); sz ← rd32 data (off + 16);
        section_cache n' data (off + 40)
          (i |> set_text_offset raw |> set_text_rva rva |> set_text_size sz)
      else
        rdata ← memeq data off (bytes_of_string ".rdata");
        if (rdata : bool) then
          raw ← rd32 data (off + 20); rva ← rd32 data (off + 12); sz ← rd32 data (off + 16);
          section_cache n' data (off + 40)
            (i |> set_rdata_offset raw |> set_rdata_rva rva |> set_rdata_size sz)
        else
          d ← memeq data off (bytes_of_string ".data");
          if (d : bool) then
            raw ← rd32 data (off + 20); rva ← rd32 data (off + 12); sz ← rd32 data (off + 16);
            section_cache n' data (off + 40)
              (i |> set_data_offset raw |> set_data_rva rva |> set_data_size sz)
          else section_cache n' data (off + 40) i
  end.

(** The search for an embedded ELF header, every 4096 bytes. *)
Fixpoint elf_scan (fuel : nat) (data : bytes) (size i : Z) (info : E9_APEInfo)
  : option E9_APEInfo :=
  if i + 64 <? size then
    match fuel with
    | O => None
    | S f =>
        elf ← memeq data i ELF_MAGIC;
        if (elf : bool) then
          e_machine ← rd16 data (i + 18);
          if e_machine =? ELF_MACHINE_AARCH64 then
            Some (info |> set_has_arm64_elf true |> set_arm64_elf_offset i)
          else
            elf_scan f data size (i + 0x1000)
              (if e_machine =? ELF_MACHINE_X86_64
               then info |> set_is_assimilated true |> set_x86_elf_offset i else info)
        else elf_scan f data size (i + 0x1000) info
    end
  else Some info.

(** The first local file header before the central directory. *)
Fixpoint local_scan (fuel : nat) (data : bytes) (size dir j : Z) : option (option Z) :=
  if (j <? dir) && (j + 4 <? size) then
    match fuel with
    | O => None
    | S f =>
        m ← memeq data j ZIP_LOCAL_MAGIC;
        if (m : bool) then Some (Some j) else local_scan f data size dir (j + 1)
    end
  else Some None.

(** The search backwards for the end-of-central-directory record. *)
Fixpoint eocd_scan (fuel : nat) (data : bytes) (size i : Z) (info : E9_APEInfo)
  : option E9_APEInfo :=
  if (0 <? i) && (size - 65536 <? i) then
    match fuel with
    | O => None
    | S f =>
        m ← memeq data i ZIP_END_MAGIC;
        if (m : bool) then
          n ← rd16 data (i + 10);
          dir ← rd32 data (i + 16);
          let info := info |> set_zipos_end (i + 22) |> set_zipos_num_entries n
                           |> set_zipos_central_dir dir in
          start ← local_scan (Z.to_nat size) data size dir 0;
          match start with
          | Some j => Some (set_zipos_start j info)
          | None => Some info
          end
        else eocd_scan f data size (i - 1) info
    end
  else Some info.

(** The part of the parser after the PE signature. *)
Definition parse_pe (data : bytes) (size : Z) (info : E9_APEInfo) : option (Z * E9_APEInfo) :=
  _ ← shell_scan 128 data size 0x20;
  let pe_coff := pe_offset info + 4 in
  num ← rd16 data (pe_coff + 2);
  let info := set_pe_num_sections num info in
  machine ← rd16 data pe_coff;
  if negb (machine =? PE_MACHINE_AMD64) && negb (machine =? PE_MACHINE_ARM64)
  then Some (-1, info)
  else
    let pe_opt := pe_coff + 20 in
    magic ← rd16 data pe_opt;
    if negb (magic =? 0x20B) then Some (-1, info)
    else
      image ← rd32 data (pe_opt + 56);
      let info := set_pe_size image info in
      opt_size ← rd16 data (pe_coff + 16);
      info ← section_cache (Z.to_nat (Z.min num 16)) data (pe_opt + opt_size) info;
      let search_start := Z.land (data_offset info + data_size info + 0xFFF) (Z.lnot 0xFFF) in
      info ← elf_scan (Z.to_nat size) data size search_start info;
      info ← eocd_scan (Z.to_nat size) data size (size - 22) info;
      Some (0, info).

(** The returned code and the structure [info] points to. *)
Definition e9_ape_parse (data : option bytes) (size : Z) (info : option E9_APEInfo)
  : option (Z * option E9_APEInfo) :=
  match data, info with
  | Some d, Some _ =>
      if size <? 64 then Some (-1, info)
      else
        ape ← e9_ape_detect data size;
        if negb ape then Some (-1, info)
        else
          cosmo ← memeq d 0 APE_MAGIC_COSMO;
          pe ← rd32 d 0x3C;
          let i := zero_info |> set_preserve_zipos true |> set_is_cosmopolitan cosmo
                             |> set_pe_offset pe in
          if size <? pe + 24 then Some (-1, Some i)
          else
            sig ← memeq d pe PE_SIGNATURE;
            if negb sig then Some (-1, Some i)
            else '(code, i) ← parse_pe d size i; Some (code, Some i)
  | _, _ => Some (-1, info)
  end.

(** ** Address translation *)

Definition in_range (lo len z : Z) : bool := (lo <=? z) && (z <? lo + len).

Definition e9_ape_rva_to_offset (info : option E9_APEInfo) (rva : Z) : Z :=
  match info with
  | None => -1
  | Some i =>
      if in_range (text_rva i) (text_size i) rva then text_offset i + u32 (rva - text_rva i)
      else if in_range (rdata_rva i) (rdata_size i) rva
      then rdata_offset i + u32 (rva - rdata_rva i)
      else if in_range (data_rva i) (data_size i) rva
      then data_offset i + u32 (rva - data_rva i)
      else rva
  end.

Definition e9_ape_offset_to_rva (info : option E9_APEInfo) (offset : Z) : Z :=
  match info with
  | None => 0
  | Some i =>
      if in_range (text_offset i) (text_size i) offset
      then u32 (text_rva i + u32 (offset - text_offset i))
      else if in_range (rdata_offset i) (rdata_size i) offset
      then u32 (rdata_rva i + u32 (offset - rdata_offset i))
      else if in_range (data_offset i) (data_size i) offset
      then u32 (data_rva i + u32 (offset - data_offset i))
      else u32 offset
  end.

(** ** Patching *)

(** The returned code and the file image; the overlap with ZipOS only prints
    a warning. *)
Definition e9_ape_patch_offset (data : option bytes) (size : Z) (info : option E9_APEInfo)
    (offset : Z) (patch : option bytes) (patch_size : Z) : option (Z * option bytes) :=
  match data, patch with
  | Some d, Some p =>
      if patch_size =? 0 then Some (-1, data)
      else if (offset <? 0) || (size <? u64 (offset + patch_size)) then Some (-1, data)
      else
        raw ← rdn p 0 patch_size;
        d ← wrn d offset raw;
        Some (0, Some d)
  | _, _ => Some (-1, data)
  end.

Definition e9_ape_patch_rva (data : option bytes) (size : Z) (info : option E9_APEInfo)
    (rva : Z) (patch : option bytes) (patch_size : Z) : option (Z * option bytes) :=
  match info with
  | None => Some (-1, data)
  | Some _ =>
      let offset := e9_ape_rva_to_offset info rva in
      if offset <? 0 then Some (-1, data)
      else e9_ape_patch_offset data size info offset patch patch_size
  end.

Definition e9_ape_patch (data : option bytes) (size : Z) (info : option E9_APEInfo)
    (vaddr : Z) (patch : option bytes) (patch_size : Z) : option (Z * option bytes) :=
  match info with
  | None => Some (-1, data)
  | Some _ =>
      let rva := if (0x400000 <=? vaddr) && (vaddr <? 0x500000) then u32 (vaddr - 0x400000)
                 else u32 vaddr in
      e9_ape_patch_rva data size info rva patch patch_size
  end.

(** ** ZipOS *)

(** [pos + 46 + name_len + extra_len + comment_len] *)
Definition next_entry (data : bytes) (pos : Z) : option Z :=
  name_len ← rd16 data (pos + 28);
  extra_len ← rd16 data (pos + 30);
  comment_len ← rd16 data (pos + 32);
  Some (pos + 46 + name_len + extra_len + comment_len).

(** The counting loop; [fuel = size] is enough. *)
Fixpoint count_entries (fuel : nat) (data : bytes) (size pos count : Z) : option Z :=
  if pos + 46 <? size then
    match fuel with
    | O => None
    | S f =>
        m ← memeq data pos ZIP_CENTRAL_MAGIC;
        if (m : bool) then
          pos ← next_entry data pos; count_entries f data size pos (count + 1)
        else Some count
    end
  else Some count.

(** One entry; [alloc] is the outcome of the allocation of its name. *)
Definition read_entry (alloc : bool) (data : bytes) (pos : Z) : option E9_ZipOSEntry :=
  method ← rd16 data (pos + 10);
  crc ← rd32 data (pos + 16);
  csize ← rd32 data (pos + 20);
  usize ← rd32 data (pos + 24);
  lho ← rd32 data (pos + 42);
  name_len ← rd16 data (pos + 28);
  if alloc then
    nm ← rdn data (pos + 46) name_len;
    dir ← (if 0 <? name_len then c ← rd nm (name_len - 1); Some (c =? 0x2F) else Some false);
    Some (ZipOSEntry (Some nm) lho csize usize method crc dir)
  else Some (ZipOSEntry None lho csize usize method crc false).

(** An entry of the calloc'ed array that the filling loop did not reach. *)
Definition zero_entry : E9_ZipOSEntry := ZipOSEntry None 0 0 0 0 0 false.

(** The filling loop: [n] entries are left; [alloc k] is the outcome of the
    allocation of the name of the entry with [k] entries left. *)
Fixpoint fill_entries (alloc : nat → bool) (n : nat) (data : bytes) (size pos : Z)
  : option (list E9_ZipOSEntry) :=
  match n with
  | O => Some []
  | S n' =>
      if pos + 46 <? size then
        e ← read_entry (alloc n') data pos;
        pos ← next_entry data pos;
        l ← fill_entries alloc n' data size pos;
        Some (e :: l)
      else Some (replicate n zero_entry)
  end.

(** The array (NULL is [None]) and [*out_count]; [a] is the outcome of the
    allocation of the array. *)
Definition e9_ape_zipos_list (a : bool) (alloc : nat → bool) (data : option bytes) (size : Z)
    (info : option E9_APEInfo) : option (option (list E9_ZipOSEntry) * Z) :=
  match data, info with
  | Some d, Some i =>
      if zipos_central_dir i =? 0 then Some (None, 0)
      else
        count ← count_entries (Z.to_nat size) d size (zipos_central_dir i) 0;
        if count =? 0 then Some (None, 0)
        else if negb a then Some (None, 0)
        else
          l ← fill_entries alloc (Z.to_nat count) d size (zipos_central_dir i);
          Some (Some l, count)
  | _, _ => Some (None, 0)
  end.

(** The C string stored in an array of bytes that is followed by a NUL. *)
Fixpoint c_string (l : bytes) : bytes :=
  match l with
  | [] => []
  | c :: l' => if c =? 0 then [] else c :: c_string l'
  end.

(** [entries[i].name && strcmp(entries[i].name, path) == 0] *)
Definition entry_is (path : bytes) (e : E9_ZipOSEntry) : bool :=
  match name e with Some nm => bool_decide (c_string nm = path) | None => false end.

Definition e9_ape_zipos_exists (a : bool) (alloc : nat → bool) (data : option bytes) (size : Z)
    (info : option E9_APEInfo) (path : option bytes) : option bool :=
  match path with
  | None => Some false
  | Some path =>
      '(entries, _) ← e9_ape_zipos_list a alloc data size info;
      match entries with
      | None => Some false
      | Some l => Some (existsb (entry_is path) l)
      end
  end.

(** * Properties *)

(** ** Detection and parsing *)

Lemma heredoc_scan_safe fuel data size i :
  0 <= i → 64 - i <= Z.of_nat fuel → size <= blen data →
  safely (heredoc_scan fuel data size i) (λ _, True).
Proof.
  revert i. induction fuel as [|f IH]; intros i Hi Hf Hs; cbn [heredoc_scan]; (ub_step; [|done]); [lia|].
  ub_step. apply safely_rd; [lia|]. intros a _. ub_step; [|apply IH; lia].
  ub_step. apply safely_rd; [lia|]. intros b _. ub_step; [done|apply IH; lia].
Qed.

(** The pattern [pat] occurs at [off]. *)
Definition occurs (l : bytes) (off : Z) (pat : bytes) : Prop := rdn l off (blen pat) = Some pat.

Lemma memeq_safe l off pat (P : bool → Prop) :
  0 <= off → off + blen pat <= blen l →
  (∀ b, (b = true ↔ occurs l off pat) → P b) → safely (memeq l off pat) P.
Proof.
  intros Ho Hl HP. pose proof (blen_nonneg pat). unfold memeq. ub_step.
  apply safely_rdn; [done|done|done|]. intros x Hx. cbn [safely]. apply HP.
  unfold occurs. rewrite Hx, bool_decide_eq_true. naive_solver.
Qed.

Lemma marker_scan_safe fuel data size k :
  0 <= k → size - k <= Z.of_nat fuel → size <= blen data →
  safely (marker_scan fuel data size k) (λ _, True).
Proof.
  revert k. induction fuel as [|f IH]; intros k Hk Hf Hs; cbn [marker_scan]; (ub_step; [|done]); [lia|].
  ub_step. apply safely_rd; [lia|]. intros a _. ub_step; [done|apply IH; lia].
Qed.

Lemma shell_scan_safe fuel data size i :
  0 <= i → 128 - i <= Z.of_nat fuel → size <= blen data →
  safely (shell_scan fuel data size i) (λ _, True).
Proof.
  revert i. induction fuel as [|f IH]; intros i Hi Hf Hs; cbn [shell_scan]; (ub_step; [|done]); [lia|].
  do 3 (ub_step; apply safely_rd; [lia|]; intros ? _).
  ub_step; [apply marker_scan_safe; lia|apply IH; lia].
Qed.

Section parse.
Context (data : bytes) (size : Z).
Hypothesis Hbytes : bytes_ok data.
Hypothesis Hsize : 64 <= size <= blen data.

(** The cached fields of a section are zero or those of a header of that name
    in the table of [n] headers at [off]. *)
Definition cached (n off : Z) (nm : bytes) (raw rva sz : Z) : Prop :=
  (raw = 0 ∧ rva = 0 ∧ sz = 0) ∨
  ∃ k, 0 <= k < n ∧ occurs data (off + 40 * k) nm ∧
    rd32 data (off + 40 * k + 20) = Some raw ∧ rd32 data (off + 40 * k + 12) = Some rva ∧
    rd32 data (off + 40 * k + 16) = Some sz.

Definition sections_ok (n off : Z) (i : E9_APEInfo) : Prop :=
  cached n off (bytes_of_string ".text") (text_offset i) (text_rva i) (text_size i) ∧
  cached n off (bytes_of_string ".rdata") (rdata_offset i) (rdata_rva i) (rdata_size i) ∧
  cached n off (bytes_of_string ".data") (data_offset i) (data_rva i) (data_size i).

(** What the section loop leaves alone. *)
Definition same_rest (i i' : E9_APEInfo) : Prop :=
  zipos_end i' = zipos_end i ∧ zipos_start i' = zipos_start i ∧
  zipos_central_dir i' = zipos_central_dir i ∧ zipos_num_entries i' = zipos_num_entries i ∧
  pe_offset i' = pe_offset i ∧ has_arm64_elf i' = has_arm64_elf i.

Lemma same_rest_trans i j k : same_rest i j → same_rest j k → same_rest i k.
Proof. unfold same_rest. intuition congruence. Qed.

Lemma rd32_at off : 0 <= off → off + 4 <= blen data →
  safely (rd32 data off) (λ w, rd32 data off = Some w ∧ 0 <= w).
Proof.
  intros H1 H2. pose proof (safely_rd32 data off Hbytes H1 H2) as H.
  destruct (rd32 data off); cbn in *; [split; [done|lia]|done].
Qed.

Lemma section_cache_safe total base n off i :
  0 <= base → off = base + 40 * (total - Z.of_nat n) → Z.of_nat n <= total →
  base + 40 * total <= blen data → sections_ok total base i →
  safely (section_cache n data off i) (λ i', sections_ok total base i' ∧ same_rest i i').
Proof.
  intros Hb. revert off i. induction n as [|n IH]; intros off i Ho Hn Hl Hi; cbn [section_cache].
  { cbn. unfold same_rest. auto 10. }
  assert (∀ k, 0 <= k <= 36 → safely (rd32 data (off + k))
    (λ w, rd32 data (off + k) = Some w ∧ 0 <= w)) as Hr by (intros; apply rd32_at; lia).
  assert (∀ raw rva sz nm, occurs data off nm → rd32 data (off + 20) = Some raw →
    rd32 data (off + 12) = Some rva → rd32 data (off + 16) = Some sz →
    cached total base nm raw rva sz) as Hc.
  { intros raw rva sz nm H0 H1 H2 H3. right. exists (total - Z.of_nat (S n)). rewrite <- Ho.
    split; [lia|done]. }
  destruct Hi as (Ht & Hrd & Hd).
  ub_step. apply memeq_safe; [lia|change (blen (bytes_of_string ".text")) with 5; lia|].
  intros b Eb. ub_step.
  { do 3 (ub_step; eapply safely_mono; [apply Hr; lia|]; cbn beta; intros ? [? ?]).
    eapply safely_mono; [apply IH; try lia; split; [|done]; apply Hc; auto; by apply Eb|].
    cbn beta. intros i' [? Hs]. split; [done|]. by eapply same_rest_trans; [|apply Hs]. }
  ub_step. apply memeq_safe; [lia|change (blen (bytes_of_string ".rdata")) with 6; lia|].
  intros b' Eb'. ub_step.
  { do 3 (ub_step; eapply safely_mono; [apply Hr; lia|]; cbn beta; intros ? [? ?]).
    eapply safely_mono; [apply IH; try lia; split; [done|split; [|done]]; apply Hc; auto; by apply Eb'|].
    cbn beta. intros i' [? Hs]. split; [done|]. by eapply same_rest_trans; [|apply Hs]. }
  ub_step. apply memeq_safe; [lia|change (blen (bytes_of_string ".data")) with 5; lia|].
  intros b'' Eb''. ub_step; [|by apply IH; try lia].
  do 3 (ub_step; eapply safely_mono; [apply Hr; lia|]; cbn beta; intros ? [? ?]).
  eapply safely_mono; [apply IH; try lia; split; [done|split; [done|]]; apply Hc; auto; by apply Eb''|].
  cbn beta. intros i' [? Hs]. split; [done|]. by eapply same_rest_trans; [|apply Hs].
Qed.

(** The ELF header found lies in the file; the fields of the other parts are
    those before the search. *)
Definition elf_ok (i : E9_APEInfo) : Prop :=
  has_arm64_elf i = true →
  0 <= arm64_elf_offset i ∧ arm64_elf_offset i + 64 < size ∧
  occurs data (arm64_elf_offset i) ELF_MAGIC ∧
  rd16 data (arm64_elf_offset i + 18) = Some ELF_MACHINE_AARCH64.

Definition zip_same (i i' : E9_APEInfo) : Prop :=
  zipos_end i' = zipos_end i ∧ zipos_start i' = zipos_start i ∧
  zipos_central_dir i' = zipos_central_dir i ∧ zipos_num_entries i' = zipos_num_entries i ∧
  pe_offset i' = pe_offset i.

Lemma elf_scan_safe total base fuel i info :
  0 <= i → size - i <= Z.of_nat fuel → sections_ok total base info → elf_ok info →
  safely (elf_scan fuel data size i info)
         (λ i', zip_same info i' ∧ sections_ok total base i' ∧ elf_ok i').
Proof.
  revert i info. induction fuel as [|f IH]; intros i info Hi Hf Hs He; cbn [elf_scan];
    (ub_step; [|cbn; unfold zip_same; auto 10]); [lia|].
  ub_step. apply memeq_safe; [lia|change (blen ELF_MAGIC) with 4; lia|]. intros b Hb. ub_step.
  - ub_step. apply safely_Some. pose proof (safely_rd16 data (i + 18) Hbytes ltac:(lia) ltac:(lia)).
    destruct (rd16 data (i + 18)) as [m|] eqn:Em; [|done]. exists m. split; [done|]. ub_step.
    + cbn. split; [done|]. split; [done|]. intros _. cbn. apply Z.eqb_eq in Heqb1. subst m.
      repeat split; [lia|lia|by apply Hb|done].
    + eapply safely_mono; [apply IH; try lia|]; by destruct (m =? ELF_MACHINE_X86_64).
  - by apply IH; try lia.
Qed.

(** [s] is the first local header before [dir], or 0 when there is none. *)
Definition first_local (dir s : Z) : Prop :=
  (s = 0 ∧ ∀ x, 0 <= x < dir → x + 4 < size → ¬ occurs data x ZIP_LOCAL_MAGIC) ∨
  (0 <= s < dir ∧ s + 4 < size ∧ occurs data s ZIP_LOCAL_MAGIC ∧
   ∀ x, 0 <= x < s → ¬ occurs data x ZIP_LOCAL_MAGIC).

Lemma local_scan_safe fuel dir j :
  0 <= j → size - j <= Z.of_nat fuel →
  (∀ x, 0 <= x < j → ¬ occurs data x ZIP_LOCAL_MAGIC) →
  safely (local_scan fuel data size dir j) (λ r, first_local dir (default 0 r)).
Proof.
  revert j. induction fuel as [|f IH]; intros j Hj Hf Hno; cbn [local_scan].
  { ub_step; [bool_hyps; lia|]. left. split; [done|]. intros x Hx Hx4. apply Hno.
    apply andb_false_iff in Heqb as [?|?]; lia. }
  ub_step; [bool_hyps|left; split; [done|]; intros x Hx Hx4; apply Hno;
    apply andb_false_iff in Heqb as [?|?]; lia].
  ub_step. apply memeq_safe; [lia|change (blen ZIP_LOCAL_MAGIC) with 4; lia|]. intros b Hb.
  ub_step.
  - right. cbn. repeat split; [lia|lia|lia|by apply Hb|apply Hno].
  - apply IH; [lia|lia|]. intros x Hx. destruct (Z.eq_dec x j) as [->|]; [|apply Hno; lia].
    intros Hoc%Hb. done.
Qed.

(** The end-of-central-directory record is the last one in the file, and the
    ZipOS fields are read from it. *)
Definition zip_located (i : E9_APEInfo) : Prop :=
  (zipos_end i = 0 ∧ zipos_start i = 0 ∧ zipos_central_dir i = 0 ∧
   ∀ k, 0 < k <= size - 22 → size - 65536 < k → ¬ occurs data k ZIP_END_MAGIC) ∨
  (∃ k, zipos_end i = k + 22 ∧ 0 < k <= size - 22 ∧ occurs data k ZIP_END_MAGIC ∧
     (∀ x, k < x <= size - 22 → ¬ occurs data x ZIP_END_MAGIC) ∧
     rd16 data (k + 10) = Some (zipos_num_entries i) ∧
     rd32 data (k + 16) = Some (zipos_central_dir i) ∧
     first_local (zipos_central_dir i) (zipos_start i)).

Lemma eocd_scan_safe total base fuel i info :
  i <= size - 22 → i <= Z.of_nat fuel →
  zipos_end info = 0 ∧ zipos_start info = 0 ∧ zipos_central_dir info = 0 →
  (∀ x, i < x <= size - 22 → ¬ occurs data x ZIP_END_MAGIC) →
  sections_ok total base info → elf_ok info →
  safely (eocd_scan fuel data size i info) (λ i', zip_located i' ∧ pe_offset i' = pe_offset info ∧
    sections_ok total base i' ∧ elf_ok i').
Proof.
  intros Hi Hf He Hno Hse Hel. revert i Hi Hf Hno.
  assert (∀ i, i <= size - 22 → ((0 <? i) && (size - 65536 <? i) = false) →
    (∀ x, i < x <= size - 22 → ¬ occurs data x ZIP_END_MAGIC) → zip_located info) as Hend.
  { intros i Hi [?|?]%andb_false_iff Hno; left; (destruct He as (?&?&?); repeat split;
      try done; intros k Hk Hk'; apply Hno; lia). }
  induction fuel as [|f IH]; intros i Hi Hf Hno; cbn [eocd_scan];
    (ub_step; [bool_hyps|cbn; by eauto 10]); [lia|].
  ub_step. apply memeq_safe; [lia|change (blen ZIP_END_MAGIC) with 4; lia|]. intros b Hb.
  ub_step.
  - ub_step. apply safely_Some. pose proof (safely_rd16 data (i + 10) Hbytes ltac:(lia) ltac:(lia)).
    destruct (rd16 data (i + 10)) as [n|] eqn:En; [|done]. exists n. split; [done|].
    ub_step. ub_call rd32_at. intros dir [Hdir Hd0].
    ub_step. ub_call local_scan_safe. intros st Hst.
    assert (∀ i', zipos_end i' = i + 22 → zipos_num_entries i' = n → zipos_central_dir i' = dir →
      zipos_start i' = default 0 st → zip_located i') as Hz.
    { intros i' E1 E2 E3 E4. right. exists i. rewrite E1, E2, E3, E4.
      repeat split; try done; try lia. by apply Hb. }
    destruct st as [j|]; cbn; (split; [|done]); apply Hz; try done. cbn. apply He.
  - apply IH; [lia|lia|]. intros x Hx. destruct (Z.eq_dec x i) as [->|]; [|apply Hno; lia].
    intros Hoc%Hb. done.
Qed.
End parse.

Lemma detect_safe data size pe :
  bytes_ok data → 64 <= size <= blen data → rd32 data 0x3C = Some pe → pe + 4 < 2 ^ 32 →
  safely (e9_ape_detect (Some data) size) (λ b,
    b = true ↔ occurs data 0 APE_MAGIC_COSMO ∨
      (rd data 0 = Some 0x4D ∧ rd data 1 = Some 0x5A ∧ pe + 4 <= size ∧ occurs data pe PE_SIGNATURE)).
Proof.
  intros Hb Hs Hpe Hw. pose proof (rd32_at data Hb 0x3C ltac:(lia) ltac:(lia)) as Hr.
  rewrite Hpe in Hr. destruct Hr as [_ Hp0]. cbn [e9_ape_detect]. ub_step; [lia|].
  ub_step. apply memeq_safe; [lia|change (blen APE_MAGIC_COSMO) with 6; lia|].
  intros c Hc. ub_step; [cbn; rewrite <- Hc; tauto|].
  assert (occurs data 0 APE_MAGIC_COSMO → False) as Hno by (intros H%Hc; done).
  ub_step. apply safely_rd; [lia|]. intros m Hm. ub_step.
  assert (∀ P, (∀ z, (m = 0x4D → rd data 1 = Some z) → P z) →
    safely (if m =? 0x4D then rd data 1 else Some 0) P) as Hz.
  { intros P HP. destruct (Z.eqb_spec m 0x4D); [apply safely_rd; [lia|auto]|apply HP; lia]. }
  apply Hz. intros z Hz1. ub_step.
  - bool_hyps. apply Z.eqb_eq in H as ->. apply Z.eqb_eq in H0 as ->. rewrite Hpe. ub_step.
    cbn [safely]. rewrite wrapu_small by lia. ub_step; [cbn; split; [done|]; intros [?|(_&_&?&_)]; [done|lia]|].
    ub_step. apply memeq_safe; [lia|change (blen PE_SIGNATURE) with 4; lia|].
    intros sg Hsg. ub_step.
    + ub_step. ub_call heredoc_scan_safe. intros _ _. cbn.
      split; [|done]. intros _. right. repeat split; [done|by apply Hz1|lia|by apply Hsg].
    + cbn. split; [done|]. intros [?|(_&_&_&?%Hsg)]; done.
  - cbn [safely]. split; [done|]. intros [?|(E1&E2&_)]; [done|]. rewrite E1 in Hm. injection Hm as <-.
    rewrite E2 in Hz1. injection (Hz1 eq_refl) as <-. done.
Qed.

(** Detection never reads outside the file when the MZ header's PE offset does not
    wrap; it accepts exactly the files that start with the Cosmopolitan magic or are an MZ
    file whose PE offset leads to a PE signature inside the file. *)
Theorem ape_detect_exact data size pe :
  bytes_ok data → 64 <= size <= blen data → rd32 data 0x3C = Some pe → pe + 4 < 2 ^ 32 →
  ∃ b, e9_ape_detect (Some data) size = Some b ∧
    (b = true ↔ occurs data 0 APE_MAGIC_COSMO ∨
      (rd data 0 = Some 0x4D ∧ rd data 1 = Some 0x5A ∧ pe + 4 <= size ∧ occurs data pe PE_SIGNATURE)).
Proof. intros. by apply safely_Some, detect_safe. Qed.

(** The headers that the parser reads without a test are in the file: the
    optional header up to SizeOfImage and at most 16 section headers. *)
Definition headers_in (data : bytes) (pe : Z) : Prop :=
  pe + 84 <= blen data ∧
  ∀ num opt, rd16 data (pe + 6) = Some num → rd16 data (pe + 20) = Some opt →
    pe + 24 + opt + 40 * Z.min num 16 <= blen data.

(** What a parsed header says of the file. *)
Definition parsed (data : bytes) (size pe : Z) (i : E9_APEInfo) : Prop :=
  pe_offset i = pe ∧ occurs data pe PE_SIGNATURE ∧
  (∃ num opt, rd16 data (pe + 6) = Some num ∧ rd16 data (pe + 20) = Some opt ∧
     sections_ok data (Z.min num 16) (pe + 24 + opt) i) ∧
  elf_ok data size i ∧ zip_located data size i.

Lemma sections_zero data n off i :
  text_offset i = 0 → text_rva i = 0 → text_size i = 0 → rdata_offset i = 0 → rdata_rva i = 0 →
  rdata_size i = 0 → data_offset i = 0 → data_rva i = 0 → data_size i = 0 →
  sections_ok data n off i.
Proof. repeat split; by left. Qed.

Lemma rd16_at data off : bytes_ok data → 0 <= off → off + 2 <= blen data →
  safely (rd16 data off) (λ w, rd16 data off = Some w ∧ 0 <= w < 2 ^ 16).
Proof.
  intros H H1 H2. pose proof (safely_rd16 data off H H1 H2) as Hs.
  by destruct (rd16 data off).
Qed.

Lemma cached_nonneg data n off nm raw rva sz :
  bytes_ok data → 0 <= off → off + 40 * n <= blen data → cached data n off nm raw rva sz →
  0 <= raw ∧ 0 <= sz.
Proof.
  intros Hb Ho Hl [(->&_&->)|(k&Hk&_&H1&_&H3)]; [lia|].
  pose proof (rd32_at data Hb (off + 40 * k + 20) ltac:(lia) ltac:(lia)) as E1.
  pose proof (rd32_at data Hb (off + 40 * k + 16) ltac:(lia) ltac:(lia)) as E3.
  rewrite H1 in E1. rewrite H3 in E3. split; [apply E1|apply E3].
Qed.

(** The structure when the PE signature has been checked. *)
Definition init_info (cosmo : bool) (pe : Z) : E9_APEInfo :=
  zero_info |> set_preserve_zipos true |> set_is_cosmopolitan cosmo |> set_pe_offset pe.

Lemma parse_pe_safe data size cosmo pe :
  bytes_ok data → 64 <= size <= blen data → 0 <= pe → headers_in data pe →
  occurs data pe PE_SIGNATURE →
  safely (parse_pe data size (init_info cosmo pe)) (λ '(code, i'),
    code = -1 ∨ (code = 0 ∧ parsed data size pe i')).
Proof.
  intros Hb Hs Hp [Hh1 Hh2] Hsig. unfold parse_pe. cbn [pe_offset init_info set_pe_offset].
  ub_step. ub_call shell_scan_safe. intros _ _. ub_step. ub_call rd16_at. intros num [Hnum Hn].
  replace (pe + 4 + 2) with (pe + 6) in Hnum by lia.
  ub_step. ub_call rd16_at. intros mach _. ub_step; [by left|].
  ub_step. ub_call rd16_at. intros magic _. ub_step; [by left|].
  ub_step. ub_call rd32_at. intros image _. ub_step. ub_call rd16_at. intros opt [Hopt Ho].
  replace (pe + 4 + 16) with (pe + 20) in Hopt by lia.
  specialize (Hh2 num opt Hnum Hopt).
  replace (pe + 4 + 20 + opt) with (pe + 24 + opt) by lia.
  assert (Z.of_nat (Z.to_nat (Z.min num 16)) = Z.min num 16) as Hnat by lia.
  ub_step. ub_call (section_cache_safe data size Hb ltac:(lia) (Z.min num 16) (pe + 24 + opt));
    [by apply sections_zero|]. intros i1 (Hs1 & (E1&E2&E3&E4&E5&E6)). cbn in *.
  assert (0 <= data_offset i1 ∧ 0 <= data_size i1) as [Hd1 Hd2].
  { destruct Hs1 as (_&_&Hc). eapply cached_nonneg; [done| | |done]; lia. }
  ub_step. ub_call (elf_scan_safe data size Hb ltac:(lia) (Z.min num 16) (pe + 24 + opt)).
  { apply Z.land_nonneg. left. lia. }
  { enough (0 <= Z.land (data_offset i1 + data_size i1 + 4095) (Z.lnot 4095)) by lia.
    apply Z.land_nonneg. left. lia. }
  { intros He. congruence. }
  intros i2 ((F1&F2&F3&F4&F5)&Hs2&He2).
  ub_step. ub_call (eocd_scan_safe data size Hb ltac:(lia) (Z.min num 16) (pe + 24 + opt)).
  intros i3 (Hz&Hpe3&Hs3&He3). cbn. right. split; [done|].
  split; [congruence|]. split; [done|]. split; [by eauto 10|done].
Qed.


(** ** Patching *)

(** A patch at a file offset is applied exactly when it lies inside the image: the
    patch bytes are then in place and every other byte is unchanged; a refused patch leaves
    the image as it was. *)
Theorem ape_patch_offset_exact d size info offset p n :
  size <= blen d → blen d < 2 ^ 63 → - 2 ^ 63 <= offset < 2 ^ 63 → 0 < n <= blen p →
  blen p < 2 ^ 63 →
  ∃ code d', e9_ape_patch_offset (Some d) size info offset (Some p) n = Some (code, Some d') ∧
    blen d' = blen d ∧
    (if decide (0 <= offset ∧ offset + n <= size)
     then code = 0 ∧ rdn d' offset n = rdn p 0 n ∧
          (∀ i, i < offset ∨ offset + n <= i → rd d' i = rd d i)
     else code = -1 ∧ d' = d).
Proof.
  intros Hs Hd Ho Hn Hp. cbn [e9_ape_patch_offset].
  rewrite (proj2 (Z.eqb_neq n 0)) by lia. destruct (Z.ltb_spec offset 0); cbn [orb].
  { exists (-1), d. rewrite decide_False by lia. auto. }
  rewrite wrapu_small by lia. destruct (Z.ltb_spec size (offset + n)).
  { exists (-1), d. rewrite decide_False by lia. auto. }
  destruct (rdn_is_Some p 0 n) as [raw Hr]; [lia..|]. rewrite Hr.
  pose proof (rdn_len _ _ _ _ Hr). destruct (wrn_is_Some d offset raw) as [d' Hw]; [lia|lia|].
  exists 0, d'. rewrite decide_True by lia. cbn [mbind option_bind]. rewrite Hw. split; [done|].
  split; [by eapply wrn_len|]. split; [done|]. split.
  - rewrite <- H1. by eapply rdn_wrn_same.
  - intros i Hi. eapply rd_wrn_out; [done|lia].
Qed.

(** What a caller may rely on: a whole non-empty block inside the image is
    written, and nothing else succeeds. *)
Lemma patch_offset_writes d size info o p :
  0 <= o → o + blen p <= size → size <= blen d → size < 2 ^ 63 → blen p ≠ 0 →
  ∃ d', wrn d o p = Some d' ∧
    e9_ape_patch_offset (Some d) size info o (Some p) (blen p) = Some (0, Some d').
Proof.
  intros Ho Hb Hs Hd Hp. pose proof (blen_nonneg p).
  destruct (wrn_is_Some d o p) as [d' Hw]; [lia..|]. exists d'. split; [done|].
  cbn [e9_ape_patch_offset]. rewrite (proj2 (Z.eqb_neq _ 0)) by done.
  rewrite (proj2 (Z.ltb_ge o 0)), wrapu_small by lia.
  rewrite (proj2 (Z.ltb_ge size _)) by lia. cbn [orb].
  assert (rdn p 0 (blen p) = Some p) as -> by (by apply rdn_ext; [lia|lia|]).
  cbn [mbind option_bind]. by rewrite Hw.
Qed.

Lemma patch_offset_refused data size info o p n :
  n = 0 ∨ p = None → e9_ape_patch_offset data size info o p n = Some (-1, data).
Proof. intros [->| ->]; by destruct data; try destruct p. Qed.

(** What a successful patch by offset did. *)
Lemma patch_offset_inv d size info offset p n d' :
  blen d < 2 ^ 63 → offset < 2 ^ 63 → blen p < 2 ^ 63 →
  e9_ape_patch_offset (Some d) size info offset (Some p) n = Some (0, Some d') →
  n ≠ 0 ∧ 0 <= offset ∧ offset + n <= size ∧ 
  ∃ raw, rdn p 0 n = Some raw ∧ wrn d offset raw = Some d'.
Proof.
  intros Hd Ho Hp. cbn [e9_ape_patch_offset]. destruct (Z.eqb_spec n 0); [done|].
  destruct (Z.ltb_spec offset 0); cbn [orb]; [done|].
  destruct (Z.ltb_spec size (u64 (offset + n))); [done|].
  intros (raw & Hr & (d1 & Hw & [= <-])%bind_Some_iff)%bind_Some_iff.
  pose proof Hr as (_ & ? & ? & _)%rdn_Some. rewrite wrapu_small in H0 by lia. eauto 10.
Qed.

(** The file offset an address is patched at. *)
Definition patch_target (i : E9_APEInfo) (vaddr : Z) : Z :=
  e9_ape_rva_to_offset (Some i)
    (if (0x400000 <=? vaddr) && (vaddr <? 0x500000) then u32 (vaddr - 0x400000) else u32 vaddr).

Lemma ape_patch_target d size i vaddr p n :
  e9_ape_patch (Some d) size (Some i) vaddr p n =
  if patch_target i vaddr <? 0 then Some (-1, Some d)
  else e9_ape_patch_offset (Some d) size (Some i) (patch_target i vaddr) p n.
Proof. done. Qed.

(** Undo: patching an address, then patching back the bytes that were at its file
    offset, restores the image. *)
Theorem ape_patch_undo d size i vaddr p n d' :
  size <= blen d → blen d < 2 ^ 63 → blen p < 2 ^ 63 → patch_target i vaddr < 2 ^ 63 →
  e9_ape_patch (Some d) size (Some i) vaddr (Some p) n = Some (0, Some d') →
  ∃ old, rdn d (patch_target i vaddr) n = Some old ∧
    rdn d' (patch_target i vaddr) n = rdn p 0 n ∧
    e9_ape_patch (Some d') size (Some i) vaddr (Some old) n = Some (0, Some d).
Proof.
  intros Hs Hd Hp Ht. rewrite !ape_patch_target. set (o := patch_target i vaddr) in *.
  destruct (Z.ltb_spec o 0); [done|].
  intros (Hn & Ho & Hb & raw & Hr & Hw)%patch_offset_inv; try done.
  pose proof (rdn_len _ _ _ _ Hr) as Hl. pose proof (blen_nonneg raw).
  destruct (rdn_is_Some d o n) as [old Hold]; [lia..|].
  exists old. split; [done|]. split; [rewrite Hr, <- Hl; by eapply rdn_wrn_same|].
  rewrite ape_patch_target. fold o. rewrite (proj2 (Z.ltb_ge o 0)) by lia.
  cbn [e9_ape_patch_offset]. rewrite (proj2 (Z.eqb_neq n 0)) by lia.
  rewrite (proj2 (Z.ltb_ge o 0)) by lia. rewrite wrapu_small by lia.
  rewrite (proj2 (Z.ltb_ge size (o + n))) by lia.
  cbn [orb]. pose proof (rdn_len _ _ _ _ Hold).
  assert (rdn old 0 n = Some old) as ->.
  { subst n. rewrite <- H1. by apply rdn_ext; [lia|lia|]. }
  cbn [mbind option_bind]. rewrite <- Hl in Hold. by rewrite (wrn_restore _ _ _ _ _ Hold Hw).
Qed.

(** ** Address translation *)

(** Two ranges that share no address. *)
Definition apart (a n b m : Z) : Prop := n = 0 ∨ m = 0 ∨ a + n <= b ∨ b + m <= a.

(** The three cached sections: (file offset, RVA, size). *)
Definition cached_sections (i : E9_APEInfo) : list (Z * Z * Z) :=
  [(text_offset i, text_rva i, text_size i); (rdata_offset i, rdata_rva i, rdata_size i);
   (data_offset i, data_rva i, data_size i)].

(** Sections in range that overlap neither in the file nor in memory. *)
Definition layout_ok (i : E9_APEInfo) : Prop :=
  Forall (λ '(o, r, n), 0 <= o ∧ 0 <= r ∧ 0 <= n ∧ r + n <= 2 ^ 32) (cached_sections i) ∧
  ForallOrdPairs (λ '(o, r, n) '(o', r', n'), apart o n o' n' ∧ apart r n r' n')
                 (cached_sections i).

Lemma in_range_hit a n k : 0 <= k < n → in_range a n (a + k) = true.
Proof. unfold in_range. lia. Qed.

Lemma in_range_apart a n b m k : apart a n b m → 0 <= n → 0 <= k < m → in_range a n (b + k) = false.
Proof. unfold in_range, apart. lia. Qed.

Lemma in_range_apart' a n b m k : apart b m a n → 0 <= n → 0 <= k < m → in_range a n (b + k) = false.
Proof. unfold in_range, apart. lia. Qed.

Lemma u32_shift r n k : 0 <= r → 0 <= k < n → r + n <= 2 ^ 32 → u32 (r + u32 k) = r + k.
Proof. intros. by rewrite (wrapu_small _ k), wrapu_small by lia. Qed.

(** With disjoint sections the two address translations are inverse to each other on
    the sections, and keep the distance to the start of the section. *)
Theorem ape_address_bijection i o r n k :
  layout_ok i → (o, r, n) ∈ cached_sections i → 0 <= k < n →
  e9_ape_rva_to_offset (Some i) (r + k) = o + k ∧
  e9_ape_offset_to_rva (Some i) (o + k) = r + k.
Proof.
  intros [Hf Hp] Hin Hk. unfold cached_sections in *.
  repeat match goal with
  | H : ForallOrdPairs _ (_ :: _) |- _ => inversion_clear H
  | H : Forall _ (_ :: _) |- _ => inversion_clear H
  end.
  destruct_and?. rewrite !elem_of_cons, elem_of_nil in Hin.
  destruct Hin as [[= -> -> ->]|[[= -> -> ->]|[[= -> -> ->]|[]]]];
    unfold e9_ape_rva_to_offset, e9_ape_offset_to_rva; split;
    rewrite ?in_range_hit by done;
    repeat first [ erewrite in_range_apart by first [eassumption|done]
                 | erewrite in_range_apart' by first [eassumption|done] ];
    rewrite ?in_range_hit by done; rewrite Z.add_simpl_l; try (eapply u32_shift; eauto);
    by rewrite wrapu_small by lia.
Qed.

(** ** ZipOS *)

(** A central directory record of the ZIP format; the fields that the code
    does not read are kept as bytes. *)
Record zip_rec := ZipRec {
  z_version : bytes; z_method : Z; z_time : bytes; z_crc : Z; z_csize : Z; z_usize : Z;
  z_attr : bytes; z_lho : Z; z_name : bytes; z_extra : bytes; z_comment : bytes }.

Definition zip_fields (e : zip_rec) : list bytes :=
  [ZIP_CENTRAL_MAGIC; z_version e; le_bytes 2 (z_method e); z_time e; le_bytes 4 (z_crc e);
   le_bytes 4 (z_csize e); le_bytes 4 (z_usize e); le_bytes 2 (blen (z_name e));
   le_bytes 2 (blen (z_extra e)); le_bytes 2 (blen (z_comment e)); z_attr e;
   le_bytes 4 (z_lho e); z_name e; z_extra e; z_comment e].

Definition zip_encode (e : zip_rec) : bytes := concat (zip_fields e).

Definition zip_wf (e : zip_rec) : Prop :=
  blen (z_version e) = 6 ∧ blen (z_time e) = 4 ∧ blen (z_attr e) = 8 ∧
  0 <= z_method e < 2 ^ 16 ∧ 0 <= z_crc e < 2 ^ 32 ∧ 0 <= z_csize e < 2 ^ 32 ∧
  0 <= z_usize e < 2 ^ 32 ∧ 0 <= z_lho e < 2 ^ 32 ∧
  blen (z_name e) < 2 ^ 16 ∧ blen (z_extra e) < 2 ^ 16 ∧ blen (z_comment e) < 2 ^ 16.

(** The entry a record stands for. *)
Definition zip_view (e : zip_rec) : E9_ZipOSEntry :=
  ZipOSEntry (Some (z_name e)) (z_lho e) (z_csize e) (z_usize e) (z_method e) (z_crc e)
             (bool_decide (last (z_name e) = Some 0x2F)).

Lemma blen_cons x l : blen (x :: l) = 1 + blen l.
Proof. unfold blen. cbn [List.length]. lia. Qed.

Lemma blen_le n z : blen (le_bytes n z) = Z.of_nat n.
Proof. unfold blen. by rewrite le_bytes_len. Qed.

Lemma zip_encode_len e : zip_wf e →
  blen (zip_encode e) = 46 + blen (z_name e) + blen (z_extra e) + blen (z_comment e).
Proof.
  intros (H1&H2&H3&_). unfold zip_encode, zip_fields. cbn [concat].
  rewrite !blen_app, !blen_le, H1, H2, H3. change (blen ZIP_CENTRAL_MAGIC) with 4.
  change (blen []) with 0. lia.
Qed.

(** Where the fields of a record are in the file. *)
Section fields.
Context (pre post : bytes) (e : zip_rec).
Hypothesis Hwf : zip_wf e.

Let data := pre ++ zip_encode e ++ post.

Lemma field_at k o f :
  zip_fields e !! k = Some f → blen (concat (take k (zip_fields e))) = o →
  rdn data (blen pre + o) (blen f) = Some f.
Proof. intros Hk <-. by apply rdn_concat. Qed.

Lemma rec_magic : rdn data (blen pre) 4 = Some ZIP_CENTRAL_MAGIC.
Proof. rewrite <- (Z.add_0_r (blen pre)). by apply (field_at 0 0 ZIP_CENTRAL_MAGIC). Qed.

Lemma rec_half k o z : zip_fields e !! k = Some (le_bytes 2 z) →
  blen (concat (take k (zip_fields e))) = o → 0 <= z < 2 ^ 16 →
  rd16 data (blen pre + o) = Some z.
Proof. intros Hk Ho Hz. apply rd16_of_rdn; [|done]. by apply (field_at k o (le_bytes 2 z)). Qed.

Lemma rec_word k o z : zip_fields e !! k = Some (le_bytes 4 z) →
  blen (concat (take k (zip_fields e))) = o → 0 <= z < 2 ^ 32 →
  rd32 data (blen pre + o) = Some z.
Proof. intros Hk Ho Hz. apply rd32_of_rdn; [|done]. by apply (field_at k o (le_bytes 4 z)). Qed.

Ltac offset :=
  unfold zip_fields; cbn [take concat]; rewrite ?blen_app, ?blen_le;
  change (blen ZIP_CENTRAL_MAGIC) with 4; change (blen []) with 0; lia.

Lemma rec_next : next_entry data (blen pre) = Some (blen pre + blen (zip_encode e)).
Proof.
  pose proof Hwf as (?&?&?&?&?&?&?&?&?&?&?). unfold next_entry.
  pose proof (blen_nonneg (z_name e)). pose proof (blen_nonneg (z_extra e)).
  pose proof (blen_nonneg (z_comment e)).
  rewrite (rec_half 7 28 (blen (z_name e))), (rec_half 8 30 (blen (z_extra e))),
    (rec_half 9 32 (blen (z_comment e))) by (done || lia || offset).
  cbn [mbind option_bind]. rewrite zip_encode_len by done. f_equal. lia.
Qed.

Lemma last_rd (l : bytes) : 0 < blen l → rd l (blen l - 1) = last l.
Proof.
  intros H. unfold rd, blen in *. rewrite (proj2 (Z.leb_le _ _)) by lia.
  rewrite last_lookup. f_equal. lia.
Qed.

Lemma rec_entry : read_entry true data (blen pre) = Some (zip_view e).
Proof.
  pose proof Hwf as (?&?&?&?&?&?&?&?&?&?&?). unfold read_entry.
  pose proof (blen_nonneg (z_name e)).
  rewrite (rec_half 2 10 (z_method e)), (rec_half 7 28 (blen (z_name e))),
    (rec_word 4 16 (z_crc e)), (rec_word 5 20 (z_csize e)), (rec_word 6 24 (z_usize e)),
    (rec_word 11 42 (z_lho e)) by (done || lia || offset).
  cbn [mbind option_bind]. rewrite (field_at 12 46 (z_name e)) by (done || offset).
  cbn [mbind option_bind]. unfold zip_view. destruct (Z.ltb_spec 0 (blen (z_name e))).
  - rewrite last_rd by done. destruct (last (z_name e)) as [c|] eqn:El.
    + cbn [mbind option_bind]. do 2 f_equal. destruct (Z.eqb_spec c 0x2F).
      * subst. by rewrite bool_decide_true.
      * rewrite bool_decide_false; [done|]. congruence.
    + apply last_None in El. rewrite El in *. by change (blen []) with 0 in *.
  - destruct (z_name e) as [|c l]; [done|]. rewrite blen_cons in *. pose proof (blen_nonneg l). lia.
Qed.
End fields.

Lemma rdn_app_r pre l off n : 0 <= off → rdn (pre ++ l) (blen pre + off) n = rdn l off n.
Proof.
  intros Ho. pose proof (blen_nonneg pre). destruct (Z.leb_spec 0 n).
  - destruct (Z.leb_spec (off + n) (blen l)).
    + destruct (rdn_is_Some l off n) as [x Hx]; [lia..|]. rewrite Hx.
      pose proof (rdn_len _ _ _ _ Hx) as <-. apply rdn_ext; [lia|rewrite blen_app; lia|].
      intros i Hi. rewrite rd_app_r, (rd_rdn _ _ _ _ _ Hx) by lia. f_equal. lia.
    + unfold rdn. rewrite (proj2 (Z.leb_gt (off + n) (blen l))) by lia.
      rewrite (proj2 (Z.leb_gt (blen pre + off + n) _)) by (rewrite blen_app; lia).
      by rewrite !andb_false_r.
  - unfold rdn. rewrite (proj2 (Z.leb_gt 0 n)) by lia. by rewrite !andb_false_r.
Qed.

(** The directory [es] is at [pos] in the file, followed by something that is
    not a record. *)
Definition directory (data : bytes) (pos : Z) (es : list zip_rec) : Prop :=
  Forall zip_wf es ∧
  ∃ pre post, data = pre ++ concat (map zip_encode es) ++ post ∧ pos = blen pre ∧
    post ≠ [] ∧ ¬ occurs post 0 ZIP_CENTRAL_MAGIC.

Lemma directory_cons data pos e es : directory data pos (e :: es) →
  ∃ pre rest, data = pre ++ zip_encode e ++ rest ∧ pos = blen pre ∧ zip_wf e ∧ rest ≠ [] ∧
    directory data (pos + blen (zip_encode e)) es.
Proof.
  intros [[He Hes]%Forall_cons (pre & post & -> & -> & Hp & Hm)].
  exists pre, (concat (map zip_encode es) ++ post). cbn [map concat]. rewrite <- app_assoc.
  split; [done|]. split; [done|]. split; [done|]. split; [by intros [_ ?]%app_eq_nil|].
  split; [done|]. exists (pre ++ zip_encode e), post. rewrite blen_app, <- app_assoc. auto.
Qed.

Lemma directory_room data pos e es : directory data pos (e :: es) → pos + 46 < blen data.
Proof.
  intros (pre & rest & -> & -> & He & Hr & _)%directory_cons.
  rewrite !blen_app, (zip_encode_len e He). pose proof (blen_nonneg (z_name e)).
  pose proof (blen_nonneg (z_extra e)). pose proof (blen_nonneg (z_comment e)).
  destruct rest as [|b r]; [done|]. rewrite blen_cons. pose proof (blen_nonneg r). lia.
Qed.

Lemma count_directory data pos es fuel count :
  directory data pos es → blen data - pos <= Z.of_nat fuel →
  count_entries fuel data (blen data) pos count = Some (count + Z.of_nat (List.length es)).
Proof.
  revert pos fuel count. induction es as [|e es IH]; intros pos fuel count Hd Hf.
  - destruct Hd as [_ (pre & post & -> & -> & Hp & Hm)]. cbn [map concat] in *.
    rewrite Z.add_0_r. destruct fuel as [|f]; cbn [count_entries];
      destruct (Z.ltb_spec (blen pre + 46) (blen (pre ++ [] ++ post))); try done; [lia|].
    rewrite blen_app in *. cbn [app] in *.
    unfold memeq. change (blen ZIP_CENTRAL_MAGIC) with 4. rewrite <- (Z.add_0_r (blen pre)) at 1.
    rewrite rdn_app_r by lia. destruct (rdn_is_Some post 0 4) as [x Hx]; [lia..|].
    rewrite Hx. cbn [mbind option_bind]. rewrite bool_decide_false; [done|].
    intros ->. by apply Hm.
  - pose proof (directory_room _ _ _ _ Hd) as Hroom.
    apply directory_cons in Hd as (pre & rest & Hdata & Hpos & He & _ & Hd).
    destruct fuel as [|f]; [pose proof (blen_nonneg data); lia|]. cbn [count_entries].
    rewrite (proj2 (Z.ltb_lt _ _) Hroom). unfold memeq.
    change (blen ZIP_CENTRAL_MAGIC) with 4.
    assert (rdn data pos 4 = Some ZIP_CENTRAL_MAGIC) as -> by (subst; by apply rec_magic).
    assert (next_entry data pos = Some (pos + blen (zip_encode e))) as Hn
      by (subst; by apply rec_next).
    cbn [mbind option_bind]. rewrite bool_decide_true, Hn by done. cbn [mbind option_bind].
    rewrite (IH _ f (count + 1) Hd).
    + cbn [List.length]. f_equal. lia.
    + rewrite zip_encode_len by done. pose proof (blen_nonneg (z_name e)).
      pose proof (blen_nonneg (z_extra e)). pose proof (blen_nonneg (z_comment e)). lia.
Qed.

Lemma fill_directory data pos es :
  directory data pos es →
  fill_entries (λ _, true) (List.length es) data (blen data) pos = Some (map zip_view es).
Proof.
  revert pos. induction es as [|e es IH]; intros pos Hd; [done|].
  pose proof (directory_room _ _ _ _ Hd) as Hroom.
  apply directory_cons in Hd as (pre & rest & Hdata & Hpos & He & _ & Hd).
  cbn [List.length fill_entries]. rewrite (proj2 (Z.ltb_lt _ _) Hroom).
  assert (read_entry true data pos = Some (zip_view e)) as -> by (subst; by apply rec_entry).
  cbn [mbind option_bind].
  assert (next_entry data pos = Some (pos + blen (zip_encode e))) as ->
    by (subst; by apply rec_next).
  cbn [mbind option_bind]. by rewrite (IH _ Hd).
Qed.

(** C36: The ZipOS listing inverts the encoding of a central directory: when the image holds
    the encoded records at the recorded offset, the list is the list of those records, in
    order, and its count is their number. *)
Theorem ape_zipos_roundtrip data i es :
  directory data (zipos_central_dir i) es → zipos_central_dir i ≠ 0 → es ≠ [] →
  e9_ape_zipos_list true (λ _, true) (Some data) (blen data) (Some i) =
  Some (Some (map zip_view es), Z.of_nat (List.length es)).
Proof.
  intros Hd Hi Hes. assert (0 <= zipos_central_dir i) as Hp.
  { destruct Hd as [_ (pre & ? & _ & -> & _)]. apply blen_nonneg. }
  cbn [e9_ape_zipos_list]. rewrite (proj2 (Z.eqb_neq _ _) Hi).
  rewrite (count_directory _ _ es) by (done || lia). cbn [mbind option_bind].
  destruct es as [|e es]; [done|]. rewrite (proj2 (Z.eqb_neq _ _)) by (cbn [List.length]; lia).
  cbn [negb]. rewrite Z.add_0_l, Nat2Z.id, fill_directory by done. done.
Qed.

Lemma c_string_plain l : 0 ∉ l → c_string l = l.
Proof.
  induction l as [|c l IH]; [done|]. rewrite not_elem_of_cons. intros [Hc Hl].
  cbn [c_string]. rewrite (proj2 (Z.eqb_neq c 0)) by done. by rewrite IH.
Qed.

(** A path exists exactly when it is the name of one of the directory's records. *)
Theorem ape_zipos_exists_iff data i es path :
  directory data (zipos_central_dir i) es → zipos_central_dir i ≠ 0 →
  Forall (λ e, 0 ∉ z_name e) es →
  ∃ b, e9_ape_zipos_exists true (λ _, true) (Some data) (blen data) (Some i) (Some path) = Some b ∧
    (b = true ↔ ∃ e, e ∈ es ∧ z_name e = path).
Proof.
  intros Hd Hi Hnul. assert (0 <= zipos_central_dir i) as Hp.
  { destruct Hd as [_ (pre & ? & _ & -> & _)]. apply blen_nonneg. }
  cbn [e9_ape_zipos_exists e9_ape_zipos_list]. rewrite (proj2 (Z.eqb_neq _ _) Hi).
  rewrite (count_directory _ _ es) by (done || lia). cbn [mbind option_bind].
  destruct (decide (es = [])) as [->|Hes].
  { exists false. split; [done|]. split; [done|]. intros (e & ?%elem_of_nil & _). done. }
  destruct (Z.eqb_spec (0 + Z.of_nat (List.length es)) 0) as [E|_].
  { destruct es; [done|cbn [List.length] in E; lia]. }
  cbn [negb]. rewrite Z.add_0_l, Nat2Z.id, fill_directory by done. cbn [mbind option_bind].
  eexists. split; [done|]. rewrite existsb_exists. split.
  - intros (v & Hv & Hb). apply in_map_iff in Hv as (e & <- & He). exists e.
    apply list_elem_of_In in He. split; [done|]. cbn in Hb. apply bool_decide_eq_true in Hb.
    rewrite c_string_plain in Hb; [done|]. by eapply Forall_forall in Hnul.
  - intros (e & He & <-). exists (zip_view e). split.
    + apply in_map, list_elem_of_In. done.
    + cbn. apply bool_decide_eq_true, c_string_plain. by eapply Forall_forall in Hnul.
Qed.

Lemma next_entry_safe data pos :
  bytes_ok data → 0 <= pos → pos + 46 <= blen data →
  safely (next_entry data pos) (λ p, pos + 46 <= p).
Proof.
  intros. unfold next_entry. do 3 (ub_step; ub_call safely_rd16; intros ? ?). cbn. lia.
Qed.

Lemma count_safe data fuel size pos count :
  bytes_ok data → size <= blen data → 0 <= pos → size - pos <= Z.of_nat fuel → 0 <= count →
  safely (count_entries fuel data size pos count)
         (λ n, n = count ∨ count < n ∧ pos + 46 * (n - count) < size).
Proof.
  intros Hb Hs. revert pos count. induction fuel as [|f IH]; intros pos count Hp Hf Hc;
    cbn [count_entries]; (ub_step; [|cbn; lia]); [lia|].
  ub_step. apply memeq_safe; [lia|change (blen ZIP_CENTRAL_MAGIC) with 4; lia|]. intros b _.
  ub_step; [|cbn; lia]. ub_step. ub_call next_entry_safe. intros p Hp'.
  eapply safely_mono; [apply IH; lia|]. cbn beta. lia.
Qed.

(** Whatever the central directory offset and the bytes there, counting the records
    ends, reads only inside the file, and finds at most one record for every 46 bytes. *)
Theorem ape_zipos_count_total data size pos :
  bytes_ok data → size <= blen data → 0 <= pos →
  ∃ n, count_entries (Z.to_nat size) data size pos 0 = Some n ∧ 0 <= n ∧
    (n = 0 ∨ pos + 46 * n < size).
Proof.
  intros Hb Hs Hp. pose proof (count_safe data (Z.to_nat size) size pos 0 Hb Hs Hp) as H.
  apply safely_Some in H as (n & Hn & H); [|lia|lia]. exists n. split; [done|]. lia.
Qed.

(** Whatever the file, the cached offsets come from 32-bit fields. *)
Definition offsets_ok (i : E9_APEInfo) : Prop :=
  0 <= text_offset i < 2 ^ 32 ∧ 0 <= rdata_offset i < 2 ^ 32 ∧ 0 <= data_offset i < 2 ^ 32.

(** [P] holds of the result, when there is one. *)
Definition result {A} (m : option A) (P : A → Prop) : Prop :=
  match m with Some a => P a | None => True end.

Lemma result_bind {A B} (m : option A) (k : A → option B) P :
  result m (λ a, result (k a) P) → result (m ≫= k) P.
Proof. by destruct m. Qed.

Lemma result_then {A B} (m : option A) (k : A → option B) Q P :
  result m Q → (∀ a, Q a → result (k a) P) → result (m ≫= k) P.
Proof. destruct m; cbn; auto. Qed.

Lemma result_any {A B} (m : option A) (k : A → option B) P :
  (∀ a, result (k a) P) → result (m ≫= k) P.
Proof. destruct m; cbn; auto. Qed.

Lemma result_rd32 l off : bytes_ok l → result (rd32 l off) (λ w, 0 <= w < 2 ^ 32).
Proof.
  intros Hl. unfold rd32, rd16.
  destruct (rd l off) as [b0|] eqn:E0, (rd l (off + 1)) as [b1|] eqn:E1,
    (rd l (off + 2)) as [b2|] eqn:E2, (rd l (off + 2 + 1)) as [b3|] eqn:E3; try done.
  apply rd_byte in E0, E1, E2, E3; try done. unfold byte_ok in *. cbn. lia.
Qed.

Lemma section_cache_offsets data n off i :
  bytes_ok data → offsets_ok i → result (section_cache n data off i) offsets_ok.
Proof.
  intros Hb. revert off i. induction n as [|n IH]; intros off i Hi; cbn [section_cache]; [done|].
  assert (∀ k P, (∀ w, 0 <= w < 2 ^ 32 → P w : Prop) → result (rd32 data k) P) as Hr.
  { intros k P HP. pose proof (result_rd32 data k Hb). destruct (rd32 data k); cbn in *; auto. }
  destruct Hi as (?&?&?). apply result_any. intros t. destruct t.
  { do 3 (apply result_bind, Hr; intros ? ?). by apply IH. }
  apply result_any. intros t. destruct t.
  { do 3 (apply result_bind, Hr; intros ? ?). by apply IH. }
  apply result_any. intros t. destruct t; [|by apply IH].
  do 3 (apply result_bind, Hr; intros ? ?). by apply IH.
Qed.

Lemma elf_scan_offsets fuel data size k i :
  offsets_ok i → result (elf_scan fuel data size k i) offsets_ok.
Proof.
  revert k i. induction fuel as [|f IH]; intros k i Hi; cbn [elf_scan]; case_match; try done.
  apply result_any. intros b. destruct b; [|by apply IH]. apply result_any. intros m.
  case_match; [done|]. apply IH. by case_match.
Qed.

Lemma eocd_scan_offsets fuel data size k i :
  offsets_ok i → result (eocd_scan fuel data size k i) offsets_ok.
Proof.
  revert k i. induction fuel as [|f IH]; intros k i Hi; cbn [eocd_scan]; case_match; try done.
  apply result_any. intros b. destruct b; [|by apply IH].
  do 3 (apply result_any; intros ?). by case_match.
Qed.

Lemma parse_pe_offsets data size i :
  bytes_ok data → offsets_ok i → result (parse_pe data size i) (λ '(_, i'), offsets_ok i').
Proof.
  intros Hb Hi. unfold parse_pe. do 3 (apply result_any; intros ?). case_match; [done|].
  apply result_any; intros ?. case_match; [done|]. do 2 (apply result_any; intros ?).
  eapply result_then; [by apply section_cache_offsets|intros i2 Hi2].
  eapply result_then; [by apply elf_scan_offsets|intros i3 Hi3].
  by eapply result_then; [by apply eocd_scan_offsets|intros i4 Hi4].
Qed.

Lemma init_offsets c pe : offsets_ok (init_info c pe).
Proof. unfold offsets_ok. change (0 <= 0 < 2 ^ 32 ∧ 0 <= 0 < 2 ^ 32 ∧ 0 <= 0 < 2 ^ 32). lia. Qed.

Lemma parse_offsets data size i0 code i :
  bytes_ok data → offsets_ok i0 →
  e9_ape_parse (Some data) size (Some i0) = Some (code, Some i) → offsets_ok i.
Proof.
  intros Hb Hi0 Hp. enough (result (e9_ape_parse (Some data) size (Some i0))
    (λ '(_, r), ∀ i, r = Some i → offsets_ok i)) as H by (rewrite Hp in H; by apply H).
  assert (∀ i, offsets_ok i → ∀ j, Some i = Some j → offsets_ok j) as Hsome by (by intros ? ? ? [= <-]).
  cbn [e9_ape_parse]. case_match; [exact (Hsome _ Hi0)|]. apply result_any. intros ape.
  destruct (negb ape); [exact (Hsome _ Hi0)|]. do 2 (apply result_any; intros ?).
  fold (init_info a a0). pose proof (init_offsets a a0) as Hi.
  case_match; [exact (Hsome _ Hi)|]. apply result_any. intros sg.
  case_match; [exact (Hsome _ Hi)|].
  apply result_bind. pose proof (parse_pe_offsets data size _ Hb Hi) as Hq.
  destruct (parse_pe _ _ _) as [[c j]|]; [|done]. exact (Hsome _ Hq).
Qed.

Lemma rva_to_offset_range i rva :
  offsets_ok i → 0 <= rva < 2 ^ 32 → 0 <= e9_ape_rva_to_offset (Some i) rva < 2 ^ 33.
Proof.
  intros (?&?&?) ?. unfold e9_ape_rva_to_offset.
  pose proof (λ z, wrapu_range 32 z ltac:(lia)) as Hu.
  pose proof (Hu (rva - text_rva i)). pose proof (Hu (rva - rdata_rva i)).
  pose proof (Hu (rva - data_rva i)). repeat case_match; lia.
Qed.

(** ** A small portable executable

    One [.text] section of eight bytes at 192, a directory of two records at
    200 and the end record at the end. *)

Definition sample_header : bytes :=
  APE_MAGIC_COSMO ++ replicate 54 0 ++ le_bytes 4 0x40 ++ PE_SIGNATURE ++
  le_bytes 2 PE_MACHINE_AMD64 ++ le_bytes 2 1 ++ replicate 12 0 ++ le_bytes 2 64 ++ le_bytes 2 0 ++
  le_bytes 2 0x20B ++ replicate 54 0 ++ le_bytes 4 0x2000 ++ replicate 4 0 ++
  bytes_of_string ".text" ++ replicate 7 0 ++ le_bytes 4 0x1000 ++ le_bytes 4 8 ++
  le_bytes 4 192 ++ replicate 16 0 ++ replicate 8 0x90.

Definition sample_recs : list zip_rec :=
  [ZipRec (replicate 6 0) 0 (replicate 4 0) 0 0 0 (replicate 8 0) 0 (bytes_of_string "usr/") [] [];
   ZipRec (replicate 6 0) 8 (replicate 4 0) 0x11223344 5 9 (replicate 8 0) 70
          (bytes_of_string "usr/a") [1; 2] (bytes_of_string "note")].

Definition sample_end : bytes :=
  ZIP_END_MAGIC ++ replicate 6 0 ++ le_bytes 2 2 ++ replicate 4 0 ++ le_bytes 4 200 ++ replicate 2 0.

Definition sample_ape : bytes := sample_header ++ concat (map zip_encode sample_recs) ++ sample_end.

Definition sample_info : E9_APEInfo :=
  zero_info |> set_text_offset 192 |> set_text_rva 0x1000 |> set_text_size 8
            |> set_zipos_central_dir 200.

Lemma sample_ape_ok : bytes_ok sample_ape.
Proof. apply bytes_ok_check. vm_compute. reflexivity. Qed.

Lemma sample_directory : directory sample_ape (zipos_central_dir sample_info) sample_recs.
Proof.
  split; [|exists sample_header, sample_end; repeat split; done || (vm_compute; discriminate)].
  repeat constructor; vm_compute; reflexivity || discriminate.
Qed.

(** ** Witnesses *)

Lemma ape_detect_exact_witness :
  ∃ b, e9_ape_detect (Some sample_ape) (blen sample_ape) = Some b ∧
    (b = true ↔ occurs sample_ape 0 APE_MAGIC_COSMO ∨
      (rd sample_ape 0 = Some 0x4D ∧ rd sample_ape 1 = Some 0x5A ∧ 0x40 + 4 <= blen sample_ape ∧
       occurs sample_ape 0x40 PE_SIGNATURE)).
Proof.
  apply (ape_detect_exact sample_ape (blen sample_ape) 0x40);
    [apply sample_ape_ok|vm_compute; split; discriminate|vm_compute; reflexivity|lia].
Defined.


Lemma ape_patch_offset_exact_witness :
  ∃ code d', e9_ape_patch_offset (Some sample_ape) (blen sample_ape) None 192 (Some [0xC3; 0xCC]) 2
             = Some (code, Some d') ∧ blen d' = blen sample_ape ∧
    (if decide (0 <= 192 ∧ 192 + 2 <= blen sample_ape)
     then code = 0 ∧ rdn d' 192 2 = rdn [0xC3; 0xCC] 0 2 ∧
          (∀ i, i < 192 ∨ 192 + 2 <= i → rd d' i = rd sample_ape i)
     else code = -1 ∧ d' = sample_ape).
Proof.
  apply (ape_patch_offset_exact sample_ape (blen sample_ape) None 192 [0xC3; 0xCC] 2);
    vm_compute; repeat split; discriminate.
Defined.

Lemma ape_patch_undo_witness :
  ∃ d' old, e9_ape_patch (Some sample_ape) (blen sample_ape) (Some sample_info) 0x401002
              (Some [0xC3]) 1 = Some (0, Some d') ∧
    rdn sample_ape (patch_target sample_info 0x401002) 1 = Some old ∧
    rdn d' (patch_target sample_info 0x401002) 1 = rdn [0xC3] 0 1 ∧
    e9_ape_patch (Some d') (blen sample_ape) (Some sample_info) 0x401002 (Some old) 1 =
    Some (0, Some sample_ape).
Proof.
  eexists. destruct (ape_patch_undo sample_ape (blen sample_ape) sample_info 0x401002 [0xC3] 1
    (default [] (wrn sample_ape 194 [0xC3]))) as (old & H);
    [done|done|done|done|vm_compute; reflexivity|]. exists old.
  split; [|exact H]. vm_compute. reflexivity.
Defined.

Lemma ape_address_bijection_witness :
  e9_ape_rva_to_offset (Some sample_info) (0x1000 + 2) = 192 + 2 ∧
  e9_ape_offset_to_rva (Some sample_info) (192 + 2) = 0x1000 + 2.
Proof.
  apply (ape_address_bijection sample_info 192 0x1000 8 2).
  - split; repeat constructor; cbn; unfold apart; lia.
  - apply elem_of_cons. by left.
  - lia.
Defined.

Lemma ape_zipos_roundtrip_witness :
  e9_ape_zipos_list true (λ _, true) (Some sample_ape) (blen sample_ape) (Some sample_info) =
  Some (Some (map zip_view sample_recs), Z.of_nat (List.length sample_recs)).
Proof. by apply ape_zipos_roundtrip; [apply sample_directory| |]. Defined.

Lemma ape_zipos_exists_iff_witness :
  ∃ b, e9_ape_zipos_exists true (λ _, true) (Some sample_ape) (blen sample_ape) (Some sample_info)
         (Some (bytes_of_string "usr/a")) = Some b ∧
    (b = true ↔ ∃ e, e ∈ sample_recs ∧ z_name e = bytes_of_string "usr/a").
Proof.
  apply ape_zipos_exists_iff; [apply sample_directory|done|].
  by apply (bool_decide_unpack _).
Defined.

Lemma ape_zipos_count_total_witness :
  ∃ n, count_entries (Z.to_nat (blen sample_ape)) sample_ape (blen sample_ape) 200 0 = Some n ∧
    0 <= n ∧ (n = 0 ∨ 200 + 46 * n < blen sample_ape).
Proof. by apply ape_zipos_count_total; [apply sample_ape_ok| |]. Defined.

(** Reading a record's name is not checked against the size of the file: for a
    directory whose last record's name runs past the end of the image, the listing reads
    outside it. *)
Theorem ape_zipos_name_unchecked :
  let data := replicate 8 0 ++ take 50 (zip_encode (ZipRec (replicate 6 0) 0 (replicate 4 0) 0 0 0
    (replicate 8 0) 0 (replicate 200 0x61) [] [])) in
  e9_ape_zipos_list true (λ _, true) (Some data) (blen data)
    (Some (set_zipos_central_dir 8 zero_info)) = None.
Proof. vm_compute. reflexivity. Qed.

(** Detection computes the end of the PE signature in 32 bits: for an MZ file whose PE
    offset is within four bytes of 2^32 the test passes and the comparison reads outside
    the image. *)
Theorem ape_detect_wraps pe :
  2 ^ 32 - 4 <= pe < 2 ^ 32 →
  e9_ape_detect (Some ([0x4D; 0x5A] ++ replicate 58 0 ++ le_bytes 4 pe)) 64 = None.
Proof.
  intros Hpe. destruct (le_bytes_32 pe ltac:(lia)) as (b0 & b1 & b2 & b3 & -> & He & _).
  cbn [e9_ape_detect]. change (64 <? 64) with false. cbn iota.
  set (d := [0x4D; 0x5A] ++ replicate 58 0 ++ [b0; b1; b2; b3]).
  change (memeq d 0 APE_MAGIC_COSMO) with (Some false).
  change (rd d 0) with (Some 0x4D). change (rd d 1) with (Some 0x5A).
  change (rd32 d 0x3C) with (Some (b0 + 256 * b1 + 65536 * (b2 + 256 * b3))). rewrite He.
  cbn [mbind option_bind]. change ((0x4D =? 0x4D) && (0x5A =? 0x5A)) with true. cbn iota.
  assert (u32 (pe + 4) < 4) as Hw.
  { replace (pe + 4) with (pe + 4 - 2 ^ 32 + 1 * 2 ^ 32) by lia.
    rewrite wrapu_eqm, wrapu_small by lia. lia. }
  rewrite (proj2 (Z.ltb_ge 64 (u32 (pe + 4)))) by lia. unfold memeq, rdn.
  change (blen PE_SIGNATURE) with 4. change (blen d) with 64.
  rewrite (proj2 (Z.leb_gt (pe + 4) 64)) by lia. by rewrite andb_false_r.
Qed.

Lemma ape_detect_wraps_witness :
  e9_ape_detect (Some ([0x4D; 0x5A] ++ replicate 58 0 ++ le_bytes 4 0xFFFFFFFD)) 64 = None.
Proof. apply ape_detect_wraps. lia. Defined.

End Ape.
