(* ===== verification/LiveReload.v ===== *)
(** * LiveReload: hot-patching a running executable

    Models src/src/e9patch/e9livereload.c: the global state, the recompilation and
    patch generation, the application and reversal of patches, the file watcher and
    the queries.  The operations run in a state monad over a [World]: the global
    [g_state], the trace of what the code did to its environment (callbacks, file
    descriptors, mappings, cache flushes, commands), and a counter of the calls
    whose answer comes from outside, which the class [Env] provides.  The object
    differ of e9binaryen.c is reached through the class [Differ]. *)

From S2P Require Import Prelude Ape.

Module LiveReload.
Import Ape.

(** ** Types (e9livereload.h, e9binaryen.h) *)

Record E9LiveReloadConfig := LiveReloadConfig {
  cfg_source_dir : option string; cfg_compiler : option string; compiler_flags :
  option string; cfg_cache_dir : option string; watch_interval_ms : Z;
  enable_hot_patch : bool; enable_file_patch : bool; max_patch_size : Z;
  max_pending_patches : Z; verbose : bool }.

Inductive E9LiveReloadEventType :=
  | E9_LR_EVENT_FILE_CHANGE | E9_LR_EVENT_COMPILE_START | E9_LR_EVENT_COMPILE_DONE
  | E9_LR_EVENT_COMPILE_ERROR | E9_LR_EVENT_PATCH_GENERATED | E9_LR_EVENT_PATCH_APPLIED
  | E9_LR_EVENT_PATCH_FAILED | E9_LR_EVENT_PATCH_REVERTED.

Record E9LiveReloadEvent := LiveReloadEvent {
  ev_type : E9LiveReloadEventType; ev_timestamp : Z; ev_file_path : option string;
  ev_patch_id : Z; ev_function_name : option string; ev_patch_address : Z;
  ev_patch_size : Z; ev_error_code : Z; ev_error_msg : option string }.

Inductive E9PatchTargetType :=
  | E9_PATCH_TARGET_FILE_OFFSET | E9_PATCH_TARGET_PE_RVA | E9_PATCH_TARGET_VA.

Inductive E9PatchStatus :=
  | E9_PATCH_STATUS_PENDING | E9_PATCH_STATUS_APPLIED | E9_PATCH_STATUS_FAILED
  | E9_PATCH_STATUS_REVERTED.

#[export] Instance status_eq_dec : EqDecision E9PatchStatus.
Proof. solve_decision. Defined.

(** A patch of the object differ; a NULL function name is [None]. *)
Record E9BinaryenPatch := BinaryenPatch {
  bp_address : Z; bp_old_bytes : bytes; bp_new_bytes : bytes; bp_size : Z;
  bp_function : option string }.

Record InternalPatch := MkInternalPatch {
  p_id : Z; source_file : string; function_name : string; target_type :
  E9PatchTargetType; target_address : Z; file_offset : Z; old_bytes : option bytes;
  old_size : Z; new_bytes : option bytes; new_size : Z; status : E9PatchStatus;
  p_error_msg : string; timestamp : Z }.

Record E9LiveReloadStats := LiveReloadStats {
  changes_detected : Z; patches_generated : Z; patches_applied : Z; patches_failed :
  Z; patches_reverted : Z; total_bytes_patched : Z; last_change_time : Z;
  last_patch_time : Z }.

Record LiveReloadState := MkLiveReloadState {
  initialized : bool; watching : bool; config : E9LiveReloadConfig; source_dir :
  string; compiler : string; cache_dir : string; target_path : string; is_self_patch :
  bool; target_fd : Z; target_mapped : option bytes; target_size : Z; ape_info :
  E9_APEInfo; inotify_fd : Z; watch_fd : Z; patches : list InternalPatch; num_patches
  : Z; next_patch_id : Z; callback : bool; stats : E9LiveReloadStats; error_msg :
  string }.

(** Assignments to one field. *)
Definition set_p_id (v : Z) (p : InternalPatch) : InternalPatch :=
  {| p_id := v; source_file := source_file p; function_name := function_name p;
  target_type := target_type p; target_address := target_address p; file_offset :=
  file_offset p; old_bytes := old_bytes p; old_size := old_size p; new_bytes := new_bytes
  p; new_size := new_size p; status := status p; p_error_msg := p_error_msg p; timestamp
  := timestamp p |}.

Definition set_source_file (v : string) (p : InternalPatch) : InternalPatch :=
  {| p_id := p_id p; source_file := v; function_name := function_name p; target_type :=
  target_type p; target_address := target_address p; file_offset := file_offset p;
  old_bytes := old_bytes p; old_size := old_size p; new_bytes := new_bytes p; new_size :=
  new_size p; status := status p; p_error_msg := p_error_msg p; timestamp := timestamp p
  |}.

Definition set_function_name (v : string) (p : InternalPatch) : InternalPatch :=
  {| p_id := p_id p; source_file := source_file p; function_name := v; target_type :=
  target_type p; target_address := target_address p; file_offset := file_offset p;
  old_bytes := old_bytes p; old_size := old_size p; new_bytes := new_bytes p; new_size :=
  new_size p; status := status p; p_error_msg := p_error_msg p; timestamp := timestamp p
  |}.

Definition set_target_type (v : E9PatchTargetType) (p : InternalPatch) : InternalPatch :=
  {| p_id := p_id p; source_file := source_file p; function_name := function_name p;
  target_type := v; target_address := target_address p; file_offset := file_offset p;
  old_bytes := old_bytes p; old_size := old_size p; new_bytes := new_bytes p; new_size :=
  new_size p; status := status p; p_error_msg := p_error_msg p; timestamp := timestamp p
  |}.

Definition set_target_address (v : Z) (p : InternalPatch) : InternalPatch :=
  {| p_id := p_id p; source_file := source_file p; function_name := function_name p;
  target_type := target_type p; target_address := v; file_offset := file_offset p;
  old_bytes := old_bytes p; old_size := old_size p; new_bytes := new_bytes p; new_size :=
  new_size p; status := status p; p_error_msg := p_error_msg p; timestamp := timestamp p
  |}.

Definition set_file_offset (v : Z) (p : InternalPatch) : InternalPatch :=
  {| p_id := p_id p; source_file := source_file p; function_name := function_name p;
  target_type := target_type p; target_address := target_address p; file_offset := v;
  old_bytes := old_bytes p; old_size := old_size p; new_bytes := new_bytes p; new_size :=
  new_size p; status := status p; p_error_msg := p_error_msg p; timestamp := timestamp p
  |}.

Definition set_old_bytes (v : option bytes) (p : InternalPatch) : InternalPatch :=
  {| p_id := p_id p; source_file := source_file p; function_name := function_name p;
  target_type := target_type p; target_address := target_address p; file_offset :=
  file_offset p; old_bytes := v; old_size := old_size p; new_bytes := new_bytes p;
  new_size := new_size p; status := status p; p_error_msg := p_error_msg p; timestamp :=
  timestamp p |}.

Definition set_old_size (v : Z) (p : InternalPatch) : InternalPatch :=
  {| p_id := p_id p; source_file := source_file p; function_name := function_name p;
  target_type := target_type p; target_address := target_address p; file_offset :=
  file_offset p; old_bytes := old_bytes p; old_size := v; new_bytes := new_bytes p;
  new_size := new_size p; status := status p; p_error_msg := p_error_msg p; timestamp :=
  timestamp p |}.

Definition set_new_bytes (v : option bytes) (p : InternalPatch) : InternalPatch :=
  {| p_id := p_id p; source_file := source_file p; function_name := function_name p;
  target_type := target_type p; target_address := target_address p; file_offset :=
  file_offset p; old_bytes := old_bytes p; old_size := old_size p; new_bytes := v;
  new_size := new_size p; status := status p; p_error_msg := p_error_msg p; timestamp :=
  timestamp p |}.

Definition set_new_size (v : Z) (p : InternalPatch) : InternalPatch :=
  {| p_id := p_id p; source_file := source_file p; function_name := function_name p;
  target_type := target_type p; target_address := target_address p; file_offset :=
  file_offset p; old_bytes := old_bytes p; old_size := old_size p; new_bytes := new_bytes
  p; new_size := v; status := status p; p_error_msg := p_error_msg p; timestamp :=
  timestamp p |}.

Definition set_status (v : E9PatchStatus) (p : InternalPatch) : InternalPatch :=
  {| p_id := p_id p; source_file := source_file p; function_name := function_name p;
  target_type := target_type p; target_address := target_address p; file_offset :=
  file_offset p; old_bytes := old_bytes p; old_size := old_size p; new_bytes := new_bytes
  p; new_size := new_size p; status := v; p_error_msg := p_error_msg p; timestamp :=
  timestamp p |}.

Definition set_p_error_msg (v : string) (p : InternalPatch) : InternalPatch :=
  {| p_id := p_id p; source_file := source_file p; function_name := function_name p;
  target_type := target_type p; target_address := target_address p; file_offset :=
  file_offset p; old_bytes := old_bytes p; old_size := old_size p; new_bytes := new_bytes
  p; new_size := new_size p; status := status p; p_error_msg := v; timestamp := timestamp
  p |}.

Definition set_timestamp (v : Z) (p : InternalPatch) : InternalPatch :=
  {| p_id := p_id p; source_file := source_file p; function_name := function_name p;
  target_type := target_type p; target_address := target_address p; file_offset :=
  file_offset p; old_bytes := old_bytes p; old_size := old_size p; new_bytes := new_bytes
  p; new_size := new_size p; status := status p; p_error_msg := p_error_msg p; timestamp
  := v |}.

Definition set_changes_detected (v : Z) (t : E9LiveReloadStats) : E9LiveReloadStats :=
  {| changes_detected := v; patches_generated := patches_generated t; patches_applied :=
  patches_applied t; patches_failed := patches_failed t; patches_reverted :=
  patches_reverted t; total_bytes_patched := total_bytes_patched t; last_change_time :=
  last_change_time t; last_patch_time := last_patch_time t |}.

Definition set_patches_generated (v : Z) (t : E9LiveReloadStats) : E9LiveReloadStats :=
  {| changes_detected := changes_detected t; patches_generated := v; patches_applied :=
  patches_applied t; patches_failed := patches_failed t; patches_reverted :=
  patches_reverted t; total_bytes_patched := total_bytes_patched t; last_change_time :=
  last_change_time t; last_patch_time := last_patch_time t |}.

Definition set_patches_applied (v : Z) (t : E9LiveReloadStats) : E9LiveReloadStats :=
  {| changes_detected := changes_detected t; patches_generated := patches_generated t;
  patches_applied := v; patches_failed := patches_failed t; patches_reverted :=
  patches_reverted t; total_bytes_patched := total_bytes_patched t; last_change_time :=
  last_change_time t; last_patch_time := last_patch_time t |}.

Definition set_patches_failed (v : Z) (t : E9LiveReloadStats) : E9LiveReloadStats :=
  {| changes_detected := changes_detected t; patches_generated := patches_generated t;
  patches_applied := patches_applied t; patches_failed := v; patches_reverted :=
  patches_reverted t; total_bytes_patched := total_bytes_patched t; last_change_time :=
  last_change_time t; last_patch_time := last_patch_time t |}.

Definition set_patches_reverted (v : Z) (t : E9LiveReloadStats) : E9LiveReloadStats :=
  {| changes_detected := changes_detected t; patches_generated := patches_generated t;
  patches_applied := patches_applied t; patches_failed := patches_failed t;
  patches_reverted := v; total_bytes_patched := total_bytes_patched t; last_change_time :=
  last_change_time t; last_patch_time := last_patch_time t |}.

Definition set_total_bytes_patched (v : Z) (t : E9LiveReloadStats) : E9LiveReloadStats :=
  {| changes_detected := changes_detected t; patches_generated := patches_generated t;
  patches_applied := patches_applied t; patches_failed := patches_failed t;
  patches_reverted := patches_reverted t; total_bytes_patched := v; last_change_time :=
  last_change_time t; last_patch_time := last_patch_time t |}.

Definition set_last_change_time (v : Z) (t : E9LiveReloadStats) : E9LiveReloadStats :=
  {| changes_detected := changes_detected t; patches_generated := patches_generated t;
  patches_applied := patches_applied t; patches_failed := patches_failed t;
  patches_reverted := patches_reverted t; total_bytes_patched := total_bytes_patched t;
  last_change_time := v; last_patch_time := last_patch_time t |}.

Definition set_last_patch_time (v : Z) (t : E9LiveReloadStats) : E9LiveReloadStats :=
  {| changes_detected := changes_detected t; patches_generated := patches_generated t;
  patches_applied := patches_applied t; patches_failed := patches_failed t;
  patches_reverted := patches_reverted t; total_bytes_patched := total_bytes_patched t;
  last_change_time := last_change_time t; last_patch_time := v |}.

Definition set_initialized (v : bool) (s : LiveReloadState) : LiveReloadState :=
  {| initialized := v; watching := watching s; config := config s; source_dir :=
  source_dir s; compiler := compiler s; cache_dir := cache_dir s; target_path :=
  target_path s; is_self_patch := is_self_patch s; target_fd := target_fd s; target_mapped
  := target_mapped s; target_size := target_size s; ape_info := ape_info s; inotify_fd :=
  inotify_fd s; watch_fd := watch_fd s; patches := patches s; num_patches := num_patches
  s; next_patch_id := next_patch_id s; callback := callback s; stats := stats s; error_msg
  := error_msg s |}.

Definition set_watching (v : bool) (s : LiveReloadState) : LiveReloadState :=
  {| initialized := initialized s; watching := v; config := config s; source_dir :=
  source_dir s; compiler := compiler s; cache_dir := cache_dir s; target_path :=
  target_path s; is_self_patch := is_self_patch s; target_fd := target_fd s; target_mapped
  := target_mapped s; target_size := target_size s; ape_info := ape_info s; inotify_fd :=
  inotify_fd s; watch_fd := watch_fd s; patches := patches s; num_patches := num_patches
  s; next_patch_id := next_patch_id s; callback := callback s; stats := stats s; error_msg
  := error_msg s |}.

Definition set_config (v : E9LiveReloadConfig) (s : LiveReloadState) : LiveReloadState :=
  {| initialized := initialized s; watching := watching s; config := v; source_dir :=
  source_dir s; compiler := compiler s; cache_dir := cache_dir s; target_path :=
  target_path s; is_self_patch := is_self_patch s; target_fd := target_fd s; target_mapped
  := target_mapped s; target_size := target_size s; ape_info := ape_info s; inotify_fd :=
  inotify_fd s; watch_fd := watch_fd s; patches := patches s; num_patches := num_patches
  s; next_patch_id := next_patch_id s; callback := callback s; stats := stats s; error_msg
  := error_msg s |}.

Definition set_source_dir (v : string) (s : LiveReloadState) : LiveReloadState :=
  {| initialized := initialized s; watching := watching s; config := config s; source_dir
  := v; compiler := compiler s; cache_dir := cache_dir s; target_path := target_path s;
  is_self_patch := is_self_patch s; target_fd := target_fd s; target_mapped :=
  target_mapped s; target_size := target_size s; ape_info := ape_info s; inotify_fd :=
  inotify_fd s; watch_fd := watch_fd s; patches := patches s; num_patches := num_patches
  s; next_patch_id := next_patch_id s; callback := callback s; stats := stats s; error_msg
  := error_msg s |}.

Definition set_compiler (v : string) (s : LiveReloadState) : LiveReloadState :=
  {| initialized := initialized s; watching := watching s; config := config s; source_dir
  := source_dir s; compiler := v; cache_dir := cache_dir s; target_path := target_path s;
  is_self_patch := is_self_patch s; target_fd := target_fd s; target_mapped :=
  target_mapped s; target_size := target_size s; ape_info := ape_info s; inotify_fd :=
  inotify_fd s; watch_fd := watch_fd s; patches := patches s; num_patches := num_patches
  s; next_patch_id := next_patch_id s; callback := callback s; stats := stats s; error_msg
  := error_msg s |}.

Definition set_cache_dir (v : string) (s : LiveReloadState) : LiveReloadState :=
  {| initialized := initialized s; watching := watching s; config := config s; source_dir
  := source_dir s; compiler := compiler s; cache_dir := v; target_path := target_path s;
  is_self_patch := is_self_patch s; target_fd := target_fd s; target_mapped :=
  target_mapped s; target_size := target_size s; ape_info := ape_info s; inotify_fd :=
  inotify_fd s; watch_fd := watch_fd s; patches := patches s; num_patches := num_patches
  s; next_patch_id := next_patch_id s; callback := callback s; stats := stats s; error_msg
  := error_msg s |}.

Definition set_target_path (v : string) (s : LiveReloadState) : LiveReloadState :=
  {| initialized := initialized s; watching := watching s; config := config s; source_dir
  := source_dir s; compiler := compiler s; cache_dir := cache_dir s; target_path := v;
  is_self_patch := is_self_patch s; target_fd := target_fd s; target_mapped :=
  target_mapped s; target_size := target_size s; ape_info := ape_info s; inotify_fd :=
  inotify_fd s; watch_fd := watch_fd s; patches := patches s; num_patches := num_patches
  s; next_patch_id := next_patch_id s; callback := callback s; stats := stats s; error_msg
  := error_msg s |}.

Definition set_is_self_patch (v : bool) (s : LiveReloadState) : LiveReloadState :=
  {| initialized := initialized s; watching := watching s; config := config s; source_dir
  := source_dir s; compiler := compiler s; cache_dir := cache_dir s; target_path :=
  target_path s; is_self_patch := v; target_fd := target_fd s; target_mapped :=
  target_mapped s; target_size := target_size s; ape_info := ape_info s; inotify_fd :=
  inotify_fd s; watch_fd := watch_fd s; patches := patches s; num_patches := num_patches
  s; next_patch_id := next_patch_id s; callback := callback s; stats := stats s; error_msg
  := error_msg s |}.

Definition set_target_fd (v : Z) (s : LiveReloadState) : LiveReloadState :=
  {| initialized := initialized s; watching := watching s; config := config s; source_dir
  := source_dir s; compiler := compiler s; cache_dir := cache_dir s; target_path :=
  target_path s; is_self_patch := is_self_patch s; target_fd := v; target_mapped :=
  target_mapped s; target_size := target_size s; ape_info := ape_info s; inotify_fd :=
  inotify_fd s; watch_fd := watch_fd s; patches := patches s; num_patches := num_patches
  s; next_patch_id := next_patch_id s; callback := callback s; stats := stats s; error_msg
  := error_msg s |}.

Definition set_target_mapped (v : option bytes) (s : LiveReloadState) : LiveReloadState :=
  {| initialized := initialized s; watching := watching s; config := config s; source_dir
  := source_dir s; compiler := compiler s; cache_dir := cache_dir s; target_path :=
  target_path s; is_self_patch := is_self_patch s; target_fd := target_fd s; target_mapped
  := v; target_size := target_size s; ape_info := ape_info s; inotify_fd := inotify_fd s;
  watch_fd := watch_fd s; patches := patches s; num_patches := num_patches s;
  next_patch_id := next_patch_id s; callback := callback s; stats := stats s; error_msg :=
  error_msg s |}.

Definition set_target_size (v : Z) (s : LiveReloadState) : LiveReloadState :=
  {| initialized := initialized s; watching := watching s; config := config s; source_dir
  := source_dir s; compiler := compiler s; cache_dir := cache_dir s; target_path :=
  target_path s; is_self_patch := is_self_patch s; target_fd := target_fd s; target_mapped
  := target_mapped s; target_size := v; ape_info := ape_info s; inotify_fd := inotify_fd
  s; watch_fd := watch_fd s; patches := patches s; num_patches := num_patches s;
  next_patch_id := next_patch_id s; callback := callback s; stats := stats s; error_msg :=
  error_msg s |}.

Definition set_ape_info (v : E9_APEInfo) (s : LiveReloadState) : LiveReloadState :=
  {| initialized := initialized s; watching := watching s; config := config s; source_dir
  := source_dir s; compiler := compiler s; cache_dir := cache_dir s; target_path :=
  target_path s; is_self_patch := is_self_patch s; target_fd := target_fd s; target_mapped
  := target_mapped s; target_size := target_size s; ape_info := v; inotify_fd :=
  inotify_fd s; watch_fd := watch_fd s; patches := patches s; num_patches := num_patches
  s; next_patch_id := next_patch_id s; callback := callback s; stats := stats s; error_msg
  := error_msg s |}.

Definition set_inotify_fd (v : Z) (s : LiveReloadState) : LiveReloadState :=
  {| initialized := initialized s; watching := watching s; config := config s; source_dir
  := source_dir s; compiler := compiler s; cache_dir := cache_dir s; target_path :=
  target_path s; is_self_patch := is_self_patch s; target_fd := target_fd s; target_mapped
  := target_mapped s; target_size := target_size s; ape_info := ape_info s; inotify_fd :=
  v; watch_fd := watch_fd s; patches := patches s; num_patches := num_patches s;
  next_patch_id := next_patch_id s; callback := callback s; stats := stats s; error_msg :=
  error_msg s |}.

Definition set_watch_fd (v : Z) (s : LiveReloadState) : LiveReloadState :=
  {| initialized := initialized s; watching := watching s; config := config s; source_dir
  := source_dir s; compiler := compiler s; cache_dir := cache_dir s; target_path :=
  target_path s; is_self_patch := is_self_patch s; target_fd := target_fd s; target_mapped
  := target_mapped s; target_size := target_size s; ape_info := ape_info s; inotify_fd :=
  inotify_fd s; watch_fd := v; patches := patches s; num_patches := num_patches s;
  next_patch_id := next_patch_id s; callback := callback s; stats := stats s; error_msg :=
  error_msg s |}.

Definition set_patches (v : list InternalPatch) (s : LiveReloadState) : LiveReloadState :=
  {| initialized := initialized s; watching := watching s; config := config s; source_dir
  := source_dir s; compiler := compiler s; cache_dir := cache_dir s; target_path :=
  target_path s; is_self_patch := is_self_patch s; target_fd := target_fd s; target_mapped
  := target_mapped s; target_size := target_size s; ape_info := ape_info s; inotify_fd :=
  inotify_fd s; watch_fd := watch_fd s; patches := v; num_patches := num_patches s;
  next_patch_id := next_patch_id s; callback := callback s; stats := stats s; error_msg :=
  error_msg s |}.

Definition set_num_patches (v : Z) (s : LiveReloadState) : LiveReloadState :=
  {| initialized := initialized s; watching := watching s; config := config s; source_dir
  := source_dir s; compiler := compiler s; cache_dir := cache_dir s; target_path :=
  target_path s; is_self_patch := is_self_patch s; target_fd := target_fd s; target_mapped
  := target_mapped s; target_size := target_size s; ape_info := ape_info s; inotify_fd :=
  inotify_fd s; watch_fd := watch_fd s; patches := patches s; num_patches := v;
  next_patch_id := next_patch_id s; callback := callback s; stats := stats s; error_msg :=
  error_msg s |}.

Definition set_next_patch_id (v : Z) (s : LiveReloadState) : LiveReloadState :=
  {| initialized := initialized s; watching := watching s; config := config s; source_dir
  := source_dir s; compiler := compiler s; cache_dir := cache_dir s; target_path :=
  target_path s; is_self_patch := is_self_patch s; target_fd := target_fd s; target_mapped
  := target_mapped s; target_size := target_size s; ape_info := ape_info s; inotify_fd :=
  inotify_fd s; watch_fd := watch_fd s; patches := patches s; num_patches := num_patches
  s; next_patch_id := v; callback := callback s; stats := stats s; error_msg := error_msg
  s |}.

Definition set_callback (v : bool) (s : LiveReloadState) : LiveReloadState :=
  {| initialized := initialized s; watching := watching s; config := config s; source_dir
  := source_dir s; compiler := compiler s; cache_dir := cache_dir s; target_path :=
  target_path s; is_self_patch := is_self_patch s; target_fd := target_fd s; target_mapped
  := target_mapped s; target_size := target_size s; ape_info := ape_info s; inotify_fd :=
  inotify_fd s; watch_fd := watch_fd s; patches := patches s; num_patches := num_patches
  s; next_patch_id := next_patch_id s; callback := v; stats := stats s; error_msg :=
  error_msg s |}.

Definition set_stats (v : E9LiveReloadStats) (s : LiveReloadState) : LiveReloadState :=
  {| initialized := initialized s; watching := watching s; config := config s; source_dir
  := source_dir s; compiler := compiler s; cache_dir := cache_dir s; target_path :=
  target_path s; is_self_patch := is_self_patch s; target_fd := target_fd s; target_mapped
  := target_mapped s; target_size := target_size s; ape_info := ape_info s; inotify_fd :=
  inotify_fd s; watch_fd := watch_fd s; patches := patches s; num_patches := num_patches
  s; next_patch_id := next_patch_id s; callback := callback s; stats := v; error_msg :=
  error_msg s |}.

Definition set_error_msg (v : string) (s : LiveReloadState) : LiveReloadState :=
  {| initialized := initialized s; watching := watching s; config := config s; source_dir
  := source_dir s; compiler := compiler s; cache_dir := cache_dir s; target_path :=
  target_path s; is_self_patch := is_self_patch s; target_fd := target_fd s; target_mapped
  := target_mapped s; target_size := target_size s; ape_info := ape_info s; inotify_fd :=
  inotify_fd s; watch_fd := watch_fd s; patches := patches s; num_patches := num_patches
  s; next_patch_id := next_patch_id s; callback := callback s; stats := stats s; error_msg
  := v |}.

Definition MAX_PATCHES : Z := 256.
Definition MAX_PATH_LEN : Z := 256.
Definition ERROR_BUF_SIZE : Z := 512.

Definition zero_config : E9LiveReloadConfig :=
  LiveReloadConfig None None None None 0 false false 0 0 false.

(** [E9_LIVERELOAD_CONFIG_DEFAULT] *)
Definition default_config : E9LiveReloadConfig :=
  LiveReloadConfig (Some ".") None (Some "-O2 -g") None 100 true false 65536 256 false.

Definition zero_patch : InternalPatch :=
  MkInternalPatch 0 "" "" E9_PATCH_TARGET_FILE_OFFSET 0 0 None 0 None 0
                  E9_PATCH_STATUS_PENDING "" 0.

Definition zero_stats : E9LiveReloadStats := LiveReloadStats 0 0 0 0 0 0 0 0.

(** [memset(&g_state, 0, sizeof(g_state))] *)
Definition zero_state : LiveReloadState :=
  MkLiveReloadState false false zero_config "" "" "" "" false 0 None 0 zero_info 0 0
    (replicate 256 zero_patch) 0 0 false zero_stats "".

(** ** The environment *)

(** What the code does outside its memory; a mapped address is an offset into
    the mapping. *)
Inductive action :=
  | Callback (e : E9LiveReloadEvent)
  | FlushIcache (offset size : Z)
  | OpenFd (fd : Z) | CloseFd (fd : Z)
  | Mmap (size : Z) | Munmap (size : Z)
  | AddWatch (fd wd : Z) | RmWatch (fd wd : Z)
  | Mkdir (path : string) | System (cmd : string) | Rename (from to : string)
  | BinaryenInit | BinaryenShutdown.

(** The answer of each external function at the [n]-th external call. *)
Class Env := {
  env_time : nat → Z;
  env_malloc : nat → bool;
  env_system : nat → Z;
  env_stat : nat → bool;
  env_open : nat → Z;
  env_fstat : nat → option Z;
  env_read : nat → Z → option bytes;
  env_mmap : nat → Z → option bytes;
  env_self_path : nat → option string;
  env_strerror : nat → string;
  env_inotify_init : nat → Z;
  env_inotify_add : nat → Z;
  env_binaryen_init : nat → Z;
  env_popen : nat → bool;
  env_fgets : nat → option string }.

(** The object differ: its return code and the patches. *)
Class Differ := { diff_objects : bytes → bytes → Z * list E9BinaryenPatch }.

(** e9binaryen.c has a stub. *)
Definition e9_binaryen_diff_objects (old_obj new_obj : bytes) : Z * list E9BinaryenPatch := (-1, []).

Definition binaryen_differ : Differ := {| diff_objects := e9_binaryen_diff_objects |}.

(** ** The monad *)

Record World := MkWorld { g_state : LiveReloadState; trace : list action; calls : nat }.

Definition M (A : Type) : Type := World → option (A * World).

#[export] Instance M_ret : MRet M := λ A a w, Some (a, w).

#[export] Instance M_bind : MBind M := λ A B k m w, '(a, w') ← m w; k a w'.

Definition get {A} (f : LiveReloadState → A) : M A := λ w, Some (f (g_state w), w).

Definition upd (f : LiveReloadState → LiveReloadState) : M unit :=
  λ w, Some (tt, MkWorld (f (g_state w)) (trace w) (calls w)).

Definition act (a : action) : M unit :=
  λ w, Some (tt, MkWorld (g_state w) (trace w ++ [a]) (calls w)).

Definition ask {A} (f : nat → A) : M A :=
  λ w, Some (f (calls w), MkWorld (g_state w) (trace w) (S (calls w))).

Definition lift {A} (o : option A) : M A := λ w, a ← o; Some (a, w).

Definition skip : M unit := mret tt.

Definition when (b : bool) (m : M unit) : M unit := if b then m else skip.

Definition upd_stats (f : E9LiveReloadStats → E9LiveReloadStats) : M unit :=
  upd (λ s, set_stats (f (stats s)) s).

(** [&g_state.patches[i]] *)
Definition get_patch (i : nat) : M InternalPatch :=
  ps ← get patches; lift (ps !! i).

Definition upd_patch (i : nat) (f : InternalPatch → InternalPatch) : M unit :=
  p ← get_patch i; upd (λ s, set_patches (<[i := f p]> (patches s)) s).

(** The text of a C string. *)
Definition string_of_bytes (t : bytes) : string :=
  fold_right (λ c s, String (ascii_of_N (Z.to_N c)) s) "" t.

Section livereload.
Context `{Env} `{Differ}.

(** ** Errors and events *)

Definition set_error (msg : string) : M unit := upd (set_error_msg (clip ERROR_BUF_SIZE msg)).

Definition e9_livereload_get_error : M (option string) :=
  e ← get error_msg; mret (if String.eqb e "" then None else Some e).

Definition e9_livereload_clear_error : M unit := upd (set_error_msg "").

Definition dispatch_event (type : E9LiveReloadEventType) (file : option string) (patch_id : Z)
    (func : option string) (addr size err_code : Z) (err_msg : option string) : M unit :=
  cb ← get callback;
  if negb cb then skip
  else
    t ← ask env_time;
    act (Callback (LiveReloadEvent type (u64 t) file patch_id func addr size err_code err_msg)).

(** ** Object cache *)

Definition ensure_cache_dir : M unit :=
  ok ← ask env_stat;
  if ok : bool then skip else d ← get cache_dir; act (Mkdir d).

(** The text after the last slash, when there is one: [strrchr(s, '/') + 1]. *)
Fixpoint after_slash (s : string) : option string :=
  match s with
  | EmptyString => None
  | String c s' =>
      match after_slash s' with
      | Some t => Some t
      | None => if Ascii.eqb c "/" then Some s' else None
      end
  end.

Definition basename (source : string) : string := default source (after_slash source).

Definition get_cached_object_path (source : string) (out_size : Z) : M string :=
  d ← get cache_dir; mret (clip out_size (d +:+ "/" +:+ basename source +:+ ".o")).

Definition get_new_object_path (source : string) (out_size : Z) : M string :=
  d ← get cache_dir; mret (clip out_size (d +:+ "/" +:+ basename source +:+ ".new.o")).

(** [%d] of a signed value. *)
Definition sdec (z : Z) : string := if z <? 0 then "-" +:+ dec (- z) else dec z.

Definition compile_source (source_path output_path : string) : M Z :=
  comp ← get compiler;
  cfg ← get config;
  let cmd := clip 2048 (comp +:+ " " +:+ default "" (compiler_flags cfg) +:+ " -c " +:+ source_path
                        +:+ " -o " +:+ output_path +:+ " 2>&1") in
  _ ← dispatch_event E9_LR_EVENT_COMPILE_START (Some source_path) 0 None 0 0 0 None;
  _ ← act (System cmd);
  ret ← ask env_system;
  if negb (ret =? 0) then
    _ ← set_error ("Compilation failed with exit code " +:+ sdec ret);
    _ ← dispatch_event E9_LR_EVENT_COMPILE_ERROR (Some source_path) 0 None 0 0 ret
                       (Some "Compilation failed");
    mret (-1)
  else
    _ ← dispatch_event E9_LR_EVENT_COMPILE_DONE (Some source_path) 0 None 0 0 0 None;
    mret 0.

(** ** Diffing *)

(** The contents of a file, or NULL. *)
Definition read_file (path : string) : M (option bytes) :=
  fd ← ask env_open;
  if fd <? 0 then mret None
  else
    _ ← act (OpenFd fd);
    st ← ask env_fstat;
    match st with
    | None => _ ← act (CloseFd fd); mret None
    | Some st_size =>
        a ← ask env_malloc;
        if negb a then _ ← act (CloseFd fd); mret None
        else
          r ← ask (λ n, env_read n st_size);
          _ ← act (CloseFd fd);
          mret (match r with
                | Some data => if blen data =? st_size then Some data else None
                | None => None
                end)
    end.

(** One patch of the differ; the result is whether the loop goes on, and
    whether a patch was created.  Blocks that were freed count as NULL. *)
Definition convert_patch (source_path : string) (bp : E9BinaryenPatch) : M bool :=
  n ← get num_patches;
  let i := Z.to_nat n in
  _ ← upd_patch i (λ _, zero_patch);
  nid ← get next_patch_id;
  _ ← upd (set_next_patch_id (u32 (nid + 1)));
  _ ← upd_patch i (set_p_id (u32 (nid + 1)));
  _ ← upd_patch i (set_source_file (clip MAX_PATH_LEN source_path));
  _ ← (match bp_function bp with
       | Some f => upd_patch i (set_function_name (clip 128 f))
       | None => skip
       end);
  _ ← upd_patch i (set_target_type E9_PATCH_TARGET_PE_RVA);
  _ ← upd_patch i (set_target_address (bp_address bp));
  ape ← get ape_info;
  let off := e9_ape_rva_to_offset (Some ape) (u32 (bp_address bp)) in
  _ ← upd_patch i (set_file_offset off);
  if off <? 0 then mret false
  else
    _ ← upd_patch i (set_old_size (bp_size bp));
    _ ← upd_patch i (set_new_size (bp_size bp));
    a ← ask env_malloc;
    b ← ask env_malloc;
    if negb a || negb b then mret false
    else
      old ← lift (rdn (bp_old_bytes bp) 0 (bp_size bp));
      _ ← upd_patch i (set_old_bytes (Some old));
      new ← lift (rdn (bp_new_bytes bp) 0 (bp_size bp));
      _ ← upd_patch i (set_new_bytes (Some new));
      _ ← upd_patch i (set_status E9_PATCH_STATUS_PENDING);
      t ← ask env_time;
      _ ← upd_patch i (set_timestamp (u64 t));
      _ ← upd (set_num_patches (n + 1));
      _ ← upd_stats (λ t, set_patches_generated (u64 (patches_generated t + 1)) t);
      p ← get_patch i;
      _ ← dispatch_event E9_LR_EVENT_PATCH_GENERATED (Some source_path) (p_id p)
            (Some (function_name p)) (bp_address bp) (bp_size bp) 0 None;
      mret true.

(** The conversion loop: how many patches were created. *)
Fixpoint convert_patches (source_path : string) (bps : list E9BinaryenPatch) : M Z :=
  match bps with
  | [] => mret 0
  | bp :: bps' =>
      n ← get num_patches;
      if MAX_PATCHES <=? n then _ ← set_error "Maximum patch count exceeded"; mret 0
      else
        made ← convert_patch source_path bp;
        k ← convert_patches source_path bps';
        mret (bool_to_Z made + k)
  end.

Definition generate_patches (source_path old_object new_object : string) : M Z :=
  old_data ← read_file old_object;
  new_data ← read_file new_object;
  match old_data, new_data with
  | Some o, Some n =>
      let '(ret, bps) := diff_objects o n in
      if negb (ret =? 0) then _ ← set_error "Binaryen diff failed"; mret (-1)
      else convert_patches source_path bps
  | _, _ => _ ← set_error "Failed to read object files for diffing"; mret (-1)
  end.

(** ** Patch application *)

Definition patch_failed (i : nat) (msg : string) (report : bool) : M Z :=
  _ ← upd_patch i (set_p_error_msg (clip 256 msg));
  _ ← upd_patch i (set_status E9_PATCH_STATUS_FAILED);
  _ ← when report (
    _ ← upd_stats (λ t, set_patches_failed (u64 (patches_failed t + 1)) t);
    p ← get_patch i;
    dispatch_event E9_LR_EVENT_PATCH_FAILED (Some (source_file p)) (p_id p)
      (Some (function_name p)) (target_address p) (new_size p) (-1) (Some (p_error_msg p)));
  mret (-1).

(** [0x%lx] of an [off_t]. *)
Definition hex_off (z : Z) : string := "0x" +:+ hex (u64 z).

Definition apply_patch_internal (i : nat) : M Z :=
  mapped ← get target_mapped;
  match mapped with
  | None => patch_failed i "Target not mapped" false
  | Some _ =>
      p ← get_patch i;
      size ← get target_size;
      if (file_offset p <? 0) || (size <? u64 (file_offset p + new_size p))
      then patch_failed i ("Patch offset " +:+ hex_off (file_offset p) +:+ " out of bounds") true
      else
        ape ← get ape_info;
        '(ret, mapped') ← lift (e9_ape_patch_offset mapped size (Some ape) (file_offset p)
                                  (new_bytes p) (new_size p));
        _ ← upd (set_target_mapped mapped');
        if negb (ret =? 0) then patch_failed i "e9_ape_patch_offset failed" true
        else
          _ ← act (FlushIcache (file_offset p) (new_size p));
          _ ← upd_patch i (set_status E9_PATCH_STATUS_APPLIED);
          _ ← upd_stats (λ t, set_patches_applied (u64 (patches_applied t + 1)) t);
          _ ← upd_stats (λ t, set_total_bytes_patched (u64 (total_bytes_patched t + new_size p)) t);
          now ← ask env_time;
          _ ← upd_stats (set_last_patch_time (u64 now));
          _ ← dispatch_event E9_LR_EVENT_PATCH_APPLIED (Some (source_file p)) (p_id p)
                (Some (function_name p)) (target_address p) (new_size p) 0 None;
          mret 0
  end.

(** The loop over the pending patches: [n] are left, the next is [i]. *)
Fixpoint apply_pending (n i : nat) : M Z :=
  match n with
  | O => mret 0
  | S n' =>
      p ← get_patch i;
      r ← (if decide (status p = E9_PATCH_STATUS_PENDING)
           then r ← apply_patch_internal i; mret (bool_to_Z (r =? 0)) else mret 0);
      k ← apply_pending n' (S i);
      mret (r + k)
  end.

(** ** File changes *)

Definition handle_file_change (source_path : string) : M Z :=
  _ ← upd_stats (λ t, set_changes_detected (u64 (changes_detected t + 1)) t);
  now ← ask env_time;
  _ ← upd_stats (set_last_change_time (u64 now));
  _ ← dispatch_event E9_LR_EVENT_FILE_CHANGE (Some source_path) 0 None 0 0 0 None;
  _ ← ensure_cache_dir;
  old_obj ← get_cached_object_path source_path MAX_PATH_LEN;
  new_obj ← get_new_object_path source_path MAX_PATH_LEN;
  ret ← compile_source source_path new_obj;
  if negb (ret =? 0) then mret (-1)
  else
    ok ← ask env_stat;
    if negb ok then _ ← act (Rename new_obj old_obj); mret 0
    else
      num ← generate_patches source_path old_obj new_obj;
      _ ← act (Rename new_obj old_obj);
      if num <=? 0 then mret num
      else
        cfg ← get config;
        if enable_hot_patch cfg then n ← get num_patches; apply_pending (Z.to_nat n) 0
        else mret num.

(** ** File watcher *)

Definition init_inotify : M Z :=
  fd ← ask env_inotify_init;
  _ ← upd (set_inotify_fd fd);
  if fd <? 0 then
    e ← ask env_strerror; _ ← set_error ("inotify_init1 failed: " +:+ e); mret (-1)
  else
    _ ← act (OpenFd fd);
    wd ← ask env_inotify_add;
    _ ← upd (set_watch_fd wd);
    if wd <? 0 then
      e ← ask env_strerror; _ ← set_error ("inotify_add_watch failed: " +:+ e);
      _ ← act (CloseFd fd);
      _ ← upd (set_inotify_fd (-1));
      mret (-1)
    else _ ← act (AddWatch fd wd); mret 0.

Definition cleanup_inotify : M unit :=
  fd ← get inotify_fd;
  wd ← get watch_fd;
  _ ← when (0 <=? wd) (_ ← act (RmWatch fd wd); upd (set_watch_fd (-1)));
  when (0 <=? fd) (_ ← act (CloseFd fd); upd (set_inotify_fd (-1))).

(** The NUL-terminated string at [off]. *)
Definition str_at (buf : bytes) (off : Z) : option bytes :=
  let t := c_string (at_off buf off) in
  if (0 <=? off) && (off + blen t <? blen buf) then Some t else None.

(** [name_len > 2 && strcmp(name + name_len - 2, ext) == 0] *)
Definition has_ext (ext : bytes) (name : bytes) : bool :=
  (2 <? blen name) && bool_decide (at_off name (blen name - 2) = ext).

Definition is_source (name : bytes) : bool :=
  has_ext (bytes_of_string ".c") name || has_ext (bytes_of_string ".h") name.

(** The loop over the events in the buffer, from [offset]. *)
Fixpoint poll_events (fuel : nat) (buf : bytes) (offset : Z) : M Z :=
  if offset <? blen buf then
    match fuel with
    | O => lift None
    | S f =>
        len ← lift (rd32 buf (offset + 12));
        n ← (if 0 <? len then
               name ← lift (str_at buf (offset + 16));
               if is_source name then
                 dir ← get source_dir;
                 _ ← handle_file_change (clip MAX_PATH_LEN (dir +:+ "/" +:+ string_of_bytes name));
                 mret 1
               else mret 0
             else mret 0);
        k ← poll_events f buf (offset + (16 + len));
        mret (n + k)
    end
  else mret 0.

Definition poll_inotify : M Z :=
  r ← ask (λ n, env_read n 4096);
  match r with
  | None => mret 0
  | Some buf => if blen buf <=? 0 then mret 0 else poll_events (List.length buf) buf 0
  end.

(** ** Lifecycle *)

Definition e9_livereload_init (path : option string) (cfg : option E9LiveReloadConfig) : M Z :=
  ready ← get initialized;
  if ready : bool then _ ← set_error "Live reload already initialized"; mret (-1)
  else
    _ ← upd (λ _, zero_state);
    let cfg := default default_config cfg in
    _ ← upd (set_config cfg);
    _ ← upd (set_source_dir (clip MAX_PATH_LEN (default "." (cfg_source_dir cfg))));
    _ ← upd (set_compiler (clip MAX_PATH_LEN (default "cosmocc" (cfg_compiler cfg))));
    _ ← upd (set_cache_dir (clip MAX_PATH_LEN (default ".e9cache" (cfg_cache_dir cfg))));
    target ← (match path with
              | Some p => mret (Some (p, false))
              | None => self ← ask env_self_path; mret ((λ s, (s, true)) <$> self)
              end);
    match target with
    | None => _ ← set_error "Cannot determine self executable path"; mret (-1)
    | Some (p, self) =>
        _ ← upd (set_target_path (clip MAX_PATH_LEN p));
        _ ← upd (set_is_self_patch self);
        fd ← ask env_open;
        _ ← upd (set_target_fd fd);
        if fd <? 0 then
          e ← ask env_strerror;
          _ ← set_error ("Cannot open target: " +:+ clip MAX_PATH_LEN p +:+ ": " +:+ e);
          mret (-1)
        else
          _ ← act (OpenFd fd);
          st ← ask env_fstat;
          match st with
          | None =>
              e ← ask env_strerror; _ ← set_error ("Cannot stat target: " +:+ e);
              _ ← act (CloseFd fd);
              mret (-1)
          | Some size =>
              _ ← upd (set_target_size size);
              m ← ask (λ n, env_mmap n size);
              match m with
              | None =>
                  e ← ask env_strerror; _ ← set_error ("Cannot mmap target: " +:+ e);
                  _ ← act (CloseFd fd);
                  _ ← upd (set_target_mapped None);
                  mret (-1)
              | Some d =>
                  _ ← act (Mmap size);
                  _ ← upd (set_target_mapped (Some d));
                  ape ← get ape_info;
                  '(ret, ape) ← lift (e9_ape_parse (Some d) size (Some ape));
                  _ ← upd (set_ape_info (default zero_info ape));
                  if negb (ret =? 0) then
                    _ ← set_error "Target is not a valid APE binary";
                    _ ← act (Munmap size);
                    _ ← act (CloseFd fd);
                    _ ← upd (set_target_mapped None);
                    mret (-1)
                  else
                    _ ← act BinaryenInit;
                    r ← ask env_binaryen_init;
                    _ ← when (negb (r =? 0)) (act BinaryenInit);
                    _ ← upd (set_inotify_fd (-1));
                    _ ← upd (set_watch_fd (-1));
                    _ ← upd (set_next_patch_id 0);
                    _ ← upd (set_initialized true);
                    mret 0
              end
          end
    end.

Definition e9_livereload_unwatch : M unit :=
  w ← get watching;
  if negb w then skip
  else _ ← cleanup_inotify; upd (set_watching false).

(** Freeing the byte blocks of the patches is not an action. *)
Definition e9_livereload_shutdown : M unit :=
  ready ← get initialized;
  if negb ready then skip
  else
    _ ← e9_livereload_unwatch;
    m ← get target_mapped;
    size ← get target_size;
    _ ← when (bool_decide (is_Some m)) (_ ← act (Munmap size); upd (set_target_mapped None));
    fd ← get target_fd;
    _ ← when (0 <=? fd) (_ ← act (CloseFd fd); upd (set_target_fd (-1)));
    _ ← act BinaryenShutdown;
    upd (λ _, zero_state).

Definition e9_livereload_is_ready : M bool :=
  ready ← get initialized;
  m ← get target_mapped;
  mret (ready && bool_decide (is_Some m)).

Definition e9_livereload_watch : M Z :=
  ready ← get initialized;
  if negb ready then _ ← set_error "Live reload not initialized"; mret (-1)
  else
    w ← get watching;
    if w : bool then mret 0
    else
      r ← init_inotify;
      if negb (r =? 0) then mret (-1)
      else _ ← upd (set_watching true); mret 0.

Definition e9_livereload_poll : M Z :=
  ready ← get initialized;
  if negb ready then mret (-1)
  else
    w ← get watching;
    if negb w then mret 0 else poll_inotify.

Definition e9_livereload_set_callback (cb : bool) : M unit := upd (set_callback cb).

(** ** Manual operations *)

Definition e9_livereload_reload_file (source_path : string) : M Z :=
  ready ← get initialized;
  if negb ready then _ ← set_error "Live reload not initialized"; mret (-1)
  else handle_file_change source_path.

(** The file offset of a target address. *)
Definition resolve (ape : E9_APEInfo) (target_type : E9PatchTargetType) (address : Z) : Z :=
  match target_type with
  | E9_PATCH_TARGET_FILE_OFFSET => s64 address
  | E9_PATCH_TARGET_PE_RVA => e9_ape_rva_to_offset (Some ape) (u32 address)
  | E9_PATCH_TARGET_VA =>
      if 0x400000 <=? address then e9_ape_rva_to_offset (Some ape) (u32 (address - 0x400000))
      else s64 address
  end.

(** [malloc(n)] and a copy of [n] bytes of [src] at [off]; NULL when the
    allocation fails. *)
Definition copy_block (src : option bytes) (off n : Z) : M (option bytes) :=
  a ← ask env_malloc;
  if negb a then mret None
  else b ← lift (s ← src; rdn s off n); mret (Some b).

Definition e9_livereload_apply_patch (type : E9PatchTargetType) (address : Z)
    (patch : option bytes) (patch_size : Z) : M Z :=
  ready ← e9_livereload_is_ready;
  if negb ready then _ ← set_error "Live reload not ready"; mret 0
  else
    n ← get num_patches;
    if MAX_PATCHES <=? n then _ ← set_error "Maximum patch count exceeded"; mret 0
    else
      let i := Z.to_nat n in
      _ ← upd_patch i (λ _, zero_patch);
      nid ← get next_patch_id;
      _ ← upd (set_next_patch_id (u32 (nid + 1)));
      _ ← upd_patch i (set_p_id (u32 (nid + 1)));
      _ ← upd_patch i (set_target_type type);
      _ ← upd_patch i (set_target_address address);
      ape ← get ape_info;
      let off := resolve ape type address in
      _ ← upd_patch i (set_file_offset off);
      if off <? 0 then
        _ ← set_error ("Cannot resolve patch address 0x" +:+ hex address); mret 0
      else
        _ ← upd_patch i (set_old_size patch_size);
        mapped ← get target_mapped;
        old ← copy_block mapped off patch_size;
        _ ← upd_patch i (set_old_bytes old);
        _ ← upd_patch i (set_new_size patch_size);
        new ← copy_block patch 0 patch_size;
        _ ← upd_patch i (set_new_bytes new);
        t ← ask env_time;
        _ ← upd_patch i (set_timestamp (u64 t));
        _ ← upd_patch i (set_status E9_PATCH_STATUS_PENDING);
        _ ← upd (set_num_patches (n + 1));
        r ← apply_patch_internal i;
        if negb (r =? 0) then mret 0
        else p ← get_patch i; mret (p_id p).

(** The search of the patch to revert: [n] slots are left, the next is [i]. *)
Fixpoint revert_scan (n i : nat) (patch_id : Z) : M Z :=
  match n with
  | O =>
      _ ← set_error ("Patch " +:+ dec patch_id +:+ " not found or not applied"); mret (-1)
  | S n' =>
      p ← get_patch i;
      if (p_id p =? patch_id) && bool_decide (status p = E9_PATCH_STATUS_APPLIED) then
        match old_bytes p with
        | None => revert_scan n' (S i) patch_id
        | Some old =>
            mapped ← get target_mapped;
            d ← lift (m ← mapped; raw ← rdn old 0 (old_size p); wrn m (file_offset p) raw);
            _ ← upd (set_target_mapped (Some d));
            _ ← act (FlushIcache (file_offset p) (old_size p));
            _ ← upd_patch i (set_status E9_PATCH_STATUS_REVERTED);
            _ ← upd_stats (λ t, set_patches_reverted (u64 (patches_reverted t + 1)) t);
            _ ← dispatch_event E9_LR_EVENT_PATCH_REVERTED (Some (source_file p)) (p_id p)
                  (Some (function_name p)) (target_address p) (old_size p) 0 None;
            mret 0
        end
      else revert_scan n' (S i) patch_id
  end.

Definition e9_livereload_revert_patch (patch_id : Z) : M Z :=
  ready ← e9_livereload_is_ready;
  if negb ready then mret (-1)
  else n ← get num_patches; revert_scan (Z.to_nat n) 0 patch_id.

Definition e9_livereload_flush_icache (addr size : Z) : M unit := act (FlushIcache addr size).

(** ** Queries *)

(** The counting loop: [n] slots are left, the next is [i]. *)
Fixpoint count_loop (st : E9PatchStatus) (n i : nat) (count : Z) : M Z :=
  match n with
  | O => mret count
  | S n' =>
      p ← get_patch i;
      count_loop st n' (S i) (if decide (status p = st) then count + 1 else count)
  end.

Definition e9_livereload_pending_count : M Z :=
  n ← get num_patches; count_loop E9_PATCH_STATUS_PENDING (Z.to_nat n) 0 0.

Definition e9_livereload_applied_count : M Z :=
  n ← get num_patches; count_loop E9_PATCH_STATUS_APPLIED (Z.to_nat n) 0 0.

(** The copying loop; [acc] is what [patches[0 .. count)] holds. *)
Fixpoint pending_loop (n i : nat) (max_patches : Z) (acc : list InternalPatch)
  : M (list InternalPatch) :=
  match n with
  | O => mret acc
  | S n' =>
      if Z.of_nat (List.length acc) <? max_patches then
        p ← get_patch i;
        pending_loop n' (S i) max_patches
          (if decide (status p = E9_PATCH_STATUS_PENDING) then acc ++ [p] else acc)
      else mret acc
  end.

(** The copied patches; their number is the result. *)
Definition e9_livereload_get_pending (max_patches : Z) : M (list InternalPatch) :=
  n ← get num_patches; pending_loop (Z.to_nat n) 0 max_patches [].

Definition e9_livereload_get_stats : M E9LiveReloadStats := get stats.

(** ** Utilities *)

Definition e9_livereload_compiler_available : M bool :=
  c ← get compiler;
  _ ← act (System (clip 512 ("which " +:+ c +:+ " >/dev/null 2>&1")));
  r ← ask env_system;
  mret (r =? 0).

(** The line without its newline. *)
Definition chomp (s : string) : string :=
  let len := String.length s in
  if (0 <? slen s) && String.eqb (String.substring (len - 1) 1 s) (String "010" "")
  then String.substring 0 (len - 1) s else s.

Definition e9_livereload_compiler_version : M (option string) :=
  c ← get compiler;
  _ ← act (System (clip 512 (c +:+ " --version 2>&1 | head -1")));
  ok ← ask env_popen;
  if negb ok then mret None
  else
    line ← ask env_fgets;
    mret (match line with Some l => Some (chomp (clip 256 l)) | None => None end).

End livereload.

(** * Properties *)

(** ** Program logic

    [wp ub m Q w]: run from [w], [m] ends in a world and with a result that
    satisfy [Q]; when it has undefined behaviour, [ub] holds.  With [ub] False
    this is total correctness, with [ub] True partial correctness. *)

Definition wp {A} (ub : Prop) (m : M A) (Q : A → World → Prop) (w : World) : Prop :=
  match m w with Some (a, w') => Q a w' | None => ub end.

Section logic.
Context (ub : Prop).

Lemma wp_bind {A B} (m : M A) (k : A → M B) Q w :
  wp ub m (λ a, wp ub (k a) Q) w → wp ub (m ≫= k) Q w.
Proof. unfold wp, mbind, M_bind. destruct (m w) as [[a w']|]; done. Qed.

Lemma wp_mono {A} (m : M A) (P Q : A → World → Prop) w :
  wp ub m P w → (∀ a w', P a w' → Q a w') → wp ub m Q w.
Proof. unfold wp. destruct (m w) as [[a w']|]; auto. Qed.

Lemma wp_total {A} (m : M A) (Q : A → World → Prop) w : wp False m Q w → wp ub m Q w.
Proof. unfold wp. by destruct (m w) as [[a w']|]. Qed.

Lemma wp_ret {A} (a : A) (Q : A → World → Prop) w : Q a w → wp ub (mret a) Q w.
Proof. done. Qed.

Lemma wp_get {A} (f : LiveReloadState → A) Q s tr c :
  Q (f s) (MkWorld s tr c) → wp ub (get f) Q (MkWorld s tr c).
Proof. done. Qed.

Lemma wp_upd f Q s tr c : Q tt (MkWorld (f s) tr c) → wp ub (upd f) Q (MkWorld s tr c).
Proof. done. Qed.

Lemma wp_act a Q s tr c : Q tt (MkWorld s (tr ++ [a]) c) → wp ub (act a) Q (MkWorld s tr c).
Proof. done. Qed.

Lemma wp_ask {A} (f : nat → A) Q s tr c :
  (∀ a, a = f c → Q a (MkWorld s tr (S c))) → wp ub (ask f) Q (MkWorld s tr c).
Proof. intros H. by apply H. Qed.

Lemma wp_lift {A} (o : option A) (Q : A → World → Prop) w :
  (∀ a, o = Some a → Q a w) → (o = None → ub) → wp ub (lift o) Q w.
Proof. intros H1 H2. unfold wp, lift. destruct o; cbn; auto. Qed.

Lemma wp_lift_Some {A} (a : A) (Q : A → World → Prop) w : Q a w → wp ub (lift (Some a)) Q w.
Proof. done. Qed.

Lemma wp_skip (Q : unit → World → Prop) w : Q tt w → wp ub skip Q w.
Proof. done. Qed.

Lemma wp_when b m (Q : unit → World → Prop) w :
  (b = true → wp ub m Q w) → (b = false → Q tt w) → wp ub (when b m) Q w.
Proof. destruct b; cbn; auto. Qed.

(** The state with [p] in slot [i]. *)
Definition in_slot (s : LiveReloadState) (i : nat) (p : InternalPatch) : LiveReloadState :=
  set_patches (<[i := p]> (patches s)) s.

Lemma in_slot_id s i p : patches s !! i = Some p → in_slot s i p = s.
Proof. intros H. unfold in_slot. rewrite list_insert_id by done. by destruct s. Qed.

Lemma wp_get_patch Q s i p tr c :
  patches s !! i = Some p → Q p (MkWorld s tr c) → wp ub (get_patch i) Q (MkWorld s tr c).
Proof. intros Hp HQ. unfold get_patch. apply wp_bind, wp_get. rewrite Hp. done. Qed.

Lemma wp_upd_patch Q s i p f tr c :
  patches s !! i = Some p → Q tt (MkWorld (in_slot s i (f p)) tr c) →
  wp ub (upd_patch i f) Q (MkWorld s tr c).
Proof. intros Hp HQ. apply wp_bind. by apply (wp_get_patch _ s i p). Qed.

Lemma slot_lookup s i p : (i < List.length (patches s))%nat → patches (in_slot s i p) !! i = Some p.
Proof. intros. by apply list_lookup_insert_eq. Qed.

Lemma slot_slot s i p q : in_slot (in_slot s i p) i q = in_slot s i q.
Proof. unfold in_slot. cbn. by rewrite list_insert_insert_eq. Qed.

Lemma wp_get_slot Q s i p tr c :
  (i < List.length (patches s))%nat → Q p (MkWorld (in_slot s i p) tr c) →
  wp ub (get_patch i) Q (MkWorld (in_slot s i p) tr c).
Proof. intros Hi. apply wp_get_patch. by apply slot_lookup. Qed.

Lemma wp_upd_slot Q s i p f tr c :
  (i < List.length (patches s))%nat → Q tt (MkWorld (in_slot s i (f p)) tr c) →
  wp ub (upd_patch i f) Q (MkWorld (in_slot s i p) tr c).
Proof.
  intros Hi HQ. eapply wp_upd_patch; [by apply slot_lookup|]. by rewrite slot_slot.
Qed.

(** Reading and assigning another field than [patches]. *)
Lemma wp_get_other {A} (f : LiveReloadState → A) Q s i p tr c :
  f (in_slot s i p) = f s → Q (f s) (MkWorld (in_slot s i p) tr c) →
  wp ub (get f) Q (MkWorld (in_slot s i p) tr c).
Proof. intros Hf HQ. apply wp_get. by rewrite Hf. Qed.

Lemma wp_upd_first Q s i f tr c :
  (i < List.length (patches s))%nat → (∀ p, Q tt (MkWorld (in_slot s i (f p)) tr c)) →
  wp ub (upd_patch i f) Q (MkWorld s tr c).
Proof. intros [p Hp]%lookup_lt_is_Some_2 HQ. by eapply wp_upd_patch. Qed.

Lemma wp_upd_other Q s i p f tr c :
  f (in_slot s i p) = in_slot (f s) i p → Q tt (MkWorld (in_slot (f s) i p) tr c) →
  wp ub (upd f) Q (MkWorld (in_slot s i p) tr c).
Proof. intros Hf HQ. apply wp_upd. by rewrite Hf. Qed.
End logic.

(** One step of a proof about a program. *)
Ltac wp_step :=
  match goal with
  | |- wp _ (mbind _ _) _ _ => apply wp_bind
  | |- wp _ (mret _) _ _ => apply wp_ret
  | |- wp _ (get _) _ (MkWorld (in_slot _ _ _) _ _) => apply wp_get_other; [reflexivity|cbn beta]
  | |- wp _ (get _) _ _ => apply wp_get; cbn beta
  | |- wp _ (get_patch ?i) _ (MkWorld (in_slot _ ?i _) _ _) => apply wp_get_slot; [done|]
  | |- wp _ (upd_patch ?i _) _ (MkWorld (in_slot _ ?i _) _ _) => apply wp_upd_slot; [done|cbn beta]
  | |- wp _ (upd _) _ (MkWorld (in_slot _ _ _) _ _) => apply wp_upd_other; [reflexivity|cbn beta]
  | |- wp _ (upd_stats _) _ _ => unfold upd_stats
  | |- wp _ (upd _) _ _ => apply wp_upd; cbn beta
  | |- wp _ (act _) _ _ => apply wp_act
  | |- wp _ (ask _) _ _ => apply wp_ask; intros ? ?
  | |- wp _ (lift (Some _)) _ _ => apply wp_lift_Some; cbn beta iota
  | |- wp _ skip _ _ => apply wp_skip
  | |- wp _ (when _ _) _ _ => apply wp_when; intros ?
  | |- wp _ (if ?b then _ else _) _ _ => destruct b eqn:?
  end.

Section proofs.
Context `{Env} `{Differ}.

(** Actions that only call the user back. *)
Definition callbacks (l : list action) : Prop := Forall (λ a, ∃ e, a = Callback e) l.

Lemma wp_dispatch ub type file pid func addr size code msg (Q : unit → World → Prop) s tr c :
  (∀ cbs c', callbacks cbs → (callback s = false → cbs = []) → Q tt (MkWorld s (tr ++ cbs) c')) →
  wp ub (dispatch_event type file pid func addr size code msg) Q (MkWorld s tr c).
Proof.
  intros HQ. unfold dispatch_event. repeat wp_step; cbn in *.
  - rewrite <- (app_nil_r tr). by apply HQ; [constructor|].
  - apply HQ; [|by destruct (callback s)]. by repeat econstructor.
Qed.

(** ** Applying one patch *)

Definition patch_sized (p : InternalPatch) : Prop :=
  file_offset p < 2 ^ 63 ∧
  ∀ b, new_bytes p = Some b → blen b = new_size p ∧ new_size p < 2 ^ 63.

(** The patch is inside the image. *)
Definition applies (s : LiveReloadState) (p : InternalPatch) : Prop :=
  0 <= file_offset p ∧ file_offset p + new_size p <= target_size s ∧ new_size p ≠ 0 ∧
  is_Some (new_bytes p).

Definition applied_state (s : LiveReloadState) (d : bytes) (n now : Z) : LiveReloadState :=
  s |> set_target_mapped (Some d)
    |> set_stats (stats s |> set_patches_applied (u64 (patches_applied (stats s) + 1))
                          |> set_total_bytes_patched (u64 (total_bytes_patched (stats s) + n))
                          |> set_last_patch_time now).

Definition failed_state (s : LiveReloadState) : LiveReloadState :=
  set_stats (set_patches_failed (u64 (patches_failed (stats s) + 1)) (stats s)) s.

Definition failed_patch (msg : string) (p : InternalPatch) : InternalPatch :=
  p |> set_p_error_msg msg |> set_status E9_PATCH_STATUS_FAILED.

Lemma patch_failed_spec ub i s p msg tr c (Q : Z → World → Prop) :
  (i < List.length (patches s))%nat →
  (∀ cbs c', callbacks cbs →
     Q (-1) (MkWorld (in_slot (failed_state s) i (failed_patch (clip 256 msg) p)) (tr ++ cbs) c')) →
  wp ub (patch_failed i msg true) Q (MkWorld (in_slot s i p) tr c).
Proof.
  intros Hi HQ. unfold patch_failed. cbn [when]. repeat wp_step.
  apply wp_dispatch. intros cbs c' Hc _. repeat wp_step. by apply HQ.
Qed.

Lemma apply_internal_spec ub i s p tr c d (Q : Z → World → Prop) :
  (i < List.length (patches s))%nat → target_mapped s = Some d → blen d = target_size s →
  target_size s < 2 ^ 63 → patch_sized p → 
  (∀ b d' cbs now c', applies s p → new_bytes p = Some b → wrn d (file_offset p) b = Some d' →
     callbacks cbs →
     Q 0 (MkWorld (in_slot (applied_state s d' (new_size p) now) i
                           (set_status E9_PATCH_STATUS_APPLIED p))
                  (tr ++ FlushIcache (file_offset p) (new_size p) :: cbs) c')) →
  (∀ msg cbs c', ¬ applies s p → callbacks cbs →
     Q (-1) (MkWorld (in_slot (failed_state s) i (failed_patch msg p)) (tr ++ cbs) c')) →
  wp ub (apply_patch_internal i) Q (MkWorld (in_slot s i p) tr c).
Proof.
  intros Hi Hm Hd Hs [Ho Hn] Hok Hfail. unfold apply_patch_internal.
  wp_step. wp_step. rewrite Hm.
  do 4 wp_step.
  assert (¬ applies s p → ∀ msg (r := -1),
    wp ub (patch_failed i msg true) Q (MkWorld (in_slot s i p) tr c)) as Hf.
  { intros Hna msg _. apply patch_failed_spec; [done|]. intros. by apply Hfail. }
  wp_step.
  { apply Hf. intros (H1&H2&H3&b&Hb). destruct (Hn b Hb) as [H4 H5].
    pose proof (blen_nonneg b). rewrite wrapu_small in Heqb by lia. lia. }
  apply orb_false_iff in Heqb as [Hb1 Hb2]. do 3 wp_step.
  destruct (decide (new_size p = 0 ∨ new_bytes p = None)) as [Hz|Hz].
  - rewrite patch_offset_refused by done. repeat wp_step; [|done]. rewrite <- Hm.
    assert (set_target_mapped (target_mapped s) s = s) as -> by by destruct s.
    apply Hf. intros (_&_&?&?&?). destruct Hz; congruence.
  - destruct (new_bytes p) as [b|] eqn:Hb; [|tauto]. destruct (Hn b eq_refl) as [Hl1 Hl2].
    destruct (patch_offset_writes d (target_size s) (Some (ape_info s)) (file_offset p) b)
      as (d' & Hw & Hp); [lia|pose proof (blen_nonneg b); rewrite wrapu_small in Hb2 by lia; lia..
                         |lia|lia|intros ?; apply Hz; left; lia|].
    rewrite Hl1 in Hp. rewrite Hp. repeat wp_step; [done|]. apply wp_dispatch.
    intros cbs c' Hc _. repeat wp_step. rewrite <- app_assoc. cbn [app].
    eapply Hok; try done. repeat split; [lia| |tauto|by eexists].
    pose proof (blen_nonneg b). rewrite wrapu_small in Hb2 by lia. lia.
Qed.
(** ** Applying a raw patch *)

(** What [copy_block] gives: NULL, or a copy of [n] bytes. *)
Definition copied (ok : bool) (src : option bytes) (off n : Z) (r : option bytes) : Prop :=
  if ok then ∃ s b, src = Some s ∧ rdn s off n = Some b ∧ r = Some b else r = None.

Lemma wp_copy_block ub src off n (Q : option bytes → World → Prop) s tr c :
  (∀ r, copied (env_malloc c) src off n r → Q r (MkWorld s tr (S c))) →
  (env_malloc c = true → (m ← src; rdn m off n) = None → ub) →
  wp ub (copy_block src off n) Q (MkWorld s tr c).
Proof.
  intros HQ Hub. unfold copy_block. repeat wp_step.
  - subst a. apply HQ. unfold copied. by destruct (env_malloc c).
  - subst a. destruct (env_malloc c) eqn:Ha; [|done]. apply wp_lift; [|by auto].
    intros b Hb. repeat wp_step. apply HQ. apply bind_Some_iff in Hb as (m & -> & Hb).
    by exists m, b.
Qed.

(** The patch that [e9_livereload_apply_patch] builds. *)
Definition raw_patch (pid : Z) (type : E9PatchTargetType) (addr off : Z) (old new : option bytes)
    (n t : Z) : InternalPatch :=
  MkInternalPatch pid "" "" type addr off old n new n E9_PATCH_STATUS_PENDING "" t.

Definition next_id (s : LiveReloadState) : Z := u32 (next_patch_id s + 1).

(** A state in which patches can be applied to the image [d]. *)
Definition ready (s : LiveReloadState) (d : bytes) : Prop :=
  initialized s = true ∧ target_mapped s = Some d ∧ blen d = target_size s ∧
  target_size s < 2 ^ 63 ∧ List.length (patches s) = 256%nat.

(** The state after a slot has been taken. *)
Definition taken (s : LiveReloadState) : LiveReloadState :=
  s |> set_next_patch_id (next_id s) |> set_num_patches (num_patches s + 1).

Lemma apply_patch_run ub s d type addr patch n (Q : Z → World → Prop) tr c :
  ready s d → 0 <= num_patches s < MAX_PATCHES →
  let off := resolve (ape_info s) type addr in
  let i := Z.to_nat (num_patches s) in
  (off < 0 → ∀ p msg, Q 0 (MkWorld (in_slot (s |> set_next_patch_id (next_id s) |> set_error_msg msg)
                                      i p) tr c)) →
  (0 <= off → ∀ old new t c',
     copied (env_malloc c) (Some d) off n old → copied (env_malloc (S c)) patch 0 n new →
     wp ub (r ← apply_patch_internal i; if negb (r =? 0) then mret 0 else p ← get_patch i; mret (p_id p)) Q
       (MkWorld (in_slot (taken s) i (raw_patch (next_id s) type addr off old new n t)) tr c')) →
  (0 <= off → env_malloc c = true → rdn d off n = None → ub) →
  (0 <= off → env_malloc (S c) = true → (m ← patch; rdn m 0 n) = None → ub) →
  wp ub (e9_livereload_apply_patch type addr patch n) Q (MkWorld s tr c).
Proof.
  intros (Hinit & Hm & Hd & Hs & Hl) Hn off i Hneg Hpos Hub1 Hub2.
  assert (i < List.length (patches s))%nat as Hi by (unfold i, MAX_PATCHES in *; lia).
  unfold e9_livereload_apply_patch, e9_livereload_is_ready. do 6 wp_step.
  rewrite Hinit, Hm. change (true && _) with true. cbn [negb]. do 3 wp_step; [unfold MAX_PATCHES in *; lia|].
  wp_step. apply wp_upd_first; [done|]. intros p0. fold i. do 14 wp_step.
  change (resolve (ape_info _) type addr) with off. wp_step.
  - unfold set_error. repeat wp_step. apply Hneg. lia.
  - do 4 wp_step. change (target_mapped (set_next_patch_id _ s)) with (target_mapped s). rewrite Hm.
    wp_step. apply wp_copy_block; [|intros Ha Hb; by apply Hub1; [lia|..]].
    intros old Hold. do 5 wp_step.
    apply wp_copy_block; [|intros Ha Hb; by apply Hub2; [lia|..]].
    intros new Hnew. do 10 wp_step. subst. assert (0 <= off) as Hx by lia.
    exact (Hpos Hx old new (u64 (env_time (S (S c)))) (S (S (S c))) Hold Hnew).
Qed.

(** The successful call, with the world it ends in. *)
Lemma apply_patch_ok s d type addr patch n tr c :
  ready s d → 0 <= num_patches s < MAX_PATCHES →
  let off := resolve (ape_info s) type addr in
  let i := Z.to_nat (num_patches s) in
  0 <= off → off + n <= target_size s → 0 < n <= blen patch → blen patch < 2 ^ 63 →
  env_malloc c = true → env_malloc (S c) = true →
  ∃ old new d' t now cbs c',
    rdn d off n = Some old ∧ rdn patch 0 n = Some new ∧ wrn d off new = Some d' ∧
    callbacks cbs ∧
    e9_livereload_apply_patch type addr (Some patch) n (MkWorld s tr c) =
    Some (next_id s,
      MkWorld (in_slot (applied_state (taken s) d' n now) i
        (set_status E9_PATCH_STATUS_APPLIED
           (raw_patch (next_id s) type addr off (Some old) (Some new) n t)))
        (tr ++ FlushIcache off n :: cbs) c').
Proof.
  intros Hr Hn off i Ho Hb Hp Hp2 Ha1 Ha2. pose proof Hr as (Hinit & Hm & Hd & Hs & Hl).
  destruct (rdn_is_Some d off n) as [old Hold]; [lia..|].
  destruct (rdn_is_Some patch 0 n) as [new Hnew]; [lia..|]. pose proof (rdn_len _ _ _ _ Hnew).
  enough (wp False (e9_livereload_apply_patch type addr (Some patch) n) (λ r w',
    r = next_id s ∧ ∃ d' t now cbs c', wrn d off new = Some d' ∧ callbacks cbs ∧
      w' = MkWorld (in_slot (applied_state (taken s) d' n now) i
        (set_status E9_PATCH_STATUS_APPLIED
           (raw_patch (next_id s) type addr off (Some old) (Some new) n t)))
        (tr ++ FlushIcache off n :: cbs) c') (MkWorld s tr c)) as Hwp.
  { unfold wp in Hwp. destruct (e9_livereload_apply_patch _ _ _ _ _) as [[r w']|]; [|done].
    destruct Hwp as (-> & d' & t & now & cbs & c' & ? & ? & ->).
    by exists old, new, d', t, now, cbs, c'. }
  apply apply_patch_run with (d := d); try done; fold off.
  - intros; lia.
  - intros _ o nw t c' Hco Hcn. rewrite Ha1 in Hco. rewrite Ha2 in Hcn.
    destruct Hco as (? & b1 & [= <-] & Hb1 & ->). destruct Hcn as (? & b2 & [= <-] & Hb2 & ->).
    rewrite Hold in Hb1. injection Hb1 as <-. rewrite Hnew in Hb2. injection Hb2 as <-.
    apply wp_bind. eapply apply_internal_spec with (d := d); try done.
    + cbn. unfold MAX_PATCHES in *. lia.
    + split; cbn; [lia|]. intros b [= <-]. lia.
    + intros b d' cbs now c2 Hap [= <-] Hw Hcb. cbn [negb Z.eqb]. wp_step.
      apply wp_get_slot; [cbn; unfold MAX_PATCHES in *; lia|]. wp_step. split; [done|].
      by exists d', t, now, cbs, c2.
    + intros msg cbs c2 []. repeat split; cbn; [lia|lia|lia|by eexists].
  - intros _ _. congruence.
  - intros _ _. cbn. congruence.
Qed.

(** C32: Applying a raw patch.  When the target address resolves to a place inside the image
    and memory is available, the call returns the next patch id, writes exactly the patch
    bytes at that place, records the bytes that were there, and flushes the instruction
    cache of that range. *)
Theorem lr_apply_patch_exact s d type addr patch n tr c :
  ready s d → 0 <= num_patches s < MAX_PATCHES →
  let off := resolve (ape_info s) type addr in
  0 <= off → off + n <= target_size s → 0 < n <= blen patch → blen patch < 2 ^ 63 →
  env_malloc c = true → env_malloc (S c) = true →
  ∃ d' p w' cbs,
    e9_livereload_apply_patch type addr (Some patch) n (MkWorld s tr c) = Some (next_id s, w') ∧
    rdn patch 0 n ≫= wrn d off = Some d' ∧
    target_mapped (g_state w') = Some d' ∧ num_patches (g_state w') = num_patches s + 1 ∧
    patches (g_state w') = <[Z.to_nat (num_patches s) := p]> (patches s) ∧
    status p = E9_PATCH_STATUS_APPLIED ∧ p_id p = next_id s ∧ file_offset p = off ∧
    old_bytes p = rdn d off n ∧ old_size p = n ∧
    trace w' = tr ++ FlushIcache off n :: cbs ∧ callbacks cbs.
Proof.
  intros Hr Hn off Ho Hb Hp Hp2 Ha1 Ha2.
  destruct (apply_patch_ok s d type addr patch n tr c)
    as (old & new & d' & t & now & cbs & c' & Hold & Hnew & Hw & Hc & Heq); try done.
  eexists d', _, _, cbs. split; [exact Heq|]. fold off in Hold, Hw. rewrite Hnew, Hold. cbn.
  by repeat split.
Qed.

(** ** Reverting *)

(** The slot [k] holds an applied patch [pid] with its old bytes. *)
Definition revertible (s : LiveReloadState) (pid : Z) (k : nat) (p : InternalPatch) (old : bytes)
  : Prop :=
  patches s !! k = Some p ∧ p_id p = pid ∧ status p = E9_PATCH_STATUS_APPLIED ∧
  old_bytes p = Some old.

Definition reverted_state (s : LiveReloadState) (d : bytes) : LiveReloadState :=
  s |> set_target_mapped (Some d)
    |> set_stats (set_patches_reverted (u64 (patches_reverted (stats s) + 1)) (stats s)).

Definition reverted_patch (p : InternalPatch) : InternalPatch :=
  set_status E9_PATCH_STATUS_REVERTED p.

Lemma revert_hit ub s d k p old (Q : Z → World → Prop) tr c :
  target_mapped s = Some d → patches s !! k = Some p →
  (∀ raw d' cbs c', rdn old 0 (old_size p) = Some raw → wrn d (file_offset p) raw = Some d' →
     callbacks cbs →
     Q 0 (MkWorld (in_slot (reverted_state s d') k (reverted_patch p))
                  (tr ++ FlushIcache (file_offset p) (old_size p) :: cbs) c')) →
  ((raw ← rdn old 0 (old_size p); wrn d (file_offset p) raw) = None → ub) →
  wp ub (mapped ← get target_mapped;
    d ← lift (m ← mapped; raw ← rdn old 0 (old_size p); wrn m (file_offset p) raw);
    _ ← upd (set_target_mapped (Some d));
    _ ← act (FlushIcache (file_offset p) (old_size p));
    _ ← upd_patch k (set_status E9_PATCH_STATUS_REVERTED);
    _ ← upd_stats (λ t, set_patches_reverted (u64 (patches_reverted t + 1)) t);
    _ ← dispatch_event E9_LR_EVENT_PATCH_REVERTED (Some (source_file p)) (p_id p)
          (Some (function_name p)) (target_address p) (old_size p) 0 None;
    mret 0) Q (MkWorld s tr c).
Proof.
  intros Hm Hk HQ Hub. do 2 wp_step. rewrite Hm. wp_step. apply wp_lift; [|done].
  intros d' (? & [= <-] & (raw & Hraw & Hw)%bind_Some_iff)%bind_Some_iff. do 5 wp_step.
  eapply wp_upd_patch; [exact Hk|]. repeat wp_step. apply wp_dispatch.
  intros cbs c' Hc _. repeat wp_step. rewrite <- app_assoc. exact (HQ raw d' cbs c' Hraw Hw Hc).
Qed.

Lemma revert_scan_cases ub n i pid s d (Q : Z → World → Prop) tr c :
  target_mapped s = Some d → (i + n <= List.length (patches s))%nat →
  (∀ k p old raw d' cbs c', (i <= k < i + n)%nat → revertible s pid k p old →
     rdn old 0 (old_size p) = Some raw → wrn d (file_offset p) raw = Some d' → callbacks cbs →
     Q 0 (MkWorld (in_slot (reverted_state s d') k (reverted_patch p))
                  (tr ++ FlushIcache (file_offset p) (old_size p) :: cbs) c')) →
  (∀ msg, (∀ k p old, (i <= k < i + n)%nat → ¬ revertible s pid k p old) →
     Q (-1) (MkWorld (set_error_msg msg s) tr c)) →
  (∀ k p old, (i <= k < i + n)%nat → revertible s pid k p old →
     (raw ← rdn old 0 (old_size p); wrn d (file_offset p) raw) = None → ub) →
  wp ub (revert_scan n i pid) Q (MkWorld s tr c).
Proof.
  intros Hm. revert i. induction n as [|n IH]; intros i Hl Hhit Hmiss Hub; cbn [revert_scan].
  { unfold set_error. repeat wp_step. apply Hmiss. intros; lia. }
  destruct (lookup_lt_is_Some_2 (patches s) i) as [p Hp]; [lia|].
  wp_step. eapply wp_get_patch; [exact Hp|].
  assert ((∀ old, ¬ revertible s pid i p old) → wp ub (revert_scan n (S i) pid) Q (MkWorld s tr c))
    as Hnext.
  { intros Hno. apply IH; [lia| | |].
    - intros k q old raw d' cbs c' Hk. apply Hhit. lia.
    - intros msg Hn. apply Hmiss. intros k q old Hk Hr. destruct (decide (k = i)) as [->|].
      + assert (q = p) as -> by (destruct Hr; congruence). by eapply Hno.
      + apply (Hn k q old); [lia|done].
    - intros k q old Hk. apply Hub. lia. }
  wp_step.
  - apply andb_true_iff in Heqb as [Hid%Z.eqb_eq Hst%bool_decide_eq_true].
    destruct (old_bytes p) as [old|] eqn:Hold.
    + assert (revertible s pid i p old) by done.
      apply (revert_hit ub s d i p old); try done.
      * intros raw d' cbs c' Hraw Hw Hc. by eapply Hhit; [lia|..].
      * apply (Hub i p old); [lia|done].
    + apply Hnext. intros old (_&_&_&?). congruence.
  - apply Hnext. intros old (_&Hid&Hst&_). apply andb_false_iff in Heqb as [?%Z.eqb_neq|Hb]; [congruence|].
    apply bool_decide_eq_false in Hb. done.
Qed.

(** When one slot alone holds an applied patch with this id, reverting it writes its old
    bytes back. *)
Lemma revert_single s d d' i p old pid tr c :
  initialized s = true → target_mapped s = Some d' →
  (Z.to_nat (num_patches s) <= List.length (patches s))%nat → (i < Z.to_nat (num_patches s))%nat →
  revertible s pid i p old → blen old = old_size p → wrn d' (file_offset p) old = Some d →
  (∀ k q o, (k < Z.to_nat (num_patches s))%nat → revertible s pid k q o → k = i) →
  wp False (e9_livereload_revert_patch pid) (λ r w, r = 0 ∧ target_mapped (g_state w) = Some d ∧
    status <$> patches (g_state w) !! i = Some E9_PATCH_STATUS_REVERTED ∧
    ∃ tr', trace w = tr ++ tr') (MkWorld s tr c).
Proof.
  intros Hinit Hm Hl Hi Hrv Ho Hw Honly. assert (rdn old 0 (old_size p) = Some old) as Hself.
  { rewrite <- Ho. by apply rdn_ext; [lia|lia|]. }
  assert (∀ k q o, (0 <= k < 0 + Z.to_nat (num_patches s))%nat → revertible s pid k q o →
    k = i ∧ q = p ∧ o = old) as Hall.
  { intros k q o Hk Hq. rewrite (Honly k q o) in * by (done || lia). split; [done|].
    destruct Hq as (Hq&_&_&Hqo), Hrv as (Hp&_&_&Hpo). rewrite Hq in Hp. injection Hp as ->.
    split; [done|congruence]. }
  unfold e9_livereload_revert_patch, e9_livereload_is_ready. do 6 wp_step.
  rewrite Hinit, Hm. change (true && _) with true. cbn [negb]. do 2 wp_step.
  apply revert_scan_cases with (d := d'); [done|lia| | |].
  - intros k q o raw d2 cbs2 c2 Hk Hr Hraw Hw2 _. destruct (Hall k q o Hk Hr) as (->&->&->).
    rewrite Hself in Hraw. injection Hraw as <-. rewrite Hw in Hw2. injection Hw2 as <-.
    split; [done|]. split; [done|]. cbn [g_state trace]. split; [|by eexists].
    by rewrite slot_lookup by (cbn; lia).
  - intros msg Hno. exfalso. apply (Hno i p old); [lia|done].
  - intros k q o Hk Hr Hnone. destruct (Hall k q o Hk Hr) as (->&->&->).
    rewrite Hself in Hnone. cbn in Hnone. congruence.
Qed.

(** C31: Undo: a raw patch that was applied and is then reverted by the id that was returned
    leaves the image as it was, provided that no earlier patch is applied under the same
    (32-bit) id. *)
Theorem lr_apply_revert_restores s d type addr patch n tr c :
  ready s d → 0 <= num_patches s < MAX_PATCHES →
  let off := resolve (ape_info s) type addr in
  0 <= off → off + n <= target_size s → 0 < n <= blen patch → blen patch < 2 ^ 63 →
  env_malloc c = true → env_malloc (S c) = true → next_id s ≠ 0 →
  (∀ k p old, (k < Z.to_nat (num_patches s))%nat → ¬ revertible s (next_id s) k p old) →
  ∃ w1 w2, e9_livereload_apply_patch type addr (Some patch) n (MkWorld s tr c) =
             Some (next_id s, w1) ∧ next_id s ≠ 0 ∧
    e9_livereload_revert_patch (next_id s) w1 = Some (0, w2) ∧
    target_mapped (g_state w2) = Some d ∧
    status <$> patches (g_state w2) !! Z.to_nat (num_patches s) = Some E9_PATCH_STATUS_REVERTED ∧
    ∃ tr' , trace w2 = tr ++ tr' ∧ FlushIcache off n ∈ tr'.
Proof.
  intros Hr Hn off Ho Hb Hp Hp2 Ha1 Ha2 Hid Hfresh. set (i := Z.to_nat (num_patches s)) in *.
  destruct (apply_patch_ok s d type addr patch n tr c)
    as (old & new & d' & t & now & cbs & c' & Hold & Hnew & Hw & Hc & Heq); try done.
  fold off i in Hold, Hw, Heq. set (p := set_status _ _) in Heq.
  set (s1 := in_slot _ _ _) in Heq. destruct Hr as (Hinit & Hm & Hd & Hs & Hl).
  assert (i < List.length (patches s))%nat as Hi by (unfold i, MAX_PATCHES in *; lia).
  pose proof (rdn_len _ _ _ _ Hold) as Hlo. pose proof (rdn_len _ _ _ _ Hnew) as Hln.
  assert (patches s1 !! i = Some p) as Hsi by (by apply list_lookup_insert_eq).
  assert (Z.to_nat (num_patches s1) = S i) as Hnum.
  { change (num_patches s1) with (num_patches s + 1). unfold i. lia. }
  rewrite <- Hln in Hold. pose proof (wrn_restore _ _ _ _ _ Hold Hw) as Hback.
  assert (List.length (patches s1) = List.length (patches s)) as Hls by apply length_insert.
  assert (∀ k q o, (k < Z.to_nat (num_patches s1))%nat → revertible s1 (next_id s) k q o → k = i)
    as Honly.
  { intros k q o Hk (Hq & Hqr). destruct (decide (k = i)) as [|Hne]; [done|].
    change (patches s1) with (<[i := p]> (patches s)) in Hq.
    rewrite list_lookup_insert_ne in Hq by done. destruct (Hfresh k q o); [lia|done]. }
  pose proof (revert_single s1 d d' i p old (next_id s) (tr ++ FlushIcache off n :: cbs) c'
    Hinit eq_refl ltac:(lia) ltac:(lia) ltac:(done) Hlo Hback) as Hwp.
  unfold wp in Hwp. destruct (e9_livereload_revert_patch _ _) as [[r w2]|] eqn:Hrv.
  - destruct (Hwp Honly) as (-> & H1 & H2 & tr' & H3).
    eexists _, w2. split; [exact Heq|]. repeat split; try done.
    exists (FlushIcache off n :: cbs ++ tr'). split; [rewrite H3, <- app_assoc; done|].
    apply elem_of_cons. by left.
  - destruct (Hwp Honly).
Qed.

(** ** Queries *)

(** The patches in use, and those with a status. *)
Definition used (s : LiveReloadState) : list InternalPatch :=
  take (Z.to_nat (num_patches s)) (patches s).

Definition with_status (st : E9PatchStatus) (l : list InternalPatch) : list InternalPatch :=
  filter (λ p, status p = st) l.

Lemma take_drop_S {A} n i (l : list A) x :
  l !! i = Some x → take (S n) (drop i l) = x :: take n (drop (S i) l).
Proof. intros Hx. by rewrite (drop_S l x i Hx). Qed.

Lemma bind_run {A B} (m : M A) (k : A → M B) w a w' : m w = Some (a, w') → (m ≫= k) w = k a w'.
Proof. unfold mbind, M_bind. by intros ->. Qed.

Lemma get_patch_run s i p tr c :
  patches s !! i = Some p → get_patch i (MkWorld s tr c) = Some (p, MkWorld s tr c).
Proof. intros Hp. unfold get_patch. rewrite (bind_run _ _ _ _ _ eq_refl). unfold lift. cbn [g_state]. by rewrite Hp. Qed.

Lemma count_loop_run st n i count s tr c :
  (i + n <= List.length (patches s))%nat →
  count_loop st n i count (MkWorld s tr c) =
  Some (count + Z.of_nat (List.length (with_status st (take n (drop i (patches s))))), MkWorld s tr c).
Proof.
  revert i count. induction n as [|n IH]; intros i count Hl; cbn [count_loop].
  { rewrite take_0. unfold mret, M_ret. cbn. by rewrite Z.add_0_r. }
  destruct (lookup_lt_is_Some_2 (patches s) i) as [p Hp]; [lia|].
  rewrite (take_drop_S _ _ _ _ Hp), (bind_run _ _ _ _ _ (get_patch_run s i p tr c Hp)), IH by lia.
  unfold with_status. destruct (decide (status p = st)).
  - rewrite filter_cons_True by done. cbn [List.length]. do 2 f_equal. lia.
  - by rewrite filter_cons_False by done.
Qed.

Lemma pending_loop_run n i max acc s tr c :
  (i + n <= List.length (patches s))%nat → Z.of_nat (List.length acc) <= Z.max 0 max →
  pending_loop n i max acc (MkWorld s tr c) =
  Some (take (Z.to_nat max) (acc ++ with_status E9_PATCH_STATUS_PENDING (take n (drop i (patches s)))),
        MkWorld s tr c).
Proof.
  revert i acc. induction n as [|n IH]; intros i acc Hl Ha; cbn [pending_loop].
  { rewrite take_0. unfold mret, M_ret. cbn. rewrite app_nil_r, take_ge by lia. done. }
  destruct (Z.ltb_spec (Z.of_nat (List.length acc)) max).
  2:{ unfold mret, M_ret. rewrite take_app_ge by lia.
      replace (Z.to_nat max - List.length acc)%nat with 0%nat by lia.
      by rewrite take_0, app_nil_r. }
  destruct (lookup_lt_is_Some_2 (patches s) i) as [p Hp]; [lia|].
  rewrite (take_drop_S _ _ _ _ Hp), (bind_run _ _ _ _ _ (get_patch_run s i p tr c Hp)).
  unfold with_status. destruct (decide (status p = E9_PATCH_STATUS_PENDING)).
  - rewrite IH, filter_cons_True; [|done|lia|rewrite length_app; cbn; lia].
    by rewrite <- app_assoc.
  - by rewrite IH, filter_cons_False by (done || lia).
Qed.

(** The queries read the patch table: the two counts are the numbers of pending and of
    applied patches, and the list of pending patches is the first [max_patches] of them, in
    table order.  They change nothing. *)
Theorem lr_queries_exact s tr c max :
  (Z.to_nat (num_patches s) <= List.length (patches s))%nat →
  let w := MkWorld s tr c in
  e9_livereload_pending_count w =
    Some (Z.of_nat (List.length (with_status E9_PATCH_STATUS_PENDING (used s))), w) ∧
  e9_livereload_applied_count w =
    Some (Z.of_nat (List.length (with_status E9_PATCH_STATUS_APPLIED (used s))), w) ∧
  e9_livereload_get_pending max w =
    Some (take (Z.to_nat max) (with_status E9_PATCH_STATUS_PENDING (used s)), w).
Proof.
  intros Hl. cbn zeta.
  unfold e9_livereload_pending_count, e9_livereload_applied_count, e9_livereload_get_pending.
  rewrite !(bind_run _ _ _ _ _ eq_refl). cbn [g_state].
  rewrite !count_loop_run, pending_loop_run by (cbn; lia). rewrite drop_0. done.
Qed.

(** The old bytes of a raw patch are copied before the bounds of the target are checked:
    a patch whose target starts inside and ends outside the image, or starts past it, reads
    outside the mapping. *)
Theorem lr_apply_patch_reads_unchecked s d type addr patch n tr c :
  ready s d → 0 <= num_patches s < MAX_PATCHES →
  let off := resolve (ape_info s) type addr in
  0 <= off → target_size s < off + n → env_malloc c = true →
  e9_livereload_apply_patch type addr patch n (MkWorld s tr c) = None.
Proof.
  intros Hr Hn off Ho Hb Ha. pose proof Hr as (_ & _ & Hd & _).
  assert (wp True (e9_livereload_apply_patch type addr patch n) (λ _ _, False) (MkWorld s tr c))
    as Hwp.
  { apply apply_patch_run with (d := d); try done; fold off; [lia|].
    intros _ old new t c' Hco. rewrite Ha in Hco. destruct Hco as (? & b & [= <-] & Hrd & _).
    apply rdn_Some in Hrd. lia. }
  unfold wp in Hwp. by destruct (e9_livereload_apply_patch _ _ _ _ _) as [[??]|].
Qed.

End proofs.

(** ** What an operation keeps

    [I] is a property of the state and the trace that ignores error texts,
    the change counters and the actions that hold no resource. *)

Definition quiet (a : action) : Prop :=
  match a with OpenFd _ | CloseFd _ | Mmap _ | Munmap _ => False | _ => True end.

Record calm (I : LiveReloadState → list action → Prop) : Prop := {
  calm_error s tr m : I s tr → I (set_error_msg m s) tr;
  calm_changes s tr t : I s tr →
    patches_applied t = patches_applied (stats s) → patches_failed t = patches_failed (stats s) →
    patches_reverted t = patches_reverted (stats s) → I (set_stats t s) tr;
  calm_act s tr a : quiet a → I s tr → I s (tr ++ [a]);
  calm_fd s tr fd : I s tr → I s ((tr ++ [OpenFd fd]) ++ [CloseFd fd]) }.

Definition keeps {A} (ub : Prop) (I : LiveReloadState → list action → Prop) (R : A → Prop) (m : M A)
  : Prop :=
  ∀ s tr c, I s tr → wp ub m (λ a w, R a ∧ I (g_state w) (trace w)) (MkWorld s tr c).

Section keeps.
Context `{Env} (ub : Prop) (I : LiveReloadState → list action → Prop) (HI : calm I).

Lemma keeps_bind {A B} (R : A → Prop) (R' : B → Prop) (m : M A) (k : A → M B) :
  keeps ub I R m → (∀ a, R a → keeps ub I R' (k a)) → keeps ub I R' (m ≫= k).
Proof.
  intros Hm Hk s tr c HIs. apply wp_bind. eapply wp_mono; [by apply Hm|].
  intros a [s' tr' c'] [Ha HI']. by apply Hk.
Qed.

Lemma keeps_mono {A} (R R' : A → Prop) m :
  keeps ub I R m → (∀ a, R a → R' a) → keeps ub I R' m.
Proof. intros Hm Hr s tr c HIs. eapply wp_mono; [by apply Hm|]. intros a w []. auto. Qed.

Lemma keeps_ret {A} (R : A → Prop) a : R a → keeps ub I R (mret a).
Proof. by intros ? s tr c ?. Qed.

Lemma keeps_get {A} (f : LiveReloadState → A) : keeps ub I (λ _, True) (get f).
Proof. by intros s tr c ?. Qed.

Lemma keeps_ask {A} (f : nat → A) : keeps ub I (λ _, True) (ask f).
Proof. by intros s tr c ?. Qed.

Lemma keeps_act a : quiet a → keeps ub I (λ _, True) (act a).
Proof. intros Ha s tr c HIs. split; [done|]. by apply (calm_act I HI). Qed.

Lemma keeps_error m : keeps ub I (λ _, True) (set_error m).
Proof. intros s tr c HIs. split; [done|]. by apply (calm_error I HI). Qed.

Lemma keeps_stats f :
  (∀ t, patches_applied (f t) = patches_applied t ∧ patches_failed (f t) = patches_failed t ∧
        patches_reverted (f t) = patches_reverted t) →
  keeps ub I (λ _, True) (upd_stats f).
Proof.
  intros Hf s tr c HIs. split; [done|]. destruct (Hf (stats s)) as (?&?&?).
  by apply (calm_changes I HI).
Qed.

Lemma calm_callbacks s tr cbs : callbacks cbs → I s tr → I s (tr ++ cbs).
Proof.
  intros Hc. revert tr. induction Hc as [|a l [e ->] _ IH]; intros tr HIs; [by rewrite app_nil_r|].
  change (Callback e :: l) with ([Callback e] ++ l). rewrite app_assoc. apply IH.
  by apply (calm_act I HI).
Qed.

Lemma keeps_dispatch ty file pid func addr size code msg :
  keeps ub I (λ _, True) (dispatch_event ty file pid func addr size code msg).
Proof.
  intros s tr c HIs. apply wp_dispatch. intros. split; [done|]. by apply calm_callbacks.
Qed.
End keeps.

Create HintDb e9_keeps.
#[export] Hint Resolve keeps_get keeps_ask keeps_error keeps_dispatch : e9_keeps.

(** Follows the structure of a program that only does what [calm] allows. *)
Ltac keeps_step :=
  match goal with
  | |- keeps _ _ _ (mbind _ _) => eapply keeps_bind; [solve [eauto with e9_keeps] | intros ? _]
  | |- keeps _ _ _ (mbind _ (act _)) =>
      eapply keeps_bind; [apply keeps_act; first [assumption|exact Logic.I] | intros ? _]
  | |- keeps _ _ _ (mbind _ (upd_stats _)) =>
      eapply keeps_bind; [apply keeps_stats; [done|by intros] | intros ? _]
  | |- keeps _ _ _ (mret _) => apply keeps_ret
  | |- keeps _ _ _ (if ?b then _ else _) => destruct b eqn:?
  | |- keeps _ _ _ (let _ := _ in _) => cbn zeta
  end.

Section file_changes.
Context `{Env} `{Differ} (ub : Prop) (I : LiveReloadState → list action → Prop) (HI : calm I).

Lemma keeps_cache_dir : keeps ub I (λ _, True) ensure_cache_dir.
Proof. unfold ensure_cache_dir. repeat keeps_step; [done|]. by apply keeps_act. Qed.

Lemma keeps_compile a b : keeps ub I (λ r, r = 0 ∨ r = -1) (compile_source a b).
Proof. unfold compile_source. repeat keeps_step; auto. Qed.

Lemma keeps_read_file p : keeps ub I (λ _, True) (read_file p).
Proof.
  intros s tr c HIs. unfold read_file.
  do 3 wp_step; [by wp_step|]. do 4 wp_step.
  assert (I s ((tr ++ [OpenFd a]) ++ [CloseFd a])) by by apply (calm_fd I HI).
  destruct a0; repeat wp_step; done.
Qed.

Lemma keeps_cached a n : keeps ub I (λ _, True) (get_cached_object_path a n).
Proof. unfold get_cached_object_path. by repeat keeps_step. Qed.

Lemma keeps_new a n : keeps ub I (λ _, True) (get_new_object_path a n).
Proof. unfold get_new_object_path. by repeat keeps_step. Qed.


End file_changes.

#[export] Hint Resolve keeps_cache_dir keeps_cached keeps_new : e9_keeps.

Section handle.
Context `{Env} `{Differ} (ub : Prop) (I : LiveReloadState → list action → Prop) (HI : calm I).

(** A file change, given what patch generation and the application loop keep. *)
Lemma keeps_handle (Rg R : Z → Prop) p :
  R 0 → R (-1) → (∀ r, Rg r → R r) →
  (∀ a b c, keeps ub I Rg (generate_patches a b c)) →
  (∀ r, Rg r → 0 < r → keeps ub I R (n ← get num_patches; apply_pending (Z.to_nat n) 0)) →
  keeps ub I R (handle_file_change p).
Proof.
  intros HR0 HR1 HRg Hgen Happ. pose proof (conj Hgen Logic.I) as Hg. clear Hgen.
  unfold handle_file_change. repeat keeps_step.
  eapply keeps_bind; [by apply keeps_compile|intros ret _]. repeat keeps_step; try done.
  destruct Hg as [Hgen _].
  eapply keeps_bind; [apply Hgen|intros num Hnum].
  do 2 keeps_step; [keeps_step; auto|].
  do 2 keeps_step; [apply (Happ num Hnum); lia|keeps_step; auto].
Qed.
End handle.

(** ** Without an object differ *)

(** What a reload leaves alone. *)
Definition same_image (s0 s : LiveReloadState) (_ : list action) : Prop :=
  target_mapped s = target_mapped s0 ∧ patches s = patches s0 ∧ num_patches s = num_patches s0 ∧
  next_patch_id s = next_patch_id s0.

Lemma same_image_calm s0 : calm (same_image s0).
Proof. by split. Qed.

(** With the object differ that is in the tree (a stub that always fails) a reload never
    changes the program: whatever the compiler and the file system answer, it terminates
    without undefined behaviour, returns 0 or -1, and leaves the image and the patch table
    as they were. *)
Theorem lr_reload_stub_no_patch `{Env} p s tr c :
  ∃ r w', @e9_livereload_reload_file _ binaryen_differ p (MkWorld s tr c) = Some (r, w') ∧
    (r = 0 ∨ r = -1) ∧ same_image s (g_state w') (trace w').
Proof.
  assert (wp False (@e9_livereload_reload_file _ binaryen_differ p) (λ r w,
    (r = 0 ∨ r = -1) ∧ same_image s (g_state w) (trace w)) (MkWorld s tr c)) as Hwp.
  2:{ unfold wp in Hwp. destruct (e9_livereload_reload_file _ _) as [[r w]|]; [|done]. eauto. }
  enough (keeps False (same_image s) (λ r, r = 0 ∨ r = -1)
            (@e9_livereload_reload_file _ binaryen_differ p)) as Hk by by apply Hk.
  pose proof (same_image_calm s) as HI. unfold e9_livereload_reload_file.
  repeat keeps_step; [auto|]. apply keeps_handle with (Rg := λ r, r = -1); auto.
  - intros f g d. unfold generate_patches.
    eapply keeps_bind; [by apply keeps_read_file|intros o _].
    eapply keeps_bind; [by apply keeps_read_file|intros n _].
    destruct o, n; cbn [diff_objects binaryen_differ e9_binaryen_diff_objects]; by repeat keeps_step.
  - intros r -> ?. lia.
Qed.

(** ** The invariant *)

Definition count_of (st : E9PatchStatus) (s : LiveReloadState) : Z :=
  Z.of_nat (List.length (with_status st (used s))).

(** A recorded patch: its blocks have the recorded sizes, and a patch that was
    applied lies inside the image. *)
Definition patch_ok (size : Z) (p : InternalPatch) : Prop :=
  patch_sized p ∧ (∀ b, old_bytes p = Some b → blen b = old_size p) ∧ old_size p = new_size p ∧
  (status p = E9_PATCH_STATUS_APPLIED ∨ status p = E9_PATCH_STATUS_REVERTED →
   0 <= file_offset p ∧ file_offset p + new_size p <= size).

(** Descriptors and mappings held according to the trace. *)
Definition opens (z : Z) (a : action) : Z :=
  match a with
  | OpenFd fd => bool_to_Z (fd =? z)
  | CloseFd fd => - bool_to_Z (fd =? z)
  | _ => 0
  end.

Definition maps (z : Z) (a : action) : Z :=
  match a with
  | Mmap size => bool_to_Z (size =? z)
  | Munmap size => - bool_to_Z (size =? z)
  | _ => 0
  end.

Fixpoint net (f : action → Z) (tr : list action) : Z :=
  match tr with [] => 0 | a :: tr' => f a + net f tr' end.

Lemma net_app f tr tr' : net f (tr ++ tr') = net f tr + net f tr'.
Proof. induction tr as [|a tr IH]; cbn [net app]; lia. Qed.

Definition image_ok (s : LiveReloadState) : Prop :=
  match target_mapped s with
  | Some d => initialized s = true ∧ blen d = target_size s ∧ target_size s < 2 ^ 63 ∧ 0 <= target_fd s
  | None => initialized s = false ∧ num_patches s = 0 ∧ watching s = false
  end.

Definition stats_ok (s : LiveReloadState) : Prop :=
  patches_applied (stats s) =
    count_of E9_PATCH_STATUS_APPLIED s + count_of E9_PATCH_STATUS_REVERTED s ∧
  patches_reverted (stats s) = count_of E9_PATCH_STATUS_REVERTED s ∧
  patches_failed (stats s) = count_of E9_PATCH_STATUS_FAILED s.

Definition held_ok (s : LiveReloadState) (tr : list action) : Prop :=
  ∀ z, net (opens z) tr = bool_to_Z (initialized s && (target_fd s =? z)) +
                          bool_to_Z (watching s && (inotify_fd s =? z)) ∧
       net (maps z) tr = bool_to_Z (initialized s && (target_size s =? z)).

Record inv (s : LiveReloadState) (tr : list action) : Prop := {
  inv_len : List.length (patches s) = 256%nat;
  inv_num : 0 <= num_patches s <= MAX_PATCHES;
  inv_ape : offsets_ok (ape_info s);
  inv_image : image_ok s;
  inv_watch : watching s = true → 0 <= inotify_fd s;
  inv_patches : Forall (patch_ok (target_size s)) (used s);
  inv_stats : stats_ok s;
  inv_held : held_ok s tr }.

Lemma quiet_net a z : quiet a → opens z a = 0 ∧ maps z a = 0.
Proof. by destruct a. Qed.

Lemma held_quiet s tr a : quiet a → held_ok s tr → held_ok s (tr ++ [a]).
Proof.
  intros Ha Hh z. destruct (Hh z), (quiet_net a z Ha). rewrite !net_app. cbn [net]. lia.
Qed.

Lemma inv_calm : calm inv.
Proof.
  split.
  - by intros s tr m [].
  - intros s tr t [] Ha Hf Hr. split; try done. unfold stats_ok in *. cbn [stats set_stats].
    by rewrite Ha, Hf, Hr.
  - intros s tr a Ha []. split; try done. by apply held_quiet.
  - intros s tr fd [? ? ? ? ? ? ? Hh]. split; try done. intros z. destruct (Hh z).
    rewrite !net_app. cbn. lia.
Qed.

Lemma inv_callbacks s tr cbs : callbacks cbs → inv s tr → inv s (tr ++ cbs).
Proof. apply calm_callbacks, inv_calm. Qed.

(** A slot that is not in use. *)
Lemma inv_free_slot s tr i p :
  (Z.to_nat (num_patches s) <= i)%nat → inv s tr → inv (in_slot s i p) tr.
Proof.
  intros Hi []. assert (used (in_slot s i p) = used s) as Hu.
  { unfold used. cbn. by rewrite take_insert_ge by lia. }
  split; try done.
  - cbn. by rewrite length_insert.
  - by rewrite Hu.
  - unfold stats_ok, count_of in *. by rewrite Hu.
Qed.

Lemma inv_next_id s tr v : inv s tr → inv (set_next_patch_id v s) tr.
Proof. by intros []. Qed.

Lemma filter_insert (P : InternalPatch → Prop) `{!∀ x, Decision (P x)} l i x y :
  l !! i = Some x →
  Z.of_nat (List.length (filter P (<[i := y]> l))) =
  Z.of_nat (List.length (filter P l)) - bool_to_Z (bool_decide (P x)) + bool_to_Z (bool_decide (P y)).
Proof.
  intros Hx. pose proof (lookup_lt_Some _ _ _ Hx). rewrite insert_take_drop by done.
  rewrite <- (take_drop_middle l i x Hx) at 3. rewrite !filter_app, !length_app, !filter_cons.
  do 2 case_decide; cbn [List.length bool_to_Z];
    rewrite ?(bool_decide_true (P x)), ?(bool_decide_false (P x)), ?(bool_decide_true (P y)),
      ?(bool_decide_false (P y)) by done; cbn [bool_to_Z]; lia.
Qed.

(** One more patch in use. *)
Lemma inv_take_slot s tr p :
  num_patches s < MAX_PATCHES → patches s !! Z.to_nat (num_patches s) = Some p →
  patch_ok (target_size s) p → status p = E9_PATCH_STATUS_PENDING → is_Some (target_mapped s) →
  inv s tr → inv (set_num_patches (num_patches s + 1) s) tr.
Proof.
  intros Hn Hp Hok Hst [d Hm] []. assert (used (set_num_patches (num_patches s + 1) s) = used s ++ [p])
    as Hu.
  { unfold used. cbn. replace (Z.to_nat (num_patches s + 1)) with (S (Z.to_nat (num_patches s))) by lia.
    by apply take_S_r. }
  split; try done.
  - cbn. lia.
  - unfold image_ok in *. cbn [target_mapped set_num_patches] in *. by rewrite Hm in *.
  - rewrite Hu. apply Forall_app. split; [done|]. by apply Forall_singleton.
  - unfold stats_ok, count_of, with_status in *. rewrite Hu, !filter_app, !length_app, !filter_cons, Hst.
    cbn [stats set_num_patches decide]. rewrite !decide_False by done. cbn [List.length filter list_filter].
    lia.
Qed.

(** Another status for a patch in use, with the counters. *)
Definition moves (st st' : E9PatchStatus) (t t' : E9LiveReloadStats) : Prop :=
  let one st'' := bool_to_Z (bool_decide (st' = st'')) - bool_to_Z (bool_decide (st = st'')) in
  patches_applied t' = patches_applied t + one E9_PATCH_STATUS_APPLIED + one E9_PATCH_STATUS_REVERTED ∧
  patches_reverted t' = patches_reverted t + one E9_PATCH_STATUS_REVERTED ∧
  patches_failed t' = patches_failed t + one E9_PATCH_STATUS_FAILED.

Lemma inv_replace s tr i p p' d d' t :
  patches s !! i = Some p → (i < Z.to_nat (num_patches s))%nat → patch_ok (target_size s) p' →
  target_mapped s = Some d → blen d' = blen d → moves (status p) (status p') (stats s) t →
  inv s tr → inv (in_slot (s |> set_target_mapped (Some d') |> set_stats t) i p') tr.
Proof.
  intros Hp Hi Hok Hm Hd Hmv []. set (s' := in_slot _ _ _).
  assert (used s' = <[i := p']> (used s)) as Hu by (unfold used; cbn; by rewrite take_insert_lt).
  assert (used s !! i = Some p) as Hui by (unfold used; by rewrite lookup_take_lt).
  split; try done.
  - cbn. by rewrite length_insert.
  - unfold image_ok in *. cbn. rewrite Hm, <- Hd in *. done.
  - rewrite Hu. by apply Forall_insert.
  - unfold stats_ok, count_of, with_status in *. rewrite Hu. destruct Hmv as (M1 & M2 & M3).
    change (stats s') with t. rewrite !(filter_insert _ _ _ _ _ Hui), M1, M2, M3. lia.
Qed.

Lemma count_bound st s tr : inv s tr → 0 <= count_of st s <= 256.
Proof.
  intros [Hl _ _ _ _ _ _ _]. unfold count_of, with_status, used.
  pose proof (length_filter (λ p, status p = st) (take (Z.to_nat (num_patches s)) (patches s))) as Hf.
  rewrite length_take in Hf. lia.
Qed.

Ltac moves_tac Hst :=
  unfold moves; cbn; rewrite Hst, wrapu_small by lia;
  repeat case_bool_decide; try congruence; cbn; lia.

Section operations.
Context `{Env} `{Differ}.

(** Applying a pending patch keeps the invariant, with or without success. *)
Lemma inv_apply_internal ub s tr c i p :
  inv s tr → patches s !! i = Some p → (i < Z.to_nat (num_patches s))%nat →
  status p = E9_PATCH_STATUS_PENDING →
  wp ub (apply_patch_internal i)
     (λ _ w, inv (g_state w) (trace w) ∧ num_patches (g_state w) = num_patches s ∧
             initialized (g_state w) = initialized s) (MkWorld s tr c).
Proof.
  intros Hinv Hp Hi Hst. pose proof Hinv as [Hlen Hn Hape Him _ Hps [Hs1 [Hs2 Hs3]] _].
  unfold image_ok in Him. destruct (target_mapped s) as [d|] eqn:Hm; [|lia].
  destruct Him as (_&Hd&Hsz&_).
  assert (patch_ok (target_size s) p) as Hok.
  { eapply Forall_lookup_1; [exact Hps|]. unfold used. rewrite lookup_take_lt by done. exact Hp. }
  pose proof (λ st, count_bound st s tr Hinv) as Hc.
  pose proof (Hc E9_PATCH_STATUS_APPLIED). pose proof (Hc E9_PATCH_STATUS_REVERTED).
  pose proof (Hc E9_PATCH_STATUS_FAILED).
  rewrite <- (in_slot_id s i p Hp) at 1. destruct Hok as (Hsized & Hold & Hsame & Hin).
  apply apply_internal_spec with (d := d); try done.
  - rewrite Hlen. unfold MAX_PATCHES in *. lia.
  - intros b d' cbs now c' (A1&A2&A3&A4) Hb Hw Hcb. cbn [g_state trace]. split; [|done].
    change (FlushIcache ?o ?n :: cbs) with ([FlushIcache o n] ++ cbs). rewrite app_assoc.
    apply inv_callbacks; [done|]. apply (calm_act _ inv_calm); [done|]. unfold applied_state.
    pose proof (wrn_len _ _ _ _ Hw). eapply (inv_replace s _ i p _ d d'); try done.
    moves_tac Hst.
  - intros msg cbs c' _ Hcb. cbn [g_state trace]. split; [|done]. apply inv_callbacks; [done|].
    replace (failed_state s) with (s |> set_target_mapped (Some d)
      |> set_stats (set_patches_failed (u64 (patches_failed (stats s) + 1)) (stats s)))
      by (rewrite <- Hm; by destruct s).
    eapply (inv_replace s _ i p _ d d); try done.
    + split; [done|]. split; [done|]. split; [done|]. intros [?|?]; done.
    + moves_tac Hst.
Qed.

Lemma inv_apply_pending ub n i s tr c :
  inv s tr → (i + n <= Z.to_nat (num_patches s))%nat →
  wp ub (apply_pending n i) (λ _ w, inv (g_state w) (trace w) ∧
    initialized (g_state w) = initialized s) (MkWorld s tr c).
Proof.
  revert i s tr c. induction n as [|n IH]; intros i s tr c Hinv Hi; cbn [apply_pending]; [done|].
  pose proof (inv_len _ _ Hinv) as Hl. pose proof (inv_num _ _ Hinv) as Hn. unfold MAX_PATCHES in Hn.
  destruct (lookup_lt_is_Some_2 (patches s) i) as [p Hp]; [lia|].
  wp_step. eapply wp_get_patch; [exact Hp|]. wp_step. destruct (decide _) as [Hst|Hst].
  - wp_step. eapply wp_mono; [apply inv_apply_internal with (p := p); try done; lia|].
    intros r [s' tr' c'] (Hinv' & Hnum & Hinit). cbn [g_state trace] in *. do 2 wp_step. rewrite <- Hinit.
    eapply wp_mono; [apply IH; [done|lia]|]. intros k w Hw. by wp_step.
  - do 2 wp_step. eapply wp_mono; [apply IH; [done|lia]|]. intros k w Hw. by wp_step.
Qed.

(** The patches of the differ have blocks of the stated size. *)
Definition diff_patch_ok (bp : E9BinaryenPatch) : Prop :=
  0 <= bp_size bp < 2 ^ 63 ∧ blen (bp_old_bytes bp) = bp_size bp ∧ blen (bp_new_bytes bp) = bp_size bp.

Definition differ_ok : Prop := ∀ o n, Forall diff_patch_ok (snd (diff_objects o n)).

Lemma resolve_range ape type addr :
  offsets_ok ape → resolve ape type addr < 2 ^ 63.
Proof.
  intros Ha. pose proof (λ z, rva_to_offset_range ape (u32 z) Ha (wrapu_range 32 z ltac:(lia))) as Hr.
  pose proof (wraps_range 64 addr ltac:(lia)). unfold resolve.
  pose proof (Hr addr). pose proof (Hr (addr - 0x400000)). repeat case_match; lia.
Qed.

(** A new pending patch in the next slot. *)
Lemma inv_new_patch s tr p v :
  inv s tr → num_patches s < MAX_PATCHES → is_Some (target_mapped s) →
  patch_ok (target_size s) p → status p = E9_PATCH_STATUS_PENDING →
  inv (in_slot (s |> set_next_patch_id v |> set_num_patches (num_patches s + 1))
               (Z.to_nat (num_patches s)) p) tr.
Proof.
  intros Hinv Hn Hm Hok Hst. pose proof (inv_len _ _ Hinv). pose proof (inv_num _ _ Hinv).
  apply (inv_take_slot (in_slot (set_next_patch_id v s) (Z.to_nat (num_patches s)) p) tr p); try done.
  - cbn. apply list_lookup_insert_eq. unfold MAX_PATCHES in *. lia.
  - by apply inv_free_slot, inv_next_id.
Qed.

Lemma inv_convert_patch ub src bp s tr c :
  inv s tr → num_patches s < MAX_PATCHES → is_Some (target_mapped s) → diff_patch_ok bp →
  wp ub (convert_patch src bp) (λ _ w, inv (g_state w) (trace w) ∧
    initialized (g_state w) = initialized s) (MkWorld s tr c).
Proof.
  intros Hinv Hn Hm (Hb1 & Hb2 & Hb3). pose proof (inv_len _ _ Hinv). pose proof (inv_num _ _ Hinv).
  unfold convert_patch. do 2 wp_step. set (i := Z.to_nat (num_patches s)).
  assert (i < List.length (patches s))%nat by (unfold i, MAX_PATCHES in *; lia).
  wp_step. apply wp_upd_first; [done|]. intros _. do 9 wp_step.
  assert (∀ q v, inv (in_slot (set_next_patch_id v s) i q) tr) as Hfree.
  { intros q v. by apply inv_free_slot, inv_next_id. }
  eapply (wp_mono ub _ (λ _ w, ∃ q, w = MkWorld (in_slot (set_next_patch_id _ s) i q) tr c)).
  { destruct (bp_function bp); repeat wp_step; eauto. }
  intros _ w [q ->]. do 9 wp_step; [wp_step; split; [apply Hfree|done]|].
  do 9 wp_step; [wp_step; split; [apply Hfree|done]|].
  pose proof (rva_to_offset_range (ape_info s) (u32 (bp_address bp)) (inv_ape _ _ Hinv)
    (wrapu_range 32 _ ltac:(lia))) as Hr.
  wp_step. apply wp_lift.
  2:{ intros Hn1. destruct (rdn_is_Some (bp_old_bytes bp) 0 (bp_size bp)); [lia..|congruence]. }
  intros old Hold. do 3 wp_step. apply wp_lift.
  2:{ intros Hn1. destruct (rdn_is_Some (bp_new_bytes bp) 0 (bp_size bp)); [lia..|congruence]. }
  intros new Hnew. do 10 wp_step.
  pose proof (rdn_len _ _ _ _ Hold). pose proof (rdn_len _ _ _ _ Hnew).
  match goal with |- wp _ _ _ (MkWorld (in_slot _ _ ?p) _ _) => set (bpatch := p) end.
  assert (inv (in_slot (s |> set_next_patch_id (u32 (next_patch_id s + 1))
                          |> set_num_patches (num_patches s + 1)) i bpatch) tr) as Hnew'.
  { apply inv_new_patch; try done. split; [split|split; [|split]].
    - change (e9_ape_rva_to_offset (Some (ape_info s)) (u32 (bp_address bp)) < 2 ^ 63). lia.
    - intros ? [= <-]. split; [done|apply Hb1].
    - intros ? [= <-]. done.
    - done.
    - by intros [?|?]. }
  do 6 wp_step. apply wp_dispatch. intros cbs c' Hcb _. wp_step. cbn [g_state trace].
  split; [|done]. apply inv_callbacks; [done|].
  apply (calm_changes _ inv_calm _ tr (set_patches_generated _ (stats s)) Hnew'); done.
Qed.

(** The invariant of an initialised system. *)
Definition running (s : LiveReloadState) (tr : list action) : Prop :=
  inv s tr ∧ initialized s = true.

Lemma running_calm : calm running.
Proof.
  destruct inv_calm as [H1 H2 H3 H4]. split; unfold running; intros; destruct_and?; split; auto.
Qed.

Lemma running_mapped s tr : running s tr → is_Some (target_mapped s).
Proof.
  intros [[_ _ _ Him _ _ _ _] Hinit]. unfold image_ok in Him.
  destruct (target_mapped s); [by eexists|]. destruct Him. congruence.
Qed.

Lemma running_generate ub a b d :
  differ_ok → keeps ub running (λ _, True) (generate_patches a b d).
Proof.
  intros Hdiff. pose proof running_calm as HI. unfold generate_patches.
  eapply keeps_bind; [by apply keeps_read_file|intros o _].
  eapply keeps_bind; [by apply keeps_read_file|intros n _].
  destruct o as [o|], n as [n|]; try by repeat keeps_step.
  pose proof (Hdiff o n) as Hbps. destruct (diff_objects o n) as [ret bps]. cbn [snd] in Hbps.
  destruct (negb (ret =? 0)); [by repeat keeps_step|].
  induction Hbps as [|bp bps Hbp _ IH]; cbn [convert_patches]; [by repeat keeps_step|].
  intros s tr c Hrun. do 3 wp_step.
  - apply (keeps_bind ub running (λ _, True)); [by apply keeps_error|by intros; apply keeps_ret|done].
  - wp_step. destruct Hrun as [Hinv Hinit].
    eapply wp_mono; [apply inv_convert_patch; try done; [lia|by eapply running_mapped]|].
    intros made [s' tr' c'] [Hinv' Hinit']. cbn [g_state trace] in *.
    apply (keeps_bind ub running (λ _, True)); [done|by intros; apply keeps_ret|].
    split; [done|congruence].
Qed.

Lemma running_handle ub p : differ_ok → keeps ub running (λ _, True) (handle_file_change p).
Proof.
  intros Hdiff. apply keeps_handle with (Rg := λ _, True); try done; [apply running_calm| |].
  - intros. by apply running_generate.
  - intros _ _ _ s tr c [Hinv Hinit]. do 2 wp_step.
    eapply wp_mono; [apply inv_apply_pending; [done|lia]|].
    intros r w [? ?]. split; [done|]. split; [done|congruence].
Qed.

Lemma running_poll buf fuel off :
  differ_ok → keeps True running (λ _, True) (poll_events fuel buf off).
Proof.
  intros Hdiff. pose proof running_calm as HI. revert off.
  induction fuel as [|f IH]; intros off; cbn [poll_events]; destruct (_ <? _); try by apply keeps_ret.
  { by intros s tr c _. }
  assert (∀ A (o : option A), keeps True running (λ _, True) (lift o)) as Hlift.
  { intros A o s tr c Hr. apply wp_lift; [|done]. by intros. }
  eapply keeps_bind; [apply Hlift|intros len _].
  eapply (keeps_bind _ _ (λ _, True)); [|intros n _; eapply keeps_bind; [apply IH|by intros; apply keeps_ret]].
  destruct (0 <? len); [|by apply keeps_ret]. eapply keeps_bind; [apply Hlift|intros name _].
  destruct (is_source name); [|by apply keeps_ret]. keeps_step.
  eapply keeps_bind; [by apply running_handle|by intros; apply keeps_ret].
Qed.

Lemma inv_apply_patch type addr patch n s tr c :
  inv s tr → (∀ b, patch = Some b → blen b < 2 ^ 63) →
  wp True (e9_livereload_apply_patch type addr patch n) (λ _ w, inv (g_state w) (trace w))
     (MkWorld s tr c).
Proof.
  intros Hinv Hb. pose proof inv_calm as HI.
  destruct (decide (num_patches s < MAX_PATCHES ∧ initialized s = true)) as [[Hn Hinit]|Hno].
  - destruct (running_mapped s tr (conj Hinv Hinit)) as [d Hm].
    pose proof Hinv as [Hlen Hnum Hape Him _ _ _ _]. unfold image_ok in Him. rewrite Hm in Him.
    destruct Him as (_&Hd&Hsz&_). pose proof (resolve_range (ape_info s) type addr Hape) as Hr.
    apply apply_patch_run with (d := d); try done.
    + lia.
    + intros _ p msg. cbn [g_state trace]. apply inv_free_slot; [done|].
      apply (calm_error _ inv_calm). by apply inv_next_id.
    + intros Ho old new t c' Hco Hcn. wp_step.
      set (i := Z.to_nat (num_patches s)) in *. set (p := raw_patch _ _ _ _ _ _ _ _).
      assert (inv (in_slot (taken s) i p) tr) as Hp.
      { apply inv_new_patch; try done. split; [split|split; [|split]].
        - exact Hr.
        - intros b Hnb. cbn in Hnb. subst new. unfold copied in Hcn.
          destruct (env_malloc (S c)); [|done]. destruct Hcn as (pb & b' & -> & Hrd & [= ->]).
          pose proof (Hb pb eq_refl). apply rdn_Some in Hrd as Hrd'.
          pose proof (rdn_len _ _ _ _ Hrd). cbn. lia.
        - intros b Hob. cbn in Hob. subst old. unfold copied in Hco.
          destruct (env_malloc c); [|done]. destruct Hco as (pb & b' & _ & Hrd & [= ->]).
          by apply rdn_len in Hrd.
        - done.
        - by intros [?|?]. }
      eapply wp_mono; [eapply inv_apply_internal with (p := p); try done|].
      * apply slot_lookup. cbn. unfold i, MAX_PATCHES in *. lia.
      * cbn. unfold i. lia.
      * intros r [s' tr' c2] (Hinv' & _ & _). cbn [g_state trace] in *. wp_step; [by wp_step|].
        wp_step. unfold get_patch. do 2 wp_step. apply wp_lift; [|done]. intros q _. by wp_step.
  - unfold e9_livereload_apply_patch, e9_livereload_is_ready. do 6 wp_step.
    destruct (initialized s && _) eqn:E; cbn [negb].
    + apply andb_true_iff in E as [? _].
      do 3 wp_step; [|exfalso; apply Hno; split; [lia|done]].
      unfold set_error. repeat wp_step. by apply (calm_error _ inv_calm).
    + unfold set_error. repeat wp_step. by apply (calm_error _ inv_calm).
Qed.

Lemma inv_revert pid s tr c :
  inv s tr →
  wp False (e9_livereload_revert_patch pid) (λ _ w, inv (g_state w) (trace w)) (MkWorld s tr c).
Proof.
  intros Hinv. unfold e9_livereload_revert_patch, e9_livereload_is_ready. do 6 wp_step.
  destruct (initialized s && _) eqn:E; cbn [negb]; [|by wp_step].
  apply andb_true_iff in E as [_ [d Hm]%bool_decide_eq_true]. do 2 wp_step.
  pose proof Hinv as [Hlen Hn _ Him _ Hps [Hs1 [Hs2 Hs3]] _].
  unfold image_ok, MAX_PATCHES in *. rewrite Hm in Him. destruct Him as (_&Hd&Hsz&_).
  assert (∀ k p old, (0 <= k < 0 + Z.to_nat (num_patches s))%nat → revertible s pid k p old →
    patch_ok (target_size s) p ∧ rdn old 0 (old_size p) = Some old ∧
    0 <= file_offset p ∧ file_offset p + blen old <= blen d) as Hp.
  { intros k p old Hk (Hkp&_&Hst&Hold). assert (patch_ok (target_size s) p) as Hok.
    { apply (Forall_lookup_1 _ _ k p Hps). unfold used. by rewrite lookup_take_lt by lia. }
    pose proof Hok as (Hz&Ho&Hsame&Hin). specialize (Ho old Hold). destruct (Hin (or_introl Hst)).
    pose proof (blen_nonneg old).     split; [done|]. rewrite <- Ho.
    split; [apply rdn_ext; [lia|lia|done]|]. rewrite Ho, Hsame, Hd. lia. }
  pose proof (λ st, count_bound st s tr Hinv) as Hc.
  pose proof (Hc E9_PATCH_STATUS_REVERTED).
  apply revert_scan_cases with (d := d); [done|lia| | |].
  - intros k p old raw d' cbs c' Hk Hr Hraw Hw Hcb. cbn [g_state trace].
    destruct (Hp k p old Hk Hr) as ((Hz&Ho&Hsame&Hin)&_). destruct Hr as (Hkp&_&Hst&Hold).
    change (FlushIcache ?o ?n :: cbs) with ([FlushIcache o n] ++ cbs). rewrite app_assoc.
    apply inv_callbacks; [done|]. apply (calm_act _ inv_calm); [done|]. unfold reverted_state.
    pose proof (wrn_len _ _ _ _ Hw). eapply (inv_replace s _ k p _ d d'); try done; [lia| |].
    + split; [done|]. split; [done|]. split; [done|]. intros _. by apply Hin; left.
    + moves_tac Hst.
  - intros msg _. by apply (calm_error _ inv_calm).
  - intros k p old Hk Hr Hnone. destruct (Hp k p old Hk Hr) as (_&Hraw&Ho1&Ho2).
    rewrite Hraw in Hnone. cbn in Hnone. destruct (wrn_is_Some d (file_offset p) old) as [d' Hw];
      [done|done|congruence].
Qed.

Lemma inv_unwatch ub s tr c :
  inv s tr →
  wp ub e9_livereload_unwatch (λ _ w, inv (g_state w) (trace w) ∧ watching (g_state w) = false ∧
    initialized (g_state w) = initialized s) (MkWorld s tr c).
Proof.
  intros Hinv. pose proof Hinv as [Hlen Hn Hape Him Hw Hps Hst Hh].
  unfold e9_livereload_unwatch. do 3 wp_step.
  { wp_step. destruct (watching s) eqn:E; [done|]. auto. }
  destruct (watching s) eqn:E; [|done]. specialize (Hw eq_refl).
  assert (∀ w wd tr', w = set_watching false (set_inotify_fd (-1) (set_watch_fd wd s)) →
    (∀ z, net (opens z) tr' = net (opens z) tr - bool_to_Z (inotify_fd s =? z) ∧
          net (maps z) tr' = net (maps z) tr) → inv w tr') as Hfin.
  { intros w wd tr' -> Ht. split; try done.
    - unfold image_ok in *. cbn. destruct (target_mapped s); [done|]. destruct Him as (?&?&?). done.
    - intros z. destruct (Hh z) as [H1 H2], (Ht z) as [H3 H4]. cbn.
      rewrite H3, H4, H1, H2, E. cbn. lia. }
  unfold cleanup_inotify. do 7 wp_step.
  - do 3 wp_step. apply wp_when; intros Hif; [|lia]. do 4 wp_step. cbn [g_state trace].
    split; [|done]. eapply Hfin; [done|]. intros z. rewrite !net_app. cbn. lia.
  - apply wp_when; intros Hif; [|lia]. do 4 wp_step. cbn [g_state trace].
    split; [|done]. eapply (Hfin _ (watch_fd s)); [by destruct s|]. intros z. rewrite !net_app. cbn. lia.
Qed.

(** ** Lifecycle *)

(** No descriptor and no mapping is held. *)
Definition free_trace (tr : list action) : Prop :=
  ∀ z, net (opens z) tr = 0 ∧ net (maps z) tr = 0.

(** A state in which [e9_livereload_init] has not finished. *)
Definition booting (s : LiveReloadState) : Prop :=
  initialized s = false ∧ watching s = false ∧ num_patches s = 0 ∧
  List.length (patches s) = 256%nat ∧ offsets_ok (ape_info s) ∧ stats s = zero_stats.

Lemma booting_counts s st : num_patches s = 0 → count_of st s = 0.
Proof. intros Hn. unfold count_of, used. by rewrite Hn. Qed.

Lemma booting_inv s tr : booting s → target_mapped s = None → free_trace tr → inv s tr.
Proof.
  intros (Hi & Hw & Hn & Hl & Ha & Hs) Hm Hf. split; try done.
  - rewrite Hn. unfold MAX_PATCHES. lia.
  - unfold image_ok. by rewrite Hm.
  - congruence.
  - unfold used. rewrite Hn. constructor.
  - unfold stats_ok. by rewrite Hs, !booting_counts.
  - intros z. destruct (Hf z). by rewrite Hi, Hw.
Qed.

Lemma booting_ready s tr d :
  booting s → target_mapped s = Some d → blen d = target_size s → target_size s < 2 ^ 63 →
  0 <= target_fd s →
  (∀ z, net (opens z) tr = bool_to_Z (target_fd s =? z) ∧
        net (maps z) tr = bool_to_Z (target_size s =? z)) →
  inv (set_initialized true s) tr.
Proof.
  intros (Hi & Hw & Hn & Hl & Ha & Hs) Hm Hd Hsz Hfd Hf. split; try done.
  - cbn. rewrite Hn. unfold MAX_PATCHES. lia.
  - unfold image_ok. cbn. by rewrite Hm.
  - cbn. congruence.
  - unfold used. cbn. rewrite Hn. constructor.
  - unfold stats_ok. cbn. by rewrite Hs, !booting_counts.
  - intros z. destruct (Hf z). cbn. rewrite Hw. cbn. lia.
Qed.

Lemma booting_zero : booting zero_state.
Proof. repeat split; try done; cbn; lia. Qed.

Lemma inv_free s tr : inv s tr → initialized s = false → free_trace tr.
Proof.
  intros [_ _ _ Him _ _ _ Hh] Hi z. destruct (Hh z) as [H1 H2]. unfold image_ok in Him.
  destruct (target_mapped s); [destruct Him; congruence|]. destruct Him as (_&_&Hw).
  rewrite Hi, Hw in *. cbn in *. lia.
Qed.

(** What the kernel promises: a mapping has the size asked for, and holds bytes. *)
Definition mmap_ok : Prop :=
  ∀ n size d, env_mmap n size = Some d → blen d = size ∧ bytes_ok d ∧ size < 2 ^ 63.

Lemma free_close tr fd : free_trace tr → free_trace ((tr ++ [OpenFd fd]) ++ [CloseFd fd]).
Proof. intros Hf z. destruct (Hf z). rewrite !net_app. cbn. lia. Qed.

Lemma inv_init path cfg s tr c :
  mmap_ok → inv s tr →
  wp True (e9_livereload_init path cfg) (λ _ w, inv (g_state w) (trace w)) (MkWorld s tr c).
Proof.
  intros Hmm Hinv. unfold e9_livereload_init. do 3 wp_step.
  { unfold set_error. repeat wp_step. by apply (calm_error _ inv_calm). }
  pose proof (inv_free _ _ Hinv Heqb) as Hf. do 11 wp_step.
  eapply (wp_mono _ _ (λ _ w, ∃ c', w = MkWorld _ tr c')).
  { destruct path; repeat wp_step; by eexists. }
  intros target w [c' ->].
  match goal with |- wp _ _ _ (MkWorld ?s0 _ _) => set (s1 := s0) end.
  assert (booting s1 ∧ target_mapped s1 = None) as [Hb Hm].
  { split; [|done]. apply booting_zero. }
  clearbody s1. clear s Hinv Heqb.
  destruct target as [[p self]|].
  2:{ unfold set_error. repeat wp_step. by apply booting_inv. }
  do 9 wp_step.
  { unfold set_error. repeat wp_step. by apply booting_inv. }
  do 3 wp_step. apply wp_ask. intros st _. destruct st as [size|].
  2:{ unfold set_error. repeat wp_step. apply booting_inv; [done|done|by apply free_close]. }
  do 3 wp_step. apply wp_ask. intros m Hmap. destruct m as [d|].
  2:{ unfold set_error. repeat wp_step. apply booting_inv; [done|done|by apply free_close]. }
  destruct (Hmm _ _ _ (eq_sym Hmap)) as (Hd & Hbytes & Hsz). do 7 wp_step.
  apply wp_lift; [|done]. intros [ret ape] Hparse. cbn beta iota.
  assert (offsets_ok (default zero_info ape)) as Hape.
  { destruct ape as [i|]; [|apply booting_zero]. destruct Hb as (_&_&_&_&Ha&_).
    eapply parse_offsets; [exact Hbytes| |exact Hparse]. exact Ha. }
  destruct Hb as (?&?&?&?&_&?). do 3 wp_step.
  - unfold set_error. repeat wp_step. cbn [g_state trace]. apply booting_inv; [done|done|].
    intros z. destruct (Hf z). rewrite !net_app. cbn. lia.
  - repeat wp_step; cbn [g_state trace]; (eapply booting_ready; try done; [cbn; lia|]);
      intros z; destruct (Hf z); rewrite !net_app; cbn; lia.
Qed.

Lemma inv_shutdown s tr c :
  inv s tr → wp False e9_livereload_shutdown (λ _ w, inv (g_state w) (trace w) ∧
    initialized (g_state w) = false) (MkWorld s tr c).
Proof.
  intros Hinv. unfold e9_livereload_shutdown. do 3 wp_step.
  { wp_step. split; [done|]. by apply negb_true_iff. }
  wp_step. eapply wp_mono; [by apply inv_unwatch|]. intros _ [s' tr' c'] (Hinv' & Hw & Hi).
  cbn [g_state trace] in *. destruct (initialized s); [|done].
  pose proof Hinv' as [_ _ _ Him _ _ _ Hh]. unfold image_ok in Him.
  destruct (target_mapped s') as [d|] eqn:Hm; [|destruct Him; congruence].
  destruct Him as (_&_&_&Hfd). do 5 wp_step. rewrite Hm, bool_decide_true by by eexists. cbn [when].
  do 7 wp_step; [|cbn in *; lia]. repeat wp_step. split; [|done].
  apply booting_inv; [apply booting_zero|done|]. intros z. destruct (Hh z) as [N1 N2].
  rewrite Hi, Hw in *. cbn [g_state trace]. rewrite !net_app. cbn in *. lia.
Qed.

Lemma inv_watch_start s tr c :
  inv s tr → wp False e9_livereload_watch (λ _ w, inv (g_state w) (trace w)) (MkWorld s tr c).
Proof.
  intros Hinv. unfold e9_livereload_watch. do 3 wp_step.
  { unfold set_error. repeat wp_step. by apply (calm_error _ inv_calm). }
  do 3 wp_step; [by wp_step|]. pose proof Hinv as [Hlen Hn Hape Him Hwf Hps Hst Hh].
  assert (∀ t fd wd er tr', t = set_error_msg er (set_inotify_fd fd (set_watch_fd wd s)) →
    (∀ z, net (opens z) tr' = net (opens z) tr ∧ net (maps z) tr' = net (maps z) tr) → inv t tr')
    as Hfail.
  { intros t fd wd er tr' -> Ht. split; try done; [cbn; by rewrite Heqb0|].
    intros z. destruct (Hh z) as [N1 N2], (Ht z) as [N3 N4]. cbn. rewrite Heqb0 in *.
    cbn in *. lia. }
  unfold init_inotify, set_error. do 6 wp_step.
  { repeat wp_step; [|done]. cbn [g_state trace]. eapply (Hfail _ a (watch_fd s)); [by destruct s|done]. }
  do 7 wp_step.
  { repeat wp_step; [|done]. cbn [g_state trace]. eapply Hfail; [done|]. intros z. rewrite !net_app. cbn. lia. }
  repeat wp_step; [done|]. cbn [g_state trace]. split; try done.
  - unfold image_ok in *. cbn. destruct (target_mapped s); [done|].
    destruct Him as [Hi _]. by rewrite Hi in Heqb.
  - cbn. lia.
  - intros z. destruct (Hh z) as [N1 N2]. cbn. rewrite !net_app, Heqb0 in *. cbn in *. lia.
Qed.

(** ** Reachable states *)

(** The calls a program can make. *)
Inductive api :=
  | Init (path : option string) (cfg : option E9LiveReloadConfig)
  | Shutdown | Watch | Unwatch | Poll
  | SetCallback (on : bool) | ClearError
  | Reload (path : string)
  | ApplyPatch (type : E9PatchTargetType) (address : Z) (patch : option bytes) (size : Z)
  | RevertPatch (pid : Z).

Definition run (a : api) : M Z :=
  match a with
  | Init path cfg => e9_livereload_init path cfg
  | Shutdown => _ ← e9_livereload_shutdown; mret 0
  | Watch => e9_livereload_watch
  | Unwatch => _ ← e9_livereload_unwatch; mret 0
  | Poll => e9_livereload_poll
  | SetCallback on => _ ← e9_livereload_set_callback on; mret 0
  | ClearError => _ ← e9_livereload_clear_error; mret 0
  | Reload path => e9_livereload_reload_file path
  | ApplyPatch type address patch size => e9_livereload_apply_patch type address patch size
  | RevertPatch pid => e9_livereload_revert_patch pid
  end.

(** The caller's blocks are objects in memory. *)
Definition api_ok (a : api) : Prop :=
  match a with ApplyPatch _ _ (Some b) _ => blen b < 2 ^ 63 | _ => True end.

Inductive reachable : World → Prop :=
  | reach_start c : reachable (MkWorld zero_state [] c)
  | reach_step w a r w' : reachable w → api_ok a → run a w = Some (r, w') → reachable w'.

Lemma inv_run a s tr c :
  mmap_ok → differ_ok → api_ok a → inv s tr →
  wp True (run a) (λ _ w, inv (g_state w) (trace w)) (MkWorld s tr c).
Proof.
  intros Hm Hd Ha Hinv. pose proof inv_calm as HI. destruct a; cbn [run].
  - by apply inv_init.
  - wp_step. apply wp_total. eapply wp_mono; [by apply inv_shutdown|]. intros ? w []. by wp_step.
  - by apply wp_total, inv_watch_start.
  - wp_step. eapply wp_mono; [by apply inv_unwatch|]. intros ? w []. by wp_step.
  - unfold e9_livereload_poll. do 3 wp_step; [by wp_step|]. do 3 wp_step; [by wp_step|].
    assert (running s tr) as Hr by (split; [done|by apply negb_false_iff]).
    unfold poll_inotify. do 2 wp_step. destruct a as [buf|]; [|by wp_step]. wp_step; [by wp_step|].
    eapply wp_mono; [by apply running_poll|]. by intros r w (_&?&_).
  - unfold e9_livereload_set_callback. repeat wp_step. cbn [g_state trace]. by destruct Hinv.
  - unfold e9_livereload_clear_error. repeat wp_step. by apply (calm_error _ inv_calm).
  - unfold e9_livereload_reload_file. do 3 wp_step.
    + unfold set_error. repeat wp_step. by apply (calm_error _ inv_calm).
    + assert (running s tr) as Hr by (split; [done|by apply negb_false_iff]).
      eapply wp_mono; [by apply running_handle|]. by intros r w (_&?&_).
  - apply inv_apply_patch; [done|]. by intros b ->.
  - by apply wp_total, inv_revert.
Qed.

Lemma reachable_inv_ok w : mmap_ok → differ_ok → reachable w → inv (g_state w) (trace w).
Proof.
  intros Hm Hd. induction 1 as [c|w a r w' _ IH Ha Hr].
  - apply booting_inv; [apply booting_zero|done|done].
  - destruct w as [s tr c]. pose proof (inv_run a s tr c Hm Hd Ha IH) as Hw. unfold wp in Hw.
    by rewrite Hr in Hw.
Qed.

(** C29: Every reachable state of the live-reload system satisfies its invariant: at most 256
    patches, each recorded with the sizes of its blocks and, once applied, inside the image;
    the counters of applied, reverted and failed patches count the patches in those states;
    the mapping exists exactly while the system is initialised and has the recorded size. *)
Theorem lr_reachable_inv w :
  mmap_ok → differ_ok → reachable w → inv (g_state w) (trace w).
Proof. apply reachable_inv_ok. Qed.

(** C37: No leak: in every reachable state in which the system is not initialised (after a
    failed initialisation or a shutdown) every descriptor that was opened has been closed
    and every mapping has been unmapped. *)
Theorem lr_no_leak w z :
  mmap_ok → differ_ok → reachable w → initialized (g_state w) = false →
  net (opens z) (trace w) = 0 ∧ net (maps z) (trace w) = 0.
Proof.
  intros Hm Hd Hr Hi. exact (inv_free _ _ (reachable_inv_ok w Hm Hd Hr) Hi z).
Qed.

(** In a reachable state reverting a patch never has undefined behaviour, whatever the
    id. *)
Theorem lr_revert_total w pid :
  mmap_ok → differ_ok → reachable w →
  ∃ r w', e9_livereload_revert_patch pid w = Some (r, w').
Proof.
  intros Hm Hd Hr. pose proof (reachable_inv_ok w Hm Hd Hr) as Hinv. destruct w as [s tr c].
  pose proof (inv_revert pid s tr c Hinv) as Hs. unfold wp in Hs.
  destruct (e9_livereload_revert_patch pid _) as [[r w]|]; [eauto|done].
Qed.
End operations.

(** ** The file watcher *)

(** An inotify event: watch, mask and cookie as bytes, and the padded name. *)
Record inotify_event := InotifyEvent { ie_head : bytes; ie_name : bytes; ie_pad : nat }.

Definition ie_encode (e : inotify_event) : bytes :=
  ie_head e ++ le_bytes 4 (blen (ie_name e) + Z.of_nat (ie_pad e)) ++ ie_name e ++
  replicate (ie_pad e) 0.

(** Names hold no NUL and are followed by at least one. *)
Definition ie_wf (e : inotify_event) : Prop :=
  blen (ie_head e) = 12 ∧ (0 ∉ ie_name e) ∧ blen (ie_name e) + Z.of_nat (ie_pad e) < 2 ^ 32 ∧
  (ie_name e = [] ∨ (0 < ie_pad e)%nat).

Section watcher.
Context `{Env} `{Differ}.

(** What polling should do: handle the source files named, in order, and count them. *)
Fixpoint poll_spec (es : list inotify_event) : M Z :=
  match es with
  | [] => mret 0
  | e :: es' =>
      n ← (if is_source (ie_name e) then
             dir ← get source_dir;
             _ ← handle_file_change (clip MAX_PATH_LEN (dir +:+ "/" +:+ string_of_bytes (ie_name e)));
             mret 1
           else mret 0);
      k ← poll_spec es';
      mret (n + k)
  end.

Lemma ie_encode_len e : ie_wf e →
  blen (ie_encode e) = 16 + (blen (ie_name e) + Z.of_nat (ie_pad e)).
Proof.
  intros (Hh&_). unfold ie_encode. rewrite !blen_app, blen_le, Hh. unfold blen at 2.
  rewrite length_replicate. lia.
Qed.

Lemma c_string_app l r : 0 ∉ l → c_string (l ++ 0 :: r) = l.
Proof.
  induction l as [|c l IH]; [done|]. rewrite not_elem_of_cons. intros [Hc Hl].
  cbn [app c_string]. rewrite (proj2 (Z.eqb_neq c 0)) by done. by rewrite IH.
Qed.

Lemma str_at_name pre name pad post :
  0 ∉ name → (0 < pad)%nat →
  str_at (pre ++ name ++ replicate pad 0 ++ post) (blen pre) = Some name.
Proof.
  intros Hn Hp. destruct pad as [|pad]; [lia|]. unfold str_at, at_off.
  replace (Z.to_nat (blen pre)) with (List.length pre) by (unfold blen; lia).
  rewrite drop_app_length. cbn [replicate app]. rewrite c_string_app by done.
  pose proof (blen_nonneg pre). pose proof (blen_nonneg (replicate pad 0 ++ post)).
  rewrite !blen_app, blen_cons. pose proof (blen_nonneg name).
  rewrite (proj2 (Z.leb_le _ _)) by lia. rewrite (proj2 (Z.ltb_lt _ _)) by lia. done.
Qed.

Lemma bind_ext {A B} (m : M A) (k k' : A → M B) w :
  (∀ a w', k a w' = k' a w') → (m ≫= k) w = (m ≫= k') w.
Proof. intros Hk. unfold mbind, M_bind, mbind, option_bind. by destruct (m w) as [[a w']|]. Qed.

Lemma poll_events_spec es pre fuel w :
  Forall ie_wf es → (List.length (concat (map ie_encode es)) <= fuel)%nat →
  poll_events fuel (pre ++ concat (map ie_encode es)) (blen pre) w = poll_spec es w.
Proof.
  intros Hes. revert pre fuel w. induction Hes as [|e es He Hes IH]; intros pre fuel w Hf.
  { cbn [map concat poll_spec]. rewrite app_nil_r.
    by destruct fuel; cbn [poll_events]; rewrite Z.ltb_irrefl. }
  cbn [map concat] in *. pose proof (ie_encode_len e He) as Hlen.
  pose proof (blen_nonneg (ie_name e)). pose proof (blen_nonneg (concat (map ie_encode es))).
  rewrite length_app in Hf. destruct fuel as [|f].
  { exfalso. unfold blen in *. lia. }
  cbn [poll_events poll_spec]. set (buf := pre ++ ie_encode e ++ concat (map ie_encode es)).
  assert ((blen pre <? blen buf) = true) as ->.
  { apply Z.ltb_lt. unfold buf. rewrite !blen_app. lia. }
  assert (rd32 buf (blen pre + 12) = Some (blen (ie_name e) + Z.of_nat (ie_pad e))) as ->.
  { destruct He as (Hh&_&Hl&_). apply rd32_of_rdn; [|lia]. unfold buf, ie_encode.
    rewrite <- !app_assoc, <- Hh, <- blen_app, app_assoc. apply (rdn_app_mid _ (le_bytes 4 _)). }
  rewrite (bind_run _ _ w _ w eq_refl). cbn beta.
  assert (poll_events f buf (blen pre + (16 + (blen (ie_name e) + Z.of_nat (ie_pad e)))) =
          poll_events f ((pre ++ ie_encode e) ++ concat (map ie_encode es)) (blen (pre ++ ie_encode e)))
    as -> by (unfold buf; rewrite blen_app, Hlen, <- app_assoc; done).
  assert (∀ n, ∀ w', (k ← poll_events f ((pre ++ ie_encode e) ++ concat (map ie_encode es))
      (blen (pre ++ ie_encode e)); mret (n + k)) w' = (k ← poll_spec es; mret (n + k)) w') as Hk.
  { intros n w'. unfold mbind, M_bind. rewrite IH; [done|]. unfold blen in *. lia. }
  destruct He as (Hh&Hnul&Hl&[Hn|Hp]).
  - rewrite Hn. change (is_source []) with false. change (blen []) with 0.
    destruct (0 <? 0 + Z.of_nat (ie_pad e)) eqn:Hpad.
    + assert (str_at buf (blen pre + 16) = Some []) as ->.
      { assert (0 < ie_pad e)%nat as Hp by lia. unfold buf, ie_encode. rewrite Hn.
        pose proof (str_at_name (pre ++ ie_head e ++ le_bytes 4 (blen [] + Z.of_nat (ie_pad e))) []
          (ie_pad e) (concat (map ie_encode es)) ltac:(apply not_elem_of_nil) Hp) as Hs.
        rewrite !blen_app, blen_le, Hh, <- !app_assoc in Hs. rewrite <- !app_assoc.
        rewrite <- Hs. f_equal. }
      by apply bind_ext.
    + by apply bind_ext.
  - assert (str_at buf (blen pre + 16) = Some (ie_name e)) as ->.
    { unfold buf, ie_encode.
      pose proof (str_at_name (pre ++ ie_head e ++ le_bytes 4 (blen (ie_name e) + Z.of_nat (ie_pad e)))
        (ie_name e) (ie_pad e) (concat (map ie_encode es)) Hnul Hp) as Hs.
      rewrite !blen_app, blen_le, Hh, <- !app_assoc in Hs. rewrite <- !app_assoc.
      rewrite <- Hs. f_equal. }
    rewrite (proj2 (Z.ltb_lt _ _)) by lia. by apply bind_ext.
Qed.

(** C35: Polling: when the kernel delivers a buffer of well-formed events, the loop over the
    buffer stays inside it, terminates, and does exactly what the list of events asks for:
    it handles the changed source files in order and returns their number. *)
Theorem lr_poll_refines es s tr c :
  initialized s = true → watching s = true → Forall ie_wf es →
  env_read c 4096 = Some (concat (map ie_encode es)) →
  e9_livereload_poll (MkWorld s tr c) = poll_spec es (MkWorld s tr (S c)).
Proof.
  intros Hi Hw Hes Hread. unfold e9_livereload_poll.
  rewrite (bind_run _ _ _ _ _ eq_refl). cbn [g_state]. rewrite Hi. cbn [negb].
  rewrite (bind_run _ _ _ _ _ eq_refl). cbn [g_state]. rewrite Hw. cbn [negb].
  unfold poll_inotify. rewrite (bind_run _ _ _ _ _ eq_refl). cbn [g_state trace calls].
  rewrite Hread. destruct (Z.leb_spec (blen (concat (map ie_encode es))) 0) as [Hz|Hz].
  - destruct es as [|e es]; [done|]. exfalso. apply Forall_inv in Hes.
    cbn [map concat] in Hz. rewrite blen_app, (ie_encode_len e Hes) in Hz.
    pose proof (blen_nonneg (ie_name e)). pose proof (blen_nonneg (concat (map ie_encode es))). lia.
  - by apply (poll_events_spec es []).
Qed.
End watcher.

(** ** Witnesses *)

Definition sample_events : list inotify_event :=
  [InotifyEvent (replicate 12 0) (bytes_of_string "main.c") 10;
   InotifyEvent (replicate 12 0) (bytes_of_string "notes.txt") 7].

(** An environment where every call succeeds and the target is [sample_ape]. *)
Definition sample_env : Env := {|
  env_time _ := 7; env_malloc _ := true; env_system _ := 0; env_stat _ := true; env_open _ := 5;
  env_fstat _ := Some (blen sample_ape);
  env_read _ _ := Some (concat (map ie_encode sample_events));
  env_mmap _ size := if size =? blen sample_ape then Some sample_ape else None;
  env_self_path _ := Some "a.out"; env_strerror _ := ""; env_inotify_init _ := 6;
  env_inotify_add _ := 1; env_binaryen_init _ := 0; env_popen _ := true; env_fgets _ := None |}.

(** A running system with no patches. *)
Definition sample_state : LiveReloadState :=
  zero_state |> set_target_mapped (Some sample_ape) |> set_target_size (blen sample_ape)
             |> set_ape_info sample_info |> set_watching true |> set_initialized true.

Lemma sample_ready : ready sample_state sample_ape.
Proof. by repeat split. Qed.

Lemma sample_mmap : @mmap_ok sample_env.
Proof.
  intros n size d. cbn [env_mmap sample_env].
  destruct (Z.eqb_spec size (blen sample_ape)) as [->|]; [|by intros [=]]. intros [= <-].
  split; [done|]. split; [apply sample_ape_ok|reflexivity].
Qed.

Lemma stub_differ_ok : @differ_ok binaryen_differ.
Proof. intros o n. constructor. Qed.

(** The world after a successful initialisation. *)
Definition sample_world : World :=
  match @run sample_env binaryen_differ (Init (Some "prog.com") None) (MkWorld zero_state [] 0%nat) with
  | Some (_, w) => w
  | None => MkWorld zero_state [] 0%nat
  end.

Lemma sample_reachable : @reachable sample_env binaryen_differ sample_world.
Proof.
  apply (reach_step (MkWorld zero_state [] 0%nat) (Init (Some "prog.com") None) 0);
    [apply reach_start|done|]. vm_compute. reflexivity.
Qed.

Lemma lr_apply_patch_exact_witness :
  ∃ d' p w' cbs,
    @e9_livereload_apply_patch sample_env E9_PATCH_TARGET_PE_RVA 0x1002 (Some [0xC3]) 1
      (MkWorld sample_state [] 0%nat) = Some (next_id sample_state, w') ∧
    rdn [0xC3] 0 1 ≫= wrn sample_ape 194 = Some d' ∧
    target_mapped (g_state w') = Some d' ∧ num_patches (g_state w') = 0 + 1 ∧
    patches (g_state w') = <[Z.to_nat 0 := p]> (patches sample_state) ∧
    status p = E9_PATCH_STATUS_APPLIED ∧ p_id p = next_id sample_state ∧ file_offset p = 194 ∧
    old_bytes p = rdn sample_ape 194 1 ∧ old_size p = 1 ∧
    trace w' = [] ++ FlushIcache 194 1 :: cbs ∧ callbacks cbs.
Proof.
  apply (@lr_apply_patch_exact sample_env sample_state sample_ape E9_PATCH_TARGET_PE_RVA 0x1002
           [0xC3] 1 [] 0%nat); first [done|apply sample_ready|vm_compute; repeat split; discriminate].
Defined.

Lemma lr_apply_revert_restores_witness :
  ∃ w1 w2, @e9_livereload_apply_patch sample_env E9_PATCH_TARGET_FILE_OFFSET 194 (Some [0xC3]) 1
             (MkWorld sample_state [] 0%nat) = Some (next_id sample_state, w1) ∧
    next_id sample_state ≠ 0 ∧
    @e9_livereload_revert_patch sample_env (next_id sample_state) w1 = Some (0, w2) ∧
    target_mapped (g_state w2) = Some sample_ape ∧
    status <$> patches (g_state w2) !! Z.to_nat 0 = Some E9_PATCH_STATUS_REVERTED ∧
    ∃ tr' , trace w2 = [] ++ tr' ∧ FlushIcache 194 1 ∈ tr'.
Proof.
  apply (@lr_apply_revert_restores sample_env sample_state sample_ape E9_PATCH_TARGET_FILE_OFFSET 194
           [0xC3] 1 [] 0%nat); try first [done|apply sample_ready|vm_compute; repeat split; discriminate].
  intros k p old Hk. cbn in Hk. lia.
Defined.

Lemma lr_apply_patch_reads_unchecked_witness :
  @e9_livereload_apply_patch sample_env E9_PATCH_TARGET_FILE_OFFSET 0x1000 (Some [0xC3]) 1
    (MkWorld sample_state [] 0%nat) = None.
Proof.
  apply (@lr_apply_patch_reads_unchecked sample_env sample_state sample_ape
           E9_PATCH_TARGET_FILE_OFFSET 0x1000 (Some [0xC3]) 1 [] 0%nat); first [done|apply sample_ready].
Defined.

Lemma lr_queries_exact_witness :
  e9_livereload_pending_count (MkWorld sample_state [] 0%nat) =
    Some (Z.of_nat (List.length (with_status E9_PATCH_STATUS_PENDING (used sample_state))),
          MkWorld sample_state [] 0%nat) ∧
  e9_livereload_applied_count (MkWorld sample_state [] 0%nat) =
    Some (Z.of_nat (List.length (with_status E9_PATCH_STATUS_APPLIED (used sample_state))),
          MkWorld sample_state [] 0%nat) ∧
  e9_livereload_get_pending 4 (MkWorld sample_state [] 0%nat) =
    Some (take (Z.to_nat 4) (with_status E9_PATCH_STATUS_PENDING (used sample_state)),
          MkWorld sample_state [] 0%nat).
Proof. apply lr_queries_exact. cbn. lia. Defined.

Lemma lr_reachable_inv_witness : inv (g_state sample_world) (trace sample_world).
Proof.
  apply (@lr_reachable_inv sample_env binaryen_differ);
    [apply sample_mmap|apply stub_differ_ok|apply sample_reachable].
Defined.

(** The world after a shutdown. *)
Definition sample_closed : World :=
  match @run sample_env binaryen_differ Shutdown sample_world with
  | Some (_, w) => w
  | None => sample_world
  end.

Lemma lr_no_leak_witness :
  net (opens 5) (trace sample_closed) = 0 ∧ net (maps 5) (trace sample_closed) = 0.
Proof.
  apply (@lr_no_leak sample_env binaryen_differ);
    [apply sample_mmap|apply stub_differ_ok| |vm_compute; reflexivity].
  apply (reach_step sample_world Shutdown 0); [apply sample_reachable|done|vm_compute; reflexivity].
Defined.

Lemma lr_revert_total_witness :
  ∃ r w', @e9_livereload_revert_patch sample_env 3 sample_world = Some (r, w').
Proof.
  apply (@lr_revert_total sample_env binaryen_differ);
    [apply sample_mmap|apply stub_differ_ok|apply sample_reachable].
Defined.

Lemma lr_poll_refines_witness :
  @e9_livereload_poll sample_env binaryen_differ (MkWorld sample_state [] 0%nat) =
  @poll_spec sample_env binaryen_differ sample_events (MkWorld sample_state [] 1%nat).
Proof.
  apply (@lr_poll_refines sample_env binaryen_differ); [done|done| |done].
  repeat constructor; try done; by apply (bool_decide_unpack _).
Defined.

End LiveReload.
