(* ===== verification/E9Patch.v ===== *)
(** * E9Patch: the types of the rewriter

    Models the parts of src/src/e9patch/e9patch.h that the components of the rewriter
    share: page size, kinds of addresses, allocations, and the byte buffer. *)

From stdpp Require Import gmap strings.
From S2P Require Import Prelude.

Module E9.

(** ** Constants *)

Definition INTPTR_MAX : Z := 2 ^ 63 - 1.
Definition INTPTR_MIN : Z := - 2 ^ 63.
Definition INT8_MIN : Z := -128.
Definition INT8_MAX : Z := 127.
Definition UINT32_MAX : Z := 2 ^ 32 - 1.

(** [PAGE_SIZE] is a [size_t]: a signed operand of [/] and [%] is converted to
    [uint64_t] first, which [page_of] and [page_rem] write out. *)
Definition PAGE_SIZE : Z := 4096.

Definition page_of (a : Z) : Z := u64 a / PAGE_SIZE.
Definition page_rem (a : Z) : Z := u64 a mod PAGE_SIZE.

Definition TRAMPOLINE_MAX : Z := 4096.

Definition RELATIVE_ADDRESS_MAX : Z := 0x1FFFFFFFFFFFF000.
Definition RELATIVE_ADDRESS_MIN : Z := - 0x1FFFFFFFFFFFF000.
Definition ABSOLUTE_ADDRESS_MAX : Z := 0x7FFFFFFFFFFFF000.
Definition ABSOLUTE_ADDRESS_MIN : Z := 0x4000000000001000.

Definition ABSOLUTE_ADDRESS (p : Z) : Z := p + 0x6000000000000000.

Definition IS_RELATIVE (p : Z) : bool := between RELATIVE_ADDRESS_MIN RELATIVE_ADDRESS_MAX p.

Definition IS_ABSOLUTE (p : Z) : bool := between ABSOLUTE_ADDRESS_MIN ABSOLUTE_ADDRESS_MAX p.

Definition BASE_ADDRESS (p : Z) : Z := if IS_ABSOLUTE p then p - 0x6000000000000000 else p.

(** ** Pointers

    An object that the code allocates with [new] is named by a [positive]; a pointer
    that may be [nullptr] is an [option positive].  Instructions live in one array and
    are named by their index. *)
Abbreviation ptr := positive (only parsing).
Abbreviation iptr := Z (only parsing).

(** ** Allocations and bounds *)

(** [struct Alloc]. *)
Record Alloc := MkAlloc {
  a_lb : Z; a_ub : Z; a_I : option iptr; a_T : option ptr; a_entry : Z }.

#[export] Instance alloc_eq_dec : EqDecision Alloc.
Proof. solve_decision. Defined.

(** [struct Bounds]. *)
Record Bounds := MkBounds { b_lb : Z; b_ub : Z }.

(** ** Output buffers ([struct Buffer])

    [b_buf] is [None] for a null pointer, and else the bytes the buffer points to; a
    write outside of them is undefined behaviour. *)
Record Buffer := MkBuffer { b_i : Z; b_max : Z; b_buf : option bytes }.

Definition buffer (buf : option bytes) : Buffer := MkBuffer 0 UINT32_MAX buf.

(** The three overloads of [push]: of a byte, of bytes, and of a byte repeated. *)
Definition push (b : Z) (buf : Buffer) : option Buffer :=
  d ← match b_buf buf with
      | Some d => if b_i buf <? b_max buf then d ← wrn d (b_i buf) [b]; Some (Some d)
                  else Some (Some d)
      | None => Some None
      end;
  Some (MkBuffer (u32 (b_i buf + 1)) (b_max buf) d).

Definition push_bytes (data : bytes) (len : Z) (buf : Buffer) : option Buffer :=
  d ← match b_buf buf with
      | Some d =>
          if b_i buf <? b_max buf then
            let size := if b_max buf <? u32 (b_i buf + len) then u32 (b_max buf - b_i buf)
                        else len in
            src ← rdn data 0 size;
            d ← wrn d (b_i buf) src; Some (Some d)
          else Some (Some d)
      | None => Some None
      end;
  Some (MkBuffer (u32 (b_i buf + len)) (b_max buf) d).

Definition push_fill (b len : Z) (buf : Buffer) : option Buffer :=
  d ← match b_buf buf with
      | Some d =>
          if b_i buf <? b_max buf then
            let size := if b_max buf <? u32 (b_i buf + len) then u32 (b_max buf - b_i buf)
                        else len in
            d ← wrn d (b_i buf) (repeat b (Z.to_nat size)); Some (Some d)
          else Some (Some d)
      | None => Some None
      end;
  Some (MkBuffer (u32 (b_i buf + len)) (b_max buf) d).

Definition buf_size (buf : Buffer) (start : Z) : Z := u64 (b_i buf - start).

Definition set_i (i : Z) (buf : Buffer) : Buffer := MkBuffer i (b_max buf) (b_buf buf).

(** [commit]: the number of bytes since [start], or [-1] when the buffer is too small. *)
Definition buf_commit (start : Z) (buf : Buffer) : Z * Buffer :=
  if b_max buf <? b_i buf then (-1, set_i (u32 start) buf)
  else (s32 (s32 (b_i buf) - s32 start), buf).

Definition buf_reset (start : Z) (buf : Buffer) : Buffer := set_i (u32 start) buf.

(** [for (b : l) buf->push(b)] *)
Fixpoint push_all (l : bytes) (buf : Buffer) : option Buffer :=
  match l with [] => Some buf | b :: l => buf ← push b buf; push_all l buf end.

(** ** Global options *)
Record Options := MkOptions {
  option_Ocall : bool; option_OCFR : bool; option_Oorder : bool; option_Oscratch_stack : bool;
  option_tactic_B0 : bool; option_tactic_B1 : bool; option_tactic_B2 : bool;
  option_tactic_T0 : bool; option_tactic_T1 : bool; option_tactic_T2 : bool;
  option_tactic_T3 : bool; option_tactic_backward_T3 : bool;
  option_mem_multi_page : bool; option_mem_lb : Z; option_mem_ub : Z;
  option_loader_base : Z; option_batch : bool; option_Opeephole : bool;
  option_Oepilogue : Z; option_Oepilogue_size : Z;
  option_Oprologue : Z; option_Oprologue_size : Z }.

(** ** The states of a byte *)
Definition STATE_UNKNOWN : Z := 0x0.
Definition STATE_INSTRUCTION : Z := 0x1.
Definition STATE_PATCHED : Z := 0x2.
Definition STATE_FREE : Z := 0x3.
Definition STATE_OVERFLOW : Z := 0x4.
Definition STATE_QUEUED : Z := 0x5.
Definition STATE_LOCKED : Z := 0x10.

Definition T0_LIMIT : Z := 32.

(** ** Trampoline templates

    [struct Entry] is a tagged union.  Its second word is [length], [use] or [optimize];
    its third the bytes, a name or a number: the operand of a data entry is a label if
    [use] is set and else a number.  For [ENTRY_DEBUG], [length] is what
    [makeDebugEntry] puts there. *)
Inductive Operand := OLabel (label : string) | OConst (v : Z).

#[export] Instance operand_eq_dec : EqDecision Operand.
Proof. solve_decision. Defined.

Inductive Entry :=
| ENTRY_DEBUG (length : Z)
| ENTRY_BYTES (data : bytes)
| ENTRY_ZEROES (length : Z)
| ENTRY_LABEL (label : string)
| ENTRY_MACRO (macro : string)
| ENTRY_REL8 (v : Operand)
| ENTRY_REL32 (v : Operand)
| ENTRY_INT8 (v : Operand)
| ENTRY_INT16 (v : Operand)
| ENTRY_INT32 (v : Operand)
| ENTRY_INT64 (v : Operand)
| ENTRY_INSTR
| ENTRY_INSTR_BYTES
| ENTRY_BREAK (optimize : bool)
| ENTRY_TAKE
| ENTRY_BATCH (last : Z).

#[export] Instance entry_eq_dec : EqDecision Entry.
Proof. solve_decision. Defined.

Definition PROT_READ : Z := 0x1.
Definition PROT_WRITE : Z := 0x2.
Definition PROT_EXEC : Z := 0x4.

(** [struct Trampoline]. *)
Record Trampoline := MkTrampoline { prot : Z; preload : bool; entries : list Entry }.

(** [struct MetaEntry] and [struct Metadata]: the templates of the macros, sorted by name. *)
Record MetaEntry := MkMetaEntry { m_name : string; m_T : ptr }.

Abbreviation Metadata := (list MetaEntry).

(** ** Instructions *)

(** [struct Instr]. *)
Record Instr := MkInstr {
  i_offset : Z; i_size : Z; i_pcrel32_idx : Z; i_pcrel8_idx : Z; i_target : bool;
  i_pic : bool; i_debug : bool; i_patch : bool; i_is_patched : bool; i_is_evicted :
  bool; i_no_optimize : bool; i_addr : Z; i_metadata : option ptr; i_T : option ptr }.

Definition set_i_debug (v : bool) (r : Instr) : Instr :=
  {| i_offset := i_offset r; i_size := i_size r; i_pcrel32_idx := i_pcrel32_idx r;
  i_pcrel8_idx := i_pcrel8_idx r; i_target := i_target r; i_pic := i_pic r; i_debug := v;
  i_patch := i_patch r; i_is_patched := i_is_patched r; i_is_evicted := i_is_evicted r;
  i_no_optimize := i_no_optimize r; i_addr := i_addr r; i_metadata := i_metadata r; i_T :=
  i_T r |}.

Definition set_i_patch (v : bool) (r : Instr) : Instr :=
  {| i_offset := i_offset r; i_size := i_size r; i_pcrel32_idx := i_pcrel32_idx r;
  i_pcrel8_idx := i_pcrel8_idx r; i_target := i_target r; i_pic := i_pic r; i_debug :=
  i_debug r; i_patch := v; i_is_patched := i_is_patched r; i_is_evicted := i_is_evicted r;
  i_no_optimize := i_no_optimize r; i_addr := i_addr r; i_metadata := i_metadata r; i_T :=
  i_T r |}.

Definition set_i_is_patched (v : bool) (r : Instr) : Instr :=
  {| i_offset := i_offset r; i_size := i_size r; i_pcrel32_idx := i_pcrel32_idx r;
  i_pcrel8_idx := i_pcrel8_idx r; i_target := i_target r; i_pic := i_pic r; i_debug :=
  i_debug r; i_patch := i_patch r; i_is_patched := v; i_is_evicted := i_is_evicted r;
  i_no_optimize := i_no_optimize r; i_addr := i_addr r; i_metadata := i_metadata r; i_T :=
  i_T r |}.

Definition set_i_is_evicted (v : bool) (r : Instr) : Instr :=
  {| i_offset := i_offset r; i_size := i_size r; i_pcrel32_idx := i_pcrel32_idx r;
  i_pcrel8_idx := i_pcrel8_idx r; i_target := i_target r; i_pic := i_pic r; i_debug :=
  i_debug r; i_patch := i_patch r; i_is_patched := i_is_patched r; i_is_evicted := v;
  i_no_optimize := i_no_optimize r; i_addr := i_addr r; i_metadata := i_metadata r; i_T :=
  i_T r |}.

Definition set_i_no_optimize (v : bool) (r : Instr) : Instr :=
  {| i_offset := i_offset r; i_size := i_size r; i_pcrel32_idx := i_pcrel32_idx r;
  i_pcrel8_idx := i_pcrel8_idx r; i_target := i_target r; i_pic := i_pic r; i_debug :=
  i_debug r; i_patch := i_patch r; i_is_patched := i_is_patched r; i_is_evicted :=
  i_is_evicted r; i_no_optimize := v; i_addr := i_addr r; i_metadata := i_metadata r; i_T
  := i_T r |}.

(** The counters [stat_num_B0] and so on. *)
Record Stats := MkStats {
  num_B0 : Z; num_B1 : Z; num_B2 : Z; num_T0 : Z; num_T1 : Z; num_T2 : Z; num_T3 : Z
  }.

(** ** Binaries *)

(** [enum Mode]. *)
Inductive Mode := MODE_ELF_EXE | MODE_ELF_DSO | MODE_PE_EXE | MODE_PE_DLL | MODE_APE_EXE.

#[export] Instance mode_eq_dec : EqDecision Mode.
Proof. solve_decision. Defined.

(** [struct EntryPoint]; an [EntrySet] maps addresses to entry points. *)
Record EntryPoint := MkEntryPoint {
  e_I : iptr; e_entry : Z; e_target8 : bool; e_target32 : bool }.

(** [struct JumpInfo]: a jump that was put into the flattened trampoline of an allocation;
    [j_bytes] is the allocation and the offset into its bytes. *)
Record JumpInfo := MkJumpInfo { j_addr : Z; j_bytes : ptr * Z; j_size : Z }.

(** [struct PatchEntry]: options, or an instruction and its trampoline. *)
Inductive PatchEntry :=
| PatchOptions (argv : list string)
| PatchInstr (I : iptr) (T : option ptr).

(** [struct Binary], with what its pointers lead to: [B_Ts] are the trampolines that [new]
    created, [B_names] the set [Ts] of those that have a name, [B_metas] the metadata,
    [B_flat] the flattened trampolines ([Alloc::bytes]); [B_lb] and [B_ub] delimit the
    instructions ([InstrSet]), which are numbered by their position; [S] is the state of the
    allocator, and [B_stats] the global statistics. *)
Record Binary (S : Type) := MkBinary {
  B_size : Z; B_mode : Mode; B_config : Z; B_pic : bool; B_orig : bytes; B_bytes :
  bytes; B_state : bytes; B_cursor : Z; B_Q : list PatchEntry; B_Is : gmap iptr Instr;
  B_lb : iptr; B_ub : iptr; B_Ts : gmap ptr Trampoline; B_names : gmap string ptr;
  B_metas : gmap ptr Metadata; B_Es : gmap Z EntryPoint; B_Js : list JumpInfo; B_Traps :
  list (option ptr); B_flat : gmap ptr bytes; B_space : S; B_stats : Stats }.
Arguments MkBinary {S}.
Arguments B_size {S}.
Arguments B_mode {S}.
Arguments B_config {S}.
Arguments B_pic {S}.
Arguments B_orig {S}.
Arguments B_bytes {S}.
Arguments B_state {S}.
Arguments B_cursor {S}.
Arguments B_Q {S}.
Arguments B_Is {S}.
Arguments B_lb {S}.
Arguments B_ub {S}.
Arguments B_Ts {S}.
Arguments B_names {S}.
Arguments B_metas {S}.
Arguments B_Es {S}.
Arguments B_Js {S}.
Arguments B_Traps {S}.
Arguments B_flat {S}.
Arguments B_space {S}.
Arguments B_stats {S}.

Definition set_B_config {S} (v : Z) (b : Binary S) : Binary S :=
  MkBinary (B_size b) (B_mode b) v (B_pic b) (B_orig b) (B_bytes b) (B_state b) (B_cursor
    b) (B_Q b) (B_Is b) (B_lb b) (B_ub b) (B_Ts b) (B_names b) (B_metas b) (B_Es b) (B_Js
    b) (B_Traps b) (B_flat b) (B_space b) (B_stats b).

Definition set_B_bytes {S} (v : bytes) (b : Binary S) : Binary S :=
  MkBinary (B_size b) (B_mode b) (B_config b) (B_pic b) (B_orig b) v (B_state b) (B_cursor
    b) (B_Q b) (B_Is b) (B_lb b) (B_ub b) (B_Ts b) (B_names b) (B_metas b) (B_Es b) (B_Js
    b) (B_Traps b) (B_flat b) (B_space b) (B_stats b).

Definition set_B_state {S} (v : bytes) (b : Binary S) : Binary S :=
  MkBinary (B_size b) (B_mode b) (B_config b) (B_pic b) (B_orig b) (B_bytes b) v (B_cursor
    b) (B_Q b) (B_Is b) (B_lb b) (B_ub b) (B_Ts b) (B_names b) (B_metas b) (B_Es b) (B_Js
    b) (B_Traps b) (B_flat b) (B_space b) (B_stats b).

Definition set_B_cursor {S} (v : Z) (b : Binary S) : Binary S :=
  MkBinary (B_size b) (B_mode b) (B_config b) (B_pic b) (B_orig b) (B_bytes b) (B_state b)
    v (B_Q b) (B_Is b) (B_lb b) (B_ub b) (B_Ts b) (B_names b) (B_metas b) (B_Es b) (B_Js
    b) (B_Traps b) (B_flat b) (B_space b) (B_stats b).

Definition set_B_Q {S} (v : list PatchEntry) (b : Binary S) : Binary S :=
  MkBinary (B_size b) (B_mode b) (B_config b) (B_pic b) (B_orig b) (B_bytes b) (B_state b)
    (B_cursor b) v (B_Is b) (B_lb b) (B_ub b) (B_Ts b) (B_names b) (B_metas b) (B_Es b)
    (B_Js b) (B_Traps b) (B_flat b) (B_space b) (B_stats b).

Definition set_B_Is {S} (v : gmap iptr Instr) (b : Binary S) : Binary S :=
  MkBinary (B_size b) (B_mode b) (B_config b) (B_pic b) (B_orig b) (B_bytes b) (B_state b)
    (B_cursor b) (B_Q b) v (B_lb b) (B_ub b) (B_Ts b) (B_names b) (B_metas b) (B_Es b)
    (B_Js b) (B_Traps b) (B_flat b) (B_space b) (B_stats b).

Definition set_B_lb {S} (v : iptr) (b : Binary S) : Binary S :=
  MkBinary (B_size b) (B_mode b) (B_config b) (B_pic b) (B_orig b) (B_bytes b) (B_state b)
    (B_cursor b) (B_Q b) (B_Is b) v (B_ub b) (B_Ts b) (B_names b) (B_metas b) (B_Es b)
    (B_Js b) (B_Traps b) (B_flat b) (B_space b) (B_stats b).

Definition set_B_Ts {S} (v : gmap ptr Trampoline) (b : Binary S) : Binary S :=
  MkBinary (B_size b) (B_mode b) (B_config b) (B_pic b) (B_orig b) (B_bytes b) (B_state b)
    (B_cursor b) (B_Q b) (B_Is b) (B_lb b) (B_ub b) v (B_names b) (B_metas b) (B_Es b)
    (B_Js b) (B_Traps b) (B_flat b) (B_space b) (B_stats b).

Definition set_B_names {S} (v : gmap string ptr) (b : Binary S) : Binary S :=
  MkBinary (B_size b) (B_mode b) (B_config b) (B_pic b) (B_orig b) (B_bytes b) (B_state b)
    (B_cursor b) (B_Q b) (B_Is b) (B_lb b) (B_ub b) (B_Ts b) v (B_metas b) (B_Es b) (B_Js
    b) (B_Traps b) (B_flat b) (B_space b) (B_stats b).

Definition set_B_metas {S} (v : gmap ptr Metadata) (b : Binary S) : Binary S :=
  MkBinary (B_size b) (B_mode b) (B_config b) (B_pic b) (B_orig b) (B_bytes b) (B_state b)
    (B_cursor b) (B_Q b) (B_Is b) (B_lb b) (B_ub b) (B_Ts b) (B_names b) v (B_Es b) (B_Js
    b) (B_Traps b) (B_flat b) (B_space b) (B_stats b).

Definition set_B_Es {S} (v : gmap Z EntryPoint) (b : Binary S) : Binary S :=
  MkBinary (B_size b) (B_mode b) (B_config b) (B_pic b) (B_orig b) (B_bytes b) (B_state b)
    (B_cursor b) (B_Q b) (B_Is b) (B_lb b) (B_ub b) (B_Ts b) (B_names b) (B_metas b) v
    (B_Js b) (B_Traps b) (B_flat b) (B_space b) (B_stats b).

Definition set_B_Js {S} (v : list JumpInfo) (b : Binary S) : Binary S :=
  MkBinary (B_size b) (B_mode b) (B_config b) (B_pic b) (B_orig b) (B_bytes b) (B_state b)
    (B_cursor b) (B_Q b) (B_Is b) (B_lb b) (B_ub b) (B_Ts b) (B_names b) (B_metas b) (B_Es
    b) v (B_Traps b) (B_flat b) (B_space b) (B_stats b).

Definition set_B_Traps {S} (v : list (option ptr)) (b : Binary S) : Binary S :=
  MkBinary (B_size b) (B_mode b) (B_config b) (B_pic b) (B_orig b) (B_bytes b) (B_state b)
    (B_cursor b) (B_Q b) (B_Is b) (B_lb b) (B_ub b) (B_Ts b) (B_names b) (B_metas b) (B_Es
    b) (B_Js b) v (B_flat b) (B_space b) (B_stats b).

Definition set_B_flat {S} (v : gmap ptr bytes) (b : Binary S) : Binary S :=
  MkBinary (B_size b) (B_mode b) (B_config b) (B_pic b) (B_orig b) (B_bytes b) (B_state b)
    (B_cursor b) (B_Q b) (B_Is b) (B_lb b) (B_ub b) (B_Ts b) (B_names b) (B_metas b) (B_Es
    b) (B_Js b) (B_Traps b) v (B_space b) (B_stats b).

Definition set_B_space {S} (v : S) (b : Binary S) : Binary S :=
  MkBinary (B_size b) (B_mode b) (B_config b) (B_pic b) (B_orig b) (B_bytes b) (B_state b)
    (B_cursor b) (B_Q b) (B_Is b) (B_lb b) (B_ub b) (B_Ts b) (B_names b) (B_metas b) (B_Es
    b) (B_Js b) (B_Traps b) (B_flat b) v (B_stats b).

Definition set_B_stats {S} (v : Stats) (b : Binary S) : Binary S :=
  MkBinary (B_size b) (B_mode b) (B_config b) (B_pic b) (B_orig b) (B_bytes b) (B_state b)
    (B_cursor b) (B_Q b) (B_Is b) (B_lb b) (B_ub b) (B_Ts b) (B_names b) (B_metas b) (B_Es
    b) (B_Js b) (B_Traps b) (B_flat b) (B_space b) v.

End E9.
