(* ===== verification/E9Alloc.v ===== *)
(** * E9Alloc: the virtual address space allocator

    Models src/src/e9patch/e9alloc.cpp: an interval tree (a red-black tree of
    disjoint address ranges, each node caching the bounds and the largest gap of its
    sub-tree) from which trampolines are allocated.  The tree is the heap of nodes the
    code works on, linked by [parent], [left] and [right] pointers.  The functions that
    the code writes twice, once for each direction, are written once over a [side]. *)

From stdpp Require Import gmap.
From S2P Require Import Prelude E9Patch.

Module E9Alloc.
Import E9.

(** ** Nodes *)

Inductive Color := RB_BLACK | RB_RED.

#[export] Instance color_eq_dec : EqDecision Color.
Proof. solve_decision. Defined.

(** The anonymous struct [entry] of a node. *)
Record Links := MkLinks { parent : option ptr; left : option ptr; right : option ptr }.

(** [struct Node]. *)
Record Node := MkNode {
  n_alloc : Alloc; n_entry : Links; n_gap : Z; n_color : Color; n_lb : Z; n_ub : Z }.

(** [struct Tree], and the nodes that [new] created and [delete] did not delete. *)
Record Tree := MkTree { heap : gmap ptr Node; root : option ptr }.

Definition RB_PARENT (n : Node) : option ptr := parent (n_entry n).
Definition RB_LEFT (n : Node) : option ptr := left (n_entry n).
Definition RB_RIGHT (n : Node) : option ptr := right (n_entry n).
Definition RB_COLOR (n : Node) : Color := n_color n.

Definition set_entry (e : Links) (n : Node) : Node :=
  MkNode (n_alloc n) e (n_gap n) (n_color n) (n_lb n) (n_ub n).

Definition set_alloc (a : Alloc) (n : Node) : Node :=
  MkNode a (n_entry n) (n_gap n) (n_color n) (n_lb n) (n_ub n).

Definition set_color (c : Color) (n : Node) : Node :=
  MkNode (n_alloc n) (n_entry n) (n_gap n) c (n_lb n) (n_ub n).

Definition set_parent (p : option ptr) (n : Node) : Node :=
  set_entry (MkLinks p (RB_LEFT n) (RB_RIGHT n)) n.

(** The two directions. *)
Inductive side := LEFT | RIGHT.

#[export] Instance side_eq_dec : EqDecision side.
Proof. solve_decision. Defined.

Definition opp (s : side) : side := match s with LEFT => RIGHT | RIGHT => LEFT end.

Definition child (s : side) (n : Node) : option ptr :=
  match s with LEFT => RB_LEFT n | RIGHT => RB_RIGHT n end.

Definition set_child (s : side) (c : option ptr) (n : Node) : Node :=
  match s with
  | LEFT => set_entry (MkLinks (RB_PARENT n) c (RB_RIGHT n)) n
  | RIGHT => set_entry (MkLinks (RB_PARENT n) (RB_LEFT n) c) n
  end.

(** ** Memory *)

(** [*n]; [nullptr] and dangling pointers are undefined behaviour. *)
Definition deref (t : Tree) (n : option ptr) : option Node := p ← n; heap t !! p.

(** An assignment to fields of [*n]. *)
Definition upd (n : option ptr) (f : Node → Node) (t : Tree) : option Tree :=
  p ← n; x ← heap t !! p; Some (MkTree (<[p := f x]> (heap t)) (root t)).

Definition set_root (n : option ptr) (t : Tree) : Tree := MkTree (heap t) n.

(** [if (n != nullptr) n->... = ...] *)
Definition upd_opt (n : option ptr) (f : Node → Node) (t : Tree) : option Tree :=
  match n with None => Some t | Some _ => upd n f t end.

(** [n == nullptr ? none : *n] *)
Definition deref_opt (t : Tree) (n : option ptr) : option (option Node) :=
  match n with None => Some None | Some _ => x ← deref t n; Some (Some x) end.

(** [n == nullptr || RB_COLOR(n) == RB_BLACK] *)
Definition is_black (t : Tree) (n : option ptr) : option bool :=
  x ← deref_opt t n;
  Some (match x with None => true | Some x => bool_decide (RB_COLOR x = RB_BLACK) end).

(** ** Tree invariants (fix, compare) *)

Definition compare (a b : Node) : Z :=
  if a_ub (n_alloc a) <=? a_lb (n_alloc b) then -1
  else if a_ub (n_alloc b) <=? a_lb (n_alloc a) then 1 else 0.

(** The body of [fix], given the children; [gap] is a bit field of 63 bits. *)
Definition fix_node (n : Node) (l r : option Node) : Node :=
  let llb := match l with Some l => n_lb l | None => INTPTR_MAX end in
  let rub := match r with Some r => n_ub r | None => INTPTR_MIN end in
  let lgap := match l with None => 0 | Some l => n_gap l end in
  let rgap := match r with None => 0 | Some r => n_gap r end in
  let gap := Z.max lgap rgap in
  let gap := Z.max gap
    (match l with None => 0 | Some l => u64 (a_lb (n_alloc n) - n_ub l) end) in
  let gap := Z.max gap
    (match r with None => 0 | Some r => u64 (n_lb r - a_ub (n_alloc n)) end) in
  MkNode (n_alloc n) (n_entry n) (wrapu 63 gap) (n_color n)
         (Z.min llb (a_lb (n_alloc n))) (Z.max rub (a_ub (n_alloc n))).

(** [fix(n)] *)
Definition fix_ (n : option ptr) (t : Tree) : option Tree :=
  match n with
  | None => Some t
  | Some _ =>
      x ← deref t n;
      l ← deref_opt t (RB_LEFT x);
      r ← deref_opt t (RB_RIGHT x);
      upd n (λ x, fix_node x l r) t
  end.

(** [for (Node *m = n; m != nullptr; m = RB_PARENT(m)) fix(m);] *)
Fixpoint fix_up (fuel : nat) (m : option ptr) (t : Tree) : option Tree :=
  match m with
  | None => Some t
  | Some _ =>
      match fuel with
      | O => None
      | S fuel' => t ← fix_ m t; x ← deref t m; fix_up fuel' (RB_PARENT x) t
      end
  end.

(** Every path in the tree is at most as long as the number of its nodes. *)
Definition depth_fuel (t : Tree) : nat := S (size (heap t)).

(** ** Rotations

    [rotate LEFT] is [rotateLeft] and [rotate RIGHT] is [rotateRight], in which left
    and right are exchanged (except where both look for [n] among the children of its
    parent). *)

(** The link of the parent [p] of [n], or the root, is redirected to [m]:
    [if (p != nullptr) { if (RB_LEFT(p) == n) RB_LEFT(p) = m; else RB_RIGHT(p) = m; }
    else t->root = m;] *)
Definition replace_child (p : option ptr) (n m : option ptr) (t : Tree) : option Tree :=
  match p with
  | Some _ =>
      x ← deref t p;
      upd p (set_child (if decide (RB_LEFT x = n) then LEFT else RIGHT) m) t
  | None => Some (set_root m t)
  end.

Definition rotate (s : side) (n : option ptr) (t : Tree) : option Tree :=
  x ← deref t n;
  let tmp := child (opp s) x in
  y ← deref t tmp;
  let b := child s y in
  t ← upd n (set_child (opp s) b) t;
  t ← upd_opt b (set_parent n) t;
  t ← fix_ n t;
  x ← deref t n;
  t ← upd tmp (set_parent (RB_PARENT x)) t;
  t ← replace_child (RB_PARENT x) n tmp t;
  t ← upd tmp (set_child s n) t;
  t ← upd n (set_parent tmp) t;
  t ← fix_ tmp t;
  y ← deref t tmp;
  fix_ (RB_PARENT y) t.

Definition rotateLeft (t : Tree) (n : option ptr) : option Tree := rotate LEFT n t.

Definition rotateRight (t : Tree) (n : option ptr) : option Tree := rotate RIGHT n t.

(** ** Rebalancing after an insertion *)

(** The two branches of the loop of [rebalanceInsert], for the side of [gparent] on
    which [parent] is; the result is the new [n]. *)
Definition rebalanceInsert_step (s : side) (n parent gparent : option ptr) (t : Tree) :
    option (option ptr * Tree) :=
  g ← deref t gparent;
  let tmp := child (opp s) g in
  black ← is_black t tmp;
  if negb (black : bool) then
    t ← upd tmp (set_color RB_BLACK) t;
    t ← upd parent (set_color RB_BLACK) t;
    t ← upd gparent (set_color RB_RED) t;
    Some (gparent, t)
  else
    p ← deref t parent;
    '(n, parent, t) ←
      (if decide (child (opp s) p = n) then
         t ← rotate s parent t; Some (parent, n, t)
       else Some (n, parent, t));
    t ← upd parent (set_color RB_BLACK) t;
    t ← upd gparent (set_color RB_RED) t;
    t ← rotate (opp s) gparent t;
    Some (n, t).

Fixpoint rebalanceInsert_loop (fuel : nat) (n : option ptr) (t : Tree) : option Tree :=
  x ← deref t n;
  black ← is_black t (RB_PARENT x);
  if (black : bool) then Some t
  else
    match fuel with
    | O => None
    | S fuel' =>
        let parent := RB_PARENT x in
        p ← deref t parent;
        let gparent := RB_PARENT p in
        g ← deref t gparent;
        '(n, t) ← rebalanceInsert_step
                    (if decide (parent = RB_LEFT g) then LEFT else RIGHT) n parent gparent t;
        rebalanceInsert_loop fuel' n t
    end.

Definition rebalanceInsert (n : option ptr) (t : Tree) : option Tree :=
  t ← fix_up (depth_fuel t) n t;
  t ← rebalanceInsert_loop (depth_fuel t) n t;
  upd (root t) (set_color RB_BLACK) t.

(** ** Rebalancing after a removal *)

(** The two branches of the loop of [rebalanceRemove], for the side of [parent] on
    which [n] is.  First the sibling [tmp], which is made black. *)
Definition remove_sibling (s : side) (parent : option ptr) (t : Tree) :
    option (option ptr * Tree) :=
  x ← deref t parent;
  let tmp := child (opp s) x in
  y ← deref t tmp;
  if decide (RB_COLOR y = RB_RED) then
    t ← upd tmp (set_color RB_BLACK) t;
    t ← upd parent (set_color RB_RED) t;
    t ← rotate s parent t;
    x ← deref t parent;
    Some (child (opp s) x, t)
  else Some (tmp, t).

(** The last case, which ends the loop by [break]. *)
Definition remove_last (s : side) (parent tmp : option ptr) (t : Tree) : option Tree :=
  y ← deref t tmp;
  bo ← is_black t (child (opp s) y);
  '(tmp, t) ←
    (if (bo : bool) then
       t ← upd_opt (child s y) (set_color RB_BLACK) t;
       t ← upd tmp (set_color RB_RED) t;
       t ← rotate (opp s) tmp t;
       x ← deref t parent;
       Some (child (opp s) x, t)
     else Some (tmp, t));
  x ← deref t parent;
  t ← upd tmp (set_color (RB_COLOR x)) t;
  t ← upd parent (set_color RB_BLACK) t;
  y ← deref t tmp;
  t ← upd_opt (child (opp s) y) (set_color RB_BLACK) t;
  rotate s parent t.

(** The result says whether the loop ends by [break], the new [parent] and the new
    [n]. *)
Definition rebalanceRemove_step (s : side) (parent : option ptr) (t : Tree) :
    option (bool * option ptr * option ptr * Tree) :=
  '(tmp, t) ← remove_sibling s parent t;
  y ← deref t tmp;
  bl ← is_black t (RB_LEFT y);
  br ← is_black t (RB_RIGHT y);
  if bl && br then
    t ← upd tmp (set_color RB_RED) t;
    x ← deref t parent;
    Some (false, RB_PARENT x, parent, t)
  else
    t ← remove_last s parent tmp t;
    Some (true, parent, root t, t).

Fixpoint rebalanceRemove_loop (fuel : nat) (parent n : option ptr) (t : Tree) :
    option (option ptr * Tree) :=
  black ← is_black t n;
  if black && negb (bool_decide (n = root t)) then
    match fuel with
    | O => None
    | S fuel' =>
        x ← deref t parent;
        '(fin, parent, n, t) ←
          rebalanceRemove_step (if decide (RB_LEFT x = n) then LEFT else RIGHT) parent t;
        if (fin : bool) then Some (n, t) else rebalanceRemove_loop fuel' parent n t
    end
  else Some (n, t).

Definition rebalanceRemove (parent n : option ptr) (t : Tree) : option Tree :=
  '(n, t) ← rebalanceRemove_loop (depth_fuel t) parent n t;
  upd_opt n (set_color RB_BLACK) t.

(** [while ((left = RB_LEFT(n)) != nullptr) n = left;] *)
Fixpoint leftmost (fuel : nat) (n : option ptr) (t : Tree) : option (option ptr) :=
  x ← deref t n;
  match RB_LEFT x with
  | None => Some n
  | Some l => match fuel with O => None | S fuel' => leftmost fuel' (Some l) t end
  end.

(** The unlinking half of [remove]: the new [parent] and [child], and the color of the
    node that left its place. *)
Definition unlink (old : option ptr) (t : Tree) :
    option (option ptr * option ptr * Color * Tree) :=
  x ← deref t old;
  match RB_LEFT x, RB_RIGHT x with
  | Some _, Some _ =>
      n ← leftmost (depth_fuel t) (RB_RIGHT x) t;
      y ← deref t n;
      let child := RB_RIGHT y in
      let parent := RB_PARENT y in
      let color := RB_COLOR y in
      t ← upd_opt child (set_parent parent) t;
      t ← replace_child parent n child t;
      t ← fix_ parent t;
      y ← deref t n;
      let parent := if decide (RB_PARENT y = old) then n else parent in
      x ← deref t old;
      t ← upd n (λ y, set_color (RB_COLOR x) (set_entry (n_entry x) y)) t;
      t ← replace_child (RB_PARENT x) old n t;
      t ← fix_ (RB_PARENT x) t;
      t ← upd (RB_LEFT x) (set_parent n) t;
      t ← upd_opt (RB_RIGHT x) (set_parent n) t;
      t ← fix_up (depth_fuel t) parent t;
      Some (parent, child, color, t)
  | l, r =>
      let child := match l with None => r | Some _ => l end in
      let parent := RB_PARENT x in
      t ← upd_opt child (set_parent parent) t;
      t ← replace_child parent old child t;
      t ← fix_up (depth_fuel t) parent t;
      Some (parent, child, RB_COLOR x, t)
  end.

Definition remove (n : option ptr) (t : Tree) : option Tree :=
  '(parent, child, color, t) ← unlink n t;
  if decide (color = RB_BLACK) then rebalanceRemove parent child t else Some t.

(** ** Finding room (node, insertLeftChild, insertRightChild, insert) *)

(** The flags [FLAG_LB], [FLAG_UB], [FLAG_RIGHT] and [FLAG_SAME_PAGE]. *)
Definition FLAG_LB : Z := 0x1.
Definition FLAG_UB : Z := 0x2.
Definition FLAG_RIGHT : Z := 0x4.
Definition FLAG_SAME_PAGE : Z := 0x8.

Definition has_flag (flags flag : Z) : bool := truthy (Z.land flags flag).

Definition flag_set (flags flag : Z) (val : bool) : Z :=
  if val then Z.lor flags flag else Z.land flags (Z.lnot flag).

(** [alloc()]: a node, at an address that no other node has. *)
Definition new_ptr (t : Tree) : ptr := fresh (dom (heap t) : gset ptr).

(** The range that [node] takes inside [lb..ub]: [Some None] when none fits, [None]
    when the assertion on pages fails. *)
Definition place (lb ub size flags : Z) : option (option (Z * Z)) :=
  let alloc_left := if has_flag flags FLAG_RIGHT then false
                    else has_flag flags FLAG_LB || negb (has_flag flags FLAG_UB) in
  let LB := if alloc_left then lb else s64 (ub - size) in
  let UB := if alloc_left then s64 (lb + size) else ub in
  let same_page := has_flag flags FLAG_SAME_PAGE in
  let spans_pages := negb (page_of LB =? page_of (UB - 1)) in
  if same_page && spans_pages then
    let offset := if alloc_left then PAGE_SIZE - Z.abs (page_rem lb)
                  else - Z.abs (page_rem ub) in
    let LB := s64 (LB + offset) in
    let UB := s64 (UB + offset) in
    if negb (page_of LB =? page_of (UB - 1)) then None
    else if (LB <? lb) || (ub <? UB) then Some None
    else Some (Some (LB, UB))
  else Some (Some (LB, UB)).

Definition node (parent : option ptr) (lb ub size flags : Z) (t : Tree) :
    option (option ptr * Tree) :=
  r ← place lb ub size flags;
  match r with
  | None => Some (None, t)
  | Some (LB, UB) =>
      let n := new_ptr t in
      let x := MkNode (MkAlloc LB UB None None 0) (MkLinks parent None None) 0 RB_RED LB UB in
      Some (Some n, MkTree (<[n := x]> (heap t)) (root t))
  end.

(** The recursive call of [insert], in the helpers for the two children. *)
Definition inserter : Type := option ptr → Z → Z → Z → Z → Tree → option (option ptr * Tree).

Definition insertLeftChild (insert : inserter) (root : option ptr) (lb ub size flags : Z)
    (t : Tree) : option (option ptr * Tree) :=
  r ← deref t root;
  let ub := Z.min ub (a_lb (n_alloc r)) in
  if s64 (ub - lb) <? s64 size then Some (None, t)
  else
    let flags := flag_set flags FLAG_UB (s64 (a_lb (n_alloc r) - ub) <? PAGE_SIZE) in
    match RB_LEFT r with
    | None =>
        '(n, t) ← node root lb ub size flags t;
        t ← upd root (set_child LEFT n) t;
        Some (n, t)
    | Some l => insert (Some l) lb ub size flags t
    end.

Definition insertRightChild (insert : inserter) (root : option ptr) (lb ub size flags : Z)
    (t : Tree) : option (option ptr * Tree) :=
  r ← deref t root;
  let lb := Z.max lb (a_ub (n_alloc r)) in
  if s64 (ub - lb) <? s64 size then Some (None, t)
  else
    let flags := flag_set flags FLAG_LB (s64 (lb - a_ub (n_alloc r)) <? PAGE_SIZE) in
    match RB_RIGHT r with
    | None =>
        '(n, t) ← node root lb ub size flags t;
        t ← upd root (set_child RIGHT n) t;
        Some (n, t)
    | Some r => insert (Some r) lb ub size flags t
    end.

(** [if (n == nullptr) n = ...] *)
Definition or_else (r : option ptr * Tree) (k : Tree → option (option ptr * Tree)) :
    option (option ptr * Tree) :=
  match r with (Some n, t) => Some (Some n, t) | (None, t) => k t end.

(** The four attempts of [insert] at a node, in their order: in the gaps of the
    sub-tree, to the right and to the left of the node, then above and below the
    sub-tree. *)
Definition insert_at (insert : inserter) (root : option ptr) (lb ub size flags : Z)
    (t : Tree) : option (option ptr * Tree) :=
  r ← deref t root;
  let rlb := Z.max lb (n_lb r) in
  let rub := Z.min ub (n_ub r) in
  n ← (if size <=? n_gap r then
         n ← insertRightChild insert root rlb rub size flags t;
         or_else n (λ t, insertLeftChild insert root rlb rub size flags t)
       else Some (None, t));
  n ← or_else n (λ t,
        if n_ub r <? ub then insertRightChild insert root (Z.max lb (n_ub r)) ub size flags t
        else Some (None, t));
  or_else n (λ t,
    if lb <? n_lb r then insertLeftChild insert root lb (Z.min ub (n_lb r)) size flags t
    else Some (None, t)).

Fixpoint insert (fuel : nat) (root : option ptr) (lb ub size flags : Z) (t : Tree) :
    option (option ptr * Tree) :=
  if s64 (ub - lb) <? s64 size then Some (None, t)
  else
    match root with
    | None => node None lb ub size flags t
    | Some _ =>
        match fuel with
        | O => None
        | S fuel' => insert_at (insert fuel') root lb ub size flags t
        end
    end.

(** ** The operations of the allocator *)

Definition verify (lb ub : Z) : bool :=
  if ub <? lb then false
  else if IS_RELATIVE lb then IS_RELATIVE ub
  else if IS_ABSOLUTE lb then IS_ABSOLUTE ub
  else false.

(** [if (tree.root == nullptr) tree.root = n; rebalanceInsert(&tree, n);] *)
Definition link (n : option ptr) (t : Tree) : option Tree :=
  let t := match root t with None => set_root n t | Some _ => t end in
  rebalanceInsert n t.

(** Order of allocation of [-Oorder]. *)
Definition order_target : Z := 0x70C00000.

(** [allocate], once the sizes of the prologue and of the trampoline are known. *)
Definition allocate_sized (option_Oorder : bool) (presize tmpsize lb ub : Z)
    (T : option ptr) (I : option iptr) (same_page : bool) (t : Tree) :
    option (option ptr * Tree) :=
  let lb := s64 (lb - presize) in
  let ub := s64 (ub + tmpsize) in
  let size := presize + tmpsize in
  let flags := if same_page then FLAG_SAME_PAGE else 0 in
  n ← (if option_Oorder && (order_target <? ub)
       then insert (depth_fuel t) (root t) lb order_target size (Z.lor flags FLAG_RIGHT) t
       else Some (None, t));
  n ← or_else n (λ t, insert (depth_fuel t) (root t) lb ub size flags t);
  match n with
  | (None, t) => Some (None, t)
  | (Some n, t) =>
      t ← link (Some n) t;
      t ← upd (Some n) (λ x,
            set_alloc (MkAlloc (a_lb (n_alloc x)) (a_ub (n_alloc x)) I T presize) x) t;
      Some (Some n, t)
  end.

(** What the allocator asks of e9trampoline.cpp about a binary [B]: sizes and bounds of
    trampolines ([None]: the code exits with an error). *)
Class Trampolines (B : Type) := {
  getTrampolinePrologueSize : B → option iptr → option Z;
  getTrampolineSize : B → option ptr → option iptr → option Z;
  getTrampolineBounds : B → option ptr → option iptr → option Bounds }.

Definition allocate `{Trampolines B} (option_Oorder : bool) (b : B) (lb ub : Z)
    (T : option ptr) (I : option iptr) (same_page : bool) (t : Tree) :
    option (option ptr * Tree) :=
  if negb (verify lb (s64 (ub + TRAMPOLINE_MAX))) then Some (None, t)
  else
    presize ← getTrampolinePrologueSize b I;
    tmpsize ← getTrampolineSize b T I;
    if tmpsize <? 0 then Some (None, t)
    else allocate_sized option_Oorder presize tmpsize lb ub T I same_page t.

Definition reserve (lb ub : Z) (t : Tree) : option (bool * Tree) :=
  if negb (verify lb ub) then Some (false, t)
  else
    let lb := s64 (lb - page_rem lb) in
    let ub := s64 (ub + (if page_rem ub =? 0 then 0 else PAGE_SIZE - page_rem ub)) in
    if s64 (ub - lb) <=? 0 then Some (false, t)
    else
      '(n, t) ← insert (depth_fuel t) (root t) lb ub (s64 (ub - lb)) 0 t;
      match n with
      | None => Some (false, t)
      | Some n =>
          t ← link (Some n) t;
          t ← upd (Some n) (λ x,
                set_alloc (MkAlloc (a_lb (n_alloc x)) (a_ub (n_alloc x)) None None
                                   (a_entry (n_alloc x))) x) t;
          Some (true, t)
      end.

(** [delete n] *)
Definition delete_node (n : ptr) (t : Tree) : Tree :=
  MkTree (delete n (heap t)) (root t).

Definition deallocate (a : option ptr) (t : Tree) : option Tree :=
  match a with
  | None => Some t
  | Some n =>
      x ← deref t (Some n);
      if decide (a_T (n_alloc x) = None) then None
      else t ← remove (Some n) t; Some (delete_node n t)
  end.

(** ** Iterators *)

(** The loop of [next] that climbs to the first ancestor of which [n] is on the left. *)
Fixpoint climb (fuel : nat) (n : option ptr) (t : Tree) : option (option ptr) :=
  x ← deref t n;
  match RB_PARENT x with
  | None => Some None
  | Some p =>
      y ← deref t (Some p);
      if decide (RB_LEFT y = n) then Some (Some p)
      else match fuel with O => None | S fuel' => climb fuel' (Some p) t end
  end.

Definition next (n : option ptr) (t : Tree) : option (option ptr) :=
  match n with
  | None => Some None
  | Some _ =>
      x ← deref t n;
      match RB_RIGHT x with
      | Some _ => leftmost (depth_fuel t) (RB_RIGHT x) t
      | None => climb (depth_fuel t) n t
      end
  end.

Definition begin (t : Tree) : option (option ptr) :=
  match root t with None => Some None | Some _ => leftmost (depth_fuel t) (root t) t end.

(** [for (auto *A: allocator) ...]: the allocations in the order of the iteration. *)
Fixpoint iterate (fuel : nat) (n : option ptr) (t : Tree) : option (list (ptr * Alloc)) :=
  match n with
  | None => Some []
  | Some p =>
      match fuel with
      | O => None
      | S fuel' =>
          x ← deref t n;
          n ← next n t;
          l ← iterate fuel' n t;
          Some ((p, n_alloc x) :: l)
      end
  end.

Definition all_allocs (t : Tree) : option (list (ptr * Alloc)) :=
  n ← begin t; iterate (depth_fuel t) n t.

Fixpoint find_from (fuel : nat) (addr : Z) (n : option ptr) (t : Tree) :
    option (option ptr) :=
  match n with
  | None => Some None
  | Some _ =>
      match fuel with
      | O => None
      | S fuel' =>
          x ← deref t n;
          if addr <? a_lb (n_alloc x) then find_from fuel' addr (RB_LEFT x) t
          else if a_ub (n_alloc x) <=? addr then find_from fuel' addr (RB_RIGHT x) t
          else Some n
      end
  end.

Definition find (addr : Z) (t : Tree) : option (option ptr) :=
  find_from (depth_fuel t) addr (root t) t.

Definition empty_tree : Tree := MkTree ∅ None.

End E9Alloc.
