(* ===== verification/E9AllocTree.v ===== *)
(** * E9AllocTree: the nodes of the allocator as a tree

    The heap of [E9Alloc] seen as a tree: [zip X t k f] says that the heap of [t] holds
    the sub-tree [f] under the path [k] to the root (and the unlinked nodes [X], nothing
    else).  The lemmas follow the pointer operations of e9alloc.cpp, rotations and the
    two rebalancing loops included, on this view. *)

From stdpp Require Import gmap sorting.
From S2P Require Import Prelude E9Patch E9Alloc.

Module AllocTree.
Import E9 E9Alloc.

(** ** Trees and paths *)

(** A tree of nodes; the links of the node [d] at [p] are those of the tree. *)
Inductive itree := Leaf | Bin (l : itree) (p : ptr) (d : Node) (r : itree).

Definition rootp (f : itree) : option ptr :=
  match f with Leaf => None | Bin _ p _ _ => Some p end.

Definition rootd (f : itree) : option Node :=
  match f with Leaf => None | Bin _ _ d _ => Some d end.

Fixpoint inorder (f : itree) : list (ptr * Alloc) :=
  match f with Leaf => [] | Bin l p d r => inorder l ++ (p, n_alloc d) :: inorder r end.

Definition ptrs (f : itree) : list ptr := (inorder f).*1.
#[global] Arguments ptrs _ : simpl never.

(** The tree with [a] on the side [s] and [b] on the other. *)
Definition bin (s : side) (a : itree) (p : ptr) (d : Node) (b : itree) : itree :=
  match s with LEFT => Bin a p d b | RIGHT => Bin b p d a end.

Definition links (s : side) (par a b : option ptr) : Links :=
  match s with LEFT => MkLinks par a b | RIGHT => MkLinks par b a end.

Definition catl {A} (s : side) (a : list A) (x : A) (b : list A) : list A :=
  match s with LEFT => a ++ x :: b | RIGHT => b ++ x :: a end.

(** One step of the path from a sub-tree to the root: the sub-tree is on the side
    [f_side] of the node [f_ptr]. *)
Record frame := Frame { f_side : side; f_ptr : ptr; f_data : Node; f_sib : itree }.

Definition ctx_par (k : list frame) : option ptr :=
  match k with [] => None | f :: _ => Some (f_ptr f) end.

Fixpoint ctx_ptrs (k : list frame) : list ptr :=
  match k with [] => [] | f :: k => f_ptr f :: ptrs (f_sib f) ++ ctx_ptrs k end.

Fixpoint plug (k : list frame) (f : itree) : itree :=
  match k with
  | [] => f
  | fr :: k => plug k (bin (f_side fr) f (f_ptr fr) (f_data fr) (f_sib fr))
  end.

Fixpoint ctx_l (k : list frame) : list (ptr * Alloc) :=
  match k with
  | [] => []
  | Frame LEFT _ _ _ :: k => ctx_l k
  | Frame RIGHT p d sib :: k => ctx_l k ++ inorder sib ++ [(p, n_alloc d)]
  end.

Fixpoint ctx_r (k : list frame) : list (ptr * Alloc) :=
  match k with
  | [] => []
  | Frame RIGHT _ _ _ :: k => ctx_r k
  | Frame LEFT p d sib :: k => (p, n_alloc d) :: inorder sib ++ ctx_r k
  end.

(** ** Trees in the heap *)

Fixpoint repr (h : gmap ptr Node) (par : option ptr) (f : itree) : Prop :=
  match f with
  | Leaf => True
  | Bin l p d r =>
      h !! p = Some (set_entry (MkLinks par (rootp l) (rootp r)) d) ∧
      repr h (Some p) l ∧ repr h (Some p) r
  end.

Fixpoint repr_ctx (h : gmap ptr Node) (rt foc : option ptr) (k : list frame) : Prop :=
  match k with
  | [] => rt = foc
  | Frame s p d sib :: k =>
      h !! p = Some (set_entry (links s (ctx_par k) foc (rootp sib)) d) ∧
      repr h (Some p) sib ∧ repr_ctx h rt (Some p) k
  end.

Definition zip (X : list ptr) (t : Tree) (k : list frame) (f : itree) : Prop :=
  repr (heap t) (ctx_par k) f ∧ repr_ctx (heap t) (root t) (rootp f) k ∧
  NoDup (ptrs f ++ ctx_ptrs k ++ X) ∧
  (∀ p, is_Some (heap t !! p) ↔ p ∈ ptrs f ++ ctx_ptrs k ++ X).

(** ** Lists and pointers *)

Lemma inorder_bin s a p d b :
  inorder (bin s a p d b) = catl s (inorder a) (p, n_alloc d) (inorder b).
Proof. by destruct s. Qed.

Lemma ptrs_bin s a p d b : ptrs (bin s a p d b) ≡ₚ p :: ptrs a ++ ptrs b.
Proof.
  unfold ptrs. destruct s; cbn; rewrite fmap_app, fmap_cons; cbn.
  - by rewrite Permutation_middle.
  - by rewrite <- Permutation_middle, (Permutation_app_comm (inorder b).*1).
Qed.

Lemma ptrs_Bin l p d r : ptrs (Bin l p d r) ≡ₚ p :: ptrs l ++ ptrs r.
Proof. apply (ptrs_bin LEFT). Qed.

Lemma rootp_bin s a p d b : rootp (bin s a p d b) = Some p.
Proof. by destruct s. Qed.

Lemma rootd_bin s a p d b : rootd (bin s a p d b) = Some d.
Proof. by destruct s. Qed.

Lemma bin_opp s a p d b : bin (opp s) b p d a = bin s a p d b.
Proof. by destruct s. Qed.

Lemma opp_opp s : opp (opp s) = s.
Proof. by destruct s. Qed.

Lemma links_opp s par a b : links (opp s) par b a = links s par a b.
Proof. by destruct s. Qed.

Lemma rootp_Some f p : rootp f = Some p → ∃ l d r, f = Bin l p d r.
Proof. destruct f; cbn; [done|]. intros [= ->]. eauto. Qed.

Lemma rootp_in f p : rootp f = Some p → p ∈ ptrs f.
Proof. intros (l & d & r & ->)%rootp_Some. rewrite ptrs_Bin. apply elem_of_cons. by left. Qed.

(** ** Disjoint lists of pointers *)

Definition dsj (P Q : list ptr) : Prop := ∀ x, x ∈ P → x ∉ Q.

#[global] Instance dsj_proper : Proper (Permutation ==> Permutation ==> iff) dsj.
Proof. intros P P' HP Q Q' HQ. unfold dsj. setoid_rewrite HP. by setoid_rewrite HQ. Qed.

Lemma dsj_sym P Q : dsj P Q → dsj Q P.
Proof. intros H x HQ HP. by apply (H x). Qed.

Lemma dsj_nil_l Q : dsj [] Q ↔ True.
Proof. split; [done|]. intros _ x Hx. by apply elem_of_nil in Hx. Qed.

Lemma dsj_nil_r Q : dsj Q [] ↔ True.
Proof. split; [done|]. intros _ x _ Hx. by apply elem_of_nil in Hx. Qed.

Lemma dsj_cons_l p P Q : dsj (p :: P) Q ↔ (p ∉ Q) ∧ dsj P Q.
Proof.
  unfold dsj. setoid_rewrite elem_of_cons. split; [naive_solver|].
  intros [H1 H2] x [-> | Hx]; auto.
Qed.

Lemma dsj_app_l P P' Q : dsj (P ++ P') Q ↔ dsj P Q ∧ dsj P' Q.
Proof. unfold dsj. setoid_rewrite elem_of_app. naive_solver. Qed.

Lemma dsj_cons_r p P Q : dsj Q (p :: P) ↔ (p ∉ Q) ∧ dsj Q P.
Proof.
  split.
  - intros H%dsj_sym. apply dsj_cons_l in H as [? ?%dsj_sym]. done.
  - intros [? ?]. apply dsj_sym, dsj_cons_l. by split; [|apply dsj_sym].
Qed.

Lemma dsj_app_r P P' Q : dsj Q (P ++ P') ↔ dsj Q P ∧ dsj Q P'.
Proof.
  split.
  - intros H%dsj_sym. apply dsj_app_l in H as [?%dsj_sym ?%dsj_sym]. done.
  - intros [? ?]. apply dsj_sym, dsj_app_l. by split; apply dsj_sym.
Qed.

Lemma nodup_app (P Q : list ptr) : NoDup (P ++ Q) ↔ NoDup P ∧ dsj P Q ∧ NoDup Q.
Proof. apply NoDup_app. Qed.

Lemma not_in_nil (p : ptr) : p ∉ [] ↔ True.
Proof. split; [done|]. intros _ Hx. by apply elem_of_nil in Hx. Qed.

Create Rewrite HintDb rb_ptrs.

#[export] Hint Rewrite dsj_nil_l dsj_nil_r dsj_cons_l dsj_cons_r dsj_app_l dsj_app_r nodup_app
  (@NoDup_cons ptr) (@not_elem_of_app ptr) (@not_elem_of_cons ptr) not_in_nil : rb_ptrs.

(** The facts about pointers that a [NoDup] hypothesis holds. *)
Ltac nodup_in H :=
  rewrite ?ptrs_bin, ?ptrs_Bin in H; cbn [ctx_ptrs f_ptr f_sib app] in H;
  autorewrite with rb_ptrs in H; destruct_and? H.

(** Goals that say that pointers are distinct, from those facts. *)
Ltac dj :=
  rewrite ?ptrs_bin, ?ptrs_Bin; cbn [ctx_ptrs f_ptr f_sib app];
  autorewrite with rb_ptrs;
  repeat match goal with |- _ ∧ _ => split end;
  first [assumption | exact I | apply dsj_sym; assumption | apply not_eq_sym; assumption].

Lemma bin_cases f s : f = Leaf ∨ ∃ a p d b, f = bin s a p d b.
Proof. destruct f as [|l p d r]; [by left|]. right. destruct s; [by exists l, p, d, r | by exists r, p, d, l]. Qed.

Lemma plug_inorder k f : inorder (plug k f) = ctx_l k ++ inorder f ++ ctx_r k.
Proof.
  revert f. induction k as [|[s p d sib] k IH]; intros f; cbn.
  - by rewrite app_nil_r.
  - rewrite IH. destruct s; cbn; by rewrite <- ?app_assoc; cbn; rewrite <- ?app_assoc.
Qed.

Lemma plug_app k1 k2 f : plug (k1 ++ k2) f = plug k2 (plug k1 f).
Proof. revert f. induction k1 as [|fr k1 IH]; intros; cbn; [done|]. apply IH. Qed.

(** ** The heap predicates depend only on their nodes *)

Lemma repr_agree h h' par f :
  repr h par f → (∀ p, p ∈ ptrs f → h' !! p = h !! p) → repr h' par f.
Proof.
  revert par. induction f as [|l IHl p d r IHr]; cbn; [done|].
  intros par (Hp & Hl & Hr) Hag.
  assert (Hin : ∀ q, q = p ∨ q ∈ ptrs l ∨ q ∈ ptrs r → h' !! q = h !! q).
  { intros q Hq. apply Hag. rewrite ptrs_Bin, elem_of_cons, elem_of_app. done. }
  split_and!; [rewrite Hin by auto; done | apply IHl | apply IHr]; auto.
Qed.

Lemma repr_ctx_agree h h' rt foc k :
  repr_ctx h rt foc k → (∀ p, p ∈ ctx_ptrs k → h' !! p = h !! p) → repr_ctx h' rt foc k.
Proof.
  revert foc. induction k as [|[s p d sib] k IH]; cbn; [done|].
  intros foc (Hp & Hs & Hk) Hag. split_and!.
  - rewrite Hag; [done|]. apply elem_of_cons. by left.
  - eapply repr_agree; [done|]. intros q Hq. apply Hag.
    rewrite elem_of_cons, elem_of_app. auto.
  - apply IH; [done|]. intros q Hq. apply Hag. rewrite elem_of_cons, elem_of_app. auto.
Qed.

Lemma repr_lookup h par f p : repr h par f → p ∈ ptrs f → is_Some (h !! p).
Proof.
  revert par. induction f as [|l IHl q d r IHr]; cbn; intros par.
  - intros _ Hp. by apply elem_of_nil in Hp.
  - intros (Hq & Hl & Hr). rewrite ptrs_Bin, elem_of_cons, elem_of_app.
    intros [-> | [Hp | Hp]]; [by rewrite Hq | eauto | eauto].
Qed.

(** Going up one step of the path, and down again. *)
Lemma zip_move X t s p d sib k f :
  zip X t (Frame s p d sib :: k) f ↔ zip X t k (bin s f p d sib).
Proof.
  unfold zip. cbn [ctx_par repr_ctx ctx_ptrs f_ptr f_sib]. rewrite rootp_bin.
  assert (Hperm : ptrs f ++ (p :: ptrs sib ++ ctx_ptrs k) ++ X ≡ₚ
                  ptrs (bin s f p d sib) ++ ctx_ptrs k ++ X).
  { rewrite ptrs_bin. cbn. rewrite <- Permutation_middle. by rewrite <- !app_assoc. }
  setoid_rewrite Hperm.
  destruct s; cbn; tauto.
Qed.

Lemma zip_plug X t k f : zip X t k f ↔ zip X t [] (plug k f).
Proof. revert f. induction k as [|[s p d sib] k IH]; intros f; [done|]. cbn. by rewrite zip_move, IH. Qed.

Lemma zip_root X t f : zip X t [] f → root t = rootp f.
Proof. by intros (_ & H & _). Qed.

Lemma zip_size X t k f : zip X t k f → (length (ptrs f) + length k ≤ size (heap t))%nat.
Proof.
  intros (_ & _ & Hnd & Hdom).
  assert (Hk : (length k ≤ length (ctx_ptrs k))%nat).
  { clear. induction k as [|fr k IH]; cbn; [lia|]. rewrite length_app. lia. }
  transitivity (length (ptrs f ++ ctx_ptrs k ++ X)); [rewrite !length_app; lia|].
  rewrite <- size_dom. rewrite <- (size_list_to_set (C := gset ptr)) by done.
  apply subseteq_size. intros p. rewrite elem_of_list_to_set, elem_of_dom. by rewrite Hdom.
Qed.

(** ** Changes of the heap *)

(** Only the nodes of [P] changed, and none was created or deleted. *)
Definition changes (P : list ptr) (h h' : gmap ptr Node) : Prop :=
  (∀ x, x ∉ P → h' !! x = h !! x) ∧ (∀ x, is_Some (h' !! x) ↔ is_Some (h !! x)).

Lemma changes_trans P Q h1 h2 h3 :
  changes P h1 h2 → changes Q h2 h3 → changes (P ++ Q) h1 h3.
Proof.
  intros [H1 D1] [H2 D2]. split; intros x.
  - rewrite not_elem_of_app. intros [? ?]. rewrite H2, H1; done.
  - by rewrite D2, D1.
Qed.

Lemma changes_weaken P Q h h' : changes P h h' → (∀ x, x ∈ P → x ∈ Q) → changes Q h h'.
Proof. intros [H D] HPQ. split; [|done]. intros x Hx. apply H. auto. Qed.

Lemma changes_refl P h : changes P h h.
Proof. done. Qed.

Lemma changes_insert h p x : is_Some (h !! p) → changes [p] h (<[p := x]> h).
Proof.
  intros Hp. split; intros q.
  - intros Hq%not_elem_of_cons. rewrite lookup_insert_ne; naive_solver.
  - destruct (decide (p = q)) as [<-|]; [|by rewrite lookup_insert_ne].
    rewrite lookup_insert_eq. split; eauto.
Qed.

Lemma repr_changes P h h' par f :
  changes P h h' → repr h par f → dsj P (ptrs f) → repr h' par f.
Proof.
  intros [H _] Hr Hd. eapply repr_agree; [done|]. intros p Hp. apply H.
  intros HP. by apply (Hd p).
Qed.

Lemma repr_ctx_changes P h h' rt foc k :
  changes P h h' → repr_ctx h rt foc k → dsj P (ctx_ptrs k) → repr_ctx h' rt foc k.
Proof.
  intros [H _] Hr Hd. eapply repr_ctx_agree; [done|]. intros p Hp. apply H.
  intros HP. by apply (Hd p).
Qed.

(** An update of the fields other than the links. *)
Definition keeps_links (f : Node → Node) : Prop :=
  ∀ e x, f (set_entry e x) = set_entry e (f x).

Lemma keeps_color c : keeps_links (set_color c).
Proof. done. Qed.

Lemma keeps_alloc a : keeps_links (set_alloc a).
Proof. done. Qed.

Lemma keeps_fix l r : keeps_links (λ x, fix_node x l r).
Proof. done. Qed.

Lemma ptrs_data l p d d' r : ptrs (Bin l p d r) = ptrs (Bin l p d' r).
Proof. unfold ptrs. cbn. by rewrite !fmap_app. Qed.

Lemma ptrs_bin_data s l p d d' r : ptrs (bin s l p d r) = ptrs (bin s l p d' r).
Proof. destruct s; apply ptrs_data. Qed.

Lemma zip_upd X t k s l p d r f :
  zip X t k (bin s l p d r) → keeps_links f →
  ∃ t', upd (Some p) f t = Some t' ∧ zip X t' k (bin s l p (f d) r).
Proof.
  intros (Hr & Hk & Hnd & Hdom) Hf.
  assert (Hp : heap t !! p = Some (set_entry (links s (ctx_par k) (rootp l) (rootp r)) d)).
  { destruct s; apply Hr. }
  eexists. unfold upd. cbn. rewrite Hp. cbn. split; [done|].
  assert (Hc : changes [p] (heap t) (<[p := f (set_entry (links s (ctx_par k) (rootp l) (rootp r)) d)]> (heap t))).
  { apply changes_insert. by rewrite Hp. }
  assert (Hnd' := Hnd). nodup_in Hnd'.
  split_and!; cbn [heap root].
  - rewrite Hf in *. destruct s; cbn in *; rewrite lookup_insert_eq; destruct_and!; (split_and!; [done| |]);
      (eapply repr_changes; [exact Hc|done|]); dj.
  - rewrite rootp_bin in *. eapply repr_ctx_changes; [exact Hc|done|].
    dj.
  - rewrite (ptrs_bin_data _ _ _ _ d). done.
  - intros q. rewrite (ptrs_bin_data _ _ _ _ d), <- Hdom. apply Hc.
Qed.

(** [upd] of a color or of an allocation, at a node anywhere on the path. *)
Lemma deref_bin X t k s l p d r :
  zip X t k (bin s l p d r) →
  deref t (Some p) = Some (set_entry (links s (ctx_par k) (rootp l) (rootp r)) d).
Proof. intros (Hr & _). unfold deref. cbn. destruct s; apply Hr. Qed.

(** The root of [f] is in the heap, with some links. *)
Definition rooted (h : gmap ptr Node) (f : itree) : Prop :=
  match f with Leaf => True | Bin _ p d _ => ∃ e, h !! p = Some (set_entry e d) end.

Lemma repr_rooted h par f : repr h par f → rooted h f.
Proof. destruct f; [done|]. intros (Hp & _). by eexists. Qed.

Lemma deref_opt_rooted h rt f :
  rooted h f →
  ∃ x, deref_opt (MkTree h rt) (rootp f) = Some x ∧
       (∀ d l r, fix_node d x r = fix_node d (rootd f) r ∧ fix_node d l x = fix_node d l (rootd f)) ∧
       match x with Some x => RB_COLOR x = RB_COLOR (default x (rootd f)) | None => f = Leaf end.
Proof.
  destruct f as [|l p d r]; cbn.
  - intros _. by eexists.
  - intros (e & Hp). unfold deref. cbn. rewrite Hp. cbn. by eexists.
Qed.

Definition fix_bin (s : side) (d : Node) (a b : itree) : Node :=
  match s with LEFT => fix_node d (rootd a) (rootd b) | RIGHT => fix_node d (rootd b) (rootd a) end.

Lemma fix_bin_entry s d a b e : fix_bin s (set_entry e d) a b = set_entry e (fix_bin s d a b).
Proof. by destruct s. Qed.

(** [fix] at a node whose links are in order, even when its parent's are not. *)
Lemma fix_heap h rt s par a p d b :
  h !! p = Some (set_entry (links s par (rootp a) (rootp b)) d) →
  rooted h a → rooted h b →
  fix_ (Some p) (MkTree h rt) =
    Some (MkTree (<[p := set_entry (links s par (rootp a) (rootp b)) (fix_bin s d a b)]> h) rt).
Proof.
  intros Hp Ha Hb. unfold fix_, deref. cbn. rewrite Hp. cbn.
  destruct (deref_opt_rooted _ rt _ Ha) as (xa & Hxa & Hfa & _).
  destruct (deref_opt_rooted _ rt _ Hb) as (xb & Hxb & Hfb & _).
  unfold upd. cbn.
  destruct s; cbn; rewrite ?Hxa, ?Hxb; cbn; rewrite ?Hxa, ?Hxb; cbn.
  - by rewrite (proj1 (Hfa _ None _)), (proj2 (Hfb _ _ None)).
  - by rewrite (proj2 (Hfa _ _ None)), (proj1 (Hfb _ None _)).
Qed.

Lemma zip_fix X t k s a p d b :
  zip X t k (bin s a p d b) →
  ∃ t', fix_ (Some p) t = Some t' ∧ zip X t' k (bin s a p (fix_bin s d a b) b).
Proof.
  intros Hz. assert (Hz' := Hz). destruct Hz' as (Hr & _).
  destruct t as [h rt]. cbn [heap] in Hr.
  rewrite (fix_heap h rt s (ctx_par k) a p d b);
    try by (destruct s; first [apply Hr | eapply repr_rooted, Hr]).
  destruct (zip_upd _ _ _ _ _ _ _ _ (λ x, fix_bin s x a b) Hz) as (t' & Ht' & Hz').
  { intros e x. apply fix_bin_entry. }
  eexists; split; [done|]. revert Ht'. unfold upd. cbn.
  replace (h !! p) with (Some (set_entry (links s (ctx_par k) (rootp a) (rootp b)) d))
    by (symmetry; destruct s; apply Hr).
  cbn. intros [= <-]. by rewrite fix_bin_entry in Hz'.
Qed.

(** [if (f != nullptr) RB_PARENT(f) = q] *)
Lemma reparent h rt par q f :
  repr h par f → NoDup (ptrs f) →
  ∃ h', upd_opt (rootp f) (set_parent q) (MkTree h rt) = Some (MkTree h' rt) ∧
        repr h' q f ∧ changes (ptrs f) h h'.
Proof.
  destruct f as [|l p d r]; cbn; [by eexists|].
  intros (Hp & Hl & Hr) Hnd. unfold upd. cbn. rewrite Hp. cbn.
  eexists. split; [done|]. rewrite lookup_insert_eq.
  assert (Hc : changes [p] h (<[p := set_parent q (set_entry (MkLinks par (rootp l) (rootp r)) d)]> h)).
  { apply changes_insert. by rewrite Hp. }
  nodup_in Hnd. split_and!; [done|..].
  - eapply repr_changes; [exact Hc|done|]. dj.
  - eapply repr_changes; [exact Hc|done|]. dj.
  - destruct Hc as [Hc1 Hc2]. split; [|done]. intros x. rewrite ptrs_Bin. intros. apply Hc1. set_solver.
Qed.

(** The link from above, when the sub-tree below changes its root. *)
Lemma replace_child_spec h rt k n m :
  repr_ctx h rt (Some n) k → n ∉ ctx_ptrs k → NoDup (ctx_ptrs k) →
  ∃ h' rt', replace_child (ctx_par k) (Some n) m (MkTree h rt) = Some (MkTree h' rt') ∧
            repr_ctx h' rt' m k ∧ changes (ctx_ptrs k) h h'.
Proof.
  destruct k as [|[s p d sib] k]; cbn; [by eexists _, _|].
  intros (Hp & Hs & Hk) Hn Hnd. unfold deref, upd. cbn. rewrite Hp. cbn.
  nodup_in Hnd.
  eexists _, _. split; [done|].
  set (x := set_child _ _ _).
  assert (Hc : changes [p] h (<[p := x]> h)) by (apply changes_insert; by rewrite Hp).
  split.
  2: { eapply changes_weaken; [exact Hc|]. intros y ->%list_elem_of_singleton. apply elem_of_cons. by left. }
  split_and!.
  - rewrite lookup_insert_eq. f_equal. unfold x.
    destruct s; cbn [links].
    + rewrite decide_True by done. done.
    + rewrite decide_False; [done|]. cbn. intros Hsib%rootp_in. by apply not_elem_of_cons in Hn as [_ [? _]%not_elem_of_app].
  - eapply repr_changes; [exact Hc|done|]. dj.
  - eapply repr_ctx_changes; [exact Hc|done|]. dj.
Qed.

(** ** Rotations *)

Lemma links_child s par x y d : child s (set_entry (links s par x y) d) = x.
Proof. by destruct s. Qed.

Lemma links_child_opp s par x y d : child (opp s) (set_entry (links s par x y) d) = y.
Proof. by destruct s. Qed.

Lemma links_parent s par x y d : RB_PARENT (set_entry (links s par x y) d) = par.
Proof. by destruct s. Qed.

Lemma links_set_child s z par x y d :
  set_child s z (set_entry (links s par x y) d) = set_entry (links s par z y) d.
Proof. by destruct s. Qed.

Lemma links_set_child_opp s z par x y d :
  set_child (opp s) z (set_entry (links s par x y) d) = set_entry (links s par x z) d.
Proof. by destruct s. Qed.

Lemma links_set_parent s q par x y d :
  set_parent q (set_entry (links s par x y) d) = set_entry (links s q x y) d.
Proof. by destruct s. Qed.

Create Rewrite HintDb rb_links.

#[export] Hint Rewrite links_child links_child_opp links_parent links_set_child
  links_set_child_opp links_set_parent : rb_links.

Lemma upd_eq h rt p f x :
  h !! p = Some x → upd (Some p) f (MkTree h rt) = Some (MkTree (<[p := f x]> h) rt).
Proof. intros Hp. unfold upd. cbn. by rewrite Hp. Qed.

Lemma deref_eq h rt p : deref (MkTree h rt) (Some p) = h !! p.
Proof. done. Qed.

Lemma repr_bin h par s a p d b :
  repr h par (bin s a p d b) ↔
  h !! p = Some (set_entry (links s par (rootp a) (rootp b)) d) ∧
  repr h (Some p) a ∧ repr h (Some p) b.
Proof. destruct s; cbn; tauto. Qed.

(** The pointer manipulation of a rotation, up to the last updates of the caches. *)
Lemma rotate_links X t k s a n dn b m dm c :
  zip X t k (bin s a n dn (bin s b m dm c)) →
  ∃ t1, rotate s (Some n) t =
          (t ← fix_ (Some m) t1; y ← deref t (Some m); fix_ (RB_PARENT y) t) ∧
        zip X t1 k (bin s (bin s a n (fix_bin s dn a b) b) m dm c).
Proof.
  destruct t as [h rt]. intros (Hr & Hk & Hnd & Hdom). cbn [heap root] in *.
  rewrite repr_bin, rootp_bin in Hr. destruct Hr as (Hn & Ha & Hm). rewrite repr_bin in Hm.
  destruct Hm as (Hm & Hb & Hc). rewrite rootp_bin in Hk.
  assert (Hnd' := Hnd). nodup_in Hnd'.
  assert (Hnm : n ≠ m) by dj.
  unfold rotate. rewrite deref_eq, Hn. cbn [mbind option_bind]. autorewrite with rb_links.
  rewrite deref_eq, Hm. cbn [mbind option_bind]. autorewrite with rb_links.
  (* n takes b *)
  rewrite (upd_eq _ _ _ _ _ Hn). cbn [mbind option_bind]. autorewrite with rb_links.
  set (h1 := <[n := _]> h).
  assert (C1 : changes [n] h h1) by (apply changes_insert; by rewrite Hn).
  assert (Hb1 : repr h1 (Some m) b) by (eapply repr_changes; [exact C1|done|dj]).
  destruct (reparent h1 rt _ (Some n) b Hb1 ltac:(done)) as (h2 & E2 & Hb2 & C2).
  rewrite E2. cbn [mbind option_bind].
  assert (Hn2 : h2 !! n = Some (set_entry (links s (ctx_par k) (rootp a) (rootp b)) dn)).
  { rewrite (proj1 C2) by dj. unfold h1. by rewrite lookup_insert_eq. }
  assert (Ha2 : repr h2 (Some n) a).
  { eapply repr_changes; [exact C2| |dj]. eapply repr_changes; [exact C1|done|dj]. }
  rewrite (fix_heap h2 rt s _ a n dn b Hn2 (repr_rooted _ _ _ Ha2) (repr_rooted _ _ _ Hb2)). cbn [mbind option_bind].
  set (h3 := <[n := _]> h2).
  assert (C3 : changes [n] h2 h3) by (apply changes_insert; by rewrite Hn2).
  assert (Hn3 : h3 !! n = Some (set_entry (links s (ctx_par k) (rootp a) (rootp b)) (fix_bin s dn a b)))
    by (unfold h3; by rewrite lookup_insert_eq).
  rewrite deref_eq, Hn3. cbn [mbind option_bind].
  autorewrite with rb_links.
  (* m takes the place of n *)
  assert (Hm3 : h3 !! m = Some (set_entry (links s (Some n) (rootp b) (rootp c)) dm)).
  { unfold h3. rewrite lookup_insert_ne by done. rewrite (proj1 C2) by dj.
    unfold h1. by rewrite lookup_insert_ne. }
  rewrite (upd_eq _ _ _ _ _ Hm3). cbn [mbind option_bind]. autorewrite with rb_links.
  set (h4 := <[m := _]> h3).
  assert (C4 : changes [m] h3 h4) by (apply changes_insert; by rewrite Hm3).
  assert (C14 : changes ([n] ++ ptrs b ++ [n] ++ [m]) h h4).
  { eapply changes_trans; [exact C1|]. eapply changes_trans; [exact C2|].
    eapply changes_trans; [exact C3|exact C4]. }
  assert (Hk4 : repr_ctx h4 rt (Some n) k) by (eapply repr_ctx_changes; [exact C14|done|dj]).
  destruct (replace_child_spec h4 rt k n (Some m) Hk4 ltac:(dj) ltac:(done))
    as (h5 & rt5 & E5 & Hk5 & C5).
  rewrite E5. cbn [mbind option_bind].
  assert (Hm5 : h5 !! m = Some (set_entry (links s (ctx_par k) (rootp b) (rootp c)) dm)).
  { rewrite (proj1 C5) by dj. unfold h4. by rewrite lookup_insert_eq. }
  rewrite (upd_eq _ _ _ _ _ Hm5). cbn [mbind option_bind]. autorewrite with rb_links.
  assert (Hn6 : <[m:=set_entry (links s (ctx_par k) (Some n) (rootp c)) dm]> h5 !! n =
                Some (set_entry (links s (ctx_par k) (rootp a) (rootp b)) (fix_bin s dn a b))).
  { rewrite lookup_insert_ne by done. rewrite (proj1 C5) by dj. unfold h4.
    rewrite lookup_insert_ne by done. unfold h3. by rewrite lookup_insert_eq. }
  rewrite (upd_eq _ _ _ _ _ Hn6). cbn [mbind option_bind]. autorewrite with rb_links.
  set (h7 := <[n := _]> _).
  assert (C7 : changes [m; n] h5 h7).
  { eapply (changes_trans [m] [n]); apply changes_insert; [by rewrite Hm5 | by rewrite Hn6]. }
  assert (C57 : changes (ctx_ptrs k ++ [m; n]) h4 h7) by (eapply changes_trans; [exact C5|exact C7]).
  (* the result *)
  assert (Hperm : ptrs (bin s (bin s a n (fix_bin s dn a b) b) m dm c) ≡ₚ
                  ptrs (bin s a n dn (bin s b m dm c))).
  { rewrite !ptrs_bin. cbn. rewrite Permutation_swap, <- !app_assoc.
    by rewrite (Permutation_middle (ptrs a)). }
  eexists. split; [reflexivity|].
  split_and!; cbn [heap root].
  - rewrite !repr_bin, rootp_bin. split_and!.
    + unfold h7. rewrite lookup_insert_ne by done. by rewrite lookup_insert_eq.
    + unfold h7. by rewrite lookup_insert_eq.
    + eapply repr_changes; [exact C57| |dj]. eapply repr_changes; [exact C4| |dj].
      eapply repr_changes; [exact C3|done|dj].
    + eapply repr_changes; [exact C57| |dj]. eapply repr_changes; [exact C4| |dj].
      eapply repr_changes; [exact C3|done|dj].
    + eapply repr_changes; [exact C57| |dj]. eapply repr_changes; [exact C14|done|dj].
  - rewrite rootp_bin. eapply repr_ctx_changes; [exact C7|done|dj].
  - rewrite Hperm. exact Hnd.
  - intros p. rewrite (proj2 C57), (proj2 C14), Hdom. by rewrite Hperm.
Qed.

(** ** Summaries of a list of allocations *)

(** Bounds of the addresses in use, such that no difference of two of them wraps, and a
    page away from the ends of the 64-bit range. *)
Class Window := {
  wlo : Z; whi : Z;
  win_lo : - 2 ^ 63 + 4096 <= wlo; win_hi : whi + 4096 < 2 ^ 63; win_width : whi - wlo < 2 ^ 63 }.

Definition before (x y : ptr * Alloc) : Prop := a_ub x.2 <= a_lb y.2.

Definition in_window `{Window} (x : ptr * Alloc) : Prop :=
  wlo <= a_lb x.2 ∧ a_lb x.2 <= a_ub x.2 ∧ a_ub x.2 <= whi.

(** Disjoint allocations in the order of their addresses. *)
Definition ordered `{Window} (l : list (ptr * Alloc)) : Prop :=
  StronglySorted before l ∧ Forall in_window l.

Definition lo (l : list (ptr * Alloc)) : Z :=
  match l with [] => INTPTR_MAX | x :: _ => a_lb x.2 end.

Definition hi (l : list (ptr * Alloc)) : Z :=
  match last l with None => INTPTR_MIN | Some x => a_ub x.2 end.

(** The largest gap between two neighbours. *)
Fixpoint max_gap (l : list (ptr * Alloc)) : Z :=
  match l with
  | x :: ((y :: _) as l') => Z.max (a_lb y.2 - a_ub x.2) (max_gap l')
  | _ => 0
  end.

(** The caches of the node [d] are those of a sub-tree with the allocations [l]. *)
Definition cached (d : Node) (l : list (ptr * Alloc)) : Prop :=
  n_lb d = lo l ∧ n_ub d = hi l ∧ n_gap d = max_gap l.

Fixpoint aug (f : itree) : Prop :=
  match f with
  | Leaf => True
  | Bin l p d r => cached d (inorder f) ∧ aug l ∧ aug r
  end.

(** The caches on a path, above a sub-tree with the allocations [l]. *)
Fixpoint aug_ctx (l : list (ptr * Alloc)) (k : list frame) : Prop :=
  match k with
  | [] => True
  | Frame s p d sib :: k =>
      let l' := catl s l (p, n_alloc d) (inorder sib) in
      cached d l' ∧ aug sib ∧ aug_ctx l' k
  end.

Section Summaries.
Context `{Window}.

Lemma ordered_app l1 l2 :
  ordered (l1 ++ l2) ↔
  ordered l1 ∧ ordered l2 ∧ (∀ x y, x ∈ l1 → y ∈ l2 → before x y).
Proof.
  unfold ordered. rewrite StronglySorted_app, Forall_app. naive_solver.
Qed.

Lemma ordered_cons x l :
  ordered (x :: l) ↔ in_window x ∧ ordered l ∧ (∀ y, y ∈ l → before x y).
Proof.
  unfold ordered. rewrite StronglySorted_cons, Forall_cons, (Forall_forall (before x)).
  naive_solver.
Qed.

Lemma ordered_in l x : ordered l → x ∈ l → in_window x.
Proof. intros [_ Hf]. by rewrite Forall_forall in Hf; apply Hf. Qed.

Lemma lo_in l : l ≠ [] → ∃ x, x ∈ l ∧ lo l = a_lb x.2.
Proof. destruct l as [|x l]; [done|]. intros _. exists x. split; [by left|done]. Qed.

Lemma hi_in l : l ≠ [] → ∃ x, x ∈ l ∧ hi l = a_ub x.2.
Proof.
  intros Hl. unfold hi. destruct (last l) as [x|] eqn:E; [|by apply last_None in E].
  exists x. split; [|done]. apply last_Some in E as [l' ->]. apply elem_of_app. right. by left.
Qed.

Lemma lo_app l x r : ordered (l ++ x :: r) → Z.min (lo l) (a_lb x.2) = lo (l ++ x :: r).
Proof.
  intros (Hl & (Hx & _)%ordered_cons & Hb)%ordered_app. unfold in_window in *.
  pose proof win_hi. destruct l as [|y l]; cbn; [unfold INTPTR_MAX; lia|].
  pose proof (Hb y x ltac:(by left) ltac:(by left)). unfold before in *.
  pose proof (ordered_in _ y Hl ltac:(by left)). unfold in_window in *. lia.
Qed.

Lemma hi_app l x r : ordered (l ++ x :: r) → Z.max (hi r) (a_ub x.2) = hi (l ++ x :: r).
Proof.
  intros (Hl & (Hx & Hr & Hb)%ordered_cons & _)%ordered_app. unfold in_window in *.
  pose proof win_lo. unfold hi at 2. rewrite last_app_cons. destruct r as [|y r].
  - unfold hi, INTPTR_MIN. cbn. lia.
  - rewrite last_cons_cons. fold (hi (y :: r)). destruct (hi_in (y :: r)) as (z & Hz & Ez); [done|].
    pose proof (Hb z Hz). pose proof (ordered_in _ z Hr Hz). unfold before, in_window in *.
    fold (hi (y :: r)) in *. lia.
Qed.

Lemma max_gap_app l x r :
  max_gap (l ++ x :: r) =
  Z.max (Z.max (max_gap l) (max_gap r))
        (Z.max (match l with [] => 0 | _ => a_lb x.2 - hi l end)
               (match r with [] => 0 | _ => lo r - a_ub x.2 end)).
Proof.
  assert (Hnn : ∀ l, 0 <= max_gap l) by (intros l'; induction l' as [|? [|??]]; cbn in *; lia).
  pose proof (Hnn r). induction l as [|y l IH].
  - destruct r as [|z r]; cbn in *; lia.
  - destruct l as [|z l].
    + destruct r as [|w r]; unfold hi; cbn in *; lia.
    + cbn [app max_gap] in *. rewrite IH. unfold hi. rewrite last_cons_cons. lia.
Qed.

Lemma max_gap_bound l : ordered l → 0 <= max_gap l < 2 ^ 63.
Proof.
  pose proof win_width. induction l as [|x l IH]; cbn; [lia|].
  intros (Hx & Hl & Hb)%ordered_cons. destruct l as [|y l]; [lia|].
  pose proof (Hb y ltac:(by left)). pose proof (ordered_in _ y Hl ltac:(by left)).
  unfold before, in_window in *. specialize (IH Hl). lia.
Qed.

Lemma aug_root f d : aug f → rootd f = Some d → cached d (inorder f).
Proof. destruct f; [done|]. cbn. intros (? & _) [= <-]. done. Qed.

Lemma inorder_nil f : rootd f = None ↔ inorder f = [].
Proof. destruct f; cbn; [done|]. split; [done|]. intros Hx. by apply app_eq_nil in Hx as [_ ?]. Qed.

(** [fix] computes the caches of a node from those of its children. *)
Lemma fix_node_cached d p l r :
  ordered (inorder l ++ (p, n_alloc d) :: inorder r) → aug l → aug r →
  cached (fix_node d (rootd l) (rootd r)) (inorder l ++ (p, n_alloc d) :: inorder r).
Proof.
  intros Ho Hl Hr. pose proof (lo_app _ _ _ Ho) as Elo. pose proof (hi_app _ _ _ Ho) as Ehi.
  pose proof (max_gap_app (inorder l) (p, n_alloc d) (inorder r)) as Eg. cbn in Elo, Ehi, Eg.
  pose proof (max_gap_bound _ Ho) as Hb. rewrite Eg in Hb. unfold cached.
  rewrite <- Elo, <- Ehi, Eg. clear Elo Ehi Eg.
  apply ordered_app in Ho as (Hol & (Hx & Hor & Hbr)%ordered_cons & Hbl).
  cbn in Hbl. pose proof win_width.
  assert (Hgl : match inorder l with [] => 0 | _ :: _ => a_lb (n_alloc d) - hi (inorder l) end =
                match rootd l with None => 0 | Some y => u64 (a_lb (n_alloc d) - n_ub y) end).
  { destruct (rootd l) as [y|] eqn:E; [|by apply inorder_nil in E as ->].
    destruct (aug_root _ _ Hl E) as (_ & -> & _).
    destruct (inorder l) eqn:E2; [by apply inorder_nil in E2; congruence|]. rewrite <- E2 in *.
    destruct (hi_in (inorder l)) as (z & Hz & ->); [congruence|].
    pose proof (Hbl z _ Hz ltac:(by left)). pose proof (ordered_in _ _ Hol Hz).
    unfold before, in_window in *. cbn in *. rewrite wrapu_small; lia. }
  assert (Hgr : match inorder r with [] => 0 | _ :: _ => lo (inorder r) - a_ub (n_alloc d) end =
                match rootd r with None => 0 | Some y => u64 (n_lb y - a_ub (n_alloc d)) end).
  { destruct (rootd r) as [y|] eqn:E; [|by apply inorder_nil in E as ->].
    destruct (aug_root _ _ Hr E) as (-> & _).
    destruct (inorder r) eqn:E2; [by apply inorder_nil in E2; congruence|]. rewrite <- E2 in *.
    destruct (lo_in (inorder r)) as (z & Hz & ->); [congruence|].
    pose proof (Hbr z Hz). pose proof (ordered_in _ _ Hor Hz).
    unfold before, in_window in *. cbn in *. rewrite wrapu_small; lia. }
  unfold fix_node. cbn. rewrite <- Hgl, <- Hgr.
  split_and!.
  - f_equal. destruct (rootd l) as [y|] eqn:E; [apply (aug_root _ _ Hl E)|].
    by apply inorder_nil in E as ->.
  - f_equal. destruct (rootd r) as [y|] eqn:E; [apply (aug_root _ _ Hr E)|].
    by apply inorder_nil in E as ->.
  - assert (match rootd l with None => 0 | Some y => n_gap y end = max_gap (inorder l)) as ->.
    { destruct (rootd l) as [y|] eqn:E; [apply (aug_root _ _ Hl E)|]. by apply inorder_nil in E as ->. }
    assert (match rootd r with None => 0 | Some y => n_gap y end = max_gap (inorder r)) as ->.
    { destruct (rootd r) as [y|] eqn:E; [apply (aug_root _ _ Hr E)|]. by apply inorder_nil in E as ->. }
    rewrite wrapu_small; lia.
Qed.

Lemma fix_bin_cached s d p a b :
  ordered (inorder (bin s a p d b)) → aug a → aug b →
  cached (fix_bin s d a b) (inorder (bin s a p d b)).
Proof. destruct s; cbn; intros; by apply fix_node_cached. Qed.

(** ** The invariant without colors *)

Definition good (X : list ptr) (t : Tree) (k : list frame) (f : itree) : Prop :=
  zip X t k f ∧ aug f ∧ aug_ctx (inorder f) k ∧ ordered (inorder (plug k f)).

Lemma aug_bin s a p d b :
  aug (bin s a p d b) ↔ cached d (catl s (inorder a) (p, n_alloc d) (inorder b)) ∧ aug a ∧ aug b.
Proof. destruct s; cbn; tauto. Qed.

Lemma good_move X t s p d sib k f :
  good X t (Frame s p d sib :: k) f ↔
  zip X t k (bin s f p d sib) ∧ aug (bin s f p d sib) ∧
  aug_ctx (inorder (bin s f p d sib)) k ∧ ordered (inorder (plug k (bin s f p d sib))).
Proof.
  unfold good. rewrite zip_move, aug_bin, inorder_bin. cbn. tauto.
Qed.

Lemma good_up X t s p d sib k f :
  good X t (Frame s p d sib :: k) f → good X t k (bin s f p d sib).
Proof. by rewrite good_move. Qed.

Lemma good_down X t s p d sib k f :
  good X t k (bin s f p d sib) → good X t (Frame s p d sib :: k) f.
Proof. by rewrite good_move. Qed.

(** Down to the other child. *)
Lemma good_down_opp X t s p d sib k f :
  good X t k (bin s sib p d f) → good X t (Frame (opp s) p d sib :: k) f.
Proof. intros. apply good_down. by rewrite bin_opp. Qed.

Lemma good_plug X t k f : good X t k f ↔ good X t [] (plug k f).
Proof.
  revert f. induction k as [|[s p d sib] k IH]; intros f; [done|].
  rewrite good_move. cbn. rewrite <- IH. done.
Qed.

Lemma good_plugged X t k f : good X t k f → good X t [] (plug k f).
Proof. apply good_plug. Qed.

Lemma ordered_sub k f : ordered (inorder (plug k f)) → ordered (inorder f).
Proof. rewrite plug_inorder. intros (_ & (? & _)%ordered_app & _)%ordered_app. done. Qed.

Lemma good_deref X t k s l p d r :
  good X t k (bin s l p d r) →
  deref t (Some p) = Some (set_entry (links s (ctx_par k) (rootp l) (rootp r)) d).
Proof. intros [Hz _]. by eapply deref_bin. Qed.

Lemma good_black X t k f :
  good X t k f →
  is_black t (rootp f) =
    Some (match rootd f with None => true | Some d => bool_decide (RB_COLOR d = RB_BLACK) end).
Proof.
  intros Hg. destruct f as [|l p d r]; [done|]. unfold is_black, deref_opt. cbn [rootp].
  rewrite (good_deref _ _ _ LEFT _ _ _ _ Hg). done.
Qed.

Lemma good_color X t k s l p d r c :
  good X t k (bin s l p d r) →
  ∃ t', upd (Some p) (set_color c) t = Some t' ∧ good X t' k (bin s l p (set_color c d) r).
Proof.
  intros (Hz & Ha & Hk & Ho). destruct (zip_upd _ _ _ _ _ _ _ _ _ Hz (keeps_color c)) as (t' & E & Hz').
  exists t'. split; [done|]. unfold good. rewrite plug_inorder, aug_bin, inorder_bin in *. cbn. done.
Qed.

Lemma cached_fix_same s d p a b :
  cached d (inorder (bin s a p d b)) → cached (fix_bin s d a b) (inorder (bin s a p d b)) →
  fix_bin s d a b = d.
Proof.
  intros (H1 & H2 & H3) (H4 & H5 & H6). rewrite <- H1 in H4. rewrite <- H2 in H5. rewrite <- H3 in H6.
  destruct d. destruct s; cbn in *; unfold fix_node in *; cbn in *; by rewrite H4, H5, H6.
Qed.

Lemma good_fix X t k s a p d b :
  good X t k (bin s a p d b) → fix_ (Some p) t = Some t.
Proof.
  intros Hg. assert (Hg' := Hg). destruct Hg' as (Hz & Ha & Hk & Ho).
  pose proof (ordered_sub _ _ Ho) as Ho'. apply aug_bin in Ha as (Hc & Haa & Hab).
  rewrite <- inorder_bin in Hc.
  pose proof (cached_fix_same _ _ _ _ _ Hc (fix_bin_cached _ _ _ _ _ Ho' Haa Hab)) as Es.
  destruct Hz as (Hr & _). destruct t as [h rt]. cbn in Hr.
  assert (Hp : h !! p = Some (set_entry (links s (ctx_par k) (rootp a) (rootp b)) d))
    by (destruct s; apply Hr).
  rewrite (fix_heap h rt s (ctx_par k) a p d b Hp) by (destruct s; eapply repr_rooted, Hr).
  by rewrite Es, insert_id.
Qed.

Lemma good_fix_par X t k f : good X t k f → fix_ (ctx_par k) t = Some t.
Proof. destruct k as [|[s p d sib] k]; [done|]. intros Hg%good_up. by eapply good_fix. Qed.

(** A node whose caches may have changed. *)
Definition same_data (d d' : Node) : Prop := n_alloc d' = n_alloc d ∧ n_color d' = n_color d.

(** [rotateLeft] and [rotateRight] on a tree whose caches are right. *)
Lemma rotate_good X t k s a n dn b m dm c :
  good X t k (bin s a n dn (bin s b m dm c)) →
  ∃ t' dn' dm',
    rotate s (Some n) t = Some t' ∧ good X t' k (bin s (bin s a n dn' b) m dm' c) ∧
    same_data dn dn' ∧ same_data dm dm'.
Proof.
  intros (Hz & Ha & Hk & Ho). destruct (rotate_links _ _ _ _ _ _ _ _ _ _ _ Hz) as (t1 & E & Hz1).
  destruct (zip_fix _ _ _ _ _ _ _ _ Hz1) as (t2 & E2 & Hz2).
  set (dn' := fix_bin s dn a b) in *. set (dm' := fix_bin s dm (bin s a n dn' b) c) in *.
  assert (An : n_alloc dn' = n_alloc dn) by (unfold dn'; by destruct s).
  assert (Am : n_alloc dm' = n_alloc dm) by (unfold dm'; by destruct s).
  assert (Ein : inorder (bin s (bin s a n dn' b) m dm' c) = inorder (bin s a n dn (bin s b m dm c))).
  { rewrite !inorder_bin, An, Am. destruct s; cbn; by rewrite <- ?app_assoc. }
  assert (Hg : good X t2 k (bin s (bin s a n dn' b) m dm' c)).
  { apply aug_bin in Ha as (_ & Haa & (_ & Hab & Hac)%aug_bin).
    assert (Ho' : ordered (inorder (bin s (bin s a n dn' b) m dm c))).
    { apply ordered_sub in Ho. rewrite <- Ein, inorder_bin, Am in Ho. by rewrite inorder_bin. }
    assert (Hon : ordered (inorder (bin s a n dn b))).
    { rewrite inorder_bin in *. rewrite inorder_bin, An in Ho'.
      destruct s; cbn in *; [by apply ordered_app in Ho' as [? _]|].
      by apply ordered_app in Ho' as (_ & (_ & ? & _)%ordered_cons & _). }
    assert (Hn' : aug (bin s a n dn' b)).
    { apply aug_bin. split_and!; [|done..]. rewrite An, <- inorder_bin. by apply fix_bin_cached. }
    split_and!.
    - done.
    - apply aug_bin. split_and!; [|done..]. rewrite Am, <- (inorder_bin _ _ _ dm). by apply fix_bin_cached.
    - by rewrite Ein.
    - rewrite plug_inorder in *. by rewrite Ein. }
  exists t2, dn', dm'. split_and!; [|done|split; [done|unfold dn'; by destruct s]|split; [done|unfold dm'; by destruct s]].
  rewrite E, E2. cbn [mbind option_bind]. rewrite (good_deref _ _ _ _ _ _ _ _ Hg). cbn [mbind option_bind].
  rewrite links_parent. by eapply good_fix_par.
Qed.

(** ** Updating the caches of a path *)

Definition same_frame (fr fr' : frame) : Prop :=
  f_side fr' = f_side fr ∧ f_ptr fr' = f_ptr fr ∧ f_sib fr' = f_sib fr ∧
  same_data (f_data fr) (f_data fr').

Definition sib_aug (k : list frame) : Prop := Forall (λ fr, aug (f_sib fr)) k.

Lemma same_frames_plug k k' f f' :
  Forall2 same_frame k k' → inorder f' = inorder f →
  inorder (plug k' f') = inorder (plug k f).
Proof.
  intros Hk. revert f f'. induction Hk as [|fr fr' k k' (Es & Ep & Eb & Ea & _) Hk IH]; intros f f' E; [done|].
  cbn. apply IH. rewrite !inorder_bin. by rewrite Es, Ep, Eb, Ea, E.
Qed.

Lemma fix_up_good X k : ∀ fuel t s a p d b,
  (length k < fuel)%nat → zip X t k (bin s a p d b) → aug a → aug b → sib_aug k →
  ordered (inorder (plug k (bin s a p d b))) →
  ∃ t' d' k',
    fix_up fuel (Some p) t = Some t' ∧ good X t' k' (bin s a p d' b) ∧
    same_data d d' ∧ Forall2 same_frame k k'.
Proof.
  induction k as [|[s2 p2 d2 sib] k IH]; intros fuel t s a p d b Hf Hz Ha Hb Hk Ho;
    (destruct fuel as [|fuel]; [cbn in Hf; lia|]);
    destruct (zip_fix _ _ _ _ _ _ _ _ Hz) as (t1 & E & Hz1); cbn [fix_up]; rewrite E;
    cbn [mbind option_bind]; rewrite (deref_bin _ _ _ _ _ _ _ _ Hz1); cbn [mbind option_bind];
    rewrite links_parent; set (d1 := fix_bin s d a b) in *;
    (assert (S1 : same_data d d1) by (unfold d1; by destruct s));
    (assert (Ein : inorder (bin s a p d1 b) = inorder (bin s a p d b))
       by (rewrite !inorder_bin; by rewrite (proj1 S1)));
    (assert (A1 : aug (bin s a p d1 b))
       by (apply aug_bin; rewrite (proj1 S1), <- (inorder_bin s a p d b); split_and!; [|done..];
           apply fix_bin_cached; [|done..]; by eapply ordered_sub)).
  - exists t1, d1, []. cbn [ctx_par]. split_and!; try done; [by destruct fuel|].
    split_and!; try done. cbn in *. by rewrite Ein.
  - rewrite zip_move in Hz1. apply Forall_cons in Hk as [Hs Hk].
    destruct (IH fuel t1 s2 (bin s a p d1 b) p2 d2 sib) as (t' & d2' & k' & E' & Hg & S2 & Hk'); try done.
    { cbn in Hf. lia. }
    { cbn in Ho. rewrite plug_inorder, (inorder_bin s2) in Ho |- *. by rewrite Ein. }
    exists t', d1, (Frame s2 p2 d2' sib :: k'). split_and!; [done| |done|].
    + by apply good_down.
    + by constructor.
Qed.

(** ** Colors *)

Definition col (f : itree) : Color := match rootd f with None => RB_BLACK | Some d => n_color d end.

Definition ctx_col (k : list frame) : Color :=
  match k with [] => RB_BLACK | fr :: _ => n_color (f_data fr) end.

(** The red-black property, with black height [n]. *)
Fixpoint rb (f : itree) (n : nat) : Prop :=
  match f with
  | Leaf => n = O
  | Bin l p d r =>
      match n_color d, n with
      | RB_RED, _ => rb l n ∧ rb r n ∧ col l = RB_BLACK ∧ col r = RB_BLACK
      | RB_BLACK, S m => rb l m ∧ rb r m
      | RB_BLACK, O => False
      end
  end.

(** The same of a path, around a sub-tree of black height [n]. *)
Fixpoint rb_ctx (k : list frame) (n : nat) : Prop :=
  match k with
  | [] => True
  | Frame s p d sib :: k =>
      rb sib n ∧
      match n_color d with
      | RB_BLACK => rb_ctx k (S n)
      | RB_RED => col sib = RB_BLACK ∧ ctx_col k = RB_BLACK ∧ k ≠ [] ∧ rb_ctx k n
      end
  end.

Lemma rb_bin s a p d b n :
  rb (bin s a p d b) n ↔
  match n_color d, n with
  | RB_RED, _ => rb a n ∧ rb b n ∧ col a = RB_BLACK ∧ col b = RB_BLACK
  | RB_BLACK, S m => rb a m ∧ rb b m
  | RB_BLACK, O => False
  end.
Proof. destruct s, n; cbn; destruct (n_color d); tauto. Qed.

Lemma col_bin s a p d b : col (bin s a p d b) = n_color d.
Proof. unfold col. by rewrite rootd_bin. Qed.

Lemma rb_plug k f n :
  rb f n → rb_ctx k n → (col f = RB_RED → ctx_col k = RB_BLACK) →
  (∃ m, rb (plug k f) m) ∧ (k ≠ [] → col (plug k f) = RB_BLACK).
Proof.
  revert f n. induction k as [|[s p d sib] k IH]; intros f n Hf Hk Hc; cbn in *; [by split; [eauto|]|].
  destruct Hk as [Hs Hk]. destruct (n_color d) eqn:Ed.
  - destruct (IH (bin s f p d sib) (S n)) as [Hm Hcol]; [rewrite rb_bin, Ed; done|done|rewrite col_bin; congruence|].
    split; [done|]. intros _. destruct k as [|fr k]; [by cbn; rewrite col_bin|]. by apply Hcol.
  - destruct Hk as (Hsc & Hkc & Hne & Hk).
    destruct (IH (bin s f p d sib) n) as [Hm Hcol]; [|done|done|split; [done|auto]].
    rewrite rb_bin, Ed. split_and!; try done. destruct (col f); [done|]. by specialize (Hc eq_refl).
Qed.

Lemma good_black_par X t k f :
  good X t k f → is_black t (ctx_par k) = Some (bool_decide (ctx_col k = RB_BLACK)).
Proof.
  destruct k as [|[s p d sib] k]; [done|]. intros Hg%good_up%good_black.
  rewrite rootp_bin, rootd_bin in Hg. done.
Qed.

(** Colors of the children of the node in focus. *)
Lemma good_color_child X t k s s1 a p d b g dg u c :
  good X t k (bin s (bin s1 a p d b) g dg u) →
  ∃ t', upd (Some p) (set_color c) t = Some t' ∧
        good X t' k (bin s (bin s1 a p (set_color c d) b) g dg u).
Proof.
  intros Hg%good_down. destruct (good_color _ _ _ _ _ _ _ _ c Hg) as (t' & E & Hg').
  exists t'. split; [done|]. by apply good_up in Hg'.
Qed.

Lemma good_color_child_opp X t k s s1 a p d b g dg u c :
  good X t k (bin s u g dg (bin s1 a p d b)) →
  ∃ t', upd (Some p) (set_color c) t = Some t' ∧
        good X t' k (bin s u g dg (bin s1 a p (set_color c d) b)).
Proof. rewrite <- !(bin_opp s u). apply good_color_child. Qed.

(** The test that finds the side of the parent on which a sub-tree is. *)
Lemma side_of X t s p d sib k f :
  zip X t (Frame s p d sib :: k) f → (rootp f ≠ None ∨ rootp sib ≠ None) →
  (if decide (rootp f = RB_LEFT (set_entry (links s (ctx_par k) (rootp f) (rootp sib)) d))
   then LEFT else RIGHT) = s.
Proof.
  intros (_ & _ & Hnd & _) Hne. destruct s; cbn; [by rewrite decide_True|].
  rewrite decide_False; [done|]. intros E.
  destruct (rootp sib) as [q|] eqn:Eq; [|rewrite E in Hne; naive_solver].
  apply rootp_in in Eq, E. nodup_in Hnd.
  assert (Hd : dsj (ptrs f) (ptrs sib)) by dj. by apply (Hd q).
Qed.

(** ** The loop of [rebalanceInsert]

    One iteration with a red uncle moves the red node two levels up; one with a black
    uncle makes the tree red-black. *)

Lemma insert_step_recolor X t k2 s2 s1 n f p dp sib g dg s3 ul u du ur :
  rootp f = Some n → n_color du = RB_RED →
  good X t k2 (bin s2 (bin s1 f p dp sib) g dg (bin s3 ul u du ur)) →
  ∃ t', rebalanceInsert_step s2 (Some n) (Some p) (Some g) t = Some (Some g, t') ∧
        good X t' k2 (bin s2 (bin s1 f p (set_color RB_BLACK dp) sib) g (set_color RB_RED dg)
                          (bin s3 ul u (set_color RB_BLACK du) ur)).
Proof.
  intros Hf Hu Hg. unfold rebalanceInsert_step.
  rewrite (good_deref _ _ _ _ _ _ _ _ Hg). cbn [mbind option_bind]. rewrite links_child_opp.
  pose proof (good_black _ _ _ _ (good_down_opp _ _ _ _ _ _ _ _ Hg)) as Hb.
  rewrite Hb, rootd_bin. unfold RB_COLOR. rewrite Hu. cbn [mbind option_bind negb bool_decide].
  rewrite rootp_bin.
  destruct (good_color_child_opp _ _ _ _ _ _ _ _ _ _ _ _ RB_BLACK Hg) as (t1 & -> & G1).
  cbn [mbind option_bind].
  destruct (good_color_child _ _ _ _ _ _ _ _ _ _ _ _ RB_BLACK G1) as (t2 & -> & G2).
  cbn [mbind option_bind].
  destruct (good_color _ _ _ _ _ _ _ _ RB_RED G2) as (t3 & -> & G3).
  cbn [mbind option_bind]. by eexists.
Qed.

(** The node on the outer side: one rotation. *)
Lemma insert_step_outer X t k2 s n f p dp sib g dg unc :
  rootp f = Some n → col unc = RB_BLACK →
  good X t k2 (bin s (bin s f p dp sib) g dg unc) →
  ∃ t' dp' dg',
    rebalanceInsert_step s (Some n) (Some p) (Some g) t = Some (Some n, t') ∧
    good X t' k2 (bin (opp s) (bin (opp s) unc g dg' sib) p dp' f) ∧
    same_data (set_color RB_RED dg) dg' ∧ same_data (set_color RB_BLACK dp) dp'.
Proof.
  intros Hf Hu Hg. unfold rebalanceInsert_step.
  rewrite (good_deref _ _ _ _ _ _ _ _ Hg). cbn [mbind option_bind]. rewrite links_child_opp.
  pose proof (good_black _ _ _ _ (good_down_opp _ _ _ _ _ _ _ _ Hg)) as Hb.
  rewrite Hb. unfold col in Hu.
  assert (match rootd unc with None => true | Some d => bool_decide (RB_COLOR d = RB_BLACK) end = true) as ->.
  { destruct (rootd unc); [by apply bool_decide_eq_true|done]. }
  cbn [mbind option_bind negb].
  assert (Gp := good_down _ _ _ _ _ _ _ _ Hg).
  rewrite (good_deref _ _ _ _ _ _ _ _ Gp). cbn [mbind option_bind]. rewrite links_child_opp.
  rewrite decide_False; [cbn [mbind option_bind]|].
  2: { intros E%rootp_in. apply rootp_in in Hf. destruct Gp as ((_ & _ & Hnd & _) & _). nodup_in Hnd.
       assert (Hd : dsj (ptrs f) (ptrs sib)) by dj. by apply (Hd n). }
  destruct (good_color_child _ _ _ _ _ _ _ _ _ _ _ _ RB_BLACK Hg) as (t1 & -> & G1).
  cbn [mbind option_bind].
  destruct (good_color _ _ _ _ _ _ _ _ RB_RED G1) as (t2 & -> & G2).
  cbn [mbind option_bind].
  rewrite <- (bin_opp s _ g), <- (bin_opp s f p) in G2.
  destruct (rotate_good _ _ _ _ _ _ _ _ _ _ _ G2) as (t3 & dg' & dp' & -> & G3 & S1 & S2).
  cbn [mbind option_bind]. by exists t3, dp', dg'.
Qed.

(** The node on the inner side: a rotation of its parent first. *)
Lemma insert_step_inner X t k2 s a n dn b p dp sib g dg unc :
  col unc = RB_BLACK →
  good X t k2 (bin s (bin s sib p dp (bin s a n dn b)) g dg unc) →
  ∃ t' dp' dn' dg',
    rebalanceInsert_step s (Some n) (Some p) (Some g) t = Some (Some p, t') ∧
    good X t' k2 (bin (opp s) (bin (opp s) unc g dg' b) n dn' (bin s sib p dp' a)) ∧
    same_data dp dp' ∧ same_data (set_color RB_RED dg) dg' ∧ same_data (set_color RB_BLACK dn) dn'.
Proof.
  intros Hu Hg. unfold rebalanceInsert_step.
  rewrite (good_deref _ _ _ _ _ _ _ _ Hg). cbn [mbind option_bind]. rewrite links_child_opp.
  pose proof (good_black _ _ _ _ (good_down_opp _ _ _ _ _ _ _ _ Hg)) as Hb.
  rewrite Hb. unfold col in Hu.
  assert (match rootd unc with None => true | Some d => bool_decide (RB_COLOR d = RB_BLACK) end = true) as ->.
  { destruct (rootd unc); [by apply bool_decide_eq_true|done]. }
  cbn [mbind option_bind negb].
  assert (Gp := good_down _ _ _ _ _ _ _ _ Hg).
  rewrite (good_deref _ _ _ _ _ _ _ _ Gp). cbn [mbind option_bind]. rewrite links_child_opp.
  rewrite rootp_bin, decide_True by done. cbn [mbind option_bind].
  destruct (rotate_good _ _ _ _ _ _ _ _ _ _ _ Gp) as (t0 & dp' & dn1 & -> & G0 & S1 & S2).
  cbn [mbind option_bind]. apply good_up in G0.
  destruct (good_color_child _ _ _ _ _ _ _ _ _ _ _ _ RB_BLACK G0) as (t1 & -> & G1).
  cbn [mbind option_bind].
  destruct (good_color _ _ _ _ _ _ _ _ RB_RED G1) as (t2 & -> & G2).
  cbn [mbind option_bind].
  rewrite <- (bin_opp s _ g), <- (bin_opp s _ n) in G2.
  destruct (rotate_good _ _ _ _ _ _ _ _ _ _ _ G2) as (t3 & dg' & dn' & -> & G3 & S3 & S4).
  cbn [mbind option_bind]. exists t3, dp', dn', dg'. split_and!; try done.
  destruct S2, S4. split; [cbn in *; congruence|done].
Qed.

Lemma rebalanceInsert_loop_end fuel X t k s a n dn b :
  good X t k (bin s a n dn b) → ctx_col k = RB_BLACK →
  rebalanceInsert_loop fuel (Some n) t = Some t.
Proof.
  intros Hg Hk. destruct fuel; cbn [rebalanceInsert_loop];
    rewrite (good_deref _ _ _ _ _ _ _ _ Hg); cbn [mbind option_bind];
    rewrite links_parent, (good_black_par _ _ _ _ Hg); cbn [mbind option_bind];
    by rewrite bool_decide_true.
Qed.

Lemma bin_orient s s2 a p d b : ∃ a' b', bin s a p d b = bin s2 a' p d b'.
Proof. destruct s, s2; cbn; eauto. Qed.

Lemma rb_red s a p d b n : n_color d = RB_RED →
  rb (bin s a p d b) n ↔ rb a n ∧ rb b n ∧ col a = RB_BLACK ∧ col b = RB_BLACK.
Proof. intros E. by rewrite rb_bin, E. Qed.

Lemma rb_black s a p d b n : n_color d = RB_BLACK → rb (bin s a p d b) (S n) ↔ rb a n ∧ rb b n.
Proof. intros E. by rewrite rb_bin, E. Qed.

(** Equality of in-order lists, once the nodes are known to keep their allocations. *)
Ltac inorder_eq :=
  rewrite ?plug_inorder, ?inorder_bin;
  repeat match goal with H : same_data _ _ |- _ => destruct H as [? _] end;
  cbn [n_alloc set_color] in *;
  repeat match goal with H : n_alloc _ = n_alloc _ |- _ => rewrite H; clear H end;
  repeat match goal with s : side |- _ => destruct s end;
  cbn [catl opp]; repeat first [rewrite <- app_assoc | progress cbn [app]]; reflexivity.

Lemma rebalanceInsert_loop_ok X : ∀ fuel k t s a n dn b h,
  (length k ≤ fuel)%nat → good X t k (bin s a n dn b) → n_color dn = RB_RED →
  rb (bin s a n dn b) h → rb_ctx k h →
  ∃ t' F, rebalanceInsert_loop fuel (Some n) t = Some t' ∧ good X t' [] F ∧
          inorder F = inorder (plug k (bin s a n dn b)) ∧ ∃ m, rb F m.
Proof.
  induction fuel as [fuel IH] using lt_wf_ind. intros k t s a n dn b h Hf Hg Hn Hrb Hk.
  destruct (ctx_col k) eqn:Ek.
  { exists t, (plug k (bin s a n dn b)). split_and!.
    - by eapply rebalanceInsert_loop_end.
    - by apply good_plugged.
    - done.
    - eapply rb_plug; [done|done|auto]. }
  destruct k as [|[s1 p dp sib] [|[s2 g dg unc] k2]]; cbn in Ek, Hk, Hf; [done| |].
  { rewrite Ek in Hk. by destruct Hk as (_ & _ & _ & ? & _). }
  rewrite Ek in Hk. destruct Hk as (Hsib & Hsc & Hdg & _ & Hunc & Hk). rewrite Hdg in Hk.
  destruct fuel as [|fuel]; [lia|]. cbn [rebalanceInsert_loop].
  rewrite (good_deref _ _ _ _ _ _ _ _ Hg). cbn [mbind option_bind]. rewrite links_parent.
  rewrite (good_black_par _ _ _ _ Hg). cbn [mbind option_bind ctx_col f_data]. rewrite Ek.
  assert (Gp := good_up _ _ _ _ _ _ _ _ Hg). cbn [bool_decide ctx_par f_ptr].
  rewrite bool_decide_false by done.
  rewrite (good_deref _ _ _ _ _ _ _ _ Gp). cbn [mbind option_bind]. rewrite links_parent.
  cbn [ctx_par f_ptr]. assert (Gg := good_up _ _ _ _ _ _ _ _ Gp).
  rewrite (good_deref _ _ _ _ _ _ _ _ Gg). cbn [mbind option_bind].
  pose proof (side_of _ _ _ _ _ _ _ _ (proj1 Gp) ltac:(left; by rewrite rootp_bin)) as Hside.
  rewrite rootp_bin in Hside. rewrite rootp_bin, Hside. clear Hside.
  apply rb_red in Hrb as Hrb'; [|done]. destruct Hrb' as (Hra & Hrb' & Hca & Hcb).
  destruct (col unc) eqn:Eu.
  2: { (* red uncle *)
    destruct unc as [|ul u du ur]; [done|]. unfold col in Eu. cbn in Eu.
    destruct (insert_step_recolor X t k2 s2 s1 n (bin s a n dn b) p dp sib g dg LEFT ul u du ur)
      as (t' & -> & G'); [by rewrite rootp_bin|done|done|]. cbn [mbind option_bind].
    edestruct (IH fuel ltac:(lia) k2 t' s2) as (t'' & F & E & GF & Ein & Hm); [lia|exact G'|done| |exact Hk|].
    { apply rb_red; [done|]. rewrite rb_black, !col_bin by done. cbn in Hunc. rewrite Eu in Hunc.
      split_and!; try done. all: apply (rb_black LEFT); [done|]. all: tauto. }
    exists t'', F. split_and!; try done. rewrite Ein. cbn [plug f_side f_ptr f_data f_sib].
    by rewrite !plug_inorder, !inorder_bin. }
  destruct (decide (s1 = s2)) as [->|Hs12].
  - (* outer *)
    destruct (insert_step_outer X t k2 s2 n (bin s a n dn b) p dp sib g dg unc)
      as (t' & dp' & dg' & -> & G' & Sg & Sp); [by rewrite rootp_bin|done|done|].
    cbn [mbind option_bind]. eexists t', _. split_and!.
    + eapply rebalanceInsert_loop_end; [by apply good_down_opp|]. cbn. by destruct Sp.
    + by apply good_plugged.
    + cbn [plug f_side f_ptr f_data f_sib]. inorder_eq.
    + eapply rb_plug; [|exact Hk|]; [|rewrite col_bin; destruct Sp as [_ ->]; done].
      apply rb_black; [by destruct Sp|]. rewrite rb_red by (by destruct Sg). done.
  - (* inner *)
    destruct (bin_orient s s2 a n dn b) as (a' & b' & Eo). rewrite Eo in *.
    assert (E1 : bin s1 (bin s2 a' n dn b') p dp sib = bin s2 sib p dp (bin s2 a' n dn b'))
      by (by destruct s1, s2). rewrite E1 in *.
    apply rb_red in Hrb as (Hra' & Hrb'' & Hca' & Hcb'); [|done].
    destruct (insert_step_inner X t k2 s2 a' n dn b' p dp sib g dg unc)
      as (t' & dp' & dn' & dg' & -> & G' & Sp & Sg & Sn); [done|done|].
    cbn [mbind option_bind]. eexists t', _. split_and!.
    + eapply rebalanceInsert_loop_end; [by apply good_down_opp|]. cbn. by destruct Sn.
    + by apply good_plugged.
    + cbn [plug f_side f_ptr f_data f_sib]. rewrite E1. clear E1 Eo Hs12. inorder_eq.
    + eapply rb_plug; [|exact Hk|]; [|rewrite col_bin; destruct Sn as [_ ->]; done].
      apply rb_black; [by destruct Sn|]. rewrite !rb_red; [done|..].
      * destruct Sp as [_ ->]. done.
      * by destruct Sg.
Qed.

(** A valid tree: the caches and the order are right, it is red-black with a black
    root, and [l] is what it holds. *)
Definition valid (X : list ptr) (t : Tree) (l : list (ptr * Alloc)) : Prop :=
  ∃ F, good X t [] F ∧ inorder F = l ∧ (∃ m, rb F m) ∧ col F = RB_BLACK.

(** The root is colored black at the end. *)
Lemma color_root X t F m :
  good X t [] F → F ≠ Leaf → rb F m →
  ∃ t', upd (root t) (set_color RB_BLACK) t = Some t' ∧ valid X t' (inorder F).
Proof.
  intros Hg HF Hm. rewrite (zip_root _ _ _ (proj1 Hg)). destruct F as [|l p d r]; [done|].
  destruct (good_color X t [] LEFT l p d r RB_BLACK Hg) as (t' & E & G').
  exists t'. split; [exact E|]. eexists. split; [exact G'|]. split_and!; [done| |done].
  cbn in Hm. destruct (n_color d); [destruct m; [done|]; by exists (S m)|].
  destruct Hm as (? & ? & _). by exists (S m).
Qed.

Lemma rb_ctx_frames k k' h : Forall2 same_frame k k' → rb_ctx k h → rb_ctx k' h.
Proof.
  intros K. revert h.
  induction K as [|[s p d b] [s' p' d' b'] k k' (Es & Ep & Eb & _ & Ec) K IH]; [done|].
  cbn [f_side f_ptr f_data f_sib] in *. subst. cbn [rb_ctx]. intros h [? Hk]. rewrite Ec.
  split; [done|]. destruct (n_color d); [by apply IH|]. destruct Hk as (? & Hc & Hne & ?).
  split_and!; [done| | |by apply IH].
  - destruct K as [|?? ?? (_ & _ & _ & _ & Hc')]; [done|]. cbn in *. by rewrite Hc'.
  - by destruct K.
Qed.

(** The effect of [rebalanceInsert] on a tree in which a red leaf was linked. *)
Lemma rebalanceInsert_ok X t k n dn :
  zip X t k (Bin Leaf n dn Leaf) → sib_aug k → rb_ctx k 0 → n_color dn = RB_RED →
  ordered (inorder (plug k (Bin Leaf n dn Leaf))) →
  ∃ t', rebalanceInsert (Some n) t = Some t' ∧
        valid X t' (inorder (plug k (Bin Leaf n dn Leaf))).
Proof.
  intros Hz Hs Hrb Hn Ho. unfold rebalanceInsert. pose proof (zip_size _ _ _ _ Hz) as Hsz.
  destruct (fix_up_good X k (depth_fuel t) t LEFT Leaf n dn Leaf) as (t1 & d1 & k1 & E1 & G1 & S1 & K1);
    [unfold depth_fuel; lia|done..|].
  rewrite E1. cbn [mbind option_bind]. cbn [bin] in G1.
  pose proof (zip_size _ _ _ _ (proj1 G1)) as Hsz1. destruct S1 as [S1 S1'].
  destruct (rebalanceInsert_loop_ok X (depth_fuel t1) k1 t1 LEFT Leaf n d1 Leaf 0)
    as (t2 & F & E2 & G2 & Ein & m & Hm); [unfold depth_fuel; lia|exact G1|congruence| |by eapply rb_ctx_frames|].
  { cbn. by rewrite S1', Hn. }
  rewrite E2. cbn [mbind option_bind].
  assert (Ein' : inorder F = inorder (plug k (Bin Leaf n dn Leaf))).
  { rewrite Ein. apply same_frames_plug; [done|]. cbn. by rewrite S1. }
  destruct (color_root X t2 F m G2) as (t3 & E3 & V3); [|done|].
  { intros ->. rewrite plug_inorder in Ein'. cbn in Ein'. by apply app_cons_not_nil in Ein'. }
  exists t3. split; [done|]. by rewrite <- Ein'.
Qed.

(** ** The loop of [rebalanceRemove]

    The focus lacks one black node: the path around it expects the height [S h].  A red
    focus may have a red child; it is colored black at the end. *)

Definition deficit (f : itree) (h : nat) : Prop :=
  match f with
  | Bin l _ d r => match n_color d with RB_RED => rb l h ∧ rb r h | RB_BLACK => rb f h end
  | Leaf => rb f h
  end.

Lemma deficit_bin s a p d b h :
  deficit (bin s a p d b) h ↔
  match n_color d with RB_RED => rb a h ∧ rb b h | RB_BLACK => rb (bin s a p d b) h end.
Proof. destruct s; cbn [deficit bin]; destruct (n_color d); [done|tauto|done|tauto]. Qed.

Lemma rb_S_bin f h s : rb f (S h) → ∃ a p d b, f = bin s a p d b.
Proof. intros Hf. destruct (bin_cases f s) as [->|?]; [done|done]. Qed.

Lemma col_bool f :
  match rootd f with None => true | Some d => bool_decide (RB_COLOR d = RB_BLACK) end =
  bool_decide (col f = RB_BLACK).
Proof. unfold col. by destruct (rootd f). Qed.

Lemma rb_col_red f h : rb f h → col f = RB_RED → ∀ s, ∃ a p d b,
  f = bin s a p d b ∧ n_color d = RB_RED ∧ rb a h ∧ rb b h ∧ col a = RB_BLACK ∧ col b = RB_BLACK.
Proof.
  intros Hf Hc s. destruct (bin_cases f s) as [->|(a & p & d & b & ->)]; [done|].
  rewrite col_bin in Hc. apply rb_red in Hf; [|done]. by exists a, p, d, b.
Qed.

(** A red sibling: after the rotation the sibling is black. *)
Lemma remove_sibling_ok X t k s p dp sib f h :
  good X t (Frame s p dp sib :: k) f → rb_ctx (Frame s p dp sib :: k) (S h) →
  ∃ t' dp' b m dm c k',
    remove_sibling s (Some p) t = Some (Some m, t') ∧
    good X t' (Frame s p dp' (bin s b m dm c) :: k') f ∧ n_color dm = RB_BLACK ∧
    rb_ctx (Frame s p dp' (bin s b m dm c) :: k') (S h) ∧
    inorder (plug (Frame s p dp' (bin s b m dm c) :: k') f) =
      inorder (plug (Frame s p dp sib :: k) f) ∧
    (n_color dp' = RB_RED ∨ k' = k).
Proof.
  intros Hg Hk. assert (Hk' := Hk). cbn in Hk'. destruct Hk' as [Hsib Hkd].
  destruct (rb_S_bin _ _ s Hsib) as (b & m & dm & c & ->).
  unfold remove_sibling. assert (Gp := good_up _ _ _ _ _ _ _ _ Hg).
  rewrite (good_deref _ _ _ _ _ _ _ _ Gp). cbn [mbind option_bind]. rewrite links_child_opp, rootp_bin.
  rewrite (good_deref _ _ _ _ _ _ _ _ (good_down_opp _ _ _ _ _ _ _ _ Gp)). cbn [mbind option_bind].
  unfold RB_COLOR. cbn [n_color set_entry].
  destruct (decide (n_color dm = RB_RED)) as [Em|Em].
  - destruct (n_color dp) eqn:Edp; [|rewrite col_bin in Hkd; destruct Hkd as [? _]; congruence].
    apply rb_red in Hsib as (Hb & Hc & Hcb & Hcc); [|done].
    destruct (good_color_child_opp _ _ _ _ _ _ _ _ _ _ _ _ RB_BLACK Gp) as (t1 & -> & G1).
    cbn [mbind option_bind].
    destruct (good_color _ _ _ _ _ _ _ _ RB_RED G1) as (t2 & -> & G2). cbn [mbind option_bind].
    destruct (rotate_good _ _ _ _ _ _ _ _ _ _ _ G2) as (t3 & dp' & dm' & -> & G3 & Sp & Sm).
    cbn [mbind option_bind]. assert (G4 := good_down _ _ _ _ _ _ _ _ G3).
    rewrite (good_deref _ _ _ _ _ _ _ _ G4). cbn [mbind option_bind]. rewrite links_child_opp.
    destruct (rb_S_bin _ _ s Hb) as (b1 & q & dq & b2 & ->). rewrite rootp_bin.
    rewrite col_bin in Hcb.
    eexists _, dp', b1, q, dq, b2, _. split_and!; [done|by apply good_down|done| | |].
    + cbn. destruct Sp as [_ ->], Sm as [_ ->]. cbn. rewrite col_bin. done.
    + cbn [plug f_side f_ptr f_data f_sib]. inorder_eq.
    + left. by destruct Sp.
  - assert (Em' : n_color dm = RB_BLACK) by (by destruct (n_color dm)).
    eexists _, dp, b, m, dm, c, k. split_and!; try done. by right.
Qed.

(** The rotations that end the loop. *)
Lemma remove_last_ok X t k s p dp b m dm c f h :
  good X t (Frame s p dp (bin s b m dm c) :: k) f → n_color dm = RB_BLACK →
  rb_ctx (Frame s p dp (bin s b m dm c) :: k) (S h) → rb f h →
  ¬ (col b = RB_BLACK ∧ col c = RB_BLACK) →
  ∃ t' F,
    remove_last s (Some p) (Some m) t = Some t' ∧ good X t' [] F ∧
    inorder F = inorder (plug (Frame s p dp (bin s b m dm c) :: k) f) ∧ (∃ n, rb F n).
Proof.
  intros Hg Hm Hk Hf Hbc. assert (Gp := good_up _ _ _ _ _ _ _ _ Hg).
  assert (Gm := good_down_opp _ _ _ _ _ _ _ _ Gp). unfold remove_last.
  rewrite (good_deref _ _ _ _ _ _ _ _ Gm). cbn [mbind option_bind]. rewrite links_child_opp, links_child.
  rewrite (good_black _ _ _ _ (good_down_opp _ _ _ _ _ _ _ _ Gm)), col_bool. cbn [mbind option_bind].
  cbn in Hk. destruct Hk as [Hsib Hkd]. rewrite col_bin, Hm in Hkd. apply rb_black in Hsib as [Hb Hc]; [|done].
  (* the last rotation *)
  assert (Hlast : ∀ t b m dm c,
    good X t k (bin s f p dp (bin s b m dm c)) → rb b h → rb c h → col c = RB_RED →
    ∃ t' F,
      (x ← deref t (Some p);
       t ← upd (Some m) (set_color (RB_COLOR x)) t;
       t ← upd (Some p) (set_color RB_BLACK) t;
       y ← deref t (Some m);
       t ← upd_opt (child (opp s) y) (set_color RB_BLACK) t;
       rotate s (Some p) t) = Some t' ∧ good X t' [] F ∧
      inorder F = inorder (plug k (bin s f p dp (bin s b m dm c))) ∧ ∃ n, rb F n).
  { clear - Hkd Hf. intros t b m dm c Hg Hb Hc Hcol.
    destruct (rb_col_red c h Hc Hcol s) as (c1 & q & dq & c2 & -> & Eq & Hc1 & Hc2 & _).
    rewrite (good_deref _ _ _ _ _ _ _ _ Hg). cbn [mbind option_bind].
    unfold RB_COLOR. cbn [n_color set_entry].
    destruct (good_color_child_opp _ _ _ _ _ _ _ _ _ _ _ _ (n_color dp) Hg) as (t1 & -> & G1).
    cbn [mbind option_bind].
    destruct (good_color _ _ _ _ _ _ _ _ RB_BLACK G1) as (t2 & -> & G2). cbn [mbind option_bind].
    assert (Gm := good_down_opp _ _ _ _ _ _ _ _ G2).
    rewrite (good_deref _ _ _ _ _ _ _ _ Gm). cbn [mbind option_bind]. rewrite links_child_opp, rootp_bin.
    cbn [upd_opt].
    destruct (good_color_child_opp _ _ _ _ _ _ _ _ _ _ _ _ RB_BLACK Gm) as (t3 & -> & G3).
    cbn [mbind option_bind]. apply good_up in G3. rewrite bin_opp in G3.
    destruct (rotate_good _ _ _ _ _ _ _ _ _ _ _ G3) as (t4 & dp' & dm' & -> & G4 & Sp & Sm).
    eexists t4, _. split_and!; [done|by apply good_plugged| |].
    - inorder_eq.
    - destruct Sp as [_ Sp], Sm as [_ Sm]. cbn in Sp, Sm.
      assert (R : rb (bin s f p dp' b) (S h) ∧ rb (bin s c1 q (set_color RB_BLACK dq) c2) (S h)).
      { rewrite !rb_black by done. done. }
      destruct (n_color dp) eqn:Edp.
      + eapply rb_plug; [|exact Hkd|rewrite col_bin; congruence]. rewrite rb_black by done. done.
      + destruct Hkd as (_ & Hkc & _ & Hkd). eapply rb_plug; [|exact Hkd|done].
        rewrite rb_red, !col_bin by done. naive_solver. }
  destruct (decide (col c = RB_BLACK)) as [Ec|Ec].
  - rewrite bool_decide_true by done.
    destruct (col b) eqn:Eb; [tauto|]. destruct (rb_col_red b h Hb Eb s) as (b1 & q & dq & b2 & -> & Eq & Hb1 & Hb2 & Hc1 & Hc2).
    rewrite rootp_bin. cbn [upd_opt].
    destruct (good_color_child _ _ _ _ _ _ _ _ _ _ _ _ RB_BLACK Gm) as (t1 & -> & G1). cbn [mbind option_bind].
    destruct (good_color _ _ _ _ _ _ _ _ RB_RED G1) as (t2 & -> & G2). cbn [mbind option_bind].
    rewrite <- (bin_opp s _ m), <- (bin_opp s _ q) in G2.
    destruct (rotate_good _ _ _ _ _ _ _ _ _ _ _ G2) as (t3 & dm' & dq' & -> & G3 & Sm & Sq).
    cbn [mbind option_bind]. rewrite (bin_opp s _ q), (bin_opp s _ m) in G3.
    apply good_up in G3. rewrite bin_opp in G3.
    rewrite (good_deref _ _ _ _ _ _ _ _ G3). cbn [mbind option_bind]. rewrite links_child_opp, rootp_bin.
    destruct (Hlast t3 b1 q dq' (bin s b2 m dm' c)) as (t' & F & E & GF & Ein & Hr); try done.
    { apply rb_red; [by destruct Sm|done]. }
    { rewrite col_bin. by destruct Sm. }
    exists t', F. split_and!; [done|done| |done]. rewrite Ein.
    cbn [plug f_side f_ptr f_data f_sib]. clear Ein E GF Hr Hlast Hbc Hkd G2 G3 G1 Gm Gp Hg. inorder_eq.
  - rewrite bool_decide_false by done. cbn [mbind option_bind].
    destruct (Hlast t b m dm c) as (t' & F & E & GF & Ein & Hr); try done; [by destruct (col c)|].
    exists t', F. done.
Qed.

(** One iteration: either the loop is over, or the focus moved up, or it is red. *)
Lemma remove_step_ok X t k s p dp sib f h :
  good X t (Frame s p dp sib :: k) f → rb_ctx (Frame s p dp sib :: k) (S h) →
  rb f h → col f = RB_BLACK →
  ∃ t' fin par n,
    rebalanceRemove_step s (Some p) t = Some (fin, par, n, t') ∧
    ((fin = true ∧ n = root t' ∧ ∃ F m,
        good X t' [] F ∧ rb F m ∧ inorder F = inorder (plug (Frame s p dp sib :: k) f)) ∨
     (fin = false ∧ ∃ k' f' h',
        good X t' k' f' ∧ par = ctx_par k' ∧ n = rootp f' ∧ deficit f' h' ∧ rb_ctx k' (S h') ∧
        inorder (plug k' f') = inorder (plug (Frame s p dp sib :: k) f) ∧
        (col f' = RB_RED ∨ k' = k))).
Proof.
  intros Hg Hk Hf Hcf.
  destruct (remove_sibling_ok _ _ _ _ _ _ _ _ _ Hg Hk)
    as (t1 & dp1 & b & m & dm & c & k1 & E1 & G1 & Hm & Hk1 & Ein1 & Hdp1).
  unfold rebalanceRemove_step. rewrite E1. cbn [mbind option_bind].
  assert (Gp := good_up _ _ _ _ _ _ _ _ G1). assert (Gm := good_down_opp _ _ _ _ _ _ _ _ Gp).
  rewrite (good_deref _ _ _ _ _ _ _ _ Gm). cbn [mbind option_bind].
  assert (Hbl : ∀ s', is_black t1 (child s' (set_entry (links s (ctx_par (Frame (opp s) p dp1 f :: k1))
                        (rootp b) (rootp c)) dm)) =
                Some (bool_decide (col (if decide (s' = s) then b else c) = RB_BLACK))).
  { intros s'. destruct (decide (s' = s)) as [->|Hne].
    - rewrite links_child, <- col_bool. eapply good_black. by apply good_down.
    - assert (s' = opp s) as -> by (by destruct s, s'). rewrite links_child_opp, <- col_bool.
      eapply good_black. by apply good_down_opp. }
  pose proof (Hbl LEFT) as HL. pose proof (Hbl RIGHT) as HR. cbn [child] in HL, HR.
  rewrite HL. cbn [mbind option_bind]. rewrite HR. cbn [mbind option_bind].
  assert (Eand : bool_decide (col (if decide (LEFT = s) then b else c) = RB_BLACK) &&
                 bool_decide (col (if decide (RIGHT = s) then b else c) = RB_BLACK) =
                 bool_decide (col b = RB_BLACK ∧ col c = RB_BLACK)).
  { rewrite <- bool_decide_and. apply bool_decide_ext. destruct s; cbn; tauto. }
  rewrite Eand. clear Eand HL HR Hbl E1.
  case_bool_decide as Hbc.
  - (* recolor, and up *)
    cbn in Hk1. destruct Hk1 as [Hsib Hkd]. apply rb_black in Hsib as [Hb Hc]; [|done].
    destruct (good_color_child_opp _ _ _ _ _ _ _ _ _ _ _ _ RB_RED Gp) as (t2 & -> & G2).
    cbn [mbind option_bind]. rewrite (good_deref _ _ _ _ _ _ _ _ G2). cbn [mbind option_bind].
    rewrite links_parent. eexists t2, false, _, _. split; [done|]. right. split; [done|].
    assert (Ein : inorder (plug k1 (bin s f p dp1 (bin s b m (set_color RB_RED dm) c))) =
                  inorder (plug (Frame s p dp sib :: k) f)).
    { rewrite <- Ein1. cbn [plug f_side f_ptr f_data f_sib]. clear -dm. inorder_eq. }
    destruct (n_color dp1) eqn:Edp.
    + destruct Hdp1 as [?| ->]; [done|].
      exists k, (bin s f p dp1 (bin s b m (set_color RB_RED dm) c)), (S h).
      rewrite rootp_bin, deficit_bin, Edp, rb_black, rb_red by done. split_and!; first [done | tauto | by right].
    + exists k1, (bin s f p dp1 (bin s b m (set_color RB_RED dm) c)), h.
      rewrite rootp_bin, deficit_bin, Edp, rb_red by done. rewrite col_bin.
      split_and!; first [done | tauto | by left].
  - destruct (remove_last_ok _ _ _ _ _ _ _ _ _ _ _ _ G1 Hm Hk1 Hf Hbc) as (t2 & F & -> & G2 & Ein2 & n & Hn).
    cbn [mbind option_bind]. eexists t2, true, _, _. split; [done|]. left. split_and!; [done..|].
    exists F, n. split_and!; try done. by rewrite Ein2, Ein1.
Qed.

Lemma color_focus X t k f h :
  good X t k f → deficit f h → rb_ctx k (S h) → (k = [] ∨ col f = RB_RED) →
  ∃ t', upd_opt (rootp f) (set_color RB_BLACK) t = Some t' ∧ valid X t' (inorder (plug k f)).
Proof.
  intros Hg Hd Hk Hc. destruct f as [|l p d r].
  - destruct Hc as [->|?]; [|done]. cbn. exists t. split; [done|].
    exists Leaf. split_and!; [done|done| |done]. by exists h.
  - cbn [rootp upd_opt]. destruct (good_color _ _ _ LEFT _ _ _ _ RB_BLACK Hg) as (t' & E & G').
    exists t'. split; [exact E|].
    assert (Hb : ∃ h', rb (Bin l p (set_color RB_BLACK d) r) h' ∧ rb_ctx k h').
    { cbn in Hd. destruct (n_color d) eqn:Ed.
      - destruct Hc as [->|Hc]; [|unfold col in Hc; cbn in Hc; congruence].
        exists h. destruct h; done.
      - exists (S h). done. }
    destruct Hb as (h' & Hb & Hk').
    destruct (rb_plug k _ h' Hb Hk') as [Hm Hcol]; [done|].
    eexists. split; [by apply good_plugged in G'|]. split_and!.
    + cbn [bin]. by rewrite !plug_inorder.
    + done.
    + destruct k as [|fr k]; [done|]. by apply Hcol.
Qed.

Lemma repr_ctx_root h rt foc fr k :
  repr_ctx h rt foc (fr :: k) → ∃ q, rt = Some q ∧ q ∈ ctx_ptrs (fr :: k).
Proof.
  revert foc fr. induction k as [|fr' k IH]; intros foc [s p d sib] (_ & _ & Hk).
  - cbn in Hk. exists p. split; [done|]. by left.
  - apply IH in Hk as (q & -> & Hq). exists q. split; [done|].
    cbn [ctx_ptrs]. apply elem_of_cons. right. apply elem_of_app. by right.
Qed.

Lemma inner_not_root X t fr k f : zip X t (fr :: k) f → rootp f ≠ root t.
Proof.
  intros (_ & Hk & Hnd & _). destruct (repr_ctx_root _ _ _ _ _ Hk) as (q & -> & Hq).
  intros Ef%rootp_in. autorewrite with rb_ptrs in Hnd. destruct Hnd as (_ & [Hd _] & _). by apply (Hd q).
Qed.

Lemma side_of' X t s p d sib k f :
  zip X t (Frame s p d sib :: k) f → rootp sib ≠ None →
  (if decide (RB_LEFT (set_entry (links s (ctx_par k) (rootp f) (rootp sib)) d) = rootp f)
   then LEFT else RIGHT) = s.
Proof.
  intros Hz Hs. pose proof (side_of _ _ _ _ _ _ _ _ Hz ltac:(by right)) as E.
  etrans; [|exact E]. do 2 destruct decide; congruence.
Qed.

Lemma plug_nonempty s p d sib k f : inorder (plug (Frame s p d sib :: k) f) ≠ [].
Proof.
  cbn. rewrite plug_inorder, inorder_bin. intros [_ [E _]%app_eq_nil]%app_eq_nil.
  destruct s; cbn in E; by apply app_eq_nil in E as [_ ?].
Qed.

Lemma rebalanceRemove_loop_ok X : ∀ fuel k t f h,
  (length k < fuel)%nat → good X t k f → deficit f h → rb_ctx k (S h) →
  ∃ n t' t'',
    rebalanceRemove_loop fuel (ctx_par k) (rootp f) t = Some (n, t') ∧
    upd_opt n (set_color RB_BLACK) t' = Some t'' ∧ valid X t'' (inorder (plug k f)).
Proof.
  induction fuel as [|fuel IH]; intros k t f h Hfuel Hg Hd Hk; [lia|].
  cbn [rebalanceRemove_loop]. rewrite (good_black _ _ _ _ Hg), col_bool. cbn [mbind option_bind].
  destruct (decide (col f = RB_RED)) as [Ec|Ec].
  { rewrite bool_decide_false by congruence. cbn [andb].
    destruct (color_focus _ _ _ _ _ Hg Hd Hk ltac:(by right)) as (t' & E & V). eexists _, _, _. done. }
  assert (Ec' : col f = RB_BLACK) by (by destruct (col f)).
  rewrite bool_decide_true by done. cbn [andb].
  destruct k as [|[s p dp sib] k].
  { rewrite bool_decide_true by (symmetry; apply (zip_root _ _ _ (proj1 Hg))). cbn [negb].
    destruct (color_focus _ _ _ _ _ Hg Hd Hk ltac:(by left)) as (t' & E & V). eexists _, _, _. done. }
  assert (Hf : rb f h).
  { destruct f as [|l q d r]; [done|]. unfold col in Ec'. cbn in Ec', Hd |- *. by rewrite Ec' in Hd |- *. }
  assert (Hsib : rootp sib ≠ None).
  { destruct Hk as [Hk _]. destruct (rb_S_bin _ _ s Hk) as (a & q & d & b & ->). by rewrite rootp_bin. }
  rewrite bool_decide_false by (by eapply inner_not_root, Hg). cbn [negb ctx_par f_ptr].
  rewrite (good_deref _ _ _ _ _ _ _ _ (good_up _ _ _ _ _ _ _ _ Hg)). cbn [mbind option_bind].
  rewrite (side_of' _ _ _ _ _ _ _ _ (proj1 Hg) Hsib).
  destruct (remove_step_ok _ _ _ _ _ _ _ _ _ Hg Hk Hf Ec') as (t1 & fin & par & n & -> & Hr).
  cbn [mbind option_bind].
  destruct Hr as [(-> & -> & F & m & GF & Hm & Ein)|(-> & k' & f' & h' & G' & -> & -> & Hd' & Hk' & Ein & Hor)].
  - assert (HF : F ≠ Leaf).
    { intros ->. cbn [inorder] in Ein. symmetry in Ein. by apply plug_nonempty in Ein. }
    destruct (color_root _ _ _ _ GF HF Hm) as (t2 & E2 & V2). rewrite Ein in V2.
    assert (Er : ∃ q, root t1 = Some q).
    { rewrite (zip_root _ _ _ (proj1 GF)). destruct F; [done|]. cbn. eauto. }
    destruct Er as [q Er]. eexists _, _, t2. split; [done|]. rewrite Er in *. done.
  - destruct Hor as [Ec1| ->].
    + destruct (color_focus _ _ _ _ _ G' Hd' Hk' ltac:(by right)) as (t2 & E2 & V2).
      exists (rootp f'), t1, t2. rewrite <- Ein. split_and!; [|done..].
      destruct fuel; [cbn in Hfuel; lia|]. cbn [rebalanceRemove_loop].
      rewrite (good_black _ _ _ _ G'), col_bool. cbn [mbind option_bind].
      rewrite bool_decide_false by congruence. done.
    + destruct (IH k t1 f' h') as (n' & t2 & t3 & E2 & E3 & V); [cbn in Hfuel; lia|done..|].
      exists n', t2, t3. rewrite <- Ein. done.
Qed.

Lemma rebalanceRemove_ok X t k f h :
  good X t k f → deficit f h → rb_ctx k (S h) →
  ∃ t', rebalanceRemove (ctx_par k) (rootp f) t = Some t' ∧ valid X t' (inorder (plug k f)).
Proof.
  intros Hg Hd Hk. pose proof (zip_size _ _ _ _ (proj1 Hg)).
  destruct (rebalanceRemove_loop_ok X (depth_fuel t) k t f h) as (n & t1 & t2 & E1 & E2 & V);
    [unfold depth_fuel; lia|done..|].
  exists t2. unfold rebalanceRemove. rewrite E1. done.
Qed.

(** ** Unlinking a node *)

Lemma upd_changes p f t t' : upd (Some p) f t = Some t' → changes [p] (heap t) (heap t').
Proof.
  unfold upd. cbn. destruct (heap t !! p) eqn:E; [|done]. cbn. intros [= <-].
  apply changes_insert. by rewrite E.
Qed.

Lemma fix_changes p t t' : fix_ (Some p) t = Some t' → changes [p] (heap t) (heap t').
Proof.
  unfold fix_. rewrite bind_Some_iff. intros (x & _ & Hx). rewrite bind_Some_iff in Hx.
  destruct Hx as (l & _ & Hx). rewrite bind_Some_iff in Hx. destruct Hx as (r & _ & Hx).
  by eapply upd_changes.
Qed.

Lemma zip_app X t k1 k2 f : zip X t (k1 ++ k2) f ↔ zip X t k2 (plug k1 f).
Proof.
  revert f. induction k1 as [|[s p d sib] k1 IH]; intros f; [done|].
  cbn [app plug f_side f_ptr f_data f_sib]. by rewrite zip_move, IH.
Qed.

Lemma good_app X t k1 k2 f : good X t (k1 ++ k2) f ↔ good X t k2 (plug k1 f).
Proof.
  revert f. induction k1 as [|[s p d sib] k1 IH]; intros f; [done|].
  cbn [app plug f_side f_ptr f_data f_sib]. rewrite <- IH. apply good_move.
Qed.

Lemma aug_ctx_sib l k : aug_ctx l k → sib_aug k.
Proof.
  revert l. induction k as [|[s p d sib] k IH]; intros l; cbn; [constructor|].
  intros (_ & ? & ?). constructor; [done|]. by eapply IH.
Qed.

(** A node with one child at most is replaced by that child. *)
Lemma unlink_leaf X t k s n dn c :
  zip X t k (bin s Leaf n dn c) →
  ∃ t', (t ← upd_opt (rootp c) (set_parent (ctx_par k)) t;
         replace_child (ctx_par k) (Some n) (rootp c) t) = Some t' ∧
        zip (n :: X) t' k c ∧
        heap t' !! n = Some (set_entry (links s (ctx_par k) None (rootp c)) dn).
Proof.
  destruct t as [h rt]. intros (Hr & Hk & Hnd & Hdom). cbn [heap root] in *.
  rewrite repr_bin in Hr. destruct Hr as (Hn & _ & Hc). rewrite rootp_bin in Hk.
  assert (Hnd' := Hnd). nodup_in Hnd'.
  destruct (reparent h rt _ (ctx_par k) c Hc ltac:(done)) as (h1 & E1 & Hc1 & C1).
  rewrite E1. cbn [mbind option_bind].
  assert (Hk1 : repr_ctx h1 rt (Some n) k) by (eapply repr_ctx_changes; [exact C1|done|dj]).
  destruct (replace_child_spec h1 rt k n (rootp c) Hk1 ltac:(dj) ltac:(done)) as (h2 & rt2 & E2 & Hk2 & C2).
  rewrite E2. eexists. split; [reflexivity|].
  assert (C12 : changes (ptrs c ++ ctx_ptrs k) h h2) by (eapply changes_trans; done).
  assert (Hperm : ptrs c ++ ctx_ptrs k ++ n :: X ≡ₚ ptrs (bin s Leaf n dn c) ++ ctx_ptrs k ++ X).
  { rewrite ptrs_bin. cbn. rewrite <- !Permutation_middle. done. }
  split; [split_and!; cbn [heap root]|].
  - eapply repr_changes; [exact C2|done|dj].
  - done.
  - by rewrite Hperm.
  - intros q. rewrite Hperm, (proj2 C12). apply Hdom.
  - cbn [heap]. rewrite (proj1 C12) by dj. done.
Qed.

Lemma fix_up_ctx X k t f fuel :
  (length k ≤ fuel)%nat → zip X t k f → aug f → sib_aug k → ordered (inorder (plug k f)) →
  ∃ t' k', fix_up fuel (ctx_par k) t = Some t' ∧ good X t' k' f ∧ Forall2 same_frame k k'.
Proof.
  intros Hf Hz Ha Hs Ho. destruct k as [|[s p d sib] k].
  - exists t, []. split_and!; [by destruct fuel| |done]. split_and!; done.
  - apply zip_move in Hz. apply Forall_cons in Hs as [Hsib Hs]. cbn in Hf, Hsib.
    destruct (fix_up_good X k fuel t s f p d sib) as (t' & d' & k' & E & G & S & K); [lia|done..|].
    exists t', (Frame s p d' sib :: k'). split_and!; [done|by apply good_down|].
    constructor; [|done]. done.
Qed.

(** The first node in the order of a sub-tree. *)
Lemma leftmost_ok X fuel : ∀ f t k,
  (length (ptrs f) ≤ fuel)%nat → zip X t k f → f ≠ Leaf →
  ∃ K n dn c,
    f = plug K (Bin Leaf n dn c) ∧ Forall (λ fr, f_side fr = LEFT) K ∧
    leftmost fuel (rootp f) t = Some (Some n) ∧
    inorder f = (n, n_alloc dn) :: inorder (plug K c).
Proof.
  induction fuel as [|fuel IH]; intros f t k Hlen Hz Hf; (destruct f as [|l p d r]; [done|]).
  { exfalso. assert (Hl := Permutation_length (ptrs_Bin l p d r)). cbn in Hl. lia. }
  cbn [leftmost rootp]. rewrite (deref_bin _ _ _ LEFT _ _ _ _ Hz). cbn [mbind option_bind].
  unfold RB_LEFT. cbn [n_entry set_entry links left].
  destruct l as [|ll lp ld lr].
  - exists [], p, d, r. done.
  - cbn [rootp]. destruct (IH (Bin ll lp ld lr) t (Frame LEFT p d r :: k)) as (K & n & dn & c & E & HK & El & Ein).
    + assert (Hl := Permutation_length (ptrs_Bin (Bin ll lp ld lr) p d r)).  cbn [length] in Hl. rewrite length_app in Hl. lia.
    + by apply zip_move.
    + done.
    + exists (K ++ [Frame LEFT p d r]), n, dn, c. split_and!.
      * rewrite plug_app. cbn. by rewrite E.
      * apply Forall_app. split; [done|]. by constructor.
      * exact El.
      * rewrite plug_app. change (inorder (Bin (Bin ll lp ld lr) p d r)) with
          (inorder (Bin ll lp ld lr) ++ (p, n_alloc d) :: inorder r). by rewrite Ein.
Qed.

(** The node [n], unlinked before, takes the place of [old]. *)
Lemma transplant t k l old d r n e dn X :
  zip (n :: X) t k (Bin l old d r) → heap t !! n = Some (set_entry e dn) → l ≠ Leaf →
  ∃ t' k',
    (x ← deref t (Some old);
     t ← upd (Some n) (λ y, set_color (RB_COLOR x) (set_entry (n_entry x) y)) t;
     t ← replace_child (RB_PARENT x) (Some old) (Some n) t;
     t ← fix_ (RB_PARENT x) t;
     t ← upd (RB_LEFT x) (set_parent (Some n)) t;
     upd_opt (RB_RIGHT x) (set_parent (Some n)) t) = Some t' ∧
    zip (old :: X) t' k' (Bin l n (set_color (n_color d) dn) r) ∧
    Forall2 same_frame k k'.
Proof.
  destruct t as [h rt]. intros (Hr & Hk & Hnd & Hdom) Hn Hl. cbn [heap root] in *.
  destruct Hr as (Ho & Hrl & Hrr). cbn [rootp] in Hk.
  assert (Hnd' := Hnd). nodup_in Hnd'. assert (Hon : old ≠ n) by dj.
  rewrite deref_eq, Ho. cbn [mbind option_bind].
  unfold RB_PARENT, RB_LEFT, RB_RIGHT, RB_COLOR.
  cbn [n_entry set_entry parent left right n_color].
  rewrite (upd_eq _ _ _ _ _ Hn). cbn [mbind option_bind].
  set (x := set_color _ _). set (h1 := <[n := x]> h).
  assert (Ex : x = set_entry (MkLinks (ctx_par k) (rootp l) (rootp r)) (set_color (n_color d) dn)) by done.
  assert (C1 : changes [n] h h1) by (apply changes_insert; by rewrite Hn).
  assert (Hk1 : repr_ctx h1 rt (Some old) k) by (eapply repr_ctx_changes; [exact C1|done|dj]).
  destruct (replace_child_spec h1 rt k old (Some n) Hk1 ltac:(dj) ltac:(done)) as (h2 & rt2 & E2 & Hk2 & C2).
  rewrite E2. cbn [mbind option_bind].
  assert (Hn2 : h2 !! n = Some (set_entry (MkLinks (ctx_par k) (rootp l) (rootp r)) (set_color (n_color d) dn))).
  { rewrite (proj1 C2) by dj. unfold h1. by rewrite lookup_insert_eq, Ex. }
  set (F := Bin l n (set_color (n_color d) dn) r) in *.
  (* the parent of old *)
  assert (Hpar : ∃ h3 k', fix_ (ctx_par k) (MkTree h2 rt2) = Some (MkTree h3 rt2) ∧
                 repr_ctx h3 rt2 (Some n) k' ∧ changes (ctx_ptrs k) h2 h3 ∧ Forall2 same_frame k k' ∧
                 ctx_par k' = ctx_par k ∧ ctx_ptrs k' = ctx_ptrs k).
  { destruct k as [|[s p dp sib] k].
    - exists h2, []. split_and!; done.
    - cbn [repr_ctx] in Hk2. destruct Hk2 as (Hp & Hs & Hk2).
      cbn [ctx_par f_ptr]. rewrite (fix_heap h2 rt2 s (ctx_par k) F p dp sib).
      + eexists _, (Frame s p (fix_bin s dp F sib) sib :: k). split; [reflexivity|].
        assert (C3 : changes [p] h2 (<[p := set_entry (links s (ctx_par k) (rootp F) (rootp sib))
                       (fix_bin s dp F sib)]> h2)) by (apply changes_insert; by rewrite Hp).
        cbn [ctx_ptrs f_ptr f_sib] in *. nodup_in Hnd.
        split_and!; [|by eapply changes_weaken; [exact C3|]; intros y ->%list_elem_of_singleton; left|
          |done|done].
        * cbn [repr_ctx]. rewrite lookup_insert_eq. split_and!; [done| |].
          -- eapply repr_changes; [exact C3|done|dj].
          -- eapply repr_ctx_changes; [exact C3|done|dj].
        * constructor; [split_and!; try done; split; by destruct s|].
          clear. induction k as [|fr k IH]; constructor; [by split_and!|done].
      + exact Hp.
      + unfold F. cbn. eexists. by rewrite Hn2.
      + by eapply repr_rooted. }
  destruct Hpar as (h3 & k' & E3 & Hk3 & C3 & K' & Epar & Eptrs). rewrite E3. cbn [mbind option_bind].
  assert (C13 : changes ([n] ++ ctx_ptrs k ++ ctx_ptrs k) h h3).
  { eapply changes_trans; [exact C1|]. by eapply changes_trans. }
  assert (Hl3 : repr h3 (Some old) l) by (eapply repr_changes; [exact C13|done|dj]).
  assert (Hr3 : repr h3 (Some old) r) by (eapply repr_changes; [exact C13|done|dj]).
  destruct (reparent h3 rt2 _ (Some n) l Hl3 ltac:(done)) as (h4 & E4 & Hl4 & C4).
  assert (E4' : upd (rootp l) (set_parent (Some n)) (MkTree h3 rt2) = Some (MkTree h4 rt2)).
  { destruct l; [done|]. exact E4. }
  rewrite E4'. cbn [mbind option_bind].
  assert (Hr4 : repr h4 (Some old) r) by (eapply repr_changes; [exact C4|done|dj]).
  destruct (reparent h4 rt2 _ (Some n) r Hr4 ltac:(done)) as (h5 & E5 & Hr5 & C5).
  rewrite E5. eexists _, k'. split; [reflexivity|]. split; [|done].
  assert (C35 : changes (ptrs l ++ ptrs r) h3 h5) by (eapply changes_trans; done).
  assert (Hn5 : h5 !! n = Some (set_entry (MkLinks (ctx_par k) (rootp l) (rootp r)) (set_color (n_color d) dn))).
  { rewrite (proj1 C35), (proj1 C3) by dj. exact Hn2. }
  assert (Hperm : ptrs F ++ ctx_ptrs k' ++ old :: X ≡ₚ ptrs (Bin l old d r) ++ ctx_ptrs k ++ n :: X).
  { unfold F. rewrite !ptrs_Bin, Eptrs. cbn. rewrite <- !app_assoc.
    rewrite !(Permutation_app_comm (ctx_ptrs k) (_ :: X)). cbn.
    rewrite <- !(Permutation_middle (ptrs r)), <- !(Permutation_middle (ptrs l)).
    apply Permutation_swap. }
  split_and!; cbn [heap root].
  - rewrite Epar. split_and!; [exact Hn5| |done]. eapply repr_changes; [exact C5|done|dj].
  - eapply repr_ctx_changes; [exact C35|done|]. rewrite Eptrs. dj.
  - by rewrite Hperm.
  - intros q. rewrite Hperm, (proj2 C35), (proj2 C13). apply Hdom.
Qed.

Lemma rb_unplug K : ∀ f m k,
  rb (plug K f) m → rb_ctx k m → (col (plug K f) = RB_RED → ctx_col k = RB_BLACK ∧ k ≠ []) →
  ∃ h, rb f h ∧ rb_ctx (K ++ k) h ∧ (col f = RB_RED → ctx_col (K ++ k) = RB_BLACK ∧ K ++ k ≠ []).
Proof.
  induction K as [|[s p d sib] K IH]; intros f m k Hf Hk Hc; [by exists m|].
  cbn [plug f_side f_ptr f_data f_sib] in Hf, Hc.
  destruct (IH _ _ _ Hf Hk Hc) as (h & Hb & Hk' & Hc'). rewrite col_bin in Hc'.
  cbn [app rb_ctx ctx_col f_data]. destruct (n_color d) eqn:Ed.
  - destruct h as [|h]; [by rewrite rb_bin, Ed in Hb|]. apply rb_black in Hb as [? ?]; [|done].
    by exists h.
  - apply rb_red in Hb as (? & ? & Hcf & ?); [|done]. destruct (Hc' eq_refl).
    exists h. split_and!; try done. congruence.
Qed.

Lemma same_frames_colors k k' h : Forall2 same_frame k k' → rb_ctx k h → rb_ctx k' h.
Proof. apply rb_ctx_frames. Qed.

Lemma same_frames_sib k k' : Forall2 same_frame k k' → sib_aug k → sib_aug k'.
Proof.
  induction 1 as [|fr fr' k k' (_ & _ & E & _) K IH]; [done|].
  intros [? ?]%Forall_cons. constructor; [by rewrite E|by apply IH].
Qed.

Lemma same_frames_nil k k' : Forall2 same_frame k k' → k ≠ [] → k' ≠ [].
Proof. by destruct 1. Qed.

Lemma same_frames_par k k' : Forall2 same_frame k k' → ctx_par k' = ctx_par k.
Proof. destruct 1 as [|fr fr' k k' (_ & E & _)]; [done|]. cbn. by rewrite E. Qed.

(** The color at the path can be given by another node. *)
Lemma rb_ctx_swap K s p d p' d' sib k h :
  n_color d' = n_color d →
  rb_ctx (K ++ Frame s p d sib :: k) h → rb_ctx (K ++ Frame s p' d' sib :: k) h.
Proof.
  intros E. revert h. induction K as [|[s1 p1 d1 sib1] K IH]; intros h; cbn [app rb_ctx].
  - by rewrite E.
  - intros [? Hk]. split; [done|]. destruct (n_color d1); [by apply IH|].
    destruct Hk as (? & Hc & ? & ?). split_and!; [done| |by destruct K|by apply IH].
    destruct K as [|[]]; cbn in *; congruence.
Qed.

(** What [unlink] leaves: the sub-tree [f] in the place of the node that left. *)
Definition unlinked (old : ptr) (l : list (ptr * Alloc)) (c : Color) (t : Tree)
    (K : list frame) (f : itree) : Prop :=
  good [old] t K f ∧ inorder (plug K f) = l ∧
  ∃ h, rb f h ∧
    match c with
    | RB_RED => rb_ctx K h ∧ col f = RB_BLACK ∧ K ≠ []
    | RB_BLACK => rb_ctx K (S h)
    end.

(** The colors around a node whose children are a leaf and [c]. *)
Lemma rb_leaf_node s n dn c k h :
  rb (bin s Leaf n dn c) h → rb_ctx k h →
  (col (bin s Leaf n dn c) = RB_RED → ctx_col k = RB_BLACK ∧ k ≠ []) →
  ∃ h', rb c h' ∧
    match n_color dn with
    | RB_RED => rb_ctx k h' ∧ col c = RB_BLACK ∧ k ≠ []
    | RB_BLACK => rb_ctx k (S h')
    end.
Proof.
  rewrite rb_bin, col_bin. destruct (n_color dn); intros Hb Hk Hc.
  - destruct h as [|h]; [done|]. exists h. split; [apply Hb|done].
  - exists h. destruct (Hc eq_refl). destruct Hb as (_ & ? & _ & ?). done.
Qed.

Lemma sib_aug_of X t k f : good X t k f → sib_aug k.
Proof. intros (_ & _ & Hk & _). by eapply aug_ctx_sib. Qed.

Lemma unlink_one t k s old d c m :
  good [] t k (bin s Leaf old d c) → rb (bin s Leaf old d c) m → rb_ctx k m →
  (col (bin s Leaf old d c) = RB_RED → ctx_col k = RB_BLACK ∧ k ≠ []) →
  ∃ t' K,
    (t ← upd_opt (rootp c) (set_parent (ctx_par k)) t;
     t ← replace_child (ctx_par k) (Some old) (rootp c) t;
     t ← fix_up (depth_fuel t) (ctx_par k) t;
     Some (ctx_par k, rootp c, n_color d, t)) = Some (ctx_par K, rootp c, n_color d, t') ∧
    unlinked old (ctx_l k ++ inorder c ++ ctx_r k) (n_color d) t' K c.
Proof.
  intros Hg Hrb Hk Hc. destruct (unlink_leaf _ _ _ _ _ _ _ (proj1 Hg)) as (t1 & E1 & Z1 & _).
  rewrite bind_Some_iff in E1. destruct E1 as (t0 & -> & E1). cbn [mbind option_bind].
  rewrite E1. cbn [mbind option_bind].
  pose proof (zip_size _ _ _ _ Z1). pose proof Hg as (_ & Ha & _ & Ho).
  apply aug_bin in Ha as (_ & _ & Ha).
  assert (Ho' : ordered (ctx_l k ++ inorder c ++ ctx_r k)).
  { rewrite plug_inorder, inorder_bin in Ho.
    apply ordered_app in Ho as (Hol & Ho & Hb). apply ordered_app. split; [done|].
    assert (∀ y, y ∈ inorder c ++ ctx_r k → y ∈ catl s (inorder Leaf) (old, n_alloc d) (inorder c) ++ ctx_r k)
      by (destruct s; cbn; set_solver).
    split; [|intros; apply Hb; auto].
    destruct s; cbn in Ho; [by apply ordered_cons in Ho as (_ & ? & _)|].
    rewrite <- app_assoc in Ho. cbn in Ho. apply ordered_app in Ho as (? & Ho & Hbb).
    apply ordered_cons in Ho as (_ & ? & _). apply ordered_app. split_and!; [done..|].
    intros x y ? ?. apply Hbb; [done|]. by right. }
  destruct (fix_up_ctx [old] k t1 c (depth_fuel t1)) as (t2 & K & E2 & G2 & S2);
    [unfold depth_fuel; lia|done|done|by eapply sib_aug_of|by rewrite plug_inorder|].
  rewrite E2. cbn [mbind option_bind].
  exists t2, K. split; [by rewrite (same_frames_par _ _ S2)|]. split; [done|]. split.
  - rewrite (same_frames_plug _ _ c c S2), plug_inorder; done.
  - destruct (rb_leaf_node _ _ _ _ _ _ Hrb Hk Hc) as (h & Hr & Hm). exists h. split; [done|].
    destruct (n_color d); [by eapply same_frames_colors|].
    destruct Hm as (? & ? & ?). split_and!; [by eapply same_frames_colors|done|by eapply same_frames_nil].
Qed.

Lemma same_frames_trans k k1 k2 :
  Forall2 same_frame k k1 → Forall2 same_frame k1 k2 → Forall2 same_frame k k2.
Proof.
  intros S1. revert k2. induction S1 as [|f1 f2 ka kb (A1 & A2 & A3 & A4 & A5) S IH]; intros k2 S2.
  - by inversion S2.
  - inversion S2 as [|? f3 ? kc (B1 & B2 & B3 & B4 & B5) S3]; subst. constructor; [|by apply IH].
    unfold same_frame, same_data. split_and!; congruence.
Qed.

Lemma fix_head X t k f :
  zip X t k f →
  ∃ t' k', fix_ (ctx_par k) t = Some t' ∧ zip X t' k' f ∧ Forall2 same_frame k k' ∧
           changes (ctx_ptrs k) (heap t) (heap t').
Proof.
  destruct k as [|[s p d sib] k]; [by exists t, []|].
  intros Hz%zip_move. destruct (zip_fix _ _ _ _ _ _ _ _ Hz) as (t' & E & Hz').
  exists t', (Frame s p (fix_bin s d f sib) sib :: k). split_and!; [done|by apply zip_move| |].
  - constructor; [split_and!; try done; split; by destruct s|].
    clear. induction k as [|fr k IH]; constructor; [by split_and!|done].
  - eapply changes_weaken; [by eapply fix_changes|]. intros y ->%list_elem_of_singleton. by left.
Qed.

Lemma ordered_remove a b x : ordered (a ++ x :: b) → ordered (a ++ b).
Proof.
  intros (Ha & (_ & Hb & _)%ordered_cons & Hab)%ordered_app. apply ordered_app.
  split_and!; [done..|]. intros y z ??. apply Hab; [done|by right].
Qed.

Lemma unlink_two t k l old d r m :
  good [] t k (Bin l old d r) → rb (Bin l old d r) m → rb_ctx k m →
  (col (Bin l old d r) = RB_RED → ctx_col k = RB_BLACK ∧ k ≠ []) → l ≠ Leaf → r ≠ Leaf →
  ∃ t' K f c,
    unlink (Some old) t = Some (ctx_par K, rootp f, c, t') ∧
    unlinked old (ctx_l k ++ inorder l ++ inorder r ++ ctx_r k) c t' K f.
Proof.
  intros Hg Hrb Hk Hc Hl Hr. unfold unlink.
  rewrite (good_deref _ _ _ LEFT _ _ _ _ Hg). cbn [mbind option_bind].
  unfold RB_LEFT, RB_RIGHT. cbn [n_entry set_entry links left right].
  assert (El : ∃ q, rootp l = Some q) by (destruct l; [done|by eexists]).
  assert (Er : ∃ q, rootp r = Some q) by (destruct r; [done|by eexists]).
  destruct El as [ql El], Er as [qr Er]. rewrite El, Er, <- Er. cbn match.
  assert (Gr : good [] t (Frame RIGHT old d l :: k) r) by (apply good_down; exact Hg).
  destruct (leftmost_ok [] (depth_fuel t) r t (Frame RIGHT old d l :: k))
    as (K & n & dn & c & -> & HK & Elm & Ein);
    [pose proof (zip_size _ _ _ _ (proj1 Gr)); unfold depth_fuel; lia|apply Gr|done|].
  rewrite Elm. cbn [mbind option_bind]. apply good_app in Gr.
  set (KK := K ++ Frame RIGHT old d l :: k) in *.
  change (Bin Leaf n dn c) with (bin LEFT Leaf n dn c) in *.
  rewrite (good_deref _ _ _ _ _ _ _ _ Gr). cbn [mbind option_bind].
  unfold RB_PARENT, RB_COLOR. cbn [n_entry set_entry links parent right n_color].
  destruct (unlink_leaf _ _ _ _ _ _ _ (proj1 Gr)) as (t1 & E1 & Z1 & Hn1).
  rewrite bind_Some_iff in E1. destruct E1 as (t0 & -> & E1). cbn [mbind option_bind].
  rewrite E1. cbn [mbind option_bind].
  destruct (fix_head _ _ _ _ Z1) as (t2 & KK1 & -> & Z2 & S2 & C2). cbn [mbind option_bind].
  assert (Hn2 : heap t2 !! n = Some (set_entry (links LEFT (ctx_par KK) None (rootp c)) dn)).
  { rewrite (proj1 C2); [done|]. destruct Z1 as (_ & _ & Hnd & _).
    autorewrite with rb_ptrs in Hnd. tauto. }
  replace (deref t2 (Some n)) with (Some (set_entry (links LEFT (ctx_par KK) None (rootp c)) dn))
    by (unfold deref; cbn; by rewrite Hn2).
  cbn [mbind option_bind n_entry set_entry links parent].
  (* the frames after the fix *)
  unfold KK in S2. apply Forall2_app_inv_l in S2 as (K1 & kk & SK & Skk & ->).
  apply Forall2_cons_inv_l in Skk as ([s' p' d1 sib'] & k1 & (Es & Ep & Eb & Sd) & Sk & ->).
  cbn in Es, Ep, Eb, Sd. subst s' p' sib'.
  assert (Hpar : (if decide (ctx_par KK = Some old) then Some n else ctx_par KK) =
                 ctx_par (K1 ++ Frame RIGHT n (set_color (n_color d1) dn) l :: k1)).
  { unfold KK. destruct SK as [|[s p dp sib] fr' K K1 (_ & Ep & _ & _) SK].
    - cbn. by rewrite decide_True.
    - cbn in Ep |- *. rewrite decide_False; [by rewrite Ep|]. intros [= ->].
      destruct Gr as ((_ & _ & Hnd & _) & _). unfold KK in Hnd. cbn in Hnd.
      autorewrite with rb_ptrs in Hnd. destruct Hnd as (_ & _ & (Hin & _) & _).
      apply (proj2 Hin). clear. induction K as [|fr K IH]; cbn; [by left|].
      apply elem_of_cons. right. apply elem_of_app. by right. }
  rewrite Hpar.
  destruct (transplant t2 k1 l old d1 (plug K1 c) n
    (links LEFT (ctx_par KK) None (rootp c)) dn []) as (t3 & k2 & E3 & Z3 & Sk2);
    [by apply zip_app, zip_move in Z2|exact Hn2|done|].
  unfold RB_RIGHT, RB_LEFT, RB_PARENT, RB_COLOR in E3.
  repeat (rewrite bind_Some_iff in E3; destruct E3 as (? & -> & E3); cbn [mbind option_bind]).
  rewrite E3. cbn [mbind option_bind].
  set (dn' := set_color (n_color d1) dn) in *.
  assert (Z4 : zip [old] t3 (K1 ++ Frame RIGHT n dn' l :: k2) c) by (apply zip_app, zip_move; exact Z3).
  assert (Ein' : inorder (plug (K1 ++ Frame RIGHT n dn' l :: k2) c) =
                 ctx_l k ++ inorder l ++ inorder (plug K (bin LEFT Leaf n dn c)) ++ ctx_r k).
  { rewrite Ein, plug_app. cbn [plug f_side f_ptr f_data f_sib].
    rewrite (same_frames_plug k k2 (bin RIGHT (plug K c) n dn l)).
    - rewrite plug_inorder, inorder_bin. cbn. by rewrite <- app_assoc.
    - by eapply same_frames_trans.
    - rewrite !inorder_bin. cbn. by rewrite (same_frames_plug K K1 c c). }
  assert (Sall : sib_aug (K1 ++ Frame RIGHT n dn' l :: k2)).
  { pose proof (sib_aug_of _ _ _ _ Gr) as Hs. unfold KK in Hs. apply Forall_app in Hs as [Hs1 [Hs2 Hs3]%Forall_cons].
    apply Forall_app. split; [by eapply same_frames_sib|]. constructor; [done|].
    eapply same_frames_sib; [done|]. by eapply same_frames_sib. }
  destruct (fix_up_ctx [old] (K1 ++ Frame RIGHT n dn' l :: k2) t3 c (depth_fuel t3)) as (t4 & K4 & E4 & G4 & S4).
  { pose proof (zip_size _ _ _ _ Z4). unfold depth_fuel. lia. }
  { done. }
  { destruct Gr as (_ & Ha & _). cbn in Ha. tauto. }
  { done. }
  { rewrite Ein'. destruct Hg as (_ & _ & _ & Ho). rewrite plug_inorder in Ho. cbn in Ho.
    rewrite <- app_assoc, app_assoc in Ho. cbn in Ho. apply ordered_remove in Ho.
    by rewrite <- app_assoc in Ho. }
  assert (Ek2 : ctx_par (K1 ++ Frame RIGHT n dn' l :: k1) = ctx_par (K1 ++ Frame RIGHT n dn' l :: k2)).
  { by destruct K1. }
  rewrite Ek2, E4. cbn [mbind option_bind]. exists t4, K4, c, (n_color dn).
  split; [by rewrite (same_frames_par _ _ S4)|]. split; [done|]. split.
  { rewrite <- Ein'. by apply same_frames_plug. }
  (* colors *)
  destruct (rb_unplug (K ++ [Frame RIGHT old d l]) (bin LEFT Leaf n dn c) m k) as (h & Hb & Hkk & Hcc);
    [by rewrite plug_app|done|by rewrite plug_app|].
  rewrite <- app_assoc in Hkk, Hcc. cbn [app] in Hkk, Hcc. fold KK in Hkk, Hcc.
  destruct (rb_leaf_node _ _ _ _ _ _ Hb Hkk Hcc) as (h' & Hr' & Hm). exists h'. split; [done|].
  assert (Hfin : ∀ hx, rb_ctx KK hx → rb_ctx K4 hx).
  { intros hx Hx. eapply same_frames_colors; [exact S4|]. unfold KK in Hx.
    eapply (rb_ctx_swap _ _ _ _ n dn') in Hx; [|unfold dn'; cbn; apply Sd].
    eapply (same_frames_colors (K ++ Frame RIGHT n dn' l :: k)); [|done].
    apply Forall2_app; [done|]. constructor; [by split_and!|].
    by eapply same_frames_trans. }
  destruct (n_color dn); [by apply Hfin|]. destruct Hm as (? & ? & ?). split_and!; [by apply Hfin|done|].
  eapply same_frames_nil; [exact S4|]. by destruct K1.
Qed.

Lemma unlink_ok t k l old d r m :
  good [] t k (Bin l old d r) → rb (Bin l old d r) m → rb_ctx k m →
  (col (Bin l old d r) = RB_RED → ctx_col k = RB_BLACK ∧ k ≠ []) →
  ∃ t' K f c,
    unlink (Some old) t = Some (ctx_par K, rootp f, c, t') ∧
    unlinked old (ctx_l k ++ inorder l ++ inorder r ++ ctx_r k) c t' K f.
Proof.
  intros Hg Hrb Hk Hc.
  destruct l as [|ll lp ld lr]; [|destruct r as [|rl rp rd rr]]; [| |by eapply unlink_two].
  - destruct (unlink_one t k LEFT old d r m Hg Hrb Hk Hc) as (t' & K & E & Hu).
    exists t', K, r, (n_color d). split; [|exact Hu]. unfold unlink.
    rewrite (good_deref _ _ _ LEFT _ _ _ _ Hg). cbn [mbind option_bind].
    rewrite links_parent. exact E.
  - destruct (unlink_one t k RIGHT old d (Bin ll lp ld lr) m Hg Hrb Hk Hc) as (t' & K & E & Hu).
    exists t', K, (Bin ll lp ld lr), (n_color d). split; [|exact Hu]. unfold unlink.
    rewrite (good_deref _ _ _ LEFT _ _ _ _ Hg). cbn [mbind option_bind].
    rewrite links_parent. exact E.
Qed.

Lemma ctx_l_app K1 K2 : ctx_l (K1 ++ K2) = ctx_l K2 ++ ctx_l K1.
Proof.
  induction K1 as [|[[] p d sib] K1 IH]; cbn; [by rewrite app_nil_r|done|].
  by rewrite IH, <- !app_assoc.
Qed.

Lemma ctx_r_app K1 K2 : ctx_r (K1 ++ K2) = ctx_r K1 ++ ctx_r K2.
Proof.
  induction K1 as [|[[] p d sib] K1 IH]; cbn; [done| |done].
  by rewrite IH, app_assoc.
Qed.

(** Finding the place of an element of the in-order list. *)
Lemma zipper_at F : ∀ l1 p a l2, inorder F = l1 ++ (p, a) :: l2 →
  ∃ K l d r, F = plug K (Bin l p d r) ∧ a = n_alloc d ∧
             l1 = ctx_l K ++ inorder l ∧ l2 = inorder r ++ ctx_r K.
Proof.
  induction F as [|l IHl q d r IHr]; intros l1 p a l2; cbn; [by intros ?%app_cons_not_nil|].
  intros E. apply app_eq_app in E as [[|y m] [[E1 E2]|[E1 E2]]]; cbn in E2.
  - injection E2 as -> -> ->. rewrite app_nil_r in E1. subst. exists [], l, d, r. cbn. by rewrite app_nil_r.
  - injection E2 as -> <- <-. rewrite app_nil_r in E1. subst. exists [], l, d, r. cbn. by rewrite app_nil_r.
  - injection E2 as <- ->. destruct (IHl _ _ _ _ E1) as (K & ll & dd & rr & -> & -> & -> & ->).
    exists (K ++ [Frame LEFT q d r]), ll, dd, rr. rewrite plug_app, ctx_l_app, ctx_r_app. cbn.
    by rewrite app_nil_r, <- app_assoc.
  - injection E2 as <- E2. destruct (IHr _ _ _ _ E2) as (K & ll & dd & rr & -> & -> & -> & ->).
    exists (K ++ [Frame RIGHT q d l]), ll, dd, rr. rewrite plug_app, ctx_l_app, ctx_r_app. cbn.
    rewrite E1, app_nil_r. split_and!; try done. by rewrite <- !app_assoc.
Qed.

(** The effect of [remove]: the node is unlinked, the rest stays as it was. *)
Lemma remove_ok t l1 p a l2 :
  valid [] t (l1 ++ (p, a) :: l2) →
  ∃ t', remove (Some p) t = Some t' ∧ valid [p] t' (l1 ++ l2).
Proof.
  intros (F & Hg & Ein & (m & Hm) & Hc).
  destruct (zipper_at F _ _ _ _ Ein) as (k & l & d & r & -> & -> & -> & ->).
  destruct (rb_unplug k (Bin l p d r) m []) as (h & Hrb & Hk & Hck);
    [done|done|by rewrite Hc|]. rewrite app_nil_r in Hk, Hck. apply good_plug in Hg.
  destruct (unlink_ok t k l p d r h Hg Hrb Hk Hck) as (t1 & K & f & c & E & G1 & Ein1 & h' & Hr' & Hc').
  unfold remove. rewrite E. cbn [mbind option_bind].
  replace ((ctx_l k ++ inorder l) ++ inorder r ++ ctx_r k) with (inorder (plug K f))
    by (by rewrite Ein1, <- app_assoc).
  destruct (decide (c = RB_BLACK)) as [->|Hne].
  - apply (rebalanceRemove_ok _ _ _ _ h'); [done| |done].
    destruct f as [|fl fp fd fr]; [done|]. cbn in Hr' |- *. destruct (n_color fd); [done|tauto].
  - destruct c; [done|]. destruct Hc' as (Hk' & Hcf & Hne').
    exists t1. split; [done|]. eexists. split; [by apply good_plugged|]. split; [done|].
    destruct (rb_plug K f h') as [? Hcol]; [done|done|by rewrite Hcf|]. split; [done|by apply Hcol].
Qed.

Lemma repr_delete h par f p : p ∉ ptrs f → repr h par f → repr (delete p h) par f.
Proof.
  intros Hp Hr. eapply repr_agree; [done|]. intros q Hq. apply lookup_delete_ne. by intros ->.
Qed.

(** [delete] of an unlinked node. *)
Lemma delete_ok t p X l : valid (p :: X) t l → valid X (delete_node p t) l.
Proof.
  intros (F & ((Hr & Hk & Hnd & Hdom) & Ha & Hx & Ho) & Ein & Hm & Hc).
  exists F. split; [|done]. split; [|done].
  assert (Hnd' := Hnd). cbn in Hnd'. autorewrite with rb_ptrs in Hnd'. destruct_and? Hnd'.
  split_and!; cbn in *.
  - by apply repr_delete.
  - done.
  - autorewrite with rb_ptrs. cbn. done.
  - intros q. destruct (decide (p = q)) as [<-|Hpq].
    + rewrite lookup_delete_eq. split; [by intros [? ?]|]. rewrite elem_of_app. intros [?|?]; done.
    + rewrite lookup_delete_ne by done. rewrite Hdom, !elem_of_app, elem_of_cons. naive_solver.
Qed.

End Summaries.

End AllocTree.
