(* ===== verification/E9AllocSpec.v ===== *)
(** * E9AllocSpec: what the allocator promises

    The search for room, the operations of the allocator, its iterators, and the class
    that states its contract for the rest of the rewriter: a list of disjoint
    allocations, to which [allocate] and [reserve] add one inside the requested bounds,
    and from which [deallocate] takes one. *)

From stdpp Require Import gmap sorting.
From S2P Require Import Prelude E9Patch E9Alloc E9AllocTree.

Module AllocSpec.
Import E9 E9Alloc AllocTree.

(** ** Pages *)

Lemma page_of_div a : page_of a = (a / 4096) mod 2 ^ 52.
Proof.
  unfold page_of, PAGE_SIZE, wrapu. change (2 ^ 64) with (4096 * 2 ^ 52).
  rewrite Z.rem_mul_r by lia. rewrite (Z.mul_comm 4096), Z.div_add by lia.
  rewrite Z.div_small by (apply Z.mod_pos_bound; lia). lia.
Qed.

Lemma page_rem_mod a : page_rem a = a mod 4096.
Proof.
  unfold page_rem, PAGE_SIZE, wrapu. change (2 ^ 64) with (4096 * 2 ^ 52).
  rewrite Z.rem_mul_r by lia. rewrite (Z.mul_comm 4096), Z.mod_add by lia. by rewrite Z.mod_mod by lia.
Qed.

Lemma page_rem_range a : 0 <= page_rem a < 4096.
Proof. rewrite page_rem_mod. apply Z.mod_pos_bound. lia. Qed.

(** A range of at most a page that starts, or ends, at a page boundary. *)
Lemma page_aligned_left a k : page_rem a = 0 → 0 < k <= 4096 → page_of a = page_of (a + k - 1).
Proof.
  rewrite page_rem_mod, !page_of_div. intros. f_equal. Z.to_euclidean_division_equations. lia.
Qed.

Lemma page_aligned_right a k : page_rem a = 0 → 0 < k <= 4096 → page_of (a - k) = page_of (a - 1).
Proof.
  rewrite page_rem_mod, !page_of_div. intros. f_equal. Z.to_euclidean_division_equations. lia.
Qed.

Lemma s64_small z : - 2 ^ 63 <= z < 2 ^ 63 → s64 z = z.
Proof. intros. apply wraps_small; lia. Qed.

(** ** Flags *)

Definition flags_ok (flags : Z) : Prop := 0 <= flags < 16.

Lemma flags_cases flags : flags_ok flags → flags ∈ [0;1;2;3;4;5;6;7;8;9;10;11;12;13;14;15].
Proof. intros [? ?]. rewrite !elem_of_cons. lia. Qed.

Lemma flag_set_facts flags flag val :
  flags_ok flags → flag = FLAG_LB ∨ flag = FLAG_UB →
  flags_ok (flag_set flags flag val) ∧
  has_flag (flag_set flags flag val) FLAG_SAME_PAGE = has_flag flags FLAG_SAME_PAGE ∧
  has_flag (flag_set flags flag val) FLAG_RIGHT = has_flag flags FLAG_RIGHT.
Proof.
  intros Hf%flags_cases Hflag. rewrite !elem_of_cons in Hf.
  destruct_or? Hf; [subst; destruct Hflag as [-> | ->], val; vm_compute; intuition discriminate ..|].
  by apply elem_of_nil in Hf.
Qed.

(** ** Placing a range *)

(** With [FLAG_SAME_PAGE] the size must fit into a page. *)
Definition page_safe (size flags : Z) : Prop :=
  has_flag flags FLAG_SAME_PAGE = true → size <= 4096.

Lemma place_ok `{Window} lb ub size flags :
  wlo <= lb → ub <= whi → 0 < size <= ub - lb →
  match place lb ub size flags with
  | None => ¬ page_safe size flags
  | Some None => has_flag flags FLAG_SAME_PAGE = true
  | Some (Some (LB, UB)) =>
      lb <= LB ∧ UB = LB + size ∧ UB <= ub ∧
      (has_flag flags FLAG_SAME_PAGE = true → page_of LB = page_of (UB - 1))
  end.
Proof.
  pose proof win_lo. pose proof win_hi. intros Hlb Hub Hs. unfold place.
  set (left := if has_flag flags FLAG_RIGHT then _ else _).
  rewrite !(s64_small (ub - size)), !(s64_small (lb + size)) by lia.
  pose proof (page_rem_range lb). pose proof (page_rem_range ub).
  unfold PAGE_SIZE.
  destruct (has_flag flags FLAG_SAME_PAGE) eqn:Esp; cbn [andb].
  2: { destruct left; (split_and!; [lia..|done]). }
  assert (Hal : page_rem (lb + (4096 - page_rem lb)) = 0)
    by (rewrite !page_rem_mod; Z.to_euclidean_division_equations; lia).
  assert (Har : page_rem (ub - page_rem ub) = 0)
    by (rewrite !page_rem_mod; Z.to_euclidean_division_equations; lia).
  pose proof (page_aligned_left _ size Hal) as Hpl. pose proof (page_aligned_right _ size Har) as Hpr.
  destruct left.
  - destruct (Z.eqb_spec (page_of lb) (page_of (lb + size - 1))); cbn [negb].
    { split_and!; [lia..|done]. }
    rewrite Z.abs_eq, !s64_small by lia.
    replace (lb + (4096 - page_rem lb) + size - 1) with (lb + size + (4096 - page_rem lb) - 1) in Hpl by lia.
    destruct (Z.eqb_spec (page_of (lb + (4096 - page_rem lb)))
                         (page_of (lb + size + (4096 - page_rem lb) - 1))) as [Ep|Ep]; cbn [negb].
    + destruct (Z.ltb_spec (lb + (4096 - page_rem lb)) lb); [done|].
      destruct (Z.ltb_spec ub (lb + size + (4096 - page_rem lb))); [done|].
      cbn. split_and!; [lia..|done].
    + intros Hps. apply Ep, Hpl. specialize (Hps Esp). lia.
  - destruct (Z.eqb_spec (page_of (ub - size)) (page_of (ub - 1))); cbn [negb].
    { split_and!; [lia..|done]. }
    rewrite Z.abs_eq, !s64_small by lia.
    replace (ub - page_rem ub - size) with (ub - size + - page_rem ub) in Hpr by lia.
    replace (ub - page_rem ub - 1) with (ub + - page_rem ub - 1) in Hpr by lia.
    destruct (Z.eqb_spec (page_of (ub - size + - page_rem ub))
                         (page_of (ub + - page_rem ub - 1))) as [Ep|Ep]; cbn [negb].
    + destruct (Z.ltb_spec (ub - size + - page_rem ub) lb); [done|].
      destruct (Z.ltb_spec ub (ub + - page_rem ub)); [done|].
      cbn. split_and!; [lia..|done].
    + intros Hps. apply Ep, Hpr. specialize (Hps Esp). lia.
Qed.


(** ** Linking a new node *)

(** The node that [node] creates, but for its links. *)
Definition new_data (LB UB : Z) : Node :=
  MkNode (MkAlloc LB UB None None 0) (MkLinks None None None) 0 RB_RED LB UB.

Lemma new_ptr_fresh t : heap t !! new_ptr t = None.
Proof. apply not_elem_of_dom. unfold new_ptr. apply is_fresh. Qed.

Definition room (K : list frame) (lb ub : Z) : Prop :=
  (∀ x, x ∈ ctx_l K → a_ub x.2 <= lb) ∧ (∀ x, x ∈ ctx_r K → ub <= a_lb x.2).

(** A free range of [size] bytes among the allocations of [l]. *)
Definition hole (l : list (ptr * Alloc)) (lb ub size : Z) : Prop :=
  ∃ x, lb <= x ∧ x + size <= ub ∧ ∀ a, a ∈ l → a_ub a.2 <= x ∨ x + size <= a_lb a.2.

(** What a search for room in the tree [F] may return, for a request of [lb .. ub];
    [no] says what a failure means when pages do not matter. *)
Definition inserted (X : list ptr) (t : Tree) (F : itree)
    (lb ub size flags : Z) (no : Prop) (r : option (option ptr * Tree)) : Prop :=
  match r with
  | None => ¬ page_safe size flags
  | Some (None, t') => t' = t ∧ (has_flag flags FLAG_SAME_PAGE = false → no)
  | Some (Some n, t') =>
      ∃ K LB UB,
        plug K Leaf = F ∧ zip X t' K (Bin Leaf n (new_data LB UB) Leaf) ∧
        lb <= LB ∧ UB = LB + size ∧ UB <= ub ∧ room K LB UB ∧
        (has_flag flags FLAG_SAME_PAGE = true → page_of LB = page_of (UB - 1))
  end.

Section Insert.
Context `{Window}.

Lemma node_link X t s p d sib K LB UB :
  zip X t (Frame s p d sib :: K) Leaf →
  ∃ t', upd (Some p) (set_child s (Some (new_ptr t)))
          (MkTree (<[new_ptr t := set_entry (MkLinks (Some p) None None) (new_data LB UB)]> (heap t)) (root t))
        = Some t' ∧
        zip X t' (Frame s p d sib :: K) (Bin Leaf (new_ptr t) (new_data LB UB) Leaf).
Proof.
  set (n := new_ptr t). intros (_ & Hk & Hnd & Hdom). pose proof (new_ptr_fresh t) as Hn. fold n in Hn.
  destruct Hk as (Hp & Hs & Hk). cbn [rootp] in Hp.
  assert (Hnin : n ∉ ptrs Leaf ++ ctx_ptrs (Frame s p d sib :: K) ++ X).
  { intros Hin. apply Hdom in Hin. rewrite Hn in Hin. by destruct Hin. }
  assert (Hnin' := Hnin). cbn [ptrs inorder ctx_ptrs f_ptr f_sib app] in Hnin'.
  change (ptrs Leaf) with (@nil ptr) in Hnin'. cbn [app] in Hnin'.
  autorewrite with rb_ptrs in Hnin'. destruct_and? Hnin'.
  assert (Hpn : p ≠ n) by congruence.
  erewrite upd_eq by (rewrite lookup_insert_ne by congruence; exact Hp).
  rewrite links_set_child. eexists. split; [reflexivity|].
  set (h1 := <[n := _]> (heap t)). set (x := set_entry _ d).
  assert (Cn : ∀ q, q ≠ n → h1 !! q = heap t !! q) by (intros; unfold h1; by rewrite lookup_insert_ne).
  assert (Hagree : ∀ q, q ≠ n → q ≠ p → <[p := x]> h1 !! q = heap t !! q).
  { intros. rewrite lookup_insert_ne by done. by apply Cn. }
  assert (Hnd' := Hnd). change (ptrs Leaf) with (@nil ptr) in Hnd'. cbn [app] in Hnd'.
  nodup_in Hnd'.
  split_and!; cbn [heap root].
  - cbn [repr ctx_par f_ptr rootp]. rewrite lookup_insert_ne by congruence. unfold h1.
    by rewrite lookup_insert_eq.
  - cbn [repr_ctx rootp]. rewrite lookup_insert_eq. split_and!; [done| |].
    + eapply repr_agree; [done|]. intros q Hq. apply Hagree; intros ->; done.
    + eapply repr_ctx_agree; [done|]. intros q Hq. apply Hagree; intros ->; done.
  - change (ptrs (Bin Leaf n (new_data LB UB) Leaf)) with [n]. cbn [app]. apply NoDup_cons. split; done.
  - intros q. change (ptrs (Bin Leaf n (new_data LB UB) Leaf)) with [n]. cbn [app].
    rewrite elem_of_cons. change (ptrs Leaf) with (@nil ptr) in Hdom. cbn [app] in Hdom.
    rewrite <- Hdom. destruct (decide (q = p)) as [->|]; [|destruct (decide (q = n)) as [->|]].
    + rewrite lookup_insert_eq, Hp. split; [intros _; right; eauto|intros _; eauto].
    + rewrite lookup_insert_ne by congruence. unfold h1. rewrite lookup_insert_eq. split; [by left|eauto].
    + rewrite Hagree by done. naive_solver.
Qed.

(** [root->entry.left = node(...)] and its mirror image, at a free child. *)
Lemma node_ok X t s p d sib K lb ub size flags :
  zip X t (Frame s p d sib :: K) Leaf → wlo <= lb → ub <= whi → 0 < size <= ub - lb →
  room (Frame s p d sib :: K) lb ub →
  inserted X t (plug (Frame s p d sib :: K) Leaf) lb ub size flags False
    ('(n, t) ← node (Some p) lb ub size flags t;
     t ← upd (Some p) (set_child s n) t;
     Some (n, t)).
Proof.
  intros Hz Hlb Hub Hs [Hr1 Hr2]. unfold node. pose proof (place_ok lb ub size flags Hlb Hub Hs) as Hp.
  destruct (place lb ub size flags) as [[[LB UB]|]|]; cbn [mbind option_bind]; [| |done].
  - destruct Hp as (H1 & H2 & H3 & H4).
    destruct (node_link X t s p d sib K LB UB Hz) as (t' & E & Hz').
    change (MkNode (MkAlloc LB UB None None 0) (MkLinks (Some p) None None) 0 RB_RED LB UB)
      with (set_entry (MkLinks (Some p) None None) (new_data LB UB)).
    rewrite E. cbn [mbind option_bind inserted]. exists (Frame s p d sib :: K), LB, UB.
    split_and!; try done. split; intros x Hx; [specialize (Hr1 x Hx); lia|specialize (Hr2 x Hx); lia].
  - assert (upd (Some p) (set_child s None) t = Some t) as ->.
    { destruct Hz as (_ & (Hpp & _) & _). unfold upd. cbn in *. rewrite Hpp. cbn.
      rewrite links_set_child, insert_id by done. by destruct t. }
    cbn [mbind option_bind inserted]. split; [done|]. intros. congruence.
Qed.

(** ** Composing the attempts *)

Lemma inserted_mono X t F lb ub lb' ub' size flags flags' (no no' : Prop) r :
  inserted X t F lb' ub' size flags' no' r → lb <= lb' → ub' <= ub →
  has_flag flags' FLAG_SAME_PAGE = has_flag flags FLAG_SAME_PAGE → (no' → no) →
  inserted X t F lb ub size flags no r.
Proof.
  intros Hi Hlb Hub Hf Hno. destruct r as [[[n|] t']|]; cbn in *; unfold page_safe in *; rewrite ?Hf in Hi.
  - destruct Hi as (K & LB & UB & ? & ? & ? & ? & ? & ? & ?). exists K, LB, UB. split_and!; try done; lia.
  - destruct Hi as [? ?]. split; [done|]. auto.
  - done.
Qed.

Lemma inserted_or X t F lb ub size flags (no1 no2 : Prop) r k :
  inserted X t F lb ub size flags no1 r → inserted X t F lb ub size flags no2 (k t) →
  inserted X t F lb ub size flags (no1 ∧ no2) (r ≫= λ n, or_else n k).
Proof.
  intros H1 H2. destruct r as [[[n|] t']|]; cbn in *; [done| |done].
  destruct H1 as [-> H1]. destruct (k t) as [[[n|] t']|]; cbn in *; [done| |done].
  destruct H2 as [-> H2]. auto.
Qed.

Lemma inserted_or3 X t F lb ub size flags (no1 no2 no3 : Prop) r k2 k3 :
  inserted X t F lb ub size flags no1 r → inserted X t F lb ub size flags no2 (k2 t) →
  inserted X t F lb ub size flags no3 (k3 t) →
  inserted X t F lb ub size flags ((no1 ∧ no2) ∧ no3)
    (r ≫= λ n, or_else n k2 ≫= λ n, or_else n k3).
Proof.
  intros H1 H2 H3. replace (r ≫= _) with ((r ≫= λ n, or_else n k2) ≫= λ n, or_else n k3)
    by (by destruct r as [[[]?]|]).
  by apply inserted_or; [apply inserted_or|].
Qed.

Lemma inserted_skip X t F lb ub size flags (no : Prop) :
  no → inserted X t F lb ub size flags no (Some (None, t)).
Proof. by split. Qed.

(** Request bounds inside the window. *)
Definition request (lb ub : Z) : Prop := wlo <= lb <= whi ∧ wlo <= ub <= whi.

Lemma request_diff lb ub : request lb ub → s64 (ub - lb) = ub - lb.
Proof. pose proof win_width. intros [? ?]. apply s64_small. lia. Qed.

Definition size_ok (size : Z) : Prop := 0 < size < 2 ^ 63.

(** A child that is free, or in which the search goes on. *)
Lemma child_ok X t s p d sib K c lb ub size flags ins :
  good X t (Frame s p d sib :: K) c → request lb ub → size_ok size →
  room (Frame s p d sib :: K) lb ub →
  (c ≠ Leaf →
   inserted X t (plug (Frame s p d sib :: K) c) lb ub size flags (¬ hole (inorder c) lb ub size)
     (ins (rootp c) lb ub size flags t)) →
  inserted X t (plug (Frame s p d sib :: K) c) lb ub size flags (¬ hole (inorder c) lb ub size)
    (if s64 (ub - lb) <? s64 size then Some (None, t)
     else match rootp c with
          | None => '(n, t) ← node (Some p) lb ub size flags t;
                    t ← upd (Some p) (set_child s n) t;
                    Some (n, t)
          | Some q => ins (Some q) lb ub size flags t
          end).
Proof.
  intros Hg Hreq Hs Hroom Hins. rewrite (request_diff _ _ Hreq), (s64_small size) by (unfold size_ok in Hs; lia).
  destruct (Z.ltb_spec (ub - lb) size).
  { apply inserted_skip. intros (x & ? & ? & _). lia. }
  destruct c as [|l q e r]; cbn [rootp]; [|by apply Hins].
  eapply inserted_mono; [apply node_ok; try done|lia|lia|done|done].
  - apply Hg.
  - apply Hreq.
  - apply Hreq.
  - unfold size_ok in Hs. lia.
Qed.

Lemma good_in_window X t k s a p d b :
  good X t k (bin s a p d b) → in_window (p, n_alloc d).
Proof.
  intros (_ & _ & _ & Ho). eapply ordered_in; [exact Ho|]. rewrite plug_inorder, inorder_bin.
  destruct s; cbn; set_solver.
Qed.

(** The clamped bounds of the two children leave room on their side of the node. *)
Lemma room_right X t K l p d r lb ub :
  good X t K (Bin l p d r) → room K lb ub →
  room (Frame RIGHT p d l :: K) (Z.max lb (a_ub (n_alloc d))) ub.
Proof.
  intros (_ & _ & _ & Ho) [H1 H2]. split; [|done]. cbn. intros x Hx.
  rewrite plug_inorder in Ho. apply ordered_app in Ho as (_ & (Ho & _)%ordered_app & _). cbn in Ho.
  apply ordered_app in Ho as (Hol & (Hp & _)%ordered_cons & Hb).
  rewrite elem_of_app, elem_of_app, list_elem_of_singleton in Hx. destruct Hx as [Hx|[Hx| ->]].
  - specialize (H1 x Hx). lia.
  - pose proof (Hb x _ Hx ltac:(by left)) as Hbx. unfold before, in_window in *. cbn in *. lia.
  - cbn. lia.
Qed.

Lemma room_left X t K l p d r lb ub :
  good X t K (Bin l p d r) → room K lb ub →
  room (Frame LEFT p d r :: K) lb (Z.min ub (a_lb (n_alloc d))).
Proof.
  intros (_ & _ & _ & Ho) [H1 H2]. split; [done|]. cbn. intros x Hx.
  rewrite plug_inorder in Ho. apply ordered_app in Ho as (_ & (Ho & _)%ordered_app & _). cbn in Ho.
  apply ordered_app in Ho as (_ & (Hp & _ & Hb)%ordered_cons & _).
  rewrite elem_of_cons, elem_of_app in Hx. destruct Hx as [->|[Hx|Hx]].
  - cbn. lia.
  - pose proof (Hb x Hx) as Hbx. unfold before, in_window in *. cbn in *. lia.
  - specialize (H2 x Hx). lia.
Qed.

(** The search in the right and in the left child, for an [ins] that is right there. *)
Lemma insertRightChild_ok X t K l p d r lb ub size flags ins :
  good X t K (Bin l p d r) → request lb ub → size_ok size → flags_ok flags → room K lb ub →
  (∀ lb ub flags, r ≠ Leaf → request lb ub → flags_ok flags → room (Frame RIGHT p d l :: K) lb ub →
     inserted X t (plug K (Bin l p d r)) lb ub size flags (¬ hole (inorder r) lb ub size)
       (ins (rootp r) lb ub size flags t)) →
  inserted X t (plug K (Bin l p d r)) lb ub size flags
    (¬ hole (inorder r) (Z.max lb (a_ub (n_alloc d))) ub size)
    (insertRightChild ins (Some p) lb ub size flags t).
Proof.
  intros Hg Hreq Hs Hf Hroom Hins. unfold insertRightChild.
  pose proof (good_in_window _ _ _ LEFT _ _ _ _ Hg) as Hw. unfold in_window in Hw. cbn in Hw.
  rewrite (good_deref _ _ _ LEFT _ _ _ _ Hg). cbn [mbind option_bind].
  unfold RB_RIGHT. cbn [n_alloc n_entry set_entry links right].
  set (lb' := Z.max lb (a_ub (n_alloc d))). set (flags' := flag_set _ _ _).
  destruct (flag_set_facts flags FLAG_LB (s64 (lb' - a_ub (n_alloc d)) <? PAGE_SIZE) Hf ltac:(by left))
    as (Hf' & Hsp & _). fold flags' in Hf', Hsp.
  assert (Hreq' : request lb' ub) by (unfold request in *; lia).
  assert (Hg' : good X t (Frame RIGHT p d l :: K) r) by (by apply good_down).
  apply (inserted_mono _ _ _ lb ub lb' ub size flags flags' _ (¬ hole (inorder r) lb' ub size));
    [|unfold lb'; lia|reflexivity|exact Hsp|done].
  apply (child_ok X t RIGHT p d l K r lb' ub size flags' ins Hg' Hreq' Hs).
  - by eapply room_right.
  - intros Hr. apply Hins; try done. by eapply room_right.
Qed.

Lemma insertLeftChild_ok X t K l p d r lb ub size flags ins :
  good X t K (Bin l p d r) → request lb ub → size_ok size → flags_ok flags → room K lb ub →
  (∀ lb ub flags, l ≠ Leaf → request lb ub → flags_ok flags → room (Frame LEFT p d r :: K) lb ub →
     inserted X t (plug K (Bin l p d r)) lb ub size flags (¬ hole (inorder l) lb ub size)
       (ins (rootp l) lb ub size flags t)) →
  inserted X t (plug K (Bin l p d r)) lb ub size flags
    (¬ hole (inorder l) lb (Z.min ub (a_lb (n_alloc d))) size)
    (insertLeftChild ins (Some p) lb ub size flags t).
Proof.
  intros Hg Hreq Hs Hf Hroom Hins. unfold insertLeftChild.
  pose proof (good_in_window _ _ _ LEFT _ _ _ _ Hg) as Hw. unfold in_window in Hw. cbn in Hw.
  rewrite (good_deref _ _ _ LEFT _ _ _ _ Hg). cbn [mbind option_bind].
  unfold RB_LEFT. cbn [n_alloc n_entry set_entry links left].
  set (ub' := Z.min ub (a_lb (n_alloc d))). set (flags' := flag_set _ _ _).
  destruct (flag_set_facts flags FLAG_UB (s64 (a_lb (n_alloc d) - ub') <? PAGE_SIZE) Hf ltac:(by right))
    as (Hf' & Hsp & _). fold flags' in Hf', Hsp.
  assert (Hreq' : request lb ub') by (unfold request in *; lia).
  assert (Hg' : good X t (Frame LEFT p d r :: K) l) by (by apply good_down).
  apply (inserted_mono _ _ _ lb ub lb ub' size flags flags' _ (¬ hole (inorder l) lb ub' size));
    [|reflexivity|unfold ub'; lia|exact Hsp|done].
  apply (child_ok X t LEFT p d r K l lb ub' size flags' ins Hg' Hreq' Hs).
  - by eapply room_left.
  - intros Hl. apply Hins; try done. by eapply room_left.
Qed.

(** ** The search *)

Lemma max_gap_ge l x size :
  ordered l → 0 < size → (∀ a, a ∈ l → a_ub a.2 <= x ∨ x + size <= a_lb a.2) →
  (∃ y, y ∈ l ∧ a_ub y.2 <= x) → (∃ z, z ∈ l ∧ x + size <= a_lb z.2) → size <= max_gap l.
Proof.
  intros Ho Hs Hd (y & Hy & Hyx) (z & Hz & Hzx).
  revert y Hy Hyx. induction l as [|u l IH]; intros y Hy Hyx; [by apply elem_of_nil in Hy|].
  apply ordered_cons in Ho as (Hu & Ho & Hb). unfold in_window in Hu.
  assert (Hux : a_ub u.2 <= x).
  { destruct (Hd u ltac:(by left)); [done|]. apply elem_of_cons in Hy as [->|Hy]; [lia|].
    pose proof (Hb y Hy). pose proof (ordered_in _ _ Ho Hy). unfold before, in_window in *. lia. }
  assert (Hzl : z ∈ l) by (apply elem_of_cons in Hz as [->|?]; [lia|done]).
  destruct l as [|v l]; [by apply elem_of_nil in Hzl|]. change (max_gap (u :: v :: l)) with (Z.max (a_lb v.2 - a_ub u.2) (max_gap (v :: l))).
  destruct (Hd v ltac:(set_solver)) as [Hv|Hv]; [|lia].
  transitivity (max_gap (v :: l)); [|lia].
  apply (IH Ho ltac:(intros a Ha; apply Hd; by right) Hzl v); [by left|done].
Qed.

(** The failures of the four attempts cover every hole. *)
Lemma no_hole l p d r lb ub size :
  ordered (inorder (Bin l p d r)) → cached d (inorder (Bin l p d r)) → 0 < size →
  let aub := a_ub (n_alloc d) in let alb := a_lb (n_alloc d) in
  (size <= n_gap d →
     ¬ hole (inorder r) (Z.max (Z.max lb (n_lb d)) aub) (Z.min ub (n_ub d)) size ∧
     ¬ hole (inorder l) (Z.max lb (n_lb d)) (Z.min (Z.min ub (n_ub d)) alb) size) →
  (n_ub d < ub → ¬ hole (inorder r) (Z.max (Z.max lb (n_ub d)) aub) ub size) →
  (lb < n_lb d → ¬ hole (inorder l) lb (Z.min (Z.min ub (n_lb d)) alb) size) →
  ¬ hole (inorder (Bin l p d r)) lb ub size.
Proof.
  intros Ho (Elb & Eub & Egap) Hs aub alb Hgap Habove Hbelow (x & Hx1 & Hx2 & Hx).
  rewrite Elb, Eub, Egap in *. set (L := inorder (Bin l p d r)) in *.
  assert (Hne : L ≠ []) by (unfold L; cbn; by destruct (inorder l)).
  destruct (lo_in L Hne) as (f & Hf & Elo). destruct (hi_in L Hne) as (g & Hg & Ehi).
  rewrite Elo, Ehi in *.
  pose proof (ordered_in _ _ Ho Hf) as Wf. pose proof (ordered_in _ _ Ho Hg) as Wg.
  assert (HpL : (p, n_alloc d) ∈ L) by (unfold L; cbn; set_solver).
  pose proof (ordered_in _ _ Ho HpL) as Wp. unfold in_window in *. cbn in Wp.
  assert (HrL : ∀ a, a ∈ inorder r → a ∈ L) by (unfold L; cbn; set_solver).
  assert (HlL : ∀ a, a ∈ inorder l → a ∈ L) by (unfold L; cbn; set_solver).
  (* the node lies between the ends *)
  pose proof (lo_app (inorder l) (p, n_alloc d) (inorder r) Ho) as Hlo.
  pose proof (hi_app (inorder l) (p, n_alloc d) (inorder r) Ho) as Hhi.
  change (inorder l ++ (p, n_alloc d) :: inorder r) with L in Hlo, Hhi.
  rewrite Elo in Hlo. rewrite Ehi in Hhi. cbn in Hlo, Hhi.
  destruct (Hx _ HpL) as [Hp|Hp]; cbn in Hp; fold aub alb in Hp, Wp, Hlo, Hhi.
  - destruct (Hx g Hg) as [Hgx|Hgx].
    + apply Habove; [lia|]. exists x. split_and!; [lia|lia|]. auto.
    + destruct (Hgap) as [Hr _]; [by apply (max_gap_ge L x size); eauto|].
      apply Hr. exists x. split_and!; [lia|lia|]. auto.
  - destruct (Hx f Hf) as [Hfx|Hfx].
    + destruct (Hgap) as [_ Hl].
      { by apply (max_gap_ge L x size); eauto. }
      apply Hl. exists x. split_and!; [lia|lia|]. auto.
    + apply Hbelow; [lia|]. exists x. split_and!; [lia|lia|]. auto.
Qed.

Lemma insert_ok X size : size_ok size → ∀ fuel f t K lb ub flags,
  (length (ptrs f) ≤ fuel)%nat → f ≠ Leaf → good X t K f → request lb ub → flags_ok flags →
  room K lb ub →
  inserted X t (plug K f) lb ub size flags (¬ hole (inorder f) lb ub size)
    (insert fuel (rootp f) lb ub size flags t).
Proof.
  intros Hs. induction fuel as [|fuel IH]; intros f t K lb ub flags Hlen Hf Hg Hreq Hfl Hroom;
    (destruct f as [|l p d r]; [done|]).
  { assert (Hl := Permutation_length (ptrs_Bin l p d r)). cbn in Hl. lia. }
  assert (Hl := Permutation_length (ptrs_Bin l p d r)). cbn in Hl. rewrite length_app in Hl.
  cbn [insert rootp]. rewrite (request_diff _ _ Hreq), (s64_small size) by (unfold size_ok in Hs; lia).
  destruct (Z.ltb_spec (ub - lb) size).
  { apply inserted_skip. intros (x & ? & ? & _). lia. }
  pose proof (good_in_window _ _ _ LEFT _ _ _ _ Hg) as Hw. unfold in_window in Hw. cbn in Hw.
  assert (Ho := ordered_sub K _ (proj2 (proj2 (proj2 Hg)))).
  assert (Hc : cached d (inorder (Bin l p d r))) by apply Hg.
  assert (Hb : wlo <= n_lb d <= whi ∧ wlo <= n_ub d <= whi).
  { destruct Hc as (-> & -> & _).
    destruct (lo_in (inorder (Bin l p d r))) as (x & Hx & ->); [cbn; by destruct (inorder l)|].
    destruct (hi_in (inorder (Bin l p d r))) as (y & Hy & ->); [cbn; by destruct (inorder l)|].
    pose proof (ordered_in _ _ Ho Hx). pose proof (ordered_in _ _ Ho Hy). unfold in_window in *. lia. }
  assert (HR : ∀ lb ub, request lb ub → room K lb ub →
    inserted X t (plug K (Bin l p d r)) lb ub size flags
      (¬ hole (inorder r) (Z.max lb (a_ub (n_alloc d))) ub size)
      (insertRightChild (insert fuel) (Some p) lb ub size flags t)).
  { intros. apply insertRightChild_ok; try done. intros lb' ub' fl' Hr Hq' Hfl' Hm'.
    apply (IH r t (Frame RIGHT p d l :: K)); try done; [lia|by apply good_down]. }
  assert (HL : ∀ lb ub, request lb ub → room K lb ub →
    inserted X t (plug K (Bin l p d r)) lb ub size flags
      (¬ hole (inorder l) lb (Z.min ub (a_lb (n_alloc d))) size)
      (insertLeftChild (insert fuel) (Some p) lb ub size flags t)).
  { intros. apply insertLeftChild_ok; try done. intros lb' ub' fl' Hr Hq' Hfl' Hm'.
    apply (IH l t (Frame LEFT p d r :: K)); try done; [lia|by apply good_down]. }
  assert (Hroom' : ∀ lb' ub', lb <= lb' → ub' <= ub → room K lb' ub').
  { intros lb' ub' H1 H2. destruct Hroom as [R1 R2].
    split; intros x Hx; [specialize (R1 x Hx)|specialize (R2 x Hx)]; lia. }
  unfold insert_at. rewrite (good_deref _ _ _ LEFT _ _ _ _ Hg). cbn [mbind option_bind].
  cbn [n_lb n_ub n_gap set_entry]. unfold request in Hreq.
  eapply inserted_mono with (no' := ((size <= n_gap d →
       ¬ hole (inorder r) (Z.max (Z.max lb (n_lb d)) (a_ub (n_alloc d))) (Z.min ub (n_ub d)) size ∧
       ¬ hole (inorder l) (Z.max lb (n_lb d)) (Z.min (Z.min ub (n_ub d)) (a_lb (n_alloc d))) size) ∧
     (n_ub d < ub → ¬ hole (inorder r) (Z.max (Z.max lb (n_ub d)) (a_ub (n_alloc d))) ub size)) ∧
     (lb < n_lb d → ¬ hole (inorder l) lb (Z.min (Z.min ub (n_lb d)) (a_lb (n_alloc d))) size));
    [|reflexivity|reflexivity|reflexivity|].
  2: { intros [[Hgap Habove] Hbelow]. apply no_hole; try done. unfold size_ok in Hs. lia. }
  apply inserted_or3.
  - destruct (Z.leb_spec size (n_gap d)); [|apply inserted_skip; lia].
    eapply inserted_mono; [apply inserted_or;
      [eapply inserted_mono; [apply HR|..] | eapply inserted_mono; [apply HL|..]]|..];
      try reflexivity; try (unfold request; lia); try (apply Hroom'; lia); try (intros Hn; exact Hn); try done.
  - destruct (Z.ltb_spec (n_ub d) ub); [|apply inserted_skip; lia].
    eapply inserted_mono; [apply HR|..]; try reflexivity; try (unfold request; lia); try (apply Hroom'; lia); done.
  - destruct (Z.ltb_spec lb (n_lb d)); [|apply inserted_skip; lia].
    eapply inserted_mono; [apply HL|..]; try reflexivity; try (unfold request; lia); try (apply Hroom'; lia); done.
Qed.

(** ** The operations *)

Lemma sub_elem_l (l1 l2 : list (ptr * Alloc)) x : x ∈ l1 → x ∈ l1 ++ l2.
Proof. intros. apply elem_of_app. by left. Qed.

Lemma ordered_insert K n LB UB :
  ordered (ctx_l K ++ ctx_r K) → room K LB UB → wlo <= LB → LB <= UB → UB <= whi →
  ordered (ctx_l K ++ (n, n_alloc (new_data LB UB)) :: ctx_r K).
Proof.
  intros (Hl & Hr & Hb)%ordered_app [R1 R2] H1 H2 H3. apply ordered_app. split_and!; [done| |].
  - apply ordered_cons. split_and!; [split_and!; cbn; lia|done|]. intros y Hy. unfold before. cbn. by apply R2.
  - intros x y Hx Hy. apply elem_of_cons in Hy as [->|Hy]; [by apply R1|by apply Hb].
Qed.

(** The first node. *)
Lemma first_node t X LB UB :
  zip X t [] Leaf →
  zip X (MkTree (<[new_ptr t := set_entry (MkLinks None None None) (new_data LB UB)]> (heap t)) (Some (new_ptr t)))
      [] (Bin Leaf (new_ptr t) (new_data LB UB) Leaf).
Proof.
  set (n := new_ptr t). pose proof (new_ptr_fresh t) as Hn. fold n in Hn. intros (_ & _ & Hnd & Hdom).
  change (ptrs Leaf ++ ctx_ptrs [] ++ X) with X in *.
  split_and!; cbn [heap root].
  - cbn. by rewrite lookup_insert_eq.
  - done.
  - change (NoDup (n :: X)). apply NoDup_cons. split; [|done]. intros Hin%Hdom. rewrite Hn in Hin. by destruct Hin.
  - intros p. change (is_Some (<[n:=set_entry (MkLinks None None None) (new_data LB UB)]> (heap t) !! p) ↔ p ∈ n :: X).
    rewrite elem_of_cons, <- Hdom. destruct (decide (p = n)) as [->|].
    + rewrite lookup_insert_eq. split; [by left|eauto].
    + rewrite lookup_insert_ne by done. naive_solver.
Qed.

Definition fresh_alloc (LB UB : Z) : Alloc := MkAlloc LB UB None None 0.

(** What [insert] at the root followed by [link] may do to a valid tree. *)
Definition insert_result (t : Tree) (l : list (ptr * Alloc)) (lb ub size flags : Z)
    (r : option (option ptr * Tree)) : Prop :=
  match r with
  | None => ¬ page_safe size flags
  | Some (None, t') =>
      t' = t ∧ (has_flag flags FLAG_SAME_PAGE = false → ¬ hole l lb ub size)
  | Some (Some n, t') =>
      ∃ t'' l1 l2 LB UB,
        link (Some n) t' = Some t'' ∧ l = l1 ++ l2 ∧
        valid [] t'' (l1 ++ (n, fresh_alloc LB UB) :: l2) ∧
        lb <= LB ∧ UB = LB + size ∧ UB <= ub ∧
        (has_flag flags FLAG_SAME_PAGE = true → page_of LB = page_of (UB - 1))
  end.

Lemma insert_root_ok t l lb ub size flags :
  valid [] t l → request lb ub → size_ok size → flags_ok flags →
  insert_result t l lb ub size flags (insert (depth_fuel t) (root t) lb ub size flags t).
Proof.
  intros (F & Hg & <- & (m & Hm) & Hc) Hreq Hs Hf. pose proof (proj1 Hg) as Hz.
  pose proof (zip_size _ _ _ _ Hz) as Hsz. rewrite (zip_root _ _ _ Hz).
  destruct (rootp F) as [q|] eqn:Eq.
  - assert (HF : F ≠ Leaf) by (by destruct F).
    pose proof (insert_ok [] size Hs (depth_fuel t) F t [] lb ub flags) as Hi.
    rewrite Eq in Hi. cbn [plug] in Hi.
    specialize (Hi ltac:(unfold depth_fuel; lia) HF Hg Hreq Hf ltac:(split; intros x Hx; by apply elem_of_nil in Hx)).
    destruct (insert _ _ _ _ _ _ _) as [[[n|] t']|]; cbn in Hi |- *; [|done|done].
    destruct Hi as (K & LB & UB & EF & Hz' & H1 & H2 & H3 & Hroom & Hp).
    assert (HK : K ≠ []) by (intros ->; cbn in EF; congruence). subst F.
    apply good_plug in Hg. rewrite plug_inorder. cbn [inorder app].
    destruct (rb_unplug K Leaf m []) as (h & Hh & Hk & _); [done|done|by rewrite Hc|].
    cbn in Hh. subst h. rewrite app_nil_r in Hk.
    pose proof Hg as (_ & _ & _ & Ho). rewrite plug_inorder in Ho. cbn in Ho.
    destruct (rebalanceInsert_ok [] t' K n (new_data LB UB)) as (t'' & E & V);
      [done|by eapply sib_aug_of|done|done| |].
    { rewrite plug_inorder. cbn. unfold request, size_ok in *. apply ordered_insert; try done; lia. }
    exists t'', (ctx_l K), (ctx_r K), LB, UB. split_and!; try done.
    + unfold link. destruct (root t') eqn:Er; [exact E|]. exfalso.
      destruct Hz' as (_ & Hkk & _). destruct K as [|fr K]; [done|].
      apply repr_ctx_root in Hkk as (x & Hx & _). congruence.
    + rewrite plug_inorder in V. exact V.
  - destruct F; [|done]. cbn in Hc, Hm. cbn [inorder].
    assert (Ei : insert (depth_fuel t) None lb ub size flags t =
                 (if s64 (ub - lb) <? s64 size then Some (None, t) else node None lb ub size flags t)) by done.
    rewrite Ei. rewrite (request_diff _ _ Hreq), (s64_small size) by (unfold size_ok in Hs; lia).
    destruct (Z.ltb_spec (ub - lb) size).
    { split; [done|]. intros _ (x & ? & ? & _). lia. }
    unfold node. pose proof (place_ok lb ub size flags) as Hp. unfold request, size_ok in *.
    specialize (Hp ltac:(lia) ltac:(lia) ltac:(lia)).
    destruct (place lb ub size flags) as [[[LB UB]|]|]; cbn [mbind option_bind insert_result]; [| |done].
    2: { split; [done|]. congruence. }
    destruct Hp as (H1 & H2 & H3 & H4).
    pose proof (first_node t [] LB UB Hz) as Hz'.
    destruct (rebalanceInsert_ok [] _ [] (new_ptr t) (new_data LB UB) Hz') as (t'' & E & V);
      [by constructor|done|done| |].
    { cbn. pose proof (ordered_insert [] (new_ptr t) LB UB) as Ho. cbn in Ho. apply Ho; try lia.
      - apply Hg.
      - split; intros x Hx; by apply elem_of_nil in Hx. }
    exists t'', [], [], LB, UB. split_and!; try done.
    unfold link. cbn [root heap]. rewrite (zip_root _ _ _ Hz). cbn [rootp]. exact E.
Qed.

(** *** Assignments to the allocation of a node *)

Definition same_bounds (x y : ptr * Alloc) : Prop := a_lb x.2 = a_lb y.2 ∧ a_ub x.2 = a_ub y.2.

Lemma same_bounds_refl l : Forall2 same_bounds l l.
Proof. induction l; by constructor. Qed.

Lemma same_bounds_summaries l l' :
  Forall2 same_bounds l l' → lo l = lo l' ∧ hi l = hi l' ∧ max_gap l = max_gap l'.
Proof.
  intros Hs. assert (Hlo : lo l = lo l') by (destruct Hs as [|?? ?? [? _]]; done).
  split; [done|]. split.
  - clear Hlo. unfold hi. induction Hs as [|x y l l' [_ Hub] Hs IH]; [done|].
    destruct Hs as [|x' y' l l' ? Hs]; [done|]. rewrite !last_cons_cons. exact IH.
  - clear Hlo. induction Hs as [|x y l l' [Hlb Hub] Hs IH]; [done|].
    destruct Hs as [|x' y' l l' [Hlb' Hub'] Hs]; [done|]. cbn [max_gap]. cbn in IH. by rewrite Hub, Hlb', IH.
Qed.

Lemma cached_bounds d l l' : Forall2 same_bounds l l' → cached d l → cached d l'.
Proof. intros (E1 & E2 & E3)%same_bounds_summaries (? & ? & ?). unfold cached. by rewrite <- E1, <- E2, <- E3. Qed.

Lemma catl_bounds s l l' x r : Forall2 same_bounds l l' → Forall2 same_bounds (catl s l x r) (catl s l' x r).
Proof.
  intros. destruct s; cbn; (apply Forall2_app; [|constructor; [done|]]); try done; apply same_bounds_refl.
Qed.

Lemma aug_ctx_bounds k l l' : Forall2 same_bounds l l' → aug_ctx l k → aug_ctx l' k.
Proof.
  revert l l'. induction k as [|[s p d sib] k IH]; intros l l' Hs; [done|]. cbn.
  intros (Hc & Hsib & Hk). pose proof (catl_bounds s _ _ (p, n_alloc d) (inorder sib) Hs) as Hs'.
  split_and!; [by eapply cached_bounds|done|by eapply IH].
Qed.

Lemma ordered_bounds l l' : Forall2 same_bounds l l' → ordered l → ordered l'.
Proof.
  induction 1 as [|x y l l' [Hlb Hub] Hs IH]; [done|]. intros (Hx & Ho & Hb)%ordered_cons.
  apply ordered_cons. unfold in_window, before in *. rewrite <- Hlb, <- Hub. split_and!; try lia; [by apply IH|].
  intros z Hz. apply list_elem_of_lookup in Hz as [i Hi].
  destruct (Forall2_lookup_r _ _ _ _ _ Hs Hi) as (w & Hw & [E1 _]). rewrite <- E1.
  apply Hb. by eapply list_elem_of_lookup_2.
Qed.

Lemma valid_set_alloc t l1 n a l2 f :
  valid [] t (l1 ++ (n, a) :: l2) → a_lb (f a) = a_lb a → a_ub (f a) = a_ub a →
  ∃ t', upd (Some n) (λ x, set_alloc (f (n_alloc x)) x) t = Some t' ∧
        valid [] t' (l1 ++ (n, f a) :: l2).
Proof.
  intros (F & Hg & Ein & (m & Hm) & Hc) Elb Eub.
  destruct (zipper_at F _ _ _ _ Ein) as (K & l & d & r & -> & -> & -> & ->). apply good_plug in Hg.
  destruct Hg as (Hz & Ha & Hk & Ho).
  destruct (zip_upd _ _ _ LEFT _ _ _ _ (λ x, set_alloc (f (n_alloc x)) x) Hz) as (t' & E & Hz'); [done|].
  exists t'. split; [exact E|]. set (d' := set_alloc (f (n_alloc d)) d) in *.
  assert (Hsb : Forall2 same_bounds (inorder (Bin l n d r)) (inorder (Bin l n d' r))).
  { cbn. apply Forall2_app; [apply same_bounds_refl|]. constructor; [|apply same_bounds_refl].
    split; cbn; congruence. }
  eexists. split; [apply good_plugged; split_and!; [exact Hz'|..]|split_and!].
  - cbn [bin aug] in *. destruct Ha as (Hcd & Hal & Har). split_and!; [|done..].
    eapply cached_bounds in Hcd; [|exact Hsb]. done.
  - eapply aug_ctx_bounds; [exact Hsb|done].
  - rewrite plug_inorder in *. eapply ordered_bounds; [|exact Ho].
    apply Forall2_app; [apply same_bounds_refl|]. apply Forall2_app; [exact Hsb|apply same_bounds_refl].
  - rewrite plug_inorder. cbn [bin inorder]. by rewrite <- !app_assoc.
  - destruct (rb_unplug K (Bin l n d r) m []) as (h & Hh & Hkk & Hck); [done|done|by rewrite Hc|].
    rewrite app_nil_r in Hkk, Hck.
    eapply (rb_plug K (Bin l n d' r) h); [exact Hh|done|]. intros E'. by apply Hck.
  - destruct (rb_unplug K (Bin l n d r) m []) as (h & Hh & Hkk & Hck); [done|done|by rewrite Hc|].
    rewrite app_nil_r in Hkk, Hck. destruct K as [|fr K]; [exact Hc|].
    eapply (rb_plug (fr :: K) (Bin l n d' r) h); [exact Hh|done|intros E'; by apply Hck|done].
Qed.

(** *** allocate, reserve and deallocate *)

(** A request that the allocator can serve or refuse, without wrapping and without the
    assertion on pages failing. *)
Definition admissible (option_Oorder : bool) (presize tmpsize lb ub : Z) (same_page : bool) : Prop :=
  request (lb - presize) (ub + tmpsize) ∧ size_ok (presize + tmpsize) ∧
  (same_page = true → presize + tmpsize <= PAGE_SIZE) ∧
  (option_Oorder = true → wlo <= order_target).

(** An allocation [a] that serves the request. *)
Definition serves (a : Alloc) (presize tmpsize lb ub : Z) (T : option ptr) (I : option iptr)
    (same_page : bool) : Prop :=
  a_lb a + presize >= lb ∧ a_ub a = a_lb a + presize + tmpsize ∧ a_lb a + presize <= ub ∧
  a_T a = T ∧ a_I a = I ∧ a_entry a = presize ∧
  (same_page = true → page_of (a_lb a) = page_of (a_ub a - 1)).

Lemma insert_result_serves t l lb ub lb' ub' size flags flags' n t' :
  insert_result t l lb' ub' size flags' (Some (Some n, t')) → lb <= lb' → ub' <= ub →
  has_flag flags' FLAG_SAME_PAGE = has_flag flags FLAG_SAME_PAGE →
  insert_result t l lb ub size flags (Some (Some n, t')).
Proof.
  intros (t'' & l1 & l2 & LB & UB & ? & ? & ? & ? & ? & ? & ?) ? ? Hf. rewrite Hf in *.
  exists t'', l1, l2, LB, UB. split_and!; try done; lia.
Qed.

Lemma allocate_sized_ok t l oo presize tmpsize lb ub T I same_page :
  valid [] t l → admissible oo presize tmpsize lb ub same_page →
  ∃ r t',
    allocate_sized oo presize tmpsize lb ub T I same_page t = Some (r, t') ∧
    match r with
    | Some n => ∃ l1 a l2, l = l1 ++ l2 ∧ valid [] t' (l1 ++ (n, a) :: l2) ∧
                           serves a presize tmpsize lb ub T I same_page
    | None => t' = t ∧
        (same_page = false → ¬ hole l (lb - presize) (ub + tmpsize) (presize + tmpsize))
    end.
Proof.
  intros Hv (Hreq & Hs & Hpage & Hoo). unfold allocate_sized.
  pose proof win_lo. pose proof win_hi. unfold request in Hreq.
  rewrite !s64_small by lia. set (flags := if same_page then FLAG_SAME_PAGE else 0).
  set (lb' := lb - presize) in *. set (ub' := ub + tmpsize) in *. set (size := presize + tmpsize) in *.
  assert (Hfl : flags_ok flags) by (unfold flags; destruct same_page; unfold flags_ok, FLAG_SAME_PAGE; lia).
  assert (Hsp : has_flag flags FLAG_SAME_PAGE = same_page) by (unfold flags; by destruct same_page).
  assert (Hps : page_safe size flags) by (intros Hp; rewrite Hsp in Hp; by apply Hpage).
  assert (Hfl' : flags_ok (Z.lor flags FLAG_RIGHT)) by (unfold flags; destruct same_page; vm_compute; split; congruence).
  assert (Hsp' : has_flag (Z.lor flags FLAG_RIGHT) FLAG_SAME_PAGE = has_flag flags FLAG_SAME_PAGE)
    by (unfold flags; by destruct same_page).
  (* the second attempt decides what a failure means *)
  pose proof (insert_root_ok t l lb' ub' size flags Hv Hreq Hs Hfl) as H2.
  set (r2 := insert (depth_fuel t) (root t) lb' ub' size flags t) in *.
  assert (Hall : ∃ r, ((n ← (if oo && (order_target <? ub')
       then insert (depth_fuel t) (root t) lb' order_target size (Z.lor flags FLAG_RIGHT) t
       else Some (None, t)); or_else n (λ t, insert (depth_fuel t) (root t) lb' ub' size flags t)) = Some r ∧
       insert_result t l lb' ub' size flags (Some r))).
  { assert (H2' : ∃ r, r2 = Some r) by (destruct r2; [eauto|done]). destruct H2' as [r2' E2].
    destruct (oo && (order_target <? ub')) eqn:Eo; cbn [mbind option_bind or_else].
    2: { exists r2'. fold r2. rewrite E2 in *. done. }
    apply andb_prop in Eo as [Eoo Eo%Z.ltb_lt]. specialize (Hoo Eoo).
    assert (Hreq1 : request lb' order_target) by (unfold request; lia).
    pose proof (insert_root_ok t l lb' order_target size _ Hv Hreq1 Hs Hfl') as Hone.
    destruct (insert _ _ _ order_target _ _ _) as [[[n|] t1]|]; cbn [mbind option_bind or_else].
    - exists (Some n, t1). split; [done|]. eapply insert_result_serves; [exact Hone|lia|lia|done].
    - cbn in Hone. destruct Hone as [-> _]. exists r2'. fold r2. rewrite E2 in *. done.
    - cbn in Hone. unfold page_safe in Hone, Hps. rewrite Hsp' in Hone. done. }
  destruct Hall as ([[n|] t1] & E & Hr); unfold r2 in *; clear r2 H2.
  - rewrite bind_Some_iff in E. destruct E as (r1 & -> & E). cbn [mbind option_bind]. rewrite E. cbn [mbind option_bind].
    destruct Hr as (t2 & l1 & l2 & LB & UB & -> & -> & Hv2 & Hr3 & Hr4 & Hr5 & Hr6). cbn [mbind option_bind].
    destruct (valid_set_alloc t2 l1 n (fresh_alloc LB UB) l2
                (λ a, MkAlloc (a_lb a) (a_ub a) I T presize) Hv2) as (t3 & -> & Hv3); [done|done|].
    cbn [mbind option_bind]. eexists _, t3. split; [reflexivity|].
    eexists l1, _, l2. split; [done|]. split; [exact Hv3|]. rewrite Hsp in Hr6.
    unfold serves. cbn. split_and!; try done; unfold lb', ub', size in *; lia.
  - rewrite bind_Some_iff in E. destruct E as (r1 & -> & E). cbn [mbind option_bind]. rewrite E. cbn [mbind option_bind].
    destruct Hr as [-> Hno]. rewrite Hsp in Hno. by exists None, t.
Qed.

Lemma page_align_up a :
  (if page_rem a =? 0 then 0 else PAGE_SIZE - page_rem a) = (- a) mod PAGE_SIZE.
Proof.
  rewrite page_rem_mod. unfold PAGE_SIZE.
  destruct (Z.eqb_spec (a mod 4096) 0); Z.to_euclidean_division_equations; lia.
Qed.

Lemma reserve_ok t l lb ub :
  valid [] t l → verify lb ub = true →
  let lb' := lb - lb mod PAGE_SIZE in
  let ub' := ub + (- ub) mod PAGE_SIZE in
  request lb' ub' →
  ∃ r t',
    reserve lb ub t = Some (r, t') ∧
    if (r : bool) then ∃ l1 n a l2, l = l1 ++ l2 ∧ valid [] t' (l1 ++ (n, a) :: l2) ∧
                         a_lb a = lb' ∧ a_ub a = ub' ∧ a_T a = None
    else t' = t ∧ (lb' < ub' → ∃ a, a ∈ l ∧ a_lb a.2 < ub' ∧ lb' < a_ub a.2).
Proof.
  intros Hv Hver lb' ub' Hreq. unfold reserve. rewrite Hver. cbn [negb].
  pose proof win_lo. pose proof win_hi. pose proof win_width. unfold request in Hreq.
  assert (Elb : s64 (lb - page_rem lb) = lb') by (rewrite page_rem_mod; apply s64_small; fold lb'; lia).
  assert (Eub : s64 (ub + (if page_rem ub =? 0 then 0 else PAGE_SIZE - page_rem ub)) = ub').
  { rewrite page_align_up. apply s64_small. fold ub'. lia. }
  rewrite Elb, Eub, (s64_small (ub' - lb')) by lia.
  destruct (Z.leb_spec (ub' - lb') 0).
  { exists false, t. split; [done|]. split; [done|]. lia. }
  assert (Hs : size_ok (ub' - lb')) by (unfold size_ok; lia).
  pose proof (insert_root_ok t l lb' ub' (ub' - lb') 0 Hv Hreq Hs ltac:(unfold flags_ok; lia)) as Hi.
  destruct (insert _ _ _ _ _ _ _) as [[[n|] t1]|]; cbn [mbind option_bind].
  - destruct Hi as (t2 & l1 & l2 & LB & UB & -> & -> & Hv2 & Hr3 & Hr4 & Hr5 & _). cbn [mbind option_bind].
    destruct (valid_set_alloc t2 l1 n (fresh_alloc LB UB) l2
                (λ a, MkAlloc (a_lb a) (a_ub a) None None (a_entry a)) Hv2) as (t3 & -> & Hv3); [done|done|].
    cbn [mbind option_bind]. eexists true, t3. split; [reflexivity|]. eexists l1, n, _, l2.
    split; [done|]. split; [exact Hv3|]. cbn. split_and!; [lia|lia|done].
  - destruct Hi as [-> Hno]. exists false, t. split; [done|]. split; [done|]. intros _.
    destruct (Exists_dec (λ a : ptr * Alloc, a_lb a.2 < ub' ∧ lb' < a_ub a.2) l) as [He|Hne].
    { by apply Exists_exists in He. }
    exfalso. apply Hno; [done|]. exists lb'. split_and!; [lia|lia|]. intros a Ha.
    apply Forall_Exists_neg in Hne. rewrite Forall_forall in Hne. specialize (Hne a Ha). cbn in Hne. lia.
  - exfalso. by apply Hi.
Qed.

Lemma valid_lookup X t l1 n a l2 :
  valid X t (l1 ++ (n, a) :: l2) → ∃ x, deref t (Some n) = Some x ∧ n_alloc x = a.
Proof.
  intros (F & Hg & Ein & _). destruct (zipper_at F _ _ _ _ Ein) as (K & l & d & r & -> & -> & _).
  apply good_plug in Hg. rewrite (good_deref _ _ _ LEFT _ _ _ _ Hg). by eexists.
Qed.

Lemma deallocate_ok t l1 n a l2 :
  valid [] t (l1 ++ (n, a) :: l2) → a_T a ≠ None →
  ∃ t', deallocate (Some n) t = Some t' ∧ valid [] t' (l1 ++ l2).
Proof.
  intros Hv HT. destruct (valid_lookup _ _ _ _ _ _ Hv) as (x & Hx & Ea).
  unfold deallocate. rewrite Hx. cbn [mbind option_bind]. rewrite Ea, decide_False by done.
  destruct (remove_ok t l1 n a l2 Hv) as (t' & -> & Hv'). cbn [mbind option_bind].
  eexists. split; [reflexivity|]. by apply delete_ok.
Qed.

Lemma empty_valid : valid [] empty_tree [].
Proof.
  assert (Hz : zip [] empty_tree [] Leaf).
  { split_and!; [done|done|constructor|]. intros p. cbn. rewrite lookup_empty, elem_of_nil.
    split; [by intros []|done]. }
  exists Leaf. split; [|split_and!; [done|by exists O|done]].
  split_and!; [exact Hz|exact I|exact I|]. split; constructor.
Qed.

Lemma valid_ordered X t l : valid X t l → ordered l.
Proof. intros (F & (_ & _ & _ & Ho) & <- & _). exact Ho. Qed.

Lemma valid_nodup X t l : valid X t l → NoDup l.*1.
Proof.
  intros (F & ((_ & _ & Hnd & _) & _) & <- & _). by apply NoDup_app in Hnd as [? _].
Qed.

End Insert.

End AllocSpec.
