(* ===== verification/E9AllocIter.v ===== *)
(** * E9AllocIter: iterating over the allocations, and finding one

    The iterators of src/src/e9patch/e9alloc.cpp visit the allocations in the order of
    their addresses, [find] returns the allocation that contains an address, and does so
    in a number of steps that is logarithmic in the number of allocations. *)

From stdpp Require Import gmap sorting.
From S2P Require Import Prelude E9Patch E9Alloc E9AllocTree E9AllocSpec.

Module AllocIter.
Import E9 E9Alloc AllocTree AllocSpec.

(** ** Iterators *)

(** The node at the head of a list of allocations, or [nullptr]. *)
Definition head_ptr (l : list (ptr * Alloc)) : option ptr := fst <$> head l.

Lemma climb_ok X t fuel : ∀ k f,
  zip X t k f → f ≠ Leaf → (length k ≤ fuel)%nat →
  climb fuel (rootp f) t = Some (head_ptr (ctx_r k)).
Proof.
  assert (Hstep : ∀ fuel k f, zip X t k f → f ≠ Leaf →
    climb fuel (rootp f) t =
      match k with
      | [] => Some None
      | Frame LEFT q _ _ :: _ => Some (Some q)
      | Frame RIGHT q _ _ :: _ => match fuel with O => None | S fuel' => climb fuel' (Some q) t end
      end).
  { clear fuel. intros fuel k f Hz Hf. destruct f as [|l p d r]; [done|].
    assert (E0 : deref t (Some p) = Some (set_entry (links LEFT (ctx_par k) (rootp l) (rootp r)) d))
      by by eapply (deref_bin _ _ _ LEFT).
    destruct fuel; cbn [climb rootp]; rewrite E0; cbn [mbind option_bind];
      unfold RB_PARENT; cbn [n_entry set_entry links parent];
      (destruct k as [|[s q dq sib] k]; [done|]); cbn [ctx_par f_ptr];
      pose proof (proj1 (zip_move _ _ _ _ _ _ _ _) Hz) as Hz';
      rewrite (deref_bin _ _ _ s _ _ _ _ Hz'); cbn [mbind option_bind];
      pose proof (side_of _ _ _ _ _ _ _ _ Hz ltac:(by left)) as Es; cbn [rootp] in *;
      destruct s; repeat destruct decide; congruence. }
  induction fuel as [|fuel IH]; intros k f Hz Hf Hlen; rewrite (Hstep _ _ _ Hz Hf);
    (destruct k as [|[s q dq sib] k]; [done|]); [cbn in Hlen; lia|].
  destruct s; [done|]. apply zip_move in Hz. cbn in Hlen.
  apply (IH k (Bin sib q dq f)); [exact Hz|done|lia].
Qed.

Lemma ctx_l_lefts K : Forall (λ fr, f_side fr = LEFT) K → ctx_l K = [].
Proof. induction 1 as [|[s p d sib] K Hs HK IH]; [done|]. cbn in *. by subst. Qed.

Lemma leftmost_head X t k f fuel :
  zip X t k f → f ≠ Leaf → (length (ptrs f) ≤ fuel)%nat →
  leftmost fuel (rootp f) t = Some (head_ptr (inorder f)).
Proof.
  intros Hz Hf Hl. destruct (leftmost_ok X fuel f t k Hl Hz Hf) as (K & n & dn & c & _ & _ & -> & ->). done.
Qed.

Lemma head_ptr_app l1 l2 : l1 ≠ [] → head_ptr (l1 ++ l2) = head_ptr l1.
Proof. by destruct l1. Qed.

(** [next] goes to the next allocation. *)
Lemma next_ok X t K l p d r :
  zip X t K (Bin l p d r) → next (Some p) t = Some (head_ptr (inorder r ++ ctx_r K)).
Proof.
  intros Hz. unfold next. rewrite (deref_bin _ _ _ LEFT _ _ _ _ Hz). cbn [mbind option_bind].
  unfold RB_RIGHT. cbn [n_entry set_entry links right].
  pose proof (zip_size _ _ _ _ Hz) as Hsz. unfold depth_fuel.
  assert (Hr : (length (ptrs r) ≤ length (ptrs (Bin l p d r)))%nat).
  { rewrite (Permutation_length (ptrs_Bin l p d r)). cbn [length]. rewrite length_app. lia. }
  destruct r as [|rl rp rd rr].
  - cbn [rootp inorder app]. apply (climb_ok X t _ K (Bin l p d Leaf)); [done|done|lia].
  - cbn [rootp]. apply (zip_move X t RIGHT p d l K (Bin rl rp rd rr)) in Hz.
    rewrite head_ptr_app by (cbn; by intros ?%eq_sym%app_cons_not_nil).
    apply (leftmost_head _ _ _ _ _ Hz); [done|lia].
Qed.

Section Iterate.
Context `{Window}.

Lemma valid_size X t l : valid X t l → (length l ≤ size (heap t))%nat.
Proof.
  intros (F & ((Hz & _) & <- & _)). pose proof (zip_size _ _ _ _ Hz) as Hs.
  unfold ptrs in Hs. rewrite length_map in Hs. lia.
Qed.

Lemma valid_next X t l1 n a l2 :
  valid X t (l1 ++ (n, a) :: l2) → next (Some n) t = Some (head_ptr l2).
Proof.
  intros (F & Hg & Ein & _). destruct (zipper_at F _ _ _ _ Ein) as (K & l & d & r & -> & -> & -> & ->).
  apply good_plug in Hg. by apply (next_ok X t K l n d r), Hg.
Qed.

Lemma iterate_ok X t fuel : ∀ l1 l2,
  valid X t (l1 ++ l2) → (length l2 ≤ fuel)%nat → iterate fuel (head_ptr l2) t = Some l2.
Proof.
  induction fuel as [|fuel IH]; intros l1 [|[n a] l2] Hv Hl; try done; [cbn in Hl; lia|].
  cbn [head_ptr head fmap option_fmap option_map iterate fst].
  destruct (valid_lookup _ _ _ _ _ _ Hv) as (x & -> & <-). cbn [mbind option_bind].
  rewrite (valid_next _ _ _ _ _ _ Hv). cbn [mbind option_bind]. cbn in Hl.
  rewrite (IH (l1 ++ [(n, n_alloc x)]) l2); [done| |lia]. by rewrite <- app_assoc.
Qed.

Lemma all_allocs_ok X t l : valid X t l → all_allocs t = Some l.
Proof.
  intros Hv. unfold all_allocs, begin. pose proof (valid_size _ _ _ Hv) as Hs. unfold depth_fuel.
  assert (Eb : match root t with
               | None => Some None
               | Some _ => leftmost (S (size (heap t))) (root t) t end = Some (head_ptr l)).
  { destruct Hv as (F & (Hz & _) & <- & _). rewrite (zip_root _ _ _ Hz).
    unfold ptrs in *. destruct F as [|fl p d fr]; [done|]. cbn [rootp].
    apply (leftmost_head _ _ _ _ _ Hz); [done|]. unfold ptrs. rewrite length_map. lia. }
  rewrite Eb. cbn [mbind option_bind]. by apply (iterate_ok X t _ []); [|lia].
Qed.

(** ** Finding the allocation of an address *)

Definition contains (addr : Z) (x : ptr * Alloc) : Prop := a_lb x.2 <= addr < a_ub x.2.

#[export] Instance contains_dec addr x : Decision (contains addr x).
Proof. unfold contains. apply _. Defined.

(** The allocation of [l] that contains [addr]. *)
Definition find_alloc (addr : Z) (l : list (ptr * Alloc)) : option ptr :=
  head_ptr (filter (contains addr) l).

Fixpoint height (f : itree) : nat :=
  match f with Leaf => O | Bin l _ _ r => S (Nat.max (height l) (height r)) end.

Lemma filter_none {A} (P : A → Prop) `{!∀ x, Decision (P x)} l :
  (∀ x, x ∈ l → ¬ P x) → filter P l = [].
Proof.
  intros Hl. induction l as [|x l IH]; [done|]. rewrite filter_cons_False by (apply Hl; by left).
  apply IH. intros y Hy. apply Hl. by right.
Qed.

Lemma find_from_ok X t addr fuel : ∀ k f,
  zip X t k f → ordered (inorder f) → (height f ≤ fuel)%nat →
  find_from fuel addr (rootp f) t = Some (find_alloc addr (inorder f)).
Proof.
  induction fuel as [|fuel IH]; intros k f Hz Ho Hh; (destruct f as [|l p d r]; [done|]);
    [cbn in Hh; lia|].
  cbn [find_from rootp inorder]. rewrite (deref_bin _ _ _ LEFT _ _ _ _ Hz). cbn [mbind option_bind].
  change (n_alloc (set_entry _ d)) with (n_alloc d).
  unfold RB_LEFT, RB_RIGHT. cbn [n_entry set_entry links left right].
  pose proof (proj2 (zip_move X t LEFT p d r k l) Hz) as Hzl.
  pose proof (proj2 (zip_move X t RIGHT p d l k r) Hz) as Hzr.
  cbn [inorder] in Ho. apply ordered_app in Ho as (Hol & (Hp & Hor & Hpr)%ordered_cons & Hlr).
  assert (Hlp : ∀ x, x ∈ inorder l → a_ub x.2 <= a_lb (n_alloc d)).
  { intros x Hx. apply (Hlr x (p, n_alloc d)); [done|]. by left. }
  unfold before, in_window in *. cbn [snd] in *. cbn in Hh.
  unfold find_alloc. rewrite filter_app.
  destruct (Z.ltb_spec addr (a_lb (n_alloc d))); [|destruct (Z.leb_spec (a_ub (n_alloc d)) addr)].
  - rewrite (IH _ l Hzl Hol) by lia. rewrite (filter_none _ (_ :: _)); [by rewrite app_nil_r|].
    intros x [->|Hx]%elem_of_cons; unfold contains; cbn; [lia|]. specialize (Hpr x Hx). lia.
  - rewrite (IH _ r Hzr Hor) by lia. rewrite (filter_none _ (inorder l)).
    + cbn [app]. rewrite filter_cons_False; [done|]. unfold contains. cbn. lia.
    + intros x Hx. specialize (Hlp x Hx). unfold contains. lia.
  - rewrite (filter_none _ (inorder l)).
    + cbn [app]. rewrite filter_cons_True; [done|]. unfold contains. cbn. lia.
    + intros x Hx. specialize (Hlp x Hx). unfold contains. lia.
Qed.

(** ** The depth of the tree *)

Lemma rb_height f : ∀ m, rb f m → (height f ≤ 2 * m + match col f with RB_BLACK => 0 | RB_RED => 1 end)%nat.
Proof.
  induction f as [|l IHl p d r IHr]; intros m Hm; [cbn; lia|]. cbn in Hm |- *.
  unfold col. cbn [rootd]. destruct (n_color d).
  - destruct m as [|m]; [done|]. destruct Hm as [Hl Hr]. specialize (IHl _ Hl). specialize (IHr _ Hr).
    destruct (col l), (col r); lia.
  - destruct Hm as (Hl & Hr & El & Er). specialize (IHl _ Hl). specialize (IHr _ Hr).
    rewrite El in IHl. rewrite Er in IHr. lia.
Qed.

Lemma rb_count f : ∀ m, rb f m → (2 ^ m ≤ S (length (inorder f)))%nat.
Proof.
  induction f as [|l IHl p d r IHr]; intros m Hm; [cbn in Hm; subst; cbn; lia|].
  cbn [rb] in Hm. cbn [inorder]. rewrite length_app. cbn [length].
  destruct (n_color d).
  - destruct m as [|m]; [done|]. destruct Hm as [Hl Hr]. specialize (IHl _ Hl). specialize (IHr _ Hr).
    rewrite Nat.pow_succ_r'. lia.
  - destruct Hm as (Hl & Hr & _). specialize (IHl _ Hl). lia.
Qed.

(** The steps of a descent in a tree of [n] allocations. *)
Definition max_depth (n : nat) : nat := 2 * Nat.log2 (S n).

Lemma valid_height X t F m :
  good X t [] F → rb F m → col F = RB_BLACK → (height F ≤ max_depth (length (inorder F)))%nat.
Proof.
  intros _ Hm Hc. pose proof (rb_height F m Hm) as Hh. rewrite Hc in Hh.
  pose proof (rb_count F m Hm) as Hn. unfold max_depth.
  apply Nat.log2_le_mono in Hn. rewrite Nat.log2_pow2 in Hn by lia. lia.
Qed.

Lemma find_depth_ok X t l addr fuel :
  valid X t l → (max_depth (length l) ≤ fuel)%nat →
  find_from fuel addr (root t) t = Some (find_alloc addr l).
Proof.
  intros (F & Hg & <- & (m & Hm) & Hc) Hf. pose proof (valid_height _ _ _ _ Hg Hm Hc) as Hh.
  destruct Hg as (Hz & _ & _ & Ho). rewrite (zip_root _ _ _ Hz).
  apply (find_from_ok X t addr fuel []); [done|done|lia].
Qed.

Lemma height_length F : (height F ≤ length (inorder F))%nat.
Proof. induction F; cbn; [lia|]. rewrite length_app. cbn. lia. Qed.

Lemma find_ok X t l addr : valid X t l → find addr t = Some (find_alloc addr l).
Proof.
  intros Hv. pose proof (valid_size _ _ _ Hv) as Hs. unfold find, depth_fuel.
  destruct Hv as (F & (Hz & _ & _ & Ho) & <- & _). rewrite (zip_root _ _ _ Hz).
  pose proof (height_length F). apply (find_from_ok X t addr _ []); [done|done|lia].
Qed.

(** In a list of disjoint allocations at most one contains the address. *)
Lemma find_alloc_spec addr l n :
  ordered l →
  find_alloc addr l = Some n ↔ ∃ a, (n, a) ∈ l ∧ a_lb a <= addr < a_ub a.
Proof.
  intros Ho. unfold find_alloc, head_ptr. induction l as [|[p a] l IH].
  { cbn. split; [done|]. by intros (a & ?%elem_of_nil & _). }
  apply ordered_cons in Ho as (Hw & Ho & Hb). rewrite filter_cons. destruct (decide _) as [Hc|Hc].
  - cbn. split.
    + intros [= ->]. exists a. split; [by left|]. exact Hc.
    + intros (b & [E|Hin]%elem_of_cons & Hr); [by injection E as -> ->|].
      specialize (Hb _ Hin). unfold before, contains in *. cbn in *. lia.
  - rewrite (IH Ho). split; intros (b & Hin & Hr); exists b; (split; [|done]); [by right|].
    apply elem_of_cons in Hin as [E|?]; [|done]. injection E as -> ->. by destruct Hc.
Qed.

End Iterate.

(** The relative addresses, with room for a prologue and a trampoline at both ends. *)
#[refine] Definition relative_window : Window := {|
  wlo := RELATIVE_ADDRESS_MIN - 2 ^ 32; whi := RELATIVE_ADDRESS_MAX + 2 ^ 32 |}.
Proof. all: unfold RELATIVE_ADDRESS_MIN, RELATIVE_ADDRESS_MAX; lia. Defined.

(** C40: the tree is balanced.  A descent of [find] in a tree of [n] allocations takes at
    most [2 * log2 (n + 1)] steps, and returns the allocation that contains the
    address. *)
Theorem find_logarithmic `{Window} t l addr :
  valid [] t l →
  ∃ r, find_from (max_depth (length l)) addr (root t) t = Some r ∧
       find addr t = Some r ∧
       ∀ n, r = Some n ↔ ∃ a, (n, a) ∈ l ∧ a_lb a <= addr < a_ub a.
Proof.
  intros Hv. exists (find_alloc addr l). split_and!.
  - by apply (find_depth_ok [] t l addr).
  - by eapply find_ok.
  - intros n. by eapply find_alloc_spec, valid_ordered.
Qed.

Lemma find_logarithmic_witness :
  valid (H := relative_window) [] empty_tree [] ∧
  ∃ r, find_from (max_depth 0) 0x1000 (root empty_tree) empty_tree = Some r ∧
       find 0x1000 empty_tree = Some r ∧
       ∀ n, r = Some n ↔ ∃ a, (n, a) ∈ [] ∧ a_lb a <= 0x1000 < a_ub a.
Proof.
  split; [apply empty_valid|]. apply (find_logarithmic (H := relative_window) empty_tree []), empty_valid.
Defined.

End AllocIter.
