(* ===== verification/E9AllocApi.v ===== *)
(** * E9AllocApi: the contract of the allocator

    What src/src/e9patch/e9alloc.cpp promises to the rest of the rewriter: an abstract
    machine on lists of disjoint allocations, a class that states the promise, the
    instance of the red-black interval tree, and the properties of the tree. *)

From stdpp Require Import gmap sorting.
From S2P Require Import Prelude E9Patch E9Alloc E9AllocTree E9AllocSpec E9AllocIter.

Module AllocApi.
Import E9 E9Alloc AllocTree AllocSpec AllocIter.

(** ** The abstract machine *)

(** The calls of the rewriter; [b] is the binary, of which the sizes of trampolines
    depend. *)
Inductive request_op (B : Type) :=
| Allocate (b : B) (lb ub : Z) (T : option ptr) (I : option iptr) (same_page : bool)
| Reserve (lb ub : Z)
| Deallocate (a : option ptr).
Arguments Allocate {B}. Arguments Reserve {B}. Arguments Deallocate {B}.

Inductive outcome := Allocated (a : option ptr) | Reserved (ok : bool) | Deallocated.

Definition page_down (a : Z) : Z := a - a mod PAGE_SIZE.
Definition page_up (a : Z) : Z := a + (- a) mod PAGE_SIZE.

Section Machine.
Context `{W : Window} {B : Type} `{TR : Trampolines B} (option_Oorder : bool).

(** The caller's side of the contract: the sizes are known, no bound wraps, and only a
    live allocation of a trampoline is given back. *)
Definition op_ok (l : list (ptr * Alloc)) (o : request_op B) : Prop :=
  match o with
  | Allocate b lb ub T J same_page =>
      verify lb (s64 (ub + TRAMPOLINE_MAX)) = true →
      ∃ presize tmpsize, getTrampolinePrologueSize b J = Some presize ∧
        getTrampolineSize b T J = Some tmpsize ∧
        (0 <= tmpsize → admissible option_Oorder presize tmpsize lb ub same_page)
  | Reserve lb ub => verify lb ub = true → request (page_down lb) (page_up ub)
  | Deallocate None => True
  | Deallocate (Some n) => ∃ a, (n, a) ∈ l ∧ a_T a ≠ None
  end.

(** The allocator's side: an allocation that serves the request is inserted at its place
    in the list; [None] is returned for an invalid request or for lack of room. *)
Inductive spec_step (l : list (ptr * Alloc)) :
    request_op B → outcome → list (ptr * Alloc) → Prop :=
| spec_allocated b lb ub T I same_page presize tmpsize l1 n a l2 :
    verify lb (s64 (ub + TRAMPOLINE_MAX)) = true →
    getTrampolinePrologueSize b I = Some presize → getTrampolineSize b T I = Some tmpsize →
    0 <= tmpsize → l = l1 ++ l2 → serves a presize tmpsize lb ub T I same_page →
    spec_step l (Allocate b lb ub T I same_page) (Allocated (Some n)) (l1 ++ (n, a) :: l2)
| spec_invalid b lb ub T I same_page :
    verify lb (s64 (ub + TRAMPOLINE_MAX)) = false →
    spec_step l (Allocate b lb ub T I same_page) (Allocated None) l
| spec_unsized b lb ub T I same_page tmpsize :
    getTrampolineSize b T I = Some tmpsize → tmpsize < 0 →
    spec_step l (Allocate b lb ub T I same_page) (Allocated None) l
| spec_no_room b lb ub T I same_page presize tmpsize :
    getTrampolinePrologueSize b I = Some presize → getTrampolineSize b T I = Some tmpsize →
    (same_page = false → ¬ hole l (lb - presize) (ub + tmpsize) (presize + tmpsize)) →
    spec_step l (Allocate b lb ub T I same_page) (Allocated None) l
| spec_reserved lb ub l1 n a l2 :
    verify lb ub = true → l = l1 ++ l2 →
    a_lb a = page_down lb → a_ub a = page_up ub → a_T a = None →
    spec_step l (Reserve lb ub) (Reserved true) (l1 ++ (n, a) :: l2)
| spec_not_reserved lb ub :
    (verify lb ub = true → page_down lb < page_up ub →
     ∃ x, x ∈ l ∧ a_lb x.2 < page_up ub ∧ page_down lb < a_ub x.2) →
    spec_step l (Reserve lb ub) (Reserved false) l
| spec_nothing : spec_step l (Deallocate None) Deallocated l
| spec_deallocated l1 n a l2 :
    l = l1 ++ (n, a) :: l2 → a_T a ≠ None →
    spec_step l (Deallocate (Some n)) Deallocated (l1 ++ l2).

(** ** The tree implements the machine *)

Definition run_op (o : request_op B) (t : Tree) : option (outcome * Tree) :=
  match o with
  | Allocate b lb ub T J same_page =>
      '(n, t) ← allocate option_Oorder b lb ub T J same_page t; Some (Allocated n, t)
  | Reserve lb ub => '(ok, t) ← reserve lb ub t; Some (Reserved ok, t)
  | Deallocate a => t ← deallocate a t; Some (Deallocated, t)
  end.

Lemma run_op_ok t l o :
  valid [] t l → op_ok l o →
  ∃ r t' l', run_op o t = Some (r, t') ∧ spec_step l o r l' ∧ valid [] t' l'.
Proof.
  intros Hv Ho. destruct o as [b lb ub T J sp|lb ub|[n|]]; cbn [run_op op_ok] in *.
  - unfold allocate. destruct (verify lb _) eqn:Ever; cbn [negb].
    2: { exists (Allocated None), t, l. split_and!; [done| |done]. by constructor. }
    destruct (Ho eq_refl) as (presize & tmpsize & E1 & E2 & Hadm). rewrite E1, E2. cbn [mbind option_bind].
    destruct (Z.ltb_spec tmpsize 0).
    { exists (Allocated None), t, l. split_and!; [done| |done]. by eapply spec_unsized. }
    destruct (allocate_sized_ok t l option_Oorder presize tmpsize lb ub T J sp Hv) as ([n|] & t' & -> & Hr);
      [by apply Hadm|..]; cbn [mbind option_bind].
    + destruct Hr as (l1 & a & l2 & -> & Hv' & Hs). eexists _, t', _. split; [done|]. split; [|exact Hv'].
      by eapply spec_allocated.
    + destruct Hr as [-> Hno]. eexists _, t, l. split; [done|]. split; [|done]. by eapply spec_no_room.
  - destruct (verify lb ub) eqn:Ever.
    + destruct (reserve_ok t l lb ub Hv Ever (Ho eq_refl)) as (r & t' & E & Hr). rewrite E. cbn [mbind option_bind].
      destruct r.
      * destruct Hr as (l1 & n & a & l2 & -> & Hv' & E1 & E2 & E3). eexists _, t', _. split; [done|].
        split; [|exact Hv']. by apply spec_reserved.
      * destruct Hr as [-> Hno]. eexists _, t, l. split; [done|]. split; [|done]. by apply spec_not_reserved.
    + unfold reserve. rewrite Ever. cbn. eexists _, t, l. split; [done|]. split; [|done].
      apply spec_not_reserved. by rewrite Ever.
  - destruct Ho as (a & Hin & HT). apply list_elem_of_split in Hin as (l1 & l2 & ->).
    destruct (deallocate_ok t l1 n a l2 Hv HT) as (t' & -> & Hv'). cbn [mbind option_bind].
    eexists _, t', _. split; [done|]. split; [|exact Hv']. by eapply spec_deallocated.
  - cbn. eexists _, t, l. split; [done|]. split; [constructor|done].
Qed.

End Machine.

(** ** The interface *)

(** An allocator, for the components that allocate: a state [S] that stands for a list of
    allocations, and the guarantee that a permitted call does a step of the machine. *)
Class VirtualSpace `{Window} (B : Type) `{Trampolines B} (S : Type) := {
  vs_live : S → list (ptr * Alloc) → Prop;
  vs_run : bool → request_op B → S → option (outcome * S);
  vs_get : S → ptr → option Alloc;
  vs_get_live s l n a : vs_live s l → (n, a) ∈ l → vs_get s n = Some a;
  vs_step oo s l o : vs_live s l → op_ok oo l o →
    ∃ r s' l', vs_run oo o s = Some (r, s') ∧ spec_step l o r l' ∧ vs_live s' l';
  vs_disjoint s l : vs_live s l → ordered l ∧ NoDup l.*1 }.

(** [*a] *)
Definition get_alloc (t : Tree) (n : ptr) : option Alloc := n_alloc <$> heap t !! n.

Lemma get_alloc_live `{Window} t l n a : valid [] t l → (n, a) ∈ l → get_alloc t n = Some a.
Proof.
  intros Hv Hin. apply list_elem_of_split in Hin as (l1 & l2 & ->).
  destruct (valid_lookup _ _ _ _ _ _ Hv) as (x & Hx & <-). unfold get_alloc, deref in *. cbn in Hx.
  by rewrite Hx.
Qed.

#[export] Instance tree_space `{Window} B `{Trampolines B} : VirtualSpace B Tree := {
  vs_live := valid [];
  vs_run := run_op;
  vs_get := get_alloc;
  vs_get_live := get_alloc_live;
  vs_step oo s l o := run_op_ok oo s l o;
  vs_disjoint s l Hv := conj (valid_ordered _ _ _ Hv) (valid_nodup _ _ _ Hv) }.

(** ** Clients

    A client calls the allocator and continues depending on the outcome. *)
Inductive client (B : Type) := Done | Call (o : request_op B) (k : outcome → client B).
Arguments Done {B}. Arguments Call {B}.

Section Clients.
Context `{W : Window} {B : Type} `{TR : Trampolines B} (option_Oorder : bool).

(** The client respects its side of the contract, whatever the allocator does. *)
Fixpoint respects (l : list (ptr * Alloc)) (c : client B) : Prop :=
  match c with
  | Done => True
  | Call o k => op_ok option_Oorder l o ∧ ∀ r l', spec_step l o r l' → respects l' (k r)
  end.

(** The calls of a client with their outcomes, and the last state. *)
Fixpoint run_client (c : client B) (t : Tree) : option (list (request_op B * outcome) * Tree) :=
  match c with
  | Done => Some ([], t)
  | Call o k =>
      '(r, t) ← run_op option_Oorder o t;
      '(tr, t) ← run_client (k r) t;
      Some ((o, r) :: tr, t)
  end.

Inductive spec_run : list (ptr * Alloc) → list (request_op B * outcome) →
    list (ptr * Alloc) → Prop :=
| spec_end l : spec_run l [] l
| spec_call l o r l' tr l'' :
    spec_step l o r l' → spec_run l' tr l'' → spec_run l ((o, r) :: tr) l''.

Lemma run_client_ok c : ∀ t l, valid [] t l → respects l c →
  ∃ tr t' l', run_client c t = Some (tr, t') ∧ spec_run l tr l' ∧ valid [] t' l'.
Proof.
  induction c as [|o k IH]; intros t l Hv Hc; cbn [run_client].
  - exists [], t, l. split_and!; [done|constructor|done].
  - destruct Hc as [Ho Hk]. destruct (run_op_ok _ _ _ _ Hv Ho) as (r & t1 & l1 & -> & Hs & Hv1).
    cbn [mbind option_bind]. destruct (IH r t1 l1 Hv1 (Hk _ _ Hs)) as (tr & t2 & l2 & -> & Hr & Hv2).
    cbn [mbind option_bind]. exists ((o, r) :: tr), t2, l2. split_and!; [done|by econstructor|done].
Qed.

End Clients.

(** ** Concrete parameters, for the witnesses *)

(** Trampolines of 64 bytes after a prologue of 16. *)
Definition const_trampolines : Trampolines unit := {|
  getTrampolinePrologueSize _ _ := Some 16;
  getTrampolineSize _ _ _ := Some 64;
  getTrampolineBounds _ _ _ := Some (MkBounds INTPTR_MIN INTPTR_MAX) |}.

(** A client that allocates, reserves the pages of [0 .. 0x2000] and gives back what it
    allocated. *)
Definition sample_client : client unit :=
  Call (Allocate tt 0x10000 0x20000 (Some 1%positive) (Some 7) false) (λ r,
  Call (Reserve 0x10 0x1ff0) (λ _,
  match r with
  | Allocated (Some n) => Call (Deallocate (Some n)) (λ _, Done)
  | _ => Done
  end)).

(** ** Properties *)

(** C10: the allocator implements its specification.  Whatever sequence of calls a client
    makes, as long as it respects its side of the contract, the calls return (no
    undefined behaviour, no failed assertion, no loop that does not end), their outcomes
    are those of the abstract machine on lists of disjoint allocations, the final tree is
    a valid red-black interval tree for the final list, the iterators visit that list in
    the order of the addresses and [find] returns the allocation that contains an
    address. *)
Theorem allocator_refines_spec `{W : Window} (B : Type) `{TR : Trampolines B} (option_Oorder : bool)
    (c : client B) :
  respects option_Oorder [] c →
  ∃ tr t l,
    run_client option_Oorder c empty_tree = Some (tr, t) ∧
    spec_run [] tr l ∧ valid [] t l ∧ ordered l ∧
    all_allocs t = Some l ∧
    ∀ addr, ∃ r, find addr t = Some r ∧
      ∀ n, r = Some n ↔ ∃ a, (n, a) ∈ l ∧ a_lb a <= addr < a_ub a.
Proof.
  intros Hc. destruct (run_client_ok option_Oorder c empty_tree [] empty_valid Hc)
    as (tr & t & l & E & Hs & Hv).
  pose proof (valid_ordered _ _ _ Hv) as Ho.
  exists tr, t, l. split_and!; [done..|by eapply all_allocs_ok|].
  intros addr. exists (find_alloc addr l). split; [by eapply find_ok|].
  intros n. by apply find_alloc_spec.
Qed.

Lemma allocator_refines_spec_witness :
  respects (W := relative_window) (TR := const_trampolines) true [] sample_client ∧
  ∃ tr t l,
    run_client (TR := const_trampolines) true sample_client empty_tree = Some (tr, t) ∧
    spec_run (TR := const_trampolines) [] tr l ∧ valid (H := relative_window) [] t l ∧
    ordered (H := relative_window) l ∧
    all_allocs t = Some l ∧
    ∀ addr, ∃ r, find addr t = Some r ∧
      ∀ n, r = Some n ↔ ∃ a, (n, a) ∈ l ∧ a_lb a <= addr < a_ub a.
Proof.
  assert (Hr : respects (W := relative_window) (TR := const_trampolines) true [] sample_client).
  { split.
    { intros _. exists 16, 64. split; [done|]. split; [done|]. intros _.
      unfold admissible, request, size_ok.
      split_and!; vm_compute; done. }
    intros r l Hs. split; [intros _; unfold request; vm_compute; split; split; discriminate|].
    intros r' l' Hs'. inversion Hs; subst; try done.
    split; [|done].
    match goal with Hx : serves ?x _ _ _ _ _ _ _ |- _ => exists x; destruct Hx as (_ & _ & _ & ET & _) end.
    match goal with Hx : [] = _ ++ _ |- _ => apply eq_sym, app_nil in Hx as [-> ->] end.
    inversion Hs'; subst; (split; [|by rewrite ET]); [|by left].
    match goal with Hx : _ = _ ++ _ |- (?n, ?x) ∈ _ =>
      assert (Hin : (n, x) ∈ [(n, x)]) by (by left); cbn in Hx; rewrite Hx in Hin end.
    apply elem_of_app in Hin as [|]; apply elem_of_app; [by left|]. right. by right. }
  split; [exact Hr|]. by apply allocator_refines_spec.
Defined.

(** C11: the allocator is complete (liveness).  If some free range of the size of the
    prologue and the trampoline lies inside the requested bounds, then [allocate] does
    not give up: it returns an allocation, although the search only looks into the
    sub-trees whose cached gap promises room. *)
Theorem allocate_finds_room `{W : Window} (B : Type) `{TR : Trampolines B}
    (option_Oorder : bool) (b : B) t l lb ub T J presize tmpsize :
  valid [] t l →
  verify lb (s64 (ub + TRAMPOLINE_MAX)) = true →
  getTrampolinePrologueSize b J = Some presize → getTrampolineSize b T J = Some tmpsize →
  0 <= tmpsize → admissible option_Oorder presize tmpsize lb ub false →
  hole l (lb - presize) (ub + tmpsize) (presize + tmpsize) →
  ∃ n t' l1 a l2, run_op option_Oorder (Allocate b lb ub T J false) t = Some (Allocated (Some n), t') ∧
    l = l1 ++ l2 ∧ valid [] t' (l1 ++ (n, a) :: l2) ∧
    serves a presize tmpsize lb ub T J false.
Proof.
  intros Hv Hver E1 E2 Ht Hadm Hhole. cbn [run_op]. unfold allocate. rewrite Hver, E1, E2.
  cbn [negb mbind option_bind]. destruct (Z.ltb_spec tmpsize 0); [lia|].
  destruct (allocate_sized_ok t l option_Oorder presize tmpsize lb ub T J false Hv Hadm)
    as ([n|] & t' & -> & Hr).
  - destruct Hr as (l1 & a & l2 & -> & Hv' & Hs). by exists n, t', l1, a, l2.
  - destruct Hr as [_ Hno]. by destruct (Hno eq_refl).
Qed.

Lemma allocate_finds_room_witness :
  hole [] (0x10000 - 16) (0x20000 + 64) 80 ∧
  ∃ n t' l1 a l2,
    run_op (TR := const_trampolines) false
      (Allocate tt 0x10000 0x20000 (Some 1%positive) None false) empty_tree =
      Some (Allocated (Some n), t') ∧
    [] = l1 ++ l2 ∧ valid (H := relative_window) [] t' (l1 ++ (n, a) :: l2) ∧
    serves a 16 64 0x10000 0x20000 (Some 1%positive) None false.
Proof.
  assert (Hh : hole [] (0x10000 - 16) (0x20000 + 64) 80).
  { exists 0x10000. split_and!; [lia|lia|]. by intros a Ha%elem_of_nil. }
  split; [exact Hh|].
  apply (allocate_finds_room (W := relative_window) (TR := const_trampolines)
           unit false tt empty_tree [] 0x10000 0x20000 _ None 16 64);
    [apply empty_valid|done..|split_and!; vm_compute; done|exact Hh].
Defined.

(** ** Outside the window

    Relative and absolute addresses are more than [2^63] apart at the extremes, so that
    [ub - lb] wraps in the search.  After the range below the program is reserved (as
    for a PIE) and [0x10000 .. 0x20000] of the absolute addresses, the reservation of an
    absolute range that is already taken succeeds, and takes a page that is neither
    absolute nor relative. *)
Definition overflow_client : client unit :=
  Call (Reserve RELATIVE_ADDRESS_MIN 0) (λ _,
  Call (Reserve (ABSOLUTE_ADDRESS 0x10000) (ABSOLUTE_ADDRESS 0x20000)) (λ _,
  Call (Reserve (ABSOLUTE_ADDRESS 0x10000) (ABSOLUTE_ADDRESS 0x11000)) (λ _, Done))).

Lemma reserve_overflows :
  match run_client (TR := const_trampolines) false overflow_client empty_tree with
  | Some (tr, t) => tr.*2 = [Reserved true; Reserved true; Reserved true] ∧
      option_map (map (λ x, (a_lb x.2, a_ub x.2))) (all_allocs t) =
      Some [(RELATIVE_ADDRESS_MIN - 0x1000, RELATIVE_ADDRESS_MIN); (RELATIVE_ADDRESS_MIN, 0);
            (ABSOLUTE_ADDRESS 0x10000, ABSOLUTE_ADDRESS 0x20000)]
  | None => False
  end.
Proof. vm_compute. done. Qed.

End AllocApi.
