(* ===== verification/E9X86.v ===== *)
(** * E9X86: decoding and relocating x86-64 instructions

    Models src/src/e9patch/e9x86_64.cpp: the partial decoder (prefixes, opcode, ModRM
    sizes), the relocation of an instruction to another address, and the classification
    of control-flow transfers. *)

From stdpp Require Import gmap.
From S2P Require Import Prelude E9Patch.

Module E9X86.
Import E9.

(** [struct CFTInfo]. *)
Record CFTInfo := MkCFTInfo {
  call : bool; ret : bool; jmp : bool; jcc : bool; target : Z }.

(** [enum Encoding]. *)
Inductive Encoding :=
| ENCODING_SINGLE_BYTE | ENCODING_TWO_BYTES_0F
| ENCODING_THREE_BYTES_0F38 | ENCODING_THREE_BYTES_0F3A.

#[export] Instance encoding_eq_dec : EqDecision Encoding.
Proof. solve_decision. Defined.

(** ** Decoding *)

(** The prefixes that [decodePrefix] skips, but for [0x67] and the REX prefixes. *)
Definition legacy_prefixes : list Z :=
  [0xf0; 0xf2; 0xf3; 0x2e; 0x36; 0x3e; 0x26; 0x64; 0x65; 0x66].

(** The loop over the prefixes; the result is the number of prefix bytes, [rex] and
    [addr32]. *)
Fixpoint prefix_loop (fuel : nat) (bs : bytes) (size i rex : Z) (addr32 : bool) :
    option (Z * Z * bool) :=
  if i <? size then
    match fuel with
    | O => None
    | S fuel' =>
        b ← rd bs i;
        if b =? 0x67 then prefix_loop fuel' bs size (i + 1) rex true
        else if one_of legacy_prefixes b then prefix_loop fuel' bs size (i + 1) rex addr32
        else if between 0x40 0x4f b then prefix_loop fuel' bs size (i + 1) b addr32
        else Some (i, rex, addr32)
    end
  else Some (i, rex, addr32).

Definition decodePrefix (bs : bytes) (size : Z) : option (Z * Z * bool) :=
  prefix_loop (Z.to_nat size) bs size 0 0 false.

(** [bytes[i-1]] is no REX prefix. *)
Definition not_after_rex (bs : bytes) (i : Z) : option bool :=
  if 0 <? i then b ← rd bs (i - 1); Some (negb (Z.land b 0xf0 =? 0x40)) else Some true.

(** [case 0x01: ... case 0x03:] of the EVEX and VEX encodings. *)
Definition map_encoding (m : Z) : option Encoding :=
  if m =? 1 then Some ENCODING_TWO_BYTES_0F
  else if m =? 2 then Some ENCODING_THREE_BYTES_0F38
  else if m =? 3 then Some ENCODING_THREE_BYTES_0F3A
  else None.

(** The new [i] ([-1]: invalid), the encoding, and the opcode unless it is left
    uninitialized. *)
Definition decodeOpcode (bs : bytes) (size i : Z) : option (Z * Encoding * option Z) :=
  if (i <? 0) || (size <=? i) then Some (i, ENCODING_SINGLE_BYTE, None)
  else
    let fail := Some (-1, ENCODING_SINGLE_BYTE, None) in
    let rest := u32 (size - i) in
    b ← rd bs i;
    if b =? 0x62 then
      ok ← (if 4 <? rest then
              b1 ← rd bs (i + 1);
              if Z.land (Z.lnot b1) 0x0c =? 0x0c then
                b2 ← rd bs (i + 2); Some (Z.land b2 0x04 =? 0x04)
              else Some false
            else Some false);
      if (ok : bool) then
        b1 ← rd bs (i + 1);
        match map_encoding (Z.land b1 0x03) with
        | Some enc => op ← rd bs (i + 4); Some (i + 5, enc, Some op)
        | None => fail
        end
      else fail
    else
      noRex ← not_after_rex bs i;
      if (b =? 0xc4) && noRex then
        if 3 <? rest then
          b1 ← rd bs (i + 1);
          match map_encoding (Z.land b1 0x1f) with
          | Some enc => op ← rd bs (i + 3); Some (i + 4, enc, Some op)
          | None => fail
          end
        else fail
      else if (b =? 0xc5) && (2 <? rest) && noRex then
        op ← rd bs (i + 2); Some (i + 3, ENCODING_TWO_BYTES_0F, Some op)
      else if b =? 0x0f then
        if size <=? i + 1 then fail
        else
          next ← rd bs (i + 1);
          if next =? 0x38 then
            if size <=? i + 2 then fail
            else op ← rd bs (i + 2); Some (i + 3, ENCODING_THREE_BYTES_0F38, Some op)
          else if next =? 0x3a then
            if size <=? i + 2 then fail
            else op ← rd bs (i + 2); Some (i + 3, ENCODING_THREE_BYTES_0F3A, Some op)
          else Some (i + 2, ENCODING_TWO_BYTES_0F, Some next)
      else Some (i + 1, ENCODING_SINGLE_BYTE, Some b).

(** The fields of a ModRM byte. *)
Definition modrm_mod (m : Z) : Z := Z.shiftr (Z.land m 0xc0) 6.
Definition modrm_op (m : Z) : Z := Z.shiftr (Z.land m 0x38) 3.
Definition modrm_rm (m : Z) : Z := Z.land m 0x7.

Definition getModRMSize (bs : bytes) (size : Z) : option Z :=
  if size <? 1 then Some (-1)
  else
    modRM ← rd bs 0;
    let mod_ := modrm_mod modRM in
    let rm := modrm_rm modRM in
    let need n := Some (if size <? n then -1 else n) in
    if mod_ =? 3 then Some 1
    else if (mod_ =? 0) && negb (rm =? 4) && negb (rm =? 5) then Some 1
    else if (mod_ =? 1) && negb (rm =? 4) then need 2
    else if negb (mod_ =? 1) && negb (rm =? 4) then need 5
    else if size <? 2 then Some (-1)
    else
      sib ← rd bs 1;
      let base := Z.land sib 0x3 in
      if mod_ =? 0 then if base =? 5 then need 6 else Some 2
      else if mod_ =? 1 then need 3
      else need 6.

(** [case 0x70: ... case 0x7F:] and [case 0x80: ... case 0x8F:] *)
Definition is_jcc8 (op : Z) : bool := between 0x70 0x7f op.
Definition is_jcc32 (op : Z) : bool := between 0x80 0x8f op.

(** The opcodes of one byte, with five bytes or more to follow, that have no ModRM. *)
Definition is_movabs (op : Z) : bool := between 0xa0 0xa3 op || between 0xb8 0xbf op.

Definition is_imm32 (z : Z) : bool := between INT32_MIN INT32_MAX z.

(** The bytes of the local variable [diff32]. *)
Definition imm32 (z : Z) : bytes := le_bytes 4 (u32 z).

(** ** Relocation *)

Section Relocate.
Context (opts : Options).

(** Returns [0], or [-1] when the return address is too far. *)
Definition pushReturnAddress (addr offset size : Z) (pic : bool) (start : Z) (buf : Buffer) :
    option (Z * Buffer) :=
  if option_Ocall opts then Some (0, buf)
  else
    let target := s64 (addr + size) in
    if negb pic && is_imm32 target then
      buf ← push 0x68 buf;
      buf ← push_bytes (imm32 target) 4 buf;
      Some (0, buf)
    else if negb (option_Oscratch_stack opts) then
      buf ← push 0x50 buf;
      let diff := s64 (target - (addr + offset + buf_size buf start + 7)) in
      if negb (is_imm32 diff) then Some (-1, buf)
      else
        buf ← push_all [0x48; 0x8d; 0x05] buf;
        buf ← push_bytes (imm32 diff) 4 buf;
        buf ← push_all [0x48; 0x87; 0x04; 0x24] buf;
        Some (0, buf)
    else
      buf ← push_all [0x48; 0x89; 0x84; 0x24; 0x00; 0xc0; 0xff; 0xff] buf;
      let diff := s64 (target - (addr + offset + buf_size buf start + 7)) in
      if negb (is_imm32 diff) then Some (-1, buf)
      else
        buf ← push_all [0x48; 0x8d; 0x05] buf;
        buf ← push_bytes (imm32 diff) 4 buf;
        buf ← push 0x50 buf;
        buf ← push_all [0x48; 0x8b; 0x84; 0x24; 0x08; 0xc0; 0xff; 0xff] buf;
        Some (0, buf).

(** [no_modification_necessary] *)
Definition copy_instr (bs : bytes) (size start : Z) (buf : Buffer) : option (Z * Buffer) :=
  buf ← push_bytes bs size buf; Some (buf_commit start buf).

(** A call through the stack pointer: [callq *disp(%rsp,..)].  [None]: not this case. *)
Definition rsp_disp (bs : bytes) (size i mod_ rm b : Z) : option (option (Z * Z)) :=
  let rest := u32 (size - i) in
  if (mod_ =? 3) || negb (rm =? 4) || (rest <? 2) || negb (b =? 0) then Some None
  else
    sib ← rd bs (i + 1);
    if negb (Z.land sib 0x7 =? 4) then Some None
    else if mod_ =? 0 then Some (Some (sib, 0))
    else if mod_ =? 1 then
      if rest <? 3 then Some None else d ← rd bs (i + 2); Some (Some (sib, s8 d))
    else
      if rest <? 6 then Some None else d ← rd32 bs (i + 2); Some (Some (sib, s32 d)).

(** [CALLQ r/m64], which becomes a [JMPQ r/m64] after the return address is pushed. *)
Definition relocate_call_rm (addr offset : Z) (bs : bytes) (size : Z) (pic relax : bool)
    (i rex start : Z) (buf : Buffer) : option (Z * Buffer) :=
  modRM ← rd bs i;
  let mod_ := modrm_mod modRM in
  let rm := modrm_rm modRM in
  '(r, buf) ← pushReturnAddress addr offset size pic start buf;
  if (r <? 0) && negb relax then Some (-1, buf)
  else
    let size0 := buf_size buf start in
    buf ← push_bytes bs i buf;
    let modRM := if option_Ocall opts then modRM
                 else Z.lor (Z.land modRM (Z.lnot 0x38)) (Z.shiftl 4 3) in
    let b := Z.land rex 0x1 in
    sp ← rsp_disp bs size i mod_ rm b;
    match sp with
    | Some (sib, disp) =>
        let disp := if option_Ocall opts then disp else s32 (disp + 8) in
        let with_mod m := Z.lor (Z.land modRM (Z.lnot 0xc0)) (Z.shiftl m 6) in
        let small := between INT8_MIN INT8_MAX disp in
        buf ← push (if disp =? 0 then with_mod 0 else if small then with_mod 1 else with_mod 2) buf;
        buf ← push sib buf;
        buf ← (if disp =? 0 then Some buf
               else if small then push (u8 disp) buf
               else push_bytes (imm32 disp) 4 buf);
        Some (buf_commit start buf)
    | None =>
        if (mod_ =? 3) && (rm =? 4) && (b =? 0) then Some (-1, buf)
        else
          buf ← push modRM buf;
          if (mod_ =? 0) && (rm =? 5) && (4 <=? u32 (size - i - 1)) then
            pcrel ← rd32 bs (i + 1);
            let target := s64 (addr + size + s32 pcrel) in
            let diff := s64 (target - (addr + offset + size0 + size)) in
            if negb relax && negb (is_imm32 diff) then Some (-1, buf)
            else
              buf ← push_bytes (imm32 diff) 4 buf;
              buf ← push_bytes (at_off bs (i + 5)) (u32 (size - i - 1 - 4)) buf;
              Some (buf_commit start buf)
          else
            buf ← push_bytes (at_off bs (i + 1)) (u32 (size - i - 1)) buf;
            Some (buf_commit start buf)
    end.

(** The end that the relocated jumps share: the displacement of [pcrel] from the old
    address, for an instruction of [jsize] bytes at the end of [buf] at the new one, and
    the [opcode] before it. *)
Definition relocate_jump (addr offset size pcrel jsize : Z) (opcode : bytes) (relax : bool)
    (start : Z) (buf : Buffer) : option (Z * Buffer) :=
  let target := s64 (addr + size + pcrel) in
  let diff := s64 (target - (addr + offset + buf_size buf start + jsize)) in
  if negb relax && negb (is_imm32 diff) then Some (-1, buf)
  else
    buf ← push_all opcode buf;
    buf ← push_bytes (imm32 diff) 4 buf;
    Some (buf_commit start buf).

(** The instructions without a modification, and those with a ModRM byte that may be
    relative to [%rip]. *)
Definition relocate_generic (addr offset : Z) (bs : bytes) (size : Z) (i : Z)
    (enc : Encoding) (opcode : option Z) (start : Z) (buf : Buffer) : option (Z * Buffer) :=
  if u32 (size - i) <? 5 then copy_instr bs size start buf
  else
    movabs ← (if decide (enc = ENCODING_SINGLE_BYTE) then op ← opcode; Some (is_movabs op)
              else Some false);
    if (movabs : bool) then copy_instr bs size start buf
    else
      modRM ← rd bs i;
      let i := i + 1 in
      if (modrm_mod modRM =? 0) && (modrm_rm modRM =? 5) && (4 <=? u32 (size - i)) then
        pcrel ← rd32 bs i;
        let target := s64 (addr + size + s32 pcrel) in
        let diff := s64 (target - (addr + offset + buf_size buf start + size)) in
        if negb (is_imm32 diff) then Some (-1, buf)
        else
          buf ← push_bytes bs i buf;
          buf ← push_bytes (imm32 diff) 4 buf;
          buf ← push_bytes (at_off bs (i + 4)) (u32 (size - i - 4)) buf;
          Some (buf_commit start buf)
      else copy_instr bs size start buf.

(** The cases of [relocateInstr] after the opcode is decoded. *)
Definition relocate_decoded (addr offset : Z) (bs : bytes) (size : Z) (pic relax : bool)
    (i rex : Z) (addr32 : bool) (enc : Encoding) (opcode : option Z) (start : Z)
    (buf : Buffer) : option (Z * Buffer) :=
  let rest := u32 (size - i) in
  let generic := relocate_generic addr offset bs size i enc opcode start buf in
  match enc with
  | ENCODING_SINGLE_BYTE =>
      op ← opcode;
      callrm ← (if (op =? 0xff) && (1 <=? rest) then m ← rd bs i; Some (modrm_op m =? 2)
                else Some false);
      if (callrm : bool) then relocate_call_rm addr offset bs size pic relax i rex start buf
      else if rest =? 1 then
        if op =? 0xe3 then
          buf ← (if addr32 then push 0x67 buf else Some buf);
          buf ← push_all [0xe3; 0x02; 0xeb; 0x05] buf;
          d ← rd bs i;
          relocate_jump addr offset size (s8 d) 5 [0xe9] relax start buf
        else if op =? 0xeb then
          d ← rd bs i; relocate_jump addr offset size (s8 d) 5 [0xe9] relax start buf
        else if is_jcc8 op then
          d ← rd bs i;
          relocate_jump addr offset size (s8 d) 6 [0x0f; op - 0x70 + 0x80] relax start buf
        else generic
      else if rest =? 4 then
        if op =? 0xe8 then
          '(r, buf) ← pushReturnAddress addr offset size pic start buf;
          if r <? 0 then Some (-1, buf)
          else
            d ← rd32 bs i;
            relocate_jump addr offset size (s32 d) 5
              [if option_Ocall opts then 0xe8 else 0xe9] relax start buf
        else if op =? 0xe9 then
          d ← rd32 bs i; relocate_jump addr offset size (s32 d) 5 [0xe9] relax start buf
        else generic
      else generic
  | ENCODING_TWO_BYTES_0F =>
      op ← opcode;
      if (rest =? 4) && is_jcc32 op then
        d ← rd32 bs i; relocate_jump addr offset size (s32 d) 6 [0x0f; op] relax start buf
      else generic
  | _ => generic
  end.

(** [relocateInstr]; the code makes a [Buffer(nullptr)] itself when it is given none. *)
Definition relocateInstr (addr offset32 : Z) (bs : bytes) (size : Z) (pic : bool)
    (buf : option Buffer) (relax : bool) : option (Z * Buffer) :=
  let buf := match buf with None => buffer None | Some buf => buf end in
  let start := buf_size buf 0 in
  '(i, rex, addr32) ← decodePrefix bs size;
  if i <? 0 then copy_instr bs size start buf
  else
    '(i, enc, opcode) ← decodeOpcode bs size i;
    if i <? 0 then copy_instr bs size start buf
    else relocate_decoded addr offset32 bs size pic relax i rex addr32 enc opcode start buf.

End Relocate.

(** ** PC-relative operands *)

Definition getInstrPCRelativeIndex (bs : bytes) (size : Z) : option Z :=
  '(i, rex, addr32) ← decodePrefix bs size;
  if i <? 0 then Some 0
  else
    '(i, enc, opcode) ← decodeOpcode bs size i;
    if i <? 0 then Some 0
    else
      let rest := u32 (size - i) in
      direct ←
        match enc with
        | ENCODING_SINGLE_BYTE =>
            if rest =? 1 then op ← opcode; Some ((op =? 0xe3) || (op =? 0xeb) || is_jcc8 op)
            else if rest =? 4 then op ← opcode; Some ((op =? 0xe8) || (op =? 0xe9))
            else Some false
        | ENCODING_TWO_BYTES_0F =>
            if rest =? 4 then op ← opcode; Some (is_jcc32 op) else Some false
        | _ => Some false
        end;
      if (direct : bool) then Some i
      else if rest <? 5 then Some 0
      else
        movabs ← (if decide (enc = ENCODING_SINGLE_BYTE) then op ← opcode; Some (is_movabs op)
                  else Some false);
        if (movabs : bool) then Some 0
        else
          modRM ← rd bs i;
          Some (if (modrm_mod modRM =? 0) && (modrm_rm modRM =? 5) then i + 1 else 0).

(** ** Control-flow transfers *)

Definition CFT_CALL : Z := 0x01.
Definition CFT_RET : Z := 0x02.
Definition CFT_JMP : Z := 0x04.
Definition CFT_JCC : Z := 0x08.
Definition CFT_ANY : Z := 0xff.

(** [Some None]: no control-flow transfer. *)
Definition getCFTInfo (addr : Z) (bs : bytes) (size : Z) : option (option CFTInfo) :=
  '(i, rex, addr32) ← decodePrefix bs size;
  if i <? 0 then Some None
  else
    '(i, enc, opcode) ← decodeOpcode bs size i;
    if i <? 0 then Some None
    else
      let rest := u32 (size - i) in
      match enc with
      | ENCODING_SINGLE_BYTE =>
          op ← opcode;
          if op =? 0xc3 then
            if negb (rest =? 0) then Some None
            else Some (Some (MkCFTInfo false true false false INTPTR_MIN))
          else if (op =? 0xe3) || is_jcc8 op || (op =? 0xeb) then
            if negb (rest =? 1) then Some None
            else
              d ← rd bs i;
              Some (Some (MkCFTInfo false false (op =? 0xeb) (negb (op =? 0xeb))
                            (s64 (addr + i + 1 + s8 d))))
          else if (op =? 0xe8) || (op =? 0xe9) then
            if negb (rest =? 4) then Some None
            else
              d ← rd32 bs i;
              Some (Some (MkCFTInfo (op =? 0xe8) false (op =? 0xe9) false
                            (s64 (addr + i + 4 + s32 d))))
          else if op =? 0xff then
            n ← getModRMSize bs rest;
            if n <? 0 then Some None
            else
              modRM ← rd bs i;
              if modrm_op modRM =? 2
              then Some (Some (MkCFTInfo true false false false INTPTR_MIN))
              else if modrm_op modRM =? 4
              then Some (Some (MkCFTInfo false false true false INTPTR_MIN))
              else Some None
          else Some None
      | ENCODING_TWO_BYTES_0F =>
          op ← opcode;
          if is_jcc32 op then
            if negb (rest =? 4) then Some None
            else
              d ← rd32 bs i;
              Some (Some (MkCFTInfo false false false true (s64 (addr + i + 4 + s32 d))))
          else Some None
      | _ => Some None
      end.

Definition cft_flag (flags flag : Z) (b : bool) : bool := truthy (Z.land flags flag) && b.

Definition isCFT (bs : bytes) (size flags : Z) : option bool :=
  r ← getCFTInfo 0 bs size;
  match r with
  | None => Some false
  | Some c =>
      Some (cft_flag flags CFT_CALL (call c) || cft_flag flags CFT_RET (ret c) ||
            cft_flag flags CFT_JMP (jmp c) || cft_flag flags CFT_JCC (jcc c))
  end.

Definition getCFTTarget (addr : Z) (bs : bytes) (size flags : Z) : option Z :=
  r ← getCFTInfo addr bs size;
  match r with
  | None => Some INTPTR_MIN
  | Some c =>
      if target c =? INTPTR_MIN then Some INTPTR_MIN
      else if cft_flag flags CFT_CALL (call c) || cft_flag flags CFT_JMP (jmp c) ||
              cft_flag flags CFT_JCC (jcc c)
      then Some (target c)
      else Some INTPTR_MIN
  end.


Lemma s32_small z : - 2 ^ 31 <= z < 2 ^ 31 → s32 z = z.
Proof. intros. apply wraps_small; lia. Qed.

(** ** Buffers with room

    [filled buf out n]: the buffer holds the bytes [out] and has room for [n] more. *)
Definition filled (buf : Buffer) (out : bytes) (n : Z) : Prop :=
  ∃ rest, b_buf buf = Some (out ++ rest) ∧ b_i buf = blen out ∧ 0 <= n <= blen rest ∧
          blen out + n <= b_max buf ∧ b_max buf <= UINT32_MAX.

Lemma wrn_end out rest x :
  blen x <= blen rest →
  ∃ rest', wrn (out ++ rest) (blen out) x = Some ((out ++ x) ++ rest') ∧
           blen rest' = blen rest - blen x.
Proof.
  intros Hx. pose proof (blen_nonneg out). pose proof (blen_nonneg x).
  exists (drop (List.length x) rest). unfold wrn. rewrite blen_app.
  destruct (Z.leb_spec 0 (blen out)); [|lia]. destruct (Z.leb_spec (blen out + blen x) (blen out + blen rest)); [|lia].
  cbn [andb]. unfold blen in *. rewrite Nat2Z.id. split.
  - f_equal. rewrite take_app_length. rewrite drop_app_ge by lia.
    replace (_ + _ - _)%nat with (List.length x) by lia. by rewrite <- app_assoc.
  - rewrite length_drop. lia.
Qed.

Lemma filled_bounds buf out n : filled buf out n →
  0 <= n ∧ 0 <= blen out ∧ blen out + n < 2 ^ 32.
Proof.
  intros (rest & _ & _ & Hn & Hm & Hmax). pose proof (blen_nonneg out). unfold UINT32_MAX in Hmax. lia.
Qed.

Lemma push_filled buf out n b :
  filled buf out n → 1 <= n → ∃ buf', push b buf = Some buf' ∧ filled buf' (out ++ [b]) (n - 1).
Proof.
  intros Hf H1. pose proof (filled_bounds _ _ _ Hf) as (_ & H2 & H3).
  destruct Hf as (rest & E & Ei & Hn & Hm & Hmax). unfold push. rewrite E, Ei.
  destruct (Z.ltb_spec (blen out) (b_max buf)); [|lia].
  destruct (wrn_end out rest [b]) as (rest' & -> & Hr); [change (blen [b]) with 1; lia|]. cbn [mbind option_bind].
  eexists. split; [reflexivity|]. exists rest'. cbn [b_buf b_i b_max].
  rewrite blen_app. change (blen [b]) with 1 in *. rewrite wrapu_small by lia.
  split_and!; (done || lia).
Qed.

Lemma push_bytes_filled buf out n data len x :
  filled buf out n → rdn data 0 len = Some x → len <= n →
  ∃ buf', push_bytes data len buf = Some buf' ∧ filled buf' (out ++ x) (n - len).
Proof.
  intros Hf Hx H1. pose proof (filled_bounds _ _ _ Hf) as (_ & H2 & H3).
  pose proof (rdn_len _ _ _ _ Hx) as El. pose proof (blen_nonneg x).
  destruct Hf as (rest & E & Ei & Hn & Hm & Hmax). unfold push_bytes. rewrite E, Ei.
  rewrite wrapu_small by lia. destruct (Z.ltb_spec (b_max buf) (blen out + len)); [lia|].
  destruct (Z.ltb_spec (blen out) (b_max buf)) as [|Hlt].
  - rewrite Hx. cbn [mbind option_bind]. destruct (wrn_end out rest x) as (rest' & -> & Hr); [lia|].
    cbn [mbind option_bind]. eexists. split; [reflexivity|]. exists rest'. cbn [b_buf b_i b_max].
    rewrite blen_app. split_and!; (done || lia).
  - assert (x = []) as ->. { apply length_zero_iff_nil. unfold blen in *. lia. }
    cbn [mbind option_bind]. change (blen []) with 0 in *.
    eexists. split; [reflexivity|]. exists rest. cbn [b_buf b_i b_max]. rewrite app_nil_r.
    split_and!; (done || lia).
Qed.

Lemma push_all_filled l : ∀ buf out n,
  filled buf out n → blen l <= n →
  ∃ buf', push_all l buf = Some buf' ∧ filled buf' (out ++ l) (n - blen l).
Proof.
  induction l as [|b l IH]; intros buf out n Hf Hl.
  - exists buf. rewrite app_nil_r. change (blen []) with 0. by rewrite Z.sub_0_r.
  - assert (El : blen (b :: l) = 1 + blen l) by (change (b :: l) with ([b] ++ l); by rewrite blen_app).
    pose proof (blen_nonneg l). destruct (push_filled buf out n b Hf) as (buf1 & E1 & Hf1); [lia|].
    cbn [push_all]. rewrite E1. cbn [mbind option_bind].
    destruct (IH buf1 _ _ Hf1) as (buf2 & E2 & Hf2); [lia|].
    exists buf2. split; [done|]. rewrite <- app_assoc in Hf2. rewrite El.
    by replace (n - (1 + blen l)) with (n - 1 - blen l) by lia.
Qed.

Lemma imm32_len z : blen (imm32 z) = 4.
Proof. unfold imm32, blen. by rewrite le_bytes_len. Qed.

Lemma push_imm32_filled buf out n z :
  filled buf out n → 4 <= n →
  ∃ buf', push_bytes (imm32 z) 4 buf = Some buf' ∧ filled buf' (out ++ imm32 z) (n - 4).
Proof.
  intros Hf Hn. apply push_bytes_filled; [done| |done].
  unfold rdn. rewrite imm32_len. cbn [Z.leb andb]. done.
Qed.

Lemma filled_size buf out n : filled buf out n → buf_size buf 0 = blen out.
Proof.
  intros Hf. pose proof (filled_bounds _ _ _ Hf). destruct Hf as (rest & _ & Ei & _).
  unfold buf_size. rewrite Ei, Z.sub_0_r. apply wrapu_small. lia.
Qed.

Lemma filled_size_from buf out0 out n :
  filled buf (out0 ++ out) n → buf_size buf (blen out0) = blen out.
Proof.
  intros Hf. pose proof (filled_bounds _ _ _ Hf) as Hb. pose proof (blen_nonneg out0). pose proof (blen_nonneg out).
  destruct Hf as (rest & _ & Ei & _). rewrite blen_app in *.
  unfold buf_size. rewrite Ei. rewrite wrapu_small; lia.
Qed.

Lemma filled_commit buf out0 out n :
  filled buf (out0 ++ out) n → blen out0 + blen out < 2 ^ 31 →
  buf_commit (blen out0) buf = (blen out, buf).
Proof.
  intros Hf Hs. pose proof (filled_bounds _ _ _ Hf) as Hb. pose proof (blen_nonneg out0). pose proof (blen_nonneg out).
  destruct Hf as (rest & _ & Ei & Hn & Hm & _). rewrite blen_app in Hb, Ei, Hm. unfold buf_commit.
  rewrite Ei. destruct (Z.ltb_spec (b_max buf) (blen out0 + blen out)); [lia|].
  rewrite (s32_small (blen out0)), (s32_small (_ + _)) by lia.
  rewrite s32_small by lia. f_equal. lia.
Qed.

(** ** Decoding is total *)

Lemma prefix_loop_ok fuel bs size i rex a :
  0 <= i <= size → size <= blen bs → size - i <= Z.of_nat fuel →
  safely (prefix_loop fuel bs size i rex a) (λ r, i <= r.1.1 <= size).
Proof.
  revert i rex a. induction fuel as [|fuel IH]; intros i rex a Hi Hs Hf; cbn [prefix_loop].
  { destruct (Z.ltb_spec i size); [lia|]. cbn. lia. }
  destruct (Z.ltb_spec i size); [|cbn; lia].
  apply safely_bind, safely_rd; [lia|]. intros b _.
  repeat case_match; try (cbn; lia);
    (eapply safely_mono; [apply IH; lia|]; intros r; cbn beta; lia).
Qed.

Lemma decodePrefix_ok bs size :
  0 <= size <= blen bs → safely (decodePrefix bs size) (λ r, 0 <= r.1.1 <= size).
Proof. intros. apply prefix_loop_ok; lia. Qed.

(** What [decodeOpcode] returns at [i]: an invalid instruction, no opcode at the end of
    the bytes, or an opcode and the index after it. *)
Definition decoded (bs : bytes) (size i : Z) (r : Z * Encoding * option Z) : Prop :=
  match r with
  | (j, enc, None) => j = -1 ∨ (j = i ∧ i = size ∧ enc = ENCODING_SINGLE_BYTE)
  | (j, enc, Some op) =>
      i < j <= size ∧ byte_ok op ∧ (enc = ENCODING_SINGLE_BYTE → j = i + 1)
  end.

Lemma map_encoding_multi m e : map_encoding m = Some e → e ≠ ENCODING_SINGLE_BYTE.
Proof. unfold map_encoding. intros E ->. by repeat case_match. Qed.

Lemma decodeOpcode_ok bs size i :
  bytes_ok bs → 0 <= i <= size → size <= blen bs → size < 2 ^ 31 →
  safely (decodeOpcode bs size i) (decoded bs size i).
Proof.
  intros Hb Hi Hs H31. unfold decodeOpcode, not_after_rex.
  rewrite (wrapu_small 32 (size - i)) by lia.
  destruct (Z.ltb_spec i 0); [lia|]. destruct (Z.leb_spec size i); cbn [orb].
  { cbn. right. split_and!; (done || lia). }
  repeat first [ub_step | progress bool_hyps];
    repeat match goal with E : map_encoding _ = Some _ |- _ => apply map_encoding_multi in E end;
    try (cbn [safely decoded]; first [by left | split_and!; [lia|lia|done|intros; (done || lia)]]).
Qed.

(** ** Relocated branches *)

(** The branch that [relocate_jump] writes: an opcode and a 32-bit displacement. *)
Inductive near_op : bytes → CFTInfo → Prop :=
| near_jmp : near_op [0xe9] (MkCFTInfo false false true false 0)
| near_call : near_op [0xe8] (MkCFTInfo true false false false 0)
| near_jcc op : is_jcc32 op = true → near_op [0x0f; op] (MkCFTInfo false false false true 0).

Definition retarget (c : CFTInfo) (t : Z) : CFTInfo :=
  MkCFTInfo (call c) (ret c) (jmp c) (jcc c) t.

Lemma imm32_bytes d : is_imm32 d = true →
  ∃ b0 b1 b2 b3, imm32 d = [b0; b1; b2; b3] ∧
                 s32 (b0 + 256 * b1 + 65536 * (b2 + 256 * b3)) = d.
Proof.
  intros Hd%between_spec. unfold INT32_MIN, INT32_MAX in Hd.
  pose proof (rd32_le (u32 d) (wrapu_range 32 d ltac:(lia))) as E. fold (imm32 d) in E.
  unfold imm32 in *. cbn [le_bytes] in *.
  eexists _, _, _, _. split; [reflexivity|]. injection E as E.
  etrans; [apply f_equal; exact E|]. rewrite wraps_wrapu. apply s32_small. lia.
Qed.

Lemma near_cft op c a d :
  near_op op c → is_imm32 d = true →
  getCFTInfo a (op ++ imm32 d) (blen (op ++ imm32 d)) =
    Some (Some (retarget c (s64 (a + blen op + 4 + d)))).
Proof.
  intros Hop Hd. destruct (imm32_bytes d Hd) as (b0 & b1 & b2 & b3 & -> & E).
  inversion Hop as [| |j Hj]; subst; cbn [app].
  1,2: change (blen [_]) with 1; etrans; [reflexivity|]; do 3 f_equal; f_equal;
       rewrite <- E at 1; f_equal; lia.
  change (blen [_; _]) with 2. change (blen _) with 6.
  set (bs := [0x0f; j; b0; b1; b2; b3]).
  assert (E0 : decodePrefix bs 6 = Some (0, 0, false)) by reflexivity.
  assert (E1 : decodeOpcode bs 6 0 =
    if j =? 0x38 then Some (3, ENCODING_THREE_BYTES_0F38, Some b0)
    else if j =? 0x3a then Some (3, ENCODING_THREE_BYTES_0F3A, Some b0)
    else Some (2, ENCODING_TWO_BYTES_0F, Some j)) by reflexivity.
  unfold getCFTInfo. rewrite E0. cbn [mbind option_bind]. change (0 <? 0) with false. cbn iota.
  pose proof Hj as Hr%between_spec.
  rewrite (proj2 (Z.eqb_neq j 0x38)), (proj2 (Z.eqb_neq j 0x3a)) in E1 by lia.
  rewrite E1. cbn [mbind option_bind]. change (2 <? 0) with false. cbn iota. rewrite Hj.
  change (u32 (6 - 2) =? 4) with true. cbn [negb].
  change (rd32 bs 2) with (Some (b0 + 256 * b1 + 65536 * (b2 + 256 * b3))). cbn [mbind option_bind].
  reflexivity.
Qed.

(** [relocate_jump] writes the branch with the displacement to the same target, or fails
    when that is no 32-bit integer. *)
Lemma relocate_jump_ok addr offset size pcrel op out0 pre n buf :
  - 2 ^ 62 <= addr < 2 ^ 62 → is_imm32 offset = true → 0 <= size < 2 ^ 31 →
  is_imm32 pcrel = true → filled buf (out0 ++ pre) n → blen op + 4 <= n →
  blen (out0 ++ pre) + n < 2 ^ 31 →
  let d := size + pcrel - offset - blen pre - (blen op + 4) in
  ∃ buf', relocate_jump addr offset size pcrel (blen op + 4) op false (blen out0) buf =
    Some (if is_imm32 d then blen (pre ++ op ++ imm32 d) else -1, buf') ∧
    (is_imm32 d = true → filled buf' (out0 ++ pre ++ op ++ imm32 d) (n - (blen op + 4))).
Proof.
  intros Ha Ho%between_spec Hs Hp%between_spec Hf Hn Hlen d.
  unfold INT32_MIN, INT32_MAX in *. pose proof (blen_nonneg op). pose proof (blen_nonneg pre).
  pose proof (blen_nonneg out0). pose proof Hlen as Hlen'. rewrite blen_app in Hlen'.
  unfold relocate_jump. rewrite (filled_size_from _ _ _ _ Hf). cbn [negb andb].
  rewrite (wraps_small 64 (addr + size + pcrel)) by lia.
  rewrite wraps_small by lia.
  replace (_ - _) with d by (unfold d; lia).
  destruct (is_imm32 d) eqn:Ed; cbn [negb]; [|by exists buf].
  destruct (push_all_filled op buf _ _ Hf) as (buf1 & -> & Hf1); [lia|]. cbn [mbind option_bind].
  destruct (push_imm32_filled buf1 _ _ d Hf1) as (buf2 & -> & Hf2); [lia|]. cbn [mbind option_bind].
  rewrite <- !app_assoc in Hf2. exists buf2. split.
  - rewrite (filled_commit _ _ _ _ Hf2); [done|]. rewrite !blen_app, imm32_len. lia.
  - intros _. by replace (n - (blen op + 4)) with (n - blen op - 4) by lia.
Qed.

(** Instructions at the address [a] that push the return address [r]. *)
Inductive return_push (a r : Z) : bytes → Prop :=
| push_imm : is_imm32 r = true → return_push a r ([0x68] ++ imm32 r)
| push_lea d : is_imm32 d = true → a + 8 + d = r →
    return_push a r ([0x50] ++ [0x48; 0x8d; 0x05] ++ imm32 d ++ [0x48; 0x87; 0x04; 0x24])
| push_scratch d : is_imm32 d = true → a + 15 + d = r →
    return_push a r ([0x48; 0x89; 0x84; 0x24; 0x00; 0xc0; 0xff; 0xff] ++ [0x48; 0x8d; 0x05] ++
                     imm32 d ++ [0x50] ++ [0x48; 0x8b; 0x84; 0x24; 0x08; 0xc0; 0xff; 0xff]).

(** Runs the next [push]. *)
Ltac run_push :=
  let buf := fresh "buf" in let E := fresh "E" in let Hf' := fresh "Hf" in
  match goal with
  | Hf : filled ?b _ _ |- context [push ?x ?b] =>
      destruct (push_filled b _ _ x Hf) as (buf & E & Hf')
  | Hf : filled ?b _ _ |- context [push_all ?l ?b] =>
      destruct (push_all_filled l b _ _ Hf) as (buf & E & Hf')
  | Hf : filled ?b _ _ |- context [push_bytes (imm32 ?z) 4 ?b] =>
      destruct (push_imm32_filled b _ _ z Hf) as (buf & E & Hf')
  end;
  [unfold blen in *; cbn [List.length Z.of_nat Pos.of_succ_nat Pos.succ]; lia|];
  rewrite E; clear E; cbn [mbind option_bind].

Lemma pushReturnAddress_ok opts addr offset size pic out0 n buf :
  option_Ocall opts = false → - 2 ^ 62 <= addr < 2 ^ 62 → is_imm32 offset = true →
  0 <= size < 2 ^ 31 → filled buf out0 n → 24 <= n →
  ∃ r buf', pushReturnAddress opts addr offset size pic (blen out0) buf = Some (r, buf') ∧
    ((r = 0 ∧ ∃ pre, return_push (addr + offset) (addr + size) pre ∧ blen pre <= 24 ∧
                     filled buf' (out0 ++ pre) (n - blen pre)) ∨
     (r = -1 ∧ (is_imm32 (size - offset - 8) = false ∨ is_imm32 (size - offset - 15) = false))).
Proof.
  intros Hoc Ha Ho Hs Hf Hn. pose proof Ho as Ho'%between_spec. unfold INT32_MIN, INT32_MAX in Ho'.
  unfold pushReturnAddress. rewrite Hoc. rewrite (wraps_small 64 (addr + size)) by lia.
  destruct (negb pic && is_imm32 (addr + size)) eqn:E1.
  { apply andb_prop in E1 as [_ E1]. run_push. run_push.
    eexists 0, _. split; [reflexivity|]. left. split; [done|].
    exists ([0x68] ++ imm32 (addr + size)). rewrite blen_app, imm32_len. change (blen [_]) with 1.
    rewrite app_assoc. split_and!; [by constructor|lia|].
    by replace (n - (1 + 4)) with (n - 1 - 4) by lia. }
  destruct (option_Oscratch_stack opts) eqn:Eo; cbn [negb].
  - run_push. rewrite (filled_size_from _ _ _ _ Hf0). change (blen [_;_;_;_;_;_;_;_]) with 8 in *.
    rewrite wraps_small by lia. replace (_ - _) with (size - offset - 15) by lia.
    destruct (is_imm32 (size - offset - 15)) eqn:Ed; cbn [negb].
    2: { eexists _, _. split; [reflexivity|]. right. auto. }
    run_push. change (blen [_;_;_]) with 3 in *. run_push.
    run_push. run_push. change (blen [_;_;_;_;_;_;_;_]) with 8 in *.
    eexists 0, _. split; [reflexivity|]. left. split; [done|]. rewrite <- !app_assoc in Hf4.
    eexists. split_and!; [by eapply push_scratch; [exact Ed|lia]|rewrite !blen_app, imm32_len; vm_compute; done|].
    rewrite !blen_app, imm32_len. change (blen [_;_;_;_;_;_;_;_]) with 8 in *. change (blen [_;_;_]) with 3.
    change (blen [_]) with 1. by replace (n - _) with (n - 8 - 3 - 4 - 1 - 8) by lia.
  - run_push. rewrite (filled_size_from _ _ _ _ Hf0). change (blen [_]) with 1 in *.
    rewrite wraps_small by lia. replace (_ - _) with (size - offset - 8) by lia.
    destruct (is_imm32 (size - offset - 8)) eqn:Ed; cbn [negb].
    2: { eexists _, _. split; [reflexivity|]. right. auto. }
    run_push. change (blen [_;_;_]) with 3 in *. run_push.
    run_push. change (blen [_;_;_;_]) with 4 in *.
    eexists 0, _. split; [reflexivity|]. left. split; [done|]. rewrite <- !app_assoc in Hf3.
    eexists. split_and!; [by eapply push_lea; [exact Ed|lia]|rewrite !blen_app, imm32_len; vm_compute; done|].
    rewrite !blen_app, imm32_len. change (blen [_;_;_;_]) with 4 in *. change (blen [_;_;_]) with 3.
    change (blen [_]) with 1. by replace (n - _) with (n - 1 - 3 - 4 - 4) by lia.
Qed.

(** How the branch [c] is rewritten: the bytes before the relocated branch, and the
    relocated branch. *)
Inductive rewritten (opts : Options) (a r : Z) (c : CFTInfo) : bytes → CFTInfo → Prop :=
| rewritten_same c' :
    jmp c = true ∨ jcc c = true ∨ (call c = true ∧ option_Ocall opts = true) →
    c' = c → rewritten opts a r c [] c'
| rewritten_call pre c' :
    call c = true → option_Ocall opts = false → return_push a r pre →
    jmp c' = true → target c' = target c → rewritten opts a r c pre c'
| rewritten_jrcxz p c' :
    jcc c = true → p = [] ∨ p = [0x67] → jmp c' = true → target c' = target c →
    rewritten opts a r c (p ++ [0xe3; 0x02; 0xeb; 0x05]) c'.

(** A displacement that fits with room for the instructions before it. *)
Definition near (d : Z) : Prop := - 2 ^ 31 + 64 <= d <= 2 ^ 31 - 64.

(** The outcome of the relocation of the branch [c]. *)
Definition relocated (opts : Options) (addr offset size : Z) (out0 : bytes) (c : CFTInfo)
    (res : option (Z * Buffer)) : Prop :=
  ∃ r buf', res = Some (r, buf') ∧
    ((∃ pre tail c' m, r = blen (pre ++ tail) ∧ filled buf' (out0 ++ pre ++ tail) m ∧
        rewritten opts (addr + offset) (addr + size) c pre c' ∧
        getCFTInfo (addr + offset + blen pre) tail (blen tail) = Some (Some c')) ∨
     (r = -1 ∧ (¬ near (target c - (addr + offset)) ∨ ¬ near (size - offset)))).

Lemma relocate_end opts addr offset size pcrel op c0 out0 pre n buf c :
  - 2 ^ 62 <= addr < 2 ^ 62 → is_imm32 offset = true → 0 <= size < 2 ^ 31 →
  is_imm32 pcrel = true → filled buf (out0 ++ pre) n → 8 <= n → blen out0 + blen pre + n < 2 ^ 31 →
  near_op op c0 → target c = addr + size + pcrel → blen pre <= 24 →
  rewritten opts (addr + offset) (addr + size) c pre (retarget c0 (target c)) →
  relocated opts addr offset size out0 c
    (relocate_jump addr offset size pcrel (blen op + 4) op false (blen out0) buf).
Proof.
  intros Ha Ho Hs Hp Hf Hn Hlen Hop Ht Hpre Hrw.
  assert (Hop2 : 1 <= blen op <= 2) by (by inversion Hop).
  destruct (relocate_jump_ok addr offset size pcrel op out0 pre n buf) as (buf' & E & Hf');
    [done..|lia|rewrite blen_app; lia|].
  set (d := size + pcrel - offset - blen pre - (blen op + 4)) in *.
  eexists _, buf'. split; [exact E|]. destruct (is_imm32 d) eqn:Ed.
  - left. exists pre, (op ++ imm32 d), (retarget c0 (target c)), (n - (blen op + 4)).
    split_and!; [done|by apply Hf'|done|]. rewrite (near_cft op c0) by done. do 3 f_equal.
    apply between_spec in Hp, Ho. unfold INT32_MIN, INT32_MAX in *.
    rewrite wraps_small by (unfold d; lia). unfold d. lia.
  - right. split; [done|]. left. unfold near. intros Hd. pose proof (blen_nonneg pre).
    unfold is_imm32, between, INT32_MIN, INT32_MAX in Ed. unfold d in Ed. lia.
Qed.

Lemma is_imm32_s8 b : is_imm32 (s8 b) = true.
Proof. apply between_spec. pose proof (wraps_range 8 b ltac:(lia)). unfold INT32_MIN, INT32_MAX. lia. Qed.

Lemma is_imm32_s32 w : is_imm32 (s32 w) = true.
Proof. apply between_spec. pose proof (wraps_range 32 w ltac:(lia)). unfold INT32_MIN, INT32_MAX. lia. Qed.

Section Branches.
Context (opts : Options) (addr offset : Z) (bs : bytes) (size : Z) (pic : bool).
Context (out0 : bytes) (buf : Buffer) (n : Z).
Context (Ha : - 2 ^ 62 <= addr < 2 ^ 62) (Ho : is_imm32 offset = true).
Context (Hb : bytes_ok bs) (Hsize : size = blen bs) (H15 : 0 < size <= 15).
Context (Hf : filled buf out0 n) (Hn : 64 <= n) (Hlen : blen out0 + n < 2 ^ 31).

Lemma filled_nil : filled buf (out0 ++ []) n.
Proof. by rewrite app_nil_r. Qed.

Lemma relocate_direct pcrel op c0 c :
  is_imm32 pcrel = true → near_op op c0 → c = retarget c0 (addr + size + pcrel) →
  jmp c = true ∨ jcc c = true ∨ (call c = true ∧ option_Ocall opts = true) →
  relocated opts addr offset size out0 c
    (relocate_jump addr offset size pcrel (blen op + 4) op false (blen out0) buf).
Proof.
  intros Hp Hop -> Hk. apply (relocate_end _ _ _ _ _ op c0 out0 [] n buf); try done; try lia;
    [apply filled_nil|change (blen []) with 0; lia|].
  by apply rewritten_same.
Qed.

(** The target of a branch whose displacement ends the instruction. *)
Lemma branch_target i k pcrel :
  i + k = size → is_imm32 pcrel = true → s64 (addr + i + k + pcrel) = addr + size + pcrel.
Proof.
  intros ? Hp%between_spec. unfold INT32_MIN, INT32_MAX in Hp. rewrite wraps_small by lia. lia.
Qed.

Lemma relocateInstr_branch c :
  getCFTInfo addr bs size = Some (Some c) → target c ≠ INTPTR_MIN →
  relocated opts addr offset size out0 c
    (relocateInstr opts addr offset bs size pic (Some buf) false).
Proof.
  intros Hc Ht. unfold relocateInstr, getCFTInfo in *. rewrite (filled_size _ _ _ Hf).
  destruct (decodePrefix bs size) as [[[i0 rex] a32]|] eqn:E0; [|done]. cbn [mbind option_bind] in *.
  pose proof (decodePrefix_ok bs size ltac:(lia)) as H0. rewrite E0 in H0. cbn in H0.
  destruct (Z.ltb_spec i0 0); [done|].
  pose proof (decodeOpcode_ok bs size i0 Hb ltac:(lia) ltac:(lia) ltac:(lia)) as H1.
  destruct (decodeOpcode bs size i0) as [[[i enc] op]|]; [|done]. cbn [mbind option_bind safely] in *.
  destruct (Z.ltb_spec i 0); [done|].
  destruct op as [op|]; [|destruct enc; done]. destruct H1 as (Hi & Hop & Henc).
  unfold relocate_decoded. rewrite (wrapu_small 32 (size - i)) in * by lia.
  destruct enc; cbn [mbind option_bind] in *; try done.
  - (* opcodes of one byte *)
    destruct (Z.eqb_spec op 0xc3) as [Eop|Hc3]; [subst op|].
    { destruct (negb _) in Hc; [done|]. injection Hc as <-. by destruct Ht. }
    destruct ((op =? 0xe3) || is_jcc8 op || (op =? 0xeb)) eqn:E8.
    { destruct (Z.eqb_spec (size - i) 1); cbn [negb] in Hc; [|done].
      pose proof (safely_rd_byte bs i (λ d, rd bs i = Some d) Hb ltac:(lia)) as Hd.
      destruct (rd bs i) as [d|] eqn:Erd; [|by destruct Hd]. clear Hd. cbn [mbind option_bind] in *.
      injection Hc as Hc. rewrite branch_target in Hc by (apply is_imm32_s8 || lia).
      assert ((op =? 0xff) && (1 <=? size - i) = false) as ->.
      { unfold is_jcc8, between in E8. destruct (Z.eqb_spec op 0xff); [subst; done|done]. }
      cbn [mbind option_bind].
      destruct (Z.eqb_spec op 0xe3) as [Eop|He3]; [subst op|].
      - (* jrcxz *)
        set (p := if a32 then [0x67] else []).
        assert (Hp : ∃ buf1, (if a32 then push 0x67 buf else Some buf) = Some buf1 ∧
                  filled buf1 (out0 ++ p) (n - blen p)).
        { unfold p. destruct a32; [|exists buf; rewrite app_nil_r, Z.sub_0_r; done].
          apply push_filled; [done|lia]. }
        assert (Hpl : 0 <= blen p <= 1) by (unfold p; destruct a32; vm_compute; split; discriminate).
        destruct Hp as (buf1 & -> & Hf1). cbn [mbind option_bind].
        run_push. rewrite <- app_assoc in Hf0. change (blen [_;_;_;_]) with 4 in Hf0.
        eapply (relocate_end _ _ _ _ _ [0xe9]); [done|done|lia|apply is_imm32_s8|exact Hf0|lia| | | | |].
        + rewrite blen_app. change (blen [_;_;_;_]) with 4. lia.
        + apply near_jmp.
        + by subst c.
        + rewrite blen_app. change (blen [_;_;_;_]) with 4. lia.
        + subst c. apply rewritten_jrcxz; [done| |done|done]. unfold p. destruct a32; auto.
      - destruct (Z.eqb_spec op 0xeb) as [Eop|Heb]; [subst op|].
        + apply (relocate_direct (s8 d) [0xe9] (MkCFTInfo false false true false 0));
            [apply is_imm32_s8|apply near_jmp|by subst c|left; by subst c].
        + assert (Hj : is_jcc8 op = true) by (destruct (is_jcc8 op); done). rewrite Hj.
          apply between_spec in Hj.
          apply (relocate_direct (s8 d) [0x0f; op - 0x70 + 0x80] (MkCFTInfo false false false true 0));
            [apply is_imm32_s8|apply near_jcc, between_spec; lia|by subst c|right; left; by subst c]. }
    apply orb_false_iff in E8 as [[E8 E8j]%orb_false_iff E8b].
    destruct ((op =? 0xe8) || (op =? 0xe9)) eqn:E32.
    { destruct (Z.eqb_spec (size - i) 4); cbn [negb] in Hc; [|done].
      pose proof (safely_rd32 bs i Hb ltac:(lia) ltac:(lia)) as Hd.
      destruct (rd32 bs i) as [d|]; [|done]. cbn [mbind option_bind] in *.
      injection Hc as Hc. rewrite branch_target in Hc by (apply is_imm32_s32 || lia).
      assert ((op =? 0xff) && (1 <=? size - i) = false) as ->.
      { destruct (Z.eqb_spec op 0xff); [subst; done|done]. }
      cbn [mbind option_bind]. replace (size - i =? 1) with false by lia.
      destruct (Z.eqb_spec op 0xe8) as [Eop|He8]; [subst op|].
      - destruct (option_Ocall opts) eqn:Eoc.
        + unfold pushReturnAddress. rewrite Eoc. cbn [mbind option_bind]. change (0 <? 0) with false. cbn iota.
          apply (relocate_direct (s32 d) [0xe8] (MkCFTInfo true false false false 0));
            [apply is_imm32_s32|apply near_call|by subst c|right; right; by subst c].
        + destruct (pushReturnAddress_ok opts addr offset size pic out0 n buf Eoc Ha Ho ltac:(lia) Hf ltac:(lia))
            as (r & buf1 & -> & [(-> & pre & Hrp & Hpl & Hf1)|(-> & Hfar)]); cbn [mbind option_bind].
          * change (0 <? 0) with false. cbn iota. pose proof (blen_nonneg pre).
            eapply (relocate_end _ _ _ _ _ [0xe9]); [done|done|lia|apply is_imm32_s32|exact Hf1|lia|lia|apply near_jmp| |done|].
            -- by subst c.
            -- subst c. by apply rewritten_call.
          * change (-1 <? 0) with true. cbn iota. eexists _, _. split; [done|]. right. split; [done|]. right.
            unfold near. intros Hnr. unfold is_imm32, between, INT32_MIN, INT32_MAX in Hfar. lia.
      - destruct (Z.eqb_spec op 0xe9) as [Eop|?]; [subst op|done].
        apply (relocate_direct (s32 d) [0xe9] (MkCFTInfo false false true false 0));
          [apply is_imm32_s32|apply near_jmp|by subst c|left; by subst c]. }
    destruct (op =? 0xff); [|done].
    destruct (getModRMSize _ _) as [k|]; [|done]. cbn [mbind option_bind] in Hc.
    destruct (k <? 0); [done|]. destruct (rd bs i); [|done]. cbn [mbind option_bind] in Hc.
    repeat case_match; simplify_eq; by destruct Ht.
  - (* 0x0f *)
    destruct (is_jcc32 op) eqn:Ej; [|done].
    destruct (Z.eqb_spec (size - i) 4); cbn [negb] in Hc; [|done].
    pose proof (safely_rd32 bs i Hb ltac:(lia) ltac:(lia)) as Hd.
    destruct (rd32 bs i) as [d|]; [|done]. cbn [mbind option_bind andb] in *.
    injection Hc as Hc. rewrite branch_target in Hc by (apply is_imm32_s32 || lia).
    apply (relocate_direct (s32 d) [0x0f; op] (MkCFTInfo false false false true 0));
      [apply is_imm32_s32|by apply near_jcc|by subst c|right; left; by subst c].
Qed.

End Branches.

(** ** Instructions that are no branches *)

(** The opcode of an instruction, and the index after it. *)
Definition opcode_of (bs : bytes) (size : Z) : option (Z * Encoding * option Z) :=
  '(i, rex, addr32) ← decodePrefix bs size; decodeOpcode bs size i.

(** [callq *r/m64] *)
Definition is_call_rm (bs : bytes) (i : Z) (enc : Encoding) (op : Z) : Prop :=
  enc = ENCODING_SINGLE_BYTE ∧ op = 0xff ∧ ∃ m, rd bs i = Some m ∧ modrm_op m = 2.

Lemma rdn_all bs : rdn bs 0 (blen bs) = Some bs.
Proof.
  unfold rdn. rewrite Z.leb_refl. pose proof (blen_nonneg bs).
  destruct (Z.leb_spec 0 (blen bs)); [|lia]. rewrite Z.add_0_l, Z.leb_refl. cbn [andb].
  unfold blen. rewrite Nat2Z.id. change (Z.to_nat 0) with O. by rewrite drop_0, firstn_all.
Qed.

Section Operands.
Context (opts : Options) (addr offset : Z) (bs : bytes) (size : Z) (pic relax : bool).
Context (out0 : bytes) (buf : Buffer) (n : Z).
Context (Ha : - 2 ^ 62 <= addr < 2 ^ 62) (Ho : is_imm32 offset = true).
Context (Hb : bytes_ok bs) (Hsize : size = blen bs) (H15 : 0 < size <= 15).
Context (Hf : filled buf out0 n) (Hn : 64 <= n) (Hlen : blen out0 + n < 2 ^ 31).

Lemma copy_instr_ok :
  ∃ buf', copy_instr bs size (blen out0) buf = Some (size, buf') ∧
          filled buf' (out0 ++ bs) (n - size).
Proof.
  unfold copy_instr. destruct (push_bytes_filled buf out0 n bs size bs Hf) as (buf' & -> & Hf');
    [rewrite Hsize; apply rdn_all|lia|].
  cbn [mbind option_bind]. exists buf'. split; [|done].
  rewrite (filled_commit _ _ _ _ Hf') by lia. by rewrite Hsize.
Qed.

(** The relocation of an instruction whose operand at [idx], if not [0], is relative. *)
Definition operand_moved (idx : Z) (res : option (Z * Buffer)) : Prop :=
  if idx =? 0 then
    ∃ buf', res = Some (size, buf') ∧ filled buf' (out0 ++ bs) (n - size)
  else
    ∃ w, rd32 bs idx = Some w ∧
    if is_imm32 (s32 w - offset) then
      ∃ buf' out, res = Some (size, buf') ∧ filled buf' (out0 ++ out) (n - size) ∧
        wrn bs idx (imm32 (s32 w - offset)) = Some out
    else res = Some (-1, buf).

Lemma relocate_generic_ok i enc op idx :
  0 <= i <= size →
  (if u32 (size - i) <? 5 then Some 0
   else
     movabs ← (if decide (enc = ENCODING_SINGLE_BYTE) then Some (is_movabs op) else Some false);
     if (movabs : bool) then Some 0
     else
       modRM ← rd bs i;
       Some (if (modrm_mod modRM =? 0) && (modrm_rm modRM =? 5) then i + 1 else 0)) = Some idx →
  operand_moved idx (relocate_generic addr offset bs size i enc (Some op) (blen out0) buf).
Proof.
  intros Hi Hidx. pose proof Ho as Ho'%between_spec. unfold INT32_MIN, INT32_MAX in Ho'.
  assert (Hcopy : operand_moved 0 (copy_instr bs size (blen out0) buf)) by apply copy_instr_ok.
  unfold relocate_generic. rewrite (wrapu_small 32 (size - i)) in * by lia.
  destruct (Z.ltb_spec (size - i) 5); [injection Hidx as <-; exact Hcopy|].
  cbn [mbind option_bind]. set (mv := if decide _ then _ else _) in *.
  assert (Emv : ∃ m, mv = Some m) by (unfold mv; destruct decide; eauto).
  destruct Emv as [m ->]. cbn [mbind option_bind] in *.
  destruct m; [injection Hidx as <-; exact Hcopy|].
  destruct (rd bs i) as [modRM|] eqn:Erd; [|done]. cbn [mbind option_bind] in *.
  rewrite (wrapu_small 32 (size - (i + 1))) by lia.
  destruct (Z.leb_spec 4 (size - (i + 1))); [|lia]. rewrite andb_true_r.
  destruct (_ && _); injection Hidx as <-; [|exact Hcopy].
  unfold operand_moved. destruct (Z.eqb_spec (i + 1) 0); [lia|].
  pose proof (safely_rd32 bs (i + 1) Hb ltac:(lia) ltac:(lia)) as Hw.
  destruct (rd32 bs (i + 1)) as [w|]; [|done]. clear Hw. exists w. split; [done|].
  cbn [mbind option_bind]. pose proof (is_imm32_s32 w) as Hw%between_spec. unfold INT32_MIN, INT32_MAX in Hw.
  assert (Hf' : filled buf (out0 ++ []) n) by (by rewrite app_nil_r).
  rewrite (filled_size_from _ _ _ _ Hf'). change (blen []) with 0.
  rewrite (wraps_small 64 (addr + size + s32 w)) by lia. rewrite (wraps_small 64 (_ - _)) by lia.
  replace (addr + size + s32 w - _) with (s32 w - offset) by lia.
  destruct (is_imm32 (s32 w - offset)) eqn:Ed; cbn [negb]; [|done].
  set (d := s32 w - offset) in *.
  destruct (rdn_is_Some bs 0 (i + 1)) as [x Ex]; [lia..|].
  destruct (push_bytes_filled buf out0 n bs (i + 1) x Hf Ex) as (buf1 & -> & Hf1); [lia|].
  cbn [mbind option_bind].
  destruct (push_imm32_filled buf1 _ _ d Hf1) as (buf2 & -> & Hf2); [lia|]. cbn [mbind option_bind].
  rewrite (wrapu_small 32 (size - (i + 1) - 4)) by lia.
  destruct (rdn_is_Some (at_off bs (i + 1 + 4)) 0 (size - (i + 1) - 4)) as [y Ey];
    [rewrite ?blen_at_off; lia..|].
  destruct (push_bytes_filled buf2 _ _ _ _ y Hf2 Ey) as (buf3 & -> & Hf3); [lia|].
  cbn [mbind option_bind]. exists buf3, (x ++ imm32 d ++ y).
  rewrite <- !app_assoc in Hf3.
  pose proof (rdn_len _ _ _ _ Ex) as Lx. pose proof (rdn_len _ _ _ _ Ey) as Ly.
  assert (Lo : blen (x ++ imm32 d ++ y) = size) by (rewrite !blen_app, imm32_len; lia).
  split_and!.
  - rewrite (filled_commit _ _ _ _ Hf3) by lia. by rewrite Lo.
  - by replace (n - size) with (n - (i + 1) - 4 - (size - (i + 1) - 4)) by lia.
  - unfold rdn in Ex, Ey. unfold wrn. rewrite imm32_len.
    destruct (Z.leb_spec 0 (i + 1)); [|lia]. destruct (Z.leb_spec (i + 1 + 4) (blen bs)); [|lia].
    cbn [andb]. repeat case_match; simplify_eq. change (Z.to_nat 0) with O. rewrite !drop_0. f_equal. f_equal. f_equal.
    unfold at_off. rewrite take_ge.
    + f_equal. unfold imm32. rewrite le_bytes_len. lia.
    + rewrite length_drop. unfold blen in *. lia.
Qed.

Lemma cft_any_target c :
  (if target c =? INTPTR_MIN then Some INTPTR_MIN
   else if cft_flag CFT_ANY CFT_CALL (call c) || cft_flag CFT_ANY CFT_JMP (jmp c) ||
           cft_flag CFT_ANY CFT_JCC (jcc c) then Some (target c) else Some INTPTR_MIN) =
    Some INTPTR_MIN →
  call c || jmp c || jcc c = true → target c = INTPTR_MIN.
Proof.
  destruct (Z.eqb_spec (target c) INTPTR_MIN); [done|].
  change (cft_flag CFT_ANY CFT_CALL (call c) || cft_flag CFT_ANY CFT_JMP (jmp c) ||
          cft_flag CFT_ANY CFT_JCC (jcc c)) with (call c || jmp c || jcc c).
  intros E Ek. rewrite Ek in E. by injection E.
Qed.

Lemma relocateInstr_operand i enc op idx :
  getCFTTarget addr bs size CFT_ANY = Some INTPTR_MIN →
  opcode_of bs size = Some (i, enc, Some op) → ¬ is_call_rm bs i enc op →
  getInstrPCRelativeIndex bs size = Some idx →
  operand_moved idx (relocateInstr opts addr offset bs size pic (Some buf) relax).
Proof.
  intros Hcft Hop Hcall Hidx.
  unfold relocateInstr, getInstrPCRelativeIndex, getCFTTarget, getCFTInfo, opcode_of in *.
  rewrite (filled_size _ _ _ Hf).
  destruct (decodePrefix bs size) as [[[i0 rex] a32]|] eqn:E0; [|done]. cbn [mbind option_bind] in *.
  pose proof (decodePrefix_ok bs size ltac:(lia)) as H0. rewrite E0 in H0. cbn in H0.
  destruct (Z.ltb_spec i0 0); [lia|].
  pose proof (decodeOpcode_ok bs size i0 Hb ltac:(lia) ltac:(lia) ltac:(lia)) as H1.
  rewrite Hop in *. cbn [mbind option_bind safely] in *. destruct H1 as (Hi & Hopb & Henc).
  destruct (Z.ltb_spec i 0); [lia|].
  assert (Hmin : ∀ k pcrel, i + k = size → is_imm32 pcrel = true →
            s64 (addr + i + k + pcrel) ≠ INTPTR_MIN).
  { intros k pcrel Hk Hp. rewrite (branch_target addr size) by done. apply between_spec in Hp.
    unfold INT32_MIN, INT32_MAX, INTPTR_MIN in *. lia. }
  pose proof (relocate_generic_ok i enc op idx ltac:(lia)) as Hgen.
  unfold relocate_decoded. rewrite (wrapu_small 32 (size - i)) in * by lia.
  destruct enc; cbn [mbind option_bind] in *; try (by apply Hgen).
  - (* opcodes of one byte *)
    assert (Hcr : (if (op =? 0xff) && (1 <=? size - i) then m ← rd bs i; Some (modrm_op m =? 2)
                   else Some false) = Some false).
    { destruct (Z.eqb_spec op 0xff) as [Eff|]; [|done]. destruct (Z.leb_spec 1 (size - i)); [|done].
      cbn [andb]. destruct (rd_is_Some bs i) as [m Em]; [lia|]. rewrite Em. cbn [mbind option_bind].
      destruct (Z.eqb_spec (modrm_op m) 2); [|done]. destruct Hcall. by split_and!; [..|exists m]. }
    rewrite Hcr. cbn [mbind option_bind].
    destruct (Z.eqb_spec (size - i) 1) as [E1|].
    { destruct (rd_is_Some bs i) as [d Ed]; [lia|]. rewrite Ed in *. cbn [mbind option_bind] in *.
      assert (Hnb : (op =? 0xe3) || (op =? 0xeb) || is_jcc8 op = false).
      { destruct ((op =? 0xe3) || (op =? 0xeb) || is_jcc8 op) eqn:Enb; [|done]. exfalso.
        apply (Hmin 1 (s8 d)); [lia|apply is_imm32_s8|].
        assert (Enb' : (op =? 0xe3) || is_jcc8 op || (op =? 0xeb) = true)
          by (by rewrite <- orb_assoc, (orb_comm (is_jcc8 op)), orb_assoc).
        assert (Hc3 : (op =? 0xc3) = false) by (unfold is_jcc8, between in Enb; lia).
        rewrite Hc3, Enb' in Hcft. cbn [negb mbind option_bind] in Hcft.
        apply cft_any_target in Hcft; [done|]. cbn. by destruct (op =? 0xeb). }
      rewrite Hnb in Hidx. apply orb_false_iff in Hnb as [[-> ->]%orb_false_iff ->]. by apply Hgen. }
    destruct (Z.eqb_spec (size - i) 4) as [E4|]; [|by apply Hgen].
    cbn [mbind option_bind] in Hidx.
    pose proof (safely_rd32 bs i Hb ltac:(lia) ltac:(lia)) as Hd.
    destruct (rd32 bs i) as [d|]; [|done]. clear Hd. cbn [mbind option_bind] in *.
    assert (Hnb : (op =? 0xe8) || (op =? 0xe9) = false).
    { destruct ((op =? 0xe8) || (op =? 0xe9)) eqn:Enb; [|done]. exfalso.
      apply (Hmin 4 (s32 d)); [lia|apply is_imm32_s32|].
      assert (Hc3 : (op =? 0xc3) = false) by lia.
      assert (H8 : (op =? 0xe3) || is_jcc8 op || (op =? 0xeb) = false) by (unfold is_jcc8, between; lia).
      rewrite Hc3, H8 in Hcft. cbn [negb mbind option_bind] in Hcft.
      apply cft_any_target in Hcft; [done|]. cbn. lia. }
    rewrite Hnb in Hidx. apply orb_false_iff in Hnb as [-> ->]. by apply Hgen.
  - (* 0x0f *)
    destruct (Z.eqb_spec (size - i) 4) as [E4|]; [|by apply Hgen]. cbn [mbind option_bind andb] in *.
    pose proof (safely_rd32 bs i Hb ltac:(lia) ltac:(lia)) as Hd.
    destruct (rd32 bs i) as [d|]; [|done]. clear Hd. cbn [mbind option_bind] in *.
    destruct (is_jcc32 op); [|by apply Hgen]. exfalso.
    apply (Hmin 4 (s32 d)); [lia|apply is_imm32_s32|]. cbn [negb mbind option_bind] in Hcft.
    by apply cft_any_target in Hcft.
Qed.

End Operands.

(** ** Properties *)

(** Options and a buffer for the witnesses. *)
Definition sample_options : Options := {|
  option_Ocall := false; option_OCFR := true; option_Oorder := false;
  option_Oscratch_stack := false; option_tactic_B0 := false; option_tactic_B1 := true;
  option_tactic_B2 := true; option_tactic_T0 := true; option_tactic_T1 := true;
  option_tactic_T2 := true; option_tactic_T3 := true; option_tactic_backward_T3 := true;
  option_mem_multi_page := false; option_mem_lb := INTPTR_MIN; option_mem_ub := INTPTR_MAX;
  option_loader_base := 0x20e9e9000;
  option_batch := true; option_Opeephole := true; option_Oepilogue := 64;
  option_Oepilogue_size := 256; option_Oprologue := 64; option_Oprologue_size := 256 |}.

Definition sample_buffer : Buffer := MkBuffer 0 64 (Some (repeat 0 64)).

Lemma sample_buffer_filled : filled sample_buffer [] 64.
Proof. exists (repeat 0 64). split_and!; vm_compute; done. Qed.





(** ** Instructions that the decoder misses *)

(** [loop] is relative to the program counter but copied verbatim. *)
Lemma relocate_copies_loop :
  getInstrPCRelativeIndex [0xe2; 0xfe] 2 = Some 0 ∧
  relocateInstr sample_options 0x401000 0x100000 [0xe2; 0xfe] 2 true (Some sample_buffer) false =
    Some (2, MkBuffer 2 64 (Some ([0xe2; 0xfe] ++ repeat 0 62))).
Proof. vm_compute. done. Qed.

(** [call *%r8] is no control-flow transfer, because [getModRMSize] is given the REX
    prefix instead of the ModRM byte; [call *%rax] is one. *)
Lemma call_r8_not_CFT :
  isCFT [0x41; 0xff; 0xd0] 3 CFT_ANY = Some false ∧ isCFT [0xff; 0xd0] 2 CFT_ANY = Some true.
Proof. vm_compute. done. Qed.

(** The operand [disp32(,%rax)] has a ModRM byte, a SIB byte and four bytes of
    displacement, but the base [0x5] is masked with [0x3]. *)
Lemma sib_displacement_missed : getModRMSize [0x04; 0x05; 0x00; 0x10; 0x00; 0x00] 6 = Some 2.
Proof. reflexivity. Qed.

End E9X86.
