(* ===== verification/E9Tactics.v ===== *)
(** * E9Tactics: patching instructions

    Models src/src/e9patch/e9tactics.cpp: the tactics B0, B1, B2, T0, T1, T2 and T3 that
    replace an instruction with a jump to a trampoline, with the undoing of failed
    attempts.  The file image ([bytes]) and the states of its bytes ([state]) are shared
    arrays into which the instructions point; the allocator and the trampolines are used
    through their interfaces. *)

From stdpp Require Import gmap.
From S2P Require Import Prelude E9Patch E9Alloc E9AllocTree E9AllocSpec E9AllocApi E9X86.

Module E9Tactics.
Import E9 E9Alloc AllocTree AllocApi E9X86.

Definition JMP_SIZE : Z := 5.
Definition PATCH_MAX : Z := 32.
Definition SHORT_JMP_MAX : Z := INT8_MAX.
Definition SHORT_JMP_MIN : Z := INT8_MIN.

(** [enum Tactic]. *)
Inductive Tactic :=
| TACTIC_B0 | TACTIC_B1 | TACTIC_B2 | TACTIC_T0 | TACTIC_T1 | TACTIC_T2 | TACTIC_T3.

#[export] Instance tactic_eq_dec : EqDecision Tactic.
Proof. solve_decision. Defined.

(** [struct Patch::Original]. *)
Record Original := MkOriginal { o_is_patched : bool; o_state : bytes; o_bytes : bytes }.

(** [struct Patch]; the dependent patches, linked by [next], are a list. *)
Record Patch := MkPatch {
  p_A : option ptr; p_I : iptr; p_tactic : Tactic; p_original : Original }.

Definition set_p_A (a : option ptr) (p : Patch) : Patch :=
  MkPatch a (p_I p) (p_tactic p) (p_original p).

Definition set_p_tactic (t : Tactic) (p : Patch) : Patch :=
  MkPatch (p_A p) (p_I p) t (p_original p).

(** [P->next = Q] *)
Definition set_next (P Q : list Patch) : list Patch :=
  match P with [] => [] | p :: _ => p :: Q end.

(** An assignment to a field of [*P]. *)
Definition upd_head (f : Patch → Patch) (P : list Patch) : list Patch :=
  match P with [] => [] | p :: P => f p :: P end.

(** [assert(b)] *)
Definition assert_ (b : bool) : option () := if b then Some () else None.

(** [STATE_INSTRUCTION] or [STATE_FREE]: a byte that may be overwritten. *)
Definition writable (s : Z) : bool := (s =? STATE_INSTRUCTION) || (s =? STATE_FREE).

Definition wr (l : bytes) (off b : Z) : option bytes := wrn l off [b].

(** ** Instructions and their bytes *)

Section Memory.
Context {S : Type}.
Implicit Types (b : Binary S) (I J : Instr) (j : iptr).

(** [*j] *)
Definition instr b j : option Instr := B_Is b !! j.

(** [j->f = v] *)
Definition upd_instr (f : Instr → Instr) j b : option (Binary S) :=
  I ← instr b j; Some (set_B_Is (<[j := f I]> (B_Is b)) b).

(** The instructions are adjacent in memory, between entries that are zero. *)
Definition prev b j : option iptr :=
  match instr b (j - 1) with
  | Some J => if i_offset J =? 0 then None else Some (j - 1)
  | None => None
  end.

Definition next b j : option iptr :=
  match instr b (j + 1) with
  | Some J => if i_offset J =? 0 then None else Some (j + 1)
  | None => None
  end.

Definition pred b j : option (option iptr) :=
  I ← instr b j;
  Some match instr b (j - 1) with
       | Some J => if (i_offset J =? 0) || negb (i_offset J + i_size J =? i_offset I)
                   then None else Some (j - 1)
       | None => None
       end.

Definition succ b j : option (option iptr) :=
  I ← instr b j;
  Some match instr b (j + 1) with
       | Some J => if (i_offset J =? 0) || negb (i_offset I + i_size I =? i_offset J)
                   then None else Some (j + 1)
       | None => None
       end.

(** [I->STATE[k]], [I->PATCH[k]] and the bytes of [I->ORIG]. *)
Definition STATE b I (k : Z) : option Z := rd (B_state b) (i_offset I + k).
Definition PATCH b I (k : Z) : option Z := rd (B_bytes b) (i_offset I + k).
Definition ORIG b I : bytes := at_off (B_orig b) (i_offset I).

Definition set_STATE I (k v : Z) b : option (Binary S) :=
  st ← wr (B_state b) (i_offset I + k) v; Some (set_B_state st b).

Definition set_PATCH I (k v : Z) b : option (Binary S) :=
  bs ← wr (B_bytes b) (i_offset I + k) v; Some (set_B_bytes bs b).

(** [PATCH[k] = v; STATE[k] = s] *)
Definition write I (k v s : Z) b : option (Binary S) :=
  b ← set_PATCH I k v b; set_STATE I k s b.

(** [STATE[k] |= STATE_LOCKED] *)
Definition lock I (k : Z) b : option (Binary S) :=
  s ← STATE b I k; set_STATE I k (Z.lor s STATE_LOCKED) b.

(** ** Writing patches *)

(** The loop of [patchJumpPrefix] over the prefixes [0x48, 0x26, 0x36, 0x3E]. *)
Fixpoint patch_prefixes I (k : Z) (l : bytes) b : option (Binary S) :=
  match l with
  | [] => Some b
  | v :: l =>
      s ← STATE b I k;
      _ ← assert_ (writable s);
      b ← write I k v STATE_PATCHED b;
      patch_prefixes I (k + 1) l b
  end.

Definition prefixes : bytes := [0x48; 0x26; 0x36; 0x3e].

Definition patchJumpPrefix j (prefix : Z) b : option (Binary S) :=
  I ← instr b j;
  _ ← assert_ ((prefix <? i_size I) && (prefix <=? 4));
  patch_prefixes I 0 (take (Z.to_nat prefix) prefixes) b.

(** The two loops of [patchJump] over the bytes of [rel32]: inside of the instruction,
    and after it. *)
Fixpoint patch_rel32 I (k : Z) (l : bytes) b : option (Binary S) :=
  match l with
  | [] => Some b
  | v :: l =>
      s ← STATE b I k;
      b ← (if k <? i_size I then
             c ← PATCH b I k;
             _ ← assert_ (writable s || ((s =? STATE_PATCHED) && (c =? v)));
             write I k v STATE_PATCHED b
           else
             _ ← assert_ (negb (s =? STATE_QUEUED));
             if s =? STATE_FREE then write I k v STATE_PATCHED b else lock I k b);
      patch_rel32 I (k + 1) l b
  end.

(** [patchJump], for the trampoline entry [dest]. *)
Definition patch_jump I (dest offset : Z) b : option (Binary S) :=
  _ ← assert_ ((offset <=? PATCH_MAX - JMP_SIZE) && (offset <? i_size I));
  let diff := s64 (dest - (i_addr I + offset + JMP_SIZE)) in
  _ ← assert_ (is_imm32 diff);
  s ← STATE b I offset;
  _ ← assert_ (writable s);
  b ← write I offset 0xe9 STATE_PATCHED b;
  patch_rel32 I (offset + 1) (imm32 diff) b.

Definition patchShortJump j (addr : Z) b : option (Binary S) :=
  I ← instr b j;
  let diff := s64 (addr - (i_addr I + 2)) in
  _ ← assert_ (between INT8_MIN INT8_MAX diff);
  s ← STATE b I 0;
  _ ← assert_ (writable s);
  b ← write I 0 0xeb STATE_PATCHED b;
  s ← STATE b I 1;
  _ ← assert_ (writable s);
  write I 1 (u8 diff) STATE_PATCHED b.

Definition patchTrap j b : option (Binary S) :=
  I ← instr b j;
  s ← STATE b I 0;
  _ ← assert_ (writable s);
  write I 0 0x27 STATE_PATCHED b.

(** The loop of [patchUnused], over [n] bytes from [k]. *)
Fixpoint free_bytes I (k : Z) (n : nat) b : option (Binary S) :=
  match n with
  | O => Some b
  | Datatypes.S n =>
      s ← STATE b I k;
      b ← (if (s =? STATE_INSTRUCTION) || (s =? STATE_QUEUED)
           then write I k 0xcc STATE_FREE b else Some b);
      free_bytes I (k + 1) n b
  end.

Definition patchUnused j (offset : Z) b : option (Binary S) :=
  I ← instr b j;
  _ ← assert_ (offset <=? i_size I);
  free_bytes I offset (Z.to_nat (i_size I - offset)) b.

Definition canPatch b j : option bool :=
  I ← instr b j; s ← STATE b I 0; Some (writable s).

End Memory.

(** ** Patches *)

Section Tactics.
Context `{W : Window} {S : Type} `{TR : Trampolines (Binary S)}
  `{VS : !VirtualSpace (Binary S) S}.
Context (opts : Options) (evicteeTrampoline : ptr).
Implicit Types (b : Binary S) (I J : Instr) (j : iptr).

(** [*A] *)
Definition alloc_of b (A : ptr) : option Alloc := vs_get (B_space b) A.

(** The constructor of [Patch]. *)
Definition new_Patch j (t : Tactic) (A : option ptr) b : option (Patch * Binary S) :=
  I ← instr b j;
  st ← rdn (B_state b) (i_offset I) PATCH_MAX;
  bs ← rdn (B_bytes b) (i_offset I) PATCH_MAX;
  evicts ← match A with
           | None => Some false
           | Some A => a ← alloc_of b A; Some (bool_decide (a_T a = Some evicteeTrampoline))
           end;
  b ← upd_instr (set_i_is_patched true) j b;
  b ← (if (evicts : bool) then upd_instr (set_i_is_evicted true) j b else Some b);
  Some (MkPatch A j t (MkOriginal (i_is_patched I) st bs), b).

Definition deallocate_ (A : option ptr) b : option (Binary S) :=
  '(r, s) ← vs_run (option_Oorder opts) (Deallocate A) (B_space b);
  Some (set_B_space s b).

Fixpoint undo (P : list Patch) b : option (Binary S) :=
  match P with
  | [] => Some b
  | p :: P =>
      I ← instr b (p_I p);
      b ← upd_instr (λ I, set_i_is_evicted false (set_i_is_patched (o_is_patched (p_original p)) I))
            (p_I p) b;
      st ← wrn (B_state b) (i_offset I) (o_state (p_original p));
      bs ← wrn (B_bytes b) (i_offset I) (o_bytes (p_original p));
      b ← deallocate_ (p_A p) (set_B_bytes bs (set_B_state st b));
      undo P b
  end.

Definition count (t : Tactic) (s : Stats) : Stats :=
  let inc u z := if decide (t = u) then z + 1 else z in
  MkStats (inc TACTIC_B0 (num_B0 s)) (inc TACTIC_B1 (num_B1 s)) (inc TACTIC_B2 (num_B2 s))
          (inc TACTIC_T0 (num_T0 s)) (inc TACTIC_T1 (num_T1 s)) (inc TACTIC_T2 (num_T2 s))
          (inc TACTIC_T3 (num_T3 s)).

(** [setTrampolineEntry] (e9optimize.cpp). *)
Definition setTrampolineEntry (Es : gmap Z EntryPoint) j I (entry : Z) : gmap Z EntryPoint :=
  match Es !! i_addr I with
  | None => if entry =? INTPTR_MIN then Es
            else <[i_addr I := MkEntryPoint j entry false false]> Es
  | Some e => <[i_addr I := MkEntryPoint (e_I e) entry (e_target8 e) (e_target32 e)]> Es
  end.

(** The loop of [commit]. *)
Fixpoint set_entries (P : list Patch) b : option (Binary S) :=
  match P with
  | [] => Some b
  | p :: P =>
      b ← match p_A p with
          | None => Some b
          | Some A =>
              I ← instr b (p_I p); a ← alloc_of b A;
              Some (set_B_Es (setTrampolineEntry (B_Es b) (p_I p) I (s64 (a_lb a + a_entry a))) b)
          end;
      set_entries P b
  end.

Definition commit (P : list Patch) b : option (Binary S) :=
  match P with
  | [] => None
  | p :: _ =>
      let b := set_B_stats (count (p_tactic p) (B_stats b)) b in
      let b := if decide (p_tactic p = TACTIC_B0) then set_B_Traps (B_Traps b ++ [p_A p]) b
               else b in
      set_entries P b
  end.

(** ** Bounds and allocation *)

(** Steps 1 and 2 of [makeBounds]: the number of bytes of [rel32] that may be written,
    and the range of [rel32]. *)
Definition rel32_diff I (prefix : Z) b : option Z :=
  let off := i_offset I in
  size ← skip_while (Z.to_nat (i_size I - (prefix + 1))) writable (B_state b)
           (off + i_size I) (off + prefix + 1);
  size ← skip_while 5 (λ s, s =? STATE_FREE) (B_state b) (off + 5) size;
  Some (size - off - prefix - 1).

Definition rel32_range I (prefix diff : Z) (trap : bool) b : option (Z * Z) :=
  if (4 <=? diff) || trap then Some (INT32_MIN, INT32_MAX)
  else
    let mask := u32 (Z.shiftl 0xffffffff (8 * diff)) in
    urel32 ← rd32 (B_bytes b) (i_offset I + prefix + 1);
    let urel32_lo := Z.land urel32 mask in
    let urel32_hi := Z.lor urel32_lo (Z.land 0xffffffff (u32 (Z.lnot mask))) in
    Some (s32 urel32_lo, s32 urel32_hi).

(** Step 6: the target of the instruction, if it is relative. *)
Definition pcrel_target I b : option (option Z) :=
  if negb (i_pcrel32_idx I =? 0) || negb (i_pcrel8_idx I =? 0) then
    pcrel ← (if negb (i_pcrel32_idx I =? 0)
             then d ← rd32 (ORIG b I) (i_pcrel32_idx I); Some (s32 d)
             else d ← rd (ORIG b I) (i_pcrel32_idx I); Some (s8 d));
    Some (Some (s64 (i_addr I + i_size I + pcrel)))
  else Some None.

Definition makeBounds (T : option ptr) j (J : iptr) (prefix : Z) (trap : bool) b :
    option Bounds :=
  I ← instr b j;
  _ ← assert_ ((prefix <? i_size I) || trap);
  diff ← rel32_diff I prefix b;
  '(rel32_lo, rel32_hi) ← rel32_range I prefix diff trap b;
  let jmp_from := s64 (i_addr I + prefix + JMP_SIZE) in
  let jmp_lo := s64 (jmp_from + rel32_lo) in
  let jmp_hi := s64 (jmp_from + rel32_hi) in
  let lo := Z.min jmp_lo jmp_hi in
  let hi := Z.max jmp_lo jmp_hi in
  let lo := Z.max lo (s64 (jmp_from - INT32_MAX)) in
  let hi := Z.min hi (s64 (s64 (jmp_from - INT32_MIN) - TRAMPOLINE_MAX)) in
  t ← getTrampolineBounds b T (Some J);
  let lo := Z.max lo (b_lb t) in
  let hi := Z.min hi (b_ub t) in
  tgt ← pcrel_target I b;
  let lo := match tgt with
            | Some target => Z.max lo (s64 (target - INT32_MAX)) | None => lo end in
  let hi := match tgt with
            | Some target => Z.min hi (s64 (s64 (target - INT32_MIN) - TRAMPOLINE_MAX))
            | None => hi end in
  let lo := Z.max lo (option_mem_lb opts) in
  let hi := Z.min hi (option_mem_ub opts) in
  let hi := match B_mode b with
            | MODE_ELF_EXE | MODE_ELF_DSO => Z.min hi (s64 (option_loader_base opts - PAGE_SIZE))
            | _ => hi end in
  Some (MkBounds lo hi).

(** [allocate] (e9alloc.cpp), with the space of the binary. *)
Definition allocate_in (bd : Bounds) (T : option ptr) (J : iptr) b :
    option (option ptr * Binary S) :=
  '(r, s) ← vs_run (option_Oorder opts)
              (Allocate b (b_lb bd) (b_ub bd) T (Some J) (negb (option_mem_multi_page opts)))
              (B_space b);
  match r with Allocated A => Some (A, set_B_space s b) | _ => None end.

(** [for (i = 0; i <= 5; i++) if (I->STATE[prefix + i] == STATE_QUEUED) ...] *)
Fixpoint any_queued I (k : Z) (n : nat) b : option bool :=
  match n with
  | O => Some false
  | Datatypes.S n =>
      s ← STATE b I k;
      if s =? STATE_QUEUED then Some true else any_queued I (k + 1) n b
  end.

Definition allocatePunnedJump j (prefix : Z) (J : iptr) (T : option ptr) b :
    option (option ptr * Binary S) :=
  I ← instr b j;
  q ← any_queued I prefix 6 b;
  if (q : bool) then Some (None, b)
  else bd ← makeBounds T j J prefix false b; allocate_in bd T J b.

Definition allocateJump j (T : option ptr) b : option (option ptr * Binary S) :=
  allocatePunnedJump j 0 j T b.

Definition allocateTrap j (T : option ptr) b : option (option ptr * Binary S) :=
  bd ← makeBounds T j j 0 true b; allocate_in bd T j b.

Definition patchJump (p : Patch) (offset : Z) b : option (Binary S) :=
  I ← instr b (p_I p);
  A ← p_A p;
  a ← alloc_of b A;
  patch_jump I (a_lb a + a_entry a) offset b.

(** ** The tactics

    The result is [Some P] for a patch and [None] for [nullptr]. *)
Definition result : Type := option (option (list Patch) * Binary S).

Definition tactic_B0 j (T : option ptr) b : result :=
  if negb (option_tactic_B0 opts) then Some (None, b)
  else
    '(A, b) ← allocateTrap j T b;
    match A with
    | None => Some (None, b)
    | Some A =>
        '(p, b) ← new_Patch j TACTIC_B0 (Some A) b;
        b ← patchTrap j b;
        b ← patchUnused j 1 b;
        Some (Some [p], b)
    end.

Definition tactic_B1 j (T : option ptr) (t : Tactic) b : result :=
  I ← instr b j;
  ok ← canPatch b j;
  if (i_size I <? JMP_SIZE) || negb (option_tactic_B1 opts) || negb ok then Some (None, b)
  else
    '(A, b) ← allocateJump j T b;
    match A with
    | None => Some (None, b)
    | Some A =>
        '(p, b) ← new_Patch j t (Some A) b;
        b ← patchJump p 0 b;
        b ← patchUnused j 5 b;
        Some (Some [p], b)
    end.

Definition tactic_B2 j (T : option ptr) (t : Tactic) b : result :=
  I ← instr b j;
  ok ← canPatch b j;
  if (JMP_SIZE <=? i_size I) || negb (option_tactic_B2 opts) || negb ok then Some (None, b)
  else
    '(A, b) ← allocatePunnedJump j 0 j T b;
    match A with
    | None => Some (None, b)
    | Some A =>
        '(p, b) ← new_Patch j t (Some A) b;
        b ← patchJump p 0 b;
        Some (Some [p], b)
    end.

Definition canApplyT1 I (prefix : Z) b : option bool :=
  s ← STATE b I prefix;
  Some (if s =? STATE_INSTRUCTION then prefix <? i_size I else s =? STATE_FREE).

(** The loop of [tactic_T1] over the numbers of prefixes. *)
Fixpoint try_prefixes j (T : option ptr) (t : Tactic) (l : list Z) b : result :=
  match l with
  | [] => Some (None, b)
  | prefix :: l =>
      I ← instr b j;
      ok ← canApplyT1 I prefix b;
      if negb ok || (i_size I <=? prefix) then Some (None, b)
      else
        '(A, b) ← allocatePunnedJump j prefix j T b;
        match A with
        | Some A =>
            '(p, b) ← new_Patch j t (Some A) b;
            b ← patchJumpPrefix j prefix b;
            b ← patchJump p prefix b;
            Some (Some [p], b)
        | None => try_prefixes j T t l b
        end
  end.

Definition tactic_T1 j (T : option ptr) (t : Tactic) b : result :=
  I ← instr b j;
  ok ← canPatch b j;
  if (JMP_SIZE <=? i_size I) || negb (option_tactic_T1 opts) || negb ok then Some (None, b)
  else try_prefixes j T t [1; 2; 3] b.

(** [Q = (Q == nullptr? ...: Q)] *)
Definition or_try (r : result) (k : Binary S → result) : result :=
  '(P, b) ← r;
  match P with Some P => Some (Some P, b) | None => k b end.

Definition tactic_T2 j (T : option ptr) b : result :=
  I ← instr b j;
  ok ← canPatch b j;
  if (JMP_SIZE <=? i_size I) || negb (option_tactic_T2 opts) || negb ok then Some (None, b)
  else
    n ← succ b j;
    match n with
    | None => Some (None, b)
    | Some J =>
        ok ← canPatch b J;
        if negb ok then Some (None, b)
        else
          let U := Some evicteeTrampoline in
          '(Q, b) ← or_try (tactic_B2 J U TACTIC_T2 b) (tactic_T1 J U TACTIC_T2);
          match Q with
          | None => Some (None, b)
          | Some Q =>
              '(P, b) ← or_try (tactic_B2 j T TACTIC_T2 b) (tactic_T1 j T TACTIC_T2);
              match P with
              | None => b ← undo Q b; Some (None, b)
              | Some P => Some (Some (set_next (upd_head (set_p_tactic TACTIC_T2) P) Q), b)
              end
          end
    end.

(** The eviction of [J], in which a jump was inserted by [P]; [save] is the original
    [no_optimize]. *)
Definition evict (J : iptr) (P : list Patch) (save : bool) b : result :=
  let U := Some evicteeTrampoline in
  '(Q, b) ← or_try (or_try (tactic_B1 J U TACTIC_T3 b) (tactic_B2 J U TACTIC_T3))
                    (tactic_T1 J U TACTIC_T3);
  match Q with
  | None =>
      b ← upd_instr (set_i_no_optimize save) J b;
      b ← undo P b;
      Some (None, b)
  | Some Q => Some (Some (set_next Q (upd_head (set_p_A None) P)), b)
  end.

(** Steps 2a and 2b of [tactic_T3] at the byte [k] of the neighbour [J]: a jump to the
    trampoline of [j], and the eviction of [J]; also the allocation. *)
Definition insert_jump j (T : option ptr) (J : iptr) (k : Z) (state : Z) (back : bool) b :
    option (option (list Patch * ptr) * Binary S) :=
  K ← instr b J;
  let save := i_no_optimize K in
  b ← (if back then upd_instr (set_i_no_optimize true) J b else Some b);
  '(A, b) ← allocatePunnedJump J k j T b;
  match A with
  | None => b ← upd_instr (set_i_no_optimize save) J b; Some (None, b)
  | Some A =>
      '(p, b) ← new_Patch J TACTIC_T3 (Some A) b;
      b ← patchJump p k b;
      if state =? STATE_FREE then Some (Some ([set_p_A None p], A), b)
      else
        '(Q, b) ← evict J [p] save b;
        match Q with
        | None => Some (None, b)
        | Some Q => Some (Some (Q, A), b)
        end
  end.

(** The loops of [tactic_T3b] that find the instruction at [target]. *)
Fixpoint find_forward (fuel : nat) b (J : option iptr) (target : Z) : option (option iptr) :=
  match J with
  | None => Some None
  | Some j =>
      I ← instr b j;
      if i_addr I + i_size I <=? target then
        match fuel with O => None | Datatypes.S f => find_forward f b (next b j) target end
      else Some J
  end.

Fixpoint find_backward (fuel : nat) b (J : option iptr) (target : Z) : option (option iptr) :=
  match J with
  | None => Some None
  | Some j =>
      I ← instr b j;
      if target <? i_addr I then
        match fuel with O => None | Datatypes.S f => find_backward f b (prev b j) target end
      else Some J
  end.

Definition instr_fuel b : nat := Datatypes.S (size (B_Is b)).

Definition tactic_T3b j (T : option ptr) b : result :=
  I ← instr b j;
  ok ← canPatch b j;
  if negb (i_size I =? 1) || negb (option_tactic_T3 opts) || negb ok then Some (None, b)
  else
    n ← succ b j;
    match n with
    | None => Some (None, b)
    | Some J0 =>
        I0 ← instr b J0;
        s0 ← STATE b I0 0;
        if negb (writable s0) then Some (None, b)
        else
          c ← PATCH b I0 0;
          let rel8 := s8 c in
          if negb (option_tactic_backward_T3 opts) && (rel8 <? 1) then Some (None, b)
          else
            let target := s64 (i_addr I + 2 + rel8) in
            J ← (if i_addr I <=? target
                 then find_forward (instr_fuel b) b (Some J0) target
                 else find_backward (instr_fuel b) b (prev b j) target);
            match J with
            | None => Some (None, b)
            | Some J =>
                K ← instr b J;
                if (target <=? i_addr K) ||
                   ((i_addr K <? i_addr I) && (i_addr I <? i_addr K + i_size K))
                then Some (None, b)
                else
                  let k := u32 (target - i_addr K) in
                  state ← STATE b K k;
                  if negb (writable state) then Some (None, b)
                  else
                    '(r, b) ← insert_jump j T J k state (target <? i_addr I) b;
                    match r with
                    | None => Some (None, b)
                    | Some (P, A) =>
                        '(q, b) ← new_Patch j TACTIC_T3 (Some A) b;
                        I ← instr b j;
                        s ← STATE b I 0;
                        _ ← assert_ (s =? STATE_INSTRUCTION);
                        b ← set_STATE I 0 STATE_PATCHED b;
                        b ← set_PATCH I 0 0xeb b;
                        n ← next b j;
                        N ← instr b n;
                        b ← lock N 0 b;
                        Some (Some (q :: P), b)
                    end
            end
    end.

(** Step 1 of [tactic_T3]: the last instruction within reach of a short jump. *)
Fixpoint last_in_reach (fuel : nat) b I (J : iptr) : option iptr :=
  match next b J with
  | None => Some J
  | Some K =>
      k ← instr b K;
      if SHORT_JMP_MAX <? i_addr k - (i_addr I + 2) then Some J
      else match fuel with O => None | Datatypes.S f => last_in_reach f b I K end
  end.

(** Step 2 of [tactic_T3]: the loop over the bytes of [J], from [k]; the result is the
    patch, the allocation and the address of the jump. *)
Fixpoint t3_bytes j (T : option ptr) (J : iptr) (k : Z) (n : nat) b :
    option (option (list Patch * ptr * Z) * Binary S) :=
  match n with
  | O => Some (None, b)
  | Datatypes.S n =>
      I ← instr b j;
      K ← instr b J;
      let continue := t3_bytes j T J (k + 1) n in
      s0 ← STATE b K 0;
      if (k =? 0) && negb (s0 =? STATE_FREE) then continue b
      else if (i_addr I <? i_addr K) && (SHORT_JMP_MAX <? i_addr K + k - (i_addr I + 2))
      then continue b
      else if (i_addr K <? i_addr I) && (- SHORT_JMP_MIN <? i_addr I + 2 - (i_addr K + k))
      then Some (None, b)
      else if (i_addr K <? i_addr I) && (i_addr I - (i_addr K + k) <? 5)
      then continue b
      else
        state ← STATE b K k;
        if negb (writable state) then continue b
        else
          '(r, b) ← insert_jump j T J k state (i_addr K <? i_addr I) b;
          match r with
          | None => continue b
          | Some (P, A) => Some (Some (P, A, i_addr K + k), b)
          end
  end.

(** The test of [J->STATE[0]] (and of the last byte of [J]). *)
Definition t3_candidate (K : Instr) b : option bool :=
  s0 ← STATE b K 0;
  if writable s0 then Some true
  else if (s0 =? STATE_PATCHED) || (s0 =? Z.lor STATE_PATCHED STATE_LOCKED)
  then s ← STATE b K (i_size K - 1); Some (s =? STATE_FREE)
  else Some false.

(** The loop over the neighbours, from [J] down. *)
Fixpoint t3_neighbours (fuel : nat) j (T : option ptr) (J : option iptr) b :
    option (option (list Patch * ptr * Z) * Binary S) :=
  match fuel with
  | O => None
  | Datatypes.S f =>
      if decide (J = Some j) then t3_neighbours f j T (prev b j) b
      else
        match J with
        | None => Some (None, b)
        | Some J =>
            I ← instr b j;
            K ← instr b J;
            if negb (option_tactic_backward_T3 opts) && (i_addr K <? i_addr I)
            then Some (None, b)
            else if - SHORT_JMP_MIN <? i_addr I + 2 - (i_addr K + i_size K - 1)
            then Some (None, b)
            else
              ok ← t3_candidate K b;
              if negb ok then t3_neighbours f j T (prev b J) b
              else
                '(r, b) ← t3_bytes j T J 0 (Z.to_nat (i_size K)) b;
                match r with
                | Some r => Some (Some r, b)
                | None => t3_neighbours f j T (prev b J) b
                end
        end
  end.

Definition tactic_T3 j (T : option ptr) b : result :=
  I ← instr b j;
  if i_size I =? 1 then tactic_T3b j T b
  else
    ok ← canPatch b j;
    if (JMP_SIZE <=? i_size I) || negb (option_tactic_T3 opts) || negb ok then Some (None, b)
    else
      J ← last_in_reach (instr_fuel b) b I j;
      '(r, b) ← t3_neighbours (instr_fuel b) j T (Some J) b;
      match r with
      | None => Some (None, b)
      | Some (P, A, addr) =>
          '(q, b) ← new_Patch j TACTIC_T3 (Some A) b;
          b ← patchShortJump j addr b;
          b ← patchUnused j 2 b;
          Some (Some (q :: P), b)
      end.

(** Step 1 of [tactic_T0]: the first instruction of the batch, and the size up to [I]. *)
Fixpoint t0_start (limit : nat) b (J : iptr) (size : Z) : option (iptr * Z) :=
  match limit with
  | O => Some (J, size)
  | Datatypes.S n =>
      I ← instr b J;
      if i_target I then Some (J, size)
      else
        let size := size + i_size I in
        K ← pred b J;
        match K with
        | None => Some (J, size)
        | Some K =>
            k ← instr b K;
            s ← STATE b k 0;
            if (s =? STATE_INSTRUCTION) || (s =? STATE_QUEUED) then t0_start n b K size
            else Some (J, size)
        end
  end.

(** Step 2 of [tactic_T0]: the last instruction of the batch. *)
Fixpoint t0_end (fuel : nat) b (L : iptr) (size : Z) : option iptr :=
  if 5 <=? size then Some L
  else
    K ← succ b L;
    match K with
    | None => Some L
    | Some K =>
        k ← instr b K;
        ok ← canPatch b K;
        if i_target k || negb ok || (i_is_patched k && negb (i_is_evicted k)) then Some L
        else
          cft ← isCFT (ORIG b k) (i_size k) (Z.lor CFT_CALL (Z.lor CFT_RET CFT_JMP));
          if (cft : bool) then Some K
          else match fuel with O => None | Datatypes.S f => t0_end f b K (size + i_size k) end
    end.

(** Step 3 of [tactic_T0]: the instructions from [K] down to [J] are freed. *)
Fixpoint t0_free (fuel : nat) (J : iptr) (K : option iptr) (P : list Patch) b :
    option (list Patch * Binary S) :=
  match K with
  | None => Some (P, b)
  | Some K =>
      k ← instr b K;
      I ← instr b J;
      if i_addr k <? i_addr I then Some (P, b)
      else
        match fuel with
        | O => None
        | Datatypes.S f =>
            '(q, b) ← new_Patch K TACTIC_T0 None b;
            b ← patchUnused K 0 b;
            K ← pred b K;
            t0_free f J K (q :: P) b
        end
  end.

(** [new Trampoline] and [delete[] U] *)
Definition new_trampoline (U : Trampoline) b : ptr * Binary S :=
  let n := fresh (dom (B_Ts b) : gset ptr) in (n, set_B_Ts (<[n := U]> (B_Ts b)) b).

Definition delete_trampoline (n : ptr) b : Binary S := set_B_Ts (delete n (B_Ts b)) b.

Definition tactic_T0 j (T : option ptr) b : result :=
  I ← instr b j;
  ok ← canPatch b j;
  if negb (option_tactic_T0 opts) || negb (option_OCFR opts) || negb ok ||
     negb (bool_decide (i_T I = T))
  then Some (None, b)
  else
    '(J, size) ← t0_start (Z.to_nat T0_LIMIT) b j 0;
    L ← t0_end (instr_fuel b) b j size;
    if J =? L then Some (None, b)
    else
      '(P, b) ← t0_free (instr_fuel b) J (Some L) [] b;
      l ← instr b L;
      let '(U, b) := new_trampoline
            (MkTrampoline (Z.lor PROT_READ PROT_EXEC) false [ENTRY_BATCH (i_addr l)]) b in
      '(Q, b) ← or_try (or_try (tactic_B1 J (Some U) TACTIC_T0 b) (tactic_B2 J (Some U) TACTIC_T0))
                        (tactic_T1 J (Some U) TACTIC_T0);
      match Q with
      | None => b ← undo P (delete_trampoline U b); Some (None, b)
      | Some Q => Some (Some (set_next Q P), b)
      end.

(** ** Patching an instruction *)

Definition all_tactics j (T : option ptr) b : result :=
  or_try (or_try (or_try (or_try (or_try (or_try
    (tactic_T0 j T b)
    (tactic_B1 j T TACTIC_B1)) (tactic_B2 j T TACTIC_B2)) (tactic_T1 j T TACTIC_T1))
    (tactic_T2 j T)) (tactic_T3 j T)) (tactic_B0 j T).

(** [patch]; it exits with an error unless the state of the instruction is
    [STATE_INSTRUCTION]. *)
Definition patch j (T : option ptr) b : option (bool * Binary S) :=
  I ← instr b j;
  s ← STATE b I 0;
  if negb (s =? STATE_INSTRUCTION) then None
  else
    '(P, b) ← all_tactics j T b;
    match P with
    | None => Some (false, b)
    | Some P => b ← commit P b; Some (true, b)
    end.

End Tactics.

End E9Tactics.
