(* ===== verification/E9TacticsMem.v ===== *)
(** * E9TacticsMem: the bytes that the tactics write

    The effect of the routines of src/src/e9patch/e9tactics.cpp that write into the file
    image, byte by byte, and the bounds that make a punned jump agree with the bytes it
    may not overwrite. *)

From stdpp Require Import gmap.
From S2P Require Import Prelude E9Patch E9Alloc E9AllocTree E9AllocSpec E9AllocApi E9X86 E9Tactics.

Module TacticsMem.
Import E9 E9Alloc AllocTree AllocSpec AllocApi E9X86 E9Tactics.

Section Bytes.
Context {S : Type}.
Implicit Types (b : Binary S) (I J : Instr) (j : iptr).

(** ** Single bytes *)

Definition byte_at b (q : Z) : option Z := rd (B_bytes b) q.
Definition state_at b (q : Z) : option Z := rd (B_state b) q.

(** [b'] is [b] with other contents of the two arrays. *)
Definition rewrites b b' : Prop :=
  ∃ bs st, b' = set_B_state st (set_B_bytes bs b) ∧
           blen bs = blen (B_bytes b) ∧ blen st = blen (B_state b) ∧
           (bytes_ok (B_bytes b) → bytes_ok bs).

Lemma rewrites_refl b : rewrites b b.
Proof. exists (B_bytes b), (B_state b). destruct b; cbn. split_and!; auto. Qed.

Lemma rewrites_trans b1 b2 b3 : rewrites b1 b2 → rewrites b2 b3 → rewrites b1 b3.
Proof.
  intros (bs & st & -> & E1 & E2 & Hb) (bs' & st' & -> & E3 & E4 & Hb'). exists bs', st'.
  destruct b1; cbn in *. split_and!; [done|congruence..|auto].
Qed.

Lemma rewrites_bytes b b' : rewrites b b' → blen (B_bytes b') = blen (B_bytes b).
Proof. by intros (bs & st & -> & E1 & E2 & _). Qed.

Lemma rewrites_state b b' : rewrites b b' → blen (B_state b') = blen (B_state b).
Proof. by intros (bs & st & -> & E1 & E2 & _). Qed.

Lemma wr_spec l p v :
  0 <= p < blen l →
  ∃ l', wr l p v = Some l' ∧ blen l' = blen l ∧ (bytes_ok l → byte_ok v → bytes_ok l') ∧
        ∀ q, rd l' q = if decide (q = p) then Some v else rd l q.
Proof.
  intros Hp. unfold wr. destruct (wrn_is_Some l p [v]) as [l' E]; [lia|change (blen [v]) with 1; lia|].
  exists l'. pose proof (wrn_len _ _ _ _ E) as El. split_and!; [done|done| |].
  - intros Hl Hv. eapply wrn_ok; [exact Hl| |exact E]. by constructor.
  - intros q. destruct (decide (q = p)) as [->|Hq].
    + rewrite (rd_wrn_in l p [v] l' p E) by (change (blen [v]) with 1; lia).
      by rewrite Z.sub_diag.
    + apply (rd_wrn_out l p [v] l' q E). change (blen [v]) with 1. lia.
Qed.

(** The range of both arrays. *)
Definition mapped b (q : Z) : Prop := 0 <= q < blen (B_bytes b) ∧ q < blen (B_state b).

Lemma mapped_rewrites b b' q : rewrites b b' → mapped b q → mapped b' q.
Proof. intros Hr [? ?]. unfold mapped. rewrite (rewrites_bytes _ _ Hr), (rewrites_state _ _ Hr). done. Qed.

Lemma state_mapped b q : mapped b q → ∃ s, state_at b q = Some s.
Proof. intros [? ?]. apply rd_is_Some. lia. Qed.

Lemma byte_mapped b q : mapped b q → ∃ v, byte_at b q = Some v.
Proof. intros [? ?]. by apply rd_is_Some. Qed.

Lemma set_STATE_ok I k s b :
  mapped b (i_offset I + k) →
  ∃ b', set_STATE I k s b = Some b' ∧ rewrites b b' ∧
        (∀ q, byte_at b' q = byte_at b q) ∧
        ∀ q, state_at b' q = if decide (q = i_offset I + k) then Some s else state_at b q.
Proof.
  intros [Hm1 Hm2]. unfold set_STATE. destruct (wr_spec (B_state b) (i_offset I + k) s) as (st & -> & E & _ & Hq); [lia|].
  cbn [mbind option_bind]. eexists. split; [reflexivity|]. split_and!; [|done|exact Hq].
  exists (B_bytes b), st. destruct b; cbn in *. split_and!; auto.
Qed.

Lemma set_PATCH_ok I k v b :
  mapped b (i_offset I + k) → byte_ok v →
  ∃ b', set_PATCH I k v b = Some b' ∧ rewrites b b' ∧
        (∀ q, state_at b' q = state_at b q) ∧
        ∀ q, byte_at b' q = if decide (q = i_offset I + k) then Some v else byte_at b q.
Proof.
  intros [Hm1 Hm2] Hv. unfold set_PATCH.
  destruct (wr_spec (B_bytes b) (i_offset I + k) v) as (bs & -> & E & Hok & Hq); [lia|].
  cbn [mbind option_bind]. eexists. split; [reflexivity|]. split_and!; [|done|exact Hq].
  exists bs, (B_state b). destruct b; cbn in *. split_and!; try done. auto.
Qed.

Lemma write_ok I k v s b :
  mapped b (i_offset I + k) → byte_ok v →
  ∃ b', write I k v s b = Some b' ∧ rewrites b b' ∧
        ∀ q, byte_at b' q = (if decide (q = i_offset I + k) then Some v else byte_at b q) ∧
             state_at b' q = (if decide (q = i_offset I + k) then Some s else state_at b q).
Proof.
  intros Hm Hv. unfold write. destruct (set_PATCH_ok I k v b Hm Hv) as (b1 & -> & Hr1 & Hs1 & Hb1).
  cbn [mbind option_bind].
  destruct (set_STATE_ok I k s b1 (mapped_rewrites _ _ _ Hr1 Hm)) as (b2 & -> & Hr2 & Hb2 & Hs2).
  exists b2. split_and!; [done|by eapply rewrites_trans|]. intros q. by rewrite Hb2, Hb1, Hs2, Hs1.
Qed.

Lemma lock_ok I k s b :
  mapped b (i_offset I + k) → state_at b (i_offset I + k) = Some s →
  ∃ b', lock I k b = Some b' ∧ rewrites b b' ∧
        (∀ q, byte_at b' q = byte_at b q) ∧
        ∀ q, state_at b' q =
             if decide (q = i_offset I + k) then Some (Z.lor s STATE_LOCKED) else state_at b q.
Proof.
  intros Hm Es. unfold lock, STATE. fold (state_at b (i_offset I + k)). rewrite Es. cbn [mbind option_bind].
  by apply set_STATE_ok.
Qed.

(** ** Frozen bytes: those that no patch may change *)

Definition frozen (s : Z) : bool := negb (writable s || (s =? STATE_QUEUED)).

(** The relation between the contents before and after a patch: what is frozen keeps its
    byte and stays frozen. *)
Definition preserves b b' : Prop :=
  ∀ q s, state_at b q = Some s → frozen s = true →
    byte_at b' q = byte_at b q ∧ ∃ s', state_at b' q = Some s' ∧ frozen s' = true.

#[export] Instance preserves_preorder : PreOrder preserves.
Proof.
  split.
  - intros b q s Es Hf. by eauto.
  - intros b1 b2 b3 H12 H23 q s Es Hf. destruct (H12 q s Es Hf) as (E & s' & Es' & Hf').
    destruct (H23 q s' Es' Hf') as (E' & ?). split; [congruence|done].
Qed.

Lemma frozen_locked s : frozen (Z.lor s STATE_LOCKED) = true.
Proof.
  assert (Hbit : Z.testbit (Z.lor s STATE_LOCKED) 4 = true) by (rewrite Z.lor_spec; apply orb_true_r).
  unfold frozen, writable. destruct (Z.eqb_spec (Z.lor s STATE_LOCKED) STATE_INSTRUCTION) as [E|];
    [by rewrite E in Hbit|].
  destruct (Z.eqb_spec (Z.lor s STATE_LOCKED) STATE_FREE) as [E|]; [by rewrite E in Hbit|].
  destruct (Z.eqb_spec (Z.lor s STATE_LOCKED) STATE_QUEUED) as [E|]; [by rewrite E in Hbit|done].
Qed.

(** ** The bytes of a jump *)

(** The new state of a byte that becomes part of a jump, inside of the instruction or
    not. *)
Definition jump_state (inside : bool) (s : Z) : Z :=
  if inside then STATE_PATCHED
  else if s =? STATE_FREE then STATE_PATCHED else Z.lor s STATE_LOCKED.

(** The byte [v] of a jump can be put where the byte [c] with the state [s] is. *)
Definition fits (inside : bool) (v c s : Z) : Prop :=
  if inside then writable s = true ∨ (s = STATE_PATCHED ∧ c = v)
  else s ≠ STATE_QUEUED ∧ (s = STATE_FREE ∨ c = v).

Definition run_fits I (k : Z) (l : bytes) b : Prop :=
  ∀ i v, l !! i = Some v → ∃ c s,
    byte_at b (i_offset I + k + Z.of_nat i) = Some c ∧
    state_at b (i_offset I + k + Z.of_nat i) = Some s ∧
    fits (k + Z.of_nat i <? i_size I) v c s.

(** The bytes [l] are in place, from the offset [k] of the instruction. *)
Definition run_written I (k : Z) (l : bytes) b b' : Prop :=
  rewrites b b' ∧
  (∀ q, q < i_offset I + k ∨ i_offset I + k + blen l <= q →
     byte_at b' q = byte_at b q ∧ state_at b' q = state_at b q) ∧
  (∀ i v s, l !! i = Some v → state_at b (i_offset I + k + Z.of_nat i) = Some s →
     byte_at b' (i_offset I + k + Z.of_nat i) = Some v ∧
     state_at b' (i_offset I + k + Z.of_nat i) = Some (jump_state (k + Z.of_nat i <? i_size I) s)).

Lemma blen_push v l : blen (v :: l) = 1 + blen l.
Proof. unfold blen. cbn [List.length]. lia. Qed.

(** Running the first byte, and then the others. *)
Lemma run_cons I k v l b b1 b' s :
  state_at b (i_offset I + k) = Some s →
  rewrites b b1 →
  (∀ q, byte_at b1 q = (if decide (q = i_offset I + k) then Some v else byte_at b q) ∧
        state_at b1 q = (if decide (q = i_offset I + k) then Some (jump_state (k <? i_size I) s)
                         else state_at b q)) →
  run_written I (k + 1) l b1 b' → run_written I k (v :: l) b b'.
Proof.
  intros Es Hr1 Hb1 (Hr2 & Hout & Hin). pose proof (blen_nonneg l).
  split_and!; [by eapply rewrites_trans| |].
  - intros q Hq. rewrite blen_push in Hq. destruct (Hout q) as [-> ->]; [lia|].
    destruct (Hb1 q) as [-> ->]. by rewrite !decide_False by lia.
  - intros [|i] w s' Hw Es'.
    + change (Z.of_nat 0) with 0 in *. rewrite Z.add_0_r in Es'. rewrite !Z.add_0_r.
      injection Hw as ->. destruct (Hout (i_offset I + k)) as [-> ->]; [lia|].
      destruct (Hb1 (i_offset I + k)) as [-> ->]. rewrite !decide_True by done. split; [done|]. congruence.
    + cbn in Hw. replace (i_offset I + k + Z.of_nat (Datatypes.S i)) with (i_offset I + (k + 1) + Z.of_nat i) in * by lia.
      replace (k + Z.of_nat (Datatypes.S i)) with (k + 1 + Z.of_nat i) by lia.
      apply (Hin i w s' Hw). destruct (Hb1 (i_offset I + (k + 1) + Z.of_nat i)) as [_ ->].
      by rewrite decide_False by lia.
Qed.

Lemma run_fits_tail I k v l b b1 c s :
  run_fits I k (v :: l) b →
  (∀ q, byte_at b1 q = (if decide (q = i_offset I + k) then Some c else byte_at b q) ∧
        state_at b1 q = (if decide (q = i_offset I + k) then Some s else state_at b q)) →
  run_fits I (k + 1) l b1.
Proof.
  intros Hf Hb1 i w Hw. destruct (Hf (Datatypes.S i) w Hw) as (c' & s' & Ec & Es & Hc).
  replace (i_offset I + k + Z.of_nat (Datatypes.S i)) with (i_offset I + (k + 1) + Z.of_nat i) in * by lia.
  replace (k + Z.of_nat (Datatypes.S i)) with (k + 1 + Z.of_nat i) in Hc by lia.
  exists c', s'. destruct (Hb1 (i_offset I + (k + 1) + Z.of_nat i)) as [-> ->].
  by rewrite !decide_False by lia.
Qed.

Lemma patch_rel32_ok I l : ∀ k b,
  bytes_ok l → run_fits I k l b → (∀ i, 0 <= i < blen l → mapped b (i_offset I + k + i)) →
  ∃ b', patch_rel32 I k l b = Some b' ∧ run_written I k l b b'.
Proof.
  induction l as [|v l IH]; intros k b Hl Hf Hm.
  { exists b. split; [done|]. split_and!; [apply rewrites_refl|done|]. by intros i w s Hw. }
  apply Forall_cons in Hl as [Hv Hl]. rewrite blen_push in Hm. pose proof (blen_nonneg l).
  destruct (Hf O v eq_refl) as (c & s & Ec & Es & Hfit).
  change (Z.of_nat 0) with 0 in *. rewrite Z.add_0_r in *.
  assert (Hm0 : mapped b (i_offset I + k)) by (rewrite <- (Z.add_0_r (i_offset I + k)); apply Hm; lia).
  cbn [patch_rel32]. unfold STATE, PATCH. fold (state_at b (i_offset I + k)) (byte_at b (i_offset I + k)).
  rewrite Es, Ec. cbn [mbind option_bind].
  (* each case writes the byte [v], or finds it there *)
  assert (Hstep : ∃ b1,
    (if k <? i_size I then
       _ ← assert_ (writable s || ((s =? STATE_PATCHED) && (c =? v)));
       write I k v STATE_PATCHED b
     else _ ← assert_ (negb (s =? STATE_QUEUED));
          if s =? STATE_FREE then write I k v STATE_PATCHED b else lock I k b) = Some b1 ∧
    rewrites b b1 ∧
    ∀ q, byte_at b1 q = (if decide (q = i_offset I + k) then Some v else byte_at b q) ∧
         state_at b1 q = (if decide (q = i_offset I + k) then Some (jump_state (k <? i_size I) s)
                          else state_at b q)).
  { unfold fits, jump_state in *. destruct (k <? i_size I).
    - assert (writable s || ((s =? STATE_PATCHED) && (c =? v)) = true) as ->.
      { destruct Hfit as [->|[-> ->]]; [done|]. by rewrite !Z.eqb_refl. }
      by apply write_ok.
    - destruct Hfit as [Hq Hfit]. destruct (Z.eqb_spec s STATE_QUEUED); [done|]. cbn [negb assert_ mbind option_bind].
      destruct (Z.eqb_spec s STATE_FREE); [by apply write_ok|].
      destruct Hfit as [?| ->]; [done|].
      destruct (lock_ok I k s b Hm0 Es) as (b1 & E & Hr & Hb & Hs). exists b1. split_and!; [done..|].
      intros q. rewrite Hb, Hs. destruct (decide (q = i_offset I + k)) as [->|]; done. }
  destruct Hstep as (b1 & -> & Hr1 & Hb1). cbn [mbind option_bind].
  destruct (IH (k + 1) b1 Hl) as (b' & -> & Hw).
  - by eapply run_fits_tail.
  - intros i Hi. eapply mapped_rewrites; [exact Hr1|].
    replace (i_offset I + (k + 1) + i) with (i_offset I + k + (i + 1)) by lia. apply Hm. lia.
  - exists b'. split; [done|]. by eapply run_cons.
Qed.

Lemma jump_state_frozen inside s :
  (inside = false → s ≠ STATE_FREE → s ≠ STATE_QUEUED) → frozen (jump_state inside s) = true.
Proof.
  intros Hq. unfold jump_state. destruct inside; [done|]. destruct (Z.eqb_spec s STATE_FREE); [done|].
  apply frozen_locked.
Qed.

(** A written run keeps what is frozen, and is frozen itself. *)
Lemma run_preserves I k l b b' :
  run_fits I k l b → run_written I k l b b' → preserves b b'.
Proof.
  intros Hf (Hr & Hout & Hin) q s Es Hs.
  destruct (decide (i_offset I + k <= q < i_offset I + k + blen l)) as [Hq|Hq].
  2: { destruct (Hout q) as [-> ->]; [lia|]. eauto. }
  pose proof (Z2Nat.id (q - i_offset I - k) ltac:(lia)) as Ei. set (i := Z.to_nat (q - i_offset I - k)) in *.
  assert (Hi : (i < List.length l)%nat) by (unfold blen in Hq; lia).
  apply lookup_lt_is_Some in Hi as [v Hv].
  destruct (Hf i v Hv) as (c & s' & Ec & Es' & Hfit). replace q with (i_offset I + k + Z.of_nat i) in * by lia.
  assert (s' = s) as -> by congruence. destruct (Hin i v s Hv Es) as [-> ->]. split.
  - rewrite Ec. f_equal. unfold fits in Hfit. unfold frozen in Hs. destruct (_ <? _).
    + destruct Hfit as [Hw|[_ ?]]; [|done]. rewrite Hw in Hs. done.
    + destruct Hfit as [_ [->|?]]; done.
  - eexists. split; [reflexivity|]. apply jump_state_frozen. intros Hin' Hfree.
    unfold fits in Hfit. rewrite Hin' in Hfit. by destruct Hfit.
Qed.

Lemma run_lookup I k l b b' q :
  run_fits I k l b → run_written I k l b b' → i_offset I + k <= q < i_offset I + k + blen l →
  ∃ v s, l !! Z.to_nat (q - i_offset I - k) = Some v ∧ state_at b q = Some s ∧
    byte_at b' q = Some v ∧ state_at b' q = Some (jump_state (q - i_offset I <? i_size I) s) ∧
    frozen (jump_state (q - i_offset I <? i_size I) s) = true.
Proof.
  intros Hf (_ & _ & Hin) Hq.
  pose proof (Z2Nat.id (q - i_offset I - k) ltac:(lia)) as Ei. set (i := Z.to_nat (q - i_offset I - k)) in *.
  assert (Hi : (i < List.length l)%nat) by (unfold blen in Hq; lia).
  apply lookup_lt_is_Some in Hi as [v Hv].
  destruct (Hf i v Hv) as (c & s & Ec & Es & Hfit). replace (i_offset I + k + Z.of_nat i) with q in * by lia.
  pose proof (Hin i v s Hv) as Hin'. replace (i_offset I + k + Z.of_nat i) with q in * by lia.
  replace (k + Z.of_nat i) with (q - i_offset I) in * by lia.
  destruct (Hin' Es) as [Eb Es']. exists v, s. split_and!; try done.
  apply jump_state_frozen. intros Hi' _. unfold fits in Hfit. rewrite Hi' in Hfit. by destruct Hfit.
Qed.

(** The jump from the offset [k] of an instruction to [dest]. *)
Definition jump_bytes I (k dest : Z) : bytes := 0xe9 :: imm32 (dest - (i_addr I + k + 5)).

Lemma jump_bytes_len I k dest : blen (jump_bytes I k dest) = 5.
Proof. unfold jump_bytes. rewrite blen_push, imm32_len. done. Qed.

Lemma imm32_ok z : bytes_ok (imm32 z).
Proof. apply le_bytes_ok. Qed.

(** Addresses so far from the ends of the 64-bit range that no distance wraps. *)
Definition addr_ok (a : Z) : Prop := - 2 ^ 60 <= a <= 2 ^ 60.

Lemma patch_jump_ok I k dest b :
  addr_ok (i_addr I) → 0 <= k < i_size I → k <= 27 →
  is_imm32 (dest - (i_addr I + k + 5)) = true →
  (∀ s, state_at b (i_offset I + k) = Some s → writable s = true) →
  run_fits I k (jump_bytes I k dest) b →
  (∀ i, 0 <= i < 5 → mapped b (i_offset I + k + i)) →
  ∃ b', patch_jump I dest k b = Some b' ∧ run_written I k (jump_bytes I k dest) b b'.
Proof.
  intros Ha Hk Hk27 Hd Hw Hf Hm. unfold addr_ok in Ha. unfold patch_jump, PATCH_MAX, JMP_SIZE.
  destruct (Z.leb_spec k (32 - 5)); [|lia]. destruct (Z.ltb_spec k (i_size I)); [|lia].
  cbn [andb assert_ mbind option_bind]. pose proof Hd as Hd'%between_spec.
  unfold INT32_MIN, INT32_MAX in Hd'. rewrite s64_small by lia. rewrite Hd. cbn [assert_ mbind option_bind].
  assert (Hm0 : mapped b (i_offset I + k)) by (rewrite <- (Z.add_0_r (i_offset I + k)); apply Hm; lia).
  destruct (state_mapped b _ Hm0) as [s Es]. unfold STATE. fold (state_at b (i_offset I + k)).
  rewrite Es. cbn [mbind option_bind]. rewrite (Hw s Es). cbn [assert_ mbind option_bind].
  destruct (write_ok I k 0xe9 STATE_PATCHED b Hm0) as (b1 & -> & Hr1 & Hb1); [by unfold byte_ok|].
  cbn [mbind option_bind].
  destruct (patch_rel32_ok I (imm32 (dest - (i_addr I + k + 5))) (k + 1) b1) as (b2 & -> & Hrun).
  - apply imm32_ok.
  - by eapply run_fits_tail.
  - intros i Hi. rewrite imm32_len in Hi. eapply mapped_rewrites; [exact Hr1|].
    replace (i_offset I + (k + 1) + i) with (i_offset I + k + (i + 1)) by lia. apply Hm. lia.
  - exists b2. split; [done|]. eapply run_cons; [exact Es|exact Hr1| |exact Hrun].
    intros q. destruct (Hb1 q) as [-> ->]. unfold jump_state.
    destruct (Z.ltb_spec k (i_size I)); [done|lia].
Qed.

(** ** Prefixes and unused bytes *)

Lemma patch_prefixes_ok I l : ∀ k b,
  bytes_ok l →
  (∀ i, 0 <= i < blen l → mapped b (i_offset I + k + i) ∧
        ∀ s, state_at b (i_offset I + k + i) = Some s → writable s = true) →
  ∃ b', patch_prefixes I k l b = Some b' ∧ rewrites b b' ∧
    (∀ q, q < i_offset I + k ∨ i_offset I + k + blen l <= q →
       byte_at b' q = byte_at b q ∧ state_at b' q = state_at b q) ∧
    (∀ i v, l !! i = Some v → byte_at b' (i_offset I + k + Z.of_nat i) = Some v ∧
                             state_at b' (i_offset I + k + Z.of_nat i) = Some STATE_PATCHED).
Proof.
  induction l as [|v l IH]; intros k b Hl Hm.
  { exists b. split; [done|]. split_and!; [apply rewrites_refl|done|]. by intros i w Hw. }
  apply Forall_cons in Hl as [Hv Hl]. rewrite blen_push in *. pose proof (blen_nonneg l).
  destruct (Hm 0) as [Hm0 Hw0]; [lia|]. rewrite Z.add_0_r in *.
  destruct (state_mapped b _ Hm0) as [s Es].
  cbn [patch_prefixes]. unfold STATE. fold (state_at b (i_offset I + k)). rewrite Es. cbn [mbind option_bind].
  rewrite (Hw0 s Es). cbn [assert_ mbind option_bind].
  destruct (write_ok I k v STATE_PATCHED b Hm0 Hv) as (b1 & -> & Hr1 & Hb1). cbn [mbind option_bind].
  destruct (IH (k + 1) b1 Hl) as (b2 & -> & Hr2 & Hout & Hin).
  { intros i Hi. destruct (Hm (i + 1)) as [Hmi Hwi]; [lia|].
    replace (i_offset I + (k + 1) + i) with (i_offset I + k + (i + 1)) by lia. split.
    - by eapply mapped_rewrites.
    - intros s'. destruct (Hb1 (i_offset I + k + (i + 1))) as [_ ->].
      rewrite decide_False by lia. apply Hwi. }
  exists b2. split_and!; [done|by eapply rewrites_trans| |].
  - intros q Hq. destruct (Hout q) as [-> ->]; [lia|]. destruct (Hb1 q) as [-> ->].
    by rewrite !decide_False by lia.
  - intros [|i] w Hw.
    + injection Hw as ->. change (Z.of_nat 0) with 0. rewrite Z.add_0_r.
      destruct (Hout (i_offset I + k)) as [-> ->]; [lia|]. destruct (Hb1 (i_offset I + k)) as [-> ->].
      by rewrite !decide_True by done.
    + cbn in Hw. replace (i_offset I + k + Z.of_nat (Datatypes.S i)) with (i_offset I + (k + 1) + Z.of_nat i) by lia.
      by apply Hin.
Qed.

(** The contents of a byte after [patchUnused]. *)
Definition freed_byte (v s : Z) : Z :=
  if (s =? STATE_INSTRUCTION) || (s =? STATE_QUEUED) then 0xcc else v.
Definition freed_state (s : Z) : Z :=
  if (s =? STATE_INSTRUCTION) || (s =? STATE_QUEUED) then STATE_FREE else s.

Lemma frozen_freed v s : frozen s = true → freed_byte v s = v ∧ freed_state s = s.
Proof.
  unfold frozen, writable, freed_byte, freed_state.
  by destruct (s =? STATE_INSTRUCTION), (s =? STATE_FREE), (s =? STATE_QUEUED).
Qed.

Lemma free_bytes_ok I n : ∀ k b,
  (∀ i, 0 <= i < Z.of_nat n → mapped b (i_offset I + k + i)) →
  ∃ b', free_bytes I k n b = Some b' ∧ rewrites b b' ∧
    ∀ q, if decide (i_offset I + k <= q < i_offset I + k + Z.of_nat n)
         then ∀ v s, byte_at b q = Some v → state_at b q = Some s →
              byte_at b' q = Some (freed_byte v s) ∧ state_at b' q = Some (freed_state s)
         else byte_at b' q = byte_at b q ∧ state_at b' q = state_at b q.
Proof.
  induction n as [|n IH]; intros k b Hm.
  { exists b. split_and!; [done|apply rewrites_refl|]. intros q. by rewrite decide_False by lia. }
  assert (Hm0 : mapped b (i_offset I + k)) by (rewrite <- (Z.add_0_r (i_offset I + k)); apply Hm; lia).
  destruct (state_mapped b _ Hm0) as [s Es]. destruct (byte_mapped b _ Hm0) as [v Ev].
  cbn [free_bytes]. unfold STATE. fold (state_at b (i_offset I + k)). rewrite Es. cbn [mbind option_bind].
  assert (Hstep : ∃ b1,
    (if (s =? STATE_INSTRUCTION) || (s =? STATE_QUEUED) then write I k 0xcc STATE_FREE b else Some b) =
      Some b1 ∧ rewrites b b1 ∧
    ∀ q, byte_at b1 q = (if decide (q = i_offset I + k) then Some (freed_byte v s) else byte_at b q) ∧
         state_at b1 q = (if decide (q = i_offset I + k) then Some (freed_state s) else state_at b q)).
  { unfold freed_byte, freed_state. destruct (_ || _).
    - by apply write_ok.
    - exists b. split_and!; [done|apply rewrites_refl|]. intros q. by destruct (decide _) as [->|]. }
  destruct Hstep as (b1 & -> & Hr1 & Hb1). cbn [mbind option_bind].
  destruct (IH (k + 1) b1) as (b2 & -> & Hr2 & Hq2).
  { intros i Hi. eapply mapped_rewrites; [exact Hr1|].
    replace (i_offset I + (k + 1) + i) with (i_offset I + k + (i + 1)) by lia. apply Hm. lia. }
  exists b2. split_and!; [done|by eapply rewrites_trans|]. intros q. specialize (Hq2 q).
  destruct (Hb1 q) as [Eb1 Es1]. destruct (decide (q = i_offset I + k)) as [->|Hne].
  - rewrite decide_True by lia. rewrite decide_False in Hq2 by lia. destruct Hq2 as [-> ->].
    intros v' s' Ev' Es'. rewrite Eb1, Es1. split; congruence.
  - destruct (decide (i_offset I + (k + 1) <= q < _)).
    + rewrite decide_True by lia. rewrite Eb1, Es1 in Hq2. done.
    + rewrite decide_False by lia. destruct Hq2 as [-> ->]. by rewrite Eb1, Es1.
Qed.

End Bytes.

(** ** The range of a punned jump *)

Lemma skip_while_spec fuel test l lim : ∀ pos,
  0 <= pos → lim <= blen l → lim - pos <= Z.of_nat fuel →
  safely (skip_while fuel test l lim pos) (λ p,
    pos <= p <= Z.max pos lim ∧ ∀ q, pos <= q < p → ∃ s, rd l q = Some s ∧ test s = true).
Proof.
  induction fuel as [|f IH]; intros pos Hp Hl Hf; cbn [skip_while];
    destruct (Z.leb_spec lim pos); try (cbn; split; [lia|intros; lia]); [lia|].
  destruct (rd_is_Some l pos) as [s Es]; [lia|]. rewrite Es. cbn [mbind option_bind].
  destruct (test s) eqn:Et; [|cbn; split; [lia|intros; lia]].
  eapply safely_mono; [apply IH; lia|]. intros p [H1 H2]. split; [lia|].
  intros q Hq. destruct (decide (q = pos)) as [->|]; [by eauto|]. apply H2. lia.
Qed.

(** The bytes of a little-endian integer. *)
Lemma le_bytes_lookup n : ∀ z i, (i < n)%nat → 0 <= z →
  le_bytes n z !! i = Some (z / 256 ^ Z.of_nat i mod 256).
Proof.
  induction n as [|n IH]; intros z [|i] Hi Hz; [lia|lia| |].
  - cbn. by rewrite Z.div_1_r.
  - cbn [le_bytes lookup list_lookup]. change (le_bytes n (z / 256) !! i = Some (z / 256 ^ Z.of_nat (S i) mod 256)).
    rewrite IH by (try lia; apply Z.div_pos; lia). do 2 f_equal.
    rewrite Z.div_div by (try lia; apply Z.pow_pos_nonneg; lia). f_equal.
    rewrite Nat2Z.inj_succ, Z.pow_succ_r by lia. lia.
Qed.

Lemma s32_cases x : 0 <= x < 2 ^ 32 →
  (x < 2 ^ 31 ∧ s32 x = x) ∨ (2 ^ 31 <= x ∧ s32 x = x - 2 ^ 32).
Proof.
  intros Hx. unfold wraps. change (2 ^ (32 - 1)) with (2 ^ 31). rewrite (Z.mod_small x) by lia.
  destruct (Z.ltb_spec x (2 ^ 31)); [left|right]; lia.
Qed.

(** The range that [makeBounds] computes from [u] for [diff] free bytes. *)
Definition punned_lo (u diff : Z) : Z := Z.land u (u32 (Z.shiftl 0xffffffff (8 * diff))).
Definition punned_hi (u diff : Z) : Z :=
  Z.lor (punned_lo u diff) (Z.land 0xffffffff (u32 (Z.lnot (u32 (Z.shiftl 0xffffffff (8 * diff)))))).

Lemma punned_lo_hi u diff :
  0 <= u < 2 ^ 32 → 0 <= diff < 4 →
  punned_lo u diff = u / 2 ^ (8 * diff) * 2 ^ (8 * diff) ∧
  punned_hi u diff = u / 2 ^ (8 * diff) * 2 ^ (8 * diff) + (2 ^ (8 * diff) - 1).
Proof.
  intros Hu Hd. unfold punned_hi. set (lo := punned_lo u diff). set (m := 8 * diff) in *.
  assert (Hlo : lo = u / 2 ^ m * 2 ^ m).
  { unfold lo, punned_lo. fold m. replace (u32 (Z.shiftl 0xffffffff m)) with (Z.shiftl (Z.ones (32 - m)) m).
    - rewrite land_field by (unfold m; lia). f_equal. apply Z.mod_small. split.
      + apply Z.div_pos; [lia|apply pow2_pos; unfold m; lia].
      + apply Z.div_lt_upper_bound; [apply pow2_pos; unfold m; lia|].
        rewrite <- Z.pow_add_r by (unfold m; lia). replace (m + (32 - m)) with 32 by lia. lia.
    - unfold m. assert (Hc : diff = 0 ∨ diff = 1 ∨ diff = 2 ∨ diff = 3) by lia.
      by destruct_or? Hc; subst diff. }
  split; [done|].
  replace (Z.land 0xffffffff _) with (2 ^ m - 1).
  - rewrite Hlo, Z.lor_comm, <- Z.shiftl_mul_pow2 by (unfold m; lia).
    rewrite (lor_add (2 ^ m - 1) _ m); [rewrite Z.shiftl_mul_pow2 by (unfold m; lia); lia|unfold m; lia|].
    pose proof (pow2_pos m ltac:(unfold m; lia)). lia.
  - unfold m. assert (Hc : diff = 0 ∨ diff = 1 ∨ diff = 2 ∨ diff = 3) by lia.
    by destruct_or? Hc; subst diff.
Qed.

(** The high bytes of a displacement in that range are those of [u]. *)
Lemma punned_high u diff d :
  0 <= u < 2 ^ 32 → 0 <= diff < 4 →
  (s32 (punned_lo u diff) <= d <= s32 (punned_hi u diff) ∨
   s32 (punned_hi u diff) <= d <= s32 (punned_lo u diff)) →
  is_imm32 d = true ∧ u32 d / 2 ^ (8 * diff) = u / 2 ^ (8 * diff).
Proof.
  intros Hu Hd. destruct (punned_lo_hi u diff Hu Hd) as [Hlo Hhi]. set (m := 8 * diff) in *.
  rewrite Hhi, Hlo. clear Hlo Hhi. intros Hr.
  assert (Hm : 2 ^ m = 1 ∨ 2 ^ m = 256 ∨ 2 ^ m = 65536 ∨ 2 ^ m = 16777216).
  { unfold m. assert (Hc : diff = 0 ∨ diff = 1 ∨ diff = 2 ∨ diff = 3) by lia.
    destruct_or? Hc; subst diff; vm_compute; auto. }
  clearbody m. clear Hd.
  assert (H1 : 0 <= u / 2 ^ m * 2 ^ m < 2 ^ 32) by (destruct_or? Hm; rewrite Hm; Z.to_euclidean_division_equations; lia).
  assert (H2 : 0 <= u / 2 ^ m * 2 ^ m + (2 ^ m - 1) < 2 ^ 32)
    by (destruct_or? Hm; rewrite Hm in *; Z.to_euclidean_division_equations; lia).
  pose proof (s32_cases _ H1) as C1. pose proof (s32_cases _ H2) as C2.
  assert (Hord : s32 (u / 2 ^ m * 2 ^ m) <= d <= s32 (u / 2 ^ m * 2 ^ m + (2 ^ m - 1))).
  { destruct_or? Hm; rewrite Hm in *; Z.to_euclidean_division_equations; lia. }
  clear Hr. split.
  { apply between_spec. unfold INT32_MIN, INT32_MAX. lia. }
  assert (Hu32 : u32 d = u / 2 ^ m * 2 ^ m + (d - s32 (u / 2 ^ m * 2 ^ m))).
  { destruct C1 as [[? E1]|[? E1]]; rewrite E1 in *.
    - rewrite wrapu_small; [lia|]. destruct_or? Hm; rewrite Hm in *; lia.
    - replace d with (d + 2 ^ 32 + -1 * 2 ^ 32) at 1 by lia. rewrite wrapu_eqm, wrapu_small; [lia|].
      destruct_or? Hm; rewrite Hm in *; lia. }
  rewrite Hu32. set (e := d - s32 (u / 2 ^ m * 2 ^ m)).
  assert (He : 0 <= e < 2 ^ m).
  { unfold e. destruct_or? Hm; rewrite Hm in *; Z.to_euclidean_division_equations; lia. }
  clearbody e. rewrite Z.add_comm, Z.div_add by (destruct_or? Hm; rewrite Hm; lia).
  rewrite (Z.div_small e) by lia. lia.
Qed.

Section Bounds.
Context `{W : Window} {S : Type} `{TR : Trampolines (Binary S)}
  `{VS : !VirtualSpace (Binary S) S}.
Context (opts : Options).
Implicit Types (b : Binary S) (I J : Instr) (j : iptr).

(** ** Where an instruction is *)

Record instr_ok b I : Prop := {
  io_offset : 0 < i_offset I;
  io_size : 1 <= i_size I <= 15;
  io_bytes : i_offset I + 64 <= blen (B_bytes b);
  io_state : i_offset I + 64 <= blen (B_state b);
  io_addr : addr_ok (i_addr I);
  io_orig : i_offset I + i_size I <= blen (B_orig b);
  io_pcrel : 0 <= i_pcrel32_idx I ∧ (i_pcrel32_idx I ≠ 0 → i_pcrel32_idx I + 4 <= i_size I) }.

Lemma mapped_near b I i : instr_ok b I → 0 <= i < 64 → mapped b (i_offset I + i).
Proof. intros Ho Hi. destruct Ho. unfold mapped. lia. Qed.

(** ** Steps 1 and 2 *)

(** The bytes of [rel32] that are free: inside of the instruction and writable, or after
    it and unused. *)
Definition free_run b I (k diff : Z) : Prop :=
  0 <= diff ∧
  ∀ i, 0 <= i < diff → ∃ s, state_at b (i_offset I + k + 1 + i) = Some s ∧
    if k + 1 + i <? i_size I then writable s = true else s = STATE_FREE.

Lemma rel32_diff_ok b I k :
  instr_ok b I → 0 <= k < i_size I → safely (rel32_diff I k b) (free_run b I k).
Proof.
  intros Ho Hk. pose proof (io_offset _ _ Ho). pose proof (io_size _ _ Ho). pose proof (io_state _ _ Ho).
  unfold rel32_diff. apply safely_bind. eapply safely_mono; [apply skip_while_spec; lia|].
  intros p [Hp1 Hp2]. cbn beta. apply safely_bind. eapply safely_mono; [apply skip_while_spec; lia|].
  intros r [Hr1 Hr2]. cbn beta. cbn [safely]. split; [lia|]. intros i Hi.
  destruct (Z.ltb_spec (i_offset I + k + 1 + i) p) as [Hlt|Hge].
  - destruct (Hp2 (i_offset I + k + 1 + i)) as (s & Es & Hw); [lia|]. exists s. split; [done|].
    destruct (Z.ltb_spec (k + 1 + i) (i_size I)); [done|]. lia.
  - destruct (Hr2 (i_offset I + k + 1 + i)) as (s & Es & Hw%Z.eqb_eq); [lia|]. exists s. split; [done|].
    destruct (_ <? _); [|done]. by subst s.
Qed.

(** The displacement [d] agrees with the bytes from the index [diff] on. *)
Definition agrees b I (k diff d : Z) : Prop :=
  ∀ i, (i < 4)%nat → diff <= Z.of_nat i →
    byte_at b (i_offset I + k + 1 + Z.of_nat i) = imm32 d !! i.

Lemma rd32_bytes l p w :
  rd32 l p = Some w → bytes_ok l → ∀ i, (i < 4)%nat →
  rd l (p + Z.of_nat i) = Some (w / 256 ^ Z.of_nat i mod 256).
Proof.
  unfold rd32, rd16. intros E Hl.
  destruct (rd l p) as [b0|] eqn:E0; [|done]. destruct (rd l (p + 1)) as [b1|] eqn:E1; [|done].
  cbn [mbind option_bind] in E.
  destruct (rd l (p + 2)) as [b2|] eqn:E2; [|done]. destruct (rd l (p + 2 + 1)) as [b3|] eqn:E3; [|done].
  cbn [mbind option_bind] in E. injection E as <-.
  pose proof (rd_byte _ _ _ Hl E0). pose proof (rd_byte _ _ _ Hl E1).
  pose proof (rd_byte _ _ _ Hl E2). pose proof (rd_byte _ _ _ Hl E3). unfold byte_ok in *.
  intros i Hi. destruct i as [|[|[|[|]]]]; [| | | |lia].
  - rewrite Z.add_0_r, E0. f_equal. change (256 ^ Z.of_nat 0) with 1. Z.to_euclidean_division_equations; lia.
  - change (Z.of_nat 1) with 1. rewrite E1. f_equal. change (256 ^ 1) with 256. Z.to_euclidean_division_equations; lia.
  - change (Z.of_nat 2) with 2. rewrite E2. f_equal. change (256 ^ 2) with 65536. Z.to_euclidean_division_equations; lia.
  - change (Z.of_nat 3) with 3. replace (p + 3) with (p + 2 + 1) by lia. rewrite E3. f_equal.
    change (256 ^ 3) with 16777216. Z.to_euclidean_division_equations; lia.
Qed.

Lemma rel32_range_ok b I k diff trap :
  instr_ok b I → bytes_ok (B_bytes b) → 0 <= k < i_size I → 0 <= diff →
  safely (rel32_range I k diff trap b) (λ r,
    ∀ d, (r.1 <= d <= r.2 ∨ r.2 <= d <= r.1) →
      is_imm32 d = true ∧ (trap = false → agrees b I k diff d)).
Proof.
  intros Ho Hb Hk Hd. pose proof (io_offset _ _ Ho). pose proof (io_size _ _ Ho). pose proof (io_bytes _ _ Ho).
  unfold rel32_range. destruct (_ || _) eqn:E.
  { cbn. intros d Hr. split; [apply between_spec; unfold INT32_MIN, INT32_MAX in *; lia|].
    intros ->. rewrite orb_false_r in E. intros i Hi Hge. lia. }
  apply orb_false_iff in E as [Hd4%Z.leb_gt ->].
  pose proof (safely_rd32 (B_bytes b) (i_offset I + k + 1) Hb ltac:(lia) ltac:(lia)) as Hu.
  destruct (rd32 _ _) as [u|] eqn:Eu; [|done]. cbn [safely] in Hu. cbn [mbind option_bind safely fst snd].
  intros d Hr. destruct (punned_high u diff d Hu ltac:(lia) Hr) as [Hd32 Hhigh]. split; [done|]. intros _.
  intros i Hi Hge. unfold byte_at. rewrite (rd32_bytes _ _ _ Eu Hb i Hi).
  unfold imm32. rewrite le_bytes_lookup by (try lia; apply wrapu_range; lia). f_equal.
  replace (256 ^ Z.of_nat i) with (2 ^ (8 * diff) * 2 ^ (8 * (Z.of_nat i - diff))).
  - rewrite <- !Z.div_div by (try apply pow2_pos; try lia; pose proof (pow2_pos (8 * diff) ltac:(lia)); lia).
    by rewrite Hhigh.
  - rewrite <- Z.pow_add_r by lia. change 256 with (2 ^ 8). rewrite <- Z.pow_mul_r by lia. f_equal. lia.
Qed.

(** ** The bounds *)

(** What [makeBounds] guarantees of a jump to [dest]. *)
Definition in_bounds (bd : Bounds) (dest : Z) : Prop := b_lb bd <= dest <= b_ub bd.

Definition bounds_ok b I (k : Z) (trap : bool) (bd : Bounds) : Prop :=
  i_addr I + k + 5 - 2 ^ 31 <= b_lb bd ∧ - 2 ^ 63 <= b_ub bd <= i_addr I + k + 5 + 2 ^ 31 ∧
  ∀ dest, in_bounds bd dest →
    is_imm32 (dest - (i_addr I + k + 5)) = true ∧
    (trap = false → ∃ diff, free_run b I k diff ∧ agrees b I k diff (dest - (i_addr I + k + 5))).

Lemma pcrel_target_ok b I : instr_ok b I → bytes_ok (B_orig b) → safely (pcrel_target I b) (λ _, True).
Proof.
  intros Ho Hb. destruct Ho as [H1 H2 H3 H4 H5 H6 [H7 H8]]. unfold pcrel_target, ORIG.
  assert (Hl : blen (at_off (B_orig b) (i_offset I)) = blen (B_orig b) - i_offset I) by (apply blen_at_off; lia).
  destruct (_ || _); [|done]. apply safely_bind. destruct (Z.eqb_spec (i_pcrel32_idx I) 0) as [E|E]; cbn [negb].
  - apply safely_bind, safely_rd; [lia|]. by intros d _.
  - apply safely_bind. eapply safely_mono; [apply safely_rd32; [by apply at_off_ok|lia|lia]|]. by intros d _.
Qed.

Lemma makeBounds_ok T j (J : iptr) k trap b I :
  instr b j = Some I → instr_ok b I → bytes_ok (B_bytes b) → bytes_ok (B_orig b) →
  (∃ t, getTrampolineBounds b T (Some J) = Some t ∧ - 2 ^ 63 <= b_ub t) →
  - 2 ^ 63 <= option_mem_ub opts →
  0 <= k < i_size I → safely (makeBounds opts T j J k trap b) (bounds_ok b I k trap).
Proof.
  intros EI Ho Hb Hor (t & Et & Ht) Hmem Hk. unfold makeBounds. rewrite EI. cbn [mbind option_bind].
  pose proof (io_size _ _ Ho). pose proof (io_addr _ _ Ho) as Ha. unfold addr_ok in Ha.
  destruct (Z.ltb_spec k (i_size I)); [|lia]. cbn [orb assert_ mbind option_bind].
  apply safely_bind. eapply safely_mono; [by apply rel32_diff_ok|]. intros diff Hdiff. cbn beta.
  apply safely_bind. eapply safely_mono; [apply rel32_range_ok; try done; apply Hdiff|].
  intros [lo hi] Hr. cbn [fst snd] in Hr. rewrite Et. cbn [mbind option_bind].
  apply safely_bind. eapply safely_mono; [by apply pcrel_target_ok|]. intros tgt _. cbn [safely].
  unfold JMP_SIZE. rewrite (s64_small (i_addr I + k + 5)) by lia.
  set (from := i_addr I + k + 5) in *.
  destruct (Hr lo) as [Hlo%between_spec _]; [lia|]. destruct (Hr hi) as [Hhi%between_spec _]; [lia|].
  unfold INT32_MIN, INT32_MAX, TRAMPOLINE_MAX in *.
  rewrite (s64_small (from + lo)), (s64_small (from + hi)) by (unfold from; lia).
  rewrite (s64_small (from - (2 ^ 31 - 1))), (s64_small (from - - 2 ^ 31)) by (unfold from; lia).
  rewrite (s64_small (from - - 2 ^ 31 - 4096)) by (unfold from; lia).
  set (lb := Z.max _ _). set (ub := match B_mode b with MODE_ELF_EXE => _ | _ => _ end).
  assert (Hlb : Z.max (Z.min (from + lo) (from + hi)) (from - (2 ^ 31 - 1)) <= lb)
    by (unfold lb; destruct tgt; lia).
  assert (Hub : ub <= Z.min (Z.max (from + lo) (from + hi)) (from - - 2 ^ 31 - 4096))
    by (unfold ub; destruct (B_mode b), tgt; lia).
  assert (Hub' : - 2 ^ 63 <= ub).
  { pose proof (λ z, wraps_range 64 z ltac:(lia)) as Hw. unfold ub.
    clear - Hw Ht Hmem Ha Hlo Hhi H Hk.
    destruct (B_mode b), tgt; repeat apply Z.min_glb; try apply Hw; try done; unfold from; lia. }
  split_and!; cbn [b_lb b_ub]; [lia|lia|lia|]. intros dest [Hd1 Hd2]. cbn [b_lb b_ub] in *.
  destruct (Hr (dest - from)) as [Hd Hag]; [lia|]. split; [done|].
  intros ->. exists diff. auto.
Qed.

(** A byte run that [makeBounds] allows fits. *)
Lemma jump_fits b I k dest diff :
  instr_ok b I → 0 <= k < i_size I →
  free_run b I k diff → agrees b I k diff (dest - (i_addr I + k + 5)) →
  (* nothing queued, and nothing locked in the rest of the instruction *)
  (∀ i s, 0 <= i < 5 → state_at b (i_offset I + k + i) = Some s → s ≠ STATE_QUEUED) →
  (∀ i s, 0 <= i → k + i < i_size I → state_at b (i_offset I + k + i) = Some s →
     writable s = true ∨ s = STATE_PATCHED ∨ s = STATE_QUEUED) →
  (∀ s, state_at b (i_offset I + k) = Some s → writable s = true) →
  run_fits I k (jump_bytes I k dest) b.
Proof.
  intros Ho Hk [_ Hfree] Hag Hq Hsoft Hw0 i v Hv. pose proof (io_size _ _ Ho).
  assert (Hi : (i < 5)%nat).
  { apply lookup_lt_Some in Hv. pose proof (jump_bytes_len I k dest) as Hl. unfold blen in Hl. lia. }
  pose proof (mapped_near b I (k + Z.of_nat i) Ho ltac:(lia)) as Hm. rewrite Z.add_assoc in Hm.
  destruct (state_mapped _ _ Hm) as [s Es]. destruct (byte_mapped _ _ Hm) as [c Ec].
  exists c, s. split_and!; [done..|]. destruct i as [|i].
  { change (Z.of_nat 0) with 0 in *. rewrite Z.add_0_r in *. unfold fits.
    destruct (Z.ltb_spec k (i_size I)); [|lia]. left. by apply Hw0. }
  change (imm32 (dest - (i_addr I + k + 5)) !! i = Some v) in Hv. replace (i_offset I + k + Z.of_nat (Datatypes.S i)) with (i_offset I + k + 1 + Z.of_nat i) in * by lia.
  assert (Hnq : s ≠ STATE_QUEUED).
  { apply (Hq (1 + Z.of_nat i) s); [lia|]. by rewrite Z.add_assoc. }
  destruct (Z.ltb_spec (Z.of_nat i) diff) as [Hlt|Hge].
  - destruct (Hfree (Z.of_nat i)) as (s' & Es' & Hs'); [lia|]. assert (s' = s) as -> by congruence.
    replace (k + Z.of_nat (Datatypes.S i)) with (k + 1 + Z.of_nat i) by lia.
    unfold fits. destruct (_ <? _); [by left|]. split; [done|by left].
  - assert (c = v) as ->. { rewrite (Hag i ltac:(lia) ltac:(lia)), Hv in Ec. by injection Ec. }
    unfold fits. destruct (Z.ltb_spec (k + Z.of_nat (Datatypes.S i)) (i_size I)); [|by split; [|right]].
    destruct (Hsoft (1 + Z.of_nat i) s) as [?|[?|?]]; [lia|lia|by rewrite Z.add_assoc|by left|by right|done].
Qed.

Lemma any_queued_ok b I k n :
  (∀ i, 0 <= i < Z.of_nat n → mapped b (i_offset I + k + i)) →
  safely (any_queued I k n b) (λ r, r = false →
    ∀ i s, 0 <= i < Z.of_nat n → state_at b (i_offset I + k + i) = Some s → s ≠ STATE_QUEUED).
Proof.
  revert k. induction n as [|n IH]; intros k Hm; cbn [any_queued]; [cbn; intros _ i s Hi; lia|].
  destruct (state_mapped b (i_offset I + k)) as [s0 Es0].
  { rewrite <- (Z.add_0_r (i_offset I + k)). apply Hm. lia. }
  unfold STATE. fold (state_at b (i_offset I + k)). rewrite Es0. cbn [mbind option_bind].
  destruct (Z.eqb_spec s0 STATE_QUEUED); [done|].
  eapply safely_mono; [apply IH|].
  { intros i Hi. replace (i_offset I + (k + 1) + i) with (i_offset I + k + (i + 1)) by lia. apply Hm. lia. }
  intros r Hr Er i s Hi Es. destruct (decide (i = 0)) as [->|].
  - rewrite Z.add_0_r in Es. congruence.
  - apply (Hr Er (i - 1) s); [lia|]. by replace (i_offset I + (k + 1) + (i - 1)) with (i_offset I + k + i) by lia.
Qed.

End Bounds.

End TacticsMem.
