(* ===== verification/E9TacticsSpec.v ===== *)
(** * E9TacticsSpec: the tactics are correct

    The invariant of a partly patched binary, and the effect of each tactic of
    src/src/e9patch/e9tactics.cpp: a tactic that fails restores the binary, and a tactic
    that succeeds installs a jump to the trampoline, keeps the bytes of all patches
    before it, and keeps the invariant. *)

From stdpp Require Import gmap.
From S2P Require Import Prelude E9Patch E9Alloc E9AllocTree E9AllocSpec E9AllocApi E9X86 E9Tactics E9TacticsMem.

Module TacticsSpec.
Import E9 E9Alloc AllocTree AllocSpec AllocApi E9X86 E9Tactics TacticsMem.

(** ** Instructions but for their flags *)

Definition clear (I : Instr) : Instr :=
  set_i_is_patched false (set_i_is_evicted false (set_i_no_optimize false I)).

(** The flags that the constructor of [Patch] sets. *)
Definition flag (evicts : bool) (I : Instr) : Instr :=
  let I := set_i_is_patched true I in if evicts then set_i_is_evicted true I else I.

Lemma clear_flag e I : clear (flag e I) = clear I.
Proof. by destruct I, e. Qed.

Lemma clear_fields I I' :
  clear I' = clear I →
  i_offset I' = i_offset I ∧ i_size I' = i_size I ∧ i_addr I' = i_addr I ∧
  i_pcrel32_idx I' = i_pcrel32_idx I ∧ i_pcrel8_idx I' = i_pcrel8_idx I ∧
  i_target I' = i_target I ∧ i_T I' = i_T I.
Proof. destruct I, I'. unfold clear. cbn. intros [=]. by subst. Qed.

Lemma insert_clear (Is : gmap iptr Instr) j I I' :
  Is !! j = Some I → clear I' = clear I → clear <$> <[j := I']> Is = clear <$> Is.
Proof.
  intros E Hc. rewrite fmap_insert, Hc. apply insert_id. by rewrite lookup_fmap, E.
Qed.

(** The global variables that the tactics read. *)
Class Setup := { opts : Options; evicteeTrampoline : ptr }.

(** What the tactics rely on: trampolines are not larger than [TRAMPOLINE_MAX], and the
    window of the allocator is larger than the range of the instructions. *)
Class Contract `{W : Window} {S : Type} `{TR : Trampolines (Binary S)} `{ST : Setup} : Prop := {
  ct_sizes (b : Binary S) T J : ∃ pre tmp,
    getTrampolinePrologueSize b J = Some pre ∧ getTrampolineSize b T J = Some tmp ∧
    0 <= pre ∧ 0 < tmp ∧ pre + tmp <= TRAMPOLINE_MAX;
  ct_bounds (b : Binary S) T J :
    ∃ t, getTrampolineBounds b T J = Some t ∧ - 2 ^ 63 <= b_ub t;
  ct_mem : - 2 ^ 63 <= option_mem_ub opts;
  ct_window : wlo <= - 2 ^ 60 - 2 ^ 33 ∧ 2 ^ 60 + 2 ^ 33 <= whi;
  ct_order : option_Oorder opts = true → wlo <= order_target }.

Section Spec.
Context `{W : Window} {S : Type} `{TR : Trampolines (Binary S)}
  `{VS : !VirtualSpace (Binary S) S}.
Context {ST : Setup}.
Implicit Types (b : Binary S) (I K : Instr) (j : iptr).

Context {CT : Contract}.

Definition live b l : Prop := vs_live (B_space b) l.

(** ** The relation between binaries before and after *)

Record evolves b b' : Prop := {
  ev_mode : B_mode b' = B_mode b;
  ev_lb : B_lb b' = B_lb b;
  ev_ub : B_ub b' = B_ub b;
  ev_cursor : B_cursor b' = B_cursor b;
  ev_orig : B_orig b' = B_orig b;
  ev_Is : clear <$> B_Is b' = clear <$> B_Is b;
  ev_bytes : blen (B_bytes b') = blen (B_bytes b);
  ev_state : blen (B_state b') = blen (B_state b);
  ev_bytes_ok : bytes_ok (B_bytes b) → bytes_ok (B_bytes b');
  ev_Ts : B_Ts b ⊆ B_Ts b';
  ev_Traps : B_Traps b ⊆ B_Traps b' }.

Lemma evolves_refl b : evolves b b.
Proof. by split. Qed.

Lemma evolves_trans b1 b2 b3 : evolves b1 b2 → evolves b2 b3 → evolves b1 b3.
Proof. intros [] []. split; try congruence; [auto|by etrans|by etrans]. Qed.

Lemma rewrites_evolves b b' : rewrites b b' → evolves b b'.
Proof. intros (bs & st & -> & E1 & E2 & Hb). destruct b. by split. Qed.

Lemma space_evolves s b : evolves b (set_B_space s b).
Proof. by destruct b. Qed.

Lemma Is_evolves b j I I' :
  instr b j = Some I → clear I' = clear I → evolves b (set_B_Is (<[j := I']> (B_Is b)) b).
Proof. intros E Hc. destruct b. split; try done. cbn in *. by eapply insert_clear. Qed.

Lemma evolves_instr b b' j I :
  evolves b b' → instr b j = Some I → ∃ I', instr b' j = Some I' ∧ clear I' = clear I.
Proof.
  intros He E. pose proof (f_equal (λ m : gmap iptr Instr, m !! j) (ev_Is _ _ He)) as Hj. cbn beta in Hj.
  unfold instr in *. rewrite !lookup_fmap, E in Hj. destruct (B_Is b' !! j) as [I'|]; [|done].
  change (Some (clear I') = Some (clear I)) in Hj. apply (inj Some) in Hj. by exists I'.
Qed.

Lemma evolves_instr_back b b' j I' :
  evolves b b' → instr b' j = Some I' → ∃ I, instr b j = Some I ∧ clear I' = clear I.
Proof.
  intros He E. pose proof (f_equal (λ m : gmap iptr Instr, m !! j) (ev_Is _ _ He)) as Hj. cbn beta in Hj.
  unfold instr in *. rewrite !lookup_fmap, E in Hj. destruct (B_Is b !! j) as [I|]; [|done].
  change (Some (clear I') = Some (clear I)) in Hj. apply (inj Some) in Hj. by exists I.
Qed.

Lemma instr_ok_evolves b b' I I' :
  evolves b b' → clear I' = clear I → instr_ok b I → instr_ok b' I'.
Proof.
  intros He Hc []. destruct (clear_fields _ _ Hc) as (E1 & E2 & E3 & E4 & _).
  split; rewrite ?E1, ?E2, ?E3, ?E4, ?(ev_bytes _ _ He), ?(ev_state _ _ He), ?(ev_orig _ _ He); done.
Qed.

(** The two arrays are the same from [lo] to [hi]. *)
Definition same_in b b' (lo hi : Z) : Prop :=
  ∀ q, lo <= q < hi → byte_at b' q = byte_at b q ∧ state_at b' q = state_at b q.

(** They are the same outside of [lo .. hi]. *)
Definition same_out b b' (lo hi : Z) : Prop :=
  ∀ q, q < lo ∨ hi <= q → byte_at b' q = byte_at b q ∧ state_at b' q = state_at b q.

Lemma same_out_trans b1 b2 b3 lo hi :
  same_out b1 b2 lo hi → same_out b2 b3 lo hi → same_out b1 b3 lo hi.
Proof. intros H1 H2 q Hq. destruct (H1 q Hq), (H2 q Hq). split; congruence. Qed.

Lemma same_out_mono b b' lo hi lo' hi' :
  same_out b b' lo hi → lo' <= lo → hi <= hi' → same_out b b' lo' hi'.
Proof. intros Hs ? ? q Hq. apply Hs. lia. Qed.

(** [b] with another state of the allocator, for the allocations [l]. *)
Definition restored b l b' : Prop := ∃ s, b' = set_B_space s b ∧ vs_live s l.

Lemma restored_refl b l : live b l → restored b l b.
Proof. exists (B_space b). by destruct b. Qed.

Lemma restored_trans b l b1 l1 b2 : restored b l b1 → restored b1 l1 b2 → restored b l1 b2.
Proof. intros (s & -> & _) (s' & -> & Hl). exists s'. by destruct b. Qed.

Lemma restored_live b l b' : restored b l b' → live b' l.
Proof. intros (s & -> & Hl). by destruct b. Qed.

(** ** Allocation *)

Lemma allocate_in_ok bd (T : option ptr) (J : iptr) b l a0 :
  live b l → - 2 ^ 60 - 32 <= a0 <= 2 ^ 60 + 32 →
  a0 - 2 ^ 31 <= b_lb bd →
  - 2 ^ 63 <= b_ub bd <= a0 + 2 ^ 31 →
  safely (allocate_in opts bd T J b) (λ '(r, b'),
    match r with
    | None => restored b l b'
    | Some A => ∃ l1 a l2, l = l1 ++ l2 ∧ restored b (l1 ++ (A, a) :: l2) b' ∧
        a_T a = T ∧ in_bounds bd (a_lb a + a_entry a)
    end).
Proof.
  intros Hl Ha Hlo Hhi. unfold allocate_in.
  destruct (vs_step (option_Oorder opts) (B_space b) l
    (Allocate b (b_lb bd) (b_ub bd) T (Some J) (negb (option_mem_multi_page opts))) Hl)
    as (r & s & l' & -> & Hs & Hl').
  { cbn. intros Hver. pose proof ct_window as Hwin. pose proof ct_order as Horder. destruct (ct_sizes b T (Some J)) as (pre & tmp & E1 & E2 & H1 & H2 & H3).
    exists pre, tmp. split_and!; [done..|]. intros _.
    assert (Hle : b_lb bd <= b_ub bd + 4096).
    { unfold verify in Hver. destruct (Z.ltb_spec (s64 (b_ub bd + TRAMPOLINE_MAX)) (b_lb bd)) as [|Hge]; [done|].
      unfold TRAMPOLINE_MAX in *. rewrite s64_small in Hge by lia. lia. }
    unfold admissible, request, size_ok, TRAMPOLINE_MAX, PAGE_SIZE in *. split_and!; try lia; done. }
  cbn [mbind option_bind]. inversion Hs; subst; cbn [safely].
  - eexists _, _, _. split; [done|]. split; [by exists s|].
    match goal with Hx : serves _ _ _ _ _ _ _ _ |- _ => destruct Hx as (S1 & S2 & S3 & S4 & S5 & S6 & _) end.
    split; [done|]. unfold in_bounds. lia.
  - by exists s.
  - by exists s.
  - by exists s.
Qed.

(** ** The layout of the instructions *)

Definition T0_FLAGS : Z := Z.lor CFT_CALL (Z.lor CFT_RET CFT_JMP).

(** The instructions are sorted and do not overlap, neighbours are at the same distance
    in the file and in memory, and no instruction consists of prefixes only. *)
Record layout b : Prop := {
  la_instr : ∀ j I, instr b j = Some I → instr_ok b I;
  la_sorted : ∀ j k I K, j < k → instr b j = Some I → instr b k = Some K →
    i_offset I + i_size I <= i_offset K ∧ i_addr I + i_size I <= i_addr K;
  la_near : ∀ j k I K, j < k → instr b j = Some I → instr b k = Some K →
    i_addr K - i_addr I < 256 → i_addr K - i_addr I = i_offset K - i_offset I;
  la_bytes : bytes_ok (B_bytes b);
  la_orig : bytes_ok (B_orig b);
  la_cft : ∀ j I, instr b j = Some I → is_Some (isCFT (ORIG b I) (i_size I) T0_FLAGS);
  la_evictee : evicteeTrampoline ∈ dom (B_Ts b) }.

Lemma layout_evolves b b' : evolves b b' → layout b → layout b'.
Proof.
  intros He [H1 H2 H3 H4 H5 H6 H7]. split.
  - intros j I' E. destruct (evolves_instr_back _ _ _ _ He E) as (I & E' & Hc).
    eapply instr_ok_evolves; eauto.
  - intros j k I' K' Hjk E1 E2. destruct (evolves_instr_back _ _ _ _ He E1) as (I & E1' & Hc1).
    destruct (evolves_instr_back _ _ _ _ He E2) as (K & E2' & Hc2).
    destruct (clear_fields _ _ Hc1) as (-> & -> & -> & _). destruct (clear_fields _ _ Hc2) as (-> & _ & -> & _). eauto.
  - intros j k I' K' Hjk E1 E2. destruct (evolves_instr_back _ _ _ _ He E1) as (I & E1' & Hc1).
    destruct (evolves_instr_back _ _ _ _ He E2) as (K & E2' & Hc2).
    destruct (clear_fields _ _ Hc1) as (-> & _ & -> & _). destruct (clear_fields _ _ Hc2) as (-> & _ & -> & _). eauto.
  - by apply (ev_bytes_ok _ _ He).
  - by rewrite (ev_orig _ _ He).
  - intros j I' E. destruct (evolves_instr_back _ _ _ _ He E) as (I & E' & Hc).
    destruct (clear_fields _ _ Hc) as (Eo & -> & _). unfold ORIG. rewrite (ev_orig _ _ He), Eo. eauto.
  - by apply (subseteq_dom _ _ (ev_Ts _ _ He)).
Qed.

(** ** Allocating a punned jump *)

(** The jump from the offset [k] of [I] to [dest] agrees with the bytes that it may not
    overwrite. *)
Definition jump_allowed b I (k dest : Z) : Prop :=
  is_imm32 (dest - (i_addr I + k + 5)) = true ∧
  (∃ diff, free_run b I k diff ∧ agrees b I k diff (dest - (i_addr I + k + 5))) ∧
  ∀ i s, 0 <= i < 5 → state_at b (i_offset I + k + i) = Some s → s ≠ STATE_QUEUED.

(** The outcome of an allocation for [T]. *)
Definition allocated b l (T : option ptr) (P : Z → Prop) (r : option ptr * Binary S) : Prop :=
  match r with
  | (None, b') => restored b l b'
  | (Some A, b') => ∃ l1 a l2, l = l1 ++ l2 ∧ restored b (l1 ++ (A, a) :: l2) b' ∧
      a_T a = T ∧ P (a_lb a + a_entry a)
  end.

Lemma bounds_range b I k : layout b → instr_ok b I → 0 <= k < i_size I →
  - 2 ^ 60 - 32 <= i_addr I + k + 5 <= 2 ^ 60 + 32.
Proof. intros _ Ho Hk. pose proof (io_addr _ _ Ho) as Ha. pose proof (io_size _ _ Ho). unfold addr_ok in Ha. lia. Qed.

Lemma punned_ok j k (J : iptr) T b l I :
  layout b → live b l → instr b j = Some I → 0 <= k < i_size I →
  safely (allocatePunnedJump opts j k J T b) (allocated b l T (jump_allowed b I k)).
Proof.
  intros HL Hl EI Hk. pose proof (la_instr _ HL _ _ EI) as Ho. pose proof (io_size _ _ Ho).
  unfold allocatePunnedJump. rewrite EI. cbn [mbind option_bind].
  apply safely_bind. eapply safely_mono; [apply any_queued_ok|].
  { intros i Hi. rewrite <- Z.add_assoc. apply mapped_near; [done|lia]. }
  intros q Hq. cbn beta. destruct q; [by apply restored_refl|].
  apply safely_bind. eapply safely_mono.
  { eapply (makeBounds_ok opts T j J k false b I EI); try done; [apply HL|apply HL|apply ct_bounds|apply ct_mem]. }
  intros bd (Hlo & [Hmin Hhi] & Hbd). cbn beta.
  eapply safely_mono; [apply (allocate_in_ok bd T J b l (i_addr I + k + 5)); [done|by eapply bounds_range|lia|lia]|].
  intros [[A|] b'] Hr; [|done]. destruct Hr as (l1 & a & l2 & -> & Hr & HT & Hin).
  exists l1, a, l2. split_and!; [done..|]. destruct (Hbd _ Hin) as [H1 H2]. split_and!; [done|by apply H2|].
  intros i s Hi. apply (Hq eq_refl). lia.
Qed.

Lemma trap_ok j T b l I :
  layout b → live b l → instr b j = Some I →
  safely (allocateTrap opts j T b) (allocated b l T (λ _, True)).
Proof.
  intros HL Hl EI. pose proof (la_instr _ HL _ _ EI) as Ho. pose proof (io_size _ _ Ho).
  unfold allocateTrap. apply safely_bind. eapply safely_mono.
  { eapply (makeBounds_ok opts T j j 0 true b I EI); try done; [apply HL|apply HL|apply ct_bounds|apply ct_mem|lia]. }
  intros bd (Hlo & [Hmin Hhi] & Hbd). cbn beta.
  eapply safely_mono; [apply (allocate_in_ok bd T j b l (i_addr I + 0 + 5)); [done|eapply bounds_range; [done..|lia]|lia|lia]|].
  intros [[A|] b'] Hr; [|done]. destruct Hr as (l1 & a & l2 & -> & Hr & HT & Hin). by exists l1, a, l2.
Qed.

(** ** Making and undoing a patch *)

(** [p] holds the original contents of its instruction [I]. *)
Definition saved (p : Patch) b I : Prop :=
  instr b (p_I p) = Some I ∧ o_is_patched (p_original p) = i_is_patched I ∧
  rdn (B_state b) (i_offset I) PATCH_MAX = Some (o_state (p_original p)) ∧
  rdn (B_bytes b) (i_offset I) PATCH_MAX = Some (o_bytes (p_original p)).

(** The trampoline of the allocation, if any, is the evictee trampoline. *)
Definition evicting (a : option Alloc) : bool :=
  match a with None => false | Some a => bool_decide (a_T a = Some evicteeTrampoline) end.

Lemma new_Patch_ok j t b l I (A : option (ptr * Alloc)) :
  layout b → live b l → instr b j = Some I → (∀ x, A = Some x → x ∈ l) →
  ∃ p, new_Patch evicteeTrampoline j t (fst <$> A) b =
       Some (p, set_B_Is (<[j := flag (evicting (snd <$> A)) I]> (B_Is b)) b) ∧
    saved p b I ∧ p_A p = fst <$> A ∧ p_I p = j ∧ p_tactic p = t.
Proof.
  intros HL Hl EI HA. destruct (la_instr _ HL _ _ EI). unfold new_Patch. rewrite EI. cbn [mbind option_bind].
  destruct (rdn_is_Some (B_state b) (i_offset I) PATCH_MAX) as [st Est]; [unfold PATCH_MAX; lia..|].
  destruct (rdn_is_Some (B_bytes b) (i_offset I) PATCH_MAX) as [bs Ebs]; [unfold PATCH_MAX; lia..|].
  rewrite Est, Ebs. cbn [mbind option_bind].
  exists (MkPatch (fst <$> A) j t (MkOriginal (i_is_patched I) st bs)).
  assert (Hp : saved (MkPatch (fst <$> A) j t (MkOriginal (i_is_patched I) st bs)) b I)
    by (by split_and!).
  destruct A as [[A a]|]; cbn [fmap option_fmap option_map fst snd].
  - unfold alloc_of. rewrite (vs_get_live _ _ _ _ Hl (HA _ eq_refl)). cbn [mbind option_bind].
    unfold upd_instr. rewrite EI. cbn [mbind option_bind]. unfold flag, evicting.
    destruct (bool_decide _); [|done].
    assert (E1 : instr (set_B_Is (<[j := set_i_is_patched true I]> (B_Is b)) b) j = Some (set_i_is_patched true I))
      by (destruct b; apply lookup_insert_eq).
    rewrite E1. cbn [mbind option_bind]. split; [|done]. do 2 f_equal. destruct b; cbn. by rewrite insert_insert_eq.
  - unfold upd_instr. rewrite EI. done.
Qed.

Lemma wrn_window (l1 l2 : bytes) off n w :
  rdn l1 off n = Some w → blen l2 = blen l1 →
  (∀ q, q < off ∨ off + n <= q → rd l2 q = rd l1 q) → wrn l2 off w = Some l1.
Proof.
  intros Hw El Hout. pose proof (rdn_len _ _ _ _ Hw) as Lw.
  pose proof Hw as (H1 & H2 & H3 & _)%rdn_Some.
  destruct (wrn_is_Some l2 off w) as [l3 E]; [lia..|]. rewrite E. f_equal.
  pose proof (wrn_len _ _ _ _ E) as L3. apply bytes_eq; [lia|]. intros q Hq.
  destruct (decide (off <= q < off + n)).
  - rewrite (rd_wrn_in _ _ _ _ q E) by lia. rewrite (rd_rdn _ _ _ _ (q - off) Hw) by lia. f_equal. lia.
  - rewrite (rd_wrn_out _ _ _ _ q E) by lia. apply Hout. lia.
Qed.

Lemma dealloc_ok b l l1 A a l2 :
  live b l → l = l1 ++ (A, a) :: l2 → a_T a ≠ None →
  ∃ b', deallocate_ opts (Some A) b = Some b' ∧ restored b (l1 ++ l2) b'.
Proof.
  intros Hl -> HT. unfold deallocate_.
  destruct (vs_step (option_Oorder opts) (B_space b) _ (Deallocate (Some A)) Hl) as (r & s & l' & -> & Hs & Hl').
  { exists a. split; [|done]. apply elem_of_app. right. by left. }
  cbn [mbind option_bind]. eexists. split; [reflexivity|]. exists s. split; [done|].
  inversion Hs as [| | | | | | |l1' n a' l2' E HT']; subst.
  destruct (vs_disjoint _ _ Hl) as [_ Hnd].
  assert (l1' = l1 ∧ l2' = l2) as [-> ->]; [|done].
  assert (HA : (A, a') ∈ l1 ++ (A, a) :: l2) by (rewrite E; apply elem_of_app; right; by left).
  clear - Hnd E. revert l1' E Hnd. induction l1 as [|x l1 IH]; intros [|x' l1'] E Hnd.
  - injection E as _ ->. done.
  - injection E as <- E. cbn in Hnd. apply NoDup_cons in Hnd as [Hn _]. destruct Hn.
    rewrite E, fmap_app. apply elem_of_app. right. by left.
  - injection E as -> E. cbn in Hnd. apply NoDup_cons in Hnd as [Hn _]. destruct Hn.
    rewrite fmap_app. apply elem_of_app. right. by left.
  - injection E as <- E. cbn in Hnd. apply NoDup_cons in Hnd as [_ Hnd].
    destruct (IH l1' E Hnd) as [-> ->]. done.
Qed.

(** [b1] is [b] with changes at the instruction [j], whose flags are now those of [f]. *)
Definition modified b b1 j (f : Instr) : Prop :=
  ∃ s bs st,
    b1 = set_B_space s (set_B_state st (set_B_bytes bs (set_B_Is (<[j := f]> (B_Is b)) b))) ∧
    blen bs = blen (B_bytes b) ∧ blen st = blen (B_state b).

Lemma undo_one p P b b1 I f l l' :
  saved p b I → i_is_evicted I = false →
  modified b b1 (p_I p) f → same_out b b1 (i_offset I) (i_offset I + PATCH_MAX) →
  i_offset f = i_offset I →
  set_i_is_evicted false (set_i_is_patched (i_is_patched I) f) = I →
  live b1 l' →
  match p_A p with
  | None => l' = l
  | Some A => ∃ l1 a l2, l = l1 ++ l2 ∧ l' = l1 ++ (A, a) :: l2 ∧ a_T a ≠ None
  end →
  ∃ b2, undo opts (p :: P) b1 = undo opts P b2 ∧ restored b l b2.
Proof.
  intros (EI & Ep & Est & Ebs) Hev (s & bs & st & -> & Lb & Ls) Hout Hoff Hflags Hl HA.
  cbn [undo].
  set (b1 := set_B_space _ _) in *.
  assert (E1 : instr b1 (p_I p) = Some f) by (unfold b1; destruct b; apply lookup_insert_eq).
  rewrite E1. cbn [mbind option_bind]. unfold upd_instr. rewrite E1. cbn [mbind option_bind].
  rewrite Ep, Hflags, Hoff.
  assert (Wst : wrn st (i_offset I) (o_state (p_original p)) = Some (B_state b)).
  { eapply wrn_window; [exact Est|done|]. intros q Hq. destruct (Hout q Hq) as [_ E]. by destruct b. }
  assert (Wbs : wrn bs (i_offset I) (o_bytes (p_original p)) = Some (B_bytes b)).
  { eapply wrn_window; [exact Ebs|done|]. intros q Hq. destruct (Hout q Hq) as [E _]. by destruct b. }
  replace (B_state _) with st by (unfold b1; by destruct b). rewrite Wst. cbn [mbind option_bind].
  replace (B_bytes _) with bs by (unfold b1; by destruct b). rewrite Wbs. cbn [mbind option_bind].
  replace (set_B_bytes (B_bytes b) _) with (set_B_space s b).
  2: { unfold b1. destruct b; cbn in *. by rewrite insert_insert_eq, insert_id. }
  assert (Hl' : live (set_B_space s b) l') by (unfold b1, live in *; by destruct b).
  destruct (p_A p) as [A|].
  - destruct HA as (l1 & a & l2 & -> & -> & HT).
    destruct (dealloc_ok _ _ l1 A a l2 Hl' eq_refl HT) as (b2 & -> & Hr). cbn [mbind option_bind].
    exists b2. split; [done|]. destruct Hr as (s' & -> & Hl2). exists s'. by destruct b.
  - subst l'. unfold deallocate_.
    destruct (vs_step (option_Oorder opts) (B_space (set_B_space s b)) _ (Deallocate None) Hl' Logic.I)
      as (r & s' & l' & -> & Hs & Hl2). cbn [mbind option_bind]. inversion Hs; subst.
    eexists. split; [reflexivity|]. exists s'. by destruct b.
Qed.

(** ** Installing a jump *)

(** The byte [k] of the instruction may be overwritten, and no byte after it is locked. *)
Definition softly b I (k : Z) : Prop :=
  0 <= k < i_size I ∧
  (∀ s, state_at b (i_offset I + k) = Some s → writable s = true) ∧
  ∀ i s, 0 <= i → k + i < i_size I → state_at b (i_offset I + k + i) = Some s →
    writable s = true ∨ s = STATE_PATCHED ∨ s = STATE_QUEUED.

(** The bytes [l] are in place, and frozen. *)
Definition fixed b (q : Z) (l : bytes) : Prop :=
  ∀ i v, l !! i = Some v → byte_at b (q + Z.of_nat i) = Some v ∧
    ∃ s, state_at b (q + Z.of_nat i) = Some s ∧ frozen s = true.

Lemma fixed_preserves b b' q l : preserves b b' → fixed b q l → fixed b' q l.
Proof.
  intros Hp Hf i v Hv. destruct (Hf i v Hv) as (E & s & Es & Hs). destruct (Hp _ _ Es Hs) as (-> & Hs'). done.
Qed.

(** The bytes after the instruction that its jump covers. *)
Definition spilled b b' I (e : Z) : Prop :=
  ∀ q, i_offset I + i_size I <= q < e → ∃ s,
    state_at b q = Some s ∧ s ≠ STATE_QUEUED ∧ state_at b' q = Some (jump_state false s).

Lemma run_spilled b b' I k l :
  run_fits I k l b → run_written I k l b b' → 0 <= k < i_size I →
  spilled b b' I (i_offset I + k + blen l).
Proof.
  intros Hf Hw Hk q Hq.
  destruct (run_lookup _ _ _ _ _ q Hf Hw ltac:(lia)) as (v & s & Hv & Es & _ & Es' & _).
  exists s. destruct (Z.ltb_spec (q - i_offset I) (i_size I)); [lia|]. split_and!; [done| |done].
  destruct (Hf _ _ Hv) as (c & s' & _ & Es2 & Hfit).
  replace (i_offset I + k + Z.of_nat (Z.to_nat (q - i_offset I - k))) with q in Es2 by lia.
  rewrite (proj2 (Z.ltb_ge _ _)) in Hfit by lia.
  assert (s' = s) as -> by congruence. apply Hfit.
Qed.

Lemma run_fixed b b' I k l :
  run_fits I k l b → run_written I k l b b' → fixed b' (i_offset I + k) l.
Proof.
  intros Hf Hw i v Hv. assert (Hi : (i < List.length l)%nat) by (by eapply lookup_lt_Some).
  destruct (run_lookup _ _ _ _ _ (i_offset I + k + Z.of_nat i) Hf Hw) as (v' & s & Hv' & Es & Eb & Es' & Hfr);
    [unfold blen; lia|].
  replace (Z.to_nat _) with i in Hv' by lia. assert (v' = v) as -> by congruence. eauto.
Qed.

Lemma run_fits_same I k l b b' :
  (∀ q, i_offset I + k <= q < i_offset I + k + blen l →
     byte_at b' q = byte_at b q ∧ state_at b' q = state_at b q) →
  run_fits I k l b → run_fits I k l b'.
Proof.
  intros Hs Hf i v Hv. assert (Hi : (i < List.length l)%nat) by (by eapply lookup_lt_Some).
  destruct (Hs (i_offset I + k + Z.of_nat i)) as [-> ->]; [unfold blen; lia|]. by apply Hf.
Qed.

Lemma softly_fits b I k dest :
  instr_ok b I → jump_allowed b I k dest → softly b I k → run_fits I k (jump_bytes I k dest) b.
Proof.
  intros Ho (Hd & (diff & Hfree & Hag) & Hq) (Hk & Hw & Hs).
  by eapply jump_fits.
Qed.

(** The number of prefixes before the jump, and the contents that a hooked instruction
    has. *)
Record hooked b b' I (k dest : Z) : Prop := {
  ho_preserves : preserves b b';
  ho_out : same_out b b' (i_offset I) (Z.max (i_offset I + i_size I) (i_offset I + k + 5));
  ho_writable : ∀ i s, 0 <= i <= k → state_at b (i_offset I + i) = Some s → writable s = true;
  ho_inside : ∀ i, 0 <= i < i_size I → ∃ s, state_at b' (i_offset I + i) = Some s ∧
                (s = STATE_PATCHED ∨ s = STATE_FREE);
  ho_first : state_at b' (i_offset I) = Some STATE_PATCHED;
  ho_spilled : spilled b b' I (i_offset I + k + 5);
  ho_prefixes : fixed b' (i_offset I) (take (Z.to_nat k) prefixes);
  ho_jump : fixed b' (i_offset I + k) (jump_bytes I k dest) }.

(** The steps that the tactics B1, B2 and T1 share, after the allocation. *)
Definition hook j (k : Z) (t : Tactic) (A : ptr) b : option (Patch * Binary S) :=
  I ← instr b j;
  '(p, b) ← new_Patch evicteeTrampoline j t (Some A) b;
  b ← patchJumpPrefix j k b;
  b ← patchJump p k b;
  b ← (if 5 <=? i_size I then patchUnused j 5 b else Some b);
  Some (p, b).

Lemma prefixes_take k : 0 <= k <= 4 → blen (take (Z.to_nat k) prefixes) = k.
Proof. intros Hk. unfold blen. rewrite length_take. cbn [List.length prefixes]. lia. Qed.

Lemma state_written (p q : Z) (l : bytes) (b b' : Binary S) :
  (∀ i v, l !! i = Some v → byte_at b' (p + Z.of_nat i) = Some v ∧
                           state_at b' (p + Z.of_nat i) = Some STATE_PATCHED) →
  p <= q < p + blen l → state_at b' q = Some STATE_PATCHED.
Proof.
  intros Hin Hq. assert (Hi : (Z.to_nat (q - p) < List.length l)%nat) by (unfold blen in Hq; lia).
  apply lookup_lt_is_Some in Hi as [v Hv]. destruct (Hin _ _ Hv) as [_ E].
  by replace (p + Z.of_nat (Z.to_nat (q - p))) with q in E by lia.
Qed.

(** The effect of the writes alone. *)
Lemma hook_bytes b I k dest :
  instr_ok b I → jump_allowed b I k dest → softly b I 0 → 0 <= k <= 3 → k < i_size I →
  (∀ i s, 0 <= i <= k → state_at b (i_offset I + i) = Some s → writable s = true) →
  ∃ b1 b2 b3,
    patch_prefixes I 0 (take (Z.to_nat k) prefixes) b = Some b1 ∧
    patch_jump I dest k b1 = Some b2 ∧
    (if 5 <=? i_size I then free_bytes I 5 (Z.to_nat (i_size I - 5)) b2 else Some b2) = Some b3 ∧
    rewrites b b1 ∧ rewrites b b2 ∧ rewrites b b3 ∧ hooked b b3 I k dest.
Proof.
  intros Ho Hal (H0 & Hw0 & Hs0) Hk Hks Hwr. pose proof (io_size _ _ Ho). pose proof (io_addr _ _ Ho).
  assert (Hsoft : softly b I k).
  { split_and!; [lia|lia|intros s; apply Hwr; lia|]. intros i s Hi Hi' Es.
    apply (Hs0 (k + i)); [lia|lia|]. by replace (i_offset I + 0 + (k + i)) with (i_offset I + k + i) by lia. }
  pose proof (softly_fits _ _ _ _ Ho Hal Hsoft) as Hfit.
  assert (Hpl : blen (take (Z.to_nat k) prefixes) = k) by (apply prefixes_take; lia).
  (* the prefixes *)
  destruct (patch_prefixes_ok I (take (Z.to_nat k) prefixes) 0 b) as (b1 & E1 & R1 & Out1 & In1).
  { apply Forall_take. by apply bytes_ok_check. }
  { intros i Hi. rewrite Z.add_0_r. split; [apply mapped_near; [done|lia]|]. intros s. apply Hwr. lia. }
  rewrite Z.add_0_r, Hpl in *.
  (* the jump *)
  assert (Hfit1 : run_fits I k (jump_bytes I k dest) b1).
  { eapply run_fits_same; [|exact Hfit]. intros q Hq. apply Out1. lia. }
  destruct (patch_jump_ok I k dest b1) as (b2 & E2 & Hrun); try done; [lia|lia|apply Hal| | |].
  { destruct (Out1 (i_offset I + k)) as [_ ->]; [lia|]. intros s. apply Hwr. lia. }
  { intros i Hi. eapply mapped_rewrites; [exact R1|]. rewrite <- Z.add_assoc. apply mapped_near; [done|lia]. }
  pose proof (run_preserves _ _ _ _ _ Hfit1 Hrun) as P12.
  pose proof (run_spilled _ _ _ _ _ Hfit1 Hrun ltac:(lia)) as Sp12.
  pose proof (run_fixed _ _ _ _ _ Hfit1 Hrun) as Fx12.
  pose proof (λ q, run_lookup _ _ _ _ _ q Hfit1 Hrun) as Lk12. rewrite jump_bytes_len in *.
  destruct Hrun as (R12 & Out12 & _). rewrite jump_bytes_len in Out12.
  assert (R2 : rewrites b b2) by (by eapply rewrites_trans).
  (* the unused bytes *)
  assert (Hfree : ∃ b3,
    (if 5 <=? i_size I then free_bytes I 5 (Z.to_nat (i_size I - 5)) b2 else Some b2) = Some b3 ∧
    rewrites b2 b3 ∧
    ∀ q, if decide (i_offset I + 5 <= q < i_offset I + i_size I)
         then ∀ v s, byte_at b2 q = Some v → state_at b2 q = Some s →
              byte_at b3 q = Some (freed_byte v s) ∧ state_at b3 q = Some (freed_state s)
         else byte_at b3 q = byte_at b2 q ∧ state_at b3 q = state_at b2 q).
  { destruct (Z.leb_spec 5 (i_size I)) as [H5|H5].
    - destruct (free_bytes_ok I (Z.to_nat (i_size I - 5)) 5 b2) as (b3 & -> & R3 & Q3).
      { intros i Hi. eapply mapped_rewrites; [exact R2|]. rewrite <- Z.add_assoc. apply mapped_near; [done|lia]. }
      exists b3. split_and!; [done|done|]. intros q. specialize (Q3 q).
      replace (i_offset I + 5 + Z.of_nat (Z.to_nat (i_size I - 5))) with (i_offset I + i_size I) in Q3 by lia. done.
    - exists b2. split_and!; [done|apply rewrites_refl|]. intros q. by rewrite decide_False by lia. }
  destruct Hfree as (b3 & E3 & R23 & Q3).
  assert (R3 : rewrites b b3) by (by eapply rewrites_trans).
  assert (P01 : preserves b b1).
  { intros q s Es Hs. destruct (decide (i_offset I <= q < i_offset I + k)) as [Hq|Hq].
    - exfalso. assert (Hw : writable s = true).
      { apply (Hwr (q - i_offset I)); [lia|]. by replace (i_offset I + (q - i_offset I)) with q by lia. }
      unfold frozen in Hs. by rewrite Hw in Hs.
    - destruct (Out1 q) as [-> ->]; [lia|]. eauto. }
  assert (P23 : preserves b2 b3).
  { intros q s Es Hs. specialize (Q3 q). destruct (decide _) as [Hq|Hq].
    - destruct (byte_mapped b2 q) as [v Ev].
      { eapply mapped_rewrites; [exact R2|]. replace q with (i_offset I + (q - i_offset I)) by lia.
        apply mapped_near; [done|lia]. }
      destruct (Q3 v s Ev Es) as [-> ->].
      destruct (frozen_freed v s Hs) as [Ef1 Ef2]. rewrite Ef1, Ef2, Ev. eauto.
    - destruct Q3 as [-> ->]. eauto. }
  assert (S3 : ∀ i s, 0 <= i < i_size I → state_at b2 (i_offset I + i) = Some s →
            i < 5 ∨ freed_state s = s → state_at b3 (i_offset I + i) = Some s).
  { intros i s Hi Es Hc. specialize (Q3 (i_offset I + i)). destruct (decide _) as [Hq|Hq].
    - destruct (byte_mapped b2 (i_offset I + i)) as [v Ev].
      { eapply mapped_rewrites; [exact R2|]. apply mapped_near; [done|lia]. }
      destruct (Q3 v s Ev Es) as [_ ->]. f_equal. destruct Hc; [lia|done].
    - destruct Q3 as [_ ->]. done. }
  assert (Hin : ∀ i, 0 <= i < k + 5 → i < i_size I → state_at b3 (i_offset I + i) = Some STATE_PATCHED).
  { intros i Hi Hi'. apply S3; [lia| |by right]. destruct (decide (i < k)) as [Hlt|Hge].
    - destruct (Out12 (i_offset I + i)) as [_ ->]; [lia|].
      eapply (state_written (i_offset I) _ _ b1 b1 In1). lia.
    - destruct (Lk12 (i_offset I + i)) as (v & s & _ & _ & _ & -> & _); [lia|].
      rewrite (proj2 (Z.ltb_lt _ _)) by lia. done. }
  exists b1, b2, b3. split_and!; try done. split.
  - by rewrite P01, P12.
  - intros q Hq. specialize (Q3 q). rewrite decide_False in Q3 by lia. destruct Q3 as [-> ->].
    destruct (Out12 q) as [-> ->]; [lia|]. apply Out1. lia.
  - exact Hwr.
  - intros i Hi. destruct (decide (i < k + 5)) as [Hlt|Hge].
    { exists STATE_PATCHED. split; [apply Hin; lia|by left]. }
    destruct (state_mapped b (i_offset I + i)) as [s Es]; [apply mapped_near; [done|lia]|].
    destruct (byte_mapped b (i_offset I + i)) as [v Ev]; [apply mapped_near; [done|lia]|].
    assert (E20 : byte_at b2 (i_offset I + i) = Some v ∧ state_at b2 (i_offset I + i) = Some s).
    { destruct (Out12 (i_offset I + i)) as [-> ->]; [lia|]. destruct (Out1 (i_offset I + i)) as [-> ->]; [lia|]. done. }
    specialize (Q3 (i_offset I + i)). rewrite decide_True in Q3 by lia.
    destruct (Q3 v s) as [_ ->]; [apply E20..|]. eexists. split; [reflexivity|].
    destruct (Hs0 i s) as [Hw|[-> | ->]]; [lia|lia|done| |by left|by right].
    unfold writable in Hw. apply orb_true_iff in Hw as [Hw|Hw]; apply Z.eqb_eq in Hw; subst s; by right.
  - rewrite <- (Z.add_0_r (i_offset I)). apply Hin; lia.
  - intros q Hq. destruct (Sp12 q Hq) as (s & Es & Hs & Es').
    destruct (Out1 q) as [_ E10]; [lia|]. rewrite E10 in Es. exists s. split_and!; [done..|].
    specialize (Q3 q). rewrite decide_False in Q3 by lia. by destruct Q3 as [_ ->].
  - intros i v Hv. destruct (In1 i v Hv) as [Eb _].
    assert (Hi : (i < List.length (take (Z.to_nat k) prefixes))%nat) by (by eapply lookup_lt_Some).
    unfold blen in Hpl. split.
    + specialize (Q3 (i_offset I + Z.of_nat i)). rewrite decide_False in Q3 by lia. destruct Q3 as [-> _].
      destruct (Out12 (i_offset I + Z.of_nat i)) as [-> _]; [lia|done].
    + exists STATE_PATCHED. split; [apply Hin; lia|done].
  - by eapply fixed_preserves.
Qed.

Lemma rewrites_instr b b' j : rewrites b b' → instr b' j = instr b j.
Proof. intros (bs & st & -> & _). by destruct b. Qed.

Lemma rewrites_space b b' : rewrites b b' → B_space b' = B_space b.
Proof. intros (bs & st & -> & _). by destruct b. Qed.

Lemma rewrites_modified b b' j f :
  rewrites (set_B_Is (<[j := f]> (B_Is b)) b) b' → modified b b' j f.
Proof. intros (bs & st & -> & L1 & L2 & _). exists (B_space b), bs, st. by destruct b. Qed.

(** The patch [p] with the allocation [A] was made at the instruction [j], and a jump to
    the trampoline was installed. *)
Record installed b b' j I (p : Patch) (A : ptr) (a : Alloc) (t : Tactic) (k : Z) : Prop := {
  in_A : p_A p = Some A;
  in_I : p_I p = j;
  in_tactic : p_tactic p = t;
  in_saved : saved p b I;
  in_modified : modified b b' j (flag (evicting (Some a)) I);
  in_evolves : evolves b b';
  in_k : 0 <= k <= 3;
  in_hooked : hooked b b' I k (a_lb a + a_entry a) }.

Lemma hook_ok j k t A a b l I :
  layout b → live b l → instr b j = Some I → (A, a) ∈ l →
  jump_allowed b I k (a_lb a + a_entry a) → softly b I 0 → 0 <= k <= 3 → k < i_size I →
  (∀ i s, 0 <= i <= k → state_at b (i_offset I + i) = Some s → writable s = true) →
  ∃ p b', hook j k t A b = Some (p, b') ∧ live b' l ∧ installed b b' j I p A a t k.
Proof.
  intros HL Hl EI HA Hal Hs Hk Hks Hwr. pose proof (la_instr _ HL _ _ EI) as Ho.
  unfold hook. rewrite EI. cbn [mbind option_bind].
  destruct (new_Patch_ok j t b l I (Some (A, a)) HL Hl EI) as (p & Ep & Hsv & EA & Ej & Et).
  { by intros x [= <-]. }
  cbn [fmap option_fmap option_map fst snd] in Ep, EA. rewrite Ep. cbn [mbind option_bind].
  set (ev := evicting (Some a)) in *. set (b0 := set_B_Is _ b).
  assert (E0 : instr b0 j = Some (flag ev I)) by apply lookup_insert_eq.
  destruct (hook_bytes b0 (flag ev I) k (a_lb a + a_entry a)) as (b1 & b2 & b3 & E1 & E2 & E3 & R1 & R2 & R3 & Hh);
    [by destruct ev, Ho|by destruct ev|by destruct ev|done|by destruct ev|by destruct ev|].
  assert (Hlb : live b3 l) by (unfold live; by rewrite (rewrites_space _ _ R3)).
  unfold patchJumpPrefix. rewrite E0. cbn [mbind option_bind].
  assert (Esz : i_size (flag ev I) = i_size I) by (by destruct ev).
  rewrite Esz, (proj2 (Z.ltb_lt _ _)), (proj2 (Z.leb_le k 4)) by lia. cbn [andb assert_ mbind option_bind].
  rewrite E1. cbn [mbind option_bind]. unfold patchJump. rewrite Ej, EA, (rewrites_instr _ _ _ R1), E0.
  cbn [mbind option_bind]. unfold alloc_of. rewrite (rewrites_space _ _ R1).
  change (B_space b0) with (B_space b). rewrite (vs_get_live _ _ _ _ Hl HA). cbn [mbind option_bind].
  rewrite E2. cbn [mbind option_bind]. unfold patchUnused. rewrite (rewrites_instr _ _ _ R2), E0.
  cbn [mbind option_bind]. rewrite Esz in *.
  exists p, b3. split; [|split; [done|]].
  - destruct (Z.leb_spec 5 (i_size I)) as [H5|H5]; cbn [assert_ mbind option_bind];
      [by rewrite E3|by injection E3 as ->].
  - split; try done.
    + by apply rewrites_modified.
    + eapply evolves_trans; [|by apply rewrites_evolves]. eapply Is_evolves; [done|apply clear_flag].
    + by destruct ev, Hh.
Qed.

(** The outcome of the tactics B1, B2 and T1 at the instruction [j]: the binary is
    restored, or a jump to [T] is installed. *)
Definition single b l j I (T : option ptr) (t : Tactic) (r : option (list Patch) * Binary S) : Prop :=
  match r with
  | (None, b') => restored b l b'
  | (Some P, b') => ∃ p A l1 a l2 k, P = [p] ∧ l = l1 ++ l2 ∧ a_T a = T ∧
      live b' (l1 ++ (A, a) :: l2) ∧ installed b b' j I p A a t k
  end.

Lemma restored_instr b l b1 j : restored b l b1 → instr b1 j = instr b j.
Proof. intros (s & -> & _). by destruct b. Qed.

Lemma restored_layout b l b1 : restored b l b1 → layout b → layout b1.
Proof. intros (s & -> & _). eapply layout_evolves, space_evolves. Qed.

Lemma installed_restored b l b1 b' j I p A a t k :
  restored b l b1 → installed b1 b' j I p A a t k → installed b b' j I p A a t k.
Proof.
  intros (s & -> & _) [H1 H2 H3 H4 H5 H6 H7 H8].
  split; [done|done|done|by destruct b| | |done|by destruct b, H8].
  - destruct H5 as (s' & bs & st & -> & L1 & L2). exists s', bs, st. by destruct b.
  - eapply evolves_trans; [apply space_evolves|exact H6].
Qed.

Lemma hook_single j k t (T : option ptr) b l I (r : option ptr * Binary S) :
  layout b → instr b j = Some I → softly b I 0 → 0 <= k <= 3 → k < i_size I →
  (∀ i s, 0 <= i <= k → state_at b (i_offset I + i) = Some s → writable s = true) →
  allocated b l T (jump_allowed b I k) r →
  match r with
  | (None, b') => restored b l b'
  | (Some A, b1) => ∃ p b', hook j k t A b1 = Some (p, b') ∧ single b l j I T t (Some [p], b')
  end.
Proof.
  intros HL EI Hs Hk Hks Hwr Hr. destruct r as [[A|] b1]; [|done].
  destruct Hr as (l1 & a & l2 & -> & Hr & HT & Hal). pose proof (restored_live _ _ _ Hr) as Hl1.
  destruct (hook_ok j k t A a b1 (l1 ++ (A, a) :: l2) I) as (p & b' & E & Hl' & Hin).
  - by eapply restored_layout.
  - exact Hl1.
  - by rewrite (restored_instr _ _ _ _ Hr).
  - apply elem_of_app. right. by left.
  - destruct Hr as (s & -> & _). by destruct b.
  - destruct Hr as (s & -> & _). by destruct b.
  - done.
  - done.
  - destruct Hr as (s & -> & _). by destruct b.
  - exists p, b'. split; [done|]. exists p, A, l1, a, l2, k. split_and!; try done.
    by eapply installed_restored.
Qed.

Lemma canPatch_ok b j I :
  layout b → instr b j = Some I →
  ∃ s, state_at b (i_offset I) = Some s ∧ canPatch b j = Some (writable s).
Proof.
  intros HL EI. destruct (state_mapped b (i_offset I + 0)) as [s Es].
  { apply mapped_near; [by apply (la_instr _ HL) with j|lia]. }
  exists s. unfold canPatch, STATE. rewrite EI. cbn [mbind option_bind].
  fold (state_at b (i_offset I + 0)). rewrite Es. rewrite Z.add_0_r in Es. done.
Qed.

(** What the tactics need of the states of an instruction. *)
Definition soft b I : Prop :=
  ∀ s, state_at b (i_offset I) = Some s → writable s = true → softly b I 0.

Lemma patchJumpPrefix_0 j b b' : patchJumpPrefix j 0 b = Some b' → b' = b.
Proof.
  unfold patchJumpPrefix. intros E. rewrite bind_Some_iff in E. destruct E as (I & _ & E).
  rewrite bind_Some_iff in E. destruct E as (u & _ & E). by injection E.
Qed.

(** Without prefixes. *)
Lemma hook_0 j t A b I p b' :
  instr b j = Some I → hook j 0 t A b = Some (p, b') →
  ∃ b0 b1, new_Patch evicteeTrampoline j t (Some A) b = Some (p, b0) ∧ patchJump p 0 b0 = Some b1 ∧
    (if 5 <=? i_size I then patchUnused j 5 b1 else Some b1) = Some b'.
Proof.
  intros EI E. unfold hook in E. rewrite EI in E. cbn [mbind option_bind] in E.
  rewrite bind_Some_iff in E. destruct E as ([p0 b0] & E0 & E).
  rewrite bind_Some_iff in E. destruct E as (b1 & ->%patchJumpPrefix_0 & E).
  rewrite bind_Some_iff in E. destruct E as (b2 & E2 & E).
  rewrite bind_Some_iff in E. destruct E as (b3 & E3 & E). injection E as -> ->.
  by exists b0, b2.
Qed.

Lemma tactic_B1_ok j (T : option ptr) t b l I :
  layout b → live b l → instr b j = Some I → soft b I →
  safely (tactic_B1 opts evicteeTrampoline j T t b) (single b l j I T t).
Proof.
  intros HL Hl EI Hsoft. pose proof (io_size _ _ (la_instr _ HL _ _ EI)).
  unfold tactic_B1. rewrite EI. destruct (canPatch_ok b j I HL EI) as (s & Es & ->).
  cbn [mbind option_bind]. destruct (_ || _) eqn:Ec; [by apply restored_refl|].
  apply orb_false_iff in Ec as [[H5%Z.ltb_ge _]%orb_false_iff Hw%negb_false_iff]. unfold JMP_SIZE in H5.
  pose proof (Hsoft s Es Hw) as Hs. apply safely_bind. eapply safely_mono.
  { eapply (punned_ok j 0 j T b l I); [done..|lia]. }
  intros r Hr. cbn beta. pose proof (hook_single j 0 t T b l I r HL EI Hs ltac:(lia) ltac:(lia)) as Hk.
  destruct r as [[A|] b1]; [|exact Hr].
  destruct Hk as (p & b' & E & Hp); [|exact Hr|].
  { intros i s' Hi Es'. replace (i_offset I + i) with (i_offset I) in Es' by lia. congruence. }
  apply (hook_0 _ _ _ _ I) in E as (b2 & b3 & -> & E2 & E3).
  2: { destruct Hr as (l1 & a & l2 & -> & Hr & _). by rewrite (restored_instr _ _ _ _ Hr). }
  cbn [mbind option_bind]. rewrite E2. cbn [mbind option_bind].
  rewrite (proj2 (Z.leb_le 5 (i_size I))) in E3 by lia. by rewrite E3.
Qed.

Lemma tactic_B2_ok j (T : option ptr) t b l I :
  layout b → live b l → instr b j = Some I → soft b I →
  safely (tactic_B2 opts evicteeTrampoline j T t b) (single b l j I T t).
Proof.
  intros HL Hl EI Hsoft. pose proof (io_size _ _ (la_instr _ HL _ _ EI)).
  unfold tactic_B2. rewrite EI. destruct (canPatch_ok b j I HL EI) as (s & Es & ->).
  cbn [mbind option_bind]. destruct (_ || _) eqn:Ec; [by apply restored_refl|].
  apply orb_false_iff in Ec as [[H5%Z.leb_gt _]%orb_false_iff Hw%negb_false_iff]. unfold JMP_SIZE in H5.
  pose proof (Hsoft s Es Hw) as Hs. apply safely_bind. eapply safely_mono.
  { eapply (punned_ok j 0 j T b l I); [done..|lia]. }
  intros r Hr. cbn beta. pose proof (hook_single j 0 t T b l I r HL EI Hs ltac:(lia) ltac:(lia)) as Hk.
  destruct r as [[A|] b1]; [|exact Hr].
  destruct Hk as (p & b' & E & Hp); [|exact Hr|].
  { intros i s' Hi Es'. replace (i_offset I + i) with (i_offset I) in Es' by lia. congruence. }
  apply (hook_0 _ _ _ _ I) in E as (b2 & b3 & -> & E2 & E3).
  2: { destruct Hr as (l1 & a & l2 & -> & Hr & _). by rewrite (restored_instr _ _ _ _ Hr). }
  cbn [mbind option_bind]. rewrite E2. cbn [mbind option_bind].
  rewrite (proj2 (Z.leb_gt 5 (i_size I))) in E3 by lia. by injection E3 as ->.
Qed.

Lemma try_prefixes_ok j (T : option ptr) t n : ∀ k b l I,
  layout b → live b l → instr b j = Some I → softly b I 0 → i_size I < 5 →
  1 <= k → k + Z.of_nat n = 4 →
  (∀ i s, 0 <= i < k → state_at b (i_offset I + i) = Some s → writable s = true) →
  safely (try_prefixes opts evicteeTrampoline j T t (map (λ i, k + Z.of_nat i) (seq 0 n)) b)
         (single b l j I T t).
Proof.
  induction n as [|n IH]; intros k b l I HL Hl EI Hs H5 Hk Hn Hw; [by apply restored_refl|].
  pose proof (la_instr _ HL _ _ EI) as Ho.
  change (map (λ i, k + Z.of_nat i) (seq 0 (Datatypes.S n)))
    with (k + Z.of_nat 0 :: map (λ i, k + Z.of_nat i) (seq 1 n)).
  change (Z.of_nat 0) with 0. rewrite Z.add_0_r.
  cbn [try_prefixes]. rewrite EI. cbn [mbind option_bind].
  destruct (state_mapped b (i_offset I + k)) as [s Es]; [apply mapped_near; [done|lia]|].
  unfold canApplyT1, STATE. fold (state_at b (i_offset I + k)). rewrite Es. cbn [mbind option_bind].
  destruct (_ || _) eqn:Ec; [by apply restored_refl|].
  apply orb_false_iff in Ec as [Hc%negb_false_iff Hks%Z.leb_gt].
  assert (Hws : writable s = true).
  { unfold writable. destruct (s =? STATE_INSTRUCTION); [done|exact Hc]. }
  assert (Hw' : ∀ i s, 0 <= i <= k → state_at b (i_offset I + i) = Some s → writable s = true).
  { intros i s' Hi Es'. destruct (decide (i = k)) as [->|]; [congruence|]. apply (Hw i); [lia|done]. }
  apply safely_bind. eapply safely_mono; [eapply (punned_ok j k j T b l I); [done..|lia]|].
  intros r Hr. cbn beta. pose proof (hook_single j k t T b l I r HL EI Hs ltac:(lia) ltac:(lia) Hw' Hr) as Hh.
  destruct r as [[A|] b1].
  - destruct Hh as (p & b' & E & Hp). unfold hook in E.
    assert (EI1 : instr b1 j = Some I).
    { destruct Hr as (l1 & a & l2 & -> & Hr & _). by rewrite (restored_instr _ _ _ _ Hr). }
    rewrite EI1 in E. cbn [mbind option_bind] in E.
    rewrite bind_Some_iff in E. destruct E as ([p0 b0] & -> & E). cbn [mbind option_bind].
    rewrite bind_Some_iff in E. destruct E as (b2 & -> & E). cbn [mbind option_bind].
    rewrite bind_Some_iff in E. destruct E as (b3 & -> & E). cbn [mbind option_bind].
    rewrite (proj2 (Z.leb_gt 5 (i_size I))) in E by lia. by injection E as -> ->.
  - (* the next number of prefixes *)
    rewrite <- seq_shift, map_map.
    replace (map _ (seq 0 n)) with (map (λ i, k + 1 + Z.of_nat i) (seq 0 n)).
    2: { apply map_ext. intros i. lia. }
    pose proof (restored_live _ _ _ Hr) as Hl1. pose proof (restored_layout _ _ _ Hr HL) as HL1.
    eapply safely_mono; [apply (IH (k + 1) b1 l I HL1 Hl1)|]; try lia.
    + by rewrite (restored_instr _ _ _ _ Hr).
    + destruct Hr as (s' & -> & _). by destruct b.
    + intros i s' Hi. destruct Hr as (s2 & -> & _). apply Hw'. lia.
    + intros [[P|] b'] Hp; cbn in *; [|by eapply restored_trans].
      destruct Hp as (p & A & l1 & a & l2 & k' & -> & -> & HT & Hl' & Hin).
      exists p, A, l1, a, l2, k'. split_and!; try done. by eapply installed_restored.
Qed.

Lemma tactic_T1_ok j (T : option ptr) t b l I :
  layout b → live b l → instr b j = Some I → soft b I →
  safely (tactic_T1 opts evicteeTrampoline j T t b) (single b l j I T t).
Proof.
  intros HL Hl EI Hsoft. pose proof (io_size _ _ (la_instr _ HL _ _ EI)).
  unfold tactic_T1. rewrite EI. destruct (canPatch_ok b j I HL EI) as (s & Es & ->).
  cbn [mbind option_bind]. destruct (_ || _) eqn:Ec; [by apply restored_refl|].
  apply orb_false_iff in Ec as [[H5%Z.leb_gt _]%orb_false_iff Hw%negb_false_iff]. unfold JMP_SIZE in H5.
  apply (try_prefixes_ok j T t 3 1); try done; [by eapply Hsoft|].
  intros i s' Hi Es'. replace (i_offset I + i) with (i_offset I) in Es' by lia. congruence.
Qed.

(** The second attempt is made if the first one restored the binary. *)
Lemma single_or b l j I T t (r : option (option (list Patch) * Binary S)) (k : Binary S → option (option (list Patch) * Binary S)) :
  layout b → instr b j = Some I → soft b I →
  safely r (single b l j I T t) →
  (∀ b', layout b' → live b' l → instr b' j = Some I → soft b' I → safely (k b') (single b' l j I T t)) →
  safely (or_try r k) (single b l j I T t).
Proof.
  intros HL EI Hs Hr Hk. unfold or_try. apply safely_bind. eapply safely_mono; [exact Hr|].
  intros [[P|] b1] H1; cbn beta iota; [exact H1|].
  pose proof (restored_live _ _ _ H1) as Hl1. pose proof (restored_layout _ _ _ H1 HL) as HL1.
  eapply safely_mono; [apply (Hk b1 HL1 Hl1)|].
  - by rewrite (restored_instr _ _ _ _ H1).
  - destruct H1 as (s & -> & _). by destruct b.
  - intros [[P|] b'] Hp; cbn in *; [|by eapply restored_trans].
    destruct Hp as (p & A & l1 & a & l2 & k' & -> & -> & HT & Hl' & Hin).
    exists p, A, l1, a, l2, k'. split_and!; try done. by eapply installed_restored.
Qed.

End Spec.

End TacticsSpec.
