(* ===== verification/E9TacticsInv.v ===== *)
(** * E9TacticsInv: the invariant of a partly patched binary

    Which states the bytes of an instruction may have ([shape]), the invariant that every
    tactic of src/src/e9patch/e9tactics.cpp keeps ([wf]), the effect of a patch at one
    instruction ([change]) and its undoing, and where a patched instruction lands. *)

From stdpp Require Import gmap.
From S2P Require Import Prelude E9Patch E9Alloc E9AllocTree E9AllocSpec E9AllocApi E9X86 E9Tactics E9TacticsMem E9TacticsSpec.

Module TacticsInv.
Import E9 E9Alloc AllocTree AllocSpec AllocApi E9X86 E9Tactics TacticsMem TacticsSpec.

(** ** The states of the bytes of an instruction *)

(** An instruction of [n] bytes with the states [f] waits in the queue; or is original
    code, of which the first [m] bytes may belong to a jump before it; or is patched,
    and then what follows an unused byte is unused or belongs to a jump in it. *)
Inductive shape (f : Z → option Z) (n : Z) : Prop :=
| shape_queued : (∀ i, 0 <= i < n → f i = Some STATE_QUEUED) → shape f n
| shape_code m :
    0 <= m → (∀ i, 0 <= i < n → i < m → ∃ s, f i = Some s ∧ frozen s = true) →
    (∀ i, m <= i < n → f i = Some STATE_INSTRUCTION) → shape f n
| shape_patched :
    (∀ i, 0 <= i < n → ∃ s, f i = Some s ∧ s ≠ STATE_INSTRUCTION ∧ s ≠ STATE_QUEUED) →
    (∀ i k, 0 <= i < k → k < n → f i = Some STATE_FREE →
       f k = Some STATE_FREE ∨ f k = Some STATE_PATCHED) → shape f n.

Lemma shape_ext f g n : (∀ i, 0 <= i < n → g i = f i) → shape f n → shape g n.
Proof.
  intros Hfg [Hq|m Hm Hf Hi|Hp Hk].
  - apply shape_queued. intros i Hi. rewrite Hfg by lia. auto.
  - apply (shape_code _ _ m Hm); intros i Hi'; intros; rewrite Hfg by lia; auto.
  - apply shape_patched; [intros i Hi; rewrite Hfg by lia; auto|].
    intros i k Hi Hk' E. rewrite Hfg in E by lia. rewrite !Hfg by lia. eauto.
Qed.

Lemma frozen_cases s : frozen s = true → s ≠ STATE_INSTRUCTION ∧ s ≠ STATE_FREE ∧ s ≠ STATE_QUEUED.
Proof. intros Hs. split_and!; intros ->; done. Qed.

Lemma spilled_frozen s : s ≠ STATE_QUEUED → frozen (jump_state false s) = true.
Proof. intros Hs. by apply jump_state_frozen. Qed.

(** A jump from before the instruction covers its first [m] bytes. *)
Lemma shape_spilled f g n m :
  (∀ i, 0 <= i < n → i < m → ∃ s, f i = Some s ∧ s ≠ STATE_QUEUED ∧ g i = Some (jump_state false s)) →
  (∀ i, m <= i < n → 0 <= i → g i = f i) → shape f n → shape g n.
Proof.
  intros Hsp Hsame [Hq|m' Hm Hf Hi|Hp Hk].
  - apply (shape_ext f); [|by apply shape_queued]. intros i Hi.
    destruct (Z.ltb_spec i m) as [Hlt|]; [|apply Hsame; lia].
    destruct (Hsp i Hi Hlt) as (s & E & Hs & _). rewrite Hq in E by lia. congruence.
  - apply (shape_code _ _ (Z.max m m')); [lia| |].
    + intros i Hi' Hlt. destruct (Z.ltb_spec i m) as [Hlt'|Hge].
      * destruct (Hsp i Hi' Hlt') as (s & E & Hs & Eg). eexists. split; [exact Eg|]. by apply spilled_frozen.
      * rewrite Hsame by lia. apply Hf; lia.
    + intros i Hi'. rewrite Hsame by lia. apply Hi. lia.
  - apply shape_patched.
    + intros i Hi. destruct (Z.ltb_spec i m) as [Hlt'|Hge].
      * destruct (Hsp i Hi Hlt') as (s & E & Hs & Eg). eexists. split; [exact Eg|].
        pose proof (frozen_cases _ (spilled_frozen s Hs)) as (? & ? & ?). done.
      * rewrite Hsame by lia. by apply Hp.
    + intros i k Hi Hkn E. destruct (Z.ltb_spec i m) as [Hlt'|Hge].
      * destruct (Hsp i ltac:(lia) Hlt') as (s & E' & Hs & Eg).
        pose proof (frozen_cases _ (spilled_frozen s Hs)) as (? & ? & ?). congruence.
      * rewrite Hsame in E by lia. rewrite Hsame by lia. by apply (Hk i k).
Qed.

(** All unused bytes of the instruction are freed. *)
Lemma shape_freed f n : shape f n → shape (λ i, freed_state <$> f i) n.
Proof.
  intros [Hq|m Hm Hf Hi|Hp Hk]; apply shape_patched.
  - intros i Hi. rewrite Hq by lia. by exists STATE_FREE.
  - intros i k Hi Hk _. rewrite !Hq by lia. by left.
  - intros i Hi'. destruct (Z.ltb_spec i m) as [Hlt|].
    + destruct (Hf i Hi' Hlt) as (s & -> & Hs). destruct (frozen_freed 0 s Hs) as [_ E]. cbn. rewrite E.
      destruct (frozen_cases s Hs) as (? & ? & ?). by exists s.
    + rewrite Hi by lia. by exists STATE_FREE.
  - intros i k Hi' Hk E. destruct (Z.ltb_spec i m) as [Hlt|].
    + destruct (Hf i ltac:(lia) Hlt) as (s & Es & Hs). rewrite Es in E. cbn in E.
      destruct (frozen_freed 0 s Hs) as [_ E']. rewrite E' in E. injection E as ->. done.
    + rewrite !Hi by lia. by left.
  - intros i Hi. destruct (Hp i Hi) as (s & -> & H1 & H2). exists s. split; [|done].
    unfold freed_state. cbn. by rewrite (proj2 (Z.eqb_neq _ _) H1), (proj2 (Z.eqb_neq _ _) H2).
  - intros i k Hi Hkn E. destruct (Hp i ltac:(lia)) as (s & Es & H1 & H2). rewrite Es in E. cbn in E.
    unfold freed_state in E. rewrite (proj2 (Z.eqb_neq _ _) H1), (proj2 (Z.eqb_neq _ _) H2) in E. cbn in E.
    rewrite E in Es. destruct (Hk i k Hi Hkn Es) as [-> | ->]; [by left|by right].
Qed.

(** The bytes of a jump inside of the instruction, in its unused bytes from [k] on. *)
Lemma shape_inner f g n k e :
  0 <= k → f k = Some STATE_FREE →
  (∀ i, k <= i < n → i < e → g i = Some STATE_PATCHED) →
  (∀ i, 0 <= i < n → ¬ (k <= i < e) → g i = f i) → shape f n → shape g n.
Proof.
  intros Hk0 Ek Hin Hout Hs. destruct (Z.ltb_spec k n) as [Hkn|].
  2: { apply (shape_ext f); [|done]. intros i Hi. apply Hout; lia. }
  destruct Hs as [Hq|m Hm Hf Hi|Hp Hk].
  - rewrite Hq in Ek by lia. done.
  - destruct (Z.ltb_spec k m) as [Hlt|]; [|rewrite Hi in Ek by lia; done].
    destruct (Hf k ltac:(lia) Hlt) as (s & E & Hs). rewrite Ek in E. injection E as <-. done.
  - apply shape_patched.
    + intros i Hi. destruct (decide (k <= i < e)); [|rewrite Hout by lia; auto].
      rewrite Hin by lia. by exists STATE_PATCHED.
    + intros i i' Hi Hi' E. destruct (decide (k <= i < e)); [rewrite Hin in E by lia; done|].
      rewrite Hout in E by lia. destruct (decide (k <= i' < e)); [rewrite Hin by lia; by right|].
      rewrite (Hout i') by lia. by apply (Hk i i').
Qed.

(** Original code, if its first byte may be written. *)
Lemma shape_all f n : shape f n → 0 < n → f 0 = Some STATE_INSTRUCTION →
  ∀ i, 0 <= i < n → f i = Some STATE_INSTRUCTION.
Proof.
  intros [Hq|m Hm Hf Hi|Hp Hk] Hn E i Hin.
  - rewrite Hq in E by lia. done.
  - apply Hi. destruct (Z.ltb_spec 0 m) as [Hlt|]; [|lia]. destruct (Hf 0 ltac:(lia) Hlt) as (s & E' & Hs).
    rewrite E in E'. injection E' as <-. done.
  - destruct (Hp 0 ltac:(lia)) as (s & E' & H1 & _). congruence.
Qed.

Lemma shape_candidate f n k s0 s1 :
  shape f n → 0 <= k < n → f k = Some STATE_INSTRUCTION → f 0 = Some s0 → f (n - 1) = Some s1 →
  writable s0 = true ∨ s1 = STATE_FREE → f 0 = Some STATE_INSTRUCTION.
Proof.
  intros [Hq|m Hm Hf Hi|Hp Hk] Hkn Ek E0 E1 Hw.
  - rewrite Hq in Ek by lia. done.
  - destruct (Z.ltb_spec k m) as [Hlt|Hge].
    { destruct (Hf k Hkn Hlt) as (s & E' & Hs). rewrite Ek in E'. injection E' as <-. done. }
    rewrite Hi in E1 by lia. injection E1 as <-. destruct Hw as [Hw|]; [|done].
    destruct (Z.ltb_spec 0 m) as [Hlt|]; [|apply Hi; lia].
    destruct (Hf 0 ltac:(lia) Hlt) as (s & E' & Hs). rewrite E0 in E'. injection E' as <-.
    unfold frozen in Hs. by rewrite Hw in Hs.
  - destruct (Hp k Hkn) as (s & E' & H1 & _). congruence.
Qed.

Lemma shape_not_queued f n k s :
  shape f n → 0 <= k < n → f k = Some s → s ≠ STATE_QUEUED → f 0 ≠ Some STATE_QUEUED.
Proof.
  intros [Hq|m Hm Hf Hi|Hp Hk] Hkn Ek Hs E0.
  - rewrite Hq in Ek by lia. congruence.
  - destruct (Z.ltb_spec 0 m) as [Hlt|]; [|rewrite Hi in E0 by lia; done].
    destruct (Hf 0 ltac:(lia) Hlt) as (s' & E & Hfr). rewrite E0 in E. injection E as <-. done.
  - destruct (Hp 0 ltac:(lia)) as (s' & E & _ & ?). congruence.
Qed.

Section Inv.
Context `{W : Window} {S : Type} `{TR : Trampolines (Binary S)}
  `{VS : !VirtualSpace (Binary S) S}.
Context {ST : Setup} {CT : Contract}.
Implicit Types (b : Binary S) (I K : Instr) (j : iptr).

Definition states b I (i : Z) : option Z := state_at b (i_offset I + i).

(** ** The invariant *)

(** Every instruction but [x] has a shape, and evicted instructions stay evicted. *)
Record wfx (x : option iptr) b l : Prop := {
  wf_layout : layout b;
  wf_live : live b l;
  wf_shape : ∀ j I, Some j ≠ x → instr b j = Some I → shape (states b I) (i_size I);
  wf_evicted : ∀ j I, instr b j = Some I → i_is_evicted I = true →
    ∃ s, state_at b (i_offset I) = Some s ∧ frozen s = true }.

Definition wf : Binary S → list (ptr * Alloc) → Prop := wfx None.

Lemma wf_instr x b l j I : wfx x b l → instr b j = Some I → instr_ok b I.
Proof. intros Hw. apply (la_instr _ (wf_layout _ _ _ Hw)). Qed.

Lemma wfx_weaken x b l : wf b l → wfx x b l.
Proof. intros [H1 H2 H3 H4]. split; [done|done| |done]. intros j I _. by apply H3. Qed.

Lemma states_0 b I : states b I 0 = state_at b (i_offset I).
Proof. unfold states. by rewrite Z.add_0_r. Qed.

(** An instruction with a shape can be replaced by a jump if its first byte is
    writable. *)
Lemma shape_soft b I : 0 < i_size I → shape (states b I) (i_size I) → soft b I.
Proof.
  intros Hn Hs s Es Hw. rewrite <- states_0 in Es. split; [lia|]. split.
  { intros s' Es'. change (states b I 0 = Some s') in Es'. congruence. }
  intros i s' Hi Hi' Es'. rewrite Z.add_0_r in Es'. change (states b I i = Some s') in Es'.
  destruct Hs as [Hq|m Hm Hf Hc|Hp Hk].
  - rewrite Hq in Es by lia. injection Es as <-. done.
  - left. rewrite Hc in Es'; [by injection Es' as <-|].
    destruct (Z.ltb_spec 0 m) as [Hlt|]; [|lia]. destruct (Hf 0 ltac:(lia) Hlt) as (s'' & E & Hfr).
    rewrite Es in E. injection E as <-. unfold frozen in Hfr. by rewrite Hw in Hfr.
  - destruct (Hp 0 ltac:(lia)) as (s'' & E & H1 & H2). rewrite Es in E. injection E as <-.
    unfold writable in Hw. rewrite (proj2 (Z.eqb_neq _ _) H1) in Hw. apply Z.eqb_eq in Hw. subst s.
    destruct (Z.eq_dec i 0) as [->|]; [left; rewrite Es in Es'; by injection Es' as <-|].
    destruct (Hk 0 i ltac:(lia) ltac:(lia) Es) as [E'|E']; rewrite Es' in E'; injection E' as ->;
      [by left|by right; left].
Qed.

Lemma wf_soft b l j I : wf b l → instr b j = Some I → soft b I.
Proof.
  intros Hw EI. pose proof (io_size _ _ (wf_instr _ _ _ _ _ Hw EI)).
  apply shape_soft; [lia|]. by apply (wf_shape _ _ _ Hw j).
Qed.

(** ** Changes at one instruction *)

(** The patch [p] was made at the instruction [j], of which the bytes were changed, and
    those up to [e] locked. *)
Record change b b' j I (p : Patch) (ev : bool) (e : Z) : Prop := {
  ch_saved : saved p b I;
  ch_I : p_I p = j;
  ch_modified : modified b b' j (flag ev I);
  ch_evolves : evolves b b';
  ch_preserves : preserves b b';
  ch_out : same_out b b' (i_offset I) (Z.max (i_offset I + i_size I) e);
  ch_end : e <= i_offset I + PATCH_MAX;
  ch_spilled : spilled b b' I e }.

Lemma change_instr b b' j I p ev e : change b b' j I p ev e → instr b' j = Some (flag ev I).
Proof.
  intros Hc. destruct (ch_modified _ _ _ _ _ _ _ Hc) as (s & bs & st & -> & _).
  unfold instr. destruct b. cbn. apply lookup_insert_eq.
Qed.

Lemma change_other b b' j I p ev e j' : change b b' j I p ev e → j' ≠ j → instr b' j' = instr b j'.
Proof.
  intros Hc Hj. destruct (ch_modified _ _ _ _ _ _ _ Hc) as (s & bs & st & -> & _).
  unfold instr. destruct b. cbn. by apply lookup_insert_ne.
Qed.

Lemma installed_change b b' j I p A a t k :
  layout b → instr b j = Some I →
  installed b b' j I p A a t k →
  change b b' j I p (evicting (Some a)) (i_offset I + k + 5).
Proof.
  intros HL EI [H1 H2 H3 H4 H5 H6 H7 Hh]. pose proof (io_size _ _ (la_instr _ HL _ _ EI)).
  split; try done; [apply Hh| |unfold PATCH_MAX; lia|apply Hh].
  eapply same_out_mono; [apply Hh|lia|lia].
Qed.

(** The other instructions keep their shape. *)
Lemma change_shape b b' j I p ev e j' K :
  layout b → change b b' j I p ev e → instr b j = Some I → j' ≠ j → instr b j' = Some K →
  shape (states b K) (i_size K) → shape (states b' K) (i_size K).
Proof.
  intros HL Hc EI Hj EK Hs. pose proof (io_size _ _ (la_instr _ HL _ _ EK)).
  pose proof (io_size _ _ (la_instr _ HL _ _ EI)). destruct (Z.lt_total j' j) as [Hlt|[?|Hlt]]; [|done|].
  - destruct (la_sorted _ HL _ _ _ _ Hlt EK EI) as [Ho _]. apply (shape_ext (states b K)); [|done].
    intros i Hi. apply (ch_out _ _ _ _ _ _ _ Hc). lia.
  - destruct (la_sorted _ HL _ _ _ _ Hlt EI EK) as [Ho _].
    apply (shape_spilled (states b K) _ _ (e - i_offset K)); [| |done].
    + intros i Hi Hm. apply (ch_spilled _ _ _ _ _ _ _ Hc). lia.
    + intros i Hi Hi0. apply (ch_out _ _ _ _ _ _ _ Hc). lia.
Qed.

Lemma change_wfx x y b b' l l' j I p ev e :
  wfx x b l → instr b j = Some I → change b b' j I p ev e → live b' l' →
  x = None ∨ x = Some j →
  (ev = true → ∃ s, state_at b' (i_offset I) = Some s ∧ frozen s = true) →
  (y = None → shape (states b' I) (i_size I)) → y = None ∨ y = Some j →
  wfx y b' l'.
Proof.
  intros Hw EI Hc Hl Hx Hev Hsh Hy. pose proof (wf_layout _ _ _ Hw) as HL.
  pose proof (change_instr _ _ _ _ _ _ _ Hc) as Ej.
  split; [|done| |].
  - eapply layout_evolves; [by eapply ch_evolves|done].
  - intros j' K Hne EK. destruct (decide (j' = j)) as [->|Hj].
    + rewrite Ej in EK. injection EK as <-. destruct Hy as [->| ->]; [|done].
      destruct ev; [|]; by apply Hsh.
    + rewrite (change_other _ _ _ _ _ _ _ _ Hc Hj) in EK.
      eapply change_shape; try done. apply (wf_shape _ _ _ Hw j'); [|done].
      destruct Hx as [->| ->]; [done|]. by intros [=].
  - intros j' K EK HK. destruct (decide (j' = j)) as [->|Hj].
    + rewrite Ej in EK. injection EK as <-.
      assert (Ho : i_offset (flag ev I) = i_offset I) by (by destruct ev). rewrite Ho.
      destruct ev; [by apply Hev|]. destruct (wf_evicted _ _ _ Hw j I EI) as (s & Es & Hs); [by destruct I|].
      by apply (ch_preserves _ _ _ _ _ _ _ Hc) in Es as [_ ?].
    + rewrite (change_other _ _ _ _ _ _ _ _ Hc Hj) in EK.
      destruct (wf_evicted _ _ _ Hw j' K EK HK) as (s & Es & Hs).
      by apply (ch_preserves _ _ _ _ _ _ _ Hc) in Es as [_ ?].
Qed.

(** Instructions in the queue stay there. *)
Lemma change_queued b b' j I p ev e j' K :
  layout b → change b b' j I p ev e → instr b j = Some I →
  state_at b (i_offset I) ≠ Some STATE_QUEUED → instr b j' = Some K →
  state_at b (i_offset K) = Some STATE_QUEUED → state_at b' (i_offset K) = Some STATE_QUEUED.
Proof.
  intros HL Hc EI Hq EK EsK. pose proof (io_size _ _ (la_instr _ HL _ _ EK)).
  pose proof (io_size _ _ (la_instr _ HL _ _ EI)).
  destruct (Z.lt_total j' j) as [Hlt|[->|Hlt]]; [|congruence|].
  - destruct (la_sorted _ HL _ _ _ _ Hlt EK EI) as [Ho _].
    destruct (ch_out _ _ _ _ _ _ _ Hc (i_offset K)) as [_ ->]; [lia|done].
  - destruct (la_sorted _ HL _ _ _ _ Hlt EI EK) as [Ho _].
    destruct (Z.ltb_spec (i_offset K) e) as [He|He].
    + destruct (ch_spilled _ _ _ _ _ _ _ Hc (i_offset K)) as (s & Es & Hs & _); [lia|]. congruence.
    + destruct (ch_out _ _ _ _ _ _ _ Hc (i_offset K)) as [_ ->]; [lia|done].
Qed.

Lemma installed_wf x b b' l l' j I p A a t k :
  wfx x b l → instr b j = Some I → x = None ∨ x = Some j →
  installed b b' j I p A a t k → live b' l' → wf b' l'.
Proof.
  intros Hw EI Hx Hin Hl. pose proof (installed_change _ _ _ _ _ _ _ _ _ (wf_layout _ _ _ Hw) EI Hin) as Hc.
  pose proof (in_hooked _ _ _ _ _ _ _ _ _ Hin) as Hh.
  eapply (change_wfx x None); try done; [| |by left].
  - intros _. exists STATE_PATCHED. split; [apply Hh|done].
  - intros _. apply shape_patched.
    + intros i Hi. destruct (ho_inside _ _ _ _ _ Hh i Hi) as (s & E & Hs). exists s. split; [done|].
      by destruct Hs as [->| ->].
    + intros i k' Hi Hk' _. destruct (ho_inside _ _ _ _ _ Hh k' ltac:(lia)) as (s & E & [->| ->]); [by right|by left].
Qed.

(** ** Undoing patches *)

(** Undoing [P] in the state [b] (but for the space) gives [b0]. *)
Definition undoable b0 l0 (P : list Patch) b l : Prop :=
  ∀ b1, restored b l b1 → ∃ b2, undo opts P b1 = Some b2 ∧ restored b0 l0 b2.

Lemma undoable_nil b l : undoable b l [] b l.
Proof. intros b1 Hr. by exists b1. Qed.

Lemma change_undoable b0 l0 P b b' l l' j I p ev e :
  wf b l → instr b j = Some I → i_is_evicted I = false → change b b' j I p ev e →
  match p_A p with
  | None => l' = l
  | Some A => ∃ l1 a l2, l = l1 ++ l2 ∧ l' = l1 ++ (A, a) :: l2 ∧ a_T a ≠ None
  end →
  undoable b0 l0 P b l → undoable b0 l0 (p :: P) b' l'.
Proof.
  intros Hw EI Hev Hc HA Hu b1 Hr. pose proof (io_size _ _ (wf_instr _ _ _ _ _ Hw EI)).
  destruct (undo_one p P b b1 I (flag ev I) l l') as (b2 & E & Hr2); try done.
  - apply Hc.
  - rewrite (ch_I _ _ _ _ _ _ _ Hc). destruct (ch_modified _ _ _ _ _ _ _ Hc) as (s & bs & st & -> & H1 & H2).
    destruct Hr as (s' & -> & _). exists s', bs, st. by destruct b.
  - destruct Hr as (s' & -> & _). apply (same_out_mono _ _ _ _ (i_offset I) (i_offset I + PATCH_MAX)
      (ch_out _ _ _ _ _ _ _ Hc)); [lia|]. pose proof (ch_end _ _ _ _ _ _ _ Hc). unfold PATCH_MAX in *. lia.
  - by destruct ev.
  - destruct I; cbn in Hev; subst; by destruct ev.
  - by eapply restored_live.
  - rewrite E. by apply Hu.
Qed.

(** ** Rewriting the bytes of an instruction *)

Lemma change_intro b b' j I p ev e :
  instr b j = Some I → saved p b I → p_I p = j →
  rewrites (set_B_Is (<[j := flag ev I]> (B_Is b)) b) b' → preserves b b' →
  same_out b b' (i_offset I) (Z.max (i_offset I + i_size I) e) →
  e <= i_offset I + PATCH_MAX → spilled b b' I e → change b b' j I p ev e.
Proof.
  intros EI Hs Hp Hr Hpr Ho He Hsp. split; try done; [by apply rewrites_modified|].
  eapply evolves_trans; [|by apply rewrites_evolves]. eapply Is_evolves; [done|apply clear_flag].
Qed.

Lemma spilled_inside b b' I e : e <= i_offset I + i_size I → spilled b b' I e.
Proof. intros He q Hq. lia. Qed.

(** Overwriting a byte that is writable. *)
Lemma write_preserves b b' q0 v s0 s :
  state_at b q0 = Some s0 → writable s0 = true →
  (∀ q, byte_at b' q = (if decide (q = q0) then Some v else byte_at b q) ∧
        state_at b' q = (if decide (q = q0) then Some s else state_at b q)) →
  preserves b b'.
Proof.
  intros E0 Hw Hq q s1 Es Hs. destruct (Hq q) as [Eb Es']. destruct (decide (q = q0)) as [->|].
  - exfalso. rewrite E0 in Es. injection Es as <-. unfold frozen in Hs. by rewrite Hw in Hs.
  - rewrite Eb, Es'. eauto.
Qed.

Lemma unused_ok j k b I :
  instr b j = Some I → instr_ok b I → 0 <= k <= i_size I →
  ∃ b', patchUnused j k b = Some b' ∧ rewrites b b' ∧ preserves b b' ∧
    (∀ q, ¬ (i_offset I + k <= q < i_offset I + i_size I) →
       byte_at b' q = byte_at b q ∧ state_at b' q = state_at b q) ∧
    ∀ i, k <= i < i_size I → states b' I i = freed_state <$> states b I i.
Proof.
  intros EI Ho Hk. pose proof (io_size _ _ Ho). unfold patchUnused. rewrite EI. cbn [mbind option_bind].
  rewrite (proj2 (Z.leb_le k (i_size I))) by lia. cbn [assert_ mbind option_bind].
  assert (Hm : ∀ i, 0 <= i < i_size I → mapped b (i_offset I + i)) by (intros i Hi; apply mapped_near; [done|lia]).
  destruct (free_bytes_ok I (Z.to_nat (i_size I - k)) k b) as (b' & -> & Hr & Hq).
  { intros i Hi. rewrite <- Z.add_assoc. apply Hm. lia. }
  replace (i_offset I + k + Z.of_nat (Z.to_nat (i_size I - k))) with (i_offset I + i_size I) in Hq by lia.
  exists b'. split; [done|]. split; [done|]. split; [|split].
  - intros q s Es Hs. specialize (Hq q). destruct (decide _) as [Hd|].
    + destruct (byte_mapped b q) as [v Ev].
      { replace q with (i_offset I + (q - i_offset I)) by lia. apply Hm. lia. }
      destruct (Hq v s Ev Es) as [-> ->]. destruct (frozen_freed v s Hs) as [-> ->]. rewrite Ev. eauto.
    + destruct Hq as [-> ->]. eauto.
  - intros q Hd. specialize (Hq q). by rewrite decide_False in Hq.
  - intros i Hi. unfold states. destruct (byte_mapped b _ (Hm i ltac:(lia))) as [v Ev].
    destruct (state_mapped b _ (Hm i ltac:(lia))) as [s Es]. specialize (Hq (i_offset I + i)).
    rewrite decide_True in Hq by lia. destruct (Hq v s Ev Es) as [_ ->]. by rewrite Es.
Qed.

Lemma flag_instr b j I ev : instr b j = Some I →
  instr (set_B_Is (<[j := flag ev I]> (B_Is b)) b) j = Some (flag ev I).
Proof. intros _. unfold instr. destruct b. cbn. apply lookup_insert_eq. Qed.

(** ** Where an instruction lands *)

Definition near_jump b I (dest : Z) : Prop :=
  ∃ k, 0 <= k <= 3 ∧ fixed b (i_offset I) (take (Z.to_nat k) prefixes) ∧
       fixed b (i_offset I + k) (jump_bytes I k dest).

Definition short_jump b I (dest : Z) : Prop :=
  ∃ J K k, instr b J = Some K ∧ 0 <= k < i_size K ∧
    INT8_MIN <= i_addr K + k - (i_addr I + 2) <= INT8_MAX ∧
    fixed b (i_offset I) [0xeb; u8 (i_addr K + k - (i_addr I + 2))] ∧
    fixed b (i_offset K + k) (jump_bytes K k dest).

(** The instructions from [J] to [L] are adjacent, and only the first one may be the
    target of a jump. *)
Definition batch b (J L : iptr) : Prop :=
  ∀ i, J <= i <= L → ∃ I, instr b i = Some I ∧
    (J < i → i_target I = false ∧
       ∃ K, instr b (i - 1) = Some K ∧ i_offset K ≠ 0 ∧ i_offset K + i_size K = i_offset I).

Definition batch_trampoline (last : Z) : Trampoline :=
  MkTrampoline (Z.lor PROT_READ PROT_EXEC) false [ENTRY_BATCH last].

(** Control that reaches the instruction [I] goes on in an allocation for [T]: by a jump,
    by a short jump to a jump, or by a trap that the loader handles; or the instruction
    is in a batch, whose first instruction is a jump to an allocation for the batch. *)
Inductive lands b (l : list (ptr * Alloc)) j I (T : option ptr) : Prop :=
| lands_near A a :
    (A, a) ∈ l → a_T a = T → near_jump b I (a_lb a + a_entry a) → lands b l j I T
| lands_short A a :
    (A, a) ∈ l → a_T a = T → short_jump b I (a_lb a + a_entry a) → lands b l j I T
| lands_trap A a :
    (A, a) ∈ l → a_T a = T → Some A ∈ B_Traps b → fixed b (i_offset I) [0x27] → lands b l j I T
| lands_batch A a U J L K KL :
    i_T I = T → J <= j <= L → J < L → batch b J L → instr b J = Some K → instr b L = Some KL →
    B_Ts b !! U = Some (batch_trampoline (i_addr KL)) →
    (A, a) ∈ l → a_T a = Some U → near_jump b K (a_lb a + a_entry a) → lands b l j I T.

Lemma jump_bytes_clear I I' k dest : clear I' = clear I → jump_bytes I' k dest = jump_bytes I k dest.
Proof. intros Hc. destruct (clear_fields _ _ Hc) as (_ & _ & E & _). unfold jump_bytes. by rewrite E. Qed.

Lemma near_jump_mono b b' I I' dest :
  preserves b b' → clear I' = clear I → near_jump b I dest → near_jump b' I' dest.
Proof.
  intros Hp Hc (k & Hk & H1 & H2). destruct (clear_fields _ _ Hc) as (E & _). exists k.
  rewrite E, (jump_bytes_clear _ _ _ _ Hc). split_and!; [lia|lia|by eapply fixed_preserves|by eapply fixed_preserves].
Qed.

(** Later patches do not change where the instruction lands. *)
Lemma lands_mono b b' l l' j I I' T :
  evolves b b' → preserves b b' → l ⊆ l' → clear I' = clear I → lands b l j I T → lands b' l' j I' T.
Proof.
  intros He Hp Hl Hc Hlands. destruct (clear_fields _ _ Hc) as (E1 & E2 & E3 & _ & _ & _ & E7).
  destruct Hlands as [A a Hin HT Hj|A a Hin HT (J & K & k & EJ & Hk & Hd & H1 & H2)|A a Hin HT Htr Hf
                     |A a U J L K KL EIT Hj Hlt Hb EJ EL EU Hin HT Hn].
  - eapply lands_near; [by apply Hl|done|by eapply near_jump_mono].
  - eapply lands_short; [by apply Hl|done|].
    destruct (evolves_instr _ _ _ _ He EJ) as (K' & EJ' & HcK).
    destruct (clear_fields _ _ HcK) as (F1 & F2 & F3 & _).
    exists J, K', k. rewrite F1, F2, F3, E1, E3, (jump_bytes_clear _ _ _ _ HcK).
    split_and!; [done|lia|lia|lia|lia|by eapply fixed_preserves|by eapply fixed_preserves].
  - eapply lands_trap; [by apply Hl|done|by apply (ev_Traps _ _ He)|].
    rewrite E1. by eapply fixed_preserves.
  - destruct (evolves_instr _ _ _ _ He EJ) as (K' & EJ' & HcK).
    destruct (evolves_instr _ _ _ _ He EL) as (KL' & EL' & HcL).
    destruct (clear_fields _ _ HcL) as (_ & _ & F3 & _).
    apply (lands_batch _ _ _ _ _ A a U J L K' KL'); try done; [by rewrite E7| |by rewrite F3; eapply lookup_weaken, ev_Ts|by apply Hl|by eapply near_jump_mono].
    intros i Hi. destruct (Hb i Hi) as (X & EX & HX). destruct (evolves_instr _ _ _ _ He EX) as (X' & EX' & HcX).
    destruct (clear_fields _ _ HcX) as (G1 & _ & _ & _ & _ & G6 & _). exists X'. split; [done|]. intros Hlt'.
    destruct (HX Hlt') as (Ht & Y & EY & HY1 & HY2). rewrite G6, G1. split; [done|].
    destruct (evolves_instr _ _ _ _ He EY) as (Y' & EY' & HcY).
    exists Y'. destruct (clear_fields _ _ HcY) as (Q1 & Q2 & _). rewrite Q1, Q2. done.
Qed.

End Inv.

End TacticsInv.
