(* ===== verification/E9TacticsEvict.v ===== *)
(** * E9TacticsEvict: the tactics that change one or two instructions

    The outcome of a tactic, and the proofs that the tactics B0, T2 and T3 of
    src/src/e9patch/e9tactics.cpp (with the evictions of the last two) either restore the
    binary or keep the invariant and make the instruction land. *)

From stdpp Require Import gmap.
From S2P Require Import Prelude E9Patch E9Alloc E9AllocTree E9AllocSpec E9AllocApi E9X86 E9Tactics E9TacticsMem E9TacticsSpec E9TacticsInv.

Module TacticsEvict.
Import E9 E9Alloc AllocTree AllocSpec AllocApi E9X86 E9Tactics TacticsMem TacticsSpec TacticsInv.

Section Evict.
Context `{W : Window} {S : Type} `{TR : Trampolines (Binary S)}
  `{VS : !VirtualSpace (Binary S) S}.
Context {ST : Setup} {CT : Contract}.
Implicit Types (b : Binary S) (I K : Instr) (j : iptr).

(** ** Outcomes *)

(** What [commit] needs of a list of patches. *)
Definition committable (P : list Patch) b (l : list (ptr * Alloc)) : Prop :=
  P ≠ [] ∧ ∀ p, p ∈ P → (∃ I, instr b (p_I p) = Some I) ∧
    ∀ A, p_A p = Some A → ∃ a, (A, a) ∈ l.

(** What waited in the queue still does, or it is in a batch that was patched. *)
Definition queue_kept b b' (l' : list (ptr * Alloc)) : Prop :=
  ∀ i X, instr b i = Some X → state_at b (i_offset X) = Some STATE_QUEUED →
    state_at b' (i_offset X) = Some STATE_QUEUED ∨ lands b' l' i X (i_T X).

Lemma change_queue_kept b b' j I p ev e l' :
  layout b → change b b' j I p ev e → instr b j = Some I →
  state_at b (i_offset I) ≠ Some STATE_QUEUED → queue_kept b b' l'.
Proof. intros HL Hc EI Hq i X EX Es. left. by eapply change_queued. Qed.

Lemma queue_kept_trans b b1 b2 l1 l2 :
  evolves b b1 → evolves b1 b2 → preserves b1 b2 → l1 ⊆ l2 →
  queue_kept b b1 l1 → queue_kept b1 b2 l2 → queue_kept b b2 l2.
Proof.
  intros He1 He2 Hp2 Hl H1 H2 i X EX Es. destruct (evolves_instr _ _ _ _ He1 EX) as (X1 & EX1 & Hc).
  destruct (clear_fields _ _ Hc) as (Eo & _ & _ & _ & _ & _ & ET).
  destruct (H1 i X EX Es) as [Es1|Hlands].
  - rewrite <- Eo in Es1. destruct (H2 i X1 EX1 Es1) as [Es2|Hlands]; [left; by rewrite <- Eo|right].
    rewrite <- ET. apply (lands_mono b2 b2 l2 l2 i X1); [apply evolves_refl|reflexivity|done|symmetry; exact Hc|exact Hlands].
  - right. by apply (lands_mono b1 b2 l1 l2 i X X).
Qed.

(** The binary was patched, the invariant holds, and what was frozen still is. *)
Record patched b (l : list (ptr * Alloc)) b' l' (P : list Patch) : Prop := {
  pa_wf : wf b' l';
  pa_evolves : evolves b b';
  pa_preserves : preserves b b';
  pa_allocs : l ⊆ l';
  pa_queued : queue_kept b b' l';
  pa_commit : committable P b' l' }.

(** The instruction lands, or it is a trap that [commit] is going to record. *)
Definition placed b (l : list (ptr * Alloc)) (P : list Patch) j I (T : option ptr) : Prop :=
  lands b l j I T ∨
  ∃ p A a, P = [p] ∧ p_tactic p = TACTIC_B0 ∧ p_A p = Some A ∧ (A, a) ∈ l ∧ a_T a = T ∧
    fixed b (i_offset I) [0x27].

Definition outcome b l j I (T : option ptr) (r : option (list Patch) * Binary S) : Prop :=
  match r with
  | (None, b') => restored b l b'
  | (Some P, b') => ∃ l', patched b l b' l' P ∧ placed b' l' P j I T
  end.

Lemma restored_wf b l b1 x : restored b l b1 → wfx x b l → wfx x b1 l.
Proof.
  intros (s & -> & Hl) [H1 H2 H3 H4]. split; [|by destruct b| |]; [|by destruct b..].
  eapply layout_evolves, H1. apply space_evolves.
Qed.

Lemma restored_outcome b l b1 j I T r : restored b l b1 → outcome b1 l j I T r → outcome b l j I T r.
Proof.
  intros Hr. destruct r as [[P|] b']; cbn; [|by eapply restored_trans].
  intros (l' & [H1 H2 H3 H4 H5 H6] & Hp). exists l'. split; [|done]. destruct Hr as (s & -> & _).
  split; [done| |exact H3|done|exact H5|done].
  eapply evolves_trans; [apply (space_evolves s)|done].
Qed.

Lemma outcome_or b l j I T (r : result (S := S)) k :
  wf b l → instr b j = Some I → safely r (outcome b l j I T) →
  (∀ b1, restored b l b1 → wf b1 l → instr b1 j = Some I → safely (k b1) (outcome b1 l j I T)) →
  safely (or_try r k) (outcome b l j I T).
Proof.
  intros Hw EI Hr Hk. unfold or_try. apply safely_bind. eapply safely_mono; [exact Hr|].
  intros [[P|] b1] H1; cbn beta iota; [exact H1|].
  eapply safely_mono; [apply (Hk b1 H1)|].
  - by eapply restored_wf.
  - by rewrite (restored_instr _ _ _ _ H1).
  - intros r'. by apply restored_outcome.
Qed.

Lemma allocs_insert (l1 l2 : list (ptr * Alloc)) x :
  l1 ++ l2 ⊆ l1 ++ x :: l2 ∧ x ∈ l1 ++ x :: l2.
Proof.
  split; [|apply elem_of_app; right; by left].
  intros y [Hy|Hy]%elem_of_app; apply elem_of_app; [by left|right; by right].
Qed.

Lemma writable_not_queued s : writable s = true → Some s ≠ Some STATE_QUEUED.
Proof. intros Hs [= ->]. done. Qed.

Lemma installed_queue_kept b b' j I p A a t k l' :
  layout b → instr b j = Some I →
  installed b b' j I p A a t k → queue_kept b b' l'.
Proof.
  intros HL EI Hin. eapply change_queue_kept; [exact HL|by eapply installed_change|done|].
  pose proof (in_hooked _ _ _ _ _ _ _ _ _ Hin) as Hh. pose proof (in_k _ _ _ _ _ _ _ _ _ Hin).
  destruct (state_at b (i_offset I)) as [s|] eqn:Es; [|done]. apply writable_not_queued.
  apply (ho_writable _ _ _ _ _ Hh 0); [lia|by rewrite Z.add_0_r].
Qed.

Lemma installed_near b b' j I p A a t k :
  installed b b' j I p A a t k → near_jump b' I (a_lb a + a_entry a).
Proof. intros [H1 H2 H3 H4 H5 H6 H7 Hh]. exists k. split_and!; [lia|lia|apply Hh|apply Hh]. Qed.

Lemma single_outcome b l j I T t r :
  wf b l → instr b j = Some I → single b l j I T t r → outcome b l j I T r.
Proof.
  intros Hw EI. destruct r as [[P|] b']; [|done].
  intros (p & A & l1 & a & l2 & k & -> & -> & HT & Hl & Hin). exists (l1 ++ (A, a) :: l2).
  destruct (allocs_insert l1 l2 (A, a)) as [Hsub HA]. split.
  - split; [|apply Hin|apply (in_hooked _ _ _ _ _ _ _ _ _ Hin)|done| |].
    + eapply installed_wf; try done. by left.
    + eapply installed_queue_kept; [apply Hw|done|exact Hin].
    + split; [done|]. intros q Hq. apply list_elem_of_singleton in Hq as ->. split.
      * rewrite (in_I _ _ _ _ _ _ _ _ _ Hin). eexists.
        by eapply change_instr, installed_change, Hin; [apply Hw|].
      * intros A' E. rewrite (in_A _ _ _ _ _ _ _ _ _ Hin) in E. injection E as <-. by exists a.
  - left. eapply lands_near; [done|done|]. by eapply installed_near.
Qed.

(** ** Tactic B0 *)

Lemma trap_bytes b j I ev :
  layout b → instr b j = Some I → state_at b (i_offset I) = Some STATE_INSTRUCTION →
  let b0 := set_B_Is (<[j := flag ev I]> (B_Is b)) b in
  ∃ b1 b2, patchTrap j b0 = Some b1 ∧ patchUnused j 1 b1 = Some b2 ∧ rewrites b0 b2 ∧ preserves b b2 ∧
    same_out b b2 (i_offset I) (i_offset I + i_size I) ∧
    fixed b2 (i_offset I) [0x27] ∧ states b2 I 0 = Some STATE_PATCHED ∧
    ∀ i, 1 <= i < i_size I → states b2 I i = freed_state <$> states b I i.
Proof.
  intros HL EI Es b0. pose proof (la_instr _ HL _ _ EI) as Ho. pose proof (io_size _ _ Ho).
  assert (E0 : instr b0 j = Some (flag ev I)) by (by apply flag_instr).
  assert (Fo : i_offset (flag ev I) = i_offset I) by (by destruct ev).
  assert (Fs : i_size (flag ev I) = i_size I) by (by destruct ev).
  unfold patchTrap. rewrite E0. cbn [mbind option_bind]. unfold STATE. fold (state_at b0 (i_offset (flag ev I) + 0)).
  rewrite Fo, Z.add_0_r. change (state_at b0) with (state_at b). rewrite Es. cbn [mbind option_bind].
  change (writable STATE_INSTRUCTION) with true. cbn [assert_ mbind option_bind].
  destruct (write_ok (flag ev I) 0 0x27 STATE_PATCHED b0) as (b1 & -> & R1 & Q1); [|done|].
  { rewrite Fo. by apply (mapped_near b I 0 Ho). }
  rewrite Fo, Z.add_0_r in Q1.
  assert (P1 : preserves b b1) by (by eapply (write_preserves b b1)).
  destruct (unused_ok j 1 b1 (flag ev I)) as (b2 & E2 & R2 & P2 & Out2 & In2).
  { by rewrite (rewrites_instr _ _ _ R1). }
  { eapply (instr_ok_evolves b); [|apply clear_flag|done].
    eapply evolves_trans; [eapply Is_evolves; [done|apply clear_flag]|by apply rewrites_evolves]. }
  { rewrite Fs. lia. }
  rewrite Fo, Fs in *. exists b1, b2. split; [done|]. split; [done|].
  assert (Q0 : byte_at b2 (i_offset I) = Some 0x27 ∧ state_at b2 (i_offset I) = Some STATE_PATCHED).
  { destruct (Out2 (i_offset I)) as [-> ->]; [lia|]. destruct (Q1 (i_offset I)) as [-> ->].
    by rewrite !decide_True by done. }
  split_and!.
  - by eapply rewrites_trans.
  - by etrans.
  - intros q Hq. destruct (Out2 q) as [-> ->]; [lia|]. destruct (Q1 q) as [-> ->]. by rewrite !decide_False by lia.
  - intros i v Hv. destruct i as [|i]; [|by destruct i]. injection Hv as <-.
    change (Z.of_nat 0) with 0. rewrite Z.add_0_r. split; [apply Q0|]. exists STATE_PATCHED. by split; [apply Q0|].
  - rewrite states_0. apply Q0.
  - intros i Hi. specialize (In2 i Hi). unfold states in *. rewrite Fo in In2. rewrite In2.
    destruct (Q1 (i_offset I + i)) as [_ ->]. rewrite decide_False by lia. done.
Qed.

(** Original code whose first bytes were overwritten, and whose other bytes were freed. *)
Lemma shape_overwritten b b' I k :
  shape (states b I) (i_size I) → 0 < i_size I → states b I 0 = Some STATE_INSTRUCTION →
  (∀ i, 0 <= i < i_size I → i < k → states b' I i = Some STATE_PATCHED) →
  (∀ i, k <= i < i_size I → states b' I i = freed_state <$> states b I i) →
  0 <= k → shape (states b' I) (i_size I).
Proof.
  intros Hs Hn E0 Hlo Hhi Hk. pose proof (shape_all _ _ Hs Hn E0) as Hall.
  assert (Hcase : ∀ i, 0 <= i < i_size I →
    states b' I i = Some STATE_FREE ∨ states b' I i = Some STATE_PATCHED).
  { intros i Hi. destruct (Z.ltb_spec i k) as [Hlt|]; [right; by apply Hlo|].
    left. rewrite Hhi by lia. by rewrite Hall by lia. }
  apply shape_patched.
  - intros i Hi. destruct (Hcase i Hi) as [-> | ->]; eexists; by split_and!.
  - intros i i' Hi Hi' _. apply Hcase. lia.
Qed.

Lemma tactic_B0_ok j T b l I :
  wf b l → instr b j = Some I → state_at b (i_offset I) = Some STATE_INSTRUCTION →
  safely (tactic_B0 opts evicteeTrampoline j T b) (outcome b l j I T).
Proof.
  intros Hw EI Es. pose proof (wf_layout _ _ _ Hw) as HL. pose proof (io_size _ _ (wf_instr _ _ _ _ _ Hw EI)).
  unfold tactic_B0. destruct (negb _); [by apply restored_refl, Hw|].
  apply safely_bind. eapply safely_mono; [apply (trap_ok j T b l I); [done|apply Hw|done]|].
  intros [[A|] b1] Hr; [|exact Hr]. destruct Hr as (l1 & a & l2 & -> & Hr & HT & _). cbn beta iota.
  pose proof (restored_live _ _ _ Hr) as Hl1. destruct Hr as (s & -> & _). set (bs := set_B_space s b) in *.
  assert (HLs : layout bs) by (eapply layout_evolves, HL; apply space_evolves).
  assert (EIs : instr bs j = Some I) by exact EI. destruct (allocs_insert l1 l2 (A, a)) as [Hsub HA].
  destruct (new_Patch_ok j TACTIC_B0 bs _ I (Some (A, a)) HLs Hl1 EIs) as (p & Ep & Hsv & EA & Ej & Et).
  { by intros x [= <-]. }
  cbn [fmap option_fmap option_map fst snd] in Ep, EA. rewrite Ep. cbn [mbind option_bind].
  set (ev := evicting (Some a)) in *.
  destruct (trap_bytes bs j I ev HLs EIs Es) as (b1 & b2 & -> & E2 & R2 & P2 & Out2 & F2 & S0 & Sn).
  cbn [mbind option_bind]. rewrite E2. cbn [mbind option_bind safely].
  assert (Hc : change bs b2 j I p ev (i_offset I + i_size I)).
  { apply change_intro; try done; [|unfold PATCH_MAX; lia|by apply spilled_inside].
    by rewrite Z.max_id. }
  assert (Hws : wfx None bs (l1 ++ (A, a) :: l2)).
  { destruct Hw as [W1 W2 W3 W4]. by split. }
  assert (Hlb : live b2 (l1 ++ (A, a) :: l2)).
  { unfold live. rewrite (rewrites_space _ _ R2). exact Hl1. }
  exists (l1 ++ (A, a) :: l2). split.
  - split; [| |exact P2|done| |].
    + eapply (change_wfx None None bs); try done; [by left| | |by left].
      * intros _. exists STATE_PATCHED. by rewrite <- states_0.
      * intros _. eapply (shape_overwritten bs _ _ 1); [by apply (wf_shape _ _ _ Hws j)|lia|by rewrite states_0| |done|lia].
        intros i Hi Hlt. by replace i with 0 by lia.
    + eapply evolves_trans; [apply (space_evolves s)|apply Hc].
    + eapply (change_queue_kept bs); [done|exact Hc|done|]. change (state_at bs) with (state_at b). by rewrite Es.
    + split; [done|]. intros q Hq. apply list_elem_of_singleton in Hq as ->. rewrite Ej, EA. split.
      * eexists. by eapply change_instr.
      * intros A' [= <-]. by exists a.
  - right. exists p, A, a. by split_and!.
Qed.

(** ** Tactic T2 *)

Lemma installed_undoable b l j I p A a l1 l2 b' t k :
  wf b l → instr b j = Some I → i_is_evicted I = false → l = l1 ++ l2 → a_T a ≠ None →
  installed b b' j I p A a t k → undoable b l [p] b' (l1 ++ (A, a) :: l2).
Proof.
  intros Hw EI Hev -> HT Hin. pose proof (installed_change _ _ _ _ _ _ _ _ _ (wf_layout _ _ _ Hw) EI Hin) as Hc.
  eapply (change_undoable b _ []); [exact Hw|exact EI|exact Hev|exact Hc| |apply undoable_nil].
  rewrite (in_A _ _ _ _ _ _ _ _ _ Hin). by exists l1, a, l2.
Qed.

Lemma single_lands b l j I T t P b' :
  wf b l → instr b j = Some I → single b l j I T t (Some P, b') →
  ∃ l' p, P = [p] ∧ patched b l b' l' P ∧ lands b' l' j I T ∧
    (i_is_evicted I = false → T ≠ None → undoable b l [p] b' l') ∧
    ∀ j', j' ≠ j → instr b' j' = instr b j'.
Proof.
  intros Hw EI Hs. pose proof Hs as (p & A & l1 & a & l2 & k & -> & -> & HT & Hl & Hin).
  destruct (single_outcome _ _ _ _ _ _ _ Hw EI Hs) as (l' & Hp & _).
  exists (l1 ++ (A, a) :: l2), p. destruct (allocs_insert l1 l2 (A, a)) as [Hsub HA].
  pose proof (installed_change _ _ _ _ _ _ _ _ _ (wf_layout _ _ _ Hw) EI Hin) as Hc.
  split_and!; [done| |eapply lands_near; [done..|by eapply installed_near]| |].
  2: { intros Hev HT0. eapply installed_undoable; try done. by rewrite HT. }
  2: { intros j'. by apply (change_other _ _ _ _ _ _ _ _ Hc). }
  split; [|apply Hp|apply Hp|done| |].
  - eapply installed_wf; try done. by left.
  - eapply installed_queue_kept; [apply Hw|done|exact Hin].
  - split; [done|]. intros q Hq. apply list_elem_of_singleton in Hq as ->. split.
    + rewrite (in_I _ _ _ _ _ _ _ _ _ Hin). eexists.
      by eapply change_instr, installed_change, Hin; [apply Hw|].
    + intros A' E. rewrite (in_A _ _ _ _ _ _ _ _ _ Hin) in E. injection E as <-. by exists a.
Qed.

Lemma committable_mono P b b' l l' :
  committable P b l → evolves b b' → l ⊆ l' → committable P b' l'.
Proof.
  intros [Hn Hc] He Hl. split; [done|]. intros p Hp. destruct (Hc p Hp) as [(I & EI) HA]. split.
  - destruct (evolves_instr _ _ _ _ He EI) as (I' & EI' & _). by exists I'.
  - intros A EA. destruct (HA A EA) as (a & Ha). exists a. by apply Hl.
Qed.

(** A patch of which only the tactic or the allocation was changed. *)
Lemma committable_cons p P b l :
  (∃ I, instr b (p_I p) = Some I) → (∀ A, p_A p = Some A → ∃ a, (A, a) ∈ l) →
  (P = [] ∨ committable P b l) → committable (p :: P) b l.
Proof.
  intros HI HA HP. split; [done|]. intros q [->|Hq]%elem_of_cons; [done|].
  destruct HP as [->|[_ HP]]; [by apply elem_of_nil in Hq|by apply HP].
Qed.

Lemma patched_trans b l b1 l1 b2 l2 P Q R :
  patched b l b1 l1 Q → patched b1 l1 b2 l2 P → committable R b2 l2 → patched b l b2 l2 R.
Proof.
  intros [A1 A2 A3 A4 A5 A6] [B1 B2 B3 B4 B5 B6] HR. split; [done| | | | |done].
  - by eapply evolves_trans.
  - by etrans.
  - by etrans.
  - by eapply (queue_kept_trans b b1 b2 l1 l2).
Qed.

(** An instruction that can be patched was not evicted. *)
Lemma not_evicted b l j I s :
  wf b l → instr b j = Some I → state_at b (i_offset I) = Some s → frozen s = false → i_is_evicted I = false.
Proof.
  intros Hw EI Es Hs. destruct (i_is_evicted I) eqn:E; [|done].
  destruct (wf_evicted _ _ _ Hw j I EI E) as (s' & Es' & Hf). congruence.
Qed.

Lemma writable_not_frozen s : writable s = true → frozen s = false.
Proof. unfold frozen. by intros ->. Qed.

Lemma succ_Some b j J : succ b j = Some (Some J) →
  ∃ I K, J = j + 1 ∧ instr b j = Some I ∧ instr b J = Some K ∧ i_offset K ≠ 0 ∧
    i_offset I + i_size I = i_offset K.
Proof.
  unfold succ. destruct (instr b j) as [I|]; [|done]. cbn [mbind option_bind]. intros [= E].
  destruct (instr b (j + 1)) as [K|] eqn:EK; [|done]. destruct (_ || _) eqn:Ec; [done|]. injection E as <-.
  apply orb_false_iff in Ec as [H0%Z.eqb_neq H1%negb_false_iff%Z.eqb_eq]. exists I, K. done.
Qed.

Lemma succ_ok b j I : instr b j = Some I → ∃ n, succ b j = Some n.
Proof. unfold succ. intros ->. cbn. eauto. Qed.

Lemma evictions_ok b l J K t :
  wf b l → instr b J = Some K → soft b K →
  let U := Some evicteeTrampoline in
  safely (or_try (tactic_B2 opts evicteeTrampoline J U t b) (tactic_T1 opts evicteeTrampoline J U t))
         (single b l J K U t).
Proof.
  intros Hw EK Hs U. apply single_or; try done; [apply Hw|apply tactic_B2_ok; try done; apply Hw|].
  intros b1 H1 H2 H3 H4. by apply tactic_T1_ok.
Qed.

Lemma tactic_T2_ok j T b l I :
  wf b l → instr b j = Some I →
  safely (tactic_T2 opts evicteeTrampoline j T b) (outcome b l j I T).
Proof.
  intros Hw EI. pose proof (wf_layout _ _ _ Hw) as HL. unfold tactic_T2. rewrite EI.
  destruct (canPatch_ok b j I HL EI) as (s & Es & ->). cbn [mbind option_bind].
  destruct (_ || _); [by apply restored_refl, Hw|].
  destruct (succ_ok b j I EI) as [[J|] Esucc]; rewrite Esucc; cbn [mbind option_bind];
    [|by apply restored_refl, Hw].
  destruct (succ_Some _ _ _ Esucc) as (I' & K & EJ & EI' & EK & _). rewrite EI in EI'. injection EI' as <-.
  destruct (canPatch_ok b J K HL EK) as (sK & EsK & ->). cbn [mbind option_bind].
  destruct (writable sK) eqn:HwK; cbn [negb]; [|by apply restored_refl, Hw].
  apply safely_bind. eapply safely_mono; [apply (evictions_ok b l J K); [done..|by eapply wf_soft]|].
  intros [[Q|] b1] Hq; [|exact Hq]. cbn beta iota.
  destruct (single_lands _ _ _ _ _ _ _ _ Hw EK Hq) as (l1 & q & -> & Hp1 & _ & Hun & Hoth).
  assert (Hev : i_is_evicted K = false) by (eapply not_evicted; try done; by apply writable_not_frozen).
  specialize (Hun Hev ltac:(done)). pose proof (pa_wf _ _ _ _ _ Hp1) as Hw1.
  assert (EI1 : instr b1 j = Some I) by (rewrite Hoth by lia; done).
  apply safely_bind. eapply safely_mono.
  { apply (single_or b1 l1 j I T TACTIC_T2); try done; [apply Hw1|by eapply wf_soft| |].
    - apply tactic_B2_ok; try done; [apply Hw1..|by eapply wf_soft].
    - intros b2 H1 H2 H3 H4. by apply tactic_T1_ok. }
  intros [[P|] b2] Hp; cbn beta iota.
  - destruct (single_lands _ _ _ _ _ _ _ _ Hw1 EI1 Hp) as (l2 & p & -> & Hp2 & Hlands & _).
    exists l2. split; [|by left]. eapply patched_trans; [exact Hp1|exact Hp2|].
    destruct (proj2 (pa_commit _ _ _ _ _ Hp2) p ltac:(by left)) as [HpI HpA].
    apply committable_cons; [exact HpI|exact HpA|]. right.
    eapply committable_mono; [apply Hp1|apply Hp2|apply Hp2].
  - destruct (Hun b2 Hp) as (b3 & -> & Hr). exact Hr.
Qed.

(** ** Tactic T3: a jump in a neighbour *)

Lemma wf_space x b l l' s : wfx x b l → vs_live s l' → wfx x (set_B_space s b) l'.
Proof.
  intros [H1 H2 H3 H4] Hl. split; [|done| |]; [|by destruct b..].
  eapply layout_evolves, H1. apply space_evolves.
Qed.

(** The flags of an instruction but [is_evicted] are of no importance. *)
Lemma wf_mark x b l j I I' :
  wfx x b l → instr b j = Some I → clear I' = clear I → i_is_evicted I' = i_is_evicted I →
  wfx x (set_B_Is (<[j := I']> (B_Is b)) b) l.
Proof.
  intros [H1 H2 H3 H4] EI Hc He. destruct (clear_fields _ _ Hc) as (E1 & E2 & _).
  assert (Hi : ∀ j' K, instr (set_B_Is (<[j := I']> (B_Is b)) b) j' = Some K →
    (j' = j ∧ K = I') ∨ (j' ≠ j ∧ instr b j' = Some K)).
  { intros j' K. unfold instr. destruct b; cbn. destruct (decide (j' = j)) as [->|].
    - rewrite lookup_insert_eq. intros [= <-]. by left.
    - rewrite lookup_insert_ne by done. by right. }
  split; [|done| |].
  - eapply layout_evolves, H1. by eapply Is_evolves.
  - intros j' K Hne EK. destruct (Hi j' K EK) as [[-> ->]|[Hj EK']]; [|by apply (H3 j')].
    unfold states. rewrite E1, E2. by apply (H3 j).
  - intros j' K EK HK. destruct (Hi j' K EK) as [[-> ->]|[Hj EK']]; [|by apply (H4 j')].
    rewrite E1. apply (H4 j I EI). congruence.
Qed.

Lemma shape_softly b K k s :
  shape (states b K) (i_size K) → 0 <= k < i_size K → states b K k = Some s →
  s = STATE_FREE ∨ (s = STATE_INSTRUCTION ∧ states b K 0 = Some STATE_INSTRUCTION) →
  softly b K k.
Proof.
  intros Hs Hk Ek Hc. split; [done|]. split.
  { intros s' Es'. change (states b K k = Some s') in Es'. rewrite Ek in Es'. injection Es' as <-.
    destruct Hc as [->|[-> _]]; done. }
  intros i s' Hi Hi' Es'. rewrite <- Z.add_assoc in Es'. change (states b K (k + i) = Some s') in Es'.
  destruct Hc as [->|[-> E0]].
  - destruct (Z.eq_dec i 0) as [->|]; [rewrite Z.add_0_r, Ek in Es'; injection Es' as <-; by left|].
    destruct Hs as [Hq|m Hm Hf Hc|Hp Hk'].
    + rewrite Hq in Ek by lia. done.
    + destruct (Z.ltb_spec k m) as [Hlt|]; [|rewrite Hc in Ek by lia; done].
      destruct (Hf k Hk Hlt) as (s & E & Hs). rewrite Ek in E. injection E as <-. done.
    + destruct (Hk' k (k + i) ltac:(lia) ltac:(lia) Ek) as [E|E]; rewrite Es' in E; injection E as ->;
        [by left|by right; left].
  - left. rewrite (shape_all _ _ Hs ltac:(lia) E0) in Es' by lia. by injection Es' as <-.
Qed.

(** A jump at the offset [k] of [J]. *)
Lemma jump_at_ok J k A a b l K :
  layout b → live b l → instr b J = Some K → (A, a) ∈ l → 0 <= k < i_size K →
  jump_allowed b K k (a_lb a + a_entry a) → softly b K k →
  ∃ p b0 b', new_Patch evicteeTrampoline J TACTIC_T3 (Some A) b = Some (p, b0) ∧
    patchJump p k b0 = Some b' ∧ p_A p = Some A ∧ live b' l ∧
    change b b' J K p (evicting (Some a)) (i_offset K + k + 5) ∧
    fixed b' (i_offset K + k) (jump_bytes K k (a_lb a + a_entry a)) ∧
    (∀ i, k <= i < i_size K → i < k + 5 → states b' K i = Some STATE_PATCHED) ∧
    same_out b b' (i_offset K + k) (i_offset K + k + 5).
Proof.
  intros HL Hl EK HA Hk Hal Hs. pose proof (la_instr _ HL _ _ EK) as Ho. pose proof (io_size _ _ Ho).
  destruct (new_Patch_ok J TACTIC_T3 b l K (Some (A, a)) HL Hl EK) as (p & Ep & Hsv & EA & Ej & Et).
  { by intros x [= <-]. }
  cbn [fmap option_fmap option_map fst snd] in Ep, EA. set (ev := evicting (Some a)) in *.
  set (b0 := set_B_Is _ b) in *. set (dest := a_lb a + a_entry a) in *.
  assert (E0 : instr b0 J = Some (flag ev K)) by (by apply flag_instr).
  assert (Ho0 : instr_ok b0 (flag ev K)) by (by destruct ev, Ho).
  assert (Hfit : run_fits K k (jump_bytes K k dest) b0) by (by eapply softly_fits in Hs).
  assert (Hfit' : run_fits (flag ev K) k (jump_bytes (flag ev K) k dest) b0) by (by destruct ev).
  assert (Fo : i_offset (flag ev K) = i_offset K) by (by destruct ev).
  assert (Fs : i_size (flag ev K) = i_size K) by (by destruct ev).
  assert (Fa : i_addr (flag ev K) = i_addr K) by (by destruct ev).
  destruct (patch_jump_ok (flag ev K) k dest b0) as (b' & E & Hrun).
  - apply Ho0.
  - by rewrite Fs.
  - lia.
  - rewrite Fa. apply Hal.
  - rewrite Fo. apply Hs.
  - done.
  - intros i Hi. rewrite Fo, <- Z.add_assoc. apply (mapped_near b K); [done|lia].
  - assert (Hrun' : run_written K k (jump_bytes K k dest) b0 b').
    { destruct Hrun as (R1 & R2 & R3). rewrite Fo, Fs in *. unfold jump_bytes in *. rewrite Fa in *. done. }
    pose proof Hrun' as (R & Out & _). rewrite jump_bytes_len in Out.
    exists p, b0, b'. split_and!; [done| |done| | |by eapply run_fixed| |].
    + unfold patchJump. rewrite Ej, EA, E0. cbn [mbind option_bind]. unfold alloc_of.
      change (B_space b0) with (B_space b). by rewrite (vs_get_live _ _ _ _ Hl HA).
    + unfold live. by rewrite (rewrites_space _ _ R).
    + apply change_intro; try done; [by apply (run_preserves K k (jump_bytes K k dest) b0)| |unfold PATCH_MAX; lia|].
      * intros q Hq. apply Out. lia.
      * pose proof (run_spilled _ _ _ _ _ Hfit Hrun' Hk) as Hsp. by rewrite jump_bytes_len in Hsp.
    + intros i Hi Hi5. destruct (run_lookup K k (jump_bytes K k dest) b0 b' (i_offset K + i) Hfit Hrun') as (v & s & _ & _ & _ & Es' & _).
      { rewrite jump_bytes_len. lia. }
      unfold states. rewrite Es'. f_equal. unfold jump_state. by rewrite (proj2 (Z.ltb_lt _ _)) by lia.
    + intros q Hq. apply Out. lia.
Qed.

(** ** The eviction of the neighbour *)

Definition mark (back : bool) K : Instr := if back then set_i_no_optimize true K else K.

Lemma mark_fields back K :
  clear (mark back K) = clear K ∧ i_is_evicted (mark back K) = i_is_evicted K ∧
  i_offset (mark back K) = i_offset K ∧ i_size (mark back K) = i_size K ∧
  i_addr (mark back K) = i_addr K ∧ i_is_patched (mark back K) = i_is_patched K.
Proof. by destruct back, K. Qed.

Lemma mark_unmark back ev K : i_is_evicted K = false →
  set_i_is_evicted false (set_i_is_patched (i_is_patched K)
    (set_i_no_optimize (i_no_optimize K) (flag ev (mark back K)))) = K.
Proof. destruct K, back, ev; cbn; by intros ->. Qed.

(** The jump at the offset [k] of [J] is installed, [J] is patched if it was not, and
    nothing is changed outside of [J] and the jump. *)
Record inserted b l J K (k : Z) (T : option ptr) P A b' l' a : Prop := {
  ins_patched : patched b l b' l' P;
  ins_alloc : (A, a) ∈ l';
  ins_T : a_T a = T;
  ins_jump : fixed b' (i_offset K + k) (jump_bytes K k (a_lb a + a_entry a));
  ins_others : ∀ j', j' ≠ J → instr b' j' = instr b j';
  ins_out : same_out b b' (i_offset K) (Z.max (i_offset K + i_size K) (i_offset K + k + 5)) }.

Lemma evict_attempts b l J K t x :
  layout b → live b l → instr b J = Some K → soft b K → x = t →
  let U := Some evicteeTrampoline in
  safely (or_try (or_try (tactic_B1 opts evicteeTrampoline J U t b) (tactic_B2 opts evicteeTrampoline J U t))
                 (tactic_T1 opts evicteeTrampoline J U t))
         (single b l J K U t).
Proof.
  intros HL Hl EK Hs _ U. apply single_or; try done.
  - apply single_or; try done; [by apply tactic_B1_ok|].
    intros b1 H1 H2 H3 H4. by apply tactic_B2_ok.
  - intros b1 H1 H2 H3 H4. by apply tactic_T1_ok.
Qed.

(** Undoing the jump, after the flag [no_optimize] was put back. *)
Lemma undo_jump b l J K back p ev e b1 b2 l1 a l2 A :
  wf b l → instr b J = Some K → i_is_evicted K = false →
  let b0 := set_B_Is (<[J := mark back K]> (B_Is b)) b in
  ∀ s, change (set_B_space s b0) b1 J (mark back K) p ev e →
  p_A p = Some A → l = l1 ++ l2 → a_T a ≠ None → restored b1 (l1 ++ (A, a) :: l2) b2 →
  ∃ b3 b4, upd_instr (set_i_no_optimize (i_no_optimize K)) J b2 = Some b3 ∧
    undo opts [p] b3 = Some b4 ∧ restored b l b4.
Proof.
  intros Hw EK Hev b0 s Hc EA El HT Hr. destruct (mark_fields back K) as (_ & _ & Mo & Ms & _ & Mp).
  pose proof (io_size _ _ (wf_instr _ _ _ _ _ Hw EK)).
  destruct (ch_saved _ _ _ _ _ _ _ Hc) as (S1 & S2 & S3 & S4).
  destruct (ch_modified _ _ _ _ _ _ _ Hc) as (s1 & bs & st & -> & L1 & L2).
  pose proof (ch_out _ _ _ _ _ _ _ Hc) as Hout. pose proof (ch_end _ _ _ _ _ _ _ Hc) as He.
  destruct Hr as (s2 & -> & Hl2). set (b2 := set_B_space s2 _) in *.
  assert (E2 : instr b2 J = Some (flag ev (mark back K))) by (unfold b2, instr; destruct b; apply lookup_insert_eq).
  unfold upd_instr. rewrite E2. cbn [mbind option_bind]. set (f := set_i_no_optimize _ _).
  destruct (undo_one p [] b (set_B_Is (<[J:=f]> (B_Is b2)) b2) K f l (l1 ++ (A, a) :: l2))
    as (b4 & E4 & Hr4); try done.
  - unfold saved. rewrite (ch_I _ _ _ _ _ _ _ Hc). split; [done|]. rewrite Mp in S2. rewrite Mo in S3, S4.
    split; [done|]. unfold b0 in S3, S4. by destruct b.
  - rewrite (ch_I _ _ _ _ _ _ _ Hc). exists s2, bs, st. unfold b2, b0 in *. destruct b; cbn in *.
    split_and!; [|done|done]. by rewrite !insert_insert_eq.
  - rewrite Mo, Ms in *. intros q Hq. specialize (Hout q). unfold PATCH_MAX in *.
    destruct Hout as [Ob Os]; [lia|]. unfold b2, b0, byte_at, state_at in *. by destruct b.
  - unfold f. by destruct ev, back, K.
  - by apply mark_unmark.
  - rewrite EA. by exists l1, a, l2.
  - eexists _, b4. split; [reflexivity|]. split; [exact E4|done].
Qed.

Lemma mark_instr b J K (back : bool) : instr b J = Some K →
  (if back then upd_instr (set_i_no_optimize true) J b else Some b) =
  Some (set_B_Is (<[J := mark back K]> (B_Is b)) b).
Proof.
  intros EK. unfold upd_instr. rewrite EK. destruct back; [done|]. cbn. f_equal.
  unfold instr in EK. destruct b; cbn in *. by rewrite insert_id.
Qed.

Lemma unmark_instr b J K (back : bool) l b1 : instr b J = Some K →
  restored (set_B_Is (<[J := mark back K]> (B_Is b)) b) l b1 →
  ∃ b2, upd_instr (set_i_no_optimize (i_no_optimize K)) J b1 = Some b2 ∧ restored b l b2.
Proof.
  intros EK (s & -> & Hl). unfold upd_instr.
  assert (E : instr (set_B_space s (set_B_Is (<[J := mark back K]> (B_Is b)) b)) J = Some (mark back K))
    by (unfold instr; destruct b; apply lookup_insert_eq).
  rewrite E. cbn [mbind option_bind]. eexists. split; [reflexivity|]. exists s. split; [|done].
  unfold instr in EK. destruct b; cbn in *. rewrite insert_insert_eq.
  by rewrite insert_id by (rewrite EK; by destruct back, K).
Qed.

(** [J] has unused bytes: the jump alone. *)
Lemma inserted_free bs l b' J K k p A a :
  wf bs l → instr bs J = Some K → 0 <= k < i_size K → states bs K k = Some STATE_FREE → (A, a) ∈ l →
  evicting (Some a) = false →
  change bs b' J K p (evicting (Some a)) (i_offset K + k + 5) → live b' l →
  fixed b' (i_offset K + k) (jump_bytes K k (a_lb a + a_entry a)) →
  (∀ i, k <= i < i_size K → i < k + 5 → states b' K i = Some STATE_PATCHED) →
  same_out bs b' (i_offset K + k) (i_offset K + k + 5) →
  inserted bs l J K k (a_T a) [set_p_A None p] A b' l a.
Proof.
  intros Hw EK Hk Es HA Hev Hc Hl Hj Hin Hout.
  split; [|done|done|done|intros j'; by apply (change_other _ _ _ _ _ _ _ _ Hc)|by apply Hc].
  pose proof (wf_shape _ _ _ Hw J K ltac:(done) EK) as Hsh.
  split; [|apply Hc|apply Hc|done| |].
  2: { eapply change_queue_kept; [apply Hw|exact Hc|done|]. rewrite <- states_0.
       by apply (shape_not_queued _ _ k STATE_FREE Hsh). }
  - eapply (change_wfx None None bs); try done; [by left|by rewrite Hev| |by left]. intros _.
    apply (shape_inner (states bs K) _ _ k (k + 5)); [lia|done| | |by apply (wf_shape _ _ _ Hw J)].
    + intros i Hi Hi5. apply Hin; lia.
    + intros i Hi Hne. apply Hout. lia.
  - apply committable_cons; [|done|by left]. rewrite (ch_I _ _ _ _ _ _ _ Hc : p_I (set_p_A None p) = J).
    eexists. by eapply change_instr.
Qed.

(** [J] is original code: the jump, and a jump to the evictee trampoline. *)
Lemma inserted_evicted bs l b1 b2 l2 J K k p A a q A2 a2 k2 :
  wf bs l → instr bs J = Some K → 1 <= k < i_size K → (A, a) ∈ l →
  evicting (Some a) = false →
  change bs b1 J K p (evicting (Some a)) (i_offset K + k + 5) → live b1 l →
  fixed b1 (i_offset K + k) (jump_bytes K k (a_lb a + a_entry a)) →
  states b1 K k = Some STATE_PATCHED → states bs K 0 = Some STATE_INSTRUCTION →
  installed b1 b2 J (flag false K) q A2 a2 TACTIC_T3 k2 → live b2 l2 →
  l ⊆ l2 → (A2, a2) ∈ l2 →
  inserted bs l J K k (a_T a) [q; set_p_A None p] A b2 l2 a.
Proof.
  intros Hw EK Hk HA Hev Hc Hl Hj Hpk H0 Hin Hl2 Hsub HA2. rewrite Hev in Hc.
  pose proof (change_instr _ _ _ _ _ _ _ Hc) as EJ1.
  assert (Hw1 : wfx (Some J) b1 l).
  { eapply (change_wfx None (Some J) bs); try done; [by left|by right]. }
  pose proof (in_hooked _ _ _ _ _ _ _ _ _ Hin) as Hh.
  pose proof (installed_change _ _ _ _ _ _ _ _ _ (wf_layout _ _ _ Hw1) EJ1 Hin) as Hc2.
  assert (Hk2 : k2 < k).
  { destruct (Z.ltb_spec k2 k) as [|Hge]; [done|]. exfalso.
    by pose proof (ho_writable _ _ _ _ _ Hh k STATE_PATCHED ltac:(lia) Hpk). }
  split; [|by apply Hsub|done|by eapply fixed_preserves, Hj; apply Hh| |].
  - split; [|eapply evolves_trans; [apply Hc|apply Hc2]|etrans; [apply Hc|apply Hc2]|done| |].
    + eapply installed_wf; try done. by right.
    + eapply (queue_kept_trans bs b1 b2 l l2); [apply Hc|apply Hc2|apply Hc2|done| |].
      * eapply change_queue_kept; [apply Hw|exact Hc|done|]. rewrite <- states_0. by rewrite H0.
      * eapply installed_queue_kept; [apply Hw1|exact EJ1|exact Hin].
    + apply committable_cons.
      * rewrite (in_I _ _ _ _ _ _ _ _ _ Hin). eexists. by eapply change_instr.
      * intros A' E. rewrite (in_A _ _ _ _ _ _ _ _ _ Hin) in E. injection E as <-. by exists a2.
      * right. apply committable_cons; [|done|by left].
        rewrite (ch_I _ _ _ _ _ _ _ Hc : p_I (set_p_A None p) = J). eexists. by eapply change_instr.
  - intros j' Hj'. by rewrite (change_other _ _ _ _ _ _ _ _ Hc2 Hj'), (change_other _ _ _ _ _ _ _ _ Hc Hj').
  - eapply same_out_trans; [apply Hc|]. eapply same_out_mono; [apply Hc2|done|].
    change (i_offset (flag false K)) with (i_offset K). change (i_size (flag false K)) with (i_size K). lia.
Qed.

Lemma inserted_mark b l J K k T P A b' l' l0 a s back :
  instr b J = Some K → l ⊆ l0 →
  inserted (set_B_space s (set_B_Is (<[J := mark back K]> (B_Is b)) b)) l0 J (mark back K) k T P A b' l' a →
  inserted b l J K k T P A b' l' a.
Proof.
  intros EK Hl [[P1 P2 P3 P4 P5 P6] H2 H3 H4 H5 H6]. destruct (mark_fields back K) as (Mc & _ & Mo & Ms & Ma & _).
  rewrite Mo, Ms in *. unfold jump_bytes in *. rewrite Ma in *. split; try done.
  - split; [done| |exact P3|by etrans| |done].
    { eapply evolves_trans; [|exact P2]. eapply evolves_trans; [by eapply Is_evolves|apply space_evolves]. }
    intros i X EX Es. destruct (decide (i = J)) as [->|Hi].
    + rewrite EK in EX. injection EX as <-. rewrite <- Mo in Es |- *.
      destruct (P5 J (mark back K)) as [?|Hlands]; [unfold instr; destruct b; apply lookup_insert_eq|exact Es|by left|].
      right. replace (i_T K) with (i_T (mark back K)) by (by destruct back, K).
      apply (lands_mono b' b' l' l' J (mark back K)); [apply evolves_refl|reflexivity|done|by symmetry|done].
    + apply (P5 i X); [|exact Es]. unfold instr in *. destruct b; cbn in *. by rewrite lookup_insert_ne.
  - intros j' Hj'. rewrite H5 by done. unfold instr. destruct b; cbn. by rewrite lookup_insert_ne.
Qed.

Lemma soft_inserted (bs c1 : Binary S) K k :
  1 <= k < i_size K → (∀ i, 0 <= i < i_size K → states bs K i = Some STATE_INSTRUCTION) →
  (∀ i, k <= i < i_size K → i < k + 5 → states c1 K i = Some STATE_PATCHED) →
  same_out bs c1 (i_offset K + k) (i_offset K + k + 5) → soft c1 (flag false K).
Proof.
  intros Hk Hall Hpk Hout s Es Hws. change (i_offset (flag false K)) with (i_offset K) in Es.
  split; [change (i_size (flag false K)) with (i_size K); lia|].
  change (i_size (flag false K)) with (i_size K). change (i_offset (flag false K)) with (i_offset K).
  split; [rewrite Z.add_0_r; congruence|]. intros i s' Hi Hi' Es'. rewrite Z.add_0_r in Es'.
  destruct (decide (k <= i < k + 5)) as [Hd|Hd].
  - right. left. specialize (Hpk i ltac:(lia) ltac:(lia)). unfold states in Hpk. congruence.
  - left. destruct (Hout (i_offset K + i)) as [_ E]; [lia|]. rewrite E in Es'.
    change (states bs K i = Some s') in Es'. rewrite Hall in Es' by lia. by injection Es' as <-.
Qed.

Lemma insert_jump_ok j T J k state (back : bool) b l K :
  wf b l → instr b J = Some K → 0 <= k < i_size K → states b K k = Some state →
  state = STATE_FREE ∨ (state = STATE_INSTRUCTION ∧ states b K 0 = Some STATE_INSTRUCTION ∧ 1 <= k) →
  T ≠ Some evicteeTrampoline → T ≠ None →
  safely (insert_jump opts evicteeTrampoline j T J k state back b) (λ '(r, b'),
    match r with
    | None => restored b l b'
    | Some (P, A) => ∃ l' a, inserted b l J K k T P A b' l' a
    end).
Proof.
  intros Hw EK Hk Es Hst HT HT0. unfold insert_jump. rewrite EK. cbn [mbind option_bind].
  rewrite (mark_instr b J K back EK). cbn [mbind option_bind].
  set (b0 := set_B_Is _ b). destruct (mark_fields back K) as (Mc & Me & Mo & Ms & Ma & _).
  assert (Hw0 : wf b0 l) by (by eapply wf_mark).
  assert (E0 : instr b0 J = Some (mark back K)) by (unfold b0, instr; destruct b; apply lookup_insert_eq).
  apply safely_bind. eapply safely_mono.
  { apply (punned_ok J k j T b0 l (mark back K)); [apply Hw0|apply Hw0|done|by rewrite Ms]. }
  intros [[A|] b1] Hr; cbn beta iota.
  2: { destruct (unmark_instr _ _ _ _ _ _ EK Hr) as (b2 & -> & Hr2). exact Hr2. }
  destruct Hr as (l1 & a & l2 & -> & Hr & HaT & Hal). pose proof (restored_live _ _ _ Hr) as Hl1.
  destruct (allocs_insert l1 l2 (A, a)) as [Hsub HA]. set (l' := l1 ++ (A, a) :: l2) in *.
  destruct Hr as (s & -> & _). set (bs := set_B_space s b0) in *.
  assert (Hws : wf bs l') by (by eapply wf_space).
  assert (Hss : states bs (mark back K) = states b K) by (unfold states; by rewrite Mo).
  assert (Hev : evicting (Some a) = false).
  { apply bool_decide_eq_false. by rewrite HaT. }
  assert (Hsoft : softly bs (mark back K) k).
  { eapply shape_softly; [by apply (wf_shape _ _ _ Hws J)|by rewrite Ms|by rewrite Hss|].
    rewrite Hss. destruct Hst as [->|(-> & H1 & _)]; [by left|by right]. }
  destruct (jump_at_ok J k A a bs l' (mark back K)) as (p & c0 & c1 & -> & E1 & EA & Hlc & Hc & Hj & Hpk & Hout);
    try done; [apply Hws|by rewrite Ms|].
  rewrite Ms in Hpk. cbn [mbind option_bind]. rewrite E1. cbn [mbind option_bind].
  destruct Hst as [->|(-> & H0 & Hk1)].
  { cbn. exists l', a. eapply inserted_mark; [done|exact Hsub|]. rewrite <- HaT.
    by apply (inserted_free bs _ _ _ _ _ _ _ _ Hws); rewrite ?Hss, ?Ms. }
  change (STATE_INSTRUCTION =? STATE_FREE) with false. cbn beta iota.
  assert (HevK : i_is_evicted K = false).
  { eapply not_evicted; [exact Hw|exact EK|by rewrite <- states_0|done]. }
  unfold evict. apply safely_bind. apply safely_bind. rewrite Hev in Hc.
  pose proof (change_instr _ _ _ _ _ _ _ Hc) as EJ1.
  assert (Hsoft1 : soft c1 (flag false (mark back K))).
  { eapply (soft_inserted bs c1 (mark back K) k); rewrite ?Ms; [lia| |done|done].
    rewrite Hss. apply shape_all; [by apply (wf_shape _ _ _ Hw J)|lia|done]. }
  eapply safely_mono.
  { apply (evict_attempts c1 l' J (flag false (mark back K)) TACTIC_T3 TACTIC_T3); try done.
    eapply layout_evolves, Hws. apply Hc. }
  intros [[Q|] c2] Hq; cbn beta iota.
  - destruct Hq as (q & A2 & m1 & a2 & m2 & k2 & -> & El & HT2 & Hl2 & Hin). cbn [safely set_next upd_head].
    destruct (allocs_insert m1 m2 (A2, a2)) as [Hsub2 HA2]. rewrite <- El in Hsub2.
    exists (m1 ++ (A2, a2) :: m2), a. eapply inserted_mark; [done|exact Hsub|]. rewrite <- HaT.
    eapply inserted_evicted; try done; [rewrite Ms; lia|by rewrite Hev|apply Hpk; lia|by rewrite <- H0, <- Hss].
  - destruct (undo_jump b _ J K back p _ _ c1 c2 l1 a l2 A Hw EK HevK s Hc EA eq_refl ltac:(by rewrite HaT) Hq)
      as (b3 & b4 & -> & Eu & Hr4).
    cbn [mbind option_bind]. rewrite Eu. exact Hr4.
Qed.

(** ** The search for a neighbour *)

Lemma present_size {A} (m : gmap Z A) lo n :
  (∀ i, lo <= i < lo + Z.of_nat n → is_Some (m !! i)) → (n <= size m)%nat.
Proof.
  intros Hp. assert (E : List.length (seqZ lo (Z.of_nat n)) = n) by (rewrite length_seqZ; lia). rewrite <- E, <- size_dom.
  rewrite <- (size_list_to_set (C := gset Z) (seqZ lo (Z.of_nat n))) by apply NoDup_seqZ.
  apply subseteq_size. intros i Hi. apply elem_of_list_to_set, elem_of_seqZ in Hi.
  apply elem_of_dom, Hp. lia.
Qed.

Lemma prev_Some b j J : prev b j = Some J → J = j - 1 ∧ ∃ K, instr b J = Some K.
Proof.
  unfold prev. destruct (instr b (j - 1)) as [K|] eqn:E; [|done]. destruct (_ =? _); [done|].
  intros [= <-]. eauto.
Qed.

Lemma next_Some b j J : next b j = Some J → J = j + 1 ∧ ∃ K, instr b J = Some K.
Proof.
  unfold next. destruct (instr b (j + 1)) as [K|] eqn:E; [|done]. destruct (_ =? _); [done|].
  intros [= <-]. eauto.
Qed.

(** The [v] instructions after [J] were visited. *)
Definition visited b (J : option iptr) (v : nat) : Prop :=
  match J with
  | Some J => ∀ i, J <= i <= J + Z.of_nat v → is_Some (instr b i)
  | None => (v <= size (B_Is b))%nat
  end.

Lemma visited_size b J v : visited b (Some J) v → (Datatypes.S v <= size (B_Is b))%nat.
Proof. intros Hv. apply (present_size _ J). intros i Hi. apply Hv. lia. Qed.

Lemma visited_prev b J v : visited b (Some J) v → visited b (prev b J) (Datatypes.S v).
Proof.
  intros Hv. destruct (prev b J) as [K|] eqn:E; [|by eapply visited_size].
  apply prev_Some in E as (-> & I & EI). intros i Hi.
  destruct (Z.eq_dec i (J - 1)) as [->|]; [by exists I|]. apply Hv. lia.
Qed.

Lemma last_in_reach_ok b I fuel : ∀ J v,
  (∀ i, J - Z.of_nat v <= i <= J → is_Some (instr b i)) → (size (B_Is b) < v + fuel + 1)%nat →
  ∃ J', last_in_reach fuel b I J = Some J' ∧ is_Some (instr b J').
Proof.
  induction fuel as [|fuel IH]; intros J v Hv Hf; cbn [last_in_reach].
  all: destruct (next b J) as [K|] eqn:E; [|exists J; split; [done|]; apply Hv; lia].
  all: apply next_Some in E as (-> & k & Ek); rewrite Ek; cbn [mbind option_bind];
    destruct (_ <? _); [exists J; split; [done|]; apply Hv; lia|].
  - exfalso. pose proof (present_size (B_Is b) (J - Z.of_nat v) (v + 1)) as Hp.
    assert (v + 1 <= size (B_Is b))%nat; [|lia]. apply Hp. intros i Hi. apply Hv. lia.
  - apply (IH (J + 1) (Datatypes.S v)); [|lia]. intros i Hi.
    destruct (Z.eq_dec i (J + 1)) as [->|]; [by exists k|]. apply Hv. lia.
Qed.

(** A jump at [addr], in reach of a short jump from [I], that leaves [I] as it was. *)
Definition found b l I T (r : option (list Patch * ptr * Z) * Binary S) : Prop :=
  match r with
  | (None, b') => restored b l b'
  | (Some (P, A, addr), b') => ∃ J K k l' a,
      instr b J = Some K ∧ addr = i_addr K + k ∧ 0 <= k < i_size K ∧
      inserted b l J K k T P A b' l' a ∧
      INT8_MIN <= addr - (i_addr I + 2) <= INT8_MAX ∧
      same_in b b' (i_offset I) (i_offset I + i_size I) ∧
      ∀ j, instr b j = Some I → instr b' j = Some I
  end.

Lemma restored_found b l b1 I T r : restored b l b1 → found b1 l I T r → found b l I T r.
Proof.
  intros Hr. destruct r as [[[[P A] addr]|] b']; cbn; [|by eapply restored_trans].
  intros (J & K & k & l' & a & H1 & H2 & H3 & H4 & H5 & H6 & H7). exists J, K, k, l', a.
  rewrite (restored_instr _ _ _ _ Hr) in H1. split_and!; try done; try lia.
  - destruct H4 as [[P1 P2 P3 P4 P5 P6] G2 G3 G4 G5 G6]. destruct Hr as (s & -> & _).
    split; try done. split; try done. eapply evolves_trans; [apply (space_evolves s)|done].
  - by destruct Hr as (s & -> & _).
  - intros j. rewrite <- (restored_instr _ _ _ _ Hr). apply H7.
Qed.

(** The condition that [t3_bytes] checks before it inserts a jump. *)
Definition in_reach I K (k : Z) : Prop :=
  if i_addr I <? i_addr K then i_addr K + k - (i_addr I + 2) <= SHORT_JMP_MAX
  else i_addr I + 2 - (i_addr K + k) <= - SHORT_JMP_MIN ∧ 5 <= i_addr I - (i_addr K + k).

Lemma inserted_found b l j I J K k T P A b' l' a :
  layout b → instr b j = Some I → instr b J = Some K → J ≠ j → 0 <= k < i_size K →
  in_reach I K k → inserted b l J K k T P A b' l' a →
  found b l I T (Some (P, A, i_addr K + k), b').
Proof.
  intros HL EI EK Hj Hk Hr Hin. pose proof (io_size _ _ (la_instr _ HL _ _ EI)).
  pose proof (io_size _ _ (la_instr _ HL _ _ EK)). pose proof (ins_out _ _ _ _ _ _ _ _ _ _ _ Hin) as Ho.
  assert (Hc : INT8_MIN <= i_addr K + k - (i_addr I + 2) <= INT8_MAX ∧
    (i_offset I + i_size I <= i_offset K ∨
     i_offset K + i_size K <= i_offset I ∧ i_offset K + k + 5 <= i_offset I)).
  { unfold in_reach, SHORT_JMP_MAX, SHORT_JMP_MIN, INT8_MIN, INT8_MAX in *.
    destruct (Z.lt_total J j) as [Hlt|[?|Hlt]]; [|done|].
    - destruct (la_sorted _ HL _ _ _ _ Hlt EK EI) as [H1 H2].
      rewrite (proj2 (Z.ltb_ge _ _)) in Hr by lia.
      pose proof (la_near _ HL _ _ _ _ Hlt EK EI ltac:(lia)). lia.
    - destruct (la_sorted _ HL _ _ _ _ Hlt EI EK) as [H1 H2].
      rewrite (proj2 (Z.ltb_lt _ _)) in Hr by lia. lia. }
  destruct Hc as [Hrange Hoff]. exists J, K, k, l', a. split_and!; try done; try lia.
  - intros q Hq. apply Ho. lia.
  - intros j' EI'. destruct (decide (j' = J)) as [->|Hne].
    + exfalso. rewrite EK in EI'. injection EI' as ->.
      pose proof (proj1 (Z.lt_gt_cases J j) Hj) as [Hlt|Hlt].
      * pose proof (proj1 (la_sorted _ HL _ _ _ _ Hlt EK EI)). lia.
      * pose proof (proj1 (la_sorted _ HL _ _ _ _ Hlt EI EK)). lia.
    + by rewrite (ins_others _ _ _ _ _ _ _ _ _ _ _ Hin).
Qed.

Lemma t3_bytes_ok j T J I K n : ∀ k b l s0 s1,
  wf b l → instr b j = Some I → instr b J = Some K → J ≠ j →
  states b K 0 = Some s0 → states b K (i_size K - 1) = Some s1 →
  (writable s0 = true ∨ s1 = STATE_FREE) →
  0 <= k → k + Z.of_nat n = i_size K → T ≠ Some evicteeTrampoline → T ≠ None →
  safely (t3_bytes opts evicteeTrampoline j T J k n b) (found b l I T).
Proof.
  induction n as [|n IH]; intros k b l s0 s1 Hw EI EK Hj E0 E1 Hc Hk Hn HT HT0.
  { by apply restored_refl, Hw. }
  pose proof (wf_instr _ _ _ _ _ Hw EK) as Ho. pose proof (io_size _ _ Ho).
  assert (Hcont : ∀ b1, restored b l b1 →
    safely (t3_bytes opts evicteeTrampoline j T J (k + 1) n b1) (found b l I T)).
  { intros b1 Hr. eapply safely_mono; [eapply (IH (k + 1) b1 l s0 s1)|intros r; by apply restored_found];
      rewrite ?(restored_instr _ _ _ _ Hr); try done; try lia; [by eapply restored_wf|..];
      by destruct Hr as (s & -> & _). }
  pose proof (Hcont b (restored_refl b l (wf_live _ _ _ Hw))) as Hcont0.
  cbn [t3_bytes]. rewrite EI, EK. cbn [mbind option_bind].
  unfold STATE. fold (state_at b (i_offset K + 0)) (state_at b (i_offset K + k)).
  change (state_at b (i_offset K + 0)) with (states b K 0). rewrite E0. cbn [mbind option_bind].
  destruct ((k =? 0) && negb (s0 =? STATE_FREE)) eqn:C1; [exact Hcont0|].
  destruct ((i_addr I <? i_addr K) && (SHORT_JMP_MAX <? i_addr K + k - (i_addr I + 2))) eqn:C2; [exact Hcont0|].
  destruct ((i_addr K <? i_addr I) && (- SHORT_JMP_MIN <? i_addr I + 2 - (i_addr K + k))) eqn:C3; [by apply restored_refl, Hw|].
  destruct ((i_addr K <? i_addr I) && (i_addr I - (i_addr K + k) <? 5)) eqn:C4; [exact Hcont0|].
  assert (Hreach : in_reach I K k).
  { unfold in_reach. destruct (Z.ltb_spec (i_addr I) (i_addr K)) as [Hlt|Hge]; cbn [andb] in *.
    - lia.
    - assert (Hne : i_addr K < i_addr I).
      { destruct (Z.lt_total J j) as [Hlt|[?|Hlt]]; [|done|].
        - pose proof (proj2 (la_sorted _ (wf_layout _ _ _ Hw) _ _ _ _ Hlt EK EI)). lia.
        - pose proof (proj2 (la_sorted _ (wf_layout _ _ _ Hw) _ _ _ _ Hlt EI EK)).
          pose proof (io_size _ _ (wf_instr _ _ _ _ _ Hw EI)). lia. }
      rewrite (proj2 (Z.ltb_lt _ _) Hne) in C3, C4. cbn [andb] in *. lia. }
  destruct (state_mapped b (i_offset K + k)) as [state Es]; [apply mapped_near; [done|lia]|].
  rewrite Es. cbn [mbind option_bind]. destruct (writable state) eqn:Hwr; cbn [negb]; [|exact Hcont0].
  apply safely_bind. eapply safely_mono.
  { apply (insert_jump_ok j T J k state (i_addr K <? i_addr I) b l K Hw EK); [lia|exact Es| |done|done].
    unfold writable in Hwr. apply orb_true_iff in Hwr as [->%Z.eqb_eq| ->%Z.eqb_eq]; [right|by left].
    pose proof (shape_candidate _ _ k s0 s1 (wf_shape _ _ _ Hw J K ltac:(done) EK) ltac:(lia) Es E0 E1 Hc) as E00.
    split_and!; [done|done|]. destruct (Z.eqb_spec k 0) as [->|]; [|lia].
    rewrite E00 in E0. injection E0 as <-. done. }
  intros [[[P A]|] b1] Hr; cbn beta iota; [|by apply Hcont].
  destruct Hr as (l' & a & Hin). by eapply inserted_found; [apply Hw|..]; try done; lia.
Qed.

Lemma visited_restored b l b1 J v : restored b l b1 → visited b J v → visited b1 J v.
Proof. intros (s & -> & _). by destruct b. Qed.

Lemma prev_restored b l b1 J : restored b l b1 → prev b1 J = prev b J.
Proof. intros (s & -> & _). by destruct b. Qed.

Lemma t3_neighbours_ok j T I fuel : ∀ J b l v,
  wf b l → instr b j = Some I → visited b J v → (size (B_Is b) < v + fuel)%nat →
  T ≠ Some evicteeTrampoline → T ≠ None →
  safely (t3_neighbours opts evicteeTrampoline fuel j T J b) (found b l I T).
Proof.
  induction fuel as [|fuel IH]; intros J b l v Hw EI Hv Hf HT HT0.
  { exfalso. destruct J as [J|]; [apply visited_size in Hv|unfold visited in Hv]; lia. }
  cbn [t3_neighbours]. destruct (decide (J = Some j)) as [->|Hj].
  { eapply IH; [done..|by apply visited_prev|lia|done|done]. }
  destruct J as [J|]; [|by apply restored_refl, Hw].
  assert (Hv' := visited_prev _ _ _ Hv).
  destruct (Hv J ltac:(lia)) as [K EK]. rewrite EI, EK. cbn [mbind option_bind].
  pose proof (wf_instr _ _ _ _ _ Hw EK) as Ho. pose proof (io_size _ _ Ho).
  destruct (negb (option_tactic_backward_T3 opts) && (i_addr K <? i_addr I)) eqn:C1; [by apply restored_refl, Hw|].
  destruct (- SHORT_JMP_MIN <? i_addr I + 2 - (i_addr K + i_size K - 1)); [by apply restored_refl, Hw|].
  destruct (state_mapped b (i_offset K + 0)) as [s0 E0]; [apply mapped_near; [done|lia]|].
  destruct (state_mapped b (i_offset K + (i_size K - 1))) as [s1 E1]; [apply mapped_near; [done|lia]|].
  assert (Hcand : ∃ ok, t3_candidate K b = Some ok ∧ (ok = true → writable s0 = true ∨ s1 = STATE_FREE)).
  { unfold t3_candidate, STATE. fold (state_at b (i_offset K + 0)) (state_at b (i_offset K + (i_size K - 1))).
    rewrite E0, E1. cbn [mbind option_bind]. destruct (writable s0); [eauto|].
    destruct (_ || _); [|by exists false]. eexists. split; [done|]. intros ?%Z.eqb_eq. by right. }
  destruct Hcand as (ok & -> & Hok). cbn [mbind option_bind]. destruct ok; cbn [negb].
  - apply safely_bind. eapply safely_mono.
    { eapply (t3_bytes_ok j T J I K (Z.to_nat (i_size K)) 0 b l s0 s1); try done; [congruence|by apply Hok|lia]. }
    intros [[r|] b1] Hr; cbn beta iota; [exact Hr|].
    eapply safely_mono; [|intros r'; eapply restored_found, Hr].
    eapply IH; [by eapply restored_wf| | | |done|done].
    + by rewrite (restored_instr _ _ _ _ Hr).
    + rewrite (prev_restored _ _ _ _ Hr). eapply visited_restored; [exact Hr|exact Hv'].
    + destruct Hr as (s & -> & _). change (B_Is (set_B_space s b)) with (B_Is b). lia.
  - eapply IH; [done..|exact Hv'|lia|done|done].
Qed.

(** ** The short jump *)

Lemma short_bytes b j I ev addr :
  layout b → instr b j = Some I → 2 <= i_size I →
  (∀ i, 0 <= i < i_size I → states b I i = Some STATE_INSTRUCTION) →
  INT8_MIN <= addr - (i_addr I + 2) <= INT8_MAX →
  let b0 := set_B_Is (<[j := flag ev I]> (B_Is b)) b in
  ∃ b1 b2, patchShortJump j addr b0 = Some b1 ∧ patchUnused j 2 b1 = Some b2 ∧ rewrites b0 b2 ∧
    preserves b b2 ∧ same_out b b2 (i_offset I) (i_offset I + i_size I) ∧
    fixed b2 (i_offset I) [0xeb; u8 (addr - (i_addr I + 2))] ∧
    (∀ i, 0 <= i < 2 → states b2 I i = Some STATE_PATCHED) ∧
    ∀ i, 2 <= i < i_size I → states b2 I i = freed_state <$> states b I i.
Proof.
  intros HL EI Hsz Hall Hd b0. pose proof (la_instr _ HL _ _ EI) as Ho. pose proof (io_size _ _ Ho).
  pose proof (io_addr _ _ Ho) as Ha. unfold addr_ok, INT8_MIN, INT8_MAX in *.
  assert (E0 : instr b0 j = Some (flag ev I)) by (by apply flag_instr).
  assert (Fo : i_offset (flag ev I) = i_offset I) by (by destruct ev).
  assert (Fs : i_size (flag ev I) = i_size I) by (by destruct ev).
  assert (Fa : i_addr (flag ev I) = i_addr I) by (by destruct ev).
  unfold patchShortJump. rewrite E0. cbn [mbind option_bind]. rewrite Fa.
  rewrite (s64_small (addr - (i_addr I + 2))) by lia.
  rewrite (proj2 (between_spec INT8_MIN INT8_MAX _)) by (unfold INT8_MIN, INT8_MAX; lia).
  cbn [assert_ mbind option_bind]. unfold STATE. rewrite Fo, Z.add_0_r.
  pose proof (Hall 0 ltac:(lia)) as S0. rewrite states_0 in S0. pose proof (Hall 1 ltac:(lia)) as S1.
  change (rd (B_state b0) (i_offset I)) with (state_at b (i_offset I)). rewrite S0. cbn [mbind option_bind].
  change (writable STATE_INSTRUCTION) with true. cbn [assert_ mbind option_bind].
  destruct (write_ok (flag ev I) 0 0xeb STATE_PATCHED b0) as (c1 & -> & R1 & Q1); [|done|].
  { rewrite Fo. by apply (mapped_near b I 0 Ho). }
  cbn [mbind option_bind]. rewrite Fo, Z.add_0_r in Q1.
  assert (P1 : preserves b c1) by exact (write_preserves b c1 _ _ _ _ S0 eq_refl Q1).
  assert (S1' : state_at c1 (i_offset I + 1) = Some STATE_INSTRUCTION).
  { destruct (Q1 (i_offset I + 1)) as [_ ->]. rewrite decide_False by lia. exact S1. }
  fold (state_at c1 (i_offset I + 1)). rewrite S1'. cbn [mbind option_bind].
  change (writable STATE_INSTRUCTION) with true. cbn [assert_ mbind option_bind].
  destruct (write_ok (flag ev I) 1 (u8 (addr - (i_addr I + 2))) STATE_PATCHED c1) as (b1 & -> & R2 & Q2).
  { rewrite Fo. eapply mapped_rewrites; [exact R1|]. apply (mapped_near b I 1 Ho). lia. }
  { apply wrapu_range. lia. }
  rewrite Fo in Q2. assert (P2 : preserves c1 b1) by exact (write_preserves c1 b1 _ _ _ _ S1' eq_refl Q2).
  destruct (unused_ok j 2 b1 (flag ev I)) as (b2 & E2 & R3 & P3 & Out3 & In3).
  { by rewrite (rewrites_instr _ _ _ R2), (rewrites_instr _ _ _ R1). }
  { eapply (instr_ok_evolves b); [|apply clear_flag|done].
    eapply evolves_trans; [eapply Is_evolves; [done|apply clear_flag]|].
    eapply rewrites_evolves, rewrites_trans; done. }
  { rewrite Fs. lia. }
  rewrite Fo, Fs in *. exists b1, b2. split; [done|]. split; [done|].
  assert (B0 : byte_at b2 (i_offset I) = Some 0xeb ∧ state_at b2 (i_offset I) = Some STATE_PATCHED).
  { destruct (Out3 (i_offset I)) as [-> ->]; [lia|]. destruct (Q2 (i_offset I)) as [-> ->].
    rewrite !decide_False by lia. destruct (Q1 (i_offset I)) as [-> ->]. by rewrite !decide_True by done. }
  assert (B1 : byte_at b2 (i_offset I + 1) = Some (u8 (addr - (i_addr I + 2))) ∧
               state_at b2 (i_offset I + 1) = Some STATE_PATCHED).
  { destruct (Out3 (i_offset I + 1)) as [-> ->]; [lia|]. destruct (Q2 (i_offset I + 1)) as [-> ->].
    by rewrite !decide_True by done. }
  split_and!.
  - eapply rewrites_trans; [|exact R3]. by eapply rewrites_trans.
  - etrans; [|exact P3]. by etrans.
  - intros q Hq. destruct (Out3 q) as [-> ->]; [lia|]. destruct (Q2 q) as [-> ->]. rewrite !decide_False by lia.
    destruct (Q1 q) as [-> ->]. by rewrite !decide_False by lia.
  - intros [|[|i]] v Hv; [| |by destruct i]; injection Hv as <-.
    + change (Z.of_nat 0) with 0. rewrite Z.add_0_r. split; [apply B0|]. exists STATE_PATCHED. by split; [apply B0|].
    + change (Z.of_nat 1) with 1. split; [apply B1|]. exists STATE_PATCHED. by split; [apply B1|].
  - intros i Hi. destruct (Z.eq_dec i 0) as [->|]; [rewrite states_0; apply B0|].
    replace i with 1 by lia. apply B1.
  - intros i Hi. specialize (In3 i Hi). unfold states in *. rewrite Fo in In3. rewrite In3.
    destruct (Q2 (i_offset I + i)) as [_ ->]. rewrite decide_False by lia.
    destruct (Q1 (i_offset I + i)) as [_ ->]. by rewrite decide_False by lia.
Qed.

Lemma tactic_T3_ok j T b l I :
  wf b l → instr b j = Some I → state_at b (i_offset I) = Some STATE_INSTRUCTION →
  T ≠ Some evicteeTrampoline → T ≠ None → i_size I ≠ 1 ∨ option_tactic_T3 opts = false →
  safely (tactic_T3 opts evicteeTrampoline j T b) (outcome b l j I T).
Proof.
  intros Hw EI Es HT HT0 H1. pose proof (wf_layout _ _ _ Hw) as HL.
  pose proof (io_size _ _ (wf_instr _ _ _ _ _ Hw EI)).
  destruct (canPatch_ok b j I HL EI) as (s & Es' & Ecan).
  unfold tactic_T3, tactic_T3b. rewrite EI. cbn [mbind option_bind]. rewrite Ecan.
  destruct (Z.eqb_spec (i_size I) 1) as [E1|Hne].
  { destruct H1 as [|Eo]; [done|]. cbn [mbind option_bind]. rewrite Eo, orb_true_r. by apply restored_refl, Hw. }
  cbn [mbind option_bind]. destruct (_ || _); [by apply restored_refl, Hw|].
  destruct (last_in_reach_ok b I (instr_fuel b) j 0) as (J & -> & HJ).
  { intros i Hi. replace i with j by lia. by exists I. }
  { unfold instr_fuel. lia. }
  cbn [mbind option_bind]. apply safely_bind. eapply safely_mono.
  { apply (t3_neighbours_ok j T I (instr_fuel b) (Some J) b l 0); try done.
    - intros i Hi. by replace i with J by lia.
    - unfold instr_fuel. lia. }
  intros [[[[P A] addr]|] b1] Hf; cbn beta iota; [|exact Hf].
  destruct Hf as (J' & K & k & l' & a & EK & -> & Hk & Hin & Hd & Hsame & HI).
  pose proof (HI j EI) as EI1. pose proof (ins_patched _ _ _ _ _ _ _ _ _ _ _ Hin) as Hp.
  pose proof (pa_wf _ _ _ _ _ Hp) as Hw1. pose proof (ins_alloc _ _ _ _ _ _ _ _ _ _ _ Hin) as HA.
  assert (Hall : ∀ i, 0 <= i < i_size I → states b1 I i = Some STATE_INSTRUCTION).
  { intros i Hi. unfold states. destruct (Hsame (i_offset I + i)) as [_ ->]; [lia|].
    eapply (shape_all (states b I)); [by apply (wf_shape _ _ _ Hw j)|lia|by rewrite states_0|done]. }
  destruct (new_Patch_ok j TACTIC_T3 b1 l' I (Some (A, a))) as (q & Eq & Hsv & EA & Ej & Et);
    [apply Hw1|apply Hw1|done|by intros x [= <-]|].
  cbn [fmap option_fmap option_map fst snd] in Eq, EA. rewrite Eq. cbn [mbind option_bind].
  set (ev := evicting (Some a)) in *.
  destruct (short_bytes b1 j I ev (i_addr K + k)) as (c1 & b2 & -> & E2 & R2 & P2 & Out2 & F2 & S2 & Sn);
    [apply Hw1|done|lia|done|done|].
  cbn [mbind option_bind]. rewrite E2. cbn [mbind option_bind safely].
  assert (Hc : change b1 b2 j I q ev (i_offset I + i_size I)).
  { apply change_intro; try done; [by rewrite Z.max_id|unfold PATCH_MAX; lia|by apply spilled_inside]. }
  exists l'. split.
  - eapply (patched_trans _ _ b1 l' b2 l' [q] P); [done| |].
    + assert (Hcq : committable [q] b2 l').
      { apply committable_cons; [|by rewrite EA; intros A' [= <-]; exists a|by left].
        rewrite Ej. eexists. by eapply change_instr. }
      split; [|apply Hc|apply Hc|done| |done].
      2: { eapply change_queue_kept; [apply Hw1|exact Hc|done|]. rewrite <- states_0. by rewrite Hall by lia. }
      eapply (change_wfx None None b1); try done; [|by left| | |by left].
      * unfold live. rewrite (rewrites_space _ _ R2). apply Hw1.
      * intros _. exists STATE_PATCHED. split; [|done]. rewrite <- states_0. apply S2. lia.
      * intros _. eapply (shape_overwritten b1 _ _ 2); [by apply (wf_shape _ _ _ Hw1 j)|lia|apply Hall; lia| |done|lia].
        intros i Hi Hi2. apply S2. lia.
    + apply committable_cons; [|by rewrite EA; intros A' [= <-]; exists a|].
      * rewrite Ej. eexists. by eapply change_instr.
      * right. eapply committable_mono; [apply Hp|apply Hc|done].
  - left. eapply lands_short; [exact HA|apply Hin|].
    destruct (evolves_instr b b2 J' K) as (K' & EK' & HcK); [eapply evolves_trans; [apply Hp|apply Hc]|done|].
    destruct (clear_fields _ _ HcK) as (G1 & G2 & G3 & _). exists J', K', k.
    rewrite G1, G2, G3, (jump_bytes_clear _ _ _ _ HcK).
    split_and!; [done|lia|lia|lia|lia|done|]. eapply fixed_preserves; [apply Hc|apply Hin].
Qed.

End Evict.

End TacticsEvict.
