(* ===== verification/E9TacticsPatch.v ===== *)
(** * E9TacticsPatch: patching an instruction

    Tactic T0 (batches) of src/src/e9patch/e9tactics.cpp, the commit, and [patch] itself:
    it never fails an assertion, a failed patch restores the binary, and a successful one
    makes the instruction land at its trampoline. *)

From stdpp Require Import gmap.
From S2P Require Import Prelude E9Patch E9Alloc E9AllocTree E9AllocSpec E9AllocIter E9AllocApi E9X86 E9Tactics E9TacticsMem E9TacticsSpec E9TacticsInv E9TacticsEvict.

Module TacticsPatch.
Import E9 E9Alloc AllocTree AllocSpec AllocIter AllocApi E9X86 E9Tactics TacticsMem TacticsSpec TacticsInv TacticsEvict.

Section Patch.
Context `{W : Window} {S : Type} `{TR : Trampolines (Binary S)}
  `{VS : !VirtualSpace (Binary S) S}.
Context {ST : Setup} {CT : Contract}.
Implicit Types (b : Binary S) (I K : Instr) (j : iptr).

(** ** Tactic T0: batches *)

Lemma pred_Some b j J : pred b j = Some (Some J) →
  ∃ I K, J = j - 1 ∧ instr b j = Some I ∧ instr b J = Some K ∧ i_offset K ≠ 0 ∧
    i_offset K + i_size K = i_offset I.
Proof.
  unfold pred. destruct (instr b j) as [I|]; [|done]. cbn [mbind option_bind]. intros [= E].
  destruct (instr b (j - 1)) as [K|] eqn:EK; [|done]. destruct (_ || _) eqn:Ec; [done|]. injection E as <-.
  apply orb_false_iff in Ec as [H0%Z.eqb_neq H1%negb_false_iff%Z.eqb_eq]. exists I, K. done.
Qed.

Lemma pred_ok b j I : instr b j = Some I → ∃ n, pred b j = Some n.
Proof. unfold pred. intros ->. cbn. eauto. Qed.

Lemma pred_adjacent b j I K :
  instr b j = Some I → instr b (j - 1) = Some K → i_offset K ≠ 0 →
  i_offset K + i_size K = i_offset I → pred b j = Some (Some (j - 1)).
Proof.
  intros EI EK H0 H1. unfold pred. rewrite EI, EK. cbn [mbind option_bind].
  by rewrite (proj2 (Z.eqb_neq _ _) H0), (proj2 (Z.eqb_eq _ _) H1).
Qed.

(** The first byte of the instruction is not frozen. *)
Definition loose b i : Prop :=
  ∃ I s, instr b i = Some I ∧ state_at b (i_offset I) = Some s ∧ frozen s = false.

Lemma batch_one b j I : instr b j = Some I → batch b j j.
Proof. intros EI i Hi. replace i with j by lia. exists I. split; [done|lia]. Qed.

Lemma batch_join b J j L : batch b J j → batch b j L → J <= j <= L → batch b J L.
Proof.
  intros H1 H2 Hj i Hi. destruct (Z.le_gt_cases i j) as [Hle|Hgt].
  - apply H1. lia.
  - destruct (H2 i ltac:(lia)) as (I & EI & HI). exists I. split; [done|]. intros _. apply HI. lia.
Qed.

Lemma batch_step b j I K :
  instr b j = Some K → instr b (j + 1) = Some I → i_target I = false → i_offset K ≠ 0 →
  i_offset K + i_size K = i_offset I → batch b j (j + 1).
Proof.
  intros EK EI Ht H0 H1 i Hi. destruct (Z.eq_dec i j) as [->|].
  - exists K. split; [done|lia].
  - replace i with (j + 1) by lia. exists I. split; [done|]. intros _. split; [done|].
    exists K. by replace (j + 1 - 1) with j by lia.
Qed.

Lemma t0_start_ok b n : ∀ J size I,
  layout b → instr b J = Some I →
  ∃ J' size', t0_start n b J size = Some (J', size') ∧ J' <= J ∧ batch b J' J ∧
    ∀ i, J' <= i < J → loose b i.
Proof.
  induction n as [|n IH]; intros J size I HL EI; cbn [t0_start].
  { exists J, size. split_and!; [done|lia|by eapply batch_one|lia]. }
  assert (Hdone : ∀ size' : Z, ∃ J' size'', Some (J, size') = Some (J', size'') ∧ J' <= J ∧ batch b J' J ∧
    ∀ i, J' <= i < J → loose b i).
  { intros size'. exists J, size'. split_and!; [done|lia|by eapply batch_one|lia]. }
  rewrite EI. cbn [mbind option_bind]. destruct (i_target I) eqn:Et; [apply Hdone|].
  destruct (pred_ok b J I EI) as [[K|] Ep]; rewrite Ep; cbn [mbind option_bind]; [|apply Hdone].
  destruct (pred_Some _ _ _ Ep) as (I' & k & -> & EI' & Ek & H0 & H1). rewrite EI in EI'. injection EI' as <-.
  rewrite Ek. cbn [mbind option_bind]. unfold STATE. rewrite Z.add_0_r.
  destruct (state_mapped b (i_offset k)) as [s Es].
  { rewrite <- (Z.add_0_r (i_offset k)). apply mapped_near; [by eapply la_instr|lia]. }
  unfold state_at in Es. rewrite Es. cbn [mbind option_bind].
  destruct (_ || _) eqn:Eq; [|apply Hdone].
  destruct (IH (J - 1) (size + i_size I) k HL Ek) as (J' & size' & -> & Hle & Hb & Hl).
  exists J', size'. split_and!; [done|lia| |].
  - eapply batch_join; [exact Hb| |lia]. replace J with (J - 1 + 1) at 2 by lia.
    eapply batch_step; [exact Ek|by replace (J - 1 + 1) with J by lia|done|done|done].
  - intros i Hi. destruct (Z.eq_dec i (J - 1)) as [->|]; [|apply Hl; lia].
    exists k, s. split_and!; [done|done|]. unfold frozen, writable.
    by apply orb_true_iff in Eq as [-> | ->]; rewrite ?orb_true_r.
Qed.

Lemma t0_end_ok b fuel : ∀ L sz v I,
  layout b → instr b L = Some I →
  (∀ i, L - Z.of_nat v <= i <= L → is_Some (instr b i)) →
  (size (B_Is b) < v + fuel + 1)%nat →
  ∃ L', t0_end fuel b L sz = Some L' ∧ L <= L' ∧ batch b L L' ∧ ∀ i, L < i <= L' → loose b i.
Proof.
  induction fuel as [|fuel IH]; intros L sz v I HL EI Hv Hf; cbn [t0_end].
  all: assert (Hdone : ∃ L', Some L = Some L' ∧ L <= L' ∧ batch b L L' ∧ ∀ i, L < i <= L' → loose b i)
    by (exists L; split_and!; [done|lia|by eapply batch_one|lia]).
  all: destruct (5 <=? sz); [exact Hdone|].
  all: destruct (succ_ok b L I EI) as [[K|] Es]; rewrite Es; cbn [mbind option_bind]; [|exact Hdone].
  all: destruct (succ_Some _ _ _ Es) as (I' & k & -> & EI' & Ek & H0 & H1); rewrite EI in EI'; injection EI' as <-.
  all: rewrite Ek; cbn [mbind option_bind]; destruct (canPatch_ok b (L + 1) k HL Ek) as (s & Es' & ->);
    cbn [mbind option_bind].
  all: destruct (i_target k || _ || _) eqn:Ec; [exact Hdone|].
  all: apply orb_false_iff in Ec as [[Ht Hs%negb_false_iff]%orb_false_iff _].
  all: destruct (la_cft _ HL (L + 1) k Ek) as [cft Ecft]; unfold T0_FLAGS in Ecft; rewrite Ecft; cbn [mbind option_bind].
  all: assert (Hb : batch b L (L + 1)) by
    (eapply batch_step; try done; pose proof (io_offset _ _ (la_instr _ HL _ _ EI)); lia).
  all: assert (Hl : loose b (L + 1)) by (exists k, s; split_and!; try done; by apply writable_not_frozen).
  all: destruct cft; [exists (L + 1); split_and!; [done|lia|done|intros i Hi; by replace i with (L + 1) by lia]|].
  - exfalso. pose proof (present_size (B_Is b) (L - Z.of_nat v) (v + 1)) as Hp.
    assert (v + 1 <= size (B_Is b))%nat; [|lia]. apply Hp. intros i Hi. apply Hv. lia.
  - destruct (IH (L + 1) (sz + i_size k) (Datatypes.S v) k HL Ek) as (L' & -> & Hle & Hb' & Hl').
    + intros i Hi. destruct (Z.eq_dec i (L + 1)) as [->|]; [by exists k|]. apply Hv. lia.
    + lia.
    + exists L'. split_and!; [done|lia|eapply batch_join; [exact Hb|exact Hb'|lia]|].
      intros i Hi. destruct (Z.eq_dec i (L + 1)) as [->|]; [done|]. apply Hl'. lia.
Qed.

(** One instruction is freed. *)
Lemma free_one b l b0 l0 (P : list Patch) (K : iptr) (X : Instr) :
  wf b l → instr b K = Some X → loose b K → undoable b0 l0 P b l → P = [] ∨ committable P b l →
  ∃ q b1 b', new_Patch evicteeTrampoline K TACTIC_T0 None b = Some (q, b1) ∧
    patchUnused K 0 b1 = Some b' ∧ wf b' l ∧ evolves b b' ∧ preserves b b' ∧
    same_out b b' (i_offset X) (i_offset X + i_size X) ∧ B_Ts b' = B_Ts b ∧
    (∀ i, i ≠ K → instr b' i = instr b i) ∧ instr b' K = Some (flag false X) ∧
    undoable b0 l0 (q :: P) b' l ∧ committable (q :: P) b' l.
Proof.
  intros Hw EK (X' & s & EK' & Es & Hs) Hu HP. rewrite EK in EK'. injection EK' as <-.
  pose proof (wf_instr _ _ _ _ _ Hw EK) as Ho. pose proof (io_size _ _ Ho).
  destruct (new_Patch_ok K TACTIC_T0 b l X None) as (q & Eq & Hsv & EA & Ej & Et);
    [apply Hw|apply Hw|done|done|].
  cbn [fmap option_fmap option_map evicting] in Eq, EA. set (b1 := set_B_Is _ b) in *.
  destruct (unused_ok K 0 b1 (flag false X)) as (b' & E' & R & Pr & Out & In); [by apply flag_instr|by destruct Ho|cbn; lia|].
  assert (Hc : change b b' K X q false (i_offset X + i_size X)).
  { apply change_intro; try done; [|unfold PATCH_MAX; lia|by apply spilled_inside].
    intros q' Hq. rewrite Z.max_id in Hq. apply Out. cbn. lia. }
  assert (Hl : live b' l) by (unfold live; rewrite (rewrites_space _ _ R); apply Hw).
  exists q, b1, b'. split_and!; try done.
  - eapply (change_wfx None None b); try done; [by left|intros _|by left].
    eapply shape_ext, shape_freed; [|by apply (wf_shape _ _ _ Hw K)]. intros i Hi. by apply In.
  - apply Hc.
  - intros q' Hq. apply Out. cbn. lia.
  - destruct R as (bs & st & -> & _). by destruct b.
  - intros i Hi. by eapply change_other.
  - by eapply change_instr.
  - eapply change_undoable; [exact Hw|exact EK| |exact Hc|by rewrite EA|exact Hu].
    by eapply not_evicted.
  - apply committable_cons; [|by rewrite EA|].
    + rewrite Ej. eexists. by eapply change_instr.
    + destruct HP as [->|HP]; [by left|right]. eapply committable_mono; [done|apply Hc|done].
Qed.

Lemma out_of_range b b' (i K : iptr) X Y :
  layout b → instr b i = Some X → instr b K = Some Y → i ≠ K →
  same_out b b' (i_offset Y) (i_offset Y + i_size Y) → state_at b' (i_offset X) = state_at b (i_offset X).
Proof.
  intros HL EX EY Hi Hout. pose proof (io_size _ _ (la_instr _ HL _ _ EX)).
  apply Hout. destruct (Z.lt_total i K) as [Hlt|[?|Hlt]]; [|done|].
  - pose proof (proj1 (la_sorted _ HL _ _ _ _ Hlt EX EY)). lia.
  - pose proof (proj1 (la_sorted _ HL _ _ _ _ Hlt EY EX)). lia.
Qed.

Lemma t0_free_stop fuel b (J : iptr) I (Ko : option iptr) (P : list Patch) :
  layout b → instr b J = Some I →
  match Ko with None => True | Some K => (K < J) ∧ is_Some (instr b K) end →
  t0_free evicteeTrampoline fuel J Ko P b = Some (P, b).
Proof.
  intros HL EJ HK. destruct fuel; cbn [t0_free]; (destruct Ko as [K|]; [|done]);
    destruct HK as [Hlt [k Ek]]; rewrite Ek, EJ; cbn [mbind option_bind];
    pose proof (proj2 (la_sorted _ HL _ _ _ _ Hlt Ek EJ)); pose proof (io_size _ _ (la_instr _ HL _ _ Ek));
    by rewrite (proj2 (Z.ltb_lt _ _)) by lia.
Qed.

Lemma t0_free_ok J n : ∀ fuel b l b0 l0 P,
  wf b l → batch b J (J + Z.of_nat n) → (∀ i, J <= i <= J + Z.of_nat n → loose b i) →
  undoable b0 l0 P b l → P = [] ∨ committable P b l → (n < fuel)%nat →
  ∃ P' b', t0_free evicteeTrampoline fuel J (Some (J + Z.of_nat n)) P b = Some (P', b') ∧
    wf b' l ∧ evolves b b' ∧ preserves b b' ∧ B_Ts b' = B_Ts b ∧
    undoable b0 l0 P' b' l ∧ committable P' b' l ∧
    ∀ i X, instr b i = Some X → i < J ∨ J + Z.of_nat n < i →
      state_at b' (i_offset X) = state_at b (i_offset X).
Proof.
  induction n as [|n IH]; intros [|fuel] b l b0 l0 P Hw Hb Hl Hu HP Hf; try lia.
  all: match goal with |- context [Some (?a + ?m)] => set (K := a + m) in * end; cbn [t0_free].
  all: destruct (Hb K ltac:(lia)) as (X & EX & HX); destruct (Hb J ltac:(lia)) as (I & EI & _).
  all: rewrite EX, EI; cbn [mbind option_bind].
  all: destruct (free_one b l b0 l0 P K X Hw EX (Hl K ltac:(lia)) Hu HP)
    as (q & b1 & b' & E1 & E2 & Hw' & He & Hp & Hout & HTs & Hoth & EK' & Hu' & HP').
  all: rewrite (proj2 (Z.ltb_ge (i_addr X) (i_addr I))).
  2, 4: destruct (decide (K = J)) as [EKJ|HKJ]; [rewrite EKJ, EI in EX; injection EX as <-; lia|];
    pose proof (proj2 (la_sorted _ (wf_layout _ _ _ Hw) J K _ _ ltac:(lia) EI EX));
    pose proof (io_size _ _ (wf_instr _ _ _ _ _ Hw EI)); lia.
  all: rewrite E1; cbn [mbind option_bind]; rewrite E2; cbn [mbind option_bind].
  - assert (EKJ : K = J) by lia. destruct (pred_ok b' K _ EK') as [Ko Ep]. rewrite Ep. cbn [mbind option_bind].
    rewrite (t0_free_stop fuel b' J (flag false X) Ko (q :: P) (wf_layout _ _ _ Hw')).
    + exists (q :: P), b'. split_and!; try done. intros i Y EY Hi.
      apply (out_of_range b b' i K Y X); try done; [apply Hw|lia].
    + by rewrite <- EKJ.
    + destruct Ko as [K'|]; [|done]. destruct (pred_Some _ _ _ Ep) as (? & Y & -> & _ & EY & _). split; [lia|by exists Y].
  - destruct (HX ltac:(lia)) as (_ & Y & EY & HY0 & HY1).
    rewrite (pred_adjacent b' K (flag false X) Y EK'); [|by rewrite Hoth by lia|done|done].
    cbn [mbind option_bind]. replace (K - 1) with (J + Z.of_nat n) by lia.
    destruct (IH fuel b' l b0 l0 (q :: P)) as (P' & b'' & E'' & G1 & G2 & G3 & G4 & G5 & G6 & G7); try done; [| |by right|lia|].
    + intros i Hi. destruct (Hb i ltac:(lia)) as (Z0 & EZ & HZ). exists Z0. rewrite Hoth by lia. split; [done|].
      intros Hlt. destruct (HZ Hlt) as (Ht & Z1 & EZ1 & HZ1). split; [done|]. exists Z1. by rewrite Hoth by lia.
    + intros i Hi. destruct (Hl i ltac:(lia)) as (Z0 & s & EZ & Es & Hs). exists Z0, s. rewrite Hoth by lia.
      split_and!; [done| |done]. rewrite (out_of_range b b' i K Z0 X); try done; [apply Hw|lia].
    + exists P', b''. split_and!; try done; [by eapply evolves_trans|by etrans|congruence|].
      intros i V EV Hi. rewrite (G7 i V); [|by rewrite Hoth by lia|lia].
      apply (out_of_range b b' i K V X); try done; [apply Hw|lia].
Qed.

Lemma wf_trampoline b l U n : wf b l → n ∉ dom (B_Ts b) →
  let b' := set_B_Ts (<[n := U]> (B_Ts b)) b in wf b' l ∧ evolves b b' ∧ preserves b b'.
Proof.
  intros [H1 H2 H3 H4] Hn b'. assert (He : evolves b b').
  { destruct b. split; try done. cbn. by apply insert_subseteq, not_elem_of_dom. }
  split; [|split; [done|]]; [by split; [by eapply layout_evolves|..]|].
  intros q s Es Hs. split; [done|]. by exists s.
Qed.

Lemma attempts_ok b l J K t U :
  wf b l → instr b J = Some K →
  safely (or_try (or_try (tactic_B1 opts evicteeTrampoline J U t b) (tactic_B2 opts evicteeTrampoline J U t))
                 (tactic_T1 opts evicteeTrampoline J U t))
         (single b l J K U t).
Proof.
  intros Hw EK. pose proof (wf_layout _ _ _ Hw) as HL. pose proof (wf_live _ _ _ Hw) as Hl.
  pose proof (wf_soft _ _ _ _ Hw EK) as Hs. apply single_or; try done.
  - apply single_or; try done; [by apply tactic_B1_ok|].
    intros b1 H1 H2 H3 H4. by apply tactic_B2_ok.
  - intros b1 H1 H2 H3 H4. by apply tactic_T1_ok.
Qed.

(** The batch is freed, and its first instruction replaced by a jump. *)
Lemma batch_lands b b1 b2 l J L K X XL U A a l1 l2 p P n :
  J < L → batch b J L → instr b J = Some K → instr b L = Some XL →
  l = l1 ++ l2 → wf b1 l → evolves b b1 → preserves b b1 → committable P b1 l →
  (∀ i Y, instr b i = Some Y → i < J ∨ L < i → state_at b1 (i_offset Y) = state_at b (i_offset Y)) →
  instr b1 J = Some X → clear X = clear K →
  B_Ts b1 !! U = Some (batch_trampoline (i_addr XL)) → a_T a = Some U →
  live b2 (l1 ++ (A, a) :: l2) → installed b1 b2 J X p A a TACTIC_T0 n →
  patched b l b2 (l1 ++ (A, a) :: l2) (p :: P) ∧
  ∀ i Y, instr b i = Some Y → J <= i <= L → lands b2 (l1 ++ (A, a) :: l2) i Y (i_T Y).
Proof.
  intros Hlt Hb EK EL -> Hw1 He1 Hp1 HP Hframe EX HcX EU HT Hl Hin.
  pose proof (installed_change _ _ _ _ _ _ _ _ _ (wf_layout _ _ _ Hw1) EX Hin) as Hc.
  destruct (allocs_insert l1 l2 (A, a)) as [Hsub HA].
  assert (He : evolves b b2) by (eapply evolves_trans; [exact He1|apply Hc]).
  assert (Hlands : ∀ i Y, instr b i = Some Y → J <= i <= L → lands b2 (l1 ++ (A, a) :: l2) i Y (i_T Y)).
  { assert (Hb2 : batch b2 J L).
    { intros i Hi. destruct (Hb i Hi) as (Y & EY & HY). destruct (evolves_instr _ _ _ _ He EY) as (Y' & EY' & HcY).
      destruct (clear_fields _ _ HcY) as (G1 & _ & _ & _ & _ & G6 & _). exists Y'. split; [done|]. intros Hlt'.
      destruct (HY Hlt') as (Ht & V & EV & HV1 & HV2). rewrite G6, G1. split; [done|].
      destruct (evolves_instr _ _ _ _ He EV) as (V' & EV' & HcV).
      exists V'. destruct (clear_fields _ _ HcV) as (Q1 & Q2 & _). by rewrite Q1, Q2. }
    destruct (evolves_instr _ _ _ _ He EL) as (XL' & EL' & HcL).
    destruct (clear_fields _ _ HcL) as (_ & _ & F3 & _). intros i Y EY Hi.
    eapply (lands_batch _ _ _ _ _ A a U J L (flag (evicting (Some a)) X) XL'); try done.
    + by eapply change_instr.
    + rewrite F3. eapply lookup_weaken; [exact EU|apply Hc].
    + eapply near_jump_mono; [reflexivity|apply clear_flag|]. by eapply installed_near. }
  split; [|done]. split; [by eapply installed_wf; [| |left| |]|done|etrans; [done|apply Hc]|done| |].
  - intros i Y EY Es. destruct (decide (J <= i <= L)) as [Hi|Hi]; [right; by apply Hlands|].
    rewrite <- (Hframe i Y EY ltac:(lia)) in Es. destruct (evolves_instr _ _ _ _ He1 EY) as (Y1 & EY1 & HcY).
    destruct (clear_fields _ _ HcY) as (Eo & _ & _ & _ & _ & _ & ET). rewrite <- Eo in Es |- *.
    destruct (installed_queue_kept b1 b2 J X p A a TACTIC_T0 n (l1 ++ (A, a) :: l2) (wf_layout _ _ _ Hw1) EX Hin i Y1 EY1 Es)
      as [?|Hla]; [by left|right].
    rewrite <- ET. apply (lands_mono b2 b2 (l1 ++ (A, a) :: l2) (l1 ++ (A, a) :: l2) i Y1); [apply evolves_refl|reflexivity|done|symmetry; exact HcY|exact Hla].
  - apply committable_cons.
    + rewrite (in_I _ _ _ _ _ _ _ _ _ Hin). eexists. by eapply change_instr.
    + intros A' E. rewrite (in_A _ _ _ _ _ _ _ _ _ Hin) in E. injection E as <-. by exists a.
    + right. eapply committable_mono; [exact HP|apply Hc|done].
Qed.

Lemma tactic_T0_ok j T b l I :
  wf b l → instr b j = Some I → state_at b (i_offset I) = Some STATE_INSTRUCTION →
  safely (tactic_T0 opts evicteeTrampoline j T b) (outcome b l j I T).
Proof.
  intros Hw EI Es. pose proof (wf_layout _ _ _ Hw) as HL.
  destruct (canPatch_ok b j I HL EI) as (s & Es' & Ecan).
  unfold tactic_T0. rewrite EI, Ecan. cbn [mbind option_bind].
  destruct (_ || _) eqn:Ec; [by apply restored_refl, Hw|].
  apply orb_false_iff in Ec as [_ EIT%negb_false_iff%bool_decide_eq_true].
  destruct (t0_start_ok b (Z.to_nat T0_LIMIT) j 0 I HL EI) as (J & sz & -> & HJ & HbJ & HlJ).
  cbn [mbind option_bind].
  destruct (t0_end_ok b (instr_fuel b) j sz 0 I HL EI) as (L & -> & HjL & HbL & HlL).
  { intros i Hi. replace i with j by lia. by exists I. }
  { unfold instr_fuel. lia. }
  cbn [mbind option_bind]. destruct (Z.eqb_spec J L) as [|Hne]; [by apply restored_refl, Hw|].
  pose proof (batch_join b J j L HbJ HbL ltac:(lia)) as Hb.
  assert (Hloose : ∀ i, J <= i <= L → loose b i).
  { intros i Hi. destruct (Z.lt_total i j) as [Hlt|[->|Hlt]]; [apply HlJ; lia| |apply HlL; lia].
    by exists I, STATE_INSTRUCTION. }
  destruct (t0_free_ok J (Z.to_nat (L - J)) (instr_fuel b) b l b l [])
    as (P & b1 & E1 & Hw1 & He1 & Hp1 & HTs1 & Hu1 & HP1 & Hframe); try done.
  { by replace (J + Z.of_nat (Z.to_nat (L - J))) with L by lia. }
  { intros i Hi. apply Hloose. lia. }
  { apply undoable_nil. }
  { by left. }
  { unfold instr_fuel. assert (Z.to_nat (L - J) + 1 <= size (B_Is b))%nat; [|lia]. apply (present_size _ J).
    intros i Hi. destruct (Hb i ltac:(lia)) as (X & EX & _). by exists X. }
  replace (J + Z.of_nat (Z.to_nat (L - J))) with L in E1, Hframe by lia. rewrite E1. cbn [mbind option_bind].
  destruct (Hb L ltac:(lia)) as (XL & EL & _). destruct (Hb J ltac:(lia)) as (K & EK & _).
  destruct (evolves_instr _ _ _ _ He1 EL) as (XL1 & EL1 & HcL). rewrite EL1. cbn [mbind option_bind].
  destruct (clear_fields _ _ HcL) as (_ & _ & -> & _).
  destruct (evolves_instr _ _ _ _ He1 EK) as (X & EX & HcX).
  unfold new_trampoline. fold (batch_trampoline (i_addr XL)).
  set (U := fresh (dom (B_Ts b1) : gset ptr)). set (bU := set_B_Ts _ b1).
  destruct (wf_trampoline b1 l (batch_trampoline (i_addr XL)) U Hw1) as (HwU & HeU & HpU); [apply is_fresh|].
  fold bU in HwU, HeU, HpU.
  assert (EXU : instr bU J = Some X) by (by destruct b1).
  apply safely_bind. eapply safely_mono; [by apply (attempts_ok bU l J X)|].
  intros [[Q|] b2] Hq; cbn beta iota.
  - destruct Hq as (p & A & l1 & a & l2 & n & -> & El & HT & Hl2 & Hin). cbn [safely set_next].
    destruct (batch_lands b bU b2 l J L K X XL U A a l1 l2 p P n) as [Hpa Hla]; try done; try lia.
    + eapply evolves_trans; [exact He1|exact HeU].
    + unfold bU. destruct b1. cbn. apply lookup_insert_eq.
    + exists (l1 ++ (A, a) :: l2). split; [exact Hpa|]. left. rewrite <- EIT. apply Hla; [done|lia].
  - destruct Hq as (s' & -> & Hl2).
    assert (Hr : restored b1 l (delete_trampoline U (set_B_space s' bU))).
    { exists s'. split; [|done]. unfold delete_trampoline, bU. destruct b1; cbn in *.
      rewrite delete_insert_id by (apply not_elem_of_dom, is_fresh). done. }
    destruct (Hu1 _ Hr) as (b3 & -> & Hr3). exact Hr3.
Qed.

(** ** All tactics, and the commit *)

Lemma restored_state b l b1 q : restored b l b1 → state_at b1 q = state_at b q.
Proof. intros (s & -> & _). by destruct b. Qed.

(** The instruction, when one of the tactics is tried. *)
Definition ready b l j I : Prop :=
  wf b l ∧ instr b j = Some I ∧ state_at b (i_offset I) = Some STATE_INSTRUCTION.

Lemma ready_or b l j I T (r : result (S := S)) k :
  ready b l j I → safely r (outcome b l j I T) →
  (∀ b1, ready b1 l j I → safely (k b1) (outcome b1 l j I T)) →
  safely (or_try r k) (outcome b l j I T).
Proof.
  intros (Hw & EI & Es) Hr Hk. apply outcome_or; try done. intros b1 Hr1 Hw1 EI1. apply Hk.
  split_and!; [done|done|]. by rewrite (restored_state _ _ _ _ Hr1).
Qed.

Lemma single_tactic b l j I T t (r : result (S := S)) :
  ready b l j I → (soft b I → safely r (single b l j I T t)) →
  safely r (outcome b l j I T).
Proof.
  intros (Hw & EI & _) Hr. eapply safely_mono; [apply Hr; by eapply wf_soft|].
  intros r'. by eapply single_outcome.
Qed.

Lemma all_tactics_ok j T b l I :
  ready b l j I → T ≠ Some evicteeTrampoline → T ≠ None →
  i_size I ≠ 1 ∨ option_tactic_T3 opts = false →
  safely (all_tactics opts evicteeTrampoline j T b) (outcome b l j I T).
Proof.
  intros HR HT HT0 H1. unfold all_tactics.
  assert (Hf : ∀ b, ready b l j I → layout b ∧ live b l ∧ instr b j = Some I)
    by (intros b0 (Hw & ? & _); split_and!; [apply Hw..|done]).
  repeat (apply ready_or; [done| |intros b1 HR1; destruct (Hf b1 HR1) as (HL1 & Hl1 & EI1)]).
  - destruct HR as (Hw & EI & Es). by apply tactic_T0_ok.
  - eapply single_tactic; [done|]. intros Hs. by apply tactic_B1_ok.
  - eapply single_tactic; [done|]. intros Hs. by apply tactic_B2_ok.
  - eapply single_tactic; [done|]. intros Hs. by apply tactic_T1_ok.
  - apply tactic_T2_ok; [apply HR1|done].
  - apply tactic_T3_ok; try done; apply HR1.
  - apply tactic_B0_ok; [apply HR1|done|apply HR1].
Qed.

Definition with_commit (Es : gmap Z EntryPoint) (Tr : list (option ptr)) (st : Stats) b : Binary S :=
  set_B_Es Es (set_B_Traps Tr (set_B_stats st b)).

Lemma set_entries_ok P : ∀ b l, live b l →
  (∀ p, p ∈ P → (∃ I, instr b (p_I p) = Some I) ∧ ∀ A, p_A p = Some A → ∃ a, (A, a) ∈ l) →
  ∃ Es, set_entries P b = Some (set_B_Es Es b).
Proof.
  induction P as [|p P IH]; intros b l Hl HP; cbn [set_entries].
  { exists (B_Es b). by destruct b. }
  assert (HP' : ∀ q, q ∈ P → (∃ I, instr b (p_I q) = Some I) ∧ ∀ A, p_A q = Some A → ∃ a, (A, a) ∈ l).
  { intros q Hq. apply HP. by right. }
  destruct (HP p ltac:(by left)) as [[I EI] HA]. destruct (p_A p) as [A|]; cbn [mbind option_bind]; [|by eapply IH].
  destruct (HA A eq_refl) as [a Ha]. rewrite EI. cbn [mbind option_bind]. unfold alloc_of.
  rewrite (vs_get_live _ _ _ _ Hl Ha). cbn [mbind option_bind].
  destruct (IH (set_B_Es (setTrampolineEntry (B_Es b) (p_I p) I (s64 (a_lb a + a_entry a))) b) l) as [Es ->];
    [by destruct b|by destruct b|]. exists Es. by destruct b.
Qed.

Lemma commit_ok P b l :
  live b l → committable P b l → ∃ Es Tr st,
    commit P b = Some (with_commit Es Tr st b) ∧ B_Traps b ⊆ Tr ∧
    ∀ p A, P = [p] → p_tactic p = TACTIC_B0 → p_A p = Some A → Some A ∈ Tr.
Proof.
  intros Hl [Hn HP]. unfold commit. destruct P as [|p P]; [done|].
  set (b1 := set_B_stats _ b).
  set (b2 := if decide (p_tactic p = TACTIC_B0) then set_B_Traps (B_Traps b1 ++ [p_A p]) b1 else b1).
  assert (E2 : ∃ Tr st, b2 = set_B_Traps Tr (set_B_stats st b) ∧ B_Traps b ⊆ Tr ∧
    (p_tactic p = TACTIC_B0 → p_A p ∈ Tr)).
  { unfold b2. destruct (decide _) as [E|E].
    - exists (B_Traps b ++ [p_A p]), (count (p_tactic p) (B_stats b)). split_and!; [by destruct b| |].
      + intros x Hx. apply elem_of_app. by left.
      + intros _. apply elem_of_app. right. by left.
    - exists (B_Traps b), (count (p_tactic p) (B_stats b)). split_and!; [by destruct b|done|done]. }
  destruct E2 as (Tr & st & -> & HTr & HB0).
  destruct (set_entries_ok (p :: P) (set_B_Traps Tr (set_B_stats st b)) l) as [Es ->];
    [by destruct b|by destruct b|]. exists Es, Tr, st. split_and!; [done|done|].
  intros q A [= <- _] Et EA. rewrite <- EA. by apply HB0.
Qed.

Lemma commit_evolves Es Tr st b : B_Traps b ⊆ Tr → evolves b (with_commit Es Tr st b).
Proof. intros HT. destruct b. by split. Qed.

Lemma commit_preserves Es Tr st b : preserves b (with_commit Es Tr st b).
Proof. intros q s E Hs. destruct b. split; [done|by exists s]. Qed.

Lemma wf_commit Es Tr st b l : B_Traps b ⊆ Tr → wf b l → wf (with_commit Es Tr st b) l.
Proof.
  intros HT [H1 H2 H3 H4]. split; [|by destruct b..].
  eapply layout_evolves, H1. by apply commit_evolves.
Qed.

(** The effect of a successful patch. *)
Record success b l j I (T : option ptr) b' l' : Prop := {
  su_wf : wf b' l';
  su_evolves : evolves b b';
  su_preserves : preserves b b';
  su_allocs : l ⊆ l';
  su_queued : queue_kept b b' l';
  su_lands : lands b' l' j I T }.

Lemma patch_ok j T b l I :
  ready b l j I → T ≠ Some evicteeTrampoline → T ≠ None →
  i_size I ≠ 1 ∨ option_tactic_T3 opts = false →
  ∃ ok b', patch opts evicteeTrampoline j T b = Some (ok, b') ∧
    if (ok : bool) then ∃ l', success b l j I T b' l' else restored b l b'.
Proof.
  intros HR HT HT0 H1. pose proof HR as (Hw & EI & Es).
  unfold patch. rewrite EI. cbn [mbind option_bind]. unfold STATE. rewrite Z.add_0_r.
  fold (state_at b (i_offset I)). rewrite Es. cbn [mbind option_bind].
  change (negb (STATE_INSTRUCTION =? STATE_INSTRUCTION)) with false. cbn beta iota.
  pose proof (all_tactics_ok j T b l I HR HT HT0 H1) as Ho.
  destruct (all_tactics _ _ _ _ _) as [[[P|] b1]|]; [| |done]; cbn [safely outcome mbind option_bind] in *.
  2: { by exists false, b1. }
  destruct Ho as (l' & [P1 P2 P3 P4 P5 P6] & Hp).
  destruct (commit_ok P b1 l' (wf_live _ _ _ P1) P6) as (Es' & Tr & st & -> & HTr & HB0).
  cbn [mbind option_bind]. pose proof (commit_evolves Es' Tr st b1 HTr) as He.
  exists true, (with_commit Es' Tr st b1). split; [done|]. exists l'.
  assert (Hmono : ∀ i X U, lands b1 l' i X U → lands (with_commit Es' Tr st b1) l' i X U).
  { intros i X U. by apply (lands_mono b1 _ l' l' i X X U He (commit_preserves Es' Tr st b1)). }
  split; [by apply wf_commit|by eapply evolves_trans|etrans; [done|apply commit_preserves]|done| |].
  - intros i X EX EXs. destruct (P5 i X EX EXs) as [?|?]; [by left|right; by apply Hmono].
  - destruct Hp as [Hp|(p & A & a & -> & Et & EA & HA & HTa & Hf)]; [by apply Hmono|].
    eapply lands_trap; [exact HA|done| |done]. by eapply HB0.
Qed.


End Patch.

(** ** A concrete binary, for the witnesses *)

(** Trampolines of 64 bytes, anywhere. *)
Definition plain_trampolines (B : Type) : Trampolines B := {|
  getTrampolinePrologueSize _ _ := Some 0;
  getTrampolineSize _ _ _ := Some 64;
  getTrampolineBounds _ _ _ := Some (MkBounds INTPTR_MIN INTPTR_MAX) |}.

(** The default options: all tactics but B0; T0 also needs [option_OCFR].  The second
    argument enables T3. *)
Definition tactic_options (lb : Z) (T3 : bool) : Options := {|
  option_Ocall := false; option_OCFR := false; option_Oorder := false; option_Oscratch_stack := false;
  option_tactic_B0 := false; option_tactic_B1 := true; option_tactic_B2 := true;
  option_tactic_T0 := true; option_tactic_T1 := true; option_tactic_T2 := true;
  option_tactic_T3 := T3; option_tactic_backward_T3 := true;
  option_mem_multi_page := true; option_mem_lb := lb;
  option_mem_ub := RELATIVE_ADDRESS_MAX; option_loader_base := 0x20e9e9000;
  option_batch := true; option_Opeephole := true; option_Oepilogue := 64;
  option_Oepilogue_size := 256; option_Oprologue := 64; option_Oprologue_size := 256 |}.

Definition with_T3 : Setup :=
  {| opts := tactic_options RELATIVE_ADDRESS_MIN true; evicteeTrampoline := 1%positive |}.
Definition without_T3 : Setup := {| opts := tactic_options 0 false; evicteeTrampoline := 1%positive |}.

(** The instructions of the given sizes, adjacent from the offset 16, at [0x401000]. *)
Definition sample_instr (off n : Z) : Instr :=
  MkInstr off n 0 0 false false false false false false false (0x400ff0 + off) None None.

Fixpoint sample_instrs (j off : Z) (sizes : list Z) : list (iptr * Instr) :=
  match sizes with
  | [] => []
  | n :: sizes => (j, sample_instr off n) :: sample_instrs (j + 1) (off + n) sizes
  end.

Definition no_stats : Stats := MkStats 0 0 0 0 0 0 0.

Definition sample_binary (sizes : list Z) (code : bytes) : Binary Tree :=
  let pad := repeat 0 16 ++ code ++ repeat 0 64 in
  MkBinary (blen pad) MODE_ELF_EXE 0 false pad pad
    (repeat 0 16 ++ repeat STATE_INSTRUCTION (length code) ++ repeat 0 64) 0 []
    (list_to_map (sample_instrs 1 16 sizes)) 1 (1 + Z.of_nat (length sizes))
    (<[1%positive := MkTrampoline 5 false []]> ∅) ∅ ∅
    ∅ [] [] ∅ empty_tree no_stats.

(** [mov $1,%eax; ret]: the jump replaces the [mov]. *)
Definition sample : Binary Tree := sample_binary [5; 1] [0xb8; 1; 0; 0; 0; 0xc3].

(** [push %rax; mov %ebx,%eax; mov %rax,%rbx]: a jump at the [push] leads below address 0
    with the bytes that follow it, also when T2 evicts the [mov]. *)
Definition unpatchable : Binary Tree := sample_binary [1; 2; 3] [0x50; 0x89; 0xd8; 0x48; 0x89; 0xc3].

Lemma sample_cases sizes code j I :
  instr (sample_binary sizes code) j = Some I → (j, I) ∈ sample_instrs 1 16 sizes.
Proof. apply elem_of_list_to_map_2. Qed.

#[local] Ltac sample_case E :=
  unfold sample, unpatchable in E; apply sample_cases in E; cbn in E; rewrite !elem_of_cons, elem_of_nil in E;
  destruct_or? E; try done; simplify_eq.

#[local] Instance sample_W : Window := relative_window.
#[local] Instance sample_TR : Trampolines (Binary Tree) := plain_trampolines (Binary Tree).

Lemma sample_contract (ST : Setup) :
  option_Oorder opts = false → - 2 ^ 63 <= option_mem_ub opts → Contract (S := Tree).
Proof.
  intros Ho Hm. split.
  - intros b T J. exists 0, 64. split_and!; try done; unfold TRAMPOLINE_MAX; lia.
  - intros b T J. eexists. split; [reflexivity|]. cbn. unfold INTPTR_MAX. lia.
  - done.
  - cbn. unfold RELATIVE_ADDRESS_MIN, RELATIVE_ADDRESS_MAX. lia.
  - congruence.
Qed.

#[local] Instance with_T3_contract : Contract (S := Tree) (ST := with_T3).
Proof. by apply sample_contract. Qed.
#[local] Instance without_T3_contract : Contract (S := Tree) (ST := without_T3).
Proof. by apply sample_contract. Qed.

#[local] Ltac sample_layout :=
  split;
  [intros j I E; sample_case E; split; unfold addr_ok; vm_compute; intuition congruence
  |intros j k I K Hjk E1 E2; sample_case E1; sample_case E2; cbn; lia
  |intros j k I K Hjk E1 E2; sample_case E1; sample_case E2; cbn; lia
  |by apply bytes_ok_check|by apply bytes_ok_check
  |intros j I E; sample_case E; vm_compute; by eexists
  |apply elem_of_dom; by exists (MkTrampoline 5 false [])].

#[local] Ltac sample_wf :=
  split;
  [sample_layout|apply empty_valid
  |intros j I _ E; sample_case E; apply (shape_code _ _ 0); try lia; cbn; intros i Hi; try lia;
   let Hc := fresh in
   assert (Hc : i = 0 ∨ i = 1 ∨ i = 2 ∨ i = 3 ∨ i = 4) by lia; destruct_or? Hc; subst i; try lia; reflexivity
  |intros j I E; sample_case E; discriminate].

Lemma patchable_ready : ready (ST := with_T3) sample [] 1 (sample_instr 16 5).
Proof. split; [sample_wf|done]. Qed.

Lemma unpatchable_ready : ready (ST := without_T3) unpatchable [] 1 (sample_instr 16 1).
Proof. split; [sample_wf|done]. Qed.

(** ** Properties *)







(** Tactic T3 for single-byte instructions is excluded above because it can destroy the
    displacement that it relies on.  The [push] is followed by an [add], whose opcode [2]
    is the displacement of the short jump; the jump leads into the [add] itself, so that
    the [add] is evicted, and its first byte becomes [0xe9]: the short jump that was to
    reach the offset 20 now leads backwards. *)
Definition rel8_options : Options := {|
  option_Ocall := false; option_OCFR := false; option_Oorder := false; option_Oscratch_stack := false;
  option_tactic_B0 := false; option_tactic_B1 := true; option_tactic_B2 := false;
  option_tactic_T0 := false; option_tactic_T1 := false; option_tactic_T2 := false;
  option_tactic_T3 := true; option_tactic_backward_T3 := true;
  option_mem_multi_page := true; option_mem_lb := RELATIVE_ADDRESS_MIN;
  option_mem_ub := RELATIVE_ADDRESS_MAX; option_loader_base := 0x20e9e9000;
  option_batch := true; option_Opeephole := true; option_Oepilogue := 64;
  option_Oepilogue_size := 256; option_Oprologue := 64; option_Oprologue_size := 256 |}.

Definition rel8_binary : Binary Tree :=
  sample_binary [1; 7; 5] [0x50; 0x02; 0x84; 0x24; 0x10; 0; 0; 0; 0xb8; 0; 0x10; 0x30; 0].

Lemma t3b_overwrites_rel8 :
  (patch rel8_options 1%positive 1 (Some 2%positive) rel8_binary ≫= λ r,
    Some (r.1, take 9 (drop 16 (B_bytes r.2)))) =
  Some (true, [0xeb; 0xe9; 0; 0; 0xe9; 0; 0; 0; 0xb8]).
Proof. by vm_compute. Qed.

End TacticsPatch.
