(* ===== verification/E9X86Sim.v ===== *)
(** * E9X86Sim: relocation into different buffers

    [relocateInstr] (e9x86_64.cpp) is run to measure an instruction, without a buffer, and
    to emit it, into buffers of different sizes, and in a relaxed mode that does not check
    the range of displacements.  A simulation between two such runs shows that they agree
    on the size and the bytes. *)

From stdpp Require Import gmap.
From S2P Require Import Prelude E9Patch E9X86.

Module X86Sim.
Import E9 E9X86.

Lemma le_bytes_blen n z : blen (le_bytes n z) = Z.of_nat n.
Proof. unfold blen. by rewrite le_bytes_len. Qed.

Section Sim.
(** [R n] relates two buffers before the last [n] bytes are put into them; [s1] and [s2]
    are their starts. *)
Context (R : Z → Buffer → Buffer → Prop) (s1 s2 : Z).
Context (R_mono : ∀ n m b1 b2, R n b1 b2 → m <= n → R m b1 b2).
Context (R_push : ∀ n b1 b2 x, R n b1 b2 → 1 <= n →
  ∃ c1 c2, push x b1 = Some c1 ∧ push x b2 = Some c2 ∧ R (n - 1) c1 c2).
Context (R_size : ∀ n b1 b2, R n b1 b2 →
  buf_size b1 s1 = buf_size b2 s2 ∧ 0 <= buf_size b2 s2 <= 128).

(** The two runs have the same offset and mode, or the second one is relaxed and at
    offset 0. *)
Context (same : bool) (off1 off2 : Z) (relax1 relax2 : bool).
Context (Hmode : if same then off2 = off1 ∧ relax2 = relax1
                 else off2 = 0 ∧ relax1 = false ∧ relax2 = true).
Context (R_push_bytes : ∀ n b1 b2 d1 d2 len, R n b1 b2 → (same = true → d1 = d2) →
  0 <= len <= n → len <= blen d1 → len <= blen d2 →
  ∃ c1 c2, push_bytes d1 len b1 = Some c1 ∧ push_bytes d2 len b2 = Some c2 ∧ R (n - len) c1 c2).
Context (opts : Options) (addr : Z) (bs : bytes) (size : Z) (pic : bool).
Context (Hsize : 0 < size <= 15) (Hlen : size <= blen bs) (Hbs : bytes_ok bs).

(** Both runs commit what they have put into the buffers, or the first one gives up. *)
Definition related (o1 o2 : option (Z * Buffer)) : Prop :=
  match o1 with
  | None => same = true → o2 = None
  | Some (r1, c1) =>
      (∃ d1 d2 r2 c2, R 0 d1 d2 ∧ buf_commit s1 d1 = (r1, c1) ∧ o2 = Some (r2, c2) ∧
                      buf_commit s2 d2 = (r2, c2)) ∨
      (r1 = -1 ∧ (same = true → ∃ c2, o2 = Some (-1, c2) ∧ R 0 c1 c2))
  end.

Lemma push_all_sim l : ∀ n b1 b2, R n b1 b2 → blen l <= n →
  ∃ c1 c2, push_all l b1 = Some c1 ∧ push_all l b2 = Some c2 ∧ R (n - blen l) c1 c2.
Proof.
  induction l as [|x l IH]; intros n b1 b2 HR Hn.
  - exists b1, b2. change (blen []) with 0. by rewrite Z.sub_0_r.
  - assert (El : blen (x :: l) = 1 + blen l) by (unfold blen; cbn [List.length]; lia).
    pose proof (blen_nonneg l).
    destruct (R_push n b1 b2 x HR) as (c1 & c2 & E1 & E2 & HR1); [lia|].
    destruct (IH (n - 1) c1 c2 HR1) as (d1 & d2 & E3 & E4 & HR2); [lia|].
    exists d1, d2. cbn [push_all]. rewrite E1, E2. cbn [mbind option_bind]. split_and!; try done.
    eapply R_mono; [exact HR2|lia].
Qed.

Lemma related_commit n b1 b2 : R n b1 b2 → 0 <= n →
  related (Some (buf_commit s1 b1)) (Some (buf_commit s2 b2)).
Proof.
  intros HR Hn. unfold related. destruct (buf_commit s1 b1) as [r1 c1] eqn:E1, (buf_commit s2 b2) as [r2 c2] eqn:E2.
  left. exists b1, b2, r2, c2. split_and!; try done. by eapply R_mono.
Qed.

Lemma related_fail n b1 b2 : R n b1 b2 → 0 <= n → related (Some (-1, b1)) (Some (-1, b2)).
Proof. intros HR Hn. right. split; [done|]. intros _. exists b2. split; [done|]. by eapply R_mono. Qed.

(** One relation for continuations. *)
Lemma related_bind {A} (f1 f2 : A → option (Z * Buffer)) (o : option A) :
  (∀ x, o = Some x → related (f1 x) (f2 x)) → related (o ≫= f1) (o ≫= f2).
Proof. destruct o as [x|]; cbn; [auto|done]. Qed.

Lemma small_disp x y k : 0 <= y <= 15 → 0 <= k <= 1024 →
  is_imm32 (s64 (s64 (x + y) - (x + 0 + k))) = true.
Proof.
  intros Hy Hk. destruct (wraps_eqm 64 (x + y)) as [m Em]; [lia|]. rewrite Em.
  replace (x + y + m * 2 ^ 64 - (x + 0 + k)) with (y - k + m * 2 ^ 64) by lia.
  assert (E : s64 (y - k + m * 2 ^ 64) = y - k).
  { rewrite <- (wraps_small 64 (y - k)) at 2 by lia. unfold wraps. by rewrite Z_mod_plus_full. }
  rewrite E. unfold is_imm32. apply between_spec. unfold INT32_MIN, INT32_MAX. lia.
Qed.

(** One push on both sides, for a relation [P] between the continuations. *)
Lemma sim_push {A} (P : option A → option A → Prop) n x b1 b2 k1 k2 :
  R n b1 b2 → 1 <= n → (∀ c1 c2, R (n - 1) c1 c2 → P (k1 c1) (k2 c2)) →
  P (push x b1 ≫= k1) (push x b2 ≫= k2).
Proof.
  intros HR Hn Hk. destruct (R_push n b1 b2 x HR Hn) as (c1 & c2 & -> & -> & HR'). by apply Hk.
Qed.

Lemma sim_push_all {A} (P : option A → option A → Prop) n l b1 b2 k1 k2 :
  R n b1 b2 → blen l <= n → (∀ c1 c2, R (n - blen l) c1 c2 → P (k1 c1) (k2 c2)) →
  P (push_all l b1 ≫= k1) (push_all l b2 ≫= k2).
Proof.
  intros HR Hn Hk. destruct (push_all_sim l n b1 b2 HR Hn) as (c1 & c2 & -> & -> & HR'). by apply Hk.
Qed.

Lemma sim_push_bytes {A} (P : option A → option A → Prop) n d1 d2 len b1 b2 k1 k2 :
  R n b1 b2 → (same = true → d1 = d2) → 0 <= len <= n → len <= blen d1 → len <= blen d2 →
  (∀ c1 c2, R (n - len) c1 c2 → P (k1 c1) (k2 c2)) →
  P (push_bytes d1 len b1 ≫= k1) (push_bytes d2 len b2 ≫= k2).
Proof.
  intros HR Hd Hn H1 H2 Hk.
  destruct (R_push_bytes n b1 b2 d1 d2 len HR Hd Hn H1 H2) as (c1 & c2 & -> & -> & HR'). by apply Hk.
Qed.

(** The displacement of an address after [n] more bytes, in both runs. *)
Lemma sim_diff n b1 b2 t k :
  R n b1 b2 → same = true →
  s64 (t - (addr + off1 + buf_size b1 s1 + k)) = s64 (t - (addr + off2 + buf_size b2 s2 + k)).
Proof. intros HR Es. destruct (R_size _ _ _ HR) as [-> _]. rewrite Es in Hmode. by destruct Hmode as [-> _]. Qed.

Lemma mode_cases : (same = true ∧ off2 = off1 ∧ relax2 = relax1) ∨
  (same = false ∧ off2 = 0 ∧ relax1 = false ∧ relax2 = true).
Proof. destruct same; [left|right]; tauto. Qed.

#[local] Ltac blia := rewrite ?imm32_len; unfold blen; cbn [List.length]; lia.

#[local] Ltac sim_tac P :=
  first
    [ eapply (sim_push P); [eassumption|blia|intros]
    | eapply (sim_push_all P); [eassumption|blia|intros]
    | eapply (sim_push_bytes P);
        [eassumption|reflexivity|blia|rewrite ?imm32_len; lia|rewrite ?imm32_len; lia|intros] ].

#[local] Ltac mono := eapply R_mono; [eassumption|blia].

(** The results of [pushReturnAddress]. *)
Definition ret_related (m : Z) (o1 o2 : option (Z * Buffer)) : Prop :=
  match o1 with
  | None => False
  | Some (r1, c1) =>
      (r1 = 0 ∧ ∃ c2, o2 = Some (0, c2) ∧ R m c1 c2) ∨
      (r1 = -1 ∧ (same = true → ∃ c2, o2 = Some (-1, c2) ∧ R m c1 c2))
  end.

Lemma ret_ok m n b1 b2 : R n b1 b2 → m <= n → ret_related m (Some (0, b1)) (Some (0, b2)).
Proof. intros HR Hn. left. split; [done|]. exists b2. split; [done|mono]. Qed.

(** A check that the return address is in reach. *)
Lemma ret_check m n b1 b2 (k1 k2 : option (Z * Buffer)) :
  R n b1 b2 → m <= n →
  ret_related m k1 k2 →
  let far off b s := negb (is_imm32 (s64 (s64 (addr + size) - (addr + off + buf_size b s + 7)))) in
  ret_related m (if far off1 b1 s1 then Some (-1, b1) else k1) (if far off2 b2 s2 then Some (-1, b2) else k2).
Proof.
  intros HR Hm Hk far. unfold far. pose proof (sim_diff n b1 b2 (s64 (addr + size)) 7 HR) as Hd.
  destruct (R_size _ _ _ HR) as [_ Hs].
  destruct mode_cases as [(Es & _)|(Es & -> & _)].
  - rewrite (Hd Es). destruct (negb _); [|done]. right. split; [done|]. intros _. exists b2. split; [done|mono].
  - rewrite <- (Z.add_assoc (addr + 0) _ 7), (small_disp addr size (buf_size b2 s2 + 7)) by lia. cbn [negb].
    destruct (negb _); [|done]. right. split; [done|]. by rewrite Es.
Qed.

Lemma pushReturnAddress_sim n b1 b2 : R n b1 b2 → 24 <= n →
  ret_related (n - 24) (pushReturnAddress opts addr off1 size pic s1 b1)
                       (pushReturnAddress opts addr off2 size pic s2 b2).
Proof.
  intros HR Hn. unfold pushReturnAddress.
  destruct (option_Ocall opts); [eapply ret_ok; [exact HR|lia]|].
  destruct (negb pic && is_imm32 (s64 (addr + size))).
  { do 2 sim_tac (ret_related (n - 24)). eapply ret_ok; [eassumption|lia]. }
  destruct (negb (option_Oscratch_stack opts)).
  all: sim_tac (ret_related (n - 24)); eapply ret_check; [eassumption|blia|].
  all: sim_tac (ret_related (n - 24)).
  all: eapply (sim_push_bytes (ret_related (n - 24)));
    [eassumption|intros Es; f_equal; eapply sim_diff; [eassumption|exact Es]
    |blia|rewrite imm32_len; lia|rewrite imm32_len; lia|intros].
  - sim_tac (ret_related (n - 24)). eapply ret_ok; [eassumption|blia].
  - do 2 sim_tac (ret_related (n - 24)). eapply ret_ok; [eassumption|blia].
Qed.

Lemma sim_end n b1 b2 : R n b1 b2 → 0 <= n →
  related (Some (buf_commit s1 b1)) (Some (buf_commit s2 b2)).
Proof. apply related_commit. Qed.

(** A check of a displacement that the relaxed mode skips. *)
Lemma check_sim n b1 b2 t k (k1 k2 : option (Z * Buffer)) :
  R n b1 b2 → 0 <= n → related k1 k2 →
  let far off b s := negb (is_imm32 (s64 (t - (addr + off + buf_size b s + k)))) in
  related (if negb relax1 && far off1 b1 s1 then Some (-1, b1) else k1)
          (if negb relax2 && far off2 b2 s2 then Some (-1, b2) else k2).
Proof.
  intros HR Hn Hk far. unfold far. pose proof (sim_diff n b1 b2 t k HR) as Hd.
  destruct mode_cases as [(Es & _ & ->)|(Es & _ & -> & ->)].
  - rewrite (Hd Es). destruct (negb relax1 && _); [by eapply related_fail|exact Hk].
  - cbn [negb andb]. destruct (negb (is_imm32 _)); [|exact Hk]. right. split; [reflexivity|]. rewrite Es. discriminate.
Qed.

Lemma relocate_jump_sim n b1 b2 pcrel jsize op :
  R n b1 b2 → blen op + 4 <= n →
  related (relocate_jump addr off1 size pcrel jsize op relax1 s1 b1)
          (relocate_jump addr off2 size pcrel jsize op relax2 s2 b2).
Proof.
  intros HR Hn. unfold relocate_jump. pose proof (blen_nonneg op). eapply check_sim; [exact HR|lia|].
  eapply (sim_push_all related); [exact HR|lia|intros c1 c2 HR'].
  eapply (sim_push_bytes related); [exact HR'| |lia|rewrite imm32_len; lia|rewrite imm32_len; lia|].
  - intros Es. f_equal. by eapply sim_diff.
  - intros d1 d2 HR''. eapply sim_end; [exact HR''|lia].
Qed.

Lemma copy_instr_sim n b1 b2 : R n b1 b2 → size <= n →
  related (copy_instr bs size s1 b1) (copy_instr bs size s2 b2).
Proof.
  intros HR Hn. unfold copy_instr.
  eapply (sim_push_bytes related); [exact HR|reflexivity|lia|lia|lia|].
  intros c1 c2 HR'. eapply sim_end; [exact HR'|lia].
Qed.

(** At the start of an instruction, a displacement relative to it is in range in the
    relaxed mode. *)
Lemma start_sim n b1 b2 pcrel (k1 k2 : option (Z * Buffer)) :
  R n b1 b2 → 0 <= n → buf_size b2 s2 = 0 → is_imm32 pcrel = true → related k1 k2 →
  let far off b s := negb (is_imm32 (s64 (s64 (addr + size + pcrel) - (addr + off + buf_size b s + size)))) in
  related (if far off1 b1 s1 then Some (-1, b1) else k1) (if far off2 b2 s2 then Some (-1, b2) else k2).
Proof.
  intros HR Hn E0 Hp Hk far. unfold far. pose proof (sim_diff n b1 b2 (s64 (addr + size + pcrel)) size HR) as Hd.
  destruct mode_cases as [(Es & _)|(Es & -> & _)].
  - rewrite (Hd Es). destruct (negb _); [by eapply related_fail|exact Hk].
  - assert (E2 : is_imm32 (s64 (s64 (addr + size + pcrel) - (addr + 0 + buf_size b2 s2 + size))) = true).
    { rewrite E0. destruct (wraps_eqm 64 (addr + size + pcrel)) as [m Em]; [lia|]. rewrite Em.
      replace (_ - _) with (pcrel + m * 2 ^ 64) by lia.
      apply between_spec in Hp as Hp'. unfold INT32_MIN, INT32_MAX in Hp'.
      assert (E : s64 (pcrel + m * 2 ^ 64) = pcrel).
      { rewrite <- (wraps_small 64 pcrel) at 2 by lia. unfold wraps. by rewrite Z_mod_plus_full. }
      by rewrite E. }
    rewrite E2. cbn [negb]. destruct (negb (is_imm32 _)); [|exact Hk]. right. split; [reflexivity|]. rewrite Es. discriminate.
Qed.

Lemma is_imm32_s32' d : is_imm32 (s32 d) = true.
Proof. apply is_imm32_s32. Qed.

Lemma relocate_generic_sim n b1 b2 i enc op :
  R n b1 b2 → 32 <= n → buf_size b2 s2 = 0 → 0 <= i <= size →
  related (relocate_generic addr off1 bs size i enc op s1 b1)
          (relocate_generic addr off2 bs size i enc op s2 b2).
Proof.
  intros HR Hn E0 Hi. unfold relocate_generic.
  destruct (u32 (size - i) <? 5) eqn:E5; [eapply copy_instr_sim; [exact HR|lia]|].
  rewrite wrapu_small in E5 by lia. apply Z.ltb_ge in E5.
  apply related_bind. intros movabs _. destruct movabs; [eapply copy_instr_sim; [exact HR|lia]|].
  apply related_bind. intros modRM _. rewrite (wrapu_small 32 (size - (i + 1))) by lia.
  destruct ((modrm_mod modRM =? 0) && (modrm_rm modRM =? 5) && (4 <=? size - (i + 1))) eqn:Ec;
    [|eapply copy_instr_sim; [exact HR|lia]].
  apply related_bind. intros d Ed. eapply start_sim; [exact HR|lia|exact E0|apply is_imm32_s32|].
  eapply (sim_push_bytes related); [exact HR|reflexivity|lia|lia|lia|intros c1 c2 HR'].
  eapply (sim_push_bytes related); [exact HR'| |lia|rewrite imm32_len; lia|rewrite imm32_len; lia|].
  { intros Es. f_equal. eapply sim_diff; [exact HR|exact Es]. }
  intros d1 d2 HR''. apply andb_true_iff in Ec as [_ Ec%Z.leb_le].
  rewrite (wrapu_small 32) by lia.
  eapply (sim_push_bytes related); [exact HR''|reflexivity|lia|rewrite blen_at_off; lia|rewrite blen_at_off; lia|].
  intros e1 e2 HR3. eapply sim_end; [exact HR3|lia].
Qed.

(** The continuation of [relocate_call_rm] after the return address is pushed. *)
Definition call_rest (off : Z) (relax : bool) (start i rex modRM : Z) (buf : Buffer) :
    option (Z * Buffer) :=
  let mod_ := modrm_mod modRM in
  let rm := modrm_rm modRM in
  let size0 := buf_size buf start in
  buf ← push_bytes bs i buf;
  let modRM := if option_Ocall opts then modRM
               else Z.lor (Z.land modRM (Z.lnot 0x38)) (Z.shiftl 4 3) in
  let b := Z.land rex 0x1 in
  sp ← rsp_disp bs size i mod_ rm b;
  match sp with
  | Some (sib, disp) =>
      let disp := if option_Ocall opts then disp else s32 (disp + 8) in
      let with_mod m := Z.lor (Z.land modRM (Z.lnot 0xc0)) (Z.shiftl m 6) in
      let small := between INT8_MIN INT8_MAX disp in
      buf ← push (if disp =? 0 then with_mod 0 else if small then with_mod 1 else with_mod 2) buf;
      buf ← push sib buf;
      buf ← (if disp =? 0 then Some buf
             else if small then push (u8 disp) buf
             else push_bytes (imm32 disp) 4 buf);
      Some (buf_commit start buf)
  | None =>
      if (mod_ =? 3) && (rm =? 4) && (b =? 0) then Some (-1, buf)
      else
        buf ← push modRM buf;
        if (mod_ =? 0) && (rm =? 5) && (4 <=? u32 (size - i - 1)) then
          pcrel ← rd32 bs (i + 1);
          let target := s64 (addr + size + s32 pcrel) in
          let diff := s64 (target - (addr + off + size0 + size)) in
          if negb relax && negb (is_imm32 diff) then Some (-1, buf)
          else
            buf ← push_bytes (imm32 diff) 4 buf;
            buf ← push_bytes (at_off bs (i + 5)) (u32 (size - i - 1 - 4)) buf;
            Some (buf_commit start buf)
        else
          buf ← push_bytes (at_off bs (i + 1)) (u32 (size - i - 1)) buf;
          Some (buf_commit start buf)
  end.

Lemma relocate_call_rm_eq off relax start i rex b :
  relocate_call_rm opts addr off bs size pic relax i rex start b =
  (modRM ← rd bs i;
   '(r, buf) ← pushReturnAddress opts addr off size pic start b;
   if (r <? 0) && negb relax then Some (-1, buf)
   else call_rest off relax start i rex modRM buf).
Proof. reflexivity. Qed.

Lemma call_tail_sim n b1 b2 data len :
  R n b1 b2 → 0 <= len <= n → len <= blen data →
  related (buf ← push_bytes data len b1; Some (buf_commit s1 buf))
          (buf ← push_bytes data len b2; Some (buf_commit s2 buf)).
Proof.
  intros HR Hn Hd. eapply (sim_push_bytes related); [exact HR|reflexivity|lia|lia|lia|].
  intros c1 c2 HR'. eapply sim_end; [exact HR'|lia].
Qed.

Lemma call_rest_sim n b1 b2 i rex modRM :
  R n b1 b2 → 40 <= n → 0 <= i < size →
  related (call_rest off1 relax1 s1 i rex modRM b1) (call_rest off2 relax2 s2 i rex modRM b2).
Proof.
  intros HR Hn Hi. unfold call_rest.
  eapply (sim_push_bytes related); [exact HR|reflexivity|lia|lia|lia|intros c1 c2 HR1].
  apply related_bind. intros sp _. destruct sp as [[sib disp]|].
  - do 2 (eapply (sim_push related); [eassumption|lia|intros]).
    match goal with |- context [if ?c =? 0 then _ else _] => generalize c; intros v end.
    destruct (v =? 0); [|destruct (between INT8_MIN INT8_MAX v)].
    + cbn [mbind option_bind]. eapply sim_end; [eassumption|lia].
    + eapply (sim_push related); [eassumption|lia|intros]. eapply sim_end; [eassumption|lia].
    + eapply call_tail_sim; [eassumption|lia|rewrite imm32_len; lia].
  - destruct (_ && _ && _); [eapply related_fail; [eassumption|lia]|].
    eapply (sim_push related); [eassumption|lia|intros d1 d2 HR2].
    destruct ((_ =? 0) && _ && _) eqn:Ec.
    + apply andb_true_iff in Ec as [_ Ec%Z.leb_le]. rewrite wrapu_small in Ec by lia.
      apply related_bind. intros pcrel _. 
      pose proof (sim_diff n b1 b2 (s64 (addr + size + s32 pcrel)) size HR) as Hd.
      assert (Hsim : ∀ k1 k2 : option (Z * Buffer), related k1 k2 →
        let far off b s := negb (is_imm32 (s64 (s64 (addr + size + s32 pcrel) - (addr + off + buf_size b s + size)))) in
        related (if negb relax1 && far off1 b1 s1 then Some (-1, d1) else k1)
                (if negb relax2 && far off2 b2 s2 then Some (-1, d2) else k2)).
      { intros k1 k2 Hk far. unfold far. destruct mode_cases as [(Es & _ & ->)|(Es & _ & -> & ->)].
        - rewrite (Hd Es). destruct (negb relax1 && _); [eapply related_fail; [exact HR2|lia]|exact Hk].
        - cbn [negb andb]. destruct (negb (is_imm32 _)); [|exact Hk]. right. split; [reflexivity|]. rewrite Es. discriminate. }
      apply Hsim. eapply (sim_push_bytes related); [exact HR2| |lia|rewrite imm32_len; lia|rewrite imm32_len; lia|].
      { intros Es. f_equal. exact (Hd Es). }
      intros e1 e2 HR3. rewrite wrapu_small by lia.
      eapply call_tail_sim; [exact HR3|lia|rewrite blen_at_off; lia].
    + rewrite wrapu_small by lia. eapply call_tail_sim; [exact HR2|lia|rewrite blen_at_off; lia].
Qed.

Lemma relocate_call_rm_sim n b1 b2 i rex :
  R n b1 b2 → 64 <= n → 0 <= i < size →
  related (relocate_call_rm opts addr off1 bs size pic relax1 i rex s1 b1)
          (relocate_call_rm opts addr off2 bs size pic relax2 i rex s2 b2).
Proof.
  intros HR Hn Hi. rewrite !relocate_call_rm_eq. apply related_bind. intros modRM _.
  pose proof (pushReturnAddress_sim n b1 b2 HR ltac:(lia)) as Hp. unfold ret_related in Hp.
  destruct (pushReturnAddress opts addr off1 size pic s1 b1) as [[r c1]|]; [|destruct Hp].
  cbn [mbind option_bind]. destruct Hp as [(-> & c2 & -> & HR')|(-> & Hc)].
  - cbn [mbind option_bind Z.ltb Z.compare andb]. eapply call_rest_sim; [exact HR'|lia|exact Hi].
  - cbn [Z.ltb Z.compare andb]. destruct mode_cases as [(Es & _ & Er)|(Es & _ & -> & _)].
    + destruct (Hc Es) as (c2 & -> & HR'). cbn [mbind option_bind Z.ltb Z.compare andb]. 
      assert (Hrel := call_rest_sim (n - 24) c1 c2 i rex modRM HR' ltac:(lia) Hi).
      rewrite Er in Hrel |- *. destruct (negb relax1); [eapply related_fail; [exact HR'|lia]|exact Hrel].
    + cbn [negb]. right. split; [reflexivity|]. rewrite Es. discriminate.
Qed.

Lemma relocate_decoded_sim n b1 b2 i rex a32 enc op :
  R n b1 b2 → 100 <= n → buf_size b2 s2 = 0 → 0 <= i <= size →
  related (relocate_decoded opts addr off1 bs size pic relax1 i rex a32 enc op s1 b1)
          (relocate_decoded opts addr off2 bs size pic relax2 i rex a32 enc op s2 b2).
Proof.
  intros HR Hn E0 Hi. unfold relocate_decoded.
  assert (Hg : related (relocate_generic addr off1 bs size i enc op s1 b1)
                       (relocate_generic addr off2 bs size i enc op s2 b2)).
  { eapply relocate_generic_sim; [exact HR|lia|exact E0|exact Hi]. }
  destruct enc; [| |exact Hg|exact Hg].
  - apply related_bind. intros o _. apply related_bind. intros callrm Ecall.
    destruct callrm.
    { eapply relocate_call_rm_sim; [exact HR|lia|]. split; [lia|].
      destruct ((o =? 255) && (1 <=? u32 (size - i))) eqn:Ec; [|discriminate Ecall].
      apply andb_true_iff in Ec as [_ Ec%Z.leb_le]. rewrite wrapu_small in Ec by lia. lia. }
    destruct (u32 (size - i) =? 1).
    + destruct (o =? 0xe3); [|destruct (o =? 0xeb); [|destruct (is_jcc8 o); [|exact Hg]]].
      * assert (Hk : ∀ m c1 c2, R m c1 c2 → 64 <= m → related
          (buf ← push_all [0xe3; 0x02; 0xeb; 0x05] c1; d ← rd bs i;
           relocate_jump addr off1 size (s8 d) 5 [0xe9] relax1 s1 buf)
          (buf ← push_all [0xe3; 0x02; 0xeb; 0x05] c2; d ← rd bs i;
           relocate_jump addr off2 size (s8 d) 5 [0xe9] relax2 s2 buf)).
        { intros m c1 c2 HR' Hm. eapply (sim_push_all related); [exact HR'|blia|intros d1 d2 HR''].
          apply related_bind. intros d _. eapply relocate_jump_sim; [exact HR''|blia]. }
        destruct a32; cbn [mbind option_bind]; [|eapply Hk; [exact HR|lia]].
        eapply (sim_push related); [exact HR|lia|intros c1 c2 HR']. eapply Hk; [exact HR'|lia].
      * apply related_bind. intros d _. eapply relocate_jump_sim; [exact HR|blia].
      * apply related_bind. intros d _. eapply relocate_jump_sim; [exact HR|blia].
    + destruct (u32 (size - i) =? 4); [|exact Hg]. destruct (o =? 0xe8).
      * pose proof (pushReturnAddress_sim n b1 b2 HR ltac:(lia)) as Hp. unfold ret_related in Hp.
        destruct (pushReturnAddress opts addr off1 size pic s1 b1) as [[r c1]|]; [|destruct Hp].
        cbn [mbind option_bind]. destruct Hp as [(-> & c2 & -> & HR')|(-> & Hc)];
          cbn [mbind option_bind Z.ltb Z.compare].
        -- apply related_bind. intros d _. eapply relocate_jump_sim; [exact HR'|].
           destruct (option_Ocall opts); blia.
        -- right. split; [reflexivity|]. intros Es. destruct (Hc Es) as (c2 & -> & HR').
           cbn [mbind option_bind Z.ltb Z.compare]. exists c2. split; [reflexivity|]. eapply R_mono; [exact HR'|lia].
      * destruct (o =? 0xe9); [|exact Hg]. apply related_bind. intros d _.
        eapply relocate_jump_sim; [exact HR|blia].
  - apply related_bind. intros o _. destruct (_ && is_jcc32 o); [|exact Hg].
    apply related_bind. intros d _. eapply relocate_jump_sim; [exact HR|blia].
Qed.

(** ** The simulation *)

Lemma relocateInstr_sim b1 b2 (o1 o2 : option Buffer) :
  match o1 with None => b1 = buffer None | Some b => b1 = b end →
  match o2 with None => b2 = buffer None | Some b => b2 = b end →
  R 100 b1 b2 → s1 = buf_size b1 0 → s2 = buf_size b2 0 → buf_size b2 s2 = 0 →
  related (relocateInstr opts addr off1 bs size pic o1 relax1)
          (relocateInstr opts addr off2 bs size pic o2 relax2).
Proof.
  intros E1 E2 HR Es1 Es2 E0. unfold relocateInstr.
  replace (match o1 with Some buf => buf | None => buffer None end) with b1 by (destruct o1; exact E1).
  replace (match o2 with Some buf => buf | None => buffer None end) with b2 by (destruct o2; exact E2).
  rewrite <- Es1, <- Es2.
  pose proof (decodePrefix_ok bs size ltac:(lia)) as Hp.
  destruct (decodePrefix bs size) as [[[i rex] a32]|]; [|destruct Hp]. cbn [safely fst mbind option_bind] in *.
  destruct (Z.ltb_spec i 0); [lia|].
  pose proof (decodeOpcode_ok bs size i Hbs ltac:(lia) Hlen ltac:(lia)) as Ho.
  destruct (decodeOpcode bs size i) as [[[k enc] op]|]; [|destruct Ho]. cbn [safely mbind option_bind] in *.
  destruct (Z.ltb_spec k 0); [eapply copy_instr_sim; [exact HR|lia]|].
  eapply relocate_decoded_sim; [exact HR|lia|exact E0|].
  destruct op as [op|]; cbn [decoded] in Ho; [lia|]. destruct Ho as [Ho|(-> & ? & _)]; lia.
Qed.

End Sim.

(** ** More bytes after the instruction *)

(** A computation that succeeds stays the same. *)
Definition extends {A} (o o' : option A) : Prop := ∀ r, o = Some r → o' = Some r.

Lemma extends_refl {A} (o : option A) : extends o o.
Proof. by intros r. Qed.

Lemma extends_bind {A B} (o o' : option A) (k k' : A → option B) :
  extends o o' → (∀ x, extends (k x) (k' x)) → extends (o ≫= k) (o' ≫= k').
Proof. intros Ho Hk r. destruct o as [x|]; [|done]. rewrite (Ho x eq_refl). apply Hk. Qed.

Lemma extends_if {A} (c : bool) (o1 o2 o1' o2' : option A) :
  extends o1 o1' → extends o2 o2' → extends (if c then o1 else o2) (if c then o1' else o2').
Proof. by destruct c. Qed.

Lemma extends_rd c t i : extends (rd c i) (rd (c ++ t) i).
Proof. intros r E. destruct (rd_Some _ _ _ E) as [? ?]. rewrite rd_app_l; [done|lia]. Qed.

#[local] Ltac ext_step :=
  match goal with
  | |- extends ?o ?o => apply extends_refl
  | |- extends (rd ?c ?i) (rd (?c ++ _) ?i) => apply extends_rd
  | |- extends (_ ≫= _) (_ ≫= _) => apply extends_bind; [|intros ?]
  | |- extends (if ?c then _ else _) (if ?c then _ else _) => apply extends_if
  | |- extends (match ?x with _ => _ end) (match ?x with _ => _ end) => destruct x
  end.
#[local] Ltac ext_solve := cbv zeta; repeat ext_step.

Lemma rd32_ext c t i : extends (rd32 c i) (rd32 (c ++ t) i).
Proof. unfold rd32, rd16. ext_solve. Qed.

Lemma prefix_ext fuel c t size : ∀ i rex a, extends (prefix_loop fuel c size i rex a) (prefix_loop fuel (c ++ t) size i rex a).
Proof. induction fuel as [|fuel IH]; intros i rex a; cbn [prefix_loop]; ext_solve; apply IH. Qed.

Lemma opcode_ext c t size i : extends (decodeOpcode c size i) (decodeOpcode (c ++ t) size i).
Proof. unfold decodeOpcode, not_after_rex. ext_solve. Qed.

Lemma modrm_ext c t size : extends (getModRMSize c size) (getModRMSize (c ++ t) size).
Proof. unfold getModRMSize. ext_solve. Qed.

Lemma cft_ext a c t size : extends (getCFTInfo a c size) (getCFTInfo a (c ++ t) size).
Proof.
  unfold getCFTInfo. apply extends_bind; [apply prefix_ext|]. intros [[i rex] a32]. apply extends_if; [apply extends_refl|].
  apply extends_bind; [apply opcode_ext|]. intros [[k enc] op]. ext_solve; first [apply rd32_ext|apply modrm_ext].
Qed.

Lemma isCFT_ext c t size f : extends (isCFT c size f) (isCFT (c ++ t) size f).
Proof. unfold isCFT. apply extends_bind; [apply cft_ext|]. intros x. apply extends_refl. Qed.

End X86Sim.
