(* ===== verification/E9Optimize.v ===== *)
(** * E9Optimize: jumps between trampolines

    Models src/src/e9patch/e9optimize.cpp: the set of entry points of trampolines, the start
    of a trampoline's prologue, and the peephole optimisation that redirects a jump to the
    trampoline of its target. *)

From stdpp Require Import gmap.
From S2P Require Import Prelude E9Patch E9Alloc E9AllocTree E9AllocApi E9X86 E9Tactics.

Module E9Optimize.
Import E9 E9X86 E9Tactics.

(** [--i] on an iterator of a [std::map]: the greatest key below [k]. *)
Definition key_before {A} (m : gmap Z A) (k : Z) : option Z :=
  foldr (λ k' r, if k' <? k then Some (match r with Some x => Z.max x k' | None => k' end)
                 else r) None (map_to_list m).*1.

(** [lb == ub] and so on: the first and the last instruction, and the end. *)
Section Instrs.
Context {S : Type}.
Implicit Types (b : Binary S) (I J : Instr) (j : iptr).

Definition front b : option iptr := if B_ub b <=? B_lb b then None else Some (B_lb b).
Definition back b : option iptr := if B_ub b <=? B_lb b then None else Some (B_ub b - 1).
Definition end_ b : option iptr := if B_ub b <=? B_lb b then None else Some (B_ub b).

(** The number of instructions, which bounds the loops over them. *)
Definition num_instrs b : nat := Z.to_nat (B_ub b - B_lb b).

End Instrs.

Section Optimize.
Context {S : Type} (opts : Options).
Implicit Types (b : Binary S) (I J : Instr) (j : iptr) (Es : gmap Z EntryPoint).

(** ** The set of entry points *)

(** The first loop of [buildEntrySet], backwards from [I]; [J] is the next instruction to
    be patched, and [num] and [size] the distance to it. *)
Fixpoint entry_points (fuel : nat) b (i : option iptr) (J : option iptr) (num size : Z)
    Es : option (gmap Z EntryPoint) :=
  match i with
  | None => Some Es
  | Some i =>
      match fuel with
      | O => None
      | Datatypes.S fuel =>
          I ← instr b i;
          '(J, num, size) ←
            (if i_patch I then Some (Some i, 0, 0)
             else
               cft ← isCFT (ORIG b I) (i_size I) (Z.lor CFT_CALL (Z.lor CFT_RET CFT_JMP));
               Some (if (cft : bool) then None else J, num, size));
          let Es := match J with
                    | Some j =>
                        if (num <=? option_Oprologue opts) && (size <=? option_Oprologue_size opts)
                        then match Es !! i_addr I with
                             | Some _ => Es
                             | None => <[i_addr I := MkEntryPoint j INTPTR_MIN false false]> Es
                             end
                        else Es
                    | None => Es
                    end in
          let num := u32 (num + 1) in
          let size := u32 (size + i_size I) in
          match prev b i with
          | None => entry_points fuel b None None num size Es
          | Some i =>
              s ← succ b i;
              entry_points fuel b (Some i) (if decide (next b i = s) then J else None) num size Es
          end
      end
  end.

(** The [switch] of the second loop: is the instruction a direct branch, and is its
    displacement an 8-bit one?  [None]: it is no direct branch. *)
Definition branch_rel8 b I : option (option bool) :=
  let bs := ORIG b I in
  op ← rd bs 0;
  if one_of [0xeb; 0xe3] op || is_jcc8 op then
    Some (if i_size I =? 2 then Some true else None)
  else if op =? 0x66 then
    if negb (i_size I =? 3) then Some None
    else op1 ← rd bs 1; Some (if op1 =? 0xe3 then Some true else None)
  else if one_of [0xe8; 0xe9] op then Some (if i_size I =? 5 then Some false else None)
  else if op =? 0x0f then
    if negb (i_size I =? 6) then Some None
    else op1 ← rd bs 1; Some (if is_jcc32 op1 then Some false else None)
  else Some None.

(** The body of the second loop. *)
Definition mark_target b I Es : option (gmap Z EntryPoint) :=
  if i_patch I then Some Es
  else
    r ← branch_rel8 b I;
    match r with
    | None => Some Es
    | Some is_rel8 =>
        rel ← (if (is_rel8 : bool) then d ← rd (ORIG b I) (i_size I - 1); Some (s8 d)
               else d ← rd32 (ORIG b I) (i_size I - 4); Some (s32 d));
        if is_rel8 && (0 <=? rel) then Some Es
        else
          let target := s64 (i_addr I + i_size I + rel) in
          match Es !! target with
          | None => Some Es
          | Some E =>
              Some (<[target := if is_rel8 then MkEntryPoint (e_I E) (e_entry E) true (e_target32 E)
                                else MkEntryPoint (e_I E) (e_entry E) (e_target8 E) true]> Es)
          end
    end.

Fixpoint mark_targets (fuel : nat) b (i : option iptr) Es : option (gmap Z EntryPoint) :=
  match i with
  | None => Some Es
  | Some i =>
      match fuel with
      | O => None
      | Datatypes.S fuel =>
          I ← instr b i;
          Es ← mark_target b I Es;
          mark_targets fuel b (next b i) Es
      end
  end.

Definition buildEntrySet b : option (Binary S) :=
  if negb (option_batch opts) || negb (option_Opeephole opts) ||
     (option_Oprologue opts =? 0) || (option_Oprologue_size opts =? 0) then Some b
  else
    match back b with
    | None => Some b
    | Some i =>
        Es ← entry_points (num_instrs b) b (Some i) None 0 0 (B_Es b);
        Es ← mark_targets (num_instrs b) b (front b) Es;
        Some (set_B_Es Es b)
    end.

(** ** Entries *)

(** The loop of [getTrampolinePrologueStart], from the entry at [k]: [J] is the
    instruction there, and [K] the start so far. *)
Fixpoint prologue_start (fuel : nat) b (I : iptr) Es (k : Z) (J K : option iptr) :
    option (option iptr) :=
  match key_before Es k with
  | None => Some K
  | Some k =>
      match fuel with
      | O => None
      | Datatypes.S fuel =>
          j ← J;
          let J := prev b j in
          F ← Es !! k;
          if negb (e_I F =? I) then Some K
          else prologue_start fuel b I Es k J (if e_target32 F || e_target8 F then J else K)
      end
  end.

Definition getTrampolinePrologueStart b Es (I : iptr) : option (option iptr) :=
  if negb (option_Opeephole opts) then Some None
  else
    x ← instr b I;
    match Es !! i_addr x with
    | None => Some None
    | Some E =>
        if negb (e_I E =? I) then Some None
        else prologue_start (size Es) b I Es (i_addr x) (Some I) None
    end.

Definition getTrampolineEntry Es I : Z :=
  match Es !! i_addr I with None => INTPTR_MIN | Some e => e_entry e end.

(** ** Redirecting jumps *)

(** The loop of [findInstr]: a binary search in [Is[lo..hi]], where [Is] starts at [lb]. *)
Fixpoint find_instr (fuel : nat) b (addr lb lo hi : Z) : option (option iptr) :=
  if hi <? lo then Some None
  else
    match fuel with
    | O => None
    | Datatypes.S fuel =>
        let mid := Z.quot (lo + hi) 2 in
        I ← instr b (lb + mid);
        if i_addr I <? addr then find_instr fuel b addr lb (mid + 1) hi
        else if addr <? i_addr I then find_instr fuel b addr lb lo (mid - 1)
        else Some (Some (lb + mid))
    end.

Definition findInstr b (addr : Z) : option (option iptr) :=
  match front b, end_ b with
  | Some lb, Some ub => find_instr (num_instrs b) b addr lb 0 (ub - lb - 1)
  | _, _ => Some None
  end.

(** The [switch] of [optimizeJump]: [None] if there is nothing to optimise, and else
    whether the instruction is a conditional jump, and whether it is a jump. *)
Definition optimizable (bs : bytes) (size : Z) : option (option (bool * bool)) :=
  op ← rd bs 0;
  if (op =? 0xe9) || (op =? 0xe8) then
    Some (if size =? 5 then Some (false, op =? 0xe9) else None)
  else if op =? 0x0f then
    if negb (size =? 6) then Some None
    else op1 ← rd bs 1; Some (if is_jcc32 op1 then Some (true, false) else None)
  else Some None.

(** The bytes of the multi-byte NOP. *)
Definition nop5 : bytes := [0x0f; 0x1f; 0x44; 0x00; 0x00].

(** Where control that reaches the instruction [J] may as well go: the entry of its
    trampoline, or the target of the jump that it is or was replaced with. *)
Definition redirect b (J : iptr) : option Z :=
  I ← instr b J;
  let target := getTrampolineEntry (B_Es b) I in
  if target =? INTPTR_MIN
  then getCFTTarget (i_addr I) (at_off (B_bytes b) (i_offset I)) (i_size I) CFT_JMP
  else Some target.

(** [optimizeJump]; the result is the memory [bs] that [bytes] points into. *)
Definition optimizeJump b (addr : Z) (bs : bytes) (size : Z) : option bytes :=
  if negb (option_Opeephole opts) || (size =? 0) then Some bs
  else
    r ← optimizable bs size;
    match r with
    | None => Some bs
    | Some (jcc, jmp) =>
        let idx := if jcc : bool then 2 else 1 in
        d ← rd32 bs idx;
        j ← findInstr b (s64 (addr + size + s32 d));
        match j with
        | None => Some bs
        | Some J =>
            target ← redirect b J;
            if target =? INTPTR_MIN then Some bs
            else
              let diff := s64 (target - (addr + size)) in
              if jmp && (diff =? 0) then wrn bs 0 nop5
              else if negb (is_imm32 diff) then Some bs
              else wrn bs idx (imm32 diff)
        end
    end.

(** The jumps that were saved, in the flattened trampolines. *)
Fixpoint optimize_saved (Js : list JumpInfo) b : option (Binary S) :=
  match Js with
  | [] => Some b
  | J :: Js =>
      let '(A, off) := j_bytes J in
      d ← B_flat b !! A;
      bs ← optimizeJump b (j_addr J) (at_off d off) (j_size J);
      d ← wrn d off bs;
      optimize_saved Js (set_B_flat (<[A := d]> (B_flat b)) b)
  end.

(** [for (size_t i = 0; ok && i < I->size; i++) ok = (I->STATE[i] == STATE_INSTRUCTION);] *)
Fixpoint all_instruction b I (k : Z) (n : nat) : option bool :=
  match n with
  | O => Some true
  | Datatypes.S n =>
      s ← STATE b I k;
      if s =? STATE_INSTRUCTION then all_instruction b I (k + 1) n else Some false
  end.

(** The loop over all instructions. *)
Fixpoint optimize_instrs (fuel : nat) (i : option iptr) b : option (Binary S) :=
  match i with
  | None => Some b
  | Some i =>
      match fuel with
      | O => None
      | Datatypes.S fuel =>
          I ← instr b i;
          ok ← (if i_is_patched I then Some false
                else all_instruction b I 0 (Z.to_nat (i_size I)));
          b ← (if (ok : bool) then
                 let off := i_offset I in
                 bs ← optimizeJump b (i_addr I) (at_off (B_bytes b) off) (i_size I);
                 d ← wrn (B_bytes b) off bs;
                 Some (set_B_bytes d b)
               else Some b);
          optimize_instrs fuel (next b i) b
      end
  end.

Definition optimizeAllJumps b : option (Binary S) :=
  if negb (option_Opeephole opts) then Some b
  else
    b ← optimize_saved (B_Js b) b;
    optimize_instrs (num_instrs b) (front b) (set_B_Js [] b).

End Optimize.

End E9Optimize.
