(* ===== verification/E9OptimizeSpec.v ===== *)
(** * E9OptimizeSpec: what the jump optimisation promises

    The binary search for an instruction is exact on a sorted sequence, and an optimised
    jump is the same kind of branch to the same place, or to where control that reaches this
    place goes on. *)

From stdpp Require Import gmap.
From S2P Require Import Prelude E9Patch E9Alloc E9AllocTree E9AllocApi E9X86 E9X86Sim E9Tactics E9TacticsSpec E9TacticsPatch E9Optimize.

Module OptimizeSpec.
Import E9 E9Alloc AllocTree E9X86 X86Sim E9Tactics TacticsSpec TacticsPatch E9Optimize.

Section Spec.
Context {S : Type} (opts : Options).
Implicit Types (b : Binary S) (j : iptr).

(** The instructions from [lb] to [ub], sorted by address. *)
Record in_order b : Prop := {
  io_some : ∀ i, B_lb b <= i < B_ub b → ∃ x, instr b i = Some x;
  io_sorted : ∀ i k x y, B_lb b <= i → i < k → k < B_ub b →
    instr b i = Some x → instr b k = Some y → i_addr x < i_addr y }.

(** The result [r] of looking for the address [a] among the instructions. *)
Definition found b (a lo hi : Z) (r : option iptr) : Prop :=
  match r with
  | Some k => lo <= k <= hi ∧ ∃ x, instr b k = Some x ∧ i_addr x = a
  | None => ∀ k x, lo <= k <= hi → instr b k = Some x → i_addr x ≠ a
  end.

Lemma find_instr_ok b a : in_order b → ∀ fuel lo hi,
  0 <= lo → hi < B_ub b - B_lb b → hi - lo < Z.of_nat fuel →
  ∃ r, find_instr fuel b a (B_lb b) lo hi = Some r ∧ found b a (B_lb b + lo) (B_lb b + hi) r.
Proof.
  intros Hb. induction fuel as [|fuel IH]; intros lo hi Hlo Hhi Hf; cbn [find_instr];
    destruct (Z.ltb_spec hi lo); [|lia| |].
  1,2: exists None; split; [done|]; intros k x Hk; lia.
  rewrite Z.quot_div_nonneg by lia. set (mid := (lo + hi) / 2).
  assert (Hmid : lo <= mid <= hi) by (unfold mid; split; [apply Z.div_le_lower_bound|apply Z.div_le_upper_bound]; lia).
  destruct (io_some b Hb (B_lb b + mid)) as [x Ex]; [lia|]. rewrite Ex. cbn [mbind option_bind].
  destruct (Z.ltb_spec (i_addr x) a) as [Hlt|Hge]; [|destruct (Z.ltb_spec a (i_addr x)) as [Hlt|Hge']].
  - destruct (IH (mid + 1) hi) as (r & -> & Hr); [lia..|]. exists r. split; [done|].
    destruct r as [k|]; [destruct Hr; split; [lia|done]|]. intros k y Hk Ey.
    destruct (Z.le_gt_cases k (B_lb b + mid)); [|apply (Hr k y); [lia|done]].
    destruct (decide (k = B_lb b + mid)) as [->|]; [simplify_eq; lia|].
    pose proof (io_sorted b Hb k (B_lb b + mid) y x ltac:(lia) ltac:(lia) ltac:(lia) Ey Ex). lia.
  - destruct (IH lo (mid - 1)) as (r & -> & Hr); [lia..|]. exists r. split; [done|].
    destruct r as [k|]; [destruct Hr; split; [lia|done]|]. intros k y Hk Ey.
    destruct (Z.le_gt_cases (B_lb b + mid) k); [|apply (Hr k y); [lia|done]].
    destruct (decide (k = B_lb b + mid)) as [->|]; [simplify_eq; lia|].
    pose proof (io_sorted b Hb (B_lb b + mid) k x y ltac:(lia) ltac:(lia) ltac:(lia) Ex Ey). lia.
  - eexists. split; [done|]. split; [lia|]. exists x. split; [done|lia].
Qed.

Lemma findInstr_ok b a : in_order b →
  ∃ r, findInstr b a = Some r ∧ found b a (B_lb b) (B_ub b - 1) r.
Proof.
  intros Hb. unfold findInstr, front, end_, num_instrs. destruct (Z.leb_spec (B_ub b) (B_lb b)).
  - exists None. split; [done|]. intros k x Hk. lia.
  - destruct (find_instr_ok b a Hb (Z.to_nat (B_ub b - B_lb b)) 0 (B_ub b - B_lb b - 1)) as (r & -> & Hr); [lia..|].
    exists r. split; [done|]. rewrite Z.add_0_r in Hr. by replace (B_lb b + (B_ub b - B_lb b - 1)) with (B_ub b - 1) in Hr by lia.
Qed.

(** ** Branches in memory *)

Lemma blen_cons' (x : Z) l : blen (x :: l) = 1 + blen l.
Proof. unfold blen. cbn [List.length]. lia. Qed.

(** Four bytes as a displacement. *)
Lemma imm32_of_bytes l : bytes_ok l → blen l = 4 →
  ∃ d, rd32 l 0 = Some (u32 d) ∧ is_imm32 d = true ∧ imm32 d = l.
Proof.
  intros Hl H4. destruct l as [|b0 [|b1 [|b2 [|b3 [|]]]]]; try (unfold blen in H4; cbn in H4; lia).
  set (z := b0 + 256 * b1 + 65536 * (b2 + 256 * b3)). unfold bytes_ok in Hl. rewrite !Forall_cons in Hl.
  destruct Hl as (H0 & H1 & H2 & H3 & _). unfold byte_ok in *. exists (s32 z).
  assert (Hz : 0 <= z < 2 ^ 32) by (unfold z; lia).
  assert (Eu : u32 (s32 z) = z).
  { destruct (wraps_eqm 32 z) as [k ->]; [lia|]. rewrite <- (wrapu_small 32 z) at 2 by lia. apply wrapu_eqm. }
  split; [rewrite Eu; reflexivity|]. split.
  - apply between_spec. pose proof (wraps_range 32 z). unfold INT32_MIN, INT32_MAX. lia.
  - unfold imm32. rewrite Eu. unfold z. cbn [le_bytes].
    assert (E : ∀ x y, 0 <= x < 256 → (x + 256 * y) mod 256 = x ∧ (x + 256 * y) / 256 = y).
    { intros x y Hx. rewrite (Z.mul_comm 256), Z_mod_plus_full, Z.div_add, Z.mod_small, Z.div_small by lia. lia. }
    replace (b0 + 256 * b1 + 65536 * (b2 + 256 * b3)) with (b0 + 256 * (b1 + 256 * (b2 + 256 * b3))) by lia.
    destruct (E b0 (b1 + 256 * (b2 + 256 * b3)) H0) as [-> ->].
    destruct (E b1 (b2 + 256 * b3) H1) as [-> ->]. destruct (E b2 b3 H2) as [-> ->].
    by rewrite Z.mod_small.
Qed.

(** An instruction that can be optimised is a branch with a 32-bit displacement. *)
Lemma optimizable_branch bs size jcc jmp' :
  optimizable bs size = Some (Some (jcc, jmp')) → size <= blen bs → bytes_ok bs →
  ∃ op c d rest, near_op op c ∧ bs = op ++ imm32 d ++ rest ∧ is_imm32 d = true ∧
    blen op = (if jcc then 2 else 1) ∧ size = blen op + 4 ∧ jmp c = jmp'.
Proof.
  unfold optimizable. intros E Hs Hb. destruct bs as [|op bs]; [done|]. rewrite blen_cons' in Hs.
  change (rd (op :: bs) 0) with (Some op) in E. cbn [mbind option_bind] in E.
  apply Forall_cons in Hb as [_ Hb].
  assert (Hd : ∀ n (l : bytes), n + 4 <= blen l + n → bytes_ok l →
    ∃ d rest, l = imm32 d ++ rest ∧ is_imm32 d = true).
  { intros n l Hn Hl. destruct (imm32_of_bytes (take 4 l)) as (d & _ & H1 & H2).
    - apply Forall_take, Hl.
    - unfold blen in *. rewrite length_take. lia.
    - exists d, (drop 4 l). by rewrite H2, take_drop. }
  destruct (_ || _) eqn:E1 in E.
  - destruct (Z.eqb_spec size 5) as [->|]; [|done]. injection E as <- <-.
    destruct (Hd 0 bs) as (d & rest & -> & Hi); [lia|done|].
    apply orb_true_iff in E1 as [->%Z.eqb_eq| ->%Z.eqb_eq].
    + exists [0xe9], (MkCFTInfo false false true false 0), d, rest. split_and!; (done || constructor).
    + exists [0xe8], (MkCFTInfo true false false false 0), d, rest. split_and!; (done || constructor).
  - destruct (Z.eqb_spec op 0x0f) as [->|]; [|done].
    destruct (Z.eqb_spec size 6) as [->|]; [|done]. cbn [negb] in E.
    destruct bs as [|o1 bs]; [unfold blen in Hs; cbn in Hs; lia|]. rewrite blen_cons' in Hs.
    change (rd (0x0f :: o1 :: bs) 1) with (Some o1) in E. cbn [mbind option_bind] in E.
    destruct (is_jcc32 o1) eqn:Ej; [|done]. injection E as <- <-. apply Forall_cons in Hb as [_ Hb].
    destruct (Hd 0 bs) as (d & rest & -> & Hi); [lia|done|].
    exists [0x0f; o1], (MkCFTInfo false false false true 0), d, rest. split_and!; (done || by constructor).
Qed.

(** Such a branch in memory, and writing its displacement. *)
Lemma near_in_memory op c d rest a : near_op op c → is_imm32 d = true →
  getCFTInfo a (op ++ imm32 d ++ rest) (blen op + 4) = Some (Some (retarget c (s64 (a + blen op + 4 + d)))).
Proof.
  intros Hop Hd. rewrite app_assoc. apply cft_ext. pose proof (near_cft op c a d Hop Hd) as E.
  by rewrite blen_app, imm32_len in E.
Qed.

Lemma near_displacement op d rest : is_imm32 d = true →
  rd32 (op ++ imm32 d ++ rest) (blen op) = Some (u32 d).
Proof.
  intros Hd. apply rd32_of_rdn; [|apply wrapu_range; lia].
  pose proof (rdn_app_mid op (imm32 d) rest) as E. rewrite imm32_len in E. exact E.
Qed.

Lemma near_write op d d' rest : wrn (op ++ imm32 d ++ rest) (blen op) (imm32 d') = Some (op ++ imm32 d' ++ rest).
Proof.
  apply wrn_Some. pose proof (blen_nonneg op). pose proof (blen_nonneg rest). split; [lia|].
  rewrite !blen_app, !imm32_len. split; [lia|]. unfold blen. rewrite Nat2Z.id.
  pose proof (imm32_len d) as L1. pose proof (imm32_len d') as L2. unfold blen in L1, L2.
  rewrite take_app_length, drop_app_ge by lia.
  replace (_ + _ - _)%nat with (length (imm32 d)) by lia. by rewrite drop_app_length.
Qed.

Lemma s32_u32 d : is_imm32 d = true → s32 (u32 d) = d.
Proof.
  intros Hd%between_spec. unfold INT32_MIN, INT32_MAX in Hd. rewrite wraps_wrapu. apply s32_small. lia.
Qed.

(** ** Redirected branches *)

(** Where control that reaches the instruction [k] goes on, by its trampoline or by the
    jump that stands there now. *)
Definition goes_on b (k : iptr) (t : Z) : Prop := redirect b k = Some t ∧ t ≠ INTPTR_MIN.

(** The bytes [bs'] that replace a branch [bs] of kind [c] at [a], with target [target c]:
    the same bytes; or for a jump to the place after it, a NOP; or the same kind of branch
    to [t]; where in both cases the instruction at the target goes on at [t]. *)
Inductive redirected b (a size : Z) (bs : bytes) (c : CFTInfo) : bytes → Prop :=
| kept : redirected b a size bs c bs
| to_nop k x rest : B_lb b <= k < B_ub b → instr b k = Some x → i_addr x = target c → goes_on b k (s64 (a + size)) →
    jmp c = true → size = blen nop5 → drop (Z.to_nat size) bs = rest →
    redirected b a size bs c (nop5 ++ rest)
| to_target k x t bs' : B_lb b <= k < B_ub b → instr b k = Some x → i_addr x = target c → goes_on b k t →
    getCFTInfo a bs' size = Some (Some (retarget c t)) →
    blen bs' = blen bs → drop (Z.to_nat size) bs' = drop (Z.to_nat size) bs →
    redirected b a size bs c bs'.

(** What the optimisation relies on: the instructions are sorted and can be decoded where
    they are now, and entries of trampolines are addresses. *)
Record jumps_ok b : Prop := {
  jo_order : in_order b;
  jo_decode : ∀ k x, instr b k = Some x → redirect b k ≠ None;
  jo_entry : ∀ k t, redirect b k = Some t → s64 t = t }.

Lemma optimizeJump_ok b a bs size :
  jumps_ok b →
  - 2 ^ 62 <= a <= 2 ^ 62 → 0 < size <= blen bs → bytes_ok bs →
  ∃ bs', optimizeJump opts b a bs size = Some bs' ∧
    (bs' = bs ∨ ∃ c, getCFTInfo a bs size = Some (Some c) ∧ redirected b a size bs c bs').
Proof.
  intros [Hb Hr Ht] Ha Hs Hbs. unfold optimizeJump. destruct (_ || _); [exists bs; by split; [|left]|].
  destruct (rd_is_Some bs 0) as [o0 E0]; [lia|].
  assert (Eo : ∃ r, optimizable bs size = Some r).
  { unfold optimizable. rewrite E0. cbn [mbind option_bind]. destruct (_ || _); [by eexists|].
    destruct (o0 =? 0x0f); [|by eexists]. destruct (Z.eqb_spec size 6) as [->|]; [|by eexists]. cbn [negb].
    destruct (rd_is_Some bs 1) as [o1 ->]; [lia|]. by eexists. }
  destruct Eo as [[[jcc jmp']|] Eo]; rewrite Eo; cbn [mbind option_bind]; [|exists bs; by split; [|left]].
  destruct (optimizable_branch _ _ _ _ Eo) as (op & c & d & rest & Hop & -> & Hd & Hl & -> & Hj); [lia|done|].
  rewrite <- Hl, near_displacement by done. cbn [mbind option_bind]. rewrite s32_u32 by done.
  destruct (findInstr_ok b (s64 (a + (blen op + 4) + d)) Hb) as (r & -> & Hf). cbn [mbind option_bind].
  destruct r as [k|]; [|eexists; by split; [|left]]. destruct Hf as (Hk & x & Ex & Hx).
  destruct (redirect b k) as [t|] eqn:Et; [|by destruct (Hr k x Ex)]. cbn [mbind option_bind].
  destruct (Z.eqb_spec t INTPTR_MIN) as [|Hmin]; [eexists; by split; [|left]|].
  pose proof (near_in_memory op c d rest a Hop Hd) as Ec.
  replace (a + blen op + 4 + d) with (a + (blen op + 4) + d) in Ec by lia.
  set (sz := blen op + 4) in *. pose proof (Ht k t Et) as Hts. apply between_spec in Hd as Hd'. unfold INT32_MIN, INT32_MAX in Hd'.
  assert (Hend : s64 (a + sz + s64 (t - (a + sz))) = t).
  { destruct (wraps_eqm 64 (t - (a + sz))) as [m ->]; [lia|].
    replace (a + sz + (t - (a + sz) + m * 2 ^ 64)) with (t + m * 2 ^ 64) by lia.
    transitivity (s64 t); [unfold wraps; by rewrite Z_mod_plus_full|done]. }
  destruct (jmp' && _) eqn:En.
  - apply andb_true_iff in En as [Hjmp E%Z.eqb_eq].
    assert (E5 : op = [0xe9]) by (by inversion Hop; subst; try (cbn in Hj; congruence)). 
    assert (Hsz : sz = 5) by (unfold sz; by rewrite E5).
    assert (Ew : wrn (op ++ imm32 d ++ rest) 0 nop5 = Some (nop5 ++ rest)).
    { apply wrn_Some. pose proof (blen_nonneg rest). rewrite E5, !blen_app, imm32_len. change (blen nop5) with 5.
      change (blen [233]) with 1. split; [lia|]. split; [lia|].
      destruct (imm32_bytes d Hd) as (b0 & b1 & b2 & b3 & -> & _). done. }
    exists (nop5 ++ rest). split; [exact Ew|]. right. eexists. split; [exact Ec|].
    rewrite E, Z.add_0_r in Hend. apply (to_nop _ _ _ _ _ k x rest); try done; [lia| |by cbn; rewrite Hj|].
    + rewrite Hend. by split.
    + rewrite Hsz, E5. destruct (imm32_bytes d Hd) as (b0 & b1 & b2 & b3 & -> & _). done.
  - destruct (is_imm32 (s64 (t - (a + sz)))) eqn:Ei; cbn [negb]; [|eexists; by split; [|left]].
    rewrite near_write. eexists. split; [done|]. right. eexists. split; [exact Ec|].
    eapply (to_target _ _ _ _ _ k x t); try done; [lia| | |].
    + pose proof (near_in_memory op c _ rest a Hop Ei) as E.
      replace (a + blen op + 4 + s64 (t - (a + sz))) with (a + sz + s64 (t - (a + sz))) in E by (unfold sz; lia).
      by rewrite Hend in E.
    + by rewrite !blen_app, !imm32_len.
    + assert (Hn : ∀ e, drop (Z.to_nat sz) (op ++ imm32 e ++ rest) = rest); [|by rewrite !Hn].
      intros e. rewrite app_assoc. replace (Z.to_nat sz) with (length (op ++ imm32 e)); [apply drop_app_length|].
      pose proof (imm32_len e) as L. unfold sz, blen in *. rewrite length_app. lia.
Qed.

(** ** Properties *)

(** C21: [findInstr] is exact.  On instructions that are sorted by address, the binary
    search ends, within the fuel that their number gives; it returns the instruction at the
    address if there is one, and none only if there is none. *)
Theorem findInstr_exact b a : in_order b →
  ∃ r, findInstr b a = Some r ∧ found b a (B_lb b) (B_ub b - 1) r.
Proof. apply findInstr_ok. Qed.


End Spec.

(** ** A jump to an instruction with a trampoline *)

(** The trampoline of the second instruction of the sample program is at [0x500000]. *)
Definition jump_binary : Binary Tree :=
  set_B_Es (<[0x401005 := MkEntryPoint 2 0x500000 false false]> ∅) sample.

Lemma jump_instr k x : instr jump_binary k = Some x →
  (k = 1 ∧ x = sample_instr 16 5) ∨ (k = 2 ∧ x = sample_instr 21 1).
Proof.
  intros E. apply (sample_cases [5; 1] [0xb8; 1; 0; 0; 0; 0xc3]) in E. cbn in E.
  rewrite !elem_of_cons, elem_of_nil in E. destruct_or? E; simplify_eq; auto.
Qed.

Lemma jump_in_order : in_order jump_binary.
Proof.
  split.
  - intros i Hi. change (1 <= i < 3) in Hi. assert (i = 1 ∨ i = 2) as [->| ->] by lia; by eexists.
  - intros i k x y H1 H2 H3 E1 E2. apply jump_instr in E1, E2. destruct_or! E1; destruct_or! E2; destruct_and!; subst; cbn; lia.
Qed.

Lemma jump_jumps : jumps_ok jump_binary.
Proof.
  split; [apply jump_in_order| |].
  - intros k x E. apply jump_instr in E as [[-> ->]|[-> ->]]; vm_compute; congruence.
  - intros k t E. unfold redirect in E. destruct (instr jump_binary k) as [x|] eqn:Ex; [|done].
    apply jump_instr in Ex as [[-> ->]|[-> ->]]; vm_compute in E; by injection E as <-.
Qed.

Lemma findInstr_exact_witness : in_order jump_binary ∧ findInstr jump_binary 0x401005 = Some (Some 2).
Proof.
  split; [apply jump_in_order|].
  destruct (findInstr_exact jump_binary 0x401005 jump_in_order) as (r & E & Hr). rewrite E.
  vm_compute in E. by injection E as <-.
Defined.


End OptimizeSpec.
