(* ===== verification/E9Trampoline.v ===== *)
(** * E9Trampoline: building trampolines

    Models src/src/e9patch/e9trampoline.cpp: the size and the bounds of a trampoline, the
    pass that assigns addresses to its labels, and the pass that emits its bytes. *)

From stdpp Require Import gmap.
From S2P Require Import Prelude E9Patch E9Alloc E9AllocTree E9AllocApi E9X86 E9Tactics E9Optimize.

Module E9Trampoline.
Import E9 E9Alloc E9X86 E9Tactics E9Optimize.

Definition MACRO_DEPTH_MAX : Z := 128.

(** The template of the trampoline of an evicted instruction. *)
Definition evicteeTrampolineInit : Trampoline :=
  MkTrampoline 5 false [ENTRY_INSTR; ENTRY_BREAK true].

(** [LabelSet], ordered by address and name, and [BreakInfo]. *)
Abbreviation LabelSet := (gmap (Z * string) Z).
Abbreviation BreakInfo := (gmap Z Z).

(** [std::map::insert], which keeps a value that is there. *)
Definition map_insert (k v : Z) (m : BreakInfo) : BreakInfo :=
  match m !! k with Some _ => m | None => <[k := v]> m end.

(** A jump that [saveJump] records: its address, the position of its bytes in the buffer,
    and its size. *)
Record Jump := MkJump { jp_addr : Z; jp_pos : Z; jp_size : Z }.

(** The output of the functions that build bytes. *)
Record Out := MkOut { o_buf : Buffer; o_Js : list Jump }.

Definition set_o_buf (buf : Buffer) (o : Out) : Out := MkOut buf (o_Js o).

Section Trampoline.
Context {S : Type} (opts : Options).
Implicit Types (b : Binary S) (I J : Instr) (j : iptr).

(** ** Macros *)

(** The binary search of [expandMacro]. *)
Fixpoint search_macro (fuel : nat) (meta : Metadata) (name : string) (lo hi : Z) :
    option (option ptr) :=
  if hi <? lo then Some None
  else
    match fuel with
    | O => None
    | Datatypes.S fuel =>
        let mid := Z.quot (lo + hi) 2 in
        e ← meta !! Z.to_nat mid;
        match String.compare name (m_name e) with
        | Eq => Some (Some (m_T e))
        | Lt => search_macro fuel meta name lo (mid - 1)
        | Gt => search_macro fuel meta name (mid + 1) hi
        end
    end.

Definition expandMacro b (meta : option ptr) (name : string) : option (option ptr) :=
  found ← match meta with
          | Some m =>
              meta ← B_metas b !! m;
              search_macro (length meta) meta name 0 (Z.of_nat (length meta) - 1)
          | None => Some None
          end;
  match found with
  | Some T => Some (Some T)
  | None => Some (B_names b !! name)
  end.

(** ** Relocating instructions *)

(** [buf->bytes()]: [None] is a null pointer, and else the position. *)
Definition buf_bytes (buf : Buffer) : option Z :=
  if b_i buf <? b_max buf then Some (b_i buf) else None.

(** [saveJump], for [bytes] at a position in the buffer. *)
Definition saveJump (addr : Z) (bytes : option Z) (size : Z) (o : Out) : option Out :=
  if negb (option_Opeephole opts) then Some o
  else
    match bytes with
    | None => Some o
    | Some pos =>
        d ← b_buf (o_buf o);
        cft ← isCFT (at_off d pos) size CFT_JMP;
        Some (if (cft : bool) then MkOut (o_buf o) (o_Js o ++ [MkJump addr pos size]) else o)
    end.

(** The wrapper [relocateInstr(I, addr, buf)]. *)
Definition relocate b j (addr : Z) (buf : option Buffer) : option (Z * Buffer) :=
  I ← instr b j;
  let relax := addr =? INTPTR_MIN in
  let offset := if relax then 0 else s64 (addr - i_addr I) in
  relocateInstr opts (i_addr I) (s32 offset) (ORIG b I) (i_size I) (i_pic I) buf relax.

(** The result alone: [relocateInstr(I, addr)]. *)
Definition relocate_len b j (addr : Z) : option Z := r ← relocate b j addr None; Some r.1.

(** ** Breaks *)

(** The first [buildBreak]: a jump to where control continues.  [o] is [None] in the mode
    [BUILD_SIZE]. *)
Definition buildJump b (J : option iptr) (addr : Z) (breaks : option BreakInfo)
    (o : option Out) : option (Z * option Out) :=
  match o with
  | None => Some (5, None)
  | Some o =>
      j ← J;
      I ← instr b j;
      let target := match breaks ≫= (λ m, m !! i_addr I) with
                    | Some t => t | None => s64 (i_addr I + i_size I) end in
      let rel := s64 (target - (addr + 5)) in
      _ ← assert_ (is_imm32 rel);
      let bytes := buf_bytes (o_buf o) in
      buf ← push 0xe9 (o_buf o);
      buf ← push_bytes (imm32 rel) 4 buf;
      let o := set_o_buf buf o in
      n ← succ b j;
      o ← match n, buf_bytes buf with
          | Some _, Some _ => if option_Opeephole opts then saveJump addr bytes 5 o else Some o
          | _, _ => Some o
          end;
      Some (5, Some o)
  end.

(** The instruction is patched itself, so that a jump to it ends up in its trampoline. *)
Definition is_stop I : bool := i_is_patched I && negb (i_is_evicted I).

(** The loop that looks for the end of the epilogue of [j]: at most [n] further
    instructions.  The result is their number and whether the last one ends it. *)
Fixpoint epilogue_scan (n : nat) b j (i size : Z) (cft : bool) : option (Z * bool) :=
  match n with
  | O => Some (i, cft)
  | Datatypes.S n =>
      if cft || negb (size <? option_Oepilogue_size opts) then Some (i, cft)
      else
        k ← succ b j;
        match k with
        | None => Some (i, cft)
        | Some j =>
            J ← instr b j;
            cft ← (if is_stop J then Some true
                   else isCFT (ORIG b J) (i_size J)
                          (Z.lor (Z.lor (if option_Ocall opts then 0 else CFT_CALL) CFT_RET) CFT_JMP));
            epilogue_scan n b j (i + 1) (u32 (size + i_size J)) cft
        end
  end.

(** The loop that builds the epilogue, of [n] instructions from [J]: the address after it,
    and whether all were relocated. *)
Fixpoint epilogue_build (n : nat) b (J : option iptr) (addr : Z) (breaks : option BreakInfo)
    (o : option Out) : option (Z * bool * option Out) :=
  match n with
  | O => Some (addr, true, o)
  | Datatypes.S n =>
      j ← J;
      I ← instr b j;
      if is_stop I then
        _ ← assert_ (Nat.eqb n 0);
        '(len, o) ← buildJump b (prev b j) addr breaks o;
        Some (s64 (addr + len), true, o)
      else
        '(len, ok, o) ←
          match o with
          | None => len ← relocate_len b j INTPTR_MIN; Some (len, true, None)
          | Some o =>
              let bytes := buf_bytes (o_buf o) in
              '(len, buf) ← relocate b j addr (Some (o_buf o));
              let o := set_o_buf buf o in
              if 0 <=? len then o ← saveJump addr bytes len o; Some (len, true, Some o)
              else Some (len, false, Some o)
          end;
        let addr := s64 (addr + u32 len) in
        if (ok : bool) then epilogue_build n b (next b j) addr breaks o
        else Some (addr, false, o)
  end.

(** The second [buildBreak]. *)
Definition buildBreak b (J : option iptr) (addr : Z) (fallthrough optimize : bool)
    (breaks : option BreakInfo) (o : option Out) : option (Z * option Out) :=
  if fallthrough then Some (0, o)
  else
    simple ← (if negb optimize then Some true
              else j ← J; I ← instr b j; Some (i_no_optimize I));
    if (simple : bool) then buildJump b J addr breaks o
    else
      j ← J;
      '(i, cft) ← epilogue_scan (Z.to_nat (option_Oepilogue opts)) b j 0 0 false;
      if negb cft then buildJump b J addr breaks o
      else
        let start := match o with Some o => buf_size (o_buf o) 0 | None => 0 end in
        '(addr', ok, o) ← epilogue_build (Z.to_nat i) b (next b j) addr breaks o;
        if negb ok then
          let o := match o with
                   | Some o => Some (set_o_buf (buf_reset start (o_buf o)) o) | None => None end in
          buildJump b J addr breaks o
        else Some (s32 (addr' - addr), o).

(** [buildBreak] in the mode [BUILD_SIZE]. *)
Definition break_len b (J : option iptr) (addr : Z) (fallthrough optimize : bool) : option Z :=
  r ← buildBreak b J addr fallthrough optimize None None; Some r.1.

(** ** Prologues *)

(** The loop of [buildPrologue], from [J] to [j]: the size, or [-1] if an instruction
    cannot be relocated, the entries, and the output. *)
Fixpoint prologue_build (fuel : nat) b j (J : option iptr) (addr r : Z)
    (es : list (iptr * Z)) (start : Z) (o : option Out) :
    option (Z * list (iptr * Z) * option Out) :=
  if decide (J = Some j) then Some (r, es, o)
  else
    match fuel with
    | O => None
    | Datatypes.S fuel =>
        i ← J;
        '(len, es, o) ←
          match o with
          | None => len ← relocate_len b i INTPTR_MIN; Some (len, es, None)
          | Some o =>
              let bytes := buf_bytes (o_buf o) in
              '(len, buf) ← relocate b i addr (Some (o_buf o));
              if len <? 0 then Some (len, es, Some (set_o_buf (buf_reset start buf) o))
              else
                o ← saveJump addr bytes len (set_o_buf buf o);
                Some (len, es ++ [(i, addr)], Some o)
          end;
        if len <? 0 then Some (-1, es, o)
        else prologue_build fuel b j (next b i) (s64 (addr + len)) (r + len) es start o
    end.

(** [for (const auto &entry: entries) setTrampolineEntry(...)] *)
Fixpoint set_prologue_entries b (es : list (iptr * Z)) (Es : gmap Z EntryPoint) :
    option (gmap Z EntryPoint) :=
  match es with
  | [] => Some Es
  | (i, entry) :: es =>
      I ← instr b i; set_prologue_entries b es (setTrampolineEntry Es i I entry)
  end.

(** [buildPrologue]; the entry points [Es] of [b] are the state that it changes. *)
Definition buildPrologue b (Es : gmap Z EntryPoint) j (addr : Z) (o : option Out) :
    option (Z * gmap Z EntryPoint * option Out) :=
  if negb (option_Opeephole opts) then Some (0, Es, o)
  else
    J ← getTrampolinePrologueStart opts b Es j;
    if decide (J = None ∨ J = Some j) then Some (0, Es, o)
    else
      let start := match o with Some o => buf_size (o_buf o) 0 | None => 0 end in
      '(r, es, o) ← prologue_build (num_instrs b) b j J addr 0 [] start o;
      if r <? 0 then Some (0, Es, o)
      else Es ← set_prologue_entries b es Es; Some (r, Es, o).

(** [getTrampolinePrologueSize] *)
Definition prologue_size b (I : option iptr) : option Z :=
  match I with
  | None => Some 0
  | Some j => '(r, _, _) ← buildPrologue b (B_Es b) j 0 None; Some r
  end.

(** ** Sizes *)

(** [I != nullptr && I->debug? 1: 0] *)
Definition debug_len b (I : option iptr) : option Z :=
  match I with
  | None => Some 0
  | Some j => x ← instr b j; Some (bool_to_Z (i_debug x))
  end.

(** The expansion of a macro for [I]; a macro without a template is an error. *)
Definition macro_of b (I : option iptr) (name : string) : option ptr :=
  j ← I; x ← instr b j; U ← expandMacro b (i_metadata x) name; U.

(** Whether the loop of [ENTRY_BATCH] goes on with [I]: [I != nullptr && I->addr <= last]. *)
Definition in_batch b (I : option iptr) (last : Z) : option (option (iptr * Instr)) :=
  match I with
  | None => Some None
  | Some j => x ← instr b j; Some (if i_addr x <=? last then Some (j, x) else None)
  end.

(** After the loop: the last instruction [J] of a batch has no trampoline of its own. *)
Definition ends_bare b (J : option iptr) : option bool :=
  j ← J; x ← instr b j; Some (bool_decide (i_T x = None)).

Section Size.
Context (rec : ptr → option iptr → bool → option Z).

(** The loop of [ENTRY_BATCH]: the size, or [-1], and [J] and [I] at its end. *)
Fixpoint size_batch (fuel : nat) b (last size : Z) (J I : option iptr) :
    option (Z * option iptr * option iptr) :=
  c ← in_batch b I last;
  match c with
  | None => Some (size, J, I)
  | Some (j, x) =>
      match fuel with
      | O => None
      | Datatypes.S fuel =>
          r ← match i_T x with
              | Some T => rec T I (i_addr x =? last)
              | None => relocate_len b j INTPTR_MIN
              end;
          if r <? 0 then Some (-1, J, I)
          else size_batch fuel b last (u32 (size + r)) I (next b j)
      end
  end.

(** The loop over the entries; the result is [-1] if one has no size. *)
Fixpoint size_entries b (es : list Entry) (I : option iptr) (last : bool) (size : Z) :
    option Z :=
  match es with
  | [] => Some size
  | e :: es =>
      let go n := size_entries b es I last (u32 (size + n)) in
      match e with
      | ENTRY_DEBUG _ => n ← debug_len b I; go n
      | ENTRY_BYTES data => go (blen data)
      | ENTRY_ZEROES length => go length
      | ENTRY_INT8 _ | ENTRY_REL8 _ => go 1
      | ENTRY_INT16 _ => go 2
      | ENTRY_INT32 _ | ENTRY_REL32 _ => go 4
      | ENTRY_INT64 _ => go 8
      | ENTRY_LABEL _ => size_entries b es I last size
      | ENTRY_MACRO name => U ← macro_of b I name; r ← rec U I last; go r
      | ENTRY_INSTR => j ← I; r ← relocate_len b j INTPTR_MIN; if r <? 0 then Some (-1) else go r
      | ENTRY_INSTR_BYTES => j ← I; x ← instr b j; go (i_size x)
      | ENTRY_BREAK opt =>
          r ← break_len b I 0 (negb last && bool_decide (es = [])) (last && opt); go r
      | ENTRY_TAKE => go 5
      | ENTRY_BATCH l =>
          '(size, J, I) ← size_batch (num_instrs b) b l size None I;
          if size <? 0 then Some (-1)
          else
            bare ← ends_bare b J;
            r ← (if (bare : bool) then break_len b J 0 false true else Some 0);
            size_entries b es I last (u32 (size + r))
      end
  end.

End Size.

(** [getTrampolineSize] at the depth [MACRO_DEPTH_MAX + 1 - n]; a greater depth is an
    error. *)
Fixpoint tramp_size (n : nat) b (T : ptr) (I : option iptr) (last : bool) : option Z :=
  match n with
  | O => None
  | Datatypes.S n =>
      t ← B_Ts b !! T;
      r ← size_entries (tramp_size n b) b (entries t) I last 0;
      Some (s32 r)
  end.

Definition macro_fuel : nat := Z.to_nat (MACRO_DEPTH_MAX + 1).

Definition trampoline_size b (T : option ptr) (I : option iptr) : option Z :=
  T ← T; tramp_size macro_fuel b T I true.

(** ** Labels *)

(** [label[n]]: a character, the terminator, or an access outside of the string. *)
Definition c_char (label : string) (n : nat) : option ascii :=
  if Nat.eqb n (String.length label) then Some "000"%char else String.get n label.

(** [label[0] != '.' && label[1] != 'L'] *)
Definition not_local (label : string) : option bool :=
  c0 ← c_char label 0;
  if Ascii.eqb c0 "."%char then Some false
  else c1 ← c_char label 1; Some (negb (Ascii.eqb c1 "L"%char)).

Definition getBuiltinLabelAddress b (I : option iptr) (label : string) : option Z :=
  other ← not_local label;
  if (other : bool) then Some INTPTR_MIN
  else
    _ ← c_char label 2;
    if String.eqb label ".Lbreak" then
      j ← I; x ← instr b j; Some (s64 (i_addr x + i_size x))
    else if String.eqb label ".Lconfig" then Some (B_config b)
    else if String.eqb label ".Linstr" then j ← I; x ← instr b j; Some (i_addr x)
    else if String.eqb label ".Ltake" then
      j ← I;
      x ← instr b j;
      target ← getCFTTarget (i_addr x) (ORIG b x) (i_size x) CFT_JCC;
      if target =? INTPTR_MIN then None else Some target
    else Some INTPTR_MIN.

(** ** Bounds *)

(** The bounds after a relative operand that ends [size] bytes into the trampoline. *)
Definition rel_bounds (addr size : Z) (rel8 : bool) (bd : Bounds) : Bounds :=
  if addr =? INTPTR_MIN then bd
  else
    let lb := s64 (addr - size + 1 + (if rel8 then INT8_MIN else INT32_MIN)) in
    let ub := s64 (addr - size - 1 + (if rel8 then INT8_MAX else INT32_MAX)) in
    MkBounds (Z.max (b_lb bd) lb) (Z.min (b_ub bd) ub).

Section TrampolineBounds.
Context (rec : ptr → option iptr → Z → bool → Bounds → option (Z * Bounds)).

Fixpoint bounds_batch (fuel : nat) b (last size : Z) (bd : Bounds) (J I : option iptr) :
    option (Z * Bounds * option iptr * option iptr) :=
  c ← in_batch b I last;
  match c with
  | None => Some (size, bd, J, I)
  | Some (j, x) =>
      match fuel with
      | O => None
      | Datatypes.S fuel =>
          '(n, bd) ← match i_T x with
                     | Some T => rec T I size (i_addr x =? last) bd
                     | None => r ← relocate_len b j INTPTR_MIN; Some (r, bd)
                     end;
          bounds_batch fuel b last (u64 (size + n)) bd I (next b j)
      end
  end.

Fixpoint bounds_entries b (es : list Entry) (I : option iptr) (last : bool) (size : Z)
    (bd : Bounds) : option (Z * Bounds) :=
  match es with
  | [] => Some (size, bd)
  | e :: es =>
      let go n := bounds_entries b es I last (u64 (size + n)) bd in
      let rel (rel8 : bool) (v : Operand) :=
        let size := u64 (size + if rel8 then 1 else 4) in
        addr ← match v with
               | OLabel l => getBuiltinLabelAddress b I l
               | OConst a => Some (s64 a)
               end;
        bounds_entries b es I last size (rel_bounds addr size rel8 bd) in
      match e with
      | ENTRY_DEBUG _ => n ← debug_len b I; go n
      | ENTRY_BYTES data => go (blen data)
      | ENTRY_ZEROES length => go length
      | ENTRY_INT8 _ => go 1
      | ENTRY_INT16 _ => go 2
      | ENTRY_INT32 _ => go 4
      | ENTRY_INT64 _ => go 8
      | ENTRY_REL8 v => rel true v
      | ENTRY_REL32 v => rel false v
      | ENTRY_LABEL _ => bounds_entries b es I last size bd
      | ENTRY_MACRO name =>
          U ← macro_of b I name;
          '(size, bd) ← rec U I size last bd;
          bounds_entries b es I last size bd
      | ENTRY_INSTR => j ← I; r ← relocate_len b j INTPTR_MIN; go (Z.max 0 r)
      | ENTRY_INSTR_BYTES => j ← I; x ← instr b j; go (i_size x)
      | ENTRY_BREAK opt =>
          r ← break_len b I 0 (negb last && bool_decide (es = [])) (last && opt); go r
      | ENTRY_TAKE => go 5
      | ENTRY_BATCH l =>
          '(size, bd, J, I) ← bounds_batch (num_instrs b) b l size bd None I;
          bare ← ends_bare b J;
          r ← (if (bare : bool) then break_len b J 0 false true else Some 0);
          bounds_entries b es I last (u64 (size + r)) bd
      end
  end.

End TrampolineBounds.

Fixpoint tramp_bounds (n : nat) b (T : ptr) (I : option iptr) (size : Z) (last : bool)
    (bd : Bounds) : option (Z * Bounds) :=
  match n with
  | O => None
  | Datatypes.S n =>
      t ← B_Ts b !! T;
      bounds_entries (tramp_bounds n b) b (entries t) I last size bd
  end.

Definition trampoline_bounds (evicteeTrampoline : ptr) b (T : option ptr) (I : option iptr) :
    option Bounds :=
  let bd := MkBounds INTPTR_MIN INTPTR_MAX in
  if decide (T = Some evicteeTrampoline) then Some bd
  else T ← T; r ← tramp_bounds macro_fuel b T I 0 true bd; Some r.2.

(** ** The label pass *)

Section Labels.
Context (rec : ptr → option iptr → Z → bool → BreakInfo → LabelSet →
  option (Z * BreakInfo * LabelSet)).

Fixpoint labels_batch (fuel : nat) b (end_ addr : Z) (breaks : BreakInfo) (labels : LabelSet)
    (J I : option iptr) : option (Z * BreakInfo * LabelSet * option iptr * option iptr) :=
  c ← in_batch b I end_;
  match c with
  | None => Some (addr, breaks, labels, J, I)
  | Some (j, x) =>
      match fuel with
      | O => None
      | Datatypes.S fuel =>
          let last := i_addr x =? end_ in
          '(addr, breaks, labels) ←
            match i_T x with
            | Some T => rec T I addr last breaks labels
            | None => r ← relocate_len b j addr; Some (s64 (addr + r), breaks, labels)
            end;
          let breaks := if last then breaks else map_insert (i_addr x) addr breaks in
          labels_batch fuel b end_ addr breaks labels I (next b j)
      end
  end.

Fixpoint labels_entries b (es : list Entry) (I : option iptr) (addr : Z) (last : bool)
    (breaks : BreakInfo) (labels : LabelSet) : option (Z * BreakInfo * LabelSet) :=
  match es with
  | [] => Some (addr, breaks, labels)
  | e :: es =>
      let go n := labels_entries b es I (s64 (addr + n)) last breaks labels in
      match e with
      | ENTRY_DEBUG length => n ← debug_len b I; go (n + length)
      | ENTRY_BYTES data => go (blen data)
      | ENTRY_ZEROES length => go length
      | ENTRY_INT8 _ | ENTRY_REL8 _ => go 1
      | ENTRY_INT16 _ => go 2
      | ENTRY_INT32 _ | ENTRY_REL32 _ => go 4
      | ENTRY_INT64 _ => go 8
      | ENTRY_LABEL label =>
          j ← I;
          x ← instr b j;
          match labels !! (i_addr x, label) with
          | Some _ => None
          | None => labels_entries b es I addr last breaks (<[(i_addr x, label) := addr]> labels)
          end
      | ENTRY_MACRO name =>
          U ← macro_of b I name;
          '(addr, breaks, labels) ← rec U I addr last breaks labels;
          labels_entries b es I addr last breaks labels
      | ENTRY_INSTR => j ← I; r ← relocate_len b j addr; go r
      | ENTRY_INSTR_BYTES => j ← I; x ← instr b j; go (i_size x)
      | ENTRY_BREAK opt =>
          r ← break_len b I addr (negb last && bool_decide (es = [])) (last && opt); go r
      | ENTRY_TAKE => go 5
      | ENTRY_BATCH l =>
          '(addr, breaks, labels, J, I) ← labels_batch (num_instrs b) b l addr breaks labels None I;
          bare ← ends_bare b J;
          r ← (if (bare : bool) then break_len b J 0 false true else Some 0);
          labels_entries b es I (s64 (addr + r)) last breaks labels
      end
  end.

End Labels.

(** [buildLabelSet]; [n] bounds the nesting of macros, as in [tramp_size]. *)
Fixpoint buildLabelSet (n : nat) b (T : ptr) (I : option iptr) (addr : Z) (last : bool)
    (breaks : BreakInfo) (labels : LabelSet) : option (Z * BreakInfo * LabelSet) :=
  match n with
  | O => None
  | Datatypes.S n =>
      t ← B_Ts b !! T;
      labels_entries (buildLabelSet n b) b (entries t) I addr last breaks labels
  end.

Definition lookupLabel b (label : string) (I : option iptr) (addr : Z) (labels : LabelSet) :
    option Z :=
  other ← not_local label;
  if (other : bool) then None
  else
    target ← getBuiltinLabelAddress b I label;
    if negb (target =? INTPTR_MIN) then Some (s64 (target - addr))
    else
      j ← I;
      x ← instr b j;
      t ← labels !! (i_addr x, label);
      Some (s64 (t - addr)).

(** ** The bytes *)

(** [addr + buf.size()] *)
Definition here (addr : Z) (o : Out) : Z := s64 (addr + buf_size (o_buf o) 0).

Definition emit (f : Buffer → option Buffer) (o : Out) : option Out :=
  buf ← f (o_buf o); Some (set_o_buf buf o).

(** The value of [ENTRY_INT8] .. [ENTRY_INT64]: an absolute address or a number. *)
Definition int_value b (v : Operand) (I : option iptr) (addr : Z) (labels : LabelSet)
    (o : Out) : option Z :=
  match v with
  | OLabel l => val ← lookupLabel b l I (here addr o) labels; Some (s64 (val + here addr o))
  | OConst c => Some c
  end.

(** The displacement of [ENTRY_REL8] and [ENTRY_REL32], which end [n] bytes further. *)
Definition rel_value b (v : Operand) (I : option iptr) (addr n : Z) (labels : LabelSet)
    (o : Out) : option Z :=
  rel ← match v with
        | OLabel l => lookupLabel b l I (here addr o) labels
        | OConst c => Some (s64 (c - here addr o))
        end;
  Some (s64 (rel - n)).

Section Bytes.
Context (rec : ptr → option iptr → bool → Out → option Out).
Context (addr : Z) (breaks : BreakInfo) (labels : LabelSet).

Fixpoint bytes_batch (fuel : nat) b (end_ : Z) (J I : option iptr) (o : Out) :
    option (option iptr * Out) :=
  c ← in_batch b I end_;
  match c with
  | None => Some (J, o)
  | Some (j, x) =>
      match fuel with
      | O => None
      | Datatypes.S fuel =>
          o ← match i_T x with
              | Some T => rec T I (i_addr x =? end_) o
              | None =>
                  '(r, buf) ← relocate b j (here addr o) (Some (o_buf o));
                  _ ← assert_ (0 <=? r);
                  Some (set_o_buf buf o)
              end;
          bytes_batch fuel b end_ I (next b j) o
      end
  end.

(** [buildBreak] at the end of the buffer. *)
Definition emit_break b (I : option iptr) (fallthrough optimize : bool) (o : Out) :
    option Out :=
  '(_, o) ← buildBreak b I (here addr o) fallthrough optimize (Some breaks) (Some o); o.

(** The bytes of an entry that is no macro and no batch; [fin] says that it is the last
    one of its trampoline. *)
Definition build_entry b (e : Entry) (I : option iptr) (last fin : bool) (o : Out) :
    option Out :=
  match e with
  | ENTRY_DEBUG _ => n ← debug_len b I; if n =? 0 then Some o else emit (push 0xcc) o
  | ENTRY_BYTES data => emit (push_bytes data (blen data)) o
  | ENTRY_ZEROES length => emit (push_all (repeat 0 (Z.to_nat length))) o
  | ENTRY_INT8 v => val ← int_value b v I addr labels o; emit (push (u8 val)) o
  | ENTRY_INT16 v =>
      val ← int_value b v I addr labels o; emit (push_bytes (le_bytes 2 (u16 val)) 2) o
  | ENTRY_INT32 v =>
      val ← int_value b v I addr labels o; emit (push_bytes (le_bytes 4 (u32 val)) 4) o
  | ENTRY_INT64 v =>
      val ← int_value b v I addr labels o; emit (push_bytes (le_bytes 8 (u64 val)) 8) o
  | ENTRY_REL8 v =>
      rel ← rel_value b v I addr 1 labels o;
      _ ← assert_ (between INT8_MIN INT8_MAX rel);
      emit (push (u8 rel)) o
  | ENTRY_REL32 v =>
      rel ← rel_value b v I addr 4 labels o;
      _ ← assert_ (is_imm32 rel);
      emit (push_bytes (imm32 rel) 4) o
  | ENTRY_INSTR =>
      j ← I;
      '(_, buf) ← relocate b j (here addr o) (Some (o_buf o));
      Some (set_o_buf buf o)
  | ENTRY_INSTR_BYTES => j ← I; x ← instr b j; emit (push_bytes (ORIG b x) (i_size x)) o
  | ENTRY_BREAK opt => emit_break b I (negb last && fin) (last && opt) o
  | ENTRY_TAKE =>
      j ← I;
      x ← instr b j;
      target ← getCFTTarget (i_addr x) (ORIG b x) (i_size x) CFT_JCC;
      _ ← assert_ (negb (target =? INTPTR_MIN));
      let rel := s64 (target - (here addr o + 5)) in
      o ← emit (push 0xe9) o;
      _ ← assert_ (is_imm32 rel);
      emit (push_bytes (imm32 rel) 4) o
  | ENTRY_LABEL _ | ENTRY_MACRO _ | ENTRY_BATCH _ => Some o
  end.

Fixpoint bytes_entries b (es : list Entry) (I : option iptr) (last : bool) (o : Out) :
    option Out :=
  match es with
  | [] => Some o
  | e :: es =>
      match e with
      | ENTRY_MACRO name =>
          U ← macro_of b I name;
          o ← rec U I last o;
          bytes_entries b es I last o
      | ENTRY_BATCH l =>
          '(J, o) ← bytes_batch (num_instrs b) b l None I o;
          bare ← ends_bare b J;
          o ← (if (bare : bool) then emit_break b J false true o else Some o);
          bytes_entries b es None last o
      | e =>
          o ← build_entry b e I last (bool_decide (es = [])) o;
          bytes_entries b es I last o
      end
  end.

End Bytes.

Fixpoint buildBytes (n : nat) b (addr : Z) (breaks : BreakInfo) (labels : LabelSet)
    (T : ptr) (I : option iptr) (last : bool) (o : Out) : option Out :=
  match n with
  | O => None
  | Datatypes.S n =>
      t ← B_Ts b !! T;
      bytes_entries (buildBytes n b addr breaks labels) addr breaks labels b (entries t) I last o
  end.

(** ** Flattening *)

(** The first part of the memory of a trampoline: the prologue, or [fill] if it cannot be
    built. *)
Definition flatten_prologue b Es (mem : bytes) (fill addr presize : Z) (I : option iptr) :
    option (bytes * list Jump * gmap Z EntryPoint) :=
  if 0 <? presize then
    j ← I;
    '(_, Es, o) ← buildPrologue b Es j (s64 (addr - presize))
                    (Some (MkOut (MkBuffer 0 presize (Some mem)) []));
    o ← o;
    let buf := o_buf o in
    _ ← assert_ ((buf_size buf 0 =? presize) || (buf_size buf 0 =? 0));
    buf ← (if buf_size buf 0 =? 0 then push_fill fill presize buf else Some buf);
    d ← b_buf buf;
    Some (d, o_Js o, Es)
  else Some (mem, [], Es).

(** A jump in the second buffer, which starts at [n]. *)
Definition shift_jump (n : Z) (J : Jump) : Jump := MkJump (jp_addr J) (n + jp_pos J) (jp_size J).

(** [flattenTrampoline] in the memory [mem]: the bytes, the jumps that were saved, with
    positions in [mem], and the entry points. *)
Definition flattenTrampoline b Es (mem : bytes) (fill addr offset32 entry32 : Z) (T : ptr)
    (I : option iptr) : option (bytes * list Jump * gmap Z EntryPoint) :=
  let size := blen mem in
  '(end_, breaks, labels) ← buildLabelSet macro_fuel b T I addr true ∅ ∅;
  _ ← assert_ (u64 (end_ - addr) <=? size);
  let presize := s32 (entry32 - offset32) in
  _ ← assert_ (between 0 size presize);
  '(pre, js, Es) ← flatten_prologue b Es (take (Z.to_nat presize) mem) fill addr presize I;
  let size := size - presize in
  let buf := MkBuffer 0 size (Some (drop (Z.to_nat presize) mem)) in
  o ← buildBytes macro_fuel b addr breaks labels T I true (MkOut buf []);
  let buf : Buffer := o_buf o in
  _ ← assert_ (b_i buf <=? size);
  buf ← push_fill fill (u32 (size - b_i buf)) buf;
  d ← b_buf buf;
  Some (pre ++ d, js ++ (shift_jump presize <$> o_Js o), Es).

End Trampoline.


(** What the allocator asks of e9trampoline.cpp: [getTrampolinePrologueSize],
    [getTrampolineSize] and [getTrampolineBounds]. *)
Definition e9_trampolines {S} (opts : Options) (evicteeTrampoline : ptr) :
    Trampolines (Binary S) := {|
  getTrampolinePrologueSize := prologue_size opts;
  getTrampolineSize := trampoline_size opts;
  getTrampolineBounds := trampoline_bounds opts evicteeTrampoline |}.

(** [flattenAllTrampolines] over the allocations in the order of the iteration; [uninit n]
    is what a new array of [n] bytes holds. *)
Fixpoint flatten_allocs (opts : Options) (uninit : Z → bytes) (l : list (ptr * Alloc))
    (b : Binary Tree) : option (Binary Tree) :=
  match l with
  | [] => Some b
  | (A, a) :: l =>
      match a_T a with
      | None => flatten_allocs opts uninit l b
      | Some T =>
          x ← match a_I a with None => Some None | Some j => x ← instr b j; Some (Some x) end;
          let offset32 := match x with None => 0 | Some x => s32 (a_lb a - i_addr x) end in
          let entry32 := s32 (offset32 + a_entry a) in
          let addr := match x with None => a_lb a | Some x => s64 (i_addr x + entry32) end in
          '(d, js, Es) ← flattenTrampoline opts b (B_Es b) (uninit (a_ub a - a_lb a)) 0xcc addr offset32
                          entry32 T (a_I a);
          let js := (λ J, MkJumpInfo (jp_addr J) (A, jp_pos J) (jp_size J)) <$> js in
          flatten_allocs opts uninit l 
            (set_B_flat (<[A := d]> (B_flat b)) (set_B_Js (B_Js b ++ js) (set_B_Es Es b)))
      end
  end.

Definition flattenAllTrampolines (opts : Options) (uninit : Z → bytes) (b : Binary Tree) :
    option (Binary Tree) :=
  l ← all_allocs (B_space b); flatten_allocs opts uninit l b.

(** ** The order on templates ([TrampolineCmp]) *)

Definition entry_kind (e : Entry) : Z :=
  match e with
  | ENTRY_DEBUG _ => 0 | ENTRY_BYTES _ => 1 | ENTRY_ZEROES _ => 2 | ENTRY_LABEL _ => 3
  | ENTRY_MACRO _ => 4 | ENTRY_REL8 _ => 5 | ENTRY_REL32 _ => 6 | ENTRY_INT8 _ => 7
  | ENTRY_INT16 _ => 8 | ENTRY_INT32 _ => 9 | ENTRY_INT64 _ => 10 | ENTRY_INSTR => 11
  | ENTRY_INSTR_BYTES => 12 | ENTRY_BREAK _ => 13 | ENTRY_TAKE => 14 | ENTRY_BATCH _ => 15
  end.

(** [memcmp] of blocks of the same size. *)
Fixpoint memcmp (l1 l2 : bytes) : comparison :=
  match l1, l2 with
  | x :: l1, y :: l2 => match Z.compare x y with Eq => memcmp l1 l2 | c => c end
  | _, _ => Eq
  end.

Definition operand_cmp (v w : Operand) : comparison :=
  match v, w with
  | OConst _, OLabel _ => Lt
  | OLabel _, OConst _ => Gt
  | OLabel l, OLabel m => String.compare l m
  | OConst x, OConst y => Z.compare (u64 x) (u64 y)
  end.

(** The body of the loop: [Eq] goes on with the next entry. *)
Definition entry_cmp (x y : Entry) : comparison :=
  match Z.compare (entry_kind x) (entry_kind y) with
  | Eq =>
      match x, y with
      | ENTRY_BYTES d, ENTRY_BYTES e =>
          match Z.compare (blen d) (blen e) with Eq => memcmp d e | c => c end
      | ENTRY_ZEROES n, ENTRY_ZEROES m => Z.compare n m
      | ENTRY_LABEL l, ENTRY_LABEL m => String.compare l m
      | ENTRY_MACRO l, ENTRY_MACRO m => String.compare l m
      | ENTRY_REL8 v, ENTRY_REL8 w => operand_cmp v w
      | ENTRY_REL32 v, ENTRY_REL32 w => operand_cmp v w
      | ENTRY_INT8 v, ENTRY_INT8 w => operand_cmp v w
      | ENTRY_INT16 v, ENTRY_INT16 w => operand_cmp v w
      | ENTRY_INT32 v, ENTRY_INT32 w => operand_cmp v w
      | ENTRY_INT64 v, ENTRY_INT64 w => operand_cmp v w
      | ENTRY_BATCH a, ENTRY_BATCH c => Z.compare (u64 a) (u64 c)
      | _, _ => Eq
      end
  | c => c
  end.

Fixpoint entries_less (x y : list Entry) : bool :=
  match x, y with
  | e :: x, f :: y => match entry_cmp e f with Lt => true | Gt => false | Eq => entries_less x y end
  | _, _ => false
  end.

Definition TrampolineCmp (a b : Trampoline) : bool :=
  let n := Z.of_nat (length (entries a)) in
  let m := Z.of_nat (length (entries b)) in
  if negb (n =? m) then n <? m else entries_less (entries a) (entries b).

End E9Trampoline.
