(* ===== verification/E9TrampolineOrder.v ===== *)
(** * E9TrampolineOrder: the order on templates

    [TrampolineCmp] compares templates as sequences of keys; it is a strict order, as
    [std::set] demands, and identifies exactly the templates with the same keys. *)

From stdpp Require Import gmap.
From S2P Require Import Prelude E9Patch E9Alloc E9AllocTree E9AllocApi E9X86 E9Tactics E9Optimize E9Trampoline.

Module TrampolineOrder.
Import E9 E9Trampoline.

(** ** Sequences of numbers *)

Fixpoint lex (x y : list Z) : comparison :=
  match x, y with
  | [], [] => Eq
  | [], _ => Lt
  | _, [] => Gt
  | a :: x, b :: y => match Z.compare a b with Eq => lex x y | c => c end
  end.

Lemma lex_eq x : ∀ y, lex x y = Eq ↔ x = y.
Proof.
  induction x as [|a x IH]; intros [|b y]; cbn; try done.
  destruct (Z.compare_spec a b) as [->|H|H]; [rewrite IH|..]; split; intros E; try done; try (by injection E; intros; subst; lia); congruence.
Qed.

Lemma lex_antisym x : ∀ y, lex y x = CompOpp (lex x y).
Proof.
  induction x as [|a x IH]; intros [|b y]; cbn; try done.
  rewrite (Z.compare_antisym a b). destruct (Z.compare a b); cbn; [apply IH|done..].
Qed.

Lemma lex_trans x : ∀ y z, lex x y = Lt → lex y z = Lt → lex x z = Lt.
Proof.
  induction x as [|a x IH]; intros [|b y] [|c z]; cbn; try done.
  destruct (Z.compare_spec a b) as [->|H|H]; [|destruct (Z.compare_spec b c) as [->|H'|H']|done];
    [destruct (Z.compare b c); [apply IH|done..]| | |done].
  - by rewrite (proj2 (Z.compare_lt_iff a c) H).
  - intros _ _. by rewrite (proj2 (Z.compare_lt_iff a c) (Z.lt_trans _ _ _ H H')).
Qed.

Lemma memcmp_lex x : ∀ y, length x = length y → memcmp x y = lex x y.
Proof.
  induction x as [|a x IH]; intros [|b y]; cbn; try done. intros [= E]. destruct (Z.compare a b); [by apply IH|done..].
Qed.

Lemma lex_length x y : length x = length y → ∀ n m, lex (n :: x) (m :: y) = match Z.compare n m with Eq => lex x y | c => c end.
Proof. done. Qed.

(** The characters of a string. *)
Fixpoint codes (s : string) : list Z :=
  match s with EmptyString => [] | String a s => Z.of_N (N_of_ascii a) :: codes s end.

Lemma compare_codes s : ∀ t, String.compare s t = lex (codes s) (codes t).
Proof.
  induction s as [|a s IH]; intros [|b t]; cbn; try done.
  unfold Ascii.compare. rewrite <- N2Z.inj_compare. destruct (Z.of_N (N_of_ascii a) ?= Z.of_N (N_of_ascii b)); [apply IH|done..].
Qed.

Lemma codes_inj s t : codes s = codes t → s = t.
Proof.
  revert t. induction s as [|a s IH]; intros [|b t]; cbn; try done. intros [= E1 E2]. f_equal; [|by apply IH].
  apply N2Z.inj in E1. rewrite <- (ascii_N_embedding a), <- (ascii_N_embedding b). by f_equal.
Qed.

(** ** Keys of entries *)

Definition operand_key (v : Operand) : list Z :=
  match v with OConst x => [0; u64 x] | OLabel l => 1 :: codes l end.

(** What the comparison sees of an entry: not the flag of a break. *)
Definition entry_key (e : Entry) : list Z :=
  entry_kind e ::
  match e with
  | ENTRY_BYTES d => blen d :: d
  | ENTRY_ZEROES n => [n]
  | ENTRY_LABEL l | ENTRY_MACRO l => codes l
  | ENTRY_REL8 v | ENTRY_REL32 v | ENTRY_INT8 v | ENTRY_INT16 v | ENTRY_INT32 v
  | ENTRY_INT64 v => operand_key v
  | ENTRY_BATCH a => [u64 a]
  | ENTRY_DEBUG _ | ENTRY_INSTR | ENTRY_INSTR_BYTES | ENTRY_BREAK _ | ENTRY_TAKE => []
  end.

Lemma operand_cmp_key v w : operand_cmp v w = lex (operand_key v) (operand_key w).
Proof. destruct v, w; cbn; try done; [apply compare_codes|by destruct (Z.compare _ _)]. Qed.

Lemma entry_cmp_key e f : entry_cmp e f = lex (entry_key e) (entry_key f).
Proof.
  unfold entry_cmp. cbn [lex entry_key]. destruct (Z.compare_spec (entry_kind e) (entry_kind f)) as [E|E|E]; [|done..].
  destruct e, f; try (cbn in E; lia); try done; try apply compare_codes; try apply operand_cmp_key.
  - cbn [lex]. destruct (Z.compare_spec (blen data) (blen data0)) as [El|El|El]; [|done..]. apply memcmp_lex. unfold blen in El. lia.
  - cbn [lex]. by destruct (Z.compare _ _).
  - cbn [lex]. by destruct (Z.compare _ _).
Qed.

Lemma entries_less_irrefl x : entries_less x x = false.
Proof. induction x as [|e x IH]; cbn; [done|]. by rewrite entry_cmp_key, (proj2 (lex_eq _ _) eq_refl). Qed.

Lemma entries_less_trans x : ∀ y z, length x = length y → length y = length z →
  entries_less x y = true → entries_less y z = true → entries_less x z = true.
Proof.
  induction x as [|e x IH]; intros [|f y] [|g z]; cbn; try done. intros [= L1] [= L2]. rewrite !entry_cmp_key.
  destruct (lex (entry_key e) (entry_key f)) eqn:E1; [|destruct (lex (entry_key f) (entry_key g)) eqn:E2|done].
  - apply lex_eq in E1 as ->. destruct (lex (entry_key f) (entry_key g)); [by apply IH|done..].
  - apply lex_eq in E2 as <-. by rewrite E1.
  - by rewrite (lex_trans _ _ _ E1 E2).
  - done.
Qed.

Lemma keys_cons e f x y : entry_key <$> (e :: x) = entry_key <$> (f :: y) →
  entry_key e = entry_key f ∧ entry_key <$> x = entry_key <$> y.
Proof. rewrite !fmap_cons. generalize (entry_key e), (entry_key f). by intros ? ? [= -> ->]. Qed.

Lemma entries_less_total x : ∀ y, length x = length y →
  (entries_less x y = false ∧ entries_less y x = false) ↔ entry_key <$> x = entry_key <$> y.
Proof.
  induction x as [|e x IH]; intros [|f y]; cbn [entries_less]; try done. intros [= L]. rewrite !entry_cmp_key, (lex_antisym (entry_key e)).
  destruct (lex (entry_key e) (entry_key f)) eqn:E; cbn [CompOpp].
  - apply lex_eq in E. rewrite (IH y L), !fmap_cons, E. split; [by intros ->|].
    intros Ek. apply (keys_cons f f). by rewrite !fmap_cons.
  - split; [by intros [? _]|]. intros [E3 _]%keys_cons.
    apply lex_eq in E3. congruence.
  - split; [by intros [_ ?]|]. intros [E3 _]%keys_cons.
    apply lex_eq in E3. congruence.
Qed.

(** [TrampolineCmp] is a strict weak order on templates, as the set that caches
    templates requires: it is irreflexive and transitive, and two templates are equivalent
    exactly if they have the same sequence of entries up to what the comparison does not
    look at. *)
Lemma TrampolineCmp_order :
  (∀ S, TrampolineCmp S S = false) ∧
  (∀ S T U, TrampolineCmp S T = true → TrampolineCmp T U = true → TrampolineCmp S U = true) ∧
  (∀ S T, (TrampolineCmp S T = false ∧ TrampolineCmp T S = false) ↔
          entry_key <$> entries S = entry_key <$> entries T).
Proof.
  unfold TrampolineCmp. split_and!.
  - intros S. rewrite Z.eqb_refl. apply entries_less_irrefl.
  - intros S T U. destruct (Z.eqb_spec (Z.of_nat (length (entries S))) (Z.of_nat (length (entries T)))) as [E1|E1],
      (Z.eqb_spec (Z.of_nat (length (entries T))) (Z.of_nat (length (entries U)))) as [E2|E2],
      (Z.eqb_spec (Z.of_nat (length (entries S))) (Z.of_nat (length (entries U)))) as [E3|E3]; cbn [negb];
      rewrite ?Z.ltb_lt; try lia. apply entries_less_trans; lia.
  - intros S T. rewrite (Z.eqb_sym (Z.of_nat (length (entries T)))).
    destruct (Z.eqb_spec (Z.of_nat (length (entries S))) (Z.of_nat (length (entries T)))) as [E|E]; cbn [negb].
    + apply entries_less_total. lia.
    + rewrite !Z.ltb_ge. split; [lia|]. intros Ek. apply (f_equal length) in Ek. rewrite !length_fmap in Ek. lia.
Qed.

(** The cache takes a template that optimises its break for one that does not. *)
Lemma breaks_conflated :
  let S := MkTrampoline 5 false [ENTRY_BREAK true] in
  let T := MkTrampoline 5 false [ENTRY_BREAK false] in
  TrampolineCmp S T = false ∧ TrampolineCmp T S = false ∧ S ≠ T.
Proof. split_and!; [reflexivity|reflexivity|discriminate]. Qed.

End TrampolineOrder.
