(* ===== verification/E9TrampolineSpec.v ===== *)
(** * E9TrampolineSpec: buffers and relocated instructions

    What the functions of e9trampoline.cpp put into a buffer: the bytes, cut off at the end
    of the buffer; and an instruction that is relocated has the same size when it is
    measured (relaxed or at its address) and when it is emitted. *)

From stdpp Require Import gmap.
From S2P Require Import Prelude E9Patch E9Alloc E9AllocTree E9AllocApi E9X86 E9X86Sim E9Tactics E9Optimize E9Trampoline.

Module TrampolineSpec.
Import E9 E9Alloc E9X86 X86Sim E9Tactics E9Optimize E9Trampoline.

(** ** Buffers *)

(** The bytes [out] were pushed; what does not fit was dropped. *)
Definition holds (buf : Buffer) (out : bytes) : Prop :=
  ∃ tail, b_buf buf = Some (take (Z.to_nat (b_max buf)) out ++ tail) ∧
    (0 <= b_max buf ∧ b_max buf = blen (take (Z.to_nat (b_max buf)) out ++ tail)) ∧
    b_max buf <= UINT32_MAX ∧ b_i buf = blen out.

Lemma take_blen_ge l n : blen l <= n → take (Z.to_nat n) l = l.
Proof. unfold blen. intros. apply take_ge. lia. Qed.

Lemma blen_take l n : 0 <= n <= blen l → blen (take (Z.to_nat n) l) = n.
Proof. unfold blen. intros. rewrite length_take. lia. Qed.

Lemma blen_nil : blen [] = 0.
Proof. reflexivity. Qed.

(** The bytes [x] of which [size] fit. *)
Lemma holds_write buf out x :
  holds buf out → b_i buf < b_max buf →
  let n := Z.min (blen x) (b_max buf - blen out) in
  ∃ d d', b_buf buf = Some d ∧ wrn d (b_i buf) (take (Z.to_nat n) x) = Some d' ∧
    ∀ i, i = blen (out ++ x) → holds (MkBuffer i (b_max buf) (Some d')) (out ++ x).
Proof.
  intros (tail & E & Hd & Hm & Ei) Hlt n. pose proof (blen_nonneg x). pose proof (blen_nonneg out).
  rewrite Ei in *. rewrite take_blen_ge in E, Hd by lia. rewrite blen_app in Hd.
  assert (Hn : blen (take (Z.to_nat n) x) = n) by (apply blen_take; lia).
  destruct (wrn_end out tail (take (Z.to_nat n) x)) as (rest & Ew & Er); [lia|].
  exists (out ++ tail), ((out ++ take (Z.to_nat n) x) ++ rest). split_and!; try done.
  intros i ->. exists rest. cbn [b_buf b_max b_i].
  assert (Et : take (Z.to_nat (b_max buf)) (out ++ x) = out ++ take (Z.to_nat n) x).
  { rewrite take_app. rewrite take_blen_ge by lia. f_equal. unfold blen in *.
    destruct (Z.le_gt_cases (Z.of_nat (length x)) (b_max buf - Z.of_nat (length out))).
    - rewrite !take_ge; (done || lia).
    - f_equal. lia. }
  rewrite Et. split_and!; try done; try lia. rewrite !blen_app, Er, Hn. lia.
Qed.

Lemma holds_full buf out x i :
  holds buf out → b_max buf <= b_i buf → i = blen (out ++ x) →
  holds (MkBuffer i (b_max buf) (b_buf buf)) (out ++ x).
Proof.
  intros (tail & E & Hd & Hm & Ei) Hle ->. rewrite Ei in Hle. exists tail. cbn [b_buf b_max b_i].
  assert (Et : take (Z.to_nat (b_max buf)) (out ++ x) = take (Z.to_nat (b_max buf)) out).
  { rewrite take_app_le; [done|]. unfold blen in *. lia. }
  by rewrite Et.
Qed.

Lemma push_bytes_holds buf out data len :
  holds buf out → 0 <= len <= blen data → blen out + len < 2 ^ 32 →
  ∃ buf', push_bytes data len buf = Some buf' ∧ holds buf' (out ++ take (Z.to_nat len) data) ∧
          b_max buf' = b_max buf.
Proof.
  intros Hh Hl Hb. pose proof (blen_nonneg out). unfold push_bytes.
  destruct (Hh) as (tail & E & Hd & Hm & Ei). rewrite E. 
  assert (El : blen (take (Z.to_nat len) data) = len) by (apply blen_take; lia).
  assert (Es : u32 (b_i buf + len) = blen (out ++ take (Z.to_nat len) data)).
  { rewrite blen_app, El, Ei. apply wrapu_small. lia. }
  destruct (Z.ltb_spec (b_i buf) (b_max buf)) as [Hlt|Hge].
  - set (size := if b_max buf <? u32 (b_i buf + len) then u32 (b_max buf - b_i buf) else len).
    assert (Esize : size = Z.min len (b_max buf - blen out)).
    { unfold size. rewrite wrapu_small by lia. rewrite Ei in *. rewrite wrapu_small by (unfold UINT32_MAX in *; lia).
      destruct (Z.ltb_spec (b_max buf) (blen out + len)); lia. }
    destruct (holds_write buf out (take (Z.to_nat len) data) Hh Hlt) as (d & d' & E' & Ew & Hw).
    rewrite E in E'. injection E' as <-. rewrite El, <- Esize in Ew.
    assert (Er : rdn data 0 size = Some (take (Z.to_nat size) (take (Z.to_nat len) data))).
    { unfold rdn. rewrite Ei in Hlt. rewrite (proj2 (Z.leb_le 0 size)), (proj2 (Z.leb_le (0 + size) (blen data))) by lia.
      cbn [andb Z.leb Z.compare]. f_equal. rewrite drop_0, take_take. f_equal. lia. }
    rewrite Er. cbn [mbind option_bind]. rewrite Ew. cbn [mbind option_bind].
    eexists. split; [reflexivity|]. split; [|done]. by apply Hw.
  - cbn [mbind option_bind]. eexists. split; [reflexivity|]. rewrite <- E. split; [|done]. by apply holds_full.
Qed.

Lemma push_holds buf out x :
  holds buf out → blen out + 1 < 2 ^ 32 →
  ∃ buf', push x buf = Some buf' ∧ holds buf' (out ++ [x]) ∧ b_max buf' = b_max buf.
Proof.
  intros Hh Hb. pose proof (blen_nonneg out). unfold push. destruct (Hh) as (tail & E & Hd & Hm & Ei). rewrite E.
  assert (Es : u32 (b_i buf + 1) = blen (out ++ [x])).
  { rewrite blen_app, Ei. change (blen [x]) with 1. apply wrapu_small. lia. }
  destruct (Z.ltb_spec (b_i buf) (b_max buf)) as [Hlt|Hge].
  - destruct (holds_write buf out [x] Hh Hlt) as (d & d' & E' & Ew & Hw).
    rewrite E in E'. injection E' as <-. rewrite Ei in Hlt. change (blen [x]) with 1 in Ew.
    rewrite (Z.min_l 1) in Ew by lia. change (take (Z.to_nat 1) [x]) with [x] in Ew. rewrite Ew.
    cbn [mbind option_bind]. eexists. split; [reflexivity|]. split; [|done]. by apply Hw.
  - cbn [mbind option_bind]. eexists. split; [reflexivity|]. rewrite <- E. split; [|done]. by apply holds_full.
Qed.

Lemma push_all_holds l : ∀ buf out,
  holds buf out → blen out + blen l < 2 ^ 32 →
  ∃ buf', push_all l buf = Some buf' ∧ holds buf' (out ++ l) ∧ b_max buf' = b_max buf.
Proof.
  induction l as [|x l IH]; intros buf out Hh Hb.
  - exists buf. by rewrite app_nil_r.
  - assert (El : blen (x :: l) = 1 + blen l) by (unfold blen; cbn [List.length]; lia). pose proof (blen_nonneg l).
    destruct (push_holds buf out x Hh) as (b1 & E1 & Hh1 & Em1); [lia|].
    destruct (IH b1 (out ++ [x]) Hh1) as (b2 & E2 & Hh2 & Em2). { rewrite blen_app. change (blen [x]) with 1. lia. }
    exists b2. cbn [push_all]. rewrite E1. cbn [mbind option_bind]. rewrite E2. split; [done|].
    rewrite <- app_assoc in Hh2. split; [exact Hh2|congruence].
Qed.

Lemma holds_size buf out : holds buf out → blen out < 2 ^ 32 → buf_size buf 0 = blen out.
Proof.
  intros (tail & E & Hd & Hm & Ei) Hb. unfold buf_size. rewrite Ei, Z.sub_0_r. pose proof (blen_nonneg out).
  apply wrapu_small. lia.
Qed.

Lemma holds_size_from buf out x :
  holds buf (out ++ x) → blen out + blen x < 2 ^ 32 → buf_size buf (blen out) = blen x.
Proof.
  intros (tail & E & Hd & Hm & Ei) Hb. unfold buf_size. rewrite Ei, blen_app.
  pose proof (blen_nonneg out). pose proof (blen_nonneg x). rewrite wrapu_small; lia.
Qed.

Lemma holds_reset buf out x i : holds buf (out ++ x) → i = blen out → holds (set_i i buf) out.
Proof.
  intros (tail & E & Hd & Hm & Ei) ->.
  exists (take (Z.to_nat (b_max buf) - length out) x ++ tail). unfold set_i. cbn [b_buf b_max b_i].
  rewrite take_app, <- app_assoc in E. rewrite take_app, <- app_assoc in Hd. done.
Qed.

Lemma holds_commit buf out x :
  holds buf (out ++ x) → blen out + blen x < 2 ^ 31 →
  buf_commit (blen out) buf =
    if b_max buf <? blen out + blen x then (-1, set_i (blen out) buf) else (blen x, buf).
Proof.
  intros (tail & E & Hd & Hm & Ei) Hb. pose proof (blen_nonneg out). pose proof (blen_nonneg x).
  unfold buf_commit. rewrite Ei, blen_app. destruct (Z.ltb_spec (b_max buf) (blen out + blen x)).
  - by rewrite wrapu_small by lia.
  - rewrite (s32_small (blen out)), (s32_small (_ + _)) by lia. rewrite s32_small by lia. f_equal. lia.
Qed.

Lemma holds_empty mem n : n = blen mem → n <= UINT32_MAX → holds (MkBuffer 0 n (Some mem)) [].
Proof.
  intros -> Hm. exists mem. cbn [b_buf b_max b_i]. rewrite take_nil. cbn [app]. pose proof (blen_nonneg mem). done.
Qed.

(** ** Relocated instructions *)

Section Reloc.
Context (opts : Options) (addr : Z) (bs : bytes) (size : Z) (pic : bool).
Context (Hsize : 0 < size <= 15) (Hlen : size <= blen bs) (Hbs : bytes_ok bs).

(** A buffer with room for every instruction. *)
Definition scratch : Buffer := MkBuffer 0 128 (Some (repeat 0 128)).

(** The bytes of the instruction at the offset [off], or [None] if it cannot be moved
    there. *)
Definition reloc_code (off : Z) : option bytes :=
  r ← relocateInstr opts addr off bs size pic (Some scratch) false;
  if r.1 <? 0 then None else d ← b_buf r.2; rdn d 0 r.1.

(** A buffer that is in use, and the scratch buffer. *)
Definition in_use (out : bytes) (m n : Z) (b1 b2 : Buffer) : Prop :=
  ∃ code, holds b1 (out ++ code) ∧ b_max b1 = m ∧ holds b2 code ∧ b_max b2 = 128 ∧
    blen code <= 100 ∧ blen code + n <= 100 ∧ blen out + 100 < 2 ^ 31.

(** The scratch buffer, and no buffer at all. *)
Definition measured (n : Z) (b1 b2 : Buffer) : Prop :=
  ∃ code, holds b1 code ∧ b_max b1 = 128 ∧ b2 = MkBuffer (blen code) UINT32_MAX None ∧
    blen code <= 100 ∧ blen code + n <= 100.

Lemma in_use_sim out m off same off2 relax1 relax2 b1 :
  (if same : bool then off2 = off ∧ relax2 = relax1 else off2 = 0 ∧ relax1 = false ∧ relax2 = true) →
  holds b1 out → b_max b1 = m → blen out + 100 < 2 ^ 31 → same = true →
  related (in_use out m) (blen out) 0 same
    (relocateInstr opts addr off bs size pic (Some b1) relax1)
    (relocateInstr opts addr off2 bs size pic (Some scratch) relax2).
Proof.
  intros Hmode Hb Hm Ho Hsame.
  assert (Hs : holds scratch []) by (apply holds_empty; vm_compute; done).
  apply (relocateInstr_sim (in_use out m) (blen out) 0) with (b1 := b1) (b2 := scratch); try done.
  - intros n k c1 c2 (code & H1 & H2 & H3 & H4 & H5 & H6 & H7) Hk. exists code. split_and!; try done. lia.
  - intros n c1 c2 x (code & H1 & H2 & H3 & H4 & H5 & H6 & H7) Hn. pose proof (blen_nonneg code). pose proof (blen_nonneg out).
    destruct (push_holds c1 _ x H1) as (d1 & E1 & Hd1 & Em1); [rewrite blen_app; lia|].
    destruct (push_holds c2 _ x H3) as (d2 & E2 & Hd2 & Em2); [lia|].
    exists d1, d2. split_and!; try done. exists (code ++ [x]). rewrite app_assoc, blen_app. change (blen [x]) with 1.
    split_and!; try done; try congruence; lia.
  - intros n c1 c2 (code & H1 & H2 & H3 & H4 & H5 & H6 & H7). pose proof (blen_nonneg code). pose proof (blen_nonneg out).
    rewrite (holds_size_from _ _ _ H1), (holds_size _ _ H3) by lia. split; [done|lia].
  - intros n c1 c2 d1 d2 len (code & H1 & H2 & H3 & H4 & H5 & H6 & H7) Hd Hn Hl1 Hl2. rewrite <- (Hd Hsame) in *.
    pose proof (blen_nonneg code). pose proof (blen_nonneg out).
    destruct (push_bytes_holds c1 _ d1 len H1) as (e1 & E1 & He1 & Em1); [lia|rewrite blen_app; lia|].
    destruct (push_bytes_holds c2 _ d1 len H3) as (e2 & E2 & He2 & Em2); [lia|lia|].
    exists e1, e2. split_and!; try done. exists (code ++ take (Z.to_nat len) d1).
    rewrite app_assoc, (blen_app code), blen_take by lia. split_and!; try done; try congruence; lia.
  - exists []. rewrite app_nil_r. split_and!; try done; rewrite blen_nil; lia.
  - by rewrite (holds_size _ _ Hb) by lia.
Qed.

Lemma push_none b x : b_buf b = None → push x b = Some (MkBuffer (u32 (b_i b + 1)) (b_max b) None).
Proof. unfold push. by intros ->. Qed.

Lemma push_bytes_none b d len :
  b_buf b = None → push_bytes d len b = Some (MkBuffer (u32 (b_i b + len)) (b_max b) None).
Proof. unfold push_bytes. by intros ->. Qed.

Lemma measured_sim off same off2 relax1 relax2 :
  (if same : bool then off2 = off ∧ relax2 = relax1 else off2 = 0 ∧ relax1 = false ∧ relax2 = true) →
  related measured 0 0 same
    (relocateInstr opts addr off bs size pic (Some scratch) relax1)
    (relocateInstr opts addr off2 bs size pic None relax2).
Proof.
  intros Hmode. assert (Hs : holds scratch []) by (apply holds_empty; vm_compute; done).
  apply (relocateInstr_sim measured 0 0) with (b1 := scratch) (b2 := buffer None); try done.
  - intros n k c1 c2 (code & H1 & H2 & H3 & H4 & H5) Hk. exists code. split_and!; try done. lia.
  - intros n c1 c2 x (code & H1 & H2 & -> & H4 & H5) Hn. pose proof (blen_nonneg code).
    destruct (push_holds c1 _ x H1) as (d1 & E1 & Hd1 & Em1); [lia|].
    exists d1. eexists. split_and!; [exact E1|by apply push_none|].
    exists (code ++ [x]). cbn [b_i b_max]. rewrite blen_app. change (blen [x]) with 1.
    rewrite wrapu_small by lia. split_and!; try done; try congruence; lia.
  - intros n c1 c2 (code & H1 & H2 & -> & H4 & H5). pose proof (blen_nonneg code).
    rewrite (holds_size _ _ H1) by lia. unfold buf_size. cbn [b_i]. rewrite wrapu_small by lia. lia.
  - intros n c1 c2 d1 d2 len (code & H1 & H2 & -> & H4 & H5) _ Hn Hl1 Hl2. pose proof (blen_nonneg code).
    destruct (push_bytes_holds c1 _ d1 len H1) as (e1 & E1 & He1 & Em1); [lia|lia|].
    exists e1. eexists. split_and!; [exact E1|by apply push_bytes_none|].
    exists (code ++ take (Z.to_nat len) d1). cbn [b_i b_max]. rewrite blen_app, blen_take by lia.
    rewrite wrapu_small by lia. split_and!; try done; try congruence; lia.
  - exists []. split_and!; try done; rewrite blen_nil; lia.
Qed.

(** What a committed run on the scratch buffer returns. *)
Lemma scratch_commit d2 code r c2 : holds d2 code → b_max d2 = 128 → blen code <= 100 →
  buf_commit 0 d2 = (r, c2) → r = blen code ∧ c2 = d2 ∧
  (d ← b_buf d2; rdn d 0 (blen code)) = Some code.
Proof.
  intros Hh Hm Hc E. pose proof (holds_commit d2 [] code Hh) as Ec. rewrite blen_nil in Ec.
  rewrite Ec in E by lia. rewrite Hm in E. destruct (Z.ltb_spec 128 (0 + blen code)); [lia|].
  injection E as <- <-. split_and!; try done. destruct Hh as (tail & E & Hd & _). rewrite E, Hm in *.
  rewrite take_blen_ge in * by lia. pose proof (blen_nonneg code). cbn [mbind option_bind]. unfold rdn. rewrite blen_app in *.
  rewrite (proj2 (Z.leb_le 0 (blen code))), (proj2 (Z.leb_le (0 + blen code) _)) by lia. cbn [andb Z.leb Z.compare].
  f_equal. rewrite drop_0, take_app, take_blen_ge by lia. unfold blen. rewrite Nat2Z.id, Nat.sub_diag, take_0.
  apply app_nil_r.
Qed.

Lemma reloc_emit off c out b1 :
  reloc_code off = Some c → holds b1 out → blen out + 100 < 2 ^ 31 → blen out + blen c <= b_max b1 →
  ∃ b1', relocateInstr opts addr off bs size pic (Some b1) false = Some (blen c, b1') ∧
    holds b1' (out ++ c) ∧ b_max b1' = b_max b1.
Proof.
  intros Ec Hh Ho Hroom.
  pose proof (in_use_sim out (b_max b1) off true off false false b1 ltac:(done) Hh ltac:(done) Ho ltac:(done)) as Hr.
  unfold reloc_code in Ec. destruct (relocateInstr opts addr off bs size pic (Some scratch) false) as [[r2 c2]|]; [|done].
  cbn [mbind option_bind fst snd] in Ec. destruct (Z.ltb_spec r2 0) as [|H2]; [done|].
  destruct (relocateInstr opts addr off bs size pic (Some b1) false) as [[r1 c1]|]; cbn [related] in Hr; [|by discriminate Hr].
  destruct Hr as [(d1 & d2 & r2' & c2' & HR & Ec1 & E2 & Ec2)|(-> & Hf)].
  - injection E2 as <- <-. destruct HR as (code & Hd1 & Hm1 & Hd2 & Hm2 & Hc & _).
    destruct (scratch_commit _ _ _ _ Hd2 Hm2 Hc Ec2) as (-> & -> & Er). rewrite Er in Ec. injection Ec as ->.
    rewrite (holds_commit _ _ _ Hd1), Hm1 in Ec1 by lia.
    destruct (Z.ltb_spec (b_max b1) (blen out + blen c)); [lia|]. injection Ec1 as <- <-. by exists d1.
  - destruct (Hf ltac:(done)) as (c2' & [= -> ->] & _). lia.
Qed.

Lemma reloc_measure off c :
  reloc_code off = Some c →
  (∃ b, relocateInstr opts addr off bs size pic None false = Some (blen c, b)) ∧
  (∃ b, relocateInstr opts addr 0 bs size pic None true = Some (blen c, b)) ∧ blen c <= 100.
Proof.
  intros Ec.
  pose proof (measured_sim off true off false false ltac:(done)) as Hr1.
  pose proof (measured_sim off false 0 false true ltac:(done)) as Hr2.
  unfold reloc_code in Ec. destruct (relocateInstr opts addr off bs size pic (Some scratch) false) as [[r2 c2]|]; [|done].
  cbn [mbind option_bind fst snd] in Ec. destruct (Z.ltb_spec r2 0) as [|H2]; [done|].
  assert (Hone : ∀ same o2, related measured 0 0 same (Some (r2, c2)) o2 → (∃ b, o2 = Some (blen c, b)) ∧ blen c <= 100).
  { intros same o2 [(d1 & d2 & r3 & c3 & (code & Hd1 & Hm1 & -> & Hc & _) & Ec1 & -> & Ec2)|(-> & _)]; [|lia].
    destruct (scratch_commit _ _ _ _ Hd1 Hm1 Hc Ec1) as (-> & -> & Er). rewrite Er in Ec. injection Ec as ->.
    split; [|done]. exists c3. f_equal. unfold buf_commit in Ec2. cbn [b_i b_max] in Ec2.
    destruct (Z.ltb_spec UINT32_MAX (blen c)) as [Hlt|]; [unfold UINT32_MAX in Hlt; lia|].
    pose proof (blen_nonneg c). rewrite (s32_small (blen c)), (s32_small 0), Z.sub_0_r, s32_small in Ec2 by lia.
    injection Ec2 as <- <-. done. }
  destruct (Hone _ _ Hr1) as [? ?], (Hone _ _ Hr2) as [? ?]. done.
Qed.

End Reloc.

End TrampolineSpec.
