(* ===== verification/E9TrampolineAsm.v ===== *)
(** * E9TrampolineAsm: trampolines as assembly listings

    The reference for e9trampoline.cpp: a template, with its macros and batches expanded,
    is a list of items; the items are laid out one after the other, which gives the
    addresses of the labels; and the code of each item depends on its address alone. *)

From stdpp Require Import gmap.
From S2P Require Import Prelude E9Patch E9Alloc E9AllocTree E9AllocApi E9X86 E9X86Sim E9Tactics E9Optimize E9Trampoline E9TrampolineSpec.

Module TrampolineAsm.
Import E9 E9Alloc E9X86 X86Sim E9Tactics E9Optimize E9Trampoline TrampolineSpec.

(** ** Listings *)

(** An entry, for an instruction, with the flags [last] (it belongs to the last
    instruction of a batch) and [fin] (it is the last one of its template); the
    instruction [j] of a batch, which has no template; the end of the instruction at [a]
    of a batch; and the break after a batch. *)
Inductive item :=
| Data (e : Entry) (I : option iptr) (last fin : bool)
| Moved (j : iptr)
| Mark (a : Z)
| Leave (J : option iptr).

Section Asm.
Context {S : Type} (opts : Options).
Implicit Types (b : Binary S) (j : iptr).

Section Expand.
Context (rec : ptr → option iptr → bool → option (list item)).

Fixpoint expand_batch (fuel : nat) b (end_ : Z) (J I : option iptr) :
    option (list item * option iptr) :=
  c ← in_batch b I end_;
  match c with
  | None => Some ([], J)
  | Some (j, x) =>
      match fuel with
      | O => None
      | Datatypes.S fuel =>
          let last := i_addr x =? end_ in
          l ← match i_T x with Some T => rec T I last | None => Some [Moved j] end;
          '(l', J) ← expand_batch fuel b end_ I (next b j);
          Some (l ++ (if last then [] else [Mark (i_addr x)]) ++ l', J)
      end
  end.

(** A batch is the last entry of its template. *)
Fixpoint expand_entries b (es : list Entry) (I : option iptr) (last : bool) :
    option (list item) :=
  match es with
  | [] => Some []
  | ENTRY_MACRO name :: es =>
      U ← macro_of b I name;
      l ← rec U I last;
      l' ← expand_entries b es I last;
      Some (l ++ l')
  | ENTRY_BATCH end_ :: es =>
      match es with
      | [] =>
          '(l, J) ← expand_batch (num_instrs b) b end_ None I;
          bare ← ends_bare b J;
          Some (l ++ if (bare : bool) then [Leave J] else [])
      | _ => None
      end
  | e :: es =>
      l ← expand_entries b es I last;
      Some (Data e I last (bool_decide (es = [])) :: l)
  end.

End Expand.

Fixpoint expand (n : nat) b (T : ptr) (I : option iptr) (last : bool) : option (list item) :=
  match n with
  | O => None
  | Datatypes.S n =>
      t ← B_Ts b !! T; expand_entries (expand n b) b (entries t) I last
  end.

(** ** Layout *)

Definition item_len b (a : Z) (it : item) : option Z :=
  match it with
  | Data e K last fin =>
      match e with
      | ENTRY_DEBUG length => n ← debug_len b K; Some (n + length)
      | ENTRY_BYTES data => Some (blen data)
      | ENTRY_ZEROES length => Some length
      | ENTRY_INT8 _ | ENTRY_REL8 _ => Some 1
      | ENTRY_INT16 _ => Some 2
      | ENTRY_INT32 _ | ENTRY_REL32 _ => Some 4
      | ENTRY_INT64 _ => Some 8
      | ENTRY_LABEL _ | ENTRY_MACRO _ | ENTRY_BATCH _ => Some 0
      | ENTRY_INSTR => j ← K; relocate_len opts b j a
      | ENTRY_INSTR_BYTES => j ← K; x ← instr b j; Some (i_size x)
      | ENTRY_BREAK opt => break_len opts b K a (negb last && fin) (last && opt)
      | ENTRY_TAKE => Some 5
      end
  | Moved j => relocate_len opts b j a
  | Mark _ => Some 0
  | Leave J => break_len opts b J 0 false true
  end.

(** What an item adds to the labels and the break targets. *)
Definition define_label b (a : Z) (it : item) (labels : LabelSet) : option LabelSet :=
  match it with
  | Data (ENTRY_LABEL l) K _ _ =>
      j ← K;
      x ← instr b j;
      match labels !! (i_addr x, l) with
      | Some _ => None
      | None => Some (<[(i_addr x, l) := a]> labels)
      end
  | _ => Some labels
  end.

Definition define_break (a : Z) (it : item) (breaks : BreakInfo) : BreakInfo :=
  match it with Mark x => map_insert x a breaks | _ => breaks end.

Fixpoint layout b (a : Z) (l : list item) (breaks : BreakInfo) (labels : LabelSet) :
    option (Z * BreakInfo * LabelSet) :=
  match l with
  | [] => Some (a, breaks, labels)
  | it :: l =>
      labels ← define_label b a it labels;
      n ← item_len b a it;
      layout b (s64 (a + n)) l (define_break a it breaks) labels
  end.

(** ** Code *)

(** The instruction [j], moved to [a]. *)
Definition moved_code b j (a : Z) : option bytes :=
  x ← instr b j;
  reloc_code opts (i_addr x) (ORIG b x) (i_size x) (i_pic x) (s32 (s64 (a - i_addr x))).

Definition jump_code (target a : Z) : option bytes :=
  let rel := s64 (target - (a + 5)) in
  if is_imm32 rel then Some (0xe9 :: imm32 rel) else None.

(** Where control goes on after the instruction [J]. *)
Definition continuation b (breaks : BreakInfo) (J : option iptr) : option Z :=
  j ← J;
  x ← instr b j;
  Some match breaks !! i_addr x with Some t => t | None => s64 (i_addr x + i_size x) end.

Definition leave_code b (breaks : BreakInfo) (J : option iptr) (a : Z) : option bytes :=
  t ← continuation b breaks J; jump_code t a.

(** Can [saveJump] classify it? *)
Definition classified (c : bytes) : option () :=
  r ← isCFT c (blen c) CFT_JMP; Some ().

Fixpoint epilogue_code (n : nat) b (breaks : BreakInfo) (J : option iptr) (a : Z) :
    option bytes :=
  match n with
  | O => Some []
  | Datatypes.S n =>
      j ← J;
      x ← instr b j;
      if is_stop x then _ ← assert_ (Nat.eqb n 0); leave_code b breaks (prev b j) a
      else
        c ← moved_code b j a;
        _ ← classified c;
        l ← epilogue_code n b breaks (next b j) (a + blen c);
        Some (c ++ l)
  end.

(** A break falls through, jumps to the continuation, or is an epilogue. *)
Definition break_code b (breaks : BreakInfo) (J : option iptr) (a : Z)
    (fallthrough optimize : bool) : option bytes :=
  if fallthrough then Some []
  else
    simple ← (if negb optimize then Some true
              else j ← J; x ← instr b j; Some (i_no_optimize x));
    if (simple : bool) then leave_code b breaks J a
    else
      j ← J;
      '(i, cft) ← epilogue_scan opts (Z.to_nat (option_Oepilogue opts)) b j 0 0 false;
      if negb cft then leave_code b breaks J a
      else epilogue_code (Z.to_nat i) b breaks (next b j) a.

(** The address that a label stands for. *)
Definition label_address b (labels : LabelSet) (I : option iptr) (label : string) : option Z :=
  other ← not_local label;
  if (other : bool) then None
  else
    target ← getBuiltinLabelAddress b I label;
    if negb (target =? INTPTR_MIN) then Some target
    else j ← I; x ← instr b j; labels !! (i_addr x, label).

Definition operand_value b (labels : LabelSet) (I : option iptr) (v : Operand) : option Z :=
  match v with OLabel l => label_address b labels I l | OConst c => Some c end.

Definition item_code b (breaks : BreakInfo) (labels : LabelSet) (a : Z) (it : item) :
    option bytes :=
  match it with
  | Data e K last fin =>
      match e with
      | ENTRY_DEBUG length =>
          n ← debug_len b K; if length =? 0 then Some (if n =? 0 then [] else [0xcc]) else None
      | ENTRY_BYTES data => Some data
      | ENTRY_ZEROES length => if length <? 0 then None else Some (repeat 0 (Z.to_nat length))
      | ENTRY_INT8 v => t ← operand_value b labels K v; Some [u8 t]
      | ENTRY_INT16 v => t ← operand_value b labels K v; Some (le_bytes 2 (u16 t))
      | ENTRY_INT32 v => t ← operand_value b labels K v; Some (le_bytes 4 (u32 t))
      | ENTRY_INT64 v => t ← operand_value b labels K v; Some (le_bytes 8 (u64 t))
      | ENTRY_REL8 v =>
          t ← operand_value b labels K v;
          let rel := s64 (t - (a + 1)) in
          if between INT8_MIN INT8_MAX rel then Some [u8 rel] else None
      | ENTRY_REL32 v =>
          t ← operand_value b labels K v;
          let rel := s64 (t - (a + 4)) in
          if is_imm32 rel then Some (imm32 rel) else None
      | ENTRY_LABEL _ => Some []
      | ENTRY_MACRO _ | ENTRY_BATCH _ => None
      | ENTRY_INSTR => j ← K; moved_code b j a
      | ENTRY_INSTR_BYTES => j ← K; x ← instr b j; rdn (ORIG b x) 0 (i_size x)
      | ENTRY_BREAK opt => break_code b breaks K a (negb last && fin) (last && opt)
      | ENTRY_TAKE =>
          j ← K;
          x ← instr b j;
          t ← getCFTTarget (i_addr x) (ORIG b x) (i_size x) CFT_JCC;
          if t =? INTPTR_MIN then None else jump_code t a
      end
  | Moved j => moved_code b j a
  | Mark _ => Some []
  | Leave J => break_code b breaks J a false true
  end.

Fixpoint assemble b (breaks : BreakInfo) (labels : LabelSet) (a : Z) (l : list item) :
    option bytes :=
  match l with
  | [] => Some []
  | it :: l =>
      c ← item_code b breaks labels a it;
      d ← assemble b breaks labels (a + blen c) l;
      Some (c ++ d)
  end.

(** ** Emitting single items *)

(** The instructions are in the file, and addresses are far from the ends of the range. *)
Record code_ok b : Prop := {
  co_instr : ∀ j x, instr b j = Some x →
    0 < i_size x <= 15 ∧ 0 <= i_offset x ∧ i_offset x + i_size x <= blen (B_orig b) ∧
    - 2 ^ 61 <= i_addr x <= 2 ^ 61;
  co_orig : bytes_ok (B_orig b) }.

Context (b : Binary S) (CO : code_ok b).

(** An address that no computation wraps. *)
Definition near_ok (a : Z) : Prop := - 2 ^ 62 <= a <= 2 ^ 62.

Lemma near_not_min a : near_ok a → (a =? INTPTR_MIN) = false.
Proof. unfold near_ok, INTPTR_MIN. intros. apply Z.eqb_neq. lia. Qed.

Lemma orig_len j x : instr b j = Some x → i_size x <= blen (ORIG b x).
Proof. intros (H0 & H1 & H2 & _)%(co_instr b CO). unfold ORIG. rewrite blen_at_off; lia. Qed.

Lemma moved_emit j a c out buf :
  moved_code b j a = Some c → near_ok a →
  holds buf out → blen out + 100 < 2 ^ 31 → blen out + blen c <= b_max buf →
  ∃ buf', relocate opts b j a (Some buf) = Some (blen c, buf') ∧ holds buf' (out ++ c) ∧
          b_max buf' = b_max buf.
Proof.
  unfold moved_code, relocate. intros Ec Ha Hh Ho Hr. destruct (instr b j) as [x|] eqn:Ex; [|done].
  cbn [mbind option_bind] in *. rewrite near_not_min by done. pose proof (co_instr b CO j x Ex) as (H1 & _).
  pose proof (orig_len j x Ex). pose proof (at_off_ok (B_orig b) (i_offset x) (co_orig b CO)).
  by eapply reloc_emit.
Qed.

Lemma moved_len j a c :
  moved_code b j a = Some c → near_ok a →
  relocate_len opts b j a = Some (blen c) ∧ relocate_len opts b j INTPTR_MIN = Some (blen c) ∧ blen c <= 100.
Proof.
  unfold moved_code, relocate_len, relocate. intros Ec Ha. destruct (instr b j) as [x|] eqn:Ex; [|done].
  cbn [mbind option_bind] in *. rewrite near_not_min by done. pose proof (co_instr b CO j x Ex) as (H1 & _).
  pose proof (orig_len j x Ex) as H2. pose proof (at_off_ok (B_orig b) (i_offset x) (co_orig b CO)) as H3.
  destruct (reloc_measure opts (i_addr x) (ORIG b x) (i_size x) (i_pic x) H1 H2 H3 _ _ Ec) as ((b1 & E1) & (b2 & E2) & Hl).
  rewrite E1, Z.eqb_refl. change (s32 0) with 0. by rewrite E2.
Qed.

(** [saveJump] only adds to the jumps, for code that was just emitted. *)
Lemma saveJump_ok a c out (o : Out) pos :
  holds (o_buf o) (out ++ c) → classified c = Some () → blen (out ++ c) <= b_max (o_buf o) →
  pos = None ∨ pos = Some (blen out) →
  ∃ o', saveJump opts a pos (blen c) o = Some o' ∧ o_buf o' = o_buf o.
Proof.
  intros (tail & E & _) Hc Hm Hp. unfold saveJump. destruct (negb (option_Opeephole opts)); [by exists o|].
  destruct Hp as [->| ->]; [by exists o|]. rewrite E. cbn [mbind option_bind].
  unfold classified in Hc. destruct (isCFT c (blen c) CFT_JMP) as [r|] eqn:Er; [|done].
  rewrite take_blen_ge by done.
  assert (Ea : at_off ((out ++ c) ++ tail) (blen out) = c ++ tail).
  { unfold at_off, blen. rewrite Nat2Z.id, <- app_assoc. apply drop_app_length. }
  rewrite Ea, (isCFT_ext c tail (blen c) CFT_JMP r Er). cbn [mbind option_bind]. by destruct r; eexists.
Qed.

Lemma jump_code_len t a c : jump_code t a = Some c → blen c = 5 ∧ classified c = Some ().
Proof.
  unfold jump_code. destruct (is_imm32 _) eqn:Ei; [|done]. intros [= <-].
  assert (El : blen (0xe9 :: imm32 (s64 (t - (a + 5)))) = 5).
  { change (0xe9 :: imm32 (s64 (t - (a + 5)))) with ([0xe9] ++ imm32 (s64 (t - (a + 5)))). by rewrite blen_app, imm32_len. }
  split; [done|]. unfold classified, isCFT.
  pose proof (near_cft [0xe9] (MkCFTInfo false false true false 0) 0 _ ltac:(constructor) Ei) as E.
  cbn [app] in E. by rewrite E.
Qed.

Lemma buf_bytes_holds buf out : holds buf out → buf_bytes buf = None ∨ buf_bytes buf = Some (blen out).
Proof.
  intros (tail & _ & _ & _ & Ei). unfold buf_bytes. rewrite Ei. destruct (_ <? _); [by right|by left].
Qed.

Lemma leave_emit breaks (J : option iptr) a c out (o : Out) :
  leave_code b breaks J a = Some c →
  holds (o_buf o) out → blen out + 100 < 2 ^ 31 → blen out + blen c <= b_max (o_buf o) →
  ∃ o', buildJump opts b J a (Some breaks) (Some o) = Some (blen c, Some o') ∧
    holds (o_buf o') (out ++ c) ∧ b_max (o_buf o') = b_max (o_buf o).
Proof.
  unfold leave_code, continuation, buildJump. intros Ec Hh Ho Hr. destruct J as [j|]; [|done].
  cbn [mbind option_bind] in *. destruct (instr b j) as [x|] eqn:Ex; [|done]. cbn [mbind option_bind] in *.
  destruct (jump_code_len _ _ _ Ec) as [El Hc]. unfold jump_code in Ec. revert Ec.
  set (t := match breaks !! i_addr x with Some t => t | None => s64 (i_addr x + i_size x) end).
  destruct (is_imm32 (s64 (t - (a + 5)))) eqn:Ei; [|done]. intros [= <-]. cbn [assert_ mbind option_bind].
  destruct (push_holds (o_buf o) out 0xe9 Hh) as (b1 & E1 & Hh1 & Em1); [lia|]. rewrite E1. cbn [mbind option_bind].
  destruct (push_bytes_holds b1 _ (imm32 (s64 (t - (a + 5)))) 4 Hh1) as (b2 & E2 & Hh2 & Em2);
    [rewrite imm32_len; lia|rewrite blen_app; change (blen [0xe9]) with 1; lia|].
  rewrite E2. cbn [mbind option_bind].
  rewrite (take_blen_ge _ 4) in Hh2 by (by rewrite imm32_len). rewrite <- app_assoc in Hh2. cbn [app] in Hh2.
  unfold succ. rewrite Ex. cbn [mbind option_bind]. rewrite El.
  set (c := 0xe9 :: imm32 (s64 (t - (a + 5)))) in *.
  assert (Hsave : ∃ o', saveJump opts a (buf_bytes (o_buf o)) (blen c) (set_o_buf b2 o) = Some o' ∧ o_buf o' = b2).
  { apply (saveJump_ok a c out (set_o_buf b2 o)); [exact Hh2|exact Hc| |by apply buf_bytes_holds].
    rewrite blen_app. cbn. rewrite Em2, Em1. lia. }
  destruct Hsave as (o1 & Es & Eo1). rewrite El in Es.
  match goal with |- context [match ?n with Some _ => match buf_bytes b2 with _ => _ end | None => _ end] => destruct n end.
  - destruct (buf_bytes b2); [destruct (option_Opeephole opts)|]; cbn [mbind option_bind].
    + rewrite Es. cbn [mbind option_bind]. exists o1. rewrite Eo1. split_and!; (done || congruence).
    + exists (set_o_buf b2 o). split_and!; (done || cbn; congruence).
    + exists (set_o_buf b2 o). split_and!; (done || cbn; congruence).
  - exists (set_o_buf b2 o). split_and!; (done || cbn; congruence).
Qed.

(** The length of the epilogue, which is the same at every address. *)
Lemma epilogue_measure br breaks n : ∀ (J : option iptr) a c a0,
  epilogue_code n b br J a = Some c → near_ok a → near_ok (a + blen c) →
  - 2 ^ 62 <= a0 → a0 + blen c <= 2 ^ 62 →
  epilogue_build opts n b J a0 breaks None = Some (a0 + blen c, true, None) ∧ blen c <= 100 * Z.of_nat n.
Proof.
  induction n as [|n IH]; intros J a c a0; cbn [epilogue_code epilogue_build].
  - intros [= <-] _ _ _ _. rewrite blen_nil, Z.add_0_r. done.
  - intros Ec Ha Ha' H0 H1. destruct J as [j|]; [|done]. cbn [mbind option_bind] in *.
    destruct (instr b j) as [x|] eqn:Ex; [|done]. cbn [mbind option_bind] in *. pose proof (blen_nonneg c).
    destruct (is_stop x).
    + destruct (Nat.eqb n 0); [|done]. cbn [assert_ mbind option_bind] in *. unfold leave_code in Ec.
      destruct (continuation b br (prev b j)); [|done]. cbn [mbind option_bind] in Ec.
      destruct (jump_code_len _ _ _ Ec) as [El _]. cbn [buildJump mbind option_bind]. rewrite El in *.
      split; [|lia]. do 3 f_equal. apply wraps_small; lia.
    + destruct (moved_code b j a) as [c1|] eqn:E1; [|done]. cbn [mbind option_bind] in Ec.
      destruct (classified c1); [|done]. cbn [mbind option_bind] in Ec.
      destruct (epilogue_code n b br (next b j) (a + blen c1)) as [c2|] eqn:E2; [|done]. injection Ec as <-.
      destruct (moved_len j a c1 E1 Ha) as (_ & E3 & H3). rewrite E3. cbn [mbind option_bind].
      rewrite blen_app in *. pose proof (blen_nonneg c1). pose proof (blen_nonneg c2). unfold near_ok in *.
      rewrite (wrapu_small 32 (blen c1)), (wraps_small 64) by lia.
      destruct (IH _ _ _ (a0 + blen c1) E2) as [E4 Hlen]; [lia|lia|lia|lia|]. rewrite E4.
      split; [do 3 f_equal; lia|lia].
Qed.

Lemma epilogue_emit breaks n : ∀ (J : option iptr) a c out (o : Out),
  epilogue_code n b breaks J a = Some c → near_ok a → near_ok (a + blen c) →
  holds (o_buf o) out → blen out + blen c + 100 < 2 ^ 31 → blen out + blen c <= b_max (o_buf o) →
  ∃ o', epilogue_build opts n b J a (Some breaks) (Some o) = Some (a + blen c, true, Some o') ∧
    holds (o_buf o') (out ++ c) ∧ b_max (o_buf o') = b_max (o_buf o).
Proof.
  induction n as [|n IH]; intros J a c out o; cbn [epilogue_code epilogue_build].
  - intros [= <-] _ _ Hh _ _. exists o. by rewrite blen_nil, Z.add_0_r, app_nil_r.
  - intros Ec Ha Ha' Hh Ho Hr. destruct J as [j|]; [|done]. cbn [mbind option_bind] in *.
    destruct (instr b j) as [x|] eqn:Ex; [|done]. cbn [mbind option_bind] in *.
    pose proof (blen_nonneg c). pose proof (blen_nonneg out). unfold near_ok in *.
    destruct (is_stop x).
    + destruct (Nat.eqb n 0); [|done]. cbn [assert_ mbind option_bind] in *.
      destruct (leave_emit breaks (prev b j) a c out o Ec Hh) as (o' & E & Hh' & Em); [lia|lia|].
      rewrite E. cbn [mbind option_bind]. exists o'. rewrite wraps_small by lia. done.
    + destruct (moved_code b j a) as [c1|] eqn:E1; [|done]. cbn [mbind option_bind] in Ec.
      destruct (classified c1) as [[]|] eqn:Ecl; [|done]. cbn [mbind option_bind] in Ec.
      destruct (epilogue_code n b breaks (next b j) (a + blen c1)) as [c2|] eqn:E2; [|done]. injection Ec as <-.
      rewrite blen_app in *. pose proof (blen_nonneg c1). pose proof (blen_nonneg c2).
      destruct (moved_emit j a c1 out (o_buf o) E1 Ha Hh) as (b1 & E3 & Hh1 & Em1); [lia|lia|].
      rewrite E3. cbn [mbind option_bind]. rewrite (proj2 (Z.leb_le 0 (blen c1))) by lia.
      destruct (saveJump_ok a c1 out (set_o_buf b1 o) (buf_bytes (o_buf o)) Hh1 Ecl) as (o1 & Es & Eo1);
        [rewrite blen_app; cbn; lia|by apply buf_bytes_holds|].
      rewrite Es. cbn [mbind option_bind]. rewrite (wrapu_small 32 (blen c1)), (wraps_small 64) by lia.
      cbn [o_buf set_o_buf] in Eo1. rewrite <- Eo1 in Hh1, Em1.
      destruct (IH _ _ _ (out ++ c1) o1 E2) as (o2 & E4 & Hh2 & Em2); try done; try (rewrite blen_app); try lia.
      rewrite E4. exists o2. rewrite <- app_assoc in Hh2. split_and!; [do 3 f_equal; lia|done|congruence].
Qed.

Lemma break_emit breaks (J : option iptr) a ft opt c out (o : Out) :
  break_code b breaks J a ft opt = Some c → near_ok a → near_ok (a + blen c) →
  holds (o_buf o) out → blen out + blen c + 100 < 2 ^ 31 → blen out + blen c <= b_max (o_buf o) →
  ∃ o', buildBreak opts b J a ft opt (Some breaks) (Some o) = Some (blen c, Some o') ∧
    holds (o_buf o') (out ++ c) ∧ b_max (o_buf o') = b_max (o_buf o).
Proof.
  intros Ec Ha Ha' Hh Ho Hr. pose proof (blen_nonneg c). pose proof (blen_nonneg out).
  unfold break_code in Ec. unfold buildBreak. destruct ft.
  { injection Ec as <-. exists o. by rewrite app_nil_r. }
  pose proof (λ Ec, leave_emit breaks J a c out o Ec Hh ltac:(lia) ltac:(lia)) as Hleave.
  match type of Ec with (?s ≫= _) = _ => destruct s as [[|]|]; [| |done] end; cbn [mbind option_bind] in *; [by apply Hleave|].
  destruct J as [j|]; [|done]. cbn [mbind option_bind] in *.
  destruct (epilogue_scan _ _ _ _ _ _ _) as [[i cft]|]; [|done]. cbn [mbind option_bind] in *.
  destruct (negb cft); [by apply Hleave|].
  destruct (epilogue_emit breaks (Z.to_nat i) (next b j) a c out o Ec) as (o' & E & Hh' & Em); try done.
  rewrite E. cbn [mbind option_bind negb]. exists o'. rewrite s32_small by lia. split_and!; [do 2 f_equal; lia|done|done].
Qed.

(** Measuring a break, at any address. *)
Lemma break_measure breaks (J : option iptr) a a0 ft opt c :
  break_code b breaks J a ft opt = Some c → near_ok a → near_ok (a + blen c) →
  - 2 ^ 62 <= a0 → a0 + blen c <= 2 ^ 62 → blen c < 2 ^ 31 →
  break_len opts b J a0 ft opt = Some (blen c).
Proof.
  intros Ec Ha Ha' H0 H1 H2. pose proof (blen_nonneg c). unfold break_len. unfold break_code in Ec. unfold buildBreak.
  destruct ft. { by injection Ec as <-. }
  assert (Hleave : leave_code b breaks J a = Some c → (r ← buildJump opts b J a0 None None; Some r.1) = Some (blen c)).
  { unfold leave_code. destruct (continuation b breaks J); [|done]. cbn [mbind option_bind].
    intros Ej. by destruct (jump_code_len _ _ _ Ej) as [-> _]. }
  match type of Ec with (?s ≫= _) = _ => destruct s as [[|]|]; [| |done] end; cbn [mbind option_bind] in *; [by apply Hleave|].
  destruct J as [j|]; [|done]. cbn [mbind option_bind] in *.
  destruct (epilogue_scan _ _ _ _ _ _ _) as [[i cft]|]; [|done]. cbn [mbind option_bind] in *.
  destruct (negb cft); [by apply Hleave|].
  destruct (epilogue_measure breaks None (Z.to_nat i) (next b j) a c a0 Ec) as [E _]; try done.
  rewrite E. cbn [mbind option_bind negb fst]. rewrite s32_small by lia. f_equal. lia.
Qed.

(** *** Wrapped arithmetic on addresses *)

Lemma wraps_add w x k : 0 <= w → wraps w (x + k * 2 ^ w) = wraps w x.
Proof. intros. unfold wraps. by rewrite Z_mod_plus_full. Qed.

Lemma s64_sub x y z : s64 (s64 (x - y) - z) = s64 (x - (y + z)).
Proof.
  destruct (wraps_eqm 64 (x - y)) as [k ->]; [lia|].
  replace (x - y + k * 2 ^ 64 - z) with (x - (y + z) + k * 2 ^ 64) by lia. by apply wraps_add.
Qed.

Lemma u_s64 w x : 0 <= w <= 64 → wrapu w (s64 x) = wrapu w x.
Proof.
  intros Hw. destruct (wraps_eqm 64 x) as [k ->]; [lia|]. unfold wrapu.
  replace (2 ^ 64) with (2 ^ (64 - w) * 2 ^ w) by (rewrite <- Z.pow_add_r by lia; f_equal; lia).
  rewrite Z.mul_assoc. apply Z_mod_plus_full.
Qed.

(** A label at the end of the buffer. *)
Lemma here_holds a (o : Out) out : holds (o_buf o) out → blen out < 2 ^ 31 → near_ok (a + blen out) →
  here a o = a + blen out.
Proof. intros Hh Ho Ha. unfold here. rewrite (holds_size _ _ Hh) by lia. apply wraps_small; unfold near_ok in *; lia. Qed.

Lemma lookup_resolve labels (J : option iptr) label x t :
  label_address b labels J label = Some t → lookupLabel b label J x labels = Some (s64 (t - x)).
Proof.
  unfold label_address, lookupLabel. destruct (not_local label) as [[|]|]; [done| |done]. cbn [mbind option_bind].
  destruct (getBuiltinLabelAddress b J label) as [target|]; [|done]. cbn [mbind option_bind].
  destruct (negb (target =? INTPTR_MIN)); [by intros [= ->]|].
  destruct J as [j|]; [|done]. cbn [mbind option_bind]. destruct (instr b j) as [y|]; [|done]. cbn [mbind option_bind].
  intros E. by rewrite E.
Qed.

Lemma int_value_ok labels (J : option iptr) v t a (o : Out) w :
  operand_value b labels J v = Some t → 0 <= w <= 64 →
  ∃ x, int_value b v J a labels o = Some x ∧ wrapu w x = wrapu w t.
Proof.
  unfold operand_value, int_value. destruct v as [l|z]; [|by intros [= ->]; eexists].
  intros E Hw. rewrite (lookup_resolve _ _ _ (here a o) _ E). cbn [mbind option_bind]. eexists. split; [done|].
  rewrite u_s64 by lia. destruct (wraps_eqm 64 (t - here a o)) as [k ->]; [lia|].
  replace (t - here a o + k * 2 ^ 64 + here a o) with (t + k * 2 ^ (64 - w) * 2 ^ w).
  - apply wrapu_eqm.
  - rewrite <- Z.mul_assoc, <- Z.pow_add_r by lia. replace (64 - w + w) with 64 by lia. lia.
Qed.

Lemma rel_value_ok labels (J : option iptr) v t a n (o : Out) :
  operand_value b labels J v = Some t →
  rel_value b v J a n labels o = Some (s64 (t - (here a o + n))).
Proof.
  unfold operand_value, rel_value. destruct v as [l|z].
  - intros E. rewrite (lookup_resolve _ _ _ (here a o) _ E). cbn [mbind option_bind]. by rewrite s64_sub.
  - intros [= ->]. cbn [mbind option_bind]. by rewrite s64_sub.
Qed.

(** *** Items *)

Definition emits (a : Z) (out c : bytes) (o : Out) (r : option Out) : Prop :=
  ∃ o', r = Some o' ∧ holds (o_buf o') (out ++ c) ∧ b_max (o_buf o') = b_max (o_buf o).

Lemma emit_push x a out (o : Out) : holds (o_buf o) out → blen out + 1 < 2 ^ 32 →
  emits a out [x] o (emit (push x) o).
Proof.
  intros Hh Ho. destruct (push_holds (o_buf o) out x Hh Ho) as (b1 & E & Hh1 & Em).
  exists (set_o_buf b1 o). unfold emit. by rewrite E.
Qed.

Lemma emit_all l a out (o : Out) : holds (o_buf o) out → blen out + blen l < 2 ^ 32 →
  emits a out l o (emit (push_all l) o).
Proof.
  intros Hh Ho. destruct (push_all_holds l (o_buf o) out Hh Ho) as (b1 & E & Hh1 & Em).
  exists (set_o_buf b1 o). unfold emit. by rewrite E.
Qed.

Lemma emit_bytes d n a out (o : Out) : holds (o_buf o) out → 0 <= n <= blen d → blen out + n < 2 ^ 32 →
  emits a out (take (Z.to_nat n) d) o (emit (push_bytes d n) o).
Proof.
  intros Hh Hn Ho. destruct (push_bytes_holds (o_buf o) out d n Hh Hn Ho) as (b1 & E & Hh1 & Em).
  exists (set_o_buf b1 o). unfold emit. by rewrite E.
Qed.

(** All of the bytes. *)
Lemma emit_bytes_all d n a out (o : Out) : holds (o_buf o) out → n = blen d → blen out + n < 2 ^ 32 →
  emits a out d o (emit (push_bytes d n) o).
Proof.
  intros Hh -> Ho. pose proof (blen_nonneg d). pose proof (emit_bytes d (blen d) a out o Hh) as He.
  rewrite take_blen_ge in He by lia. apply He; lia.
Qed.

Lemma emit_moved j a out c (o : Out) :
  moved_code b j (a + blen out) = Some c → near_ok (a + blen out) →
  holds (o_buf o) out → blen out + 100 < 2 ^ 31 → blen out + blen c <= b_max (o_buf o) →
  ∃ o', relocate opts b j (here a o) (Some (o_buf o)) = Some (blen c, o') ∧ holds o' (out ++ c) ∧
        b_max o' = b_max (o_buf o).
Proof. intros Ec Ha Hh Ho Hr. rewrite (here_holds a o out) by (done || lia). by apply moved_emit. Qed.

Lemma emit_break_ok breaks (J : option iptr) a ft opt c out (o : Out) :
  break_code b breaks J (a + blen out) ft opt = Some c → near_ok (a + blen out) → near_ok (a + blen out + blen c) →
  holds (o_buf o) out → blen out + blen c + 100 < 2 ^ 31 → blen out + blen c <= b_max (o_buf o) →
  emits a out c o (emit_break opts a breaks b J ft opt o).
Proof.
  intros Ec Ha Ha' Hh Ho Hr. unfold emit_break. pose proof (blen_nonneg c). rewrite (here_holds a o out) by (done || lia).
  destruct (break_emit breaks J _ ft opt c out o Ec Ha Ha' Hh Ho Hr) as (o' & E & Hh' & Em). rewrite E.
  cbn [mbind option_bind]. by exists o'.
Qed.

Lemma le_len n z : blen (le_bytes n z) = Z.of_nat n.
Proof. apply le_bytes_blen. Qed.

(** Emitting an entry, at the address of the item. *)
Lemma entry_emit breaks labels e (J : option iptr) last fin a out c (o : Out) :
  item_code b breaks labels (a + blen out) (Data e J last fin) = Some c →
  near_ok (a + blen out) → near_ok (a + blen out + blen c) →
  holds (o_buf o) out → blen out + blen c + 100 < 2 ^ 31 → blen out + blen c <= b_max (o_buf o) →
  emits a out c o (build_entry opts a breaks labels b e J last fin o).
Proof.
  intros Ec Ha Ha' Hh Ho Hr. pose proof (blen_nonneg c). pose proof (blen_nonneg out).
  pose proof (here_holds a o out Hh ltac:(lia) Ha) as Ehere.
  assert (Hnil : c = [] → emits a out c o (Some o)). { intros ->. exists o. by rewrite app_nil_r. }
  assert (Hint : ∀ v n k, k = 8 * Z.of_nat n → 0 <= k <= 64 →
    (t ← operand_value b labels J v; Some (le_bytes n (wrapu k t))) = Some c →
    emits a out c o (val ← int_value b v J a labels o; emit (push_bytes (le_bytes n (wrapu k val)) (Z.of_nat n)) o)).
  { intros v n k Hk Hk2. destruct (operand_value b labels J v) as [t|] eqn:Et; [|done]. intros [= <-].
    destruct (int_value_ok labels J v t a o k Et Hk2) as (x & -> & Ex). cbn [mbind option_bind]. rewrite Ex.
    apply emit_bytes_all; [done|by rewrite le_len|rewrite le_len in *; lia]. }
  destruct e; cbn [item_code build_entry] in *.
  - destruct (debug_len b J) as [n|]; [|done]. cbn [mbind option_bind] in *. destruct (_ =? 0) in Ec; [|done].
    destruct (n =? 0); [injection Ec as <-; by apply Hnil|]. injection Ec as <-. apply emit_push; [done|lia].
  - injection Ec as <-. apply emit_bytes_all; [done|done|lia].
  - destruct (length <? 0); [done|]. injection Ec as <-. apply emit_all; [done|lia].
  - injection Ec as <-. by apply Hnil.
  - done.
  - destruct (operand_value b labels J v) as [t|] eqn:Et; [|done]. cbn [mbind option_bind] in Ec.
    rewrite (rel_value_ok _ _ _ _ _ _ _ Et), Ehere. cbn [mbind option_bind].
    destruct (between _ _ _); [|done]. injection Ec as <-. cbn [assert_ mbind option_bind]. apply emit_push; [done|lia].
  - destruct (operand_value b labels J v) as [t|] eqn:Et; [|done]. cbn [mbind option_bind] in Ec.
    rewrite (rel_value_ok _ _ _ _ _ _ _ Et), Ehere. cbn [mbind option_bind].
    destruct (is_imm32 _); [|done]. injection Ec as <-. cbn [assert_ mbind option_bind].
    apply emit_bytes_all; [done|by rewrite imm32_len|lia].
  - destruct (operand_value b labels J v) as [t|] eqn:Et; [|done]. injection Ec as <-.
    destruct (int_value_ok labels J v t a o 8 Et ltac:(lia)) as (x & -> & Ex). cbn [mbind option_bind]. rewrite Ex.
    apply emit_push; [done|lia].
  - apply (Hint v 2%nat 16); [done|lia|exact Ec].
  - apply (Hint v 4%nat 32); [done|lia|exact Ec].
  - apply (Hint v 8%nat 64); [done|lia|exact Ec].
  - destruct J as [j|]; [|done]. cbn [mbind option_bind] in *.
    destruct (emit_moved j a out c o Ec Ha Hh) as (b1 & E & Hh1 & Em); [lia|done|]. rewrite E. cbn [mbind option_bind].
    by exists (set_o_buf b1 o).
  - destruct J as [j|]; [|done]. cbn [mbind option_bind] in *. destruct (instr b j) as [x|] eqn:Ex; [|done].
    cbn [mbind option_bind] in *. pose proof (rdn_len _ _ _ _ Ec) as El.
    pose proof (orig_len j x Ex). destruct (co_instr b CO j x Ex) as (Hs & _).
    assert (Et : c = take (Z.to_nat (i_size x)) (ORIG b x)).
    { unfold rdn in Ec. destruct (_ && _); [|done]. injection Ec as <-. by rewrite drop_0. }
    rewrite Et. apply emit_bytes; [done|lia|lia].
  - by apply emit_break_ok.
  - destruct J as [j|]; [|done]. cbn [mbind option_bind] in *. destruct (instr b j) as [x|] eqn:Ex; [|done].
    cbn [mbind option_bind] in *. destruct (getCFTTarget _ _ _ _) as [t|]; [|done]. cbn [mbind option_bind] in *.
    destruct (t =? INTPTR_MIN); [done|]. cbn [negb assert_ mbind option_bind].
    rewrite Ehere. destruct (jump_code_len _ _ _ Ec) as [El _]. unfold jump_code in Ec.
    destruct (is_imm32 _) eqn:Ei; [|done]. injection Ec as <-.
    destruct (emit_push 0xe9 a out o Hh ltac:(lia)) as (o1 & E1 & Hh1 & Em1). rewrite E1. cbn [assert_ mbind option_bind].
    destruct (emit_bytes_all (imm32 (s64 (t - (a + blen out + 5)))) 4 a (out ++ [0xe9]) o1 Hh1) as (o2 & E2 & Hh2 & Em2);
      [by rewrite imm32_len|rewrite blen_app; change (blen [0xe9]) with 1; lia|].
    exists o2. rewrite <- app_assoc in Hh2. split_and!; [done|done|congruence].
  - done.
Qed.

(** The label pass computes the length of the code of each item. *)
Lemma item_measure breaks labels a it c :
  item_code b breaks labels a it = Some c → near_ok a → near_ok (a + blen c) → blen c < 2 ^ 31 →
  item_len b a it = Some (blen c).
Proof.
  intros Ec Ha Ha' Hc. pose proof (blen_nonneg c) as H0. unfold near_ok in *.
  assert (Hop : ∀ (J : option iptr) v f n, (∀ t, blen (f t) = n) →
    (t ← operand_value b labels J v; Some (f t)) = Some c → Some n = Some (blen c)).
  { intros J v f n Hf. destruct (operand_value b labels J v) as [t|]; [|done]. intros [= <-]. by rewrite Hf. }
  assert (Hrel : ∀ (J : option iptr) v (P : Z → bool) f n, (∀ t, blen (f t) = n) →
    (t ← operand_value b labels J v; if P t then Some (f t) else None) = Some c → Some n = Some (blen c)).
  { intros J v P f n Hf. destruct (operand_value b labels J v) as [t|]; [|done]. cbn [mbind option_bind].
    destruct (P t); [|done]. intros [= <-]. by rewrite Hf. }
  destruct it as [e J last fin|j|x|J]; cbn [item_code item_len] in *.
  2: { by destruct (moved_len j a c Ec Ha) as (-> & _). }
  2: { by injection Ec as <-. }
  2: { by apply (break_measure breaks J a 0 false true c Ec Ha Ha' ltac:(lia) ltac:(lia) Hc). }
  destruct e.
  - destruct (debug_len b J) as [n|] eqn:En; [|done]. cbn [mbind option_bind] in *.
    destruct (Z.eqb_spec length 0) as [->|]; [|done]. rewrite Z.add_0_r. unfold debug_len in En.
    destruct J as [j|]; [|by injection En as <-; injection Ec as <-]. destruct (instr b j) as [x|]; [|done].
    cbn [mbind option_bind] in En. injection En as <-. by destruct (i_debug x); injection Ec as <-.
  - by injection Ec as <-.
  - destruct (Z.ltb_spec length 0); [done|]. injection Ec as <-. f_equal. unfold blen. rewrite repeat_length. lia.
  - by injection Ec as <-.
  - done.
  - eapply (Hrel J v _ (λ t, [u8 (s64 (t - (a + 1)))]) 1); [done|exact Ec].
  - eapply (Hrel J v _ (λ t, imm32 (s64 (t - (a + 4)))) 4); [intros; apply imm32_len|exact Ec].
  - eapply (Hop J v (λ t, [u8 t]) 1); [done|exact Ec].
  - eapply (Hop J v (λ t, le_bytes 2 (u16 t)) 2); [intros; apply le_len|exact Ec].
  - eapply (Hop J v (λ t, le_bytes 4 (u32 t)) 4); [intros; apply le_len|exact Ec].
  - eapply (Hop J v (λ t, le_bytes 8 (u64 t)) 8); [intros; apply le_len|exact Ec].
  - destruct J as [j|]; [|done]. cbn [mbind option_bind] in *. by destruct (moved_len j a c Ec Ha) as (-> & _).
  - destruct J as [j|]; [|done]. cbn [mbind option_bind] in *. destruct (instr b j) as [x|]; [|done].
    cbn [mbind option_bind] in *. by rewrite (rdn_len _ _ _ _ Ec).
  - by apply (break_measure breaks J a a _ _ c Ec Ha Ha' ltac:(lia) ltac:(lia) Hc).
  - destruct J as [j|]; [|done]. cbn [mbind option_bind] in *. destruct (instr b j) as [x|]; [|done].
    cbn [mbind option_bind] in *. destruct (getCFTTarget _ _ _ _) as [t|]; [|done]. cbn [mbind option_bind] in *.
    destruct (t =? INTPTR_MIN); [done|]. by destruct (jump_code_len _ _ _ Ec) as [-> _].
  - done.
Qed.

(** ** The label pass *)

Lemma layout_app l1 : ∀ l2 a breaks labels,
  layout b a (l1 ++ l2) breaks labels =
  ('(a, breaks, labels) ← layout b a l1 breaks labels; layout b a l2 breaks labels).
Proof.
  induction l1 as [|it l1 IH]; intros l2 a breaks labels; [done|]. cbn [app layout].
  destruct (define_label b a it labels) as [lb|]; [|done]. cbn [mbind option_bind].
  destruct (item_len b a it) as [n|]; [|done]. cbn [mbind option_bind]. apply IH.
Qed.

Definition in_s64 (a : Z) : Prop := s64 a = a.

Lemma s64_in x : in_s64 (s64 x).
Proof. apply wraps_small; [lia|]. pose proof (wraps_range 64 x). lia. Qed.

Lemma layout_in_s64 l : ∀ a breaks labels r, in_s64 a →
  layout b a l breaks labels = Some r → in_s64 r.1.1.
Proof.
  induction l as [|it l IH]; intros a breaks labels r Ha; cbn [layout]; [by intros [= <-]|].
  destruct (define_label b a it labels) as [lb|]; [|done]. cbn [mbind option_bind].
  destruct (item_len b a it) as [n|]; [|done]. cbn [mbind option_bind]. apply IH, s64_in.
Qed.

(** The pass over a nested template is the layout of its listing. *)
Definition lays_out (rec : ptr → option iptr → Z → bool → BreakInfo → LabelSet → option (Z * BreakInfo * LabelSet))
    (ex : ptr → option iptr → bool → option (list item)) : Prop :=
  ∀ U J a last breaks labels l, ex U J last = Some l → in_s64 a →
    rec U J a last breaks labels = layout b a l breaks labels.

Lemma labels_batch_ok rec ex end_ : lays_out rec ex → ∀ fuel a breaks labels J J1 l J2,
  expand_batch ex fuel b end_ J J1 = Some (l, J2) → in_s64 a →
  ∃ J3, labels_batch opts rec fuel b end_ a breaks labels J J1 =
    ('(a, breaks, labels) ← layout b a l breaks labels; Some (a, breaks, labels, J2, J3)).
Proof.
  intros Hrec. induction fuel as [|fuel IH]; intros a breaks labels J J1 l J2; cbn [expand_batch labels_batch].
  all: destruct (in_batch b J1 end_) as [[[j x]|]|]; [| |done]; cbn [mbind option_bind].
  1: done.
  1,3: by intros [= <- <-]; exists J1.
  intros E Ha.
  set (it := match i_T x with Some T => ex T J1 (i_addr x =? end_) | None => Some [Moved j] end) in E.
  destruct it as [l1|] eqn:E1; [|done]. cbn [mbind option_bind] in E.
  destruct (expand_batch ex fuel b end_ J1 (next b j)) as [[l2 J3]|] eqn:E2; [|done]. injection E as <- <-.
  assert (Hstep : match i_T x with
    | Some T => rec T J1 a (i_addr x =? end_) breaks labels
    | None => r ← relocate_len opts b j a; Some (s64 (a + r), breaks, labels) end =
    layout b a l1 breaks labels).
  { subst it. destruct (i_T x) as [T|]; [by apply Hrec|]. injection E1 as <-. cbn [layout define_label item_len define_break mbind option_bind].
    by destruct (relocate_len opts b j a). }
  rewrite Hstep, layout_app.
  destruct (layout b a l1 breaks labels) as [[[a1 br1] lb1]|] eqn:E3; cbn [mbind option_bind].
  2: { exists None. done. }
  pose proof (layout_in_s64 _ _ _ _ _ Ha E3) as Ha1. cbn in Ha1.
  rewrite layout_app.
  assert (Hmark : layout b a1 (if i_addr x =? end_ then [] else [Mark (i_addr x)]) br1 lb1 =
    Some (a1, if i_addr x =? end_ then br1 else map_insert (i_addr x) a1 br1, lb1)).
  { destruct (i_addr x =? end_); [done|]. cbn [layout define_label item_len define_break mbind option_bind]. by rewrite Z.add_0_r, Ha1. }
  rewrite Hmark. cbn [mbind option_bind].
  eapply IH; [exact E2|exact Ha1].
Qed.

Lemma labels_entries_ok rec ex : lays_out rec ex → ∀ es J a last breaks labels l,
  expand_entries ex b es J last = Some l → in_s64 a →
  labels_entries opts rec b es J a last breaks labels = layout b a l breaks labels.
Proof.
  intros Hrec. induction es as [|e es IH]; intros J a last breaks labels l; cbn [expand_entries labels_entries].
  { by intros [= <-]. }
  assert (Hplain : (l ← expand_entries ex b es J last; Some (Data e J last (bool_decide (es = [])) :: l)) = Some l →
    define_label b a (Data e J last (bool_decide (es = []))) labels = Some labels →
    in_s64 a →
    (n ← item_len b a (Data e J last (bool_decide (es = [])));
     labels_entries opts rec b es J (s64 (a + n)) last breaks labels) = layout b a l breaks labels).
  { intros E Hd Ha. destruct (expand_entries ex b es J last) as [l1|] eqn:E1; [|done]. injection E as <-.
    cbn [layout]. rewrite Hd. cbn [mbind option_bind].
    destruct (item_len _ _ _) as [n|]; [|done]. cbn [mbind option_bind define_break]. eapply IH; [done|apply s64_in]. }
  destruct e; intros E Ha; try (specialize (Hplain E ltac:(done) Ha); cbn [item_len mbind option_bind] in Hplain);
    try exact Hplain.
  all: try (destruct J as [j|]; [|exact Hplain]; cbn [mbind option_bind] in Hplain |- *; try exact Hplain;
            destruct (instr b j) as [x|]; exact Hplain).
  - destruct (debug_len b J); exact Hplain.
  - destruct (expand_entries ex b es J last) as [l1|] eqn:E1; [|done]. injection E as <-.
    cbn [layout define_label item_len define_break]. destruct J as [j|]; [|done]. cbn [mbind option_bind].
    destruct (instr b j) as [x|]; [|done]. cbn [mbind option_bind].
    destruct (labels !! (i_addr x, label)); [done|]. cbn [mbind option_bind]. rewrite Z.add_0_r, Ha. by apply IH.
  - destruct (macro_of b J macro) as [U|]; [|done]. cbn [mbind option_bind] in *.
    destruct (ex U J last) as [l1|] eqn:E1; [|done]. cbn [mbind option_bind] in E.
    destruct (expand_entries ex b es J last) as [l2|] eqn:E2; [|done]. injection E as <-.
    rewrite (Hrec U J a last breaks labels l1 E1 Ha), layout_app.
    destruct (layout b a l1 breaks labels) as [[[a1 br1] lb1]|] eqn:E3; [|done]. cbn [mbind option_bind].
    eapply IH; [done|]. by apply (layout_in_s64 _ _ _ _ _ Ha E3).
  - destruct es as [|? ?]; [|done].
    destruct (expand_batch ex (num_instrs b) b last0 None J) as [[l1 J1]|] eqn:E1; [|done]. cbn [mbind option_bind] in E.
    destruct (labels_batch_ok rec ex last0 Hrec (num_instrs b) a breaks labels None J l1 J1 E1 Ha) as (J3 & Eb).
    rewrite Eb. destruct (ends_bare b J1) as [bare|] eqn:Ebare; [|done]. injection E as <-. rewrite layout_app.
    destruct (layout b a l1 breaks labels) as [[[a1 br1] lb1]|] eqn:E3; [|done]. cbn [mbind option_bind].
    pose proof (layout_in_s64 _ _ _ _ _ Ha E3) as Ha1. cbn in Ha1.
    rewrite Ebare. destruct bare; cbn [layout define_label item_len define_break mbind option_bind].
    + by destruct (break_len opts b J1 0 false true).
    + by rewrite Z.add_0_r, Ha1.
Qed.

Lemma buildLabelSet_ok n : lays_out (buildLabelSet opts n b) (expand n b).
Proof.
  induction n as [|n IH]; intros U J a last breaks labels l; cbn [expand buildLabelSet]; [done|].
  destruct (B_Ts b !! U) as [t|]; [|done]. cbn [mbind option_bind]. by apply labels_entries_ok.
Qed.

(** ** The byte pass *)

Section Emit.
Context (a : Z) (breaks : BreakInfo) (labels : LabelSet).

Lemma assemble_app l1 : ∀ l2 x c, assemble b breaks labels x (l1 ++ l2) = Some c →
  ∃ c1 c2, assemble b breaks labels x l1 = Some c1 ∧
    assemble b breaks labels (x + blen c1) l2 = Some c2 ∧ c = c1 ++ c2.
Proof.
  induction l1 as [|it l1 IH]; intros l2 x c; cbn [app assemble].
  - intros E. exists [], c. by rewrite blen_nil, Z.add_0_r.
  - destruct (item_code b breaks labels x it) as [c0|]; [|done]. cbn [mbind option_bind].
    destruct (assemble b breaks labels (x + blen c0) (l1 ++ l2)) as [d|] eqn:E; [|done]. intros [= <-].
    destruct (IH l2 _ d E) as (c1 & c2 & E1 & E2 & ->). exists (c0 ++ c1), c2. rewrite E1. cbn [mbind option_bind].
    by rewrite blen_app, Z.add_assoc, app_assoc.
Qed.

(** The hypotheses under which [c] can be put after [out]. *)
Record fits (out c : bytes) (o : Out) : Prop := {
  fit_start : near_ok (a + blen out);
  fit_end : near_ok (a + blen out + blen c);
  fit_holds : holds (o_buf o) out;
  fit_small : blen out + blen c + 100 < 2 ^ 31;
  fit_room : blen out + blen c <= b_max (o_buf o) }.

Lemma fits_l out c1 c2 o : fits out (c1 ++ c2) o → fits out c1 o.
Proof.
  intros []. pose proof (blen_nonneg c1). pose proof (blen_nonneg c2). rewrite blen_app in *. unfold near_ok in *.
  split; try done; unfold near_ok; lia.
Qed.

Lemma fits_r out c1 c2 o o' : fits out (c1 ++ c2) o → holds (o_buf o') (out ++ c1) →
  b_max (o_buf o') = b_max (o_buf o) → fits (out ++ c1) c2 o'.
Proof.
  intros [] Hh Hm. pose proof (blen_nonneg c1). pose proof (blen_nonneg c2). rewrite blen_app in *. unfold near_ok in *.
  split; unfold near_ok; rewrite ?blen_app; (done || lia).
Qed.

(** The pass over a nested template emits the code of its listing. *)
Definition emits_all (rec : ptr → option iptr → bool → Out → option Out)
    (ex : ptr → option iptr → bool → option (list item)) : Prop :=
  ∀ U J last l out c o, ex U J last = Some l →
    assemble b breaks labels (a + blen out) l = Some c → fits out c o →
    emits a out c o (rec U J last o).

Lemma emits_then out c1 c2 (o : Out) r (k : Out → option Out) :
  emits a out c1 o r → fits out (c1 ++ c2) o →
  (∀ o', fits (out ++ c1) c2 o' → emits a (out ++ c1) c2 o' (k o')) →
  emits a out (c1 ++ c2) o (r ≫= k).
Proof.
  intros (o1 & -> & Hh & Hm) Hf Hk. cbn [mbind option_bind].
  destruct (Hk o1 (fits_r _ _ _ _ _ Hf Hh Hm)) as (o2 & -> & Hh2 & Hm2). exists o2.
  rewrite app_assoc. split_and!; [done|done|congruence].
Qed.

Lemma bytes_batch_ok rec ex end_ : emits_all rec ex → ∀ fuel J J1 l J2 out c o,
  expand_batch ex fuel b end_ J J1 = Some (l, J2) →
  assemble b breaks labels (a + blen out) l = Some c → fits out c o →
  ∃ o', bytes_batch opts rec a fuel b end_ J J1 o = Some (J2, o') ∧ holds (o_buf o') (out ++ c) ∧
        b_max (o_buf o') = b_max (o_buf o).
Proof.
  intros Hrec. induction fuel as [|fuel IH]; intros J J1 l J2 out c o; cbn [expand_batch bytes_batch].
  all: destruct (in_batch b J1 end_) as [[[j x]|]|]; [| |done]; cbn [mbind option_bind].
  1: done.
  1,3: by intros [= <- <-] [= <-] []; exists o; rewrite app_nil_r.
  intros E Ec Hf.
  set (it := match i_T x with Some T => ex T J1 (i_addr x =? end_) | None => Some [Moved j] end) in E.
  destruct it as [l1|] eqn:E1; [|done]. cbn [mbind option_bind] in E.
  destruct (expand_batch ex fuel b end_ J1 (next b j)) as [[l2 J3]|] eqn:E2; [|done]. injection E as <- <-.
  destruct (assemble_app _ _ _ _ Ec) as (c1 & c' & Ec1 & Ec' & ->).
  destruct (assemble_app _ _ _ _ Ec') as (c2 & c3 & Ec2 & Ec3 & ->).
  assert (c2 = []) as ->. { destruct (i_addr x =? end_); cbn [assemble item_code mbind option_bind] in Ec2; by injection Ec2 as <-. }
  rewrite blen_nil, Z.add_0_r in Ec3. cbn [app] in *.
  assert (Hstep : emits a out c1 o (match i_T x with
    | Some T => rec T J1 (i_addr x =? end_) o
    | None => '(r, buf) ← relocate opts b j (here a o) (Some (o_buf o)); _ ← assert_ (0 <=? r); Some (set_o_buf buf o) end)).
  { pose proof (fits_l _ _ _ _ Hf) as Hf1. subst it. destruct (i_T x) as [T|]; [by apply (Hrec _ _ _ l1)|].
    injection E1 as <-. cbn [assemble item_code] in Ec1. destruct (moved_code b j (a + blen out)) as [c0|] eqn:E0; [|done].
    cbn [mbind option_bind] in Ec1. injection Ec1 as <-. rewrite app_nil_r in *. destruct Hf1. pose proof (blen_nonneg c0).
    destruct (emit_moved j a out c0 o E0) as (b1 & Er & Hh1 & Hm1); [done|done|lia|done|]. rewrite Er.
    cbn [mbind option_bind]. rewrite (proj2 (Z.leb_le 0 (blen c0))) by lia. cbn [assert_ mbind option_bind]. by exists (set_o_buf b1 o). }
  destruct Hstep as (o1 & Hs & Hh1 & Hm1). rewrite Hs. cbn [mbind option_bind].
  destruct (IH J1 (next b j) l2 J3 (out ++ c1) c3 o1 E2) as (o2 & Eo & Hh2 & Hm2).
  { by rewrite blen_app, Z.add_assoc. }
  { by eapply fits_r. }
  exists o2. rewrite <- app_assoc in Hh2. split_and!; [done|done|congruence].
Qed.

Lemma bytes_entries_ok rec ex : emits_all rec ex → ∀ es J last l out c o,
  expand_entries ex b es J last = Some l →
  assemble b breaks labels (a + blen out) l = Some c → fits out c o →
  emits a out c o (bytes_entries opts rec a breaks labels b es J last o).
Proof.
  intros Hrec. induction es as [|e es IH]; intros J last l out c o; cbn [expand_entries bytes_entries].
  { intros [= <-] [= <-] []. exists o. by rewrite app_nil_r. }
  assert (Hplain : (l ← expand_entries ex b es J last; Some (Data e J last (bool_decide (es = [])) :: l)) = Some l →
    assemble b breaks labels (a + blen out) l = Some c → fits out c o →
    emits a out c o (o ← build_entry opts a breaks labels b e J last (bool_decide (es = [])) o;
                     bytes_entries opts rec a breaks labels b es J last o)).
  { intros E Ec Hf. destruct (expand_entries ex b es J last) as [l1|] eqn:E1; [|done]. injection E as <-.
    cbn [assemble] in Ec. destruct (item_code _ _ _ _ _) as [c1|] eqn:Ei; [|done]. cbn [mbind option_bind] in Ec.
    destruct (assemble b breaks labels (a + blen out + blen c1) l1) as [c2|] eqn:E2; [|done]. injection Ec as <-.
    eapply emits_then; [|exact Hf|].
    - destruct (fits_l _ _ _ _ Hf). by apply entry_emit.
    - intros o' Hf'. eapply IH; [done| |done]. by rewrite blen_app, Z.add_assoc. }
  destruct e; try exact Hplain; intros E Ec Hf.
  - destruct (macro_of b J macro) as [U|]; [|done]. cbn [mbind option_bind] in *.
    destruct (ex U J last) as [l1|] eqn:E1; [|done]. cbn [mbind option_bind] in E.
    destruct (expand_entries ex b es J last) as [l2|] eqn:E2; [|done]. injection E as <-.
    destruct (assemble_app _ _ _ _ Ec) as (c1 & c2 & Ec1 & Ec2 & ->).
    eapply emits_then; [|exact Hf|].
    + eapply Hrec; [done|done|by eapply fits_l].
    + intros o' Hf'. eapply IH; [done| |done]. by rewrite blen_app, Z.add_assoc.
  - destruct es as [|? ?]; [|done].
    destruct (expand_batch ex (num_instrs b) b last0 None J) as [[l1 J1]|] eqn:E1; [|done]. cbn [mbind option_bind] in E.
    destruct (ends_bare b J1) as [bare|] eqn:Ebare; [|done]. injection E as <-.
    destruct (assemble_app _ _ _ _ Ec) as (c1 & c2 & Ec1 & Ec2 & ->).
    destruct (bytes_batch_ok rec ex last0 Hrec _ _ _ _ _ out c1 o E1 Ec1 (fits_l _ _ _ _ Hf)) as (o1 & Eo & Hh1 & Hm1).
    rewrite Eo. cbn [mbind option_bind]. rewrite Ebare. pose proof (fits_r _ _ _ _ _ Hf Hh1 Hm1) as Hf1.
    destruct bare; cbn [assemble item_code mbind option_bind bytes_entries] in *.
    + destruct (break_code b breaks J1 (a + blen out + blen c1) false true) as [d|] eqn:Ed; [|done]. injection Ec2 as <-.
      rewrite app_nil_r in *. destruct Hf1 as [F1 F2 F3 F4 F5].
      destruct (emit_break_ok breaks J1 a false true d (out ++ c1) o1) as (o2 & E2 & Hh2 & Hm2); try done.
      { by rewrite blen_app, Z.add_assoc. }
      rewrite E2. exists o2. cbn [mbind option_bind]. rewrite <- app_assoc in Hh2. split_and!; [done|done|congruence].
    + injection Ec2 as <-. exists o1. rewrite app_nil_r. done.
Qed.

Lemma buildBytes_ok n : emits_all (buildBytes opts n b a breaks labels) (expand n b).
Proof.
  induction n as [|n IH]; intros U J last l out c o; cbn [expand buildBytes]; [done|].
  destruct (B_Ts b !! U) as [t|]; [|done]. cbn [mbind option_bind]. by apply bytes_entries_ok.
Qed.

End Emit.

End Asm.

End TrampolineAsm.
