(* ===== verification/E9TrampolineProps.v ===== *)
(** * E9TrampolineProps: what flattening a trampoline gives

    The size of a trampoline is the length of its code; flattening gives the code of the
    assembly listing, at the addresses of its layout; and a relative operand that names a
    label reaches it. *)

From stdpp Require Import gmap.
From S2P Require Import Prelude E9Patch E9Alloc E9AllocTree E9AllocApi E9X86 E9X86Sim E9Tactics E9Optimize E9Trampoline E9TrampolineSpec E9TrampolineAsm E9TacticsPatch.

Module TrampolineProps.
Import E9 E9Alloc AllocTree E9X86 X86Sim E9Tactics E9Optimize E9Trampoline TrampolineSpec TrampolineAsm TacticsPatch.

Section Props.
Context {S : Type} (opts : Options).
Implicit Types (b : Binary S) (j : iptr).

(** The listing, the layout and the code of the trampoline [T] for [I] at [addr]. *)
Record listing b (addr : Z) (T : ptr) (I : option iptr) (its : list item)
    (breaks : BreakInfo) (labels : LabelSet) (code : bytes) : Prop := {
  ls_expand : expand macro_fuel b T I true = Some its;
  ls_layout : ∃ e, layout opts b addr its ∅ ∅ = Some (e, breaks, labels);
  ls_code : assemble opts b breaks labels addr its = Some code }.

Context (b : Binary S) (CO : code_ok b).

(** ** Sizes *)

(** The code [c] at [a], where nothing wraps. *)
Definition placed (a : Z) (c : bytes) : Prop :=
  near_ok a ∧ near_ok (a + blen c) ∧ blen c + 100 < 2 ^ 31.

Lemma placed_app a c1 c2 : placed a (c1 ++ c2) → placed a c1 ∧ placed (a + blen c1) c2.
Proof.
  unfold placed, near_ok. rewrite blen_app. pose proof (blen_nonneg c1). pose proof (blen_nonneg c2). lia.
Qed.

Lemma break_size breaks (J : option iptr) a ft opt c :
  break_code opts b breaks J a ft opt = Some c → placed a c → break_len opts b J 0 ft opt = Some (blen c).
Proof.
  unfold placed, near_ok. intros E (H1 & H2 & H3). eapply break_measure; try done; unfold near_ok; lia.
Qed.

Section Size.
Context (breaks : BreakInfo) (labels : LabelSet).

(** The size of a nested template is the length of its code. *)
Definition sizes_all (rec : ptr → option iptr → bool → option Z)
    (ex : ptr → option iptr → bool → option (list item)) : Prop :=
  ∀ U J last l a c, ex U J last = Some l → assemble opts b breaks labels a l = Some c →
    placed a c → rec U J last = Some (blen c).

Lemma u32_sum x n : 0 <= x → 0 <= n → x + n < 2 ^ 31 → u32 (x + n) = x + n.
Proof. intros. apply wrapu_small. lia. Qed.

Lemma size_batch_ok rec ex end_ : sizes_all rec ex → ∀ fuel J J1 l J2 a c n,
  expand_batch ex fuel b end_ J J1 = Some (l, J2) →
  assemble opts b breaks labels a l = Some c → placed a c →
  0 <= n → n + blen c < 2 ^ 31 →
  ∃ J3, size_batch opts rec fuel b end_ n J J1 = Some (n + blen c, J2, J3).
Proof.
  intros Hrec. induction fuel as [|fuel IH]; intros J J1 l J2 a c n; cbn [expand_batch size_batch].
  all: destruct (in_batch b J1 end_) as [[[j x]|]|]; [| |done]; cbn [mbind option_bind].
  1: done.
  1,3: by intros [= <- <-] [= <-] _ _ _; exists J1; rewrite blen_nil, Z.add_0_r.
  intros E Ec Hp Hn Hb.
  set (it := match i_T x with Some T => ex T J1 (i_addr x =? end_) | None => Some [Moved j] end) in E.
  destruct it as [l1|] eqn:E1; [|done]. cbn [mbind option_bind] in E.
  destruct (expand_batch ex fuel b end_ J1 (next b j)) as [[l2 J3]|] eqn:E2; [|done]. injection E as <- <-.
  destruct (assemble_app opts b breaks labels _ _ _ _ Ec) as (c1 & c' & Ec1 & Ec' & ->).
  destruct (assemble_app opts b breaks labels _ _ _ _ Ec') as (c2 & c3 & Ec2 & Ec3 & ->).
  assert (c2 = []) as ->. { destruct (i_addr x =? end_); cbn [assemble item_code mbind option_bind] in Ec2; by injection Ec2 as <-. }
  rewrite blen_nil, Z.add_0_r in Ec3. cbn [app] in *.
  destruct (placed_app _ _ _ Hp) as [Hp1 Hp3].
  assert (Hstep : match i_T x with
    | Some T => rec T J1 (i_addr x =? end_)
    | None => relocate_len opts b j INTPTR_MIN end = Some (blen c1)).
  { subst it. destruct (i_T x) as [T|]; [by apply (Hrec _ _ _ l1 a)|].
    injection E1 as <-. cbn [assemble item_code] in Ec1. destruct (moved_code opts b j a) as [c0|] eqn:E0; [|done].
    cbn [mbind option_bind] in Ec1. injection Ec1 as <-. rewrite app_nil_r.
    by destruct (moved_len opts b CO j a c0 E0) as (_ & -> & _); [apply Hp1|]. }
  rewrite Hstep. cbn [mbind option_bind]. rewrite blen_app in *. pose proof (blen_nonneg c1). pose proof (blen_nonneg c3).
  destruct (Z.ltb_spec (blen c1) 0); [lia|]. rewrite u32_sum by lia.
  destruct (IH J1 (next b j) l2 J3 _ _ (n + blen c1) E2 Ec3 Hp3) as (J4 & ->); [lia|lia|].
  exists J4. by rewrite Z.add_assoc.
Qed.

(** The size pass measures items as the label pass does, but at no address. *)
Lemma item_size e (J : option iptr) last fin a c :
  item_code opts b breaks labels a (Data e J last fin) = Some c → placed a c →
  match e with ENTRY_DEBUG _ => debug_len b J
  | ENTRY_INSTR => j ← J; relocate_len opts b j INTPTR_MIN
  | ENTRY_BREAK opt => break_len opts b J 0 (negb last && fin) (last && opt)
  | _ => item_len opts b a (Data e J last fin) end = Some (blen c).
Proof.
  intros Ec Hp. pose proof Hp as (H1 & H2 & H3).
  pose proof (item_measure opts b CO breaks labels a _ c Ec H1 H2 ltac:(lia)) as Hm.
  destruct e; cbn [item_code item_len] in *;
    try (lazymatch goal with
         | |- context [relocate_len] => fail | |- context [break_len] => fail | |- debug_len _ _ = _ => fail
         | _ => exact Hm end).
  - destruct (debug_len b J) as [n|]; [|done]. cbn [mbind option_bind] in *.
    destruct (Z.eqb_spec length 0) as [->|]; [|done]. by rewrite Z.add_0_r in Hm.
  - clear Hm. destruct J as [j|]; [|discriminate Ec]. cbn [mbind option_bind] in *.
    exact (proj1 (proj2 (moved_len opts b CO j a c Ec H1))).
  - exact (break_size _ _ _ _ _ _ Ec Hp).
Qed.

Lemma size_entries_ok rec ex : sizes_all rec ex → ∀ es J last l a c n,
  expand_entries ex b es J last = Some l →
  assemble opts b breaks labels a l = Some c → placed a c → 0 <= n → n + blen c < 2 ^ 31 →
  size_entries opts rec b es J last n = Some (n + blen c).
Proof.
  intros Hrec. induction es as [|e es IH]; intros J last l a c n; cbn [expand_entries size_entries].
  { intros [= <-] [= <-] _ _ _. by rewrite blen_nil, Z.add_0_r. }
  assert (Hplain : (l ← expand_entries ex b es J last; Some (Data e J last (bool_decide (es = [])) :: l)) = Some l →
    assemble opts b breaks labels a l = Some c → placed a c → 0 <= n → n + blen c < 2 ^ 31 →
    (m ← match e with ENTRY_DEBUG _ => debug_len b J
         | ENTRY_INSTR => j ← J; relocate_len opts b j INTPTR_MIN
         | ENTRY_BREAK opt => break_len opts b J 0 (negb last && bool_decide (es = [])) (last && opt)
         | _ => item_len opts b a (Data e J last (bool_decide (es = []))) end;
     size_entries opts rec b es J last (u32 (n + m))) = Some (n + blen c) ∧
    (∀ j r, e = ENTRY_INSTR → J = Some j → relocate_len opts b j INTPTR_MIN = Some r → (r <? 0) = false)).
  { intros E Ec Hp Hn Hb. destruct (expand_entries ex b es J last) as [l1|] eqn:E1; [|done]. injection E as <-.
    cbn [assemble] in Ec. destruct (item_code _ _ _ _ _ _) as [c1|] eqn:Ei; [|done]. cbn [mbind option_bind] in Ec.
    destruct (assemble opts b breaks labels (a + blen c1) l1) as [c2|] eqn:E2; [|done]. injection Ec as <-.
    destruct (placed_app _ _ _ Hp) as [Hp1 Hp2]. pose proof (blen_nonneg c1). pose proof (blen_nonneg c2).
    pose proof (item_size e J last _ a c1 Ei Hp1) as Hs. rewrite blen_app in *. split.
    - rewrite Hs. cbn [mbind option_bind]. rewrite u32_sum by lia.
      rewrite (IH J last l1 _ c2 (n + blen c1) E1 E2 Hp2) by lia. f_equal. lia.
    - intros j r -> -> Er. cbn [mbind option_bind] in Hs. rewrite Er in Hs. injection Hs as ->. apply Z.ltb_ge. lia. }
  destruct e; intros E Ec Hp Hn Hb; try (destruct (Hplain E Ec Hp Hn Hb) as [Hgo Hneg]; cbn [item_len mbind option_bind] in Hgo);
    try exact Hgo.
  - rewrite Z.add_0_r in Hgo. pose proof (blen_nonneg c). by rewrite (wrapu_small 32 n) in Hgo by lia.
  - destruct (macro_of b J macro) as [U|]; [|done]. cbn [mbind option_bind] in *.
    destruct (ex U J last) as [l1|] eqn:E1; [|done]. cbn [mbind option_bind] in E.
    destruct (expand_entries ex b es J last) as [l2|] eqn:E2; [|done]. injection E as <-.
    destruct (assemble_app opts b breaks labels _ _ _ _ Ec) as (c1 & c2 & Ec1 & Ec2 & ->).
    destruct (placed_app _ _ _ Hp) as [Hp1 Hp2]. pose proof (blen_nonneg c1). pose proof (blen_nonneg c2).
    rewrite (Hrec U J last l1 a c1 E1 Ec1 Hp1). cbn [mbind option_bind]. rewrite blen_app in *. rewrite u32_sum by lia.
    rewrite (IH J last l2 _ c2 (n + blen c1) E2 Ec2 Hp2) by lia. f_equal. lia.
  - destruct J as [j|]; [|done]. cbn [mbind option_bind] in *.
    destruct (relocate_len opts b j INTPTR_MIN) as [r|] eqn:Er; [|done]. cbn [mbind option_bind] in *. by rewrite (Hneg j r).
  - destruct J as [j|]; [|done]. cbn [mbind option_bind] in *. by destruct (instr b j).
  - destruct es as [|? ?]; [|done].
    destruct (expand_batch ex (num_instrs b) b last0 None J) as [[l1 J1]|] eqn:E1; [|done]. cbn [mbind option_bind] in E.
    destruct (ends_bare b J1) as [bare|] eqn:Ebare; [|done]. injection E as <-.
    destruct (assemble_app opts b breaks labels _ _ _ _ Ec) as (c1 & c2 & Ec1 & Ec2 & ->).
    destruct (placed_app _ _ _ Hp) as [Hp1 Hp2]. pose proof (blen_nonneg c1). pose proof (blen_nonneg c2). rewrite blen_app in *.
    destruct (size_batch_ok rec ex last0 Hrec (num_instrs b) None J l1 J1 a c1 n E1 Ec1 Hp1) as (J3 & Eb); [lia|lia|].
    rewrite Eb. cbn [mbind option_bind]. destruct (Z.ltb_spec (n + blen c1) 0); [lia|]. rewrite Ebare.
    destruct bare; cbn [assemble item_code mbind option_bind size_entries] in *.
    + destruct (break_code _ _ _ _ _ _ _) as [d|] eqn:Ed in Ec2; [|done]. injection Ec2 as <-. rewrite app_nil_r in *.
      rewrite (break_size _ _ _ _ _ _ Ed Hp2). cbn [mbind option_bind]. rewrite u32_sum by lia. f_equal. lia.
    + injection Ec2 as <-. rewrite blen_nil in *. rewrite !Z.add_0_r. by rewrite (wrapu_small 32) by lia.
Qed.

Lemma tramp_size_ok n : sizes_all (tramp_size opts n b) (expand n b).
Proof.
  induction n as [|n IH]; intros U J last l a c; cbn [expand tramp_size]; [done|].
  destruct (B_Ts b !! U) as [t|]; [|done]. cbn [mbind option_bind]. intros E Ec Hp. pose proof Hp as (_ & _ & H3).
  pose proof (blen_nonneg c). rewrite (size_entries_ok _ _ IH _ _ _ _ _ _ 0 E Ec Hp) by lia.
  cbn [mbind option_bind]. rewrite Z.add_0_l, s32_small by lia. done.
Qed.

End Size.

(** ** Layouts *)

Lemma layout_end l breaks labels : ∀ a br lb e br' lb' c,
  layout opts b a l br lb = Some (e, br', lb') → assemble opts b breaks labels a l = Some c →
  placed a c → e = a + blen c.
Proof.
  induction l as [|it l IH]; intros a br lb e br' lb' c; cbn [layout assemble].
  { intros [= <- _ _] [= <-] _. by rewrite blen_nil, Z.add_0_r. }
  destruct (define_label _ _ _ _) as [lb1|]; [|done]. cbn [mbind option_bind]. intros El Ec Hp.
  destruct (item_code _ _ _ _ _ _) as [c1|] eqn:Ei; [|done]. cbn [mbind option_bind] in Ec.
  destruct (assemble _ _ _ _ _ _) as [c2|] eqn:E2 in Ec; [|done]. injection Ec as <-.
  destruct (placed_app _ _ _ Hp) as [Hp1 Hp2]. pose proof Hp1 as (H1 & H2 & H3).
  rewrite (item_measure opts b CO _ _ _ _ _ Ei H1 H2) in El by lia. cbn [mbind option_bind] in El.
  unfold near_ok in H2. rewrite wraps_small in El by lia.
  rewrite (IH _ _ _ _ _ _ _ El E2 Hp2), blen_app. lia.
Qed.

(** A label that is defined keeps its address. *)
Lemma layout_keeps l k t : ∀ a br lb e br' lb',
  layout opts b a l br lb = Some (e, br', lb') → lb !! k = Some t → lb' !! k = Some t.
Proof.
  induction l as [|it l IH]; intros a br lb e br' lb'; cbn [layout]; [by intros [= _ _ <-]|].
  destruct (define_label b a it lb) as [lb1|] eqn:Ed; [|done]. cbn [mbind option_bind].
  destruct (item_len _ _ _ _) as [n|]; [|done]. cbn [mbind option_bind]. intros El Hk.
  eapply IH; [exact El|]. revert Ed. destruct it as [ [] J ? ?| | |]; cbn [define_label]; try by intros [= <-].
  destruct J as [j|]; [|done]. cbn [mbind option_bind]. destruct (instr b j) as [x|]; [|done]. cbn [mbind option_bind].
  destruct (lb !! (i_addr x, label)) eqn:Ek; [done|]. intros [= <-].
  rewrite lookup_insert_ne; [done|]. intros Heq. rewrite Heq in Ek. congruence.
Qed.

(** The address of a label is where it stands in the listing. *)
Lemma layout_label l1 l2 label j x last fin a br lb e br' lb' breaks labels c1 :
  layout opts b a (l1 ++ Data (ENTRY_LABEL label) (Some j) last fin :: l2) br lb = Some (e, br', lb') →
  instr b j = Some x → assemble opts b breaks labels a l1 = Some c1 → placed a c1 →
  lb' !! (i_addr x, label) = Some (a + blen c1).
Proof.
  rewrite layout_app. destruct (layout opts b a l1 br lb) as [[[a1 br1] lb1]|] eqn:E1; [|done].
  cbn [mbind option_bind layout define_label]. intros El Ex Ec Hp. rewrite Ex in El. cbn [mbind option_bind] in El.
  destruct (lb1 !! _); [done|]. cbn [mbind option_bind item_len] in El.
  rewrite <- (layout_end _ _ _ _ _ _ _ _ _ _ E1 Ec Hp).
  eapply layout_keeps; [exact El|]. by rewrite lookup_insert_eq.
Qed.

(** ** Flattening *)

Lemma push_fill_holds buf out x n :
  holds buf out → 0 <= n → blen out + n < 2 ^ 32 →
  ∃ buf', push_fill x n buf = Some buf' ∧ holds buf' (out ++ repeat x (Z.to_nat n)) ∧ b_max buf' = b_max buf.
Proof.
  intros Hh Hn Hb. pose proof (blen_nonneg out). unfold push_fill. destruct (Hh) as (tail & E & Hd & Hm & Ei). rewrite E.
  assert (El : blen (repeat x (Z.to_nat n)) = n) by (unfold blen; rewrite repeat_length; lia).
  assert (Es : u32 (b_i buf + n) = blen (out ++ repeat x (Z.to_nat n))).
  { rewrite blen_app, El, Ei. apply wrapu_small. lia. }
  destruct (Z.ltb_spec (b_i buf) (b_max buf)) as [Hlt|Hge].
  - set (size := if b_max buf <? u32 (b_i buf + n) then u32 (b_max buf - b_i buf) else n).
    assert (Esize : size = Z.min n (b_max buf - blen out)).
    { unfold size. rewrite wrapu_small by lia. rewrite Ei in *. rewrite wrapu_small by (unfold UINT32_MAX in *; lia).
      destruct (Z.ltb_spec (b_max buf) (blen out + n)); lia. }
    destruct (holds_write buf out (repeat x (Z.to_nat n)) Hh Hlt) as (d & d' & E' & Ew & Hw).
    rewrite E in E'. injection E' as <-. rewrite El, <- Esize in Ew.
    assert (Er : take (Z.to_nat size) (repeat x (Z.to_nat n)) = repeat x (Z.to_nat size)).
    { rewrite Ei in Hlt. assert (Hs : (Z.to_nat size <= Z.to_nat n)%nat) by lia. clear -Hs.
      revert Hs. generalize (Z.to_nat n) as k. induction (Z.to_nat size) as [|m IH]; intros [|k] Hk; cbn; try done; [lia|]. f_equal. apply IH. lia. }
    rewrite Er in Ew. rewrite Ew. cbn [mbind option_bind]. eexists. split; [reflexivity|]. split; [|done]. by apply Hw.
  - cbn [mbind option_bind]. eexists. split; [reflexivity|]. rewrite <- E. split; [|done]. by apply holds_full.
Qed.

Lemma holds_all buf out : holds buf out → blen out = b_max buf → b_buf buf = Some out.
Proof.
  intros (tail & E & (_ & Hd) & _ & _) Hl. rewrite take_blen_ge in E, Hd by lia. rewrite blen_app in Hd.
  assert (tail = []) as ->. { unfold blen in *. destruct tail; [done|]. cbn [List.length] in Hd. lia. }
  by rewrite app_nil_r in E.
Qed.

(** What [flattenTrampoline] needs of its arguments. *)
Record flat_args (mem : bytes) (addr presize : Z) (code : bytes) : Prop := {
  fa_placed : placed addr code;
  fa_size : blen mem + 100 < 2 ^ 31;
  fa_pre : 0 <= presize;
  fa_room : presize + blen code <= blen mem }.

Lemma flatten_code Es mem fill addr offset32 entry32 T (J : option iptr) its br lb code pre js Es' :
  let presize := entry32 - offset32 in
  listing b addr T J its br lb code → flat_args mem addr presize code →
  flatten_prologue opts b Es (take (Z.to_nat presize) mem) fill addr presize J = Some (pre, js, Es') →
  ∃ js', flattenTrampoline opts b Es mem fill addr offset32 entry32 T J =
    Some (pre ++ code ++ repeat fill (Z.to_nat (blen mem - presize - blen code)), js', Es').
Proof.
  intros presize Ec [Hp Hm Hpre Hroom] Epre. pose proof Hp as (H1 & H2 & H3). pose proof (blen_nonneg code).
  destruct Ec as [Ee [e El] Ec].
  unfold flattenTrampoline. pose proof (layout_end _ _ _ _ _ _ _ _ _ _ El Ec Hp) as ->.
  unfold near_ok in *.
  rewrite (buildLabelSet_ok opts b macro_fuel T J addr true ∅ ∅ its Ee), El by (apply wraps_small; lia).
  cbn [mbind option_bind]. replace (addr + blen code - addr) with (blen code) by lia.
  rewrite (wrapu_small 64 (blen code)), (proj2 (Z.leb_le (blen code) (blen mem))) by lia. cbn [assert_ mbind option_bind].
  fold presize. rewrite (s32_small presize) by lia. unfold between. rewrite !(proj2 (Z.leb_le _ _)) by lia.
  cbn [andb assert_ mbind option_bind]. rewrite Epre.
  set (mem2 := drop (Z.to_nat presize) mem).
  assert (Em2 : blen mem2 = blen mem - presize) by (unfold mem2, blen in *; rewrite length_drop; lia).
  rewrite <- Em2.
  assert (Hfit : fits addr [] code (MkOut (MkBuffer 0 (blen mem2) (Some mem2)) [])).
  { split; cbn [o_buf b_max]; rewrite ?blen_nil, ?Z.add_0_r; try (done || lia); [by unfold near_ok..|].
    apply holds_empty; [done|unfold UINT32_MAX; lia]. }
  destruct (buildBytes_ok opts b CO addr br lb macro_fuel T J true its [] code (MkOut (MkBuffer 0 (blen mem2) (Some mem2)) []) Ee) as (o & Eo & Hh & Hmax);
    [by rewrite blen_nil, Z.add_0_r|exact Hfit|].
  rewrite Eo. cbn [mbind option_bind app o_buf b_max] in *.
  assert (Ei : b_i (o_buf o) = blen code) by (by destruct Hh as (? & _ & _ & _ & ?)).
  rewrite Ei, (proj2 (Z.leb_le (blen code) (blen mem2))) by lia. cbn [assert_ mbind option_bind].
  rewrite (wrapu_small 32 (blen mem2 - blen code)) by lia.
  destruct (push_fill_holds _ _ fill (blen mem2 - blen code) Hh) as (buf' & Eb & Hh' & Hmax'); [lia|lia|].
  rewrite Eb. cbn [mbind option_bind]. rewrite (holds_all _ _ Hh').
  2: { rewrite blen_app, Hmax', Hmax. unfold blen at 2. rewrite repeat_length. lia. }
  by eexists.
Qed.

Lemma flatten_no_prologue Es fill addr presize mem (J : option iptr) : presize <= 0 →
  flatten_prologue opts b Es (take (Z.to_nat presize) mem) fill addr presize J = Some ([], [], Es).
Proof.
  intros Hp. unfold flatten_prologue. destruct (Z.ltb_spec 0 presize); [lia|].
  by replace (Z.to_nat presize) with 0%nat by lia.
Qed.

(** An item of the listing, its position in the code, and its code. *)
Lemma listing_at addr T (J : option iptr) its br lb code l1 it l2 :
  listing b addr T J its br lb code → its = l1 ++ it :: l2 → placed addr code →
  ∃ c1 c c2, code = c1 ++ c ++ c2 ∧ assemble opts b br lb addr l1 = Some c1 ∧
    item_code opts b br lb (addr + blen c1) it = Some c ∧ placed addr c1 ∧ placed (addr + blen c1) c.
Proof.
  intros [_ _ Ec] -> Hp. destruct (assemble_app opts b br lb _ _ _ _ Ec) as (c1 & d & E1 & E2 & ->).
  cbn [assemble] in E2. destruct (item_code _ _ _ _ _ _) as [c|] eqn:Ei; [|done]. cbn [mbind option_bind] in E2.
  destruct (assemble _ _ _ _ _ _) as [c2|] in E2; [|done]. injection E2 as <-.
  destruct (placed_app _ _ _ Hp) as [Hp1 Hp2]. destruct (placed_app _ _ _ Hp2) as [Hp3 _].
  exists c1, c, c2. done.
Qed.

(** ** Breaks *)

Lemma layout_breaks l k : ∀ a br lb e br' lb', layout opts b a l br lb = Some (e, br', lb') →
  (∀ t, br !! k = Some t → br' !! k = Some t) ∧ (br !! k = None → Mark k ∉ l → br' !! k = None).
Proof.
  induction l as [|it l IH]; intros a br lb e br' lb'; cbn [layout]; [by intros [= _ <- _]|].
  destruct (define_label b a it lb) as [lb1|]; [|done]. cbn [mbind option_bind].
  destruct (item_len _ _ _ _) as [n|]; [|done]. cbn [mbind option_bind]. intros El.
  destruct (IH _ _ _ _ _ _ El) as [Hsome Hnone]. rewrite not_elem_of_cons. split.
  - intros t Hk. apply Hsome. destruct it as [| |x|]; cbn [define_break]; try done. unfold map_insert.
    destruct (br !! x) eqn:Ex; [done|]. rewrite lookup_insert_ne; [done|congruence].
  - intros Hk [Hit Hl]. apply Hnone; [|done]. destruct it as [| |x|]; cbn [define_break]; try done. unfold map_insert.
    destruct (br !! x) eqn:Ex; [done|]. rewrite lookup_insert_ne; [done|congruence].
Qed.

(** A marked end of an instruction of a batch is where its first mark stands. *)
Lemma layout_mark m1 m2 k a lb e br' lb' breaks labels c1 :
  layout opts b a (m1 ++ Mark k :: m2) ∅ lb = Some (e, br', lb') → Mark k ∉ m1 →
  assemble opts b breaks labels a m1 = Some c1 → placed a c1 → br' !! k = Some (a + blen c1).
Proof.
  rewrite layout_app. destruct (layout opts b a m1 ∅ lb) as [[[a1 br1] lb1]|] eqn:E1; [|done].
  cbn [mbind option_bind layout define_label item_len]. intros El Hk Ec Hp.
  rewrite <- (layout_end _ _ _ _ _ _ _ _ _ _ E1 Ec Hp).
  apply (proj1 (layout_breaks m2 k _ _ _ _ _ _ El)). cbn [define_break]. unfold map_insert.
  rewrite (proj2 (layout_breaks m1 k _ _ _ _ _ _ E1) (lookup_empty k) Hk). by rewrite lookup_insert_eq.
Qed.

#[export] Instance item_eq_dec : EqDecision item.
Proof. solve_decision. Defined.

(** Where control continues after the instruction at [x]: at the mark of its end in the
    listing, and without one at the next instruction of the program. *)
Definition continues_at addr its br lb (x : Instr) (t : Z) : Prop :=
  (∀ m1 m2, its = m1 ++ Mark (i_addr x) :: m2 → Mark (i_addr x) ∉ m1 →
    ∃ e1, assemble opts b br lb addr m1 = Some e1 ∧ t = addr + blen e1) ∧
  (Mark (i_addr x) ∉ its → t = s64 (i_addr x + i_size x)).

Lemma continuation_at addr T (J : option iptr) its br lb code j x :
  listing b addr T J its br lb code → placed addr code → instr b j = Some x →
  ∃ t, continuation b br (Some j) = Some t ∧ continues_at addr its br lb x t ∧ near_ok t.
Proof.
  intros Hl Hp Ex. unfold continuation. cbn [mbind option_bind]. rewrite Ex. cbn [mbind option_bind].
  destruct (ls_layout _ _ _ _ _ _ _ _ Hl) as [e El].
  set (t := match br !! i_addr x with Some t => t | None => _ end).
  assert (Hc : continues_at addr its br lb x t).
  2: { exists t. split_and!; [done..|]. destruct Hc as [Hm Hn]. destruct (decide (Mark (i_addr x) ∈ its)) as [Hin|Hin].
    - destruct (list_elem_of_split_l _ _ Hin) as (m1 & m2 & E & Hm1).
      destruct (Hm m1 m2 E Hm1) as (e1 & E1 & ->).
      destruct (listing_at _ _ _ _ _ _ _ _ _ _ Hl E Hp) as (c1 & _ & _ & _ & E1' & _ & (_ & Hp1 & _) & _). congruence.
    - rewrite (Hn Hin). destruct (co_instr b CO j x Ex) as (H1 & _ & _ & H2). unfold near_ok. rewrite wraps_small; lia. }
  unfold t. split.
  - intros m1 m2 E Hm. destruct (listing_at _ _ _ _ _ _ _ _ _ _ Hl E Hp) as (c1 & _ & _ & _ & E1 & _ & Hp1 & _).
    exists c1. split; [done|]. rewrite E in El. by rewrite (layout_mark _ _ _ _ _ _ _ _ _ _ _ El Hm E1 Hp1).
  - intros Hm. by rewrite (proj2 (layout_breaks its (i_addr x) _ _ _ _ _ _ El) (lookup_empty _) Hm).
Qed.

(** A jump, as the decoder reads it. *)
Lemma jump_code_target t a c : jump_code t a = Some c → near_ok a → in_s64 t → t ≠ INTPTR_MIN →
  blen c = 5 ∧ getCFTTarget a c 5 CFT_JMP = Some t.
Proof.
  unfold jump_code. destruct (is_imm32 _) eqn:Ei; [|done]. intros [= <-] Ha Ht Hmin.
  pose proof (imm32_len (s64 (t - (a + 5)))) as El. split; [unfold blen in *; cbn [List.length]; lia|].
  unfold getCFTTarget. pose proof (near_cft [0xe9] _ a _ near_jmp Ei) as E. cbn [app] in E.
  replace (blen (0xe9 :: imm32 (s64 (t - (a + 5))))) with 5 in E by (unfold blen in *; cbn [List.length]; lia).
  rewrite E. cbn [mbind option_bind target retarget]. change (blen [0xe9]) with 1.
  assert (Et : s64 (a + 1 + 4 + s64 (t - (a + 5))) = t).
  { transitivity (s64 t); [|exact Ht]. destruct (wraps_eqm 64 (t - (a + 5))) as [k ->]; [lia|].
    replace (a + 1 + 4 + (t - (a + 5) + k * 2 ^ 64)) with (t + k * 2 ^ 64) by lia. by apply wraps_add. }
  rewrite Et. destruct (Z.eqb_spec t INTPTR_MIN); [done|]. reflexivity.
Qed.

(** ** Properties *)

(** The output of [flattenTrampoline] is the prologue [pre], [code] and [fill]. *)
Definition flattens Es mem fill addr offset32 entry32 T (J : option iptr) (pre code : bytes) Es' : Prop :=
  ∃ js, flattenTrampoline opts b Es mem fill addr offset32 entry32 T J =
    Some (pre ++ code ++ repeat fill (Z.to_nat (blen mem - (entry32 - offset32) - blen code)), js, Es').

(** C15: flattening a trampoline gives its assembly.  Expand the macros and the batches of
    the template, lay the items out from the address of the entry, and assemble each item
    for its own address, with labels and breaks at the addresses of the layout: the memory
    of the trampoline then holds the prologue, this code and the filler.  None of the
    assertions and errors of the passes over the template is reached. *)
Theorem flatten_assembles Es mem fill addr offset32 entry32 T (J : option iptr) its br lb code pre js Es' :
  listing b addr T J its br lb code → flat_args mem addr (entry32 - offset32) code →
  flatten_prologue opts b Es (take (Z.to_nat (entry32 - offset32)) mem) fill addr (entry32 - offset32) J =
    Some (pre, js, Es') →
  flattens Es mem fill addr offset32 entry32 T J pre code Es'.
Proof. intros. by eapply flatten_code. Qed.




End Props.

(** ** A trampoline that calls a function behind it *)

(** [call .Lfn; mov $1,%eax; break; .Lfn: ret], for the [mov] of the sample program. *)
Definition call_template : list Entry :=
  [ENTRY_MACRO "$call"; ENTRY_INSTR; ENTRY_BREAK false; ENTRY_LABEL ".Lfn"; ENTRY_BYTES [0xc3]].

Definition call_binary : Binary Tree :=
  set_B_names (<["$call" := 3%positive]> ∅)
    (set_B_Ts (<[2%positive := MkTrampoline 16 false call_template]>
              (<[3%positive := MkTrampoline 5 false [ENTRY_BYTES [0xe8]; ENTRY_REL32 (OLabel ".Lfn")]]> ∅))
       sample).

Definition call_items : list item :=
  [Data (ENTRY_BYTES [0xe8]) (Some 1) true false; Data (ENTRY_REL32 (OLabel ".Lfn")) (Some 1) true true;
   Data ENTRY_INSTR (Some 1) true false; Data (ENTRY_BREAK false) (Some 1) true false;
   Data (ENTRY_LABEL ".Lfn") (Some 1) true false; Data (ENTRY_BYTES [0xc3]) (Some 1) true true].

Definition call_bytes : bytes :=
  [0xe8; 10; 0; 0; 0; 0xb8; 1; 0; 0; 0; 0xe9; 0xf6; 0x0f; 0xf0; 0xff; 0xc3].

Definition call_labels : LabelSet := <[(0x401000, ".Lfn"%string) := 0x50000f]> ∅.

Lemma sample_code_ok (b : Binary Tree) : B_Is b = B_Is sample → B_orig b = B_orig sample → code_ok b.
Proof.
  intros E1 E2. split; [|rewrite E2; by apply bytes_ok_check].
  intros j x. unfold instr. rewrite E1, E2. intros E. apply (sample_cases [5; 1] [0xb8; 1; 0; 0; 0; 0xc3]) in E.
  cbn in E. rewrite !elem_of_cons, elem_of_nil in E. destruct_or? E; try done; simplify_eq; vm_compute; intuition congruence.
Qed.

Lemma call_ok : code_ok call_binary.
Proof. by apply sample_code_ok. Qed.

Lemma call_listing : listing sample_options call_binary 0x500000 2%positive (Some 1) call_items ∅ call_labels call_bytes.
Proof. split; [vm_compute; reflexivity|eexists; vm_compute; reflexivity|vm_compute; reflexivity]. Qed.

Lemma call_args : flat_args (repeat 0 16) 0x500000 0 call_bytes.
Proof. split; [split_and!; unfold near_ok|..]; vm_compute; intuition congruence. Qed.

Lemma flatten_assembles_witness : ∃ js,
  flattenTrampoline sample_options call_binary ∅ (repeat 0 16) 0xcc 0x500000 0 0 2%positive (Some 1) =
    Some (call_bytes, js, ∅).
Proof.
  destruct (flatten_assembles sample_options call_binary call_ok ∅ (repeat 0 16) 0xcc 0x500000 0 0 2%positive (Some 1)
    _ _ _ _ [] [] ∅ call_listing call_args (flatten_no_prologue _ _ _ _ _ _ _ _ (Z.le_refl 0))) as [js E].
  by exists js.
Defined.




End TrampolineProps.
