(* ===== verification/E9TrampolineBounds.v ===== *)
(** * E9TrampolineBounds: where a trampoline can be placed

    [getTrampolineBounds] as a pass over the assembly listing, and what it promises: at an
    address within the bounds, every relative operand with a target that does not depend on
    the place of the trampoline can be encoded. *)

From stdpp Require Import gmap.
From S2P Require Import Prelude E9Patch E9Alloc E9AllocTree E9AllocApi E9X86 E9X86Sim E9Tactics E9Optimize E9Trampoline E9TrampolineSpec E9TrampolineAsm E9TacticsPatch E9TrampolineProps.

Module TrampolineBounds.
Import E9 E9Alloc AllocTree E9X86 X86Sim E9Tactics E9Optimize E9Trampoline TrampolineSpec TrampolineAsm TacticsPatch TrampolineProps.

Section Bounds.
Context {S : Type} (opts : Options) (b : Binary S).

(** The target of an operand that is known before the trampoline is placed; [INTPTR_MIN]
    for a label of the template. *)
Definition fixed_target (J : option iptr) (v : Operand) : option Z :=
  match v with OLabel l => getBuiltinLabelAddress b J l | OConst a => Some (s64 a) end.

(** What the pass does for one item of a template without batches. *)
Definition item_bounds (it : item) (size : Z) (bd : Bounds) : option (Z * Bounds) :=
  match it with
  | Data e J last fin =>
      let go n := Some (u64 (size + n), bd) in
      let rel (rel8 : bool) v :=
        addr ← fixed_target J v;
        let size := u64 (size + if rel8 then 1 else 4) in
        Some (size, rel_bounds addr size rel8 bd) in
      match e with
      | ENTRY_DEBUG _ => n ← debug_len b J; go n
      | ENTRY_BYTES data => go (blen data)
      | ENTRY_ZEROES length => go length
      | ENTRY_INT8 _ => go 1
      | ENTRY_INT16 _ => go 2
      | ENTRY_INT32 _ => go 4
      | ENTRY_INT64 _ => go 8
      | ENTRY_REL8 v => rel true v
      | ENTRY_REL32 v => rel false v
      | ENTRY_INSTR => j ← J; r ← relocate_len opts b j INTPTR_MIN; go (Z.max 0 r)
      | ENTRY_INSTR_BYTES => j ← J; x ← instr b j; go (i_size x)
      | ENTRY_BREAK opt => r ← break_len opts b J 0 (negb last && fin) (last && opt); go r
      | ENTRY_TAKE => go 5
      | ENTRY_LABEL _ | ENTRY_MACRO _ | ENTRY_BATCH _ => Some (size, bd)
      end
  | _ => None
  end.

Fixpoint items_bounds (l : list item) (size : Z) (bd : Bounds) : option (Z * Bounds) :=
  match l with
  | [] => Some (size, bd)
  | it :: l => '(size, bd) ← item_bounds it size bd; items_bounds l size bd
  end.

Lemma items_bounds_app l1 : ∀ l2 size bd,
  items_bounds (l1 ++ l2) size bd = ('(size, bd) ← items_bounds l1 size bd; items_bounds l2 size bd).
Proof.
  induction l1 as [|it l1 IH]; intros l2 size bd; [done|]. cbn [app items_bounds].
  destruct (item_bounds it size bd) as [[s d]|]; [|done]. apply IH.
Qed.

(** No batch in the template, nor in its macros. *)
Fixpoint no_batches (n : nat) (T : ptr) (J : option iptr) : Prop :=
  match n with
  | O => True
  | Datatypes.S n => ∀ t e, B_Ts b !! T = Some t → e ∈ entries t →
      match e with
      | ENTRY_BATCH _ => False
      | ENTRY_MACRO name => ∀ U, macro_of b J name = Some U → no_batches n U J
      | _ => True
      end
  end.

Lemma tramp_bounds_ok n : ∀ T J last l size bd,
  no_batches n T J → expand n b T J last = Some l →
  tramp_bounds opts n b T J size last bd = items_bounds l size bd.
Proof.
  induction n as [|n IHn]; intros T J last l size bd; cbn [expand tramp_bounds no_batches]; [done|].
  destruct (B_Ts b !! T) as [t|] eqn:Et; [|done]. cbn [mbind option_bind]. intros Hn.
  assert (Hes : ∀ e, e ∈ entries t → match e with ENTRY_BATCH _ => False
    | ENTRY_MACRO name => ∀ U, macro_of b J name = Some U → no_batches n U J | _ => True end) by (intros e; by apply Hn).
  clear Hn Et. revert l size bd Hes. generalize (entries t) as es. induction es as [|e es IH]; intros l size bd Hes;
    cbn [expand_entries bounds_entries]; [by intros [= <-]|].
  assert (Hplain : (l ← expand_entries (expand n b) b es J last; Some (Data e J last (bool_decide (es = [])) :: l)) = Some l →
    ('(size, bd) ← item_bounds (Data e J last (bool_decide (es = []))) size bd;
     bounds_entries opts (tramp_bounds opts n b) b es J last size bd) = items_bounds l size bd).
  { intros E. destruct (expand_entries (expand n b) b es J last) as [l1|] eqn:E1; [|done]. injection E as <-.
    cbn [items_bounds]. destruct (item_bounds _ size bd) as [[s d]|]; [|done]. cbn [mbind option_bind].
    apply IH; [|done]. intros f Hf. apply Hes. by right. }
  pose proof (Hes e ltac:(by left)) as He. destruct e; intros E; try (specialize (Hplain E); cbn [item_bounds mbind option_bind] in Hplain);
    try exact Hplain; try done.
  all: try (destruct J as [j|]; [|exact Hplain]; cbn [mbind option_bind] in Hplain |- *; try exact Hplain;
            destruct (instr b j) as [x|]; exact Hplain).
  - destruct (debug_len b J); exact Hplain.
  - destruct (macro_of b J macro) as [U|] eqn:Em; [|done]. cbn [mbind option_bind] in *.
    destruct (expand n b U J last) as [l1|] eqn:E1; [|done]. cbn [mbind option_bind] in E.
    destruct (expand_entries (expand n b) b es J last) as [l2|] eqn:E2; [|done]. injection E as <-.
    rewrite (IHn U J last l1 size bd (He U eq_refl) E1), items_bounds_app.
    destruct (items_bounds l1 size bd) as [[s d]|]; [|done]. cbn [mbind option_bind].
    apply IH; [|done]. intros f Hf. apply Hes. by right.
  - unfold fixed_target in Hplain. destruct v; [|exact Hplain]. destruct (getBuiltinLabelAddress b J label); exact Hplain.
  - unfold fixed_target in Hplain. destruct v; [|exact Hplain]. destruct (getBuiltinLabelAddress b J label); exact Hplain.
  - destruct J as [j|]; [|exact Hplain]. cbn [mbind option_bind] in Hplain |- *. destruct (relocate_len opts b j INTPTR_MIN); exact Hplain.
  - destruct (break_len opts b J 0 _ _); exact Hplain.
Qed.

Context (CO : code_ok b).

(** The bounds only get narrower, and the size is the length of the code. *)
Definition narrower (bd bd' : Bounds) : Prop := b_lb bd <= b_lb bd' ∧ b_ub bd' <= b_ub bd.

Lemma item_bounds_narrower it size bd size' bd' :
  item_bounds it size bd = Some (size', bd') → narrower bd bd'.
Proof.
  unfold item_bounds, narrower, rel_bounds. intros E.
  repeat (case_match || (apply bind_Some in E as (? & _ & E))); simplify_eq; cbn; lia.
Qed.

Lemma items_bounds_narrower l : ∀ size bd size' bd',
  items_bounds l size bd = Some (size', bd') → narrower bd bd'.
Proof.
  induction l as [|it l IH]; intros size bd size' bd'; cbn [items_bounds]; [intros [= _ <-]; by split|].
  destruct (item_bounds it size bd) as [[s d]|] eqn:E; [|done]. cbn [mbind option_bind].
  intros [H1 H2]%IH. apply item_bounds_narrower in E as [H3 H4]. unfold narrower. lia.
Qed.

Lemma item_bounds_size breaks labels it a c size bd size' bd' :
  item_bounds it size bd = Some (size', bd') → item_code opts b breaks labels a it = Some c →
  placed a c → 0 <= size → size + blen c < 2 ^ 31 → size' = size + blen c.
Proof.
  intros E Ec Hp Hs Hb. pose proof (blen_nonneg c). destruct it as [e J last fin| | |]; [|done..].
  pose proof (item_size opts b CO breaks labels e J last fin a c Ec Hp) as Hi.
  assert (Hu : ∀ n, n = blen c → u64 (size + n) = size + blen c) by (intros ? ->; apply wrapu_small; lia).
  destruct e; cbn [item_bounds item_len] in *; try done.
  all: try (injection E as <- _; apply Hu; congruence).
  - destruct (debug_len b J); [|done]. injection E as <- _. apply Hu. congruence.
  - injection E as <- _. injection Hi as <-. lia.
  - destruct (fixed_target J v); [|done]. injection E as <- _. apply Hu. congruence.
  - destruct (fixed_target J v); [|done]. injection E as <- _. apply Hu. congruence.
  - destruct J as [j|]; [|done]. cbn [mbind option_bind] in *. rewrite Hi in E. injection E as <- _. apply Hu. lia.
  - destruct J as [j|]; [|done]. cbn [mbind option_bind] in *. destruct (instr b j); [|done]. injection E as <- _. apply Hu. cbn in Hi. congruence.
  - rewrite Hi in E. injection E as <- _. by apply Hu.
Qed.

Lemma items_bounds_size breaks labels l : ∀ a c size bd size' bd',
  items_bounds l size bd = Some (size', bd') → assemble opts b breaks labels a l = Some c →
  placed a c → 0 <= size → size + blen c < 2 ^ 31 → size' = size + blen c.
Proof.
  induction l as [|it l IH]; intros a c size bd size' bd'; cbn [items_bounds assemble].
  { intros [= <- _] [= <-] _ _ _. by rewrite blen_nil, Z.add_0_r. }
  destruct (item_bounds it size bd) as [[s d]|] eqn:E; [|done]. cbn [mbind option_bind]. intros El.
  destruct (item_code opts b breaks labels a it) as [c1|] eqn:E1; [|done]. cbn [mbind option_bind].
  destruct (assemble opts b breaks labels (a + blen c1) l) as [c2|] eqn:E2; [|done]. intros [= <-] Hp Hs Hb.
  destruct (placed_app _ _ _ Hp) as [Hp1 Hp2]. rewrite blen_app in *. pose proof (blen_nonneg c1). pose proof (blen_nonneg c2).
  rewrite (item_bounds_size _ _ _ _ _ _ _ _ _ E E1 Hp1 Hs) in El by lia.
  rewrite (IH _ _ _ _ _ _ El E2 Hp2) by lia. lia.
Qed.

(** The displacement of a relative operand at an address within the bounds. *)
Lemma rel_bounds_reach t size (rel8 : bool) bd a :
  near_ok t → t ≠ INTPTR_MIN → 0 <= size < 2 ^ 31 →
  b_lb (rel_bounds t size rel8 bd) <= a <= b_ub (rel_bounds t size rel8 bd) → near_ok (a + size) →
  (if rel8 then between INT8_MIN INT8_MAX (s64 (t - (a + size))) else is_imm32 (s64 (t - (a + size)))) = true.
Proof.
  unfold rel_bounds, near_ok. intros Ht Hm Hs. destruct (Z.eqb_spec t INTPTR_MIN); [done|]. cbn [b_lb b_ub].
  intros Ha Hn. destruct rel8; apply between_spec;
    unfold INT8_MIN, INT8_MAX, INT32_MIN, INT32_MAX in *; rewrite !wraps_small in * by lia; lia.
Qed.


End Bounds.

(** ** A template that calls a fixed address *)

Definition far_binary : Binary Tree :=
  set_B_Ts (<[2%positive := MkTrampoline 10 false
    [ENTRY_BYTES [0xe8]; ENTRY_REL32 (OConst 0x700000); ENTRY_BREAK false]]> ∅) sample.


(** ** What the passes get wrong *)

(** [call *%rsp; ret], a call that cannot be relocated. *)
Definition stuck_binary : Binary Tree :=
  set_B_names (<["$instr" := 3%positive]> ∅)
    (set_B_Ts (<[2%positive := MkTrampoline 5 false [ENTRY_BYTES [0x90]; ENTRY_MACRO "$instr"]]>
              (<[3%positive := MkTrampoline 5 false [ENTRY_INSTR]]> ∅))
       (sample_binary [2; 1] [0xff; 0xd4; 0xc3])).

(** The result -1 of a macro is added to the size, since the test that follows looks at the
    unsigned sum: here the size is 0, though there is no trampoline. *)
Lemma macro_failure_added :
  relocate_len sample_options stuck_binary 1 INTPTR_MIN = Some (-1) ∧
  trampoline_size sample_options stuck_binary (Some 3%positive) (Some 1) = Some (-1) ∧
  trampoline_size sample_options stuck_binary (Some 2%positive) (Some 1) = Some 0.
Proof. split_and!; vm_compute; reflexivity. Qed.

(** A batch of the first instruction of the sample program after three bytes. *)
Definition batch_binary : Binary Tree :=
  set_B_Is (<[1 := MkInstr 16 5 0 0 false false false false false false false 0x401000 None (Some 3%positive)]> (B_Is sample))
    (set_B_Ts (<[2%positive := MkTrampoline 5 false [ENTRY_BYTES [1; 2; 3]; ENTRY_BATCH 0x401000]]>
              (<[3%positive := MkTrampoline 5 false [ENTRY_BYTES [4; 5; 6; 7]]]> ∅)) sample).

(** In the pass over the bounds the size before a template of a batch counts twice. *)
Lemma batch_bounds_twice :
  trampoline_size sample_options batch_binary (Some 2%positive) (Some 1) = Some 7 ∧
  (fst <$> tramp_bounds sample_options macro_fuel batch_binary 2%positive (Some 1) 0 true
            (MkBounds INTPTR_MIN INTPTR_MAX)) = Some 10.
Proof. split; vm_compute; reflexivity. Qed.

(** Labels without the prefix [.L] are not rejected if one of the characters fits. *)
Lemma label_prefix : not_local ".x" = Some false ∧ not_local "xL" = Some false ∧ not_local "xy" = Some true.
Proof. split_and!; reflexivity. Qed.

End TrampolineBounds.
