(* ===== verification/E9Mapping.v ===== *)
(** * E9Mapping: from trampolines to pages

    Models src/src/e9patch/e9mapping.cpp: the address space is cut into mappings of a fixed
    size; mappings whose occupied parts do not overlap share physical memory, for which they
    are collected in a radix tree over bitmaps of their occupancy; and a group of mappings
    that share memory is flattened to the bytes of the output file. *)

From stdpp Require Import gmap.
From S2P Require Import Prelude E9Patch E9Alloc E9AllocTree E9AllocApi E9Tactics.

Module E9Mapping.
Import E9 E9Alloc E9Tactics.

(** ** Keys

    A key is a bit set of [KEY_BITS] bits, an integer of the compiler or a [std::bitset]. *)

(** [__builtin_ctzll], which is undefined for 0: bit [k] is the lowest that is set. *)
Fixpoint ctz (n : nat) (k : Z) (x : Z) : option Z :=
  match n with
  | O => None
  | S n => if Z.testbit x k then Some k else ctz n (k + 1) x
  end.

Definition ctzll (x : Z) : option Z := ctz 64 0 x.

Definition MASK64 : Z := Z.ones 64.

(** The template parameter [Key]. *)
Class Key := { KEY_BITS : Z; tzcount : Z → option Z }.

Definition tzcount128 (key : Z) : option Z :=
  let lo := u64 key in
  let hi := u64 (Z.shiftr key 64) in
  if lo =? 0 then c ← ctzll hi; Some (c + 64) else ctzll lo.

#[export] Instance Key128 : Key := { KEY_BITS := 128; tzcount := tzcount128 }.

(** The loop over the words of a bit set. *)
Fixpoint tzcount_words (fuel : nat) (count key : Z) : option Z :=
  match fuel with
  | O => None
  | S fuel =>
      let key64 := Z.land key MASK64 in
      if negb (key64 =? 0) then c ← ctzll key64; Some (count + c)
      else tzcount_words fuel (count + 64) (Z.shiftr key 64)
  end.

Definition tzcount_bitset (bits key : Z) : option Z :=
  if key =? 0 then Some bits else tzcount_words (Z.to_nat (bits / 64)) 0 key.

Definition Key4096 : Key := {| KEY_BITS := 4096; tzcount := tzcount_bitset 4096 |}.

Definition BRANCH_BITS : Z := 2.
Definition BRANCH_MAX : Z := Z.shiftl 1 BRANCH_BITS.

(** ** Mappings *)

(** [Allocator::iterator]: the allocations from where it points to on. *)
Definition Iterator : Type := list (ptr * Alloc).

(** A [Mapping]; its links [next] and [merged] are the lists below. *)
Record Mapping := MkMapping {
  m_lb : Z; m_ub : Z; m_base : Z; m_size : Z; m_i : Iterator;
  m_prot : Z; m_preload : bool; m_offset : Z }.

(** A mapping and what was merged with it, by the links [merged]. *)
Abbreviation Group := (list Mapping).

Section Mappings.
Context (Ts : gmap ptr Trampoline).

(** The part of an allocation inside a mapping, as offsets. *)
Definition low (BASE : Z) (a : Alloc) : Z := if a_lb a <? BASE then 0 else a_lb a - BASE.
Definition high (BASE END : Z) (a : Alloc) : Z :=
  if END <? a_ub a then END - BASE else a_ub a - BASE.

Fixpoint bounds_loop (BASE END : Z) (i : Iterator) (b : Bounds) : Bounds :=
  match i with
  | [] => b
  | (_, a) :: i =>
      if END <=? a_lb a then b
      else match a_T a with
           | None => bounds_loop BASE END i b
           | Some _ => bounds_loop BASE END i
                         (MkBounds (Z.min (b_lb b) (low BASE a)) (Z.max (b_ub b) (high BASE END a)))
           end
  end.

Definition calculateBounds (m : Mapping) : Bounds :=
  bounds_loop (m_base m) (m_base m + m_size m) (m_i m) (MkBounds INTPTR_MAX INTPTR_MIN).

Fixpoint prot_loop (END : Z) (i : Iterator) (p : Z) : option Z :=
  match i with
  | [] => Some p
  | (_, a) :: i =>
      if END <=? a_lb a then Some p
      else match a_T a with
           | None => prot_loop END i p
           | Some T => t ← Ts !! T; prot_loop END i (Z.lor p (prot t))
           end
  end.

Definition calculateProtections (m : Mapping) : option Z :=
  prot_loop (m_base m + m_size m) (m_i m) 0.

Fixpoint preload_loop (END : Z) (i : Iterator) : option bool :=
  match i with
  | [] => Some false
  | (_, a) :: i =>
      if END <=? a_lb a then Some false
      else match a_T a with
           | None => preload_loop END i
           | Some T => t ← Ts !! T; if preload t then Some true else preload_loop END i
           end
  end.

Definition calculatePreload (m : Mapping) : option bool :=
  preload_loop (m_base m + m_size m) (m_i m).

Definition allocMapping (i : Iterator) (size base : Z) : Mapping :=
  MkMapping 0 size base size i 0 false (-1).

(** [MappingSet], and the statistics [stat_num_virtual_mappings]. *)
Definition saveMapping (m : option Mapping) (ms : list Mapping) (stat : Z) :
    option (list Mapping * Z) :=
  match m with
  | None => Some (ms, stat)
  | Some m =>
      let b := calculateBounds m in
      p ← calculateProtections m;
      l ← calculatePreload m;
      Some (ms ++ [MkMapping (b_lb b) (b_ub b) (m_base m) (m_size m) (m_i m) p l (m_offset m)],
            u64 (stat + 1))
  end.

(** The [while] loop of [buildMappings], for the allocation [a] at the iterator [i]. *)
Fixpoint split_alloc (fuel : nat) (SIZE base : Z) (i : Iterator) (a : Alloc)
    (m : option Mapping) (ms : list Mapping) (stat : Z) :
    option (Z * option Mapping * list Mapping * Z) :=
  if base + SIZE <? a_ub a then
    match fuel with
    | O => None
    | S fuel =>
        let base := base + SIZE in
        '(ms, stat) ← saveMapping m ms stat;
        split_alloc fuel SIZE base i a (Some (allocMapping i SIZE base)) ms stat
    end
  else Some (base, m, ms, stat).

(** The loop over the allocations. *)
Fixpoint build_loop (SIZE : Z) (i : Iterator) (base : Z) (m : option Mapping)
    (ms : list Mapping) (stat : Z) : option (list Mapping * Z) :=
  match i with
  | [] => saveMapping m ms stat
  | (_, a) :: rest =>
      match a_T a with
      | None => build_loop SIZE rest base m ms stat
      | Some _ =>
          '(base, m, ms, stat) ←
            (if s64 (base + SIZE) <=? a_lb a then
               let base := s64 (a_lb a - u64 (a_lb a) mod SIZE) in
               '(ms, stat) ← saveMapping m ms stat;
               Some (base, Some (allocMapping i SIZE base), ms, stat)
             else Some (base, m, ms, stat));
          '(base, m, ms, stat) ←
            split_alloc (Z.to_nat ((a_ub a - base) / SIZE)) SIZE base i a m ms stat;
          build_loop SIZE rest base m ms stat
      end
  end.

Definition buildMappings (allocator : Iterator) (SIZE stat : Z) : option (list Mapping * Z) :=
  build_loop SIZE allocator INTPTR_MIN None [] stat.

End Mappings.

(** ** Occupancy keys *)

Section Keys.
Context `{K : Key}.

Definition KEY_ONES : Z := Z.ones KEY_BITS.
Definition key_not (k : Z) : Z := Z.lxor k KEY_ONES.
Definition key_shl (k n : Z) : Z := Z.land (Z.shiftl k n) KEY_ONES.

Fixpoint key_loop (SIZE UNIT BASE END : Z) (i : Iterator) (key : Z) : option Z :=
  match i with
  | [] => Some key
  | (_, a) :: i =>
      _ ← assert_ (BASE <=? a_lb a);
      if END <=? a_lb a then Some key
      else
        match a_T a with
        | None => key_loop SIZE UNIT BASE END i key
        | Some _ =>
            let prologue := (a_lb a - BASE) / UNIT in
            let postscript := (if END <=? a_ub a then 0 else END - a_ub a) / UNIT in
            _ ← assert_ (prologue <? KEY_BITS);
            _ ← assert_ (postscript <? KEY_BITS);
            let tmp := Z.land (key_shl KEY_ONES prologue) (Z.shiftr KEY_ONES postscript) in
            key_loop SIZE UNIT BASE END i (Z.lor key tmp)
        end
  end.

Definition calculateKey (SIZE : Z) (m : Mapping) : option Z :=
  let UNIT := SIZE / KEY_BITS in
  let BASE := m_base m in
  let END := BASE + SIZE in
  match m_i m with
  | [] => None
  | (p, a) :: i =>
      if a_lb a <? BASE then
        if END <=? a_ub a then Some KEY_ONES
        else
          let overlap := (SIZE - (END - a_ub a) + UNIT - 1) / UNIT in
          if KEY_BITS <=? overlap then Some KEY_ONES
          else key_loop SIZE UNIT BASE END i (key_not (key_shl KEY_ONES overlap))
      else key_loop SIZE UNIT BASE END ((p, a) :: i) 0
  end.

(** ** The radix tree

    [Null] is the null pointer; a leaf has the groups with its key, by the links [next] of
    their first mappings. *)

Inductive Node :=
| Null
| Leaf (key : Z) (mappings : list Group)
| Inner (key shift : Z) (c0 c1 c2 c3 : Node).

Definition node_key (n : Node) : Z :=
  match n with Null => 0 | Leaf key _ | Inner key _ _ _ _ _ => key end.

(** [Radix::index], for the [shift] of a node. *)
Definition index (shift key : Z) : Z :=
  Z.shiftr (Z.land key (Z.shiftl (BRANCH_MAX - 1) (BRANCH_BITS * shift))) (BRANCH_BITS * shift).

(** [node->child[i]] *)
Definition child (i : Z) (c0 c1 c2 c3 : Node) : Node :=
  if i =? 0 then c0 else if i =? 1 then c1 else if i =? 2 then c2 else c3.

Definition and_key (key : Z) (c : Node) : Z :=
  match c with Null => key | _ => Z.land key (node_key c) end.

(** [fix]: an inner node with the key of its children. *)
Definition fix_key (c0 c1 c2 c3 : Node) : Z :=
  and_key (and_key (and_key (and_key KEY_ONES c0) c1) c2) c3.

Definition fix_inner (shift : Z) (c0 c1 c2 c3 : Node) : Node :=
  Inner (fix_key c0 c1 c2 c3) shift c0 c1 c2 c3.

(** [find]: the groups of the leaf. *)
Fixpoint find (n : Node) (key : Z) : option (list Group) :=
  match n with
  | Null => None
  | Leaf k ms => if k =? key then Some ms else None
  | Inner _ shift c0 c1 c2 c3 =>
      let i := index shift key in
      if i =? 0 then find c0 key else if i =? 1 then find c1 key
      else if i =? 2 then find c2 key else find c3 key
  end.

(** Assigning to [mappings] of the leaf that [find] returns. *)
Fixpoint set_mappings (n : Node) (key : Z) (ms : list Group) : Node :=
  match n with
  | Null => Null
  | Leaf k ms' => if k =? key then Leaf k ms else Leaf k ms'
  | Inner k shift c0 c1 c2 c3 =>
      let i := index shift key in
      if i =? 0 then Inner k shift (set_mappings c0 key ms) c1 c2 c3
      else if i =? 1 then Inner k shift c0 (set_mappings c1 key ms) c2 c3
      else if i =? 2 then Inner k shift c0 c1 (set_mappings c2 key ms) c3
      else Inner k shift c0 c1 c2 (set_mappings c3 key ms)
  end.

Definition orelse {A} (x y : option A) : option A := match x with Some _ => x | None => y end.

(** The test of a child in [findAnyComplement]. *)
Definition may_fit (key : Z) (c : Node) : bool :=
  match c with Null => false | _ => Z.land key (node_key c) =? 0 end.

(** [findAnyComplement]: the key and the groups of the leaf. *)
Fixpoint findAnyComplement (n : Node) (key : Z) : option (Z * list Group) :=
  match n with
  | Null => None
  | Leaf k ms => if Z.land k key =? 0 then Some (k, ms) else None
  | Inner _ _ c0 c1 c2 c3 =>
      orelse (if may_fit key c0 then findAnyComplement c0 key else None)
        (orelse (if may_fit key c1 then findAnyComplement c1 key else None)
          (orelse (if may_fit key c2 then findAnyComplement c2 key else None)
            (if may_fit key c3 then findAnyComplement c3 key else None)))
  end.

(** A child of a new inner node, in which the two leaves have different places. *)
Definition place_child (i i1 i2 : Z) (n1 n2 : Node) : Node :=
  if i =? i2 then n2 else if i =? i1 then n1 else Null.

Fixpoint insert (n : Node) (key : Z) (m : Group) : option Node :=
  match n with
  | Null => Some (Leaf key [m])
  | Leaf k ms =>
      let diff := Z.lxor k key in
      if diff =? 0 then Some (Leaf k (m :: ms))
      else
        c ← tzcount diff;
        let shift := c / BRANCH_BITS in
        let at_ i := place_child i (index shift k) (index shift key) (Leaf k ms) (Leaf key [m]) in
        Some (fix_inner shift (at_ 0) (at_ 1) (at_ 2) (at_ 3))
  | Inner k shift c0 c1 c2 c3 =>
      let i := index shift key in
      if i =? 0 then c ← insert c0 key m; Some (fix_inner shift c c1 c2 c3)
      else if i =? 1 then c ← insert c1 key m; Some (fix_inner shift c0 c c2 c3)
      else if i =? 2 then c ← insert c2 key m; Some (fix_inner shift c0 c1 c c3)
      else c ← insert c3 key m; Some (fix_inner shift c0 c1 c2 c)
  end.

Definition non_null (c : Node) : list Node := match c with Null => [] | _ => [c] end.

(** The end of [remove] at an inner node: one child is left, or more. *)
Definition collapse (k shift : Z) (c0 c1 c2 c3 : Node) : Node :=
  match non_null c0 ++ non_null c1 ++ non_null c2 ++ non_null c3 with
  | [] => Null
  | [c] => c
  | _ => Inner k shift c0 c1 c2 c3
  end.

Definition removed (k shift : Z) (child c0 c1 c2 c3 : Node) : Node :=
  match child with
  | Null => collapse k shift c0 c1 c2 c3
  | _ => fix_inner shift c0 c1 c2 c3
  end.

Fixpoint remove (n : Node) (key : Z) : Node :=
  match n with
  | Null => Null
  | Leaf k ms => if negb (k =? key) then n else Null
  | Inner k shift c0 c1 c2 c3 =>
      let i := index shift key in
      if i =? 0 then let c := remove c0 key in removed k shift c c c1 c2 c3
      else if i =? 1 then let c := remove c1 key in removed k shift c c0 c c2 c3
      else if i =? 2 then let c := remove c2 key in removed k shift c c0 c1 c c3
      else let c := remove c3 key in removed k shift c c0 c1 c2 c
  end.

(** [merge], for a mapping that was merged with nothing yet. *)
Definition merge (tree : Node) (key : Z) (m : Mapping) : option Node :=
  match find tree key with
  | Some ms => Some (set_mappings tree key ([m] :: ms))
  | None =>
      match findAnyComplement tree key with
      | Some (k, ms) =>
          match ms with
          | [] => None
          | cmp :: ms =>
              let tree := set_mappings tree k ms in
              let tree := match ms with [] => remove tree k | _ => tree end in
              insert tree (Z.lor key k) (m :: cmp)
          end
      | None => insert tree key [m]
      end
  end.

(** [collectMappings], without the log; [stat_num_physical_mappings] is counted by the
    caller. *)
Fixpoint collectMappings (n : Node) : list Group :=
  match n with
  | Null => []
  | Leaf _ ms => ms
  | Inner _ _ c0 c1 c2 c3 =>
      collectMappings c0 ++ collectMappings c1 ++ collectMappings c2 ++ collectMappings c3
  end.

End Keys.

(** ** Shrinking and flattening *)

Definition move_mapping (lb size : Z) (m : Mapping) : Mapping :=
  MkMapping (m_lb m - lb) (m_ub m - lb) (m_base m + lb) size (m_i m) (m_prot m) (m_preload m)
    (m_offset m).

Definition shrinkMapping (g : Group) (granularity : Z) : option Group :=
  m0 ← head g;
  if m_size m0 =? granularity then Some g
  else
    let lb := foldl (λ x m, Z.min x (m_lb m)) INTPTR_MAX g in
    let ub := foldl (λ x m, Z.max x (m_ub m)) INTPTR_MIN g in
    let lb := lb - u64 lb mod granularity in
    let ub := if u64 ub mod granularity =? 0 then ub
              else let ub := ub + granularity in ub - u64 ub mod granularity in
    let size := ub - lb in
    if m_size m0 <=? u64 size then Some g else Some (move_mapping lb size <$> g).

Fixpoint shrink_all (gs : list Group) (granularity : Z) : option (list Group) :=
  match gs with
  | [] => Some []
  | g :: gs => g ← shrinkMapping g granularity; gs ← shrink_all gs granularity; Some (g :: gs)
  end.

Section Optimize.
Context `{K : Key}.

Fixpoint merge_all (SIZE : Z) (ms : list Mapping) (tree : Node) : option Node :=
  match ms with
  | [] => Some tree
  | m :: ms =>
      key ← calculateKey SIZE m;
      tree ← merge tree key m;
      merge_all SIZE ms tree
  end.

(** [optimizeMappings], with [stat_num_physical_mappings]. *)
Definition optimizeMappings (SIZE granularity : Z) (ms : list Mapping) (stat : Z) :
    option (list Group * Z) :=
  tree ← merge_all SIZE ms Null;
  let gs := collectMappings tree in
  let stat := u64 (stat + Z.of_nat (List.length gs)) in
  gs ← shrink_all gs granularity;
  Some (gs, stat).

End Optimize.

(** [a->bytes] is in [flat] if the allocation has a trampoline. *)
Section Flatten.
Context (flat : gmap ptr bytes).

Fixpoint flatten_loop (BASE END : Z) (i : Iterator) (buf : bytes) : option bytes :=
  match i with
  | [] => Some buf
  | (p, a) :: i =>
      if END <=? a_lb a then Some buf
      else match flat !! p with
           | None => flatten_loop BASE END i buf
           | Some bs =>
               let offset := if a_lb a <? BASE then BASE - a_lb a else 0 in
               let lb := if a_lb a <? BASE then BASE else a_lb a in
               let ub := if END <? a_ub a then END else a_ub a in
               src ← rdn bs offset (ub - lb);
               buf ← wrn buf (lb - BASE) src;
               flatten_loop BASE END i buf
           end
  end.

Fixpoint flatten_group (g : Group) (buf : bytes) : option bytes :=
  match g with
  | [] => Some buf
  | m :: g =>
      buf ← flatten_loop (m_base m) (m_base m + m_size m) (m_i m) buf;
      flatten_group g buf
  end.

(** [flattenMapping]; [buf] is the memory before. *)
Definition flattenMapping (buf : bytes) (g : Group) (fill : Z) : option bytes :=
  m ← head g;
  buf ← wrn buf 0 (repeat fill (Z.to_nat (m_size m)));
  flatten_group g buf.

(** ** Virtual bounds *)

Definition pushBounds (lb ub granularity : Z) (bounds : list Bounds) : list Bounds :=
  if (lb =? INTPTR_MAX) || (ub =? INTPTR_MIN) then bounds
  else
    let lb := lb - u64 lb mod granularity in
    let ub := if u64 ub mod granularity =? 0 then ub
              else ub + granularity - u64 ub mod granularity in
    bounds ++ [MkBounds lb ub].

Fixpoint virtual_loop (BASE END granularity : Z) (i : Iterator) (lb ub : Z)
    (bounds : list Bounds) : list Bounds :=
  match i with
  | [] => pushBounds lb ub granularity bounds
  | (p, a) :: i =>
      if END <=? a_lb a then pushBounds lb ub granularity bounds
      else match flat !! p with
           | None => virtual_loop BASE END granularity i INTPTR_MAX INTPTR_MIN
                       (pushBounds lb ub granularity bounds)
           | Some _ => virtual_loop BASE END granularity i (Z.min lb (low BASE a))
                         (Z.max ub (high BASE END a)) bounds
           end
  end.

Definition getVirtualBounds (m : Mapping) (granularity : Z) : list Bounds :=
  virtual_loop (m_base m) (m_base m + m_size m) granularity (m_i m) INTPTR_MAX INTPTR_MIN [].

End Flatten.

End E9Mapping.
