(* ===== verification/E9MappingTree.v ===== *)
(** * E9MappingTree: the radix tree of mappings is a map

    The tree of e9mapping.cpp finds, inserts and removes like a finite map from keys to
    lists of groups, and its search for a complement is complete. *)

From stdpp Require Import gmap.
From S2P Require Import Prelude E9Patch E9Alloc E9AllocTree E9AllocApi E9Tactics E9Mapping.

Module MappingTree.
Import E9 E9Alloc E9Mapping.

(** What the tree needs of the template parameter: a difference has a lowest bit. *)
Class KeyLaws (K : Key) : Prop := {
  key_bits : 0 < KEY_BITS;
  tzcount_bit x : 0 < x < 2 ^ KEY_BITS →
    ∃ c, tzcount x = Some c ∧ 0 <= c < KEY_BITS ∧ Z.testbit x c = true }.

Lemma ctz_some n : ∀ k x j, 0 <= k → k <= j < k + Z.of_nat n → Z.testbit x j = true →
  ∃ c, ctz n k x = Some c ∧ k <= c <= j ∧ Z.testbit x c = true.
Proof.
  induction n as [|n IH]; intros k x j Hk Hj Hx; [lia|]. cbn [ctz].
  destruct (Z.testbit x k) eqn:E; [exists k; split_and!; (done || lia)|].
  destruct (decide (j = k)) as [->|]; [congruence|].
  destruct (IH (k + 1) x j) as (c & -> & Hc & Hb); [lia|lia|done|]. exists c. split_and!; (done || lia).
Qed.

(** A number that is not 0 has a bit below its size. *)
Lemma testbit_below x n : 0 <= n → 0 < x < 2 ^ n → ∃ j, 0 <= j < n ∧ Z.testbit x j = true.
Proof.
  intros Hn Hx. exists (Z.log2 x). split; [|apply Z.bit_log2; lia].
  split; [apply Z.log2_nonneg|]. apply Z.log2_lt_pow2; lia.
Qed.

Lemma ctzll_some x : 0 < x < 2 ^ 64 → ∃ c, ctzll x = Some c ∧ 0 <= c < 64 ∧ Z.testbit x c = true.
Proof.
  intros Hx. destruct (testbit_below x 64) as (j & Hj & Hb); [lia|done|].
  destruct (ctz_some 64 0 x j) as (c & E & Hc & Hb'); [lia|lia|done|]. exists c. split_and!; (done || lia).
Qed.

#[export] Instance Key128_laws : KeyLaws Key128.
Proof.
  split; [done|]. intros x Hx. cbn [KEY_BITS tzcount Key128] in *. unfold tzcount128.
  destruct (Z.eqb_spec (u64 x) 0) as [E|E].
  - assert (Hh : 0 < u64 (Z.shiftr x 64) < 2 ^ 64).
    { pose proof (wrapu_range 64 (Z.shiftr x 64)). rewrite Z.shiftr_div_pow2 in * by lia.
      unfold wrapu in *. rewrite (Z.mod_small (x / 2 ^ 64)) in * by (split; [apply Z.div_pos; lia|apply Z.div_lt_upper_bound; lia]).
      assert (x = 2 ^ 64 * (x / 2 ^ 64)) by (rewrite (Z_div_mod_eq_full x (2 ^ 64)) at 1; lia). lia. }
    destruct (ctzll_some _ Hh) as (c & -> & Hc & Hb). cbn [mbind option_bind]. exists (c + 64). split_and!; [done|lia|lia|].
    unfold wrapu in Hb. rewrite Z.mod_pow2_bits_low, Z.shiftr_spec in Hb by lia. done.
  - destruct (ctzll_some (u64 x)) as (c & -> & Hc & Hb). { pose proof (wrapu_range 64 x). lia. }
    exists c. split_and!; [done|lia|lia|]. unfold wrapu in Hb. by rewrite Z.mod_pow2_bits_low in Hb by lia.
Qed.

Lemma tzcount_words_some fuel : ∀ count x, 0 < x < 2 ^ (64 * Z.of_nat fuel) →
  ∃ c, tzcount_words fuel count x = Some (count + c) ∧ 0 <= c < 64 * Z.of_nat fuel ∧ Z.testbit x c = true.
Proof.
  induction fuel as [|fuel IH]; intros count x Hx; [change (64 * Z.of_nat 0) with 0 in Hx; lia|]. cbn [tzcount_words].
  assert (El : Z.land x MASK64 = x mod 2 ^ 64) by (apply Z.land_ones; lia).
  rewrite El. destruct (Z.eqb_spec (x mod 2 ^ 64) 0) as [E|E]; cbn [negb].
  - rewrite Z.shiftr_div_pow2 by lia. assert (Hd : x = 2 ^ 64 * (x / 2 ^ 64)) by (rewrite (Z_div_mod_eq_full x (2 ^ 64)) at 1; lia).
    replace (64 * Z.of_nat (S fuel)) with (64 + 64 * Z.of_nat fuel) in * by lia. rewrite Z.pow_add_r in Hx by lia.
    destruct (IH (count + 64) (x / 2 ^ 64)) as (c & -> & Hc & Hb).
    { split; [lia|]. apply Z.div_lt_upper_bound; lia. }
    exists (c + 64). split_and!; [f_equal; lia|lia|lia|]. rewrite Z.div_pow2_bits in Hb by lia. done.
  - destruct (ctzll_some (x mod 2 ^ 64)) as (c & -> & Hc & Hb). { pose proof (Z.mod_pos_bound x (2 ^ 64)). lia. }
    exists c. split_and!; [done|lia|lia|]. by rewrite Z.mod_pow2_bits_low in Hb by lia.
Qed.

#[export] Instance Key4096_laws : KeyLaws Key4096.
Proof.
  split; [done|]. intros x Hx. cbn [KEY_BITS tzcount Key4096] in *. unfold tzcount_bitset.
  destruct (Z.eqb_spec x 0); [lia|]. change (4096 / 64) with 64. change 4096 with (64 * Z.of_nat (Z.to_nat 64)) in Hx.
  destruct (tzcount_words_some _ 0 x Hx) as (c & E & Hc & Hb). exists c. split_and!; try done; lia.
Qed.

(** ** Places of keys *)

Lemma index_range s k : 0 <= s → 0 <= index s k < 4.
Proof.
  intros Hs. unfold index. set (n := BRANCH_BITS * s). assert (Hn : 0 <= n) by (unfold n, BRANCH_BITS; lia).
  change (BRANCH_MAX - 1) with (Z.ones 2). rewrite land_field by lia.
  rewrite Z.shiftr_div_pow2, Z.div_mul by lia. apply Z.mod_pos_bound. lia.
Qed.

Lemma index_bit s k j : 0 <= s → 0 <= j < 2 → Z.testbit (index s k) j = Z.testbit k (2 * s + j).
Proof.
  intros Hs Hj. unfold index, BRANCH_BITS. change (BRANCH_MAX - 1) with (Z.ones 2).
  rewrite Z.shiftr_spec, Z.land_spec, Z.shiftl_spec by lia.
  rewrite Z.ones_spec_low by lia. rewrite andb_true_r. f_equal. lia.
Qed.

(** Keys that differ in a bit have different places in a node for that bit. *)
Lemma index_differ k key c : 0 <= c → Z.testbit (Z.lxor k key) c = true →
  index (c / BRANCH_BITS) k ≠ index (c / BRANCH_BITS) key.
Proof.
  intros Hc Hb E. rewrite Z.lxor_spec in Hb. unfold BRANCH_BITS in *.
  pose proof (Z_div_mod_eq_full c 2) as Ed. pose proof (Z.mod_pos_bound c 2 ltac:(lia)) as Hm.
  assert (Hs : 0 <= c / 2) by (apply Z.div_pos; lia).
  pose proof (index_bit (c / 2) k (c mod 2) Hs Hm) as E1. pose proof (index_bit (c / 2) key (c mod 2) Hs Hm) as E2.
  rewrite E in E1. replace (2 * (c / 2) + c mod 2) with c in * by lia. rewrite <- E1, <- E2, xorb_nilpotent in Hb. done.
Qed.

Section Tree.
Context `{K : Key} {KL : KeyLaws K}.
Implicit Types (n : Node) (k key : Z).

Definition ok_key k : Prop := 0 <= k < 2 ^ KEY_BITS.

(** [a] is a subset of [k]. *)
Definition sub (a k : Z) : Prop := Z.land a k = a.

Lemma sub_land_l a b k : sub a k → sub (Z.land a b) k.
Proof. unfold sub. intros E. rewrite <- Z.land_assoc, (Z.land_comm b), Z.land_assoc, E. done. Qed.

Lemma sub_land_r a b k : sub b k → sub (Z.land a b) k.
Proof. unfold sub. intros E. by rewrite <- Z.land_assoc, E. Qed.

Lemma sub_disjoint a k key : sub a k → Z.land key a ≠ 0 → Z.land k key ≠ 0.
Proof.
  unfold sub. intros E Hn H0. apply Hn. rewrite <- E, (Z.land_comm a), Z.land_assoc, (Z.land_comm key k), H0. apply Z.land_0_l.
Qed.

Fixpoint keys n : list Z :=
  match n with
  | Null => []
  | Leaf k _ => [k]
  | Inner _ _ c0 c1 c2 c3 => keys c0 ++ keys c1 ++ keys c2 ++ keys c3
  end.

(** Every key below a node is at its place there, and the key of a node is a subset of it;
    it may be a smaller one than the intersection, since removing does not update it. *)
Fixpoint wf n : Prop :=
  match n with
  | Null => True
  | Leaf k _ => ok_key k
  | Inner key s c0 c1 c2 c3 =>
      0 <= s ∧ wf c0 ∧ wf c1 ∧ wf c2 ∧ wf c3 ∧
      (∀ k, k ∈ keys c0 → index s k = 0 ∧ sub key k) ∧
      (∀ k, k ∈ keys c1 → index s k = 1 ∧ sub key k) ∧
      (∀ k, k ∈ keys c2 → index s k = 2 ∧ sub key k) ∧
      (∀ k, k ∈ keys c3 → index s k = 3 ∧ sub key k)
  end.

Lemma index_cases s k (P : Prop) : 0 <= s →
  (index s k = 0 → P) → (index s k = 1 → P) → (index s k = 2 → P) → (index s k = 3 → P) → P.
Proof.
  intros Hs H0 H1 H2 H3. pose proof (index_range s k Hs).
  assert (index s k = 0 ∨ index s k = 1 ∨ index s k = 2 ∨ index s k = 3) as Hi by lia. destruct_or! Hi; auto.
Qed.

(** The cases for the child of a key. *)
#[local] Ltac by_child s key :=
  let E := fresh "Ei" in
  apply (index_cases s key); [done| | | |]; intros E; rewrite ?E in *; cbn [Z.eqb Pos.eqb] in *.

Lemma node_sub n k : wf n → k ∈ keys n → sub (node_key n) k.
Proof.
  destruct n as [|k' ms|key s c0 c1 c2 c3]; cbn [wf keys node_key]; [by intros _ ?%elem_of_nil| |].
  - intros _ ->%list_elem_of_singleton. apply Z.land_diag.
  - intros (_ & _ & _ & _ & _ & K0 & K1 & K2 & K3). rewrite !elem_of_app. intros Hk. destruct_or? Hk; naive_solver.
Qed.

Lemma keys_ok n k : wf n → k ∈ keys n → ok_key k.
Proof.
  induction n as [|k' ms|key s c0 IH0 c1 IH1 c2 IH2 c3 IH3]; cbn [wf keys]; [by intros _ ?%elem_of_nil| |].
  - by intros ? ->%list_elem_of_singleton.
  - intros (_ & W0 & W1 & W2 & W3 & _). rewrite !elem_of_app. intros Hk. destruct_or? Hk; auto.
Qed.

(** ** Looking up *)

Lemma find_keys n key ms : find n key = Some ms → key ∈ keys n.
Proof.
  induction n as [|k' ms'|k s c0 IH0 c1 IH1 c2 IH2 c3 IH3]; cbn [find keys]; [done| |].
  - destruct (Z.eqb_spec k' key) as [->|]; [|done]. intros _. by apply list_elem_of_singleton.
  - rewrite !elem_of_app. destruct (_ =? 0); [auto|]. destruct (_ =? 1); [auto|]. destruct (_ =? 2); auto.
Qed.

Lemma keys_find n key : wf n → key ∈ keys n → ∃ ms, find n key = Some ms.
Proof.
  induction n as [|k' ms'|k s c0 IH0 c1 IH1 c2 IH2 c3 IH3]; cbn [find keys wf].
  - by intros _ ?%elem_of_nil.
  - intros _ ->%list_elem_of_singleton. rewrite Z.eqb_refl. by eexists.
  - intros (Hs & W0 & W1 & W2 & W3 & K0 & K1 & K2 & K3). rewrite !elem_of_app.
    intros Hk. destruct_or? Hk; [rewrite (proj1 (K0 _ Hk))|rewrite (proj1 (K1 _ Hk))|rewrite (proj1 (K2 _ Hk))|rewrite (proj1 (K3 _ Hk))];
      cbn [Z.eqb Pos.eqb]; auto.
Qed.

Lemma find_none n key : key ∉ keys n → find n key = None.
Proof. intros Hk. destruct (find n key) eqn:E; [|done]. by apply find_keys in E. Qed.

(** ** The key of a node *)

Lemma and_key_sub x c k : wf c → k ∈ keys c → sub (and_key x c) k.
Proof. intros Hc Hk. destruct c; [by apply elem_of_nil in Hk|by apply sub_land_r, node_sub..]. Qed.

Lemma and_key_keep x c k : sub x k → sub (and_key x c) k.
Proof. intros Hx. destruct c; [done|by apply sub_land_l..]. Qed.

Lemma fix_inner_wf s c0 c1 c2 c3 :
  0 <= s → wf c0 → wf c1 → wf c2 → wf c3 →
  (∀ k, k ∈ keys c0 → index s k = 0) → (∀ k, k ∈ keys c1 → index s k = 1) →
  (∀ k, k ∈ keys c2 → index s k = 2) → (∀ k, k ∈ keys c3 → index s k = 3) →
  wf (fix_inner s c0 c1 c2 c3).
Proof.
  intros Hs W0 W1 W2 W3 K0 K1 K2 K3. cbn [fix_inner wf]. unfold fix_key.
  split_and!; try done; intros k Hk; (split; [auto|]); eauto using and_key_sub, and_key_keep.
Qed.

(** ** Assigning to a leaf *)

Lemma set_mappings_keys n key ms : keys (set_mappings n key ms) = keys n.
Proof.
  induction n as [|k' ms'|k s c0 IH0 c1 IH1 c2 IH2 c3 IH3]; cbn [set_mappings keys]; [done|by destruct (_ =? _)|].
  repeat (destruct (_ =? _); [cbn [keys]; congruence|]). cbn [keys]. congruence.
Qed.

Lemma set_mappings_wf n key ms : wf n → wf (set_mappings n key ms).
Proof.
  induction n as [|k' ms'|k s c0 IH0 c1 IH1 c2 IH2 c3 IH3]; cbn [set_mappings wf]; [done|by destruct (_ =? _)|].
  intros (Hs & W0 & W1 & W2 & W3 & K0 & K1 & K2 & K3).
  repeat (destruct (_ =? _); [cbn [wf]; rewrite set_mappings_keys; split_and!; auto|]).
  cbn [wf]. rewrite set_mappings_keys. split_and!; auto.
Qed.

Lemma find_set_mappings n key ms k : wf n → key ∈ keys n →
  find (set_mappings n key ms) k = if k =? key then Some ms else find n k.
Proof.
  induction n as [|k' ms'|k' s c0 IH0 c1 IH1 c2 IH2 c3 IH3]; cbn [wf keys].
  - by intros _ ?%elem_of_nil.
  - intros _ ->%list_elem_of_singleton. cbn [set_mappings]. rewrite Z.eqb_refl. cbn [find].
    rewrite (Z.eqb_sym k'). by destruct (k =? k').
  - intros (Hs & W0 & W1 & W2 & W3 & K0 & K1 & K2 & K3). rewrite !elem_of_app. intros Hk. cbn [set_mappings].
    assert (Hi : k = key → index s k = index s key) by (by intros ->).
    destruct_or? Hk; [rewrite (proj1 (K0 _ Hk)) in *|rewrite (proj1 (K1 _ Hk)) in *|rewrite (proj1 (K2 _ Hk)) in *|rewrite (proj1 (K3 _ Hk)) in *];
      cbn [Z.eqb Pos.eqb find]; by_child s k; first [by auto|
        (destruct (Z.eqb_spec k key) as [Ek|]; [|done]); specialize (Hi Ek); discriminate].
Qed.

(** ** Inserting *)

Lemma lxor_range k key : ok_key k → ok_key key → 0 <= Z.lxor k key < 2 ^ KEY_BITS.
Proof.
  unfold ok_key. intros Hk Hy. assert (H0 : 0 <= Z.lxor k key) by (apply Z.lxor_nonneg; lia). split; [done|].
  pose proof key_bits. destruct (Z.eqb_spec (Z.lxor k key) 0) as [->|Hn]; [apply Z.pow_pos_nonneg; lia|].
  apply Z.log2_lt_pow2; [lia|]. eapply Z.le_lt_trans; [apply Z.log2_lxor; lia|].
  assert (Hl : ∀ x, 0 <= x < 2 ^ KEY_BITS → Z.log2 x < KEY_BITS).
  { intros x Hx. destruct (Z.eqb_spec x 0) as [->|]; [cbn; lia|]. apply Z.log2_lt_pow2; lia. }
  apply Z.max_lub_lt; auto.
Qed.

(** Two leaves with different keys below a new node. *)
Lemma split_leaf k key ms m : ok_key k → ok_key key → k ≠ key →
  ∃ s c0 c1 c2 c3, 0 <= s ∧ index s k ≠ index s key ∧
    insert (Leaf k ms) key m = Some (fix_inner s c0 c1 c2 c3) ∧
    ∀ i, 0 <= i < 4 → child i c0 c1 c2 c3 =
      if i =? index s key then Leaf key [m] else if i =? index s k then Leaf k ms else Null.
Proof.
  intros Hk Hy Hne. cbn [insert]. pose proof (lxor_range k key Hk Hy) as Hr.
  destruct (Z.eqb_spec (Z.lxor k key) 0) as [E|E]; [apply Z.lxor_eq in E; congruence|].
  destruct (tzcount_bit (Z.lxor k key)) as (c & -> & Hc & Hb); [lia|]. cbn [mbind option_bind].
  exists (c / BRANCH_BITS). do 4 eexists. split; [apply Z.div_pos; unfold BRANCH_BITS; lia|].
  split; [apply index_differ; [lia|done]|]. split; [reflexivity|].
  intros i Hi. assert (i = 0 ∨ i = 1 ∨ i = 2 ∨ i = 3) as Hi' by lia. by destruct_or! Hi'; subst.
Qed.

(** A node in terms of the child of a key: what holds for every place. *)
Lemma keys_inner a s c0 c1 c2 c3 k : wf (Inner a s c0 c1 c2 c3) →
  k ∈ keys (Inner a s c0 c1 c2 c3) ↔ k ∈ keys (child (index s k) c0 c1 c2 c3).
Proof.
  cbn [wf keys]. intros (Hs & _ & _ & _ & _ & K0 & K1 & K2 & K3). rewrite !elem_of_app. unfold child. split.
  - intros Hk. destruct_or? Hk; [rewrite (proj1 (K0 _ Hk))|rewrite (proj1 (K1 _ Hk))|rewrite (proj1 (K2 _ Hk))|rewrite (proj1 (K3 _ Hk))]; done.
  - repeat destruct (_ =? _); auto.
Qed.

Lemma find_inner a s c0 c1 c2 c3 k : find (Inner a s c0 c1 c2 c3) k = find (child (index s k) c0 c1 c2 c3) k.
Proof. cbn [find]. unfold child. by repeat destruct (_ =? _). Qed.

Definition with_child (i : Z) (c : Node) (s : Z) (c0 c1 c2 c3 : Node) : Node :=
  fix_inner s (if i =? 0 then c else c0) (if i =? 1 then c else c1)
    (if i =? 2 then c else c2) (if i =? 3 then c else c3).

Lemma insert_inner a s c0 c1 c2 c3 key m : 0 <= s →
  insert (Inner a s c0 c1 c2 c3) key m =
  (c ← insert (child (index s key) c0 c1 c2 c3) key m; Some (with_child (index s key) c s c0 c1 c2 c3)).
Proof. intros Hs. cbn [insert]. by_child s key; done. Qed.

Lemma child_with i c c0 c1 c2 c3 j : 0 <= i < 4 → 0 <= j < 4 →
  child j (if i =? 0 then c else c0) (if i =? 1 then c else c1) (if i =? 2 then c else c2)
    (if i =? 3 then c else c3) = if j =? i then c else child j c0 c1 c2 c3.
Proof.
  intros Hi Hj. assert (i = 0 ∨ i = 1 ∨ i = 2 ∨ i = 3) as Hi' by lia. assert (j = 0 ∨ j = 1 ∨ j = 2 ∨ j = 3) as Hj' by lia.
  by destruct_or! Hi'; destruct_or! Hj'; subst.
Qed.

(** A new node from children at their places. *)
Lemma fix_inner_child_wf s c0 c1 c2 c3 : 0 <= s →
  (∀ i, 0 <= i < 4 → wf (child i c0 c1 c2 c3) ∧ ∀ k, k ∈ keys (child i c0 c1 c2 c3) → index s k = i) →
  wf (fix_inner s c0 c1 c2 c3).
Proof.
  intros Hs H. destruct (H 0 ltac:(lia)), (H 1 ltac:(lia)), (H 2 ltac:(lia)), (H 3 ltac:(lia)).
  by apply fix_inner_wf.
Qed.

Lemma inner_child_wf a s c0 c1 c2 c3 i : wf (Inner a s c0 c1 c2 c3) → 0 <= i < 4 →
  0 <= s ∧ wf (child i c0 c1 c2 c3) ∧ ∀ k, k ∈ keys (child i c0 c1 c2 c3) → index s k = i.
Proof.
  cbn [wf]. intros (Hs & W0 & W1 & W2 & W3 & K0 & K1 & K2 & K3) Hi. split; [done|].
  assert (i = 0 ∨ i = 1 ∨ i = 2 ∨ i = 3) as Hi' by lia. destruct_or! Hi'; subst; cbn; naive_solver.
Qed.

(** Induction over a tree by the children at their places. *)
Lemma node_ind (P : Node → Prop) :
  P Null → (∀ k ms, P (Leaf k ms)) →
  (∀ a s c0 c1 c2 c3, (∀ i, P (child i c0 c1 c2 c3)) → P (Inner a s c0 c1 c2 c3)) → ∀ n, P n.
Proof.
  intros HN HL HI. induction n as [|k' ms'|k s c0 IH0 c1 IH1 c2 IH2 c3 IH3]; [done..|].
  apply HI. intros i. unfold child. by repeat destruct (_ =? _).
Qed.

Lemma radix_insert_ok n : ∀ key m, wf n → ok_key key → ∃ n', insert n key m = Some n' ∧ wf n' ∧
  (∀ k, k ∈ keys n' ↔ k = key ∨ k ∈ keys n) ∧
  ∀ k, find n' k = if k =? key then Some (m :: default [] (find n key)) else find n k.
Proof.
  induction n as [|k' ms|a s c0 c1 c2 c3 IH] using node_ind; intros key m Hw Hk.
  - exists (Leaf key [m]). split; [done|]. split; [done|]. split.
    + intros k. cbn [keys]. rewrite list_elem_of_singleton, elem_of_nil. tauto.
    + intros k. cbn [find]. rewrite (Z.eqb_sym key). by destruct (k =? key).
  - destruct (decide (k' = key)) as [->|Hne].
    + exists (Leaf key (m :: ms)). cbn [insert find]. rewrite Z.lxor_nilpotent. split; [done|]. split; [done|]. split.
      * intros k. cbn [keys]. rewrite list_elem_of_singleton. tauto.
      * intros k. rewrite Z.eqb_refl, (Z.eqb_sym key). by destruct (k =? key).
    + destruct (split_leaf k' key ms m Hw Hk Hne) as (s & c0 & c1 & c2 & c3 & Hs & Hi & E & Hc).
      exists (fix_inner s c0 c1 c2 c3). split; [exact E|].
      assert (Hw' : wf (fix_inner s c0 c1 c2 c3)).
      { apply fix_inner_child_wf; [done|]. intros i Hi'. rewrite Hc by done.
        destruct (Z.eqb_spec i (index s key)) as [->|]; [|destruct (Z.eqb_spec i (index s k')) as [->|]];
          cbn [wf keys]; (split; [done|]); intros k; [by intros ->%list_elem_of_singleton..|by intros ?%elem_of_nil]. }
      split; [exact Hw'|]. pose proof (index_range s) as Hir. split.
      * intros k. unfold fix_inner. rewrite keys_inner, Hc by (done || auto). cbn [keys].
        destruct (Z.eqb_spec (index s k) (index s key)) as [E1|E1]; [|destruct (Z.eqb_spec (index s k) (index s k')) as [E2|E2]];
          cbn [keys]; rewrite ?list_elem_of_singleton, ?elem_of_nil.
        -- split; [by left|]. intros [? | ->]; [done|congruence].
        -- split; [by right|]. intros [-> | ?]; [congruence|done].
        -- split; [done|]. intros [-> | ->]; congruence.
      * intros k. unfold fix_inner. rewrite find_inner, Hc by auto. cbn [find default].
        rewrite (proj2 (Z.eqb_neq k' key)) by done. cbn [default].
        destruct (Z.eqb_spec k key) as [->|Hk1]; [by rewrite Z.eqb_refl; cbn [find]; rewrite Z.eqb_refl|].
        destruct (Z.eqb_spec (index s k) (index s key)) as [E1|E1]; cbn [find].
        { rewrite (proj2 (Z.eqb_neq key k)) by congruence. destruct (Z.eqb_spec k' k); [subst; congruence|done]. }
        destruct (Z.eqb_spec (index s k) (index s k')) as [E2|E2]; [done|]. cbn [find].
        destruct (Z.eqb_spec k' k); [subst; congruence|done].
  - assert (Hs : 0 <= s) by apply Hw. pose proof (index_range s) as Hir.
    set (i := index s key). assert (Hi : 0 <= i < 4) by (by apply Hir).
    destruct (inner_child_wf _ _ _ _ _ _ i Hw Hi) as (_ & Wi & Ki).
    destruct (IH i key m Wi Hk) as (c & E & Wc & Kc & Fc). rewrite insert_inner by done. fold i. rewrite E.
    cbn [mbind option_bind]. eexists. split; [reflexivity|]. unfold with_child.
    assert (Hw' : wf (fix_inner s (if i =? 0 then c else c0) (if i =? 1 then c else c1)
      (if i =? 2 then c else c2) (if i =? 3 then c else c3))).
    { apply fix_inner_child_wf; [done|]. intros j Hj. rewrite child_with by done.
      destruct (Z.eqb_spec j i) as [->|]; [|by apply (inner_child_wf _ _ _ _ _ _ j Hw)].
      split; [done|]. intros k [->|Hin]%Kc; [done|by apply Ki]. }
    split; [exact Hw'|]. split.
    + intros k. unfold fix_inner. rewrite keys_inner, (keys_inner _ _ _ _ _ _ _ Hw), child_with by (done || auto).
      destruct (Z.eqb_spec (index s k) i) as [Ek|Ek]; [rewrite Kc, Ek; tauto|].
      split; [by right|]. intros [-> | ?]; done.
    + intros k. unfold fix_inner. rewrite !find_inner, child_with by auto. fold i.
      destruct (Z.eqb_spec (index s k) i) as [Ek|Ek]; [rewrite Fc, Ek; done|].
      destruct (Z.eqb_spec k key) as [->|]; done.
Qed.

(** ** Removing *)

Lemma collapse_ok (P : Node → Prop) a s c0 c1 c2 c3 :
  P (Inner a s c0 c1 c2 c3) →
  (c0 = Null → c1 = Null → c2 = Null → c3 = Null → P Null) →
  (∀ i, 0 <= i < 4 → (∀ j, 0 <= j < 4 → j ≠ i → child j c0 c1 c2 c3 = Null) → P (child i c0 c1 c2 c3)) →
  P (collapse a s c0 c1 c2 c3).
Proof.
  intros HI HN HC. unfold collapse.
  assert (H0 := HC 0 ltac:(lia)). assert (H1 := HC 1 ltac:(lia)). assert (H2 := HC 2 ltac:(lia)). assert (H3 := HC 3 ltac:(lia)).
  assert (Hj : ∀ j, 0 <= j < 4 → j = 0 ∨ j = 1 ∨ j = 2 ∨ j = 3) by lia.
  destruct c0, c1, c2, c3; cbn [non_null app]; try exact HI; try (by apply HN);
    first [apply H0|apply H1|apply H2|apply H3]; intros j Hr Hne; specialize (Hj j Hr); destruct_or! Hj; subst; (done || reflexivity).
Qed.

Lemma remove_inner a s c0 c1 c2 c3 key : 0 <= s →
  remove (Inner a s c0 c1 c2 c3) key =
  let i := index s key in
  let c := remove (child i c0 c1 c2 c3) key in
  removed a s c (if i =? 0 then c else c0) (if i =? 1 then c else c1)
    (if i =? 2 then c else c2) (if i =? 3 then c else c3).
Proof. intros Hs. cbn [remove]. by_child s key; done. Qed.

(** Without one key, and the rest as before. *)
Definition without (n n' : Node) key : Prop :=
  wf n' ∧ ∀ k, find n' k = if k =? key then None else find n k.

Lemma find_keys_iff n k : wf n → k ∈ keys n ↔ is_Some (find n k).
Proof.
  intros Hw. split; [intros Hk; by apply keys_find|]. intros [ms E]. by eapply find_keys.
Qed.

Lemma radix_remove_ok n : ∀ key, wf n → without n (remove n key) key.
Proof.
  induction n as [|k' ms|a s c0 c1 c2 c3 IH] using node_ind; intros key Hw.
  - split; [done|]. intros k. cbn. by destruct (_ =? _).
  - cbn [remove]. destruct (Z.eqb_spec k' key) as [->|Hne]; cbn [negb].
    + split; [done|]. intros k. cbn [find]. rewrite (Z.eqb_sym key). by destruct (k =? key).
    + split; [done|]. intros k. cbn [find]. destruct (Z.eqb_spec k key) as [->|]; [|done].
      by rewrite (proj2 (Z.eqb_neq k' key)).
  - assert (Hs : 0 <= s) by apply Hw. pose proof (index_range s) as Hir. rewrite remove_inner by done. cbv zeta.
    set (i := index s key). assert (Hi : 0 <= i < 4) by (by apply Hir).
    destruct (inner_child_wf _ _ _ _ _ _ i Hw Hi) as (_ & Wi & Ki).
    destruct (IH i key Wi) as [Wc Fc]. set (c := remove (child i c0 c1 c2 c3) key) in *.
    set (d0 := if i =? 0 then c else c0). set (d1 := if i =? 1 then c else c1).
    set (d2 := if i =? 2 then c else c2). set (d3 := if i =? 3 then c else c3).
    assert (Hd : ∀ j, 0 <= j < 4 → child j d0 d1 d2 d3 = if j =? i then c else child j c0 c1 c2 c3).
    { intros j Hj. by apply child_with. }
    assert (Hkc : ∀ k, k ∈ keys c → k ≠ key ∧ k ∈ keys (child i c0 c1 c2 c3)).
    { intros k Hk. apply find_keys_iff in Hk; [|done]. rewrite Fc in Hk. destruct (Z.eqb_spec k key); [by destruct Hk|].
      split; [done|]. by apply find_keys_iff. }
    assert (Hdk : ∀ j, 0 <= j < 4 → wf (child j d0 d1 d2 d3) ∧ ∀ k, k ∈ keys (child j d0 d1 d2 d3) → index s k = j ∧ k ∈ keys (child j c0 c1 c2 c3)).
    { intros j Hj. rewrite Hd by done. destruct (Z.eqb_spec j i) as [->|].
      - split; [done|]. intros k [_ Hk]%Hkc. split; [by apply Ki|done].
      - destruct (inner_child_wf _ _ _ _ _ _ j Hw Hj) as (_ & Wj & Kj). split; [done|]. intros k Hk. split; [by apply Kj|done]. }
    assert (Hfd : ∀ k, find (child (index s k) d0 d1 d2 d3) k = if k =? key then None else find (Inner a s c0 c1 c2 c3) k).
    { intros k. rewrite Hd, find_inner by auto. destruct (Z.eqb_spec (index s k) i) as [Ek|Ek]; [by rewrite Fc, Ek|].
      destruct (Z.eqb_spec k key) as [->|]; done. }
    assert (Hfix : without (Inner a s c0 c1 c2 c3) (fix_inner s d0 d1 d2 d3) key).
    { split.
      - apply fix_inner_child_wf; [done|]. intros j Hj. destruct (Hdk j Hj) as [W Kk]. split; [done|]. intros k Hk. by apply Kk.
      - intros k. unfold fix_inner. rewrite find_inner. apply Hfd. }
    unfold removed. destruct c as [|kc msc|ac sc x0 x1 x2 x3] eqn:Ec; [|exact Hfix|exact Hfix].
    apply collapse_ok.
    + split; [|intros k; rewrite find_inner; apply Hfd].
      cbn [wf] in Hw. destruct Hw as (_ & W0 & W1 & W2 & W3 & K0 & K1 & K2 & K3).
      destruct (Hdk 0 ltac:(lia)) as [V0 L0], (Hdk 1 ltac:(lia)) as [V1 L1], (Hdk 2 ltac:(lia)) as [V2 L2], (Hdk 3 ltac:(lia)) as [V3 L3].
      cbn [child] in *. unfold child in *. cbn [Z.eqb Pos.eqb] in *.
      cbn [wf]. split_and!; try done; intros k Hk; naive_solver.
    + intros -> -> -> ->. split; [done|]. intros k. rewrite <- Hfd. unfold child. by repeat destruct (_ =? _).
    + intros j Hj Hnull. destruct (Hdk j Hj) as [Wj Kj]. split; [done|]. intros k. rewrite <- Hfd.
      destruct (decide (index s k = j)) as [<-|Hne]; [done|]. rewrite (Hnull (index s k)) by auto.
      apply find_none. intros Hk. by apply Kj in Hk as [? _].
Qed.

(** ** Complements *)

Lemma orelse_some {A} (x y : option A) r : orelse x y = Some r → x = Some r ∨ y = Some r.
Proof. destruct x; [by left|by right]. Qed.

Lemma may_fit_complete c key k : wf c → k ∈ keys c → Z.land k key = 0 → may_fit key c = true.
Proof.
  intros Hw Hk Hl. pose proof (node_sub c k Hw Hk) as Hsub.
  assert (Hz : Z.land key (node_key c) = 0).
  { destruct (Z.eq_dec (Z.land key (node_key c)) 0) as [|Hn]; [done|]. exfalso. by apply (sub_disjoint _ k key Hsub Hn). }
  destruct c; [by apply elem_of_nil in Hk|..]; by apply Z.eqb_eq.
Qed.

Lemma complement_ok n key : wf n →
  match findAnyComplement n key with
  | Some (k, ms) => find n k = Some ms ∧ Z.land k key = 0
  | None => ∀ k, k ∈ keys n → Z.land k key ≠ 0
  end.
Proof.
  induction n as [|k' ms|a s c0 c1 c2 c3 IH] using node_ind; intros Hw; cbn [findAnyComplement].
  - intros k Hk. by apply elem_of_nil in Hk.
  - destruct (Z.eqb_spec (Z.land k' key) 0); [cbn [find]; by rewrite Z.eqb_refl|].
    intros k ->%list_elem_of_singleton. done.
  - assert (Hs : 0 <= s) by apply Hw.
    assert (Hc : ∀ i, 0 <= i < 4 → match (if may_fit key (child i c0 c1 c2 c3) then findAnyComplement (child i c0 c1 c2 c3) key else None) with
      | Some (k, ms) => find (Inner a s c0 c1 c2 c3) k = Some ms ∧ Z.land k key = 0
      | None => ∀ k, k ∈ keys (child i c0 c1 c2 c3) → Z.land k key ≠ 0 end).
    { intros i Hi. destruct (inner_child_wf _ _ _ _ _ _ i Hw Hi) as (_ & Wi & Ki). specialize (IH i Wi).
      destruct (may_fit key (child i c0 c1 c2 c3)) eqn:Em.
      - destruct (findAnyComplement _ _) as [[k ms]|]; [|done]. destruct IH as [Ef El]. split; [|done].
        by rewrite find_inner, (Ki k) by (by eapply find_keys).
      - intros k Hk El. by rewrite (may_fit_complete _ _ k) in Em. }
    pose proof (Hc 0 ltac:(lia)) as H0. pose proof (Hc 1 ltac:(lia)) as H1. pose proof (Hc 2 ltac:(lia)) as H2. pose proof (Hc 3 ltac:(lia)) as H3.
    unfold child in H0, H1, H2, H3. cbn [Z.eqb Pos.eqb] in H0, H1, H2, H3.
    repeat match goal with |- context [orelse ?x _] => destruct x as [[? ?]|]; cbn [orelse]; [done|] end.
    match goal with |- match ?x with _ => _ end => destruct x as [[? ?]|]; [done|] end.
    intros k. cbn [keys]. rewrite !elem_of_app. intros Hk. destruct_or? Hk; auto.
Qed.

(** ** The groups of the tree *)

Lemma collect_insert n : ∀ key m n', wf n → ok_key key → insert n key m = Some n' →
  collectMappings n' ≡ₚ m :: collectMappings n.
Proof.
  induction n as [|k' ms|a s c0 IH0 c1 IH1 c2 IH2 c3 IH3]; intros key m n' Hw Hk.
  - by intros [= <-].
  - destruct (decide (k' = key)) as [->|Hne].
    { cbn [insert]. rewrite Z.lxor_nilpotent. by intros [= <-]. }
    destruct (split_leaf k' key ms m Hw Hk Hne) as (s & c0 & c1 & c2 & c3 & Hs & Hi & -> & Hc). intros [= <-].
    pose proof (Hc 0 ltac:(lia)) as E0. pose proof (Hc 1 ltac:(lia)) as E1.
    pose proof (Hc 2 ltac:(lia)) as E2. pose proof (Hc 3 ltac:(lia)) as E3. clear Hc.
    unfold child in E0, E1, E2, E3. cbn [Z.eqb Pos.eqb] in E0, E1, E2, E3. subst c0 c1 c2 c3.
    cbn [collectMappings fix_inner]. by_child s k'; by_child s key; try done;
      cbn [collectMappings app]; rewrite ?app_nil_r; solve_Permutation.
  - destruct Hw as (Hs & W0 & W1 & W2 & W3 & _). cbn [insert].
    by_child s key;
      match goal with |- (?x ≫= _) = _ → _ => destruct x as [c|] eqn:E; [|done] end; intros [= <-];
      cbn [collectMappings fix_inner];
      first [rewrite (IH0 _ _ _ W0 Hk E)|rewrite (IH1 _ _ _ W1 Hk E)|rewrite (IH2 _ _ _ W2 Hk E)|rewrite (IH3 _ _ _ W3 Hk E)];
      solve_Permutation.
Qed.

(** The groups of one leaf and the others. *)
Lemma collect_set n key ms : wf n → find n key = Some ms → ∃ rest,
  collectMappings n ≡ₚ ms ++ rest ∧ ∀ ms', collectMappings (set_mappings n key ms') ≡ₚ ms' ++ rest.
Proof.
  induction n as [|k' ms0|a s c0 IH0 c1 IH1 c2 IH2 c3 IH3]; intros Hw; [done| |].
  - cbn [find set_mappings]. destruct (Z.eqb_spec k' key) as [->|]; [|done]. intros [= ->].
    exists []. cbn [collectMappings]. rewrite app_nil_r. split; [done|]. intros ms'. by rewrite app_nil_r.
  - destruct Hw as (Hs & W0 & W1 & W2 & W3 & _). cbn [find set_mappings]. by_child s key; intros E.
    + destruct (IH0 W0 E) as (rest & E1 & E2). exists (rest ++ collectMappings c1 ++ collectMappings c2 ++ collectMappings c3).
      cbn [collectMappings]. split; [rewrite E1|intros; rewrite E2]; solve_Permutation.
    + destruct (IH1 W1 E) as (rest & E1 & E2). exists (rest ++ collectMappings c0 ++ collectMappings c2 ++ collectMappings c3).
      cbn [collectMappings]. split; [rewrite E1|intros; rewrite E2]; solve_Permutation.
    + destruct (IH2 W2 E) as (rest & E1 & E2). exists (rest ++ collectMappings c0 ++ collectMappings c1 ++ collectMappings c3).
      cbn [collectMappings]. split; [rewrite E1|intros; rewrite E2]; solve_Permutation.
    + destruct (IH3 W3 E) as (rest & E1 & E2). exists (rest ++ collectMappings c0 ++ collectMappings c1 ++ collectMappings c2).
      cbn [collectMappings]. split; [rewrite E1|intros; rewrite E2]; solve_Permutation.
Qed.

Lemma collect_removed a s c d0 d1 d2 d3 :
  collectMappings (removed a s c d0 d1 d2 d3) =
  collectMappings d0 ++ collectMappings d1 ++ collectMappings d2 ++ collectMappings d3.
Proof.
  unfold removed, collapse. destruct c; [|done|done].
  destruct d0, d1, d2, d3; cbn [non_null app collectMappings]; rewrite ?app_nil_r; done.
Qed.

Lemma collect_remove n key ms : wf n → find n key = Some ms →
  collectMappings n ≡ₚ ms ++ collectMappings (remove n key).
Proof.
  induction n as [|k' ms0|a s c0 IH0 c1 IH1 c2 IH2 c3 IH3]; intros Hw; [done| |].
  - cbn [find remove]. destruct (Z.eqb_spec k' key) as [->|]; [|done]. intros [= ->]. cbn. by rewrite app_nil_r.
  - destruct Hw as (Hs & W0 & W1 & W2 & W3 & _). cbn [find remove]. by_child s key; intros E; rewrite collect_removed; cbn [collectMappings];
      first [rewrite (IH0 W0 E)|rewrite (IH1 W1 E)|rewrite (IH2 W2 E)|rewrite (IH3 W3 E)]; solve_Permutation.
Qed.

End Tree.

(** ** Properties *)

(** The tree after a change at one key. *)
Definition changed `{K : Key} (n n' : Node) (key : Z) (r : option (list Group)) : Prop :=
  ∀ k, find n' k = if k =? key then r else find n k.

(** C12: the radix tree is a finite map from keys to lists of groups, and its search for a
    key that can be merged is complete.  In a tree in which every key is at its place,
    inserting never fails, adds the group to the list of its key and keeps the others;
    removing drops one key; replacing the list of a leaf replaces that; the tree stays well
    formed; and [findAnyComplement] returns a leaf whose key is disjoint from the given one
    whenever there is one, although it prunes by the keys of inner nodes, which removing
    leaves out of date. *)
Theorem radix_is_map `{K : Key} `{!KeyLaws K} n key m : wf n → ok_key key →
  (∃ n', insert n key m = Some n' ∧ wf n' ∧ changed n n' key (Some (m :: default [] (find n key)))) ∧
  (wf (remove n key) ∧ changed n (remove n key) key None) ∧
  (∀ ms, is_Some (find n key) → wf (set_mappings n key ms) ∧ changed n (set_mappings n key ms) key (Some ms)) ∧
  match findAnyComplement n key with
  | Some (k, ms) => find n k = Some ms ∧ Z.land k key = 0
  | None => ∀ k ms, find n k = Some ms → Z.land k key ≠ 0
  end.
Proof.
  intros Hw Hk. destruct (radix_insert_ok n key m Hw Hk) as (n' & E & W & _ & F). split; [by exists n'|].
  split; [exact (radix_remove_ok n key Hw)|]. split.
  - intros ms Hs. split; [by apply set_mappings_wf|]. intros k. apply find_set_mappings; [done|]. by apply find_keys_iff.
  - pose proof (complement_ok n key Hw) as Hc. destruct (findAnyComplement n key) as [[k ms]|]; [done|].
    intros k ms Hf. apply Hc. by eapply find_keys.
Qed.

(** Three keys, of which the third only fits to the second. *)
Definition sample_tree : Node :=
  default Null (n ← insert (K := Key128) Null 0x0f [];
                n ← insert (K := Key128) n 0xf0 [];
                insert (K := Key128) n 0xf00 []).

Lemma radix_is_map_witness : wf (K := Key128) sample_tree ∧ findAnyComplement sample_tree 0xf0f = Some (0xf0, [[]]).
Proof.
  assert (Hw : wf (K := Key128) sample_tree).
  { vm_compute. split_and!; try done; intros k Hk; try (by apply elem_of_nil in Hk);
      (apply list_elem_of_singleton in Hk as ->; by vm_compute) || (repeat (apply elem_of_cons in Hk as [->|Hk]; [by vm_compute|]); by apply elem_of_nil in Hk). }
  split; [exact Hw|].
  pose proof (radix_is_map (K := Key128) sample_tree 0xf0f [] Hw ltac:(unfold ok_key; cbn; lia)) as (_ & _ & _ & H).
  destruct (findAnyComplement sample_tree 0xf0f) as [[k ms]|] eqn:E; vm_compute in E; [by injection E as <- <-|done].
Defined.

End MappingTree.
