(* ===== verification/E9MappingSpec.v ===== *)
(** * E9MappingSpec: the mappings of an address space

    [buildMappings] covers the trampolines of the address space, the key of a mapping covers
    its bytes, and [merge] puts only mappings with disjoint keys into one group. *)

From stdpp Require Import gmap sorting.
From S2P Require Import Prelude E9Patch E9Alloc E9AllocTree E9AllocApi E9Tactics E9Mapping E9MappingTree.

Module MappingSpec.
Import E9 E9Alloc AllocTree E9Tactics E9Mapping MappingTree.

(** ** The address space *)

(** The allocations in the order of the iteration, and the size of the mappings. *)
Record space_ok (Ts : gmap ptr Trampoline) (SIZE : Z) (l : Iterator) : Prop := {
  sp_sorted : StronglySorted before l;
  sp_range x : x ∈ l → - 2 ^ 63 + 2 * SIZE <= a_lb x.2 ∧ a_lb x.2 <= a_ub x.2 ∧ a_ub x.2 + SIZE < 2 ^ 63;
  sp_filled x : x ∈ l → a_T x.2 ≠ None → a_lb x.2 < a_ub x.2;
  sp_templates x T : x ∈ l → a_T x.2 = Some T → is_Some (Ts !! T);
  sp_size : ∃ n, 0 <= n < 62 ∧ SIZE = 2 ^ n }.

Section Spec.
Context (Ts : gmap ptr Trampoline) (SIZE : Z) (l : Iterator) (SP : space_ok Ts SIZE l).

Lemma size_pos : 0 < SIZE < 2 ^ 62.
Proof. destruct (sp_size _ _ _ SP) as (n & Hn & ->). split; [apply Z.pow_pos_nonneg; lia|apply Z.pow_lt_mono_r; lia]. Qed.

(** The start of the mapping that an address is in. *)
Lemma base_of x : - 2 ^ 63 + SIZE <= x < 2 ^ 63 →
  s64 (x - u64 x mod SIZE) = x - x mod SIZE ∧ 0 <= x mod SIZE < SIZE ∧ (SIZE | x - x mod SIZE).
Proof.
  intros Hx. pose proof size_pos. assert (Hd : (SIZE | 2 ^ 64)).
  { destruct (sp_size _ _ _ SP) as (n & Hn & ->). exists (2 ^ (64 - n)). rewrite <- Z.pow_add_r by lia. f_equal. lia. }
  assert (Em : u64 x mod SIZE = x mod SIZE).
  { unfold wrapu. destruct Hd as [k Hk]. rewrite Hk, (Z.mul_comm k). rewrite Z.rem_mul_r by lia.
    rewrite (Z.mul_comm SIZE), Z_mod_plus_full. apply Z.mod_mod. lia. }
  pose proof (Z.mod_pos_bound x SIZE ltac:(lia)). rewrite Em, wraps_small by lia.
  split_and!; try done; try lia. exists (x / SIZE). rewrite (Z_div_mod_eq_full x SIZE) at 1. lia.
Qed.

(** A mapping: a slot of the address space, and the first allocation in it. *)
Record mapping_ok (m : Mapping) : Prop := {
  mo_size : m_size m = SIZE;
  mo_base : (SIZE | m_base m);
  mo_range : - 2 ^ 63 + SIZE <= m_base m ∧ m_base m + SIZE < 2 ^ 63;
  mo_iter : ∃ pre p a i, l = pre ++ (p, a) :: i ∧ m_i m = (p, a) :: i ∧ a_T a ≠ None ∧
    a_lb a < m_base m + SIZE ∧ m_base m < a_ub a ∧
    ∀ y, y ∈ pre → a_T y.2 ≠ None → a_ub y.2 <= m_base m;
  mo_bounds : m_lb m = b_lb (calculateBounds m) ∧ m_ub m = b_ub (calculateBounds m) }.

(** An address in a mapping. *)
Definition in_mapping (m : Mapping) (x : Z) : Prop := m_base m <= x < m_base m + SIZE.

(** The allocations with a trampoline of [k] are in the mappings. *)
Definition covered (ms : list Mapping) (k : Iterator) : Prop :=
  ∀ y x, y ∈ k → a_T y.2 ≠ None → a_lb y.2 <= x < a_ub y.2 → ∃ m, m ∈ ms ∧ in_mapping m x.

(** The mappings are in the order of their addresses. *)
Definition apart (m m' : Mapping) : Prop := m_base m + SIZE <= m_base m'.

(** The loops that look up templates do not fail. *)
Lemma prot_loop_some END i : ∀ p, (∀ x T, x ∈ i → a_T x.2 = Some T → is_Some (Ts !! T)) →
  ∃ q, prot_loop Ts END i p = Some q.
Proof.
  induction i as [|[n a] i IH]; intros p Hi; cbn [prot_loop]; [by eexists|].
  destruct (_ <=? _); [by eexists|].
  assert (IH' := λ p, IH p (λ x T Hx, Hi x T (list_elem_of_further _ _ _ Hx))).
  destruct (a_T a) as [T|] eqn:E; [|apply IH'].
  destruct (Hi (n, a) T ltac:(left) E) as [t ->]. cbn [mbind option_bind]. apply IH'.
Qed.

Lemma preload_loop_some END i : (∀ x T, x ∈ i → a_T x.2 = Some T → is_Some (Ts !! T)) →
  ∃ q, preload_loop Ts END i = Some q.
Proof.
  induction i as [|[n a] i IH]; intros Hi; cbn [preload_loop]; [by eexists|].
  destruct (_ <=? _); [by eexists|].
  assert (IH' := IH (λ x T Hx, Hi x T (list_elem_of_further _ _ _ Hx))).
  destruct (a_T a) as [T|] eqn:E; [|apply IH'].
  destruct (Hi (n, a) T ltac:(left) E) as [t ->]. cbn [mbind option_bind]. destruct (preload t); [by eexists|apply IH'].
Qed.

(** A new mapping, before its bounds are set. *)
Definition fresh (m : Mapping) : Prop :=
  mapping_ok (MkMapping (b_lb (calculateBounds m)) (b_ub (calculateBounds m)) (m_base m) (m_size m) (m_i m)
    (m_prot m) (m_preload m) (m_offset m)).

Lemma save_ok m ms stat : fresh m → ∃ m', saveMapping Ts (Some m) ms stat = Some (ms ++ [m'], u64 (stat + 1)) ∧
  mapping_ok m' ∧ m_base m' = m_base m ∧ m_i m' = m_i m.
Proof.
  intros Hf. cbn [saveMapping]. pose proof Hf as [H1 H2 H3 (pre & p & a & i & El & Ei & _) _].
  assert (Hi : ∀ x T, x ∈ m_i m → a_T x.2 = Some T → is_Some (Ts !! T)).
  { intros x T Hx. apply (sp_templates _ _ _ SP). rewrite El. cbn [m_i] in Ei. rewrite <- Ei. apply elem_of_app. by right. }
  unfold calculateProtections, calculatePreload.
  destruct (prot_loop_some (m_base m + m_size m) (m_i m) 0 Hi) as [q ->]. cbn [mbind option_bind].
  destruct (preload_loop_some (m_base m + m_size m) (m_i m) Hi) as [r ->]. cbn [mbind option_bind].
  eexists. split; [reflexivity|]. split_and!; [|done|done]. destruct Hf as [G1 G2 G3 G4 G5]. by split.
Qed.

(** ** Building mappings

    The state of the loop: [pre] was seen, [m] is the mapping that is being built, and [ms]
    are those before it. *)
Record building (pre : Iterator) (base : Z) (m : option Mapping) (ms : list Mapping) : Prop := {
  bu_fresh : match m with None => base = INTPTR_MIN ∧ ms = [] | Some m => fresh m ∧ m_base m = base end;
  bu_ok : Forall mapping_ok ms;
  bu_apart : StronglySorted apart ms;
  bu_below m' : m' ∈ ms → m_base m' + SIZE <= base;
  bu_seen y : y ∈ pre → a_T y.2 ≠ None → m ≠ None ∧ a_ub y.2 <= base + SIZE;
  bu_covered y x : y ∈ pre → a_T y.2 ≠ None → a_lb y.2 <= x < a_ub y.2 → x < base →
    ∃ m, m ∈ ms ∧ in_mapping m x }.

(** The mapping in work becomes one of the others. *)
Lemma building_saved pre base m ms stat base' : building pre base m ms → (m ≠ None → base + SIZE <= base') →
  ∃ ms' stat', saveMapping Ts m ms stat = Some (ms', stat') ∧
    Forall mapping_ok ms' ∧ StronglySorted apart ms' ∧ (∀ m', m' ∈ ms' → m_base m' + SIZE <= base') ∧
    (∀ y x, y ∈ pre → a_T y.2 ≠ None → a_lb y.2 <= x < a_ub y.2 → ∃ m, m ∈ ms' ∧ in_mapping m x) ∧
    (∀ x, m ≠ None → base <= x < base + SIZE → ∃ m, m ∈ ms' ∧ in_mapping m x) ∧
    (m = None → ms' = []) ∧ (∀ m, m ∈ ms → m ∈ ms').
Proof.
  intros [B1 B2 B3 B4 B5 B6] Hb. destruct m as [m|].
  - destruct B1 as [Hf Em]. specialize (Hb ltac:(done)). pose proof size_pos.
    destruct (save_ok m ms stat Hf) as (m' & E & Hm' & Eb & Ei). exists (ms ++ [m']), (u64 (stat + 1)). split; [exact E|].
    assert (Hin : ∀ x, base <= x < base + SIZE → ∃ m, m ∈ ms ++ [m'] ∧ in_mapping m x).
    { intros x Hx. exists m'. split; [apply elem_of_app; right; by apply list_elem_of_singleton|]. unfold in_mapping. lia. }
    split_and!.
    + apply Forall_app_2; [done|by constructor].
    + apply StronglySorted_app. split_and!; [|done|by repeat constructor].
      intros x y Hx ->%list_elem_of_singleton. unfold apart. rewrite Eb, Em. by apply B4.
    + intros m1 [Hm1%B4| ->%list_elem_of_singleton]%elem_of_app; lia.
    + intros y x Hy HT Hx. destruct (Z.ltb_spec x base).
      * destruct (B6 y x Hy HT Hx) as (m1 & Hm1 & Hin1); [done|]. exists m1. split; [|done]. apply elem_of_app. by left.
      * destruct (B5 y Hy HT) as [_ Hub]. apply Hin. lia.
    + intros x _. apply Hin.
    + done.
    + intros m1 Hm1. apply elem_of_app. by left.
  - destruct B1 as [_ ->]. exists [], stat. split_and!; try done; [by intros m' ?%elem_of_nil|].
    intros y x Hy HT. by destruct (B5 y Hy HT).
Qed.

(** A new mapping at [base'] for the allocation [a]. *)
Lemma fresh_alloc pre p a rest base' : l = pre ++ (p, a) :: rest → a_T a ≠ None → (SIZE | base') →
  - 2 ^ 63 + SIZE <= base' → a_lb a < base' + SIZE → base' < a_ub a →
  (∀ y, y ∈ pre → a_T y.2 ≠ None → a_ub y.2 <= base') → fresh (allocMapping ((p, a) :: rest) SIZE base').
Proof.
  intros El HT Hd Hlo Hlb Hub Hpre. destruct (sp_range _ _ _ SP (p, a)) as (_ & _ & Hr).
  { rewrite El. apply elem_of_app. right. left. }
  cbn [snd] in Hr. split; cbn; try done; try lia. exists pre, p, a, rest. by split_and!.
Qed.

Lemma split_ok pre p a rest : l = pre ++ (p, a) :: rest → a_T a ≠ None →
  ∀ fuel base m ms stat, building pre base (Some m) ms → a_lb a < base + SIZE →
    (∀ x, a_lb a <= x < a_ub a → x < base → ∃ m, m ∈ ms ∧ in_mapping m x) →
    (a_ub a - base) / SIZE <= Z.of_nat fuel → base < a_ub a →
    ∃ base' m' ms' stat', split_alloc Ts fuel SIZE base ((p, a) :: rest) a (Some m) ms stat = Some (base', Some m', ms', stat') ∧
      base' < a_ub a ∧ building (pre ++ [(p, a)]) base' (Some m') ms'.
Proof.
  intros El HT. pose proof size_pos as Hs. induction fuel as [|fuel IH]; intros base m ms stat B Hlb Hcov Hf Hub; cbn [split_alloc].
  all: destruct (Z.ltb_spec (base + SIZE) (a_ub a)) as [Hlt|Hge].
  1: { pose proof (Z.div_le_lower_bound (a_ub a - base) SIZE 1 ltac:(lia) ltac:(lia)). lia. }
  1,3: exists base, m, ms, stat; split_and!; [done|done|]; destruct B as [B1 B2 B3 B4 B5 B6]; split; try done;
    [intros y [Hy| ->%list_elem_of_singleton]%elem_of_app HTy; [by apply B5|done]
    |intros y x [Hy| ->%list_elem_of_singleton]%elem_of_app HTy Hx Hxb; [by apply (B6 y)|by apply Hcov]].
  destruct (building_saved pre base (Some m) ms stat (base + SIZE) B) as (ms' & stat' & -> & S1 & S2 & S3 & S4 & S5 & _ & S7); [lia|].
  cbn [mbind option_bind]. destruct B as [[[F1 F2 F3 F4 F5] Em] B2 B3 B4 B5 B6]. cbn in F1, F2, F3. rewrite Em in F2, F3.
  apply IH.
  - split; try done.
    + split; [|done]. apply (fresh_alloc pre); try done; try lia. { by apply Z.divide_add_r; [|exists 1; lia]. }
      intros y Hy HTy. by apply B5.
    + intros y Hy HTy. split; [done|]. destruct (B5 y Hy HTy). lia.
    + intros y x Hy HTy Hx _. by apply (S4 y).
  - lia.
  - intros x Hx Hxb. destruct (Z.ltb_spec x base).
    + destruct (Hcov x Hx) as (m1 & Hm1 & Hin); [done|]. exists m1. split; [by apply S7|done].
    + apply S5; [done|lia].
  - replace (a_ub a - (base + SIZE)) with (a_ub a - base + (-1) * SIZE) by lia. rewrite Z.div_add by lia. lia.
  - lia.
Qed.

Lemma build_ok : ∀ i pre base m ms stat, l = pre ++ i → building pre base m ms →
  (m ≠ None → ∀ y, y ∈ i → base <= a_lb y.2) →
  ∃ ms' stat', build_loop Ts SIZE i base m ms stat = Some (ms', stat') ∧
    Forall mapping_ok ms' ∧ StronglySorted apart ms' ∧ covered ms' l.
Proof.
  induction i as [|[p a] rest IH]; intros pre base m ms stat El B Hi; cbn [build_loop].
  - rewrite app_nil_r in El. subst pre.
    destruct (building_saved l base m ms stat (base + SIZE) B) as (ms' & stat' & E & S1 & S2 & _ & S4 & _); [lia|].
    by exists ms', stat'.
  - assert (El' : l = (pre ++ [(p, a)]) ++ rest) by by rewrite <- app_assoc.
    destruct (a_T a) as [T|] eqn:ET.
    2: { apply (IH (pre ++ [(p, a)])); [done| |by intros Hm y Hy; apply Hi; [done|right]]. destruct B as [B1 B2 B3 B4 B5 B6]. split; try done.
         - intros y [Hy| ->%list_elem_of_singleton]%elem_of_app; [by apply B5|cbn; congruence].
         - intros y x [Hy| ->%list_elem_of_singleton]%elem_of_app; [by apply B6|cbn; congruence]. }
    assert (HT : a_T a ≠ None) by congruence. pose proof size_pos as Hs.
    assert (Hin : (p, a) ∈ l) by (rewrite El; apply elem_of_app; right; left).
    destruct (sp_range _ _ _ SP _ Hin) as (Hr1 & Hr2 & Hr3). pose proof (sp_filled _ _ _ SP _ Hin HT) as Hne. cbn [snd] in *.
    assert (Hstep : ∃ base1 m1 ms1 stat1,
      (if s64 (base + SIZE) <=? a_lb a then
         let base := s64 (a_lb a - u64 (a_lb a) mod SIZE) in
         '(ms, stat) ← saveMapping Ts m ms stat;
         Some (base, Some (allocMapping ((p, a) :: rest) SIZE base), ms, stat)
       else Some (base, m, ms, stat)) = Some (base1, Some m1, ms1, stat1) ∧
      building pre base1 (Some m1) ms1 ∧ a_lb a < base1 + SIZE ∧ base1 <= a_lb a ∧
      (∀ x, a_lb a <= x < a_ub a → x < base1 → ∃ m, m ∈ ms1 ∧ in_mapping m x)).
    { destruct (base_of (a_lb a)) as (Eb & Hm & Hd); [lia|]. cbv zeta. rewrite Eb.
      destruct (Z.leb_spec (s64 (base + SIZE)) (a_lb a)) as [Hle|Hgt].
      - assert (Hb : m ≠ None → base + SIZE <= a_lb a - a_lb a mod SIZE).
        { destruct m as [m|]; [|done]. intros _. destruct B as [[[F1 F2 F3 F4 F5] Em] _ _ _ _ _].
          cbn in F1, F2, F3. rewrite Em in F2, F3. rewrite wraps_small in Hle by lia.
          destruct F2 as [z Hz]. pose proof (Z_div_mod_eq_full (a_lb a) SIZE).
          assert (z + 1 <= a_lb a / SIZE) by (apply Z.div_le_lower_bound; lia). nia. }
        destruct (building_saved pre base m ms stat _ B Hb) as (ms' & stat' & -> & S1 & S2 & S3 & S4 & S5 & _ & S7).
        cbn [mbind option_bind]. eexists _, _, ms', stat'. split; [reflexivity|]. split_and!.
        + split; try done.
          * split; [|done]. apply (fresh_alloc pre); try done; try lia.
            intros y Hy HTy. destruct B as [_ _ _ _ B5 _]. destruct (B5 y Hy HTy) as [Hn Hu]. specialize (Hb Hn). lia.
          * intros y Hy HTy. split; [done|]. destruct B as [_ _ _ _ B5 _]. destruct (B5 y Hy HTy) as [Hn Hu]. specialize (Hb Hn). lia.
          * intros y x Hy HTy Hx _. by apply (S4 y).
        + lia.
        + lia.
        + intros x Hx. lia.
      - destruct m as [m|].
        + assert (Hnw : s64 (base + SIZE) = base + SIZE ∧ True).
          { destruct B as [[[F1 F2 F3 F4 F5] Em] _ _ _ _ _]. cbn in F1, F3. rewrite Em in F3. rewrite wraps_small by lia. done. }
          destruct Hnw as [Hnw _]. rewrite Hnw in Hgt. eexists base, m, ms, stat. split_and!; try done.
          * apply (Hi ltac:(done) (p, a)). left.
          * intros x Hx Hxb. specialize (Hi ltac:(done) (p, a) ltac:(left)). cbn [snd] in Hi. lia.
        + exfalso. destruct B as [[-> ->] _ _ _ _ _]. rewrite wraps_small in Hgt; unfold INTPTR_MIN in *; lia. }
    cbv zeta in Hstep. destruct Hstep as (base1 & m1 & ms1 & stat1 & -> & B1 & Hlb1 & Hlb2 & Hcov1). cbn [mbind option_bind].
    destruct (split_ok pre p a rest El HT (Z.to_nat ((a_ub a - base1) / SIZE)) base1 m1 ms1 stat1 B1 Hlb1 Hcov1)
      as (base2 & m2 & ms2 & stat2 & -> & Hub2 & B2); [lia|lia|].
    cbn [mbind option_bind]. apply (IH (pre ++ [(p, a)])); [done|done|].
    intros _ y Hy. pose proof (sp_sorted _ _ _ SP) as Hs'. rewrite El in Hs'. apply StronglySorted_app in Hs' as (_ & _ & [Hall _]%StronglySorted_cons).
    rewrite Forall_forall in Hall. specialize (Hall y Hy). unfold before in Hall. cbn [snd] in Hall. lia.
Qed.

(** The mappings of an address space, with all the allocations that have a trampoline. *)
Lemma buildMappings_ok stat : ∃ ms stat', buildMappings Ts l SIZE stat = Some (ms, stat') ∧
  Forall mapping_ok ms ∧ StronglySorted apart ms ∧ covered ms l.
Proof.
  apply (build_ok l [] INTPTR_MIN None [] stat); [done| |done].
  split; [done|by apply Forall_nil|by constructor|..]; [by intros ? ?%elem_of_nil..|by intros ?? ?%elem_of_nil].
Qed.

(** The allocation with an address of a mapping is one of its allocations, and all of them
    after the first start in it. *)
Lemma occupied_iter m y : mapping_ok m → y ∈ l → a_T y.2 ≠ None → m_base m < a_ub y.2 → y ∈ m_i m.
Proof.
  intros [_ _ _ (pre & p & a & i & El & Ei & _ & _ & _ & Hpre) _] Hy HT Hub. rewrite Ei.
  rewrite El in Hy. apply elem_of_app in Hy as [Hy|Hy]; [|done]. specialize (Hpre y Hy HT). lia.
Qed.

Lemma iter_sorted m : mapping_ok m → StronglySorted before (m_i m) ∧ ∀ y, y ∈ m_i m → y ∈ l.
Proof.
  intros [_ _ _ (pre & p & a & i & El & Ei & _) _]. rewrite Ei. split.
  - pose proof (sp_sorted _ _ _ SP) as Hs. rewrite El in Hs. by apply StronglySorted_app in Hs as (_ & _ & ?).
  - intros y Hy. rewrite El. apply elem_of_app. by right.
Qed.

(** ** Keys *)

(** A mapping has an address, as an offset, with a trampoline. *)
Definition occupied (m : Mapping) (x : Z) : Prop :=
  0 <= x < m_size m ∧ ∃ y, y ∈ l ∧ a_T y.2 ≠ None ∧ a_lb y.2 <= m_base m + x < a_ub y.2.

Section WithKey.
Context `{K : Key} {KL : KeyLaws K} (UNIT : Z) (Hunit : SIZE = KEY_BITS * UNIT).

Lemma unit_pos : 0 < UNIT.
Proof. pose proof size_pos. pose proof key_bits. nia. Qed.

Lemma unit_div : SIZE / KEY_BITS = UNIT.
Proof. pose proof key_bits. rewrite Hunit, Z.mul_comm. apply Z.div_mul. lia. Qed.

Lemma bit_range x : 0 <= x < SIZE → 0 <= x / UNIT < KEY_BITS.
Proof. intros Hx. pose proof unit_pos. split; [apply Z.div_pos; lia|apply Z.div_lt_upper_bound; lia]. Qed.

Lemma ones_ok : ok_key KEY_ONES.
Proof. unfold ok_key, KEY_ONES. pose proof key_bits. rewrite Z.ones_equiv. pose proof (Z.pow_pos_nonneg 2 KEY_BITS). lia. Qed.

Lemma land_ones_ok k : ok_key (Z.land k KEY_ONES).
Proof. unfold ok_key, KEY_ONES. pose proof key_bits. rewrite Z.land_ones by lia. apply Z.mod_pos_bound, Z.pow_pos_nonneg; lia. Qed.

Lemma lor_ok a b : ok_key a → ok_key b → ok_key (Z.lor a b).
Proof. unfold ok_key. pose proof key_bits. intros. apply lor_bound; lia. Qed.

Lemma ones_bit j : 0 <= j < KEY_BITS → Z.testbit KEY_ONES j = true.
Proof. intros. by apply Z.ones_spec_low. Qed.

(** The bits of an allocation in a mapping. *)
Lemma alloc_bits pro post j : 0 <= pro <= j → 0 <= post → j + post < KEY_BITS →
  Z.testbit (Z.land (key_shl KEY_ONES pro) (Z.shiftr KEY_ONES post)) j = true.
Proof.
  intros Hp Hq Hj. unfold key_shl. rewrite Z.land_spec, Z.shiftr_spec, Z.land_spec, Z.shiftl_spec by lia.
  by rewrite !ones_bit by lia.
Qed.

Lemma overlap_bits n j : 0 <= j < n → n < KEY_BITS → Z.testbit (key_not (key_shl KEY_ONES n)) j = true.
Proof.
  intros Hj Hn. unfold key_not, key_shl. rewrite Z.lxor_spec, Z.land_spec, Z.shiftl_spec by lia.
  rewrite (ones_bit j), Z.testbit_neg_r by lia. done.
Qed.

Lemma key_not_ok n : ok_key (key_not (key_shl KEY_ONES n)).
Proof.
  unfold key_not, key_shl. assert (E : Z.lxor (Z.land (Z.shiftl KEY_ONES n) KEY_ONES) KEY_ONES =
    Z.land (Z.lnot (Z.shiftl KEY_ONES n)) KEY_ONES).
  { apply Z.bits_inj'. intros j Hj. rewrite Z.lxor_spec, !Z.land_spec, Z.lnot_spec by done.
    by destruct (Z.testbit (Z.shiftl _ _) j), (Z.testbit KEY_ONES j). }
  rewrite E. apply land_ones_ok.
Qed.

(** The bits of the allocations [i] up to the end of the mapping. *)
Definition bits_of (BASE : Z) (i : Iterator) (key : Z) : Prop :=
  ∀ y x, y ∈ i → a_T y.2 ≠ None → a_lb y.2 <= BASE + x < a_ub y.2 → 0 <= x < SIZE → Z.testbit key (x / UNIT) = true.

Lemma key_loop_ok BASE : ∀ i key, StronglySorted before i → (∀ y, y ∈ i → y ∈ l) → (∀ y, y ∈ i → BASE <= a_lb y.2) →
  ok_key key → ∃ key', key_loop SIZE UNIT BASE (BASE + SIZE) i key = Some key' ∧ ok_key key' ∧
    (∀ j, Z.testbit key j = true → Z.testbit key' j = true) ∧ bits_of BASE i key'.
Proof.
  induction i as [|[p a] i IH]; intros key Hs Hl Hb Hk; cbn [key_loop].
  - exists key. split_and!; try done. by intros y x ?%elem_of_nil.
  - pose proof (Hb (p, a) ltac:(left)) as Hba. cbn [snd] in Hba. apply StronglySorted_cons in Hs as [Hall Hs].
    rewrite Forall_forall in Hall. pose proof unit_pos as Hu. pose proof size_pos as Hsz.
    rewrite (proj2 (Z.leb_le _ _) Hba). cbn [assert_ mbind option_bind].
    assert (IH' : ∀ key, ok_key key → ∃ key', key_loop SIZE UNIT BASE (BASE + SIZE) i key = Some key' ∧ ok_key key' ∧
      (∀ j, Z.testbit key j = true → Z.testbit key' j = true) ∧ bits_of BASE i key').
    { intros. apply IH; try done; intros y Hy; [apply Hl|apply Hb]; by right. }
    destruct (Z.leb_spec (BASE + SIZE) (a_lb a)) as [Hend|Hin].
    { exists key. split_and!; try done. intros y x [-> |Hy]%elem_of_cons HT Hx Hxr; [cbn [snd] in Hx; lia|].
      pose proof (Hall y Hy) as Hab. unfold before in Hab. cbn [snd] in Hab.
      pose proof (sp_range _ _ _ SP (p, a) (Hl (p, a) ltac:(left))). cbn [snd] in *. lia. }
    destruct (a_T a) as [T|] eqn:ET.
    2: { destruct (IH' key Hk) as (key' & E & Hk' & Hmono & Hbits). exists key'. split_and!; try done.
         intros y x [-> |Hy]%elem_of_cons HT; [cbn [snd] in HT; congruence|by apply (Hbits y)]. }
    pose proof (sp_filled _ _ _ SP (p, a) (Hl (p, a) ltac:(left)) ltac:(cbn; congruence)) as Hne. cbn [snd] in Hne.
    set (pro := (a_lb a - BASE) / UNIT). set (rest := if BASE + SIZE <=? a_ub a then 0 else BASE + SIZE - a_ub a).
    set (post := rest / UNIT). cbv zeta.
    assert (Hrest : 0 <= rest < SIZE ∧ BASE + SIZE - rest <= a_ub a ∧ (a_ub a <= BASE + SIZE - rest ∨ rest = 0)).
    { unfold rest. destruct (Z.leb_spec (BASE + SIZE) (a_ub a)); lia. }
    destruct (bit_range (a_lb a - BASE)) as [Hp1 Hp2]; [lia|]. destruct (bit_range rest) as [Hq1 Hq2]; [lia|].
    fold pro in Hp1, Hp2. fold post in Hq1, Hq2. rewrite (proj2 (Z.ltb_lt _ _) Hp2), (proj2 (Z.ltb_lt _ _) Hq2).
    cbn [assert_ mbind option_bind].
    destruct (IH' (Z.lor key (Z.land (key_shl KEY_ONES pro) (Z.shiftr KEY_ONES post)))) as (key' & E & Hk' & Hmono & Hbits).
    { apply lor_ok; [done|]. unfold key_shl. rewrite <- Z.land_assoc, (Z.land_comm KEY_ONES), Z.land_assoc. apply land_ones_ok. }
    exists key'. split_and!; try done.
    + intros j Hj. apply Hmono. by rewrite Z.lor_spec, Hj.
    + intros y x [-> |Hy]%elem_of_cons HT Hx Hxr; [|by apply (Hbits y)]. cbn [snd] in Hx. apply Hmono.
      rewrite Z.lor_spec. apply orb_true_iff. right. apply alloc_bits; [|done|].
      * split; [done|]. apply Z.div_le_mono; lia.
      * assert (Hx' : x + rest < SIZE) by (destruct Hrest as (_ & _ & [? | ?]); lia).
        pose proof (Z.mul_div_le x UNIT Hu). pose proof (Z.mul_div_le rest UNIT Hu). fold post in Hq1, Hq2 |- *. unfold post in *. nia.
Qed.

(** The key of a mapping has the bit of every unit with a trampoline. *)
Lemma key_covers m : mapping_ok m → ∃ key, calculateKey SIZE m = Some key ∧ ok_key key ∧
  ∀ x, occupied m x → Z.testbit key (x / UNIT) = true.
Proof.
  intros Hm. destruct (iter_sorted m Hm) as [Hs Hl]. pose proof size_pos as Hsz. pose proof unit_pos as Hu.
  assert (Hocc : ∀ x, occupied m x → 0 <= x < SIZE ∧ ∃ y, y ∈ m_i m ∧ a_T y.2 ≠ None ∧ a_lb y.2 <= m_base m + x < a_ub y.2).
  { intros x [Hx (y & Hy & HT & Hyx)]. rewrite (mo_size _ Hm) in Hx. split; [done|]. exists y. split_and!; try done; try lia.
    apply occupied_iter; [done..|lia]. }
  assert (Hones : ∀ x, occupied m x → Z.testbit KEY_ONES (x / UNIT) = true).
  { intros x [Hx _]. apply ones_bit, bit_range. by rewrite <- (mo_size _ Hm). }
  destruct (mo_iter _ Hm) as (pre & p & a & i & _ & Ei & HT & Hlb & Hub & _).
  unfold calculateKey. rewrite unit_div. cbv zeta. rewrite Ei in *. apply StronglySorted_cons in Hs as Hs'.
  destruct Hs' as [Hall Hs']. rewrite Forall_forall in Hall. unfold before in Hall. cbn [snd] in Hall.
  destruct (Z.ltb_spec (a_lb a) (m_base m)) as [Hlt|Hge].
  - destruct (Z.leb_spec (m_base m + SIZE) (a_ub a)) as [|Hue]; [exists KEY_ONES; split_and!; [done|apply ones_ok|done]|].
    set (n := (SIZE - (m_base m + SIZE - a_ub a) + UNIT - 1) / UNIT).
    destruct (Z.leb_spec KEY_BITS n) as [|Hn]; [exists KEY_ONES; split_and!; [done|apply ones_ok|done]|].
    destruct (key_loop_ok (m_base m) i (key_not (key_shl KEY_ONES n))) as (key & E & Hk & Hmono & Hbits).
    + done.
    + intros y Hy. apply Hl. by right.
    + intros y Hy. specialize (Hall y Hy). lia.
    + apply key_not_ok.
    + exists key. split_and!; [done..|]. intros x Hx. destruct (Hocc x Hx) as (Hxr & y & Hy & HTy & Hyx).
      apply elem_of_cons in Hy as [-> |Hy]; [|by apply (Hbits y)]. cbn [snd] in Hyx. apply Hmono.
      apply overlap_bits; [|done]. split; [apply Z.div_pos; lia|]. unfold n.
      replace (SIZE - (m_base m + SIZE - a_ub a) + UNIT - 1) with (a_ub a - m_base m - 1 + 1 * UNIT) by lia.
      rewrite Z.div_add by lia. enough (x / UNIT <= (a_ub a - m_base m - 1) / UNIT) by lia. apply Z.div_le_mono; lia.
  - destruct (key_loop_ok (m_base m) ((p, a) :: i) 0) as (key & E & Hk & _ & Hbits); [done|done| | |].
    + intros y [-> |Hy]%elem_of_cons; [done|]. specialize (Hall y Hy). cbn [snd]. lia.
    + unfold ok_key. pose proof key_bits. split; [lia|]. apply Z.pow_pos_nonneg; lia.
    + exists key. split_and!; [done..|]. intros x Hx. destruct (Hocc x Hx) as (Hxr & y & Hy & HTy & Hyx). by apply (Hbits y).
Qed.

(** ** Groups *)

(** A group has pairwise disjoint keys, whose union is the key of its leaf. *)
Inductive group_key : Group → Z → Prop :=
| gk_one m key : mapping_ok m → calculateKey SIZE m = Some key → group_key [m] key
| gk_cons m key g k : mapping_ok m → calculateKey SIZE m = Some key → group_key g k → Z.land key k = 0 →
    group_key (m :: g) (Z.lor key k).

(** The mappings of a group are not occupied at the same offset. *)
Definition exclusive (g : Group) : Prop :=
  g ≠ [] ∧ Forall mapping_ok g ∧
  ∀ i j m m' x, g !! i = Some m → g !! j = Some m' → occupied m x → occupied m' x → i = j.

Lemma group_bits g k : group_key g k → ∀ m x, m ∈ g → occupied m x → Z.testbit k (x / UNIT) = true.
Proof.
  induction 1 as [m key Hm E|m key g k Hm E Hg IH Hd]; intros m' x Hm' Hx.
  - apply list_elem_of_singleton in Hm' as ->. destruct (key_covers m Hm) as (? & E' & _ & Hb). rewrite E in E'.
    injection E' as <-. by apply Hb.
  - rewrite Z.lor_spec. apply orb_true_iff. apply elem_of_cons in Hm' as [-> |Hm']; [left|right; by apply (IH m')].
    destruct (key_covers m Hm) as (? & E' & _ & Hb). rewrite E in E'. injection E' as <-. by apply Hb.
Qed.

Lemma group_exclusive g k : group_key g k → exclusive g.
Proof.
  induction 1 as [m key Hm E|m key g k Hm E Hg (IH1 & IH2 & IH3) Hd].
  - split; [done|]. split; [by constructor|]. intros i j m1 m2 x Hi Hj _ _.
    apply list_lookup_singleton_Some in Hi as [-> _]. by apply list_lookup_singleton_Some in Hj as [-> _].
  - split; [done|]. split; [by constructor|].
    assert (Hno : ∀ m' x, m' ∈ g → occupied m x → occupied m' x → False).
    { intros m' x Hm' Hx Hx'. pose proof (group_bits g k Hg m' x Hm' Hx') as B1.
      destruct (key_covers m Hm) as (? & E' & _ & Hb). rewrite E in E'. injection E' as <-. specialize (Hb x Hx).
      apply (f_equal (λ z, Z.testbit z (x / UNIT))) in Hd. by rewrite Z.land_spec, B1, Hb, Z.bits_0 in Hd. }
    intros [|i] [|j] m1 m2 x; cbn [lookup list_lookup]; intros Hi Hj Hx Hx'.
    + done.
    + injection Hi as <-. exfalso. apply (Hno m2 x); [|done..]. by eapply list_elem_of_lookup_2.
    + injection Hj as <-. exfalso. apply (Hno m1 x); [|done..]. by eapply list_elem_of_lookup_2.
    + f_equal. by apply (IH3 i j m1 m2 x).
Qed.

(** Every leaf has groups, with its key. *)
Definition tree_ok (n : Node) : Prop :=
  wf n ∧ ∀ k ms, find n k = Some ms → ms ≠ [] ∧ Forall (λ g, group_key g k) ms.

Lemma collect_find n g : wf n → g ∈ collectMappings n → ∃ k ms, find n k = Some ms ∧ g ∈ ms.
Proof.
  induction n as [|k ms|a s c0 c1 c2 c3 IH] using node_ind; intros Hw Hg.
  - by apply elem_of_nil in Hg.
  - exists k, ms. cbn [find]. by rewrite Z.eqb_refl.
  - assert (Hc : ∃ i, 0 <= i < 4 ∧ g ∈ collectMappings (child i c0 c1 c2 c3)).
    { cbn [collectMappings] in Hg. rewrite !elem_of_app in Hg. destruct_or? Hg; [exists 0|exists 1|exists 2|exists 3]; (split; [lia|exact Hg]). }
    destruct Hc as (i & Hi & Hgi). destruct (inner_child_wf _ _ _ _ _ _ i Hw Hi) as (Hs & Hwi & Hidx).
    destruct (IH i Hwi Hgi) as (k & ms & E & Hin). exists k, ms. split; [|done]. rewrite find_inner.
    by rewrite (Hidx k (find_keys _ _ _ E)).
Qed.

(** Merging keeps the tree, and adds the mapping to those in it. *)
Lemma merge_ok n key m : tree_ok n → mapping_ok m → ok_key key → calculateKey SIZE m = Some key →
  ∃ n', merge n key m = Some n' ∧ tree_ok n' ∧ concat (collectMappings n') ≡ₚ m :: concat (collectMappings n).
Proof.
  intros [Hw Ht] Hm Hk E. unfold merge. destruct (find n key) as [ms|] eqn:Ef.
  - destruct (collect_set n key ms Hw Ef) as (rest & C1 & C2). destruct (Ht _ _ Ef) as [_ Hms].
    pose proof (set_mappings_wf n key ([m] :: ms) Hw) as Hw'.
    exists (set_mappings n key ([m] :: ms)). split; [done|]. split.
    + split; [done|]. intros k ms' Ef'. rewrite find_set_mappings in Ef' by (done || by eapply find_keys).
      destruct (Z.eqb_spec k key) as [-> |]; [|by apply Ht]. injection Ef' as <-. split; [done|]. constructor; [by constructor|done].
    + rewrite (C2 ([m] :: ms)), C1. done.
  - pose proof (complement_ok n key Hw) as Hc. destruct (findAnyComplement n key) as [[k ms]|] eqn:Ec.
    + destruct Hc as [Ef' Hd]. destruct (Ht _ _ Ef') as [Hne Hms]. destruct ms as [|cmp ms]; [done|].
      apply Forall_cons in Hms as [Hcmp Hms].
      destruct (collect_set n k (cmp :: ms) Hw Ef') as (rest & C1 & C2).
      assert (Hkk : ok_key k) by (eapply keys_ok; [exact Hw|by eapply find_keys]).
      set (n1 := match ms with [] => remove (set_mappings n k ms) k | _ => set_mappings n k ms end).
      assert (Hn1 : wf n1 ∧ (∀ k' ms', find n1 k' = Some ms' → ms' ≠ [] ∧ Forall (λ g, group_key g k') ms') ∧
        collectMappings n1 ≡ₚ ms ++ rest).
      { pose proof (set_mappings_wf n k ms Hw) as Hw'.
        assert (Hfs : ∀ k', find (set_mappings n k ms) k' = if k' =? k then Some ms else find n k').
        { intros k'. apply find_set_mappings; [done|by eapply find_keys]. }
        unfold n1. destruct ms as [|g ms].
        - destruct (radix_remove_ok _ k Hw') as [Hw2 Hf2]. split; [done|]. split.
          + intros k' ms' Hf. rewrite Hf2 in Hf. destruct (Z.eqb_spec k' k) as [-> |Hk']; [done|]. rewrite Hfs in Hf.
            destruct (Z.eqb_spec k' k); [done|]. by apply Ht.
          + rewrite <- (C2 []). symmetry. apply (collect_remove _ k []); [done|]. rewrite Hfs. by rewrite Z.eqb_refl.
        - split; [done|]. split; [|apply C2]. intros k' ms' Hf. rewrite Hfs in Hf.
          destruct (Z.eqb_spec k' k) as [-> |Hk']; [|by apply Ht]. by injection Hf as <-. }
      fold n1. cbv zeta. destruct Hn1 as (Hw1 & Ht1 & C3). rewrite Z.land_comm in Hd.
      destruct (radix_insert_ok n1 (Z.lor key k) (m :: cmp) Hw1 (lor_ok _ _ Hk Hkk)) as (n' & Ei & Hw' & _ & Hf').
      exists n'. split; [exact Ei|]. split; [split; [done|]|].
      * intros k' ms' Hf. rewrite Hf' in Hf. destruct (Z.eqb_spec k' (Z.lor key k)) as [-> |]; [|by apply Ht1].
        injection Hf as <-. split; [done|]. constructor; [by constructor|].
        destruct (find n1 (Z.lor key k)) as [ms'|] eqn:Ef1; [by apply Ht1|by constructor].
      * rewrite (collect_insert n1 _ _ _ Hw1 (lor_ok _ _ Hk Hkk) Ei). cbn [concat app]. rewrite C3, C1.
        cbn [concat app]. by rewrite concat_app.
    + destruct (radix_insert_ok n key [m] Hw Hk) as (n' & Ei & Hw' & _ & Hf'). exists n'. split; [exact Ei|]. split; [split; [done|]|].
      * intros k' ms' Hf. rewrite Hf', Ef in Hf. destruct (Z.eqb_spec k' key) as [-> |]; [|by apply Ht].
        injection Hf as <-. split; [done|]. constructor; [by constructor|by constructor].
      * by rewrite (collect_insert n _ _ _ Hw Hk Ei).
Qed.

Lemma merge_all_ok : ∀ ms n, tree_ok n → Forall mapping_ok ms →
  ∃ n', merge_all SIZE ms n = Some n' ∧ tree_ok n' ∧ concat (collectMappings n') ≡ₚ ms ++ concat (collectMappings n).
Proof.
  induction ms as [|m ms IH]; intros n Hn Hms; cbn [merge_all]; [by exists n|].
  apply Forall_cons in Hms as [Hm Hms]. destruct (key_covers m Hm) as (key & E & Hk & _). rewrite E. cbn [mbind option_bind].
  destruct (merge_ok n key m Hn Hm Hk E) as (n1 & -> & Hn1 & C1). cbn [mbind option_bind].
  destruct (IH n1 Hn1 Hms) as (n' & -> & Hn' & C2). exists n'. split; [done|]. split; [done|].
  rewrite C2, C1. cbn [app]. by rewrite Permutation_middle.
Qed.

(** The groups hold the mappings, each in one, and are exclusive. *)
Lemma groups_ok ms : Forall mapping_ok ms → ∃ n, merge_all SIZE ms Null = Some n ∧
  concat (collectMappings n) ≡ₚ ms ∧ Forall exclusive (collectMappings n).
Proof.
  intros Hms. destruct (merge_all_ok ms Null) as (n & E & [Hw Ht] & C); [by split|done|]. exists n. split; [done|].
  split; [by rewrite C, app_nil_r|]. apply Forall_forall. intros g Hg. destruct (collect_find n g Hw Hg) as (k & gs & Hf & Hin).
  destruct (Ht _ _ Hf) as [_ Hall]. rewrite Forall_forall in Hall. by eapply group_exclusive, Hall.
Qed.

End WithKey.

End Spec.

End MappingSpec.
