(* ===== verification/E9MappingFlat.v ===== *)
(** * E9MappingFlat: the memory image of the mappings

    Groups of mappings keep their trampolines when they are shrunk, flattened to the bytes of
    a file, and cut into the ranges that are mapped. *)

From stdpp Require Import gmap sorting.
From S2P Require Import Prelude E9Patch E9Alloc E9AllocTree E9AllocApi E9Tactics E9Mapping E9MappingTree E9MappingSpec.

Module MappingFlat.
Import E9 E9Alloc AllocTree E9Tactics E9Mapping MappingTree MappingSpec.

(** The flattened trampolines: those of the allocations that have one, of their size. *)
Definition flat_ok (flat : gmap ptr bytes) (l : Iterator) : Prop :=
  ∀ y, y ∈ l → match a_T y.2 with
               | None => flat !! y.1 = None
               | Some _ => ∃ bs, flat !! y.1 = Some bs ∧ blen bs = a_ub y.2 - a_lb y.2
               end.

(** The byte of a trampoline at an address. *)
Definition byte_at (flat : gmap ptr bytes) (l : Iterator) (x v : Z) : Prop :=
  ∃ y bs, y ∈ l ∧ flat !! y.1 = Some bs ∧ a_lb y.2 <= x < a_ub y.2 ∧ rd bs (x - a_lb y.2) = Some v.

Section Flat.
Context (Ts : gmap ptr Trampoline) (SIZE : Z) (l : Iterator) (SP : space_ok Ts SIZE l).
Context (flat : gmap ptr bytes) (FL : flat_ok flat l).

Abbreviation occupied := (occupied l).

(** A mapping, before or after it was shrunk. *)
Record placed (m : Mapping) : Prop := {
  pl_size : 0 < m_size m;
  pl_sorted : StronglySorted before (m_i m);
  pl_sub y : y ∈ m_i m → y ∈ l;
  pl_all y : y ∈ l → a_T y.2 ≠ None → m_base m < a_ub y.2 → a_lb y.2 < m_base m + m_size m → y ∈ m_i m;
  pl_after y : y ∈ m_i m → a_T y.2 ≠ None → m_base m < a_ub y.2;
  pl_suffix : ∃ pre, l = pre ++ m_i m ∧ ∀ y z, y ∈ pre → z ∈ m_i m → before y z }.

(** A group: mappings of one size that are not occupied at the same offset. *)
Record group_ok (g : Group) : Prop := {
  gr_ne : g ≠ [];
  gr_placed m : m ∈ g → placed m;
  gr_size m m' : m ∈ g → m' ∈ g → m_size m = m_size m';
  gr_excl i j m m' x : g !! i = Some m → g !! j = Some m' → occupied m x → occupied m' x → i = j }.

Lemma mapping_placed m : mapping_ok SIZE l m → placed m.
Proof.
  intros Hm. destruct (iter_sorted Ts SIZE l SP m Hm) as [Hs Hl]. split; try done.
  - rewrite (mo_size _ _ _ Hm). apply (size_pos Ts SIZE l SP).
  - intros y Hy HT Hub _. by apply (occupied_iter SIZE l).
  - intros y Hy HT. destruct (mo_iter _ _ _ Hm) as (pre & p & a & i & El & Ei & _ & _ & Hub & _).
    rewrite Ei in Hy, Hs. apply elem_of_cons in Hy as [-> |Hy]; [done|].
    apply StronglySorted_cons in Hs as [Hall _]. rewrite Forall_forall in Hall. specialize (Hall y Hy). unfold before in Hall. cbn [snd] in Hall.
    pose proof (sp_filled _ _ _ SP y (Hl y ltac:(rewrite Ei; by right)) HT). lia.
  - destruct (mo_iter _ _ _ Hm) as (pre & p & a & i & El & Ei & _). exists pre. split; [by rewrite Ei|].
    intros y z Hy Hz. pose proof (sp_sorted _ _ _ SP) as Hso. rewrite El, <- Ei in Hso.
    apply StronglySorted_app in Hso as (Hso & _). by apply Hso.
Qed.

Lemma exclusive_group g : exclusive SIZE l g → group_ok g.
Proof.
  intros (Hne & Hall & Hex). rewrite Forall_forall in Hall. split; try done.
  - intros m Hm. by apply mapping_placed, Hall.
  - intros m m' Hm Hm'. by rewrite (mo_size _ _ _ (Hall _ Hm)), (mo_size _ _ _ (Hall _ Hm')).
Qed.

(** ** Bounds *)

Lemma bounds_loop_mono BASE END i : ∀ b, b_lb (bounds_loop BASE END i b) <= b_lb b ∧ b_ub b <= b_ub (bounds_loop BASE END i b).
Proof.
  induction i as [|[p a] i IH]; intros b; cbn [bounds_loop]; [lia|]. destruct (_ <=? _); [lia|].
  destruct (a_T a); [|apply IH]. match goal with |- context [bounds_loop _ _ i ?b'] => specialize (IH b') end. cbn [b_lb b_ub] in IH. lia.
Qed.

(** The bounds have all that is occupied. *)
Lemma bounds_loop_in BASE END i y x : ∀ b, StronglySorted before i → (∀ y, y ∈ i → a_lb y.2 <= a_ub y.2) →
  y ∈ i → a_T y.2 ≠ None → a_lb y.2 <= BASE + x < a_ub y.2 → 0 <= x → BASE + x < END →
  b_lb (bounds_loop BASE END i b) <= x < b_ub (bounds_loop BASE END i b).
Proof.
  induction i as [|[p a] i IH]; intros b Hs Hr Hy HT Hx H0 He; [by apply elem_of_nil in Hy|]. cbn [bounds_loop].
  apply StronglySorted_cons in Hs as [Hall Hs]. rewrite Forall_forall in Hall.
  pose proof (Hr (p, a) ltac:(left)) as Hra. cbn [snd] in Hra.
  assert (Hr' : ∀ y, y ∈ i → a_lb y.2 <= a_ub y.2) by (intros; apply Hr; by right).
  apply elem_of_cons in Hy as [-> |Hy].
  - cbn [snd] in *. destruct (Z.leb_spec END (a_lb a)); [lia|]. destruct (a_T a); [|done].
    match goal with |- context [bounds_loop _ _ i ?b'] => pose proof (bounds_loop_mono BASE END i b') as Hm end. cbn [b_lb b_ub] in Hm.
    unfold low, high in *. destruct (Z.ltb_spec (a_lb a) BASE), (Z.ltb_spec END (a_ub a)); lia.
  - specialize (Hall y Hy). unfold before in Hall. cbn [snd] in Hall.
    destruct (Z.leb_spec END (a_lb a)); [lia|]. destruct (a_T a); by apply IH.
Qed.

(** They are inside the mapping, and a mapping is occupied somewhere. *)
Lemma bounds_loop_range BASE SIZE0 i : ∀ b, (∀ y, y ∈ i → a_T y.2 ≠ None → BASE < a_ub y.2) →
  0 <= b_lb b → b_ub b <= SIZE0 → 0 <= b_lb (bounds_loop BASE (BASE + SIZE0) i b) ∧ b_ub (bounds_loop BASE (BASE + SIZE0) i b) <= SIZE0.
Proof.
  induction i as [|[p a] i IH]; intros b Ha Hl Hu; cbn [bounds_loop]; [done|]. destruct (Z.leb_spec (BASE + SIZE0) (a_lb a)); [done|].
  assert (Ha' : ∀ y, y ∈ i → a_T y.2 ≠ None → BASE < a_ub y.2) by (intros; apply Ha; [by right|done]).
  destruct (a_T a) as [T|] eqn:ET; [|by apply IH]. pose proof (Ha (p, a) ltac:(left) ltac:(cbn; congruence)) as Hub. cbn [snd] in Hub.
  apply IH; [done|..]; cbn [b_lb b_ub]; unfold low, high; destruct (Z.ltb_spec (a_lb a) BASE), (Z.ltb_spec (BASE + SIZE0) (a_ub a)); lia.
Qed.

Lemma mapping_bounds m : mapping_ok SIZE l m → 0 <= m_lb m ∧ m_ub m <= SIZE ∧ m_lb m < m_ub m ∧
  ∀ x, occupied m x → m_lb m <= x < m_ub m.
Proof.
  intros Hm. pose proof (mapping_placed m Hm) as [H1 H2 H3 H4 H5 H6]. pose proof (size_pos Ts SIZE l SP) as Hs.
  destruct (mo_bounds _ _ _ Hm) as [-> ->]. unfold calculateBounds. rewrite (mo_size _ _ _ Hm) in *.
  assert (Hr : ∀ y, y ∈ m_i m → a_lb y.2 <= a_ub y.2) by (intros y Hy; apply (sp_range _ _ _ SP y (H3 y Hy))).
  assert (Hin : ∀ x, occupied m x → b_lb (bounds_loop (m_base m) (m_base m + SIZE) (m_i m) (MkBounds INTPTR_MAX INTPTR_MIN)) <= x
    < b_ub (bounds_loop (m_base m) (m_base m + SIZE) (m_i m) (MkBounds INTPTR_MAX INTPTR_MIN))).
  { intros x [Hx (y & Hy & HT & Hyx)]. rewrite (mo_size _ _ _ Hm) in Hx. apply (bounds_loop_in _ _ _ y); try done; try lia. apply H4; try done; lia. }
  destruct (bounds_loop_range (m_base m) SIZE (m_i m) (MkBounds INTPTR_MAX INTPTR_MIN)) as [Hl Hu]; [done|done|cbn; unfold INTPTR_MIN; lia|].
  split; [done|]. split; [done|]. split; [|done].
  destruct (mo_iter _ _ _ Hm) as (pre & p & a & i & El & Ei & HT & Hlb & Hub & _).
  assert (Hain : (p, a) ∈ l) by (rewrite El; apply elem_of_app; right; left).
  pose proof (sp_filled _ _ _ SP (p, a) Hain HT) as Hne. cbn [snd] in Hne.
  assert (Hocc : occupied m (Z.max (a_lb a - m_base m) 0)).
  { split; [rewrite (mo_size _ _ _ Hm); lia|]. exists (p, a). cbn [snd]. split_and!; try done; lia. }
  specialize (Hin _ Hocc). lia.
Qed.

(** ** Shrinking *)

Section Shrink.
Context (G : Z) (HG : 0 < G) (HGS : (G | SIZE)).

(** What a mapping is after it was shrunk. *)
Record shrunk (m m' : Mapping) : Prop := {
  sh_in : m_base m <= m_base m' ∧ m_base m' + m_size m' <= m_base m + m_size m;
  sh_occ x : occupied m x → occupied m' (m_base m + x - m_base m');
  sh_attr : m_prot m' = m_prot m ∧ m_preload m' = m_preload m;
  sh_aligned : (G | m_base m') ∧ (G | m_size m') }.

Lemma occupied_move m lb size x : occupied (move_mapping lb size m) x ↔ 0 <= x < size ∧
  ∃ y, y ∈ l ∧ a_T y.2 ≠ None ∧ a_lb y.2 <= m_base m + (x + lb) < a_ub y.2.
Proof.
  unfold MappingSpec.occupied, move_mapping. cbn [m_size m_base]. replace (m_base m + lb + x) with (m_base m + (x + lb)) by lia. done.
Qed.

Lemma move_placed m lb size : placed m → 0 <= lb → 0 < size → lb + size <= m_size m →
  (∀ x, occupied m x → lb <= x < lb + size) → placed (move_mapping lb size m).
Proof.
  intros [H1 H2 H3 H4 H5 H6] Hl Hs Hu Hocc. split; cbn [move_mapping m_size m_base m_i]; try done.
  - intros y Hy HT Hub Hlb. apply H4; try done; lia.
  - intros y Hy HT. specialize (H5 y Hy HT). pose proof (sp_range _ _ _ SP y (H3 y Hy)). pose proof (sp_filled _ _ _ SP y (H3 y Hy) HT).
    destruct (Z.ltb_spec (a_lb y.2) (m_base m + m_size m)); [|lia].
    destruct (Hocc (Z.min (a_ub y.2) (m_base m + m_size m) - 1 - m_base m)); [|lia].
    split; [lia|]. exists y. split_and!; [by apply H3|done|lia|lia].
Qed.

Lemma foldl_min g : ∀ x, foldl (λ x m, Z.min x (m_lb m)) x g <= x ∧
  (∀ m, m ∈ g → foldl (λ x m, Z.min x (m_lb m)) x g <= m_lb m) ∧
  (0 <= x → (∀ m, m ∈ g → 0 <= m_lb m) → 0 <= foldl (λ x m, Z.min x (m_lb m)) x g).
Proof.
  induction g as [|m g IH]; intros x; cbn [foldl]; [split_and!; [done|by intros m ?%elem_of_nil|done]|].
  destruct (IH (Z.min x (m_lb m))) as (I1 & I2 & I3). split_and!.
  - lia.
  - intros m' [-> |Hm]%elem_of_cons; [lia|by apply I2].
  - intros Hx Ha. apply I3; [|intros; apply Ha; by right]. pose proof (Ha m ltac:(left)). lia.
Qed.

Lemma foldl_max g : ∀ x, x <= foldl (λ x m, Z.max x (m_ub m)) x g ∧
  (∀ m, m ∈ g → m_ub m <= foldl (λ x m, Z.max x (m_ub m)) x g) ∧
  ∀ n, x <= n → (∀ m, m ∈ g → m_ub m <= n) → foldl (λ x m, Z.max x (m_ub m)) x g <= n.
Proof.
  induction g as [|m g IH]; intros x; cbn [foldl]; [split_and!; [done|by intros m ?%elem_of_nil|done]|].
  destruct (IH (Z.max x (m_ub m))) as (I1 & I2 & I3). split_and!.
  - lia.
  - intros m' [-> |Hm]%elem_of_cons; [lia|by apply I2].
  - intros n Hx Ha. apply I3; [|intros; apply Ha; by right]. pose proof (Ha m ltac:(left)). lia.
Qed.

(** Rounding down and up. *)
Lemma round_down x : 0 <= x < 2 ^ 64 → (G | x - u64 x mod G) ∧ 0 <= x - u64 x mod G <= x.
Proof.
  intros Hx. rewrite wrapu_small by done. pose proof (Z.mod_pos_bound x G HG). pose proof (Z_div_mod_eq_full x G).
  assert (0 <= x / G) by (apply Z.div_pos; lia). split; [|nia]. exists (x / G). lia.
Qed.

Lemma round_up x n : 0 <= x <= n → (G | n) → n + G < 2 ^ 64 →
  let y := if u64 x mod G =? 0 then x else x + G - u64 (x + G) mod G in (G | y) ∧ x <= y <= n.
Proof.
  intros Hx [k ->] Hn. rewrite !wrapu_small by lia. pose proof (Z.mod_pos_bound x G HG). pose proof (Z_div_mod_eq_full x G).
  assert (Em : (x + G) mod G = x mod G) by (rewrite <- (Z.mul_1_l G) at 1; apply Z_mod_plus_full). rewrite Em. destruct (Z.eqb_spec (x mod G) 0) as [E|E]; cbv zeta.
  - split; [|lia]. exists (x / G). lia.
  - split; [exists (x / G + 1); lia|]. assert (x / G < k) by nia. nia.
Qed.

Lemma shrink_ok g : exclusive SIZE l g → ∃ g', shrinkMapping g G = Some g' ∧ group_ok g' ∧ Forall2 shrunk g g'.
Proof.
  intros Hg. pose proof (exclusive_group g Hg) as Hgr. destruct Hg as (Hne & Hall & Hex). rewrite Forall_forall in Hall.
  pose proof (size_pos Ts SIZE l SP) as Hs.
  assert (Hrefl : Forall2 shrunk g g).
  { apply Forall_Forall2_diag, Forall_forall. intros m Hm. destruct (Hall m Hm) as [M1 M2 _ _ _].
    split; [lia|intros x; by replace (m_base m + x - m_base m) with x by lia|done|].
    split; [by apply Z.divide_trans with SIZE|by rewrite M1]. }
  destruct g as [|m0 g]; [done|]. cbn [shrinkMapping head mbind option_bind]. set (gr := m0 :: g) in *. unfold shrinkMapping. cbn [gr head mbind option_bind]. fold gr.
  assert (H0 : m_size m0 = SIZE) by (apply (mo_size SIZE l), Hall; left). rewrite H0.
  destruct (Z.eqb_spec SIZE G); [by exists gr|].
  assert (Hb : ∀ m, m ∈ gr → 0 <= m_lb m ∧ m_ub m <= SIZE ∧ m_lb m < m_ub m) by (intros m Hm; destruct (mapping_bounds m (Hall m Hm)); tauto).
  destruct (foldl_min gr INTPTR_MAX) as (F1 & F2 & F3), (foldl_max gr INTPTR_MIN) as (G1 & G2 & G3).
  set (lb0 := foldl _ INTPTR_MAX gr) in *. set (ub0 := foldl _ INTPTR_MIN gr) in *.
  pose proof (F2 m0 ltac:(left)). pose proof (G2 m0 ltac:(left)). pose proof (Hb m0 ltac:(left)).
  specialize (F3 ltac:(done) (λ m Hm, proj1 (Hb m Hm))). specialize (G3 SIZE ltac:(unfold INTPTR_MIN; lia) (λ m Hm, proj1 (proj2 (Hb m Hm)))).
  assert (HGle : G <= SIZE) by (apply Z.divide_pos_le; [lia|done]).
  destruct (round_down lb0) as [R1 R2]; [lia|]. destruct (round_up ub0 SIZE) as [R3 R4]; [lia|done|lia|].
  set (lb := lb0 - u64 lb0 mod G) in *. set (ub := if u64 ub0 mod G =? 0 then ub0 else ub0 + G - u64 (ub0 + G) mod G) in *.
  cbv zeta. fold lb ub. rewrite (wrapu_small 64 (ub - lb)) by lia.
  destruct (Z.leb_spec SIZE (ub - lb)); [by exists gr|]. eexists. split; [reflexivity|].
  assert (Hocc : ∀ m, m ∈ gr → ∀ x, occupied m x → lb <= x < lb + (ub - lb)).
  { intros m Hm x Hx. destruct (mapping_bounds m (Hall m Hm)) as (_ & _ & _ & Hin). specialize (Hin x Hx).
    specialize (F2 m Hm). specialize (G2 m Hm). lia. }
  split; [split|].
  - done.
  - intros m' (m & -> & Hm)%list_elem_of_fmap. pose proof (mo_size SIZE l m (Hall m Hm)).
    apply move_placed; try lia; [by apply (gr_placed _ Hgr)|by apply Hocc].
  - by intros m m' (? & -> & _)%list_elem_of_fmap (? & -> & _)%list_elem_of_fmap.
  - intros i j m1 m2 x Hi Hj Hx1 Hx2. apply list_lookup_fmap_Some in Hi as (m1' & -> & Hi), Hj as (m2' & -> & Hj).
    apply occupied_move in Hx1 as [Hr1 Hx1], Hx2 as [Hr2 Hx2]. apply (Hex i j m1' m2' (x + lb)); [done|done|split..]; try done.
    + rewrite (mo_size SIZE l m1'); [lia|]. apply Hall. by eapply list_elem_of_lookup_2.
    + rewrite (mo_size SIZE l m2'); [lia|]. apply Hall. by eapply list_elem_of_lookup_2.
  - apply Forall2_fmap_r, Forall_Forall2_diag, Forall_forall. intros m Hm. destruct (Hall m Hm) as [M1 M2 _ _ _].
    split; cbn [move_mapping m_base m_size m_prot m_preload]; [lia| |done|].
    + intros x Hx. apply occupied_move. pose proof (Hocc m Hm x Hx). destruct Hx as [_ (y & Hy & HT & Hyx)].
      split; [lia|]. exists y. split_and!; try done; lia.
    + split; [apply Z.divide_add_r; [by apply Z.divide_trans with SIZE|done]|by apply Z.divide_sub_r].
Qed.

Lemma shrink_all_ok gs : Forall (exclusive SIZE l) gs → ∃ gs', shrink_all gs G = Some gs' ∧
  Forall group_ok gs' ∧ Forall2 (Forall2 shrunk) gs gs'.
Proof.
  induction gs as [|g gs IH]; intros Hgs; cbn [shrink_all]; [by exists []|]. apply Forall_cons in Hgs as [Hg Hgs].
  destruct (shrink_ok g Hg) as (g' & -> & Hg' & S1), (IH Hgs) as (gs' & -> & Hgs' & S2). cbn [mbind option_bind].
  exists (g' :: gs'). split_and!; [done|by constructor|by constructor].
Qed.

End Shrink.

(** ** Flattening *)

Lemma byte_at_filled i x v : (∀ y, y ∈ i → y ∈ l) → byte_at flat i x v →
  ∃ y, y ∈ i ∧ a_T y.2 ≠ None ∧ a_lb y.2 <= x < a_ub y.2.
Proof.
  intros Hi (y & bs & Hy & Ef & Hx & _). exists y. split_and!; try done; [|lia..].
  specialize (FL y (Hi y Hy)). destruct (a_T y.2); [done|congruence].
Qed.

(** One mapping: its trampolines are written, and nothing else. *)
Lemma flatten_loop_ok BASE N i : 0 < N → StronglySorted before i → (∀ y, y ∈ i → y ∈ l) →
  (∀ y, y ∈ i → a_T y.2 ≠ None → BASE < a_ub y.2) → ∀ buf, N <= blen buf →
  ∃ buf', flatten_loop flat BASE (BASE + N) i buf = Some buf' ∧ blen buf' = blen buf ∧
    (∀ x v, 0 <= x < N → byte_at flat i (BASE + x) v → rd buf' x = Some v) ∧
    ∀ x, (∀ y, y ∈ i → a_T y.2 ≠ None → 0 <= x < N → ¬ a_lb y.2 <= BASE + x < a_ub y.2) → rd buf' x = rd buf x.
Proof.
  intros HN. induction i as [|[p a] i IH]; intros Hs Hl Ha buf Hbuf; cbn [flatten_loop].
  { exists buf. split_and!; try done. by intros x v _ (y & bs & ?%elem_of_nil & _). }
  apply StronglySorted_cons in Hs as [Hall Hs]. rewrite Forall_forall in Hall. unfold before in Hall. cbn [snd] in Hall.
  pose proof (Hl (p, a) ltac:(left)) as Hla. pose proof (sp_range _ _ _ SP _ Hla) as Hr. cbn [snd] in Hr.
  assert (IH' := IH Hs (λ y Hy, Hl y (list_elem_of_further _ _ _ Hy)) (λ y Hy, Ha y (list_elem_of_further _ _ _ Hy))).
  destruct (Z.leb_spec (BASE + N) (a_lb a)) as [Hend|Hin].
  { exists buf. split_and!; try done. intros x v Hx (y & bs & Hy & _ & Hyx & _).
    apply elem_of_cons in Hy as [-> |Hy]; [cbn [snd] in Hyx; lia|]. specialize (Hall y Hy). lia. }
  pose proof (FL _ Hla) as Hf. cbn [fst snd] in Hf. destruct (a_T a) as [T|] eqn:ET.
  2: { rewrite Hf. destruct (IH' buf Hbuf) as (buf' & -> & Hb & Hin1 & Hout). exists buf'. split_and!; try done.
       - intros x v Hx (y & bs & Hy & Ef & Hyx). apply elem_of_cons in Hy as [-> |Hy]; [cbn [fst] in Ef; congruence|].
         apply Hin1; [done|]. by exists y, bs.
       - intros x Hno. apply Hout. intros y Hy. apply Hno. by right. }
  destruct Hf as (bs & Efl & Hlen). rewrite Efl. assert (HT : a_T a ≠ None) by congruence.
  pose proof (Ha (p, a) ltac:(left) HT) as Hub. pose proof (sp_filled _ _ _ SP _ Hla HT) as Hne. cbn [snd] in Hub, Hne. cbv zeta.
  set (off := if a_lb a <? BASE then BASE - a_lb a else 0). set (lb := if a_lb a <? BASE then BASE else a_lb a).
  set (ub := if BASE + N <? a_ub a then BASE + N else a_ub a).
  assert (Hoff : lb = a_lb a + off ∧ 0 <= off ∧ BASE <= lb < ub ∧ ub <= BASE + N ∧ ub <= a_ub a ∧
    (∀ x, BASE <= x < BASE + N → lb <= x < ub ↔ a_lb a <= x < a_ub a)).
  { unfold off, lb, ub. destruct (Z.ltb_spec (a_lb a) BASE), (Z.ltb_spec (BASE + N) (a_ub a)); split_and!; try lia; intros; lia. }
  destruct Hoff as (E1 & E2 & E3 & E4 & E5 & Hiff).
  destruct (rdn_is_Some bs off (ub - lb)) as [src Es]; [lia..|]. rewrite Es. cbn [mbind option_bind].
  pose proof (rdn_len _ _ _ _ Es) as Hsl.
  destruct (wrn_is_Some buf (lb - BASE) src) as [buf1 Ew]; [lia..|]. rewrite Ew. cbn [mbind option_bind].
  pose proof (wrn_len _ _ _ _ Ew) as Hbl.
  destruct (IH' buf1 ltac:(lia)) as (buf' & -> & Hb & Hin1 & Hout). exists buf'. split_and!; [done|lia|..].
  - intros x v Hx (y & bs' & Hy & Ef & Hyx & Hv). apply elem_of_cons in Hy as [-> |Hy]; [|apply Hin1; [done|by exists y, bs']].
    cbn [fst snd] in *. rewrite Hout.
    2: { intros y Hy _ _. specialize (Hall y Hy). lia. }
    assert (bs' = bs) as -> by congruence.
    rewrite (rd_wrn_in _ _ _ _ _ Ew) by (pose proof (proj2 (Hiff (BASE + x) ltac:(lia)) Hyx); lia).
    rewrite (rd_rdn _ _ _ _ _ Es) by (pose proof (proj2 (Hiff (BASE + x) ltac:(lia)) Hyx); lia). rewrite <- Hv. f_equal. lia.
  - intros x Hno. rewrite Hout by (intros y Hy; apply Hno; by right). apply (rd_wrn_out _ _ _ _ _ Ew).
    destruct (decide (0 <= x < N)) as [Hx|Hx]; [|lia].
    pose proof (Hno (p, a) ltac:(left) HT Hx) as Hn. cbn [snd] in Hn.
    destruct (decide (lb <= BASE + x < ub)) as [Hlu|]; [|lia]. by apply Hiff in Hlu; [|lia].
Qed.

Lemma flatten_mapping_ok m buf : placed m → m_size m <= blen buf →
  ∃ buf', flatten_loop flat (m_base m) (m_base m + m_size m) (m_i m) buf = Some buf' ∧ blen buf' = blen buf ∧
    (∀ x v, 0 <= x < m_size m → byte_at flat l (m_base m + x) v → rd buf' x = Some v) ∧
    ∀ x, ¬ occupied m x → rd buf' x = rd buf x.
Proof.
  intros [H1 H2 H3 H4 H5 H6] Hb. destruct (flatten_loop_ok (m_base m) (m_size m) (m_i m) H1 H2 H3 H5 buf Hb) as (buf' & E & El & Hin & Hout).
  exists buf'. split_and!; [done..| |].
  - intros x v Hx Hv. apply Hin; [done|]. destruct (byte_at_filled l _ _ ltac:(done) Hv) as (y & Hy & HT & Hyx).
    destruct Hv as (y' & bs & Hy' & Ef & Hyx' & Hv). exists y', bs. split_and!; try done; [|lia..].
    apply H4; [done| |lia..]. specialize (FL y' Hy'). destruct (a_T y'.2); [done|congruence].
  - intros x Hno. apply Hout. intros y Hy HT Hx Hyx. apply Hno. split; [done|]. exists y. split_and!; try done; [by apply H3|lia..].
Qed.

Lemma flatten_group_ok N g : (∀ m, m ∈ g → placed m ∧ m_size m = N) →
  (∀ i j m m' x, g !! i = Some m → g !! j = Some m' → occupied m x → occupied m' x → i = j) →
  ∀ buf, N <= blen buf → ∃ buf', flatten_group flat g buf = Some buf' ∧ blen buf' = blen buf ∧
    (∀ m x v, m ∈ g → 0 <= x < N → byte_at flat l (m_base m + x) v → rd buf' x = Some v) ∧
    ∀ x, (∀ m, m ∈ g → ¬ occupied m x) → rd buf' x = rd buf x.
Proof.
  induction g as [|m g IH]; intros Hg Hex buf Hb; cbn [flatten_group].
  { exists buf. split_and!; try done. by intros m x v ?%elem_of_nil. }
  destruct (Hg m ltac:(left)) as [Hp Hn]. destruct (flatten_mapping_ok m buf Hp) as (buf1 & -> & El1 & Hin1 & Hout1); [lia|].
  cbn [mbind option_bind]. destruct (IH (λ m Hm, Hg m (list_elem_of_further _ _ _ Hm))) with (buf := buf1) as (buf' & E & El & Hin & Hout).
  - intros i j m1 m2 x H1 H2 H3 H4. specialize (Hex (S i) (S j) m1 m2 x H1 H2 H3 H4). by injection Hex.
  - lia.
  - exists buf'. split_and!; [done|lia| |].
    + intros m' x v [-> |Hm]%elem_of_cons Hx Hv; [|by apply (Hin m')]. rewrite Hout; [apply Hin1; [lia|done]|].
      intros m' Hm' Ho. destruct (byte_at_filled l _ _ ltac:(done) Hv) as (y & Hy & HT & Hyx).
      apply list_elem_of_lookup_1 in Hm' as [j Hj].
      enough (0%nat = S j) by done. apply (Hex 0%nat (S j) m m' x); try done. split; [lia|]. by exists y.
    + intros x Hno. rewrite Hout by (intros m' Hm'; apply Hno; by right). apply Hout1, Hno. left.
Qed.

(** A group is flattened to a buffer of its size, with the bytes of all its trampolines. *)
Lemma flattenMapping_ok g fill buf : group_ok g → ∃ m0, head g = Some m0 ∧ (m_size m0 <= blen buf →
  ∃ buf', flattenMapping flat buf g fill = Some buf' ∧ blen buf' = blen buf ∧
    (∀ m x v, m ∈ g → 0 <= x < m_size m → byte_at flat l (m_base m + x) v → rd buf' x = Some v) ∧
    ∀ x, m_size m0 <= x → rd buf' x = rd buf x).
Proof.
  intros Hg. destruct g as [|m0 g]; [by destruct (gr_ne _ Hg)|]. exists m0. split; [done|]. intros Hb.
  unfold flattenMapping. cbn [head mbind option_bind].
  pose proof (pl_size m0 (gr_placed _ Hg m0 ltac:(left))) as Hs.
  assert (Hr : blen (repeat fill (Z.to_nat (m_size m0))) = m_size m0) by (unfold blen; rewrite repeat_length; lia).
  destruct (wrn_is_Some buf 0 (repeat fill (Z.to_nat (m_size m0)))) as [buf1 Ew]; [lia..|]. rewrite Ew. cbn [mbind option_bind].
  pose proof (wrn_len _ _ _ _ Ew) as Hl1.
  destruct (flatten_group_ok (m_size m0) (m0 :: g)) with (buf := buf1) as (buf' & E & El & Hin & Hout).
  - intros m Hm. split; [by apply (gr_placed _ Hg)|]. apply (gr_size _ Hg); [done|left].
  - apply (gr_excl _ Hg).
  - lia.
  - exists buf'. split_and!; [done|lia| |].
    + intros m x v Hm Hx Hv. apply (Hin m); [done| |done]. by rewrite <- (gr_size _ Hg m m0 Hm ltac:(left)).
    + intros x Hx. rewrite Hout. { apply (rd_wrn_out _ _ _ _ _ Ew). lia. }
      intros m Hm [Hxm _]. rewrite (gr_size _ Hg m m0 Hm ltac:(left)) in Hxm. lia.
Qed.

(** ** Virtual bounds *)

Section Virtual.
Context (G N : Z) (HG : 0 < G) (HGN : (G | N)) (HN : 0 < N < 2 ^ 62).

(** A range of whole pages of a mapping. *)
Definition range_ok (b : Bounds) : Prop :=
  0 <= b_lb b ∧ b_lb b < b_ub b ∧ b_ub b <= N ∧ (G | b_lb b) ∧ (G | b_ub b).

(** The bounds of what was seen since the last range. *)
Definition pending (lb ub : Z) : Prop := (lb = INTPTR_MAX ∧ ub = INTPTR_MIN) ∨ (0 <= lb ∧ lb < ub ∧ ub <= N).

Lemma pushBounds_ok lb ub bounds : pending lb ub → ∃ more, pushBounds lb ub G bounds = bounds ++ more ∧
  Forall range_ok more ∧ ∀ x, lb <= x < ub → ∃ b, b ∈ more ∧ b_lb b <= x < b_ub b.
Proof.
  unfold pushBounds. intros [[-> ->]|(H1 & H2 & H3)].
  - exists []. cbn [orb]. rewrite Z.eqb_refl. cbn [orb]. rewrite app_nil_r. split_and!; [done|by apply Forall_nil|].
    unfold INTPTR_MAX, INTPTR_MIN. lia.
  - destruct (Z.eqb_spec lb INTPTR_MAX); [unfold INTPTR_MAX in *; lia|]. destruct (Z.eqb_spec ub INTPTR_MIN); [unfold INTPTR_MIN in *; lia|].
    cbn [orb]. cbv zeta. eexists. split; [reflexivity|].
    assert (HGm : G <= N) by (apply Z.divide_pos_le; [lia|done]).
    destruct (round_down G HG lb) as [R1 R2]; [lia|]. destruct (round_up G HG ub N) as [R3 R4]; [lia|done|lia|].
    assert (E : (if u64 ub mod G =? 0 then ub else ub + G - u64 ub mod G) =
                (if u64 ub mod G =? 0 then ub else ub + G - u64 (ub + G) mod G)).
    { assert (Em : (ub + G) mod G = ub mod G) by (rewrite <- (Z.mul_1_l G) at 1; apply Z_mod_plus_full).
      by rewrite !wrapu_small, Em by lia. }
    rewrite E. split.
    + constructor; [|done]. split_and!; cbn [b_lb b_ub]; try done; lia.
    + intros x Hx. eexists. split; [by left|]. cbn [b_lb b_ub]. lia.
Qed.

Lemma pushBounds_clear lb ub z bounds more : pending lb ub → (G | z) → 0 <= z → lb = INTPTR_MAX ∨ z <= lb →
  pushBounds lb ub G bounds = bounds ++ more → ∀ b, b ∈ more → z <= b_lb b ∧ b_ub b <= N.
Proof.
  intros Hp Hz Hz0 Hlb E b Hb. destruct (pushBounds_ok lb ub bounds Hp) as (m & E' & Hm & _). rewrite E' in E. apply app_inv_head in E as <-.
  rewrite Forall_forall in Hm. pose proof (Hm b Hb) as (R1 & R2 & R3 & _). split; [|done].
  unfold pushBounds in E'. destruct Hp as [[-> ->]|(H1 & H2 & H3)].
  { rewrite Z.eqb_refl in E'. cbn [orb] in E'. rewrite <- (app_nil_r bounds) in E' at 1. apply app_inv_head in E' as <-. by apply elem_of_nil in Hb. }
  destruct (Z.eqb_spec lb INTPTR_MAX); [unfold INTPTR_MAX in *; lia|]. destruct (Z.eqb_spec ub INTPTR_MIN); [unfold INTPTR_MIN in *; lia|].
  cbn [orb] in E'. cbv zeta in E'. apply app_inv_head in E' as <-. apply list_elem_of_singleton in Hb as ->. cbn [b_lb].
  rewrite wrapu_small by lia. destruct Hz as [k ->]. pose proof (Z_div_mod_eq_full lb G). pose proof (Z.mod_pos_bound lb G HG).
  assert (k <= lb / G) by (apply Z.div_le_lower_bound; lia). nia.
Qed.

Lemma pushBounds_below lb ub w bounds more : pending lb ub → (G | w) → ub <= w → w <= N → 
  pushBounds lb ub G bounds = bounds ++ more → ∀ b, b ∈ more → b_ub b <= w.
Proof.
  intros Hp Hw Hub HwN E b Hb. unfold pushBounds in E. destruct Hp as [[-> ->]|(H1 & H2 & H3)].
  { rewrite Z.eqb_refl in E. cbn [orb] in E. rewrite <- (app_nil_r bounds) in E at 1. apply app_inv_head in E as <-. by apply elem_of_nil in Hb. }
  destruct (Z.eqb_spec lb INTPTR_MAX); [unfold INTPTR_MAX in *; lia|]. destruct (Z.eqb_spec ub INTPTR_MIN); [unfold INTPTR_MIN in *; lia|].
  cbn [orb] in E. cbv zeta in E. apply app_inv_head in E as <-. apply list_elem_of_singleton in Hb as ->. cbn [b_ub].
  destruct Hw as [k ->]. rewrite wrapu_small by lia. pose proof (Z_div_mod_eq_full ub G). pose proof (Z.mod_pos_bound ub G HG).
  destruct (Z.eqb_spec (ub mod G) 0); [lia|]. assert (ub / G < k) by nia. nia.
Qed.

Lemma virtual_loop_ok BASE i : StronglySorted before i → (∀ y, y ∈ i → y ∈ l) →
  (∀ y, y ∈ i → a_T y.2 ≠ None → BASE < a_ub y.2) →
  ∀ lb ub bounds, pending lb ub → ∃ more, virtual_loop flat BASE (BASE + N) G i lb ub bounds = bounds ++ more ∧
    Forall range_ok more ∧
    ∀ x, 0 <= x < N → lb <= x < ub ∨ (∃ y, y ∈ i ∧ a_T y.2 ≠ None ∧ a_lb y.2 <= BASE + x < a_ub y.2) →
      ∃ b, b ∈ more ∧ b_lb b <= x < b_ub b.
Proof.
  induction i as [|[p a] i IH]; intros Hs Hl Ha lb ub bounds Hp; cbn [virtual_loop].
  { destruct (pushBounds_ok lb ub bounds Hp) as (more & -> & Hm & Hx). exists more. split_and!; [done..|].
    intros x _ [?|(y & ?%elem_of_nil & _)]; [by apply Hx|done]. }
  apply StronglySorted_cons in Hs as [Hall Hs]. rewrite Forall_forall in Hall. unfold before in Hall. cbn [snd] in Hall.
  pose proof (Hl (p, a) ltac:(left)) as Hla. pose proof (sp_range _ _ _ SP _ Hla) as Hr. cbn [snd] in Hr.
  assert (IH' := IH Hs (λ y Hy, Hl y (list_elem_of_further _ _ _ Hy)) (λ y Hy, Ha y (list_elem_of_further _ _ _ Hy))).
  destruct (Z.leb_spec (BASE + N) (a_lb a)) as [Hend|Hin].
  { destruct (pushBounds_ok lb ub bounds Hp) as (more & -> & Hm & Hx). exists more. split_and!; [done..|].
    intros x Hxr [?|(y & Hy & _ & Hyx)]; [by apply Hx|]. apply elem_of_cons in Hy as [-> |Hy]; [cbn [snd] in Hyx; lia|].
    specialize (Hall y Hy). lia. }
  pose proof (FL _ Hla) as Hf. cbn [fst snd] in Hf. destruct (a_T a) as [T|] eqn:ET.
  - destruct Hf as (bs & -> & _). pose proof (Ha (p, a) ltac:(left) ltac:(cbn; congruence)) as Hub.
    pose proof (sp_filled _ _ _ SP _ Hla ltac:(cbn; congruence)) as Hne. cbn [snd] in Hub, Hne.
    assert (Hlh : 0 <= low BASE a ∧ low BASE a < high BASE (BASE + N) a ∧ high BASE (BASE + N) a <= N ∧
      ∀ x, 0 <= x < N → a_lb a <= BASE + x < a_ub a → low BASE a <= x < high BASE (BASE + N) a).
    { unfold low, high. destruct (Z.ltb_spec (a_lb a) BASE), (Z.ltb_spec (BASE + N) (a_ub a)); split_and!; try lia; intros; lia. }
    destruct Hlh as (L1 & L2 & L3 & L4).
    destruct (IH' (Z.min lb (low BASE a)) (Z.max ub (high BASE (BASE + N) a)) bounds) as (more & E & Hm & Hx).
    { right. destruct Hp as [[-> ->]|Hp]; [unfold INTPTR_MAX, INTPTR_MIN|]; lia. }
    exists more. split_and!; [done..|]. intros x Hxr [Hlu|(y & Hy & HT & Hyx)]; [apply Hx; [done|left; lia]|].
    apply Hx; [done|]. apply elem_of_cons in Hy as [-> |Hy]; [left; specialize (L4 x Hxr Hyx); lia|right; by exists y].
  - rewrite Hf. destruct (pushBounds_ok lb ub bounds Hp) as (m1 & -> & Hm1 & Hx1).
    destruct (IH' INTPTR_MAX INTPTR_MIN (bounds ++ m1)) as (m2 & -> & Hm2 & Hx2); [by left|].
    exists (m1 ++ m2). split_and!; [by rewrite app_assoc|by apply Forall_app_2|].
    intros x Hxr [Hlu|(y & Hy & HT & Hyx)].
    + destruct (Hx1 x Hlu) as (b & Hb & Hbx). exists b. split; [apply elem_of_app; by left|done].
    + apply elem_of_cons in Hy as [-> |Hy]; [cbn [snd] in HT; congruence|].
      destruct (Hx2 x Hxr) as (b & Hb & Hbx); [right; by exists y|]. exists b. split; [apply elem_of_app; by right|done].
Qed.

Lemma getVirtualBounds_ok m : placed m → m_size m = N →
  Forall range_ok (getVirtualBounds flat m G) ∧
  ∀ x, occupied m x → ∃ b, b ∈ getVirtualBounds flat m G ∧ b_lb b <= x < b_ub b.
Proof.
  intros [H1 H2 H3 H4 H5 H6] Hn. unfold getVirtualBounds. rewrite Hn in *.
  destruct (virtual_loop_ok (m_base m) (m_i m) H2 H3 H5 INTPTR_MAX INTPTR_MIN []) as (more & -> & Hm & Hx); [by left|].
  cbn [app]. split; [done|]. intros x [Hxr (y & Hy & HT & Hyx)]. rewrite Hn in Hxr. apply Hx; [done|]. right.
  exists y. split_and!; try done; [apply H4; try done; lia|lia..].
Qed.

(** The ranges keep clear of reserved pages: [z] is a page boundary below what is to come. *)
Lemma virtual_loop_clear BASE i : (G | BASE) → StronglySorted before i → (∀ y, y ∈ i → y ∈ l) →
  (∀ y, y ∈ i → a_T y.2 ≠ None → BASE < a_ub y.2) →
  (∀ y, y ∈ i → a_T y.2 = None → (G | a_lb y.2) ∧ (G | a_ub y.2)) →
  ∀ z lb ub bounds more, (G | z) → 0 <= z → (∀ y, y ∈ i → a_T y.2 ≠ None → z <= low BASE y.2) →
    pending lb ub → lb = INTPTR_MAX ∨ (z <= lb ∧ ∀ y, y ∈ i → BASE + ub <= a_lb y.2) →
    virtual_loop flat BASE (BASE + N) G i lb ub bounds = bounds ++ more →
    ∀ b, b ∈ more → z <= b_lb b ∧ ∀ y, y ∈ i → a_T y.2 = None → BASE + b_ub b <= a_lb y.2 ∨ a_ub y.2 <= BASE + b_lb b.
Proof.
  intros HB. induction i as [|[p a] i IH]; intros Hs Hl Ha Hr z lb ub bounds more Hz Hz0 Hlow Hp Hc E b Hb; cbn [virtual_loop] in E.
  - split; [|by intros y ?%elem_of_nil].
    destruct (pushBounds_clear lb ub z bounds more Hp Hz Hz0 ltac:(tauto) E b Hb). done.
  - apply StronglySorted_cons in Hs as [Hall Hs]. rewrite Forall_forall in Hall. unfold before in Hall. cbn [snd] in Hall.
    pose proof (Hl (p, a) ltac:(left)) as Hla. pose proof (sp_range _ _ _ SP _ Hla) as Hra. cbn [snd] in Hra.
    assert (IH' := IH Hs (λ y Hy, Hl y (list_elem_of_further _ _ _ Hy)) (λ y Hy, Ha y (list_elem_of_further _ _ _ Hy))
      (λ y Hy, Hr y (list_elem_of_further _ _ _ Hy))). clear IH.
    assert (Hlow' : ∀ y, y ∈ i → a_T y.2 ≠ None → z <= low BASE y.2) by (intros; apply Hlow; [by right|done]).
    assert (Hzlb : lb = INTPTR_MAX ∨ z <= lb) by tauto.
    destruct (Z.leb_spec (BASE + N) (a_lb a)) as [Hend|Hin].
    { destruct (pushBounds_clear lb ub z bounds more Hp Hz Hz0 Hzlb E b Hb) as [H1 H2]. split; [done|].
      intros y Hy _. left. apply elem_of_cons in Hy as [-> |Hy]; [cbn [snd]; lia|specialize (Hall y Hy); lia]. }
    pose proof (FL _ Hla) as Hf. cbn [fst snd] in Hf. destruct (a_T a) as [T|] eqn:ET.
    + destruct Hf as (bs & Efl & _). rewrite Efl in E. pose proof (Ha (p, a) ltac:(left) ltac:(cbn; congruence)) as Hub.
      pose proof (sp_filled _ _ _ SP _ Hla ltac:(cbn; congruence)) as Hne. cbn [snd] in Hub, Hne.
      assert (Hlh : 0 <= low BASE a ∧ low BASE a < high BASE (BASE + N) a ∧ high BASE (BASE + N) a <= N ∧ BASE + high BASE (BASE + N) a <= a_ub a).
      { unfold low, high. destruct (Z.ltb_spec (a_lb a) BASE), (Z.ltb_spec (BASE + N) (a_ub a)); lia. }
      pose proof (Hlow (p, a) ltac:(left) ltac:(cbn; congruence)) as Hza. cbn [snd] in Hza.
      destruct (IH' z (Z.min lb (low BASE a)) (Z.max ub (high BASE (BASE + N) a)) bounds more Hz Hz0 Hlow') with (b := b) as [H1 H2]; try done.
      * right. destruct Hp as [[-> ->]|Hp]; [unfold INTPTR_MAX, INTPTR_MIN|]; lia.
      * right. split; [destruct Hzlb as [-> |]; [unfold INTPTR_MAX in *|]; lia|]. intros y Hy. specialize (Hall y Hy).
        destruct Hc as [-> |[_ Hc]]; [destruct Hp as [[_ ->]|Hp]; [unfold INTPTR_MIN; lia|unfold INTPTR_MAX in Hp; lia]|].
        specialize (Hc y ltac:(by right)). lia.
      * split; [done|]. intros y [-> |Hy]%elem_of_cons HT; [cbn [snd] in HT; congruence|by apply H2].
    + rewrite Hf in E. destruct (pushBounds_ok lb ub bounds Hp) as (m1 & E1 & Hm1 & _). rewrite E1 in E.
      destruct (virtual_loop_ok BASE i Hs (λ y Hy, Hl y (list_elem_of_further _ _ _ Hy)) (λ y Hy, Ha y (list_elem_of_further _ _ _ Hy))
        INTPTR_MAX INTPTR_MIN (bounds ++ m1)) as (m2 & E2 & Hm2 & _); [by left|].
      rewrite E2, <- app_assoc in E. apply app_inv_head in E as <-.
      destruct (Hr (p, a) ltac:(left) ET) as [Ga1 Ga2]. cbn [snd] in Ga1, Ga2.
      apply elem_of_app in Hb as [Hb|Hb].
      * destruct (pushBounds_clear lb ub z bounds m1 Hp Hz Hz0 Hzlb E1 b Hb) as [H1 H2]. split; [done|].
        assert (Hba : BASE + b_ub b <= a_lb a).
        { destruct Hc as [-> |[_ Hc]].
          - destruct Hp as [[_ ->]|Hp]; [|unfold INTPTR_MAX in Hp; lia]. unfold pushBounds in E1. rewrite Z.eqb_refl in E1. cbn [orb] in E1.
            rewrite <- (app_nil_r bounds) in E1 at 1. apply app_inv_head in E1 as <-. by apply elem_of_nil in Hb.
          - specialize (Hc (p, a) ltac:(left)). cbn [snd] in Hc. enough (b_ub b <= a_lb a - BASE) by lia.
            apply (pushBounds_below lb ub (a_lb a - BASE) bounds m1); try done; [by apply Z.divide_sub_r|lia|lia]. }
        intros y [-> |Hy]%elem_of_cons _; [by left|]. left. specialize (Hall y Hy). lia.
      * assert (Hi : ∀ z, (G | z) → 0 <= z → (∀ y, y ∈ i → a_T y.2 ≠ None → z <= low BASE y.2) → z <= b_lb b ∧
          ∀ y, y ∈ i → a_T y.2 = None → BASE + b_ub b <= a_lb y.2 ∨ a_ub y.2 <= BASE + b_lb b).
        { intros z' Hz' Hz0' Hlow''. apply (IH' z' INTPTR_MAX INTPTR_MIN (bounds ++ m1) m2 Hz' Hz0' Hlow''); [by left|by left|done|done]. }
        destruct (Hi z Hz Hz0 Hlow') as [H1 H2]. split; [done|]. intros y [-> |Hy]%elem_of_cons HT; [|by apply H2]. right. cbn [snd].
        destruct (Z.leb_spec (a_ub a) BASE).
        { rewrite Forall_forall in Hm2. destruct (Hm2 b Hb) as (? & _). lia. }
        destruct (Hi (a_ub a - BASE)) as [H3 _]; [by apply Z.divide_sub_r|lia| |lia].
        intros y Hy _. specialize (Hall y Hy). unfold low. destruct (Z.ltb_spec (a_lb y.2) BASE); lia.
Qed.

(** Every range of a mapping is disjoint from every reserved range of pages. *)
Lemma getVirtualBounds_clear m y b : placed m → m_size m = N → (G | m_base m) →
  (∀ y, y ∈ l → a_T y.2 = None → (G | a_lb y.2) ∧ (G | a_ub y.2)) →
  y ∈ l → a_T y.2 = None → b ∈ getVirtualBounds flat m G →
  m_base m + b_ub b <= a_lb y.2 ∨ a_ub y.2 <= m_base m + b_lb b.
Proof.
  intros [H1 H2 H3 H4 H5 (pre & El & Hpre)] Hn HGb Hr Hy HT Hb. unfold getVirtualBounds in Hb. rewrite Hn in *.
  destruct (virtual_loop_ok (m_base m) (m_i m) H2 H3 H5 INTPTR_MAX INTPTR_MIN []) as (more & E & Hm & _); [by left|].
  rewrite E in Hb. cbn [app] in Hb. rewrite Forall_forall in Hm. destruct (Hm b Hb) as (Hb0 & _).
  assert (Hi : ∀ z, (G | z) → 0 <= z → (∀ y, y ∈ m_i m → a_T y.2 ≠ None → z <= low (m_base m) y.2) → z <= b_lb b ∧
    ∀ y, y ∈ m_i m → a_T y.2 = None → m_base m + b_ub b <= a_lb y.2 ∨ a_ub y.2 <= m_base m + b_lb b).
  { intros z Hz Hz0 Hlow. apply (virtual_loop_clear (m_base m) (m_i m) HGb H2 H3 H5 (λ y Hy, Hr y (H3 y Hy)) z INTPTR_MAX INTPTR_MIN [] more);
      [done|done|done|by left|by left|done|done]. }
  destruct (Hr y Hy HT) as [Ga1 Ga2]. pose proof Hy as Hy'. rewrite El in Hy'. apply elem_of_app in Hy' as [Hy'|Hy'].
  - right. destruct (Z.leb_spec (a_ub y.2) (m_base m)); [lia|].
    destruct (Hi (a_ub y.2 - m_base m)) as [Hzb _]; [by apply Z.divide_sub_r|lia| |lia].
    intros y' Hy1 _. specialize (Hpre y y' Hy' Hy1). unfold before in Hpre. unfold low. destruct (Z.ltb_spec (a_lb y'.2) (m_base m)); lia.
  - destruct (Hi 0) as [_ H]; [by exists 0|lia| |by apply H].
    intros y' Hy1 _. unfold low. destruct (Z.ltb_spec (a_lb y'.2) (m_base m)); lia.
Qed.

End Virtual.

End Flat.

End MappingFlat.
