(* ===== verification/E9Misc.v ===== *)
(** * E9Misc: the set of instructions

    Models src/src/e9patch/e9misc.cpp: the instructions are in an array that grows
    downwards, in the order of their offsets, with an entry of zeroes at its end; they are
    found by binary search. *)

From stdpp Require Import gmap.
From S2P Require Import Prelude E9Patch E9Alloc E9Tactics E9Optimize.

Module E9Misc.
Import E9 E9Tactics E9Optimize.

Section InstrSet.
Context {S : Type}.
Implicit Types (b : Binary S) (I J : Instr) (j : iptr).

(** [InstrSet::alloc], without the growth of the array by mmap; the new entry is zero. *)
Definition zero_instr : Instr := MkInstr 0 0 0 0 false false false false false false false 0 None None.

Definition alloc b : iptr * Binary S :=
  let lb := B_lb b - 1 in (lb, set_B_Is (<[lb := zero_instr]> (B_Is b)) (set_B_lb lb b)).

(** [Is[mid].offset]; the entry at the end is zero. *)
Definition offset_at b (mid : Z) : option Z :=
  if B_lb b + mid =? B_ub b then Some 0 else I ← instr b (B_lb b + mid); Some (i_offset I).

(** The loop of [lower_bound]: whether the offset was found, and the last [mid]. *)
Fixpoint search_offset (fuel : nat) b (offset lo hi mid : Z) : option (bool * Z) :=
  if hi <? lo then Some (false, mid)
  else
    match fuel with
    | O => None
    | Datatypes.S fuel =>
        let mid := Z.quot (lo + hi) 2 in
        o ← offset_at b mid;
        if o <? offset then search_offset fuel b offset (mid + 1) hi mid
        else if offset <? o then search_offset fuel b offset lo (mid - 1) mid
        else Some (true, mid)
    end.

Definition lower_bound b (offset : Z) : option (option iptr) :=
  if B_lb b =? B_ub b then Some None
  else
    '(found, mid) ← search_offset (num_instrs b) b offset 0 (B_ub b - B_lb b - 1) 0;
    if (found : bool) then Some (Some (B_lb b + mid))
    else
      o ← offset_at b mid;
      let mid := if o <? offset then mid + 1 else mid in
      o ← offset_at b mid;
      Some (if o =? 0 then None else Some (B_lb b + mid)).

(** [InstrSet::find] *)
Definition find b (offset : Z) : option (option iptr) :=
  j ← lower_bound b offset;
  match j with
  | None => Some None
  | Some j => I ← instr b j; Some (if i_offset I =? offset then Some j else None)
  end.

(** ** The search is exact *)

(** The instructions are in the order of their offsets, which are not 0. *)
Record offset_order b : Prop := {
  oo_bounds : B_lb b <= B_ub b;
  oo_some j : B_lb b <= j < B_ub b → ∃ I, instr b j = Some I ∧ 0 < i_offset I;
  oo_less i j I J : B_lb b <= i → i < j → j < B_ub b → instr b i = Some I → instr b j = Some J →
    i_offset I < i_offset J }.

Section Search.
Context b (OO : offset_order b) (offset : Z).
Abbreviation n := (B_ub b - B_lb b).

(** The instructions from position [k] on are those with an offset of [offset] or more. *)
Definition split_at (k : Z) : Prop :=
  ∀ j I, B_lb b <= j < B_ub b → instr b j = Some I → i_offset I < offset ↔ j < B_lb b + k.

Lemma offset_at_in mid : 0 <= mid < n → ∃ I, instr b (B_lb b + mid) = Some I ∧ offset_at b mid = Some (i_offset I) ∧ 0 < i_offset I.
Proof.
  intros Hm. destruct (oo_some b OO (B_lb b + mid)) as (I & E & H0); [lia|]. exists I. unfold offset_at.
  destruct (Z.eqb_spec (B_lb b + mid) (B_ub b)); [lia|]. by rewrite E.
Qed.

(** Below [lo] are smaller offsets, and above [hi] greater ones; [mid] is next to the gap. *)
Definition narrowed (lo hi : Z) : Prop :=
  ∀ j I, B_lb b <= j < B_ub b → instr b j = Some I →
    (j < B_lb b + lo → i_offset I < offset) ∧ (B_lb b + hi < j → offset < i_offset I).

Lemma search_ok fuel : ∀ lo hi mid, 0 <= lo → hi < n → lo <= hi + 1 → hi - lo < Z.of_nat fuel → narrowed lo hi →
  (hi < lo → 0 <= mid < n ∧ (mid = lo ∨ mid = hi)) →
  ∃ found mid', search_offset fuel b offset lo hi mid = Some (found, mid') ∧ 0 <= mid' < n ∧
    (if found : bool then ∃ I, instr b (B_lb b + mid') = Some I ∧ i_offset I = offset
     else split_at mid' ∨ split_at (mid' + 1)).
Proof.
  induction fuel as [|fuel IH]; intros lo hi mid Hlo Hhi Hlh Hf Hn Hm; cbn [search_offset]; destruct (Z.ltb_spec hi lo) as [Hlt|Hge]; [|lia| |].
  1,2: exists false, mid; destruct (Hm Hlt) as [Hr Hd]; split_and!; [done|lia..|];
    assert (Hs : split_at lo) by (intros j I Hj E; destruct (Hn j I Hj E); lia);
    destruct Hd as [-> | ->]; [by left|right; by replace (hi + 1) with lo by lia].
  rewrite Z.quot_div_nonneg by lia. set (m := (lo + hi) / 2).
  assert (Hmid : lo <= m <= hi) by (unfold m; split; [apply Z.div_le_lower_bound|apply Z.div_le_upper_bound]; lia).
  destruct (offset_at_in m) as (I & EI & -> & HI); [lia|]. cbn [mbind option_bind].
  assert (Hord : ∀ j J, B_lb b <= j < B_ub b → instr b j = Some J →
    (j < B_lb b + m → i_offset J < i_offset I) ∧ (B_lb b + m < j → i_offset I < i_offset J) ∧ (j = B_lb b + m → J = I)).
  { intros j J Hj EJ. split_and!.
    - intros H. by apply (oo_less b OO j (B_lb b + m) J I); [lia..| |].
    - intros H. by apply (oo_less b OO (B_lb b + m) j I J); [lia..| |].
    - intros ->. congruence. }
  destruct (Z.ltb_spec (i_offset I) offset); [|destruct (Z.ltb_spec offset (i_offset I))].
  - apply IH; [lia..| |lia]. intros j J Hj EJ. destruct (Hn j J Hj EJ), (Hord j J Hj EJ) as (G1 & G2 & G3).
    split; [|done]. intros Hjm. destruct (decide (j = B_lb b + m)); [rewrite G3 by done; done|]. specialize (G1 ltac:(lia)). lia.
  - apply IH; [lia..| |lia]. intros j J Hj EJ. destruct (Hn j J Hj EJ), (Hord j J Hj EJ) as (G1 & G2 & G3).
    split; [done|]. intros Hjm. destruct (decide (j = B_lb b + m)); [rewrite G3 by done; done|]. specialize (G2 ltac:(lia)). lia.
  - exists true, m. split_and!; [done|lia..|]. exists I. split; [done|lia].
Qed.

(** [lower_bound] returns the first instruction that is not below the offset. *)
Lemma lower_bound_ok : ∃ r, lower_bound b offset = Some r ∧
  match r with
  | Some j => B_lb b <= j < B_ub b ∧ split_at (j - B_lb b)
  | None => split_at n
  end.
Proof.
  pose proof (oo_bounds b OO) as Hb. unfold lower_bound. destruct (Z.eqb_spec (B_lb b) (B_ub b)) as [E|E].
  { exists None. split; [done|]. intros j I Hj. lia. }
  destruct (search_ok (num_instrs b) 0 (n - 1) 0) as (found & m & -> & Hm & H); [lia|lia|lia|unfold num_instrs; lia| |lia|].
  { intros j I Hj _. split; lia. }
  cbn [mbind option_bind]. destruct found.
  { destruct H as (I & EI & HI). eexists. split; [reflexivity|]. split; [lia|]. intros j J Hj EJ.
    destruct (Z.lt_trichotomy j (B_lb b + m)) as [H| [-> |H]].
    - pose proof (oo_less b OO j (B_lb b + m) J I ltac:(lia) ltac:(lia) ltac:(lia) EJ EI). lia.
    - assert (J = I) as -> by congruence. lia.
    - pose proof (oo_less b OO (B_lb b + m) j I J ltac:(lia) ltac:(lia) ltac:(lia) EI EJ). lia. }
  destruct (offset_at_in m Hm) as (I & EI & -> & HI). cbn [mbind option_bind].
  assert (Hs : split_at (if i_offset I <? offset then m + 1 else m)).
  { destruct H as [H|H]; pose proof (H _ I (ltac:(lia) : B_lb b <= B_lb b + m < B_ub b) EI);
      destruct (Z.ltb_spec (i_offset I) offset); (done || lia). }
  set (m' := if i_offset I <? offset then m + 1 else m) in *.
  assert (Hm' : 0 <= m' <= n) by (unfold m'; destruct (_ <? _); lia).
  destruct (decide (m' = n)) as [-> |].
  - unfold offset_at. destruct (Z.eqb_spec (B_lb b + n) (B_ub b)); [|lia]. cbn [mbind option_bind]. by exists None.
  - destruct (offset_at_in m') as (J & EJ & -> & HJ); [lia|]. cbn [mbind option_bind]. destruct (Z.eqb_spec (i_offset J) 0); [lia|].
    eexists. split; [reflexivity|]. split; [lia|]. by replace (B_lb b + m' - B_lb b) with m' by lia.
Qed.

(** [find] is exact. *)
Lemma instr_find_ok : ∃ r, find b offset = Some r ∧
  match r with
  | Some j => B_lb b <= j < B_ub b ∧ ∃ I, instr b j = Some I ∧ i_offset I = offset
  | None => ∀ j I, B_lb b <= j < B_ub b → instr b j = Some I → i_offset I ≠ offset
  end.
Proof.
  unfold find. destruct lower_bound_ok as (r & -> & Hr). cbn [mbind option_bind]. destruct r as [j|].
  - destruct Hr as [Hj Hs]. destruct (oo_some b OO j Hj) as (I & EI & _). rewrite EI. cbn [mbind option_bind].
    destruct (Z.eqb_spec (i_offset I) offset) as [E|E].
    + eexists. split; [reflexivity|]. split; [done|]. by exists I.
    + exists None. split; [done|]. intros i J Hi EJ E'. pose proof (Hs i J Hi EJ). pose proof (Hs j I Hj EI).
      destruct (Z.lt_trichotomy i j) as [H1| [-> |H1]]; [lia|congruence|].
      pose proof (oo_less b OO j i I J ltac:(lia) H1 ltac:(lia) EI EJ). lia.
  - exists None. split; [done|]. intros j I Hj EI E. pose proof (Hr j I Hj EI). lia.
Qed.

End Search.
End InstrSet.

End E9Misc.
