(* ===== verification/E9Elf.v ===== *)
(** * E9Elf: reading and writing ELF files

    Models src/src/e9patch/e9elf.cpp: the headers of the input are checked and its segments
    reserved; the output gets the refactored pages, the flattened mappings, the tables and
    the code of the loader, and headers that load it. *)

From stdpp Require Import gmap.
From S2P Require Import Prelude E9Patch E9Alloc E9AllocTree E9Tactics E9Optimize E9Misc E9Mapping.

Module E9Elf.
Import E9 E9Alloc E9Tactics E9Mapping.

(** ** Layouts of elf.h and e9elf.h *)

Definition sizeof_Ehdr : Z := 64.
Definition sizeof_Phdr : Z := 56.
Definition sizeof_Nhdr : Z := 12.
Definition sizeof_property : Z := 8.
Definition sizeof_Dyn : Z := 16.
Definition sizeof_Rela : Z := 24.

Definition PT_LOAD : Z := 1.
Definition PT_DYNAMIC : Z := 2.
Definition PT_NOTE : Z := 4.
Definition PT_GNU_STACK : Z := 0x6474e551.
Definition PT_GNU_RELRO : Z := 0x6474e552.
Definition PT_GNU_PROPERTY : Z := 0x6474e553.
Definition NT_GNU_PROPERTY_TYPE_0 : Z := 5.
Definition GNU_PROPERTY_X86_FEATURE_1_AND : Z := 0xc0000002.
Definition GNU_PROPERTY_X86_FEATURE_1_IBT : Z := 0x1.
Definition GNU_PROPERTY_X86_FEATURE_1_SHSTK : Z := 0x2.
Definition PF_X : Z := 1.
Definition PF_R : Z := 4.

(** The fields of a program header that are used. *)
Record Phdr := MkPhdr {
  p_type : Z; p_offset : Z; p_vaddr : Z; p_filesz : Z; p_memsz : Z; p_align : Z }.

Definition read_phdr (data : bytes) (off : Z) : option Phdr :=
  ty ← rd32 data off; o ← rd64 data (off + 8); v ← rd64 data (off + 16);
  fs ← rd64 data (off + 32); ms ← rd64 data (off + 40); al ← rd64 data (off + 48);
  Some (MkPhdr ty o v fs ms al).

(** [struct ElfInfo]; pointers to headers are offsets. *)
Record ElfInfo := MkElfInfo {
  phdr_note : option Z; phdr_gnu_relro : option Z; phdr_gnu_stack : option Z;
  phdr_dynamic : option Z; features : option Z }.

(** The options of the loader. *)
Record LoaderOptions := MkLoaderOptions {
  option_loader_phdr : Z; option_loader_static : bool; option_trap_entry : bool }.

(** [struct Refactor] *)
Record Refactor := MkRefactor { r_addr : Z; r_size : Z; r_original : Z; r_patched : Z }.

(** ** Reading ([parseElf]) *)

(** What the loop over the program headers finds. *)
Record Segments := MkSegments {
  s_note : option Z; s_relro : option Z; s_stack : option Z; s_dynamic : option Z;
  s_max : option Z; s_property : option Z; s_vmax : Z }.

(** The body of that loop; the header is at [off]. *)
Definition parse_phdr (size off : Z) (ph : Phdr) (s : Segments) (t : Tree) :
    option (Segments * Tree) :=
  '(check, s, t) ←
    (if p_type ph =? PT_LOAD then
       let vstart := s64 (p_vaddr ph) in
       let vend := s64 (vstart + p_memsz ph) in
       t ← (if 0 <? s64 (vend - vstart)
            then '(ok, t) ← reserve vstart vend t; _ ← assert_ ok; Some t
            else Some t);
       if vend <? s_vmax s then Some (true, s, t)
       else Some (0 <? p_filesz ph,
                  MkSegments (s_note s) (s_relro s) (s_stack s) (s_dynamic s) (Some off)
                    (s_property s) vend, t)
     else if p_type ph =? PT_DYNAMIC then
       Some (true, MkSegments (s_note s) (s_relro s) (s_stack s) (Some off) (s_max s)
                     (s_property s) (s_vmax s), t)
     else if p_type ph =? PT_NOTE then
       Some (false, MkSegments (Some off) (s_relro s) (s_stack s) (s_dynamic s) (s_max s)
                      (s_property s) (s_vmax s), t)
     else if p_type ph =? PT_GNU_RELRO then
       Some (false, MkSegments (s_note s) (Some off) (s_stack s) (s_dynamic s) (s_max s)
                      (s_property s) (s_vmax s), t)
     else if p_type ph =? PT_GNU_STACK then
       Some (false, MkSegments (s_note s) (s_relro s) (Some off) (s_dynamic s) (s_max s)
                      (s_property s) (s_vmax s), t)
     else if p_type ph =? PT_GNU_PROPERTY then
       Some (true, MkSegments (s_note s) (s_relro s) (s_stack s) (s_dynamic s) (s_max s)
                     (Some off) (s_vmax s), t)
     else Some (false, s, t));
  _ ← assert_ (negb (check && ((size <? p_offset ph) || (size <? u64 (p_offset ph + p_filesz ph)))));
  Some (s, t).

Fixpoint parse_phdrs (data : bytes) (size off : Z) (n : nat) (s : Segments) (t : Tree) :
    option (Segments * Tree) :=
  match n with
  | O => Some (s, t)
  | S n =>
      ph ← read_phdr data off;
      '(s, t) ← parse_phdr size off ph s t;
      parse_phdrs data size (off + sizeof_Phdr) n s t
  end.

(** The loop over the properties of a note. *)
Fixpoint property_loop (fuel : nat) (data : bytes) (ptr end_ last : Z) : option (option Z) :=
  match fuel with
  | O => None
  | S fuel =>
      ty ← rd32 data ptr;
      if ty <? last then Some None
      else
        sz ← rd32 data (ptr + 4);
        if end_ - sizeof_property <? ptr + sz then Some None
        else if ty =? GNU_PROPERTY_X86_FEATURE_1_AND then Some (Some (ptr + 8))
        else
          let ptr := ptr + sz + (if sz mod 8 =? 0 then 0 else 8) in
          if sizeof_property <=? end_ - ptr then property_loop fuel data ptr end_ ty
          else Some None
  end.

(** The loop over the notes, at [i]; nothing in it changes [i]. *)
Fixpoint note_loop (fuel : nat) (data : bytes) (notes size i : Z) : option (option Z) :=
  if i + sizeof_Nhdr <? size then
    match fuel with
    | O => None
    | S fuel' =>
        let note := notes + i in
        namesz ← rd32 data note; ty ← rd32 data (note + 8);
        is_gnu ← (if (namesz =? 4) && (ty =? NT_GNU_PROPERTY_TYPE_0)
                  then memeq data (note + sizeof_Nhdr) (bytes_of_string "GNU" ++ [0])
                  else Some false);
        if (is_gnu : bool) then
          descsz ← rd32 data (note + 4);
          if (descsz <? sizeof_property) || negb (descsz mod sizeof_property =? 0) then Some None
          else let ptr := note + sizeof_Nhdr + 4 in
               property_loop fuel data ptr (ptr + descsz) 0
        else note_loop fuel' data notes size i
    end
  else Some None.

(** [strcmp(data + off, s) == 0] *)
Fixpoint strcmp_eq (data : bytes) (off : Z) (s : bytes) : option bool :=
  match s with
  | [] => c ← rd data off; Some (c =? 0)
  | c :: s => d ← rd data off; if d =? c then strcmp_eq data (off + 1) s else Some false
  end.

Definition sizeof_config : Z := 128.

(** The tests of the header. *)
Definition check_ehdr (data : bytes) (size : Z) : option () :=
  _ ← assert_ (sizeof_Ehdr <=? size);
  is_elf ← memeq data 0 [0x7f; 0x45; 0x4c; 0x46]; _ ← assert_ is_elf;
  cls ← rd data 4; _ ← assert_ (cls =? 2);
  enc ← rd data 5; _ ← assert_ (enc =? 1);
  ver ← rd data 6; _ ← assert_ (ver =? 1);
  machine ← rd16 data 18; _ ← assert_ (machine =? 62);
  phoff ← rd64 data 32; phnum ← rd16 data 56;
  _ ← assert_ ((sizeof_Ehdr <=? phoff) && (phoff <? size));
  _ ← assert_ (phnum <=? 0xffff);
  assert_ (phoff + phnum * sizeof_Phdr <=? size).

(** [parseElf]: whether the program is position independent, and where its headers are. *)
Definition parseElf (opts : Options) (fuel : nat) (b : Binary Tree) :
    option (bool * ElfInfo * Binary Tree) :=
  let data := B_bytes b in
  let size := B_size b in
  _ ← check_ehdr data size;
  ty ← rd16 data 16;
  let t := B_space b in
  '(pic, pie, t) ←
    (if ty =? 2 then
       _ ← assert_ (match B_mode b with MODE_ELF_DSO => false | _ => true end);
       '(ok, t) ← reserve 0x0 0x10000 t; _ ← assert_ ok; Some (false, false, t)
     else if ty =? 3 then
       Some (true, match B_mode b with MODE_ELF_EXE => true | _ => false end, t)
     else None);
  t ← (if negb pie
       then '(ok, t) ← reserve RELATIVE_ADDRESS_MIN 0x0 t; _ ← assert_ ok; Some t
       else Some t);
  phoff ← rd64 data 32; phnum ← rd16 data 56;
  '(s, t) ← parse_phdrs data size phoff (Z.to_nat phnum)
              (MkSegments None None None None None None INTPTR_MIN) t;
  fs ← match s_property s with
       | None => Some None
       | Some off =>
           ph ← read_phdr data off;
           if p_align ph =? 8 then note_loop fuel data (p_offset ph) (p_filesz ph) 0 else Some None
       end;
  _ ← match s_max s with
      | None => Some ()
      | Some off =>
          ph ← read_phdr data off;
          if (u64 (p_offset ph + p_filesz ph) <=? size) && (sizeof_config <=? p_filesz ph)
          then patched ← strcmp_eq data (p_offset ph) (bytes_of_string "E9PATCH");
               assert_ (negb patched)
          else Some ()
      end;
  Some (pic, MkElfInfo (s_note s) (s_relro s) (s_stack s) (s_dynamic s) fs,
        set_B_config (option_loader_base opts) (set_B_space t b)).

(** ** Refactoring *)

Section Refactoring.
Context {Sp : Type} (b : Binary Sp).

(** [memcmp(original + offset, data + offset, PAGE_SIZE) == 0] *)
Definition same_page (original data : bytes) (offset : Z) : option bool :=
  x ← rdn original offset PAGE_SIZE; y ← rdn data offset PAGE_SIZE; Some (bool_decide (x = y)).

(** The loop of step 1 of [emitRefactoredPatch], over [n] pages. *)
Fixpoint find_refactors (original data : bytes) (mapping_size : Z) (n : nat)
    (offset curr_addr curr_offset curr_size : Z) : option (list Refactor) :=
  match n with
  | O => Some (if 0 <=? curr_addr then [MkRefactor curr_addr curr_size curr_offset 0] else [])
  | S n =>
      same ← same_page original data offset;
      if (same : bool)
      then find_refactors original data mapping_size n (offset + PAGE_SIZE) curr_addr curr_offset curr_size
      else
        j ← E9Misc.lower_bound b offset; j ← j; I ← instr b j;
        let page_addr := s64 (i_addr I - page_rem (i_addr I)) in
        let page_offset := i_offset I - page_rem (i_offset I) in
        _ ← assert_ (page_offset =? offset);
        if (curr_addr <? 0) || (page_addr <? curr_addr) ||
           (s64 (curr_addr + curr_size + mapping_size) <? page_addr)
        then
          rs ← find_refactors original data mapping_size n (offset + PAGE_SIZE) page_addr page_offset PAGE_SIZE;
          Some (if 0 <=? curr_addr then MkRefactor curr_addr curr_size curr_offset 0 :: rs else rs)
        else
          let curr_size := u64 (curr_size + ((page_addr + PAGE_SIZE) - (curr_addr + curr_size))) in
          find_refactors original data mapping_size n (offset + PAGE_SIZE) curr_addr curr_offset curr_size
  end.

(** Step 2: the patched pages are copied, and the original ones restored. *)
Fixpoint copy_refactors (original data : bytes) (size : Z) (rs : list Refactor) :
    option (list Refactor * bytes * Z) :=
  match rs with
  | [] => Some ([], data, size)
  | r :: rs =>
      patched ← rdn data (r_original r) (r_size r); data ← wrn data size patched;
      orig ← rdn original (r_original r) (r_size r); data ← wrn data (r_original r) orig;
      '(rs, data, size') ← copy_refactors original data (size + r_size r) rs;
      Some (MkRefactor (r_addr r) (r_size r) (r_original r) size :: rs, data, size')
  end.

Definition emitRefactoredPatch (lopts : LoaderOptions) (original data : bytes) (size mapping_size : Z) :
    option (list Refactor * bytes * Z) :=
  if option_loader_static lopts then Some ([], data, 0)
  else
    _ ← assert_ (size mod PAGE_SIZE =? 0);
    rs ← find_refactors original data mapping_size (Z.to_nat (size / PAGE_SIZE)) 0 INTPTR_MIN (-1) 0;
    '(rs, data, size') ← copy_refactors original data size rs;
    Some (rs, data, size' - size).

End Refactoring.

(** ** The tables of the loader *)

(** [struct e9_config_s]: the offsets of its fields. *)
Definition cfg_version : Z := 8.
Definition cfg_flags : Z := 24.
Definition cfg_size : Z := 28.
Definition cfg_base : Z := 32.
Definition cfg_entry : Z := 40.
Definition cfg_fini : Z := 48.
Definition cfg_mmap : Z := 56.
Definition cfg_num_maps (level : Z) : Z := 64 + 4 * level.
Definition cfg_maps (level : Z) : Z := 72 + 4 * level.
Definition cfg_num_preinits : Z := 80.
Definition cfg_preinits : Z := 84.
Definition cfg_num_postinits : Z := 88.
Definition cfg_postinits : Z := 92.
Definition cfg_num_inits : Z := 96.
Definition cfg_inits : Z := 100.
Definition cfg_num_finis : Z := 104.
Definition cfg_finis : Z := 108.
Definition cfg_num_traps : Z := 112.
Definition cfg_traps : Z := 116.
Definition cfg_handler : Z := 120.
Definition sizeof_config_elf : Z := 8.
Definition sizeof_map : Z := 12.

Definition E9_FLAG_EXE : Z := 0x1.
Definition E9_TYPE_TRAMPOLINE : Z := 0x0.
Definition E9_TYPE_RESERVE : Z := 0x1.
Definition E9_TYPE_REFACTOR : Z := 0x2.
Definition E9_ABS_ADDR : Z := 0x4000000000000000.

(** [data] and [size]: what is written goes to the end. *)
Abbreviation Output := (bytes * Z)%type.

(** [memcpy(data + size, bs, |bs|); size += |bs|], and [data[size++] = ...]. *)
Definition put_bytes (bs : bytes) (o : Output) : option Output :=
  data ← wrn o.1 o.2 bs; Some (data, o.2 + blen bs).

(** A field of the configuration, or of a header: [n] bytes at [off]. *)
Definition set_field (off : Z) (n : nat) (v : Z) (o : Output) : option Output :=
  data ← wrn o.1 off (le_bytes n v); Some (data, o.2).

(** [*field++] *)
Definition inc_field (off : Z) (o : Output) : option Output :=
  x ← rd32 o.1 off; set_field off 4 (x + 1) o.

(** [emitLoaderMap] without the output: the fields of [struct e9_map_s].  [size] is the 16
    bits that are stored in its 20. *)
Record LoaderMap := MkLoaderMap {
  lm_addr : Z; lm_offset : Z; lm_size : Z; lm_type : Z; lm_r : bool; lm_w : bool; lm_x : bool;
  lm_abs : bool }.

Definition loader_map (addr len offset : Z) (r w x : bool) (type : Z) : option LoaderMap :=
  let abs := IS_ABSOLUTE addr in
  let addr := Z.quot (BASE_ADDRESS addr) PAGE_SIZE in
  let len := len / PAGE_SIZE in
  let offset := offset / PAGE_SIZE in
  _ ← assert_ (between INT32_MIN INT32_MAX addr);
  _ ← assert_ (len <? Z.shiftl 1 21);
  _ ← assert_ (offset <=? UINT32_MAX);
  Some (MkLoaderMap addr offset (u16 len) type r w x abs).

(** The bit fields of [struct e9_map_s]. *)
Definition map_word (m : LoaderMap) : Z :=
  lm_size m + Z.shiftl (lm_type m) 20 + Z.shiftl (bool_to_Z (lm_r m)) 28 +
  Z.shiftl (bool_to_Z (lm_w m)) 29 + Z.shiftl (bool_to_Z (lm_x m)) 30 +
  Z.shiftl (bool_to_Z (lm_abs m)) 31.

Definition map_bytes (m : LoaderMap) : bytes :=
  le_bytes 4 (lm_addr m) ++ le_bytes 4 (lm_offset m) ++ le_bytes 4 (map_word m).

(** [emitLoaderMap]; [ub] is the greatest relative address. *)
Definition emitLoaderMap (addr len offset : Z) (r w x : bool) (type : Z) (ub : option Z)
    (o : Output) : option (option Z * Output) :=
  let ub := match ub with
            | None => None
            | Some ub => Some (if negb (IS_ABSOLUTE addr) then Z.max ub addr else ub)
            end in
  m ← loader_map addr len offset r w x type;
  o ← put_bytes (map_bytes m) o;
  Some (ub, o).

(** ** Step (3): the mappings *)

(** The offsets of the groups in the file. *)
Fixpoint emit_mappings (flat : gmap ptr bytes) (gs : list Group) (o : Output) :
    option (list Z * Output) :=
  match gs with
  | [] => Some ([], o)
  | g :: gs =>
      m ← head g;
      buf ← flattenMapping flat (at_off o.1 o.2) g 0xcc;
      '(offs, o') ← emit_mappings flat gs (take (Z.to_nat o.2) o.1 ++ buf, o.2 + m_size m);
      Some (o.2 :: offs, o')
  end.

(** ** Step (4): the loader *)

(** The code of an initialiser: a template of one entry of bytes. *)
Definition init_bytes (T : Trampoline) : option bytes :=
  match entries T with [ENTRY_BYTES bs] => Some bs | _ => None end.

(** The code of the (pre- or post-) initialisers, and its offsets. *)
Fixpoint emit_inits (config : Z) (Ts : list Trampoline) (o : Output) : option (list Z * Output) :=
  match Ts with
  | [] => Some ([], o)
  | T :: Ts =>
      bs ← init_bytes T;
      let start := u32 (o.2 - config) in
      o ← put_bytes bs o; o ← put_bytes [0xcc] o;
      '(starts, o) ← emit_inits config Ts o;
      Some (start :: starts, o)
  end.

(** [while (size % sizeof(uint32_t) != 0)] *)
Definition pad4 (o : Output) : option Output :=
  put_bytes (repeat 0xcc (Z.to_nat ((- o.2) mod 4))) o.

(** A table of 32-bit offsets, and where it is if it is not empty. *)
Definition emit_offsets (config fld num : Z) (starts : list Z) (o : Output) : option Output :=
  o ← set_field (config + fld) 4 (match starts with [] => 0 | _ => o.2 - config end) o;
  o ← set_field (config + num) 4 (Z.of_nat (List.length starts)) o;
  put_bytes (starts ≫= le_bytes 4) o.

(** The address of a function for the loader. *)
Definition func_addr (f : Z) : Z :=
  Z.lor (BASE_ADDRESS f) (if IS_ABSOLUTE f then E9_ABS_ADDR else 0).

(** The same for [config->mmap], in which the test is on the address after its base was
    taken away. *)
Definition mmap_addr (f : Z) : Z :=
  let a := BASE_ADDRESS f in Z.lor a (if IS_ABSOLUTE a then E9_ABS_ADDR else 0).

Fixpoint emit_funcs (config num : Z) (fs : list Z) (o : Output) : option Output :=
  match fs with
  | [] => Some o
  | f :: fs =>
      o ← put_bytes (le_bytes 8 (func_addr f)) o; o ← inc_field (config + num) o;
      emit_funcs config num fs o
  end.

(** A table of [fs] with its field. *)
Definition emit_func_table (config fld num : Z) (fs : list Z) (o : Output) : option Output :=
  o ← set_field (config + fld) 4 (match fs with [] => 0 | _ => o.2 - config end) o;
  emit_funcs config num fs o.

(** The traps, of which the last comes first. *)
Fixpoint emit_traps (b : Binary Tree) (config : Z) (l : list (option ptr)) (o : Output) : option Output :=
  match l with
  | [] => Some o
  | A :: l =>
      p ← A; n ← heap (B_space b) !! p;
      let a := n_alloc n in
      j ← a_I a; I ← instr b j;
      o ← put_bytes (le_bytes 8 (i_addr I) ++ le_bytes 8 (a_lb a + a_entry a)) o;
      o ← inc_field (config + cfg_num_traps) o;
      emit_traps b config l o
  end.

Definition emit_trap_table (b : Binary Tree) (config : Z) (o : Output) : option Output :=
  o ← set_field (config + cfg_traps) 4 (match B_Traps b with [] => 0 | _ => o.2 - config end) o;
  emit_traps b config (rev (B_Traps b)) o.

(** The ranges of one mapping. *)
Fixpoint emit_ranges (m : Mapping) (offset_0 config level : Z) (bs : list Bounds) (ub : Z)
    (o : Output) : option (Z * Output) :=
  match bs with
  | [] => Some (ub, o)
  | b :: bs =>
      '(ub', o) ← emitLoaderMap (m_base m + b_lb b) (b_ub b - b_lb b) (offset_0 + b_lb b)
                    (truthy (Z.land (m_prot m) PROT_READ)) (truthy (Z.land (m_prot m) PROT_WRITE))
                    (truthy (Z.land (m_prot m) PROT_EXEC))
                    (if level =? 0 then E9_TYPE_RESERVE else E9_TYPE_TRAMPOLINE) (Some ub) o;
      ub ← ub';
      o ← inc_field (config + cfg_num_maps level) o;
      emit_ranges m offset_0 config level bs ub o
  end.

(** The mappings of a group that belong to the level. *)
Fixpoint emit_group (flat : gmap ptr bytes) (offset_0 config level : Z) (g : Group) (ub : Z)
    (o : Output) : option (Z * Output) :=
  match g with
  | [] => Some (ub, o)
  | m :: g =>
      '(ub, o) ← (if Bool.eqb (m_preload m) (level =? 0)
                  then emit_ranges m offset_0 config level (getVirtualBounds flat m PAGE_SIZE) ub o
                  else Some (ub, o));
      emit_group flat offset_0 config level g ub o
  end.

Fixpoint emit_groups (flat : gmap ptr bytes) (config level : Z) (gs : list (Group * Z)) (ub : Z)
    (o : Output) : option (Z * Output) :=
  match gs with
  | [] => Some (ub, o)
  | (g, offset) :: gs =>
      '(ub, o) ← emit_group flat offset config level g ub o;
      emit_groups flat config level gs ub o
  end.

Fixpoint emit_refactors (config level : Z) (rs : list Refactor) (o : Output) : option Output :=
  match rs with
  | [] => Some o
  | r :: rs =>
      '(_, o) ← emitLoaderMap (r_addr r) (r_size r) (r_patched r) true false true E9_TYPE_REFACTOR None o;
      o ← inc_field (config + cfg_num_maps level) o;
      emit_refactors config level rs o
  end.

Definition emit_level (flat : gmap ptr bytes) (config level : Z) (gs : list (Group * Z))
    (rs : list Refactor) (ub : Z) (o : Output) : option (Z * Output) :=
  o ← set_field (config + cfg_maps level) 4 (o.2 - config) o;
  '(ub, o) ← emit_groups flat config level gs ub o;
  o ← (if level =? 0 then emit_refactors config level rs o else Some o);
  Some (ub, o).

(** The maps of the two levels. *)
Definition emit_maps (opts : Options) (flat : gmap ptr bytes) (config : Z) (gs : list (Group * Z))
    (rs : list Refactor) (o : Output) : option Output :=
  '(ub, o) ← emit_level flat config 0 gs rs INTPTR_MIN o;
  '(ub, o) ← emit_level flat config 1 gs rs ub o;
  _ ← assert_ (ub <=? option_loader_base opts);
  Some o.

(** [lea config(%rip), reg] with the ModR/M byte [modrm]. *)
Definition emit_lea (config modrm : Z) (o : Output) : option Output :=
  o ← put_bytes [0x48; 0x8D; modrm] o;
  put_bytes (le_bytes 4 (- s32 (o.2 + 4 - config))) o.

(** The stub for the finaliser or the handler: its address, and where its jump is. *)
Definition emit_stub (config modrm : Z) (o : Output) : option (Z * Output) :=
  o ← emit_lea config modrm o;
  o ← put_bytes [0xEB] o;
  let rel8 := o.2 in
  o ← put_bytes [0x00] o;
  Some (rel8, o).

(** The jump of a stub leads to [size + disp]. *)
Definition patch_rel8 (rel8 disp : Z) (o : Output) : option Output :=
  set_field rel8 1 (o.2 - rel8 - 1 + disp) o.

(** The registers of the loader's entry: [argc], [argv], [envp] of an executable. *)
Definition entry_regs (m : Mode) : option bytes :=
  match m with
  | MODE_ELF_EXE =>
      Some [0x48; 0x8B; 0x7C; 0x24; 0x18; 0x48; 0x8D; 0x74; 0x24; 0x20;
            0x48; 0x8D; 0x54; 0xFE; 0x08]
  | MODE_ELF_DSO => Some []
  | _ => None
  end.

(** ** Step (5): entry points *)

(** [addrToOffset], over the [n] program headers at [off]. *)
Fixpoint addr_to_offset (data : bytes) (lo hi off : Z) (n : nat) : option Z :=
  match n with
  | O => Some (-1)
  | S n =>
      ph ← read_phdr data off;
      if ((p_type ph =? PT_LOAD) || (p_type ph =? PT_GNU_RELRO)) &&
         (s64 (p_vaddr ph) <=? lo) && (hi <? s64 (s64 (p_vaddr ph) + p_filesz ph))
      then Some (s64 (p_offset ph + (lo - s64 (p_vaddr ph))))
      else addr_to_offset data lo hi (off + sizeof_Phdr) n
  end.

Definition addrToOffset (data : bytes) (lo hi : Z) : option Z :=
  phoff ← rd64 data 32; phnum ← rd16 data 56;
  addr_to_offset data lo hi phoff (Z.to_nat phnum).

(** The loop over the relocations: the addend of the one for [ptr_] is replaced. *)
Fixpoint replace_rela (n : nat) (off ptr_ entry old : Z) (o : Output) : option (Z * Output) :=
  match n with
  | O => Some (old, o)
  | S n =>
      info ← rd64 o.1 (off + 8);
      if negb (Z.land info 0xffffffff =? 8) then replace_rela n (off + sizeof_Rela) ptr_ entry old o
      else
        r_offset ← rd64 o.1 off;
        if s64 r_offset =? ptr_ then
          addend ← rd64 o.1 (off + 16);
          o ← set_field (off + 16) 8 entry o;
          Some (s64 addend, o)
        else replace_rela n (off + sizeof_Rela) ptr_ entry old o
  end.

(** [replaceInitFini]: the old function, or [INTPTR_MIN]; pointers to entries of the dynamic
    section are offsets. *)
Definition replaceInitFini (dyn_fn dyn_fn_array : option Z) (dyn_fn_arraysz : Z)
    (dyn_rela : option Z) (dyn_relasz entry : Z) (o : Output) : option (Z * Output) :=
  match dyn_fn, dyn_fn_array with
  | Some fn, _ =>
      old ← rd64 o.1 (fn + 8); o ← set_field (fn + 8) 8 entry o; Some (s64 old, o)
  | None, Some arr =>
      if dyn_fn_arraysz <=? 0 then Some (INTPTR_MIN, o)
      else
        ptr_ ← rd64 o.1 (arr + 8);
        let ptr_ := s64 ptr_ in
        offset ← addrToOffset o.1 ptr_ ptr_;
        if offset <? 0 then Some (INTPTR_MIN, o)
        else
          old ← rd64 o.1 offset;
          let old := s64 old in
          o ← set_field offset 8 entry o;
          match dyn_rela with
          | Some rela =>
              if dyn_relasz <=? 0 then Some (old, o)
              else
                rela_ptr ← rd64 o.1 (rela + 8);
                let rela_ptr := s64 rela_ptr in
                rela_offset ← addrToOffset o.1 rela_ptr (s64 (rela_ptr + dyn_relasz));
                if rela_offset <? 0 then Some (old, o)
                else replace_rela (Z.to_nat (dyn_relasz / sizeof_Rela)) rela_offset ptr_ entry old o
          | None => Some (old, o)
          end
  | None, None => Some (INTPTR_MIN, o)
  end.

(** What the loop over the dynamic section finds. *)
Record Dynamic := MkDynamic {
  d_init : option Z; d_init_array : option Z; d_init_arraysz : Z; d_fini : option Z;
  d_fini_array : option Z; d_fini_arraysz : Z; d_rela : option Z; d_relasz : Z }.

Definition no_dynamic : Dynamic := MkDynamic None None 0 None None 0 None 0.

Definition scan_entry (off tag val : Z) (d : Dynamic) : Dynamic :=
  if tag =? 12 then MkDynamic (Some off) (d_init_array d) (d_init_arraysz d) (d_fini d) (d_fini_array d) (d_fini_arraysz d) (d_rela d) (d_relasz d)
  else if tag =? 25 then MkDynamic (d_init d) (Some off) (d_init_arraysz d) (d_fini d) (d_fini_array d) (d_fini_arraysz d) (d_rela d) (d_relasz d)
  else if tag =? 27 then MkDynamic (d_init d) (d_init_array d) val (d_fini d) (d_fini_array d) (d_fini_arraysz d) (d_rela d) (d_relasz d)
  else if tag =? 13 then MkDynamic (d_init d) (d_init_array d) (d_init_arraysz d) (Some off) (d_fini_array d) (d_fini_arraysz d) (d_rela d) (d_relasz d)
  else if tag =? 26 then MkDynamic (d_init d) (d_init_array d) (d_init_arraysz d) (d_fini d) (Some off) (d_fini_arraysz d) (d_rela d) (d_relasz d)
  else if tag =? 28 then MkDynamic (d_init d) (d_init_array d) (d_init_arraysz d) (d_fini d) (d_fini_array d) val (d_rela d) (d_relasz d)
  else if tag =? 7 then MkDynamic (d_init d) (d_init_array d) (d_init_arraysz d) (d_fini d) (d_fini_array d) (d_fini_arraysz d) (Some off) (d_relasz d)
  else if tag =? 8 then MkDynamic (d_init d) (d_init_array d) (d_init_arraysz d) (d_fini d) (d_fini_array d) (d_fini_arraysz d) (d_rela d) val
  else d.

Fixpoint scan_dynamic (data : bytes) (off : Z) (n : nat) (d : Dynamic) : option Dynamic :=
  match n with
  | O => Some d
  | S n =>
      tag ← rd64 data off;
      if tag =? 0 then Some d
      else val ← rd64 data (off + 8); scan_dynamic data (off + sizeof_Dyn) n (scan_entry off tag val d)
  end.

(** The header that the loader replaces. *)
Definition loader_phdr (lopts : LoaderOptions) (info : ElfInfo) : option Z :=
  if option_loader_phdr lopts =? PT_NOTE then phdr_note info
  else if option_loader_phdr lopts =? PT_GNU_RELRO then phdr_gnu_relro info
  else if option_loader_phdr lopts =? PT_GNU_STACK then phdr_gnu_stack info
  else orelse (phdr_note info) (orelse (phdr_gnu_relro info) (phdr_gnu_stack info)).

(** ** [emitElf] *)

(** The functions of a [Binary] that the loader calls. *)
Record InitFns := MkInitFns {
  f_preinits : list Trampoline; f_postinits : list Trampoline; f_inits : list Z; f_finis : list Z;
  f_mmap : Z }.

Definition round_page (size : Z) : Z :=
  if size mod PAGE_SIZE =? 0 then size else size + PAGE_SIZE - size mod PAGE_SIZE.

Section Emit.
Context (opts : Options) (lopts : LoaderOptions) (b : Binary Tree) (info : ElfInfo) (fns : InitFns).

(** The macro VERSION with its final zero, and the loader that the build puts into
    e9loader_elf.c. *)
Context (version e9loader_elf_bin : bytes).

(** Step (2) *)
Definition disable_features (o : Output) : option Output :=
  match features info with
  | None => Some o
  | Some f =>
      x ← rd32 o.1 f;
      o ← (if negb (Z.land x GNU_PROPERTY_X86_FEATURE_1_IBT =? 0)
           then set_field f 4 (Z.land x (Z.lnot GNU_PROPERTY_X86_FEATURE_1_IBT)) o else Some o);
      x ← rd32 o.1 f;
      if negb (Z.land x GNU_PROPERTY_X86_FEATURE_1_SHSTK =? 0)
      then set_field f 4 (Z.land x (Z.lnot GNU_PROPERTY_X86_FEATURE_1_SHSTK)) o else Some o
  end.

(** The head of the configuration, and the tables of functions and traps. *)
Definition emit_config (config : Z) (o : Output) : option Output :=
  let o := (o.1, config + sizeof_config + sizeof_config_elf) in
  o ← set_field config 8 0x48435441503945 o;
  data ← wrn o.1 (config + cfg_version) version;
  let o := (data, o.2) in
  o ← set_field (config + cfg_base) 8 (option_loader_base opts) o;
  o ← (if f_mmap fns =? INTPTR_MIN then Some o
       else set_field (config + cfg_mmap) 8 (mmap_addr (f_mmap fns)) o);
  '(preinits, o) ← emit_inits config (f_preinits fns) o;
  '(postinits, o) ← emit_inits config (f_postinits fns) o;
  o ← pad4 o;
  o ← emit_offsets config cfg_preinits cfg_num_preinits preinits o;
  o ← emit_offsets config cfg_postinits cfg_num_postinits postinits o;
  o ← emit_func_table config cfg_inits cfg_num_inits (f_inits fns) o;
  o ← emit_func_table config cfg_finis cfg_num_finis (f_finis fns) o;
  emit_trap_table b config o.

(** The code of the loader: its finaliser, if there is one, and its entry. *)
Definition emit_loader (config : Z) (o : Output) : option (Z * Z * Output) :=
  '(fini, fini_rel8, o) ←
    match f_finis fns with
    | [] => Some (0, 0, o)
    | _ =>
        let fini := option_loader_base opts + (o.2 - config) in
        '(rel8, o) ← emit_stub config 0x3D o; Some (fini, rel8, o)
    end;
  '(handler, handler_rel8, o) ←
    match B_Traps b with
    | [] => Some (0, 0, o)
    | _ =>
        let handler := u32 (o.2 - config) in
        o ← set_field (config + cfg_handler) 4 handler o;
        '(rel8, o) ← emit_stub config 0x0D o; Some (handler, rel8, o)
    end;
  let entry := option_loader_base opts + (o.2 - config) in
  o ← (if option_trap_entry lopts then put_bytes [0xCC] o else Some o);
  o ← put_bytes [0x57; 0x56; 0x52] o;
  regs ← entry_regs (B_mode b);
  o ← put_bytes regs o;
  o ← emit_lea config 0x0D o;
  o ← (if negb (fini =? 0) then patch_rel8 fini_rel8 16 o else Some o);
  o ← (if negb (handler =? 0) then patch_rel8 handler_rel8 24 o else Some o);
  o ← put_bytes e9loader_elf_bin o;
  Some (entry, fini, o).

(** Step (5) *)
Definition replace_entries (config entry fini : Z) (o : Output) : option Output :=
  '(d, o) ←
    match phdr_dynamic info with
    | None => Some (no_dynamic, o)
    | Some off =>
        ph ← read_phdr o.1 off;
        o ← set_field (config + sizeof_config) 8 (p_vaddr ph) o;
        d ← scan_dynamic o.1 (p_offset ph) (Z.to_nat (p_memsz ph / sizeof_Dyn)) no_dynamic;
        Some (d, o)
    end;
  o ← match B_mode b with
      | MODE_ELF_EXE =>
          e ← rd64 o.1 24;
          o ← set_field (config + cfg_entry) 8 e o;
          o ← set_field 24 8 entry o;
          x ← rd32 o.1 (config + cfg_flags);
          set_field (config + cfg_flags) 4 (Z.lor x E9_FLAG_EXE) o
      | MODE_ELF_DSO =>
          '(old, o) ← replaceInitFini (d_init d) (d_init_array d) (d_init_arraysz d) (d_rela d) (d_relasz d) entry o;
          o ← set_field (config + cfg_entry) 8 old o;
          _ ← assert_ (negb (old =? INTPTR_MIN));
          Some o
      | _ => None
      end;
  if negb (fini =? 0) then
    '(old, o) ← replaceInitFini (d_fini d) (d_fini_array d) (d_fini_arraysz d) (d_rela d) (d_relasz d) fini o;
    o ← set_field (config + cfg_fini) 8 old o;
    _ ← assert_ (negb (old =? INTPTR_MIN));
    Some o
  else Some o.

(** Step (6) *)
Definition replace_phdr (config config_size : Z) (o : Output) : option Output :=
  off ← loader_phdr lopts info;
  o ← set_field off 4 PT_LOAD o;
  o ← set_field (off + 4) 4 (Z.lor PF_X PF_R) o;
  o ← set_field (off + 8) 8 config o;
  o ← set_field (off + 16) 8 (option_loader_base opts) o;
  o ← set_field (off + 24) 8 0 o;
  o ← set_field (off + 32) 8 config_size o;
  o ← set_field (off + 40) 8 config_size o;
  set_field (off + 48) 8 PAGE_SIZE o.

Definition emitElf (gs : list Group) (mapping_size : Z) : option Output :=
  let size := round_page (B_size b) in
  '(rs, data, n) ← emitRefactoredPatch b lopts (B_orig b) (B_bytes b) size mapping_size;
  o ← disable_features (data, size + n);
  '(offs, o) ← emit_mappings (B_flat b) gs o;
  let config := round_page o.2 in
  o ← emit_config config o;
  o ← emit_maps opts (B_flat b) config (combine gs offs) rs o;
  '(entry, fini, o) ← emit_loader config o;
  let config_size := o.2 - config in
  o ← set_field (config + cfg_size) 4 (round_page config_size) o;
  o ← replace_entries config entry fini o;
  replace_phdr config config_size o.

End Emit.

End E9Elf.
