(* ===== verification/E9Loader.v ===== *)
(** * E9Loader: the loader in a patched program

    Models src/src/e9patch/e9loader.cpp and e9loader_elf.cpp: text output, the mapping of the
    tables that [emitElf] writes, the search for a trap, and the order of the calls before
    and after the program.  The system calls are recorded as a trace; what they answer is a
    parameter. *)

From stdpp Require Import gmap.
From S2P Require Import Prelude E9Patch E9Alloc E9Tactics E9Elf.

Module E9Loader.
Import E9 E9Tactics E9Elf.

(** ** Text output *)

(** The loop of [e9write_hex], from digit [n - 1] down. *)
Fixpoint hex_loop (n : nat) (x : Z) (zero : bool) : bytes :=
  match n with
  | O => []
  | S n =>
      let digit := Z.land (Z.shiftr x (4 * Z.of_nat n)) 0xF in
      if (digit =? 0) && negb zero then hex_loop n x zero
      else (if digit <=? 9 then 48 + digit else 97 + (digit - 10)) :: hex_loop n x true
  end.

Definition e9write_hex (x : Z) : bytes := if x =? 0 then [48] else hex_loop 16 x false.

(** The loop of [e9write_num]; [r] is [10 ^ (n - 1)]. *)
Fixpoint num_loop (n : nat) (x r : Z) (zero : bool) : bytes :=
  match n with
  | O => []
  | S n =>
      let digit := x / r in
      let x := x mod r in
      let r := r / 10 in
      if (digit =? 0) && negb zero then num_loop n x r zero
      else (48 + digit) :: num_loop n x r true
  end.

Definition e9write_num (x : Z) : bytes :=
  if x =? 0 then [48] else num_loop 20 x 10000000000000000000 false.

(** The arguments of [e9write_format], by the type with which they are taken. *)
Inductive Arg := AUnsigned (x : Z) | AU64 (x : Z) | AChar (c : Z) | AStr (s : bytes) | AWStr (s : bytes).

Definition wide_char (c : Z) : Z := if c <? 126 then u8 c else 63.

(** One conversion [c]; an argument of the wrong type is undefined behaviour. *)
Definition format_arg (c : Z) (args : list Arg) : option (bytes * list Arg) :=
  if c =? 37 then Some ([37], args)
  else if c =? 99 then match args with AChar x :: args => Some ([x], args) | _ => None end
  else if c =? 115 then match args with AStr s :: args => Some (s, args) | _ => None end
  else if c =? 83 then match args with AWStr s :: args => Some (wide_char <$> s, args) | _ => None end
  else if c =? 112 then match args with AU64 x :: args => Some ([48; 120] ++ e9write_hex x, args) | _ => None end
  else if c =? 120 then match args with AUnsigned x :: args => Some (e9write_hex x, args) | _ => None end
  else if c =? 88 then match args with AU64 x :: args => Some (e9write_hex x, args) | _ => None end
  else if c =? 117 then match args with AUnsigned x :: args => Some (e9write_num x, args) | _ => None end
  else if c =? 85 then match args with AU64 x :: args => Some (e9write_num x, args) | _ => None end
  else if c =? 100 then match args with AUnsigned x :: args => Some (e9write_num x, args) | _ => None end
  else if c =? 68 then
    match args with
    | AU64 x :: args =>
        let i := s64 x in
        Some ((if i <? 0 then [45] else []) ++ e9write_num (u64 (if i <? 0 then - i else i)), args)
    | _ => None
    end
  else Some ([], args).

(** [e9write_format]; a format that ends in [%] is read past its end. *)
Fixpoint e9write_format (msg : bytes) (args : list Arg) : option bytes :=
  match msg with
  | [] => Some []
  | c :: msg =>
      if c =? 37 then
        match msg with
        | [] => None
        | c :: msg =>
            '(s, args) ← format_arg c args;
            r ← e9write_format msg args; Some (s ++ r)
        end
      else r ← e9write_format msg args; Some (c :: r)
  end.

(** ** Mappings *)

(** A call of [mmap] with [MAP_FIXED | MAP_PRIVATE] on the file of the program. *)
Record MapCall := MkMapCall { mc_addr : Z; mc_len : Z; mc_prot : Z; mc_offset : Z }.

(** The fields of [struct e9_map_s] at [off]. *)
Definition read_map (cfg : bytes) (off : Z) : option LoaderMap :=
  addr ← rd32 cfg off; offset ← rd32 cfg (off + 4); w ← rd32 cfg (off + 8);
  Some (MkLoaderMap (s32 addr) offset (Z.land w (Z.ones 20)) (Z.land (Z.shiftr w 20) 3)
          (Z.testbit w 28) (Z.testbit w 29) (Z.testbit w 30) (Z.testbit w 31)).

Definition map_call (elf_base : Z) (m : LoaderMap) : MapCall :=
  MkMapCall (u64 ((if lm_abs m then 0 else elf_base) + lm_addr m * PAGE_SIZE)) (lm_size m * PAGE_SIZE)
    (Z.lor (if lm_r m then PROT_READ else 0)
      (Z.lor (if lm_w m then PROT_WRITE else 0) (if lm_x m then PROT_EXEC else 0)))
    (lm_offset m * PAGE_SIZE).

(** [e9load_maps]: [cfg] is the memory at the loader's base. *)
Fixpoint e9load_maps (cfg : bytes) (maps : Z) (num_maps : nat) (elf_base : Z) : option (list MapCall) :=
  match num_maps with
  | O => Some []
  | S n =>
      m ← read_map cfg maps;
      cs ← e9load_maps cfg (maps + sizeof_map) n elf_base;
      Some (map_call elf_base m :: cs)
  end.

(** ** Traps *)

(** The binary search of [e9handler]; [traps] is the offset of the table. *)
Fixpoint trap_search (fuel : nat) (cfg : bytes) (traps key lo hi : Z) : option Z :=
  if lo <=? hi then
    match fuel with
    | O => None
    | S fuel =>
        let mid := Z.quot (lo + hi) 2 in
        rip ← rd64 cfg (traps + 16 * mid);
        if key <? s64 rip then trap_search fuel cfg traps key lo (mid - 1)
        else if s64 rip <? key then trap_search fuel cfg traps key (mid + 1) hi
        else Some mid
    end
  else Some (-1).

(** The trampoline of [e9handler], if one was found.  The entry at the index is read before
    the index is tested. *)
Definition trap_trampoline (cfg : bytes) (loader_base rip : Z) : option (option Z) :=
  base ← rd64 cfg cfg_base;
  let elf_base := u64 (loader_base - base) in
  traps ← rd32 cfg cfg_traps; num ← rd32 cfg cfg_num_traps;
  idx ← (if (elf_base <=? rip) && (rip <=? loader_base)
         then trap_search (Z.to_nat (num + 2)) cfg traps (s64 (rip - elf_base)) 0 num
         else Some (-1));
  t ← rd64 cfg (traps + 16 * idx + 8);
  Some (if idx <? 0 then None else Some (u64 (elf_base + t))).

(** ** Calls before and after the program *)

(** [e9addr] *)
Definition e9addr (addr elf_base : Z) : Z :=
  if negb (Z.land addr E9_ABS_ADDR =? 0) then u64 (Z.land addr (Z.lnot E9_ABS_ADDR))
  else u64 (elf_base + addr).

(** What the loader does: call a function, open the file of the program, map, set up a
    thread pointer, close, or handle SIGILL at an address. *)
Inductive Action :=
| ACall (f : Z)
| AOpen (path : bytes)
| ATls
| AMap (mmap : Z) (c : MapCall)
| AClose
| AHandle (handler : Z).

(** The offsets of the initialisers: a table of [n] 32-bit numbers. *)
Fixpoint read_offsets (cfg : bytes) (off : Z) (n : nat) : option (list Z) :=
  match n with
  | O => Some []
  | S n => x ← rd32 cfg off; l ← read_offsets cfg (off + 4) n; Some (x :: l)
  end.

Fixpoint read_addrs (cfg : bytes) (off : Z) (n : nat) : option (list Z) :=
  match n with
  | O => Some []
  | S n => x ← rd64 cfg off; l ← read_addrs cfg (off + 8) n; Some (s64 x :: l)
  end.

Section Init.
(** The answers of the kernel: the target of a link, and whether there is a thread pointer. *)
Context (readlink : bytes → option bytes) (has_tls : bool).

Definition map_files : bytes := bytes_of_string "/proc/self/map_files/%X-%X".

(** The path of the program, or of the file that the loader is mapped from. *)
Definition program_path (cfg : bytes) (loader_base : Z) : option bytes :=
  flags ← rd32 cfg cfg_flags; size ← rd32 cfg cfg_size;
  if Z.land flags E9_FLAG_EXE =? 0
  then e9write_format map_files [AU64 loader_base; AU64 (u64 (loader_base + size))]
  else Some (bytes_of_string "/proc/self/exe").

(** [e9init]: the trace, and the address that it returns.  The default [mmap] has the
    address 0. *)
Definition e9init (cfg : bytes) (loader_base : Z) : option (list Action * Z) :=
  magic ← memeq cfg 0 (bytes_of_string "E9PATCH" ++ [0]); _ ← assert_ magic;
  base ← rd64 cfg cfg_base;
  let elf_base := u64 (loader_base - base) in
  preinits ← rd32 cfg cfg_preinits; n ← rd32 cfg cfg_num_preinits;
  pre ← read_offsets cfg preinits (Z.to_nat n);
  path ← program_path cfg loader_base;
  file ← readlink path;
  maps0 ← rd32 cfg (cfg_maps 0); n0 ← rd32 cfg (cfg_num_maps 0);
  calls0 ← e9load_maps cfg maps0 (Z.to_nat n0) elf_base;
  m ← rd64 cfg cfg_mmap;
  let mmap := if m =? 0 then 0 else e9addr (s64 m) elf_base in
  maps1 ← rd32 cfg (cfg_maps 1); n1 ← rd32 cfg (cfg_num_maps 1);
  calls1 ← e9load_maps cfg maps1 (Z.to_nat n1) elf_base;
  traps ← rd32 cfg cfg_num_traps; handler ← rd32 cfg cfg_handler;
  inits ← rd32 cfg cfg_inits; ni ← rd32 cfg cfg_num_inits;
  init ← read_addrs cfg inits (Z.to_nat ni);
  postinits ← rd32 cfg cfg_postinits; np ← rd32 cfg cfg_num_postinits;
  post ← read_offsets cfg postinits (Z.to_nat np);
  entry ← rd64 cfg cfg_entry;
  Some (((λ x, ACall (u64 (loader_base + x))) <$> pre) ++ [AOpen file] ++
        (if has_tls then [] else [ATls]) ++
        (AMap 0 <$> calls0) ++ (AMap mmap <$> calls1) ++ [AClose] ++
        (if 0 <? traps then [AHandle (u64 (loader_base + handler))] else []) ++
        ((λ x, ACall (e9addr x elf_base)) <$> init) ++
        ((λ x, ACall (u64 (loader_base + x))) <$> post),
        e9addr (s64 entry) elf_base).

(** [e9fini] *)
Definition e9fini (cfg : bytes) (loader_base : Z) : option (list Action * Z) :=
  base ← rd64 cfg cfg_base;
  let elf_base := u64 (loader_base - base) in
  finis ← rd32 cfg cfg_finis; n ← rd32 cfg cfg_num_finis;
  l ← read_addrs cfg finis (Z.to_nat n);
  fini ← rd64 cfg cfg_fini;
  Some (List.map (λ x, ACall (e9addr x elf_base)) l, e9addr (s64 fini) elf_base).

End Init.

End E9Loader.
