(* ===== verification/E9ElfSpec.v ===== *)
(** * E9ElfSpec: the tables of the loader

    What [emitElf] writes is what the loader reads: entries of the mapping tables, the
    flattened groups in the file, and the calls of [mmap] that follow. *)

From stdpp Require Import gmap sorting.
From S2P Require Import Prelude E9Patch E9Alloc E9AllocTree E9AllocApi E9Tactics E9Optimize E9Misc.
From S2P Require Import E9Mapping E9MappingTree E9MappingSpec E9MappingFlat E9Elf E9Loader.

Module ElfSpec.
Import E9 E9Alloc AllocTree E9Tactics E9Mapping MappingTree MappingSpec MappingFlat E9Elf E9Loader.

(** ** Entries *)

Record map_ok (m : LoaderMap) : Prop := {
  mk_addr : INT32_MIN <= lm_addr m <= INT32_MAX;
  mk_offset : 0 <= lm_offset m <= UINT32_MAX;
  mk_size : 0 <= lm_size m < 2 ^ 16;
  mk_type : 0 <= lm_type m < 4 }.

Lemma le_bytes_u32 z : le_bytes 4 (u32 z) = le_bytes 4 z.
Proof.
  unfold wrapu. change (2 ^ 32) with (256 * (256 * (256 * 256))). cbn [le_bytes].
  assert (E : ∀ x n, 0 < n → (x mod (256 * n)) mod 256 = x mod 256 ∧ x mod (256 * n) / 256 = (x / 256) mod n).
  { intros x n Hn. rewrite Z.rem_mul_r, (Z.mul_comm 256) by lia. split.
    - rewrite Z_mod_plus_full. apply Z.mod_mod. lia.
    - rewrite Z.div_add by lia. rewrite Z.div_small by (apply Z.mod_pos_bound; lia). lia. }
  destruct (E z (256 * (256 * 256))) as [-> ->]; [lia|]. destruct (E (z / 256) (256 * 256)) as [-> ->]; [lia|].
  destruct (E (z / 256 / 256) 256) as [-> ->]; [lia|]. by rewrite Z.mod_mod by lia.
Qed.

(** The fields of the third word. *)
Lemma map_word_fields m : map_ok m → 0 <= map_word m < 2 ^ 32 ∧
  Z.land (map_word m) (Z.ones 20) = lm_size m ∧ Z.land (Z.shiftr (map_word m) 20) 3 = lm_type m ∧
  Z.testbit (map_word m) 28 = lm_r m ∧ Z.testbit (map_word m) 29 = lm_w m ∧
  Z.testbit (map_word m) 30 = lm_x m ∧ Z.testbit (map_word m) 31 = lm_abs m.
Proof.
  intros [_ _ Hs Ht]. destruct m as [a o s ty r w x ab]. cbn [lm_size lm_type lm_r lm_w lm_x lm_abs] in *.
  set (k := ty + 256 * bool_to_Z r + 512 * bool_to_Z w + 1024 * bool_to_Z x + 2048 * bool_to_Z ab).
  assert (E : map_word (MkLoaderMap a o s ty r w x ab) = s + k * 2 ^ 20).
  { unfold map_word, k. cbn. rewrite !Z.shiftl_mul_pow2 by lia. lia. }
  assert (Hk : 0 <= k < 4096) by (unfold k; destruct r, w, x, ab; cbn [bool_to_Z]; lia).
  assert (Ed : (s + k * 2 ^ 20) / 2 ^ 20 = k) by (rewrite Z.div_add, Z.div_small by lia; lia).
  assert (Eb : ∀ j, 0 <= j → Z.testbit (s + k * 2 ^ 20) (20 + j) = Z.testbit k j).
  { intros j Hj. rewrite <- Ed at 2. rewrite Z.div_pow2_bits by lia. f_equal. lia. }
  pose proof (Eb 8 ltac:(lia)) as B8. pose proof (Eb 9 ltac:(lia)) as B9.
  pose proof (Eb 10 ltac:(lia)) as B10. pose proof (Eb 11 ltac:(lia)) as B11. change (20 + 8) with 28 in B8.
  change (20 + 9) with 29 in B9. change (20 + 10) with 30 in B10. change (20 + 11) with 31 in B11.
  rewrite E, B8, B9, B10, B11, Z.shiftr_div_pow2, Ed, land_ones_mod, Z_mod_plus_full, Z.mod_small by lia.
  split; [lia|]. split; [done|]. unfold k.
  assert (Hty : ty = 0 ∨ ty = 1 ∨ ty = 2 ∨ ty = 3) by lia.
  destruct Hty as [-> |[-> |[-> | ->]]]; destruct r, w, x, ab; vm_compute; done.
Qed.

Lemma map_bytes_len m : blen (map_bytes m) = 12.
Proof. unfold map_bytes. rewrite !blen_app. unfold blen. by rewrite !le_bytes_len. Qed.

(** Reading an entry gives back what was written. *)
Lemma read_map_bytes cfg off m : map_ok m → rdn cfg off 12 = Some (map_bytes m) → read_map cfg off = Some m.
Proof.
  intros Hm Hr. destruct (map_word_fields m Hm) as (Hw & F1 & F2 & F3 & F4 & F5 & F6). destruct Hm as [Ha Ho Hs Ht].
  assert (H4 : ∀ z, blen (le_bytes 4 z) = 4) by (intros; unfold blen; by rewrite le_bytes_len).
  assert (Hpart : ∀ i z, rdn (map_bytes m) i 4 = Some (le_bytes 4 z) → 0 <= i → i + 4 <= 12 → 0 <= z < 2 ^ 32 → rd32 cfg (off + i) = Some z).
  { intros i z Hz Hi1 Hi2 Hzr. apply rd32_of_rdn; [|done]. by rewrite (rdn_sub cfg off 12 (map_bytes m) i 4 Hr) by lia. }
  assert (E0 : rd32 cfg off = Some (u32 (lm_addr m))).
  { replace off with (off + 0) by lia. apply Hpart; [|lia|lia|apply wrapu_range; lia]. rewrite le_bytes_u32.
    unfold map_bytes. pose proof (rdn_app_mid [] (le_bytes 4 (lm_addr m)) (le_bytes 4 (lm_offset m) ++ le_bytes 4 (map_word m))) as H.
    rewrite H4 in H. exact H. }
  assert (E1 : rd32 cfg (off + 4) = Some (lm_offset m)).
  { apply Hpart; [|lia|lia|unfold UINT32_MAX in Ho; lia]. unfold map_bytes.
    pose proof (rdn_app_mid (le_bytes 4 (lm_addr m)) (le_bytes 4 (lm_offset m)) (le_bytes 4 (map_word m))) as H.
    rewrite !H4 in H. exact H. }
  assert (E2 : rd32 cfg (off + 8) = Some (map_word m)).
  { apply Hpart; [|lia|lia|done]. unfold map_bytes. rewrite app_assoc.
    pose proof (rdn_app_mid (le_bytes 4 (lm_addr m) ++ le_bytes 4 (lm_offset m)) (le_bytes 4 (map_word m)) []) as H.
    rewrite app_nil_r, blen_app, !H4 in H. exact H. }
  unfold read_map. rewrite E0, E1, E2. cbn [mbind option_bind]. rewrite F1, F2, F3, F4, F5, F6.
  rewrite wraps_wrapu, wraps_small by (unfold INT32_MIN, INT32_MAX in *; lia). by destruct m.
Qed.

Lemma loader_map_ok addr len offset r w x type m : loader_map addr len offset r w x type = Some m →
  0 <= offset → 0 <= type < 4 → map_ok m.
Proof.
  unfold loader_map. intros E Ho Ht. destruct (between _ _ _) eqn:E1; [|done]. cbn [assert_ mbind option_bind] in E.
  destruct (_ <? _); [|done]. cbn [assert_ mbind option_bind] in E. destruct (Z.leb_spec (offset / PAGE_SIZE) UINT32_MAX); [|done].
  cbn [assert_ mbind option_bind] in E. injection E as <-. apply between_spec in E1. split; cbn; try done.
  - split; [|done]. apply Z.div_pos; [done|unfold PAGE_SIZE; lia].
  - apply wrapu_range. lia.
Qed.

(** Where an address of the program, relative or absolute, is at run time. *)
Definition real (elf_base x : Z) : Z := u64 (if IS_ABSOLUTE x then BASE_ADDRESS x else elf_base + x).

(** The protection of a mapping. *)
Definition prot_of (r w x : bool) : Z :=
  Z.lor (if r then PROT_READ else 0) (Z.lor (if w then PROT_WRITE else 0) (if x then PROT_EXEC else 0)).

(** What can be written to a table: whole pages in reach, less than 2^16 of them. *)
Record fits (addr len offset : Z) : Prop := {
  ft_addr : (PAGE_SIZE | BASE_ADDRESS addr);
  ft_reach : - 2 ^ 43 <= BASE_ADDRESS addr < 2 ^ 43;
  ft_len : (PAGE_SIZE | len) ∧ 0 < len < 2 ^ 28;
  ft_offset : (PAGE_SIZE | offset) ∧ 0 <= offset < 2 ^ 44 }.

(** Such an entry leads to the call that was meant. *)
Lemma loader_map_call elf_base addr len offset r w x type : fits addr len offset → 0 <= type < 4 →
  ∃ m, loader_map addr len offset r w x type = Some m ∧ map_ok m ∧
    map_call elf_base m = MkMapCall (real elf_base addr) len (prot_of r w x) offset.
Proof.
  intros [[ka Ha] Hr [[kl Hl] Hlr] [[ko Ho] Hor]] Ht.
  assert (E : ∃ m, loader_map addr len offset r w x type = Some m ∧ m = MkLoaderMap ka ko kl type r w x (IS_ABSOLUTE addr)).
  { unfold loader_map. rewrite Ha, Hl, Ho. rewrite Z.quot_mul, !Z.div_mul by done. unfold PAGE_SIZE in *.
    rewrite (proj2 (between_spec INT32_MIN INT32_MAX ka)) by (unfold INT32_MIN, INT32_MAX; lia). cbn [assert_ mbind option_bind].
    change (Z.shiftl 1 21) with 2097152. rewrite (proj2 (Z.ltb_lt kl 2097152)) by lia. cbn [assert_ mbind option_bind].
    rewrite (proj2 (Z.leb_le ko UINT32_MAX)) by (unfold UINT32_MAX; lia). cbn [assert_ mbind option_bind].
    eexists. split; [reflexivity|]. rewrite wrapu_small by lia. done. }
  destruct E as (m & E & ->). eexists. split; [exact E|]. split; [eapply loader_map_ok; [exact E|lia|done]|].
  unfold map_call, real, prot_of. cbn. unfold PAGE_SIZE in *. f_equal; [|lia..].
  f_equal. unfold BASE_ADDRESS in Ha. destruct (IS_ABSOLUTE addr) eqn:Eabs; unfold BASE_ADDRESS; rewrite ?Eabs; lia.
Qed.

(** The field for the size has 20 bits and the test allows 21, but 16 are stored: a range of
    256 MiB becomes an empty one. *)
Lemma map_size_truncated : ∃ m, loader_map 0x10000000 0x10000000 0x1000 true false true E9_TYPE_TRAMPOLINE = Some m ∧
  mc_len (map_call 0 m) = 0.
Proof. eexists. split; [vm_compute; reflexivity|]. reflexivity. Qed.

(** The address of an absolute [mmap] loses its flag, so the loader takes it as relative. *)
Lemma mmap_flag_lost elf_base : ∃ f, IS_ABSOLUTE f = true ∧ 0 < BASE_ADDRESS f ∧
  e9addr (mmap_addr f) elf_base = u64 (elf_base + BASE_ADDRESS f) ∧ e9addr (func_addr f) elf_base = BASE_ADDRESS f.
Proof.
  exists (ABSOLUTE_ADDRESS 0x7000). split; [done|]. split; [vm_compute; done|]. split; [|vm_compute; done].
  change (mmap_addr (ABSOLUTE_ADDRESS 0x7000)) with 0x7000. change (BASE_ADDRESS (ABSOLUTE_ADDRESS 0x7000)) with 0x7000. done.
Qed.

(** A negative relative address has the bit of the flag, so the loader takes it as absolute. *)
Lemma e9addr_negative elf_base : ∃ f, IS_ABSOLUTE f = false ∧ e9addr (func_addr f) elf_base = 0xBFFFFFFFFFFFF000.
Proof. exists (-0x1000). split; [done|]. vm_compute. done. Qed.

End ElfSpec.
