(* ===== verification/E9ElfMaps.v ===== *)
(** * E9ElfMaps: from the mappings to the memory image

    The groups in the file, the tables of the two levels, what the loader reads from them,
    and the memory after its calls of [mmap]. *)

From stdpp Require Import gmap sorting.
From S2P Require Import Prelude E9Patch E9Alloc E9AllocTree E9AllocApi E9Tactics E9Optimize E9Misc.
From S2P Require Import E9Mapping E9MappingTree E9MappingSpec E9MappingFlat E9Elf E9Loader E9ElfSpec.

Module ElfMaps.
Import E9 E9Alloc AllocTree E9Tactics E9Mapping MappingTree MappingSpec MappingFlat E9Elf E9Loader ElfSpec.

(** ** The groups in the file *)

Definition gsize (g : Group) : Z := from_option m_size 0 (head g).
Definition total (gs : list Group) : Z := foldr (λ g n, gsize g + n) 0 gs.

(** The trampolines of a group are in the file from [off] on. *)
Definition holds_group (flat : gmap ptr bytes) (l : Iterator) (data : bytes) (g : Group) (off : Z) : Prop :=
  ∀ m x v, m ∈ g → 0 <= x < m_size m → byte_at flat l (m_base m + x) v → rd data (off + x) = Some v.

Section Groups.
Context (Ts : gmap ptr Trampoline) (SIZE : Z) (l : Iterator) (SP : space_ok Ts SIZE l).
Context (flat : gmap ptr bytes) (FL : flat_ok flat l).

Lemma gsize_pos g : group_ok l g → 0 < gsize g ∧ ∀ m, m ∈ g → m_size m = gsize g.
Proof.
  intros Hg. destruct g as [|m0 g]; [by destruct (gr_ne _ _ Hg)|]. cbn [gsize head from_option]. split.
  - apply (pl_size l), (gr_placed _ _ Hg). left.
  - intros m Hm. apply (gr_size _ _ Hg); [done|left].
Qed.

Lemma total_nonneg gs : Forall (group_ok l) gs → 0 <= total gs.
Proof. induction 1 as [|g gs Hg _ IH]; cbn [total foldr]; [done|]. fold (total gs). pose proof (gsize_pos g Hg). lia. Qed.

Lemma emit_mappings_ok gs : Forall (group_ok l) gs → ∀ o, 0 <= o.2 → o.2 + total gs <= blen o.1 →
  ∃ offs o', emit_mappings flat gs o = Some (offs, o') ∧ blen o'.1 = blen o.1 ∧ o'.2 = o.2 + total gs ∧
    (∀ i, i < o.2 ∨ o'.2 <= i → rd o'.1 i = rd o.1 i) ∧
    Forall2 (λ g off, holds_group flat l o'.1 g off ∧ o.2 <= off ∧ off + gsize g <= o'.2) gs offs ∧
    (∀ n, (n | o.2) → Forall (λ g, (n | gsize g)) gs → Forall (λ off, (n | off)) offs).
Proof.
  induction 1 as [|g gs Hg Hgs IH]; intros [data size] H0 Hroom; cbn [emit_mappings fst snd] in *.
  { exists [], (data, size). cbn [total foldr fst snd]. split_and!; try done; lia. }
  cbn [total foldr] in Hroom. fold (total gs) in Hroom. pose proof (total_nonneg gs Hgs) as Htn.
  destruct (gsize_pos g Hg) as [Hgs0 Hgsz]. destruct (flattenMapping_ok Ts SIZE l SP flat FL g 0xcc (at_off data size) Hg) as (m0 & Em & Hflat).
  assert (Em0 : m_size m0 = gsize g) by (destruct g; [done|]; injection Em as <-; done).
  rewrite Em. cbn [mbind option_bind]. assert (Hbl : blen (at_off data size) = blen data - size) by (apply blen_at_off; lia).
  destruct Hflat as (buf & -> & Elen & Hin & Hout); [lia|]. cbn [mbind option_bind].
  assert (Htk : blen (take (Z.to_nat size) data) = size) by (unfold blen in *; rewrite length_take; lia).
  set (data1 := take (Z.to_nat size) data ++ buf). assert (Hl1 : blen data1 = blen data) by (unfold data1; rewrite blen_app; lia).
  destruct (IH (data1, size + m_size m0)) as (offs & o' & E & Hbl' & Hp & Hkeep & Hholds & Hdiv); cbn [fst snd] in *; [lia|lia|].
  rewrite E. cbn [mbind option_bind]. exists (size :: offs), o'. cbn [total foldr fst snd]. fold (total gs).
  assert (Hlow : ∀ i, i < size → rd data1 i = rd data i).
  { intros i Hi. unfold data1. rewrite rd_app_l by lia. apply rd_take. lia. }
  assert (Hhigh : ∀ x, 0 <= x → rd data1 (size + x) = rd buf x).
  { intros x Hx. unfold data1. rewrite rd_app_r by lia. f_equal. lia. }
  split_and!; [done|lia|lia| | |].
  - intros i Hi. rewrite Hkeep by lia. destruct (Z.ltb_spec i size); [by apply Hlow|].
    replace i with (size + (i - size)) by lia. rewrite Hhigh, Hout by lia. apply rd_at_off; lia.
  - constructor.
    + split; [|lia]. intros m x v Hm Hx Hv. rewrite Hkeep by (rewrite (Hgsz m Hm) in Hx; lia).
      rewrite Hhigh by lia. by apply (Hin m).
    + eapply Forall2_impl; [exact Hholds|]. cbn beta. intros g' off (? & ? & ?). split; [done|]. lia.
  - intros n Hn Hd. apply Forall_cons in Hd as [Hd1 Hd2]. constructor; [done|]. apply Hdiv; [|done].
    rewrite Em0. by apply Z.divide_add_r.
Qed.

End Groups.

(** ** The tables *)

(** The entries of a table. *)
Definition maps_at (data : bytes) (off : Z) (ms : list LoaderMap) : Prop :=
  ∀ i m, ms !! i = Some m → rdn data (off + sizeof_map * Z.of_nat i) sizeof_map = Some (map_bytes m).

Lemma load_maps_ok elf_base cfg ms : ∀ off, Forall map_ok ms → maps_at cfg off ms →
  e9load_maps cfg off (List.length ms) elf_base = Some (map_call elf_base <$> ms).
Proof.
  induction ms as [|m ms IH]; intros off Hok Hat; [done|]. apply Forall_cons in Hok as [Hm Hms]. cbn [List.length e9load_maps].
  pose proof (Hat 0%nat m eq_refl) as H0. rewrite Z.mul_0_r, Z.add_0_r in H0.
  rewrite (read_map_bytes cfg off m Hm H0). cbn [mbind option_bind]. rewrite IH; [done|done|].
  intros i m' Hi. specialize (Hat (S i) m' Hi). rewrite <- Hat. f_equal. unfold sizeof_map. lia.
Qed.

(** What writing entries for a level does: the entries are appended, their number is added
    to the field of the level, and the rest stays. *)
Record emitted (fld : Z) (o o' : Output) (ms : list LoaderMap) : Prop := {
  em_len : blen o'.1 = blen o.1;
  em_pos : o'.2 = o.2 + sizeof_map * Z.of_nat (List.length ms);
  em_num k : rd32 o.1 fld = Some k → 0 <= k → k + Z.of_nat (List.length ms) < 2 ^ 32 →
    rd32 o'.1 fld = Some (k + Z.of_nat (List.length ms));
  em_keep i : i < o.2 ∨ o'.2 <= i → ¬ fld <= i < fld + 4 → rd o'.1 i = rd o.1 i;
  em_maps : maps_at o'.1 o.2 ms }.

Lemma emitted_nil fld o : emitted fld o o [].
Proof. split; try done; [cbn; lia|]. intros k Hk. cbn. by rewrite Z.add_0_r. Qed.

Lemma rdn_keep (l k : bytes) off n x : (∀ i, off <= i < off + n → rd k i = rd l i) → blen k = blen l →
  rdn l off n = Some x → rdn k off n = Some x.
Proof. intros Hk Hl Hx. rewrite <- Hx. apply rdn_eq; [done|]. intros i Hi. by rewrite Hk. Qed.

Lemma emitted_app fld o o1 o2 ms1 ms2 : 0 <= fld → fld + 4 <= o.2 → emitted fld o o1 ms1 → emitted fld o1 o2 ms2 →
  emitted fld o o2 (ms1 ++ ms2).
Proof.
  intros Hf0 Hf [L1 P1 N1 K1 M1] [L2 P2 N2 K2 M2]. unfold sizeof_map in *.
  assert (Hp : o2.2 = o.2 + 12 * Z.of_nat (List.length (ms1 ++ ms2))) by (rewrite length_app; lia).
  split; [lia|done| | |].
  - intros k Hk H0 Hlt. rewrite length_app in *. rewrite (N2 _ (N1 k Hk H0 ltac:(lia))) by lia. f_equal. lia.
  - intros i Hi Hno. rewrite K2 by lia. apply K1; lia.
  - intros i m Hi. unfold sizeof_map. destruct (decide (i < List.length ms1)%nat) as [Hlt|Hge].
    + rewrite lookup_app_l in Hi by done. eapply rdn_keep; [|done|by apply (M1 i m Hi)].
      intros j Hj. unfold sizeof_map in Hj. apply K2; lia.
    + rewrite lookup_app_r in Hi by lia. rewrite <- (M2 _ m Hi). unfold sizeof_map. f_equal. lia.
Qed.

(** One entry. *)
Lemma emitted_one fld o m : 0 <= fld → fld + 4 <= o.2 → o.2 + sizeof_map <= blen o.1 → is_Some (rd32 o.1 fld) →
  ∃ o', (o ← put_bytes (map_bytes m) o; inc_field fld o) = Some o' ∧ emitted fld o o' [m].
Proof.
  intros Hf0 Hf Hroom [k0 Ek]. unfold sizeof_map in *. unfold put_bytes, inc_field, set_field.
  destruct (wrn_is_Some o.1 o.2 (map_bytes m)) as [d1 E1]; [lia|rewrite map_bytes_len; lia|].
  rewrite E1. cbn [mbind option_bind fst snd]. pose proof (wrn_len _ _ _ _ E1) as L1.
  assert (Hk1 : rd32 d1 fld = Some k0).
  { rewrite <- Ek. unfold rd32, rd16. by rewrite !(rd_wrn_out _ _ _ _ _ E1) by lia. }
  rewrite Hk1. cbn [mbind option_bind fst snd].
  assert (H4 : ∀ z, blen (le_bytes 4 z) = 4) by (intros; unfold blen; by rewrite le_bytes_len).
  destruct (wrn_is_Some d1 fld (le_bytes 4 (k0 + 1))) as [d2 E2]; [lia|rewrite H4; lia|]. rewrite E2. cbn [mbind option_bind].
  pose proof (wrn_len _ _ _ _ E2) as L2. eexists. split; [reflexivity|].
  split; cbn [fst snd List.length]; [lia|rewrite map_bytes_len; unfold sizeof_map; lia| | |].
  - intros k Hk H0 Hlt. rewrite Ek in Hk. injection Hk as ->. apply rd32_of_rdn; [|lia].
    pose proof (rdn_wrn_same _ _ _ _ E2) as Hr. rewrite H4 in Hr. by rewrite Hr.
  - intros i Hi Hno. rewrite map_bytes_len in Hi. rewrite (rd_wrn_out _ _ _ _ _ E2) by (rewrite H4; lia).
    apply (rd_wrn_out _ _ _ _ _ E1). rewrite map_bytes_len. lia.
  - intros [|i] m' Hi; [|done]. injection Hi as <-. rewrite Z.mul_0_r, Z.add_0_r. unfold sizeof_map.
    pose proof (rdn_wrn_same _ _ _ _ E1) as Hr. rewrite map_bytes_len in Hr. eapply rdn_keep; [|done|exact Hr].
    intros i Hi. apply (rd_wrn_out _ _ _ _ _ E2). rewrite H4. lia.
Qed.

Lemma emitted_is_Some fld o o' ms : 0 <= fld → fld + 4 <= o.2 → emitted fld o o' ms → o.2 <= blen o.1 → is_Some (rd32 o'.1 fld).
Proof.
  intros H0 Hf He Hb. pose proof (em_len _ _ _ _ He) as Hl.
  destruct (rd_is_Some o'.1 fld) as [a Ea]; [lia|]. destruct (rd_is_Some o'.1 (fld + 1)) as [b Eb]; [lia|].
  destruct (rd_is_Some o'.1 (fld + 2)) as [c Ec]; [lia|]. destruct (rd_is_Some o'.1 (fld + 2 + 1)) as [d Ed]; [lia|].
  unfold rd32, rd16. rewrite Ea, Eb, Ec, Ed. cbn. by eexists.
Qed.

(** ** The calls that are meant *)

Section Calls.
Context (flat : gmap ptr bytes) (elf_base : Z).

Definition range_call (m : Mapping) (off : Z) (b : Bounds) : MapCall :=
  MkMapCall (real elf_base (m_base m + b_lb b)) (b_ub b - b_lb b)
    (prot_of (truthy (Z.land (m_prot m) PROT_READ)) (truthy (Z.land (m_prot m) PROT_WRITE))
       (truthy (Z.land (m_prot m) PROT_EXEC))) (off + b_lb b).

Definition group_calls (level off : Z) (g : Group) : list MapCall :=
  g ≫= λ m, if Bool.eqb (m_preload m) (level =? 0)
            then range_call m off <$> getVirtualBounds flat m PAGE_SIZE else [].

Definition groups_calls (level : Z) (gs : list (Group * Z)) : list MapCall :=
  gs ≫= λ x, group_calls level x.2 x.1.

Definition refactor_call (r : Refactor) : MapCall :=
  MkMapCall (real elf_base (r_addr r)) (r_size r) (prot_of true false true) (r_patched r).

Definition level_calls (level : Z) (gs : list (Group * Z)) (rs : list Refactor) : list MapCall :=
  groups_calls level gs ++ (if level =? 0 then refactor_call <$> rs else []).

(** Every call can be written to a table, and relative addresses are below the loader. *)
Context (UB : Z).

Definition range_fits (m : Mapping) (off : Z) (b : Bounds) : Prop :=
  fits (m_base m + b_lb b) (b_ub b - b_lb b) (off + b_lb b) ∧ (IS_ABSOLUTE (m_base m + b_lb b) = true ∨ m_base m + b_lb b <= UB).

Definition group_fits (off : Z) (g : Group) : Prop :=
  ∀ m b, m ∈ g → b ∈ getVirtualBounds flat m PAGE_SIZE → range_fits m off b.

(** The result of writing entries for [calls], with the new [ub]. *)
Definition writes (fld : Z) (o : Output) (ub : Z) (calls : list MapCall) (r : option (Z * Output)) : Prop :=
  ∃ ub' o' ms, r = Some (ub', o') ∧ ub' <= UB ∧ emitted fld o o' ms ∧ Forall map_ok ms ∧ map_call elf_base <$> ms = calls.

(** Where entries can be written. *)
Definition ready (fld : Z) (o : Output) (n : nat) : Prop :=
  0 <= fld ∧ fld + 4 <= o.2 ∧ o.2 + sizeof_map * Z.of_nat n <= blen o.1 ∧ is_Some (rd32 o.1 fld).

Lemma writes_nil fld o ub : ub <= UB → writes fld o ub [] (Some (ub, o)).
Proof. intros Hub. exists ub, o, []. split_and!; try done. apply emitted_nil. Qed.

Lemma writes_length fld o o' ms calls : emitted fld o o' ms → map_call elf_base <$> ms = calls → List.length ms = List.length calls.
Proof. intros _ <-. by rewrite length_fmap. Qed.

(** One after the other. *)
Lemma writes_bind fld o ub c1 c2 (x : option (Z * Output)) (f : Z * Output → option (Z * Output)) :
  ready fld o (List.length (c1 ++ c2)) → writes fld o ub c1 x →
  (∀ ub1 o1, ub1 <= UB → ready fld o1 (List.length c2) → blen o1.1 = blen o.1 → writes fld o1 ub1 c2 (f (ub1, o1))) →
  writes fld o ub (c1 ++ c2) (x ≫= f).
Proof.
  intros (R1 & R2 & R3 & R4) (ub1 & o1 & ms1 & -> & Hub1 & He1 & Hok1 & Hc1) Hf. cbn [mbind option_bind].
  rewrite length_app in R3. unfold sizeof_map in *.
  pose proof (em_pos _ _ _ _ He1) as Hp. pose proof (em_len _ _ _ _ He1) as Hl. unfold sizeof_map in Hp.
  pose proof (writes_length _ _ _ _ _ He1 Hc1) as Hn.
  destruct (Hf ub1 o1 Hub1) as (ub2 & o2 & ms2 & -> & Hub2 & He2 & Hok2 & Hc2); [|done|].
  { split_and!; [done|lia|unfold sizeof_map; lia|]. eapply emitted_is_Some; [done| |exact He1|]; lia. }
  exists ub2, o2, (ms1 ++ ms2). split_and!; [done|done|by eapply emitted_app|by apply Forall_app_2|]. by rewrite fmap_app, Hc1, Hc2.
Qed.

Lemma writes_one fld o ub addr len offset r w x type : ub <= UB → ready fld o 1 → fits addr len offset → 0 <= type < 4 →
  IS_ABSOLUTE addr = true ∨ addr <= UB →
  writes fld o ub [MkMapCall (real elf_base addr) len (prot_of r w x) offset]
    ('(ub', o) ← emitLoaderMap addr len offset r w x type (Some ub) o; ub ← ub'; o ← inc_field fld o; Some (ub, o)).
Proof.
  intros Hub (R1 & R2 & R3 & R4) Hfits Ht Habs. change (Z.of_nat 1) with 1 in R3. rewrite Z.mul_1_r in R3.
  destruct (loader_map_call elf_base addr len offset r w x type Hfits Ht) as (m & Em & Hok & Hcall).
  destruct (emitted_one fld o m R1 R2 R3 R4) as (o' & Eo & He). unfold emitLoaderMap. rewrite Em. cbn [mbind option_bind].
  apply bind_Some_iff in Eo as (o1 & Ep & Ei). rewrite Ep. cbn [mbind option_bind]. rewrite Ei. cbn [mbind option_bind].
  eexists _, o', [m]. split_and!; [reflexivity| |done|by apply Forall_singleton|by cbn; rewrite Hcall].
  destruct (IS_ABSOLUTE addr); cbn [negb]; [done|]. destruct Habs; [done|]. lia.
Qed.

Lemma emit_ranges_ok m off config level bs : ∀ o ub, ub <= UB → ready (config + cfg_num_maps level) o (List.length bs) →
  (∀ b, b ∈ bs → range_fits m off b) →
  writes (config + cfg_num_maps level) o ub (range_call m off <$> bs) (emit_ranges m off config level bs ub o).
Proof.
  induction bs as [|b bs IH]; intros o ub Hub HR Hfit; cbn [emit_ranges fmap list_fmap]; [by apply writes_nil|].
  destruct (Hfit b ltac:(left)) as [Hf Habs]. change (range_call m off b :: ?x) with ([range_call m off b] ++ x).
  set (fld := config + cfg_num_maps level) in *.
  assert (E : emit_ranges m off config level (b :: bs) ub o =
    ('(ub', o) ← emitLoaderMap (m_base m + b_lb b) (b_ub b - b_lb b) (off + b_lb b)
       (truthy (Z.land (m_prot m) PROT_READ)) (truthy (Z.land (m_prot m) PROT_WRITE)) (truthy (Z.land (m_prot m) PROT_EXEC))
       (if level =? 0 then E9_TYPE_RESERVE else E9_TYPE_TRAMPOLINE) (Some ub) o; ub ← ub'; o ← inc_field fld o; Some (ub, o)) ≫=
    λ '(ub, o), emit_ranges m off config level bs ub o).
  { cbn [emit_ranges]. destruct (emitLoaderMap _ _ _ _ _ _ _ _ _) as [[ub' o1]|]; [|done]. cbn [mbind option_bind].
    destruct ub'; [|done]. cbn [mbind option_bind]. fold fld. by destruct (inc_field fld o1). }
  cbn [emit_ranges] in E. fold fld in E. rewrite E. clear E.
  apply writes_bind.
  - by rewrite length_app, length_fmap.
  - apply writes_one; try done.
    + destruct HR as (? & ? & HR & ?). cbn [List.length] in HR. unfold ready, sizeof_map in *. split_and!; try done; lia.
    + destruct (level =? 0); unfold E9_TYPE_RESERVE, E9_TYPE_TRAMPOLINE; lia.
  - intros ub1 o1 Hub1 HR1 _. rewrite length_fmap in HR1. apply IH; try done. intros b' Hb'. apply Hfit. by right.
Qed.

Lemma emit_group_ok config level off g : ∀ o ub, ub <= UB → ready (config + cfg_num_maps level) o (List.length (group_calls level off g)) →
  group_fits off g →
  writes (config + cfg_num_maps level) o ub (group_calls level off g) (emit_group flat off config level g ub o).
Proof.
  induction g as [|m g IH]; intros o ub Hub HR Hfit; cbn [emit_group]; [by apply writes_nil|].
  unfold group_calls in *. rewrite bind_cons in *.
  apply writes_bind; [done| |].
  - destruct (Bool.eqb _ _); [|by apply writes_nil]. apply emit_ranges_ok; [done| |].
    + destruct HR as (? & ? & HR & ?). rewrite length_app, length_fmap in HR. unfold ready, sizeof_map in *. split_and!; try done; lia.
    + intros b Hb. apply (Hfit m b); [left|done].
  - intros ub1 o1 Hub1 HR1 _. apply IH; try done. intros m' b Hm'. apply Hfit. by right.
Qed.

Lemma emit_groups_ok config level gs : ∀ o ub, ub <= UB → ready (config + cfg_num_maps level) o (List.length (groups_calls level gs)) →
  (∀ g off, (g, off) ∈ gs → group_fits off g) →
  writes (config + cfg_num_maps level) o ub (groups_calls level gs) (emit_groups flat config level gs ub o).
Proof.
  induction gs as [|[g off] gs IH]; intros o ub Hub HR Hfit; cbn [emit_groups]; [by apply writes_nil|].
  unfold groups_calls in *. rewrite bind_cons in *. cbn [fst snd] in *.
  apply writes_bind; [done| |].
  - apply emit_group_ok; [done| |apply Hfit; left].
    destruct HR as (? & ? & HR & ?). rewrite length_app in HR. unfold ready, sizeof_map in *. split_and!; try done; lia.
  - intros ub1 o1 Hub1 HR1 _. apply IH; try done. intros g' off' Hin. apply Hfit. by right.
Qed.

Definition refactor_fits (r : Refactor) : Prop := fits (r_addr r) (r_size r) (r_patched r).

Lemma emit_refactors_ok config level rs : ∀ o, ready (config + cfg_num_maps level) o (List.length rs) → Forall refactor_fits rs →
  ∃ o' ms, emit_refactors config level rs o = Some o' ∧ emitted (config + cfg_num_maps level) o o' ms ∧ Forall map_ok ms ∧
    map_call elf_base <$> ms = refactor_call <$> rs.
Proof.
  induction rs as [|r rs IH]; intros o HR Hfit; cbn [emit_refactors]; [exists o, []; split_and!; try done; apply emitted_nil|].
  apply Forall_cons in Hfit as [Hf Hfit]. destruct HR as (R1 & R2 & R3 & R4). cbn [List.length] in R3. unfold sizeof_map in R3.
  destruct (loader_map_call elf_base (r_addr r) (r_size r) (r_patched r) true false true E9_TYPE_REFACTOR Hf) as (m & Em & Hok & Hcall).
  { unfold E9_TYPE_REFACTOR. lia. }
  destruct (emitted_one (config + cfg_num_maps level) o m R1 R2) as (o1 & Eo & He); [unfold sizeof_map; lia|done|].
  unfold emitLoaderMap. rewrite Em. cbn [mbind option_bind]. apply bind_Some_iff in Eo as (o0 & Ep & Ei). rewrite Ep. cbn [mbind option_bind].
  rewrite Ei. cbn [mbind option_bind]. pose proof (em_pos _ _ _ _ He) as Hp. pose proof (em_len _ _ _ _ He) as Hl. cbn [List.length] in Hp. unfold sizeof_map in Hp.
  destruct (IH o1) as (o' & ms & -> & He2 & Hok2 & Hc2); [|done|].
  { split_and!; [done|lia|unfold sizeof_map; lia|]. eapply emitted_is_Some; [done| |exact He|]; lia. }
  exists o', ([m] ++ ms). split_and!; [done|by eapply emitted_app|by constructor|]. cbn [app fmap list_fmap]. rewrite Hcall. f_equal. exact Hc2.
Qed.

End Calls.

(** ** The two levels *)

Definition agrees (data data' : bytes) (lo hi : Z) : Prop := ∀ i, lo <= i < hi → rd data' i = rd data i.

Lemma rd32_agrees data data' off : agrees data data' off (off + 4) → rd32 data' off = rd32 data off.
Proof. intros H. unfold rd32, rd16. by rewrite !(H) by lia. Qed.

Lemma set_field_ok off v o : 0 <= off → off + 4 <= blen o.1 → 0 <= v < 2 ^ 32 → ∃ o', set_field off 4 v o = Some o' ∧
  o'.2 = o.2 ∧ blen o'.1 = blen o.1 ∧ rd32 o'.1 off = Some v ∧ ∀ i, ¬ off <= i < off + 4 → rd o'.1 i = rd o.1 i.
Proof.
  intros H0 Hb Hv. assert (H4 : blen (le_bytes 4 v) = 4) by (unfold blen; by rewrite le_bytes_len).
  destruct (wrn_is_Some o.1 off (le_bytes 4 v)) as [d E]; [lia..|]. unfold set_field. rewrite E. cbn [mbind option_bind].
  pose proof (wrn_len _ _ _ _ E) as Hl. eexists. split; [reflexivity|]. cbn [fst snd]. split_and!; [done|done| |].
  - apply rd32_of_rdn; [|done]. rewrite <- (rdn_wrn_same _ _ _ _ E). by rewrite H4.
  - intros i Hi. apply (rd_wrn_out _ _ _ _ _ E). lia.
Qed.

Section Levels.
Context (flat : gmap ptr bytes) (elf_base UB config : Z) (gs : list (Group * Z)) (rs : list Refactor).
Context (HF : ∀ g off, (g, off) ∈ gs → group_fits flat UB off g) (HR : Forall refactor_fits rs) (Hconfig : 0 <= config).

(** The table of a level, from [lo] to [hi]. *)
Record level_table (level lo hi : Z) (data : bytes) : Prop := {
  lt_end : hi = lo + sizeof_map * Z.of_nat (List.length (level_calls flat elf_base level gs rs));
  lt_maps : rd32 data (config + cfg_maps level) = Some (lo - config);
  lt_num : rd32 data (config + cfg_num_maps level) = Some (Z.of_nat (List.length (level_calls flat elf_base level gs rs)));
  lt_table : ∃ ms, Forall map_ok ms ∧ maps_at data lo ms ∧ map_call elf_base <$> ms = level_calls flat elf_base level gs rs }.

(** Writing it changes the table and two fields. *)
Definition in_fields (level i : Z) : Prop :=
  config + cfg_maps level <= i < config + cfg_maps level + 4 ∨ config + cfg_num_maps level <= i < config + cfg_num_maps level + 4.

Lemma level_table_keep level lo hi data data' : level_table level lo hi data → blen data' = blen data →
  agrees data data' lo hi → (∀ i, in_fields level i → rd data' i = rd data i) → level_table level lo hi data'.
Proof.
  intros [L1 L2 L3 (ms & Hok & Hat & Hcs)] Hl A1 A2. unfold sizeof_map in *. split; [done| | |].
  - rewrite <- L2. apply rd32_agrees. intros i Hi. apply A2. by left.
  - rewrite <- L3. apply rd32_agrees. intros i Hi. apply A2. by right.
  - exists ms. split_and!; [done| |done]. intros i m Hi. pose proof (Hat i m Hi) as Hr. pose proof (lookup_lt_Some _ _ _ Hi).
    rewrite <- Hcs, length_fmap in L1. unfold sizeof_map in *. eapply rdn_keep; [|exact Hl|exact Hr]. intros j Hj. apply A1. lia.
Qed.

Lemma emit_level_ok level ub o : 0 <= level <= 1 → config + sizeof_config <= o.2 → blen o.1 < 2 ^ 32 → ub <= UB →
  o.2 + sizeof_map * Z.of_nat (List.length (level_calls flat elf_base level gs rs)) <= blen o.1 →
  rd32 o.1 (config + cfg_num_maps level) = Some 0 →
  ∃ ub' o', emit_level flat config level gs rs ub o = Some (ub', o') ∧ ub' <= UB ∧ blen o'.1 = blen o.1 ∧
    level_table level o.2 o'.2 o'.1 ∧ ∀ i, i < o.2 ∨ o'.2 <= i → ¬ in_fields level i → rd o'.1 i = rd o.1 i.
Proof.
  intros Hlv Hc Hb Hub Hroom Hnum. unfold sizeof_config, sizeof_map in *. unfold emit_level.
  set (calls := level_calls flat elf_base level gs rs) in *.
  destruct (set_field_ok (config + cfg_maps level) (o.2 - config) o) as (o1 & -> & Hp1 & Hl1 & Hm1 & Hk1); [unfold cfg_maps; lia..|].
  cbn [mbind option_bind]. set (fld := config + cfg_num_maps level) in *.
  assert (Hfld : 0 <= fld ∧ fld + 4 <= o.2 ∧ (fld + 4 <= config + cfg_maps level ∨ config + cfg_maps level + 4 <= fld)).
  { unfold fld, cfg_maps, cfg_num_maps. lia. }
  assert (Hn1 : rd32 o1.1 fld = Some 0) by (rewrite <- Hnum; apply rd32_agrees; intros i Hi; apply Hk1; lia).
  assert (HW : writes elf_base UB fld o1 ub calls ('(ub, o) ← emit_groups flat config level gs ub o1;
    o ← (if level =? 0 then emit_refactors config level rs o else Some o); Some (ub, o))).
  { unfold calls, level_calls. apply writes_bind.
    - unfold ready, sizeof_map. split_and!; [lia|lia|unfold calls, level_calls in *; lia|rewrite Hn1; by eexists].
    - apply emit_groups_ok; [done| |done]. unfold ready, sizeof_map, calls, level_calls in *. rewrite length_app in Hroom.
      split_and!; [lia|lia|fold fld; lia|fold fld; rewrite Hn1; by eexists].
    - intros ub1 o2 Hub1 HR1 Hl2. destruct (level =? 0); [|cbn [mbind option_bind]; by apply writes_nil].
      rewrite length_fmap in HR1. destruct (emit_refactors_ok elf_base config level rs o2 HR1 HR) as (o3 & ms & -> & He & Hok & Hcs).
      cbn [mbind option_bind]. by exists ub1, o3, ms. }
  destruct HW as (ub' & o' & ms & E & Hub' & He & Hok & Hcs). exists ub', o'. split; [exact E|]. split; [done|].
  pose proof (writes_length elf_base _ _ _ _ _ He Hcs) as Hlen. destruct He as [E1 E2 E3 E4 E5]. unfold sizeof_map in *.
  split_and!; [lia| |].
  - split.
    + unfold sizeof_map. fold calls. lia.
    + rewrite <- Hm1. apply rd32_agrees. intros i Hi. apply E4; unfold cfg_maps, cfg_num_maps, fld in *; lia.
    + fold fld calls. rewrite (E3 0 Hn1) by lia. f_equal. lia.
    + exists ms. rewrite <- Hp1. by split_and!.
  - intros i Hi Hno. unfold in_fields in Hno. fold fld in Hno. rewrite E4 by lia. apply Hk1. lia.
Qed.

(** What the loader reads. *)
Definition level_loads (cfg : bytes) (level : Z) : Prop :=
  ∃ p n, rd32 cfg (cfg_maps level) = Some p ∧ rd32 cfg (cfg_num_maps level) = Some n ∧
    e9load_maps cfg p (Z.to_nat n) elf_base = Some (level_calls flat elf_base level gs rs).

Lemma level_table_loads level lo hi data : 0 <= level → config <= lo → level_table level lo hi data → level_loads (at_off data config) level.
Proof.
  intros Hlv Hc [L1 L2 L3 (ms & Hok & Hat & Hcs)].
  assert (Hrd : ∀ k, 0 <= k → rd32 (at_off data config) k = rd32 data (config + k)).
  { intros k Hk. unfold rd32, rd16. rewrite !rd_at_off by lia. rewrite !Z.add_assoc. done. }
  exists (lo - config), (Z.of_nat (List.length ms)). split_and!.
  - rewrite Hrd; [done|unfold cfg_maps; lia].
  - rewrite Hrd; [|unfold cfg_num_maps; lia]. by rewrite L3, <- Hcs, length_fmap.
  - rewrite Nat2Z.id, <- Hcs. apply load_maps_ok; [done|]. intros i m Hi.
    pose proof (Hat i m Hi) as Hr. pose proof (proj1 (rdn_Some _ _ _ _) Hr) as (? & _ & ? & _). unfold sizeof_map in *.
    rewrite rdn_at_off by lia. rewrite <- Hr. f_equal. lia.
Qed.

(** [emit_maps] writes the tables of both levels; a file with the same tables loads. *)
Lemma emit_maps_ok opts o : config + sizeof_config <= o.2 → blen o.1 < 2 ^ 32 → INTPTR_MIN <= UB → UB = option_loader_base opts →
  o.2 + sizeof_map * Z.of_nat (List.length (level_calls flat elf_base 0 gs rs) + List.length (level_calls flat elf_base 1 gs rs)) <= blen o.1 →
  rd32 o.1 (config + cfg_num_maps 0) = Some 0 → rd32 o.1 (config + cfg_num_maps 1) = Some 0 →
  ∃ o', emit_maps opts flat config gs rs o = Some o' ∧ blen o'.1 = blen o.1 ∧ o.2 <= o'.2 <= blen o.1 ∧
    (∀ i, i < config + 64 ∨ config + 80 <= i < o.2 ∨ o'.2 <= i → rd o'.1 i = rd o.1 i) ∧
    ∀ file, blen file = blen o.1 → agrees o'.1 file (config + 64) (config + 80) → agrees o'.1 file o.2 o'.2 →
      level_loads (at_off file config) 0 ∧ level_loads (at_off file config) 1.
Proof.
  intros Hc Hb HUB EUB Hroom H0 H1. unfold emit_maps. unfold sizeof_config, sizeof_map in Hc, Hroom.
  destruct (emit_level_ok 0 INTPTR_MIN o) as (ub1 & o1 & -> & Hub1 & L1 & T0 & K0); [lia|unfold sizeof_config; lia|done|done|unfold sizeof_map; lia|done|].
  cbn [mbind option_bind]. pose proof (lt_end _ _ _ _ T0) as P0. unfold sizeof_map in P0.
  assert (Hf : ∀ i, in_fields 1 i → ¬ in_fields 0 i ∧ i < o.2) by (unfold in_fields, cfg_maps, cfg_num_maps; lia).
  assert (H1' : rd32 o1.1 (config + cfg_num_maps 1) = Some 0).
  { rewrite <- H1. apply rd32_agrees. intros i Hi. destruct (Hf i); [by right|]. apply K0; [lia|done]. }
  destruct (emit_level_ok 1 ub1 o1) as (ub2 & o2 & -> & Hub2 & L2 & T1 & K1); [lia|unfold sizeof_config; lia|lia|done|unfold sizeof_map; lia|done|].
  cbn [mbind option_bind]. pose proof (lt_end _ _ _ _ T1) as P1. unfold sizeof_map in P1.
  rewrite <- EUB, (proj2 (Z.leb_le ub2 UB)) by lia. cbn [assert_ mbind option_bind]. exists o2. split_and!; [done|lia|lia|lia| |].
  - intros i Hi. rewrite K1, K0; unfold in_fields, cfg_maps, cfg_num_maps; try done; lia.
  - intros file Hf2 A1 A2.
    assert (Hfields : ∀ level i, 0 <= level <= 1 → in_fields level i → rd file i = rd o2.1 i).
    { intros level i Hlv Hi. apply A1. unfold in_fields, cfg_maps, cfg_num_maps in Hi. lia. }
    split.
    + apply (level_table_loads 0 o.2 o1.2); [lia|lia|]. eapply (level_table_keep _ _ _ o2.1); [|lia| |intros i Hi; by apply (Hfields 0)].
      * eapply level_table_keep; [exact T0|lia| |].
        -- intros i Hi. apply K1; [lia|]. intros Hi1. destruct (Hf i Hi1). lia.
        -- intros i Hi. apply K1; [unfold in_fields, cfg_maps, cfg_num_maps in *; lia|]. intros Hi1. by destruct (Hf i Hi1).
      * intros i Hi. apply A2. lia.
    + apply (level_table_loads 1 o1.2 o2.2); [lia|lia|]. eapply (level_table_keep _ _ _ o2.1); [exact T1|lia| |intros i Hi; by apply (Hfields 1)].
      intros i Hi. apply A2. lia.
Qed.

End Levels.

(** ** Memory *)

(** What the loader needs of the kernel: memory, and [mmap] of a range of the file. *)
Class Kernel := {
  Mem : Type;
  peek : Mem → Z → option Z;
  mmap : bytes → MapCall → Mem → option Mem }.

Definition covers (c : MapCall) (a : Z) : Prop := mc_addr c <= a < mc_addr c + mc_len c.

(** With [MAP_FIXED | MAP_PRIVATE] the range holds the bytes of the file, and the rest of
    the memory stays. *)
Class KernelLaws (KN : Kernel) : Prop := {
  mmap_in file c m m' a v : mmap file c m = Some m' → covers c a → rd file (mc_offset c + (a - mc_addr c)) = Some v →
    peek m' a = Some v;
  mmap_out file c m m' a : mmap file c m = Some m' → ¬ covers c a → peek m' a = peek m a }.

(** The calls of [e9load_maps], of which none fails. *)
Fixpoint run_calls `{Kernel} (file : bytes) (cs : list MapCall) (m : Mem) : option Mem :=
  match cs with [] => Some m | c :: cs => m ← mmap file c m; run_calls file cs m end.

Section Run.
Context `{KN : Kernel} {KL : KernelLaws KN} (file : bytes).

(** If all calls that cover an address agree on its place in the file, it holds that byte. *)
Lemma run_calls_in cs a pos v : rd file pos = Some v →
  (∀ c, c ∈ cs → covers c a → mc_offset c + (a - mc_addr c) = pos) → ∀ m m', run_calls file cs m = Some m' →
  (∃ c, c ∈ cs ∧ covers c a) ∨ peek m a = Some v → peek m' a = Some v.
Proof.
  intros Hv. induction cs as [|c cs IH]; intros Hag m m' Hrun Hor; cbn [run_calls] in Hrun.
  - injection Hrun as <-. destruct Hor as [(c & ?%elem_of_nil & _)|]; done.
  - apply bind_Some_iff in Hrun as (m1 & Em & Hrun). apply (IH (λ c Hc, Hag c (list_elem_of_further _ _ _ Hc)) m1 m' Hrun).
    destruct (decide (mc_addr c <= a < mc_addr c + mc_len c)) as [Hc|Hc].
    + right. apply (mmap_in file c m m1); [done|done|]. by rewrite (Hag c ltac:(left) Hc).
    + destruct Hor as [(c' & Hin & Hc')|Hp]; [|right; by rewrite (mmap_out file c m m1 a Em Hc)].
      apply elem_of_cons in Hin as [-> |Hin]; [done|]. left. by exists c'.
Qed.

Lemma run_calls_out cs a : (∀ c, c ∈ cs → ¬ covers c a) → ∀ m m', run_calls file cs m = Some m' → peek m' a = peek m a.
Proof.
  induction cs as [|c cs IH]; intros Hno m m' Hrun; cbn [run_calls] in Hrun; [by injection Hrun as <-|].
  apply bind_Some_iff in Hrun as (m1 & Em & Hrun). rewrite (IH (λ c Hc, Hno c (list_elem_of_further _ _ _ Hc)) m1 m' Hrun).
  apply (mmap_out file c m m1); [done|]. apply Hno. left.
Qed.

End Run.

(** ** Slots *)

(** No two elements at different places overlap. *)
Definition pairwise_apart {A} (lo hi : A → Z) (l : list A) : Prop :=
  ∀ i j a b x, l !! i = Some a → l !! j = Some b → lo a <= x < hi a → lo b <= x < hi b → i = j.

Lemma pairwise_perm {A} (lo hi : A → Z) l k : l ≡ₚ k → pairwise_apart lo hi l → pairwise_apart lo hi k.
Proof.
  intros Hp Hl. symmetry in Hp. apply Permutation_inj in Hp as (_ & f & Hinj & Hf). intros i j a b x Ha Hb Hxa Hxb.
  rewrite Hf in Ha, Hb. apply Hinj. by apply (Hl (f i) (f j) a b x).
Qed.

Lemma pairwise_sorted SIZE ms : StronglySorted (apart SIZE) ms → 0 < SIZE → pairwise_apart m_base (λ m, m_base m + SIZE) ms.
Proof.
  intros Hs HS. induction Hs as [|m ms Hs IH Hall]; intros i j a b x Ha Hb Hxa Hxb; [done|]. rewrite Forall_forall in Hall. unfold apart in Hall.
  destruct i as [|i], j as [|j]; cbn in Ha, Hb; [done| | |f_equal; by apply (IH i j a b x)].
  - injection Ha as <-. apply list_elem_of_lookup_2 in Hb. specialize (Hall b Hb). lia.
  - injection Hb as <-. apply list_elem_of_lookup_2 in Ha. specialize (Hall a Ha). lia.
Qed.

Lemma pairwise_forall2 {A B} (R : A → B → Prop) (lo hi : A → Z) (lo' hi' : B → Z) l k : Forall2 R l k →
  (∀ a b, R a b → lo a <= lo' b ∧ hi' b <= hi a) → pairwise_apart lo hi l → pairwise_apart lo' hi' k.
Proof.
  intros HF HR Hl i j a b x Ha Hb Hxa Hxb. destruct (Forall2_lookup_r _ _ _ _ _ HF Ha) as (a0 & Ha0 & Ra), (Forall2_lookup_r _ _ _ _ _ HF Hb) as (b0 & Hb0 & Rb).
  apply HR in Ra, Rb. apply (Hl i j a0 b0 x); try done; lia.
Qed.

(** The mappings with the offset of their group. *)
Definition tagged (gs : list Group) (offs : list Z) : list (Mapping * Z) :=
  combine gs offs ≫= λ x, (λ m, (m, x.2)) <$> x.1.

Lemma tagged_elem gs offs g off m : (g, off) ∈ combine gs offs → m ∈ g → (m, off) ∈ tagged gs offs.
Proof.
  intros Hg Hm. unfold tagged. apply list_elem_of_bind. exists (g, off). split; [|done]. cbn [fst snd].
  apply list_elem_of_fmap. by exists m.
Qed.

Lemma tagged_forall2 (R : Mapping → Mapping → Prop) gs0 gs : Forall2 (Forall2 R) gs0 gs → ∀ offs, List.length offs = List.length gs →
  Forall2 (λ s x, R s x.1) (concat gs0) (tagged gs offs).
Proof.
  induction 1 as [|g0 g gs0 gs Hg _ IH]; intros offs Hl; [by constructor|]. destruct offs as [|off offs]; [done|].
  unfold tagged in *. cbn [combine concat]. rewrite bind_cons. cbn [fst snd]. apply Forall2_app; [|apply IH; by injection Hl].
  apply Forall2_fmap_r. eapply Forall2_impl; [exact Hg|done].
Qed.

End ElfMaps.
