(* ===== verification/E9ElfImage.v ===== *)
(** * E9ElfImage: the memory image of a patched program

    The whole path of a trampoline: from the allocations of the address space over mappings,
    groups, the bytes of the file and the tables of the loader to memory. *)

From stdpp Require Import gmap sorting.
From S2P Require Import Prelude E9Patch E9Alloc E9AllocTree E9AllocApi E9Tactics E9Optimize E9Misc.
From S2P Require Import E9X86.
From S2P Require Import E9Mapping E9MappingTree E9MappingSpec E9MappingFlat E9Elf E9Loader E9ElfSpec E9ElfMaps.

Module ElfImage.
Import E9 E9Alloc AllocTree E9Tactics E9Mapping MappingTree MappingSpec MappingFlat E9Elf E9Loader ElfSpec ElfMaps.

Lemma combine_elem {A B} (l : list A) (k : list B) i a b : l !! i = Some a → k !! i = Some b → (a, b) ∈ combine l k.
Proof.
  revert k i. induction l as [|x l IH]; intros [|y k] [|i] Ha Hb; try done; cbn in *.
  - injection Ha as ->. injection Hb as ->. left.
  - right. by apply (IH k i).
Qed.

Definition ABS : Z := 0x6000000000000000.

Section Image.
Context (Ts : gmap ptr Trampoline) (SIZE : Z) (l : Iterator) (SP : space_ok Ts SIZE l).
Context (flat : gmap ptr bytes) (FL : flat_ok flat l) (elf_base UB : Z).

(** A relative trampoline below the loader, and an absolute one. *)
Definition rel_ok (a : Alloc) : Prop :=
  - 2 ^ 42 <= a_lb a ∧ a_ub a <= 2 ^ 42 ∧ 0 <= elf_base + a_lb a - SIZE ∧ elf_base + a_ub a + SIZE <= 2 ^ 63 ∧ a_ub a + SIZE <= UB.

Definition abs_ok (a : Alloc) : Prop := SIZE <= a_lb a - ABS ∧ a_ub a - ABS <= 2 ^ 42.

(** The layout of memory: pages, reach of the tables, and no relative trampoline next to an
    absolute one. *)
Record layout_ok : Prop := {
  ly_page : (PAGE_SIZE | SIZE);
  ly_size : SIZE < 2 ^ 28;
  ly_reach y : y ∈ l → a_T y.2 ≠ None → rel_ok y.2 ∨ abs_ok y.2;
  ly_apart y z : y ∈ l → z ∈ l → a_T y.2 ≠ None → a_T z.2 ≠ None → rel_ok y.2 → abs_ok z.2 →
    elf_base + a_ub y.2 + SIZE <= a_lb z.2 - ABS - SIZE ∨ a_ub z.2 - ABS + SIZE <= elf_base + a_lb y.2 - SIZE;
  ly_reserved y : y ∈ l → a_T y.2 = None → (PAGE_SIZE | a_lb y.2) ∧ (PAGE_SIZE | a_ub y.2) }.

Context (LY : layout_ok).

(** The run-time address of a slot of a relative or an absolute allocation [y]. *)
Definition slot_rel (s : Mapping) (a : Alloc) : Prop := rel_ok a ∧ a_lb a < m_base s + SIZE ∧ m_base s < a_ub a.
Definition slot_abs (s : Mapping) (a : Alloc) : Prop := abs_ok a ∧ a_lb a < m_base s + SIZE ∧ m_base s < a_ub a.

Lemma slot_kind s : mapping_ok SIZE l s → ∃ y, y ∈ l ∧ a_T y.2 ≠ None ∧ (slot_rel s y.2 ∨ slot_abs s y.2).
Proof.
  intros Hs. destruct (mo_iter _ _ _ Hs) as (pre & p & a & i & El & _ & HT & Hlb & Hub & _). exists (p, a).
  assert (Hin : (p, a) ∈ l) by (rewrite El; apply elem_of_app; right; left). split_and!; [done|done|].
  cbn [snd]. unfold slot_rel, slot_abs. destruct (ly_reach LY (p, a) Hin HT); cbn [snd] in *; tauto.
Qed.

Lemma not_absolute x : - 2 ^ 43 <= x <= 2 ^ 43 → IS_ABSOLUTE x = false.
Proof. intros Hx. unfold IS_ABSOLUTE, between, ABSOLUTE_ADDRESS_MIN, ABSOLUTE_ADDRESS_MAX. destruct (Z.leb_spec 0x4000000000001000 x); [lia|done]. Qed.

Lemma is_absolute x : - 2 ^ 43 <= x - ABS <= 2 ^ 43 → IS_ABSOLUTE x = true.
Proof.
  intros Hx. unfold ABS in Hx. apply between_spec. unfold ABSOLUTE_ADDRESS_MIN, ABSOLUTE_ADDRESS_MAX. lia.
Qed.

Lemma slot_rel_real s a x : slot_rel s a → m_base s <= x <= m_base s + SIZE →
  IS_ABSOLUTE x = false ∧ real elf_base x = elf_base + x ∧ BASE_ADDRESS x = x ∧ - 2 ^ 43 <= x < 2 ^ 43 ∧ x < UB + 1.
Proof.
  intros ((R1 & R2 & R3 & R4 & R5) & Hl & Hu) Hx. pose proof (ly_size LY). pose proof (size_pos Ts SIZE l SP).
  assert (Hn : IS_ABSOLUTE x = false) by (apply not_absolute; lia).
  unfold real, BASE_ADDRESS. rewrite Hn, wrapu_small by lia. split_and!; try done; lia.
Qed.

Lemma slot_abs_real s a x : slot_abs s a → m_base s <= x <= m_base s + SIZE →
  IS_ABSOLUTE x = true ∧ real elf_base x = x - ABS ∧ BASE_ADDRESS x = x - ABS ∧ - 2 ^ 43 <= x - ABS < 2 ^ 43.
Proof.
  intros ((R1 & R2) & Hl & Hu) Hx. pose proof (ly_size LY). pose proof (size_pos Ts SIZE l SP).
  assert (Hn : IS_ABSOLUTE x = true) by (apply is_absolute; lia).
  unfold real, BASE_ADDRESS. rewrite Hn. unfold ABS in *. rewrite wrapu_small by lia. split_and!; try done; lia.
Qed.

(** In a slot run-time addresses are shifted addresses; different slots stay different. *)
Lemma slot_shift s : mapping_ok SIZE l s → ∃ d, ∀ x, m_base s <= x <= m_base s + SIZE → real elf_base x = x + d.
Proof.
  intros Hs. destruct (slot_kind s Hs) as (y & _ & _ & [H|H]).
  - exists elf_base. intros x Hx. destruct (slot_rel_real s y.2 x H Hx) as (_ & -> & _). lia.
  - exists (- ABS). intros x Hx. destruct (slot_abs_real s y.2 x H Hx) as (_ & -> & _). lia.
Qed.

Lemma slot_inj s1 s2 x1 x2 : mapping_ok SIZE l s1 → mapping_ok SIZE l s2 →
  m_base s1 <= x1 < m_base s1 + SIZE → m_base s2 <= x2 < m_base s2 + SIZE → real elf_base x1 = real elf_base x2 → x1 = x2.
Proof.
  intros H1 H2 Hx1 Hx2 E. destruct (slot_kind s1 H1) as (y1 & Hy1 & HT1 & K1), (slot_kind s2 H2) as (y2 & Hy2 & HT2 & K2).
  destruct K1 as [K1|K1], K2 as [K2|K2].
  - destruct (slot_rel_real _ _ x1 K1) as (_ & E1 & _); [lia|]. destruct (slot_rel_real _ _ x2 K2) as (_ & E2 & _); lia.
  - destruct (slot_rel_real _ _ x1 K1) as (_ & E1 & _); [lia|]. destruct (slot_abs_real _ _ x2 K2) as (_ & E2 & _); [lia|].
    destruct K1 as (K1 & ? & ?), K2 as (K2 & ? & ?). destruct (ly_apart LY y1 y2 Hy1 Hy2 HT1 HT2 K1 K2); lia.
  - destruct (slot_abs_real _ _ x1 K1) as (_ & E1 & _); [lia|]. destruct (slot_rel_real _ _ x2 K2) as (_ & E2 & _); [lia|].
    destruct K1 as (K1 & ? & ?), K2 as (K2 & ? & ?). destruct (ly_apart LY y2 y1 Hy2 Hy1 HT2 HT1 K2 K1); lia.
  - destruct (slot_abs_real _ _ x1 K1) as (_ & E1 & _); [lia|]. destruct (slot_abs_real _ _ x2 K2) as (_ & E2 & _); lia.
Qed.

(** ** Groups with their slots *)

Context (ms : list Mapping) (gs0 gs : list Group) (offs : list Z) (file : bytes).
Context (Hms : Forall (mapping_ok SIZE l) ms) (Hap : StronglySorted (apart SIZE) ms) (Hcov : covered SIZE ms l).
Context (Hperm : concat gs0 ≡ₚ ms) (Hgs : Forall (group_ok l) gs) (Hsh : Forall2 (Forall2 (shrunk l PAGE_SIZE)) gs0 gs).
Context (Hoff : Forall2 (λ g off, holds_group flat l file g off ∧ 0 <= off ∧ off + gsize g < 2 ^ 32 ∧ (PAGE_SIZE | off)) gs offs).

Abbreviation tags := (combine gs offs).

(** A mapping of a group has its slot, and the file has its trampolines. *)
Record member (g : Group) (off : Z) (m s : Mapping) : Prop := {
  mb_slot : mapping_ok SIZE l s;
  mb_shrunk : shrunk l PAGE_SIZE s m;
  mb_placed : placed l m;
  mb_size : m_size m = gsize g;
  mb_off : 0 <= off ∧ off + gsize g < 2 ^ 32 ∧ (PAGE_SIZE | off) }.

Lemma tag_holds g off : (g, off) ∈ tags → g ∈ gs ∧ holds_group flat l file g off ∧ 0 <= off ∧ off + gsize g < 2 ^ 32 ∧ (PAGE_SIZE | off).
Proof.
  pose proof Hoff as HF. clear - HF. induction HF as [|g' off' gs' offs' H _ IH]; cbn [combine]; [by intros ?%elem_of_nil|].
  intros [E|Hin]%elem_of_cons; [injection E as -> ->; split; [left|exact H]|]. destruct (IH Hin) as [? ?]. split; [by right|done].
Qed.

Lemma slot_of g m : g ∈ gs → m ∈ g → ∃ s, s ∈ ms ∧ mapping_ok SIZE l s ∧ shrunk l PAGE_SIZE s m.
Proof.
  intros [i Hi]%list_elem_of_lookup [j Hj]%list_elem_of_lookup.
  destruct (Forall2_lookup_r _ _ _ _ _ Hsh Hi) as (g0 & Hg0 & Hg). destruct (Forall2_lookup_r _ _ _ _ _ Hg Hj) as (s & Hs & Hsm).
  exists s. assert (Hin : s ∈ ms).
  { rewrite <- Hperm. apply list_elem_of_In, List.in_concat. exists g0.
    split; apply list_elem_of_In; by eapply list_elem_of_lookup_2. }
  split_and!; try done. rewrite Forall_forall in Hms. by apply Hms.
Qed.

Lemma member_of g off m : (g, off) ∈ tags → m ∈ g → ∃ s, member g off m s.
Proof.
  intros Hin Hm. destruct (tag_holds g off Hin) as (Hg & _ & Ho). destruct (slot_of g m Hg Hm) as (s & _ & Hs & Hsm).
  rewrite Forall_forall in Hgs. pose proof (Hgs g Hg) as Hgok. exists s. split; try done.
  - by apply (gr_placed _ _ Hgok).
  - by apply (gsize_pos l g Hgok).
Qed.

(** A range of a mapping: whole pages of its slot. *)
Lemma range_in g off m s b : member g off m s → b ∈ getVirtualBounds flat m PAGE_SIZE →
  range_ok PAGE_SIZE (m_size m) b ∧ m_base s <= m_base m + b_lb b ∧ m_base m + b_ub b <= m_base s + SIZE.
Proof.
  intros [M1 M2 M3 M4 M5] Hb. destruct (sh_in _ _ _ _ M2) as [S1 S2]. rewrite (mo_size _ _ _ M1) in S2.
  pose proof (pl_size _ _ M3). pose proof (ly_size LY). pose proof (size_pos Ts SIZE l SP).
  destruct (getVirtualBounds_ok Ts SIZE l SP flat FL PAGE_SIZE (m_size m)) with (m := m) as [Hr _]; try done; [apply (sh_aligned _ _ _ _ M2)|lia|].
  rewrite Forall_forall in Hr. pose proof (Hr b Hb) as Hrb. split; [done|]. destruct Hrb as (R1 & R2 & R3 & _). lia.
Qed.

(** Every range can be written to the tables. *)
Lemma tags_fit g off : (g, off) ∈ tags → group_fits flat UB off g.
Proof.
  intros Hin m b Hm Hb. destruct (member_of g off m Hin Hm) as (s & Hmb). destruct (range_in g off m s b Hmb Hb) as ((R1 & R2 & R3 & R4 & R5) & Hlo & Hhi).
  destruct Hmb as [M1 M2 M3 M4 (O1 & O2 & O3)]. destruct (sh_aligned _ _ _ _ M2) as [A1 A2].
  pose proof (size_pos Ts SIZE l SP). pose proof (ly_size LY).
  assert (Hd : (PAGE_SIZE | m_base m + b_lb b)) by by apply Z.divide_add_r.
  assert (Hcommon : (PAGE_SIZE | b_ub b - b_lb b) ∧ 0 < b_ub b - b_lb b < 2 ^ 28 ∧ (PAGE_SIZE | off + b_lb b) ∧ 0 <= off + b_lb b < 2 ^ 44).
  { split_and!; [by apply Z.divide_sub_r|lia|lia|by apply Z.divide_add_r|lia|lia]. }
  destruct Hcommon as (C1 & C2 & C3 & C4). destruct (slot_kind s M1) as (y & _ & _ & [HK|HK]).
  - destruct (slot_rel_real s y.2 (m_base m + b_lb b) HK) as (E1 & _ & E2 & E3 & E4); [lia|]. split; [|right; lia].
    split; rewrite ?E2; [done|lia|by split|by split].
  - destruct (slot_abs_real s y.2 (m_base m + b_lb b) HK) as (E1 & _ & E2 & E3); [lia|]. split; [|by left].
    split; rewrite ?E2; [|lia|by split|by split]. apply Z.divide_sub_r; [done|]. by exists (ABS / PAGE_SIZE).
Qed.

(** What covers a run-time address is a range of a mapping with that address. *)
Lemma group_call_covers level c a : c ∈ groups_calls flat elf_base level tags → covers c a →
  ∃ g off m s b, (g, off) ∈ tags ∧ m ∈ g ∧ member g off m s ∧ b ∈ getVirtualBounds flat m PAGE_SIZE ∧
    c = range_call elf_base m off b ∧ ∃ x, m_base m + b_lb b <= x < m_base m + b_ub b ∧ a = real elf_base x ∧
      mc_offset c + (a - mc_addr c) = off + (x - m_base m).
Proof.
  unfold groups_calls. intros ([g off] & Hc & Hin)%list_elem_of_bind Hcov'. cbn [fst snd] in Hc.
  unfold group_calls in Hc. apply list_elem_of_bind in Hc as (m & Hc & Hm).
  destruct (Bool.eqb _ _); [|by apply elem_of_nil in Hc]. apply list_elem_of_fmap in Hc as (b & -> & Hb).
  destruct (member_of g off m Hin Hm) as (s & Hmb). exists g, off, m, s, b. split_and!; try done.
  destruct (range_in g off m s b Hmb Hb) as ((R1 & R2 & R3 & _) & Hlo & Hhi).
  destruct (slot_shift s (mb_slot _ _ _ _ Hmb)) as [d Hd]. unfold covers, range_call in Hcov'. cbn [mc_addr mc_len] in Hcov'.
  rewrite Hd in Hcov' by lia. exists (a - d). split; [lia|]. rewrite Hd by lia. split; [lia|].
  unfold range_call. cbn [mc_offset mc_addr]. rewrite Hd by lia. lia.
Qed.

Lemma same_member g1 off1 m1 g2 off2 m2 x : (g1, off1) ∈ tags → m1 ∈ g1 → (g2, off2) ∈ tags → m2 ∈ g2 →
  m_base m1 <= x < m_base m1 + m_size m1 → m_base m2 <= x < m_base m2 + m_size m2 → off1 = off2 ∧ m_base m1 = m_base m2.
Proof.
  intros H1 M1 H2 M2 X1 X2. pose proof (size_pos Ts SIZE l SP).
  assert (Hp : pairwise_apart (λ x : Mapping * Z, m_base x.1) (λ x, m_base x.1 + m_size x.1) (tagged gs offs)).
  { pose proof (tagged_forall2 _ _ _ Hsh offs (eq_sym (Forall2_length _ _ _ Hoff))) as HF.
    assert (HF' : Forall2 (λ s (x : Mapping * Z), shrunk l PAGE_SIZE s x.1 ∧ m_size s = SIZE) (concat gs0) (tagged gs offs)).
    { assert (Hall : Forall (λ s, m_size s = SIZE) (concat gs0)).
      { rewrite Hperm. eapply Forall_impl; [exact Hms|]. intros s Hs. apply (mo_size _ _ _ Hs). }
      clear -HF Hall. induction HF; [done|]. apply Forall_cons in Hall as [? ?]. constructor; [done|]. by apply IHHF. }
    eapply (pairwise_forall2 _ m_base (λ s, m_base s + SIZE)); [exact HF'| |].
    - intros s m' [Hs E]. destruct (sh_in _ _ _ _ Hs). lia.
    - eapply pairwise_perm; [symmetry; exact Hperm|]. apply pairwise_sorted; [done|lia]. }
  apply (tagged_elem _ _ _ _ _ H1) in M1. apply (tagged_elem _ _ _ _ _ H2) in M2.
  apply list_elem_of_lookup in M1 as [i Hi], M2 as [j Hj]. specialize (Hp i j _ _ x Hi Hj X1 X2) as ->.
  rewrite Hi in Hj. by injection Hj as -> ->.
Qed.

(** Every byte of a trampoline is in a range, and all ranges with it agree on where it is in
    the file. *)
Lemma call_of_byte x v : byte_at flat l x v → ∃ c pos, c ∈ groups_calls flat elf_base 0 tags ++ groups_calls flat elf_base 1 tags ∧
  covers c (real elf_base x) ∧ rd file pos = Some v ∧
  ∀ c', c' ∈ groups_calls flat elf_base 0 tags ++ groups_calls flat elf_base 1 tags → covers c' (real elf_base x) →
    mc_offset c' + (real elf_base x - mc_addr c') = pos.
Proof.
  intros Hv. destruct (byte_at_filled l flat FL l x v ltac:(done) Hv) as (y & Hy & HT & Hyx).
  destruct (Hcov y x Hy HT Hyx) as (s & Hs & Hin). unfold in_mapping in Hin. pose proof Hms as Hms'. rewrite Forall_forall in Hms'.
  pose proof (Hms' s Hs) as Hsok. pose proof (size_pos Ts SIZE l SP). pose proof (ly_size LY).
  rewrite <- Hperm in Hs. apply list_elem_of_In, List.in_concat in Hs as (g0 & Hg0%list_elem_of_In & Hsg%list_elem_of_In).
  apply list_elem_of_lookup in Hg0 as [i Hi], Hsg as [j Hj].
  destruct (Forall2_lookup_l _ _ _ _ _ Hsh Hi) as (g & Hg & Hgg). destruct (Forall2_lookup_l _ _ _ _ _ Hgg Hj) as (m & Hm & Hsm).
  destruct (Forall2_lookup_l _ _ _ _ _ Hoff Hg) as (off & Ho & Hh & Hor).
  assert (Htag : (g, off) ∈ tags).
  { by eapply combine_elem. }
  apply list_elem_of_lookup_2 in Hm. destruct (member_of g off m Htag Hm) as (s' & Hmb).
  assert (Hocc : occupied l m (x - m_base m)).
  { replace (x - m_base m) with (m_base s + (x - m_base s) - m_base m) by lia. apply (sh_occ _ _ _ _ Hsm).
    split; [rewrite (mo_size _ _ _ Hsok); lia|]. exists y. split_and!; try done; lia. }
  pose proof Hmb as [M1 M2 M3 M4 M5].
  destruct (sh_in _ _ _ _ M2) as [S1 S2]. rewrite (mo_size _ _ _ M1) in S2. pose proof (pl_size _ _ M3).
  destruct (getVirtualBounds_ok Ts SIZE l SP flat FL PAGE_SIZE (m_size m)) with (m := m) as [_ Hvb]; try done; [apply (sh_aligned _ _ _ _ M2)|lia|].
  destruct (Hvb _ Hocc) as (b & Hb & Hbx). destruct (range_in g off m s' b Hmb Hb) as ((R1 & R2 & R3 & _) & Hlo & Hhi).
  exists (range_call elf_base m off b), (off + (x - m_base m)). split_and!.
  - assert (Hlv : ∀ level, Bool.eqb (m_preload m) (level =? 0) = true → range_call elf_base m off b ∈ groups_calls flat elf_base level tags).
    { intros level E. unfold groups_calls. apply list_elem_of_bind. exists (g, off). split; [|done]. cbn [fst snd].
      apply list_elem_of_bind. exists m. split; [|done]. rewrite E. apply list_elem_of_fmap. by exists b. }
    apply elem_of_app. destruct (m_preload m) eqn:E; [left|right]; by apply Hlv.
  - destruct (slot_shift s' M1) as [d Hd]. unfold covers, range_call. cbn [mc_addr mc_len]. rewrite !Hd by lia. lia.
  - apply (Hh m); [done|apply Hocc|]. by replace (m_base m + (x - m_base m)) with x by lia.
  - intros c' Hc' Hcov'. assert (Hc'' : ∃ level, c' ∈ groups_calls flat elf_base level tags).
    { apply elem_of_app in Hc' as [?|?]; by eexists. }
    destruct Hc'' as [level Hc''].
    destruct (group_call_covers level c' _ Hc'' Hcov') as (g1 & off1 & m1 & s1 & b1 & Ht1 & Hm1 & Hmb1 & Hb1 & _ & x1 & Hx1 & Ex & Epos).
    destruct (range_in g1 off1 m1 s1 b1 Hmb1 Hb1) as ((Q1 & Q2 & Q3 & _) & Hlo1 & Hhi1).
    rewrite Epos. assert (x = x1) as <- by (apply (slot_inj s' s1); [done|by destruct Hmb1|lia|lia|done]).
    destruct (same_member g off m g1 off1 m1 x Htag Hm Ht1 Hm1) as [-> ->]; [lia|lia|done].
Qed.

(** No range has a reserved page. *)
Lemma calls_keep_clear level c : c ∈ groups_calls flat elf_base level tags → ∃ lo hi, mc_addr c = real elf_base lo ∧ mc_len c = hi - lo ∧ lo < hi ∧
  (PAGE_SIZE | lo) ∧ (PAGE_SIZE | hi) ∧ ∀ y, y ∈ l → a_T y.2 = None → hi <= a_lb y.2 ∨ a_ub y.2 <= lo.
Proof.
  unfold groups_calls. intros ([g off] & Hc & Hin)%list_elem_of_bind. cbn [fst snd] in Hc.
  unfold group_calls in Hc. apply list_elem_of_bind in Hc as (m & Hc & Hm).
  destruct (Bool.eqb _ _); [|by apply elem_of_nil in Hc]. apply list_elem_of_fmap in Hc as (b & -> & Hb).
  destruct (member_of g off m Hin Hm) as (s & Hmb). destruct (range_in g off m s b Hmb Hb) as ((R1 & R2 & R3 & R4 & R5) & Hlo & Hhi).
  destruct Hmb as [M1 M2 M3 M4 M5]. destruct (sh_aligned _ _ _ _ M2) as [A1 A2].
  exists (m_base m + b_lb b), (m_base m + b_ub b). unfold range_call. cbn [mc_addr mc_len].
  split_and!; [done|lia|lia|by apply Z.divide_add_r|by apply Z.divide_add_r|]. intros y Hy HT.
  pose proof (pl_size _ _ M3). pose proof (ly_size LY). pose proof (size_pos Ts SIZE l SP).
  destruct (sh_in _ _ _ _ M2) as [S1 S2]. rewrite (mo_size _ _ _ M1) in S2.
  apply (getVirtualBounds_clear Ts SIZE l SP flat FL PAGE_SIZE (m_size m)); try done; [lia|]. apply (ly_reserved LY).
Qed.

(** Memory after the calls for the mappings and the refactored pages. *)
Lemma image_ok `{KN : Kernel} `{!KernelLaws KN} rs mem mem' x v :
  run_calls file (level_calls flat elf_base 0 tags rs ++ level_calls flat elf_base 1 tags rs) mem = Some mem' →
  byte_at flat l x v → (∀ r, r ∈ rs → ¬ covers (refactor_call elf_base r) (real elf_base x)) →
  peek mem' (real elf_base x) = Some v.
Proof.
  intros Hrun Hv Hrs. destruct (call_of_byte x v Hv) as (c & pos & Hc & Hcx & Hpos & Hag). unfold level_calls in Hrun. cbn [Z.eqb] in Hrun.
  apply (run_calls_in file _ _ pos v Hpos) with (m := mem) (2 := Hrun).
  - intros c' Hc' Hcov'. apply Hag; [|done]. rewrite !elem_of_app in Hc'. rewrite elem_of_app.
    destruct Hc' as [[?|Hc']|[?|Hc']]; [by left| |by right|by apply elem_of_nil in Hc'].
    apply list_elem_of_fmap in Hc' as (r & -> & Hr). by destruct (Hrs r Hr).
  - left. exists c. split; [|done]. rewrite !elem_of_app. rewrite elem_of_app in Hc. tauto.
Qed.

End Image.

(** ** The whole path *)

(** The output of the steps before the tables: it keeps the mappings, the fields of the
    configuration are zero, and there is room. *)
Record tables_ready (flat : gmap ptr bytes) (elf_base : Z) (opts : Options) (gs : list (Group * Z)) (rs : list Refactor)
    (config : Z) (o : Output) : Prop := {
  tr_config : 0 <= config ∧ config + sizeof_config <= o.2;
  tr_size : blen o.1 < 2 ^ 32;
  tr_base : INTPTR_MIN <= option_loader_base opts;
  tr_room : o.2 + sizeof_map * Z.of_nat (List.length (level_calls flat elf_base 0 gs rs) +
                                         List.length (level_calls flat elf_base 1 gs rs)) <= blen o.1;
  tr_zero : rd32 o.1 (config + cfg_num_maps 0) = Some 0 ∧ rd32 o.1 (config + cfg_num_maps 1) = Some 0;
  tr_refactors : Forall refactor_fits rs }.

(** The final file: later steps write elsewhere. *)
Record final (o1 o2 o3 : Output) (size config : Z) (file : bytes) : Prop := {
  fi_len : blen file = blen o3.1;
  fi_mappings : agrees o1.1 file size o1.2;
  fi_fields : agrees o3.1 file (config + 64) (config + 80);
  fi_tables : agrees o3.1 file o2.2 o3.2 }.

Lemma optimize_ok Ts SIZE l st1 ms `{K : Key} {KL : KeyLaws K} UNIT : space_ok Ts SIZE l → SIZE = KEY_BITS * UNIT →
  (PAGE_SIZE | SIZE) → Forall (mapping_ok SIZE l) ms →
  ∃ gs0 gs st2, optimizeMappings SIZE PAGE_SIZE ms st1 = Some (gs, st2) ∧ concat gs0 ≡ₚ ms ∧ Forall (group_ok l) gs ∧
    Forall2 (Forall2 (shrunk l PAGE_SIZE)) gs0 gs.
Proof.
  intros SP Hunit Hpage Hms. destruct (groups_ok Ts SIZE l SP UNIT Hunit ms Hms) as (n & En & Hp & Hex).
  destruct (shrink_all_ok Ts SIZE l SP PAGE_SIZE ltac:(done) Hpage _ Hex) as (gs & Es & Hg & Hs).
  unfold optimizeMappings. rewrite En. cbn [mbind option_bind]. rewrite Es. cbn [mbind option_bind].
  by exists (collectMappings n), gs, (u64 (st1 + Z.of_nat (List.length (collectMappings n)))).
Qed.

(** A call maps whole pages of which none is reserved. *)
Definition keeps_clear (l : Iterator) (elf_base : Z) (c : MapCall) : Prop :=
  ∃ lo hi, mc_addr c = real elf_base lo ∧ mc_len c = hi - lo ∧ lo < hi ∧ (PAGE_SIZE | lo) ∧ (PAGE_SIZE | hi) ∧
    ∀ y, y ∈ l → a_T y.2 = None → hi <= a_lb y.2 ∨ a_ub y.2 <= lo.

(** After the calls memory has the trampolines, but for pages that are refactored. *)
Definition has_image (flat : gmap ptr bytes) (l : Iterator) (elf_base : Z) (rs : list Refactor) (file : bytes) (calls : list MapCall) : Prop :=
  ∀ (KN : Kernel) (KNL : KernelLaws KN) mem mem' x v, run_calls file calls mem = Some mem' → byte_at flat l x v →
    (∀ r, r ∈ rs → ¬ covers (refactor_call elf_base r) (real elf_base x)) → peek mem' (real elf_base x) = Some v.

Section Path.
Context (Ts : gmap ptr Trampoline) (SIZE : Z) (l : Iterator) `{K : Key} {KL : KeyLaws K} (UNIT : Z).
Context (flat : gmap ptr bytes) (elf_base : Z) (opts : Options) (data : bytes) (size : Z).

(** The mappings of the address space fit behind the program and can be reached. *)
Record path_input : Prop := {
  pi_space : space_ok Ts SIZE l;
  pi_key : SIZE = KEY_BITS * UNIT;
  pi_flat : flat_ok flat l;
  pi_layout : layout_ok SIZE l elf_base (option_loader_base opts);
  pi_size : 0 <= size ∧ (PAGE_SIZE | size);
  pi_data : blen data < 2 ^ 32 }.

(** The tables for [gs], which are at [offs] in the file, load the image. *)
Definition tables_load (gs : list Group) (offs : list Z) (o1 : Output) : Prop :=
  ∀ rs config o2, tables_ready flat elf_base opts (combine gs offs) rs config o2 →
    ∃ o3, emit_maps opts flat config (combine gs offs) rs o2 = Some o3 ∧
      ∀ file, final o1 o2 o3 size config file →
        level_loads flat elf_base (combine gs offs) rs (at_off file config) 0 ∧
        level_loads flat elf_base (combine gs offs) rs (at_off file config) 1 ∧
        (∀ level c, c ∈ groups_calls flat elf_base level (combine gs offs) → keeps_clear l elf_base c) ∧
        has_image flat l elf_base rs file
          (level_calls flat elf_base 0 (combine gs offs) rs ++ level_calls flat elf_base 1 (combine gs offs) rs).

Lemma path_ok st : path_input →
  ∃ ms st1 gs st2, buildMappings Ts l SIZE st = Some (ms, st1) ∧ optimizeMappings SIZE PAGE_SIZE ms st1 = Some (gs, st2) ∧
    (size + total gs < blen data → ∃ offs o1, emit_mappings flat gs (data, size) = Some (offs, o1) ∧ blen o1.1 = blen data ∧
      tables_load gs offs o1).
Proof.
  intros [SP Hunit FL LY [H0 Hsz] Hlen]. destruct (buildMappings_ok Ts SIZE l SP st) as (ms & st1 & Eb & Hms & Hap & Hcov).
  destruct (optimize_ok Ts SIZE l st1 ms UNIT SP Hunit (ly_page _ _ _ _ LY) Hms) as (gs0 & gs & st2 & Eo & Hperm & Hgs & Hsh).
  exists ms, st1, gs, st2. split; [done|]. split; [done|]. intros Hroom.
  destruct (emit_mappings_ok Ts SIZE l SP flat FL gs Hgs (data, size)) as (offs & o1 & Em & Hl1 & Hp1 & _ & Hholds & Hdiv); cbn [fst snd] in *; [lia|lia|].
  exists offs, o1. split; [done|]. split; [done|]. intros rs config o2 [T1 T2 T3 T4 T5 T6].
  assert (Hpages : Forall (λ g, (PAGE_SIZE | gsize g)) gs).
  { apply Forall_forall. intros g Hg. rewrite Forall_forall in Hgs. destruct (gsize_pos l g (Hgs g Hg)) as [_ Hsize].
    destruct g as [|m g]; [by destruct (gr_ne _ _ (Hgs [] Hg))|]. apply list_elem_of_lookup in Hg as [i Hi].
    destruct (Forall2_lookup_r _ _ _ _ _ Hsh Hi) as (g0 & _ & Hg0). inversion Hg0 as [|s ? ? ? Hs]. apply (sh_aligned _ _ _ _ Hs). }
  pose proof (Hdiv PAGE_SIZE Hsz Hpages) as Hoffd.
  assert (Hoff : ∀ file, agrees o1.1 file size o1.2 → Forall2 (λ g off, holds_group flat l file g off ∧ 0 <= off ∧ off + gsize g < 2 ^ 32 ∧ (PAGE_SIZE | off)) gs offs).
  { intros file Hag. apply Forall2_same_length_lookup_2; [by eapply Forall2_length|]. intros i g off Hg Ho.
    destruct (Forall2_lookup_lr _ _ _ _ _ _ Hholds Hg Ho) as (Hh & Hlo & Hhi). rewrite Forall_forall in Hoffd.
    pose proof (Hoffd off (list_elem_of_lookup_2 _ _ _ Ho)) as Hd. pose proof Hgs as Hgs'. rewrite Forall_forall in Hgs'.
    destruct (gsize_pos l g (Hgs' g (list_elem_of_lookup_2 _ _ _ Hg))) as [_ Hgz].
    split_and!; [|lia|lia|done]. intros m x v Hm Hx Hv. rewrite Hag by (rewrite (Hgz m Hm) in Hx; lia). by apply (Hh m). }
  pose proof (Hoff o1.1 ltac:(done)) as Hoff1.
  assert (Hfit : ∀ g off, (g, off) ∈ combine gs offs → group_fits flat (option_loader_base opts) off g).
  { intros g off. by apply (tags_fit Ts SIZE l SP flat FL elf_base _ LY ms gs0 gs offs o1.1). }
  destruct (emit_maps_ok flat elf_base (option_loader_base opts) config (combine gs offs) rs Hfit T6 (proj1 T1) opts o2 (proj2 T1) T2 T3 eq_refl T4 (proj1 T5) (proj2 T5))
    as (o3 & E3 & Hl3 & Hp3 & _ & Hloads).
  exists o3. split; [done|]. intros file [F1 F2 F3 F4]. destruct (Hloads file) as [L0 L1]; [lia|done|done|]. split; [done|]. split; [done|].
  pose proof (Hoff file F2) as Hoff2. split.
  - intros level c. by apply (calls_keep_clear Ts SIZE l SP flat FL elf_base _ LY ms gs0 gs offs file).
  - intros KN KNL mem mem' x v. by apply (image_ok Ts SIZE l SP flat FL elf_base _ LY ms gs0 gs offs file).
Qed.

End Path.

(** ** Properties *)

(** C3: every trampoline is loaded.  From the allocations of an address space the mappings
    are built and grouped, and the groups flattened into the file; none of these steps fails.
    When the file has room, [emit_maps] writes tables from which [e9load_maps] reads, for both
    levels, calls of mmap that touch no reserved page, and after the calls memory has every
    byte of every trampoline at its run-time address, in spite of the sharing of pages in the
    file. *)
Theorem trampolines_loaded Ts SIZE l `{K : Key} `{!KeyLaws K} UNIT flat elf_base opts data size st :
  path_input Ts SIZE l UNIT flat elf_base opts data size →
  ∃ ms st1 gs st2, buildMappings Ts l SIZE st = Some (ms, st1) ∧ optimizeMappings SIZE PAGE_SIZE ms st1 = Some (gs, st2) ∧
    (size + total gs < blen data → ∃ offs o1, emit_mappings flat gs (data, size) = Some (offs, o1) ∧ blen o1.1 = blen data ∧
      tables_load l flat elf_base opts size gs offs o1).
Proof. intros H. by eapply path_ok. Qed.

(** Two trampolines that share a page of the file, with the program between them, in an
    empty file of three pages whose second has the tables. *)
Definition path_space : Iterator :=
  [(1%positive, MkAlloc 0x10000 0x10004 None (Some 1%positive) 0);
   (2%positive, MkAlloc 0x400000 0x401000 None None 0);
   (3%positive, MkAlloc 0x500040 0x500044 None (Some 1%positive) 0)].
Definition path_templates : gmap ptr Trampoline := {[1%positive := MkTrampoline 5 false []]}.
Definition path_flat : gmap ptr bytes := {[1%positive := [1; 2; 3; 4]; 3%positive := [5; 6; 7; 8]]}.
Definition path_data : bytes := repeat 0 (Z.to_nat 12288).
Definition path_o1 : Output :=
  default ([], 0) ('(ms, st) ← buildMappings path_templates path_space 4096 0;
                   '(gs, _) ← optimizeMappings (K := Key128) 4096 PAGE_SIZE ms st;
                   '(_, o) ← emit_mappings path_flat gs (path_data, 0); Some o).
Definition path_o2 : Output := (path_o1.1, 4096 + 136).
Definition path_base : Z := 0x555555554000.

(** A kernel that never runs out of memory. *)
#[local] Instance total_kernel : Kernel := {
  Mem := Z → option Z;
  peek m a := m a;
  mmap file c m :=
    Some (λ a, if (mc_addr c <=? a) && (a <? mc_addr c + mc_len c) then rd file (mc_offset c + (a - mc_addr c)) else m a) }.

Lemma total_kernel_laws : KernelLaws total_kernel.
Proof.
  split; cbn [mmap peek total_kernel]; intros file c m m' a.
  - intros v [= <-] [H1 H2] Hv. rewrite (proj2 (Z.leb_le _ _) H1), (proj2 (Z.ltb_lt _ _) H2). done.
  - intros [= <-] Hn. unfold covers in Hn. destruct (Z.leb_spec (mc_addr c) a), (Z.ltb_spec a (mc_addr c + mc_len c)); cbn [andb]; done || lia.
Qed.

Lemma path_space_elem y : y ∈ path_space →
  y = (1%positive, MkAlloc 0x10000 0x10004 None (Some 1%positive) 0) ∨ y = (2%positive, MkAlloc 0x400000 0x401000 None None 0) ∨
  y = (3%positive, MkAlloc 0x500040 0x500044 None (Some 1%positive) 0).
Proof. unfold path_space. rewrite !elem_of_cons, elem_of_nil. tauto. Qed.

Lemma path_input_ok : path_input (K := Key128) path_templates 4096 path_space 32 path_flat path_base E9X86.sample_options path_data 0.
Proof.
  split.
  - split.
    + unfold path_space. repeat constructor; unfold before; cbn; lia.
    + intros x [-> |[-> | ->]]%path_space_elem; cbn; lia.
    + intros x [-> |[-> | ->]]%path_space_elem; cbn; lia.
    + intros x T [-> |[-> | ->]]%path_space_elem; cbn; try done; intros [= <-]; by eexists.
    + by exists 12.
  - done.
  - intros x [-> |[-> | ->]]%path_space_elem; cbn; [by eexists|done|by eexists].
  - split; [by exists 1|done| | |].
    + intros x [-> |[-> | ->]]%path_space_elem; cbn; [left|done|left]; unfold rel_ok, path_base; cbn; lia.
    + intros y z _ [-> |[-> | ->]]%path_space_elem _ _ _ Ha; unfold abs_ok, ABS in Ha; cbn in Ha; lia.
    + intros x [-> |[-> | ->]]%path_space_elem; cbn; [done|intros _; split; [by exists 1024|by exists 1025]|done].
  - split; [done|by exists 0].
  - vm_compute. done.
Qed.

Lemma total_kernel_runs file cs : ∀ m : Z → option Z, ∃ m', run_calls (H := total_kernel) file cs m = Some m'.
Proof. induction cs as [|c cs IH]; intros m; cbn [run_calls]; [by eexists|]. cbn [mmap total_kernel mbind option_bind]. apply IH. Qed.

Definition path_o3 : Output :=
  default ([], 0) ('(ms, st) ← buildMappings path_templates path_space 4096 0;
                   '(gs, _) ← optimizeMappings (K := Key128) 4096 PAGE_SIZE ms st;
                   emit_maps E9X86.sample_options path_flat 4096 (combine gs [0]) [] path_o2).

Lemma some_pair_inj {A B} (a a' : A) (b b' : B) : Some (a, b) = Some (a', b') → a = a' ∧ b = b'.
Proof. by intros [= -> ->]. Qed.

Lemma agrees_take data file n : take (Z.to_nat n) file = take (Z.to_nat n) data → agrees data file 0 n.
Proof. intros E i Hi. rewrite <- (rd_take (Z.to_nat n) file), <- (rd_take (Z.to_nat n) data) by lia. by rewrite E. Qed.

Lemma trampolines_loaded_witness : ∃ file calls mem,
  run_calls (H := total_kernel) file calls (λ _, None) = Some mem ∧ mem (path_base + 0x500042) = Some 7.
Proof.
  destruct (trampolines_loaded path_templates 4096 path_space (K := Key128) 32 path_flat path_base E9X86.sample_options path_data 0 0 path_input_ok)
    as (ms & st1 & gs & st2 & Eb & Eo & H).
  vm_compute in Eb. injection Eb as <- <-. vm_compute in Eo. injection Eo as <- <-.
  destruct H as (offs & o1 & Em & _ & Hl); [vm_compute; reflexivity|].
  assert (E1 : o1 = path_o1 ∧ offs = [0]).
  { match type of Em with ?x = _ => assert (Ex : x = Some ([0], path_o1)) by (vm_compute; reflexivity) end.
    destruct (some_pair_inj _ _ _ _ (eq_trans (eq_sym Em) Ex)). by split. }
  destruct E1 as [-> ->].
  destruct (Hl [] 4096 path_o2) as (o3 & E3 & Hf).
  { split; [split; vm_compute; done|vm_compute; done|vm_compute; done|vm_compute; done|split; vm_compute; done|by apply Forall_nil]. }
  assert (E2 : o3 = path_o3).
  { match type of E3 with ?x = _ => assert (Ex : x = Some path_o3) by (vm_compute; reflexivity) end.
    exact (Some_inj _ _ (eq_trans (eq_sym E3) Ex)). }
  destruct (Hf o3.1) as (_ & _ & _ & Himg).
  { rewrite E2. split; [reflexivity| |intros i Hi; reflexivity|intros i Hi; reflexivity]. apply agrees_take. vm_compute. reflexivity. }
  match type of Himg with has_image _ _ _ _ _ ?cs => destruct (total_kernel_runs o3.1 cs (λ _, None)) as [mem Hmem] end.
  eexists o3.1, _, mem. split; [exact Hmem|].
  refine (Himg total_kernel total_kernel_laws (λ _, None) mem 0x500042 7 Hmem _ _); [|intros r Hr; inversion Hr].
  exists (3%positive, MkAlloc 0x500040 0x500044 None (Some 1%positive) 0), [5; 6; 7; 8].
  split; [by apply list_elem_of_further, list_elem_of_further; left|]. split; [by vm_compute|]. split; [cbn; lia|by vm_compute].
Defined.

End ElfImage.
