(* ===== verification/E9ElfTraps.v ===== *)
(** * E9ElfTraps: the table of traps

    The table that src/src/e9patch/e9elf.cpp writes for the traps of tactic B0, against the
    binary search of the signal handler in src/src/e9patch/e9loader_elf.cpp. *)

From stdpp Require Import gmap.
From S2P Require Import Prelude E9Patch E9Alloc E9Tactics E9Elf E9Loader E9ElfSpec E9ElfMaps.

Module ElfTraps.
Import E9 E9Alloc E9Tactics E9Elf E9Loader ElfSpec ElfMaps.

(** ** Reading integers of 64 bits *)

Lemma le_bytes_8 z : le_bytes 8 z = le_bytes 4 z ++ le_bytes 4 (z / 2 ^ 32).
Proof. cbn [le_bytes app]. rewrite !Z.div_div by lia. done. Qed.

Lemma rd64_of_rdn l off z : rdn l off 8 = Some (le_bytes 8 z) → rd64 l off = Some (u64 z).
Proof.
  rewrite le_bytes_8. intros H. pose proof (rdn_sub l off 8 _ 0 4 H ltac:(lia) ltac:(lia) ltac:(lia)) as H0.
  pose proof (rdn_sub l off 8 _ 4 4 H ltac:(lia) ltac:(lia) ltac:(lia)) as H4. rewrite Z.add_0_r in H0.
  assert (Hl : ∀ x, blen (le_bytes 4 x) = 4) by (intros x; unfold blen; by rewrite le_bytes_len).
  assert (E0 : rdn (le_bytes 4 z ++ le_bytes 4 (z / 2 ^ 32)) 0 4 = Some (le_bytes 4 z)).
  { pose proof (rdn_app_mid [] (le_bytes 4 z) (le_bytes 4 (z / 2 ^ 32))) as E. by rewrite !Hl in E. }
  assert (E4 : rdn (le_bytes 4 z ++ le_bytes 4 (z / 2 ^ 32)) 4 4 = Some (le_bytes 4 (z / 2 ^ 32))).
  { pose proof (rdn_app_mid (le_bytes 4 z) (le_bytes 4 (z / 2 ^ 32)) []) as E. by rewrite app_nil_r, !Hl in E. }
  rewrite E0, <- le_bytes_u32 in H0. rewrite E4, <- le_bytes_u32 in H4. unfold rd64.
  assert (Hr : ∀ x, 0 <= u32 x < 2 ^ 32) by (intros x; apply wrapu_range; lia).
  rewrite (rd32_of_rdn _ _ _ H0 (Hr _)), (rd32_of_rdn _ _ _ H4 (Hr _)). cbn [mbind option_bind]. f_equal. unfold wrapu.
  change (2 ^ 64) with (2 ^ 32 * 2 ^ 32). rewrite Z.rem_mul_r by lia. done.
Qed.

Lemma rd32_is_Some l off : 0 <= off → off + 4 <= blen l → is_Some (rd32 l off).
Proof.
  intros H0 H4. unfold rd32, rd16. destruct (rd_is_Some l off) as [a ->]; [lia|]. destruct (rd_is_Some l (off + 1)) as [b ->]; [lia|].
  destruct (rd_is_Some l (off + 2)) as [c ->]; [lia|]. destruct (rd_is_Some l (off + 2 + 1)) as [d ->]; [lia|]. by eexists.
Qed.

Lemma rd64_is_Some l off : 0 <= off → off + 8 <= blen l → is_Some (rd64 l off).
Proof.
  intros H0 H8. unfold rd64. destruct (rd32_is_Some l off) as [a ->]; [lia..|]. destruct (rd32_is_Some l (off + 4)) as [b ->]; [lia..|].
  by eexists.
Qed.

(** ** The table *)

(** The address of the instruction, and of its trampoline. *)
Definition entry_bytes (e : Z * Z) : bytes := le_bytes 8 e.1 ++ le_bytes 8 e.2.

Definition trap_entry (b : Binary Tree) (A : option ptr) : option (Z * Z) :=
  p ← A; n ← heap (B_space b) !! p; j ← a_I (n_alloc n); I ← instr b j;
  Some (i_addr I, a_lb (n_alloc n) + a_entry (n_alloc n)).

Definition traps_at (data : bytes) (off : Z) (ts : list (Z * Z)) : Prop :=
  ∀ i e, ts !! i = Some e → rdn data (off + 16 * Z.of_nat i) 16 = Some (entry_bytes e).

Lemma entry_len e : blen (entry_bytes e) = 16.
Proof. unfold entry_bytes, blen. by rewrite length_app, !le_bytes_len. Qed.

(** One entry is appended and counted. *)
Lemma append_one fld o bs k : 0 <= fld → fld + 4 <= o.2 → o.2 + blen bs <= blen o.1 → rd32 o.1 fld = Some k → 0 <= k < 2 ^ 32 - 1 →
  ∃ o', (o ← put_bytes bs o; inc_field fld o) = Some o' ∧ blen o'.1 = blen o.1 ∧ o'.2 = o.2 + blen bs ∧
    rd32 o'.1 fld = Some (k + 1) ∧ rdn o'.1 o.2 (blen bs) = Some bs ∧
    ∀ i, i < o.2 ∨ o'.2 <= i → ¬ fld <= i < fld + 4 → rd o'.1 i = rd o.1 i.
Proof.
  intros Hf0 Hf Hroom Ek Hk. unfold put_bytes, inc_field. pose proof (blen_nonneg bs).
  destruct (wrn_is_Some o.1 o.2 bs) as [d1 E1]; [lia..|]. rewrite E1. cbn [mbind option_bind fst snd].
  pose proof (wrn_len _ _ _ _ E1) as L1.
  assert (Hk1 : rd32 d1 fld = Some k) by (rewrite <- Ek; unfold rd32, rd16; by rewrite !(rd_wrn_out _ _ _ _ _ E1) by lia).
  rewrite Hk1. cbn [mbind option_bind fst snd].
  destruct (set_field_ok fld (k + 1) (d1, o.2 + blen bs)) as (o' & -> & P & L & Hn & Hkeep); cbn [fst snd] in *; [lia..|].
  exists o'. split_and!; [done|lia|lia|done| |].
  - eapply rdn_keep; [|done|exact (rdn_wrn_same _ _ _ _ E1)]. intros i Hi. apply Hkeep. lia.
  - intros i Hi Hno. rewrite Hkeep by done. apply (rd_wrn_out _ _ _ _ _ E1). lia.
Qed.

Lemma emit_traps_ok b config l : 0 <= config → ∀ ts o k, mapM (trap_entry b) l = Some ts → config + cfg_num_traps + 4 <= o.2 →
  o.2 + 16 * Z.of_nat (List.length ts) <= blen o.1 → rd32 o.1 (config + cfg_num_traps) = Some k → 0 <= k →
  k + Z.of_nat (List.length ts) < 2 ^ 32 →
  ∃ o', emit_traps b config l o = Some o' ∧ blen o'.1 = blen o.1 ∧ o'.2 = o.2 + 16 * Z.of_nat (List.length ts) ∧
    rd32 o'.1 (config + cfg_num_traps) = Some (k + Z.of_nat (List.length ts)) ∧ traps_at o'.1 o.2 ts ∧
    ∀ i, i < o.2 ∨ o'.2 <= i → ¬ config + cfg_num_traps <= i < config + cfg_num_traps + 4 → rd o'.1 i = rd o.1 i.
Proof.
  intros Hc. unfold cfg_num_traps. induction l as [|A l IH]; intros ts o k Ets Hpos Hroom Ek Hk Hlt.
  { injection Ets as <-. exists o. cbn [emit_traps List.length]. split_and!; [done|done|lia|by rewrite Z.add_0_r|done|done]. }
  apply mapM_Some in Ets. inversion Ets as [|A' e l' ts' Ee Hts]; subst. apply mapM_Some in Hts. cbn [List.length] in *.
  unfold trap_entry in Ee. apply bind_Some_iff in Ee as (p & -> & Ee). apply bind_Some_iff in Ee as (n & En & Ee).
  apply bind_Some_iff in Ee as (j & Ej & Ee). apply bind_Some_iff in Ee as (I & EI & [= <-]).
  set (e := (i_addr I, a_lb (n_alloc n) + a_entry (n_alloc n))).
  cbn [emit_traps mbind option_bind]. rewrite En. cbn [mbind option_bind]. rewrite Ej. cbn [mbind option_bind]. rewrite EI. cbn [mbind option_bind].
  destruct (append_one (config + 112) o (entry_bytes e) k) as (o1 & E1 & L1 & P1 & N1 & R1 & K1); [lia|lia|rewrite entry_len; lia|done|lia|].
  rewrite entry_len in *. change (le_bytes 8 (i_addr I) ++ le_bytes 8 (a_lb (n_alloc n) + a_entry (n_alloc n))) with (entry_bytes e). unfold cfg_num_traps.
  apply bind_Some_iff in E1 as (o0 & -> & E1). cbn [mbind option_bind]. rewrite E1. cbn [mbind option_bind].
  destruct (IH ts' o1 (k + 1) Hts) as (o' & -> & L2 & P2 & N2 & R2 & K2); [lia|lia|done|lia|lia|].
  exists o'. split_and!; [done|lia|lia|rewrite N2; f_equal; lia| |].
  - intros [|i] e' He.
    + injection He as <-. rewrite Z.mul_0_r, Z.add_0_r. eapply rdn_keep; [|done|exact R1]. intros i Hi. apply K2; lia.
    + rewrite <- (R2 i e' He). f_equal. lia.
  - intros i Hi Hno. rewrite K2 by lia. apply K1; lia.
Qed.

(** ** The search *)

Section Search.
Context (cfg : bytes) (traps : Z) (ts : list (Z * Z)) (key : Z).
Context (H0 : 0 <= traps) (HT : traps_at cfg traps ts).
Context (HS : ∀ i j e f, ts !! i = Some e → ts !! j = Some f → (i < j)%nat → e.1 < f.1).
Context (HR : ∀ i e, ts !! i = Some e → - 2 ^ 63 <= e.1 < 2 ^ 63).
(** The key is not above all entries. *)
Context (last : nat) (el : Z * Z) (Hel : ts !! last = Some el) (Hkey : key <= el.1).

Lemma entry_read i e : ts !! i = Some e → rd64 cfg (traps + 16 * Z.of_nat i) = Some (u64 e.1) ∧
  rd64 cfg (traps + 16 * Z.of_nat i + 8) = Some (u64 e.2).
Proof.
  intros Hi. pose proof (HT i e Hi) as Hr. assert (H8 : ∀ x, blen (le_bytes 8 x) = 8) by (intros x; unfold blen; by rewrite le_bytes_len).
  pose proof (rdn_app_mid [] (le_bytes 8 e.1) (le_bytes 8 e.2)) as E1. pose proof (rdn_app_mid (le_bytes 8 e.1) (le_bytes 8 e.2) []) as E2.
  rewrite app_nil_r, !H8 in E2. rewrite H8 in E1. split; apply rd64_of_rdn.
  - rewrite <- (Z.add_0_r (traps + _)), (rdn_sub _ _ _ _ _ _ Hr) by lia. exact E1.
  - rewrite (rdn_sub _ _ _ _ _ _ Hr) by lia. exact E2.
Qed.

Lemma trap_search_ok fuel : ∀ lo hi, 0 <= lo → hi <= Z.of_nat (List.length ts) → hi - lo < Z.of_nat fuel →
  (∀ i e, ts !! i = Some e → (Z.of_nat i < lo → e.1 < key) ∧ (hi < Z.of_nat i → key < e.1)) →
  ∃ r, trap_search fuel cfg traps key lo hi = Some r ∧
    ((∃ i e, ts !! i = Some e ∧ e.1 = key ∧ r = Z.of_nat i) ∨ (r = -1 ∧ ∀ i e, ts !! i = Some e → e.1 ≠ key)).
Proof.
  induction fuel as [|fuel IH]; intros lo hi Hlo Hhi Hf Hn; cbn [trap_search]; destruct (Z.leb_spec lo hi) as [Hle|Hgt]; [lia| | |].
  1,3: exists (-1); split; [done|]; right; split; [done|]; intros i e He; destruct (Hn i e He); lia.
  rewrite Z.quot_div_nonneg by lia. set (m := (lo + hi) / 2).
  assert (Hm : lo <= m <= hi) by (unfold m; split; [apply Z.div_le_lower_bound|apply Z.div_le_upper_bound]; lia).
  (* the entry after the table is not reached *)
  assert (Hlen : (last < List.length ts)%nat) by (by eapply lookup_lt_Some).
  assert (Hin : m < Z.of_nat (List.length ts)).
  { destruct (Z.ltb_spec m (Z.of_nat (List.length ts))) as [|Hge]; [done|]. exfalso.
    assert (Hlo' : lo = Z.of_nat (List.length ts)) by (unfold m in *; pose proof (Z.div_mod (lo + hi) 2); pose proof (Z.mod_pos_bound (lo + hi) 2); lia).
    destruct (Hn last el Hel). lia. }
  destruct (lookup_lt_is_Some_2 ts (Z.to_nat m)) as [e He]; [lia|]. destruct (entry_read _ _ He) as [Er _].
  rewrite Z2Nat.id in Er by lia. rewrite Er. cbn [mbind option_bind].
  assert (Hs : s64 (u64 e.1) = e.1).
  { rewrite wraps_wrapu. apply wraps_small; [lia|]. pose proof (HR _ _ He). change (2 ^ (64 - 1)) with (2 ^ 63). lia. }
  rewrite Hs. destruct (Z.ltb_spec key e.1) as [Hk|Hk]; [|destruct (Z.ltb_spec e.1 key) as [Hk'|Hk']].
  - apply IH; [lia..|]. intros i f Hi. destruct (Hn i f Hi) as [G1 G2]. split; [done|]. intros Hmi.
    destruct (decide (i = Z.to_nat m)) as [->|]; [rewrite He in Hi; by injection Hi as <-|].
    pose proof (HS (Z.to_nat m) i e f He Hi ltac:(lia)). lia.
  - apply IH; [lia..|]. intros i f Hi. destruct (Hn i f Hi) as [G1 G2]. split; [|done]. intros Hmi.
    destruct (decide (i = Z.to_nat m)) as [->|]; [rewrite He in Hi; by injection Hi as <-|].
    pose proof (HS i (Z.to_nat m) f e Hi He ltac:(lia)). lia.
  - exists m. split; [done|]. left. exists (Z.to_nat m), e. split; [done|]. lia.
Qed.

End Search.

(** ** From the table to the handler *)

Section Dispatch.
Context (b : Binary Tree) (config base elf_base : Z) (ts : list (Z * Z)).

(** The allocator knows the allocation of each trap; the instructions are in the order of
    their addresses, the last patched first, and before the loader. *)
Record traps_input (o : Output) : Prop := {
  ti_ts : mapM (trap_entry b) (rev (B_Traps b)) = Some ts;
  ti_ne : B_Traps b ≠ [];
  ti_sorted : ∀ i j e f, ts !! i = Some e → ts !! j = Some f → (i < j)%nat → e.1 < f.1;
  ti_range : ∀ i e, ts !! i = Some e → 0 <= e.1 <= base;
  ti_base : 0 <= elf_base ∧ elf_base + base < 2 ^ 63;
  ti_config : 0 <= config ∧ config + sizeof_config <= o.2;
  ti_room : o.2 + 16 * Z.of_nat (List.length ts) <= blen o.1 < 2 ^ 32;
  ti_num : rd32 o.1 (config + cfg_num_traps) = Some 0 }.

(** [file] keeps the table, its fields and the base. *)
Record traps_kept (o o' : Output) (file : bytes) : Prop := {
  tk_len : blen file = blen o'.1;
  tk_base : rd64 file (config + cfg_base) = Some base;
  tk_fields : agrees o'.1 file (config + cfg_num_traps) (config + cfg_traps + 4);
  tk_table : agrees o'.1 file o.2 o'.2 }.

(** Where the handler goes on from an address. *)
Definition dispatches (file : bytes) : Prop :=
  (∀ rip t, (rip, t) ∈ ts →
     trap_trampoline (at_off file config) (elf_base + base) (elf_base + rip) = Some (Some (u64 (elf_base + t)))) ∧
  (∀ rip t rip', (rip, t) ∈ ts → 0 <= rip' <= rip → rip' ∉ ts.*1 →
     trap_trampoline (at_off file config) (elf_base + base) (elf_base + rip') = Some None).

Lemma rd32_at_off l off i : 0 <= off → 0 <= i → rd32 (at_off l off) i = rd32 l (off + i).
Proof. intros. unfold rd32, rd16. rewrite !rd_at_off by lia. by rewrite !Z.add_assoc. Qed.

Lemma rd64_at_off l off i : 0 <= off → 0 <= i → rd64 (at_off l off) i = rd64 l (off + i).
Proof. intros. unfold rd64. rewrite !rd32_at_off by lia. by rewrite !Z.add_assoc. Qed.

(** What the handler reads. *)
Record table_read (cfg : bytes) (traps : Z) : Prop := {
  tr_base : rd64 cfg cfg_base = Some base;
  tr_traps : rd32 cfg cfg_traps = Some traps;
  tr_num : rd32 cfg cfg_num_traps = Some (Z.of_nat (List.length ts));
  tr_pos : sizeof_config <= traps;
  tr_len : traps <= blen cfg;
  tr_table : traps_at cfg traps ts }.

Lemma handler_ok cfg traps o last el key : traps_input o → table_read cfg traps → ts !! last = Some el → 0 <= key <= el.1 →
  ∃ r, trap_trampoline cfg (elf_base + base) (elf_base + key) = Some r ∧
    ((∃ e, e ∈ ts ∧ e.1 = key ∧ r = Some (u64 (elf_base + e.2))) ∨ (r = None ∧ key ∉ ts.*1)).
Proof.
  intros [_ _ I3 I4 I5 _ _ _] [R1 R2 R3 R4 R5 R6] Hel Hkey. unfold trap_trampoline. rewrite R1, R2, R3. cbn [mbind option_bind].
  pose proof (I4 last el Hel) as Hlr. rewrite (wrapu_small 64 (elf_base + base - base)) by lia. replace (elf_base + base - base) with elf_base by lia.
  rewrite (proj2 (Z.leb_le elf_base (elf_base + key))), (proj2 (Z.leb_le (elf_base + key) (elf_base + base))) by lia. cbn [andb].
  replace (elf_base + key - elf_base) with key by lia. rewrite (wraps_small 64 key) by (change (2 ^ (64 - 1)) with (2 ^ 63); lia).
  unfold sizeof_config in R4.
  destruct (trap_search_ok cfg traps ts key R6 I3) with (last := last) (el := el) (fuel := Z.to_nat (Z.of_nat (List.length ts) + 2)) (lo := 0) (hi := Z.of_nat (List.length ts))
    as (r & -> & Hr); [intros i e He; pose proof (I4 i e He); lia|done|lia|lia|lia|lia| |].
  { intros i e He. pose proof (lookup_lt_Some _ _ _ He). lia. }
  cbn [mbind option_bind]. destruct Hr as [(i & e & He & Hk & ->)|[-> Hno]].
  - destruct (entry_read cfg traps ts R6 i e He) as [_ Er]. rewrite Er. cbn [mbind option_bind].
    destruct (Z.ltb_spec (Z.of_nat i) 0); [lia|]. eexists. split; [reflexivity|]. left. exists e.
    split; [by eapply list_elem_of_lookup_2|]. split; [done|]. f_equal. unfold wrapu. by rewrite Z.add_mod_idemp_r by lia.
  - destruct (rd64 cfg (traps + 16 * -1 + 8)) as [t|] eqn:Et.
    + cbn [mbind option_bind]. exists None. split; [done|]. right. split; [done|]. intros (e & -> & He)%list_elem_of_fmap.
      apply list_elem_of_lookup in He as [i He]. by apply (Hno i e He).
    + exfalso. destruct (rd64_is_Some cfg (traps + 16 * -1 + 8)) as [t Et']; [lia|lia|congruence].
Qed.

Lemma dispatch_ok o : traps_input o →
  ∃ o', emit_trap_table b config o = Some o' ∧ blen o'.1 = blen o.1 ∧ ∀ file, traps_kept o o' file → dispatches file.
Proof.
  intros HI. pose proof HI as [I1 I2 _ _ _ [I6 I6'] [I7 I7'] I8]. unfold sizeof_config, cfg_num_traps in *.
  destruct (set_field_ok (config + cfg_traps) (o.2 - config) o) as (o1 & E1 & P1 & L1 & N1 & K1); unfold cfg_traps in *; [lia..|].
  destruct (emit_traps_ok b config (rev (B_Traps b)) I6 ts o1 0 I1) as (o' & E2 & L2 & P2 & N2 & T2 & K2); unfold cfg_num_traps in *; [lia|lia| |lia|lia|].
  { rewrite <- I8. apply rd32_agrees. intros i Hi. apply K1. lia. }
  exists o'. split; [|split; [lia|]].
  { unfold emit_trap_table. destruct (B_Traps b) eqn:EB; [done|]. unfold cfg_traps. rewrite E1. exact E2. }
  intros file [F1 F2 F3 F4]. unfold cfg_num_traps, cfg_traps in *.
  assert (HR : table_read (at_off file config) (o.2 - config)).
  { split; unfold cfg_base, cfg_traps, cfg_num_traps, sizeof_config in *.
    - by rewrite rd64_at_off by lia.
    - rewrite rd32_at_off by lia. rewrite <- N1. transitivity (rd32 o'.1 (config + 116)); apply rd32_agrees; intros i Hi; [apply F3|apply K2]; lia.
    - rewrite rd32_at_off by lia. rewrite Z.add_0_l in N2. rewrite <- N2. apply rd32_agrees. intros i Hi. apply F3. lia.
    - lia.
    - rewrite blen_at_off by lia. lia.
    - intros i e He. pose proof (lookup_lt_Some _ _ _ He). rewrite rdn_at_off by lia. replace (config + (o.2 - config + 16 * Z.of_nat i)) with (o1.2 + 16 * Z.of_nat i) by lia.
      eapply rdn_keep; [|done|exact (T2 i e He)]. intros k Hk. apply F4. lia. }
  split.
  - intros rip t [i Hi]%list_elem_of_lookup. pose proof (ti_range _ HI i _ Hi) as Hr. cbn [fst] in Hr.
    destruct (handler_ok _ _ o i (rip, t) rip HI HR Hi) as (r & -> & [(e & He & Hk & ->)|[_ Hno]]); [cbn; lia| |].
    + apply list_elem_of_lookup in He as [j Hj]. destruct (Nat.lt_total i j) as [Hl|[->|Hl]].
      * pose proof (ti_sorted _ HI _ _ _ _ Hi Hj Hl). cbn in *. lia.
      * rewrite Hi in Hj. by injection Hj as <-.
      * pose proof (ti_sorted _ HI _ _ _ _ Hj Hi Hl). cbn in *. lia.
    + destruct Hno. apply list_elem_of_fmap. exists (rip, t). split; [done|]. by eapply list_elem_of_lookup_2.
  - intros rip t rip' [i Hi]%list_elem_of_lookup Hr Hno.
    destruct (handler_ok _ _ o i (rip, t) rip' HI HR Hi) as (r & -> & [(e & He & Hk & ->)|[-> _]]); [cbn; lia| |done].
    destruct Hno. apply list_elem_of_fmap. by exists e.
Qed.

End Dispatch.
(** ** Property *)

(** C4: the handler finds every trap.  The table of traps is written without a failure, when
    there is room, and whatever of the file outside of the table and its fields is written
    later, the handler that reads it sends an address with a trap to the trampoline of its
    instruction, and sends no address below without a trap anywhere, although the binary
    search may read one entry past the end of the table, and the entry before it. *)
Theorem traps_dispatched b config base elf_base ts o :
  traps_input b config base elf_base ts o →
  ∃ o', emit_trap_table b config o = Some o' ∧ blen o'.1 = blen o.1 ∧
    ∀ file, traps_kept config base o o' file → dispatches config base elf_base ts file.
Proof. apply dispatch_ok. Qed.

(** Two traps; the instruction at the greater address was patched first. *)
Definition trap_instr (addr : Z) : Instr := MkInstr 16 1 0 0 false false false false true false false addr None None.
Definition trap_node (j : iptr) (lb : Z) : Node :=
  MkNode (MkAlloc lb (lb + 16) (Some j) (Some 9%positive) 4) (MkLinks None None None) 0 RB_BLACK 0 0.
Definition trap_binary : Binary Tree :=
  MkBinary 0 MODE_ELF_EXE 0 false [] [] [] 0 [] {[1 := trap_instr 0x1000; 2 := trap_instr 0x1005]} 1 3
    ∅ ∅ ∅ ∅ [] [Some 2%positive; Some 1%positive] ∅
    (MkTree {[1%positive := trap_node 1 0x700000; 2%positive := trap_node 2 0x800000]} None) (MkStats 0 0 0 0 0 0 0).
Definition trap_entries : list (Z * Z) := [(0x1000, 0x700004); (0x1005, 0x800004)].

(** The head of the configuration: its base, and no trap yet. *)
Definition trap_output : Output := (repeat 0 32 ++ le_bytes 8 0x20e9e9000 ++ repeat 0 216, 136).
Definition trap_file : bytes := from_option fst [] (emit_trap_table trap_binary 0 trap_output).

Lemma traps_dispatched_witness :
  traps_input trap_binary 0 0x20e9e9000 0x555555554000 trap_entries trap_output ∧
  (∃ o', emit_trap_table trap_binary 0 trap_output = Some o' ∧ blen o'.1 = blen trap_output.1 ∧
    ∀ file, traps_kept 0 0x20e9e9000 trap_output o' file → dispatches 0 0x20e9e9000 0x555555554000 trap_entries file) ∧
  trap_trampoline trap_file 0x555763f3d000 0x555555555005 = Some (Some 0x555555d54004).
Proof.
  assert (H : traps_input trap_binary 0 0x20e9e9000 0x555555554000 trap_entries trap_output).
  { split.
    - vm_compute. reflexivity.
    - discriminate.
    - intros [|[|i]] [|[|j]] e f He Hf Hij; cbn in He, Hf; try discriminate; try lia.
      apply Some_inj in He as <-. apply Some_inj in Hf as <-. cbn. lia.
    - intros [|[|i]] e He; cbn in He; try discriminate; apply Some_inj in He as <-; cbn; lia.
    - lia.
    - split; [lia|]. vm_compute. discriminate.
    - split; vm_compute; [discriminate|reflexivity].
    - vm_compute. reflexivity. }
  split; [exact H|]. split; [|vm_compute; reflexivity].
  exact (traps_dispatched trap_binary 0 0x20e9e9000 0x555555554000 trap_entries trap_output H).
Defined.

End ElfTraps.
