(* ===== verification/E9CFRSpec.v ===== *)
(** * E9CFRSpec: no direct branch is missed

    What the analysis of src/src/e9patch/e9CFR.cpp promises to the tactics that overwrite
    more than one instruction: the target of every direct branch of the code is in its map. *)

From stdpp Require Import gmap.
From S2P Require Import Prelude E9Patch E9Alloc E9X86 E9Tactics E9Elf E9CFR.

Module CFRSpec.
Import E9 E9X86 E9Elf E9CFR.

(** ** The map *)

Lemma land_pow2 b k : 0 <= k → negb (Z.land b (Z.shiftl 1 k) =? 0) = Z.testbit b k.
Proof.
  intros Hk. rewrite Z.shiftl_1_l. destruct (Z.testbit b k) eqn:E.
  - destruct (Z.eqb_spec (Z.land b (2 ^ k)) 0) as [E0|]; [|done].
    assert (Hb : Z.testbit (Z.land b (2 ^ k)) k = false) by (rewrite E0; apply Z.bits_0).
    rewrite Z.land_spec, E, Z.pow2_bits_true in Hb by lia. done.
  - rewrite (proj2 (Z.eqb_eq _ _)); [done|]. apply Z.bits_inj'. intros i Hi.
    rewrite Z.bits_0, Z.land_spec, Z.pow2_bits_eqb by lia. destruct (Z.eqb_spec k i) as [<-|]; [by rewrite E|apply andb_false_r].
Qed.

Lemma testbit_set b k i : 0 <= k → Z.testbit (Z.lor b (Z.shiftl 1 k)) i = Z.testbit b i || (k =? i).
Proof. intros. by rewrite Z.shiftl_1_l, Z.lor_spec, Z.pow2_bits_eqb by lia. Qed.

Section Map.
Context (size : Z).

Definition marked (t : bytes) (o : Z) : Prop := isTarget t size o = Some true.

(** The map has a bit for each byte of the file. *)
Definition room (t : bytes) : Prop := size <= 8 * blen t.

(** Nothing is unmarked. *)
Definition extends (t t' : bytes) : Prop := blen t' = blen t ∧ ∀ o, marked t o → marked t' o.

#[global] Instance extends_preorder : PreOrder extends.
Proof.
  split; [by split|]. intros t1 t2 t3 [E1 H1] [E2 H2]. split; [congruence|auto].
Qed.

Lemma extends_room t t' : extends t t' → room t → room t'.
Proof. intros [E _]. unfold room. by rewrite E. Qed.

Lemma in_file_spec o : in_file size o = true ↔ 64 <= o < size.
Proof. unfold in_file, sizeof_Ehdr. rewrite andb_true_iff, Z.leb_le, Z.ltb_lt. tauto. Qed.

Lemma marked_bit t o : marked t o ↔ 64 <= o < size ∧ ∃ b, rd t (o / 8) = Some b ∧ Z.testbit b (o mod 8) = true.
Proof.
  unfold marked, isTarget. pose proof (Z.mod_pos_bound o 8 ltac:(lia)) as Hm. pose proof (in_file_spec o) as Hi. destruct (in_file size o); cbn [negb].
  - rewrite bind_Some_iff. split.
    + intros (b & E & [= Hb]). rewrite land_pow2 in Hb by lia. split; [by apply Hi|by exists b].
    + intros (_ & b & E & Hb). exists b. split; [done|]. by rewrite land_pow2 by lia; rewrite Hb.
  - split; [done|]. intros [H _]. by apply Hi in H.
Qed.

Lemma setTarget_ok t o : room t →
  ∃ t', setTarget t size o = Some (in_file size o, t') ∧ blen t' = blen t ∧
    ∀ o', marked t' o' ↔ marked t o' ∨ (in_file size o = true ∧ o' = o).
Proof.
  intros Hr. unfold room in Hr. unfold setTarget. pose proof (Z.mod_pos_bound o 8 ltac:(lia)) as Hm. pose proof (in_file_spec o) as Hi.
  destruct (in_file size o); cbn [negb].
  2: { exists t. split; [done|]. split; [done|]. intros o'. split; [by left|]. by intros [?|[? _]]. }
  pose proof (proj1 Hi eq_refl) as Ho.
  assert (Hrange : 0 <= o / 8 < blen t) by (split; [apply Z.div_pos; lia|apply Z.div_lt_upper_bound; lia]).
  destruct (rd_is_Some _ _ Hrange) as [b Eb]. rewrite Eb. cbn [mbind option_bind].
  destruct (wrn_is_Some t (o / 8) [Z.lor b (Z.shiftl 1 (o mod 8))]) as [t' Ew]; [lia|change (blen [_]) with 1; lia|].
  rewrite Ew. cbn [mbind option_bind]. exists t'. split; [done|]. split; [by eapply wrn_len|].
  assert (Hin : rd t' (o / 8) = Some (Z.lor b (Z.shiftl 1 (o mod 8)))).
  { rewrite (rd_wrn_in _ _ _ _ (o / 8) Ew) by (change (blen [_]) with 1; lia). by rewrite Z.sub_diag. }
  intros o'. rewrite !marked_bit. destruct (Z.eq_dec (o' / 8) (o / 8)) as [E|E].
  - rewrite E, Hin. split.
    + intros (H & b' & [= <-] & Hb). rewrite testbit_set in Hb by lia. apply orb_true_iff in Hb as [Hb|Hb].
      * left. split; [done|]. by exists b.
      * right. split; [done|]. apply Z.eqb_eq in Hb. pose proof (Z.div_mod o 8). pose proof (Z.div_mod o' 8). lia.
    + intros [(H & b' & Eb' & Hb)|[_ ->]].
      * split; [done|]. eexists. split; [done|]. rewrite Eb in Eb'. injection Eb' as ->. rewrite testbit_set by lia. by rewrite Hb.
      * split; [done|]. eexists. split; [done|]. rewrite testbit_set by lia. rewrite Z.eqb_refl. apply orb_true_r.
  - rewrite (rd_wrn_out _ _ _ _ _ Ew) by (change (blen [_]) with 1; lia). split; [by left|].
    intros [H|[_ ->]]; [done|by destruct E].
Qed.

Lemma setTarget_total t o : room t →
  ∃ t', setTarget t size o = Some (in_file size o, t') ∧ extends t t' ∧ (64 <= o < size → marked t' o).
Proof.
  intros Hr. destruct (setTarget_ok t o Hr) as (t' & E & El & H). exists t'. split; [done|]. split.
  - split; [done|]. intros o' Ho'. apply H. by left.
  - intros Ho. apply H. right. split; [by apply in_file_spec|done].
Qed.

(** ** A computation that only marks, and one that also returns *)

Definition marks (t : bytes) (m : option bytes) : Prop := ∀ t', m = Some t' → extends t t'.

Lemma marks_ret t : marks t (Some t).
Proof. by intros t' [= <-]. Qed.

Lemma marks_bind t m f : room t → marks t m → (∀ t', room t' → marks t' (f t')) → marks t (m ≫= f).
Proof.
  intros Hr Hm Hf t' (t1 & E1 & E2)%bind_Some_iff. transitivity t1; [by apply Hm|].
  apply Hf; [|done]. by apply (extends_room t); [apply Hm|].
Qed.

Lemma marks_any {A} t (m : option A) f : (∀ a, marks t (f a)) → marks t (m ≫= f).
Proof. intros Hf t' (a & _ & E)%bind_Some_iff. by apply (Hf a). Qed.

Lemma marks_set t o (f : bool → bytes → option bytes) : room t → (∀ b t', room t' → marks t' (f b t')) →
  marks t ('(b, t) ← setTarget t size o; f b t).
Proof.
  intros Hr Hf. destruct (setTarget_total t o Hr) as (t1 & E & Hx & _). rewrite E. cbn [mbind option_bind].
  intros t' Et'. transitivity t1; [done|]. eapply Hf; [|exact Et']. by apply (extends_room t).
Qed.

Lemma marks_if t (c : bool) x y : marks t x → marks t y → marks t (if c then x else y).
Proof. by destruct c. Qed.

End Map.

(** One step of a proof that a computation only marks. *)
Ltac marks_step :=
  lazymatch goal with
  | |- marks _ _ (Some _) => apply marks_ret
  | |- marks _ _ (if _ then _ else _) => apply marks_if
  | |- marks _ _ (setTarget _ _ _ ≫= _) => apply marks_set; [done|intros ?b ?t ?Hr]
  | |- marks _ _ (rd _ _ ≫= _) => apply marks_any; intros ?v
  | |- marks _ _ (rd16 _ _ ≫= _) => apply marks_any; intros ?v
  | |- marks _ _ (rd32 _ _ ≫= _) => apply marks_any; intros ?v
  | |- marks _ _ (rd64 _ _ ≫= _) => apply marks_any; intros ?v
  end.

Section Marking.
Context (data : bytes) (phs : list Seg) (size : Z).

Definition onlymarks (f : bytes → option bytes) : Prop := ∀ t, room size t → marks size t (f t).

Lemma mark_marks addr : onlymarks (mark phs size addr).
Proof. intros t Hr. unfold mark. repeat marks_step. Qed.

Lemma mark_array_marks n : ∀ off, onlymarks (mark_array n data phs size off).
Proof.
  induction n as [|n IH]; intros off t Hr; cbn [mark_array]; repeat marks_step.
  apply marks_bind; [done|by apply mark_marks|]. intros t' Hr'. by apply IH.
Qed.

Lemma mark_rela_marks n : ∀ off, onlymarks (mark_rela n data phs size off).
Proof.
  induction n as [|n IH]; intros off t Hr; cbn [mark_rela]; repeat marks_step.
  apply marks_bind; [done| |intros t' Hr'; by apply IH]. repeat marks_step. by apply mark_marks.
Qed.

Lemma mark_symbols_marks n : ∀ off, onlymarks (mark_symbols n data phs size off).
Proof.
  induction n as [|n IH]; intros off t Hr; cbn [mark_symbols]; repeat marks_step.
  apply marks_bind; [done| |intros t' Hr'; by apply IH]. repeat marks_step. by apply mark_marks.
Qed.

Lemma mark_hash_marks h st : onlymarks (mark_hash data phs size h st).
Proof.
  intros t Hr. unfold mark_hash. repeat marks_step. apply marks_any. intros m.
  apply marks_any. intros nsyms. by apply mark_symbols_marks.
Qed.

Lemma dynamic_loop_marks fuel : ∀ off d t d' t', room size t →
  dynamic_loop fuel data phs size off d t = Some (d', t') → extends size t t'.
Proof.
  induction fuel as [|fuel IH]; intros off d t d' t' Hr; cbn [dynamic_loop];
    intros (tag & _ & E)%bind_Some_iff; destruct (tag =? 0); simplify_eq; try done.
  apply bind_Some_iff in E as (val & _ & E). apply bind_Some_iff in E as (t1 & E1 & E).
  assert (Hx : extends size t t1).
  { destruct (_ || _); [by eapply mark_marks in E1|by injection E1 as <-]. }
  transitivity t1; [done|]. eapply IH; [|exact E]. by apply (extends_room size t).
Qed.

Lemma unless_null_marks p f : (∀ off, onlymarks (f off)) → onlymarks (unless_null p f).
Proof. intros Hf t Hr. destruct p; [by apply Hf|apply marks_ret]. Qed.

Lemma mark_dynamic_marks pic off : onlymarks (mark_dynamic data phs pic size off).
Proof.
  intros t Hr t' ([d t1] & E & Et')%bind_Some_iff. apply dynamic_loop_marks in E; [|done].
  transitivity t1; [done|]. apply (extends_room size t) in E; [|done]. revert Et'. generalize t'. clear t'.
  change (marks size t1 (targets ← unless_null (t_init_array d) (mark_array (Z.to_nat (t_init_size d)) data phs size) t1;
    targets ← unless_null (t_fini_array d) (mark_array (Z.to_nat (t_fini_size d)) data phs size) targets;
    targets ← (if pic then unless_null (t_rela d) (mark_rela (Z.to_nat (t_rela_size d)) data phs size) targets
               else Some targets);
    match t_hshtab d, t_symtab d with
    | Some h, Some st => mark_hash data phs size h st targets
    | _, _ => Some targets
    end)).
  do 2 (apply marks_bind; [done|apply unless_null_marks; [apply mark_array_marks|done]|intros ? ?]).
  apply marks_bind; [done| |intros ? ?].
  - apply marks_if; [|apply marks_ret]. by apply unless_null_marks; [apply mark_rela_marks|].
  - destruct (t_hshtab d), (t_symtab d); try apply marks_ret. by apply mark_hash_marks.
Qed.

Lemma mark_pointers_marks l : onlymarks (mark_pointers data phs size l).
Proof.
  induction l as [|s l IH]; intros t Hr; cbn [mark_pointers]; [apply marks_ret|].
  apply marks_bind; [done| |done]. apply marks_if; [|apply marks_ret].
  destruct (getBounds _ _ _). by apply mark_array_marks.
Qed.

Lemma mark_table_marks n : ∀ q table, onlymarks (mark_table n data phs size q table).
Proof.
  induction n as [|n IH]; intros q table t Hr; cbn [mark_table]; repeat marks_step. by apply IH.
Qed.

Lemma mark_words_marks n tables : ∀ addr base p, onlymarks (mark_words n data phs size addr base p tables).
Proof.
  induction n as [|n IH]; intros addr base p t Hr; cbn [mark_words]; [apply marks_ret|].
  apply marks_bind; [done| |intros t' Hr'; by apply IH].
  destruct (decide _); [by apply mark_table_marks|apply marks_ret].
Qed.

Lemma mark_tables_marks tables l : onlymarks (mark_tables data phs size tables l).
Proof.
  induction l as [|s l IH]; intros t Hr; cbn [mark_tables]; [apply marks_ret|].
  apply marks_bind; [done| |done]. apply marks_if; [|apply marks_ret].
  destruct (getBounds _ _ _). by apply mark_words_marks.
Qed.

End Marking.

(** ** Direct branches *)

(** At the offset [j] there is a direct branch of [n] bytes, without its prefixes, to the
    offset [t]: [jcc], [jrcxz] or [jmp] with 8 bits, [call] or [jmp] with 32 bits, or [jcc]
    with 32 bits. *)
Inductive branch_at (data : bytes) (j : Z) : Z → Z → Prop :=
| branch_short op d : rd data j = Some op → op = 0xe3 ∨ op = 0xeb ∨ 0x70 <= op <= 0x7f →
    rd data (j + 1) = Some d → branch_at data j 2 (j + 2 + s8 d)
| branch_near op d : rd data j = Some op → op = 0xe8 ∨ op = 0xe9 →
    rd32 data (j + 1) = Some d → branch_at data j 5 (j + 5 + s32 d)
| branch_cond op d : rd data j = Some 0x0f → rd data (j + 1) = Some op → 0x80 <= op <= 0x8f →
    rd32 data (j + 1 + 1) = Some d → branch_at data j 6 (j + 6 + s32 d).

(** The cases of a test of an opcode. *)
Ltac opcode_case :=
  unfold is_jcc8, is_jcc32, between in *;
  repeat match goal with
  | |- context [?x =? ?y] => destruct (Z.eqb_spec x y); [first [lia|done|idtac]|]
  | |- context [?x <=? ?y] => destruct (Z.leb_spec x y); [|first [lia|done]]
  | |- context [?x <? ?y] => destruct (Z.ltb_spec x y); [first [lia|done]|]
  end; cbn [orb andb negb].

Section Scan.
Context (data : bytes) (phs : list Seg) (pic cet : bool) (addr offset end_ : Z).

Abbreviation scan_at := (scan_at data phs pic cet addr offset end_).

Lemma getModRMSize_safe bs size : bytes_ok bs → size <= blen bs → safely (getModRMSize bs size) (λ _, True).
Proof. intros Hb Hs. unfold getModRMSize. repeat ub_step; try done; bool_hyps; lia. Qed.

(** A branch is found. *)
Lemma scan_branch j n t : branch_at data j n t → j + n <= end_ →
  ∃ j' nx, scan_at j = Some (j', Some (MkHit t nx None)) ∧ (rd data j = Some 0xe8 → nx = j + 5).
Proof.
  intros Hb Hn. destruct Hb as [op d Eop Hop Ed|op d Eop Hop Ed|op d E0 Eop Hop Ed];
    unfold E9CFR.scan_at, scan_rel32; rewrite ?Eop, ?E0; cbn [mbind option_bind].
  - destruct (Z.eqb_spec op 0x0f); [lia|].
    assert (Hc : (op =? 0xe8) || (op =? 0xe9) = false) by (rewrite orb_false_iff, !Z.eqb_neq; lia). rewrite Hc.
    assert (Hj : (op =? 0xe3) || (op =? 0xeb) || is_jcc8 op = true).
    { rewrite !orb_true_iff, !Z.eqb_eq. unfold is_jcc8. rewrite between_spec. tauto. }
    rewrite Hj. destruct (Z.ltb_spec end_ (j + 2)); [lia|]. rewrite Ed. cbn [mbind option_bind].
    eexists _, _. split; [done|]. intros [= ->]. lia.
  - destruct (Z.eqb_spec op 0x0f); [lia|].
    assert (Hj : (op =? 0xe8) || (op =? 0xe9) = true) by (rewrite orb_true_iff, !Z.eqb_eq; tauto).
    rewrite Hj. destruct (Z.ltb_spec end_ (j + 5)); [lia|]. rewrite Ed. cbn [mbind option_bind].
    eexists _, _. split; [done|]. by intros [= ->].
  - rewrite Z.eqb_refl. destruct (Z.leb_spec end_ (j + 1)); [lia|]. cbn [mbind option_bind].
    assert (Hj : is_jcc32 op = true) by (by apply between_spec).
    rewrite Hj. destruct (Z.ltb_spec end_ (j + 1 + 5)); [lia|]. rewrite Ed. cbn [mbind option_bind].
    replace (j + 6 + s32 d) with (j + 1 + 5 + s32 d) by lia. eexists _, _. split; [done|]. by intros [=].
Qed.

(** The second byte of a conditional branch is passed over; no branch starts there. *)
Definition passes (j j' : Z) : Prop := j' = j ∨ (j' = j + 1 ∧ ∀ n t, ¬ branch_at data (j + 1) n t).

Lemma scan_passes j j' h : scan_at j = Some (j', h) → passes j j'.
Proof.
  unfold E9CFR.scan_at, scan_rel32, scan_lea, skip, hit.
  intros (op & Eop & E)%bind_Some_iff. revert E.
  destruct (Z.eqb_spec op 0x0f) as [->|].
  - destruct (end_ <=? j + 1); [by intros [= <- _]; left|]. intros (op2 & Eop2 & E)%bind_Some_iff. revert E.
    destruct (is_jcc32 op2) eqn:Ej; [|by intros [= <- _]; left].
    assert (Hp : passes j (j + 1)).
    { right. split; [done|]. apply between_spec in Ej. intros n t Hb. inversion Hb; simplify_eq; lia. }
    destruct (end_ <? _); [by intros [= <- _]|]. intros (? & _ & E)%bind_Some_iff.
    apply bind_Some_iff in E as (? & _ & [= <- _]). done.
  - intros E. left. repeat (case_match; simplify_eq/=; try done);
    repeat (apply bind_Some_iff in E as (? & _ & E)); repeat (case_match; simplify_eq/=; try done);
    repeat (apply bind_Some_iff in E as (? & _ & E)); repeat (case_match; simplify_eq/=; try done);
    repeat (apply bind_Some_iff in E as (? & _ & E)); by simplify_eq/=.
Qed.

Lemma scan_total j : bytes_ok data → 0 <= j < end_ → end_ <= blen data → safely (scan_at j) (λ r, passes j r.1).
Proof.
  intros Hb Hj He. assert (Hs : safely (scan_at j) (λ _, True)).
  { pose proof (blen_at_off data (j + 1) ltac:(lia)) as Hl.
    pose proof (getModRMSize_safe (at_off data (j + 1)) (end_ - (j + 1)) ltac:(auto with e9) ltac:(lia)) as Hm.
    unfold E9CFR.scan_at, scan_rel32, scan_lea, skip, hit.
    repeat first [ub_step|progress bool_hyps
                 |match goal with |- safely (rd32 _ _) _ => ub_call safely_rd32; intros ??
                  | |- safely (getModRMSize _ _) _ => eapply safely_mono; [exact Hm|]; intros ??; cbn beta end]; try done; try lia. }
  destruct (scan_at j) as [[j' h]|] eqn:E; [|done]. by apply scan_passes in E.
Qed.

Section Loop.
Context (size : Z).

(** The branch at [k] is in the map, with its return address. *)
Definition covered (t : bytes) (k : Z) : Prop := ∀ n target, branch_at data k n target → k + n <= end_ →
  (64 <= target < size → marked size t target) ∧
  (rd data k = Some 0xe8 → 64 <= k + 5 < size → marked size t (k + 5)).

Lemma covered_extends t t' k : extends size t t' → covered t k → covered t' k.
Proof. intros [_ Hx] Hc n g Hb Hn. destruct (Hc n g Hb Hn). auto. Qed.

Lemma scan_loop_covers fuel : ∀ j t tables t' tables', room size t →
  scan_loop data phs pic cet addr offset end_ fuel size j t tables = Some (t', tables') →
  extends size t t' ∧ ∀ k, j <= k → covered t' k.
Proof.
  induction fuel as [|fuel IH]; intros j t tables t' tables' Hr; cbn [scan_loop].
  all: destruct (Z.leb_spec end_ j) as [He|He].
  1,3: intros [= <- <-]; split; [done|]; intros k Hk n g Hb; inversion Hb; lia.
  { done. }
  intros ([j' h] & Es & E)%bind_Some_iff. pose proof (scan_passes _ _ _ Es) as Hp.
  assert (Hstep : ∃ t1 tables1, extends size t t1 ∧ covered t1 j ∧
    scan_loop data phs pic cet addr offset end_ fuel size (j' + 1) t1 tables1 = Some (t', tables')).
  { destruct h as [h|].
    - destruct (setTarget_total size t (h_target h) Hr) as (t1 & E1 & Hx1 & Hm1). rewrite E1 in E. cbn [mbind option_bind] in E.
      destruct (setTarget_total size t1 (h_next h)) as (t2 & E2 & Hx2 & Hm2); [by apply (extends_room size t)|].
      rewrite E2 in E. cbn [mbind option_bind] in E. eexists t2, _. split; [by transitivity t1|]. split; [|exact E].
      intros n g Hb Hn. destruct (scan_branch j n g Hb Hn) as (j2 & nx & Es2 & Hnx). rewrite Es in Es2. injection Es2 as -> ->.
      cbn [h_target h_next] in *. split; [intros Hg; by apply Hx2, Hm1|]. intros H8 Hg. rewrite <- (Hnx H8) in Hg |- *. by apply Hm2.
    - exists t, tables. split; [done|]. split; [|exact E]. intros n g Hb Hn.
      destruct (scan_branch j n g Hb Hn) as (j2 & nx & Es2 & _). rewrite Es in Es2. done. }
  destruct Hstep as (t1 & tables1 & Hx & Hc & E1). apply IH in E1 as [Hx1 Hk]; [|by apply (extends_room size t)].
  split; [by transitivity t1|]. intros k Hjk. destruct (Z.eq_dec k j) as [->|]; [by apply (covered_extends t1)|].
  destruct Hp as [->|[-> Hnone]]; [apply Hk; lia|].
  destruct (Z.eq_dec k (j + 1)) as [->|]; [|apply Hk; lia]. intros m g Hb. by destruct (Hnone m g).
Qed.

Lemma scan_loop_total fuel : ∀ j t tables, bytes_ok data → end_ <= blen data → 0 <= j → room size t →
  end_ - j <= Z.of_nat fuel → is_Some (scan_loop data phs pic cet addr offset end_ fuel size j t tables).
Proof.
  induction fuel as [|fuel IH]; intros j t tables Hb Hd Hj Hr Hf; cbn [scan_loop].
  all: destruct (Z.leb_spec end_ j) as [He|He]; [by eexists|].
  { lia. }
  pose proof (scan_total j Hb ltac:(lia) Hd) as Hs. destruct (scan_at j) as [[j' h]|]; [|done]. cbn [safely fst mbind option_bind] in *.
  assert (Hj' : j <= j') by (destruct Hs as [->|[-> _]]; lia).
  destruct h as [h|]; [|apply IH; try done; lia].
  destruct (setTarget_total size t (h_target h) Hr) as (t1 & E1 & Hx1 & _). rewrite E1. cbn [mbind option_bind].
  destruct (setTarget_total size t1 (h_next h)) as (t2 & E2 & Hx2 & _); [by apply (extends_room size t)|].
  rewrite E2. cbn [mbind option_bind]. apply IH; try done; [lia| |lia]. apply (extends_room size t1); [done|]. by apply (extends_room size t).
Qed.

End Loop.
End Scan.

(** ** The whole analysis *)

Section Analysis.
Context (data : bytes) (phs : list Seg) (pic cet hacks : bool) (size : Z).

Definition seg_start (s : Seg) : Z := s64 (p_offset s.1).

Lemma scan_segments_covers l : ∀ t tables t' tables', room size t →
  scan_segments data phs pic cet size l t tables = Some (t', tables') →
  extends size t t' ∧ ∀ s k, s ∈ l → is_load PF_X s = true → seg_start s <= k →
    covered data (seg_end size s.1) size t' k.
Proof.
  induction l as [|s l IH]; intros t tables t' tables' Hr; cbn [scan_segments].
  { intros [= <- <-]. split; [done|]. by intros s k ?%elem_of_nil. }
  intros ([t1 tables1] & E1 & E)%bind_Some_iff.
  assert (H1 : extends size t t1 ∧ (is_load PF_X s = true → ∀ k, seg_start s <= k → covered data (seg_end size s.1) size t1 k)).
  { destruct (is_load PF_X s); [|by injection E1 as <- <-]. apply scan_loop_covers in E1 as [Hx Hk]; [by split|done]. }
  destruct H1 as [Hx1 Hk1]. apply IH in E as [Hx Hk]; [|by apply (extends_room size t)].
  split; [by transitivity t1|]. intros s' k [->|Hin]%elem_of_cons Hl Hs; [|by apply Hk].
  apply (covered_extends _ _ _ t1); [done|]. by apply Hk1.
Qed.

Lemma find_targets_covers entry t : 0 <= size → find_targets data phs pic cet hacks size entry = Some t →
  ∀ s k, s ∈ phs → is_load PF_X s = true → seg_start s <= k → covered data (seg_end size s.1) size t k.
Proof.
  intros Hsize. unfold find_targets. set (t0 := repeat 0 _). assert (Hr : room size t0).
  { unfold room, t0, blen, PAGE_SIZE. rewrite repeat_length. pose proof (Z.div_mod (size + 4096) 8). pose proof (Z.mod_pos_bound (size + 4096) 8). lia. }
  intros ([t1 tables] & E1 & E)%bind_Some_iff. apply scan_segments_covers in E1 as [Hx1 Hc]; [|done].
  assert (Hr1 : room size t1) by by apply (extends_room size t0).
  assert (Hx : extends size t1 t).
  { revert E. generalize t. change (marks size t1 (targets ← mark phs size (s64 entry) t1;
      targets ← match find_dynamic phs with
                | None => Some targets
                | Some ph => mark_dynamic data phs pic size (p_offset ph) targets
                end;
      targets ← (if negb pic || hacks then mark_pointers data phs size phs targets else Some targets);
      mark_tables data phs size tables phs targets)).
    apply marks_bind; [done|by apply mark_marks|]. intros t2 Hr2.
    apply marks_bind; [done| |intros t3 Hr3; apply marks_bind; [done| |intros t4 Hr4; by apply mark_tables_marks]].
    - destruct (find_dynamic phs); [by apply mark_dynamic_marks|apply marks_ret].
    - apply marks_if; [by apply mark_pointers_marks|apply marks_ret]. }
  intros s k Hs Hl Hk. apply (covered_extends _ _ _ t1); [done|]. by apply Hc.
Qed.

(** *** It returns, but for the tables of the dynamic section *)

Context (Hdata : bytes_ok data) (Hlen : size <= blen data) (Hsize : 0 <= size < 2 ^ 63).

Lemma returns_bind t m (f : bytes → option bytes) : room size t → is_Some m → marks size t m →
  (∀ t', room size t' → is_Some (f t')) → is_Some (m ≫= f).
Proof. intros Hr [t' E] Hm Hf. rewrite E. apply Hf. by apply (extends_room size t), Hr; apply Hm. Qed.

Lemma seg_end_bound ph : seg_end size ph <= size.
Proof.
  unfold seg_end. destruct (Z.ltb_spec size (u64 (p_offset ph + p_memsz ph))); [done|].
  pose proof (wrapu_range 64 (p_offset ph + p_memsz ph) ltac:(lia)). by rewrite wraps_small by lia.
Qed.

Lemma getBounds_in T lb ub : 0 < T → 0 <= lb → 0 <= (getBounds T lb ub).1 ∧ (getBounds T lb ub).2 <= ub.
Proof.
  intros HT Hlb. unfold getBounds. pose proof (Z.mod_pos_bound ub T HT). pose proof (Z.mod_pos_bound (lb + T) T HT).
  cbn [fst snd]. destruct (lb mod T =? 0); lia.
Qed.

Lemma mark_total addr t : room size t → is_Some (mark phs size addr t).
Proof.
  intros Hr. unfold mark. destruct (setTarget_total size t (addrToOffset phs addr true) Hr) as (t' & E & _).
  rewrite E. by eexists.
Qed.

Lemma rd_total off : 0 <= off → off + 8 <= size → is_Some (rd64 data off) ∧ is_Some (rd32 data off).
Proof.
  intros H0 H8. pose proof (safely_rd64 data off Hdata H0 ltac:(lia)) as H1. pose proof (safely_rd32 data off Hdata H0 ltac:(lia)) as H2.
  destruct (rd64 data off), (rd32 data off); (done || by split; eexists).
Qed.

Lemma rd32_total off : 0 <= off → off + 4 <= size → is_Some (rd32 data off).
Proof.
  intros H0 H8. pose proof (safely_rd32 data off Hdata H0 ltac:(lia)) as H2. destruct (rd32 data off); [by eexists|done].
Qed.

Lemma mark_array_total n : ∀ off t, 0 <= off → off + 8 * Z.of_nat n <= size → room size t →
  is_Some (mark_array n data phs size off t).
Proof.
  induction n as [|n IH]; intros off t H0 Hn Hr; cbn [mark_array]; [by eexists|].
  destruct (rd_total off) as [[p Ep] _]; [lia|lia|]. rewrite Ep. cbn [mbind option_bind].
  apply (returns_bind t); [done|by apply mark_total|by apply mark_marks|]. intros t' Hr'. apply IH; [lia|lia|done].
Qed.

Lemma mark_table_total n : ∀ q table t, 0 <= q → q + 4 * Z.of_nat n <= size → room size t →
  is_Some (mark_table n data phs size q table t).
Proof.
  induction n as [|n IH]; intros q table t H0 Hn Hr; cbn [mark_table]; [by eexists|].
  destruct (rd32_total q) as [o Eo]; [lia|lia|]. rewrite Eo. cbn [mbind option_bind].
  destruct (setTarget_total size t (addrToOffset phs (s64 (table + s32 o)) true) Hr) as (t' & E & Hx & _).
  rewrite E. cbn [mbind option_bind]. destruct (in_file _ _); [|by eexists]. apply IH; [lia|lia|]. by apply (extends_room size t).
Qed.

Lemma mark_words_total n tables : ∀ addr base p t, 0 <= p → p + 4 * Z.of_nat n <= size → room size t →
  is_Some (mark_words n data phs size addr base p tables t).
Proof.
  induction n as [|n IH]; intros addr base p t H0 Hn Hr; cbn [mark_words]; [by eexists|].
  apply (returns_bind t); [done| | |].
  - destruct (decide _); [apply mark_table_total; (lia || done)|by eexists].
  - destruct (decide _); [by apply mark_table_marks|apply marks_ret].
  - intros t' Hr'. apply IH; [lia|lia|done].
Qed.

(** The segments that are read start inside of the address space of the file. *)
Definition placed (l : list Seg) : Prop := ∀ s, s ∈ l → p_type s.1 = PT_LOAD → 0 <= seg_start s.

Lemma is_load_type f s : is_load f s = true → p_type s.1 = PT_LOAD.
Proof. unfold is_load. intros [H _]%andb_true_iff. by apply Z.eqb_eq. Qed.

Lemma placed_cons s l : placed (s :: l) → placed l ∧ ∀ f, is_load f s = true → 0 <= seg_start s.
Proof.
  intros H. split; [intros s' Hs'; apply H; by right|]. intros f Hf. apply H; [by left|by eapply is_load_type].
Qed.

Lemma words_bound T lb ub : 0 < T → 0 <= lb → ub <= size →
  let '(l, u) := getBounds T lb ub in 0 <= l ∧ (l + T * Z.of_nat (Z.to_nat ((u - l) / T)) <= size ∨ (u - l) / T <= 0).
Proof.
  intros HT Hlb Hub. pose proof (getBounds_in T lb ub HT Hlb) as H. destruct (getBounds T lb ub) as [l u]. cbn [fst snd] in H.
  split; [tauto|]. destruct (Z.le_gt_cases ((u - l) / T) 0) as [|Hpos]; [by right|left].
  rewrite Z2Nat.id by lia. pose proof (Z.mul_div_le (u - l) T HT). lia.
Qed.

Lemma mark_pointers_total l : ∀ t, placed l → room size t → is_Some (mark_pointers data phs size l t).
Proof.
  induction l as [|s l IH]; intros t Hp Hr; cbn [mark_pointers]; [by eexists|].
  destruct (placed_cons _ _ Hp) as [Hl Hs]. apply (returns_bind t); [done| | |auto].
  - destruct (is_load PF_R s) eqn:El; [|by eexists].
    pose proof (words_bound 8 (seg_start s) (seg_end size s.1) ltac:(lia) (Hs _ El) (seg_end_bound _)) as Hw.
    unfold seg_start in Hw. destruct (getBounds _ _ _) as [lb ub]. destruct Hw as [H0 [Hw|Hw]].
    + by apply mark_array_total.
    + replace (Z.to_nat ((ub - lb) / 8)) with O by lia. by eexists.
  - destruct (is_load PF_R s); [|apply marks_ret]. destruct (getBounds _ _ _). by apply mark_array_marks.
Qed.

Lemma mark_tables_total tables l : ∀ t, placed l → room size t → is_Some (mark_tables data phs size tables l t).
Proof.
  induction l as [|s l IH]; intros t Hp Hr; cbn [mark_tables]; [by eexists|].
  destruct (placed_cons _ _ Hp) as [Hl Hs]. apply (returns_bind t); [done| | |auto].
  - destruct (is_load PF_R s) eqn:El; [|by eexists].
    pose proof (words_bound 4 (seg_start s) (seg_end size s.1) ltac:(lia) (Hs _ El) (seg_end_bound _)) as Hw.
    unfold seg_start in Hw. destruct (getBounds _ _ _) as [lb ub]. destruct Hw as [H0 [Hw|Hw]].
    + by apply mark_words_total.
    + replace (Z.to_nat ((ub - lb) / 4)) with O by lia. by eexists.
  - destruct (is_load PF_R s); [|apply marks_ret]. destruct (getBounds _ _ _). by apply mark_words_marks.
Qed.

Lemma scan_segments_total l : ∀ t tables, placed l → room size t →
  is_Some (scan_segments data phs pic cet size l t tables).
Proof.
  induction l as [|s l IH]; intros t tables Hp Hr; cbn [scan_segments]; [by eexists|].
  destruct (placed_cons _ _ Hp) as [Hl Hs]. destruct (is_load PF_X s) eqn:El; [|by apply IH].
  destruct (scan_loop_total data phs pic cet (s64 (p_vaddr s.1)) (seg_start s) (seg_end size s.1) size
    (Z.to_nat (seg_end size s.1 - seg_start s)) (seg_start s) t tables) as [[t1 tables1] E1]; try done.
  - etrans; [apply seg_end_bound|exact Hlen].
  - by apply (Hs PF_X).
  - lia.
  - unfold seg_start in E1. cbn zeta. rewrite E1. cbn [mbind option_bind]. apply IH; [done|].
    apply scan_loop_covers in E1 as [Hx _]; [|done]. by apply (extends_room size t).
Qed.

Lemma find_targets_total entry : placed phs → find_dynamic phs = None →
  is_Some (find_targets data phs pic cet hacks size entry).
Proof.
  intros Hp Hd. unfold find_targets. set (t0 := repeat 0 _). assert (Hr : room size t0).
  { unfold room, t0, blen, PAGE_SIZE. rewrite repeat_length. pose proof (Z.div_mod (size + 4096) 8). pose proof (Z.mod_pos_bound (size + 4096) 8). lia. }
  destruct (scan_segments_total phs t0 ∅ Hp Hr) as [[t1 tables] E1]. rewrite E1. cbn [mbind option_bind].
  apply scan_segments_covers in E1 as [Hx1 _]; [|done]. rewrite Hd.
  assert (Hr1 : room size t1) by by apply (extends_room size t0).
  apply (returns_bind t1); [done|by apply mark_total|by apply mark_marks|]. intros t2 Hr2. cbn [mbind option_bind].
  apply (returns_bind t2); [done| | |intros t3 Hr3; by apply mark_tables_total].
  - destruct (_ || _); [by apply mark_pointers_total|by eexists].
  - apply marks_if; [by apply mark_pointers_marks|apply marks_ret].
Qed.

End Analysis.

(** ** Property *)

(** A program with its headers: read-only code, whose segments lie in the file. *)
Record program {Sp} (info : ElfInfo) (b : E9.Binary Sp) (phs : list Seg) : Prop := {
  pr_mode : B_mode b = MODE_ELF_EXE ∨ B_mode b = MODE_ELF_DSO;
  pr_data : bytes_ok (B_orig b);
  pr_size : B_size b <= blen (B_orig b);
  pr_bound : 0 <= B_size b < 2 ^ 63;
  pr_cet : is_Some (no_cet info b);
  pr_phs : ∃ phoff phnum entry, rd64 (B_bytes b) 32 = Some phoff ∧ rd16 (B_bytes b) 56 = Some phnum ∧
    rd64 (B_bytes b) 24 = Some entry ∧ read_phdrs (B_orig b) phoff (Z.to_nat phnum) = Some phs;
  pr_code : existsb writable_code phs = false;
  pr_placed : placed phs }.

Lemma targetAnalysis_eq {Sp} hacks info (b : E9.Binary Sp) phs : program info b phs →
  ∃ cet entry, targetAnalysis true hacks info b None =
    (t ← find_targets (B_orig b) phs (B_pic b) cet hacks (B_size b) entry; Some (Some t, true)).
Proof.
  intros [Hm _ _ _ [cet Ec] (phoff & phnum & entry & E1 & E2 & E3 & E4) Hc _]. exists cet, entry.
  unfold targetAnalysis. cbn [negb]. destruct Hm as [-> | ->]; rewrite Ec; cbn [mbind option_bind];
    rewrite E1; cbn [mbind option_bind]; rewrite E2; cbn [mbind option_bind]; rewrite E4; cbn [mbind option_bind];
    rewrite Hc, E3; done.
Qed.


(** A call, an instruction, and the function. *)
Definition call_file : bytes :=
  repeat 0 24 ++ le_bytes 8 0x400078 ++ le_bytes 8 64 ++ repeat 0 16 ++ le_bytes 2 1 ++ repeat 0 6 ++
  le_bytes 4 1 ++ le_bytes 4 5 ++ le_bytes 8 0 ++ le_bytes 8 0x400000 ++ le_bytes 8 0 ++
  le_bytes 8 128 ++ le_bytes 8 128 ++ le_bytes 8 4096 ++ [0xe8; 0x01; 0; 0; 0; 0x90; 0xc3; 0xc3].

Definition call_info : ElfInfo := MkElfInfo None None None None None.

Definition call_binary : E9.Binary () :=
  MkBinary 128 MODE_ELF_EXE 0 false call_file call_file [] 0 [] ∅ 1 1 ∅ ∅ ∅ ∅ [] [] ∅ () (MkStats 0 0 0 0 0 0 0).

Definition call_seg : Seg := (MkPhdr 1 0 0x400000 128 128 4096, 5).

Lemma call_program : program call_info call_binary [call_seg].
Proof.
  split; try done.
  - by left.
  - by apply bytes_ok_check.
  - exists 64, 1, 0x400078. split_and!; by vm_compute.
  - intros s ->%list_elem_of_singleton _. by vm_compute.
Qed.


End CFRSpec.
