(* ===== verification/E9Options.v ===== *)
(** * E9Options: the options of the rewriter

    Models the options of src/src/e9patch/e9patch.cpp: the global variables with their
    defaults, the parsing of numbers and booleans, and the loop over the options, which also
    serves the messages of the client.  What getopt_long_only makes of an argument vector is
    a parameter: the options with their arguments, and whether every argument was used. *)

From stdpp Require Import gmap strings.
From S2P Require Import Prelude E9Patch E9Elf.

Module E9Options.
Import E9 E9Elf.

(** ** The global variables *)

(** [enum Option], the short options, and [OPTION_INVALID] for what has no case. *)
Inductive Option_ :=
| OPTION_BATCH | OPTION_DEBUG | OPTION_HELP | OPTION_INPUT | OPTION_LOADER_BASE | OPTION_LOADER_PHDR
| OPTION_LOADER_STATIC | OPTION_LOG | OPTION_MEM_GRANULARITY | OPTION_MEM_LB | OPTION_MEM_MAPPING_SIZE
| OPTION_MEM_MULTI_PAGE | OPTION_MEM_REBASE | OPTION_MEM_UB | OPTION_OCALL | OPTION_OCFR
| OPTION_OCFR_HACKS | OPTION_OEPILOGUE | OPTION_OEPILOGUE_SIZE | OPTION_OORDER | OPTION_OPEEPHOLE
| OPTION_OPROLOGUE | OPTION_OPROLOGUE_SIZE | OPTION_OSCRATCH_STACK | OPTION_OUTPUT | OPTION_TACTIC_B0
| OPTION_TACTIC_B1 | OPTION_TACTIC_B2 | OPTION_TACTIC_T0 | OPTION_TACTIC_T1 | OPTION_TACTIC_T2
| OPTION_TACTIC_T3 | OPTION_TACTIC_BACKWARD_T3 | OPTION_TRAP | OPTION_TRAP_ALL | OPTION_TRAP_ENTRY
| OPTION_VERSION | OPTION_INVALID.

#[export] Instance option_eq_dec : EqDecision Option_.
Proof. solve_decision. Defined.

(** The variables that are not in [Options] or [LoaderOptions]. *)
Record Globals := MkGlobals {
  g_opts : Options; g_loader : LoaderOptions; option_debug : bool; option_log : bool;
  option_OCFR_hacks : bool; option_mem_granularity : Z; option_mem_mapping_size : Z;
  option_mem_rebase : Z; option_trap : gset Z; option_trap_all : bool;
  option_input : string; option_output : string;
  option_loader_base_set : bool; option_loader_phdr_set : bool; option_loader_static_set : bool;
  option_mem_rebase_set : bool }.

(** The initial values. *)
Definition default_options : Options := {|
  option_Ocall := false; option_OCFR := false; option_Oorder := false; option_Oscratch_stack := false;
  option_tactic_B0 := false; option_tactic_B1 := true; option_tactic_B2 := true;
  option_tactic_T0 := true; option_tactic_T1 := true; option_tactic_T2 := true;
  option_tactic_T3 := true; option_tactic_backward_T3 := true;
  option_mem_multi_page := true; option_mem_lb := RELATIVE_ADDRESS_MIN;
  option_mem_ub := RELATIVE_ADDRESS_MAX; option_loader_base := 0x20e9e9000;
  option_batch := false; option_Opeephole := true; option_Oepilogue := 0;
  option_Oepilogue_size := 64; option_Oprologue := 0; option_Oprologue_size := 64 |}.

Definition default_globals : Globals := {|
  g_opts := default_options; g_loader := MkLoaderOptions (-1) false false;
  option_debug := false; option_log := true; option_OCFR_hacks := false;
  option_mem_granularity := 128; option_mem_mapping_size := PAGE_SIZE; option_mem_rebase := 0;
  option_trap := ∅; option_trap_all := false; option_input := "-"; option_output := "-";
  option_loader_base_set := false; option_loader_phdr_set := false; option_loader_static_set := false;
  option_mem_rebase_set := false |}.

(** [v] if the option is [o'], and else the old value. *)
Definition upd {A} (o o' : Option_) (v old : A) : A := if decide (o = o') then v else old.

(** The assignment of a boolean, and of a number, to the variable of an option. *)
Definition set_bool (o : Option_) (v : bool) (g : Globals) : Globals :=
  let p := g_opts g in
  let l := g_loader g in
  MkGlobals
    {| option_Ocall := upd o OPTION_OCALL v (option_Ocall p);
       option_OCFR := upd o OPTION_OCFR v (option_OCFR p);
       option_Oorder := upd o OPTION_OORDER v (option_Oorder p);
       option_Oscratch_stack := upd o OPTION_OSCRATCH_STACK v (option_Oscratch_stack p);
       option_tactic_B0 := upd o OPTION_TACTIC_B0 v (option_tactic_B0 p);
       option_tactic_B1 := upd o OPTION_TACTIC_B1 v (option_tactic_B1 p);
       option_tactic_B2 := upd o OPTION_TACTIC_B2 v (option_tactic_B2 p);
       option_tactic_T0 := upd o OPTION_TACTIC_T0 v (option_tactic_T0 p);
       option_tactic_T1 := upd o OPTION_TACTIC_T1 v (option_tactic_T1 p);
       option_tactic_T2 := upd o OPTION_TACTIC_T2 v (option_tactic_T2 p);
       option_tactic_T3 := upd o OPTION_TACTIC_T3 v (option_tactic_T3 p);
       option_tactic_backward_T3 := upd o OPTION_TACTIC_BACKWARD_T3 v (option_tactic_backward_T3 p);
       option_mem_multi_page := upd o OPTION_MEM_MULTI_PAGE v (option_mem_multi_page p);
       option_mem_lb := option_mem_lb p; option_mem_ub := option_mem_ub p;
       option_loader_base := option_loader_base p;
       option_batch := upd o OPTION_BATCH v (option_batch p);
       option_Opeephole := upd o OPTION_OPEEPHOLE v (option_Opeephole p);
       option_Oepilogue := option_Oepilogue p; option_Oepilogue_size := option_Oepilogue_size p;
       option_Oprologue := option_Oprologue p; option_Oprologue_size := option_Oprologue_size p |}
    (MkLoaderOptions (option_loader_phdr l) (upd o OPTION_LOADER_STATIC v (option_loader_static l))
       (upd o OPTION_TRAP_ENTRY v (option_trap_entry l)))
    (upd o OPTION_DEBUG v (option_debug g)) (upd o OPTION_LOG v (option_log g))
    (upd o OPTION_OCFR_HACKS v (option_OCFR_hacks g)) (option_mem_granularity g)
    (option_mem_mapping_size g) (option_mem_rebase g) (option_trap g)
    (upd o OPTION_TRAP_ALL v (option_trap_all g)) (option_input g) (option_output g)
    (option_loader_base_set g) (option_loader_phdr_set g)
    (upd o OPTION_LOADER_STATIC true (option_loader_static_set g)) (option_mem_rebase_set g).

Definition set_int (o : Option_) (v : Z) (g : Globals) : Globals :=
  let p := g_opts g in
  let l := g_loader g in
  MkGlobals
    {| option_Ocall := option_Ocall p; option_OCFR := option_OCFR p; option_Oorder := option_Oorder p;
       option_Oscratch_stack := option_Oscratch_stack p; option_tactic_B0 := option_tactic_B0 p;
       option_tactic_B1 := option_tactic_B1 p; option_tactic_B2 := option_tactic_B2 p;
       option_tactic_T0 := option_tactic_T0 p; option_tactic_T1 := option_tactic_T1 p;
       option_tactic_T2 := option_tactic_T2 p; option_tactic_T3 := option_tactic_T3 p;
       option_tactic_backward_T3 := option_tactic_backward_T3 p;
       option_mem_multi_page := option_mem_multi_page p;
       option_mem_lb := upd o OPTION_MEM_LB v (option_mem_lb p);
       option_mem_ub := upd o OPTION_MEM_UB v (option_mem_ub p);
       option_loader_base := upd o OPTION_LOADER_BASE v (option_loader_base p);
       option_batch := option_batch p; option_Opeephole := option_Opeephole p;
       option_Oepilogue := upd o OPTION_OEPILOGUE v (option_Oepilogue p);
       option_Oepilogue_size := upd o OPTION_OEPILOGUE_SIZE v (option_Oepilogue_size p);
       option_Oprologue := upd o OPTION_OPROLOGUE v (option_Oprologue p);
       option_Oprologue_size := upd o OPTION_OPROLOGUE_SIZE v (option_Oprologue_size p) |}
    (MkLoaderOptions (upd o OPTION_LOADER_PHDR v (option_loader_phdr l)) (option_loader_static l) (option_trap_entry l))
    (option_debug g) (option_log g) (option_OCFR_hacks g)
    (upd o OPTION_MEM_GRANULARITY v (option_mem_granularity g))
    (upd o OPTION_MEM_MAPPING_SIZE v (option_mem_mapping_size g))
    (upd o OPTION_MEM_REBASE v (option_mem_rebase g))
    (upd o OPTION_TRAP ({[v]} ∪ option_trap g) (option_trap g)) (option_trap_all g)
    (option_input g) (option_output g)
    (upd o OPTION_LOADER_BASE true (option_loader_base_set g))
    (upd o OPTION_LOADER_PHDR true (option_loader_phdr_set g)) (option_loader_static_set g)
    (upd o OPTION_MEM_REBASE true (option_mem_rebase_set g)).

Definition set_file (o : Option_) (v : string) (g : Globals) : Globals :=
  MkGlobals (g_opts g) (g_loader g) (option_debug g) (option_log g) (option_OCFR_hacks g)
    (option_mem_granularity g) (option_mem_mapping_size g) (option_mem_rebase g) (option_trap g)
    (option_trap_all g) (upd o OPTION_INPUT v (option_input g)) (upd o OPTION_OUTPUT v (option_output g))
    (option_loader_base_set g) (option_loader_phdr_set g) (option_loader_static_set g) (option_mem_rebase_set g).

(** ** Arguments *)

(** [strtoul] on a whole string: [None] if it has no digits, something follows them, or the
    number does not fit. *)
Definition isspace (c : Z) : bool := (c =? 32) || between 9 13 c.

Definition digit (c : Z) : Z :=
  if between 48 57 c then c - 48 else if between 97 122 c then c - 87 else if between 65 90 c then c - 55 else 36.

Fixpoint digits (base acc : Z) (s : bytes) : option Z :=
  match s with
  | [] => Some acc
  | c :: s => if digit c <? base then digits base (acc * base + digit c) s else None
  end.

Fixpoint drop_space (s : bytes) : bytes :=
  match s with c :: s' => if isspace c then drop_space s' else s | [] => [] end.

Definition strtoul (s : bytes) (base : Z) : option Z :=
  let s := drop_space s in
  let '(neg, s) := match s with 45 :: s => (true, s) | 43 :: s => (false, s) | _ => (false, s) end in
  let s := match s with
           | 48 :: x :: d :: s' =>
               if (base =? 16) && ((x =? 120) || (x =? 88)) && (digit d <? 16) then d :: s' else s
           | _ => s
           end in
  match s with
  | [] => None
  | _ =>
      v ← digits base 0 s;
      if v <? 2 ^ 64 then Some (if (neg : bool) then u64 (- v) else v) else None
  end.

Definition parseIntOptArg (optarg : string) (lb ub : Z) : option Z :=
  let s := bytes_of_string optarg in
  let '(neg, s) := match s with 45 :: s => (true, s) | _ => (false, s) end in
  let base := match s with 48 :: 120 :: _ => 16 | _ => 10 end in
  v ← strtoul s base;
  let r := s64 v in
  let r := if (neg : bool) then s64 (- r) else r in
  if (r <? lb) || (ub <? r) then None else Some r.

Definition parseBoolOptArg (optarg : option string) : option bool :=
  match optarg with
  | None => Some true
  | Some s =>
      if String.eqb s "true" || String.eqb s "1" then Some true
      else if String.eqb s "false" || String.eqb s "0" then Some false
      else None
  end.

Definition OPTION_REBASE_NONE : Z := 0x0.
Definition OPTION_REBASE_AUTO : Z := -1.
Definition OPTION_REBASE_RANDOM : Z := -2.

Definition parse_phdr_name (s : string) : option Z :=
  if String.eqb s "any" then Some (-1)
  else if String.eqb s "relro" then Some PT_GNU_RELRO
  else if String.eqb s "stack" then Some PT_GNU_STACK
  else if String.eqb s "note" then Some PT_NOTE
  else None.

(** ** The loop over the options *)

(** The two switches; [None]: the program ends. *)
Definition parse_option (api : bool) (opt : Option_) (optarg : option string) (g : Globals) : option Globals :=
  match opt with
  | OPTION_HELP | OPTION_VERSION | OPTION_INVALID => None
  | OPTION_INPUT | OPTION_OUTPUT => if api then None else s ← optarg; Some (set_file opt s g)
  | OPTION_OEPILOGUE | OPTION_OPROLOGUE => s ← optarg; v ← parseIntOptArg s 0 64; Some (set_int opt v g)
  | OPTION_OEPILOGUE_SIZE | OPTION_OPROLOGUE_SIZE =>
      s ← optarg; v ← parseIntOptArg s 0 512; Some (set_int opt v g)
  | OPTION_TRAP => s ← optarg; v ← parseIntOptArg s 0 INTPTR_MAX; Some (set_int opt v g)
  | OPTION_LOADER_BASE =>
      s ← optarg; v ← parseIntOptArg s 0 0x800000000;
      if negb (v mod PAGE_SIZE =? 0) then None else Some (set_int opt v g)
  | OPTION_LOADER_PHDR => s ← optarg; v ← parse_phdr_name s; Some (set_int opt v g)
  | OPTION_MEM_GRANULARITY =>
      s ← optarg; v ← parseIntOptArg s INTPTR_MIN INTPTR_MAX;
      if (v =? 128) || (v =? 4096) then Some (set_int opt v g) else None
  | OPTION_MEM_LB | OPTION_MEM_UB =>
      s ← optarg; v ← parseIntOptArg s RELATIVE_ADDRESS_MIN RELATIVE_ADDRESS_MAX; Some (set_int opt v g)
  | OPTION_MEM_MAPPING_SIZE =>
      s ← optarg; v ← parseIntOptArg s INTPTR_MIN INTPTR_MAX;
      let v := u64 v in
      if negb (v mod PAGE_SIZE =? 0) then None
      else if negb (Z.land v (u64 (v - 1)) =? 0) then None
      else Some (set_int opt v g)
  | OPTION_MEM_REBASE =>
      s ← optarg;
      v ← (if String.eqb s "auto" then Some OPTION_REBASE_AUTO
           else if String.eqb s "random" then Some OPTION_REBASE_RANDOM
           else if String.eqb s "none" then Some OPTION_REBASE_NONE
           else parseIntOptArg s 0x100000000 0xffff00000000);
      Some (set_int opt v g)
  | _ => v ← parseBoolOptArg optarg; Some (set_bool opt v g)
  end.

Fixpoint parse_list (api : bool) (l : list (Option_ * option string)) (g : Globals) : option Globals :=
  match l with
  | [] => Some g
  | (opt, optarg) :: l => g ← parse_option api opt optarg g; parse_list api l g
  end.

Section Parse.
(** [getopt_long_only]: the options, and whether there are no other arguments. *)
Context (getopt_long_only : list string → list (Option_ * option string) * bool).

Definition parseOptions (argv : list string) (api : bool) (g : Globals) : option Globals :=
  g ← parse_list api (getopt_long_only argv).1 g;
  if (getopt_long_only argv).2 then Some g else None.

End Parse.

(** ** The options stay in their ranges *)

Record options_ok (g : Globals) : Prop := {
  ok_epilogue : 0 <= option_Oepilogue (g_opts g) <= 64 ∧ 0 <= option_Oepilogue_size (g_opts g) <= 512;
  ok_prologue : 0 <= option_Oprologue (g_opts g) <= 64 ∧ 0 <= option_Oprologue_size (g_opts g) <= 512;
  ok_mem : RELATIVE_ADDRESS_MIN <= option_mem_lb (g_opts g) <= RELATIVE_ADDRESS_MAX ∧
           RELATIVE_ADDRESS_MIN <= option_mem_ub (g_opts g) <= RELATIVE_ADDRESS_MAX;
  ok_base : 0 <= option_loader_base (g_opts g) <= 0x800000000 ∧ (PAGE_SIZE | option_loader_base (g_opts g));
  ok_granularity : option_mem_granularity g = 128 ∨ option_mem_granularity g = 4096;
  ok_mapping : option_mem_mapping_size g = 0 ∨
    ∃ n, 12 <= n < 64 ∧ option_mem_mapping_size g = 2 ^ n;
  ok_phdr : option_loader_phdr (g_loader g) ∈ [-1; PT_GNU_RELRO; PT_GNU_STACK; PT_NOTE] }.

Lemma parseInt_range s lb ub v : parseIntOptArg s lb ub = Some v → lb <= v <= ub.
Proof.
  unfold parseIntOptArg. destruct (match bytes_of_string s with 45 :: s => (true, s) | _ => _ end) as [neg s'].
  intros (r & _ & E)%bind_Some_iff. revert E. case_match eqn:Ec; [done|]. intros [= <-].
  apply orb_false_iff in Ec as [?%Z.ltb_ge ?%Z.ltb_ge]. lia.
Qed.

Lemma pow2_of_land v : 0 < v < 2 ^ 64 → v mod PAGE_SIZE = 0 → Z.land v (u64 (v - 1)) = 0 →
  ∃ n, 12 <= n < 64 ∧ v = 2 ^ n.
Proof.
  intros Hv Hp Hl. rewrite wrapu_small in Hl by lia. exists (Z.log2 v).
  pose proof (Z.log2_spec v ltac:(lia)) as [H1 H2]. unfold PAGE_SIZE in Hp.
  assert (H12 : 12 <= Z.log2 v).
  { apply Z.log2_le_pow2; [lia|]. change (2 ^ 12) with 4096. pose proof (Z.div_mod v 4096). lia. }
  split; [split; [done|]; apply Z.log2_lt_pow2; lia|]. destruct (Z.eq_dec v (2 ^ Z.log2 v)) as [|Hne]; [done|].
  assert (Hb : Z.testbit (Z.land v (v - 1)) (Z.log2 v) = true).
  { rewrite Z.land_spec, Z.bit_log2 by lia. replace (Z.log2 v) with (Z.log2 (v - 1)); [apply Z.bit_log2; lia|].
    apply Z.log2_unique; [lia|]. rewrite <- Z.add_1_r in H2 |- *. lia. }
  by rewrite Hl, Z.bits_0 in Hb.
Qed.

Lemma upd_cases {A} (o o' : Option_) (v old : A) (P : A → Prop) : P old → (o = o' → P v) → P (upd o o' v old).
Proof. intros. unfold upd. destruct (decide (o = o')); auto. Qed.

Lemma set_bool_ok o v g : options_ok g → options_ok (set_bool o v g).
Proof. intros []. by split. Qed.

Lemma set_file_ok o v g : options_ok g → options_ok (set_file o v g).
Proof. intros []. by split. Qed.

(** The ranges of the numbers. *)
Definition int_ok (o : Option_) (v : Z) : Prop :=
  match o with
  | OPTION_OEPILOGUE | OPTION_OPROLOGUE => 0 <= v <= 64
  | OPTION_OEPILOGUE_SIZE | OPTION_OPROLOGUE_SIZE => 0 <= v <= 512
  | OPTION_LOADER_BASE => 0 <= v <= 0x800000000 ∧ (PAGE_SIZE | v)
  | OPTION_LOADER_PHDR => v ∈ [-1; PT_GNU_RELRO; PT_GNU_STACK; PT_NOTE]
  | OPTION_MEM_GRANULARITY => v = 128 ∨ v = 4096
  | OPTION_MEM_LB | OPTION_MEM_UB => RELATIVE_ADDRESS_MIN <= v <= RELATIVE_ADDRESS_MAX
  | OPTION_MEM_MAPPING_SIZE => v = 0 ∨ ∃ n, 12 <= n < 64 ∧ v = 2 ^ n
  | _ => True
  end.

Lemma set_int_ok o v g : int_ok o v → options_ok g → options_ok (set_int o v g).
Proof.
  intros Hv [H1 H2 H3 H4 H5 H6 H7].
  assert (Hu : ∀ o' old, int_ok o' old → int_ok o' (upd o o' v old)).
  { intros o' old Ho. apply upd_cases; [done|]. by intros <-. }
  split; cbn [set_int g_opts g_loader option_Oepilogue option_Oepilogue_size option_Oprologue
    option_Oprologue_size option_mem_lb option_mem_ub option_loader_base option_mem_granularity
    option_mem_mapping_size option_loader_phdr].
  - exact (conj (Hu OPTION_OEPILOGUE _ (proj1 H1)) (Hu OPTION_OEPILOGUE_SIZE _ (proj2 H1))).
  - exact (conj (Hu OPTION_OPROLOGUE _ (proj1 H2)) (Hu OPTION_OPROLOGUE_SIZE _ (proj2 H2))).
  - exact (conj (Hu OPTION_MEM_LB _ (proj1 H3)) (Hu OPTION_MEM_UB _ (proj2 H3))).
  - exact (Hu OPTION_LOADER_BASE _ H4).
  - exact (Hu OPTION_MEM_GRANULARITY _ H5).
  - exact (Hu OPTION_MEM_MAPPING_SIZE _ H6).
  - exact (Hu OPTION_LOADER_PHDR _ H7).
Qed.

Lemma parse_phdr_name_ok s v : parse_phdr_name s = Some v → v ∈ [-1; PT_GNU_RELRO; PT_GNU_STACK; PT_NOTE].
Proof. unfold parse_phdr_name. repeat case_match; intros [= <-]; set_solver. Qed.

Lemma parse_option_ok api o a g g' : parse_option api o a g = Some g' → options_ok g → options_ok g'.
Proof.
  intros E Hg. destruct o; cbn [parse_option] in E; try done;
    try (destruct api; [done|]);
    first [apply bind_Some_iff in E as (s & _ & [= <-]); solve [by apply set_bool_ok|by apply set_file_ok]|idtac];
    apply bind_Some_iff in E as (s & _ & E); apply bind_Some_iff in E as (v & Ev & E).
  all: try (apply parseInt_range in Ev); try (injection E as <-; by apply set_int_ok).
  - destruct (Z.eqb_spec (v mod PAGE_SIZE) 0) as [Hm|]; [|done]. injection E as <-. apply set_int_ok; [|done].
    split; [exact Ev|]. apply Z.mod_divide; [done|exact Hm].
  - injection E as <-. apply set_int_ok; [|done]. by eapply parse_phdr_name_ok.
  - destruct ((v =? 128) || (v =? 4096)) eqn:Ev'; [|done]. injection E as <-. apply set_int_ok; [|done].
    apply orb_true_iff in Ev' as [?%Z.eqb_eq|?%Z.eqb_eq]; [by left|by right].
  - destruct (Z.eqb_spec (u64 v mod PAGE_SIZE) 0) as [Hm|]; [|done].
    destruct (Z.eqb_spec (Z.land (u64 v) (u64 (u64 v - 1))) 0) as [Hl|]; [|done]. injection E as <-. apply set_int_ok; [|done].
    pose proof (wrapu_range 64 v ltac:(lia)) as Hr. destruct (Z.eq_dec (u64 v) 0) as [|Hne]; [by left|right].
    apply pow2_of_land; [lia|done|done].
Qed.

Lemma parse_list_ok api l : ∀ g g', parse_list api l g = Some g' → options_ok g → options_ok g'.
Proof.
  induction l as [|[o a] l IH]; intros g g'; cbn [parse_list]; [by intros [= <-]|].
  intros (g1 & E1 & E)%bind_Some_iff Hg. eapply IH; [exact E|]. by eapply parse_option_ok.
Qed.

Lemma default_ok : options_ok default_globals.
Proof.
  split; cbn; unfold RELATIVE_ADDRESS_MIN, RELATIVE_ADDRESS_MAX, PAGE_SIZE; try lia.
  - split; [lia|]. by exists 0x20e9e9.
  - right. by exists 12.
  - set_solver.
Qed.

End E9Options.
