(* ===== verification/E9Api.v ===== *)
(** * E9Api: the messages of the client

    Models src/src/e9patch/e9api.cpp: the messages that describe the instructions, reserve
    addresses, name templates, queue patches and ask for the output; the queue, which delays
    a patch until every instruction that it may change is known; and the composition of all
    passes that produces the patched file.  A message comes with the templates and metadata
    that the JSON parser allocated for it; files and the comparison of paths are parameters. *)

From stdpp Require Import gmap strings.
From S2P Require Import Prelude E9Patch E9Alloc E9AllocTree E9AllocSpec E9AllocIter E9AllocApi E9X86.
From S2P Require Import E9Tactics E9Optimize E9Trampoline E9Mapping E9Misc E9Elf E9CFR E9Options.

Module E9Api.
Import E9 E9Alloc AllocTree AllocSpec AllocApi E9X86 E9Tactics E9Optimize E9Trampoline E9Elf E9CFR E9Options.

Definition option_to_list {A} (o : option A) : list A := match o with Some a => [a] | None => [] end.

(** ** The state *)

(** A [Binary] with its other fields, the global variables, and two of the statistics. *)
Record Session (S : Type) := MkSession {
  s_B : E9.Binary S; s_g : Globals; s_filename : string; s_output : option string;
  s_info : ElfInfo; s_targets : option bytes; s_preinits : list ptr; s_postinits : list ptr;
  s_inits : list Z; s_finis : list Z; s_mmap : Z; s_patched : Z; s_failed : Z }.
Arguments MkSession {S}.
Arguments s_B {S}. Arguments s_g {S}. Arguments s_filename {S}. Arguments s_output {S}. Arguments s_info {S}.
Arguments s_targets {S}. Arguments s_preinits {S}. Arguments s_postinits {S}. Arguments s_inits {S}.
Arguments s_finis {S}. Arguments s_mmap {S}. Arguments s_patched {S}. Arguments s_failed {S}.

Definition with_B {S} (b : E9.Binary S) (s : Session S) : Session S :=
  MkSession b (s_g s) (s_filename s) (s_output s) (s_info s) (s_targets s) (s_preinits s) (s_postinits s)
    (s_inits s) (s_finis s) (s_mmap s) (s_patched s) (s_failed s).

Definition with_options {S} (b : E9.Binary S) (g : Globals) (t : option bytes) (s : Session S) : Session S :=
  MkSession b g (s_filename s) (s_output s) (s_info s) t (s_preinits s) (s_postinits s)
    (s_inits s) (s_finis s) (s_mmap s) (s_patched s) (s_failed s).

(** [stat_num_patched++], [stat_num_failed++] *)
Definition tally {S} (ok : bool) (s : Session S) : Session S :=
  MkSession (s_B s) (s_g s) (s_filename s) (s_output s) (s_info s) (s_targets s) (s_preinits s) (s_postinits s)
    (s_inits s) (s_finis s) (s_mmap s) (s_patched s + bool_to_Z ok) (s_failed s + bool_to_Z (negb ok)).

Definition set_OCFR (v : bool) (g : Globals) : Globals :=
  set_bool OPTION_OCFR v g.

(** [stat_num_T0++] *)
Definition count_T0 {S} (b : E9.Binary S) : E9.Binary S :=
  let t := B_stats b in
  set_B_stats (MkStats (num_B0 t) (num_B1 t) (num_B2 t) (num_T0 t + 1) (num_T1 t) (num_T2 t) (num_T3 t)) b.

(** ** The queue *)

Section Queue.
Context `{W : Window} {S : Type} {TR : Options → Trampolines (E9.Binary S)}
  {VS : ∀ o, @VirtualSpace W (E9.Binary S) (TR o) S}.
Context (getopt_long_only : list string → list (Option_ * option string) * bool) (evicteeTrampoline : ptr).
Implicit Types (s : Session S) (b : E9.Binary S) (I : Instr).

(** [targetAnalysis(B)] *)
Definition analyse s : option (Session S) :=
  '(t, OCFR) ← targetAnalysis (option_OCFR (g_opts (s_g s))) (option_OCFR_hacks (s_g s)) (s_info s) (s_B s) (s_targets s);
  Some (with_options (s_B s) (set_OCFR OCFR (s_g s)) t s).

(** [parseOptions(B, argv)] *)
Definition parseOptions_argv (argv : list string) s : option (Session S) :=
  g ← parseOptions getopt_long_only argv true (s_g s);
  let b := match B_mode (s_B s) with
           | MODE_ELF_EXE | MODE_ELF_DSO => set_B_config (option_loader_base (g_opts g)) (s_B s)
           | _ => s_B s
           end in
  analyse (with_options b g (s_targets s) s).

(** The loops over the states of an instruction: each must be [from] and becomes [to]. *)
Fixpoint change_states (n : nat) I (i from to : Z) b : option (E9.Binary S) :=
  match n with
  | O => Some b
  | Datatypes.S n =>
      st ← STATE b I i; _ ← assert_ (st =? from);
      b ← set_STATE I i to b; change_states n I (i + 1) from to b
  end.

(** One entry of the queue. *)
Definition flush_entry (e : PatchEntry) s : option (Session S) :=
  match e with
  | PatchOptions argv => parseOptions_argv argv s
  | PatchInstr j T =>
      let b := s_B s in
      let opts := g_opts (s_g s) in
      I ← instr b j; st ← STATE b I 0;
      if st =? STATE_QUEUED then
        b ← change_states (Z.to_nat (i_size I)) I 0 STATE_QUEUED STATE_INSTRUCTION b;
        b ← upd_instr (set_i_debug (option_trap_all (s_g s) || bool_decide (i_addr I ∈ option_trap (s_g s)))) j b;
        '(ok, b) ← patch (TR := TR opts) (VS := VS opts) opts evicteeTrampoline j T b;
        Some (tally ok (with_B b s))
      else Some (tally true (with_B (count_T0 b) s))
  end.

(** The distance from the cursor within which entries stay in the queue. *)
Definition flush_distance : Z := Z.max (T0_LIMIT * 15) (INT8_MAX + 2 + 15) + 32.

(** The loop; [rq] is the queue from its back. *)
Fixpoint flush_loop (cursor : Z) (rq : list PatchEntry) s : option (Session S) :=
  match rq with
  | [] => Some s
  | e :: rq =>
      pop ← match e with
            | PatchOptions _ => Some true
            | PatchInstr j _ => I ← instr (s_B s) j; Some (cursor <? i_addr I)
            end;
      if (pop : bool) then
        s ← flush_entry e s;
        flush_loop cursor rq (with_B (set_B_Q (rev rq) (s_B s)) s)
      else Some s
  end.

Definition queueFlush (cursor : Z) s : option (Session S) :=
  if B_cursor (s_B s) <=? cursor then None
  else
    let s := with_B (set_B_cursor cursor (s_B s)) s in
    flush_loop (s64 (cursor + flush_distance)) (rev (B_Q (s_B s))) s.

Definition queuePatch j (T : option ptr) s : option (Session S) :=
  I ← instr (s_B s) j;
  b ← change_states (Z.to_nat (i_size I)) I 0 STATE_INSTRUCTION STATE_QUEUED (s_B s);
  let s := with_B (set_B_Q (PatchInstr j T :: B_Q b) b) s in
  if negb (option_batch (g_opts (s_g s))) then queueFlush (i_addr I) s else Some s.

(** ** Messages *)

(** [enum Format] *)
Inductive Format := FORMAT_BINARY | FORMAT_PATCH | FORMAT_PATCH_GZ | FORMAT_PATCH_BZIP2 | FORMAT_PATCH_XZ.

(** [struct Param]: the name says which member of the union is there. *)
Inductive Param :=
| PARAM_ABSOLUTE (v : bool) | PARAM_ADDRESS (v : Z) | PARAM_ARGV (v : list string) | PARAM_BYTES (v : ptr)
| PARAM_FILENAME (v : string) | PARAM_FINI (v : Z) | PARAM_FORMAT (v : Format) | PARAM_INIT (v : Z)
| PARAM_LENGTH (v : Z) | PARAM_METADATA (v : ptr) | PARAM_MMAP (v : Z) | PARAM_MODE (v : Mode)
| PARAM_NAME (v : string) | PARAM_OFFSET (v : Z) | PARAM_POSTINIT (v : ptr) | PARAM_PREINIT (v : ptr)
| PARAM_PROTECTION (v : Z) | PARAM_TEMPLATE (v : ptr) | PARAM_TRAMPOLINE (v : ptr) | PARAM_VERSION (v : string).

(** [enum Method] *)
Inductive Method :=
| METHOD_UNKNOWN | METHOD_BINARY | METHOD_EMIT | METHOD_INSTRUCTION | METHOD_OPTIONS | METHOD_PATCH
| METHOD_RESERVE | METHOD_TRAMPOLINE.

(** [struct Message], with what the parser allocated for it. *)
Record Message := MkMessage {
  m_method : Method; m_params : list Param; m_templates : gmap ptr Trampoline; m_metas : gmap ptr Metadata }.

(** The loops over the parameters: the last value of a parameter, and whether one of them
    was there twice. *)
Definition get {A} (f : Param → option A) (ps : list Param) : option A := last (omap f ps).
Definition dup {A} (f : Param → option A) (ps : list Param) : bool := Nat.ltb 1 (List.length (omap f ps)).

Definition p_absolute (p : Param) := match p with PARAM_ABSOLUTE v => Some v | _ => None end.
Definition p_address (p : Param) := match p with PARAM_ADDRESS v => Some v | _ => None end.
Definition p_argv (p : Param) := match p with PARAM_ARGV v => Some v | _ => None end.
Definition p_bytes (p : Param) := match p with PARAM_BYTES v => Some v | _ => None end.
Definition p_filename (p : Param) := match p with PARAM_FILENAME v => Some v | _ => None end.
Definition p_fini (p : Param) := match p with PARAM_FINI v => Some v | _ => None end.
Definition p_format (p : Param) := match p with PARAM_FORMAT v => Some v | _ => None end.
Definition p_init (p : Param) := match p with PARAM_INIT v => Some v | _ => None end.
Definition p_length (p : Param) := match p with PARAM_LENGTH v => Some v | _ => None end.
Definition p_metadata (p : Param) := match p with PARAM_METADATA v => Some v | _ => None end.
Definition p_mmap (p : Param) := match p with PARAM_MMAP v => Some v | _ => None end.
Definition p_mode (p : Param) := match p with PARAM_MODE v => Some v | _ => None end.
Definition p_name (p : Param) := match p with PARAM_NAME v => Some v | _ => None end.
Definition p_poffset (p : Param) := match p with PARAM_OFFSET v => Some v | _ => None end.
Definition p_postinit (p : Param) := match p with PARAM_POSTINIT v => Some v | _ => None end.
Definition p_preinit (p : Param) := match p with PARAM_PREINIT v => Some v | _ => None end.
Definition p_protection (p : Param) := match p with PARAM_PROTECTION v => Some v | _ => None end.
Definition p_template (p : Param) := match p with PARAM_TEMPLATE v => Some v | _ => None end.
Definition p_trampoline (p : Param) := match p with PARAM_TRAMPOLINE v => Some v | _ => None end.
Definition p_version (p : Param) := match p with PARAM_VERSION v => Some v | _ => None end.

(** *** Instructions *)

(** The new instruction; [target] is what the analysis says about it. *)
Definition new_Instr b (offset addr length : Z) (target : bool) : option Instr :=
  pcrel ← getInstrPCRelativeIndex (at_off (B_orig b) offset) length;
  let near := u64 (length - pcrel) <? 4 in
  let pcrel8 := if negb (pcrel =? 0) && near then pcrel else 0 in
  let pcrel32 := if negb (pcrel =? 0) && negb near then pcrel else 0 in
  Some (MkInstr (wrapu 45 offset) length pcrel32 pcrel8 target (B_pic b) false false false false false addr None None).

(** The instruction comes before the first one that is known. *)
Definition in_order b (offset addr length : Z) : option bool :=
  if B_lb b =? B_ub b then Some true
  else
    J ← instr b (B_lb b);
    Some (negb ((i_offset J <=? offset) || (i_addr J <=? addr)) &&
          negb ((i_offset J <? u64 (offset + length)) || (i_addr J <? s64 (addr + length)))).

Definition parseInstruction (ps : list Param) s : option (Session S) :=
  let b := s_B s in
  addr ← get p_address ps; length ← get p_length ps;
  let length := u64 length in
  _ ← assert_ (between 1 15 length);
  offset ← get p_poffset ps;
  _ ← assert_ (0 <=? offset); _ ← assert_ (u64 (offset + length) <=? B_size b);
  _ ← assert_ (negb (dup p_address ps || dup p_length ps || dup p_poffset ps));
  ok ← in_order b offset addr length; _ ← assert_ ok;
  target ← is_target (s_targets s) (B_size b) offset;
  I ← new_Instr b offset addr length target;
  let '(j, b) := E9Misc.alloc b in
  let b := set_B_Is (<[j := I]> (B_Is b)) b in
  b ← change_states (Z.to_nat length) I 0 STATE_UNKNOWN STATE_INSTRUCTION b;
  Some (with_B b s).

(** *** Patches *)

Definition set_i_request (T : option ptr) (meta : option ptr) I : Instr :=
  {| i_offset := i_offset I; i_size := i_size I; i_pcrel32_idx := i_pcrel32_idx I;
     i_pcrel8_idx := i_pcrel8_idx I; i_target := i_target I; i_pic := i_pic I; i_debug := i_debug I;
     i_patch := true; i_is_patched := i_is_patched I; i_is_evicted := i_is_evicted I;
     i_no_optimize := i_no_optimize I; i_addr := i_addr I; i_metadata := meta; i_T := T |}.

Definition parsePatch (ps : list Param) s : option (Session S) :=
  T ← get p_trampoline ps; offset ← get p_poffset ps;
  _ ← assert_ (negb (dup p_trampoline ps || dup p_poffset ps || dup p_metadata ps));
  j ← E9Misc.find (s_B s) offset; j ← j;
  I ← instr (s_B s) j;
  _ ← assert_ (negb (i_patch I));
  b ← upd_instr (set_i_request (Some T) (get p_metadata ps)) j (s_B s);
  queuePatch j (Some T) (with_B b s).

(** *** Templates and options *)

Definition parseTrampoline (ps : list Param) s : option (Session S) :=
  name ← get p_name ps;
  _ ← assert_ (match name with String c _ => Ascii.eqb c "$"%char | EmptyString => false end);
  T ← get p_template ps;
  _ ← assert_ (negb (dup p_name ps || dup p_template ps));
  match B_names (s_B s) !! name with
  | Some _ => None
  | None => Some (with_B (set_B_names (<[name := T]> (B_names (s_B s))) (s_B s)) s)
  end.

(** Options before the first flush take effect at once, and later ones in their turn. *)
Definition parseOptions_message (ps : list Param) s : option (Session S) :=
  argv ← get p_argv ps;
  _ ← assert_ (negb (dup p_argv ps));
  if B_cursor (s_B s) =? INTPTR_MAX then parseOptions_argv argv s
  else Some (with_B (set_B_Q (PatchOptions argv :: B_Q (s_B s)) (s_B s)) s).

End Queue.

(** What the parser allocated for a message joins what is known. *)
Definition receive {S} (m : Message) (s : Session S) : Session S :=
  let b := s_B s in
  with_B (set_B_metas (m_metas m ∪ B_metas b) (set_B_Ts (m_templates m ∪ B_Ts b) b)) s.

(** ** The concrete allocator: reservations and the output *)

Section Emit.
Context (getopt_long_only : list string → list (Option_ * option string) * bool) (evicteeTrampoline : ptr).
(** The contents of a file, whether two paths name the same file, and the memory that [new]
    returns. *)
Context (read_file : string → option bytes) (same_file : string → string → bool) (uninit : Z → bytes).
(** The version, and the loader that the build makes. *)
Context (VERSION : string) (e9loader_elf_bin : bytes).

#[local] Instance rewriter_window : Window := AllocIter.relative_window.

Definition rewriter_trampolines (o : Options) : Trampolines (E9.Binary Tree) := e9_trampolines o evicteeTrampoline.
Definition rewriter_space (o : Options) : @VirtualSpace _ (E9.Binary Tree) (rewriter_trampolines o) Tree :=
  @tree_space _ _ (rewriter_trampolines o).

Implicit Types (s : Session Tree) (b : E9.Binary Tree).

(** *** Reservations *)

Definition makePadding (len : Z) b : option ptr * E9.Binary Tree :=
  if len =? 0 then (None, b)
  else let '(T, b) := new_trampoline (MkTrampoline (Z.lor PROT_READ PROT_EXEC) false [ENTRY_ZEROES len]) b in (Some T, b).

(** [T->entries[0].length] *)
Definition entry_length b (T : ptr) : option Z :=
  t ← B_Ts b !! T;
  match entries t with ENTRY_BYTES d :: _ => Some (blen d) | ENTRY_ZEROES n :: _ => Some n | _ => None end.

(** The tests of an initialiser, a finaliser or an mmap function: its address. *)
Definition function_in b (absolute : bool) (bytes_ : option ptr) (address f : Z) : option Z :=
  let f := if absolute && B_pic b then ABSOLUTE_ADDRESS f else f in
  T ← bytes_; len ← entry_length b T;
  if (f <? address) || (s64 (address + len) <=? f) then None else Some f.

(** The allocation of the bytes between two paddings. *)
Fixpoint reserve_all (opts : Options) (l : list (option ptr * Z)) b : option (E9.Binary Tree) :=
  match l with
  | [] => Some b
  | (None, _) :: l => reserve_all opts l b
  | (Some T, a) :: l =>
      '(A, t) ← allocate (H := rewriter_trampolines opts) (option_Oorder opts) b a a (Some T) None false (B_space b);
      _ ← A;
      reserve_all opts l (set_B_space t b)
  end.

Definition reserve_bytes (opts : Options) (T : ptr) (protection : option Z) (address : Z) b : option (E9.Binary Tree) :=
  t ← B_Ts b !! T;
  let b := set_B_Ts (<[T := MkTrampoline (default (prot t) protection) true (entries t)]> (B_Ts b)) b in
  length ← trampoline_size opts b (Some T) None;
  let length := u64 length in
  let length_lo := page_rem address in
  let length_hi := PAGE_SIZE - u64 (length_lo + length) mod PAGE_SIZE in
  let length_hi := if length_hi =? PAGE_SIZE then 0 else length_hi in
  let '(lo, b) := makePadding length_lo b in
  let '(hi, b) := makePadding length_hi b in
  reserve_all opts [(lo, s64 (address - length_lo)); (Some T, address); (hi, s64 (address + length))] b.

Definition parseReserve (ps : list Param) s : option (Session Tree) :=
  let b := s_B s in
  let absolute := default false (get p_absolute ps) in
  let bytes_ := get p_bytes ps in
  address ← get p_address ps;
  _ ← assert_ (match bytes_, get p_length ps with None, None | Some _, Some _ => false | _, _ => true end);
  let address := if absolute && B_pic b then ABSOLUTE_ADDRESS address else address in
  init ← match get p_init ps with
         | None => Some []
         | Some f => f ← function_in b absolute bytes_ address f; Some [f]
         end;
  fini ← match get p_fini ps with
         | None => Some []
         | Some f => f ← function_in b absolute bytes_ address f; Some [f]
         end;
  mmap ← match get p_mmap ps with
         | None => Some (s_mmap s)
         | Some f => f ← function_in b absolute bytes_ address f;
                     _ ← assert_ (s_mmap s =? INTPTR_MIN); Some f
         end;
  _ ← assert_ (negb (dup p_absolute ps || dup p_address ps || dup p_bytes ps || dup p_init ps || dup p_fini ps ||
                     dup p_length ps || dup p_mmap ps || dup p_postinit ps || dup p_preinit ps || dup p_protection ps));
  b ← match bytes_ with
      | None => Some b
      | Some T => reserve_bytes (g_opts (s_g s)) T (get p_protection ps) address b
      end;
  b ← match get p_length ps with
      | None => Some b
      | Some length =>
          if u64 length =? 0 then Some b
          else '(ok, t) ← reserve address (s64 (address + length)) (B_space b); _ ← assert_ ok; Some (set_B_space t b)
      end;
  Some (MkSession b (s_g s) (s_filename s) (s_output s) (s_info s) (s_targets s)
    (s_preinits s ++ option_to_list (get p_preinit ps)) (s_postinits s ++ option_to_list (get p_postinit ps))
    (s_inits s ++ init) (s_finis s ++ fini) mmap (s_patched s) (s_failed s)).

(** *** The binary *)

Definition EXTEND_SIZE : Z := 32 * 2 ^ 30.

(** A mapping of [n] bytes ends with its page; what follows the file is zero. *)
Definition map_file (file : bytes) (n : Z) : bytes := file ++ repeat 0 (Z.to_nat (n - blen file)).

Definition new_Binary (mode : Mode) (file : bytes) : E9.Binary Tree :=
  let size := blen file in
  let ext := size + PAGE_SIZE in
  let ext := if ext mod PAGE_SIZE =? 0 then ext else ext + PAGE_SIZE in
  let ext := ext - ext mod PAGE_SIZE in
  MkBinary size mode 0 false (map_file file (round_page size)) (map_file file (round_page (size + EXTEND_SIZE)))
    (repeat STATE_UNKNOWN (Z.to_nat size) ++ repeat STATE_OVERFLOW (Z.to_nat (ext - size)))
    INTPTR_MAX [] ∅ 0 0 {[evicteeTrampoline := evicteeTrampolineInit]} ∅ ∅ ∅ [] [] ∅ empty_tree (MkStats 0 0 0 0 0 0 0).

(** Programs for Windows are outside of the model. *)
Definition parseBinary (ps : list Param) (g : Globals) : option (Session Tree) :=
  filename ← get p_filename ps; version ← get p_version ps;
  _ ← assert_ (String.eqb version VERSION);
  _ ← assert_ (negb (dup p_filename ps || dup p_mode ps || dup p_version ps));
  file ← read_file filename;
  let mode := default MODE_ELF_EXE (get p_mode ps) in
  match mode with
  | MODE_ELF_EXE | MODE_ELF_DSO =>
      let b := new_Binary mode file in
      '(pic, info, b) ← parseElf (g_opts g) (List.length file) b;
      let b := MkBinary (B_size b) (B_mode b) (B_config b) pic (B_orig b) (B_bytes b) (B_state b) (B_cursor b) (B_Q b)
                 (B_Is b) (B_lb b) (B_ub b) (B_Ts b) (B_names b) (B_metas b) (B_Es b) (B_Js b) (B_Traps b) (B_flat b)
                 (B_space b) (B_stats b) in
      analyse (MkSession b g filename None info None [] [] [] [] INTPTR_MIN 0 0)
  | _ => None
  end.

(** *** The output *)

(** [optimizeMappings] with the chosen key. *)
Definition optimize (g : Globals) (mapping_size : Z) (ms : list E9Mapping.Mapping) (stat : Z) :
    option (list E9Mapping.Group * Z) :=
  if option_mem_granularity g =? 128
  then E9Mapping.optimizeMappings (K := E9Mapping.Key128) mapping_size PAGE_SIZE ms stat
  else if option_mem_granularity g =? 4096
  then E9Mapping.optimizeMappings (K := E9Mapping.Key4096) mapping_size PAGE_SIZE ms stat
  else None.

Definition templates b (l : list ptr) : option (list Trampoline) := mapM (λ T, B_Ts b !! T) l.

(** The output and its name and format. *)
Definition parseEmit (ps : list Param) s : option (Session Tree * (string * Format * bytes)) :=
  filename ← get p_filename ps;
  _ ← assert_ (negb (dup p_filename ps || dup p_format ps));
  _ ← assert_ (negb (same_file (s_filename s) filename));
  b ← buildEntrySet (g_opts (s_g s)) (s_B s);
  s ← queueFlush (TR := rewriter_trampolines) (VS := rewriter_space) getopt_long_only evicteeTrampoline INTPTR_MIN (with_B b s);
  let b := s_B s in
  let g := s_g s in
  let opts := g_opts g in
  let mapping_size := Z.max PAGE_SIZE (option_mem_mapping_size g) in
  l ← all_allocs (B_space b);
  '(ms, st) ← E9Mapping.buildMappings (B_Ts b) l mapping_size 0;
  '(gs, _) ← optimize g mapping_size ms 0;
  b ← flattenAllTrampolines opts uninit b;
  b ← optimizeAllJumps opts b;
  preinits ← templates b (s_preinits s); postinits ← templates b (s_postinits s);
  '(data, size) ← emitElf opts (g_loader g) b (s_info s)
                    (MkInitFns preinits postinits (s_inits s) (s_finis s) (s_mmap s))
                    (bytes_of_string VERSION ++ [0]) e9loader_elf_bin gs mapping_size;
  Some (MkSession b g (s_filename s) (Some filename) (s_info s) (s_targets s) (s_preinits s) (s_postinits s)
          (s_inits s) (s_finis s) (s_mmap s) (s_patched s) (s_failed s),
        (filename, default FORMAT_BINARY (get p_format ps), take (Z.to_nat size) data)).

(** *** The dispatch *)

(** [parseMessage]; the last component is the output of an emit message. *)
Definition parseMessage (g : Globals) (s : option (Session Tree)) (m : Message) :
    option (Session Tree * option (string * Format * bytes)) :=
  match s with
  | None =>
      match m_method m with
      | METHOD_BINARY => s ← parseBinary (m_params m) g; Some (s, None)
      | _ => None
      end
  | Some s =>
      let s := receive m s in
      let ps := m_params m in
      match m_method m with
      | METHOD_INSTRUCTION => s ← parseInstruction ps s; Some (s, None)
      | METHOD_PATCH =>
          s ← parsePatch (TR := rewriter_trampolines) (VS := rewriter_space) getopt_long_only evicteeTrampoline ps s;
          Some (s, None)
      | METHOD_EMIT => '(s, o) ← parseEmit ps s; Some (s, Some o)
      | METHOD_RESERVE => s ← parseReserve ps s; Some (s, None)
      | METHOD_TRAMPOLINE => s ← parseTrampoline ps s; Some (s, None)
      | METHOD_OPTIONS => s ← parseOptions_message getopt_long_only ps s; Some (s, None)
      | METHOD_BINARY | METHOD_UNKNOWN => None
      end
  end.

End Emit.

End E9Api.
