(* ===== verification/E9ApiQueue.v ===== *)
(** * E9ApiQueue: flushing the queue

    The queue of src/src/e9patch/e9api.cpp against the guarantees of the tactics: flushing
    returns, each instruction that leaves the queue lands at its trampoline or is counted as
    failed, and what stays in the queue can still be patched. *)

From stdpp Require Import gmap strings.
From S2P Require Import Prelude E9Patch E9Alloc E9AllocTree E9AllocSpec E9AllocApi E9X86 E9Tactics.
From S2P Require Import E9TacticsMem E9TacticsSpec E9TacticsInv E9TacticsEvict E9TacticsPatch E9CFR E9Options E9Api.

Module ApiQueue.
Import E9 E9Alloc AllocTree AllocSpec AllocApi E9X86 E9Tactics TacticsMem TacticsSpec TacticsInv TacticsEvict TacticsPatch.
Import E9Options E9Api.

(** ** What later messages and patches keep of an instruction *)

Definition code (I : Instr) : Z * Z * Z * Z * Z * bool :=
  (i_offset I, i_size I, i_addr I, i_pcrel32_idx I, i_pcrel8_idx I, i_target I).

Definition label (I : Instr) : option ptr * bool := (i_T I, i_patch I).

Lemma code_fields I I' : code I' = code I →
  i_offset I' = i_offset I ∧ i_size I' = i_size I ∧ i_addr I' = i_addr I ∧
  i_pcrel32_idx I' = i_pcrel32_idx I ∧ i_target I' = i_target I.
Proof. unfold code. by intros [= -> -> -> -> _ ->]. Qed.

Lemma clear_code I I' : clear I' = clear I → code I' = code I ∧ label I' = label I.
Proof. destruct I, I'. unfold clear, code, label. cbn. intros [=]. by subst. Qed.

Section Keeps.
Context {S : Type}.
Implicit Types (b : E9.Binary S) (I : Instr).

(** Every instruction keeps its code, and but for [x] its template; templates and traps
    stay. *)
Record keeps (x : option iptr) b b' : Prop := {
  kp_instr : ∀ i X, instr b i = Some X →
    ∃ X', instr b' i = Some X' ∧ code X' = code X ∧ (Some i ≠ x → label X' = label X);
  kp_Ts : B_Ts b ⊆ B_Ts b';
  kp_Traps : B_Traps b ⊆ B_Traps b' }.

Lemma keeps_refl b : keeps None b b.
Proof. split; [|done|done]. intros i X EX. by exists X. Qed.

Lemma keeps_trans x b1 b2 b3 : keeps x b1 b2 → keeps None b2 b3 → keeps x b1 b3.
Proof.
  intros [H1 H2 H3] [K1 K2 K3]. split; [|by etrans|by etrans].
  intros i X EX. destruct (H1 i X EX) as (X1 & EX1 & Hc1 & Hl1). destruct (K1 i X1 EX1) as (X2 & EX2 & Hc2 & Hl2).
  exists X2. split; [done|]. split; [congruence|]. intros Hi. rewrite Hl2, Hl1; done.
Qed.

Lemma keeps_upd x b j I f : instr b j = Some I → code (f I) = code I → (x = Some j ∨ label (f I) = label I) →
  keeps x b (set_B_Is (<[j := f I]> (B_Is b)) b).
Proof.
  intros EI Hc Hl. destruct b. split; [|done|done]. unfold instr in *. cbn in *. intros i X EX.
  destruct (decide (i = j)) as [->|Hi].
  - rewrite lookup_insert_eq. eexists. split; [done|]. rewrite EI in EX. injection EX as <-. split; [done|].
    intros Hx. by destruct Hl as [->|].
  - rewrite lookup_insert_ne by done. by exists X.
Qed.

End Keeps.

Section Flush.
Context `{W : Window} {S : Type} (TR : Options → Trampolines (E9.Binary S))
  (VS : ∀ o, @VirtualSpace W (E9.Binary S) (TR o) S).
Context {ST : Setup}.
#[local] Instance flush_trampolines : Trampolines (E9.Binary S) := TR opts.
#[local] Instance flush_space : VirtualSpace (E9.Binary S) S := VS opts.
Context {CT : Contract}.
Implicit Types (b : E9.Binary S) (I : Instr) (l : list (ptr * Alloc)).

Lemma evolves_keeps b b' : evolves b b' → keeps None b b'.
Proof.
  intros He. split; [|apply He|apply He]. intros i X EX. destruct (evolves_instr _ _ _ _ He EX) as (X' & EX' & Hc).
  destruct (clear_code _ _ Hc). by exists X'.
Qed.

(** What is frozen keeps its byte and stays frozen, where [P] holds. *)
Definition preserves_on (P : Z → Prop) b b' : Prop :=
  ∀ q s, P q → state_at b q = Some s → frozen s = true →
    byte_at b' q = byte_at b q ∧ ∃ s', state_at b' q = Some s' ∧ frozen s' = true.

(** From the first instruction on. *)
Definition known b (q : Z) : Prop := ∃ i X, instr b i = Some X ∧ i_offset X <= q.

Lemma fixed_on (P : Z → Prop) b b' p bs : (∀ q, p <= q → P q) → preserves_on P b b' → fixed b p bs → fixed b' p bs.
Proof.
  intros HP Hp Hf i v Hv. destruct (Hf i v Hv) as (E & s & Es & Hs). destruct (Hp _ _ (HP (p + Z.of_nat i) ltac:(lia)) Es Hs) as (-> & Hs'). done.
Qed.

(** Where an instruction lands stays. *)
Lemma lands_on (P : Z → Prop) x b b' l l' j I I' T : keeps x b b' → preserves_on P b b' →
  (∀ q, known b q → P q) → (∀ q, i_offset I <= q → P q) →
  l ⊆ l' → code I' = code I → i_T I' = i_T I → lands b l j I T → lands b' l' j I' T.
Proof.
  intros Hk Hp HK HI Hl Hc HTT. destruct (code_fields _ _ Hc) as (E1 & E2 & E3 & _).
  assert (Hnear : ∀ K K' d, (∀ q, i_offset K <= q → P q) → code K' = code K → near_jump b K d → near_jump b' K' d).
  { intros K K' d HPK HcK (k & Hk' & H1 & H2). destruct (code_fields _ _ HcK) as (F1 & _ & F3 & _). exists k.
    unfold jump_bytes in *. rewrite F1, F3. split; [done|].
    split; [by eapply (fixed_on P)|]. eapply (fixed_on P); [|done|done]. intros q Hq. apply HPK. lia. }
  assert (HKn : ∀ i X, instr b i = Some X → ∀ q, i_offset X <= q → P q) by (intros i X EX q Hq; apply HK; by exists i, X).
  intros [A a Hin HT Hj|A a Hin HT (J & K & k & EJ & Hk' & Hd & H1 & H2)|A a Hin HT Htr Hf
         |A a U J L K KL EIT Hj Hlt Hb EJ EL EU Hin HT Hn].
  - eapply lands_near; [by apply Hl|done|by apply (Hnear I)].
  - eapply lands_short; [by apply Hl|done|].
    destruct (kp_instr _ _ _ Hk _ _ EJ) as (K' & EJ' & HcK & _). destruct (code_fields _ _ HcK) as (F1 & F2 & F3 & _).
    exists J, K', k. unfold jump_bytes in *. rewrite F1, F2, F3, E1, E3.
    split_and!; [done|lia|lia|lia|lia|by eapply (fixed_on P)|]. eapply (fixed_on P); [|done|done].
    intros q Hq. apply (HKn _ _ EJ). lia.
  - eapply lands_trap; [by apply Hl|done|by apply (kp_Traps _ _ _ Hk)|]. rewrite E1. by eapply (fixed_on P).
  - destruct (kp_instr _ _ _ Hk _ _ EJ) as (K' & EJ' & HcK & _). destruct (kp_instr _ _ _ Hk _ _ EL) as (KL' & EL' & HcL & _).
    destruct (code_fields _ _ HcL) as (_ & _ & F3 & _).
    apply (lands_batch _ _ _ _ _ A a U J L K' KL'); try done;
      [by rewrite HTT| |by rewrite F3; eapply lookup_weaken, (kp_Ts _ _ _ Hk)|by apply Hl|apply (Hnear K); [by eapply HKn|done|done]].
    intros i Hi. destruct (Hb i Hi) as (X & EX & HX). destruct (kp_instr _ _ _ Hk _ _ EX) as (X' & EX' & HcX & _).
    destruct (code_fields _ _ HcX) as (G1 & _ & _ & _ & G5). exists X'. split; [done|]. intros Hlt'.
    destruct (HX Hlt') as (Ht & Y & EY & HY1 & HY2). rewrite G5, G1. split; [done|].
    destruct (kp_instr _ _ _ Hk _ _ EY) as (Y' & EY' & HcY & _). exists Y'.
    destruct (code_fields _ _ HcY) as (Q1 & Q2 & _). by rewrite Q1, Q2.
Qed.

Lemma preserves_all b b' P : preserves b b' → preserves_on P b b'.
Proof. intros Hp q s _. apply Hp. Qed.

Lemma lands_keeps x b b' l l' j I I' T : keeps x b b' → preserves b b' → l ⊆ l' → code I' = code I → i_T I' = i_T I →
  lands b l j I T → lands b' l' j I' T.
Proof. intros Hk Hp. apply (lands_on (λ _, True) x); [done|by apply preserves_all|done|done]. Qed.

(** ** Changes of flags and of states *)

(** An instruction gets other flags, or another template. *)
Lemma wf_upd b l j I f : wf b l → instr b j = Some I → code (f I) = code I → i_is_evicted (f I) = i_is_evicted I →
  wf (set_B_Is (<[j := f I]> (B_Is b)) b) l.
Proof.
  intros [[L1 L2 L3 L4 L5 L6 L7] H2 H3 H4] EI Hc He. set (b' := set_B_Is _ b).
  assert (Hback : ∀ i X', instr b' i = Some X' → ∃ X, instr b i = Some X ∧ code X' = code X ∧ i_is_evicted X' = i_is_evicted X).
  { intros i X' EX'. unfold b', instr in *. destruct b. cbn in *. destruct (decide (i = j)) as [->|Hi].
    - rewrite lookup_insert_eq in EX'. injection EX' as <-. by exists I.
    - rewrite lookup_insert_ne in EX' by done. by exists X'. }
  assert (Eo : B_orig b' = B_orig b ∧ B_bytes b' = B_bytes b ∧ B_state b' = B_state b ∧ B_Ts b' = B_Ts b) by (by destruct b).
  destruct Eo as (Eo & Eb & Es & ET). split.
  - split.
    + intros i X' EX'. destruct (Hback i X' EX') as (X & EX & HcX & _). destruct (code_fields _ _ HcX) as (G1 & G2 & G3 & G4 & _).
      destruct (L1 i X EX). split; rewrite ?Eb, ?Es, ?Eo, ?G1, ?G2, ?G3, ?G4; done.
    + intros i k X' K' Hik EX' EK'. destruct (Hback i X' EX') as (X & EX & HcX & _). destruct (Hback k K' EK') as (K & EK & HcK & _).
      destruct (code_fields _ _ HcX) as (-> & -> & -> & _). destruct (code_fields _ _ HcK) as (-> & _ & -> & _). by eapply L2.
    + intros i k X' K' Hik EX' EK'. destruct (Hback i X' EX') as (X & EX & HcX & _). destruct (Hback k K' EK') as (K & EK & HcK & _).
      destruct (code_fields _ _ HcX) as (-> & _ & -> & _). destruct (code_fields _ _ HcK) as (-> & _ & -> & _). by eapply L3.
    + by rewrite Eb.
    + by rewrite Eo.
    + intros i X' EX'. destruct (Hback i X' EX') as (X & EX & HcX & _). destruct (code_fields _ _ HcX) as (G1 & -> & _).
      unfold ORIG. rewrite Eo, G1. by eapply L6.
    + by rewrite ET.
  - unfold live in *. by destruct b.
  - intros i X' Hi EX'. destruct (Hback i X' EX') as (X & EX & HcX & _). destruct (code_fields _ _ HcX) as (G1 & G2 & _).
    rewrite G2. apply (shape_ext (states b X)); [|by eapply H3]. intros k Hk. unfold states, state_at. by rewrite Es, G1.
  - intros i X' EX' HX'. destruct (Hback i X' EX') as (X & EX & HcX & Hev). destruct (code_fields _ _ HcX) as (G1 & _).
    unfold state_at. rewrite Es, G1. apply (H4 i X EX). by rewrite <- Hev.
Qed.

(** The states of one instruction, all [from], become [to]. *)
Lemma change_states_spec I from to n : ∀ i b,
  (∀ k, i <= k < i + Z.of_nat n → mapped b (i_offset I + k) ∧ state_at b (i_offset I + k) = Some from) →
  ∃ b', change_states n I i from to b = Some b' ∧ rewrites b b' ∧ (∀ q, byte_at b' q = byte_at b q) ∧
    ∀ q, state_at b' q = if decide (i_offset I + i <= q < i_offset I + i + Z.of_nat n) then Some to else state_at b q.
Proof.
  induction n as [|n IH]; intros i b H; cbn [change_states].
  { exists b. split; [done|]. split; [apply rewrites_refl|]. split; [done|]. intros q. by rewrite decide_False by lia. }
  destruct (H i ltac:(lia)) as [Hm Es]. unfold STATE. fold (state_at b (i_offset I + i)). rewrite Es. cbn [mbind option_bind].
  rewrite Z.eqb_refl. cbn [assert_ mbind option_bind].
  destruct (set_STATE_ok I i to b Hm) as (b1 & -> & Hr1 & Hb1 & Hs1). cbn [mbind option_bind].
  destruct (IH (i + 1) b1) as (b' & -> & Hr & Hb & Hs).
  { intros k Hk. rewrite Hs1, decide_False by lia. destruct (H k ltac:(lia)) as [? ?]. split; [|done]. by eapply mapped_rewrites. }
  exists b'. split; [done|]. split; [by eapply rewrites_trans|]. split; [intros q; by rewrite Hb|].
  intros q. rewrite Hs, Hs1. repeat destruct (decide _); (done || lia).
Qed.

Lemma change_states_inv I from to n : ∀ i b b', change_states n I i from to b = Some b' →
  ∀ k, i <= k < i + Z.of_nat n → state_at b (i_offset I + k) = Some from.
Proof.
  induction n as [|n IH]; intros i b b'; cbn [change_states]; [lia|].
  intros (st & Es & E)%bind_Some_iff k Hk. apply bind_Some_iff in E as (u & Ea & E). unfold assert_ in Ea.
  destruct (Z.eqb_spec st from) as [->|]; [|done]. apply bind_Some_iff in E as (b1 & E1 & E).
  destruct (Z.eq_dec k i) as [->|Hki]; [done|]. pose proof (IH _ _ _ E k ltac:(lia)) as H.
  unfold set_STATE, wr in E1. apply bind_Some_iff in E1 as (st' & Ew & [= <-]).
  unfold state_at in *. destruct b. cbn in *. rewrite (rd_wrn_out _ _ _ _ _ Ew) in H; [done|]. change (blen [to]) with 1. lia.
Qed.

(** An instruction enters or leaves the queue. *)
Lemma wf_requeue b b' l j I from to : wf b l → instr b j = Some I → rewrites b b' →
  (from = STATE_QUEUED ∧ to = STATE_INSTRUCTION ∨ from = STATE_INSTRUCTION ∧ to = STATE_QUEUED) →
  (∀ i, 0 <= i < i_size I → states b I i = Some from) →
  (∀ q, byte_at b' q = byte_at b q) →
  (∀ q, state_at b' q = if decide (i_offset I <= q < i_offset I + i_size I) then Some to else state_at b q) →
  wf b' l ∧ preserves b b' ∧ evolves b b'.
Proof.
  intros Hw EI Hr Hft Hall Hb Hs. pose proof (rewrites_evolves _ _ Hr) as He.
  pose proof (wf_layout _ _ _ Hw) as HL. pose proof (io_size _ _ (la_instr _ HL _ _ EI)) as Hsz.
  assert (EIs : ∀ i, instr b' i = instr b i) by (destruct Hr as (bs & st & -> & _); by destruct b).
  split; [|split; [|done]].
  - split; [by eapply layout_evolves|destruct Hr as (bs & st & -> & _); by destruct Hw; destruct b| |].
    + intros i X _ EX. rewrite EIs in EX. destruct (decide (i = j)) as [->|Hij].
      * rewrite EI in EX. injection EX as <-. destruct Hft as [[-> ->]|[-> ->]].
        -- apply (shape_code _ _ 0); [lia|intros; lia|]. intros k Hk. unfold states. by rewrite Hs, decide_True by lia.
        -- apply shape_queued. intros k Hk. unfold states. by rewrite Hs, decide_True by lia.
      * apply (shape_ext (states b X)); [|by apply (wf_shape _ _ _ Hw i)]. intros k Hk. unfold states. rewrite Hs, decide_False; [done|].
        destruct (Z.lt_total i j) as [Hlt|[?|Hlt]]; [|done|].
        -- destruct (la_sorted _ HL _ _ _ _ Hlt EX EI). lia.
        -- destruct (la_sorted _ HL _ _ _ _ Hlt EI EX). lia.
    + intros i X EX HX. rewrite EIs in EX. destruct (wf_evicted _ _ _ Hw i X EX HX) as (s & Es & Hf).
      rewrite Hs. destruct (decide _) as [Hd|]; [|by exists s]. exfalso.
      specialize (Hall (i_offset X - i_offset I) ltac:(lia)). unfold states in Hall.
      replace (i_offset I + (i_offset X - i_offset I)) with (i_offset X) in Hall by lia.
      rewrite Es in Hall. injection Hall as ->. by destruct Hft as [[-> _]|[-> _]].
  - intros q s Es Hf. rewrite Hb, Hs. split; [done|]. destruct (decide _) as [Hd|]; [|by exists s]. exfalso.
    specialize (Hall (q - i_offset I) ltac:(lia)). unfold states in Hall.
    replace (i_offset I + (q - i_offset I)) with q in Hall by lia. rewrite Es in Hall. injection Hall as ->.
    by destruct Hft as [[-> _]|[-> _]].
Qed.

(** ** One entry *)

Context (getopt_long_only : list string → list (Option_ * option string) * bool).
Implicit Types (s : Session S).

Definition patchable I (T : option ptr) : Prop :=
  T ≠ None ∧ T ≠ Some evicteeTrampoline ∧ (i_size I ≠ 1 ∨ option_tactic_T3 opts = false).

(** An entry waits, or it was patched with a batch. *)
Definition entry_ok b l (e : PatchEntry) : Prop :=
  match e with
  | PatchOptions _ => False
  | PatchInstr j T => ∃ I, instr b j = Some I ∧ i_T I = T ∧ patchable I T ∧
      (state_at b (i_offset I) = Some STATE_QUEUED ∨ lands b l j I T)
  end.

Definition landed b l (e : PatchEntry) : Prop :=
  match e with
  | PatchOptions _ => False
  | PatchInstr j T => ∃ I, instr b j = Some I ∧ i_T I = T ∧ lands b l j I T
  end.

Lemma landed_known x b b' l l' j T : keeps x b b' → preserves_on (known b) b b' → l ⊆ l' → x ≠ Some j →
  landed b l (PatchInstr j T) → landed b' l' (PatchInstr j T).
Proof.
  intros Hk Hp Hl Hx (I & EI & ET & Hla). destruct (kp_instr _ _ _ Hk _ _ EI) as (I' & EI' & Hc & Hlab).
  unfold label in Hlab. pose proof (Hlab (λ E, Hx (eq_sym E))) as [= ET' _]. exists I'. split; [done|]. split; [congruence|].
  apply (lands_on (known b) x b b' l l' j I); try done. intros q Hq. by exists j, I.
Qed.

Lemma landed_keeps x b b' l l' j T : keeps x b b' → preserves b b' → l ⊆ l' → x ≠ Some j →
  landed b l (PatchInstr j T) → landed b' l' (PatchInstr j T).
Proof. intros Hk Hp. apply landed_known; [done|by apply preserves_all]. Qed.

(** Other entries are not affected by a change after which what waited waits or lands. *)
Lemma entry_known x b b' l l' j T : keeps x b b' → preserves_on (known b) b b' → l ⊆ l' → x ≠ Some j →
  (∀ X X', instr b j = Some X → instr b' j = Some X' → state_at b (i_offset X) = Some STATE_QUEUED →
     state_at b' (i_offset X) = Some STATE_QUEUED ∨ lands b' l' j X' (i_T X')) →
  entry_ok b l (PatchInstr j T) → entry_ok b' l' (PatchInstr j T).
Proof.
  intros Hk Hp Hl Hx Hq (I & EI & ET & (P1 & P2 & P3) & Hs). destruct (kp_instr _ _ _ Hk _ _ EI) as (I' & EI' & Hc & Hlab).
  unfold label in Hlab. pose proof (Hlab (λ E, Hx (eq_sym E))) as [= ET' _]. destruct (code_fields _ _ Hc) as (F1 & F2 & _).
  exists I'. split; [done|]. split; [congruence|]. split; [split_and!; [done|done|by rewrite F2]|].
  destruct Hs as [Hs|Hs].
  2: { right. apply (lands_on (known b) x b b' l l' j I); try done. intros q Hq'. by exists j, I. }
  rewrite F1. destruct (Hq I I' EI EI' Hs) as [?|?]; [by left|right]. replace T with (i_T I') by congruence. done.
Qed.

Lemma entry_keeps x b b' l l' j T : keeps x b b' → preserves b b' → l ⊆ l' → x ≠ Some j →
  (∀ X X', instr b j = Some X → instr b' j = Some X' → state_at b (i_offset X) = Some STATE_QUEUED →
     state_at b' (i_offset X) = Some STATE_QUEUED ∨ lands b' l' j X' (i_T X')) →
  entry_ok b l (PatchInstr j T) → entry_ok b' l' (PatchInstr j T).
Proof. intros Hk Hp. apply entry_known; [done|by apply preserves_all]. Qed.

(** The instructions that wait are not the one that is changed. *)
Lemma queued_all b l j I : wf b l → instr b j = Some I → state_at b (i_offset I) = Some STATE_QUEUED →
  ∀ i, 0 <= i < i_size I → states b I i = Some STATE_QUEUED.
Proof.
  intros Hw EI Es. pose proof (io_size _ _ (wf_instr _ _ _ _ _ Hw EI)).
  destruct (wf_shape _ _ _ Hw j I ltac:(done) EI) as [Hq|m Hm Hf Hi|Hp _]; [done| |]; rewrite <- states_0 in Es; exfalso.
  - destruct (Z.ltb_spec 0 m) as [Hlt|]; [|rewrite Hi in Es by lia; done].
    destruct (Hf 0 ltac:(lia) Hlt) as (s & E & Hs). rewrite E in Es. by injection Es as ->.
  - destruct (Hp 0 ltac:(lia)) as (s & E & _ & Hs). congruence.
Qed.

(** Taking an instruction from the queue makes it ready. *)
Lemma dequeue_ok b l j I (debug : bool) : wf b l → instr b j = Some I → state_at b (i_offset I) = Some STATE_QUEUED →
  ∃ b1 b2, change_states (Z.to_nat (i_size I)) I 0 STATE_QUEUED STATE_INSTRUCTION b = Some b1 ∧
    upd_instr (set_i_debug debug) j b1 = Some b2 ∧ ready b2 l j (set_i_debug debug I) ∧
    keeps None b b2 ∧ preserves b b2 ∧ evolves b b1 ∧
    (∀ i X, i ≠ j → instr b i = Some X → state_at b2 (i_offset X) = state_at b (i_offset X)).
Proof.
  intros Hw EI Es. pose proof (wf_layout _ _ _ Hw) as HL. pose proof (wf_instr _ _ _ _ _ Hw EI) as Ho. pose proof (io_size _ _ Ho).
  pose proof (queued_all _ _ _ _ Hw EI Es) as Hall.
  destruct (change_states_spec I STATE_QUEUED STATE_INSTRUCTION (Z.to_nat (i_size I)) 0 b) as (b1 & E1 & Hr & Hb & Hs).
  { intros k Hk. split; [apply mapped_near; [done|lia]|apply Hall; lia]. }
  rewrite Z2Nat.id, Z.add_0_r in Hs by lia.
  destruct (wf_requeue b b1 l j I _ _ Hw EI Hr ltac:(by left) Hall Hb Hs) as (Hw1 & Hp1 & He1).
  assert (EIs : instr b1 j = Some I) by (destruct Hr as (bs & st & -> & _); by destruct b).
  exists b1, (set_B_Is (<[j := set_i_debug debug I]> (B_Is b1)) b1). split; [done|].
  split; [unfold upd_instr; by rewrite EIs|].
  assert (Hst : ∀ q, state_at (set_B_Is (<[j := set_i_debug debug I]> (B_Is b1)) b1) q = state_at b1 q ∧
                     byte_at (set_B_Is (<[j := set_i_debug debug I]> (B_Is b1)) b1) q = byte_at b1 q) by (by destruct b1).
  split_and!.
  - split; [by apply wf_upd|]. split; [unfold instr; destruct b1; cbn; apply lookup_insert_eq|].
    rewrite (proj1 (Hst _)). cbn [i_offset set_i_debug]. rewrite Hs, decide_True by lia. done.
  - eapply keeps_trans; [by apply evolves_keeps|]. apply (keeps_upd _ b1 j I (set_i_debug debug)); [done|done|by right].
  - etrans; [exact Hp1|]. intros q s Eq Hq. destruct (Hst q) as [-> ->]. split; [done|by exists s].
  - done.
  - intros i X Hi EX. rewrite (proj1 (Hst _)), Hs, decide_False; [done|].
    pose proof (io_size _ _ (la_instr _ HL _ _ EX)).
    destruct (Z.lt_total i j) as [Hlt|[?|Hlt]]; [|done|].
    + destruct (la_sorted _ HL _ _ _ _ Hlt EX EI). lia.
    + destruct (la_sorted _ HL _ _ _ _ Hlt EI EX). lia.
Qed.

(** The ends of the instructions, the cursor, and which instructions there are. *)
Definition ends b : Z * Z * Z * gset iptr := (B_lb b, B_ub b, B_cursor b, dom (B_Is b)).

Lemma evolves_ends b b' : evolves b b' → ends b' = ends b.
Proof.
  intros He. unfold ends. rewrite (ev_lb _ _ He), (ev_ub _ _ He), (ev_cursor _ _ He).
  by rewrite <- (dom_fmap_L clear), (ev_Is _ _ He), dom_fmap_L.
Qed.

Lemma ends_upd b j I f : instr b j = Some I → ends (set_B_Is (<[j := f]> (B_Is b)) b) = ends b.
Proof. intros EI. unfold ends. unfold instr in EI. destruct b. cbn in *. by rewrite dom_insert_lookup_L. Qed.

(** The effect of an entry on the others. *)
Record flushed s l j T (ok : bool) s' l' : Prop := {
  fl_g : s_g s' = s_g s;
  fl_ends : ends (s_B s') = ends (s_B s);
  fl_wf : wf (s_B s') l';
  fl_allocs : l ⊆ l';
  fl_keeps : keeps None (s_B s) (s_B s');
  fl_preserves : preserves (s_B s) (s_B s');
  fl_entries : ∀ i U, i ≠ j → entry_ok (s_B s) l (PatchInstr i U) → entry_ok (s_B s') l' (PatchInstr i U);
  fl_landed : ok = true → landed (s_B s') l' (PatchInstr j T);
  fl_patched : s_patched s' = s_patched s + bool_to_Z ok;
  fl_failed : s_failed s' = s_failed s + bool_to_Z (negb ok) }.

(** The parts of a binary that the tactics promise something about. *)
Definition frame b b' : Prop :=
  B_mode b' = B_mode b ∧ B_orig b' = B_orig b ∧ B_bytes b' = B_bytes b ∧ B_state b' = B_state b ∧ B_Is b' = B_Is b ∧
  B_Ts b' = B_Ts b ∧ B_Traps b' = B_Traps b ∧ B_space b' = B_space b.

Lemma layout_frame b b' : frame b b' → layout b → layout b'.
Proof.
  intros (E1 & E2 & E3 & E4 & E5 & E6 & E7 & E8) [L1 L2 L3 L4 L5 L6 L7].
  split; unfold instr, ORIG in *; rewrite ?E2, ?E3, ?E5, ?E6; try done.
  intros j I EI. destruct (L1 j I EI). split; rewrite ?E2, ?E3, ?E4; done.
Qed.

Lemma frame_ok b b' : frame b b' → keeps None b b' ∧ preserves b b' ∧ (∀ l, wf b l → wf b' l) ∧
  (∀ q, state_at b' q = state_at b q) ∧ ∀ i, instr b' i = instr b i.
Proof.
  intros Hfr. pose proof Hfr as (E1 & E2 & E3 & E4 & E5 & E6 & E7 & E8).
  assert (Hs : ∀ q, state_at b' q = state_at b q) by (intros q; unfold state_at; by rewrite E4).
  assert (Hi : ∀ i, instr b' i = instr b i) by (intros i; unfold instr; by rewrite E5).
  split_and!; [| | |done|done].
  - split; [|by rewrite E6|by rewrite E7]. intros i X EX. rewrite <- Hi in EX. by exists X.
  - intros q s Es Hf. unfold byte_at. rewrite E3, Hs. split; [done|by exists s].
  - intros l [H1 H2 H3 H4]. split; [by eapply layout_frame|unfold live; by rewrite E8| |].
    + intros j I Hj EI. rewrite Hi in EI. apply (shape_ext (states b I)); [|by eapply H3]. intros k Hk. apply Hs.
    + intros j I EI HI. rewrite Hi in EI. rewrite Hs. by eapply H4.
Qed.

Lemma entry_frame b b' l e : frame b b' → entry_ok b l e → entry_ok b' l e.
Proof.
  intros Hf. destruct (frame_ok _ _ Hf) as (Hk & Hp & _ & Hs & _). destruct e as [|j T]; [done|].
  apply (entry_keeps None); [done|done|done|done|]. intros X X' EX EX' Eq. left. by rewrite Hs.
Qed.

Lemma landed_frame b b' l e : frame b b' → landed b l e → landed b' l e.
Proof. intros Hf. destruct (frame_ok _ _ Hf) as (Hk & Hp & _). destruct e as [|j T]; [done|]. by apply (landed_keeps None). Qed.

Lemma flush_entry_ok s l j T : g_opts (s_g s) = opts → wf (s_B s) l → entry_ok (s_B s) l (PatchInstr j T) →
  ∃ ok s' l', flush_entry (TR := TR) (VS := VS) getopt_long_only evicteeTrampoline (PatchInstr j T) s = Some s' ∧
    flushed s l j T ok s' l'.
Proof.
  intros Hg Hw (I & EI & ET & (P1 & P2 & P3) & Hs). pose proof (wf_instr _ _ _ _ _ Hw EI) as Ho. pose proof (io_size _ _ Ho) as Hsz.
  destruct (state_mapped (s_B s) _ (mapped_near _ _ 0 Ho ltac:(lia))) as [st Est].
  unfold flush_entry. rewrite EI. cbn [mbind option_bind]. unfold STATE. fold (state_at (s_B s) (i_offset I + 0)). rewrite Est.
  cbn [mbind option_bind]. rewrite Z.add_0_r in Est. rewrite Hg. destruct (Z.eqb_spec st STATE_QUEUED) as [->|Hst].
  - destruct (dequeue_ok _ _ _ _ (option_trap_all (s_g s) || bool_decide (i_addr I ∈ option_trap (s_g s))) Hw EI Est)
      as (b1 & b2 & E1 & E2 & HR & Hk & Hp & He1 & Hother). rewrite E1. cbn [mbind option_bind]. rewrite E2. cbn [mbind option_bind].
    destruct (patch_ok j T b2 l _ HR P2 P1 P3) as (ok & b3 & E3 & Hok). 
    change (patch (TR := TR opts) (VS := VS opts) opts evicteeTrampoline j T b2 = Some (ok, b3)) in E3. rewrite E3. cbn [mbind option_bind].
    assert (Hothers : ∀ i U, i ≠ j → entry_ok (s_B s) l (PatchInstr i U) → entry_ok b2 l (PatchInstr i U)).
    { intros i U Hi. apply (entry_keeps None); [done|done|done|done|]. intros X X' EX EX' Eq. left. by rewrite (Hother i X). }
    assert (Hends : ends b2 = ends (s_B s)).
    { unfold upd_instr in E2. apply bind_Some_iff in E2 as (x & Ex & [= <-]). rewrite <- (evolves_ends _ _ He1). by eapply ends_upd. }
    destruct ok.
    + destruct Hok as (l' & [S1 S2 S3 S4 S5 S6]). exists true, (tally true (with_B b3 s)), l'. split; [done|].
      pose proof (evolves_keeps _ _ S2) as Hk3.
      split; cbn [s_g s_B tally with_B s_patched s_failed bool_to_Z negb]; try done.
      * by rewrite (evolves_ends _ _ S2).
      * by eapply keeps_trans.
      * by etrans.
      * intros i U Hi HE. apply (entry_keeps None b2 b3 l l'); [done|done|done|done| |by apply Hothers].
        intros X X' EX EX' Eq. destruct (S5 i X EX Eq) as [?|Hla]; [by left|right].
        destruct (kp_instr _ _ _ Hk3 _ _ EX) as (X2 & EX2 & Hc & Hlab). rewrite EX' in EX2. injection EX2 as <-.
        pose proof (Hlab ltac:(done)) as [= HT _]. rewrite HT.
        by apply (lands_keeps None b3 b3 l' l' i X); [apply keeps_refl| |done..].
      * intros _. destruct HR as (_ & EI2 & _). destruct (kp_instr _ _ _ Hk3 _ _ EI2) as (I3 & EI3 & Hc & Hlab).
        pose proof (Hlab ltac:(done)) as [= HT _]. cbn in HT. exists I3. split; [done|]. split; [congruence|].
        by apply (lands_keeps None b3 b3 l' l' j (set_i_debug (option_trap_all (s_g s) || bool_decide (i_addr I ∈ option_trap (s_g s))) I)); [apply keeps_refl| |done..].
    + destruct Hok as (sp & -> & Hl). exists false, (tally false (with_B (set_B_space sp b2) s)), l. split; [done|].
      assert (Hr : restored b2 l (set_B_space sp b2)) by by exists sp.
      pose proof (evolves_keeps _ _ (space_evolves sp b2)) as Hk3.
      assert (Hp3 : preserves b2 (set_B_space sp b2)) by (intros q s' Eq Hq; destruct b2; split; [done|by exists s']).
      split; cbn [s_g s_B tally with_B s_patched s_failed bool_to_Z negb]; try done.
      * eapply restored_wf; [exact Hr|apply HR].
      * by eapply keeps_trans.
      * intros i U Hi HE. apply (entry_keeps None b2 _ l l); [done|done|done|done| |by apply Hothers].
        intros X X' EX EX' Eq. left. by rewrite (restored_state _ _ _ _ Hr).
  - assert (Hf : frame (s_B s) (count_T0 (s_B s))) by (by destruct (s_B s)).
    destruct (frame_ok _ _ Hf) as (Hk & Hp & Hwf & _).
    exists true, (tally true (with_B (count_T0 (s_B s)) s)), l. split; [done|].
    split; cbn [s_g s_B tally with_B s_patched s_failed bool_to_Z negb]; try done; [by apply Hwf| |].
    + intros i U Hi. by apply entry_frame.
    + intros _. apply (landed_frame (s_B s)); [done|]. exists I. split; [done|]. split; [done|].
      destruct Hs as [Hs|Hs]; [congruence|done].
Qed.

(** ** The loop *)

(** The entries [popped] left the queue: those in [failed] were not patched, the others
    landed; and [rest] waits. *)
Record drained s l (popped rest failed : list PatchEntry) s' l' : Prop := {
  dr_g : s_g s' = s_g s;
  dr_ends : ends (s_B s') = ends (s_B s);
  dr_wf : wf (s_B s') l';
  dr_allocs : l ⊆ l';
  dr_keeps : keeps None (s_B s) (s_B s');
  dr_preserves : preserves (s_B s) (s_B s');
  dr_Q : B_Q (s_B s') = rev rest;
  dr_rest : Forall (entry_ok (s_B s') l') rest;
  dr_popped : Forall (λ e, e ∈ failed ∨ landed (s_B s') l' e) popped;
  dr_failed : failed ⊆ popped;
  dr_nodup : NoDup failed;
  dr_num_failed : s_failed s' = s_failed s + Z.of_nat (List.length failed);
  dr_num_patched : s_patched s' + Z.of_nat (List.length failed) = s_patched s + Z.of_nat (List.length popped) }.

(** The entry is within reach of the cursor. *)
Definition delayed b (cursor : Z) (e : PatchEntry) : Prop :=
  match e with PatchOptions _ => False | PatchInstr j _ => ∃ I, instr b j = Some I ∧ i_addr I <= cursor end.

Lemma drained_nil s l rest : wf (s_B s) l → B_Q (s_B s) = rev rest → Forall (entry_ok (s_B s) l) rest →
  drained s l [] rest [] s l.
Proof. intros Hw HQ Hr. split; try done; [apply keeps_refl|apply NoDup_nil_2|]. cbn. lia. Qed.

Lemma drained_cons s l j T ok s1 l1 popped rest failed s' l' :
  flushed s l j T ok s1 l1 → PatchInstr j T ∉ popped →
  drained (with_B (set_B_Q (rev (popped ++ rest)) (s_B s1)) s1) l1 popped rest failed s' l' →
  drained s l (PatchInstr j T :: popped) rest (if ok then failed else PatchInstr j T :: failed) s' l'.
Proof.
  intros [F1 FE F2 F3 F4 F5 F6 F7 F8 F9] Hne [D1 DE D2 D3 D4 D5 D6 D7 D8 D9 D10 D11 D12]. cbn [s_B with_B s_g s_failed s_patched] in *.
  set (b1 := set_B_Q _ (s_B s1)) in *. assert (Hf : frame (s_B s1) b1) by (unfold b1; by destruct (s_B s1)).
  destruct (frame_ok _ _ Hf) as (Hk1 & Hp1 & _).
  split; try done; [by rewrite D1|rewrite DE, <- FE; unfold b1; by destruct (s_B s1)|by etrans|by eapply keeps_trans, keeps_trans|by etrans; [|etrans]| | | | |].
  - constructor.
    + destruct ok; [right|left; by left]. apply (landed_keeps None b1 _ l1 l'); [done|done|done|done|].
      apply (landed_frame (s_B s1)); [done|by apply F7].
    + eapply Forall_impl; [exact D8|]. intros e [He|He]; [left|by right]. destruct ok; [done|by right].
  - destruct ok; [intros e He; right; by apply D9|]. intros e [->|He]%elem_of_cons; [by left|right; by apply D9].
  - destruct ok; [done|]. apply NoDup_cons. split; [|done]. intros He. by apply Hne, D9.
  - rewrite D11, F9. destruct ok; cbn [List.length bool_to_Z negb]; lia.
  - destruct ok; cbn [List.length bool_to_Z negb] in *; lia.
Qed.

Lemma flush_loop_ok cursor rq : ∀ s l, g_opts (s_g s) = opts → wf (s_B s) l → B_Q (s_B s) = rev rq → NoDup rq →
  Forall (entry_ok (s_B s) l) rq →
  ∃ s' l' popped rest failed, flush_loop (TR := TR) (VS := VS) getopt_long_only evicteeTrampoline cursor rq s = Some s' ∧
    rq = popped ++ rest ∧ drained s l popped rest failed s' l' ∧
    match rest with [] => True | e :: _ => delayed (s_B s') cursor e end.
Proof.
  induction rq as [|e rq IH]; intros s l Hg Hw HQ Hnd HF; cbn [flush_loop].
  { exists s, l, [], [], []. split_and!; [done|done|by apply drained_nil|done]. }
  apply NoDup_cons in Hnd as [Hne Hnd]. apply Forall_cons in HF as [He HF]. destruct e as [argv|j T]; [done|].
  pose proof He as (I & EI & ET & _). rewrite EI. cbn [mbind option_bind].
  destruct (Z.ltb_spec cursor (i_addr I)) as [Hc|Hc].
  2: { exists s, l, [], (PatchInstr j T :: rq), []. split_and!; [done|done| |by exists I].
       apply drained_nil; [done|done|by constructor]. }
  destruct (flush_entry_ok s l j T Hg Hw He) as (ok & s1 & l1 & E1 & Hfl). rewrite E1. cbn [mbind option_bind].
  set (s2 := with_B (set_B_Q (rev rq) (s_B s1)) s1).
  assert (Hf : frame (s_B s1) (s_B s2)) by (cbn; by destruct (s_B s1)). destruct (frame_ok _ _ Hf) as (_ & _ & Hwf & _).
  destruct (IH s2 l1) as (s' & l' & popped & rest & failed & E' & -> & Hdr & Hrest).
  - cbn. by rewrite (fl_g _ _ _ _ _ _ _ Hfl).
  - apply Hwf, Hfl.
  - cbn. by destruct (s_B s1).
  - done.
  - apply Forall_forall. intros e Hin. rewrite Forall_forall in HF. pose proof (HF e Hin) as Hee. destruct e as [|i U]; [done|].
    apply (entry_frame (s_B s1)); [done|]. apply (fl_entries _ _ _ _ _ _ _ Hfl); [|done]. intros ->.
    destruct Hee as (I' & EI' & ET' & _). rewrite EI in EI'. injection EI' as <-. by rewrite <- ET, <- ET' in *.
  - exists s', l', (PatchInstr j T :: popped), rest, (if ok then failed else PatchInstr j T :: failed).
    split_and!; [exact E'|done| |done]. apply (drained_cons s l j T ok s1 l1); [done| |done].
    intros Hin. apply Hne. apply elem_of_app. by left.
Qed.

End Flush.

End ApiQueue.
