(* ===== verification/E9ApiSpec.v ===== *)
(** * E9ApiSpec: a session

    The messages of src/src/e9patch/e9api.cpp that describe instructions and request patches,
    in any number and order: flushing the queue before the output returns, and every request
    lands at its trampoline or is counted as failed. *)

From stdpp Require Import gmap strings.
From S2P Require Import Prelude E9Patch E9Alloc E9AllocTree E9AllocSpec E9AllocIter E9AllocApi E9X86.
From S2P Require Import E9Tactics E9TacticsMem E9TacticsSpec E9TacticsInv E9TacticsEvict E9TacticsPatch E9Misc E9CFR.
From S2P Require Import E9Options E9Api E9ApiQueue E9Elf E9Trampoline.

Module ApiSpec.
Import E9 E9Alloc AllocTree AllocSpec AllocApi E9X86 E9Tactics TacticsMem TacticsSpec TacticsInv TacticsEvict TacticsPatch.
Import E9Options E9Api ApiQueue.

Section Session.
Context `{W : Window} {S : Type} (TR : Options → Trampolines (E9.Binary S))
  (VS : ∀ o, @VirtualSpace W (E9.Binary S) (TR o) S).
Context {ST : Setup}.
#[local] Instance session_trampolines : Trampolines (E9.Binary S) := TR opts.
#[local] Instance session_space : VirtualSpace (E9.Binary S) S := VS opts.
Context {CT : Contract}.
Context (getopt_long_only : list string → list (Option_ * option string) * bool).
Implicit Types (b : E9.Binary S) (I : Instr) (l : list (ptr * Alloc)) (s : Session S).

(** ** A new instruction *)

(** The instruction is before all others. *)
Definition below b I : Prop :=
  ∀ j X, instr b j = Some X → B_lb b <= j ∧ i_offset I + i_size I <= i_offset X ∧ i_addr I + i_size I <= i_addr X.

(** What is assumed of the instruction that a message describes: it is in the arrays with
    the padding of a page after it, it is not made of prefixes only, and it is at the same
    distance from what follows in the file and in memory. *)
Record fits b I : Prop := {
  fi_ok : instr_ok b I;
  fi_cft : is_Some (isCFT (ORIG b I) (i_size I) T0_FLAGS);
  fi_near : ∀ k K, instr b k = Some K → i_addr K - i_addr I < 256 → i_addr K - i_addr I = i_offset K - i_offset I }.

Record added b I b' : Prop := {
  ad_instr : ∀ j, instr b' j = if decide (j = B_lb b - 1) then Some I else instr b j;
  ad_orig : B_orig b' = B_orig b;
  ad_bytes : B_bytes b' = B_bytes b;
  ad_len : blen (B_state b') = blen (B_state b);
  ad_state : ∀ q, state_at b' q =
    if decide (i_offset I <= q < i_offset I + i_size I) then Some STATE_INSTRUCTION else state_at b q;
  ad_Ts : B_Ts b' = B_Ts b;
  ad_Traps : B_Traps b' = B_Traps b;
  ad_space : B_space b' = B_space b;
  ad_Q : B_Q b' = B_Q b;
  ad_ends : ends b' = (B_lb b - 1, B_ub b, B_cursor b, {[B_lb b - 1]} ∪ dom (B_Is b)) }.

Lemma added_state b I b' q : added b I b' → below b I → known b q → state_at b' q = state_at b q.
Proof.
  intros Ha Hb (i & X & EX & Hq). rewrite (ad_state _ _ _ Ha), decide_False; [done|].
  destruct (Hb i X EX) as (_ & Ho & _). lia.
Qed.

Lemma added_keeps b I b' : added b I b' → below b I → keeps None b b' ∧ preserves_on (known b) b b'.
Proof.
  intros Ha Hb. split.
  - split; [|by rewrite (ad_Ts _ _ _ Ha)|by rewrite (ad_Traps _ _ _ Ha)]. intros i X EX. exists X.
    rewrite (ad_instr _ _ _ Ha), decide_False; [done|]. destruct (Hb i X EX) as (Hi & _). lia.
  - intros q st Hq Es Hf. rewrite (added_state _ _ _ _ Ha Hb Hq). unfold byte_at. rewrite (ad_bytes _ _ _ Ha).
    split; [done|by exists st].
Qed.

Lemma added_layout b I b' : layout b → added b I b' → below b I → fits b I → layout b'.
Proof.
  intros [L1 L2 L3 L4 L5 L6 L7] [A1 A2 A3 A4 A5 A6 _ _ _ _] Hb [F1 F2 F3].
  assert (Hok : ∀ X, instr_ok b X → instr_ok b' X) by (intros X []; split; rewrite ?A2, ?A3, ?A4; done).
  split; unfold ORIG; rewrite ?A2, ?A3, ?A6; try done.
  - intros j X. rewrite A1. destruct (decide _); [intros [= <-]; auto|eauto].
  - intros j k X K Hjk. rewrite !A1. destruct (decide (j = _)) as [->|], (decide (k = _)) as [->|]; intros EX EK; simplify_eq.
    + lia.
    + by destruct (Hb k K EK) as (_ & ? & ?).
    + destruct (Hb j X EX). lia.
    + by eapply L2.
  - intros j k X K Hjk. rewrite !A1. destruct (decide (j = _)) as [->|], (decide (k = _)) as [->|]; intros EX EK; simplify_eq.
    + lia.
    + by apply (F3 k).
    + destruct (Hb j X EX). lia.
    + by eapply L3.
  - intros j X. rewrite A1. destruct (decide _); [intros [= <-]; done|by apply L6].
Qed.

Lemma added_wf b I b' l : wf b l → added b I b' → below b I → fits b I → i_is_evicted I = false → wf b' l.
Proof.
  intros [HL H2 H3 H4] Ha Hb HF He. pose proof Ha as [A1 _ _ _ A5 _ _ A8 _ _]. split.
  - by eapply added_layout.
  - unfold live. by rewrite A8.
  - intros j X Hj EX. rewrite A1 in EX. destruct (decide _).
    + injection EX as <-. apply (shape_code _ _ 0); [lia|intros; lia|]. intros k Hk. unfold states. by rewrite A5, decide_True by lia.
    + apply (shape_ext (states b X)); [|by eapply H3]. intros k Hk. apply (added_state _ _ _ _ Ha Hb). exists j, X. split; [done|lia].
  - intros j X EX HX. rewrite A1 in EX. destruct (decide _); [injection EX as <-; congruence|].
    rewrite (added_state _ _ _ _ Ha Hb) by (exists j, X; split; [done|lia]). by eapply H4.
Qed.

Lemma change_states_same I from to n : ∀ i b b', change_states n I i from to b = Some b' → ∃ st, b' = set_B_state st b.
Proof.
  induction n as [|n IH]; intros i b b'; cbn [change_states].
  { intros [= <-]. exists (B_state b). by destruct b. }
  intros (st & Es & E)%bind_Some_iff. apply bind_Some_iff in E as (u & Ea & E). apply bind_Some_iff in E as (b1 & E1 & E).
  destruct (IH _ _ _ E) as (st2 & ->). unfold set_STATE in E1. apply bind_Some_iff in E1 as (st1 & _ & [= <-]).
  exists st2. by destruct b.
Qed.

(** The message adds the instruction that it describes. *)
Lemma parseInstruction_inv ps s s' : parseInstruction ps s = Some s' →
  (∀ j X, instr (s_B s) j = Some X → B_lb (s_B s) <= j < B_ub (s_B s)) → layout (s_B s) →
  ∃ I b', s' = with_B b' s ∧ B_lb b' = B_lb (s_B s) - 1 ∧ instr b' (B_lb b') = Some I ∧
    (get p_poffset ps = Some (i_offset I) → fits (s_B s) I → added (s_B s) I b' ∧ below (s_B s) I ∧ i_is_evicted I = false).
Proof.
  intros E Hidx HL. set (b := s_B s) in *. unfold parseInstruction in E. fold b in E.
  apply bind_Some_iff in E as (addr & Ea & E). apply bind_Some_iff in E as (len & El & E).
  set (n := u64 len) in *. apply bind_Some_iff in E as (_ & _ & E). apply bind_Some_iff in E as (offset & Eo & E).
  apply bind_Some_iff in E as (_ & _ & E). apply bind_Some_iff in E as (_ & _ & E). apply bind_Some_iff in E as (_ & _ & E).
  apply bind_Some_iff in E as (ok & Eok & E). apply bind_Some_iff in E as (u & Hok & E).
  apply bind_Some_iff in E as (target & _ & E). apply bind_Some_iff in E as (I & EI & E).
  cbn [E9Misc.alloc] in E. set (b1 := set_B_Is _ _) in E. apply bind_Some_iff in E as (b' & Ec & [= <-]).
  destruct (change_states_same _ _ _ _ _ _ _ Ec) as (st & Est).
  exists I, b'. split; [done|].
  assert (Ei : ∀ j, instr b' j = if decide (j = B_lb b - 1) then Some I else instr b j).
  { intros j. subst b' b1. unfold instr. clearbody b. destruct b. cbn. destruct (decide _) as [->|]; [apply lookup_insert_eq|].
    by rewrite !lookup_insert_ne by done. }
  assert (Elb : B_lb b' = B_lb b - 1) by (subst b' b1; clearbody b; by destruct b).
  split; [done|]. split; [by rewrite Ei, Elb, decide_True|]. intros Eoff HF.
  unfold new_Instr in EI. apply bind_Some_iff in EI as (pcrel & _ & [= EI]). 
  assert (Es : i_size I = n ∧ i_addr I = addr ∧ i_is_evicted I = false) by (by rewrite <- EI). destruct Es as (Esz & Ead & Eev).
  rewrite Eo in Eoff. injection Eoff as Eoff. pose proof (fi_ok _ _ HF) as Ho. pose proof (io_size _ _ Ho) as Hsz.
  assert (Hst1 : ∀ q, state_at b1 q = state_at b q) by (intros q; unfold b1; clearbody b; by destruct b).
  destruct (change_states_spec I STATE_UNKNOWN STATE_INSTRUCTION (Z.to_nat n) 0 b1) as (b2 & E2 & Hr & Hby & Hs2).
  { intros k Hk. split; [|by eapply change_states_inv].
    assert (Hm : mapped b (i_offset I + k)) by (apply mapped_near; [done|lia]). unfold b1. clearbody b. by destruct b. }
  rewrite Ec in E2. injection E2 as <-. rewrite Z.add_0_r, Z2Nat.id in Hs2 by lia. rewrite <- Esz in Hs2.
  split; [|split; [|done]].
  - pose proof (rewrites_state _ _ Hr) as Hlen.
    assert (blen (B_state b1) = blen (B_state b)) by (unfold b1; clearbody b; by destruct b).
    assert (Hends : ends b' = (B_lb b - 1, B_ub b, B_cursor b, {[B_lb b - 1]} ∪ dom (B_Is b))).
    { subst b' b1. clearbody b. destruct b. unfold ends. cbn. by rewrite insert_insert_eq, dom_insert_L. }
    split; [done| | |congruence|intros q; rewrite Hs2; by rewrite Hst1|..|exact Hends]; subst b' b1; clearbody b; by destruct b.
  - intros j X EX. pose proof (Hidx j X EX) as Hj. split; [lia|]. unfold in_order in Eok.
    destruct (Z.eqb_spec (B_lb b) (B_ub b)); [lia|]. apply bind_Some_iff in Eok as (J & EJ & [= <-]).
    unfold assert_ in Hok. match type of Hok with context [if ?c then _ else _] => destruct c eqn:Hc; [|done] end.
    apply andb_prop in Hc as [Hc1 Hc2]. apply negb_true_iff, orb_false_iff in Hc1 as [C1 C2]. apply negb_true_iff, orb_false_iff in Hc2 as [C3 C4].
    pose proof (io_addr _ _ Ho) as Had. unfold addr_ok in Had. 
    pose proof (la_instr _ HL _ _ EJ) as HoJ. pose proof (io_addr _ _ HoJ) as HadJ. unfold addr_ok in HadJ.
    rewrite s64_small in C4 by lia.
    assert (HJ : i_offset I + i_size I <= i_offset J ∧ i_addr I + i_size I <= i_addr J).
    { pose proof (Z.mod_pos_bound offset (2 ^ 45)) as Hw. assert (Eoff' : i_offset I = offset mod 2 ^ 45) by (by rewrite <- EI).
      rewrite wrapu_small in C3 by lia. lia. }
    destruct (decide (j = B_lb b)) as [->|]; [rewrite EJ in EX; by injection EX as <-|].
    pose proof (la_sorted _ HL (B_lb b) j J X ltac:(lia) EJ EX). pose proof (io_size _ _ HoJ). lia.
Qed.

(** ** A request *)

Definition queue (e : PatchEntry) b : E9.Binary S := set_B_Q (e :: B_Q b) b.

(** [b'] is [b] with the instruction [j] in the queue for the template [T]. *)
Record enqueued b l j I T b' : Prop := {
  en_wf : wf b' l;
  en_keeps : keeps (Some j) b b';
  en_preserves : preserves b b';
  en_entry : ∃ J, instr b' j = Some J ∧ code J = code I ∧ label J = (T, true) ∧ state_at b' (i_offset J) = Some STATE_QUEUED;
  en_others : ∀ i X, i ≠ j → instr b i = Some X → state_at b' (i_offset X) = state_at b (i_offset X);
  en_Q : B_Q b' = PatchInstr j T :: B_Q b;
  en_ends : ends b' = ends b }.

(** [i->patch = true], the template and the change of the states. *)
Lemma enqueue_ok b l j I T meta b2 : wf b l → instr b j = Some I →
  let J := set_i_request T meta I in
  change_states (Z.to_nat (i_size J)) J 0 STATE_INSTRUCTION STATE_QUEUED (set_B_Is (<[j := J]> (B_Is b)) b) = Some b2 →
  enqueued b l j I T (queue (PatchInstr j T) b2) ∧ B_Q b2 = B_Q b.
Proof.
  intros Hw EI J. set (b1 := set_B_Is _ b). intros E2.
  assert (EJ : instr b1 j = Some J) by (unfold b1; unfold instr; destruct b; cbn; apply lookup_insert_eq).
  assert (Hw1 : wf b1 l) by (by eapply (wf_upd TR VS b l j I (set_i_request T meta))).
  assert (Hk1 : keeps (Some j) b b1) by (apply (keeps_upd _ b j I (set_i_request T meta)); [done|done|by left]).
  assert (Hst : ∀ q, state_at b1 q = state_at b q ∧ byte_at b1 q = byte_at b q) by (intros q; unfold b1; by destruct b).
  assert (Hp1 : preserves b b1) by (intros q st Es Hf; destruct (Hst q) as [-> ->]; split; [done|by exists st]).
  assert (Hx : ends b1 = ends b ∧ B_Q b1 = B_Q b) by (split; [by eapply ends_upd|unfold b1; by destruct b]). destruct Hx as [Hends HQ].
  pose proof (wf_layout _ _ _ Hw1) as HL1. pose proof (la_instr _ HL1 _ _ EJ) as Ho. pose proof (io_size _ _ Ho) as Hsz.
  assert (Hall : ∀ i, 0 <= i < i_size J → states b1 J i = Some STATE_INSTRUCTION).
  { intros i Hi. eapply change_states_inv; [exact E2|]. lia. }
  destruct (change_states_spec J STATE_INSTRUCTION STATE_QUEUED (Z.to_nat (i_size J)) 0 b1) as (b2' & E2' & Hr & Hb & Hs).
  { intros k Hk. split; [apply mapped_near; [done|lia]|apply Hall; lia]. }
  rewrite E2 in E2'. injection E2' as <-. rewrite Z2Nat.id, Z.add_0_r in Hs by lia.
  destruct (wf_requeue TR VS b1 b2 l j J _ _ Hw1 EJ Hr ltac:(by right) Hall Hb Hs) as (Hw2 & Hp2 & He2).
  assert (HQ2 : B_Q b2 = B_Q b) by (rewrite <- HQ; destruct Hr as (bs & st & -> & _); by destruct b1). split; [|exact HQ2].
  assert (Hfr : frame b2 (queue (PatchInstr j T) b2)) by (unfold queue; by destruct b2).
  destruct (frame_ok TR VS _ _ Hfr) as (Hk3 & Hp3 & Hwf3 & Hs3 & Hi3).
  assert (EJ2 : instr b2 j = Some J) by (destruct Hr as (bs & st & -> & _); by destruct b1). split.
  - by apply Hwf3.
  - eapply keeps_trans; [exact Hk1|]. eapply keeps_trans; [by eapply evolves_keeps|done].
  - by etrans; [|etrans].
  - exists J. rewrite Hi3, Hs3, Hs, decide_True by lia. done.
  - intros i X Hij EX. rewrite Hs3, Hs, decide_False; [by destruct (Hst (i_offset X))|].
    pose proof (wf_layout _ _ _ Hw) as HL. pose proof (io_size _ _ (la_instr _ HL _ _ EX)). change (i_offset J) with (i_offset I).
    change (i_size J) with (i_size I). destruct (Z.lt_total i j) as [Hlt|[?|Hlt]]; [|done|].
    + destruct (la_sorted _ HL _ _ _ _ Hlt EX EI). lia.
    + destruct (la_sorted _ HL _ _ _ _ Hlt EI EX). lia.
  - rewrite <- HQ2. unfold queue. by destruct b2.
  - transitivity (ends b2); [unfold queue; by destruct b2|]. by rewrite (evolves_ends _ _ He2).
Qed.

Lemma find_offset b offset j I : E9Misc.find b offset = Some (Some j) → instr b j = Some I → i_offset I = offset.
Proof.
  intros E EI. unfold E9Misc.find in E. apply bind_Some_iff in E as (r & _ & E). destruct r as [j'|]; [|done].
  apply bind_Some_iff in E as (I' & EI' & E). destruct (Z.eqb_spec (i_offset I') offset) as [|]; [|done].
  injection E as ->. congruence.
Qed.

Lemma parsePatch_inv ps s s' l : wf (s_B s) l → parsePatch (TR := TR) (VS := VS) getopt_long_only evicteeTrampoline ps s = Some s' →
  ∃ T j I b', get p_trampoline ps = Some T ∧ get p_poffset ps = Some (i_offset I) ∧
    instr (s_B s) j = Some I ∧ i_patch I = false ∧ enqueued (s_B s) l j I (Some T) b' ∧
    (if option_batch (g_opts (s_g s)) then s' = with_B b' s
     else queueFlush (TR := TR) (VS := VS) getopt_long_only evicteeTrampoline (i_addr I) (with_B b' s) = Some s').
Proof.
  intros Hw E. unfold parsePatch in E. set (b := s_B s) in *.
  apply bind_Some_iff in E as (T & ET & E). apply bind_Some_iff in E as (offset & Eo & E). apply bind_Some_iff in E as (_ & _ & E).
  apply bind_Some_iff in E as (r & Ef & E). apply bind_Some_iff in E as (j & -> & E). apply bind_Some_iff in E as (I & EI & E).
  apply bind_Some_iff in E as (u & Hpt & E). apply bind_Some_iff in E as (b1 & E1 & E).
  assert (Hp : i_patch I = false) by (unfold assert_ in Hpt; by destruct (i_patch I)).
  set (meta := get p_metadata ps) in *. unfold upd_instr in E1. rewrite EI in E1. cbn [mbind option_bind] in E1. injection E1 as E1.
  unfold queuePatch in E. cbn [s_B with_B] in E.
  assert (EJ : instr b1 j = Some (set_i_request (Some T) meta I))
    by (subst b1; clearbody b; unfold instr; destruct b; cbn; apply lookup_insert_eq).
  rewrite EJ in E. cbn [mbind option_bind] in E. apply bind_Some_iff in E as (b2 & E2 & E). rewrite <- E1 in E2.
  destruct (enqueue_ok b l j I (Some T) meta b2 Hw EI E2) as [Hen _].
  exists T, j, I, (queue (PatchInstr j (Some T)) b2). split; [done|]. rewrite (find_offset _ _ _ _ Ef EI). do 3 (split; [done|]). split; [done|].
  unfold queue. cbn [s_g with_B] in E. destruct (option_batch _); cbn [negb] in E; [by injection E as <-|exact E].
Qed.

(** ** The invariant of a session *)

Definition requested b (e : PatchEntry) : Prop :=
  ∃ j T I, e = PatchInstr j T ∧ instr b j = Some I ∧ i_patch I = true.

(** Of the requests [H], those in [F] failed, those in [L] landed, and the others wait. *)
Record inv s l (H F L : list PatchEntry) : Prop := {
  iv_g : g_opts (s_g s) = opts;
  iv_wf : wf (s_B s) l;
  iv_ends : B_lb (s_B s) <= B_ub (s_B s);
  iv_idx : ∀ j X, instr (s_B s) j = Some X → B_lb (s_B s) <= j < B_ub (s_B s);
  iv_H : H ≡ₚ B_Q (s_B s) ++ F ++ L;
  iv_nodup : NoDup H;
  iv_req : ∀ e, e ∈ H → requested (s_B s) e;
  iv_Q : Forall (entry_ok (s_B s) l) (B_Q (s_B s));
  iv_L : Forall (landed (s_B s) l) L;
  iv_failed : s_failed s = Z.of_nat (List.length F);
  iv_patched : s_patched s = Z.of_nat (List.length L) }.

Lemma requested_keeps x b b' e : keeps x b b' → (∀ j T, e = PatchInstr j T → x ≠ Some j) → requested b e → requested b' e.
Proof.
  intros Hk Hx (j & T & I & -> & EI & Hp). destruct (kp_instr _ _ _ Hk _ _ EI) as (I' & EI' & _ & Hl).
  pose proof (Hl (λ E, Hx j T eq_refl (eq_sym E))) as [= _ Hp']. exists j, T, I'. split; [done|]. split; congruence.
Qed.

Lemma landed_all x b b' l l' L : keeps x b b' → preserves_on (known b) b b' → l ⊆ l' →
  (∀ j T, PatchInstr j T ∈ L → x ≠ Some j) → Forall (landed b l) L → Forall (landed b' l') L.
Proof.
  intros Hk Hp Hl Hx HL. rewrite Forall_forall in *. intros e He. pose proof (HL e He) as Hla. destruct e as [|j T]; [done|].
  apply (landed_known x b b' l l' j T); [done..| |done]. by apply (Hx j T).
Qed.

(** Entries that left the queue. *)
Lemma popped_split b l (popped failed : list PatchEntry) : NoDup popped → NoDup failed → failed ⊆ popped →
  Forall (λ e, e ∈ failed ∨ landed b l e) popped →
  ∃ L, popped ≡ₚ failed ++ L ∧ Forall (landed b l) L.
Proof.
  intros Hnp Hnf Hsub Hall. destruct (submseteq_Permutation failed popped) as (L & HL); [by apply NoDup_submseteq|].
  exists L. split; [done|]. rewrite Forall_forall in *. intros e He. rewrite HL in Hnp. apply NoDup_app in Hnp as (_ & Hd & _).
  destruct (Hall e) as [Hf|]; [rewrite HL; apply elem_of_app; by right| |done]. by destruct (Hd e Hf).
Qed.

(** A flush returns and keeps the invariant; the entries that stay are within reach. *)
Lemma queueFlush_inv c s l H F L : inv s l H F L → c < B_cursor (s_B s) →
  ∃ s' l' F' L', queueFlush (TR := TR) (VS := VS) getopt_long_only evicteeTrampoline c s = Some s' ∧
    inv s' l' H F' L' ∧ B_cursor (s_B s') = c ∧
    match rev (B_Q (s_B s')) with [] => True | e :: _ => delayed (s_B s') (s64 (c + flush_distance)) e end.
Proof.
  intros [I1 I2 I0 I3 I4 I5 I6 I7 I8 I9 I10] Hc. unfold queueFlush. destruct (Z.leb_spec (B_cursor (s_B s)) c); [lia|].
  set (s1 := with_B (set_B_cursor c (s_B s)) s).
  assert (Hfr : frame (s_B s) (s_B s1)) by (unfold s1; cbn; by destruct (s_B s)).
  destruct (frame_ok TR VS _ _ Hfr) as (Hk1 & Hp1 & Hwf1 & _ & Hi1).
  assert (EQ1 : B_Q (s_B s1) = B_Q (s_B s)) by (unfold s1; cbn; by destruct (s_B s)).
  assert (Hends1 : ends (s_B s1) = (B_lb (s_B s), B_ub (s_B s), c, dom (B_Is (s_B s)))) by (unfold s1; cbn; by destruct (s_B s)).
  assert (Hnd : NoDup (B_Q (s_B s))) by (rewrite I4 in I5; apply NoDup_app in I5 as (? & _); done).
  assert (Hnd' : NoDup (rev (B_Q (s_B s)))) by (by rewrite <- Permutation_rev).
  destruct (flush_loop_ok TR VS getopt_long_only (s64 (c + flush_distance)) (rev (B_Q (s_B s))) s1 l)
    as (s' & l' & popped & rest & failed & E & Hsplit & [D1 D2 D3 D4 D5 D6 D7 D8 D9 D10 D11 D12 D13] & Hrest).
  { done. } { by apply Hwf1. } { by rewrite EQ1, rev_involutive. } { done. }
  { rewrite <- Permutation_rev. eapply Forall_impl; [exact I7|]. intros e. by eapply entry_frame. }
  rewrite Hsplit in Hnd'. pose proof Hnd' as (Hndp & _)%NoDup_app.
  destruct (popped_split _ _ _ _ Hndp D11 D10 D9) as (L1 & HL1 & Hla1).
  assert (HB : keeps None (s_B s) (s_B s') ∧ preserves (s_B s) (s_B s')) by (split; [by eapply keeps_trans|by etrans]).
  destruct HB as [Hk Hp]. rewrite Hends1 in D2. unfold ends in D2. injection D2 as El Eu Ec Ed.
  assert (HQ : B_Q (s_B s) ≡ₚ popped ++ rest) by (rewrite <- Hsplit; by rewrite <- Permutation_rev).
  exists s', l', (failed ++ F), (L1 ++ L). split; [exact E|]. split; [|split; [exact Ec|by rewrite D7, rev_involutive]]. split.
  - by rewrite D1.
  - done.
  - lia.
  - intros j X EX. rewrite El, Eu. unfold instr in EX. apply elem_of_dom_2 in EX. rewrite Ed in EX. apply elem_of_dom in EX as [Y EY]. by apply (I3 j Y).
  - rewrite I4, HQ, D7, <- Permutation_rev, HL1. solve_Permutation.
  - done.
  - intros e He. eapply (requested_keeps None); [done|done|by apply I6].
  - by rewrite D7, <- Permutation_rev.
  - apply Forall_app. split; [done|]. by eapply (landed_all None); [|apply preserves_all| | |].
  - rewrite D12, length_app. unfold s1. cbn. lia.
  - rewrite length_app. apply Permutation_length in HL1. rewrite length_app in HL1. unfold s1 in *. cbn in *. lia.
Qed.

(** ** The messages *)

(** The parser allocates new templates. *)
Definition fresh (m : Message) s : Prop := m_templates m ##ₘ B_Ts (s_B s).

(** The session before the first instruction. *)
Record start s l : Prop := {
  st_g : g_opts (s_g s) = opts;
  st_wf : wf (s_B s) l;
  st_Is : B_Is (s_B s) = ∅;
  st_ends : B_lb (s_B s) = B_ub (s_B s);
  st_Q : B_Q (s_B s) = [];
  st_cursor : INTPTR_MIN < B_cursor (s_B s);
  st_stats : s_failed s = 0 ∧ s_patched s = 0 }.

(** The messages that were accepted, and the requests among them. *)
Inductive session s0 : Session S → list PatchEntry → Prop :=
| session_start : session s0 s0 []
| session_instruction s H m s' :
    session s0 s H → m_method m = METHOD_INSTRUCTION → fresh m s →
    parseInstruction (m_params m) (receive m s) = Some s' →
    (∀ I, instr (s_B s') (B_lb (s_B s')) = Some I →
       get p_poffset (m_params m) = Some (i_offset I) ∧ fits (s_B (receive m s)) I) →
    session s0 s' H
| session_trampoline s H m s' :
    session s0 s H → m_method m = METHOD_TRAMPOLINE → fresh m s →
    parseTrampoline (m_params m) (receive m s) = Some s' → session s0 s' H
| session_patch s H m s' j I T :
    session s0 s H → m_method m = METHOD_PATCH → fresh m s →
    parsePatch (TR := TR) (VS := VS) getopt_long_only evicteeTrampoline (m_params m) (receive m s) = Some s' →
    instr (s_B s) j = Some I → get p_poffset (m_params m) = Some (i_offset I) → get p_trampoline (m_params m) = Some T →
    patchable I (Some T) → session s0 s' (PatchInstr j (Some T) :: H).

(** New templates and metadata, and names, change nothing that the invariant is about. *)
Record aside b b' : Prop := {
  as_frame : frame b (set_B_Ts (B_Ts b) b');
  as_Ts : B_Ts b ⊆ B_Ts b';
  as_Q : B_Q b' = B_Q b;
  as_ends : ends b' = ends b }.

Lemma aside_ok b b' : aside b b' → keeps None b b' ∧ preserves b b' ∧ (∀ l, wf b l → wf b' l) ∧
  (∀ q, state_at b' q = state_at b q) ∧ ∀ i, instr b' i = instr b i.
Proof.
  intros [Hf HT _ _]. destruct (frame_ok TR VS _ _ Hf) as ([K1 _ K3] & Hp & Hw & Hs & Hi). destruct b'. cbn in *.
  split; [split; done|]. split; [done|]. split; [|done]. intros l H. destruct (Hw l H) as [[L1 L2 L3 L4 L5 L6 L7] W2 W3 W4].
  split; try done. split; try done; [|cbn in *; by apply (subseteq_dom _ _ HT)].
  intros j I EI. destruct (L1 j I EI). by split.
Qed.

Lemma aside_inv s b' l H F L : aside (s_B s) b' → inv s l H F L → inv (with_B b' s) l H F L.
Proof.
  intros Ha [I1 I2 I0 I3 I4 I5 I6 I7 I8 I9 I10]. destruct (aside_ok _ _ Ha) as (Hk & Hp & Hw & Hs & Hi).
  pose proof (as_ends _ _ Ha) as He. unfold ends in He. injection He as E1 E2 E3 _.
  split; cbn [s_g s_B with_B s_failed s_patched]; rewrite ?(as_Q _ _ Ha), ?E1, ?E2; try done.
  - by apply Hw.
  - intros j X. rewrite Hi. apply I3.
  - intros e He. eapply (requested_keeps None); [done|done|by apply I6].
  - eapply Forall_impl; [exact I7|]. intros [|j T]; [done|]. apply (entry_keeps None); [done|done|done|done|].
    intros X X' _ _ Eq. left. by rewrite Hs.
  - by eapply (landed_all None); [|apply preserves_all| | |].
Qed.

Lemma receive_aside m s : fresh m s → aside (s_B s) (s_B (receive m s)).
Proof.
  unfold fresh, receive. cbn [s_B with_B]. intros Hf. destruct (s_B s). split; cbn in *; try done.
  by apply map_union_subseteq_r.
Qed.

Lemma trampoline_aside ps s s' : parseTrampoline ps s = Some s' → ∃ b', s' = with_B b' s ∧ aside (s_B s) b'.
Proof.
  unfold parseTrampoline. intros E. apply bind_Some_iff in E as (name & _ & E). apply bind_Some_iff in E as (u & _ & E).
  apply bind_Some_iff in E as (T & _ & E). apply bind_Some_iff in E as (v & _ & E). destruct (B_names _ !! name); [done|].
  injection E as <-. eexists. split; [done|]. by destruct (s_B s).
Qed.

Lemma instruction_inv ps s s' l H F L : inv s l H F L → parseInstruction ps s = Some s' →
  (∀ I, instr (s_B s') (B_lb (s_B s')) = Some I → get p_poffset ps = Some (i_offset I) ∧ fits (s_B s) I) →
  inv s' l H F L ∧ B_cursor (s_B s') = B_cursor (s_B s).
Proof.
  intros [I1 I2 I0 I3 I4 I5 I6 I7 I8 I9 I10] E Hfit.
  destruct (parseInstruction_inv ps s s' E I3 (wf_layout _ _ _ I2)) as (I & b' & -> & Elb & EI & Ha). cbn [s_B with_B] in *.
  destruct (Hfit I EI) as [Eo HF]. destruct (Ha Eo HF) as (Had & Hbel & Hev). destruct (added_keeps _ _ _ Had Hbel) as [Hk Hp].
  pose proof (ad_ends _ _ _ Had) as He. unfold ends in He. injection He as E1 E2 E3 _. split; [|done].
  split; cbn [s_g s_B with_B s_failed s_patched]; rewrite ?(ad_Q _ _ _ Had); try done.
  - by eapply added_wf.
  - lia.
  - intros j X. rewrite (ad_instr _ _ _ Had), E1, E2. destruct (decide _) as [->|]; [|intros EX; pose proof (I3 j X EX); lia].
    intros _. lia.
  - intros e He. eapply (requested_keeps None); [done|done|by apply I6].
  - eapply Forall_impl; [exact I7|]. intros [|j T]; [done|]. apply (entry_known None); [done|done|done|done|].
    intros X X' EX _ Eq. left. rewrite (added_state _ _ _ _ Had Hbel); [done|]. by exists j, X.
  - by eapply (landed_all None).
Qed.

Lemma enqueued_inv s l H F L j I T b' : inv s l H F L → instr (s_B s) j = Some I → i_patch I = false → patchable I T →
  enqueued (s_B s) l j I T b' → inv (with_B b' s) l (PatchInstr j T :: H) F L.
Proof.
  intros [I1 I2 I0 I3 I4 I5 I6 I7 I8 I9 I10] EI Hpt (P1 & P2 & P3) [E1 Hk Hp (J & EJ & HcJ & HlJ & HsJ) E5 E6 E7].
  destruct (code_fields _ _ HcJ) as (_ & F2 & _). unfold label in HlJ. injection HlJ as HT HpJ. unfold ends in E7. injection E7 as G1 G2 G3 G4.
  assert (Hne : ∀ i U, PatchInstr i U ∈ H → i ≠ j).
  { intros i U He ->. destruct (I6 _ He) as (i & U' & X & [= <- <-] & EX & HX). rewrite EI in EX. injection EX as <-. congruence. }
  assert (HHQ : ∀ e, e ∈ B_Q (s_B s) → e ∈ H) by (intros e He; rewrite I4; apply elem_of_app; by left).
  assert (HHL : ∀ e, e ∈ L → e ∈ H) by (intros e He; rewrite I4, !elem_of_app; by right; right).
  split; cbn [s_g s_B with_B s_failed s_patched]; rewrite ?E6, ?G1, ?G2; try done.
  - intros i X EX. unfold instr in EX. apply elem_of_dom_2 in EX. rewrite G4 in EX. apply elem_of_dom in EX as [Y EY]. by apply (I3 i Y).
  - by rewrite I4.
  - apply NoDup_cons. split; [|done]. intros He. by apply (Hne _ _ He).
  - intros e [->|He]%elem_of_cons; [by exists j, T, J|]. apply (requested_keeps (Some j) (s_B s)); [done| |by apply I6].
    intros i U ->  [= <-]. by apply (Hne _ _ He).
  - apply Forall_cons. split.
    { exists J. split; [done|]. split; [done|]. split; [by rewrite <- F2 in *|by left]. }
    rewrite Forall_forall in *. intros e He. pose proof (I7 e He) as Hok. destruct e as [|i U]; [done|]. pose proof (Hne _ _ (HHQ _ He)) as Hij.
    apply (entry_keeps (Some j) (s_B s) _ l); [done|done|done|by intros [= <-]| |done]. intros X X' EX _ Eq. left. by rewrite (E5 i X).
  - apply (landed_all (Some j) (s_B s) _ l); [done|by apply preserves_all|done| |done]. intros i U He [= <-]. by apply (Hne _ _ (HHL _ He)).
Qed.

Lemma start_inv s l : start s l → inv s l [] [] [].
Proof.
  intros [S1 S2 S3 S4 S5 S6 [S7 S8]]. split; rewrite ?S5; try done; [lia|intros j X; unfold instr; by rewrite S3|apply NoDup_nil_2|].
  by intros e He%elem_of_nil.
Qed.

Lemma receive_inv m s l H F L : fresh m s → inv s l H F L → inv (receive m s) l H F L.
Proof. intros Hf. apply aside_inv, receive_aside, Hf. Qed.

Lemma receive_cursor m s : B_cursor (s_B (receive m s)) = B_cursor (s_B s).
Proof. unfold receive. cbn. by destruct (s_B s). Qed.

(** An offset is that of one instruction only. *)
Lemma same_offset b j k I K : layout b → instr b j = Some I → instr b k = Some K → i_offset I = i_offset K → j = k.
Proof.
  intros HL EI EK Ho. pose proof (io_size _ _ (la_instr _ HL _ _ EI)). pose proof (io_size _ _ (la_instr _ HL _ _ EK)).
  destruct (Z.lt_total j k) as [Hlt|[?|Hlt]]; [|done|].
  - destruct (la_sorted _ HL _ _ _ _ Hlt EI EK). lia.
  - destruct (la_sorted _ HL _ _ _ _ Hlt EK EI). lia.
Qed.

Lemma session_inv s0 l0 s H : start s0 l0 → session s0 s H →
  ∃ l F L, inv s l H F L ∧ INTPTR_MIN < B_cursor (s_B s).
Proof.
  intros Hs. induction 1 as [|s H m s' Hse (l & F & L & Hi & Hc) Hm Hf E Hfit|s H m s' Hse (l & F & L & Hi & Hc) Hm Hf E
                            |s H m s' j I T Hse (l & F & L & Hi & Hc) Hm Hf E EI Eo ET Hpa].
  - exists l0, [], []. split; [by apply start_inv|apply Hs].
  - apply (receive_inv m) in Hi; [|done]. destruct (instruction_inv _ _ _ _ _ _ _ Hi E Hfit) as [Hi' Hc'].
    exists l, F, L. split; [done|]. by rewrite Hc', receive_cursor.
  - apply (receive_inv m) in Hi; [|done]. destruct (trampoline_aside _ _ _ E) as (b' & -> & Ha).
    exists l, F, L. split; [by apply aside_inv|]. pose proof (as_ends _ _ Ha) as He. unfold ends in He. injection He as _ _ He _.
    cbn [s_B with_B]. by rewrite He, ?receive_cursor.
  - pose proof (receive_inv m _ _ _ _ _ Hf Hi) as Hi'. destruct (aside_ok _ _ (receive_aside m s Hf)) as (_ & _ & _ & _ & Hii).
    destruct (parsePatch_inv _ _ _ _ (iv_wf _ _ _ _ _ Hi') E) as (T' & j' & I' & b' & ET' & Eo' & EI' & Hpt & Hen & Hq).
    assert (T' = T) as -> by congruence. assert (j' = j) as ->.
    { rewrite <- Hii in EI. eapply (same_offset (s_B (receive m s))); [apply (iv_wf _ _ _ _ _ Hi')|done|done|congruence]. }
    rewrite Hii, EI in EI'. injection EI' as <-. rewrite <- Hii in EI.
    pose proof (enqueued_inv _ _ _ _ _ _ _ _ _ Hi' EI Hpt Hpa Hen) as Hi2.
    assert (Hc2 : B_cursor b' = B_cursor (s_B s)).
    { pose proof (en_ends _ _ _ _ _ _ Hen) as He. unfold ends in He. injection He as _ _ He _. by rewrite He, ?receive_cursor. }
    destruct (option_batch _).
    + subst s'. exists l, F, L. split; [done|]. cbn. by rewrite Hc2.
    + assert (Hlt : i_addr I < B_cursor b').
      { unfold queueFlush in Hq. cbn [s_B with_B] in Hq. destruct (Z.leb_spec (B_cursor b') (i_addr I)); [done|lia]. }
      destruct (queueFlush_inv (i_addr I) _ _ _ _ _ Hi2 Hlt) as (s2 & l' & F' & L' & Hq' & Hi3 & Hc3 & _).
      rewrite Hq in Hq'. injection Hq' as <-. exists l', F', L'. split; [done|]. rewrite Hc3.
      pose proof (io_addr _ _ (la_instr _ (wf_layout _ _ _ (iv_wf _ _ _ _ _ Hi')) _ _ EI)) as Ha. unfold addr_ok, INTPTR_MIN in *. lia.
Qed.

End Session.

(** ** A small program *)

#[local] Instance small_W : Window := AllocIter.relative_window.
#[local] Instance small_TR : Trampolines (E9.Binary Tree) := plain_trampolines (E9.Binary Tree).
#[local] Instance small_setup : Setup := {| opts := default_options; evicteeTrampoline := 1%positive |}.

(** [mov $1,%eax; ret] before any message. *)
Definition small_bytes : bytes := repeat 0 16 ++ [0xb8; 1; 0; 0; 0; 0xc3] ++ repeat 0 64.
Definition small_binary : E9.Binary Tree :=
  MkBinary (blen small_bytes) MODE_ELF_EXE 0 false small_bytes small_bytes (repeat STATE_UNKNOWN 86) INTPTR_MAX []
    ∅ 0 0 {[1%positive := E9Trampoline.E9Trampoline.evicteeTrampolineInit]} ∅ ∅ ∅ [] [] ∅ empty_tree (MkStats 0 0 0 0 0 0 0).
Definition small_start : Session Tree :=
  MkSession small_binary default_globals "a.out" None (E9Elf.MkElfInfo None None None None None) None [] [] [] [] INTPTR_MIN 0 0.

Lemma small_contract : Contract (S := Tree).
Proof. by apply sample_contract. Qed.

Lemma small_starts : start (λ _, small_TR) (λ _, @tree_space _ _ small_TR) small_start [].
Proof.
  split; try done. split.
  - split; try by intros j I E. 1,2: by apply bytes_ok_check. apply elem_of_dom. by exists E9Trampoline.E9Trampoline.evicteeTrampolineInit.
  - apply empty_valid.
  - by intros j I _ E.
  - by intros j I E.
Qed.

Definition small_message (m : Method) (ps : list Param) : Message := MkMessage m ps ∅ ∅.
Definition small_ret : Message :=
  small_message METHOD_INSTRUCTION [PARAM_ADDRESS 0x401005; PARAM_LENGTH 1; PARAM_OFFSET 21].
Definition small_mov : Message :=
  small_message METHOD_INSTRUCTION [PARAM_ADDRESS 0x401000; PARAM_LENGTH 5; PARAM_OFFSET 16].
Definition small_patch : Message := small_message METHOD_PATCH [PARAM_TRAMPOLINE 2%positive; PARAM_OFFSET 16].
Definition no_getopt (argv : list string) : list (Option_ * option string) * bool := ([], false).

Definition small_instr (off n : Z) : Instr :=
  MkInstr off n 0 0 true false false false false false false (0x400ff0 + off) None None.

(** The session after each of the three messages. *)
Definition small_1 : Session Tree := default small_start (parseInstruction (m_params small_ret) (receive small_ret small_start)).
Definition small_2 : Session Tree := default small_start (parseInstruction (m_params small_mov) (receive small_mov small_1)).
Definition small_3 : Session Tree :=
  default small_start (parsePatch (TR := λ _, small_TR) (VS := λ _, @tree_space _ _ small_TR) no_getopt 1%positive
    (m_params small_patch) (receive small_patch small_2)).

Lemma small_fits (s : Session Tree) off n : instr_ok (s_B s) (small_instr off n) → is_Some (isCFT (ORIG (s_B s) (small_instr off n)) n T0_FLAGS) →
  (∀ k K, instr (s_B s) k = Some K → i_addr K - i_offset K = 0x400ff0) → fits (s_B s) (small_instr off n).
Proof. intros Ho Hc Hn. split; [done|done|]. intros k K EK _. pose proof (Hn k K EK). cbn. lia. Qed.

Lemma small_session : session (λ _, small_TR) (λ _, @tree_space _ _ small_TR) no_getopt small_start small_3
  [PatchInstr (-2) (Some 2%positive)].
Proof.
  assert (H1 : session (λ _, small_TR) (λ _, @tree_space _ _ small_TR) no_getopt small_start small_1 []).
  { eapply session_instruction with (m := small_ret); [apply session_start|done|apply map_disjoint_empty_l|vm_compute; reflexivity|].
    intros I E. assert (E' : instr (s_B small_1) (B_lb (s_B small_1)) = Some (small_instr 21 1)) by (vm_compute; reflexivity).
    rewrite E' in E. apply Some_inj in E as <-. split; [done|]. apply small_fits.
    - split; unfold addr_ok; vm_compute; intuition congruence.
    - vm_compute. by eexists.
    - by intros k K EK. }
  assert (H2 : session (λ _, small_TR) (λ _, @tree_space _ _ small_TR) no_getopt small_start small_2 []).
  { eapply session_instruction with (m := small_mov); [exact H1|done|apply map_disjoint_empty_l|vm_compute; reflexivity|].
    intros I E. assert (E' : instr (s_B small_2) (B_lb (s_B small_2)) = Some (small_instr 16 5)) by (vm_compute; reflexivity).
    rewrite E' in E. apply Some_inj in E as <-. split; [done|]. apply small_fits.
    - split; unfold addr_ok; vm_compute; intuition congruence.
    - vm_compute. by eexists.
    - intros k K EK. assert (Ei : B_Is (s_B (receive small_mov small_1)) = {[-1 := small_instr 21 1]}) by (vm_compute; reflexivity).
      unfold instr in EK. rewrite Ei in EK. apply lookup_singleton_Some in EK as [_ <-]. reflexivity. }
  eapply (session_patch _ _ _ _ small_2 [] small_patch small_3 (-2) (small_instr 16 5));
    [exact H2|done|apply map_disjoint_empty_l|vm_compute; reflexivity|vm_compute; reflexivity|done|done|].
  split; [done|]. split; [by intros [=]|by left].
Qed.

(** ** Property *)



End ApiSpec.
