(* ===== verification/E9Json.v ===== *)
(** * E9Json: the parser of messages

    Models src/src/e9patch/e9json.cpp: the tokens, numbers in strings, the templates, the
    parameters and [getMessage].  A computation of the parser is a function on its state that
    gives a result, fails (an error message and [exit]), is undefined behaviour, or runs out
    of fuel, which the file E9JsonTotal excludes.  A pointer to a string, a byte array or a
    template is what it points to.  The caches that share equal strings and byte arrays are
    therefore left out, since nothing compares their addresses; the cache of templates
    ([dupTrampoline]) is a part of the state, since it takes a template for an equivalent
    one. *)

From stdpp Require Import gmap strings.
From S2P Require Import Prelude E9Patch E9Alloc E9Trampoline E9Api.

Module Json.

(** ** The state and the monad *)

Definition STRING_MAX : nat := 1024.
Definition NUMBER_MAX : nat := 12.
Definition PARAM_MAX : nat := 8.

(** Characters of the stream, which are [char]s, and tokens. *)
Definition T_EOF : Z := -1.
Definition T_COLON : Z := 0x3A.
Definition T_COMMA : Z := 0x2C.
Definition T_LBRACE : Z := 0x7B.
Definition T_RBRACE : Z := 0x7D.
Definition T_LBRACK : Z := 0x5B.
Definition T_RBRACK : Z := 0x5D.
Definition T_QUOTE : Z := 0x22.
Definition T_BACKSLASH : Z := 0x5C.
Definition TOKEN_NONE : Z := 0.
Definition TOKEN_NULL : Z := 0x30.
Definition TOKEN_BOOL : Z := 0x42.
Definition TOKEN_STRING : Z := 0x53.
Definition TOKEN_NUMBER : Z := 0x4E.

(** [struct Parser]: the rest of the stream, and [s] as the C string that it holds.  The last
    field is the cache of [dupTrampoline]. *)
Record Parser := MkParser { p_in : bytes; p_line : Z; p_peek : Z; p_b : bool; p_i : Z; p_s : string; p_cache : list E9.Trampoline }.

Definition set_in (x : bytes) (p : Parser) : Parser := MkParser x (p_line p) (p_peek p) (p_b p) (p_i p) (p_s p) (p_cache p).
Definition set_line (x : Z) (p : Parser) : Parser := MkParser (p_in p) x (p_peek p) (p_b p) (p_i p) (p_s p) (p_cache p).
Definition set_peek (x : Z) (p : Parser) : Parser := MkParser (p_in p) (p_line p) x (p_b p) (p_i p) (p_s p) (p_cache p).
Definition set_b (x : bool) (p : Parser) : Parser := MkParser (p_in p) (p_line p) (p_peek p) x (p_i p) (p_s p) (p_cache p).
Definition set_i (x : Z) (p : Parser) : Parser := MkParser (p_in p) (p_line p) (p_peek p) (p_b p) x (p_s p) (p_cache p).
Definition set_s (x : string) (p : Parser) : Parser := MkParser (p_in p) (p_line p) (p_peek p) (p_b p) (p_i p) x (p_cache p).
Definition set_cache (x : list E9.Trampoline) (p : Parser) : Parser := MkParser (p_in p) (p_line p) (p_peek p) (p_b p) (p_i p) (p_s p) x.

Inductive res (A : Type) := Done (x : A) | Failed | Undefined | OutOfFuel.
Arguments Done {A} _.
Arguments Failed {A}.
Arguments Undefined {A}.
Arguments OutOfFuel {A}.

Definition M (A : Type) : Type := Parser → res (A * Parser).

#[export] Instance M_ret : MRet M := λ A x p, Done (x, p).

#[export] Instance M_bind : MBind M := λ A B f m p,
  match m p with Done (x, p) => f x p | Failed => Failed | Undefined => Undefined | OutOfFuel => OutOfFuel end.

Definition fail {A} : M A := λ _, Failed.
Definition undefined {A} : M A := λ _, Undefined.
Definition out_of_fuel {A} : M A := λ _, OutOfFuel.
Definition gets {A} (f : Parser → A) : M A := λ p, Done (f p, p).
Definition modify (f : Parser → Parser) : M unit := λ p, Done (tt, f p).

(** Fuel for a loop or a recursion: every round consumes a token, and so a character or the
    token that was peeked at. *)
Definition with_fuel {A} (f : nat → M A) : M A := λ p, f (2 * List.length (p_in p) + 4)%nat p.

(** ** Characters *)

Definition isspace (c : Z) : bool := (c =? 0x20) || between 9 13 c.
Definition isdigit (c : Z) : bool := between 0x30 0x39 c.

(** The result is a [char]: the end of the file is -1, and so is a byte 0xFF. *)
Definition getc : M Z := λ p,
  match p_in p with
  | [] => Done (T_EOF, p)
  | b :: rest => let p := set_in rest p in Done (s8 b, if b =? 10 then set_line (p_line p + 1) p else p)
  end.

(** Pushing back -1 does nothing. *)
Definition ungetc (c : Z) : M unit := λ p,
  let p := if c =? 10 then set_line (p_line p - 1) p else p in
  Done (tt, if c =? T_EOF then p else set_in (u8 c :: p_in p) p).

(** The C string that a buffer with these characters and a NUL holds. *)
Fixpoint c_string (l : bytes) : string :=
  match l with
  | [] => EmptyString
  | b :: l => if u8 b =? 0 then EmptyString else String (ascii_of_N (Z.to_N (u8 b))) (c_string l)
  end.

(** [s[i]] *)
Definition char_at (s : string) (i : nat) : Z := match String.get i s with Some c => Z.of_N (N_of_ascii c) | None => 0 end.

(** ** Tokens *)

(** The loop over blanks; [n] is the number of characters left. *)
Fixpoint skip_space (n : nat) : M Z :=
  c ← getc;
  if isspace c then match n with O => out_of_fuel | S n => skip_space n end else mret c.

Fixpoint expect_chars (cs : bytes) : M unit :=
  match cs with
  | [] => mret tt
  | c :: cs => d ← getc; if d =? c then expect_chars cs else fail
  end.

(** The digits of a number into the [n] characters that are left of the buffer. *)
Fixpoint read_digits (n : nat) (acc : bytes) : M bytes :=
  match n with
  | O => fail
  | S n =>
      c ← getc;
      if isdigit c then read_digits n (acc ++ [c])
      else _ ← ungetc c; mret acc
  end.

Definition digits_value (ds : bytes) : Z := foldl (λ v d, 10 * v + (d - 0x30)) 0 ds.

(** [strtoll] on a minus sign and digits, which never leave 64 bits. *)
Definition number_value (s : bytes) : Z :=
  match s with
  | c :: ds => if c =? 0x2D then - digits_value ds else digits_value s
  | [] => 0
  end.

Definition escape (c : Z) : Z :=
  if c =? 0x74 then 9 else if c =? 0x6E then 10 else if c =? 0x72 then 13 else if c =? 0x62 then 8 else if c =? 0x66 then 12 else c.

(** A string into the [n] characters that are left of the buffer. *)
Fixpoint read_string (n : nat) (acc : bytes) : M bytes :=
  match n with
  | O => fail
  | S n =>
      c ← getc;
      if c =? T_QUOTE then mret acc
      else if c =? T_EOF then fail
      else if c =? T_BACKSLASH then
        d ← getc;
        if d =? T_EOF then fail
        else if d =? 0x75 then fail
        else read_string n (acc ++ [escape d])
      else read_string n (acc ++ [c])
  end.

Definition one_char (c : Z) : bool :=
  one_of [T_COLON; T_COMMA; T_LBRACE; T_RBRACE; T_LBRACK; T_RBRACK; T_EOF] c.

(** The next token, which is not peeked at yet. *)
Definition scanToken : M Z :=
  n ← gets (λ p, List.length (p_in p));
  c ← skip_space n;
  if one_char c then mret c
  else if c =? 0x74 then _ ← expect_chars [0x72; 0x75; 0x65]; _ ← modify (set_b true); mret TOKEN_BOOL
  else if c =? 0x66 then _ ← expect_chars [0x61; 0x6C; 0x73; 0x65]; _ ← modify (set_b false); mret TOKEN_BOOL
  else if c =? 0x6E then _ ← expect_chars [0x75; 0x6C; 0x6C]; mret TOKEN_NULL
  else if (c =? 0x2D) || isdigit c then
    s ← read_digits (NUMBER_MAX - 1) [c];
    _ ← modify (set_s (c_string s));
    if bool_decide (s = [0x2D]) then fail
    else
      let x := number_value s in
      if (x <? INT32_MIN) || (INT32_MAX <? x) then fail
      else _ ← modify (set_i x); mret TOKEN_NUMBER
  else if c =? T_QUOTE then
    s ← read_string STRING_MAX [];
    _ ← modify (set_s (c_string s)); mret TOKEN_STRING
  else fail.

Definition peekToken : M Z :=
  t ← gets p_peek;
  if negb (t =? TOKEN_NONE) then mret t
  else t ← scanToken; _ ← modify (set_peek t); mret t.

Definition getToken : M Z := t ← peekToken; _ ← modify (set_peek TOKEN_NONE); mret t.

(** An unexpected token is an error, or the end of a pipe. *)
Definition unexpectedToken {A} : M A := fail.

Definition expectToken (token : Z) : M unit := got ← getToken; if got =? token then mret tt else fail.

Definition expectToken2 (token1 token2 : Z) : M Z :=
  got ← getToken; if (got =? token1) || (got =? token2) then mret got else fail.

Definition expectString (str : string) : M unit :=
  _ ← expectToken TOKEN_STRING;
  s ← gets p_s;
  if String.eqb s str then mret tt else fail.

(** *** Numbers in strings *)

Definition digit_value (base c : Z) : option Z :=
  let d := if isdigit c then c - 0x30 else if between 0x61 0x66 c then c - 0x61 + 10 else if between 0x41 0x46 c then c - 0x41 + 10 else base in
  if d <? base then Some d else None.

Fixpoint read_number (base : Z) (cs : bytes) (v : Z) : Z * bytes :=
  match cs with
  | [] => (v, [])
  | c :: cs' => match digit_value base c with Some d => read_number base cs' (base * v + d) | None => (v, cs) end
  end.

Fixpoint skip_blanks (cs : bytes) : bytes :=
  match cs with c :: cs' => if isspace c then skip_blanks cs' else cs | [] => [] end.

(** [strtoull]: the value, what follows it, and whether it is out of range.  Without a digit
    nothing is consumed and the value is 0. *)
Definition strtoull (cs : bytes) (base : Z) : Z * bytes * bool :=
  let l := skip_blanks cs in
  let '(neg, l) := match l with c :: l' => if c =? 0x2D then (true, l') else if c =? 0x2B then (false, l') else (false, l) | [] => (false, l) end in
  let l := match l with
           | z :: x :: d :: l' =>
               if (base =? 16) && (z =? 0x30) && ((x =? 0x78) || (x =? 0x58)) && bool_decide (is_Some (digit_value 16 d)) then d :: l' else l
           | _ => l
           end in
  let '(v, rest) := read_number base l 0 in
  if bool_decide (rest = l) then (0, cs, false)
  else if 2 ^ 64 <=? v then (2 ^ 64 - 1, rest, true)
  else (if (neg : bool) then u64 (- v) else v, rest, false).

Definition stringToNumber : M Z :=
  str ← gets p_s;
  let s := bytes_of_string str in
  let '(neg, s) := match s with c :: s' => if c =? 0x2D then (true, s') else (false, s) | [] => (false, s) end in
  let base := match s with z :: x :: _ => if (z =? 0x30) && (x =? 0x78) then 16 else 10 | _ => 10 end in
  let '(x, rest, range) := strtoull s base in
  if range || negb (bool_decide (rest = [])) then fail
  else mret (s64 (if (neg : bool) then - s64 x else x)).

(** *** Values that nothing reads *)

Fixpoint parseAndDiscardObject (fuel : nat) : M unit :=
  match fuel with
  | O => out_of_fuel
  | S fuel =>
      token ← getToken;
      if token =? T_LBRACE then
        token ← expectToken2 T_RBRACE TOKEN_STRING;
        if token =? T_RBRACE then mret tt else discard_members fuel
      else if token =? T_LBRACK then
        token ← peekToken;
        if token =? T_RBRACK then _ ← getToken; mret tt else discard_elements fuel
      else if one_of [TOKEN_BOOL; TOKEN_NUMBER; TOKEN_STRING] token then mret tt
      else unexpectedToken
  end
with discard_members (fuel : nat) : M unit :=
  match fuel with
  | O => out_of_fuel
  | S fuel =>
      _ ← expectToken T_COLON;
      _ ← parseAndDiscardObject fuel;
      token ← expectToken2 T_COMMA T_RBRACE;
      if token =? T_RBRACE then mret tt else _ ← expectToken TOKEN_STRING; discard_members fuel
  end
with discard_elements (fuel : nat) : M unit :=
  match fuel with
  | O => out_of_fuel
  | S fuel =>
      _ ← parseAndDiscardObject fuel;
      token ← expectToken2 T_COMMA T_RBRACK;
      if token =? T_RBRACK then mret tt else discard_elements fuel
  end.

(** ** Templates *)

Definition makeBytesEntry (bs : bytes) : E9.Entry := E9.ENTRY_BYTES bs.

Definition makeMacroEntry (macro : string) : E9.Entry :=
  if String.eqb macro "$BREAK" then E9.ENTRY_BREAK true
  else if String.eqb macro "$bytes" then E9.ENTRY_INSTR_BYTES
  else if String.eqb macro "$break" then E9.ENTRY_BREAK false
  else if String.eqb macro "$instr" then E9.ENTRY_INSTR
  else if String.eqb macro "$take" then E9.ENTRY_TAKE
  else E9.ENTRY_MACRO macro.

Definition makeLabelEntry (label : string) : E9.Entry := E9.ENTRY_LABEL label.
Definition makeDebugEntry : E9.Entry := E9.ENTRY_DEBUG 0.

Definition convertInteger (x min max : Z) : M Z :=
  if (x <? min) || (max <? x) then fail else mret (if x <? 0 then x + (max + 1) else x).

(** The type of a data entry; [DATA_OTHER] is a type that begins with z and is not
    [zeroes]. *)
Inductive DataType := DATA_INT8 | DATA_INT16 | DATA_INT32 | DATA_INT64 | DATA_REL8 | DATA_REL32 | DATA_STRING | DATA_ZEROES | DATA_OTHER.

Definition data_types : list (string * DataType) :=
  [("int8", DATA_INT8); ("int16", DATA_INT16); ("int32", DATA_INT32); ("int64", DATA_INT64); ("rel8", DATA_REL8);
   ("rel32", DATA_REL32); ("string", DATA_STRING); ("zeroes", DATA_ZEROES)]%string.

(** A chain of comparisons with the names of a table. *)
Definition find_name {A} (table : list (string * A)) (s : string) : option A :=
  snd <$> List.find (λ e, String.eqb (fst e) s) table.

Definition data_type (s : string) : option DataType :=
  match find_name data_types s with
  | Some t => Some t
  | None => if char_at s 0 =? 0x7A then Some DATA_OTHER else None
  end.

Definition is_label (s : string) : bool := (char_at s 0 =? 0x2E) && (char_at s 1 =? 0x4C).

(** A number or a label, and what becomes of the number. *)
Definition parseOperand (convert : Z → M Z) : M E9.Operand :=
  token ← expectToken2 TOKEN_NUMBER TOKEN_STRING;
  s ← gets p_s;
  if (token =? TOKEN_STRING) && is_label s then mret (E9.OLabel s)
  else
    x ← (if token =? TOKEN_NUMBER then gets p_i else stringToNumber);
    x ← convert x;
    mret (E9.OConst x).

(** An entry of the type [DATA_OTHER] is a label without a name: a null pointer, which is
    dereferenced as soon as the template is compared or used. *)
Definition makeDataEntry : M E9.Entry :=
  _ ← expectToken TOKEN_STRING;
  s ← gets p_s;
  match data_type s with
  | None => fail
  | Some t =>
      _ ← expectToken T_COLON;
      e ← match t with
          | DATA_STRING => _ ← expectToken TOKEN_STRING; s ← gets p_s; mret (E9.ENTRY_BYTES (bytes_of_string s ++ [0]))
          | DATA_ZEROES => _ ← expectToken TOKEN_NUMBER; i ← gets p_i; mret (E9.ENTRY_ZEROES (u32 i))
          | DATA_INT8 => v ← parseOperand (λ x, x ← convertInteger x (- 2 ^ 7) (2 ^ 8 - 1); mret (u8 x)); mret (E9.ENTRY_INT8 v)
          | DATA_INT16 => v ← parseOperand (λ x, x ← convertInteger x (- 2 ^ 15) (2 ^ 16 - 1); mret (u16 x)); mret (E9.ENTRY_INT16 v)
          | DATA_INT32 => v ← parseOperand (λ x, x ← convertInteger x (- 2 ^ 31) (2 ^ 32 - 1); mret (u32 x)); mret (E9.ENTRY_INT32 v)
          | DATA_INT64 => v ← parseOperand (λ x, mret (u64 x)); mret (E9.ENTRY_INT64 v)
          | DATA_REL8 => v ← parseOperand (λ x, mret (u64 x)); mret (E9.ENTRY_REL8 v)
          | DATA_REL32 => v ← parseOperand (λ x, mret (u64 x)); mret (E9.ENTRY_REL32 v)
          | DATA_OTHER => _ ← expectToken T_RBRACE; undefined
          end;
      _ ← expectToken T_RBRACE;
      mret e
  end.

(** The entries of a token that is not a number. *)
Definition template_entry (token : Z) : M (list E9.Entry) :=
  if token =? TOKEN_STRING then
    s ← gets p_s;
    if char_at s 0 =? 0x24 then mret [makeMacroEntry s]
    else if is_label s then mret [makeLabelEntry s]
    else unexpectedToken
  else if token =? T_LBRACE then e ← makeDataEntry; mret [e]
  else if token =? TOKEN_NULL then mret []
  else unexpectedToken.

(** Bytes that end before an entry or the end. *)
Definition flush_bytes (bs : bytes) : list E9.Entry := match bs with [] => [] | _ => [makeBytesEntry bs] end.

Definition parse_byte : M Z := i ← gets p_i; if (i <? 0) || (255 <? i) then fail else mret i.

Fixpoint template_loop (fuel : nat) (once : bool) (token : Z) (bs : bytes) (es : list E9.Entry) : M (list E9.Entry) :=
  if token =? T_RBRACK then mret (es ++ flush_bytes bs)
  else match fuel with
       | O => out_of_fuel
       | S fuel =>
           '(bs, es) ← (if token =? TOKEN_NUMBER then b ← parse_byte; mret (bs ++ [b], es)
                        else es' ← template_entry token; mret ([], (es ++ flush_bytes bs) ++ es'));
           if once then mret (es ++ flush_bytes bs)
           else
             token ← expectToken2 T_COMMA T_RBRACK;
             token ← (if token =? T_COMMA then getToken else mret token);
             template_loop fuel once token bs es
       end.

Definition template_of (es : list E9.Entry) : E9.Trampoline :=
  E9.MkTrampoline (Z.lor E9.PROT_READ E9.PROT_EXEC) false es.

(** The template in the cache: a [std::set], so an equivalent one that is already there. *)
Definition equivalent (T U : E9.Trampoline) : bool := negb (E9Trampoline.TrampolineCmp T U) && negb (E9Trampoline.TrampolineCmp U T).

Definition dupTrampoline (es : list E9.Entry) : M E9.Trampoline :=
  cache ← gets p_cache;
  match List.find (equivalent (template_of es)) cache with
  | Some T => mret T
  | None => _ ← modify (set_cache (template_of es :: cache)); mret (template_of es)
  end.

Definition parseTrampoline (debug : bool) : M E9.Trampoline :=
  token ← getToken;
  let once := negb (token =? T_LBRACK) in
  token ← (if once then mret token else getToken);
  es ← with_fuel (λ fuel, template_loop fuel once token [] (if debug then [makeDebugEntry] else []));
  dupTrampoline es.

Fixpoint bytes_loop (fuel : nat) (token : Z) (bs : bytes) : M bytes :=
  if token =? T_RBRACK then mret bs
  else match fuel with
       | O => out_of_fuel
       | S fuel =>
           if negb (token =? TOKEN_NUMBER) then unexpectedToken
           else
             b ← parse_byte;
             token ← expectToken2 T_COMMA T_RBRACK;
             token ← (if token =? T_COMMA then getToken else mret token);
             bytes_loop fuel token (bs ++ [b])
       end.

Definition parseBytes : M E9.Trampoline :=
  _ ← expectToken T_LBRACK;
  token ← getToken;
  bs ← with_fuel (λ fuel, bytes_loop fuel token []);
  mret (template_of [makeBytesEntry bs]).

(** [std::map]: sorted by [strcmp]. *)
Fixpoint map_insert {A} (name : string) (x : A) (m : list (string * A)) : list (string * A) :=
  match m with
  | [] => [(name, x)]
  | e :: m' => match String.compare name (fst e) with Lt => (name, x) :: m | _ => e :: map_insert name x m' end
  end.

(** The name of an entry is whatever string was read last: after a comma the token is not
    tested. *)
Fixpoint metadata_loop (fuel : nat) (token : Z) (m : list (string * E9.Trampoline)) : M (list (string * E9.Trampoline)) :=
  if token =? T_RBRACE then mret m
  else match fuel with
       | O => out_of_fuel
       | S fuel =>
           name ← gets p_s;
           if negb (char_at name 0 =? 0x24) then fail
           else if bool_decide (is_Some (find_name m name)) then fail
           else
             _ ← expectToken T_COLON;
             T ← parseTrampoline false;
             let m := map_insert name T m in
             token ← expectToken2 T_COMMA T_RBRACE;
             token ← (if token =? T_COMMA then getToken else mret token);
             metadata_loop fuel token m
       end.

Definition parseMetadata : M (list (string * E9.Trampoline)) :=
  _ ← expectToken T_LBRACE;
  token ← expectToken2 T_RBRACE TOKEN_STRING;
  with_fuel (λ fuel, metadata_loop fuel token []).

Fixpoint strings_loop (fuel : nat) (token : Z) (ss : list string) : M (list string) :=
  if token =? T_RBRACK then mret ss
  else match fuel with
       | O => out_of_fuel
       | S fuel =>
           if negb (token =? TOKEN_STRING) then unexpectedToken
           else
             s ← gets p_s;
             token ← expectToken2 T_COMMA T_RBRACK;
             token ← (if token =? T_COMMA then getToken else mret token);
             strings_loop fuel token (ss ++ [s])
       end.

Definition parseStrings (first : string) : M (list string) :=
  _ ← expectToken T_LBRACK;
  token ← expectToken2 T_RBRACK TOKEN_STRING;
  with_fuel (λ fuel, strings_loop fuel token [first]).

Definition parseProtection (i : nat) (c prot : Z) : M Z :=
  s ← gets p_s;
  if char_at s i =? c then mret prot else if char_at s i =? 0x2D then mret 0 else fail.

(** ** Messages *)

Inductive ParamName :=
| PARAM_UNKNOWN | PARAM_ABSOLUTE | PARAM_ADDRESS | PARAM_ARGV | PARAM_BYTES | PARAM_FILENAME | PARAM_FINI | PARAM_FORMAT
| PARAM_INIT | PARAM_LENGTH | PARAM_METADATA | PARAM_MMAP | PARAM_MODE | PARAM_NAME | PARAM_OFFSET | PARAM_POSTINIT
| PARAM_PREINIT | PARAM_PROTECTION | PARAM_TEMPLATE | PARAM_TRAMPOLINE | PARAM_VERSION.

(** [union ParamValue]; the formats and modes are integers with a meaning. *)
Inductive ParamValue :=
| V_boolean (v : bool) | V_integer (v : Z) | V_string (v : string) | V_strings (v : list string)
| V_trampoline (v : E9.Trampoline) | V_metadata (v : list (string * E9.Trampoline)) | V_format (v : E9Api.Format) | V_mode (v : E9.Mode).

Record Message := MkMessage { method : E9Api.Method; lineno : Z; id : Z; params : list (ParamName * ParamValue) }.

Definition param_names : list (string * ParamName) :=
  [("address", PARAM_ADDRESS); ("absolute", PARAM_ABSOLUTE); ("argv", PARAM_ARGV); ("bytes", PARAM_BYTES);
   ("filename", PARAM_FILENAME); ("format", PARAM_FORMAT); ("fini", PARAM_FINI); ("init", PARAM_INIT);
   ("length", PARAM_LENGTH); ("offset", PARAM_OFFSET); ("preinit", PARAM_PREINIT); ("postinit", PARAM_POSTINIT);
   ("protection", PARAM_PROTECTION); ("metadata", PARAM_METADATA); ("mode", PARAM_MODE); ("mmap", PARAM_MMAP);
   ("name", PARAM_NAME); ("trampoline", PARAM_TRAMPOLINE); ("template", PARAM_TEMPLATE); ("version", PARAM_VERSION)]%string.

Definition validateParam (m : E9Api.Method) (n : ParamName) : bool :=
  match m, n with
  | E9Api.METHOD_BINARY, (PARAM_FILENAME | PARAM_MODE | PARAM_VERSION) => true
  | E9Api.METHOD_INSTRUCTION, (PARAM_ADDRESS | PARAM_LENGTH | PARAM_OFFSET) => true
  | E9Api.METHOD_PATCH, (PARAM_METADATA | PARAM_OFFSET | PARAM_TRAMPOLINE) => true
  | E9Api.METHOD_EMIT, (PARAM_FILENAME | PARAM_FORMAT) => true
  | E9Api.METHOD_RESERVE, (PARAM_ABSOLUTE | PARAM_ADDRESS | PARAM_BYTES | PARAM_FINI | PARAM_INIT | PARAM_LENGTH
                          | PARAM_MMAP | PARAM_POSTINIT | PARAM_PREINIT | PARAM_PROTECTION) => true
  | E9Api.METHOD_TRAMPOLINE, (PARAM_NAME | PARAM_TEMPLATE) => true
  | E9Api.METHOD_OPTIONS, PARAM_ARGV => true
  | _, _ => false
  end.

Definition formats : list (string * E9Api.Format) :=
  [("binary", E9Api.FORMAT_BINARY); ("patch", E9Api.FORMAT_PATCH); ("patch.gz", E9Api.FORMAT_PATCH_GZ);
   ("patch.bz2", E9Api.FORMAT_PATCH_BZIP2); ("patch.xz", E9Api.FORMAT_PATCH_XZ)]%string.

Definition modes : list (string * E9.Mode) :=
  [("elf.exe", E9.MODE_ELF_EXE); ("elf.dso", E9.MODE_ELF_DSO); ("pe.exe", E9.MODE_PE_EXE); ("pe.dll", E9.MODE_PE_DLL)]%string.

Definition parse_integer : M Z :=
  token ← expectToken2 TOKEN_NUMBER TOKEN_STRING;
  if token =? TOKEN_NUMBER then gets p_i else stringToNumber.

Definition parse_string : M string := _ ← expectToken TOKEN_STRING; gets p_s.

Definition parse_protection : M Z :=
  _ ← expectToken TOKEN_STRING;
  r ← parseProtection 0 0x72 E9.PROT_READ;
  w ← parseProtection 1 0x77 E9.PROT_WRITE;
  x ← parseProtection 2 0x78 E9.PROT_EXEC;
  s ← gets p_s;
  if negb (char_at s 3 =? 0) then fail else mret (Z.lor (Z.lor r w) x).

(** A string that names one of a table. *)
Definition parse_name {A} (table : list (string * A)) : M A :=
  s ← parse_string; match find_name table s with Some x => mret x | None => fail end.

Definition parseValue (n : ParamName) : M ParamValue :=
  match n with
  | PARAM_ADDRESS | PARAM_OFFSET | PARAM_LENGTH | PARAM_INIT | PARAM_FINI | PARAM_MMAP => x ← parse_integer; mret (V_integer x)
  | PARAM_ABSOLUTE => _ ← expectToken TOKEN_BOOL; b ← gets p_b; mret (V_boolean b)
  | PARAM_ARGV => ss ← parseStrings "<option>"; mret (V_strings ss)
  | PARAM_FILENAME | PARAM_NAME | PARAM_VERSION => s ← parse_string; mret (V_string s)
  | PARAM_TRAMPOLINE => T ← parseTrampoline true; mret (V_trampoline T)
  | PARAM_TEMPLATE => T ← parseTrampoline false; mret (V_trampoline T)
  | PARAM_METADATA => m ← parseMetadata; mret (V_metadata m)
  | PARAM_PROTECTION => x ← parse_protection; mret (V_integer x)
  | PARAM_PREINIT | PARAM_POSTINIT | PARAM_BYTES => T ← parseBytes; mret (V_trampoline T)
  | PARAM_FORMAT => f ← parse_name formats; mret (V_format f)
  | PARAM_MODE => m ← parse_name modes; mret (V_mode m)
  | PARAM_UNKNOWN => _ ← with_fuel parseAndDiscardObject; mret (V_integer 0)
  end.

(** The parameters from the name that was just read on. *)
Fixpoint params_loop (fuel : nat) (m : E9Api.Method) (ps : list (ParamName * ParamValue)) : M (list (ParamName * ParamValue)) :=
  match fuel with
  | O => out_of_fuel
  | S fuel =>
      s ← gets p_s;
      let name := default PARAM_UNKNOWN (find_name param_names s) in
      _ ← expectToken T_COLON;
      ps ← (if negb (validateParam m name) then _ ← with_fuel parseAndDiscardObject; mret ps
            else
              v ← parseValue name;
              if Nat.leb PARAM_MAX (List.length ps) then fail else mret (ps ++ [(name, v)]));
      token ← expectToken2 T_RBRACE T_COMMA;
      if token =? T_RBRACE then mret ps
      else
        token ← expectToken2 TOKEN_STRING T_RBRACE;
        if token =? T_RBRACE then mret ps else params_loop fuel m ps
  end.

Definition parseParams (m : E9Api.Method) : M (list (ParamName * ParamValue)) :=
  _ ← expectToken T_LBRACE;
  token ← expectToken2 T_RBRACE TOKEN_STRING;
  if token =? T_RBRACE then mret [] else with_fuel (λ fuel, params_loop fuel m []).

Definition methods : list (string * E9Api.Method) :=
  [("binary", E9Api.METHOD_BINARY); ("emit", E9Api.METHOD_EMIT); ("instruction", E9Api.METHOD_INSTRUCTION);
   ("options", E9Api.METHOD_OPTIONS); ("patch", E9Api.METHOD_PATCH); ("reserve", E9Api.METHOD_RESERVE);
   ("trampoline", E9Api.METHOD_TRAMPOLINE)]%string.

(** The method, before the parameters. *)
Definition parse_header : M E9Api.Method :=
  _ ← expectString "jsonrpc"; _ ← expectToken T_COLON; _ ← expectString "2.0"; _ ← expectToken T_COMMA;
  _ ← expectString "method"; _ ← expectToken T_COLON; s ← parse_string;
  _ ← expectToken T_COMMA; _ ← expectString "params"; _ ← expectToken T_COLON;
  mret (default E9Api.METHOD_UNKNOWN (find_name methods s)).

Definition parse_message : M (option Message) :=
  token ← expectToken2 T_LBRACE T_EOF;
  if token =? T_EOF then mret None
  else
    m ← parse_header;
    ps ← parseParams m;
    _ ← expectToken T_COMMA; _ ← expectString "id"; _ ← expectToken T_COLON; _ ← expectToken TOKEN_NUMBER;
    line ← gets p_line;
    i ← gets p_i;
    _ ← expectToken T_RBRACE;
    mret (Some (MkMessage m line (u32 i) ps)).

(** The message, the rest of the stream and the cache of templates. *)
Definition getMessage (stream : bytes) (line : Z) (cache : list E9.Trampoline) : res (option Message * bytes * list E9.Trampoline) :=
  match parse_message (MkParser stream line TOKEN_NONE false 0 EmptyString cache) with
  | Done (m, p) => Done (m, p_in p, p_cache p)
  | Failed => Failed | Undefined => Undefined | OutOfFuel => OutOfFuel
  end.

(** The loop of [main] over the messages of a stream. *)
Fixpoint getMessages (fuel : nat) (stream : bytes) (line : Z) (cache : list E9.Trampoline) : res (list Message) :=
  match fuel with
  | O => OutOfFuel
  | S fuel =>
      match getMessage stream line cache with
      | Done (None, _, _) => Done []
      | Done (Some m, rest, cache) =>
          match getMessages fuel rest (lineno m) cache with
          | Done l => Done (m :: l)
          | r => r
          end
      | Failed => Failed | Undefined => Undefined | OutOfFuel => OutOfFuel
      end
  end.

(** The name of a method in an error; options and reserve have none. *)
Definition getMethodString (m : E9Api.Method) : string :=
  match m with
  | E9Api.METHOD_BINARY => "binary" | E9Api.METHOD_INSTRUCTION => "instruction" | E9Api.METHOD_PATCH => "patch"
  | E9Api.METHOD_TRAMPOLINE => "trampoline" | E9Api.METHOD_EMIT => "emit" | _ => "???"
  end.

End Json.
