(* ===== verification/E9JsonTotal.v ===== *)
(** * E9JsonTotal: the parser of messages ends on every input

    Every function of the parser ends with a result, an error or undefined behaviour, and
    never for lack of fuel: the measure is the rest of the stream, with the token that was
    peeked at. *)

From stdpp Require Import gmap strings.
From S2P Require Import Prelude E9Patch E9Alloc E9Trampoline E9Api E9Json.

Module JsonTotal.
Import Json.

(** [m] at [p] does not run out of fuel, and its result satisfies [Q]. *)
Definition ends {A} (m : M A) (p : Parser) (Q : A → Parser → Prop) : Prop :=
  match m p with Done (a, p') => Q a p' | OutOfFuel => False | _ => True end.

Lemma ends_ret {A} (x : A) p (Q : A → Parser → Prop) : Q x p → ends (mret x) p Q.
Proof. done. Qed.

Lemma ends_bind {A B} (m : M A) (f : A → M B) p Q : ends m p (λ a p', ends (f a) p' Q) → ends (m ≫= f) p Q.
Proof. unfold ends, mbind, M_bind. by destruct (m p) as [[a p']| | |]. Qed.

Lemma ends_mono {A} (m : M A) p (Q Q' : A → Parser → Prop) : ends m p Q → (∀ a p', Q a p' → Q' a p') → ends m p Q'.
Proof. unfold ends. destruct (m p) as [[a p']| | |]; auto. Qed.

Lemma ends_fail {A} p (Q : A → Parser → Prop) : ends fail p Q.
Proof. done. Qed.

Lemma ends_gets {A} (f : Parser → A) p (Q : A → Parser → Prop) : Q (f p) p → ends (gets f) p Q.
Proof. done. Qed.

Lemma ends_modify f p (Q : unit → Parser → Prop) : Q tt (f p) → ends (modify f) p Q.
Proof. done. Qed.

(** One step: binds, results and tests. *)
Ltac step :=
  match goal with
  | |- ends (mbind _ _) _ _ => apply ends_bind
  | |- ends (mret _) _ _ => apply ends_ret
  | |- ends fail _ _ => apply ends_fail
  | |- ends unexpectedToken _ _ => apply ends_fail
  | |- ends undefined _ _ => exact I
  | |- ends (gets _) _ _ => apply ends_gets
  | |- ends (modify _) _ _ => apply ends_modify
  | |- ends (if ?b then _ else _) _ _ => destruct b eqn:?
  | |- ends (let _ := _ in _) _ _ => cbv zeta
  end.

(** Uses what is known of a call. *)
Ltac call L := eapply ends_mono; [eapply L|cbn beta].

(** ** Characters *)

Definition left_ (p : Parser) : nat := List.length (p_in p).

(** The stream after [m] is at least [k] characters shorter, and the peeked token is the same. *)
Definition eats (k : nat) (p p' : Parser) : Prop := (left_ p' + k <= left_ p)%nat ∧ p_peek p' = p_peek p.

Lemma eats_0 p : eats 0 p p.
Proof. split; [lia|done]. Qed.

Lemma eats_trans j k p p' p'' : eats j p p' → eats k p' p'' → eats (j + k) p p''.
Proof. intros [H1 E1] [H2 E2]. split; [lia|congruence]. Qed.

Lemma eats_weak j k p p' : (k <= j)%nat → eats j p p' → eats k p p'.
Proof. intros Hk [H E]. split; [lia|done]. Qed.

Lemma getc_ends p : ends getc p (λ c p', eats (if (c =? T_EOF)%Z then 0 else 1) p p' ∧ (p_in p = [] → c = T_EOF)).
Proof.
  unfold ends, getc. destruct (p_in p) as [|b rest] eqn:E; [split; [apply eats_0|done]|].
  split; [|done]. split; [|by destruct (b =? 10)].
  unfold left_. rewrite E. destruct (b =? 10), (s8 b =? T_EOF); cbn; lia.
Qed.

Lemma ungetc_ends c p : ends (ungetc c) p (λ _ p', (left_ p' <= left_ p + (if (c =? T_EOF)%Z then 0 else 1))%nat ∧ p_peek p' = p_peek p).
Proof. unfold ends, ungetc, left_. destruct (c =? 10), (c =? T_EOF); cbn; split; (lia || done). Qed.

Lemma skip_space_ends n : ∀ p, (left_ p <= n)%nat → ends (skip_space n) p (λ c p', eats (if (c =? T_EOF)%Z then 0 else 1) p p').
Proof.
  induction n as [|n IH]; intros p Hp; cbn [skip_space]; step; call getc_ends; intros c p1 [H1 H0].
  - assert (c = T_EOF) as -> by (apply H0; unfold left_ in Hp; destruct (p_in p); [done|cbn in Hp; lia]). cbn. exact H1.
  - step; [|by step]. assert (c ≠ T_EOF) by (intros ->; done). destruct (Z.eqb_spec c T_EOF); [done|].
    call IH; [destruct H1; lia|]. intros d p2 H2. eapply eats_weak; [|eapply eats_trans; [exact H1|exact H2]]. destruct (d =? T_EOF); lia.
Qed.

Lemma getc_eats p : ends getc p (λ _ p', eats 0 p p').
Proof. call getc_ends. intros c p' [H _]. eapply eats_weak; [|exact H]. lia. Qed.

Lemma expect_chars_ends cs : ∀ p, ends (expect_chars cs) p (λ _ p', eats 0 p p').
Proof.
  induction cs as [|c cs IH]; intros p; cbn [expect_chars]; [step; apply eats_0|].
  step. call getc_eats. intros d p1 H1. step; [|step]. call IH. intros _ p2 H2. by eapply (eats_trans 0 0).
Qed.

Lemma read_digits_ends n : ∀ acc p, ends (read_digits n acc) p (λ _ p', eats 0 p p').
Proof.
  induction n as [|n IH]; intros acc p; cbn [read_digits]; [step|].
  step. call getc_ends. intros c p1 [H1 _]. step.
  - call IH. intros l p2 H2. eapply eats_weak; [|eapply eats_trans; [exact H1|exact H2]]. lia.
  - step. call ungetc_ends. intros _ p2 [H2 E2]. step. destruct H1 as [H1 E1]. split; [lia|congruence].
Qed.

Lemma read_string_ends n : ∀ acc p, ends (read_string n acc) p (λ _ p', eats 0 p p').
Proof.
  induction n as [|n IH]; intros acc p; cbn [read_string]; [step|].
  step. call getc_eats. intros c p1 H1. step; [by step|]. step; [step|]. step.
  - step. call getc_eats. intros d p2 H2. step; [step|]. step; [step|].
    call IH. intros l p3 H3. exact (eats_trans 0 0 _ _ _ H1 (eats_trans 0 0 _ _ _ H2 H3)).
  - call IH. intros l p3 H3. exact (eats_trans 0 0 _ _ _ H1 H3).
Qed.

(** ** Tokens *)

Lemma scanToken_ends p : ends scanToken p (λ t p', eats (if (t =? T_EOF)%Z then 0 else 1) p p' ∧ t ≠ TOKEN_NONE).
Proof.
  unfold scanToken. step. step. step. call skip_space_ends; [done|]. intros c p1 H1.
  assert (Hc : ∀ q, c ≠ T_EOF → eats 0 p1 q → eats 1 p q).
  { intros q Hc Hq. destruct (Z.eqb_spec c T_EOF); [done|]. exact (eats_trans 1 0 _ _ _ H1 Hq). }
  destruct (one_char c) eqn:Eo; [step; split; [done|intros ->; done]|].
  assert (c ≠ T_EOF) by (intros ->; done).
  repeat first
    [ step
    | call expect_chars_ends; intros _ p2 H2
    | call read_digits_ends; intros s p2 H2
    | call read_string_ends; intros s p2 H2 ];
    try (split; [|done]); apply Hc; try done; apply eats_0.
Qed.

(** The measure. *)
Definition mu (p : Parser) : nat := (left_ p + (if ((p_peek p =? TOKEN_NONE) || (p_peek p =? T_EOF))%Z then 0 else 1))%nat.

Lemma peekToken_ends p : ends peekToken p (λ t p', p_peek p' = t ∧ t ≠ TOKEN_NONE ∧ (mu p' <= mu p)%nat).
Proof.
  unfold peekToken. step. step. destruct (Z.eqb_spec (p_peek p) TOKEN_NONE) as [E|E]; cbn [negb].
  - step. call scanToken_ends. intros t p1 [[H1 _] Ht]. step. step. step. split; [done|]. split; [done|].
    unfold mu, left_ in *. cbn [p_peek p_in set_peek]. rewrite E. cbn.
    destruct (Z.eqb_spec t TOKEN_NONE); [done|]. destruct (t =? T_EOF); cbn; lia.
  - by step.
Qed.

Lemma getToken_ends p : ends getToken p (λ t p', p_peek p' = TOKEN_NONE ∧ (mu p' <= mu p)%nat ∧ (t ≠ T_EOF → (mu p' < mu p)%nat)).
Proof.
  unfold getToken. step. call peekToken_ends. intros t p1 (E & Ht & H). step. step. step. split; [done|].
  unfold mu, left_ in *. cbn [p_peek p_in set_peek] in *. rewrite E in H. cbn. destruct (Z.eqb_spec t TOKEN_NONE); [done|].
  destruct (Z.eqb_spec t T_EOF); cbn in *; lia.
Qed.

Lemma expectToken_ends t p : t ≠ T_EOF → ends (expectToken t) p (λ _ p', (mu p' < mu p)%nat).
Proof.
  intros Ht. unfold expectToken. step. call getToken_ends. intros g p1 (_ & _ & H). step; [|step]. step. apply H.
  apply Z.eqb_eq in Heqb. congruence.
Qed.

Lemma expectToken2_ends t1 t2 p : t1 ≠ T_EOF → t2 ≠ T_EOF → ends (expectToken2 t1 t2) p (λ t p', (mu p' < mu p)%nat ∧ (t = t1 ∨ t = t2)).
Proof.
  intros H1 H2. unfold expectToken2. step. call getToken_ends. intros g p1 (_ & _ & H). step; [|step]. step.
  apply orb_true_iff in Heqb as [E|E]; apply Z.eqb_eq in E; subst g; auto.
Qed.

Lemma expectString_ends s p : ends (expectString s) p (λ _ p', (mu p' < mu p)%nat).
Proof. unfold expectString. step. call expectToken_ends; [done|]. intros _ p1 H. step. step. by step. Qed.

Lemma stringToNumber_ends p : ends stringToNumber p (λ _ p', p' = p).
Proof.
  unfold stringToNumber. step. step. cbv zeta. destruct (match bytes_of_string (p_s p) with [] => _ | _ => _ end) as [neg s].
  destruct (strtoull _ _) as [[x rest] r]. by step.
Qed.

Lemma convertInteger_ends x a b p : ends (convertInteger x a b) p (λ _ p', p' = p).
Proof. unfold convertInteger. by step. Qed.

Lemma parse_byte_ends p : ends parse_byte p (λ _ p', p' = p).
Proof. unfold parse_byte. step. step. by step. Qed.

(** A recursive function ends with enough fuel if it does for every amount above twice the
    measure. *)
Lemma with_fuel_ends {A} (f : nat → M A) p Q : (∀ n, (2 * mu p + 2 <= n)%nat → ends (f n) p Q) → ends (with_fuel f) p Q.
Proof.
  intros H. apply (H (2 * List.length (p_in p) + 4)%nat). unfold mu, left_. destruct (_ || _); lia.
Qed.

(** ** Values *)

Definition shrinks {A} (m : M A) : Prop := ∀ p, ends m p (λ _ p', (mu p' < mu p)%nat).

Lemma discard_ends n :
  (∀ p, (2 * mu p + 1 <= n)%nat → ends (parseAndDiscardObject n) p (λ _ p', (mu p' < mu p)%nat)) ∧
  (∀ p, (2 * mu p + 1 <= n)%nat → ends (discard_members n) p (λ _ p', (mu p' < mu p)%nat)) ∧
  (∀ p, (2 * mu p + 2 <= n)%nat → ends (discard_elements n) p (λ _ p', (mu p' < mu p)%nat)).
Proof.
  induction n as [|n (IH1 & IH2 & IH3)]; [repeat split; intros; lia|]. split_and!; intros p Hp; cbn [parseAndDiscardObject discard_members discard_elements].
  - step. call getToken_ends. intros t p1 (_ & Hle & Hlt). step.
    { apply Z.eqb_eq in Heqb as ->. specialize (Hlt ltac:(done)). step. call expectToken2_ends; [done..|]. intros t p2 [H2 _].
      step; [step; lia|]. call IH2; [lia|]. intros _ p3 H3. lia. }
    step.
    { apply Z.eqb_eq in Heqb0 as ->. specialize (Hlt ltac:(done)). step. call peekToken_ends. intros t p2 (_ & _ & H2). step.
      - step. call getToken_ends. intros t' p3 (_ & H3 & _). step. lia.
      - call IH3; [lia|]. intros _ p3 H3. lia. }
    step; [|step]. step. apply Hlt. intros ->. done.
  - step. call expectToken_ends; [done|]. intros _ p1 H1. step. call IH1; [lia|]. intros _ p2 H2.
    step. call expectToken2_ends; [done..|]. intros t p3 [H3 _]. step; [step; lia|].
    step. call expectToken_ends; [done|]. intros _ p4 H4. call IH2; [lia|]. intros _ p5 H5. lia.
  - step. call IH1; [lia|]. intros _ p1 H1. step. call expectToken2_ends; [done..|]. intros t p2 [H2 _].
    step; [step; lia|]. call IH3; [lia|]. intros _ p3 H3. lia.
Qed.

Lemma discard_shrinks : shrinks (with_fuel parseAndDiscardObject).
Proof. intros p. apply with_fuel_ends. intros n Hn. apply discard_ends. lia. Qed.

(** After an element: a comma and the next token, or the end. *)
Lemma next_ends close p : close ≠ T_EOF →
  ends (token ← expectToken2 T_COMMA close; if token =? T_COMMA then getToken else mret token) p (λ _ p', (mu p' < mu p)%nat).
Proof.
  intros Hc. step. call expectToken2_ends; [done..|]. intros t p1 [H1 _]. step; [|by step].
  call getToken_ends. intros t' p2 (_ & H2 & _). lia.
Qed.

Lemma parseOperand_ends f : (∀ x p, ends (f x) p (λ _ p', p' = p)) → shrinks (parseOperand f).
Proof.
  intros Hf p. unfold parseOperand. step. call expectToken2_ends; [done..|]. intros t p1 [H1 _]. step. step. step; [by step|].
  step. eapply (ends_mono _ _ (λ _ p', p' = p1)); [step; [by step|apply stringToNumber_ends]|]. intros x p2 ->.
  step. call Hf. intros y p2 ->. by step.
Qed.

Lemma makeDataEntry_shrinks : shrinks makeDataEntry.
Proof.
  intros p. unfold makeDataEntry. step. call expectToken_ends; [done|]. intros _ p1 H1. step. step.
  destruct (data_type (p_s p1)) as [t|]; [|step]. step. call expectToken_ends; [done|]. intros _ p2 H2. step.
  eapply (ends_mono _ _ (λ _ p', (mu p' < mu p2)%nat)).
  2:{ intros e p3 H3. step. call expectToken_ends; [done|]. intros _ p4 H4. step. lia. }
  assert (Hint : ∀ a b g, ∀ x q, ends (x ← convertInteger x a b; mret (g x : Z)) q (λ _ p', p' = q)).
  { intros a b g x q. step. call convertInteger_ends. intros y q' ->. by step. }
  destruct t; step;
    first [ call (parseOperand_ends (λ x, mret (u64 x))); [done|]; intros v p3 H3; by step
          | call parseOperand_ends; [apply Hint|]; intros v p3 H3; by step
          | call expectToken_ends; [done|]; intros v p3 H3; step; step; by step
          | idtac ].
Qed.

Lemma template_entry_ends t p : ends (template_entry t) p (λ _ p', (mu p' <= mu p)%nat).
Proof.
  unfold template_entry. step.
  - step. step. step; [by step|]. step; [by step|]. by step.
  - step; [|step; [by step|step]]. step. call makeDataEntry_shrinks. intros e p1 H1. step. lia.
Qed.

Lemma template_loop_ends n : ∀ once t bs es p, (2 * mu p + 1 <= n)%nat → ends (template_loop n once t bs es) p (λ _ p', (mu p' <= mu p)%nat).
Proof.
  induction n as [|n IH]; intros once t bs es p Hp; cbn [template_loop]; [lia|].
  step; [by step|]. step.
  eapply (ends_mono _ _ (λ _ p', (mu p' <= mu p)%nat)).
  { step.
    - step. call parse_byte_ends. intros b p1 ->. by step.
    - step. call template_entry_ends. intros e p1 H1. by step. }
  intros [bs' es'] p1 H1. step; [by step|]. step. call expectToken2_ends; [done..|]. intros t1 p2 [H2 _]. step.
  eapply (ends_mono _ _ (λ _ p', (mu p' <= mu p2)%nat)).
  { step; [call getToken_ends; by intros ?? (_ & ? & _)|by step]. }
  intros t2 p3 H3. call IH; [lia|]. intros e p4 H4. lia.
Qed.

Lemma dupTrampoline_ends es p : ends (dupTrampoline es) p (λ _ p', mu p' = mu p).
Proof. unfold dupTrampoline. step. step. destruct (List.find _ _); step; [done|]. step. by step. Qed.

Lemma parseTrampoline_ends debug p : ends (parseTrampoline debug) p (λ _ p', (mu p' <= mu p)%nat).
Proof.
  unfold parseTrampoline. step. call getToken_ends. intros t p1 (_ & H1 & _). cbv zeta. step.
  eapply (ends_mono _ _ (λ _ p', (mu p' <= mu p1)%nat)).
  { step; [by step|call getToken_ends; by intros ?? (_ & ? & _)]. }
  intros t1 p2 H2. step. apply with_fuel_ends. intros n Hn. call template_loop_ends; [lia|]. intros es p3 H3. call dupTrampoline_ends. intros T p4 H4. lia.
Qed.

Lemma bytes_loop_ends n : ∀ t bs p, (2 * mu p + 1 <= n)%nat → ends (bytes_loop n t bs) p (λ _ p', (mu p' <= mu p)%nat).
Proof.
  induction n as [|n IH]; intros t bs p Hp; cbn [bytes_loop]; [lia|]. step; [by step|]. step; [step|].
  step. call parse_byte_ends. intros b p1 ->. step. call expectToken2_ends; [done..|]. intros t1 p2 [H2 _]. step.
  eapply (ends_mono _ _ (λ _ p', (mu p' <= mu p2)%nat)).
  { step; [call getToken_ends; by intros ?? (_ & ? & _)|by step]. }
  intros t2 p3 H3. call IH; [lia|]. intros e p4 H4. lia.
Qed.

Lemma strings_loop_ends n : ∀ t ss p, (2 * mu p + 1 <= n)%nat → ends (strings_loop n t ss) p (λ _ p', (mu p' <= mu p)%nat).
Proof.
  induction n as [|n IH]; intros t bs p Hp; cbn [strings_loop]; [lia|]. step; [by step|]. step; [step|].
  step. step. step. call expectToken2_ends; [done..|]. intros t1 p2 [H2 _]. step.
  eapply (ends_mono _ _ (λ _ p', (mu p' <= mu p2)%nat)).
  { step; [call getToken_ends; by intros ?? (_ & ? & _)|by step]. }
  intros t2 p3 H3. call IH; [lia|]. intros e p4 H4. lia.
Qed.

Lemma metadata_loop_ends n : ∀ t m p, (2 * mu p + 1 <= n)%nat → ends (metadata_loop n t m) p (λ _ p', (mu p' <= mu p)%nat).
Proof.
  induction n as [|n IH]; intros t m p Hp; cbn [metadata_loop]; [lia|]. step; [by step|].
  step. step. step; [step|]. step; [step|]. step. call expectToken_ends; [done|]. intros _ p1 H1.
  step. call parseTrampoline_ends. intros T p2 H2. cbv zeta. step. call expectToken2_ends; [done..|]. intros t1 p3 [H3 _]. step.
  eapply (ends_mono _ _ (λ _ p', (mu p' <= mu p3)%nat)).
  { step; [call getToken_ends; by intros ?? (_ & ? & _)|by step]. }
  intros t2 p4 H4. call IH; [lia|]. intros e p5 H5. lia.
Qed.

Lemma parse_string_shrinks : shrinks parse_string.
Proof. intros p. unfold parse_string. step. call expectToken_ends; [done|]. intros _ p1 H1. by step. Qed.

Lemma parse_integer_shrinks : shrinks parse_integer.
Proof.
  intros p. unfold parse_integer. step. call expectToken2_ends; [done..|]. intros t p1 [H1 _]. step; [by step|].
  call stringToNumber_ends. by intros x p2 ->.
Qed.

Lemma parse_name_shrinks {A} (table : list (string * A)) : shrinks (parse_name table).
Proof. intros p. unfold parse_name. step. call parse_string_shrinks. intros s p1 H1. by destruct (find_name table s); step. Qed.

Lemma parse_protection_shrinks : shrinks parse_protection.
Proof.
  intros p. unfold parse_protection. step. call expectToken_ends; [done|]. intros _ p1 H1.
  assert (Hp : ∀ i c v, ends (parseProtection i c v) p1 (λ _ p', p' = p1)).
  { intros i c v. unfold parseProtection. step. step. step; [by step|]. by step. }
  do 3 (step; call Hp; intros ?? ->). step. step. by step.
Qed.

Lemma parseValue_shrinks name p : ends (parseValue name) p (λ _ p', (mu p' <= mu p)%nat).
Proof.
  destruct name; cbn [parseValue]; step;
    first [ call parse_integer_shrinks; intros x p1 H1; step; lia
          | call parse_string_shrinks; intros x p1 H1; step; lia
          | call parseTrampoline_ends; intros x p1 H1; step; lia
          | call @parse_name_shrinks; intros x p1 H1; step; lia
          | call parse_protection_shrinks; intros x p1 H1; step; lia
          | call discard_shrinks; intros x p1 H1; step; lia
          | idtac ].
  - call expectToken_ends; [done|]. intros _ p1 H1. step. step. step. lia.
  - unfold parseStrings. step. call expectToken_ends; [done|]. intros _ p1 H1. step. call expectToken2_ends; [done..|]. intros t p2 [H2 _].
    apply with_fuel_ends. intros n Hn. call strings_loop_ends; [lia|]. intros ss p3 H3. step. lia.
  - unfold parseBytes. step. call expectToken_ends; [done|]. intros _ p1 H1. step. call getToken_ends. intros t p2 (_ & H2 & _).
    step. apply with_fuel_ends. intros n Hn. call bytes_loop_ends; [lia|]. intros bs p3 H3. step. step. lia.
  - unfold parseMetadata. step. call expectToken_ends; [done|]. intros _ p1 H1. step. call expectToken2_ends; [done..|]. intros t p2 [H2 _].
    apply with_fuel_ends. intros n Hn. call metadata_loop_ends; [lia|]. intros ss p3 H3. step. lia.
  - unfold parseBytes. step. call expectToken_ends; [done|]. intros _ p1 H1. step. call getToken_ends. intros t p2 (_ & H2 & _).
    step. apply with_fuel_ends. intros n Hn. call bytes_loop_ends; [lia|]. intros bs p3 H3. step. step. lia.
  - unfold parseBytes. step. call expectToken_ends; [done|]. intros _ p1 H1. step. call getToken_ends. intros t p2 (_ & H2 & _).
    step. apply with_fuel_ends. intros n Hn. call bytes_loop_ends; [lia|]. intros bs p3 H3. step. step. lia.
Qed.

Lemma params_loop_ends n : ∀ m ps p, (2 * mu p + 1 <= n)%nat → ends (params_loop n m ps) p (λ _ p', (mu p' <= mu p)%nat).
Proof.
  induction n as [|n IH]; intros m ps p Hp; cbn [params_loop]; [lia|]. step. step. cbv zeta. step. call expectToken_ends; [done|]. intros _ p1 H1.
  step. eapply (ends_mono _ _ (λ _ p', (mu p' <= mu p1)%nat)).
  { step.
    - step. call discard_shrinks. intros _ p2 H2. step. lia.
    - step. call parseValue_shrinks. intros v p2 H2. step; [step|]. by step. }
  intros ps' p2 H2. step. call expectToken2_ends; [done..|]. intros t p3 [H3 _]. step; [step; lia|].
  step. call expectToken2_ends; [done..|]. intros t2 p4 [H4 _]. step; [step; lia|]. call IH; [lia|]. intros r p5 H5. lia.
Qed.

Lemma parseParams_shrinks m : shrinks (parseParams m).
Proof.
  intros p. unfold parseParams. step. call expectToken_ends; [done|]. intros _ p1 H1. step. call expectToken2_ends; [done..|]. intros t p2 [H2 _].
  step; [step; lia|]. apply with_fuel_ends. intros n Hn. call params_loop_ends; [lia|]. intros ps p3 H3. lia.
Qed.

Lemma parse_header_ends p : ends parse_header p (λ _ p', (mu p' <= mu p)%nat).
Proof.
  unfold parse_header.
  repeat first [ step; call expectString_ends; intros _ ? ? | step; call expectToken_ends; [done|]; intros _ ? ?
               | step; call parse_string_shrinks; intros ? ? ? | step ]. lia.
Qed.

Lemma parse_message_ends p : ends parse_message p (λ m p', match m with Some _ => (mu p' < mu p)%nat | None => True end).
Proof.
  unfold parse_message. step. unfold expectToken2. step. call getToken_ends. intros t p1 (_ & H1 & Hlt). step; [|step]. step.
  step; [by step|]. apply orb_true_iff in Heqb as [E|E]; [|congruence]. apply Z.eqb_eq in E as ->. specialize (Hlt ltac:(done)).
  step. call parse_header_ends. intros m p2 H2. step. call parseParams_shrinks. intros ps p3 H3.
  repeat first [ step; call expectString_ends; intros _ ? ? | step; call expectToken_ends; [done|]; intros _ ? ? | step ]. lia.
Qed.

(** ** The streams *)

Definition parsed {A} (r : res A) : Prop := match r with OutOfFuel => False | _ => True end.

Lemma mu_left p : p_peek p = TOKEN_NONE → mu p = left_ p.
Proof. intros E. unfold mu. rewrite E. cbn. lia. Qed.

Lemma left_mu p : (left_ p <= mu p)%nat.
Proof. unfold mu. lia. Qed.

Lemma getMessage_ends stream line cache :
  match getMessage stream line cache with
  | Done (Some _, rest, _) => (List.length rest < List.length stream)%nat
  | OutOfFuel => False
  | _ => True
  end.
Proof.
  unfold getMessage. set (p := MkParser stream line TOKEN_NONE false 0 EmptyString cache). pose proof (parse_message_ends p) as H. unfold ends in H.
  destruct (parse_message p) as [[[m|] p']| | |]; try done. pose proof (left_mu p'). rewrite (mu_left p) in H by done. unfold left_ in *. cbn in H. lia.
Qed.

(** C23: on every stream of bytes the parser of messages ends, with a message, an error or the
    end of the stream, and so does the loop over the messages: it never runs for more rounds
    than the stream has characters. *)
Theorem json_total stream line cache :
  parsed (getMessage stream line cache) ∧ parsed (getMessages (S (List.length stream)) stream line cache).
Proof.
  split; [pose proof (getMessage_ends stream line cache) as H; by destruct (getMessage stream line cache) as [[[[m|] r] c]| | |]|].
  remember (S (List.length stream)) as n eqn:E. assert (Hn : (List.length stream < n)%nat) by lia. clear E.
  revert stream line cache Hn. induction n as [|n IH]; intros stream line cache Hn; [lia|]. cbn [getMessages].
  pose proof (getMessage_ends stream line cache) as H. destruct (getMessage stream line cache) as [[[[m|] rest] cache']| | |]; try done.
  specialize (IH rest (lineno m) cache' ltac:(lia)). by destruct (getMessages n rest (lineno m) cache').
Qed.

End JsonTotal.
