(* ===== verification/E9Frontend.v ===== *)
(** * E9Frontend: the messages that e9tool sends

    Models the functions of src/src/e9tool/e9frontend.cpp that write messages to the rewriter.
    A function gives the text that it writes to the stream; the counter of messages, a static
    variable of [sendMessageFooter], is an argument.  A pointer to an array with its length is
    the list of the elements, and [None] for a null pointer. *)

From stdpp Require Import gmap strings.
From S2P Require Import Prelude E9Patch E9Json.

Module Frontend.
Import Json.

(** ** Text *)

Definition text (s : string) : bytes := bytes_of_string s.

(** A string literal between escaped quotes. *)
Definition quoted (s : string) : bytes := [T_QUOTE] ++ text s ++ [T_QUOTE].

(** [%ld] and [%d] *)
Definition ld (i : Z) : string := if i <? 0 then ("-" +:+ dec (- i)) else dec i.

Definition sendMessageHeader (method : string) : bytes :=
  [T_LBRACE] ++ quoted "jsonrpc" ++ [T_COLON] ++ quoted "2.0" ++ [T_COMMA] ++ quoted "method" ++ [T_COLON] ++
  quoted method ++ [T_COMMA] ++ quoted "params" ++ [T_COLON] ++ [T_LBRACE].

Definition sendMessageFooter (next_id : Z) : bytes :=
  [T_RBRACE] ++ [T_COMMA] ++ quoted "id" ++ [T_COLON] ++ text (dec (u32 next_id)) ++ [T_RBRACE] ++ [10].

Definition sendParamHeader (name : string) : bytes := quoted name ++ [T_COLON].

Definition sendSeparator (last : bool) : bytes := if last then [] else [T_COMMA].

Definition sendInteger (i : Z) : bytes :=
  if (INT32_MIN <=? i) && (i <=? INT32_MAX) then text (ld i)
  else
    let neg := i <? 0 in
    let x := u64 (if neg then - i else i) in
    quoted ((if neg then "-" else "") +:+ "0x" +:+ hex x).

Definition send_char (c : Z) : bytes :=
  if c =? T_BACKSLASH then [T_BACKSLASH; T_BACKSLASH]
  else if c =? T_QUOTE then [T_BACKSLASH; T_QUOTE]
  else if c =? 10 then [T_BACKSLASH; 0x6E]
  else if c =? 9 then [T_BACKSLASH; 0x74]
  else if c =? 13 then [T_BACKSLASH; 0x72]
  else if c =? 8 then [T_BACKSLASH; 0x62]
  else if c =? 12 then [T_BACKSLASH; 0x66]
  else [c].

Definition sendString (s : string) : bytes := [T_QUOTE] ++ flat_map send_char (text s) ++ [T_QUOTE].

(** Elements with commas between them. *)
Fixpoint send_list {A} (send : A → bytes) (prev : bool) (l : list A) : bytes :=
  match l with [] => [] | x :: l => (if prev then [T_COMMA] else []) ++ send x ++ send_list send true l end.

Definition sendBytes (bs : bytes) : bytes := [T_LBRACK] ++ send_list (λ b, text (dec b)) false bs ++ [T_RBRACK].

(** ** Messages *)

(** A parameter with its separator, and one that is sent only under a condition. *)
Definition send_param (name : string) (value : bytes) (last : bool) : bytes := sendParamHeader name ++ value ++ sendSeparator last.

Definition send_if (b : bool) (s : bytes) : bytes := if b then s else [].

Section messages.
Context (VERSION : string).

Definition sendBinaryMessage (mode filename : string) (next_id : Z) : bytes :=
  sendMessageHeader "binary" ++ send_param "version" (sendString VERSION) false ++
  send_param "filename" (sendString filename) false ++ send_param "mode" (sendString mode) true ++ sendMessageFooter next_id.

Definition sendOptionsMessage (argv : list string) (next_id : Z) : bytes :=
  sendMessageHeader "options" ++
  send_param "argv" ([T_LBRACK] ++ send_list sendString false argv ++ [T_RBRACK]) true ++ sendMessageFooter next_id.

Definition sendInstructionMessage (addr size offset : Z) (next_id : Z) : bytes :=
  sendMessageHeader "instruction" ++ send_param "address" (quoted ("0x" +:+ hex (u64 addr))) false ++
  send_param "length" (sendInteger (s64 size)) false ++ send_param "offset" (sendInteger offset) true ++ sendMessageFooter next_id.

Definition sendEmitMessage (filename format : string) (next_id : Z) : bytes :=
  sendMessageHeader "emit" ++ send_param "filename" (sendString filename) false ++
  send_param "format" (sendString format) true ++ sendMessageFooter next_id.

(** The reservation of addresses. *)
Definition sendReserveMessage (addr len : Z) (absolute : bool) (next_id : Z) : bytes :=
  sendMessageHeader "reserve" ++ send_param "address" (sendInteger addr) false ++
  send_if absolute (send_param "absolute" (text "true") false) ++
  send_param "length" (sendInteger (s64 len)) true ++ sendMessageFooter next_id.

Definition protection (prot : Z) : bytes :=
  [T_QUOTE; if Z.land prot E9.PROT_READ =? 0 then 0x2D else 0x72; if Z.land prot E9.PROT_WRITE =? 0 then 0x2D else 0x77;
   if Z.land prot E9.PROT_EXEC =? 0 then 0x2D else 0x78; T_QUOTE].

Definition not_empty (data : option bytes) : bool := match data with Some (_ :: _) => true | _ => false end.

(** The reservation with data and code; [len] counts without data. *)
Definition sendReserveDataMessage (addr : Z) (data : option bytes) (len prot init fini mmap : Z) (absolute : bool)
  (preinit postinit : option bytes) (next_id : Z) : bytes :=
  sendMessageHeader "reserve" ++ send_param "address" (sendInteger addr) false ++
  send_param "protection" (protection prot) false ++
  send_if (negb (init =? 0)) (send_param "init" (sendInteger init) false) ++
  send_if (negb (fini =? 0)) (send_param "fini" (sendInteger fini) false) ++
  send_if (not_empty preinit) (send_param "preinit" (sendBytes (default [] preinit)) false) ++
  send_if (not_empty postinit) (send_param "postinit" (sendBytes (default [] postinit)) false) ++
  send_if (negb (mmap =? 0)) (send_param "mmap" (sendInteger mmap) false) ++
  send_if absolute (send_param "absolute" (text "true") false) ++
  (match data with
   | Some data => send_param "bytes" (sendBytes data) true
   | None => send_param "length" (sendInteger (s64 len)) true
   end) ++ sendMessageFooter next_id.

Definition sendEmptyTrampolineMessage (next_id : Z) : bytes :=
  sendMessageHeader "trampoline" ++ send_param "name" (sendString "$empty") false ++
  send_param "template" (text "[]") true ++ sendMessageFooter next_id.

Definition sendTrapTrampolineMessage (next_id : Z) : bytes :=
  sendMessageHeader "trampoline" ++ send_param "name" (sendString "$trap") false ++
  send_param "template" ([T_LBRACK] ++ text (dec 0xcc) ++ [T_RBRACK]) true ++ sendMessageFooter next_id.

(** An element of the template of a signal: a byte or a 32-bit integer. *)
Inductive Datum := Byte (b : Z) | Int32 (x : Z).

Definition send_datum (d : Datum) : bytes :=
  match d with
  | Byte b => text (dec b)
  | Int32 x => [T_LBRACE] ++ quoted "int32" ++ [T_COLON] ++ text (ld x) ++ [T_RBRACE]
  end.

(** The code that sends a signal: saves the registers that the system calls change, gets the
    thread, kills it and restores the registers. *)
Definition signal_template (sig : Z) : list Datum :=
  [Byte 0x48; Byte 0x8d; Byte 0xa4; Byte 0x24; Int32 (- 0x4000); Byte 0x57; Byte 0x56; Byte 0x50; Byte 0x51; Byte 0x52; Byte 0x41; Byte 0x53;
   Byte 0xb8; Int32 186; Byte 0x0f; Byte 0x05;
   Byte 0x89; Byte 0xc7; Byte 0xb8; Int32 62; Byte 0xbe; Int32 sig; Byte 0x0f; Byte 0x05;
   Byte 0x41; Byte 0x5b; Byte 0x5a; Byte 0x59; Byte 0x58; Byte 0x5e; Byte 0x5f; Byte 0x48; Byte 0x8d; Byte 0xa4; Byte 0x24; Int32 0x4000].

(** For ELF programs; for Windows programs the function is an error. *)
Definition sendSignalTrampolineMessage (sig : Z) (next_id : Z) : bytes :=
  sendMessageHeader "trampoline" ++ send_param "name" (quoted ("$signal_" +:+ ld sig)) false ++
  send_param "template" ([T_LBRACK] ++ send_list send_datum false (signal_template sig) ++ [T_RBRACK]) true ++ sendMessageFooter next_id.

(** A session: the calls that are made on the stream. *)
Inductive Call :=
| Binary (mode filename : string)
| Options (argv : list string)
| Instruction (addr size offset : Z)
| Emit (filename format : string)
| Reserve (addr len : Z) (absolute : bool)
| ReserveData (addr : Z) (data : option bytes) (len prot init fini mmap : Z) (absolute : bool) (preinit postinit : option bytes)
| EmptyTrampoline
| TrapTrampoline
| SignalTrampoline (sig : Z).

Definition send (c : Call) : Z → bytes :=
  match c with
  | Binary mode filename => sendBinaryMessage mode filename
  | Options argv => sendOptionsMessage argv
  | Instruction addr size offset => sendInstructionMessage addr size offset
  | Emit filename format => sendEmitMessage filename format
  | Reserve addr len absolute => sendReserveMessage addr len absolute
  | ReserveData addr data len prot init fini mmap absolute preinit postinit =>
      sendReserveDataMessage addr data len prot init fini mmap absolute preinit postinit
  | EmptyTrampoline => sendEmptyTrampolineMessage
  | TrapTrampoline => sendTrapTrampolineMessage
  | SignalTrampoline sig => sendSignalTrampolineMessage sig
  end.

Fixpoint send_all (next_id : Z) (cs : list Call) : bytes :=
  match cs with [] => [] | c :: cs => send c next_id ++ send_all (u32 (next_id + 1)) cs end.

End messages.
End Frontend.
