(* ===== verification/E9FrontendSpec.v ===== *)
(** * E9FrontendSpec: what e9tool sends, the rewriter receives

    The text of a session is a sequence of tokens, which the lexer reads back, strings and
    integers included; over the tokens, the parser gives the parameters that were sent. *)

From stdpp Require Import gmap strings.
From S2P Require Import Prelude E9Patch E9Alloc E9Trampoline E9TrampolineOrder E9Api E9Json E9Frontend.

Module FrontendSpec.
Import Json Frontend.

(** ** Numbers as text *)

Lemma bytes_of_string_app s t : bytes_of_string (s +:+ t) = bytes_of_string s ++ bytes_of_string t.
Proof. induction s as [|a s IH]; [done|]. change (Z.of_N (N_of_ascii a) :: bytes_of_string (s +:+ t) = Z.of_N (N_of_ascii a) :: bytes_of_string s ++ bytes_of_string t). by rewrite IH. Qed.

Lemma ascii_code n : 0 <= n < 256 → Z.of_N (N_of_ascii (ascii_of_N (Z.to_N n))) = n.
Proof. intros H. rewrite N_ascii_embedding by lia. lia. Qed.

Definition digit_ok (b : Z) : Prop := isdigit b = true.

Lemma dec_fuel_digits f : ∀ z acc, 0 <= z < 10 ^ Z.of_nat f →
  ∃ ds, bytes_of_string (dec_fuel f z acc) = ds ++ bytes_of_string acc ∧ Forall digit_ok ds ∧ (f ≠ O → ds ≠ []) ∧
        (∀ v, foldl (λ v d, 10 * v + (d - 0x30)) v ds = v * 10 ^ blen ds + z) ∧ (∀ k, (1 <= k)%nat → z < 10 ^ Z.of_nat k → (List.length ds <= k)%nat).
Proof.
  induction f as [|f IH]; intros z acc Hz; cbn [dec_fuel].
  { exists []. change (10 ^ Z.of_nat 0) with 1 in Hz. split_and!; try done; [|cbn; lia]. intros v. change (blen []) with 0. cbn [foldl]. rewrite Z.pow_0_r. lia. }
  set (d := dec_digit (z mod 10)). pose proof (Z.mod_pos_bound z 10 ltac:(lia)) as Hm.
  assert (Ed : Z.of_N (N_of_ascii d) = 48 + z mod 10) by (apply ascii_code; lia).
  assert (Hd : digit_ok (48 + z mod 10)) by (unfold digit_ok, isdigit, between; lia).
  destruct (Z.eqb_spec (z / 10) 0) as [E|E].
  - exists [48 + z mod 10]. cbn [bytes_of_string]. rewrite Ed. split_and!; try done; [by constructor|].
    intros v. change (blen [48 + z mod 10]) with 1. rewrite Z.pow_1_r. cbn [foldl]. pose proof (Z.div_mod z 10). lia.
  - destruct (IH (z / 10) (String d acc)) as (ds & E1 & H1 & H2 & H3 & H4).
    { split; [apply Z.div_pos; lia|]. apply Z.div_lt_upper_bound; [lia|]. rewrite Nat2Z.inj_succ, Z.pow_succ_r in Hz by lia. lia. }
    exists (ds ++ [48 + z mod 10]). cbn [bytes_of_string] in E1. rewrite Ed in E1. split_and!.
    + by rewrite E1, <- app_assoc.
    + apply Forall_app. split; [done|by constructor].
    + by destruct ds.
    + intros v. rewrite foldl_app, H3. cbn. unfold blen. rewrite length_app. cbn. rewrite Nat2Z.inj_add, Z.pow_add_r by lia.
      pose proof (Z.div_mod z 10). lia.
    + intros [|k] Hk Hlt; [lia|]. rewrite Nat2Z.inj_succ, Z.pow_succ_r in Hlt by lia. rewrite length_app. cbn.
      destruct k as [|k]; [rewrite Z.pow_0_r in Hlt; destruct E; apply Z.div_small; lia|].
      specialize (H4 (S k) ltac:(lia) ltac:(apply Z.div_lt_upper_bound; lia)). lia.
Qed.

Lemma dec_digits z : 0 <= z < 10 ^ 10 →
  Forall digit_ok (text (dec z)) ∧ text (dec z) ≠ [] ∧ digits_value (text (dec z)) = z ∧ (List.length (text (dec z)) <= 10)%nat.
Proof.
  intros Hz. unfold text, dec. destruct (dec_fuel_digits 20 z EmptyString) as (ds & E & H1 & H2 & H3 & H4); [cbn; lia|].
  cbn [bytes_of_string] in E. rewrite app_nil_r in E. rewrite E. split; [done|]. split; [apply H2; lia|]. split; [|apply H4; lia].
  unfold digits_value. rewrite H3. lia.
Qed.

(** A number in decimal, as the lexer reads it: a first character and digits. *)
Lemma ld_shape i : INT32_MIN <= i <= INT32_MAX →
  ∃ c ds, text (ld i) = c :: ds ∧ (c = 0x2D ∨ isdigit c = true) ∧ Forall digit_ok ds ∧ (List.length ds <= 10)%nat ∧
          number_value (c :: ds) = i ∧ c :: ds ≠ [0x2D].
Proof.
  unfold INT32_MIN, INT32_MAX, text, ld. intros Hi. destruct (Z.ltb_spec i 0).
  - destruct (dec_digits (- i)) as (H1 & H2 & H3 & H4); [lia|]. fold (text ("-" +:+ dec (- i))).
    change (text ("-" +:+ dec (- i))) with (0x2D :: text (dec (- i))). eexists _, _. split; [reflexivity|].
    split_and!; [by left|done|done| |congruence]. change (- digits_value (text (dec (- i))) = i). lia.
  - destruct (dec_digits i) as (H1 & H2 & H3 & H4); [lia|]. unfold text in *. destruct (bytes_of_string (dec i)) as [|c ds]; [done|].
    apply Forall_cons in H1 as [Hc Hds]. exists c, ds. split; [done|]. split_and!; [by right|done|cbn in H4; lia| |].
    + unfold number_value. destruct (Z.eqb_spec c 0x2D) as [->|]; [done|done].
    + intros [= -> ->]. done.
Qed.

(** ** The lexer *)

Lemma bind_done {A B} (m : M A) (f : A → M B) p a p' : m p = Done (a, p') → (m ≫= f) p = f a p'.
Proof. intros E. unfold mbind, M_bind. by rewrite E. Qed.

Definition plain_byte (b : Z) : bool := between 1 254 b.

(** A string that the lexer can hold: it fits the buffer, and has no NUL and no character
    that is taken for the end of the file. *)
Definition sendable (s : string) : bool := Nat.ltb (String.length s) STRING_MAX && forallb plain_byte (text s).

Lemma s8_eqb b k : byte_ok b → 0 <= k < 128 → (s8 b =? k) = (b =? k).
Proof.
  unfold byte_ok. intros Hb Hk. destruct (Z.lt_ge_cases b 128); [by rewrite wraps_small by (cbn; lia)|].
  assert (E : s8 b = b - 256) by (unfold wraps; rewrite Z.mod_small by (cbn; lia); destruct (Z.ltb_spec b (2 ^ (8 - 1))); cbn in *; lia).
  rewrite E. destruct (Z.eqb_spec (b - 256) k), (Z.eqb_spec b k); lia.
Qed.

Lemma s8_eof b : plain_byte b = true → (s8 b =? T_EOF) = false.
Proof.
  unfold plain_byte, between, T_EOF. intros Hb. unfold wraps. rewrite Z.mod_small by (cbn; lia). destruct (Z.ltb_spec b (2 ^ (8 - 1))); cbn in *; lia.
Qed.

Lemma c_string_text s : forallb plain_byte (text s) = true → c_string (map s8 (text s)) = s.
Proof.
  induction s as [|a s IH]; [done|]. change (text (String a s)) with (Z.of_N (N_of_ascii a) :: text s). cbn [forallb map c_string].
  intros [Ha Hs]%andb_true_iff. unfold plain_byte, between in Ha. rewrite wrapu_wraps, wrapu_small by (cbn; lia).
  destruct (Z.eqb_spec (Z.of_N (N_of_ascii a)) 0); [lia|]. rewrite IH by done. by rewrite N2Z.id, ascii_N_embedding.
Qed.

Lemma length_text s : List.length (text s) = String.length s.
Proof. induction s as [|a s IH]; [done|]. change (S (List.length (text s)) = S (String.length s)). by f_equal. Qed.

Section lexer.
Context (line : Z) (peek : Z) (b : bool) (i : Z) (s : string) (cache : list E9.Trampoline).

Definition front (l : bytes) : Parser := MkParser l line peek b i s cache.

Lemma getc_here x rest : x ≠ 10 → getc (front (x :: rest)) = Done (s8 x, front rest).
Proof. intros Hx. unfold getc, front. cbn. by destruct (Z.eqb_spec x 10). Qed.

Lemma read_string_step n acc x rest : plain_byte x = true → x ≠ 10 → x ≠ T_QUOTE → x ≠ T_BACKSLASH →
  read_string (S n) acc (front (x :: rest)) = read_string n (acc ++ [s8 x]) (front rest).
Proof.
  intros Hp H1 H2 H3. assert (Hb : byte_ok x) by (unfold plain_byte, between, byte_ok in *; lia).
  cbn [read_string]. rewrite (bind_done _ _ _ _ _ (getc_here x rest H1)), (s8_eqb x T_QUOTE), (s8_eqb x T_BACKSLASH), s8_eof by done.
  by destruct (Z.eqb_spec x T_QUOTE), (Z.eqb_spec x T_BACKSLASH).
Qed.

Lemma read_string_text bs : ∀ n acc rest, forallb plain_byte bs = true → (List.length bs < n)%nat →
  read_string n acc (front (flat_map send_char bs ++ T_QUOTE :: rest)) = Done (acc ++ map s8 bs, front rest).
Proof.
  induction bs as [|x bs IH]; intros [|n] acc rest Hp Hn; cbn in Hn; try lia.
  { cbn. rewrite app_nil_r. reflexivity. }
  cbn [forallb] in Hp. apply andb_true_iff in Hp as [Hx Hp]. cbn [flat_map map]. rewrite <- app_assoc.
  assert (Hl : (List.length bs < n)%nat) by lia. specialize (IH n (acc ++ [s8 x]) rest Hp Hl). rewrite <- (app_assoc acc) in IH. cbn in IH. rewrite <- IH. clear IH.
  unfold send_char.
  destruct (Z.eqb_spec x T_BACKSLASH) as [->|N1]; [reflexivity|]. destruct (Z.eqb_spec x T_QUOTE) as [->|N2]; [reflexivity|].
  destruct (Z.eqb_spec x 10) as [->|N3]; [reflexivity|].
  do 4 (match goal with |- context [if x =? ?k then _ else _] => destruct (Z.eqb_spec x k) as [->|?]; [reflexivity|] end).
  cbn [app]. by apply read_string_step.
Qed.

Lemma read_digits_text ds : ∀ n acc c rest, Forall digit_ok ds → (List.length ds < n)%nat → isdigit (s8 c) = false → plain_byte c = true → c ≠ 10 →
  read_digits n acc (front (ds ++ c :: rest)) = Done (acc ++ ds, front (c :: rest)).
Proof.
  induction ds as [|d ds IH]; intros [|n] acc c rest Hd Hn Hc Hp H10; cbn in Hn; try lia.
  - cbn [read_digits app]. rewrite (bind_done _ _ _ _ _ (getc_here c rest H10)), Hc.
    assert (E : ungetc (s8 c) (front rest) = Done (tt, front (c :: rest))).
    { unfold ungetc. assert (byte_ok c) by (unfold plain_byte, between, byte_ok in *; lia). rewrite (s8_eqb c 10), (s8_eof c) by done.
      destruct (Z.eqb_spec c 10); [done|]. cbn. rewrite wrapu_wraps, wrapu_small by (unfold byte_ok in *; cbn; lia). reflexivity. }
    rewrite (bind_done _ _ _ _ _ E), app_nil_r. reflexivity.
  - apply Forall_cons in Hd as [Hd Hds]. assert (48 <= d <= 57) by (unfold digit_ok, isdigit, between in Hd; lia).
    cbn [read_digits app]. rewrite (bind_done _ _ _ _ _ (getc_here d _ ltac:(lia))), wraps_small by (cbn; lia). rewrite Hd.
    rewrite IH by (done || lia). by rewrite <- app_assoc.
Qed.

Lemma skip_space_here n x rest : isspace (s8 x) = false → x ≠ 10 → skip_space n (front (x :: rest)) = Done (s8 x, front rest).
Proof. intros Hx H10. destruct n; cbn [skip_space]; by rewrite (bind_done _ _ _ _ _ (getc_here x rest H10)), Hx. Qed.

End lexer.

(** ** Tokens *)

Inductive Tok := TP (c : Z) | TS (s : string) | TN (i : Z) | TT.

Definition print (t : Tok) : bytes :=
  match t with TP c => [c] | TS s => sendString s | TN i => text (ld i) | TT => text "true" end.

Definition code (t : Tok) : Z :=
  match t with TP c => c | TS _ => TOKEN_STRING | TN _ => TOKEN_NUMBER | TT => TOKEN_BOOL end.

Definition punct (c : Z) : bool := one_of [T_COLON; T_COMMA; T_LBRACE; T_RBRACE; T_LBRACK; T_RBRACK] c.

Definition tok_ok (t : Tok) : bool :=
  match t with TP c => punct c | TS s => sendable s | TN i => (INT32_MIN <=? i) && (i <=? INT32_MAX) | TT => true end.

(** A number is followed by a token that is not a number. *)
Fixpoint toks_ok (ts : list Tok) : bool :=
  match ts with
  | [] => true
  | t :: ts => tok_ok t && (match t, ts with TN _, TP _ :: _ => true | TN _, _ => false | _, _ => true end) && toks_ok ts
  end.

Definition print_all (ts : list Tok) : bytes := flat_map print ts.

(** The fields of the parser that hold the values of tokens, and the cache. *)
Record Env := MkEnv { e_b : bool; e_i : Z; e_s : string; e_c : list E9.Trampoline }.

Definition eff (t : Tok) (e : Env) : Env :=
  match t with
  | TP _ => e
  | TS s => MkEnv (e_b e) (e_i e) s (e_c e)
  | TN i => MkEnv (e_b e) i (ld i) (e_c e)
  | TT => MkEnv true (e_i e) (e_s e) (e_c e)
  end.

Definition st (line : Z) (l : bytes) (e : Env) : Parser := front line TOKEN_NONE (e_b e) (e_i e) (e_s e) (e_c e) l.

Lemma punct_cases (P : Z → Prop) c : punct c = true →
  P T_COLON → P T_COMMA → P T_LBRACE → P T_RBRACE → P T_LBRACK → P T_RBRACK → P c.
Proof.
  unfold punct, one_of. cbn [existsb]. intros H ??????.
  repeat (apply orb_true_iff in H as [->%Z.eqb_eq|H]; [done|]). done.
Qed.

(** Evaluates the next test of a computation. *)
Ltac decide_if :=
  match goal with |- (if ?b then _ else _) _ = _ => let v := eval vm_compute in b in change b with v; cbn iota end.

Lemma scanToken_text line s l e : sendable s = true →
  scanToken (st line (sendString s ++ l) e) = Done (TOKEN_STRING, st line l (eff (TS s) e)).
Proof.
  unfold sendable. intros [Hn Hp]%andb_true_iff. apply Nat.ltb_lt in Hn. unfold scanToken, st, sendString. rewrite <- app_assoc. cbn [app].
  rewrite (bind_done _ _ _ _ _ eq_refl).
  rewrite (bind_done _ _ _ _ _ (skip_space_here line TOKEN_NONE (e_b e) (e_i e) (e_s e) (e_c e) _ T_QUOTE _ eq_refl ltac:(done))).
  change (s8 T_QUOTE) with T_QUOTE. repeat decide_if.
  rewrite <- app_assoc. cbn [app].
  rewrite (bind_done _ _ _ _ _ (read_string_text line TOKEN_NONE (e_b e) (e_i e) (e_s e) (e_c e) (text s) STRING_MAX [] l Hp ltac:(by rewrite length_text))).
  cbn [app]. rewrite c_string_text by done. reflexivity.
Qed.

Lemma scanToken_number line i c l e : INT32_MIN <= i <= INT32_MAX → punct c = true →
  scanToken (st line (text (ld i) ++ c :: l) e) = Done (TOKEN_NUMBER, st line (c :: l) (eff (TN i) e)).
Proof.
  intros Hi Hc. destruct (ld_shape i Hi) as (d & ds & E & Hd & Hds & Hl & Hv & Hne).
  assert (Hp : forallb plain_byte (text (ld i)) = true ∧ map s8 (text (ld i)) = text (ld i)).
  { rewrite E. assert (H : Forall (λ x, plain_byte x = true ∧ s8 x = x) (d :: ds)).
    { assert (Hdig : ∀ x, digit_ok x → plain_byte x = true ∧ s8 x = x).
      { unfold digit_ok, isdigit, plain_byte, between. intros x Hx. split; [lia|]. apply wraps_small; cbn; lia. }
      constructor; [destruct Hd as [->|Hd]; [done|by apply Hdig]|]. eapply Forall_impl; [exact Hds|done]. }
    clear -H. induction H as [|x l [H1 H2] _ [IH1 IH2]]; [done|]. cbn [forallb map]. rewrite H1, H2, IH1, IH2. done. }
  destruct Hp as [Hp Hm]. assert (Hs : c_string (d :: ds) = ld i) by (rewrite <- E, <- Hm; by apply c_string_text).
  assert (Hd8 : s8 d = d) by (rewrite E in Hm; by injection Hm).
  assert (Hdr : d = 0x2D ∨ 48 <= d <= 57) by (destruct Hd as [->|Hd]; [by left|right; unfold isdigit, between in Hd; lia]).
  unfold scanToken, st. rewrite E. cbn [app]. rewrite (bind_done _ _ _ _ _ eq_refl).
  rewrite (bind_done _ _ _ _ _ (skip_space_here line TOKEN_NONE (e_b e) (e_i e) (e_s e) (e_c e) _ d _
    ltac:(rewrite Hd8; unfold isspace, between; lia) ltac:(lia))), Hd8.
  assert (Ec : one_char d = false ∧ (d =? 0x74) = false ∧ (d =? 0x66) = false ∧ (d =? 0x6E) = false ∧ (d =? 0x2D) || isdigit d = true).
  { unfold one_char, one_of, isdigit, between, T_COLON, T_COMMA, T_LBRACE, T_RBRACE, T_LBRACK, T_RBRACK, T_EOF. cbn [existsb]. lia. }
  destruct Ec as (-> & -> & -> & -> & ->).
  assert (Hnd : isdigit (s8 c) = false ∧ plain_byte c = true ∧ c ≠ 10) by (by apply (punct_cases (λ c, isdigit (s8 c) = false ∧ plain_byte c = true ∧ c ≠ 10))).
  rewrite (bind_done _ _ _ _ _ (read_digits_text line TOKEN_NONE (e_b e) (e_i e) (e_s e) (e_c e) ds (NUMBER_MAX - 1) [d] c l Hds
    ltac:(unfold NUMBER_MAX; lia) (proj1 Hnd) (proj1 (proj2 Hnd)) (proj2 (proj2 Hnd)))).
  cbn [app]. rewrite Hs, (bind_done _ _ _ _ _ eq_refl). destruct (bool_decide_reflect (d :: ds = [0x2D])); [done|].
  cbv zeta. rewrite Hv. destruct (Z.ltb_spec i INT32_MIN), (Z.ltb_spec INT32_MAX i); try lia. reflexivity.
Qed.

(** A token that does not need what follows. *)
Definition ends_itself (t : Tok) (l : bytes) : Prop :=
  match t with TN _ => match l with c :: _ => punct c = true | [] => False end | _ => True end.

Lemma scanToken_tok line t l e : tok_ok t = true → ends_itself t l →
  scanToken (st line (print t ++ l) e) = Done (code t, st line l (eff t e)).
Proof.
  destruct t as [c|s|i|]; cbn [tok_ok print ends_itself code eff app]; intros Ht Hl.
  - revert Ht. intros Hc. by apply (punct_cases (λ c, scanToken (st line (c :: l) e) = Done (c, st line l e))).
  - by apply scanToken_text.
  - destruct l as [|c l]; [done|]. apply scanToken_number; [lia|done].
  - by destruct e.
Qed.

Lemma getToken_scan p t p' : p_peek p = TOKEN_NONE → scanToken p = Done (t, p') → p_peek p' = TOKEN_NONE → getToken p = Done (t, p').
Proof.
  intros H1 H2 H3. unfold getToken, peekToken. unfold mbind, M_bind, gets, modify, mret, M_ret. rewrite H1. cbn. rewrite H2.
  destruct p'; cbn in *. by subst.
Qed.

Lemma getToken_tok line t l e : tok_ok t = true → ends_itself t l →
  getToken (st line (print t ++ l) e) = Done (code t, st line l (eff t e)).
Proof. intros Ht Hl. apply getToken_scan; [done|by apply scanToken_tok|done]. Qed.

(** ** The parser on tokens *)

Definition tok_next (t : Tok) (ts : list Tok) : Prop :=
  match t, ts with TN _, TP c :: _ => punct c = true | TN _, _ => False | _, _ => True end.

Section parser.
Context (line : Z) (l : bytes).

(** The parser in front of some tokens and the rest of the stream. *)
Definition at_ (ts : list Tok) (e : Env) : Parser := st line (print_all ts ++ l) e.

Lemma getToken_at t ts e : tok_ok t = true → tok_next t ts → getToken (at_ (t :: ts) e) = Done (code t, at_ ts (eff t e)).
Proof.
  intros Ht Hn. unfold at_. cbn [print_all flat_map]. rewrite <- app_assoc. apply getToken_tok; [done|].
  destruct t; try done. destruct ts as [|[]]; try done.
Qed.

Lemma expect_at k t ts e : tok_ok t = true → tok_next t ts → code t = k → expectToken k (at_ (t :: ts) e) = Done (tt, at_ ts (eff t e)).
Proof. intros H1 H2 H3. unfold expectToken. rewrite (bind_done _ _ _ _ _ (getToken_at t ts e H1 H2)), H3, Z.eqb_refl. done. Qed.

Lemma expect2_at k1 k2 t ts e : tok_ok t = true → tok_next t ts → code t = k1 ∨ code t = k2 →
  expectToken2 k1 k2 (at_ (t :: ts) e) = Done (code t, at_ ts (eff t e)).
Proof.
  intros H1 H2 H3. unfold expectToken2. rewrite (bind_done _ _ _ _ _ (getToken_at t ts e H1 H2)).
  destruct H3 as [<-|<-]; rewrite Z.eqb_refl, ?orb_true_r; done.
Qed.

Lemma expectString_at s ts e : sendable s = true → expectString s (at_ (TS s :: ts) e) = Done (tt, at_ ts (eff (TS s) e)).
Proof.
  intros Hs. unfold expectString. rewrite (bind_done _ _ _ _ _ (expect_at TOKEN_STRING (TS s) ts e Hs I eq_refl)).
  rewrite (bind_done _ _ _ _ _ eq_refl). cbn. by rewrite String.eqb_refl.
Qed.

Lemma parse_string_at s ts e : sendable s = true → parse_string (at_ (TS s :: ts) e) = Done (s, at_ ts (eff (TS s) e)).
Proof. intros Hs. unfold parse_string. by rewrite (bind_done _ _ _ _ _ (expect_at TOKEN_STRING (TS s) ts e Hs I eq_refl)). Qed.

Lemma print_length t : tok_ok t = true → (1 <= List.length (print t))%nat.
Proof.
  destruct t; cbn [print tok_ok]; intros Ht; [done|unfold sendString; rewrite !length_app; cbn; lia| |cbn; lia].
  destruct (ld_shape i) as (c & ds & E & _); [lia|]. rewrite E. cbn. lia.
Qed.

End parser.

(** *** Values *)

(** The templates that a session makes: bytes and integers only, for which the cache is no
    more than sharing. *)
Definition plain_entry (e : E9.Entry) : Prop :=
  match e with E9.ENTRY_BYTES _ => True | E9.ENTRY_INT32 (E9.OConst x) => 0 <= x < 2 ^ 64 | _ => False end.

Definition plain_template (T : E9.Trampoline) : Prop := ∃ es, T = template_of es ∧ Forall plain_entry es.

Definition shared (e : Env) : Prop := Forall plain_template (e_c e).

(** [m] reads the value [v] from these tokens, if punctuation follows. *)
Definition reads {A} (m : M A) (vt : list Tok) (v : A) : Prop :=
  ∀ line l c ts e, punct c = true → shared e →
  ∃ e', shared e' ∧ m (at_ line l (vt ++ TP c :: ts) e) = Done (v, at_ line l (TP c :: ts) e').

Lemma reads_ret {A B} (m : M A) (f : A → B) vt v : reads m vt v → reads (x ← m; mret (f x)) vt (f v).
Proof. intros H line l c ts e Hc He. destruct (H line l c ts e Hc He) as (e' & He' & E). exists e'. split; [done|]. by rewrite (bind_done _ _ _ _ _ E). Qed.

Lemma reads_string s : sendable s = true → reads parse_string [TS s] s.
Proof. intros Hs line l c ts e Hc He. eexists. split; [|by apply parse_string_at]. done. Qed.

(** The table of a parameter with a few names. *)
Lemma reads_name {A} (table : list (string * A)) s x : sendable s = true → find_name table s = Some x → reads (parse_name table) [TS s] x.
Proof.
  intros Hs Hx line l c ts e Hc He. cbn [app]. eexists. split; [|unfold parse_name; rewrite (bind_done _ _ _ _ _ (parse_string_at line l s _ e Hs)), Hx; reflexivity]. done.
Qed.

(** *** Integers *)

Definition hex_ok (b : Z) : Prop := is_Some (digit_value 16 b) ∧ plain_byte b = true.

Lemma hex_digit_value d : 0 <= d < 16 →
  hex_ok (Z.of_N (N_of_ascii (hex_digit d))) ∧ digit_value 16 (Z.of_N (N_of_ascii (hex_digit d))) = Some d.
Proof.
  intros Hd. assert (H : Forall (λ n, digit_value 16 (Z.of_N (N_of_ascii (hex_digit n))) = Some n ∧ plain_byte (Z.of_N (N_of_ascii (hex_digit n))) = true) (seqZ 0 16)).
  { vm_compute. repeat constructor. }
  rewrite Forall_forall in H. destruct (H d) as [H1 H2]; [apply elem_of_seqZ; lia|]. repeat split; [by eexists|done|done].
Qed.

Lemma hex_fuel_digits f : ∀ z acc, 0 <= z < 16 ^ Z.of_nat f →
  ∃ ds, bytes_of_string (hex_fuel f z acc) = ds ++ bytes_of_string acc ∧ Forall hex_ok ds ∧ (f ≠ O → ds ≠ []) ∧ (List.length ds <= f)%nat ∧
        (∀ t v, read_number 16 (ds ++ t) v = read_number 16 t (v * 16 ^ blen ds + z)).
Proof.
  induction f as [|f IH]; intros z acc Hz; cbn [hex_fuel].
  { exists []. change (16 ^ Z.of_nat 0) with 1 in Hz. split_and!; try done. intros t v. cbn [app]. f_equal. change (blen []) with 0. lia. }
  set (d := hex_digit (z mod 16)). pose proof (Z.mod_pos_bound z 16 ltac:(lia)) as Hm. pose proof (Z.div_mod z 16).
  destruct (hex_digit_value (z mod 16) Hm) as [Hd Hv]. fold d in Hd, Hv.
  destruct (Z.eqb_spec (z / 16) 0) as [E|E].
  - exists [Z.of_N (N_of_ascii d)]. split_and!; try done; [by constructor|cbn; lia|].
    intros t v. cbn [app read_number]. rewrite Hv. f_equal. change (blen [_]) with 1. lia.
  - destruct (IH (z / 16) (String d acc)) as (ds & E1 & H1 & H2 & H3 & H4).
    { split; [apply Z.div_pos; lia|]. apply Z.div_lt_upper_bound; [lia|]. rewrite Nat2Z.inj_succ, Z.pow_succ_r in Hz by lia. lia. }
    exists (ds ++ [Z.of_N (N_of_ascii d)]). cbn [bytes_of_string] in E1. split_and!.
    + by rewrite E1, <- app_assoc.
    + apply Forall_app. split; [done|by constructor].
    + by destruct ds.
    + rewrite length_app. cbn. lia.
    + intros t v. rewrite <- app_assoc, H4. cbn [app read_number]. rewrite Hv. f_equal. unfold blen. rewrite length_app. cbn [List.length].
      rewrite Nat2Z.inj_add, Z.pow_add_r by lia. change (16 ^ Z.of_nat 1) with 16. lia.
Qed.

Lemma hex_digits z : 0 <= z < 2 ^ 64 →
  ∃ d ds, text (hex z) = d :: ds ∧ Forall hex_ok (d :: ds) ∧ (List.length (d :: ds) <= 16)%nat ∧ read_number 16 (d :: ds) 0 = (z, []).
Proof.
  intros Hz. unfold text, hex. destruct (hex_fuel_digits 16 z EmptyString) as (ds & E & H1 & H2 & H3 & H4); [cbn in *; lia|].
  cbn [bytes_of_string] in E. rewrite app_nil_r in E. rewrite E. destruct ds as [|d ds]; [by destruct (H2 ltac:(done))|].
  exists d, ds. split_and!; [done..|]. specialize (H4 [] 0). rewrite app_nil_r in H4. by rewrite H4.
Qed.

(** An integer that does not fit 32 bits is sent as a string. *)
Definition hex_text (neg : bool) (x : Z) : string := (if neg then "-" else "") +:+ "0x" +:+ hex x.

Lemma text_hex_text neg x : text (hex_text neg x) = (if neg then [0x2D] else []) ++ [0x30; 0x78] ++ text (hex x).
Proof. unfold hex_text, text. rewrite !bytes_of_string_app. by destruct neg. Qed.

Lemma strtoull_hex x : 0 <= x < 2 ^ 64 → strtoull ([0x30; 0x78] ++ text (hex x)) 16 = (x, [], false).
Proof.
  intros Hx. destruct (hex_digits x Hx) as (d & ds & -> & Hd & _ & Hv). unfold strtoull. cbn [app skip_blanks]. 
  change (isspace 0x30) with false. cbn iota beta. change (0x30 =? 0x2D) with false. change (0x30 =? 0x2B) with false. cbn iota beta.
  apply Forall_cons in Hd as [[Hd _] _]. rewrite (bool_decide_eq_true_2 _ Hd). cbn [andb orb Z.eqb Pos.eqb]. rewrite Hv.
  cbn iota beta. destruct (bool_decide_reflect ([] = d :: ds)); [done|]. destruct (Z.leb_spec (2 ^ 64) x); [lia|done].
Qed.

Lemma stringToNumber_hex p neg x : p_s p = hex_text neg x → 0 <= x < 2 ^ 64 →
  stringToNumber p = Done (s64 (if neg then - s64 x else x), p).
Proof.
  intros Hp Hx. unfold stringToNumber. rewrite (bind_done _ _ _ _ _ eq_refl). cbv zeta. rewrite Hp. fold (text (hex_text neg x)). rewrite text_hex_text.
  destruct neg; cbn [app]; [change (0x2D =? 0x2D) with true|change (0x30 =? 0x2D) with false]; cbn iota beta;
    change (0x30 =? 0x30) with true; change (0x78 =? 0x78) with true; cbn [andb]; cbn iota beta;
    pose proof (strtoull_hex x Hx) as E; cbn [app] in E; rewrite E; cbn iota beta; reflexivity.
Qed.

(** A string without characters that are escaped. *)
Definition simple_byte (b : Z) : bool := plain_byte b && negb (one_of [T_BACKSLASH; T_QUOTE; 10; 9; 13; 8; 12] b).

Definition simple (s : string) : bool := Nat.ltb (String.length s) STRING_MAX && forallb simple_byte (text s).

Lemma simple_sendable s : simple s = true → sendable s = true ∧ quoted s = sendString s.
Proof.
  unfold simple, sendable. intros [-> H]%andb_true_iff. unfold quoted, sendString. cbn [andb].
  assert (E : forallb plain_byte (text s) = true ∧ flat_map send_char (text s) = text s).
  { revert H. generalize (text s). induction l as [|b l IH]; [done|]. cbn [forallb flat_map]. unfold simple_byte at 1, one_of. cbn [existsb].
    intros [[Hb Hn]%andb_true_iff H]%andb_true_iff. destruct (IH H) as [-> E]. rewrite Hb, E. split; [done|]. unfold send_char.
    rewrite negb_true_iff in Hn. repeat (apply orb_false_iff in Hn as [? Hn]).
    repeat match goal with H : (b =? ?k) = false |- _ => rewrite H; clear H end. done. }
  destruct E as [-> ->]. done.
Qed.

Lemma hex_text_simple neg x : 0 <= x < 2 ^ 64 → simple (hex_text neg x) = true.
Proof.
  intros Hx. destruct (hex_digits x Hx) as (d & ds & E & Hd & Hl & _). unfold simple. rewrite <- length_text, text_hex_text, E. apply andb_true_iff. split.
  - apply Nat.ltb_lt. unfold STRING_MAX. rewrite !length_app. destruct neg; cbn in *; lia.
  - apply forallb_forall. intros b Hb. apply in_app_or in Hb as [Hb|Hb]; [destruct neg; [|done]; cbn in Hb; destruct Hb as [<-|[]]; done|].
    apply in_app_or in Hb as [Hb|Hb]; [cbn in Hb; by destruct Hb as [<-|[<-|[]]]|]. rewrite Forall_forall in Hd.
    destruct (Hd b) as [[v Hv] Hp]; [by apply list_elem_of_In|]. unfold simple_byte, one_of. rewrite Hp. cbn [andb existsb].
    unfold digit_value, isdigit, between, T_BACKSLASH, T_QUOTE in *. revert Hv. repeat case_match; intros; try lia; done.
Qed.

Definition int_toks (i : Z) : list Tok :=
  if (INT32_MIN <=? i) && (i <=? INT32_MAX) then [TN i] else [TS (hex_text (i <? 0) (u64 (if i <? 0 then - i else i)))].

Lemma sendInteger_toks i : print_all (int_toks i) = sendInteger i.
Proof.
  unfold int_toks, sendInteger. destruct (_ && _); [unfold print_all; cbn [flat_map print]; by rewrite app_nil_r|].
  cbv zeta. fold (hex_text (i <? 0) (u64 (if i <? 0 then - i else i))). unfold print_all. cbn [flat_map print]. rewrite app_nil_r.
  symmetry. apply simple_sendable, hex_text_simple. apply wrapu_range. lia.
Qed.

Lemma reads_hex neg x : 0 <= x < 2 ^ 64 → reads parse_integer [TS (hex_text neg x)] (s64 (if neg then - s64 x else x)).
Proof.
  intros Hx line l c ts e Hc He. destruct (simple_sendable _ (hex_text_simple neg x Hx)) as [Hs _]. cbn [app].
  exists (eff (TS (hex_text neg x)) e). split; [done|]. unfold parse_integer.
  rewrite (bind_done _ _ _ _ _ (expect2_at line l TOKEN_NUMBER TOKEN_STRING (TS _) (TP c :: ts) e Hs I (or_intror eq_refl))).
  cbn [code]. change (TOKEN_STRING =? TOKEN_NUMBER) with false. cbn iota. by apply stringToNumber_hex.
Qed.

Lemma reads_integer i : - 2 ^ 63 < i < 2 ^ 63 → reads parse_integer (int_toks i) i.
Proof.
  intros Hi. unfold int_toks. destruct ((INT32_MIN <=? i) && (i <=? INT32_MAX)) eqn:E.
  { intros line l c ts e Hc He. exists (eff (TN i) e). split; [done|]. unfold parse_integer. cbn [app].
    by rewrite (bind_done _ _ _ _ _ (expect2_at line l TOKEN_NUMBER TOKEN_STRING (TN i) (TP c :: ts) e E Hc (or_introl eq_refl))). }
  pose proof (reads_hex (i <? 0) (u64 (if i <? 0 then - i else i)) ltac:(apply wrapu_range; lia)) as H.
  replace (s64 _) with i in H; [done|]. symmetry.
  destruct (Z.ltb_spec i 0); rewrite wrapu_small by (cbn; lia); rewrite ?(wraps_small 64 (- i)) by (cbn; lia); rewrite ?Z.opp_involutive; apply wraps_small; cbn; lia.
Qed.

(** The address of an instruction is sent in hexadecimal, as an unsigned number. *)
Lemma reads_address i : - 2 ^ 63 <= i < 2 ^ 63 → reads parse_integer [TS (hex_text false (u64 i))] i.
Proof.
  intros Hi. pose proof (reads_hex false (u64 i) ltac:(apply wrapu_range; lia)) as H.
  cbv iota in H. rewrite wraps_wrapu, wraps_small in H by (cbn; lia). done.
Qed.

(** *** Protections and arrays of bytes *)

Definition protection_text (prot : Z) : string :=
  c_string [if Z.land prot E9.PROT_READ =? 0 then 0x2D else 0x72; if Z.land prot E9.PROT_WRITE =? 0 then 0x2D else 0x77;
            if Z.land prot E9.PROT_EXEC =? 0 then 0x2D else 0x78].

Lemma protection_quoted prot : protection prot = sendString (protection_text prot) ∧ sendable (protection_text prot) = true.
Proof. unfold protection, protection_text. by destruct (_ =? 0), (_ =? 0), (_ =? 0). Qed.

Lemma protection_cases (P : Z → Prop) prot : 0 <= prot < 8 → (∀ n, (n < 8)%nat → P (Z.of_nat n)) → P prot.
Proof. intros Hp H. rewrite <- (Z2Nat.id prot) by lia. apply H. lia. Qed.

Lemma reads_protection prot : 0 <= prot < 8 → reads parse_protection [TS (protection_text prot)] prot.
Proof.
  intros Hp line l c ts e Hc He. eexists. split; [|cbn [app]; unfold parse_protection;
    rewrite (bind_done _ _ _ _ _ (expect_at line l TOKEN_STRING (TS _) (TP c :: ts) e (proj2 (protection_quoted prot)) I eq_refl)); set (e' := eff _ _)].
  2:{ transitivity (Done (prot, at_ line l (TP c :: ts) e')); [|reflexivity]. subst e'. revert prot Hp. intros prot Hp.
      apply (protection_cases (λ prot, _ (at_ line l (TP c :: ts) (eff (TS (protection_text prot)) e)) = Done (prot, at_ line l (TP c :: ts) (eff (TS (protection_text prot)) e))) prot Hp).
      intros n Hn. do 8 (destruct n as [|n]; [reflexivity|]). lia. }
  done.
Qed.

(** Elements with commas between them. *)
Fixpoint toks_list {A} (f : A → list Tok) (prev : bool) (xs : list A) : list Tok :=
  match xs with [] => [] | x :: xs => (if prev then [TP T_COMMA] else []) ++ f x ++ toks_list f true xs end.

Lemma print_all_app ts us : print_all (ts ++ us) = print_all ts ++ print_all us.
Proof. apply flat_map_app. Qed.

Lemma send_list_toks {A} (f : A → list Tok) (g : A → bytes) xs : ∀ prev, Forall (λ x, print_all (f x) = g x) xs →
  print_all (toks_list f prev xs) = send_list g prev xs.
Proof.
  induction xs as [|x xs IH]; intros prev H; [done|]. apply Forall_cons in H as [Hx H]. cbn [toks_list send_list].
  rewrite !print_all_app, Hx, IH by done. by destruct prev.
Qed.

(** Every element after the first one takes a character at least. *)
Lemma toks_list_length {A} (f : A → list Tok) xs us : (List.length xs <= List.length (print_all (toks_list f true xs ++ us)))%nat.
Proof.
  induction xs as [|x xs IH]; [cbn; lia|]. cbn [toks_list app]. cbn [print_all flat_map print app List.length]. fold print_all.
  rewrite <- app_assoc, print_all_app, length_app. unfold print_all in *. lia.
Qed.

(** The fuel of a loop is enough for the elements that are left. *)
Lemma fuel_at {A B} (f : A → list Tok) (xs : list A) us (g : nat → M B) line l e (P : res (B * Parser) → Prop) :
  (∀ n, (List.length xs < n)%nat → P (g n (at_ line l (toks_list f true xs ++ us) e))) →
  P (with_fuel g (at_ line l (toks_list f true xs ++ us) e)).
Proof.
  intros H. apply H. unfold at_, st. cbn [p_in front]. rewrite length_app. pose proof (toks_list_length f xs us). lia.
Qed.

Lemma tok_next_list {A} (f : A → list Tok) t xs ts : tok_next t (toks_list f true xs ++ TP T_RBRACK :: ts).
Proof. destruct t; try exact I. by destruct xs. Qed.

Definition byte_toks (b : Z) : list Tok := [TN b].

Definition bytes_toks (bs : bytes) : list Tok := TP T_LBRACK :: toks_list byte_toks false bs ++ [TP T_RBRACK].

Lemma byte_tok b : byte_ok b → tok_ok (TN b) = true ∧ text (dec b) = text (ld b).
Proof. unfold byte_ok, tok_ok, ld, INT32_MIN, INT32_MAX. intros Hb. split; [lia|]. by destruct (Z.ltb_spec b 0); [lia|]. Qed.

Lemma sendBytes_toks bs : bytes_ok bs → print_all (bytes_toks bs) = sendBytes bs.
Proof.
  intros Hb. unfold bytes_toks, sendBytes. change (TP T_LBRACK :: ?x) with ([TP T_LBRACK] ++ x). rewrite !print_all_app.
  rewrite (send_list_toks _ (λ b, text (dec b))); [done|]. eapply Forall_impl; [exact Hb|]. intros b H. unfold print_all. cbn [flat_map byte_toks print]. rewrite app_nil_r.
  by rewrite (proj2 (byte_tok b H)).
Qed.

Lemma bytes_loop_at line l ts bs : ∀ n b acc e, bytes_ok (b :: bs) → e_i e = b → (List.length bs < n)%nat → ∃ i s,
  bytes_loop n TOKEN_NUMBER acc (at_ line l (toks_list byte_toks true bs ++ TP T_RBRACK :: ts) e) =
  Done (acc ++ b :: bs, at_ line l ts (MkEnv (e_b e) i s (e_c e))).
Proof.
  induction bs as [|b' bs IH]; intros [|n] b acc e Hb Hi Hn; cbn [List.length] in Hn; try lia;
    apply Forall_cons in Hb as [Hb Hbs]; unfold byte_ok in Hb;
    assert (Eb : ∀ us, parse_byte (at_ line l us e) = Done (b, at_ line l us e))
      by (intros us; unfold parse_byte; rewrite (bind_done _ _ _ _ _ eq_refl); unfold at_, st, front; cbn [p_i]; rewrite Hi;
          destruct (Z.ltb_spec b 0), (Z.ltb_spec 255 b); try lia; done);
    cbn [bytes_loop toks_list app]; change (TOKEN_NUMBER =? T_RBRACK) with false; change (negb (TOKEN_NUMBER =? TOKEN_NUMBER)) with false; cbn iota;
    rewrite (bind_done _ _ _ _ _ (Eb _)).
  - rewrite (bind_done _ _ _ _ _ (expect2_at line l T_COMMA T_RBRACK (TP T_RBRACK) ts e eq_refl I (or_intror eq_refl))).
    rewrite (bind_done _ _ _ _ _ eq_refl). exists (e_i e), (e_s e). destruct n; cbn; by destruct e.
  - rewrite (bind_done _ _ _ _ _ (expect2_at line l T_COMMA T_RBRACK (TP T_COMMA) _ e eq_refl I (or_introl eq_refl))).
    cbn [byte_toks app]. pose proof (proj1 (Forall_cons_1 _ _ _ Hbs)) as Hb'.
    rewrite (bind_done _ _ _ _ _ (getToken_at line l (TN b') _ _ (proj1 (byte_tok b' Hb')) (tok_next_list _ _ _ _))).
    destruct (IH n b' (acc ++ [b]) (eff (TN b') e) Hbs eq_refl ltac:(lia)) as (i & s & E). cbn [code]. change (eff (TP T_COMMA) e) with e. rewrite E. exists i, s. by rewrite <- app_assoc.
Qed.

Lemma reads_bytes bs : bytes_ok bs → reads parseBytes (bytes_toks bs) (template_of [E9.ENTRY_BYTES bs]).
Proof.
  intros Hb line l c ts e Hc He. unfold bytes_toks, parseBytes. rewrite <- app_comm_cons, <- app_assoc. cbn [app].
  rewrite (bind_done _ _ _ _ _ (expect_at line l T_LBRACK (TP T_LBRACK) _ e eq_refl I eq_refl)). cbn [eff].
  destruct bs as [|b bs]; cbn [toks_list byte_toks app].
  - rewrite (bind_done _ _ _ _ _ (getToken_at line l (TP T_RBRACK) _ e eq_refl I)). exists e. split; [done|]. by destruct e.
  - pose proof (proj1 (Forall_cons_1 _ _ _ Hb)) as Hb1.
    rewrite (bind_done _ _ _ _ _ (getToken_at line l (TN b) _ e (proj1 (byte_tok b Hb1)) (tok_next_list _ _ _ _))).
    destruct (fuel_at byte_toks bs (TP T_RBRACK :: TP c :: ts) (λ fuel, bytes_loop fuel TOKEN_NUMBER []) line l (eff (TN b) e)
      (λ r, ∃ i s, r = Done (b :: bs, at_ line l (TP c :: ts) (MkEnv (e_b e) i s (e_c e))))) as (i & s & E).
    { intros n Hn. exact (bytes_loop_at line l (TP c :: ts) bs n b [] (eff (TN b) e) Hb eq_refl Hn). }
    cbn [code]. rewrite (bind_done _ _ _ _ _ E). eexists. split; [|reflexivity]. exact He.
Qed.

(** *** Templates *)

Definition datum_toks (d : Datum) : list Tok :=
  match d with Byte b => [TN b] | Int32 x => [TP T_LBRACE; TS "int32"; TP T_COLON; TN x; TP T_RBRACE] end.

Definition datum_ok (d : Datum) : Prop :=
  match d with Byte b => byte_ok b | Int32 x => INT32_MIN <= x <= INT32_MAX end.

(** The bytes and entries after a datum. *)
Definition add_datum (r : bytes * list E9.Entry) (d : Datum) : bytes * list E9.Entry :=
  match d with
  | Byte b => (fst r ++ [b], snd r)
  | Int32 x => ([], (snd r ++ flush_bytes (fst r)) ++ [E9.ENTRY_INT32 (E9.OConst (u32 x))])
  end.

Definition close_template (r : bytes * list E9.Entry) : list E9.Entry := snd r ++ flush_bytes (fst r).

Definition datum_entries (ds : list Datum) : list E9.Entry := close_template (foldl add_datum ([], []) ds).

Lemma send_datum_toks d : datum_ok d → print_all (datum_toks d) = send_datum d.
Proof.
  destruct d as [b|x]; cbn [datum_ok]; intros Hd; unfold print_all; cbn [datum_toks flat_map print send_datum app]; rewrite ?app_nil_r.
  - by rewrite (proj2 (byte_tok b Hd)).
  - reflexivity.
Qed.

(** One datum: the token that begins it was read. *)
Lemma datum_at line l d bs es ts e : datum_ok d → tok_next (TN 0) ts →
  ∃ t e1 e', getToken (at_ line l (datum_toks d ++ ts) e) = Done (t, at_ line l (tail (datum_toks d) ++ ts) e1) ∧ t ≠ T_RBRACK ∧
   (if t =? TOKEN_NUMBER then b ← parse_byte; mret (bs ++ [b], es)
    else es' ← template_entry t; mret ([], (es ++ flush_bytes bs) ++ es')) (at_ line l (tail (datum_toks d) ++ ts) e1) =
   Done (add_datum (bs, es) d, at_ line l ts e') ∧ e_c e' = e_c e.
Proof.
  destruct d as [b|x]; cbn [datum_ok datum_toks app]; intros Hd Hn.
  - exists TOKEN_NUMBER, (eff (TN b) e), (eff (TN b) e).
    split; [apply (getToken_at line l (TN b)); [apply byte_tok, Hd|exact Hn]|]. split; [done|]. split; [|done].
    cbn iota. unfold byte_ok in Hd. change (TOKEN_NUMBER =? TOKEN_NUMBER) with true. cbn iota.
    assert (Eb : parse_byte (at_ line l ts (eff (TN b) e)) = Done (b, at_ line l ts (eff (TN b) e))).
    { unfold parse_byte. rewrite (bind_done _ _ _ _ _ eq_refl). unfold at_, st, front. cbn [p_i eff e_i]. destruct (Z.ltb_spec b 0), (Z.ltb_spec 255 b); try lia. done. }
    by rewrite (bind_done _ _ _ _ _ Eb).
  - eexists T_LBRACE, _, (eff (TN x) (eff (TS "int32") e)). split; [apply (getToken_at line l (TP T_LBRACE)); done|]. split; [done|]. split; [|done].
    change (T_LBRACE =? TOKEN_NUMBER) with false. cbn iota.
    assert (E : makeDataEntry (at_ line l (TS "int32" :: TP T_COLON :: TN x :: TP T_RBRACE :: ts) e) =
                Done (E9.ENTRY_INT32 (E9.OConst (u32 x)), at_ line l ts (eff (TN x) (eff (TS "int32") e)))).
    { unfold makeDataEntry. rewrite (bind_done _ _ _ _ _ (expect_at line l TOKEN_STRING (TS "int32") _ e eq_refl I eq_refl)).
      rewrite (bind_done _ _ _ _ _ eq_refl). change (data_type _) with (Some DATA_INT32). cbn iota.
      rewrite (bind_done _ _ _ _ _ (expect_at line l T_COLON (TP T_COLON) _ _ eq_refl I eq_refl)).
      assert (Eo : parseOperand (λ x, x ← convertInteger x (- 2 ^ 31) (2 ^ 32 - 1); mret (u32 x))
                     (at_ line l (TN x :: TP T_RBRACE :: ts) (eff (TP T_COLON) (eff (TS "int32") e))) =
                   Done (E9.OConst (u32 x), at_ line l (TP T_RBRACE :: ts) (eff (TN x) (eff (TS "int32") e)))).
      { unfold parseOperand.
        rewrite (bind_done _ _ _ _ _ (expect2_at line l TOKEN_NUMBER TOKEN_STRING (TN x) (TP T_RBRACE :: ts) _ ltac:(cbn; lia) eq_refl (or_introl eq_refl))).
        rewrite (bind_done _ _ _ _ _ eq_refl). change (_ && _) with false at 1. cbn iota. cbn [code].
        change (TOKEN_NUMBER =? TOKEN_NUMBER) with true. cbn iota. rewrite (bind_done _ _ _ _ _ eq_refl).
        unfold INT32_MIN, INT32_MAX in Hd.
        assert (Ec : ∀ p, convertInteger x (- 2 ^ 31) (2 ^ 32 - 1) p = Done (if x <? 0 then x + 2 ^ 32 else x, p)).
        { intros p. unfold convertInteger. destruct (Z.ltb_spec x (- 2 ^ 31)), (Z.ltb_spec (2 ^ 32 - 1) x); try lia. reflexivity. }
        rewrite (bind_done _ _ _ _ _ (eq_trans (bind_done _ _ _ _ _ (Ec _)) eq_refl)). unfold mret, M_ret. do 3 f_equal.
        destruct (x <? 0); [|done]. rewrite <- (Z.mul_1_l (2 ^ 32)) at 1. apply wrapu_eqm. }
      rewrite (bind_done _ _ _ _ _ (eq_trans (bind_done _ _ _ _ _ Eo) eq_refl)).
      by rewrite (bind_done _ _ _ _ _ (expect_at line l T_RBRACE (TP T_RBRACE) ts _ eq_refl I eq_refl)). }
    unfold template_entry. change (T_LBRACE =? TOKEN_STRING) with false. change (T_LBRACE =? T_LBRACE) with true. cbn iota.
    by rewrite (bind_done _ _ _ _ _ (eq_trans (bind_done _ _ _ _ _ E) eq_refl)).
Qed.

Definition template_toks (ds : list Datum) : list Tok := TP T_LBRACK :: toks_list datum_toks false ds ++ [TP T_RBRACK].

Lemma template_end n once bs es p : template_loop n once T_RBRACK bs es p = Done (close_template (bs, es), p).
Proof. by destruct n. Qed.

Lemma template_loop_at line l ts d ds : ∀ n bs es e, Forall datum_ok (d :: ds) → (List.length ds < n)%nat → ∃ e', e_c e' = e_c e ∧
  (token ← getToken; template_loop n false token bs es) (at_ line l (datum_toks d ++ toks_list datum_toks true ds ++ TP T_RBRACK :: ts) e) =
  Done (close_template (foldl add_datum (bs, es) (d :: ds)), at_ line l ts e').
Proof.
  revert d. induction ds as [|d' ds IH]; intros d [|n] bs es e Hd Hn; cbn [List.length] in Hn; try lia; apply Forall_cons in Hd as [Hd Hds];
    match goal with |- context [datum_toks d ++ ?ts'] =>
      destruct (datum_at line l d bs es ts' e Hd (tok_next_list _ (TN 0) _ _)) as (t & e0 & e1 & E1 & Ht & E2 & Hc) end;
    rewrite (bind_done _ _ _ _ _ E1); cbn [template_loop]; destruct (Z.eqb_spec t T_RBRACK); try done;
    rewrite (bind_done _ _ _ _ _ E2); cbn [foldl]; destruct (add_datum (bs, es) d) as [bs1 es1]; cbn iota beta; cbn [toks_list app].
  - exists e1. split; [done|]. rewrite (bind_done _ _ _ _ _ (expect2_at line l T_COMMA T_RBRACK (TP T_RBRACK) ts e1 eq_refl I (or_intror eq_refl))).
    rewrite (bind_done _ _ _ _ _ eq_refl). apply template_end.
  - rewrite (bind_done _ _ _ _ _ (expect2_at line l T_COMMA T_RBRACK (TP T_COMMA) _ e1 eq_refl I (or_introl eq_refl))).
    cbn [code]. change (T_COMMA =? T_COMMA) with true. cbn iota. change (eff (TP T_COMMA) e1) with e1. rewrite <- app_assoc.
    destruct (IH d' n bs1 es1 e1 Hds ltac:(lia)) as (e' & Hc' & E). exists e'. split; [congruence|exact E].
Qed.

(** The cache of plain templates only shares. *)
Lemma plain_key x y : plain_entry x → plain_entry y → TrampolineOrder.entry_key x = TrampolineOrder.entry_key y → x = y.
Proof.
  destruct x as [d| | | | | | | | |[a|]| | | | | |], y as [d'| | | | | | | | |[a'|]| | | | | |]; cbn; intros Hx Hy E; try done.
  - by injection E as _ ->.
  - injection E as E. rewrite !wrapu_small in E by lia. by subst.
Qed.

Lemma equivalent_plain es T : Forall plain_entry es → plain_template T → equivalent (template_of es) T = true → T = template_of es.
Proof.
  intros He (es' & -> & He'). unfold equivalent. rewrite andb_true_iff, !negb_true_iff, (proj2 (proj2 TrampolineOrder.TrampolineCmp_order)).
  cbn [E9.entries template_of]. intros Hk. f_equal. revert es' He' Hk.
  induction He as [|x es Hx _ IH]; intros [|y es'] He' Hk; try done. apply Forall_cons in He' as [Hy He'].
  apply TrampolineOrder.keys_cons in Hk as [Hk1 Hk2]. rewrite (plain_key x y) by done. f_equal. by apply IH.
Qed.

Lemma dup_plain es line l ts e : Forall plain_entry es → shared e →
  ∃ e', shared e' ∧ dupTrampoline es (at_ line l ts e) = Done (template_of es, at_ line l ts e').
Proof.
  intros He Hs. unfold dupTrampoline. rewrite (bind_done _ _ _ _ _ eq_refl). change (p_cache _) with (e_c e).
  destruct (List.find _ _) as [T|] eqn:E.
  - exists e. split; [done|]. apply find_some in E as [HT Eq]. unfold shared in Hs. rewrite Forall_forall in Hs.
    by rewrite (equivalent_plain es T He (Hs T ltac:(by apply list_elem_of_In)) Eq).
  - exists (MkEnv (e_b e) (e_i e) (e_s e) (template_of es :: e_c e)). split; [|reflexivity]. constructor; [|done]. by exists es.
Qed.

Lemma datum_plain ds : ∀ bs es, Forall datum_ok ds → Forall plain_entry es → Forall plain_entry (close_template (foldl add_datum (bs, es) ds)).
Proof.
  assert (Hf : ∀ bs, Forall plain_entry (flush_bytes bs)) by (intros [|??]; by repeat constructor).
  induction ds as [|d ds IH]; intros bs es Hd He; [by apply Forall_app|]. apply Forall_cons in Hd as [Hd Hds]. cbn [foldl].
  destruct d as [b|x]; cbn [add_datum fst snd]; apply IH; try done. apply Forall_app. split; [by apply Forall_app|]. constructor; [|done].
  cbn. pose proof (wrapu_range 32 x). lia.
Qed.

Lemma reads_template ds : Forall datum_ok ds → reads (parseTrampoline false) (template_toks ds) (template_of (datum_entries ds)).
Proof.
  intros Hd line l c ts e Hc He. unfold template_toks, parseTrampoline. rewrite <- app_comm_cons, <- app_assoc. cbn [app].
  rewrite (bind_done _ _ _ _ _ (getToken_at line l (TP T_LBRACK) _ e eq_refl I)). cbv zeta. change (negb (code (TP T_LBRACK) =? T_LBRACK)) with false.
  cbn iota. change (eff (TP T_LBRACK) e) with e. unfold datum_entries.
  destruct ds as [|d ds]; cbn [toks_list app].
  - rewrite (bind_done _ _ _ _ _ (getToken_at line l (TP T_RBRACK) _ e eq_refl I)).
    cbn [code]. set (us := at_ _ _ _ _).
    assert (EL : with_fuel (λ fuel, template_loop fuel false T_RBRACK [] []) us = Done (close_template ([], []), us)) by apply template_end.
    rewrite (bind_done _ _ _ _ _ EL). by apply dup_plain.
  - rewrite <- app_assoc. pose proof (proj1 (Forall_cons_1 _ _ _ Hd)) as Hd1.
    destruct (datum_at line l d [] [] (toks_list datum_toks true ds ++ TP T_RBRACK :: TP c :: ts) e Hd1 (tok_next_list _ (TN 0) _ _)) as (t & e0 & _ & E1 & _).
    rewrite (bind_done _ _ _ _ _ E1). set (us := at_ _ _ (tail _ ++ _) _) in *.
    destruct (template_loop_at line l (TP c :: ts) d ds (2 * List.length (p_in us) + 4) [] [] e Hd) as (e' & Hc' & E).
    { subst us. unfold at_, st, front. cbn [p_in]. rewrite print_all_app, !length_app. pose proof (toks_list_length datum_toks ds (TP T_RBRACK :: TP c :: ts)). lia. }
    rewrite (bind_done _ _ _ _ _ E1) in E. fold us in E.
    assert (EL : with_fuel (λ fuel, template_loop fuel false t [] []) us = Done (close_template (foldl add_datum ([], []) (d :: ds)), at_ line l (TP c :: ts) e')) by exact E.
    rewrite (bind_done _ _ _ _ _ EL). apply dup_plain; [by apply datum_plain|]. unfold shared. by rewrite Hc'.
Qed.

(** *** Options *)

Definition string_toks (s : string) : list Tok := [TS s].

Definition argv_toks (argv : list string) : list Tok := TP T_LBRACK :: toks_list string_toks false argv ++ [TP T_RBRACK].

Lemma argv_send argv : print_all (argv_toks argv) = [T_LBRACK] ++ send_list sendString false argv ++ [T_RBRACK].
Proof.
  unfold argv_toks. change (TP T_LBRACK :: ?x) with ([TP T_LBRACK] ++ x). rewrite !print_all_app.
  rewrite (send_list_toks _ sendString); [done|]. apply Forall_true. intros s. unfold print_all. cbn [flat_map string_toks print]. apply app_nil_r.
Qed.

Lemma strings_loop_at line l ts ss : ∀ n s acc e, forallb sendable (s :: ss) = true → e_s e = s → (List.length ss < n)%nat → ∃ e', e_c e' = e_c e ∧
  strings_loop n TOKEN_STRING acc (at_ line l (toks_list string_toks true ss ++ TP T_RBRACK :: ts) e) = Done (acc ++ s :: ss, at_ line l ts e').
Proof.
  induction ss as [|s' ss IH]; intros [|n] s acc e Hb Hi Hn; cbn [List.length] in Hn; try lia; apply andb_true_iff in Hb as [Hb Hbs];
    cbn [strings_loop toks_list app]; change (TOKEN_STRING =? T_RBRACK) with false; change (negb (TOKEN_STRING =? TOKEN_STRING)) with false; cbn iota;
    rewrite (bind_done _ _ _ _ _ eq_refl); change (p_s _) with (e_s e); rewrite Hi.
  - rewrite (bind_done _ _ _ _ _ (expect2_at line l T_COMMA T_RBRACK (TP T_RBRACK) ts e eq_refl I (or_intror eq_refl))).
    rewrite (bind_done _ _ _ _ _ eq_refl). exists e. split; [done|]. by destruct n.
  - rewrite (bind_done _ _ _ _ _ (expect2_at line l T_COMMA T_RBRACK (TP T_COMMA) _ e eq_refl I (or_introl eq_refl))).
    cbn [string_toks app]. pose proof Hbs as [Hs' _]%andb_true_iff.
    rewrite (bind_done _ _ _ _ _ (getToken_at line l (TS s') _ _ Hs' (tok_next_list _ _ _ _))).
    destruct (IH n s' (acc ++ [s]) (eff (TS s') e) Hbs eq_refl ltac:(lia)) as (e' & Hc & E). cbn [code]. change (eff (TP T_COMMA) e) with e.
    rewrite E. exists e'. split; [done|]. by rewrite <- app_assoc.
Qed.

Lemma reads_strings first argv : forallb sendable argv = true → reads (parseStrings first) (argv_toks argv) (first :: argv).
Proof.
  intros Hb line l c ts e Hc He. unfold argv_toks, parseStrings. rewrite <- app_comm_cons, <- app_assoc. cbn [app].
  rewrite (bind_done _ _ _ _ _ (expect_at line l T_LBRACK (TP T_LBRACK) _ e eq_refl I eq_refl)). change (eff (TP T_LBRACK) e) with e.
  destruct argv as [|s ss]; cbn [toks_list string_toks app].
  - rewrite (bind_done _ _ _ _ _ (expect2_at line l T_RBRACK TOKEN_STRING (TP T_RBRACK) _ e eq_refl I (or_introl eq_refl))). by exists e.
  - pose proof Hb as [Hs _]%andb_true_iff.
    rewrite (bind_done _ _ _ _ _ (expect2_at line l T_RBRACK TOKEN_STRING (TS s) _ e Hs (tok_next_list _ _ _ _) (or_intror eq_refl))).
    apply (fuel_at string_toks ss (TP T_RBRACK :: TP c :: ts) (λ fuel, strings_loop fuel TOKEN_STRING [first]) line l (eff (TS s) e)
             (λ r, ∃ e', shared e' ∧ r = Done (first :: s :: ss, at_ line l (TP c :: ts) e'))).
    intros n Hn. destruct (strings_loop_at line l (TP c :: ts) ss n s [first] (eff (TS s) e) Hb eq_refl Hn) as (e' & Hc' & E).
    exists e'. split; [|exact E]. unfold shared. by rewrite Hc'.
Qed.

(** *** Parameters *)

(** A parameter: its name and tokens, and what the parser makes of them. *)
Record Item := MkItem { i_name : string; i_toks : list Tok; i_param : ParamName; i_val : ParamValue }.

Definition item_ok (m : E9Api.Method) (it : Item) : Prop :=
  simple (i_name it) = true ∧ find_name param_names (i_name it) = Some (i_param it) ∧ validateParam m (i_param it) = true ∧
  reads (parseValue (i_param it)) (i_toks it) (i_val it).

Definition received_params (its : list Item) : list (ParamName * ParamValue) := (λ it, (i_param it, i_val it)) <$> its.

Definition is_nil {A} (xs : list A) : bool := match xs with [] => true | _ => false end.

Fixpoint items_toks (its : list Item) : list Tok :=
  match its with
  | [] => []
  | it :: its => TS (i_name it) :: TP T_COLON :: i_toks it ++ (if is_nil its then [] else [TP T_COMMA]) ++ items_toks its
  end.

Lemma items_length its us : (List.length its <= List.length (print_all (items_toks its ++ us)))%nat.
Proof.
  induction its as [|it its IH]; [cbn; lia|]. cbn [items_toks app List.length]. rewrite print_all_app, length_app in *.
  change (print_all (TS (i_name it) :: ?x)) with (sendString (i_name it) ++ print_all x). change (print_all (TP T_COLON :: ?x)) with ([T_COLON] ++ print_all x).
  rewrite !print_all_app, !length_app. unfold sendString. cbn [List.length app]. lia.
Qed.

(** One more value, if there is room. *)
Lemma add_param_at name p v p' ps : parseValue name p = Done (v, p') → (List.length ps < PARAM_MAX)%nat →
  (v ← parseValue name; if Nat.leb PARAM_MAX (List.length ps) then fail else mret (ps ++ [(name, v)])) p = Done (ps ++ [(name, v)], p').
Proof. intros E Hl. rewrite (bind_done _ _ _ _ _ E). by destruct (Nat.leb_spec PARAM_MAX (List.length ps)); [lia|]. Qed.

Lemma params_loop_at m line l ts its : ∀ it n ps e, Forall (item_ok m) (it :: its) → shared e → e_s e = i_name it →
  (List.length ps + S (List.length its) <= PARAM_MAX)%nat → (List.length its < n)%nat →
  ∃ e', shared e' ∧ params_loop n m ps (at_ line l (tail (items_toks (it :: its)) ++ TP T_RBRACE :: ts) e) =
        Done (ps ++ received_params (it :: its), at_ line l ts e').
Proof.
  induction its as [|it' its IH]; intros it [|n] ps e Hok Hs He Hmax Hn; cbn [List.length] in *; try lia;
    apply Forall_cons in Hok as [(Hsn & Hf & Hv & Hr) Hok];
    cbn [params_loop items_toks tail is_nil app]; rewrite (bind_done _ _ _ _ _ eq_refl); change (p_s _) with (e_s e); rewrite He, Hf; cbv zeta; change (default PARAM_UNKNOWN (Some (i_param it))) with (i_param it);
    rewrite (bind_done _ _ _ _ _ (expect_at line l T_COLON (TP T_COLON) _ e eq_refl I eq_refl)), Hv; cbn [negb]; cbn iota; change (eff (TP T_COLON) e) with e;
    rewrite <- !app_assoc; cbn [app].
  - destruct (Hr line l T_RBRACE ts e eq_refl Hs) as (e1 & Hs1 & E). exists e1. split; [done|].
    rewrite (bind_done _ _ _ _ _ (add_param_at _ _ _ _ ps E ltac:(lia))).
    by rewrite (bind_done _ _ _ _ _ (expect2_at line l T_RBRACE T_COMMA (TP T_RBRACE) ts e1 eq_refl I (or_introl eq_refl))).
  - destruct (Hr line l T_COMMA (TS (i_name it') :: tail (items_toks (it' :: its)) ++ TP T_RBRACE :: ts) e eq_refl Hs) as (e1 & Hs1 & E).
    pose proof (proj1 (Forall_cons_1 _ _ _ Hok)) as (Hsn' & _). apply simple_sendable in Hsn' as [Hsn' _].
    rewrite (bind_done _ _ _ _ _ (add_param_at _ _ _ _ ps E ltac:(lia))).
    rewrite (bind_done _ _ _ _ _ (expect2_at line l T_RBRACE T_COMMA (TP T_COMMA) _ e1 eq_refl I (or_intror eq_refl))).
    cbn [code]. change (T_COMMA =? T_RBRACE) with false. cbn iota. change (eff (TP T_COMMA) e1) with e1.
    rewrite (bind_done _ _ _ _ _ (expect2_at line l TOKEN_STRING T_RBRACE (TS (i_name it')) _ e1 Hsn' I (or_introl eq_refl))).
    cbn [code]. change (TOKEN_STRING =? T_RBRACE) with false. cbn iota.
    destruct (IH it' n (ps ++ [(i_param it, i_val it)]) (eff (TS (i_name it')) e1) Hok Hs1 eq_refl) as (e' & He' & E').
    { rewrite length_app. cbn [List.length]. lia. } { lia. }
    exists e'. split; [done|]. rewrite E'. unfold received_params. by rewrite <- app_assoc.
Qed.

(** *** Messages *)

Definition message_toks (method : string) (its : list Item) (id : Z) : list Tok :=
  [TP T_LBRACE; TS "jsonrpc"; TP T_COLON; TS "2.0"; TP T_COMMA; TS "method"; TP T_COLON; TS method; TP T_COMMA; TS "params"; TP T_COLON; TP T_LBRACE] ++
  items_toks its ++ [TP T_RBRACE; TP T_COMMA; TS "id"; TP T_COLON; TN id; TP T_RBRACE].

(** Reads the next token. *)
Ltac eat :=
  match goal with
  | |- context [(expectToken ?k ≫= _) (at_ ?line ?l (?t :: ?ts) ?e)] => rewrite (bind_done _ _ _ _ _ (expect_at line l k t ts e eq_refl I eq_refl))
  | |- context [(expectString ?s ≫= _) (at_ ?line ?l (TS ?s :: ?ts) ?e)] => rewrite (bind_done _ _ _ _ _ (expectString_at line l s ts e eq_refl))
  end; cbn [eff].

Lemma parse_header_at line l method m ts e : sendable method = true → find_name methods method = Some m →
  ∃ s, parse_header (at_ line l (TS "jsonrpc" :: TP T_COLON :: TS "2.0" :: TP T_COMMA :: TS "method" :: TP T_COLON :: TS method :: TP T_COMMA
                                 :: TS "params" :: TP T_COLON :: ts) e) = Done (m, at_ line l ts (MkEnv (e_b e) (e_i e) s (e_c e))).
Proof.
  intros Hs Hm. unfold parse_header. repeat eat. rewrite (bind_done _ _ _ _ _ (parse_string_at line l method _ _ Hs)). repeat eat. rewrite Hm. by eexists.
Qed.

Lemma parseParams_at m line l ts its e : its ≠ [] → Forall (item_ok m) its → shared e → (List.length its <= PARAM_MAX)%nat →
  ∃ e', shared e' ∧ parseParams m (at_ line l (TP T_LBRACE :: items_toks its ++ TP T_RBRACE :: ts) e) = Done (received_params its, at_ line l ts e').
Proof.
  destruct its as [|it its]; [done|]. intros _ Hok Hs Hmax. unfold parseParams. eat.
  pose proof (proj1 (Forall_cons_1 _ _ _ Hok)) as (Hsn & _). apply simple_sendable in Hsn as [Hsn _].
  change (items_toks (it :: its) ++ TP T_RBRACE :: ts) with (TS (i_name it) :: tail (items_toks (it :: its)) ++ TP T_RBRACE :: ts).
  rewrite (bind_done _ _ _ _ _ (expect2_at line l T_RBRACE TOKEN_STRING (TS (i_name it)) _ e Hsn I (or_intror eq_refl))).
  cbn [code]. change (TOKEN_STRING =? T_RBRACE) with false. cbn iota.
  apply (params_loop_at m line l ts its it _ [] (eff (TS (i_name it)) e) Hok Hs eq_refl Hmax).
  unfold at_, st, front. cbn [p_in]. rewrite print_all_app, !length_app. cbn [items_toks tail].
  change (print_all (TP T_COLON :: ?x)) with ([T_COLON] ++ print_all x). rewrite !length_app, !print_all_app, !length_app.
  pose proof (items_length its []) as HL. rewrite print_all_app, length_app in HL. cbn [List.length print_all flat_map] in HL. lia.
Qed.

Lemma getMessage_at line l method m its id cache : sendable method = true → find_name methods method = Some m →
  its ≠ [] → Forall (item_ok m) its → (List.length its <= PARAM_MAX)%nat → 0 <= id <= INT32_MAX → Forall plain_template cache →
  ∃ cache', Forall plain_template cache' ∧
  getMessage (print_all (message_toks method its id) ++ l) line cache = Done (Some (MkMessage m line id (received_params its)), l, cache').
Proof.
  intros Hsm Hm Hne Hok Hmax Hid Hc. set (e := MkEnv false 0 EmptyString cache).
  destruct (parse_header_at line l method m (TP T_LBRACE :: items_toks its ++ [TP T_RBRACE; TP T_COMMA; TS "id"; TP T_COLON; TN id; TP T_RBRACE]) e Hsm Hm) as (s & EH).
  destruct (parseParams_at m line l [TP T_COMMA; TS "id"; TP T_COLON; TN id; TP T_RBRACE] its (MkEnv false 0 s cache) Hne Hok Hc Hmax) as (e' & He' & EP).
  exists (e_c e'). split; [exact He'|].
  assert (E : parse_message (at_ line l (message_toks method its id) e) = Done (Some (MkMessage m line id (received_params its)), at_ line l [] (MkEnv (e_b e') id (ld id) (e_c e')))).
  { unfold parse_message, message_toks. cbn [app].
    rewrite (bind_done _ _ _ _ _ (expect2_at line l T_LBRACE T_EOF (TP T_LBRACE) _ e eq_refl I (or_introl eq_refl))).
    cbn [code]. change (T_LBRACE =? T_EOF) with false. cbn iota. change (eff (TP T_LBRACE) e) with e.
    rewrite (bind_done _ _ _ _ _ EH). cbn [e_b e_i e_c]. subst e. rewrite (bind_done _ _ _ _ _ EP). repeat eat.
    assert (Hi : tok_ok (TN id) = true) by (unfold tok_ok, INT32_MIN, INT32_MAX in *; lia).
    rewrite (bind_done _ _ _ _ _ (expect_at line l TOKEN_NUMBER (TN id) [TP T_RBRACE] _ Hi eq_refl eq_refl)).
    rewrite (bind_done _ _ _ _ _ eq_refl). rewrite (bind_done _ _ _ _ _ eq_refl). eat.
    unfold mret, M_ret. cbn [eff e_b e_c]. unfold at_ at 1 2, st, front. cbn [p_line p_i eff e_i].
    rewrite wrapu_small by (unfold INT32_MAX in Hid; cbn; lia). done. }
  unfold getMessage. unfold at_, st, front in E. cbn [e_b e_i e_s e_c e] in E. by rewrite E.
Qed.

(** A message may be preceded by the end of a line. *)
Lemma getMessage_newline line x cache : getMessage (10 :: T_LBRACE :: x) line cache = getMessage (T_LBRACE :: x) (line + 1) cache.
Proof. reflexivity. Qed.

(** ** The calls *)

Definition opt {A} (b : bool) (x : A) : list A := if b then [x] else [].

Definition int_item (name : string) (n : ParamName) (i : Z) : Item := MkItem name (int_toks i) n (V_integer i).
Definition string_item (name : string) (n : ParamName) (s : string) : Item := MkItem name [TS s] n (V_string s).
Definition bytes_item (name : string) (n : ParamName) (bs : bytes) : Item :=
  MkItem name (bytes_toks bs) n (V_trampoline (template_of [E9.ENTRY_BYTES bs])).
Definition absolute_item : Item := MkItem "absolute" [TT] PARAM_ABSOLUTE (V_boolean true).
Definition template_item (ds : list Datum) : Item := MkItem "template" (template_toks ds) PARAM_TEMPLATE (V_trampoline (template_of (datum_entries ds))).

Definition call_method (c : Call) : string * E9Api.Method :=
  match c with
  | Binary _ _ => ("binary", E9Api.METHOD_BINARY)
  | Options _ => ("options", E9Api.METHOD_OPTIONS)
  | Instruction _ _ _ => ("instruction", E9Api.METHOD_INSTRUCTION)
  | Emit _ _ => ("emit", E9Api.METHOD_EMIT)
  | Reserve _ _ _ | ReserveData _ _ _ _ _ _ _ _ _ _ => ("reserve", E9Api.METHOD_RESERVE)
  | EmptyTrampoline | TrapTrampoline | SignalTrampoline _ => ("trampoline", E9Api.METHOD_TRAMPOLINE)
  end%string.

(** The parameters of a call, as tokens and as they are received. *)
Definition call_items (VERSION : string) (c : Call) : list Item :=
  match c with
  | Binary mode filename =>
      [string_item "version" PARAM_VERSION VERSION; string_item "filename" PARAM_FILENAME filename;
       MkItem "mode" [TS mode] PARAM_MODE (V_mode (default E9.MODE_ELF_EXE (find_name modes mode)))]
  | Options argv => [MkItem "argv" (argv_toks argv) PARAM_ARGV (V_strings ("<option>"%string :: argv))]
  | Instruction addr size offset =>
      [MkItem "address" [TS (hex_text false (u64 addr))] PARAM_ADDRESS (V_integer addr);
       int_item "length" PARAM_LENGTH size; int_item "offset" PARAM_OFFSET offset]
  | Emit filename format =>
      [string_item "filename" PARAM_FILENAME filename;
       MkItem "format" [TS format] PARAM_FORMAT (V_format (default E9Api.FORMAT_BINARY (find_name formats format)))]
  | Reserve addr len absolute => int_item "address" PARAM_ADDRESS addr :: opt absolute absolute_item ++ [int_item "length" PARAM_LENGTH len]
  | ReserveData addr data len prot init fini mmap absolute preinit postinit =>
      [int_item "address" PARAM_ADDRESS addr; MkItem "protection" [TS (protection_text prot)] PARAM_PROTECTION (V_integer prot)] ++
      opt (negb (init =? 0)) (int_item "init" PARAM_INIT init) ++
      opt (negb (fini =? 0)) (int_item "fini" PARAM_FINI fini) ++
      opt (not_empty preinit) (bytes_item "preinit" PARAM_PREINIT (default [] preinit)) ++
      opt (not_empty postinit) (bytes_item "postinit" PARAM_POSTINIT (default [] postinit)) ++
      opt (negb (mmap =? 0)) (int_item "mmap" PARAM_MMAP mmap) ++
      opt absolute absolute_item ++
      [match data with Some data => bytes_item "bytes" PARAM_BYTES data | None => int_item "length" PARAM_LENGTH len end]
  | EmptyTrampoline => [string_item "name" PARAM_NAME "$empty"; template_item []]
  | TrapTrampoline => [string_item "name" PARAM_NAME "$trap"; template_item [Byte 0xcc]]
  | SignalTrampoline sig => [string_item "name" PARAM_NAME ("$signal_"%string +:+ ld sig); template_item (signal_template sig)]
  end.

(** What the arguments of a call must satisfy: strings that fit the lexer, integers of 64 bits
    that can be negated, names of modes and formats, and no more parameters than a message
    holds. *)
Definition int_ok (i : Z) : Prop := - 2 ^ 63 < i < 2 ^ 63.
Definition len_ok (i : Z) : Prop := 0 <= i < 2 ^ 63.
Definition data_ok (data : option bytes) : Prop := match data with Some bs => bytes_ok bs | None => True end.

Definition call_ok (VERSION : string) (c : Call) : Prop :=
  match c with
  | Binary mode filename => sendable VERSION = true ∧ sendable filename = true ∧ is_Some (find_name modes mode)
  | Options argv => forallb sendable argv = true
  | Instruction addr size offset => - 2 ^ 63 <= addr < 2 ^ 63 ∧ len_ok size ∧ int_ok offset
  | Emit filename format => sendable filename = true ∧ is_Some (find_name formats format)
  | Reserve addr len absolute => int_ok addr ∧ len_ok len
  | ReserveData addr data len prot init fini mmap absolute preinit postinit =>
      int_ok addr ∧ data_ok data ∧ len_ok len ∧ 0 <= prot < 8 ∧ int_ok init ∧ int_ok fini ∧ int_ok mmap ∧ data_ok preinit ∧ data_ok postinit ∧
      (List.length (call_items VERSION c) <= PARAM_MAX)%nat
  | EmptyTrampoline | TrapTrampoline => True
  | SignalTrampoline sig => INT32_MIN <= sig <= INT32_MAX
  end.

Lemma find_name_sendable {A} (table : list (string * A)) s x :
  forallb (λ e, sendable (fst e)) table = true → find_name table s = Some x → sendable s = true.
Proof.
  unfold find_name. intros Ht. destruct (List.find _ table) as [[n y]|] eqn:E; [|done]. intros _. apply find_some in E as [HIn Heq].
  cbn in Heq. apply String.eqb_eq in Heq as <-. rewrite forallb_forall in Ht. exact (Ht _ HIn).
Qed.

Ltac item := split; [reflexivity|split; [reflexivity|split; [reflexivity|cbn [i_param i_toks i_val parseValue absolute_item template_item]]]].

Lemma int_item_ok m name n i : simple name = true → find_name param_names name = Some n → validateParam m n = true →
  parseValue n = (x ← parse_integer; mret (V_integer x)) → int_ok i → item_ok m (int_item name n i).
Proof. intros H1 H2 H3 H4 Hi. split_and!; try done. cbn. rewrite H4. by apply reads_ret, reads_integer. Qed.

Lemma string_item_ok m name n s : simple name = true → find_name param_names name = Some n → validateParam m n = true →
  parseValue n = (x ← parse_string; mret (V_string x)) → sendable s = true → item_ok m (string_item name n s).
Proof. intros H1 H2 H3 H4 Hi. split_and!; try done. cbn. rewrite H4. by apply reads_ret, reads_string. Qed.

Lemma bytes_item_ok m name n bs : simple name = true → find_name param_names name = Some n → validateParam m n = true →
  parseValue n = (x ← parseBytes; mret (V_trampoline x)) → bytes_ok bs → item_ok m (bytes_item name n bs).
Proof. intros H1 H2 H3 H4 Hi. split_and!; try done. cbn. rewrite H4. by apply reads_ret, reads_bytes. Qed.

Lemma template_item_ok ds : Forall datum_ok ds → item_ok E9Api.METHOD_TRAMPOLINE (template_item ds).
Proof. intros Hd. item. by apply (reads_ret _ V_trampoline), reads_template. Qed.

Lemma absolute_item_ok : item_ok E9Api.METHOD_RESERVE absolute_item.
Proof.
  item. intros line l c ts e Hc He. exists (eff TT e). split; [done|]. cbn [app].
  by rewrite (bind_done _ _ _ _ _ (expect_at line l TOKEN_BOOL TT _ e eq_refl I eq_refl)).
Qed.

Lemma opt_ok m b it : (b = true → item_ok m it) → Forall (item_ok m) (opt b it).
Proof. destruct b; intros H; [constructor; [by apply H|done]|done]. Qed.

Lemma len_int i : len_ok i → int_ok i.
Proof. unfold len_ok, int_ok. lia. Qed.

Lemma signal_name sig : INT32_MIN <= sig <= INT32_MAX → simple ("$signal_"%string +:+ ld sig) = true.
Proof.
  intros Hs. destruct (ld_shape sig Hs) as (c & ds & E & Hc & Hds & Hl & _). unfold simple. rewrite <- length_text.
  unfold text. rewrite bytes_of_string_app. fold (text (ld sig)). rewrite E. apply andb_true_iff. split.
  - apply Nat.ltb_lt. rewrite length_app. unfold STRING_MAX. cbn [List.length]. change (List.length (bytes_of_string "$signal_")) with 8%nat. lia.
  - rewrite forallb_app. apply andb_true_iff. split; [reflexivity|]. cbn [forallb].
    assert (Hdig : ∀ x, isdigit x = true → simple_byte x = true).
    { unfold isdigit, simple_byte, plain_byte, between, one_of, T_BACKSLASH, T_QUOTE. cbn [existsb]. intros x Hx. lia. }
    apply andb_true_iff. split; [destruct Hc as [->|Hc]; [done|by apply Hdig]|]. apply forallb_forall. rewrite Forall_forall in Hds.
    intros x Hx. apply Hdig, Hds. by apply list_elem_of_In.
Qed.

Ltac items := rewrite ?Forall_cons, ?Forall_nil; split_and!; try exact I.

Lemma call_items_ok VERSION c : call_ok VERSION c → Forall (item_ok (snd (call_method c))) (call_items VERSION c).
Proof.
  destruct c; cbn [call_ok call_items call_method snd].
  - intros (Hv & Hf & [x Hm]). items; [by apply string_item_ok..|]. item. rewrite Hm.
    apply (reads_ret _ V_mode), reads_name; [eapply find_name_sendable; [|exact Hm]; reflexivity|done].
  - intros H. constructor; [|done]. item. by apply (reads_ret _ V_strings), reads_strings.
  - intros (Ha & Hs & Ho). items; [item; by apply (reads_ret _ V_integer), reads_address|apply int_item_ok..]; try done. by apply len_int.
  - intros (Hf & [x Hm]). items; [by apply string_item_ok|]. item. rewrite Hm.
    apply (reads_ret _ V_format), reads_name; [eapply find_name_sendable; [|exact Hm]; reflexivity|done].
  - intros (Ha & Hl). constructor; [by apply int_item_ok|]. apply Forall_app. split; [apply opt_ok; intros _; apply absolute_item_ok|].
    constructor; [|done]. apply int_item_ok; try done. by apply len_int.
  - intros (Ha & Hd & Hl & Hp & Hi & Hfi & Hm & Hpre & Hpost & _).
    assert (Hdata : ∀ d, data_ok d → bytes_ok (default [] d)) by (intros [d|] H; [exact H|constructor]).
    repeat (apply Forall_app; split); try (apply opt_ok; intros _; first [apply int_item_ok; done|apply bytes_item_ok; try done; by apply Hdata|apply absolute_item_ok]).
    + items; [by apply int_item_ok|]. item. by apply (reads_ret _ V_integer), reads_protection.
    + constructor; [|done]. destruct data; [by apply bytes_item_ok|]. apply int_item_ok; try done. by apply len_int.
  - intros _. items; [by apply string_item_ok|]. by apply template_item_ok.
  - intros _. items; [by apply string_item_ok|]. apply template_item_ok. by repeat constructor.
  - intros Hs. items; [apply string_item_ok; try done; by apply simple_sendable, signal_name|]. apply template_item_ok.
    unfold signal_template. repeat (constructor; [done|]). done.
Qed.

(** ** What is sent are these tokens *)

Definition send_item (last : bool) (it : Item) : bytes := send_param (i_name it) (print_all (i_toks it)) last.

Fixpoint send_items (its : list Item) : bytes :=
  match its with [] => [] | it :: its => send_item (is_nil its) it ++ send_items its end.

Lemma print_items its : Forall (λ it, simple (i_name it) = true) its → print_all (items_toks its) = send_items its.
Proof.
  induction 1 as [|it its Hn _ IH]; [done|]. cbn [items_toks send_items].
  change (print_all (TS (i_name it) :: ?x)) with (sendString (i_name it) ++ print_all x). change (print_all (TP T_COLON :: ?x)) with ([T_COLON] ++ print_all x).
  rewrite !print_all_app, IH. unfold send_item, send_param, sendParamHeader. rewrite (proj2 (simple_sendable _ Hn)), <- !app_assoc.
  by destruct (is_nil its).
Qed.

Lemma send_items_cons it its : is_nil its = false → send_items (it :: its) = send_item false it ++ send_items its.
Proof. cbn [send_items]. by intros ->. Qed.

Lemma send_items_opt b it its : is_nil its = false → send_items (opt b it ++ its) = send_if b (send_item false it) ++ send_items its.
Proof. destruct b; [apply send_items_cons|done]. Qed.

Lemma is_nil_app {A} (xs ys : list A) : is_nil ys = false → is_nil (xs ++ ys) = false.
Proof. by destruct xs. Qed.

Lemma send_message method its id : simple method = true → Forall (λ it, simple (i_name it) = true) its → 0 <= id <= INT32_MAX →
  sendMessageHeader method ++ send_items its ++ sendMessageFooter id = print_all (message_toks method its id) ++ [10].
Proof.
  intros Hm Hn Hid. unfold message_toks. rewrite print_all_app. rewrite (print_all_app (items_toks its)), print_items by done.
  unfold sendMessageHeader, sendMessageFooter. rewrite (proj2 (simple_sendable _ Hm)), wrapu_small by (unfold INT32_MAX in Hid; cbn; lia).
  assert (E : dec id = ld id) by (unfold ld; destruct (Z.ltb_spec id 0); [lia|done]). rewrite E.
  rewrite <- !app_assoc. unfold print_all. cbn [flat_map print]. rewrite <- !app_assoc. reflexivity.
Qed.

Lemma int_item_send name n i last : send_item last (int_item name n i) = send_param name (sendInteger i) last.
Proof. unfold send_item. cbn [int_item i_name i_toks]. by rewrite sendInteger_toks. Qed.

Lemma string_item_send name n s last : send_item last (string_item name n s) = send_param name (sendString s) last.
Proof. unfold send_item, print_all. cbn [string_item i_name i_toks flat_map print]. by rewrite app_nil_r. Qed.

Lemma bytes_item_send name n bs last : bytes_ok bs → send_item last (bytes_item name n bs) = send_param name (sendBytes bs) last.
Proof. intros Hb. unfold send_item. cbn [bytes_item i_name i_toks]. by rewrite sendBytes_toks. Qed.

Lemma template_item_send ds last : Forall datum_ok ds →
  send_item last (template_item ds) = send_param "template" ([T_LBRACK] ++ send_list send_datum false ds ++ [T_RBRACK]) last.
Proof.
  intros Hd. assert (E : print_all (template_toks ds) = [T_LBRACK] ++ send_list send_datum false ds ++ [T_RBRACK]).
  { unfold template_toks. change (TP T_LBRACK :: ?x) with ([TP T_LBRACK] ++ x). rewrite !print_all_app, (send_list_toks _ send_datum); [done|].
    eapply Forall_impl; [exact Hd|]. apply send_datum_toks. }
  unfold send_item. cbn [template_item i_name i_toks]. by rewrite E.
Qed.

Lemma len_s64 i : len_ok i → s64 i = i.
Proof. unfold len_ok. intros H. apply wraps_small; cbn; lia. Qed.

Lemma send_call VERSION c id : call_ok VERSION c →
  send VERSION c id = sendMessageHeader (fst (call_method c)) ++ send_items (call_items VERSION c) ++ sendMessageFooter id.
Proof.
  destruct c; cbn [call_ok send call_method fst call_items].
  - intros _. unfold sendBinaryMessage. cbn [send_items is_nil]. rewrite !string_item_send, <- !app_assoc. cbn [app].
    unfold send_item, print_all. cbn [i_name i_toks flat_map print]. by rewrite app_nil_r.
  - intros _. unfold sendOptionsMessage. cbn [send_items is_nil]. rewrite app_nil_r. unfold send_item. cbn [i_name i_toks]. by rewrite argv_send.
  - intros (Ha & Hs & Ho). unfold sendInstructionMessage. cbn [send_items is_nil]. rewrite !int_item_send, len_s64, <- !app_assoc by done. cbn [app].
    unfold send_item, print_all. cbn [i_name i_toks flat_map print]. rewrite app_nil_r.
    rewrite <- (proj2 (simple_sendable _ (hex_text_simple false (u64 addr) ltac:(apply wrapu_range; lia)))). reflexivity.
  - intros _. unfold sendEmitMessage. cbn [send_items is_nil]. rewrite string_item_send, <- !app_assoc. cbn [app].
    unfold send_item, print_all. cbn [i_name i_toks flat_map print]. by rewrite app_nil_r.
  - intros (Ha & Hl). unfold sendReserveMessage. rewrite send_items_cons, send_items_opt by (try apply is_nil_app; done).
    cbn [send_items is_nil]. rewrite !int_item_send, len_s64, app_nil_r, <- !app_assoc by done. reflexivity.
  - intros (Ha & Hd & Hl & Hp & Hi & Hfi & Hm & Hpre & Hpost & _). unfold sendReserveDataMessage. cbn [app].
    rewrite !send_items_cons, !send_items_opt by (repeat apply is_nil_app; done).
    rewrite !int_item_send, (proj1 (protection_quoted prot)), <- !app_assoc.
    assert (Hdata : ∀ d, data_ok d → bytes_ok (default [] d)) by (intros [d|] H; [exact H|constructor]).
    rewrite !bytes_item_send by (by apply Hdata).
    unfold send_item at 1. unfold print_all at 1. cbn [i_name i_toks flat_map print]. rewrite app_nil_r. do 9 f_equal.
    destruct data; cbn [send_items is_nil]; [rewrite bytes_item_send by done|rewrite int_item_send, len_s64 by done]; by rewrite app_nil_r.
  - intros _. unfold sendEmptyTrampolineMessage. cbn [send_items is_nil]. rewrite string_item_send, template_item_send, <- !app_assoc by done. reflexivity.
  - intros _. unfold sendTrapTrampolineMessage. cbn [send_items is_nil]. rewrite string_item_send, template_item_send, <- !app_assoc by (by repeat constructor). reflexivity.
  - intros Hs. unfold sendSignalTrampolineMessage. cbn [send_items is_nil]. rewrite string_item_send, template_item_send, <- !app_assoc.
    + by rewrite (proj2 (simple_sendable _ (signal_name sig Hs))).
    + unfold signal_template. repeat (constructor; [done|]). done.
Qed.

(** ** Sessions *)

(** The messages of a session: the n-th one has the number n and was read in line n + 1. *)
Fixpoint received (VERSION : string) (line id : Z) (cs : list Call) : list Message :=
  match cs with
  | [] => []
  | c :: cs => MkMessage (snd (call_method c)) line id (received_params (call_items VERSION c)) :: received VERSION (line + 1) (id + 1) cs
  end.

Lemma call_items_max VERSION c : call_ok VERSION c → call_items VERSION c ≠ [] ∧ (List.length (call_items VERSION c) <= PARAM_MAX)%nat.
Proof.
  unfold PARAM_MAX. destruct c; cbn [call_ok]; intros H; try (split; [done|cbn; lia]).
  - split; [done|]. cbn [call_items List.length]. rewrite length_app. destruct absolute; cbn; lia.
  - split; [done|]. destruct H as (_ & _ & _ & _ & _ & _ & _ & _ & _ & H). exact H.
Qed.

Lemma receive_call VERSION c id rest line cache : call_ok VERSION c → 0 <= id <= INT32_MAX → Forall plain_template cache →
  ∃ x cache', Forall plain_template cache' ∧ send VERSION c id = T_LBRACE :: x ∧
  getMessage (send VERSION c id ++ rest) line cache =
  Done (Some (MkMessage (snd (call_method c)) line id (received_params (call_items VERSION c))), 10 :: rest, cache').
Proof.
  intros Hc Hid Hca. pose proof (call_items_ok VERSION c Hc) as Hok. destruct (call_items_max VERSION c Hc) as [Hne Hmax].
  assert (Hm : simple (fst (call_method c)) = true ∧ find_name methods (fst (call_method c)) = Some (snd (call_method c))) by (by destruct c).
  destruct (getMessage_at line (10 :: rest) (fst (call_method c)) (snd (call_method c)) (call_items VERSION c) id cache
    (proj1 (simple_sendable _ (proj1 Hm))) (proj2 Hm) Hne Hok Hmax Hid Hca) as (cache' & Hca' & E).
  assert (Hn : Forall (λ it, simple (i_name it) = true) (call_items VERSION c)) by (eapply Forall_impl; [exact Hok|by intros it [H _]]).
  pose proof (send_message _ _ id (proj1 Hm) Hn Hid) as ES. rewrite <- send_call in ES by done.
  eexists _, cache'. split; [exact Hca'|]. split; [rewrite (send_call _ _ _ Hc); reflexivity|]. rewrite ES, <- app_assoc. exact E.
Qed.


(** A session with every kind of message, a string with special characters and integers of
    both formats. *)
Definition example_session : list Call :=
  [Binary "elf.exe" "/bin/ls"; Options ["--mem-granularity=4096"%string; String (ascii_of_N 34) (String (ascii_of_N 92) (String (ascii_of_N 10) "x"))];
   Reserve (- 0x123456789ABC) 4096 true;
   ReserveData 0x70000000 (Some [0x55; 0xC3]) 0 5 0x70000000 0 0xFFFFFFFFF false None (Some [0x90]);
   EmptyTrampoline; TrapTrampoline; SignalTrampoline (- 11); Instruction (- 1) 3 0x123; Emit "a.out" "patch.gz"].


(** ** What is not received *)

(** A reservation with all its optional parameters has nine of them, and is rejected. *)
Lemma reserve_full_rejected :
  getMessage (send "1.0" (ReserveData 0x70000000 (Some [0xC3]) 0 5 1 2 3 true (Some [0x90]) (Some [0x90])) 0) 1 [] = Failed.
Proof. vm_compute. reflexivity. Qed.

(** A file name with the byte 0xFF is rejected, since the byte is taken for the end of the file. *)
Lemma eof_byte_rejected : getMessage (send "1.0" (Emit (String (ascii_of_N 255) EmptyString) "binary") 0) 1 [] = Failed.
Proof. vm_compute. reflexivity. Qed.

(** A data entry whose type is any word with z and which has no value becomes a label without
    a name. *)
Lemma zoo_accepted :
  getMessage (print_all ([TP T_LBRACE; TS "jsonrpc"; TP T_COLON; TS "2.0"; TP T_COMMA; TS "method"; TP T_COLON; TS "trampoline"; TP T_COMMA; TS "params";
    TP T_COLON; TP T_LBRACE; TS "template"; TP T_COLON; TP T_LBRACE; TS "zoo"; TP T_COLON; TP T_RBRACE])) 1 [] = Undefined.
Proof. vm_compute. reflexivity. Qed.

End FrontendSpec.
